(* ===== verification/_CoqProject ===== *)
-Q . S2P
Prelude.v
Rot13.v
Arcfour.v
Base64.v
BlockHash.v
Sha256.v
Sha1.v
Md5.v
Md2.v
AesTables.v
Aes.v
AesModes.v
AesCcm.v
Des.v
BlowfishTables.v
Blowfish.v
Avl.v
SLinkList.v
Kcp.v
KcpWire.v
KcpRecv.v
KcpAcks.v
KcpFlush.v
KcpSend.v
KcpInput.v
KcpApi.v
KcpNet.v
KcpEdge.v
Interleave.v
Mempool.v
RwLock.v
RwLockProof.v
MpmcQueue.v
MpmcProof.v
MpmcSystem.v
SpscQueue.v
SpscProof.v
RingBuffer.v
RingProof.v
Sds.v
SdsProof.v
SdsText.v
SdsFmt.v
SdsArgs.v
Coding.v
Bloom.v
BloomProof.v
BloomTable.v
BloomPages.v
BloomContainer.v
Cmap.v
LsmTable.v
LsmMem.v
LsmRetain.v
LsmDisk.v
LsmLookup.v
LsmSystem.v
LsmFeed.v
LsmDemo.v
Stdio.v
Db.v
DbMeta.v
DbTable.v
DbConf.v
DbInv.v
DbProof.v
DbText.v
DbTree.v
DbReload.v
DbSystem.v
DbDemo.v
BTree.v
BTreeNode.v
BTreeShape.v
BTreeInsert.v
BTreeSearch.v
BTreeRemove.v
BTreeSystem.v
BTreeDemo.v
