(* ===== verification/Prelude.v ===== *)
(** * A verification library for the C_learn repository

    The repository is a collection of C programs.  This library models its
    self-contained components that compute something: ciphers and hashes, two
    balanced trees, an array-based list, a transport protocol, three queues
    between threads, dynamic strings, and the storage layer of a key-value
    store with its locks and pools.  The components do not call each other except where said below, so
    each has files of its own on top of this one.

    ** Conventions

    C code is translated function by function.  A function that can go wrong
    returns [exec]: [Done] with its result, [Fault] for undefined behaviour or
    a failed assertion, [NoFuel] when a loop that is not structurally recursive
    has used up its fuel.  Theorems state [Done]: memory safety, assertions and
    termination are part of them, and the fuel the definitions pass on (the
    length of the buffer, the number of slots, nodes, pages or barrels) is
    proved to be enough.  State is passed explicitly.  Arrays are lists with
    checked access ([load], [store], [memcpy], [memset]).  Integers are [Z],
    reduced with [u8], [u16], [u32], [u64] or [s32] wherever the source has a
    width; signed overflow wraps, as on the target.  Little-endian layout, as
    on the target, is [le] and [le_value].  Memory that malloc returns is a
    parameter [junk] of arbitrary content.  Where the source handles failing
    allocation it is modelled; where it asserts or ignores it, allocation
    succeeds.  This file has [exec], the arrays, the widths, the tactics
    ([run], [bits], [lia_div], [explode]) and the lemmas shared by all parts.

    ** Hashes and ciphers: src/crypto-algorithms_learn

    - Rot13, Arcfour, Base64: rot-13.c, arcfour.c, base64.c.  base64_encode
      writes the RFC 4648 text and decoding gives it back; arcfour outputs the
      RC4 stream.
    - BlockHash is the class of hashes that buffer 64-byte blocks; Sha256,
      Sha1 and Md5 are its instances, Md2 is separate: sha256.c, sha1.c, md5.c,
      md2.c.  Any sequence of updates between init and final computes the
      digest of the standard on the concatenated message (shorter than 2^32
      bytes per call: the counters of the code are 32 bits wide).
    - AesTables, Aes, AesModes, AesCcm: aes.c.  The block cipher is FIPS 197
      for the three key sizes and decryption inverts it; CBC, CTR and CBC-MAC
      follow their definitions; CCM follows SP 800-38C where its formatting
      does, decryption accepts exactly the right tags, and it recovers every
      payload but an empty one, unless the lengths make encryption overflow its
      buffer.  Payloads have at most 2^30 bytes, so that lengths fit the int
      parameters.
    - Des, BlowfishTables, Blowfish: des.c, blowfish.c, against FIPS 46-3 on
      bits and against the description of Blowfish.

    ** Data structures: src/DataStruct_learn

    - Avl: Tree/avl_tree/avl_tree.c.  insert keeps order, heights and balance;
      delete keeps the keys where it returns, but rebalances the wrong way.
    - BTree: Tree/btree/btree.c, the B-tree of order four over a memory of
      nodes in which every access goes through a pointer.  BTreeNode: splitting,
      merging and borrowing on the nodes involved.  BTreeShape: the tree that a
      pointer stands for, and what a change in a subtree means for the rest of
      memory.  BTreeInsert, BTreeSearch, BTreeRemove: the operations.
      BTreeSystem: trees created from an array, sessions of any operations,
      deletion, and a deletion from the root that loses another key.  BTreeDemo: instances.
      calloc succeeds as long as there is room for another node; a tree with n
      keys needs room for n nodes and log2 (n + 1) levels of recursion, which is
      what the fuel counts.
    - SLinkList: Array/SLinkList/SLinkList.c, lists in an array with a free
      list; every sequence of operations refines the same one on lists, except
      that an insertion that finds no free slot cuts the list.

    ** KCP: src/kcp_learn/ikcp.c

    Kcp has the code.  KcpWire is the encoding of segments; KcpRecv, KcpAcks,
    KcpSend, KcpFlush and KcpInput prove the parts; KcpApi that any sequence of
    calls with any bytes from the network keeps the control block well formed,
    as long as ikcp_setmtu does not make datagrams too small for the segments
    already cut, after which ikcp_flush overruns its buffer; KcpNet that over a network that loses, delays, duplicates and reorders
    datagrams the messages delivered are a prefix of those sent; KcpEdge has
    the schedule of ikcp_check and inputs on which the code departs from its
    interface.  Sequence numbers wrap modulo 2^32; the send window is below
    2^31, the receive window, which is announced in 16 bits, below 2^16, and
    buffers below 2^31 bytes.  The queues are lists of segments; the output
    callback is the list of datagrams a call returns; logging is left out.

    ** Queues between threads: src/demo/queue

    Interleave has the transition system: threads are machines whose steps are
    single accesses to shared words, interleaved in any order in a sequentially
    consistent memory, and the simulation lemma that turns an invariant into a
    refinement.  MpmcQueue, MpmcProof and MpmcSystem: mpmc_queue.c refines a
    bounded queue with batch consumers, as long as no compare-and-swap of a
    producer spans 2^32 updates (the hypothesis [admissible] on the schedule),
    and a thread that runs alone returns.  SpscQueue and SpscProof: spsc_queue.c
    is a first-in first-out queue for fewer than 2^64 elements.  RingBuffer and
    RingProof: ringbuffer.c is a queue of messages when they fit a cache line;
    with longer ones the padding is read as a message.

    ** Dynamic strings: src/demo/config_parse/sds.c

    Sds has the code; SdsProof that every sequence of changing operations stays
    within the buffer and acts on the bytes as documented, except that sdstrim
    also removes zero bytes at the ends; SdsText decimal numbers;
    SdsFmt sdscatfmt; SdsArgs that sdssplitargs undoes sdscatrepr and that
    sdssplitlen splits what joining puts together.

    ** The LSM-trie: src/DataStruct_learn/Tree/lsm-trie

    - Coding: coding.c and coding.h, integers in 7-bit groups.
    - Mempool: mempool.c.  Under every interleaving of allocating threads a
      pool is a bump allocator whose blocks are disjoint (requests below
      2^32 - 8 bytes; a pool and its pending requests below 2^64).
    - RwLock, RwLockProof: rwlock.c.  A thread runs from one wait on a condition
      variable to the next.  Under every interleaving, spurious wake-ups
      included, the lock refines a fair read-write lock (writers in order, a
      reader overtaken by at most one writer), and no wake-up is lost.
    - Cmap: cmap.c.  The bitmap of containers refines a set of units, unless
      the random start of a search is within the number of units of 2^64.
    - Bloom, BloomProof, BloomTable, BloomPages, BloomContainer: bloom.c.  A
      filter has no false negatives and answers true exactly when all probes
      are set; a table of filters answers like its filters, also from a file;
      a container, which merges up to 64 tables page by page, answers with one
      bit per table; the filters of a barrel have to fit on one page, or an
      assertion of the code fails.
    - LsmTable: table.c on top of coding, pools and filters.  LsmMem: a table in memory is a
      finite map.  LsmRetain: moving items between barrels keeps the map and
      leaves, for every item, a path of notes from its home barrel.  LsmDisk,
      LsmLookup: pages, the meta index with its binary search, and the search
      on disk, which follows the notes and ends.  LsmSystem: from insertions to
      lookups on disk.  LsmFeed: merging pages into other tables.  LsmDemo: an
      instance of the whole way.
      SHA1 is a function of OpenSSL, of which only the 20 bytes of its result
      are used; qsort is any sort (class [Qsort]), as the C standard does not
      say how equal elements are ordered; the function that chooses a table is
      a parameter.  An item fits on a page, and no balanced barrel has 64 KiB
      or more, since the volume of a barrel is kept in 16 bits.  A file is its
      bytes, and reads and writes are complete.
    - Stdio: lines and numbers of the C library (fgets, strtoull, printf).
    - Db, DbMeta: db.c, the database on top of tables, filters and container
      maps.  Db has the active table, the thread that writes it, compaction of
      the tree of containers and lookups; DbMeta the configuration file, saving
      and loading.  The state has the bytes of the devices, the bitmaps of
      their units and the metadata files.
      DbConf: the configuration file is read as it was written.  DbTable,
      DbInv: every table and every container of filters has a unit and a file
      of its own, which writing others leaves alone.  DbProof, DbTree:
      compaction moves the pairs of a container to its children and hides
      none.  DbText, DbReload: the text of the tree is read as the same tree,
      with the tables of the metadata files.  DbSystem: after any sequence of
      insertions, turns of the dumper, compactions and reopenings a lookup
      returns what was inserted last, or an older value from the disk when the
      table of the last one was dropped or not yet written; a compaction of a
      table with an empty barrel fails.  DbDemo: instances.
      A step is what a thread does between two points where it takes or gives
      up the lock for writing; steps are not interrupted, although a lookup may
      run while the dumper balances the old table (a finding), and a thread
      that waits takes no step.  A step that fails an assertion ends the
      program.  The fuel of a compaction bounds how often the loop on full
      children runs, which one theorem shows may be for ever; lookups and
      saving go down five levels, as many as there are; loading has the length
      of the text as fuel.  A run has less than 2^59 steps, so that the numbers
      of files do not wrap around.

    ** Not modelled

    - Of the LSM-trie: the condition variables and locks of db.c, its log and
      the backup copies of what it saves; conc.c starts threads; the others
      measure and print.
    - The parts of the KCP directory that open sockets, and all test programs.
    - demo/bplustree, demo/libmdb, the event loops and the thread pool of demo:
      they are built around files, memory maps, sockets and the scheduler.
    - The kernel modules and the clients of third-party libraries: most of
      their behaviour is in interfaces that are not part of the repository.
      linux_module_learn/json does not return on a complete text: it follows a
      null pointer when the text ends.
    - The programs that show one system call, one function of the C library,
      one feature of the language or of the tools, and the exercises that read
      from the terminal and print.
    - Weak memory: the interleavings are those of a sequentially consistent
      memory, although the queues name weaker orders.
    - Releasing memory: free and its relatives have no effect in the models,
      except for the nodes of the B-tree and the active tables of the database. *)

From stdpp Require Export base numbers list list_numbers option gmap.
From Stdlib Require Export ZArith Zbitwise Lia Btauto.

Declare Scope c_scope.
Delimit Scope c_scope with c.

Open Scope Z_scope.

(** ** Outcomes of running a C function *)

(** [Done a]: the function returned [a].  [Fault]: undefined behaviour (an
    access outside an object, a division by zero).  [NoFuel]: a loop did not
    finish within the fuel given to it. *)
Inductive exec (A : Type) : Type :=
  | Done (a : A)
  | Fault
  | NoFuel.
Arguments Done {A} a.
Arguments Fault {A}.
Arguments NoFuel {A}.

#[export] Instance exec_ret : MRet exec := fun A a => Done a.
#[export] Instance exec_bind : MBind exec := fun A B f m =>
  match m with Done a => f a | Fault => Fault | NoFuel => NoFuel end.

#[export] Instance exec_eq_dec `{EqDecision A} : EqDecision (exec A).
Proof. solve_decision. Defined.

(** Runs the continuation of a call that has returned. *)
Ltac run := cbn [mbind exec_bind].

(** Splits what is known of the elements of an explicit list. *)
Ltac inv_Forall :=
  repeat match goal with
    | H : Forall _ (_ :: _) |- _ => inversion_clear H
    | H : Forall _ [] |- _ => clear H
    end.

(** Names the elements of a list of known length. *)
Ltac explode l :=
  lazymatch goal with
  | H : length l = O |- _ => destruct l; [clear H | discriminate H]
  | H : length l = S _ |- _ =>
      let x := fresh "x" in
      destruct l as [|x l]; [discriminate H | cbn [length] in H; apply Nat.succ_inj in H; explode l]
  end.

(** [lia] with division and remainder. *)
Ltac lia_div := zify; Z.to_euclidean_division_equations; lia.

#[global] Arguments Nat.div : simpl never.
#[global] Arguments Nat.modulo : simpl never.

Lemma bind_Done {A B} (a : A) (f : A -> exec B) : (Done a ≫= f) = f a.
Proof. reflexivity. Qed.

Lemma bind_Done_inv {A B} (m : exec A) (f : A -> exec B) b :
  (m ≫= f) = Done b -> exists a, m = Done a /\ f a = Done b.
Proof. destruct m; simpl; intros H; try discriminate; eauto. Qed.

(** [returns m P]: running [m] terminates normally with a result in [P]. *)
Definition returns {A} (m : exec A) (P : A -> Prop) : Prop :=
  exists a, m = Done a /\ P a.

Lemma returns_Done {A} (a : A) (P : A -> Prop) : P a -> returns (Done a) P.
Proof. intros; eexists; eauto. Qed.

Lemma returns_bind {A B} (m : exec A) (f : A -> exec B) P Q :
  returns m P -> (forall a, P a -> returns (f a) Q) -> returns (m ≫= f) Q.
Proof. intros (a & -> & Ha) Hf. exact (Hf a Ha). Qed.

Lemma returns_weaken {A} (m : exec A) (P Q : A -> Prop) :
  returns m P -> (forall a, P a -> Q a) -> returns m Q.
Proof. intros (a & -> & Ha) H. eexists; eauto. Qed.

(** ** Objects in memory: arrays with checked accesses *)

Section arrays.
Context {A : Type}.

Definition load (a : list A) (i : nat) : exec A :=
  match a !! i with Some x => Done x | None => Fault end.

Fixpoint store (a : list A) (i : nat) (x : A) : exec (list A) :=
  match a, i with
  | [], _ => Fault
  | _ :: a', O => Done (x :: a')
  | y :: a', S i' => r ← store a' i' x; Done (y :: r)
  end.

(** [memcpy (&dst[i]) (&src[j]) n] on two distinct objects. *)
Definition memcpy (dst : list A) (i : nat) (src : list A) (j n : nat) : exec (list A) :=
  if decide (i + n <= length dst /\ j + n <= length src)%nat
  then Done (take i dst ++ take n (drop j src) ++ drop (i + n) dst)
  else Fault.

(** [memset (&dst[i]) v n]. *)
Definition memset (dst : list A) (i : nat) (v : A) (n : nat) : exec (list A) :=
  if decide (i + n <= length dst)%nat
  then Done (take i dst ++ replicate n v ++ drop (i + n) dst)
  else Fault.

Lemma load_Done (a : list A) i x : a !! i = Some x -> load a i = Done x.
Proof. unfold load. by intros ->. Qed.

Lemma load_lt (a : list A) i : (i < length a)%nat -> exists x, a !! i = Some x /\ load a i = Done x.
Proof.
  intros Hi. destruct (lookup_lt_is_Some_2 a i Hi) as [x Hx].
  exists x. split; [done|]. by apply load_Done.
Qed.

Lemma store_lt (a : list A) i x : (i < length a)%nat -> store a i x = Done (<[i:=x]> a).
Proof.
  revert i. induction a as [|y a IH]; intros [|i] Hi; simpl in *; try lia; [done|].
  by rewrite IH by lia.
Qed.

Lemma store_ge (a : list A) i x : (length a <= i)%nat -> store a i x = Fault.
Proof.
  revert i. induction a as [|y a IH]; intros [|i] Hi; simpl in *; try lia; try done.
  by rewrite IH by lia.
Qed.

Lemma memcpy_in dst i src j n :
  (i + n <= length dst)%nat -> (j + n <= length src)%nat ->
  memcpy dst i src j n = Done (take i dst ++ take n (drop j src) ++ drop (i + n) dst).
Proof. intros. unfold memcpy. by rewrite decide_True. Qed.

Lemma memset_in dst i v n :
  (i + n <= length dst)%nat ->
  memset dst i v n = Done (take i dst ++ replicate n v ++ drop (i + n) dst).
Proof. intros. unfold memset. by rewrite decide_True. Qed.
End arrays.

(** ** Loops *)

Section loops.
Context {S : Type}.

(** [for (i = lo; i < lo + n; ++i) body]. *)
Fixpoint for_range (lo n : nat) (body : nat -> S -> exec S) (s : S) : exec S :=
  match n with
  | O => Done s
  | Datatypes.S n' => s' ← body lo s; for_range (Datatypes.S lo) n' body s'
  end.

(** [while (cond) body], cut off after [fuel] iterations. *)
Fixpoint while (fuel : nat) (cond : S -> bool) (body : S -> exec S) (s : S) : exec S :=
  if cond s then
    match fuel with
    | O => NoFuel
    | Datatypes.S fuel' => s' ← body s; while fuel' cond body s'
    end
  else Done s.

Lemma for_range_S lo n body s :
  for_range lo (Datatypes.S n) body s = (s' ← body lo s; for_range (Datatypes.S lo) n body s').
Proof. reflexivity. Qed.

(** The loop rule: an invariant indexed by the loop counter. *)
Lemma for_range_inv (P : nat -> S -> Prop) (body : nat -> S -> exec S) n : forall lo s,
  P lo s ->
  (forall i s, (lo <= i < lo + n)%nat -> P i s -> returns (body i s) (P (Datatypes.S i))) ->
  returns (for_range lo n body s) (P (lo + n)%nat).
Proof.
  induction n as [|n IH]; intros lo s Hs Hbody; simpl.
  - apply returns_Done. by rewrite Nat.add_0_r.
  - eapply returns_bind; [apply Hbody; [lia|done]|].
    intros s' Hs'. replace (lo + Datatypes.S n)%nat with (Datatypes.S lo + n)%nat by lia.
    apply IH; [done|]. intros i s'' Hi. apply Hbody. lia.
Qed.

Lemma for_range_app lo n m body s :
  for_range lo (n + m) body s =
    (s' ← for_range lo n body s; for_range (lo + n) m body s').
Proof.
  revert lo s. induction n as [|n IH]; intros lo s; simpl.
  - by rewrite Nat.add_0_r.
  - destruct (body lo s) as [s'| |]; simpl; try done.
    rewrite IH. by rewrite Nat.add_succ_r.
Qed.

(** The same rule for [while], with a variant bounding the iterations. *)
Lemma while_inv (P : S -> Prop) (measure : S -> nat) cond body fuel : forall s,
  (measure s <= fuel)%nat ->
  P s ->
  (forall s, P s -> cond s = true ->
     returns (body s) (fun s' => P s' /\ (measure s' < measure s)%nat)) ->
  returns (while fuel cond body s) (fun s' => P s' /\ cond s' = false).
Proof.
  induction fuel as [|fuel IH]; intros s Hm HP Hbody; simpl;
    destruct (cond s) eqn:Hc; try by apply returns_Done.
  - exfalso. destruct (Hbody s HP Hc) as (s' & _ & _ & Hlt). lia.
  - eapply returns_bind; [by apply Hbody|]. intros s' [HP' Hlt].
    apply IH; [lia|done|done].
Qed.
End loops.

(** ** Fixed-width integers *)

Definition u8 (z : Z) : Z := z mod 2 ^ 8.
Definition u16 (z : Z) : Z := z mod 2 ^ 16.
Definition u32 (z : Z) : Z := z mod 2 ^ 32.
Definition u64 (z : Z) : Z := z mod 2 ^ 64.

(** Conversion to [int]. *)
Definition s32 (z : Z) : Z := (z + 2 ^ 31) mod 2 ^ 32 - 2 ^ 31.

Definition is_u8 (z : Z) : Prop := 0 <= z < 2 ^ 8.
Definition is_u32 (z : Z) : Prop := 0 <= z < 2 ^ 32.
Definition is_u64 (z : Z) : Prop := 0 <= z < 2 ^ 64.

#[export] Instance is_u8_dec z : Decision (is_u8 z).
Proof. unfold is_u8. apply _. Defined.
#[export] Instance is_u32_dec z : Decision (is_u32 z).
Proof. unfold is_u32. apply _. Defined.

(** A buffer of bytes. *)
Definition bytes (l : list Z) : Prop := Forall is_u8 l.

(** ** Shared lemmas *)

(** Deciding a property of every integer of a small range by evaluation. *)
Lemma check_range (P : Z -> bool) lo n :
  forallb P (seqZ lo n) = true -> forall x, lo <= x < lo + n -> P x = true.
Proof.
  intros H x Hx. rewrite forallb_forall in H. apply H.
  apply list_elem_of_In, elem_of_seqZ. lia.
Qed.

Lemma load_middle {A} (pre : list A) x post : load (pre ++ x :: post) (length pre) = Done x.
Proof. apply load_Done. by rewrite list_lookup_middle. Qed.

Lemma store_middle {A} (pre : list A) x y post :
  store (pre ++ x :: post) (length pre) y = Done (pre ++ y :: post).
Proof.
  rewrite store_lt by (rewrite length_app; simpl; lia).
  by rewrite insert_app_r_alt, Nat.sub_diag by lia.
Qed.

(** A loop that rewrites each element of a segment of an array in place. *)
Lemma for_range_map {A} (f : A -> A) (mid pre post : list A) :
  for_range (length pre) (length mid) (fun i s => c ← load s i; store s i (f c))
    (pre ++ mid ++ post) = Done (pre ++ (f <$> mid) ++ post).
Proof.
  revert pre. induction mid as [|x mid IH]; intros pre; [done|].
  simpl. rewrite load_middle; simpl. rewrite store_middle; simpl.
  specialize (IH (pre ++ [f x])). rewrite length_app in IH. simpl in IH.
  rewrite Nat.add_1_r, <- !app_assoc in IH. exact IH.
Qed.

Lemma take_S_insert {A} (l : list A) n x :
  (n < length l)%nat -> take (S n) (<[n:=x]> l) = take n l ++ [x].
Proof.
  intros H. rewrite (take_S_r _ _ x) by by apply list_lookup_insert_eq.
  by rewrite take_insert_ge.
Qed.

#[export] Instance bytes_dec l : Decision (bytes l).
Proof. unfold bytes. apply _. Defined.

(** Closes a decidable proposition on closed terms by evaluating it. *)
Ltac by_compute :=
  match goal with |- ?P => refine (@bool_decide_unpack P _ _); vm_compute; exact I end.

(** ** More loop rules *)

(** A loop whose body never faults is a left fold. *)
Lemma for_range_pure {S} (f : S -> nat -> S) body n : forall lo (s : S),
  (forall i s, (lo <= i < lo + n)%nat -> body i s = Done (f s i)) ->
  for_range lo n body s = Done (foldl f s (seq lo n)).
Proof.
  induction n as [|n IH]; intros lo s Hb; simpl; [done|].
  rewrite Hb by lia. simpl. apply IH. intros. apply Hb. lia.
Qed.

(** A loop that reads the array [l] in step with its counter is a fold on [l]. *)
Lemma for_range_load {S A} (f : nat -> S -> A -> S) (l : list A) n : forall lo s,
  (lo + n <= length l)%nat ->
  for_range lo n (fun i s => x ← load l i; Done (f i s x)) s =
    Done (foldl (fun s p => f p.1 s p.2) s (zip (seq lo n) (take n (drop lo l)))).
Proof.
  induction n as [|n IH]; intros lo s Hl; simpl; [done|].
  destruct (load_lt l lo) as (x & Hx & ->); [lia|]. simpl.
  rewrite (drop_S l x lo) by done. simpl. apply IH. lia.
Qed.

Lemma for_range_ext {S} (b1 b2 : nat -> S -> exec S) n : forall lo s,
  (forall i s, (lo <= i < lo + n)%nat -> b1 i s = b2 i s) ->
  for_range lo n b1 s = for_range lo n b2 s.
Proof.
  induction n as [|n IH]; intros lo s H; simpl; [done|].
  rewrite H by lia. destruct (b2 lo s); simpl; try done. apply IH. intros. apply H. lia.
Qed.

(** [grow n h l]: the list [l] extended [n] times by an element computed from
    what is there already. *)
Fixpoint grow {A} (n : nat) (h : list A -> A) (l : list A) : list A :=
  match n with O => l | S n' => grow n' h (l ++ [h l]) end.

Lemma length_grow {A} n (h : list A -> A) l : length (grow n h l) = (length l + n)%nat.
Proof. revert l. induction n; intros l; simpl; [lia|]. rewrite IHn, length_app. simpl. lia. Qed.

(** A loop that fills an array from left to right, each entry computed from
    those before it. *)
Lemma for_range_grow {A} (h : list A -> A) body n : forall lo (m : list A),
  (lo + n <= length m)%nat ->
  (forall i m, (lo <= i < lo + n)%nat -> (i < length m)%nat ->
     body i m = Done (<[i := h (take i m)]> m)) ->
  for_range lo n body m = Done (grow n h (take lo m) ++ drop (lo + n) m).
Proof.
  induction n as [|n IH]; intros lo m Hm Hb; simpl.
  - by rewrite Nat.add_0_r, take_drop.
  - rewrite Hb by lia. simpl. rewrite IH.
    + rewrite take_S_insert, drop_insert_lt by lia. by rewrite <- Nat.add_succ_comm.
    + rewrite length_insert. lia.
    + intros. apply Hb; lia.
Qed.

(** [while (i < hi) a[i++] = v;] *)
Definition fill_from {A} (a : list A) (i hi : nat) (v : A) : exec (list A) :=
  for_range i (hi - i) (fun k a => store a k v) a.

Lemma grow_const {A} n (v : A) l : grow n (fun _ => v) l = l ++ replicate n v.
Proof.
  revert l. induction n; intros l; simpl; [by rewrite app_nil_r|].
  rewrite IHn. by rewrite <- app_assoc.
Qed.

Lemma fill_from_spec {A} (a : list A) i hi v :
  (i <= hi <= length a)%nat ->
  fill_from a i hi v = Done (take i a ++ replicate (hi - i) v ++ drop hi a).
Proof.
  intros H. unfold fill_from. rewrite (for_range_grow (fun _ => v)).
  - rewrite grow_const, <- app_assoc. by replace (i + (hi - i))%nat with hi by lia.
  - lia.
  - intros. by apply store_lt.
Qed.

(** ** Bits and words *)

Notation "a <<< n" := (Z.shiftl a n) (at level 36, left associativity) : c_scope.
Notation "a >>> n" := (Z.shiftr a n) (at level 36, left associativity) : c_scope.
Notation "a .& b" := (Z.land a b) (at level 37, left associativity) : c_scope.
Notation "a .^ b" := (Z.lxor a b) (at level 38, left associativity) : c_scope.
Notation "a .| b" := (Z.lor a b) (at level 39, left associativity) : c_scope.

(** A non-negative number below [2 ^ n] has no bit at or above [n]. *)
Lemma testbit_high x n i : 0 <= x < 2 ^ n -> n <= i -> Z.testbit x i = false.
Proof.
  intros Hx Hi. destruct (decide (x = 0)) as [->|Hz]; [apply Z.bits_0|].
  apply Z.bits_above_log2; [lia|]. apply Z.lt_le_trans with n; [|done].
  apply Z.log2_lt_pow2; lia.
Qed.

(** [(a << n) | b] is a sum when [b] fits below the shift. *)
Lemma lor_shiftl_add a b n :
  0 <= n -> 0 <= b < 2 ^ n -> Z.lor (Z.shiftl a n) b = a * 2 ^ n + b.
Proof.
  intros Hn Hb. rewrite <- Z.shiftl_mul_pow2, <- Z.add_lor_land by done.
  assert (Z.land (Z.shiftl a n) b = 0) as ->; [|lia].
  apply Z.bits_inj'. intros i Hi. rewrite Z.land_spec, Z.bits_0.
  destruct (decide (i < n)).
  - by rewrite Z.shiftl_spec_low.
  - rewrite (testbit_high b n) by lia. apply andb_false_r.
Qed.

Lemma lxor_bound a b n : 0 <= n -> 0 <= a < 2 ^ n -> 0 <= b < 2 ^ n -> 0 <= Z.lxor a b < 2 ^ n.
Proof.
  intros Hn Ha Hb. assert (0 <= Z.lxor a b) as H0 by (apply Z.lxor_nonneg; lia).
  split; [done|]. destruct (decide (Z.lxor a b = 0)) as [->|Hz]; [lia|].
  apply Z.log2_lt_pow2; [lia|].
  pose proof (Z.log2_lxor a b ltac:(lia) ltac:(lia)).
  destruct (decide (0 < n)) as [Hn'|]; [|replace n with 0 in * by lia; simpl in *;
    assert (a = 0) by lia; assert (b = 0) by lia; subst; done].
  assert (Z.log2 a < n) by (destruct (decide (a = 0)) as [->|]; [simpl; lia|apply Z.log2_lt_pow2; lia]).
  assert (Z.log2 b < n) by (destruct (decide (b = 0)) as [->|]; [simpl; lia|apply Z.log2_lt_pow2; lia]).
  lia.
Qed.

Lemma lor_bound a b n : 0 <= n -> 0 <= a < 2 ^ n -> 0 <= b < 2 ^ n -> 0 <= Z.lor a b < 2 ^ n.
Proof.
  intros Hn Ha Hb. rewrite <- (Z.mod_small _ _ Ha), <- (Z.mod_small _ _ Hb).
  rewrite <- !Z.land_ones, <- Z.land_lor_distr_l, Z.land_ones by lia. apply Z.mod_pos_bound. lia.
Qed.

(** [x ^ y ^ y]: the cancellation behind every cipher of the library. *)
Lemma lxor_cancel_r x y : Z.lxor (Z.lxor x y) y = x.
Proof. by rewrite Z.lxor_assoc, Z.lxor_nilpotent, Z.lxor_0_r. Qed.

Lemma u8_small x : is_u8 x -> u8 x = x.
Proof. apply Z.mod_small. Qed.
Lemma u32_small x : is_u32 x -> u32 x = x.
Proof. apply Z.mod_small. Qed.
Lemma u64_small z : 0 <= z < 2 ^ 64 -> u64 z = z.
Proof. apply Z.mod_small. Qed.
Lemma s32_small z : - 2 ^ 31 <= z < 2 ^ 31 -> s32 z = z.
Proof. intros H. unfold s32. rewrite Z.mod_small; lia. Qed.
Lemma u8_range x : is_u8 (u8 x).
Proof. unfold is_u8, u8. apply Z.mod_pos_bound. lia. Qed.
Lemma u32_range x : is_u32 (u32 x).
Proof. unfold is_u32, u32. apply Z.mod_pos_bound. lia. Qed.

(** Solves [Forall is_u32 [...]] (or [is_u8]) when each element is known to be
    in range or is the result of a wrap-around. *)
Ltac solve_words :=
  repeat first
    [ assumption | apply u32_range | apply u8_range
    | apply List.Forall_nil | apply List.Forall_cons ].

Create HintDb words.
#[export] Hint Resolve u8_range u32_range : words.

(** The rotations of 32-bit words, as the macros of the hash functions write
    them, and as arithmetic. *)
Definition rotl32 (a b : Z) : Z := Z.lor (u32 (Z.shiftl a b)) (Z.shiftr a (32 - b)).
Definition rotr32 (a b : Z) : Z := Z.lor (Z.shiftr a b) (u32 (Z.shiftl a (32 - b))).

Lemma rotl32_spec a b :
  is_u32 a -> 0 < b < 32 -> rotl32 a b = (a * 2 ^ b + a / 2 ^ (32 - b)) mod 2 ^ 32.
Proof.
  intros Ha Hb. unfold rotl32, u32, is_u32 in *.
  assert (0 < 2 ^ b) as Hp by (apply Z.pow_pos_nonneg; lia).
  assert (0 < 2 ^ (32 - b)) as Hq by (apply Z.pow_pos_nonneg; lia).
  assert (2 ^ 32 = 2 ^ (32 - b) * 2 ^ b) as H32 by (rewrite <- Z.pow_add_r by lia; f_equal; lia).
  rewrite Z.shiftr_div_pow2, Z.shiftl_mul_pow2 by lia.
  assert ((a * 2 ^ b) mod 2 ^ 32 = (a mod 2 ^ (32 - b)) * 2 ^ b) as ->
    by (rewrite H32; apply Z.mul_mod_distr_r; lia).
  assert (0 <= a / 2 ^ (32 - b) < 2 ^ b) as Hd.
  { split; [apply Z.div_pos; lia|]. apply Z.div_lt_upper_bound; lia. }
  rewrite <- (Z.shiftl_mul_pow2 (a mod _)), lor_shiftl_add by lia.
  pose proof (Z.div_mod a (2 ^ (32 - b)) ltac:(lia)) as E.
  pose proof (Z.mod_pos_bound a (2 ^ (32 - b)) Hq) as Hm.
  set (q := a / 2 ^ (32 - b)) in *. set (r := a mod 2 ^ (32 - b)) in *.
  rewrite E. replace ((2 ^ (32 - b) * q + r) * 2 ^ b + q)
    with (r * 2 ^ b + q + q * 2 ^ 32) by (rewrite H32; ring).
  rewrite Z.mod_add, Z.mod_small by (lia || (rewrite H32; nia)). done.
Qed.

Lemma rotr32_rotl32 a b : is_u32 a -> 0 < b < 32 -> rotr32 a b = rotl32 a (32 - b).
Proof.
  intros Ha Hb. unfold rotr32, rotl32. rewrite Z.lor_comm. do 2 f_equal. lia.
Qed.

(** What holds after a [while] loop that returned, for a partial body. *)
Lemma while_Done_inv {S} (P : S -> Prop) cond body fuel : forall (s s' : S),
  while fuel cond body s = Done s' -> P s ->
  (forall s s', P s -> cond s = true -> body s = Done s' -> P s') ->
  P s' /\ cond s' = false.
Proof.
  induction fuel as [|fuel IH]; intros s s' Hw HP Hb; simpl in Hw;
    destruct (cond s) eqn:Hc; simplify_eq; try done.
  apply bind_Done_inv in Hw as (s1 & Hs1 & Hw). eauto.
Qed.

(** A counting [while] loop is a [for_range]. *)
Lemma while_count {S} (body : nat -> S -> exec S) (wbody : Z * S -> exec (Z * S)) len n :
  forall i s fuel,
  Z.of_nat (i + n) = len -> (n <= fuel)%nat ->
  (forall k s, (i <= k < i + n)%nat ->
     wbody (Z.of_nat k, s) = (s' ← body k s; Done (Z.of_nat (k + 1), s'))) ->
  while fuel (fun p => p.1 <? len) wbody (Z.of_nat i, s) =
    (s' ← for_range i n body s; Done (len, s')).
Proof.
  induction n as [|n IH]; intros i s fuel Hlen Hfuel Hb.
  - rewrite Nat.add_0_r in Hlen. rewrite <- Hlen.
    destruct fuel; cbn [while fst]; by rewrite Z.ltb_irrefl.
  - destruct fuel as [|fuel]; [lia|]. cbn [while fst].
    rewrite (proj2 (Z.ltb_lt _ _)) by lia. rewrite Hb by lia. cbn [for_range].
    destruct (body i s) as [s'| |]; cbn [mbind exec_bind]; [|done|done].
    rewrite Nat.add_1_r. apply IH; [lia|lia|]. intros k s'' Hk. apply Hb. lia.
Qed.

(** Two folds that agree while an invariant holds. *)
Lemma foldl_ext_inv {S A} (P : S -> Prop) (Q : A -> Prop) (f g : S -> A -> S) (l : list A) : forall s,
  P s -> Forall Q l ->
  (forall s x, P s -> Q x -> f s x = g s x /\ P (g s x)) ->
  foldl f s l = foldl g s l /\ P (foldl g s l).
Proof.
  induction l as [|x l IH]; intros s Hs Hl Hfg; simpl; [done|].
  inversion_clear Hl as [|? ? Hx Hl']. destruct (Hfg s x Hs Hx) as [-> HP]. by apply IH.
Qed.

Lemma grow_seq {A} (f : nat -> A) n : forall l,
  grow n (fun l => f (length l)) l = l ++ (f <$> seq (length l) n).
Proof.
  induction n as [|n IH]; intros l; simpl; [by rewrite app_nil_r|].
  rewrite IH, length_app, <- app_assoc. simpl. by rewrite Nat.add_1_r.
Qed.

(** Filling the start of an array with computed values. *)
Lemma for_range_init {A} (f : nat -> A) (m : list A) (get : nat -> exec A) n :
  (n <= length m)%nat -> (forall i, (i < n)%nat -> get i = Done (f i)) ->
  for_range 0 n (fun i m => w ← get i; store m i w) m = Done ((f <$> seq 0 n) ++ drop n m).
Proof.
  intros Hm Hget. rewrite (for_range_grow (fun l => f (length l))).
  - by rewrite (grow_seq f n (take 0 m)).
  - lia.
  - intros i m' Hi Hm'. rewrite Hget by lia. simpl. rewrite length_take_le by lia.
    by apply store_lt.
Qed.

Lemma rotr32_spec a b :
  is_u32 a -> 0 < b < 32 -> rotr32 a b = (a / 2 ^ b + a * 2 ^ (32 - b)) mod 2 ^ 32.
Proof.
  intros Ha Hb. rewrite rotr32_rotl32, rotl32_spec by (done || lia).
  replace (32 - (32 - b)) with b by lia. f_equal. lia.
Qed.

Lemma u32_lnot x : is_u32 x -> u32 (Z.lnot x) = 2 ^ 32 - 1 - x.
Proof.
  unfold is_u32, u32. intros Hx. pose proof (Z.add_lnot_diag x).
  rewrite <- (Z.mod_add _ 1), Z.mod_small by lia. lia.
Qed.

Lemma load_nth {A} (a : list A) i d : (i < length a)%nat -> load a i = Done (nth i a d).
Proof.
  intros Hi. destruct (load_lt a i Hi) as (x & Hx & ->).
  by rewrite (nth_lookup_Some _ _ _ _ Hx).
Qed.

Lemma nth_Forall {A} (P : A -> Prop) l i d : Forall P l -> (i < length l)%nat -> P (nth i l d).
Proof.
  intros Hl Hi. destruct (lookup_lt_is_Some_2 l i Hi) as [x Hx].
  rewrite (nth_lookup_Some _ _ _ _ Hx). by eapply Forall_lookup_1.
Qed.

Lemma nth_take {A} (l : list A) n i d : (i < n)%nat -> nth i (take n l) d = nth i l d.
Proof. intros Hi. by rewrite !nth_lookup, lookup_take_lt. Qed.

Lemma grow_ext_inv {A} (P : list A -> Prop) (h1 h2 : list A -> A) n : forall l,
  P l -> (forall l, P l -> h1 l = h2 l /\ P (l ++ [h2 l])) ->
  grow n h1 l = grow n h2 l /\ P (grow n h2 l).
Proof.
  induction n as [|n IH]; intros l Hl H; simpl; [done|].
  destruct (H l Hl) as [-> HP]. by apply IH.
Qed.

Lemma foldl_seq_zip {S A B} (f : S -> A -> B -> S) (l1 : list A) (l2 : list B) d1 d2 : forall s n,
  length l1 = n -> length l2 = n ->
  foldl (fun s i => f s (nth i l1 d1) (nth i l2 d2)) s (seq 0 n) =
    foldl (fun s p => f s p.1 p.2) s (zip l1 l2).
Proof.
  enough (forall n lo s, length l1 = (lo + n)%nat -> length l2 = (lo + n)%nat ->
    foldl (fun s i => f s (nth i l1 d1) (nth i l2 d2)) s (seq lo n) =
      foldl (fun s p => f s p.1 p.2) s (zip (drop lo l1) (drop lo l2))) as H.
  { intros s n H1 H2. by apply (H n 0%nat). }
  induction n as [|n IH]; intros lo s H1 H2; simpl.
  - by rewrite drop_ge by lia.
  - destruct (lookup_lt_is_Some_2 l1 lo ltac:(lia)) as [x Hx].
    destruct (lookup_lt_is_Some_2 l2 lo ltac:(lia)) as [y Hy].
    rewrite (drop_S l1 x lo), (drop_S l2 y lo) by done. simpl.
    rewrite (nth_lookup_Some _ _ _ _ Hx), (nth_lookup_Some _ _ _ _ Hy).
    apply IH; lia.
Qed.

(** A loop that never leaves a set of states in which it goes on. *)
Lemma while_forever {S} (P : S -> Prop) cond body fuel : forall s : S,
  P s -> (forall s, P s -> cond s = true /\ returns (body s) P) ->
  while fuel cond body s = NoFuel.
Proof.
  induction fuel as [|fuel IH]; intros s Hs Hb; simpl; destruct (Hb s Hs) as [-> (s' & Hr & Hs')].
  - done.
  - rewrite Hr. run. by apply IH.
Qed.

Lemma store_app_r {A} (p q : list A) j x :
  store (p ++ q) (length p + j) x = (q' ← store q j x; Done (p ++ q')).
Proof.
  induction p as [|y p IH]; simpl; [by destruct (store q j x)|].
  rewrite IH. by destruct (store q j x).
Qed.

Lemma land_255 x : Z.land x 255 = x mod 256.
Proof. change 255 with (Z.ones 8). by rewrite Z.land_ones. Qed.

(** ** Cutting a buffer into blocks of [w] elements *)
Section chunks.
Context {A : Type} (w : nat).

Fixpoint chunks_n (n : nat) (l : list A) : list (list A) :=
  match n with O => [] | S n' => take w l :: chunks_n n' (drop w l) end.

Definition chunks (l : list A) : list (list A) := chunks_n (length l / w) l.

Lemma chunks_n_concat (bs : list (list A)) l :
  Forall (fun b => length b = w) bs ->
  forall n, chunks_n (length bs + n) (concat bs ++ l) = bs ++ chunks_n n l.
Proof.
  induction 1 as [|b bs Hb _ IH]; intros n; simpl; [done|].
  rewrite <- app_assoc, take_app_length', drop_app_length' by done. by rewrite IH.
Qed.

Lemma length_concat_chunks (bs : list (list A)) :
  Forall (fun b => length b = w) bs -> length (concat bs) = (w * length bs)%nat.
Proof. induction 1 as [|b bs Hb _ IH]; simpl; [lia|]. rewrite length_app, IH. lia. Qed.

Lemma chunks_concat (bs : list (list A)) :
  w <> 0%nat -> Forall (fun b => length b = w) bs -> chunks (concat bs) = bs.
Proof.
  intros Hw Hbs. unfold chunks. rewrite length_concat_chunks by done.
  rewrite Nat.mul_comm, Nat.div_mul by done.
  pose proof (chunks_n_concat bs [] Hbs 0) as E.
  rewrite Nat.add_0_r, !app_nil_r in E. exact E.
Qed.

Lemma concat_chunks (l : list A) n :
  length l = (w * n)%nat -> concat (chunks_n n l) = l /\ Forall (fun b => length b = w) (chunks_n n l).
Proof.
  revert l. induction n as [|n IH]; intros l Hl; simpl.
  - destruct l; [done|simpl in Hl; lia].
  - destruct (IH (drop w l)) as [E F]; [rewrite length_drop; lia|].
    rewrite E, take_drop. split; [done|]. constructor; [|done]. rewrite length_take. lia.
Qed.
End chunks.

Lemma lxor_u8 x y : is_u8 x -> is_u8 y -> is_u8 (Z.lxor x y).
Proof. unfold is_u8. intros. by apply lxor_bound. Qed.
#[export] Hint Resolve lxor_u8 : words.

Lemma bytes_zip_lxor a b : bytes a -> bytes b -> bytes (zip_with Z.lxor a b).
Proof.
  intros Ha. revert b. induction Ha as [|x a Hx Ha IH]; intros b Hb; [by constructor|].
  destruct Hb as [|y b Hy Hb]; [by constructor|]. constructor; [by apply lxor_u8|by apply IH].
Qed.

(** ** Equality of words, bit by bit *)

Lemma bits_upto n x y :
  0 <= x < 2 ^ n -> 0 <= y < 2 ^ n ->
  (forall i, 0 <= i < n -> Z.testbit x i = Z.testbit y i) -> x = y.
Proof.
  intros Hx Hy H. apply Z.bits_inj'. intros i Hi. destruct (decide (i < n)).
  - apply H. lia.
  - by rewrite (testbit_high x n), (testbit_high y n) by lia.
Qed.

Lemma forall_below n (P : Z -> Prop) :
  List.Forall P (seqZ 0 n) -> forall i, 0 <= i < n -> P i.
Proof. intros H i Hi. rewrite Forall_forall in H. apply H, elem_of_seqZ. lia. Qed.

Lemma testbit_shiftl a n i : (0 <=? i) = true -> Z.testbit (Z.shiftl a n) i = Z.testbit a (i - n).
Proof. intros. apply Z.shiftl_spec. lia. Qed.
Lemma testbit_shiftr a n i : (0 <=? i) = true -> Z.testbit (Z.shiftr a n) i = Z.testbit a (i + n).
Proof. intros. apply Z.shiftr_spec. lia. Qed.
Lemma testbit_mod a n i : (0 <=? i) && (i <? n) = true -> Z.testbit (a mod 2 ^ n) i = Z.testbit a i.
Proof. intros. apply Z.mod_pow2_bits_low. lia. Qed.
Lemma testbit_lnot a i : (0 <=? i) = true -> Z.testbit (Z.lnot a) i = negb (Z.testbit a i).
Proof. intros. apply Z.lnot_spec. lia. Qed.

(** Pushes [Z.testbit _ i], for a literal [i], down to the variables. *)
Ltac bit_step :=
  match goal with
  | |- context [Z.testbit (Z.lor ?a ?b) ?i] => rewrite (Z.lor_spec a b i)
  | |- context [Z.testbit (Z.land ?a ?b) ?i] => rewrite (Z.land_spec a b i)
  | |- context [Z.testbit (Z.lxor ?a ?b) ?i] => rewrite (Z.lxor_spec a b i)
  | |- context [Z.testbit (Z.lnot ?a) ?i] => rewrite (testbit_lnot a i eq_refl)
  | |- context [Z.testbit (Z.shiftl ?a ?n) ?i] =>
      rewrite (testbit_shiftl a n i eq_refl);
      let j := eval vm_compute in (i - n) in change (i - n) with j
  | |- context [Z.testbit (Z.shiftr ?a ?n) ?i] =>
      rewrite (testbit_shiftr a n i eq_refl);
      let j := eval vm_compute in (i + n) in change (i + n) with j
  | |- context [Z.testbit (?a mod 2 ^ ?n) ?i] => rewrite (testbit_mod a n i eq_refl)
  | |- context [Z.testbit ?a (Z.neg ?i)] => rewrite (Z.testbit_neg_r a (Z.neg i) eq_refl)
  | |- context [Z.testbit 0 ?i] => rewrite (Z.bits_0 i)
  | |- context [Z.testbit (Z.pos ?p) ?i] =>
      let a := constr:(Z.pos p) in let b := eval vm_compute in (Z.testbit a i) in change (Z.testbit a i) with b
  | H : 0 <= ?a < 2 ^ ?n |- context [Z.testbit ?a ?i] =>
      rewrite (testbit_high a n i H) by (vm_compute; discriminate)
  end.

Ltac bits :=
  unfold u8, u16, u32, u64, is_u8, is_u32, is_u64 in *;
  repeat bit_step; rewrite ?andb_false_r, ?andb_true_r, ?orb_false_r, ?xorb_false_r, ?andb_false_l, ?orb_false_l; 
  first [reflexivity | btauto].

(** [a = b] for two [w]-bit numbers, bit by bit. *)
Ltac bits_eq w :=
  apply (bits_upto w);
  [..|apply (forall_below w);
      let l := eval vm_compute in (seqZ 0 w) in change (seqZ 0 w) with l;
      repeat (apply List.Forall_cons || apply List.Forall_nil); cbv beta; bits].

Lemma load_app_r {A} (p q : list A) j : load (p ++ q) (length p + j) = load q j.
Proof. unfold load. rewrite lookup_app_r by lia. by rewrite Nat.add_comm, Nat.add_sub. Qed.

Lemma while_stop {S} fuel cond body (s : S) : cond s = false -> while fuel cond body s = Done s.
Proof. intros H. destruct fuel; simpl; by rewrite H. Qed.

(** Accesses at a signed index. *)
Definition loadz {A} (a : list A) (i : Z) : exec A :=
  if i <? 0 then Fault else load a (Z.to_nat i).
Definition storez {A} (a : list A) (i : Z) (x : A) : exec (list A) :=
  if i <? 0 then Fault else store a (Z.to_nat i) x.

Lemma loadz_nat {A} (a : list A) (i : nat) : loadz a (Z.of_nat i) = load a i.
Proof. unfold loadz. rewrite (proj2 (Z.ltb_ge _ _)) by lia. by rewrite Nat2Z.id. Qed.
Lemma storez_nat {A} (a : list A) (i : nat) x : storez a (Z.of_nat i) x = store a i x.
Proof. unfold storez. rewrite (proj2 (Z.ltb_ge _ _)) by lia. by rewrite Nat2Z.id. Qed.

(** Bytes as a big-endian number, and back. *)
Definition be_value (l : list Z) : Z := foldl (fun n b => n * 256 + b) 0 l.
Fixpoint be_bytes (n : nat) (v : Z) : list Z :=
  match n with O => [] | S n' => be_bytes n' (v / 256) ++ [v mod 256] end.

Lemma be_value_snoc l x : be_value (l ++ [x]) = be_value l * 256 + x.
Proof. unfold be_value. by rewrite foldl_app. Qed.

Lemma length_be_bytes n : forall v, length (be_bytes n v) = n.
Proof. induction n as [|n IH]; intros v; simpl; [done|]. rewrite length_app, IH. simpl. lia. Qed.

Lemma bytes_be_bytes n : forall v, bytes (be_bytes n v).
Proof.
  induction n as [|n IH]; intros v; simpl; [constructor|].
  apply Forall_app. split; [apply IH|]. constructor; [apply u8_range|constructor].
Qed.

Lemma be_bytes_value l : bytes l -> be_bytes (length l) (be_value l) = l.
Proof.
  induction l as [|x l IH] using rev_ind; intros Hl; [done|].
  apply Forall_app in Hl as [Hl Hx]. apply Forall_cons in Hx as [Hx _]. unfold is_u8 in Hx.
  rewrite length_app, Nat.add_1_r, be_value_snoc. cbn [be_bytes].
  rewrite Z.div_add_l, Z.div_small, Z.add_0_r, IH by (done || lia). f_equal.
  f_equal. rewrite Z.add_comm, Z.mod_add, Z.mod_small by lia. done.
Qed.

Lemma be_value_bytes n : forall v, be_value (be_bytes n v) = v mod 256 ^ Z.of_nat n.
Proof.
  induction n as [|n IH]; intros v; cbn [be_bytes]; [by rewrite Z.mod_1_r|].
  rewrite be_value_snoc, IH, Nat2Z.inj_succ, Z.pow_succ_r by lia.
  rewrite Z.rem_mul_r by lia. lia.
Qed.

(** Sums of buffers, byte by byte. *)
Lemma zip_lxor_cancel (a b : list Z) :
  (length a <= length b)%nat -> zip_with Z.lxor (zip_with Z.lxor a b) b = a.
Proof.
  revert b. induction a as [|x a IH]; intros [|y b] H; simpl in *; [done..|lia|].
  rewrite lxor_cancel_r. f_equal. apply IH. lia.
Qed.

Lemma zip_with_prefix {A B C} (f : A -> B -> C) (a : list A) (b b' : list B) :
  (length a <= length b)%nat -> zip_with f a (b ++ b') = zip_with f a b.
Proof.
  revert b. induction a as [|x a IH]; intros [|y b] H; simpl in *; [done..|lia|].
  f_equal. apply IH. lia.
Qed.

Lemma be_value_app a b : be_value (a ++ b) = be_value a * 256 ^ Z.of_nat (length b) + be_value b.
Proof.
  induction b as [|x b IH] using rev_ind; [rewrite app_nil_r; change (be_value []) with 0; simpl (256 ^ _); lia|].
  rewrite app_assoc, !be_value_snoc, IH, length_app, Nat.add_1_r, Nat2Z.inj_succ, Z.pow_succ_r by lia.
  lia.
Qed.

Lemma be_value_range l : bytes l -> 0 <= be_value l < 256 ^ Z.of_nat (length l).
Proof.
  intros Hl. rewrite <- (be_bytes_value l Hl) at 1 2. rewrite be_value_bytes.
  apply Z.mod_pos_bound, Z.pow_pos_nonneg; lia.
Qed.

Lemma chunks_n_app {A} w n (l r : list A) :
  length l = (w * n)%nat -> chunks_n w n (l ++ r) = chunks_n w n l.
Proof.
  revert l. induction n as [|n IH]; intros l Hl; simpl; [done|].
  rewrite take_app_le, drop_app_le, IH by (rewrite ?length_drop; lia). done.
Qed.

(** A loop simulates a fold when each step of its body does. *)
Lemma for_range_sim {S T} (R : S -> T -> Prop) (f : T -> nat -> T) body n : forall lo s t,
  (forall i s t, (lo <= i < lo + n)%nat -> R s t -> exists s', body i s = Done s' /\ R s' (f t i)) ->
  R s t -> exists s', for_range lo n body s = Done s' /\ R s' (foldl f t (seq lo n)).
Proof.
  induction n as [|n IH]; intros lo s t Hb HR; [by exists s|]. rewrite for_range_S.
  destruct (Hb lo s t) as (s' & -> & HR'); [lia|done|]. rewrite bind_Done.
  apply IH; [|done]. intros. apply Hb; [lia|done].
Qed.

(** ** Bytes in a buffer *)

(** [bs] written over [buf] from [p] on. *)
Definition splice (buf : list Z) (p : nat) (bs : list Z) : list Z :=
  take p buf ++ bs ++ drop (p + length bs) buf.

Lemma length_splice buf p bs : (p + length bs <= length buf)%nat -> length (splice buf p bs) = length buf.
Proof. intros H. unfold splice. rewrite !length_app, length_take, length_drop. lia. Qed.

Lemma splice_splice buf p a b :
  (p + length a + length b <= length buf)%nat ->
  splice (splice buf p a) (p + length a) b = splice buf p (a ++ b).
Proof.
  intros H. unfold splice. rewrite length_app, <- !app_assoc.
  assert (length (take p buf) = p) as Hp by (rewrite length_take; lia).
  rewrite (app_assoc (take p buf) a). rewrite take_app_length' by (rewrite length_app, Hp; lia).
  rewrite <- app_assoc. do 3 f_equal.
  rewrite (drop_app_ge (take p buf ++ a)) by (rewrite length_app, Hp; lia).
  rewrite drop_drop, length_app, Hp. f_equal. lia.
Qed.

Lemma splice_at buf p q a b :
  q = (p + length a)%nat -> (q + length b <= length buf)%nat -> splice (splice buf p a) q b = splice buf p (a ++ b).
Proof. intros -> H. by apply splice_splice. Qed.

Lemma store_splice buf p x : (p < length buf)%nat -> store buf p x = Done (splice buf p [x]).
Proof.
  intros H. rewrite store_lt by done. unfold splice. cbn [length app].
  rewrite insert_take_drop by done. by rewrite Nat.add_1_r.
Qed.

Lemma memcpy_splice buf p src n :
  (p + n <= length buf)%nat -> (n <= length src)%nat ->
  memcpy buf p src 0 n = Done (splice buf p (take n src)).
Proof.
  intros H1 H2. rewrite memcpy_in by lia. unfold splice. rewrite length_take, drop_0, Nat.min_l by done. done.
Qed.

(** ** Integers as bytes, the low one first *)

Fixpoint le (n : nat) (v : Z) : list Z :=
  match n with O => [] | S n => v mod 256 :: le n (v / 256) end.

Lemma length_le n : forall v, length (le n v) = n.
Proof. induction n as [|n IH]; intros v; [done|]. cbn. by rewrite IH. Qed.

(** The integer a sequence of such bytes stands for. *)
Definition le_value (l : list Z) : Z := foldr (fun b v => b + 256 * v) 0 l.

Lemma le_value_le n : forall v, 0 <= v < 256 ^ Z.of_nat n -> le_value (le n v) = v.
Proof.
  induction n as [|n IH]; intros v Hv; [simpl in *; lia|].
  rewrite Nat2Z.inj_succ, Z.pow_succ_r in Hv by lia. cbn. fold (le_value (le n (v / 256))).
  rewrite IH by lia_div. pose proof (Z.div_mod v 256). lia.
Qed.

Lemma bytes_le n : forall v, bytes (le n v).
Proof.
  induction n as [|n IH]; intros v; cbn [le]; [constructor|]. constructor; [|apply IH].
  unfold is_u8. change (2 ^ 8) with 256. pose proof (Z.mod_pos_bound v 256). lia.
Qed.

(** Aligned slots of a ring that are less than a turn apart do not overlap. *)
Lemma slots_apart m e i j :
  0 < m -> 0 < e -> 0 < j - i < m ->
  i mod m * e + e <= j mod m * e \/ j mod m * e + e <= i mod m * e.
Proof.
  intros Hm He Hij. assert (i mod m <> j mod m) as Hne.
  { intros E. assert ((j - i) mod m = 0) as Hz by (rewrite Zminus_mod, E, Z.sub_diag, Zmod_0_l; done).
    rewrite Z.mod_small in Hz by lia. lia. }
  destruct (Z.lt_total (i mod m) (j mod m)) as [?|[?|?]]; [left; nia|done|right; nia].
Qed.

(** What a write to part of a buffer leaves alone. *)
Lemma splice_elsewhere buf p bs i n :
  (p + length bs <= length buf)%nat -> (i + n <= p \/ p + length bs <= i)%nat ->
  take n (drop i (splice buf p bs)) = take n (drop i buf).
Proof.
  intros Hp Hi. unfold splice. destruct Hi.
  - rewrite drop_app_le by (rewrite length_take; lia).
    rewrite take_app_le by (rewrite length_drop, length_take; lia).
    rewrite skipn_firstn_comm, take_take, Nat.min_l by lia. done.
  - rewrite app_assoc. rewrite drop_app_ge; rewrite length_app, length_take, Nat.min_l by lia; [|lia].
    rewrite drop_drop. do 2 f_equal. lia.
Qed.

Lemma splice_here buf p bs :
  (p + length bs <= length buf)%nat -> take (length bs) (drop p (splice buf p bs)) = bs.
Proof.
  intros Hp. unfold splice. rewrite drop_app_ge by (rewrite length_take; lia).
  rewrite length_take, Nat.min_l, Nat.sub_diag, drop_0 by lia. by rewrite take_app_length.
Qed.

(** ** Sums over a list *)

Section tally.
Context {A : Type} (f : A -> Z).

Definition tally (l : list A) : Z := foldr (fun x n => f x + n) 0 l.

Lemma tally_cons x l : tally (x :: l) = f x + tally l.
Proof. done. Qed.

Lemma tally_insert l : forall i x y, l !! i = Some x -> tally (<[i:=y]> l) = tally l - f x + f y.
Proof.
  induction l as [|z l IH]; intros [|i] x y H; [done..| |].
  - injection H as ->. change (<[0%nat:=y]> (x :: l)) with (y :: l). rewrite !tally_cons. lia.
  - specialize (IH i x y H). change (<[S i:=y]> (z :: l)) with (z :: <[i:=y]> l). rewrite !tally_cons. lia.
Qed.

Lemma tally_zero l : (forall x, x ∈ l -> f x = 0) -> tally l = 0.
Proof.
  induction l as [|x l IH]; intros H; [done|]. rewrite tally_cons, H, IH; [done| |apply list_elem_of_here].
  intros y Hy. apply H. by apply list_elem_of_further.
Qed.

Hypothesis Hf : forall x, 0 <= f x <= 1.

Lemma tally_range l : 0 <= tally l <= Z.of_nat (length l).
Proof using Hf. induction l as [|x l IH]; [done|]. rewrite tally_cons. cbn [length]. pose proof (Hf x). lia. Qed.

Lemma tally_ge l : forall i x, l !! i = Some x -> f x <= tally l.
Proof using Hf.
  induction l as [|z l IH]; intros [|i] x H; [done..| |]; rewrite tally_cons; pose proof (tally_range l).
  - injection H as ->. lia.
  - specialize (IH i x H). pose proof (Hf z). lia.
Qed.

Lemma tally_pos l : 0 < tally l -> exists i x, l !! i = Some x /\ f x = 1.
Proof using Hf.
  induction l as [|z l IH]; intros H; [done|]. rewrite tally_cons in H. pose proof (Hf z).
  destruct (decide (f z = 1)) as [E|E]; [by exists 0%nat, z|]. destruct IH as (i & x & Hi & Hx); [lia|]. by exists (S i), x.
Qed.
End tally.
