(* ===== verification/Rot13.v ===== *)
(** * ROT-13 (src/crypto-algorithms_learn/rot-13.c)

    [rot13] rewrites a NUL-terminated C string in place.  The buffer is the
    list of its [char]s (signed, -128..127), the terminator included. *)

From S2P Require Import Prelude.

Module Rot13.

(** [strlen]: the index of the first NUL; a buffer without one is overrun. *)
Fixpoint strlen (str : list Z) : exec nat :=
  match str with
  | [] => Fault
  | c :: str' => if c =? 0 then Done 0%nat else n ← strlen str'; Done (S n)
  end.

(** The body of the loop, from the character read to the character left there. *)
Definition rot13_char (c : Z) : Z :=
  if (c <? 65) || ((90 <? c) && (c <? 97)) || (122 <? c) then c
  else
    let case_type := if 97 <=? c then 97 else 65 in
    let c1 := Z.rem (c + 13) (case_type + 26) in
    if c1 <? 26 then c1 + case_type else c1.

Definition rot13 (str : list Z) : exec (list Z) :=
  len ← strlen str;
  for_range 0 len (fun idx s => c ← load s idx; store s idx (rot13_char c)) str.

(** The C string held by a buffer: the text, then the terminator, then
    whatever follows it in the object. *)
Definition c_string (text rest : list Z) : list Z := text ++ 0 :: rest.

Definition text_ok (text : list Z) : Prop :=
  Forall (fun c => -128 <= c <= 127 /\ c <> 0) text.

#[export] Instance text_ok_dec text : Decision (text_ok text).
Proof. unfold text_ok. apply _. Defined.

Lemma strlen_c_string text rest :
  text_ok text -> strlen (c_string text rest) = Done (length text).
Proof.
  unfold c_string. induction 1 as [|c text [Hc Hz] _ IH]; simpl; [done|].
  by rewrite (proj2 (Z.eqb_neq c 0)), IH.
Qed.

Lemma rot13_char_range c :
  -128 <= c <= 127 /\ c <> 0 -> -128 <= rot13_char c <= 127 /\ rot13_char c <> 0.
Proof.
  intros [Hc Hz].
  pose proof (check_range
    (fun z => (z =? 0) || ((-128 <=? rot13_char z) && (rot13_char z <=? 127)
                            && negb (rot13_char z =? 0))) (-128) 256 eq_refl c ltac:(lia)) as H.
  cbv beta in H. lia.
Qed.

Lemma rot13_char_involutive c : -128 <= c <= 127 -> rot13_char (rot13_char c) = c.
Proof.
  intros Hc. apply Z.eqb_eq.
  apply (check_range (fun z => rot13_char (rot13_char z) =? z) (-128) 256); [done|lia].
Qed.

(** The loop rotates every character before the terminator and nothing else. *)
Lemma rot13_spec text rest :
  text_ok text ->
  rot13 (c_string text rest) = Done (c_string (rot13_char <$> text) rest).
Proof.
  intros Ht. unfold rot13. rewrite strlen_c_string by done. simpl.
  apply (for_range_map rot13_char text [] (0 :: rest)).
Qed.

Lemma rot13_text_ok text : text_ok text -> text_ok (rot13_char <$> text).
Proof. intros H. apply Forall_fmap. eapply Forall_impl; [exact H|]. intros c. apply rot13_char_range. Qed.

(** ROT-13 decrypts itself: on any C string the first call returns, leaves the
    terminator and the bytes after it alone, and a second call restores the text. *)
Theorem rot13_involutive text rest :
  text_ok text ->
  (rot13 (c_string text rest) ≫= rot13) = Done (c_string text rest).
Proof.
  intros Ht. rewrite rot13_spec by done. simpl.
  rewrite rot13_spec by by apply rot13_text_ok.
  do 2 f_equal. rewrite <- list_fmap_compose.
  rewrite <- (list_fmap_id text) at 2. apply list_fmap_ext. intros i c Hc.
  apply rot13_char_involutive. by destruct (Forall_lookup_1 _ _ _ _ Ht Hc).
Qed.

Lemma rot13_involutive_witness :
  (rot13 (c_string [72; 105; 33] [7]) ≫= rot13) = Done (c_string [72; 105; 33] [7]).
Proof. apply (rot13_involutive [72; 105; 33] [7]). by_compute. Defined.

(** The pair of strings of rot-13_test.c. *)
Example rot13_alphabet :
  rot13 (c_string (seqZ 65 26 ++ seqZ 97 26) []) =
    Done (c_string (seqZ 78 13 ++ seqZ 65 13 ++ seqZ 110 13 ++ seqZ 97 13) []).
Proof. vm_compute. reflexivity. Qed.

End Rot13.
