(* ===== verification/Arcfour.v ===== *)
(** * ARCFOUR / RC4 (src/crypto-algorithms_learn/arcfour.c)

    The key schedule and the keystream generator, on a 256-byte [state] array
    that both functions update in place. *)

From S2P Require Import Prelude.

Module Arcfour.

(** [t = state[i]; state[i] = state[j]; state[j] = t;] *)
Definition swap (state : list Z) (i j : nat) : exec (list Z) :=
  t ← load state i;
  sj ← load state j;
  state1 ← store state i sj;
  store state1 j t.

(** One iteration of the second loop of [arcfour_key_setup]; [i % len] faults
    when [len] is 0. *)
Definition key_setup_step (key : list Z) (len : Z) (i : nat) (s : list Z * Z)
    : exec (list Z * Z) :=
  let '(state, j) := s in
  si ← load state i;
  if len =? 0 then Fault else
  ki ← load key (Z.to_nat (Z.rem (Z.of_nat i) len));
  let j' := Z.rem (j + si + ki) 256 in
  state' ← swap state i (Z.to_nat j');
  Done (state', j').

Definition arcfour_key_setup (state key : list Z) (len : Z) : exec (list Z) :=
  state0 ← for_range 0 256 (fun i st => store st i (Z.of_nat i)) state;
  s ← for_range 0 256 (key_setup_step key len) (state0, 0);
  Done s.1.

(** One iteration of the loop of [arcfour_generate_stream]; the loop state is
    [(state, out, i, j)]. *)
Definition stream_step (idx : nat) (s : list Z * list Z * Z * Z)
    : exec (list Z * list Z * Z * Z) :=
  let '(state, out, i, j) := s in
  let i' := Z.rem (i + 1) 256 in
  si ← load state (Z.to_nat i');
  let j' := Z.rem (j + si) 256 in
  state' ← swap state (Z.to_nat i') (Z.to_nat j');
  a ← load state' (Z.to_nat i');
  b ← load state' (Z.to_nat j');
  k ← load state' (Z.to_nat (Z.rem (a + b) 256));
  out' ← store out idx k;
  Done (state', out', i', j').

Definition arcfour_generate_stream (state out : list Z) (len : nat)
    : exec (list Z * list Z) :=
  s ← for_range 0 len stream_step (state, out, 0, 0);
  let '(state', out', _, _) := s in Done (state', out').

(** ** The cipher on abstract permutations

    RC4 as it is usually described: the internal state is a function on
    residues modulo 256, updated by transpositions. *)
Section spec.

Definition transpose (P : Z -> Z) (i j : Z) : Z -> Z :=
  fun x => if x =? j then P i else if x =? i then P j else P x.

Definition ksa_round (key : list Z) (n : nat) (s : (Z -> Z) * Z) (i : nat) : (Z -> Z) * Z :=
  let '(P, j) := s in
  let j' := (j + P (Z.of_nat i) + nth (i mod n) key 0) mod 256 in
  (transpose P (Z.of_nat i) j', j').

Definition ksa (key : list Z) (n : nat) : Z -> Z :=
  (foldl (ksa_round key n) (fun x => x, 0) (seq 0 256)).1.

Fixpoint prga (P : Z -> Z) (i j : Z) (len : nat) : list Z :=
  match len with
  | O => []
  | S len' =>
      let i' := (i + 1) mod 256 in
      let j' := (j + P i') mod 256 in
      let P' := transpose P i' j' in
      P' ((P' i' + P' j') mod 256) :: prga P' i' j' len'
  end.

End spec.

(** [state] holds the permutation [P] of the bytes. *)
Definition holds (state : list Z) (P : Z -> Z) : Prop :=
  length state = 256%nat /\
  (forall x, 0 <= x < 256 -> state !! Z.to_nat x = Some (P x)) /\
  state ≡ₚ seqZ 0 256.

Lemma holds_range state P x : holds state P -> 0 <= x < 256 -> 0 <= P x < 256.
Proof.
  intros (_ & Hl & Hp) Hx. apply Hl, list_elem_of_lookup_2 in Hx.
  rewrite Hp in Hx. apply elem_of_seqZ in Hx. lia.
Qed.

Lemma holds_load state P x : holds state P -> 0 <= x < 256 -> load state (Z.to_nat x) = Done (P x).
Proof. intros (_ & Hl & _) Hx. by apply load_Done, Hl. Qed.

Lemma swap_Permutation (l : list Z) i j x y :
  l !! i = Some x -> l !! j = Some y -> <[j:=x]> (<[i:=y]> l) ≡ₚ l.
Proof.
  intros Hi Hj. destruct (decide (i = j)) as [->|Hij].
  - rewrite list_insert_insert_eq. simplify_eq. by rewrite list_insert_id.
  - apply Permutation_inj. split; [by rewrite !length_insert|].
    exists (fun k => if decide (k = i) then j else if decide (k = j) then i else k).
    split.
    + intros a b. repeat case_decide; congruence.
    + intros k. pose proof (lookup_lt_Some _ _ _ Hi). pose proof (lookup_lt_Some _ _ _ Hj).
      rewrite !list_lookup_insert, length_insert.
      repeat case_decide; subst; by auto with lia || congruence || lia.
Qed.

Lemma swap_holds state P i j :
  holds state P -> 0 <= i < 256 -> 0 <= j < 256 ->
  returns (swap state (Z.to_nat i) (Z.to_nat j)) (fun st => holds st (transpose P i j)).
Proof.
  intros HP Hi Hj. unfold swap. rewrite !(holds_load _ P) by done. simpl.
  destruct HP as (Hlen & Hl & Hp).
  rewrite store_lt by lia. simpl. rewrite store_lt by (rewrite length_insert; lia).
  apply returns_Done. split_and!.
  - by rewrite !length_insert.
  - intros x Hx. unfold transpose.
    destruct (Z.eqb_spec x j) as [->|Hxj]; [rewrite list_lookup_insert_eq; [done|rewrite length_insert; lia]|].
    rewrite list_lookup_insert_ne by lia.
    destruct (Z.eqb_spec x i) as [->|Hxi]; [rewrite list_lookup_insert_eq; [done|lia]|].
    rewrite list_lookup_insert_ne by lia. by apply Hl.
  - rewrite swap_Permutation; [done|by apply Hl..].
Qed.

Lemma init_holds state :
  length state = 256%nat ->
  returns (for_range 0 256 (fun i st => store st i (Z.of_nat i)) state)
          (fun st => holds st (fun x => x)).
Proof.
  intros Hlen.
  eapply returns_weaken.
  - apply (for_range_inv (fun i st => length st = 256%nat /\
             forall k, (k < i)%nat -> st !! k = Some (Z.of_nat k))); [split; [done|lia]|].
    intros i st Hi [Hl Hk]. rewrite store_lt by lia. apply returns_Done.
    split; [by rewrite length_insert|]. intros k Hk'.
    destruct (decide (k = i)) as [->|].
    + apply list_lookup_insert_eq. lia.
    + rewrite list_lookup_insert_ne by done. apply Hk. lia.
  - intros st [Hl Hk]. assert (st = seqZ 0 256) as ->.
    { apply list_eq_same_length with 256%nat; [by rewrite length_seqZ|done|].
      intros i x y Hi Hx Hy. rewrite Hk in Hx by lia.
      apply lookup_seqZ in Hy as [-> _]. simplify_eq. lia. }
    split_and!; [done| |done].
    intros x Hx. apply lookup_seqZ. lia.
Qed.

(** The key schedule computes the permutation of the abstract
    algorithm, and never leaves its arrays. *)
Lemma key_setup_refines state key (len : nat) :
  length state = 256%nat -> (0 < len <= length key)%nat -> bytes key ->
  returns (arcfour_key_setup state key (Z.of_nat len)) (fun st => holds st (ksa key len)).
Proof.
  intros Hst Hlen Hkey. unfold arcfour_key_setup.
  eapply returns_bind; [by apply init_holds|]. intros st0 Hst0.
  eapply returns_bind.
  - apply (for_range_inv (fun i s =>
      let a := foldl (ksa_round key len) (fun x => x, 0) (seq 0 i) in
      holds s.1 a.1 /\ s.2 = a.2 /\ 0 <= s.2 < 256)); [done|].
    intros i [st j] Hi (Hh & Hj & Hj'). cbn [fst snd] in *.
    rewrite seq_S, foldl_app. cbn [foldl]. rewrite Nat.add_0_l.
    destruct (foldl _ _ (seq 0 i)) as [P ja]. cbn [fst snd ksa_round] in *. subst ja.
    unfold key_setup_step.
    pose proof (holds_load _ _ (Z.of_nat i) Hh ltac:(lia)) as Hli.
    rewrite Nat2Z.id in Hli. rewrite Hli. cbn [mbind exec_bind].
    rewrite (proj2 (Z.eqb_neq (Z.of_nat len) 0)) by lia.
    assert (Z.to_nat (Z.rem (Z.of_nat i) (Z.of_nat len)) = (i mod len)%nat) as ->.
    { rewrite Z.rem_mod_nonneg by lia. rewrite <- Nat2Z.inj_mod. lia. }
    assert ((i mod len) < length key)%nat as Hk by (pose proof (Nat.mod_upper_bound i len); lia).
    destruct (load_lt key _ Hk) as (kv & Hkv & ->). cbn [mbind exec_bind].
    rewrite (nth_lookup_Some _ _ _ _ Hkv).
    pose proof (Forall_lookup_1 _ _ _ _ Hkey Hkv) as Hkr. unfold is_u8 in Hkr.
    pose proof (holds_range _ _ (Z.of_nat i) Hh ltac:(lia)) as HPr.
    rewrite Z.rem_mod_nonneg by lia.
    pose proof (Z.mod_pos_bound (j + P (Z.of_nat i) + kv) 256 ltac:(lia)).
    destruct (swap_holds _ _ (Z.of_nat i) ((j + P (Z.of_nat i) + kv) mod 256) Hh)
      as (st' & Hsw & Hst'); [lia|lia|]. rewrite Nat2Z.id in Hsw. rewrite Hsw.
    apply returns_Done. done.
  - intros s (Hh & _). apply returns_Done. done.
Qed.

Lemma stream_step_refines state P out i0 j0 n :
  let i1 := (i0 + 1) mod 256 in
  let j1 := (j0 + P i1) mod 256 in
  let P1 := transpose P i1 j1 in
  holds state P -> 0 <= i0 < 256 -> 0 <= j0 < 256 -> (n < length out)%nat ->
  exists state1, holds state1 P1 /\
    stream_step n (state, out, i0, j0) =
      Done (state1, <[n := P1 ((P1 i1 + P1 j1) mod 256)]> out, i1, j1).
Proof.
  intros i1 j1 P1 HP Hi Hj Hout. unfold stream_step.
  pose proof (Z.mod_pos_bound (i0 + 1) 256 ltac:(lia)) as Hir. fold i1 in Hir.
  pose proof (holds_range _ _ _ HP Hir) as HPi.
  pose proof (Z.mod_pos_bound (j0 + P i1) 256 ltac:(lia)) as Hjr. fold j1 in Hjr.
  destruct (swap_holds _ _ i1 j1 HP Hir Hjr) as (st' & Hsw & Hst'). fold P1 in Hst'.
  pose proof (holds_range _ _ _ Hst' Hir) as Ha. pose proof (holds_range _ _ _ Hst' Hjr) as Hb.
  pose proof (Z.mod_pos_bound (P1 i1 + P1 j1) 256 ltac:(lia)).
  rewrite (Z.rem_mod_nonneg (i0 + 1)) by lia. fold i1.
  rewrite (holds_load _ P) by done. cbn [mbind exec_bind].
  rewrite (Z.rem_mod_nonneg (j0 + P i1)) by lia. fold j1. rewrite Hsw. cbn [mbind exec_bind].
  rewrite !(holds_load _ _ _ Hst') by done. cbn [mbind exec_bind].
  rewrite Z.rem_mod_nonneg by lia.
  rewrite (holds_load _ _ _ Hst') by done. cbn [mbind exec_bind].
  rewrite store_lt by lia. eauto.
Qed.

Lemma stream_refines len : forall state P out i0 j0 n,
  holds state P -> 0 <= i0 < 256 -> 0 <= j0 < 256 -> (n + len <= length out)%nat ->
  returns (for_range n len stream_step (state, out, i0, j0))
    (fun '(st', out', _, _) =>
       st' ≡ₚ seqZ 0 256 /\ out' = take n out ++ prga P i0 j0 len ++ drop (n + len) out).
Proof.
  induction len as [|len IH]; intros state P out i0 j0 n HP Hi Hj Hout.
  - apply returns_Done. split; [apply HP|]. cbn [prga app]. by rewrite Nat.add_0_r, take_drop.
  - cbn [for_range].
    destruct (stream_step_refines state P out i0 j0 n HP Hi Hj ltac:(lia)) as (st1 & Hst1 & ->).
    cbn [mbind exec_bind prga].
    eapply returns_weaken.
    + apply IH; [exact Hst1|by apply Z.mod_pos_bound..|rewrite length_insert; lia].
    + intros [[[st2 out2] i2] j2] [Hp ->]. split; [done|].
      rewrite take_S_insert, drop_insert_lt, <- app_assoc by lia.
      by rewrite <- Nat.add_succ_comm.
Qed.

(** Setting up a key of [len] bytes and then generating [n] bytes of stream
    runs without leaving any array, computes exactly the RC4 keystream of the
    key (the abstract key schedule followed by the abstract generator), writes
    nothing after the [n] requested bytes, and leaves [state] a permutation of
    the 256 byte values, so that it can be used again. *)
Theorem arcfour_refines state key out (len n : nat) :
  length state = 256%nat -> (0 < len <= length key)%nat -> bytes key ->
  (n <= length out)%nat ->
  returns (st ← arcfour_key_setup state key (Z.of_nat len); arcfour_generate_stream st out n)
    (fun '(state', out') =>
       state' ≡ₚ seqZ 0 256 /\ out' = prga (ksa key len) 0 0 n ++ drop n out).
Proof.
  intros Hst Hlen Hkey Hout.
  eapply returns_bind; [by apply key_setup_refines|]. intros st Hh.
  unfold arcfour_generate_stream.
  eapply returns_bind; [apply (stream_refines n st (ksa key len) out 0 0 0); [done|lia..]|].
  intros [[[st' out'] ?] ?] Hr. by apply returns_Done.
Qed.

Lemma arcfour_refines_witness :
  returns (st ← arcfour_key_setup (replicate 256 7) [75; 101; 121] 3;
           arcfour_generate_stream st (replicate 4 0) 2)
    (fun '(state', out') =>
       state' ≡ₚ seqZ 0 256 /\ out' = prga (ksa [75; 101; 121] 3) 0 0 2 ++ [0; 0]).
Proof.
  apply (arcfour_refines (replicate 256 7) [75; 101; 121] (replicate 4 0) 3 2);
    [reflexivity|simpl; lia|by_compute|simpl; lia].
Defined.

(** The streams of the repository's test program (keys "Key", "Wiki" and
    "Secret"), as arcfour_test.c lists them. *)
Definition keystream (key : list Z) (n : nat) : exec (list Z) :=
  st ← arcfour_key_setup (replicate 256 0) key (Z.of_nat (length key));
  r ← arcfour_generate_stream st (replicate n 0) n;
  Done r.2.

Example keystream_Key :
  keystream [75; 101; 121] 10 =
    Done [0xEB; 0x9F; 0x77; 0x81; 0xB7; 0x34; 0xCA; 0x72; 0xA7; 0x19].
Proof. vm_compute. reflexivity. Qed.

Example keystream_Wiki :
  keystream [87; 105; 107; 105] 6 = Done [0x60; 0x44; 0xdb; 0x6d; 0x41; 0xb7].
Proof. vm_compute. reflexivity. Qed.

Example keystream_Secret :
  keystream [83; 101; 99; 114; 101; 116] 8 =
    Done [0x04; 0xd4; 0x6b; 0x05; 0x3c; 0xa8; 0x7b; 0x59].
Proof. vm_compute. reflexivity. Qed.

(** The comment on [arcfour_generate_stream] says that it holds no state
    between calls and always generates the stream from its first byte.  It
    keeps its swaps in [state]: with the key "Key", a second call on the same
    [state] produces bytes that differ from those of the first call. *)
Theorem arcfour_second_call_differs :
  exists state0 state1 state2 out1 out2,
    arcfour_key_setup (replicate 256 0) [75; 101; 121] 3 = Done state0 /\
    arcfour_generate_stream state0 (replicate 4 0) 4 = Done (state1, out1) /\
    arcfour_generate_stream state1 (replicate 4 0) 4 = Done (state2, out2) /\
    out1 <> out2.
Proof.
  do 5 eexists. split; [vm_compute; reflexivity|].
  split; [vm_compute; reflexivity|]. split; [vm_compute; reflexivity|]. done.
Qed.

End Arcfour.
