(* ===== verification/Base64.v ===== *)
(** * Base64 (src/crypto-algorithms_learn/base64.c)

    The encoder, with and without line breaks, the decoder, the size queries
    (calls with [out == NULL]), the text RFC 4648 prescribes, and what the
    decoder does with the encoder's output. *)

From Stdlib Require Import ZifyNat.
From S2P Require Import Prelude.

Module Base64.

(** ** The code *)

(** "ABC...Zabc...z0123456789+/" and its terminator. *)
Definition charset : list Z :=
  seqZ 65 26 ++ seqZ 97 26 ++ seqZ 48 10 ++ [43; 47; 0].

(** The argument is a byte of the input; its sign as a [char] is immaterial
    since no branch takes a byte above 127. *)
Definition revchar (ch : Z) : Z :=
  if (65 <=? ch) && (ch <=? 90) then ch - 65
  else if (97 <=? ch) && (ch <=? 122) then ch - 97 + 26
  else if (48 <=? ch) && (ch <=? 57) then ch - 48 + 52
  else if ch =? 43 then 62
  else if ch =? 47 then 63
  else ch.

(** [charset[e]]. *)
Definition letter (e : Z) : exec Z := load charset (Z.to_nat e).

(** The loop over the complete groups: [idx = 3 * i]; the state is [idx2],
    [newline_count] and the output. *)
Definition encode_group (inp : list Z) (newline_flag : bool) (i : nat) (s : nat * nat * list Z)
    : exec (nat * nat * list Z) :=
  let '(idx2, newline_count, out) := s in
  let idx := (3 * i)%nat in
  a ← load inp idx;
  c0 ← letter (Z.shiftr a 2);
  out ← store out idx2 c0;
  b ← load inp (idx + 1);
  c1 ← letter (Z.lor (Z.shiftl (Z.land a 0x03) 4) (Z.shiftr b 4));
  out ← store out (idx2 + 1) c1;
  c ← load inp (idx + 2);
  c2 ← letter (Z.lor (Z.shiftl (Z.land b 0x0f) 2) (Z.shiftr c 6));
  out ← store out (idx2 + 2) c2;
  c3 ← letter (Z.land c 0x3f);
  out ← store out (idx2 + 3) c3;
  if ((idx2 - newline_count + 4) mod 76 =? 0)%nat && newline_flag then
    out ← store out (idx2 + 4) 10;
    Done ((idx2 + 1 + 4)%nat, (newline_count + 1)%nat, out)
  else Done ((idx2 + 4)%nat, newline_count, out).

(** The one or two bytes left over, from input index [idx]. *)
Definition encode_rest (inp : list Z) (left_over idx idx2 : nat) (out : list Z)
    : exec (nat * list Z) :=
  match left_over with
  | 1%nat =>
      a ← load inp idx;
      c0 ← letter (Z.shiftr a 2);
      out ← store out idx2 c0;
      c1 ← letter (Z.shiftl (Z.land a 0x03) 4);
      out ← store out (idx2 + 1) c1;
      out ← store out (idx2 + 2) 61;
      out ← store out (idx2 + 3) 61;
      Done ((idx2 + 4)%nat, out)
  | 2%nat =>
      a ← load inp idx;
      c0 ← letter (Z.shiftr a 2);
      out ← store out idx2 c0;
      b ← load inp (idx + 1);
      c1 ← letter (Z.lor (Z.shiftl (Z.land a 0x03) 4) (Z.shiftr b 4));
      out ← store out (idx2 + 1) c1;
      c2 ← letter (Z.shiftl (Z.land b 0x0f) 2);
      out ← store out (idx2 + 2) c2;
      out ← store out (idx2 + 3) 61;
      Done ((idx2 + 4)%nat, out)
  | _ => Done (idx2, out)
  end.

(** Returns the number of characters and the output buffer, [None] when the
    call was a size query. *)
Definition base64_encode (inp : list Z) (out : option (list Z)) (len : nat) (newline_flag : bool)
    : exec (nat * option (list Z)) :=
  let blks := (len / 3)%nat in
  let left_over := (len mod 3)%nat in
  match out with
  | None =>
      let idx2 := (blks * 4)%nat in
      let idx2 := if (left_over =? 0)%nat then idx2 else (idx2 + 4)%nat in
      let idx2 := if newline_flag then (idx2 + len / 57)%nat else idx2 in
      Done (idx2, None)
  | Some out =>
      s ← for_range 0 blks (encode_group inp newline_flag) (0%nat, 0%nat, out);
      let '(idx2, newline_count, out) := s in
      r ← encode_rest inp left_over (blks * 3) idx2 out;
      Done (r.1, Some r.2)
  end.

(** [in[len - 1]]: with [len] = 0 the index wraps around. *)
Definition load_last (inp : list Z) (len : nat) : exec Z :=
  match len with O => Fault | S n => load inp n end.

(** [if (in[len - 1] == '=') len--;] *)
Definition strip (inp : list Z) (len : nat) : exec nat :=
  c ← load_last inp len; Done (if c =? 61 then (len - 1)%nat else len).

(** The expressions for the three bytes of a group. *)
Definition byte0 (c0 c1 : Z) : Z :=
  u8 (Z.lor (Z.shiftl (revchar c0) 2) (Z.shiftr (Z.land (revchar c1) 0x30) 4)).
Definition byte1 (c1 c2 : Z) : Z := u8 (Z.lor (Z.shiftl (revchar c1) 4) (Z.shiftr (revchar c2) 2)).
Definition byte2 (c2 c3 : Z) : Z := u8 (Z.lor (Z.shiftl (revchar c2) 6) (revchar c3)).

(** The body of the loop of [base64_decode]; the state is [idx], [idx2] and
    the output. *)
Definition decode_group (inp : list Z) (s : nat * nat * list Z) : exec (nat * nat * list Z) :=
  let '(idx, idx2, out) := s in
  ch ← load inp idx2;
  let idx2 := if ch =? 10 then (idx2 + 1)%nat else idx2 in
  c0 ← load inp idx2;
  c1 ← load inp (idx2 + 1);
  out ← store out idx (byte0 c0 c1);
  c2 ← load inp (idx2 + 2);
  out ← store out (idx + 1) (byte1 c1 c2);
  c3 ← load inp (idx2 + 3);
  out ← store out (idx + 2) (byte2 c2 c3);
  Done ((idx + 3)%nat, (idx2 + 4)%nat, out).

Definition decode_rest (inp : list Z) (left_over idx idx2 : nat) (out : list Z)
    : exec (nat * list Z) :=
  match left_over with
  | 2%nat =>
      c0 ← load inp idx2;
      c1 ← load inp (idx2 + 1);
      out ← store out idx (byte0 c0 c1);
      Done ((idx + 1)%nat, out)
  | 3%nat =>
      c0 ← load inp idx2;
      c1 ← load inp (idx2 + 1);
      out ← store out idx (byte0 c0 c1);
      c2 ← load inp (idx2 + 2);
      out ← store out (idx + 1) (byte1 c1 c2);
      Done ((idx + 2)%nat, out)
  | _ => Done (idx, out)
  end.

(** The loop advances [idx2] by at least 4, so [len] iterations are enough. *)
Definition base64_decode (inp : list Z) (out : option (list Z)) (len : nat)
    : exec (nat * option (list Z)) :=
  len ← strip inp len;
  len ← strip inp len;
  match out with
  | None =>
      len ← (if (77 <=? len)%nat
             then ch ← load inp 76; Done (if ch =? 10 then (len - len / 77)%nat else len)
             else Done len);
      let blks := (len / 4)%nat in
      let left_over := (len mod 4)%nat in
      let idx := (blks * 3)%nat in
      Done (if (left_over =? 2)%nat then (idx + 1)%nat
            else if (left_over =? 3)%nat then (idx + 2)%nat else idx, None)
  | Some out =>
      let blks := (len / 4)%nat in
      let left_over := (len mod 4)%nat in
      let blk_ceiling := (blks * 4)%nat in
      s ← while len (fun s : nat * nat * list Z => (s.1.2 <? blk_ceiling)%nat) (decode_group inp)
            (0%nat, 0%nat, out);
      let '(idx, idx2, out) := s in
      r ← decode_rest inp left_over idx idx2 out;
      Done (r.1, Some r.2)
  end.

(** ** The text RFC 4648 prescribes *)

Module Rfc4648.

Definition alphabet (d : Z) : Z := nth (Z.to_nat d) charset 0.

(** Three bytes are a 24-bit number written as four digits in base 64. *)
Definition group (a b c : Z) : list Z :=
  let n := a * 2 ^ 16 + b * 2 ^ 8 + c in
  alphabet <$> [n / 2 ^ 18; n / 2 ^ 12 mod 64; n / 2 ^ 6 mod 64; n mod 64].

(** One byte is followed by four zero bits, two bytes by two. *)
Definition group1 (a : Z) : list Z := alphabet <$> [a * 2 ^ 4 / 64; a * 2 ^ 4 mod 64].
Definition group2 (a b : Z) : list Z :=
  let n := (a * 2 ^ 8 + b) * 2 ^ 2 in
  alphabet <$> [n / 2 ^ 12; n / 2 ^ 6 mod 64; n mod 64].

(** A newline after every nineteenth complete group (76 characters). *)
Definition line_break (nl : bool) (i : nat) : list Z :=
  if (S i mod 19 =? 0)%nat && nl then [10] else [].

(** The text of [l], its first group being number [i]. *)
Fixpoint text (nl : bool) (i : nat) (l : list Z) : list Z :=
  match l with
  | a :: b :: c :: l' => group a b c ++ line_break nl i ++ text nl (S i) l'
  | [a; b] => group2 a b ++ [61]
  | [a] => group1 a ++ [61; 61]
  | [] => []
  end.

End Rfc4648.
Import Rfc4648.

(** Induction over a list three elements at a time. *)
Lemma list_ind3 {A} (P : list A -> Prop) :
  P [] -> (forall a, P [a]) -> (forall a b, P [a; b]) ->
  (forall a b c l, P l -> P (a :: b :: c :: l)) -> forall l, P l.
Proof.
  intros H0 H1 H2 H3. fix IH 1. intros [|a [|b [|c l]]]; [exact H0|apply H1|apply H2|].
  apply H3, IH.
Qed.

(** ** Encoding *)

Lemma letter_alphabet d : 0 <= d < 64 -> letter d = Done (alphabet d).
Proof. intros Hd. apply load_nth. change (length charset) with 65%nat. lia. Qed.

(** The index expressions of the code as base-64 digits. *)
Lemma digits a b c :
  is_u8 a -> is_u8 b -> is_u8 c ->
  let n := a * 2 ^ 16 + b * 2 ^ 8 + c in
  [n / 2 ^ 18; n / 2 ^ 12 mod 64; n / 2 ^ 6 mod 64; n mod 64] =
  [Z.shiftr a 2; Z.lor (Z.shiftl (Z.land a 3) 4) (Z.shiftr b 4);
   Z.lor (Z.shiftl (Z.land b 15) 2) (Z.shiftr c 6); Z.land c 63].
Proof.
  unfold is_u8. intros Ha Hb Hc.
  assert (Z.shiftr b 4 = b / 16) as Eb by by apply (Z.shiftr_div_pow2 b 4).
  assert (Z.shiftr c 6 = c / 64) as Ec by by apply (Z.shiftr_div_pow2 c 6).
  rewrite Eb, Ec, !lor_shiftl_add, Z.shiftr_div_pow2 by lia_div.
  change 3 with (Z.ones 2). change 15 with (Z.ones 4). change 63 with (Z.ones 6).
  rewrite !Z.land_ones by lia_div. repeat (apply (f_equal2 cons); [lia_div|]); done.
Qed.

Lemma digits_range a b c :
  is_u8 a -> is_u8 b -> is_u8 c ->
  let n := a * 2 ^ 16 + b * 2 ^ 8 + c in
  Forall (fun d => 0 <= d < 64) [n / 2 ^ 18; n / 2 ^ 12 mod 64; n / 2 ^ 6 mod 64; n mod 64].
Proof. unfold is_u8. intros. repeat constructor; lia_div. Qed.

Lemma digits1 a : is_u8 a ->
  [a * 2 ^ 4 / 64; a * 2 ^ 4 mod 64] = [Z.shiftr a 2; Z.shiftl (Z.land a 3) 4] /\
  Forall (fun d => 0 <= d < 64) [a * 2 ^ 4 / 64; a * 2 ^ 4 mod 64].
Proof.
  unfold is_u8. intros Ha. change 3 with (Z.ones 2).
  rewrite Z.land_ones, Z.shiftl_mul_pow2, Z.shiftr_div_pow2 by lia_div.
  split; [repeat (apply (f_equal2 cons); [lia_div|]); done|repeat constructor; lia_div].
Qed.

Lemma digits2 a b : is_u8 a -> is_u8 b ->
  let n := (a * 2 ^ 8 + b) * 2 ^ 2 in
  [n / 2 ^ 12; n / 2 ^ 6 mod 64; n mod 64] =
    [Z.shiftr a 2; Z.lor (Z.shiftl (Z.land a 3) 4) (Z.shiftr b 4); Z.shiftl (Z.land b 15) 2] /\
  Forall (fun d => 0 <= d < 64) [n / 2 ^ 12; n / 2 ^ 6 mod 64; n mod 64].
Proof.
  unfold is_u8. intros Ha Hb.
  assert (Z.shiftr b 4 = b / 16) as Eb by by apply (Z.shiftr_div_pow2 b 4).
  rewrite Eb, !lor_shiftl_add, Z.shiftr_div_pow2, Z.shiftl_mul_pow2 by lia_div.
  change 3 with (Z.ones 2). change 15 with (Z.ones 4). rewrite !Z.land_ones by lia_div.
  split; [repeat (apply (f_equal2 cons); [lia_div|]); done|repeat constructor; lia_div].
Qed.

(** Runs the accesses behind a prefix of known contents. *)
Ltac behind :=
  repeat first
    [ rewrite load_middle | rewrite store_middle
    | rewrite load_app_r | rewrite store_app_r
    | rewrite letter_alphabet by assumption
    | progress cbn [mbind exec_bind app]
    | progress cbn [load lookup list_lookup store] ].

Lemma break_cond n nc i :
  n = (nc + 4 * i)%nat -> ((n - nc + 4) mod 76 =? 0)%nat = (S i mod 19 =? 0)%nat.
Proof.
  intros ->. replace (nc + 4 * i - nc + 4)%nat with (4 * S i)%nat by lia.
  change 76%nat with (4 * 19)%nat. rewrite Nat.Div0.mul_mod_distr_l.
  destruct (S i mod 19)%nat; [done|]. by rewrite Nat.mul_comm.
Qed.

Lemma encode_group_step pre a b c l nl i nc outpre old rest :
  bytes [a; b; c] -> length pre = (3 * i)%nat -> length outpre = (nc + 4 * i)%nat ->
  length old = length (group a b c ++ line_break nl i) ->
  exists nc', let out' := outpre ++ group a b c ++ line_break nl i in
  encode_group (pre ++ a :: b :: c :: l) nl i (length outpre, nc, outpre ++ old ++ rest) =
    Done (length out', nc', out' ++ rest) /\
  length out' = (nc' + 4 * S i)%nat.
Proof.
  intros Hb Hp Ho Hold. apply Forall_cons in Hb as [Ha Hb]. apply Forall_cons in Hb as [Hb Hc].
  apply Forall_cons in Hc as [Hc _].
  unfold group in *. pose proof (digits_range a b c Ha Hb Hc) as Hr.
  cbv zeta in *. rewrite (digits a b c Ha Hb Hc) in *. inv_Forall.
  unfold encode_group. rewrite <- Hp, (break_cond _ nc i) by done.
  unfold line_break in *. destruct (_ && nl); cbn [fmap list_fmap app length] in Hold; explode old.
  - cbn [app]. behind. exists (nc + 1)%nat.
    rewrite <- !app_assoc, !length_app. cbn [fmap list_fmap app length].
    split; [|lia]. by replace (length outpre + 1 + 4)%nat with (length outpre + 5)%nat by lia.
  - cbn [app]. behind. exists nc.
    rewrite <- !app_assoc, !length_app. cbn [fmap list_fmap app length].
    split; [done|lia].
Qed.

Lemma encode_rest_spec pre l idx outpre old rest nl i :
  bytes l -> (length l < 3)%nat -> length pre = idx -> length old = length (text nl i l) ->
  encode_rest (pre ++ l) (length l) idx (length outpre) (outpre ++ old ++ rest) =
    Done (length (outpre ++ text nl i l), outpre ++ text nl i l ++ rest).
Proof.
  intros Hb Hl <- Hold. destruct l as [|a [|b [|c l]]]; cbn [length] in Hl; [..|lia].
  - simpl in *. explode old. by rewrite app_nil_r.
  - apply Forall_cons in Hb as [Ha _]. destruct (digits1 a Ha) as [E Hr].
    cbn [text] in *. unfold group1 in *. rewrite E in *. inv_Forall.
    cbn [fmap list_fmap app length] in Hold. explode old. cbn [encode_rest length app].
    behind. rewrite length_app. done.
  - apply Forall_cons in Hb as [Ha Hb]. apply Forall_cons in Hb as [Hb _].
    destruct (digits2 a b Ha Hb) as [E Hr].
    cbn [text] in *. unfold group2 in *. cbv zeta in *. rewrite E in *. inv_Forall.
    cbn [fmap list_fmap app length] in Hold. explode old. cbn [encode_rest length app].
    behind. rewrite length_app. done.
Qed.

(** The loop and the rest, from group [i] on. *)
Lemma encode_from nl l : forall pre i nc outpre old rest,
  bytes l -> length pre = (3 * i)%nat -> length outpre = (nc + 4 * i)%nat ->
  length old = length (text nl i l) ->
  (s ← for_range i (length l / 3) (encode_group (pre ++ l) nl) (length outpre, nc, outpre ++ old ++ rest);
   let '(idx2, newline_count, out) := s in
   encode_rest (pre ++ l) (length l mod 3) (3 * i + length l / 3 * 3) idx2 out) =
  Done (length (outpre ++ text nl i l), outpre ++ text nl i l ++ rest).
Proof.
  induction l as [|a|a b|a b c l IH] using list_ind3; intros pre i nc outpre old rest Hb Hp Ho Hold;
    [cbn [for_range length]; run; apply encode_rest_spec; (done || simpl; lia)..|].
  assert (length (a :: b :: c :: l) / 3 = S (length l / 3))%nat as E
    by (cbn [length]; replace (S (S (S (length l)))) with (length l + 1 * 3)%nat by lia;
        rewrite Nat.div_add by done; lia).
  assert (length (a :: b :: c :: l) mod 3 = length l mod 3)%nat as E'
    by (cbn [length]; replace (S (S (S (length l)))) with (length l + 1 * 3)%nat by lia;
        by rewrite Nat.Div0.mod_add).
  rewrite E, E', for_range_S. cbn [text] in *.
  rewrite app_assoc in Hold. set (g := group a b c ++ line_break nl i) in *.
  apply (Forall_app is_u8 [a; b; c] l) in Hb as [Hb Hbl].
  rewrite <- (take_drop (length g) old), <- app_assoc.
  assert (length (take (length g) old) = length g) as Hlg
    by (rewrite length_take, Hold, length_app; lia).
  assert (length (drop (length g) old) = length (text nl (S i) l)) as Hld
    by (rewrite length_drop, Hold, length_app; lia).
  destruct (encode_group_step pre a b c l nl i nc outpre (take (length g) old)
    (drop (length g) old ++ rest) Hb Hp Ho Hlg) as (nc' & -> & Hl'). run. fold g in Hl' |- *.
  specialize (IH (pre ++ [a; b; c]) (S i) nc' (outpre ++ g) (drop (length g) old) rest).
  rewrite <- !app_assoc in IH. rewrite <- !app_assoc.
  replace (3 * i + S (length l / 3) * 3)%nat with (3 * S i + length l / 3 * 3)%nat by lia.
  unfold g in *. rewrite <- !app_assoc in *. apply IH; [done|rewrite length_app; simpl; lia|done|done].
Qed.

(** The size of the text. *)
Lemma length_text nl l : forall i,
  length (text nl i l) =
    (length l / 3 * 4 + (if (length l mod 3 =? 0)%nat then 0 else 4)
     + (if nl then (i + length l / 3) / 19 - i / 19 else 0))%nat.
Proof.
  induction l as [|a|a b|a b c l IH] using list_ind3; intros i.
  - change (length [] / 3)%nat with 0%nat. rewrite (Nat.add_0_r i), Nat.sub_diag. by destruct nl.
  - change (length [a] / 3)%nat with 0%nat. rewrite (Nat.add_0_r i), Nat.sub_diag. by destruct nl.
  - change (length [a; b] / 3)%nat with 0%nat. rewrite (Nat.add_0_r i), Nat.sub_diag. by destruct nl.
  - cbn [text]. rewrite !length_app, IH. cbn [length].
    replace (S (S (S (length l)))) with (length l + 1 * 3)%nat by lia.
    rewrite Nat.div_add, Nat.Div0.mod_add by done.
    change (length (group a b c)) with 4%nat.
    assert (length (line_break nl i) = if nl then (S i / 19 - i / 19)%nat else 0%nat) as ->.
    { unfold line_break. destruct nl; [|by rewrite andb_false_r]. rewrite andb_true_r.
      destruct (Nat.eqb_spec (S i mod 19) 0); simpl; lia_div. }
    destruct nl; [|lia].
    pose proof (Nat.Div0.div_le_mono i (S i) 19 ltac:(lia)).
    pose proof (Nat.Div0.div_le_mono (S i) (S i + length l / 3) 19 ltac:(lia)).
    replace (i + (length l / 3 + 1))%nat with (S i + length l / 3)%nat by lia. lia.
Qed.

Lemma base64_encode_text l out nl :
  bytes l -> (length (text nl 0 l) <= length out)%nat ->
  base64_encode l (Some out) (length l) nl =
    Done (length (text nl 0 l), Some (text nl 0 l ++ drop (length (text nl 0 l)) out)).
Proof.
  intros Hb Ho. unfold base64_encode. set (n := length (text nl 0 l)) in *.
  pose proof (encode_from nl l [] 0 0 [] (take n out) (drop n out) Hb eq_refl eq_refl) as E.
  rewrite length_take_le in E by done. specialize (E eq_refl). cbn [app length] in E.
  rewrite take_drop, Nat.add_0_l in E.
  destruct (for_range _ _ _ _) as [[[idx2 nc] o]| |]; try done. cbn [mbind exec_bind] in *.
  by rewrite E.
Qed.

(** [base64_encode], with or without line breaks, writes exactly the RFC
    4648 text of its input (a newline after every 76 characters of complete
    groups) to an output buffer with room for it and returns its length; the
    size query [out == NULL] returns the same number. *)
Theorem base64_encode_correct l out nl :
  bytes l -> (length (text nl 0 l) <= length out)%nat ->
  base64_encode l (Some out) (length l) nl =
    Done (length (text nl 0 l), Some (text nl 0 l ++ drop (length (text nl 0 l)) out)) /\
  base64_encode l None (length l) nl = Done (length (text nl 0 l), None).
Proof.
  intros Hb Ho. split.
  - by apply base64_encode_text.
  - unfold base64_encode. rewrite length_text. do 2 f_equal.
    rewrite Nat.add_0_l, Nat.Div0.div_div. change (0 / 19)%nat with 0%nat. rewrite Nat.sub_0_r.
    destruct (_ =? 0)%nat, nl; cbn [Nat.mul]; lia.
Qed.

Lemma base64_encode_correct_witness :
  base64_encode [102; 111] (Some (replicate 5 0)) 2 true =
    Done (4%nat, Some [90; 109; 56; 61; 0]) /\
  base64_encode [102; 111] None 2 true = Done (4%nat, None).
Proof. apply (base64_encode_correct [102; 111] (replicate 5 0) true); [by_compute|simpl; lia]. Defined.

(** ** Decoding *)

Lemma alphabet_props d :
  0 <= d < 64 -> revchar (alphabet d) = d /\ alphabet d <> 10 /\ alphabet d <> 61.
Proof.
  intros Hd.
  pose proof (check_range (fun d => (revchar (alphabet d) =? d) && negb (alphabet d =? 10)
    && negb (alphabet d =? 61)) 0 64 ltac:(vm_compute; reflexivity) d Hd) as H.
  cbv beta in H. lia.
Qed.

Lemma shift2_byte a b : is_u8 a -> is_u8 b ->
  u8 (Z.lor (Z.shiftl (Z.shiftr a 2) 2)
        (Z.shiftr (Z.land (Z.lor (Z.shiftl (Z.land a 3) 4) (Z.shiftr b 4)) 48) 4)) = a.
Proof. intros Ha Hb. bits_eq 8; [apply u8_range|done]. Qed.

Lemma shift4_byte a b c : is_u8 a -> is_u8 b -> is_u8 c ->
  u8 (Z.lor (Z.shiftl (Z.lor (Z.shiftl (Z.land a 3) 4) (Z.shiftr b 4)) 4)
        (Z.shiftr (Z.lor (Z.shiftl (Z.land b 15) 2) (Z.shiftr c 6)) 2)) = b.
Proof. intros Ha Hb Hc. bits_eq 8; [apply u8_range|done]. Qed.

Lemma shift6_byte b c : is_u8 b -> is_u8 c ->
  u8 (Z.lor (Z.shiftl (Z.lor (Z.shiftl (Z.land b 15) 2) (Z.shiftr c 6)) 6) (Z.land c 63)) = c.
Proof. intros Hb Hc. bits_eq 8; [apply u8_range|done]. Qed.

(** The text without its padding. *)
Fixpoint core (l : list Z) : list Z :=
  match l with
  | a :: b :: c :: l' => group a b c ++ core l'
  | [a; b] => group2 a b
  | [a] => group1 a
  | [] => []
  end.

Definition padding (l : list Z) : nat := match (length l mod 3)%nat with 1%nat => 2 | 2%nat => 1 | _ => 0 end.

Lemma mod3_cons {A} (a b c : A) l : (length (a :: b :: c :: l) mod 3 = length l mod 3)%nat.
Proof.
  cbn [length]. replace (S (S (S (length l)))) with (length l + 1 * 3)%nat by lia.
  by rewrite Nat.Div0.mod_add.
Qed.

Lemma text_core l : forall i, text false i l = core l ++ replicate (padding l) 61.
Proof.
  induction l as [|a|a b|a b c l IH] using list_ind3; intros i; [done..|].
  cbn [text core]. unfold line_break. rewrite andb_false_r, IH, <- app_assoc.
  unfold padding. by rewrite mod3_cons.
Qed.

Lemma core_letters l : bytes l -> Forall (fun c => c <> 10 /\ c <> 61) (core l).
Proof.
  induction l as [|a|a b|a b c l IH] using list_ind3; intros Hl; [constructor|..];
    repeat (apply Forall_cons in Hl as [?H Hl]); cbn [core].
  - unfold group1. apply Forall_fmap. eapply Forall_impl; [by apply digits1|].
    intros d Hd. simpl. by apply alphabet_props.
  - unfold group2. apply Forall_fmap. eapply Forall_impl; [by apply digits2|].
    intros d Hd. simpl. by apply alphabet_props.
  - apply Forall_app. split; [|by apply IH].
    unfold group. apply Forall_fmap. eapply Forall_impl; [by apply digits_range|].
    intros d Hd. simpl. by apply alphabet_props.
Qed.

Lemma length_core l :
  length (core l) = (length l / 3 * 4 + match length l mod 3 with 1 => 2 | 2 => 3 | _ => 0 end)%nat.
Proof.
  induction l as [|a|a b|a b c l IH] using list_ind3; [done..|].
  cbn [core]. rewrite length_app, IH, mod3_cons. cbn [length].
  replace (S (S (S (length l)))) with (length l + 1 * 3)%nat by lia.
  rewrite Nat.div_add by done. change (length (group a b c)) with 4%nat. lia.
Qed.

(** Replaces [revchar (alphabet d)] by [d]. *)
Ltac known_digits :=
  repeat match goal with
    | H : 0 <= ?d < 64 |- context [revchar (alphabet ?d)] =>
        rewrite (proj1 (alphabet_props d H))
    end.

Lemma decode_group_step pre a b c q outpre x y z o :
  bytes [a; b; c] ->
  decode_group (pre ++ group a b c ++ q) (length outpre, length pre, outpre ++ x :: y :: z :: o) =
    Done ((length outpre + 3)%nat, (length pre + 4)%nat, outpre ++ a :: b :: c :: o).
Proof.
  intros Hb. apply Forall_cons in Hb as [Ha Hb]. apply Forall_cons in Hb as [Hb Hc].
  apply Forall_cons in Hc as [Hc _].
  unfold group in *. pose proof (digits_range a b c Ha Hb Hc) as Hr.
  cbv zeta in *. rewrite (digits a b c Ha Hb Hc) in *. inv_Forall.
  unfold decode_group. cbn [fmap list_fmap app]. behind.
  rewrite (proj2 (Z.eqb_neq _ _)) by by apply alphabet_props. behind.
  unfold byte0, byte1, byte2. known_digits.
  by rewrite shift2_byte, shift4_byte, shift6_byte.
Qed.

Lemma decode_rest_spec pre l post idx outpre old rest :
  bytes l -> (length l < 3)%nat -> length pre = idx -> length old = length l ->
  decode_rest (pre ++ core l ++ post) (length (core l)) (length outpre) idx (outpre ++ old ++ rest) =
    Done (length (outpre ++ l), outpre ++ l ++ rest).
Proof.
  intros Hb Hl <- Hold. destruct l as [|a [|b [|c l]]]; cbn [length] in Hl; [..|lia].
  - simpl in *. explode old. by rewrite app_nil_r.
  - apply Forall_cons in Hb as [Ha _]. destruct (digits1 a Ha) as [E Hr].
    cbn [core] in *. unfold group1 in *. rewrite E in *. inv_Forall.
    cbn [length] in Hold. explode old. cbn [decode_rest fmap list_fmap length app].
    behind. rewrite length_app. unfold byte0.
    known_digits.
    pose proof (shift2_byte a 0 Ha ltac:(by_compute)) as S0. rewrite Z.shiftr_0_l, Z.lor_0_r in S0.
    by rewrite S0.
  - apply Forall_cons in Hb as [Ha Hb]. apply Forall_cons in Hb as [Hb _].
    destruct (digits2 a b Ha Hb) as [E Hr].
    cbn [core] in *. unfold group2 in *. cbv zeta in *. rewrite E in *. inv_Forall.
    cbn [length] in Hold. explode old. cbn [decode_rest fmap list_fmap length app].
    behind. rewrite length_app. unfold byte0, byte1.
    known_digits.
    pose proof (shift4_byte a b 0 Ha Hb ltac:(by_compute)) as S0. rewrite Z.shiftr_0_l, Z.lor_0_r in S0.
    by rewrite S0, shift2_byte.
Qed.

Lemma core_short l : (length l < 3)%nat -> (length (core l) < 4)%nat.
Proof. intros Hl. destruct l as [|a [|b [|c l]]]; simpl in *; lia. Qed.

Lemma decode_from l : forall pre post fuel outpre old rest,
  bytes l -> length old = length l -> (length l / 3 <= fuel)%nat ->
  (s ← while fuel (fun s : nat * nat * list Z => (s.1.2 <? length pre + length (core l) / 4 * 4)%nat)
         (decode_group (pre ++ core l ++ post)) (length outpre, length pre, outpre ++ old ++ rest);
   let '(idx, idx2, out) := s in
   decode_rest (pre ++ core l ++ post) (length (core l) mod 4) idx idx2 out) =
  Done (length (outpre ++ l), outpre ++ l ++ rest).
Proof.
  assert (forall l pre post fuel outpre old rest,
    (length l < 3)%nat -> bytes l -> length old = length l ->
    (s ← while fuel (fun s : nat * nat * list Z => (s.1.2 <? length pre + length (core l) / 4 * 4)%nat)
           (decode_group (pre ++ core l ++ post)) (length outpre, length pre, outpre ++ old ++ rest);
     let '(idx, idx2, out) := s in
     decode_rest (pre ++ core l ++ post) (length (core l) mod 4) idx idx2 out) =
    Done (length (outpre ++ l), outpre ++ l ++ rest)) as base.
  { intros l' pre post fuel outpre old rest Hl Hb Hold. pose proof (core_short l' Hl).
    rewrite Nat.div_small, Nat.mod_small by done.
    rewrite while_stop by (cbn [fst snd]; apply Nat.ltb_ge; lia). run. by apply decode_rest_spec. }
  induction l as [|a|a b|a b c l IH] using list_ind3; intros pre post fuel outpre old rest Hb Hold Hf;
    [by apply base; simpl; try lia..|].
  apply (Forall_app is_u8 [a; b; c] l) in Hb as [Hb Hbl].
  cbn [core length] in *. destruct old as [|x [|y [|z old]]]; try done.
  replace (S (S (S (length l)))) with (length l + 1 * 3)%nat in Hf by lia.
  rewrite Nat.div_add in Hf by done. destruct fuel as [|fuel]; [lia|].
  assert (length (group a b c ++ core l) = length (core l) + 1 * 4)%nat as -> by
    (rewrite length_app; change (length (group a b c)) with 4%nat; lia).
  rewrite Nat.div_add, Nat.Div0.mod_add by done. cbn [while fst snd].
  rewrite (proj2 (Nat.ltb_lt _ _)) by lia. rewrite <- app_assoc. cbn [app].
  rewrite decode_group_step by done. run.
  specialize (IH (pre ++ group a b c) post fuel (outpre ++ [a; b; c]) old rest Hbl).
  rewrite <- !app_assoc, !length_app in IH. change (length (group a b c)) with 4%nat in IH.
  cbn [length app] in IH. rewrite length_app. cbn [length].
  replace (length pre + (length (core l) / 4 + 1) * 4)%nat
    with (length pre + 4 + length (core l) / 4 * 4)%nat by lia.
  rewrite IH; [|by simplify_eq/=|lia]. by do 2 f_equal.
Qed.

(** Stripping the padding. *)
Lemma strip_core l rest :
  bytes l -> l <> [] ->
  (n ← strip (core l ++ replicate (padding l) 61 ++ rest) (length (core l ++ replicate (padding l) 61));
   strip (core l ++ replicate (padding l) 61 ++ rest) n) = Done (length (core l)).
Proof.
  intros Hb Hne. pose proof (core_letters l Hb) as Hc.
  assert (exists p c, core l = p ++ [c] /\ c <> 61) as (p & c & E & H61).
  { destruct (exists_last (l := core l)) as (p & c & E).
    - pose proof (length_core l) as Hl. intros E. rewrite E in Hl. destruct l as [|a l]; [done|].
      cbn [length] in Hl. pose proof (Nat.mod_upper_bound (S (length l)) 3 ltac:(lia)).
      destruct (S (length l) mod 3)%nat as [|[|[|?]]] eqn:Em; simpl in Hl; try lia.
    - exists p, c. split; [done|]. rewrite E in Hc. apply Forall_app in Hc as [_ Hc].
      by apply Forall_cons in Hc as [[_ ?] _]. }
  rewrite E. clear E Hc. set (k := padding l).
  assert (k <= 2)%nat as Hk by (subst k; unfold padding; repeat case_match; lia). clearbody k.
  assert (forall q, strip (p ++ c :: q) (length p + 1) = Done (length p + 1)%nat) as Hstop.
  { intros q. unfold strip. rewrite Nat.add_1_r. cbn [load_last]. rewrite load_middle. run.
    by rewrite (proj2 (Z.eqb_neq c 61)) by done. }
  assert (forall q, strip (p ++ c :: 61 :: q) (length p + 2) = Done (length p + 1)%nat) as H1.
  { intros q. unfold strip. replace (length p + 2)%nat with (S (length p + 1)) by lia.
    cbn [load_last]. rewrite load_app_r. simpl. f_equal. lia. }
  assert (forall q, strip (p ++ c :: 61 :: 61 :: q) (length p + 3) = Done (length p + 2)%nat) as H2.
  { intros q. unfold strip. replace (length p + 3)%nat with (S (length p + 2)) by lia.
    cbn [load_last]. rewrite load_app_r. run. simpl. f_equal. lia. }
  rewrite <- !app_assoc, !length_app. cbn [length app]. rewrite length_replicate.
  destruct k as [|[|[|k]]]; [..|lia]; cbn [replicate app].
  - replace (length p + 1 + 0)%nat with (length p + 1)%nat by lia.
    rewrite Hstop. run. by rewrite Hstop.
  - replace (length p + 1 + 1)%nat with (length p + 2)%nat by lia.
    rewrite H1. run. by rewrite Hstop.
  - replace (length p + 1 + 2)%nat with (length p + 3)%nat by lia.
    rewrite H2. run. by rewrite H1.
Qed.

Lemma decode_length l : (length l / 3 <= length (core l))%nat.
Proof. rewrite length_core. lia. Qed.

(** The size query on a text without line breaks. *)
Lemma decode_size l rest :
  bytes l -> l <> [] ->
  base64_decode (text false 0 l ++ rest) None (length (text false 0 l)) = Done (length l, None).
Proof.
  intros Hb Hne. rewrite text_core. unfold base64_decode.
  pose proof (strip_core l rest Hb Hne) as E. rewrite <- app_assoc.
  destruct (strip _ _) as [n| |]; try done. cbn [mbind exec_bind] in *. rewrite E. run.
  assert ((if (77 <=? length (core l))%nat
           then ch ← load (core l ++ replicate (padding l) 61 ++ rest) 76;
                Done (if ch =? 10 then (length (core l) - length (core l) / 77)%nat
                      else length (core l))
           else Done (length (core l))) = Done (length (core l))) as ->.
  { destruct (Nat.leb_spec 77 (length (core l))); [|done].
    destruct (load_lt (core l) 76 ltac:(lia)) as (c & Hc & _).
    rewrite (load_Done _ _ c) by (rewrite lookup_app_l by lia; done). run.
    pose proof (Forall_lookup_1 _ _ _ _ (core_letters l Hb) Hc) as [H10 _].
    by rewrite (proj2 (Z.eqb_neq c 10)). }
  run. do 2 f_equal. rewrite length_core.
  pose proof (Nat.mod_upper_bound (length l) 3 ltac:(lia)) as Hm.
  pose proof (Nat.div_mod_eq (length l) 3) as Hd.
  destruct (length l mod 3)%nat as [|[|[|?]]]; [..|lia];
    rewrite Nat.div_add_l, (Nat.add_comm (_ * 4)), Nat.Div0.mod_add by done;
    repeat match goal with |- context [(?a / 4)%nat] => change (a / 4)%nat with 0%nat end; simpl; lia.
Qed.

(** C36: A round trip without line breaks: for every non-empty input, encoding
    it into a large enough buffer and decoding the result gives the input
    back, byte for byte and with its length, the rest of the output buffer
    being left as it was; the decoder's size query announces that length. *)
Theorem base64_roundtrip l out out2 :
  bytes l -> l <> [] -> (length (text false 0 l) <= length out)%nat -> (length l <= length out2)%nat ->
  exists n code,
    base64_encode l (Some out) (length l) false = Done (n, Some code) /\
    base64_decode code (Some out2) n = Done (length l, Some (l ++ drop (length l) out2)) /\
    base64_decode code None n = Done (length l, None).
Proof.
  intros Hb Hne Ho Ho2. eexists _, _. split.
  { by apply base64_encode_text. }
  split; [|by apply decode_size].
  rewrite text_core. unfold base64_decode.
  pose proof (strip_core l (drop (length (core l ++ replicate (padding l) 61)) out) Hb Hne) as E.
  rewrite <- app_assoc.
  destruct (strip _ _) as [n| |]; try done. cbn [mbind exec_bind] in *. rewrite E. run.
  pose proof (decode_from l [] (replicate (padding l) 61 ++
    drop (length (core l ++ replicate (padding l) 61)) out) (length (core l)) []
    (take (length l) out2) (drop (length l) out2) Hb (length_take_le _ _ Ho2) (decode_length l)) as D.
  cbn [app length] in D. rewrite take_drop, Nat.add_0_l in D.
  destruct (while _ _ _ _) as [[[idx idx2] o]| |]; try done. cbn [mbind exec_bind] in *. by rewrite D.
Qed.

Lemma base64_roundtrip_witness :
  exists n code,
    base64_encode [102; 111] (Some (replicate 9 0)) 2 false = Done (n, Some code) /\
    base64_decode code (Some [1; 2; 3]) n = Done (2%nat, Some [102; 111; 3]) /\
    base64_decode code None n = Done (2%nat, None).
Proof.
  apply (base64_roundtrip [102; 111] (replicate 9 0) [1; 2; 3]);
    [by_compute|done|simpl; lia|simpl; lia].
Defined.

(** With line breaks the round trip fails: the encoder's text of 58 bytes
    has a newline before its last, incomplete group, where the decoder does
    not skip it.  The size query announces 58 bytes, decoding writes 59: it
    overruns a buffer of the announced size, and in a larger one the last two
    bytes are wrong. *)
Theorem base64_newline_misdecoded :
  exists code,
    base64_encode (replicate 58 65) (Some (replicate 81 0)) 58 true = Done (81%nat, Some code) /\
    base64_decode code None 81 = Done (58%nat, None) /\
    base64_decode code (Some (replicate 58 0)) 81 = Fault /\
    base64_decode code (Some (replicate 59 0)) 81 = Done (59%nat, Some (replicate 57 65 ++ [41; 4])).
Proof. eexists. split_and!; vm_compute; reflexivity. Qed.

(** The text of 114 bytes has two newlines; the decoder reads past its end. *)
Example base64_newline_overread :
  exists code,
    base64_encode (replicate 114 65) (Some (replicate 154 0)) 114 true = Done (154%nat, Some code) /\
    base64_decode code (Some (replicate 200 0)) 154 = Fault.
Proof. eexists. split; vm_compute; reflexivity. Qed.

(** The texts of base64_test.c. *)
Example base64_foobar :
  base64_encode [102; 111; 111; 98; 97; 114] (Some (replicate 8 0)) 6 true =
    Done (8%nat, Some [90; 109; 57; 118; 89; 109; 70; 121]) /\
  base64_decode [90; 109; 57; 118; 89; 109; 70; 121] (Some (replicate 6 0)) 8 =
    Done (6%nat, Some [102; 111; 111; 98; 97; 114]).
Proof. split; vm_compute; reflexivity. Qed.

End Base64.
