(* ===== verification/BlockHash.v ===== *)
(** * Block hashes: what md5.c, sha1.c and sha256.c share

    The three hash functions buffer their input in a 64-byte block, compress a
    block when it is full, and append the Merkle-Damgard padding at the end.
    The class [BlockHash] is what the streaming argument needs to know of a
    context; each hash is an instance, and [absorbed] is the representation
    invariant that [init] establishes, [update] preserves and [final] uses. *)

From S2P Require Import Prelude.

Module BlockHash.

(** The fields of a context, the fields written at once, and the hash's own
    compression: the code's ([bh_transform]) and its specification
    ([bh_compress]). *)
Class BlockHash (C : Type) := {
  bh_data : C -> list Z;
  bh_datalen : C -> nat;
  bh_bitlen : C -> Z;
  bh_state : C -> list Z;
  bh_set : C -> list Z -> nat -> Z -> list Z -> C;
  bh_ok : C -> Prop;
  bh_iv : list Z;
  bh_compress : list Z -> list Z -> list Z;
  bh_transform : C -> list Z -> exec C;
}.

Class BlockHashLaws (C : Type) `{BlockHash C} := {
  bh_data_set (c : C) d n b s : bh_data (bh_set c d n b s) = d;
  bh_datalen_set (c : C) d n b s : bh_datalen (bh_set c d n b s) = n;
  bh_bitlen_set (c : C) d n b s : bh_bitlen (bh_set c d n b s) = b;
  bh_state_set (c : C) d n b s : bh_state (bh_set c d n b s) = s;
  bh_ok_set (c : C) d n b s : bh_ok c -> s = bh_state c -> bh_ok (bh_set c d n b s);
  bh_transform_compress (c : C) blk :
    bh_ok c -> length blk = 64%nat -> bytes blk ->
    let c' := bh_set c (bh_data c) (bh_datalen c) (bh_bitlen c) (bh_compress (bh_state c) blk) in
    bh_transform c blk = Done c' /\ bh_ok c';
}.

(** Reads the fields of a context that has just been written. *)
Tactic Notation "bh_simpl" := rewrite ?bh_data_set, ?bh_datalen_set, ?bh_bitlen_set, ?bh_state_set.

Tactic Notation "bh_simpl" "in" hyp(H) :=
  rewrite ?bh_data_set, ?bh_datalen_set, ?bh_bitlen_set, ?bh_state_set in H.

(** Runs a call of the compression function; [Hok] names the invariant of the
    context it returns. *)
Ltac compress_call Hok :=
  match goal with
  | |- context [bh_transform ?c ?blk] =>
      destruct (bh_transform_compress c blk) as [-> Hok]
  end.

(** ** The code the three files share, up to the names of their functions *)

Section code.
Context {C : Type} `{BlockHash C}.

(** The body of the [update] loops, for the byte [b] = [data[i]]. *)
Definition bh_absorb (c : C) (b : Z) : exec C :=
  data' ← store (bh_data c) (bh_datalen c) b;
  let c1 := bh_set c data' (bh_datalen c + 1) (bh_bitlen c) (bh_state c) in
  if (bh_datalen c1 =? 64)%nat then
    c2 ← bh_transform c1 (bh_data c1);
    Done (bh_set c2 (bh_data c2) 0 (u64 (bh_bitlen c2 + 512)) (bh_state c2))
  else Done c1.

Definition bh_update (c : C) (data : list Z) (len : nat) : exec C :=
  for_range 0 len (fun i c => b ← load data i; bh_absorb c b) c.

(** The padding part of the [final] functions. *)
Definition bh_pad (c : C) : exec C :=
  if (bh_datalen c <? 56)%nat then
    d ← store (bh_data c) (bh_datalen c) 0x80;
    d' ← fill_from d (S (bh_datalen c)) 56 0;
    Done (bh_set c d' (bh_datalen c) (bh_bitlen c) (bh_state c))
  else
    d ← store (bh_data c) (bh_datalen c) 0x80;
    d' ← fill_from d (S (bh_datalen c)) 64 0;
    c1 ← bh_transform (bh_set c d' (bh_datalen c) (bh_bitlen c) (bh_state c)) d';
    d'' ← memset (bh_data c1) 0 0 56;
    Done (bh_set c1 d'' (bh_datalen c1) (bh_bitlen c1) (bh_state c1)).

End code.

(** ** The message so far *)

Record absorbed `{BlockHash C} (c : C) (bs : list (list Z)) (rest : list Z) : Prop := {
  ab_ok : bh_ok c;
  ab_blocks : Forall (fun b => length b = 64%nat) bs;
  ab_rest : (length rest < 64)%nat;
  ab_data : length (bh_data c) = 64%nat;
  ab_len : bh_datalen c = length rest;
  ab_take : take (length rest) (bh_data c) = rest;
  ab_bits : bh_bitlen c = u64 (512 * Z.of_nat (length bs));
  ab_state : bh_state c = foldl bh_compress bh_iv bs;
}.

(** [c] has been fed exactly [msg] since it was initialised. *)
Definition has_absorbed `{BlockHash C} (c : C) (msg : list Z) : Prop :=
  exists bs rest, msg = concat bs ++ rest /\ absorbed c bs rest.

(** ** The Merkle-Damgard construction *)

Definition blocks (l : list Z) : list (list Z) := chunks 64 l.

(** A one bit, the zeros that leave 8 bytes in the last block, and the length
    of the message in bits as 8 bytes in the byte order [enc] of the hash. *)
Definition md_pad (enc : Z -> list Z) (msg : list Z) : list Z :=
  msg ++ 128 :: replicate (Z.to_nat ((55 - Z.of_nat (length msg)) mod 64)) 0
      ++ enc (u64 (8 * Z.of_nat (length msg))).

Definition md_hash (iv : list Z) (compress : list Z -> list Z -> list Z)
    (enc : Z -> list Z) (msg : list Z) : list Z :=
  foldl compress iv (blocks (md_pad enc msg)).

(** The blocks [final] compresses after the full blocks of the message. *)
Definition last_blocks (rest len8 : list Z) : list (list Z) :=
  if decide (length rest < 56)%nat
  then [rest ++ 128 :: replicate (55 - length rest) 0 ++ len8]
  else [rest ++ 128 :: replicate (63 - length rest) 0; replicate 56 0 ++ len8].

Lemma length_last_blocks rest len8 :
  (length rest < 64)%nat -> length len8 = 8%nat ->
  Forall (fun b => length b = 64%nat) (last_blocks rest len8).
Proof.
  intros Hr H8. unfold last_blocks. case_decide; repeat constructor;
    rewrite ?length_app; simpl; rewrite ?length_app, ?length_replicate; lia.
Qed.

(** Padding only depends on the bytes after the last full block. *)
Lemma blocks_md_pad enc bs rest :
  (forall v, length (enc v) = 8%nat) ->
  Forall (fun b => length b = 64%nat) bs -> (length rest < 64)%nat ->
  blocks (md_pad enc (concat bs ++ rest)) =
    bs ++ last_blocks rest (enc (u64 (8 * Z.of_nat (length (concat bs ++ rest))))).
Proof.
  intros Henc Hbs Hrest. unfold md_pad.
  set (e := enc _). assert (length e = 8%nat) as He by apply Henc.
  rewrite length_app, (length_concat_chunks 64) by done.
  set (z := Z.to_nat _).
  assert (z = if decide (length rest < 56)%nat then 55 - length rest else 119 - length rest)%nat as Hz.
  { unfold z. case_decide; [|]; zify; Z.to_euclidean_division_equations; lia. }
  transitivity (blocks (concat (bs ++ last_blocks rest e))).
  - f_equal. rewrite concat_app, <- app_assoc. f_equal.
    unfold last_blocks. rewrite Hz. case_decide; cbn [concat]; rewrite ?app_nil_r.
    + done.
    + replace (119 - length rest)%nat with ((63 - length rest) + 56)%nat by lia.
      rewrite replicate_add, <- !app_assoc. done.
  - apply (chunks_concat 64); [done|]. apply Forall_app. split; [done|].
    by apply length_last_blocks.
Qed.

(** ** Buffer manipulations of the [final] functions *)

Section padding.
Context (data rest : list Z) {B : Type} (K : list Z -> exec B).
Hypothesis Hdata : length data = 64%nat.
Hypothesis Htake : take (length rest) data = rest.

(** [data[i++] = 0x80; while (i < hi) data[i++] = 0x00;] *)
Lemma pad_buffer hi :
  (length rest < hi <= 64)%nat ->
  (d0 ← store data (length rest) 128; d1 ← fill_from d0 (S (length rest)) hi 0; K d1) =
    K (rest ++ 128 :: replicate (hi - S (length rest)) 0 ++ drop hi data).
Proof.
  intros Hn. rewrite store_lt by lia. run.
  rewrite fill_from_spec by (rewrite length_insert; lia). run.
  by rewrite take_S_insert, drop_insert_lt, Htake, <- app_assoc by lia.
Qed.

Lemma pad_short :
  (length rest < 56)%nat ->
  exists d, (d0 ← store data (length rest) 128; d1 ← fill_from d0 (S (length rest)) 56 0; K d1) = K d /\
    length d = 64%nat /\ take 56 d = rest ++ 128 :: replicate (55 - length rest) 0.
Proof.
  intros Hn. eexists. split; [apply pad_buffer; lia|]. split.
  - rewrite length_app. cbn [length]. rewrite length_app, length_replicate, length_drop. lia.
  - rewrite app_comm_cons, app_assoc. apply take_app_length'.
    rewrite length_app. cbn [length]. rewrite length_replicate. lia.
Qed.

Lemma pad_long :
  (56 <= length rest < 64)%nat ->
  (d0 ← store data (length rest) 128; d1 ← fill_from d0 (S (length rest)) 64 0; K d1) =
    K (rest ++ 128 :: replicate (63 - length rest) 0).
Proof. intros Hn. rewrite pad_buffer by lia. by rewrite drop_ge, app_nil_r by lia. Qed.

Lemma clear_56 :
  exists d, memset data 0 0 56 = Done d /\
    length d = 64%nat /\ take 56 d = replicate 56 0.
Proof.
  rewrite memset_in by lia. eexists. split; [done|].
  rewrite take_0, app_nil_l. split.
  - rewrite length_app, length_replicate, length_drop. lia.
  - by apply take_app_length'.
Qed.

Lemma bytes_padded n : bytes rest -> bytes (rest ++ 128 :: replicate n 0).
Proof.
  intros Hr. apply Forall_app. split; [done|]. constructor; [by_compute|].
  by apply Forall_replicate.
Qed.

End padding.

(** ** Streaming *)

Section streaming.
Context {C : Type} `{BlockHashLaws C}.

Lemma has_absorbed_step (c : C) msg b :
  has_absorbed c msg -> bytes msg -> is_u8 b ->
  returns (bh_absorb c b) (fun c' => has_absorbed c' (msg ++ [b])).
Proof.
  intros (bs & rest & -> & [Hok Hbs Hrest Hdata Hlen Htake Hbits Hstate]) Hmsg Hb.
  apply Forall_app in Hmsg as [_ Hr].
  unfold bh_absorb. rewrite store_lt by lia. run. bh_simpl.
  destruct (Nat.eqb_spec (bh_datalen c + 1) 64) as [Hfull|Hpart].
  - assert (<[bh_datalen c:=b]> (bh_data c) = rest ++ [b]) as ->.
    { rewrite insert_take_drop, drop_ge, Hlen, Htake by lia. done. }
    compress_call Hok';
      [by apply bh_ok_set|rewrite length_app; simpl; lia|
       apply Forall_app; split; [done|solve_words]|].
    run. apply returns_Done. exists (bs ++ [rest ++ [b]]), [].
    split; [by rewrite concat_app; simpl; rewrite !app_nil_r, app_assoc|].
    split; [by apply bh_ok_set| |simpl; lia|..]; bh_simpl; try done.
    + apply Forall_app. split; [done|]. constructor; [|constructor].
      rewrite length_app. simpl. lia.
    + rewrite length_app. simpl. lia.
    + rewrite Hbits, length_app. unfold u64. simpl length.
      rewrite Zplus_mod_idemp_l. f_equal. lia.
    + by rewrite Hstate, foldl_app.
  - apply returns_Done. exists bs, (rest ++ [b]).
    split; [by rewrite app_assoc|].
    split; [by apply bh_ok_set|done|..]; bh_simpl; try done.
    + rewrite length_app. simpl. lia.
    + by rewrite length_insert.
    + rewrite length_app. simpl. lia.
    + rewrite length_app, Nat.add_1_r, Hlen, take_S_insert by lia. by rewrite Htake.
Qed.

Lemma has_absorbed_update (c : C) msg data len :
  has_absorbed c msg -> bytes msg -> bytes data -> (len <= length data)%nat ->
  returns (bh_update c data len) (fun c' => has_absorbed c' (msg ++ take len data)).
Proof.
  intros Hc Hmsg Hdata Hlen. unfold bh_update.
  apply (for_range_inv (fun i c => has_absorbed c (msg ++ take i data))).
  - by rewrite take_0, app_nil_r.
  - intros i c' Hi Hc'.
    destruct (load_lt data i ltac:(lia)) as (b & Hb & ->). run.
    rewrite (take_S_r _ _ b), app_assoc by done.
    apply has_absorbed_step; [done| |by eapply Forall_lookup_1].
    apply Forall_app. split; [done|]. by apply Forall_take.
Qed.

(** One call of [update] per fragment. *)
Fixpoint bh_updates (c : C) (frags : list (list Z)) : exec C :=
  match frags with
  | [] => Done c
  | f :: frags' => c' ← bh_update c f (length f); bh_updates c' frags'
  end.

Lemma has_absorbed_updates frags : forall (c : C) msg,
  has_absorbed c msg -> bytes msg -> Forall bytes frags ->
  returns (bh_updates c frags) (fun c' => has_absorbed c' (msg ++ concat frags)).
Proof.
  induction frags as [|f frags IH]; intros c msg Hc Hm Hb; simpl.
  - apply returns_Done. by rewrite app_nil_r.
  - inv_Forall. eapply returns_bind; [by apply has_absorbed_update|]. intros c' Hc'.
    rewrite take_ge in Hc' by lia. rewrite app_assoc. apply IH; [done| |done].
    by apply Forall_app.
Qed.

(** What the padding leaves: the blocks still to be compressed are those of
    the Merkle-Damgard padding, except for the eight bytes of the length. *)
Lemma bh_pad_spec (c : C) bs rest len8 :
  absorbed c bs rest -> bytes rest -> length len8 = 8%nat ->
  returns (bh_pad c) (fun c' =>
    bh_ok c' /\ length (bh_data c') = 64%nat /\ bh_datalen c' = length rest /\
    bh_bitlen c' = bh_bitlen c /\ bytes (take 56 (bh_data c')) /\
    bh_compress (bh_state c') (take 56 (bh_data c') ++ len8) =
      foldl bh_compress (bh_state c) (last_blocks rest len8)).
Proof.
  intros [Hok Hbs Hrest Hdata Hlen Htake Hbits Hstate] Hr H8.
  unfold bh_pad, last_blocks. rewrite Hlen.
  destruct (Nat.ltb_spec (length rest) 56) as [Hs|Hs].
  - destruct (pad_short (bh_data c) rest
      (fun d => Done (bh_set c d (length rest) (bh_bitlen c) (bh_state c))))
      as (d & -> & Hd & Ht); [done..|].
    apply returns_Done. bh_simpl.
    rewrite Ht, decide_True, <- app_assoc by done.
    split_and!; [by apply bh_ok_set|done..|by apply bytes_padded|done].
  - rewrite (pad_long (bh_data c) rest) by (done || lia).
    assert (length (rest ++ 128 :: replicate (63 - length rest) 0) = 64%nat) as Hd.
    { rewrite length_app. simpl. rewrite length_replicate. lia. }
    compress_call Hok';
      [by apply bh_ok_set|exact Hd|by apply bytes_padded|].
    run. bh_simpl.
    destruct (clear_56 (rest ++ 128 :: replicate (63 - length rest) 0)) as (d' & -> & Hd' & Ht);
      [done|].
    apply returns_Done. bh_simpl. rewrite Ht, decide_False by lia.
    split_and!; [|done..|by apply Forall_replicate|done].
    bh_simpl in Hok'. apply bh_ok_set; [exact Hok'|]. by bh_simpl.
Qed.

(** The end of the [final] functions: padding, the length in the byte order
    [enc], the last compression, then [K] (writing the digest). *)
Lemma bh_final_spec {B} (c : C) msg put enc (K : C -> exec B) Q :
  (forall d bits, length d = 64%nat -> put d bits = Done (take 56 d ++ enc bits)) ->
  (forall v, length (enc v) = 8%nat) -> (forall v, bytes (enc v)) ->
  has_absorbed c msg -> bytes msg ->
  (forall c2, bh_ok c2 -> bh_state c2 = md_hash bh_iv bh_compress enc msg -> returns (K c2) Q) ->
  returns (c1 ← bh_pad c;
           let bits := u64 (bh_bitlen c1 + Z.of_nat (bh_datalen c1) * 8) in
           d ← put (bh_data c1) bits;
           c2 ← bh_transform (bh_set c1 d (bh_datalen c1) bits (bh_state c1)) d;
           K c2) Q.
Proof.
  intros Hput Hlen8 Hbytes (bs & rest & -> & Ha) Hm HK.
  pose proof Ha as [Hok Hbs Hrest Hdata Hlen Htake Hbits Hstate].
  apply Forall_app in Hm as [_ Hr].
  set (bits := u64 (8 * Z.of_nat (length (concat bs ++ rest)))).
  eapply returns_bind; [by apply (bh_pad_spec c bs rest (enc bits))|].
  intros c1 (Hok1 & Hd & Hdl & Hbl & Hb56 & Hcomp). cbv zeta.
  assert (u64 (bh_bitlen c1 + Z.of_nat (bh_datalen c1) * 8) = bits) as ->.
  { rewrite Hbl, Hbits, Hdl. unfold bits, u64. rewrite Zplus_mod_idemp_l. f_equal.
    rewrite length_app, (length_concat_chunks 64) by done. lia. }
  rewrite Hput by done. run.
  compress_call Hok';
    [by apply bh_ok_set|rewrite length_app, length_take, Hd, Hlen8; done|
     apply Forall_app; split; [done|apply Hbytes]|].
  run. apply HK; [exact Hok'|]. bh_simpl.
  unfold md_hash. rewrite blocks_md_pad by done. fold bits.
  by rewrite foldl_app, <- Hstate, <- Hcomp.
Qed.

End streaming.

(** ** Words and bytes *)

(** Four bytes as a big-endian word, and back. *)
Definition be32 (b0 b1 b2 b3 : Z) : Z := b0 * 2 ^ 24 + b1 * 2 ^ 16 + b2 * 2 ^ 8 + b3.
Definition be32_bytes (w : Z) : list Z := [w / 2 ^ 24; w / 2 ^ 16 mod 256; w / 2 ^ 8 mod 256; w mod 256].

(** The [t]-th big-endian word of a block. *)
Definition be_word (blk : list Z) (t : nat) : Z :=
  be32 (nth (4 * t) blk 0) (nth (4 * t + 1) blk 0) (nth (4 * t + 2) blk 0) (nth (4 * t + 3) blk 0).

Lemma be32_range b0 b1 b2 b3 :
  is_u8 b0 -> is_u8 b1 -> is_u8 b2 -> is_u8 b3 -> is_u32 (be32 b0 b1 b2 b3).
Proof. unfold is_u8, is_u32, be32. lia. Qed.

Lemma be32_lor b0 b1 b2 b3 :
  is_u8 b0 -> is_u8 b1 -> is_u8 b2 -> is_u8 b3 ->
  Z.lor (Z.lor (Z.lor (Z.shiftl b0 24) (Z.shiftl b1 16)) (Z.shiftl b2 8)) b3 = be32 b0 b1 b2 b3.
Proof.
  unfold is_u8, be32. intros H0 H1 H2 H3.
  assert (Z.shiftl b1 16 = b1 * 2 ^ 16) as E1 by by rewrite Z.shiftl_mul_pow2.
  assert (Z.shiftl b2 8 = b2 * 2 ^ 8) as E2 by by rewrite Z.shiftl_mul_pow2.
  rewrite <- !Z.lor_assoc.
  rewrite (lor_shiftl_add b2) by lia. rewrite (lor_shiftl_add b1) by lia.
  rewrite lor_shiftl_add by lia. lia.
Qed.

Lemma be_word_range blk t :
  length blk = 64%nat -> bytes blk -> (t < 16)%nat -> is_u32 (be_word blk t).
Proof. intros Hl Hb Ht. apply be32_range; apply nth_Forall; try done; lia. Qed.

(** The two loops that build the message schedule: the words of the block,
    then [n] words each computed from the words before it. *)
Lemma schedule_loops (f : nat -> Z) (h : list Z -> Z) get word n :
  (forall i, (i < 16)%nat -> get i = Done (f i)) ->
  (forall i m, (16 <= i < length m)%nat -> word m i = Done (h (take i m))) ->
  (m1 ← for_range 0 16 (fun i m => w ← get i; store m i w) (replicate (16 + n) 0);
   for_range 16 n (fun i m => w ← word m i; store m i w) m1) =
  Done (grow n h (f <$> seq 0 16)).
Proof.
  intros Hget Hword. rewrite (for_range_init f); [|rewrite length_replicate; lia|done].
  run. rewrite (for_range_grow h).
  - rewrite take_app_length' by (by rewrite length_fmap, length_seq).
    rewrite drop_ge, app_nil_r; [done|].
    rewrite length_app, length_fmap, length_seq, length_drop, length_replicate. lia.
  - rewrite length_app, length_fmap, length_seq, length_drop, length_replicate. lia.
  - intros i m Hi Hm. rewrite Hword by lia. run. by apply store_lt.
Qed.

(** Words in range stay in range as the schedule grows. *)
Lemma schedule_ext (h1 h2 : list Z -> Z) n blk :
  length blk = 64%nat -> bytes blk ->
  (forall W, (16 <= length W)%nat -> Forall is_u32 W -> h1 W = h2 W /\ is_u32 (h2 W)) ->
  grow n h1 (be_word blk <$> seq 0 16) = grow n h2 (be_word blk <$> seq 0 16).
Proof.
  intros Hl Hb Hh.
  apply (grow_ext_inv (fun W => (16 <= length W)%nat /\ Forall is_u32 W)).
  - split; [done|]. apply Forall_fmap, Forall_forall. intros t Ht.
    apply elem_of_seq in Ht. apply be_word_range; [done|done|lia].
  - intros W [HW Hu]. destruct (Hh W HW Hu) as [-> Hr]. split; [done|].
    split; [rewrite length_app; simpl; lia|]. apply Forall_app. split; [done|]. solve_words.
Qed.

(** [(w >> (24 - i * 8)) & 0xff], byte [i] of a word for the digest. *)
Definition be_digest_byte (w : Z) (i : nat) : Z :=
  Z.land (Z.shiftr w (24 - Z.of_nat i * 8)) 0xff.

Lemma be_digest_bytes w : is_u32 w -> be_digest_byte w <$> [0; 1; 2; 3]%nat = be32_bytes w.
Proof.
  unfold is_u32, be_digest_byte, be32_bytes. intros Hw. simpl.
  rewrite !land_255, !Z.shiftr_div_pow2 by lia. simpl Z.sub.
  rewrite (Z.mod_small (w / 2 ^ 24)) by (split; [apply Z.div_pos; lia|apply Z.div_lt_upper_bound; lia]).
  by rewrite ?Z.shiftr_0_r, ?Z.div_1_r.
Qed.

Lemma be_digest_concat st :
  Forall is_u32 st ->
  concat ((fun s => be_digest_byte s <$> [0; 1; 2; 3]%nat) <$> st) = concat (be32_bytes <$> st).
Proof.
  intros Hst. f_equal. apply list_fmap_ext. intros i w Hw.
  by eapply be_digest_bytes, Forall_lookup_1.
Qed.

(** Eight bytes of a 64-bit number, in the two byte orders. *)
Definition be64_bytes (v : Z) : list Z := (fun i => u8 (Z.shiftr v (8 * i))) <$> [7; 6; 5; 4; 3; 2; 1; 0].
Definition le64_bytes (v : Z) : list Z := (fun i => u8 (Z.shiftr v (8 * i))) <$> [0; 1; 2; 3; 4; 5; 6; 7].

(** The eight stores of the message length into [data[56..63]], in the two
    byte orders. *)
Definition put_be64 (d : list Z) (bits : Z) : exec (list Z) :=
  d ← store d 63 (u8 bits);
  d ← store d 62 (u8 (Z.shiftr bits 8));
  d ← store d 61 (u8 (Z.shiftr bits 16));
  d ← store d 60 (u8 (Z.shiftr bits 24));
  d ← store d 59 (u8 (Z.shiftr bits 32));
  d ← store d 58 (u8 (Z.shiftr bits 40));
  d ← store d 57 (u8 (Z.shiftr bits 48));
  store d 56 (u8 (Z.shiftr bits 56)).

Definition put_le64 (d : list Z) (bits : Z) : exec (list Z) :=
  d ← store d 56 (u8 bits);
  d ← store d 57 (u8 (Z.shiftr bits 8));
  d ← store d 58 (u8 (Z.shiftr bits 16));
  d ← store d 59 (u8 (Z.shiftr bits 24));
  d ← store d 60 (u8 (Z.shiftr bits 32));
  d ← store d 61 (u8 (Z.shiftr bits 40));
  d ← store d 62 (u8 (Z.shiftr bits 48));
  store d 63 (u8 (Z.shiftr bits 56)).

Lemma put_64 (p : list Z) q q' (put : list Z -> Z -> exec (list Z)) bits :
  length p = 56%nat -> length q = 8%nat ->
  put = put_be64 /\ q' = be64_bytes bits \/ put = put_le64 /\ q' = le64_bytes bits ->
  put (p ++ q) bits = Done (p ++ q').
Proof.
  intros Hp Hq. explode q.
  assert (forall l j x, store (p ++ l) (56 + j) x = (l' ← store l j x; Done (p ++ l'))) as E
    by (intros; rewrite <- Hp; apply store_app_r).
  intros [[-> ->]|[-> ->]].
  - unfold put_be64.
    rewrite (E _ 7%nat). cbn -[u8 Z.shiftr]. rewrite (E _ 6%nat). cbn -[u8 Z.shiftr].
    rewrite (E _ 5%nat). cbn -[u8 Z.shiftr]. rewrite (E _ 4%nat). cbn -[u8 Z.shiftr].
    rewrite (E _ 3%nat). cbn -[u8 Z.shiftr]. rewrite (E _ 2%nat). cbn -[u8 Z.shiftr].
    rewrite (E _ 1%nat). cbn -[u8 Z.shiftr]. rewrite (E _ 0%nat). done.
  - unfold put_le64.
    rewrite (E _ 0%nat). cbn -[u8 Z.shiftr]. rewrite (E _ 1%nat). cbn -[u8 Z.shiftr].
    rewrite (E _ 2%nat). cbn -[u8 Z.shiftr]. rewrite (E _ 3%nat). cbn -[u8 Z.shiftr].
    rewrite (E _ 4%nat). cbn -[u8 Z.shiftr]. rewrite (E _ 5%nat). cbn -[u8 Z.shiftr].
    rewrite (E _ 6%nat). cbn -[u8 Z.shiftr]. rewrite (E _ 7%nat). done.
Qed.

Lemma put_be64_spec d bits :
  length d = 64%nat -> put_be64 d bits = Done (take 56 d ++ be64_bytes bits).
Proof.
  intros Hd. rewrite <- (take_drop 56 d) at 1.
  apply put_64; [rewrite length_take; lia|rewrite length_drop; lia|by left].
Qed.

Lemma put_le64_spec d bits :
  length d = 64%nat -> put_le64 d bits = Done (take 56 d ++ le64_bytes bits).
Proof.
  intros Hd. rewrite <- (take_drop 56 d) at 1.
  apply put_64; [rewrite length_take; lia|rewrite length_drop; lia|by right].
Qed.

Lemma bytes_be64 v : bytes (be64_bytes v).
Proof. unfold be64_bytes. simpl. solve_words. Qed.
Lemma bytes_le64 v : bytes (le64_bytes v).
Proof. unfold le64_bytes. simpl. solve_words. Qed.

(** ** Writing the digest

    The last loop of the [final] functions stores byte [i] of every state word
    in turn. *)
Section digest.
Context (f : Z -> nat -> Z) (st : list Z).

Definition write_digest (hash : list Z) : exec (list Z) :=
  for_range 0 4 (fun i hash =>
    for_range 0 (length st) (fun j hash =>
      s ← load st j; store hash (i + 4 * j) (f s i)) hash) hash.

Definition digest : list Z := concat ((fun s => f s <$> [0; 1; 2; 3]%nat) <$> st).

Lemma length_digest : length digest = (4 * length st)%nat.
Proof.
  unfold digest. induction st as [|s l IH]; [done|].
  rewrite fmap_cons. cbn [concat]. rewrite length_app, IH. simpl. lia.
Qed.

Lemma digest_lookup i j s :
  (i < 4)%nat -> st !! j = Some s -> digest !! (i + 4 * j)%nat = Some (f s i).
Proof.
  unfold digest. revert j. induction st as [|s0 l IH]; intros j Hi Hj; [done|].
  destruct j as [|j]; simpl in Hj.
  - simplify_eq. rewrite Nat.mul_0_r, Nat.add_0_r. simpl.
    do 4 (destruct i as [|i]; [done|]). lia.
  - rewrite fmap_cons. cbn [concat]. rewrite lookup_app_r by (simpl; lia). simpl length.
    replace (i + 4 * S j - 4)%nat with (i + 4 * j)%nat by lia. by apply IH.
Qed.

Lemma write_digest_spec hash :
  (4 * length st <= length hash)%nat ->
  write_digest hash = Done (digest ++ drop (4 * length st) hash).
Proof.
  intros Hlen.
  assert (returns (write_digest hash) (fun h =>
    length h = length hash /\ drop (4 * length st) h = drop (4 * length st) hash /\
    forall p, (p < 4 * length st)%nat -> (p mod 4 < 4)%nat -> h !! p = digest !! p)) as (h & -> & Hl & Hd & Hp).
  { apply (for_range_inv (fun i h => length h = length hash /\
      drop (4 * length st) h = drop (4 * length st) hash /\
      forall p, (p < 4 * length st)%nat -> (p mod 4 < i)%nat -> h !! p = digest !! p)).
    - split_and!; [done|done|lia].
    - intros i h Hi (Hl & Hd & Hp).
      eapply returns_weaken.
      + apply (for_range_inv (fun j h => length h = length hash /\
          drop (4 * length st) h = drop (4 * length st) hash /\
          forall p, (p < 4 * length st)%nat ->
            (p mod 4 < i \/ (p mod 4 = i /\ p / 4 < j))%nat -> h !! p = digest !! p)).
        * split_and!; [done|done|]. intros p Hp1 [?|?]; [auto|lia].
        * intros j h' Hj (Hl' & Hd' & Hp').
          destruct (load_lt st j ltac:(lia)) as (s & Hs & ->). run.
          rewrite store_lt by lia. apply returns_Done. split_and!.
          -- by rewrite length_insert.
          -- by rewrite drop_insert_lt by lia.
          -- intros p Hp1 Hp2. destruct (decide (p = i + 4 * j)%nat) as [->|Hne].
             ++ rewrite list_lookup_insert_eq by lia. by rewrite (digest_lookup i j s) by (done || lia).
             ++ rewrite list_lookup_insert_ne by done. apply Hp'; [done|].
                pose proof (Nat.div_mod_eq p 4). lia.
      + intros h' (Hl' & Hd' & Hp'). split_and!; [done|done|]. intros p Hp1 Hp2.
        apply Hp'; [done|]. pose proof (Nat.div_mod_eq p 4). lia. }
  f_equal. rewrite <- Hd. rewrite <- (take_drop (4 * length st) h) at 1. f_equal.
  apply list_eq. intros p. destruct (decide (p < 4 * length st)%nat) as [Hlt|Hge].
  - rewrite lookup_take_lt by done. apply Hp; [done|]. by apply Nat.mod_upper_bound.
  - rewrite lookup_take_ge by lia. symmetry. apply lookup_ge_None_2. rewrite length_digest. lia.
Qed.

End digest.

End BlockHash.
