(* ===== verification/Sha256.v ===== *)
(** * SHA-256 (src/crypto-algorithms_learn/sha256.c)

    The context, its operations, the FIPS 180 description of the hash and the
    proof that any sequence of [sha256_update] calls between [sha256_init] and
    [sha256_final] computes it. *)

From S2P Require Import Prelude BlockHash.
Import BlockHash.

Module Sha256.

(** ** The code *)

(** [SHA256_CTX]. *)
Record SHA256_CTX := mkCtx {
  data : list Z;      (* BYTE data[64] *)
  datalen : nat;      (* WORD datalen, at most 64 *)
  bitlen : Z;         (* unsigned long long bitlen *)
  state : list Z;     (* WORD state[8] *)
}.

Definition ROTRIGHT (a b : Z) : Z := rotr32 a b.
Definition CH (x y z : Z) : Z := Z.lxor (Z.land x y) (Z.land (u32 (Z.lnot x)) z).
Definition MAJ (x y z : Z) : Z := Z.lxor (Z.lxor (Z.land x y) (Z.land x z)) (Z.land y z).
Definition EP0 (x : Z) : Z := Z.lxor (Z.lxor (ROTRIGHT x 2) (ROTRIGHT x 13)) (ROTRIGHT x 22).
Definition EP1 (x : Z) : Z := Z.lxor (Z.lxor (ROTRIGHT x 6) (ROTRIGHT x 11)) (ROTRIGHT x 25).
Definition SIG0 (x : Z) : Z := Z.lxor (Z.lxor (ROTRIGHT x 7) (ROTRIGHT x 18)) (Z.shiftr x 3).
Definition SIG1 (x : Z) : Z := Z.lxor (Z.lxor (ROTRIGHT x 17) (ROTRIGHT x 19)) (Z.shiftr x 10).

Definition k : list Z :=
  [ 0x428A2F98; 0x71374491; 0xB5C0FBCF; 0xE9B5DBA5; 0x3956C25B; 0x59F111F1;
    0x923F82A4; 0xAB1C5ED5; 0xD807AA98; 0x12835B01; 0x243185BE; 0x550C7DC3;
    0x72BE5D74; 0x80DEB1FE; 0x9BDC06A7; 0xC19BF174; 0xE49B69C1; 0xEFBE4786;
    0x0FC19DC6; 0x240CA1CC; 0x2DE92C6F; 0x4A7484AA; 0x5CB0A9DC; 0x76F988DA;
    0x983E5152; 0xA831C66D; 0xB00327C8; 0xBF597FC7; 0xC6E00BF3; 0xD5A79147;
    0x06CA6351; 0x14292967; 0x27B70A85; 0x2E1B2138; 0x4D2C6DFC; 0x53380D13;
    0x650A7354; 0x766A0ABB; 0x81C2C92E; 0x92722C85; 0xA2BFE8A1; 0xA81A664B;
    0xC24B8B70; 0xC76C51A3; 0xD192E819; 0xD6990624; 0xF40E3585; 0x106AA070;
    0x19A4C116; 0x1E376C08; 0x2748774C; 0x34B0BCB5; 0x391C0CB3; 0x4ED8AA4A;
    0x5B9CCA4F; 0x682E6FF3; 0x748F82EE; 0x78A5636F; 0x84C87814; 0x8CC70208;
    0x90BEFFFA; 0xA4506CEB; 0xBEF9A3F7; 0xC67178F2 ].

(** [m[i] = (data[j] << 24) | (data[j + 1] << 16) | (data[j + 2] << 8) | data[j + 3]]
    with [j = 4 * i], as a 32-bit word. *)
Definition message_word (data : list Z) (i : nat) : exec Z :=
  d0 ← load data (4 * i);
  d1 ← load data (4 * i + 1);
  d2 ← load data (4 * i + 2);
  d3 ← load data (4 * i + 3);
  Done (u32 (Z.lor (Z.lor (Z.lor (Z.shiftl d0 24) (Z.shiftl d1 16)) (Z.shiftl d2 8)) d3)).

(** [m[i] = SIG1(m[i - 2]) + m[i - 7] + SIG0(m[i - 15]) + m[i - 16]]. *)
Definition schedule_word (m : list Z) (i : nat) : exec Z :=
  m2 ← load m (i - 2);
  m7 ← load m (i - 7);
  m15 ← load m (i - 15);
  m16 ← load m (i - 16);
  Done (u32 (SIG1 m2 + m7 + SIG0 m15 + m16)).

Definition regs : Type := Z * Z * Z * Z * Z * Z * Z * Z.

(** One iteration of the compression loop. *)
Definition sha256_round (r : regs) (ki mi : Z) : regs :=
  let '(a, b, c, d, e, f, g, h) := r in
  let t1 := u32 (h + EP1 e + CH e f g + ki + mi) in
  let t2 := u32 (EP0 a + MAJ a b c) in
  (u32 (t1 + t2), a, b, c, u32 (d + t1), e, f, g).

(** The local array [m] is written before it is read; its initial contents
    are immaterial. *)
Definition sha256_transform (ctx : SHA256_CTX) (blk : list Z) : exec SHA256_CTX :=
  m1 ← for_range 0 16 (fun i m => w ← message_word blk i; store m i w) (replicate 64 0);
  m ← for_range 16 48 (fun i m => w ← schedule_word m i; store m i w) m1;
  match state ctx with
  | [s0; s1; s2; s3; s4; s5; s6; s7] =>
      r ← for_range 0 64 (fun i r => ki ← load k i; mi ← load m i; Done (sha256_round r ki mi))
            (s0, s1, s2, s3, s4, s5, s6, s7);
      let '(a, b, c, d, e, f, g, h) := r in
      Done (mkCtx (data ctx) (datalen ctx) (bitlen ctx)
              [u32 (s0 + a); u32 (s1 + b); u32 (s2 + c); u32 (s3 + d);
               u32 (s4 + e); u32 (s5 + f); u32 (s6 + g); u32 (s7 + h)])
  | _ => Fault
  end.

(** [data] is left as it is by [sha256_init]. *)
Definition sha256_init (ctx : SHA256_CTX) : SHA256_CTX :=
  mkCtx (data ctx) 0 0
    [0x6a09e667; 0xbb67ae85; 0x3c6ef372; 0xa54ff53a;
     0x510e527f; 0x9b05688c; 0x1f83d9ab; 0x5be0cd19].

(** The body of the loop of [sha256_update], for the byte [b] = [data[i]]. *)
Definition sha256_absorb (ctx : SHA256_CTX) (b : Z) : exec SHA256_CTX :=
  data' ← store (data ctx) (datalen ctx) b;
  let ctx1 := mkCtx data' (datalen ctx + 1) (bitlen ctx) (state ctx) in
  if (datalen ctx1 =? 64)%nat then
    ctx2 ← sha256_transform ctx1 (data ctx1);
    Done (mkCtx (data ctx2) 0 (u64 (bitlen ctx2 + 512)) (state ctx2))
  else Done ctx1.

(** [WORD i; for (i = 0; i < len; ++i)]: the counter is a 32-bit word while
    [len] is a [size_t]. *)
Definition sha256_update (fuel : nat) (ctx : SHA256_CTX) (buf : list Z) (len : Z)
    : exec SHA256_CTX :=
  p ← while fuel (fun p => p.1 <? len)
        (fun p : Z * SHA256_CTX =>
           let '(i, ctx) := p in
           b ← load buf (Z.to_nat i);
           ctx' ← sha256_absorb ctx b;
           Done (u32 (i + 1), ctx')) (0, ctx);
  Done p.2.

(** The padding of [sha256_final]: the context with its last block(s)
    prepared up to, and without, the length field. *)
Definition sha256_pad (ctx : SHA256_CTX) : exec SHA256_CTX :=
  if (datalen ctx <? 56)%nat then
    d ← store (data ctx) (datalen ctx) 0x80;
    d' ← fill_from d (S (datalen ctx)) 56 0;
    Done (mkCtx d' (datalen ctx) (bitlen ctx) (state ctx))
  else
    d ← store (data ctx) (datalen ctx) 0x80;
    d' ← fill_from d (S (datalen ctx)) 64 0;
    ctx1 ← sha256_transform (mkCtx d' (datalen ctx) (bitlen ctx) (state ctx)) d';
    d'' ← memset (data ctx1) 0 0 56;
    Done (mkCtx d'' (datalen ctx1) (bitlen ctx1) (state ctx1)).

(** [hash[i + 4 * j] = (ctx->state[j] >> (24 - i * 8)) & 0x000000ff]. *)
Definition sha256_output (st hash : list Z) : exec (list Z) :=
  for_range 0 4 (fun i hash =>
    for_range 0 8 (fun j hash =>
      s ← load st j; store hash (i + 4 * j) (be_digest_byte s i)) hash) hash.

Definition sha256_final (ctx : SHA256_CTX) (hash : list Z) : exec (SHA256_CTX * list Z) :=
  ctx1 ← sha256_pad ctx;
  let bits := u64 (bitlen ctx1 + Z.of_nat (datalen ctx1) * 8) in
  d ← put_be64 (data ctx1) bits;
  ctx2 ← sha256_transform (mkCtx d (datalen ctx1) bits (state ctx1)) d;
  hash' ← sha256_output (state ctx2) hash;
  Done (ctx2, hash').

(** ** Running the hash on a message split into fragments *)

Fixpoint sha256_updates (ctx : SHA256_CTX) (frags : list (list Z)) : exec SHA256_CTX :=
  match frags with
  | [] => Done ctx
  | f :: frags' =>
      ctx' ← sha256_update (length f) ctx f (Z.of_nat (length f));
      sha256_updates ctx' frags'
  end.

Definition sha256_run (ctx : SHA256_CTX) (frags : list (list Z)) (hash : list Z)
    : exec (list Z) :=
  ctx' ← sha256_updates (sha256_init ctx) frags;
  r ← sha256_final ctx' hash;
  Done r.2.

(** ** SHA-256 as FIPS 180 describes it *)

Module Fips.

Definition rotr (n x : Z) : Z := (x / 2 ^ n + x * 2 ^ (32 - n)) mod 2 ^ 32.
Definition shr (n x : Z) : Z := x / 2 ^ n.

Definition Ch (x y z : Z) : Z := Z.lxor (Z.land x y) (Z.land (2 ^ 32 - 1 - x) z).
Definition Maj (x y z : Z) : Z := Z.lxor (Z.lxor (Z.land x y) (Z.land x z)) (Z.land y z).
Definition Sigma0 (x : Z) : Z := Z.lxor (Z.lxor (rotr 2 x) (rotr 13 x)) (rotr 22 x).
Definition Sigma1 (x : Z) : Z := Z.lxor (Z.lxor (rotr 6 x) (rotr 11 x)) (rotr 25 x).
Definition sigma0 (x : Z) : Z := Z.lxor (Z.lxor (rotr 7 x) (rotr 18 x)) (shr 3 x).
Definition sigma1 (x : Z) : Z := Z.lxor (Z.lxor (rotr 17 x) (rotr 19 x)) (shr 10 x).

(** The first 32 bits of the fractional part of the cube root of [p] (of the
    square root, for the initial value). *)
Definition root_frac (e p w : Z) : Prop :=
  exists q, 0 <= q /\ 0 <= w < 2 ^ 32 /\
    (q * 2 ^ 32 + w) ^ e <= p * 2 ^ (32 * e) < (q * 2 ^ 32 + w + 1) ^ e.

Definition primes : list Z :=
  [2; 3; 5; 7; 11; 13; 17; 19; 23; 29; 31; 37; 41; 43; 47; 53; 59; 61; 67; 71; 73; 79; 83; 89;
   97; 101; 103; 107; 109; 113; 127; 131; 137; 139; 149; 151; 157; 163; 167; 173; 179; 181;
   191; 193; 197; 199; 211; 223; 227; 229; 233; 239; 241; 251; 257; 263; 269; 271; 277; 281;
   283; 293; 307; 311].

Definition next_word (W : list Z) : Z :=
  let t := length W in
  (sigma1 (nth (t - 2) W 0) + nth (t - 7) W 0 + sigma0 (nth (t - 15) W 0) + nth (t - 16) W 0)
    mod 2 ^ 32.

Definition schedule (blk : list Z) : list Z := grow 48 next_word (be_word blk <$> seq 0 16).

Definition round (r : regs) (Kt Wt : Z) : regs :=
  let '(a, b, c, d, e, f, g, h) := r in
  let T1 := h + Sigma1 e + Ch e f g + Kt + Wt in
  let T2 := Sigma0 a + Maj a b c in
  ((T1 + T2) mod 2 ^ 32, a, b, c, (d + T1) mod 2 ^ 32, e, f, g).

Definition compress (H blk : list Z) : list Z :=
  match H with
  | [a; b; c; d; e; f; g; h] =>
      let '(a', b', c', d', e', f', g', h') :=
        foldl (fun r p => round r p.1 p.2) (a, b, c, d, e, f, g, h) (zip k (schedule blk)) in
      (fun w => w mod 2 ^ 32) <$>
        [a + a'; b + b'; c + c'; d + d'; e + e'; f + f'; g + g'; h + h']
  | _ => []
  end.

Definition H0 : list Z :=
  [0x6A09E667; 0xBB67AE85; 0x3C6EF372; 0xA54FF53A; 0x510E527F; 0x9B05688C; 0x1F83D9AB; 0x5BE0CD19].

Definition sha256 (msg : list Z) : list Z :=
  concat (be32_bytes <$> md_hash H0 compress be64_bytes msg).

End Fips.

(** The two constant tables of the source are the roots FIPS 180 prescribes. *)
Definition root_frac_b (e p w : Z) : bool :=
  existsb (fun q => ((q * 2 ^ 32 + w) ^ e <=? p * 2 ^ (32 * e))
                    && (p * 2 ^ (32 * e) <? (q * 2 ^ 32 + w + 1) ^ e)
                    && (0 <=? w) && (w <? 2 ^ 32)) (seqZ 0 20).

Lemma root_frac_b_sound e p w : root_frac_b e p w = true -> Fips.root_frac e p w.
Proof.
  unfold root_frac_b. intros (q & Hq & H)%existsb_exists.
  apply list_elem_of_In, elem_of_seqZ in Hq. exists q. lia.
Qed.

Lemma sha256_constants :
  Forall2 (Fips.root_frac 3) Fips.primes k /\
  Forall2 (Fips.root_frac 2) (take 8 Fips.primes) Fips.H0.
Proof.
  split; (eapply Forall2_impl; [|intros p w; apply root_frac_b_sound]);
    by_compute.
Qed.

(** ** The code follows the description *)

Lemma EP0_Sigma0 x : is_u32 x -> EP0 x = Fips.Sigma0 x.
Proof. intros Hx. unfold EP0, ROTRIGHT. rewrite !rotr32_spec by (done || lia). done. Qed.
Lemma EP1_Sigma1 x : is_u32 x -> EP1 x = Fips.Sigma1 x.
Proof. intros Hx. unfold EP1, ROTRIGHT. rewrite !rotr32_spec by (done || lia). done. Qed.
Lemma SIG0_sigma0 x : is_u32 x -> SIG0 x = Fips.sigma0 x.
Proof.
  intros Hx. unfold SIG0, ROTRIGHT. rewrite !rotr32_spec, Z.shiftr_div_pow2 by (done || lia). done.
Qed.
Lemma SIG1_sigma1 x : is_u32 x -> SIG1 x = Fips.sigma1 x.
Proof.
  intros Hx. unfold SIG1, ROTRIGHT. rewrite !rotr32_spec, Z.shiftr_div_pow2 by (done || lia). done.
Qed.
Lemma CH_Ch x y z : is_u32 x -> CH x y z = Fips.Ch x y z.
Proof. intros Hx. unfold CH. by rewrite u32_lnot. Qed.

Definition regs_ok (r : regs) : Prop :=
  let '(a, b, c, d, e, f, g, h) := r in Forall is_u32 [a; b; c; d; e; f; g; h].

Lemma sha256_round_Fips r ki mi :
  regs_ok r -> sha256_round r ki mi = Fips.round r ki mi /\ regs_ok (Fips.round r ki mi).
Proof.
  destruct r as [[[[[[[a b] c] d] e] f] g] h]. intros Hr.
  unfold regs_ok in Hr. inv_Forall.
  unfold sha256_round, Fips.round.
  rewrite EP0_Sigma0, EP1_Sigma1, CH_Ch by done. split.
  - cbv zeta. unfold u32. by rewrite <- Zplus_mod, Zplus_mod_idemp_r.
  - unfold regs_ok. solve_words.
Qed.

Lemma sha256_message_word_be blk i :
  length blk = 64%nat -> bytes blk -> (i < 16)%nat -> message_word blk i = Done (be_word blk i).
Proof.
  intros Hl Hb Hi. unfold message_word.
  rewrite !(load_nth blk _ 0) by lia. run.
  assert (forall j, (j < 64)%nat -> is_u8 (nth j blk 0)) as Hn
    by (intros; apply nth_Forall; [done|lia]).
  rewrite be32_lor by (apply Hn; lia).
  rewrite u32_small; [done|]. apply be32_range; apply Hn; lia.
Qed.

(** The words the second loop appends, with the macros of the source. *)
Definition code_word (W : list Z) : Z :=
  let t := length W in
  u32 (SIG1 (nth (t - 2) W 0) + nth (t - 7) W 0 + SIG0 (nth (t - 15) W 0) + nth (t - 16) W 0).

Lemma sha256_transform_schedule blk :
  length blk = 64%nat -> bytes blk ->
  (m1 ← for_range 0 16 (fun i m => w ← message_word blk i; store m i w) (replicate 64 0);
   for_range 16 48 (fun i m => w ← schedule_word m i; store m i w) m1) =
  Done (Fips.schedule blk).
Proof.
  intros Hl Hb. etrans; [apply (schedule_loops (be_word blk) code_word (message_word blk) schedule_word 48)|].
  - intros i Hi. by apply sha256_message_word_be.
  - intros i m Hi. unfold schedule_word, code_word.
    rewrite !(load_nth m _ 0) by lia. run. rewrite length_take_le by lia.
    by rewrite !nth_take by lia.
  - apply (f_equal Done). apply (schedule_ext code_word Fips.next_word 48 blk); [done|done|]. intros W HW Hu. unfold code_word, Fips.next_word.
    rewrite SIG0_sigma0, SIG1_sigma1; [|apply nth_Forall; [done|lia]..].
    split; [done|apply u32_range].
Qed.

Definition state_ok (st : list Z) : Prop := length st = 8%nat /\ Forall is_u32 st.

Lemma sha256_length_schedule blk : length (Fips.schedule blk) = 64%nat.
Proof. unfold Fips.schedule. by rewrite length_grow, length_fmap, length_seq. Qed.

Lemma sha256_compress_ok st blk : state_ok st -> state_ok (Fips.compress st blk).
Proof.
  intros [Hl _]. do 9 (destruct st as [|? st]; try done).
  unfold Fips.compress. destruct (foldl _ _ _) as [[[[[[[a b] c] d] e] f] g] h].
  split; [done|]. simpl. solve_words.
Qed.

Lemma sha256_transform_compress ctx blk :
  length blk = 64%nat -> bytes blk -> state_ok (state ctx) ->
  sha256_transform ctx blk =
    Done (mkCtx (data ctx) (datalen ctx) (bitlen ctx) (Fips.compress (state ctx) blk)).
Proof.
  intros Hl Hb [Hs Hu]. unfold sha256_transform.
  pose proof (sha256_transform_schedule blk Hl Hb) as E.
  destruct (for_range 0 16 _ _) as [m1| |]; try done. cbn [mbind exec_bind] in *.
  rewrite E. run. destruct ctx as [d dl bl st]. cbn [state data datalen bitlen] in *.
  do 9 (destruct st as [|? st]; try done). unfold Fips.compress.
  rewrite (for_range_pure (fun r i => sha256_round r (nth i k 0) (nth i (Fips.schedule blk) 0))).
  - run. rewrite (foldl_seq_zip sha256_round) by (done || apply sha256_length_schedule).
    destruct (foldl_ext_inv regs_ok (fun _ => True) (fun r p => sha256_round r p.1 p.2)
      (fun r p => Fips.round r p.1 p.2) (zip k (Fips.schedule blk))
      (z, z0, z1, z2, z3, z4, z5, z6)) as [-> _].
    + done.
    + by apply Forall_true.
    + intros r p Hr _. by apply sha256_round_Fips.
    + by destruct (foldl _ _ _) as [[[[[[[a b] c] d'] e] f] g] h].
  - intros i r Hi. rewrite !(load_nth _ _ 0); [done|rewrite ?sha256_length_schedule; simpl length; lia..].
Qed.

(** ** Streaming *)

#[export] Instance sha256_block_hash : BlockHash SHA256_CTX := {|
  bh_data := data; bh_datalen := datalen; bh_bitlen := bitlen; bh_state := state;
  bh_set := fun _ => mkCtx;
  bh_ok := fun c => state_ok (state c);
  bh_iv := Fips.H0; bh_compress := Fips.compress;
  bh_transform := sha256_transform;
|}.

#[export] Instance sha256_block_hash_laws : BlockHashLaws SHA256_CTX.
Proof.
  split; try done.
  - simpl. by intros c d n b s Hc ->.
  - intros c blk Hc Hl Hb. split; [by apply sha256_transform_compress|by apply sha256_compress_ok].
Qed.

Lemma sha256_update_bh ctx f :
  Z.of_nat (length f) < 2 ^ 32 ->
  sha256_update (length f) ctx f (Z.of_nat (length f)) = bh_update ctx f (length f).
Proof.
  intros Hf. unfold sha256_update, bh_update.
  change 0 with (Z.of_nat 0).
  rewrite (while_count (fun i c => b ← load f i; bh_absorb c b) _ _ (length f)).
  - by destruct (for_range _ _ _ _).
  - lia.
  - lia.
  - intros i c Hi. rewrite Nat2Z.id. destruct (load f i); run; [|done|done].
    change (sha256_absorb c a) with (bh_absorb c a).
    destruct (bh_absorb c a); run; [|done|done].
    do 2 f_equal. rewrite u32_small; unfold is_u32; lia.
Qed.

Lemma sha256_updates_bh frags : forall ctx,
  Forall (fun f => Z.of_nat (length f) < 2 ^ 32) frags ->
  sha256_updates ctx frags = bh_updates ctx frags.
Proof.
  induction frags as [|f frags IH]; intros ctx Hl; simpl; [done|]. inv_Forall.
  rewrite sha256_update_bh by done. destruct (bh_update ctx f _); run; auto.
Qed.

Lemma sha256_init_absorbed ctx :
  length (data ctx) = 64%nat -> has_absorbed (sha256_init ctx) [].
Proof.
  intros Hd. exists [], []. split; [done|]. split; simpl; try done; try lia.
  split; [done|]. by_compute.
Qed.

Lemma sha256_output_spec st hash :
  state_ok st -> (32 <= length hash)%nat ->
  sha256_output st hash = Done (concat (be32_bytes <$> st) ++ drop 32 hash).
Proof.
  intros [Hl Hu] Hh.
  assert (sha256_output st hash = write_digest be_digest_byte st hash) as ->
    by (unfold write_digest; by rewrite Hl).
  rewrite write_digest_spec by (rewrite Hl; lia).
  unfold digest. rewrite be_digest_concat by done. by rewrite Hl.
Qed.

Lemma sha256_final_absorbed ctx msg hash :
  has_absorbed ctx msg -> bytes msg -> (32 <= length hash)%nat ->
  returns (sha256_final ctx hash) (fun r => r.2 = Fips.sha256 msg ++ drop 32 hash).
Proof.
  intros Hc Hm Hh. unfold sha256_final.
  change (sha256_pad ctx) with (bh_pad ctx).
  pose proof (bh_final_spec ctx msg put_be64 be64_bytes
    (fun c => hash' ← sha256_output (state c) hash; Done (c, hash'))
    (fun r => r.2 = Fips.sha256 msg ++ drop 32 hash)) as F.
  cbn [bh_datalen bh_bitlen bh_state bh_set bh_data bh_transform sha256_block_hash] in F.
  apply F; [apply put_be64_spec|done|apply bytes_be64|done|done|].
  intros c2 Hok E. rewrite sha256_output_spec by done. run. apply returns_Done. simpl in *.
  by rewrite E.
Qed.

(** C14: For any context memory with a 64-byte buffer, any message cut into
    any fragments (each shorter than 2^32 bytes) and any output buffer of at
    least 32 bytes, [sha256_init], one [sha256_update] per fragment and
    [sha256_final] run without a memory error and write the FIPS 180 SHA-256
    digest of the whole message to the first 32 bytes of the output. *)
Theorem sha256_correct ctx frags hash :
  length (data ctx) = 64%nat -> Forall bytes frags ->
  Forall (fun f => Z.of_nat (length f) < 2 ^ 32) frags -> (32 <= length hash)%nat ->
  sha256_run ctx frags hash = Done (Fips.sha256 (concat frags) ++ drop 32 hash).
Proof.
  intros Hd Hb Hl Hh. unfold sha256_run.
  rewrite sha256_updates_bh by done.
  destruct (has_absorbed_updates frags (sha256_init ctx) []
    (sha256_init_absorbed ctx Hd) (Forall_nil_2 _) Hb) as (c & -> & Hc). run.
  destruct (sha256_final_absorbed c (concat frags) hash Hc) as (r & -> & Hr);
    [by apply Forall_concat|done|]. run. by rewrite Hr.
Qed.

Lemma sha256_correct_witness :
  sha256_run (mkCtx (replicate 64 9) 3 5 []) [[97; 98]; []; [99]] (replicate 33 1) =
    Done (Fips.sha256 [97; 98; 99] ++ [1]).
Proof.
  apply (sha256_correct (mkCtx (replicate 64 9) 3 5 []) [[97; 98]; []; [99]] (replicate 33 1));
    [done|by_compute|by_compute|simpl; lia].
Defined.

(** [sha256_update] counts with a 32-bit word: on an input of 2^32 bytes
    or more the counter wraps before it reaches [len] and the call never
    returns, whatever the fuel. *)
Theorem sha256_update_diverges ctx msg buf fuel :
  has_absorbed ctx msg -> bytes msg -> bytes buf -> 2 ^ 32 <= Z.of_nat (length buf) ->
  sha256_update fuel ctx buf (Z.of_nat (length buf)) = NoFuel.
Proof.
  intros Hc Hm Hbuf Hlen. unfold sha256_update.
  rewrite (while_forever (fun p : Z * SHA256_CTX =>
    0 <= p.1 < 2 ^ 32 /\ exists msg, bytes msg /\ has_absorbed p.2 msg)); [done|split; [simpl; lia|eauto]|].
  intros [i c] [Hi (msg' & Hm' & Hc')]. cbn [fst snd] in *. split; [lia|].
  destruct (load_lt buf (Z.to_nat i)) as (b & Hb & ->); [lia|]. run.
  pose proof (Forall_lookup_1 _ _ _ _ Hbuf Hb).
  change (sha256_absorb c b) with (bh_absorb c b).
  eapply returns_bind; [by apply (has_absorbed_step c msg' b)|].
  intros c' Hc''. apply returns_Done. split; [apply u32_range|].
  exists (msg' ++ [b]). split; [|done]. apply Forall_app. split; [done|]. solve_words.
Qed.

Lemma sha256_update_diverges_witness :
  sha256_update 1000 (sha256_init (mkCtx (replicate 64 0) 0 0 []))
    (replicate (Z.to_nat (2 ^ 32)) 0) (Z.of_nat (length (replicate (Z.to_nat (2 ^ 32)) 0))) = NoFuel.
Proof.
  apply (sha256_update_diverges _ []);
    [by apply sha256_init_absorbed|by_compute|by apply Forall_replicate|].
  rewrite length_replicate. lia.
Defined.

(** The first two vectors of sha256_test.c. *)
Example sha256_abc :
  sha256_run (mkCtx (replicate 64 0) 0 0 []) [[0x61; 0x62; 0x63]] (replicate 32 0) =
  Done [0xBA; 0x78; 0x16; 0xBF; 0x8F; 0x01; 0xCF; 0xEA; 0x41; 0x41; 0x40; 0xDE; 0x5D; 0xAE;
        0x22; 0x23; 0xB0; 0x03; 0x61; 0xA3; 0x96; 0x17; 0x7A; 0x9C; 0xB4; 0x10; 0xFF; 0x61;
        0xF2; 0x00; 0x15; 0xAD].
Proof. vm_compute. reflexivity. Qed.

End Sha256.
