(* ===== verification/Sha1.v ===== *)
(** * SHA-1 (src/crypto-algorithms_learn/sha1.c)

    The context, its operations, the FIPS 180 description of SHA-1 and the
    proof that any sequence of [sha1_update] calls between [sha1_init] and
    [sha1_final] computes it. *)

From S2P Require Import Prelude BlockHash.
Import BlockHash.

Module Sha1.

(** ** The code *)

(** [SHA1_CTX]. *)
Record SHA1_CTX := mkCtx {
  data : list Z;      (* BYTE data[64] *)
  datalen : nat;      (* WORD datalen, at most 64 *)
  bitlen : Z;         (* unsigned long long bitlen *)
  state : list Z;     (* WORD state[5] *)
  k : list Z;         (* WORD k[4] *)
}.

Definition ROTLEFT (a b : Z) : Z := rotl32 a b.

(** [m[i] = (data[j] << 24) + (data[j + 1] << 16) + (data[j + 2] << 8) + data[j + 3]]
    with [j = 4 * i], as a 32-bit word. *)
Definition message_word (data : list Z) (i : nat) : exec Z :=
  d0 ← load data (4 * i);
  d1 ← load data (4 * i + 1);
  d2 ← load data (4 * i + 2);
  d3 ← load data (4 * i + 3);
  Done (u32 (Z.shiftl d0 24 + Z.shiftl d1 16 + Z.shiftl d2 8 + d3)).

(** [m[i] = m[i - 3] ^ m[i - 8] ^ m[i - 14] ^ m[i - 16]], rotated left by one. *)
Definition schedule_word (m : list Z) (i : nat) : exec Z :=
  m3 ← load m (i - 3);
  m8 ← load m (i - 8);
  m14 ← load m (i - 14);
  m16 ← load m (i - 16);
  let mi := Z.lxor (Z.lxor (Z.lxor m3 m8) m14) m16 in
  Done (Z.lor (u32 (Z.shiftl mi 1)) (Z.shiftr mi 31)).

Definition regs : Type := Z * Z * Z * Z * Z.

(** The functions of [b], [c], [d] the four loops use. *)
Definition choose (b c d : Z) : Z := Z.lxor (Z.land b c) (Z.land (u32 (Z.lnot b)) d).
Definition parity (b c d : Z) : Z := Z.lxor (Z.lxor b c) d.
Definition majority (b c d : Z) : Z := Z.lxor (Z.lxor (Z.land b c) (Z.land b d)) (Z.land c d).

(** The body of the four loops. *)
Definition sha1_round (f : Z -> Z -> Z -> Z) (r : regs) (ki mi : Z) : regs :=
  let '(a, b, c, d, e) := r in
  let t := u32 (ROTLEFT a 5 + f b c d + e + ki + mi) in
  (t, a, ROTLEFT b 30, c, d).

(** [for (; i < lo + 20; ++i)], with the function [f] and [ctx->k[j]]. *)
Definition sha1_rounds (lo : nat) (f : Z -> Z -> Z -> Z) (j : nat) (ctx : SHA1_CTX) (m : list Z)
    (r : regs) : exec regs :=
  for_range lo 20 (fun i r =>
    ki ← load (k ctx) j; mi ← load m i; Done (sha1_round f r ki mi)) r.

Definition sha1_transform (ctx : SHA1_CTX) (blk : list Z) : exec SHA1_CTX :=
  m1 ← for_range 0 16 (fun i m => w ← message_word blk i; store m i w) (replicate 80 0);
  m ← for_range 16 64 (fun i m => w ← schedule_word m i; store m i w) m1;
  match state ctx with
  | [s0; s1; s2; s3; s4] =>
      r ← sha1_rounds 0 choose 0 ctx m (s0, s1, s2, s3, s4);
      r ← sha1_rounds 20 parity 1 ctx m r;
      r ← sha1_rounds 40 majority 2 ctx m r;
      r ← sha1_rounds 60 parity 3 ctx m r;
      let '(a, b, c, d, e) := r in
      Done (mkCtx (data ctx) (datalen ctx) (bitlen ctx)
              [u32 (s0 + a); u32 (s1 + b); u32 (s2 + c); u32 (s3 + d); u32 (s4 + e)] (k ctx))
  | _ => Fault
  end.

(** [data] is left as it is by [sha1_init]. *)
Definition sha1_init (ctx : SHA1_CTX) : SHA1_CTX :=
  mkCtx (data ctx) 0 0
    [0x67452301; 0xefcdab89; 0x98badcfe; 0x10325476; 0xc3d2e1f0]
    [0x5a827999; 0x6ed9eba1; 0x8f1bbcdc; 0xca62c1d6].

(** The body of the loop of [sha1_update], for the byte [b] = [data[i]]. *)
Definition sha1_absorb (ctx : SHA1_CTX) (b : Z) : exec SHA1_CTX :=
  data' ← store (data ctx) (datalen ctx) b;
  let ctx1 := mkCtx data' (datalen ctx + 1) (bitlen ctx) (state ctx) (k ctx) in
  if (datalen ctx1 =? 64)%nat then
    ctx2 ← sha1_transform ctx1 (data ctx1);
    Done (mkCtx (data ctx2) 0 (u64 (bitlen ctx2 + 512)) (state ctx2) (k ctx2))
  else Done ctx1.

(** [size_t i; for (i = 0; i < len; ++i)]. *)
Definition sha1_update (ctx : SHA1_CTX) (buf : list Z) (len : nat) : exec SHA1_CTX :=
  for_range 0 len (fun i ctx => b ← load buf i; sha1_absorb ctx b) ctx.

(** The padding of [sha1_final]: the context with its last block(s) prepared
    up to, and without, the length field. *)
Definition sha1_pad (ctx : SHA1_CTX) : exec SHA1_CTX :=
  if (datalen ctx <? 56)%nat then
    d ← store (data ctx) (datalen ctx) 0x80;
    d' ← fill_from d (S (datalen ctx)) 56 0;
    Done (mkCtx d' (datalen ctx) (bitlen ctx) (state ctx) (k ctx))
  else
    d ← store (data ctx) (datalen ctx) 0x80;
    d' ← fill_from d (S (datalen ctx)) 64 0;
    ctx1 ← sha1_transform (mkCtx d' (datalen ctx) (bitlen ctx) (state ctx) (k ctx)) d';
    d'' ← memset (data ctx1) 0 0 56;
    Done (mkCtx d'' (datalen ctx1) (bitlen ctx1) (state ctx1) (k ctx1)).

(** [hash[i + 4 * j] = (ctx->state[j] >> (24 - i * 8)) & 0x000000ff]. *)
Definition sha1_output (st hash : list Z) : exec (list Z) :=
  for_range 0 4 (fun i hash =>
    for_range 0 5 (fun j hash =>
      s ← load st j; store hash (i + 4 * j) (be_digest_byte s i)) hash) hash.

Definition sha1_final (ctx : SHA1_CTX) (hash : list Z) : exec (SHA1_CTX * list Z) :=
  ctx1 ← sha1_pad ctx;
  let bits := u64 (bitlen ctx1 + Z.of_nat (datalen ctx1) * 8) in
  d ← put_be64 (data ctx1) bits;
  ctx2 ← sha1_transform (mkCtx d (datalen ctx1) bits (state ctx1) (k ctx1)) d;
  hash' ← sha1_output (state ctx2) hash;
  Done (ctx2, hash').

(** A message given to [sha1_update] in fragments. *)
Fixpoint sha1_updates (ctx : SHA1_CTX) (frags : list (list Z)) : exec SHA1_CTX :=
  match frags with
  | [] => Done ctx
  | f :: frags' => ctx' ← sha1_update ctx f (length f); sha1_updates ctx' frags'
  end.

Definition sha1_run (ctx : SHA1_CTX) (frags : list (list Z)) (hash : list Z) : exec (list Z) :=
  ctx' ← sha1_updates (sha1_init ctx) frags;
  r ← sha1_final ctx' hash;
  Done r.2.

(** ** SHA-1 as FIPS 180 describes it *)

Module Fips1.

Definition rotl (n x : Z) : Z := (x * 2 ^ n + x / 2 ^ (32 - n)) mod 2 ^ 32.
Definition Ch (x y z : Z) : Z := Z.lxor (Z.land x y) (Z.land (2 ^ 32 - 1 - x) z).
Definition Parity (x y z : Z) : Z := Z.lxor (Z.lxor x y) z.
Definition Maj (x y z : Z) : Z := Z.lxor (Z.lxor (Z.land x y) (Z.land x z)) (Z.land y z).

(** The function and the constant of step [t]: the constants are
    2^30 times the square roots of 2, 3, 5 and 10, rounded down. *)
Definition f (t : nat) : Z -> Z -> Z -> Z :=
  if (t <? 20)%nat then Ch else if (t <? 40)%nat then Parity
  else if (t <? 60)%nat then Maj else Parity.
Definition K (t : nat) : Z :=
  Z.sqrt (2 ^ 60 * (if (t <? 20)%nat then 2 else if (t <? 40)%nat then 3
                    else if (t <? 60)%nat then 5 else 10)).

Definition next_word (W : list Z) : Z :=
  let t := length W in
  rotl 1 (Z.lxor (Z.lxor (Z.lxor (nth (t - 3) W 0) (nth (t - 8) W 0)) (nth (t - 14) W 0))
            (nth (t - 16) W 0)).

Definition schedule (blk : list Z) : list Z := grow 64 next_word (be_word blk <$> seq 0 16).

Definition round (W : list Z) (r : regs) (t : nat) : regs :=
  let '(a, b, c, d, e) := r in
  ((rotl 5 a + f t b c d + e + K t + nth t W 0) mod 2 ^ 32, a, rotl 30 b, c, d).

Definition compress (H blk : list Z) : list Z :=
  match H with
  | [a; b; c; d; e] =>
      let '(a', b', c', d', e') := foldl (round (schedule blk)) (a, b, c, d, e) (seq 0 80) in
      (fun w => w mod 2 ^ 32) <$> [a + a'; b + b'; c + c'; d + d'; e + e']
  | _ => []
  end.

Definition H0 : list Z := [0x67452301; 0xEFCDAB89; 0x98BADCFE; 0x10325476; 0xC3D2E1F0].

Definition sha1 (msg : list Z) : list Z :=
  concat (be32_bytes <$> md_hash H0 compress be64_bytes msg).

End Fips1.

(** ** The code follows the description *)

Definition regs_ok (r : regs) : Prop :=
  let '(a, b, c, d, e) := r in Forall is_u32 [a; b; c; d; e].

Lemma choose_Ch b c d : is_u32 b -> choose b c d = Fips1.Ch b c d.
Proof. intros Hb. unfold choose. by rewrite u32_lnot. Qed.

(** What the four loops use is what the description assigns to their steps. *)
Definition code_f (t : nat) : Z -> Z -> Z -> Z :=
  if (t <? 20)%nat then choose else if (t <? 40)%nat then parity
  else if (t <? 60)%nat then majority else parity.

Lemma sha1_code_f_f t b c d : is_u32 b -> code_f t b c d = Fips1.f t b c d.
Proof. intros Hb. unfold code_f, Fips1.f. by repeat case_match; rewrite ?choose_Ch. Qed.

Lemma rotl_range n x : is_u32 (Fips1.rotl n x).
Proof. apply u32_range. Qed.

Lemma sha1_round_Fips W r t :
  regs_ok r ->
  sha1_round (code_f t) r (Fips1.K t) (nth t W 0) = Fips1.round W r t /\
  regs_ok (Fips1.round W r t).
Proof.
  destruct r as [[[[a b] c] d] e]. intros Hr. unfold regs_ok in Hr. inv_Forall.
  unfold sha1_round, Fips1.round, ROTLEFT. rewrite sha1_code_f_f by done.
  rewrite !rotl32_spec by (done || lia). split; [done|].
  unfold regs_ok. solve_words; apply rotl_range.
Qed.

Lemma sha1_message_word_be blk i :
  length blk = 64%nat -> bytes blk -> (i < 16)%nat -> message_word blk i = Done (be_word blk i).
Proof.
  intros Hl Hb Hi. unfold message_word.
  rewrite !(load_nth blk _ 0) by lia. run. rewrite !Z.shiftl_mul_pow2 by lia.
  rewrite u32_small; [done|]. apply be32_range; apply nth_Forall; try done; lia.
Qed.

(** The words the second loop appends. *)
Definition code_word (W : list Z) : Z :=
  let t := length W in
  ROTLEFT (Z.lxor (Z.lxor (Z.lxor (nth (t - 3) W 0) (nth (t - 8) W 0)) (nth (t - 14) W 0))
             (nth (t - 16) W 0)) 1.

Lemma sha1_transform_schedule blk :
  length blk = 64%nat -> bytes blk ->
  (m1 ← for_range 0 16 (fun i m => w ← message_word blk i; store m i w) (replicate 80 0);
   for_range 16 64 (fun i m => w ← schedule_word m i; store m i w) m1) =
  Done (Fips1.schedule blk).
Proof.
  intros Hl Hb. etrans; [apply (schedule_loops (be_word blk) code_word (message_word blk) schedule_word 64)|].
  - intros i Hi. by apply sha1_message_word_be.
  - intros i m Hi. unfold schedule_word, code_word.
    rewrite !(load_nth m _ 0) by lia. run. rewrite length_take_le by lia.
    by rewrite !nth_take by lia.
  - apply (f_equal Done). apply (schedule_ext code_word Fips1.next_word 64 blk); [done|done|]. intros W HW Hu. unfold code_word, Fips1.next_word.
    split; [|apply rotl_range]. unfold ROTLEFT. rewrite rotl32_spec; [done| |lia].
    repeat apply lxor_bound; try lia; apply nth_Forall; (done || lia).
Qed.

Definition constants : list Z := [0x5A827999; 0x6ED9EBA1; 0x8F1BBCDC; 0xCA62C1D6].
Definition state_ok (st : list Z) : Prop := length st = 5%nat /\ Forall is_u32 st.
Definition ctx_ok (ctx : SHA1_CTX) : Prop := state_ok (state ctx) /\ k ctx = constants.

Lemma sha1_compress_ok st blk : state_ok st -> state_ok (Fips1.compress st blk).
Proof.
  intros [Hl _]. explode st. unfold Fips1.compress.
  destruct (foldl _ _ _) as [[[[a b] c] d] e]. split; [done|]. simpl. solve_words.
Qed.

(** The four loops in sequence are the 80 steps of the description. *)
Definition all_rounds (m : list Z) : regs -> exec regs :=
  for_range 0 80 (fun t r => mt ← load m t; Done (sha1_round (code_f t) r (Fips1.K t) mt)).

Lemma sha1_rounds_all lo f j ctx m r :
  k ctx = constants -> (j < 4)%nat -> lo = (20 * j)%nat ->
  (forall t, (lo <= t < lo + 20)%nat -> f = code_f t /\ load constants j = Done (Fips1.K t)) ->
  sha1_rounds lo f j ctx m r =
    for_range lo 20 (fun t r => mt ← load m t; Done (sha1_round (code_f t) r (Fips1.K t) mt)) r.
Proof.
  intros Hk Hj Hlo Hf. apply for_range_ext. intros t s Ht.
  destruct (Hf t Ht) as [-> E]. by rewrite Hk, E.
Qed.

Lemma quarter t j :
  (20 * j <= t < 20 * j + 20)%nat -> (j < 4)%nat ->
  code_f t = nth j [choose; parity; majority; parity] choose /\
  load constants j = Done (Fips1.K t).
Proof.
  intros Ht Hj. unfold code_f, Fips1.K.
  destruct (Nat.ltb_spec t 20); [assert (j = 0)%nat as -> by lia; done|].
  destruct (Nat.ltb_spec t 40); [assert (j = 1)%nat as -> by lia; done|].
  destruct (Nat.ltb_spec t 60); [assert (j = 2)%nat as -> by lia; done|].
  assert (j = 3)%nat as -> by lia. done.
Qed.

Lemma sha1_rounds_sequence ctx m r :
  k ctx = constants ->
  (r ← sha1_rounds 0 choose 0 ctx m r;
   r ← sha1_rounds 20 parity 1 ctx m r;
   r ← sha1_rounds 40 majority 2 ctx m r;
   sha1_rounds 60 parity 3 ctx m r) = all_rounds m r.
Proof.
  intros Hk. unfold all_rounds.
  change 80%nat with (20 + (20 + (20 + 20)))%nat. rewrite for_range_app.
  rewrite (sha1_rounds_all 0); [|done|lia|done|intros t Ht; by destruct (quarter t 0 Ht ltac:(lia)) as [-> ?]].
  destruct (for_range 0 20 _ _) as [r1| |]; run; try done. rewrite for_range_app.
  rewrite (sha1_rounds_all 20); [|done|lia|done|intros t Ht; by destruct (quarter t 1 Ht ltac:(lia)) as [-> ?]].
  simpl (0 + 20)%nat. destruct (for_range 20 20 _ _) as [r2| |]; run; try done.
  rewrite for_range_app.
  rewrite (sha1_rounds_all 40); [|done|lia|done|intros t Ht; by destruct (quarter t 2 Ht ltac:(lia)) as [-> ?]].
  simpl (20 + 20)%nat. destruct (for_range 40 20 _ _) as [r3| |]; run; try done.
  by rewrite (sha1_rounds_all 60); [|done|lia|done|intros t Ht; by destruct (quarter t 3 Ht ltac:(lia)) as [-> ?]].
Qed.

Lemma sha1_length_schedule blk : length (Fips1.schedule blk) = 80%nat.
Proof. unfold Fips1.schedule. by rewrite length_grow, length_fmap, length_seq. Qed.

Lemma all_rounds_Fips blk r :
  regs_ok r ->
  all_rounds (Fips1.schedule blk) r =
    Done (foldl (Fips1.round (Fips1.schedule blk)) r (seq 0 80)).
Proof.
  intros Hr. unfold all_rounds.
  rewrite (for_range_pure (fun r t =>
    sha1_round (code_f t) r (Fips1.K t) (nth t (Fips1.schedule blk) 0))).
  - f_equal. apply (foldl_ext_inv regs_ok (fun _ => True)); [done|by apply Forall_true|].
    intros s t Hs _. by apply sha1_round_Fips.
  - intros t s Ht. rewrite (load_nth _ _ 0); [done|rewrite sha1_length_schedule; lia].
Qed.

Lemma sha1_transform_compress ctx blk :
  length blk = 64%nat -> bytes blk -> ctx_ok ctx ->
  sha1_transform ctx blk =
    Done (mkCtx (data ctx) (datalen ctx) (bitlen ctx) (Fips1.compress (state ctx) blk) (k ctx)).
Proof.
  intros Hl Hb [[Hs Hu] Hk]. unfold sha1_transform.
  pose proof (sha1_transform_schedule blk Hl Hb) as E.
  destruct (for_range 0 16 _ _) as [m1| |]; try done. cbn [mbind exec_bind] in *.
  rewrite E. run. pose proof (sha1_rounds_sequence ctx (Fips1.schedule blk)) as Q.
  destruct ctx as [d dl bl st kk]. cbn [state data datalen bitlen k] in *. explode st.
  specialize (Q (x, x0, x1, x2, x3) Hk). rewrite all_rounds_Fips in Q by done.
  destruct (sha1_rounds 0 _ _ _ _ _) as [r1| |]; try done. cbn [mbind exec_bind] in *.
  destruct (sha1_rounds 20 _ _ _ _ _) as [r2| |]; try done. cbn [mbind exec_bind] in *.
  destruct (sha1_rounds 40 _ _ _ _ _) as [r3| |]; try done. cbn [mbind exec_bind] in *.
  rewrite Q. run. unfold Fips1.compress. by destruct (foldl _ _ _) as [[[[a b] c] d'] e].
Qed.

(** ** Streaming *)

#[export] Instance sha1_block_hash : BlockHash SHA1_CTX := {|
  bh_data := data; bh_datalen := datalen; bh_bitlen := bitlen; bh_state := state;
  bh_set := fun c d n b s => mkCtx d n b s (k c);
  bh_ok := ctx_ok;
  bh_iv := Fips1.H0; bh_compress := Fips1.compress;
  bh_transform := sha1_transform;
|}.

#[export] Instance sha1_block_hash_laws : BlockHashLaws SHA1_CTX.
Proof.
  split; try done.
  - simpl. by intros c d n b s Hc ->.
  - intros c blk Hc Hl Hb. split; [by apply sha1_transform_compress|].
    destruct Hc. split; [by apply sha1_compress_ok|done].
Qed.

Lemma sha1_updates_bh frags : forall ctx, sha1_updates ctx frags = bh_updates ctx frags.
Proof.
  induction frags as [|f frags IH]; intros ctx; simpl; [done|].
  change (sha1_update ctx f (length f)) with (bh_update ctx f (length f)).
  destruct (bh_update ctx f _); run; auto.
Qed.

Lemma sha1_init_absorbed ctx : length (data ctx) = 64%nat -> has_absorbed (sha1_init ctx) [].
Proof.
  intros Hd. exists [], []. split; [done|]. split; simpl; try done; try lia.
  split; [|done]. split; [done|]. by_compute.
Qed.

Lemma sha1_output_spec st hash :
  state_ok st -> (20 <= length hash)%nat ->
  sha1_output st hash = Done (concat (be32_bytes <$> st) ++ drop 20 hash).
Proof.
  intros [Hl Hu] Hh.
  assert (sha1_output st hash = write_digest be_digest_byte st hash) as ->
    by (unfold write_digest; by rewrite Hl).
  rewrite write_digest_spec by (rewrite Hl; lia).
  unfold digest. rewrite be_digest_concat by done. by rewrite Hl.
Qed.

Lemma sha1_final_absorbed ctx msg hash :
  has_absorbed ctx msg -> bytes msg -> (20 <= length hash)%nat ->
  returns (sha1_final ctx hash) (fun r => r.2 = Fips1.sha1 msg ++ drop 20 hash).
Proof.
  intros Hc Hm Hh. unfold sha1_final.
  change (sha1_pad ctx) with (bh_pad ctx).
  pose proof (bh_final_spec ctx msg put_be64 be64_bytes
    (fun c => hash' ← sha1_output (state c) hash; Done (c, hash'))
    (fun r => r.2 = Fips1.sha1 msg ++ drop 20 hash)) as F.
  cbn [bh_datalen bh_bitlen bh_state bh_set bh_data bh_transform sha1_block_hash] in F.
  apply F; [apply put_be64_spec|done|apply bytes_be64|done|done|].
  intros c2 [Hok _] E. rewrite sha1_output_spec by done. run. apply returns_Done. simpl in *.
  by rewrite E.
Qed.

(** C21: For any context memory with a 64-byte buffer, any message cut into
    any fragments and any output buffer of at least 20 bytes, [sha1_init], one
    [sha1_update] per fragment and [sha1_final] run without a memory error and
    write the FIPS 180 SHA-1 digest of the whole message to the first 20 bytes
    of the output. *)
Theorem sha1_correct ctx frags hash :
  length (data ctx) = 64%nat -> Forall bytes frags -> (20 <= length hash)%nat ->
  sha1_run ctx frags hash = Done (Fips1.sha1 (concat frags) ++ drop 20 hash).
Proof.
  intros Hd Hb Hh. unfold sha1_run. rewrite sha1_updates_bh.
  destruct (has_absorbed_updates frags (sha1_init ctx) []
    (sha1_init_absorbed ctx Hd) (Forall_nil_2 _) Hb) as (c & -> & Hc). run.
  destruct (sha1_final_absorbed c (concat frags) hash Hc) as (r & -> & Hr);
    [by apply Forall_concat|done|]. run. by rewrite Hr.
Qed.

Lemma sha1_correct_witness :
  sha1_run (mkCtx (replicate 64 9) 3 5 [] []) [[97]; [98; 99]] (replicate 21 1) =
    Done (Fips1.sha1 [97; 98; 99] ++ [1]).
Proof.
  apply (sha1_correct (mkCtx (replicate 64 9) 3 5 [] []) [[97]; [98; 99]] (replicate 21 1));
    [done|by_compute|simpl; lia].
Defined.

(** The first vector of sha1_test.c. *)
Example sha1_abc :
  sha1_run (mkCtx (replicate 64 0) 0 0 [] []) [[0x61; 0x62; 0x63]] (replicate 20 0) =
  Done [0xA9; 0x99; 0x3E; 0x36; 0x47; 0x06; 0x81; 0x6A; 0xBA; 0x3E; 0x25; 0x71; 0x78; 0x50;
        0xC2; 0x6C; 0x9C; 0xD0; 0xD8; 0x9D].
Proof. vm_compute. reflexivity. Qed.

End Sha1.
