(* ===== verification/Md5.v ===== *)
(** * MD5 (src/crypto-algorithms_learn/md5.c)

    The context, its operations, the RFC 1321 description of MD5 and the proof
    that any sequence of [md5_update] calls between [md5_init] and [md5_final]
    computes it.  The 64 macro lines of [md5_transform] are kept as a list of
    instructions that is run on the four registers. *)

From S2P Require Import Prelude BlockHash.
Import BlockHash.

Module Md5.

(** ** The code *)

(** [MD5_CTX]. *)
Record MD5_CTX := mkCtx {
  data : list Z;      (* BYTE data[64] *)
  datalen : nat;      (* WORD datalen, at most 64 *)
  bitlen : Z;         (* unsigned long long bitlen *)
  state : list Z;     (* WORD state[4] *)
}.

Definition ROTLEFT (a b : Z) : Z := rotl32 a b.

Definition F (x y z : Z) : Z := Z.lor (Z.land x y) (Z.land (u32 (Z.lnot x)) z).
Definition G (x y z : Z) : Z := Z.lor (Z.land x z) (Z.land y (u32 (Z.lnot z))).
Definition H (x y z : Z) : Z := Z.lxor (Z.lxor x y) z.
Definition I (x y z : Z) : Z := Z.lxor y (Z.lor x (u32 (Z.lnot z))).

(** The local variables [a], [b], [c], [d]. *)
Inductive reg := Ra | Rb | Rc | Rd.

Record regs := mkRegs { va : Z; vb : Z; vc : Z; vd : Z }.

Definition get (r : reg) (e : regs) : Z :=
  match r with Ra => va e | Rb => vb e | Rc => vc e | Rd => vd e end.

Definition set (r : reg) (v : Z) (e : regs) : regs :=
  match r with
  | Ra => mkRegs v (vb e) (vc e) (vd e)
  | Rb => mkRegs (va e) v (vc e) (vd e)
  | Rc => mkRegs (va e) (vb e) v (vd e)
  | Rd => mkRegs (va e) (vb e) (vc e) v
  end.

(** A macro line: [FF(a, b, c, d, m[i], s, t)] and the like. *)
Inductive line :=
  | FF (a b c d : reg) (i : nat) (s t : Z)
  | GG (a b c d : reg) (i : nat) (s t : Z)
  | HH (a b c d : reg) (i : nat) (s t : Z)
  | II (a b c d : reg) (i : nat) (s t : Z).

(** The two assignments of the four macros: [a += f(b, c, d) + m + t;
    a = b + ROTLEFT(a, s)]. *)
Definition step (f : Z -> Z -> Z -> Z) (a b c d : reg) (m s t : Z) (e : regs) : regs :=
  let e1 := set a (u32 (get a e + (f (get b e) (get c e) (get d e) + m + t))) e in
  set a (u32 (get b e1 + ROTLEFT (get a e1) s)) e1.

Definition run_line (m : list Z) (e : regs) (l : line) : exec regs :=
  match l with
  | FF a b c d i s t => w ← load m i; Done (step F a b c d w s t e)
  | GG a b c d i s t => w ← load m i; Done (step G a b c d w s t e)
  | HH a b c d i s t => w ← load m i; Done (step H a b c d w s t e)
  | II a b c d i s t => w ← load m i; Done (step I a b c d w s t e)
  end.

Definition lines : list line :=
  [ FF Ra Rb Rc Rd 0 7 0xD76AA478;
    FF Rd Ra Rb Rc 1 12 0xE8C7B756;
    FF Rc Rd Ra Rb 2 17 0x242070DB;
    FF Rb Rc Rd Ra 3 22 0xC1BDCEEE;
    FF Ra Rb Rc Rd 4 7 0xF57C0FAF;
    FF Rd Ra Rb Rc 5 12 0x4787C62A;
    FF Rc Rd Ra Rb 6 17 0xA8304613;
    FF Rb Rc Rd Ra 7 22 0xFD469501;
    FF Ra Rb Rc Rd 8 7 0x698098D8;
    FF Rd Ra Rb Rc 9 12 0x8B44F7AF;
    FF Rc Rd Ra Rb 10 17 0xFFFF5BB1;
    FF Rb Rc Rd Ra 11 22 0x895CD7BE;
    FF Ra Rb Rc Rd 12 7 0x6B901122;
    FF Rd Ra Rb Rc 13 12 0xFD987193;
    FF Rc Rd Ra Rb 14 17 0xA679438E;
    FF Rb Rc Rd Ra 15 22 0x49B40821;
    GG Ra Rb Rc Rd 1 5 0xF61E2562;
    GG Rd Ra Rb Rc 6 9 0xC040B340;
    GG Rc Rd Ra Rb 11 14 0x265E5A51;
    GG Rb Rc Rd Ra 0 20 0xE9B6C7AA;
    GG Ra Rb Rc Rd 5 5 0xD62F105D;
    GG Rd Ra Rb Rc 10 9 0x02441453;
    GG Rc Rd Ra Rb 15 14 0xD8A1E681;
    GG Rb Rc Rd Ra 4 20 0xE7D3FBC8;
    GG Ra Rb Rc Rd 9 5 0x21E1CDE6;
    GG Rd Ra Rb Rc 14 9 0xC33707D6;
    GG Rc Rd Ra Rb 3 14 0xF4D50D87;
    GG Rb Rc Rd Ra 8 20 0x455A14ED;
    GG Ra Rb Rc Rd 13 5 0xA9E3E905;
    GG Rd Ra Rb Rc 2 9 0xFCEFA3F8;
    GG Rc Rd Ra Rb 7 14 0x676F02D9;
    GG Rb Rc Rd Ra 12 20 0x8D2A4C8A;
    HH Ra Rb Rc Rd 5 4 0xFFFA3942;
    HH Rd Ra Rb Rc 8 11 0x8771F681;
    HH Rc Rd Ra Rb 11 16 0x6D9D6122;
    HH Rb Rc Rd Ra 14 23 0xFDE5380C;
    HH Ra Rb Rc Rd 1 4 0xA4BEEA44;
    HH Rd Ra Rb Rc 4 11 0x4BDECFA9;
    HH Rc Rd Ra Rb 7 16 0xF6BB4B60;
    HH Rb Rc Rd Ra 10 23 0xBEBFBC70;
    HH Ra Rb Rc Rd 13 4 0x289B7EC6;
    HH Rd Ra Rb Rc 0 11 0xEAA127FA;
    HH Rc Rd Ra Rb 3 16 0xD4EF3085;
    HH Rb Rc Rd Ra 6 23 0x04881D05;
    HH Ra Rb Rc Rd 9 4 0xD9D4D039;
    HH Rd Ra Rb Rc 12 11 0xE6DB99E5;
    HH Rc Rd Ra Rb 15 16 0x1FA27CF8;
    HH Rb Rc Rd Ra 2 23 0xC4AC5665;
    II Ra Rb Rc Rd 0 6 0xF4292244;
    II Rd Ra Rb Rc 7 10 0x432AFF97;
    II Rc Rd Ra Rb 14 15 0xAB9423A7;
    II Rb Rc Rd Ra 5 21 0xFC93A039;
    II Ra Rb Rc Rd 12 6 0x655B59C3;
    II Rd Ra Rb Rc 3 10 0x8F0CCC92;
    II Rc Rd Ra Rb 10 15 0xFFEFF47D;
    II Rb Rc Rd Ra 1 21 0x85845DD1;
    II Ra Rb Rc Rd 8 6 0x6FA87E4F;
    II Rd Ra Rb Rc 15 10 0xFE2CE6E0;
    II Rc Rd Ra Rb 6 15 0xA3014314;
    II Rb Rc Rd Ra 13 21 0x4E0811A1;
    II Ra Rb Rc Rd 4 6 0xF7537E82;
    II Rd Ra Rb Rc 11 10 0xBD3AF235;
    II Rc Rd Ra Rb 2 15 0x2AD7D2BB;
    II Rb Rc Rd Ra 9 21 0xEB86D391 ].

(** [m[i] = data[j] + (data[j + 1] << 8) + (data[j + 2] << 16) + (data[j + 3] << 24)]
    with [j = 4 * i], as a 32-bit word. *)
Definition message_word (data : list Z) (i : nat) : exec Z :=
  d0 ← load data (4 * i);
  d1 ← load data (4 * i + 1);
  d2 ← load data (4 * i + 2);
  d3 ← load data (4 * i + 3);
  Done (u32 (d0 + Z.shiftl d1 8 + Z.shiftl d2 16 + Z.shiftl d3 24)).

Fixpoint run_lines (m : list Z) (e : regs) (ls : list line) : exec regs :=
  match ls with
  | [] => Done e
  | l :: ls' => e' ← run_line m e l; run_lines m e' ls'
  end.

Definition md5_transform (ctx : MD5_CTX) (blk : list Z) : exec MD5_CTX :=
  m ← for_range 0 16 (fun i m => w ← message_word blk i; store m i w) (replicate 16 0);
  match state ctx with
  | [s0; s1; s2; s3] =>
      e ← run_lines m (mkRegs s0 s1 s2 s3) lines;
      Done (mkCtx (data ctx) (datalen ctx) (bitlen ctx)
              [u32 (s0 + va e); u32 (s1 + vb e); u32 (s2 + vc e); u32 (s3 + vd e)])
  | _ => Fault
  end.

(** [data] is left as it is by [md5_init]. *)
Definition md5_init (ctx : MD5_CTX) : MD5_CTX :=
  mkCtx (data ctx) 0 0 [0x67452301; 0xefcdab89; 0x98badcfe; 0x10325476].

(** The body of the loop of [md5_update], for the byte [b] = [data[i]]. *)
Definition md5_absorb (ctx : MD5_CTX) (b : Z) : exec MD5_CTX :=
  data' ← store (data ctx) (datalen ctx) b;
  let ctx1 := mkCtx data' (datalen ctx + 1) (bitlen ctx) (state ctx) in
  if (datalen ctx1 =? 64)%nat then
    ctx2 ← md5_transform ctx1 (data ctx1);
    Done (mkCtx (data ctx2) 0 (u64 (bitlen ctx2 + 512)) (state ctx2))
  else Done ctx1.

Definition md5_update (ctx : MD5_CTX) (buf : list Z) (len : nat) : exec MD5_CTX :=
  for_range 0 len (fun i ctx => b ← load buf i; md5_absorb ctx b) ctx.

(** The padding of [md5_final]: the context with its last block(s) prepared up
    to, and without, the length field. *)
Definition md5_pad (ctx : MD5_CTX) : exec MD5_CTX :=
  if (datalen ctx <? 56)%nat then
    d ← store (data ctx) (datalen ctx) 0x80;
    d' ← fill_from d (S (datalen ctx)) 56 0;
    Done (mkCtx d' (datalen ctx) (bitlen ctx) (state ctx))
  else
    d ← store (data ctx) (datalen ctx) 0x80;
    d' ← fill_from d (S (datalen ctx)) 64 0;
    ctx1 ← md5_transform (mkCtx d' (datalen ctx) (bitlen ctx) (state ctx)) d';
    d'' ← memset (data ctx1) 0 0 56;
    Done (mkCtx d'' (datalen ctx1) (bitlen ctx1) (state ctx1)).

(** [(w >> (i * 8)) & 0x000000ff]. *)
Definition le_digest_byte (w : Z) (i : nat) : Z := Z.land (Z.shiftr w (Z.of_nat i * 8)) 0xff.

Definition md5_output (st hash : list Z) : exec (list Z) :=
  for_range 0 4 (fun i hash =>
    for_range 0 4 (fun j hash =>
      s ← load st j; store hash (i + 4 * j) (le_digest_byte s i)) hash) hash.

Definition md5_final (ctx : MD5_CTX) (hash : list Z) : exec (MD5_CTX * list Z) :=
  ctx1 ← md5_pad ctx;
  let bits := u64 (bitlen ctx1 + Z.of_nat (datalen ctx1) * 8) in
  d ← put_le64 (data ctx1) bits;
  ctx2 ← md5_transform (mkCtx d (datalen ctx1) bits (state ctx1)) d;
  hash' ← md5_output (state ctx2) hash;
  Done (ctx2, hash').

(** A message given to [md5_update] in fragments. *)
Fixpoint md5_updates (ctx : MD5_CTX) (frags : list (list Z)) : exec MD5_CTX :=
  match frags with
  | [] => Done ctx
  | f :: frags' => ctx' ← md5_update ctx f (length f); md5_updates ctx' frags'
  end.

Definition md5_run (ctx : MD5_CTX) (frags : list (list Z)) (hash : list Z) : exec (list Z) :=
  ctx' ← md5_updates (md5_init ctx) frags;
  r ← md5_final ctx' hash;
  Done r.2.

(** ** MD5 as RFC 1321 describes it *)

Module Rfc1321.

Definition compl (x : Z) : Z := 2 ^ 32 - 1 - x.
Definition rotl (n x : Z) : Z := (x * 2 ^ n + x / 2 ^ (32 - n)) mod 2 ^ 32.

(** The auxiliary function, the word index and the rotation of step [t]
    (counted from 0). *)
Definition f (t : nat) (x y z : Z) : Z :=
  match (t / 16)%nat with
  | 0%nat => Z.lor (Z.land x y) (Z.land (compl x) z)
  | 1%nat => Z.lor (Z.land x z) (Z.land y (compl z))
  | 2%nat => Z.lxor (Z.lxor x y) z
  | _ => Z.lxor y (Z.lor x (compl z))
  end.

Definition index (t : nat) : nat :=
  match (t / 16)%nat with
  | 0%nat => t mod 16 | 1%nat => (5 * t + 1) mod 16
  | 2%nat => (3 * t + 5) mod 16 | _ => (7 * t) mod 16
  end.

Definition shift (t : nat) : Z :=
  nth (4 * (t / 16) + t mod 4) [7; 12; 17; 22; 5; 9; 14; 20; 4; 11; 16; 23; 6; 10; 15; 21] 0.

(** [T t = floor (2 ^ 32 * |sin (t + 1)|)].  The sines are computed in fixed
    point with 160 fractional bits: [sin 1] and [cos 1] from their power
    series, the others by [sin (n + 1) = 2 cos 1 sin n - sin (n - 1)]. *)
Definition one : Z := 2 ^ 160.

Fixpoint series (fuel : nat) (k term : Z) : Z :=
  match fuel with
  | O => 0
  | S fuel' => term + series fuel' (k + 2) (- (term / ((k + 1) * (k + 2))))
  end.
Definition sin1 : Z := series 24 1 one.
Definition cos1 : Z := series 24 0 one.

Fixpoint sines (fuel : nat) (prev cur : Z) : list Z :=
  match fuel with
  | O => []
  | S fuel' => cur :: sines fuel' cur (2 * cos1 * cur / one - prev)
  end.
Definition T : list Z := (fun s => Z.abs s / 2 ^ 128) <$> sines 64 0 sin1.

Definition le_word (blk : list Z) (t : nat) : Z :=
  nth (4 * t) blk 0 + nth (4 * t + 1) blk 0 * 2 ^ 8 +
  nth (4 * t + 2) blk 0 * 2 ^ 16 + nth (4 * t + 3) blk 0 * 2 ^ 24.

Definition round (X : nat -> Z) (r : Z * Z * Z * Z) (t : nat) : Z * Z * Z * Z :=
  let '(a, b, c, d) := r in
  (d, (b + rotl (shift t) ((a + f t b c d + X (index t) + nth t T 0) mod 2 ^ 32)) mod 2 ^ 32, b, c).

Definition compress (H blk : list Z) : list Z :=
  match H with
  | [a; b; c; d] =>
      let '(a', b', c', d') := foldl (round (le_word blk)) (a, b, c, d) (seq 0 64) in
      (fun w => w mod 2 ^ 32) <$> [a + a'; b + b'; c + c'; d + d']
  | _ => []
  end.

Definition H0 : list Z := [0x67452301; 0xEFCDAB89; 0x98BADCFE; 0x10325476].

Definition le32_bytes (w : Z) : list Z := [w mod 256; w / 2 ^ 8 mod 256; w / 2 ^ 16 mod 256; w / 2 ^ 24].

Definition md5 (msg : list Z) : list Z :=
  concat (le32_bytes <$> md_hash H0 compress le64_bytes msg).

End Rfc1321.

(** ** The code follows the description *)

(** The line RFC 1321 prescribes for step [t]: the four registers rotate. *)
Definition rfc_line (t : nat) : line :=
  let op := match (t / 16)%nat with 0%nat => FF | 1%nat => GG | 2%nat => HH | _ => II end in
  let op := match (t mod 4)%nat with
            | 0%nat => op Ra Rb Rc Rd | 1%nat => op Rd Ra Rb Rc
            | 2%nat => op Rc Rd Ra Rb | _ => op Rb Rc Rd Ra
            end in
  op (Rfc1321.index t) (Rfc1321.shift t) (nth t Rfc1321.T 0).

Lemma lines_rfc : lines = rfc_line <$> seq 0 64.
Proof. vm_compute. reflexivity. Qed.

#[local] Opaque Rfc1321.T.

(** The registers as step [t] of the description sees them. *)
Definition view (t : nat) (e : regs) : Z * Z * Z * Z :=
  match (t mod 4)%nat with
  | 0%nat => (va e, vb e, vc e, vd e) | 1%nat => (vd e, va e, vb e, vc e)
  | 2%nat => (vc e, vd e, va e, vb e) | _ => (vb e, vc e, vd e, va e)
  end.

Lemma view_S t e :
  view (S t) e = match (t mod 4)%nat with
                 | 0%nat => (vd e, va e, vb e, vc e) | 1%nat => (vc e, vd e, va e, vb e)
                 | 2%nat => (vb e, vc e, vd e, va e) | _ => (va e, vb e, vc e, vd e)
                 end.
Proof.
  unfold view. rewrite <- (Nat.add_1_r t), Nat.Div0.add_mod.
  pose proof (Nat.mod_upper_bound t 4 ltac:(lia)).
  destruct (t mod 4)%nat as [|[|[|[|?]]]]; [done..|lia].
Qed.

Definition regs_ok (e : regs) : Prop := Forall is_u32 [va e; vb e; vc e; vd e].

Definition code_f (t : nat) : Z -> Z -> Z -> Z :=
  match (t / 16)%nat with 0%nat => F | 1%nat => G | 2%nat => H | _ => I end.

Lemma md5_code_f_f t x y z :
  is_u32 x -> is_u32 y -> is_u32 z -> code_f t x y z = Rfc1321.f t x y z.
Proof.
  intros. unfold code_f, Rfc1321.f, F, G, H, I, Rfc1321.compl.
  repeat case_match; by rewrite ?u32_lnot.
Qed.

(** What a line leaves in its destination register. *)
Definition new_value (t : nat) (w a b c d : Z) : Z :=
  u32 (b + ROTLEFT (u32 (a + (code_f t b c d + w + nth t Rfc1321.T 0))) (Rfc1321.shift t)).

Lemma shift_range t : (t < 64)%nat -> 0 < Rfc1321.shift t < 32.
Proof.
  intros Ht. assert (check : forallb (fun t => (0 <? Rfc1321.shift t) && (Rfc1321.shift t <? 32))
    (seq 0 64) = true) by by vm_compute.
  rewrite forallb_forall in check. specialize (check t).
  rewrite <- list_elem_of_In, elem_of_seq in check. lia.
Qed.

Lemma new_value_round t X a b c d :
  (t < 64)%nat -> Forall is_u32 [a; b; c; d] ->
  (d, new_value t (X (Rfc1321.index t)) a b c d, b, c) = Rfc1321.round X (a, b, c, d) t.
Proof.
  intros Ht Hr. inv_Forall. unfold new_value, Rfc1321.round, ROTLEFT.
  rewrite rotl32_spec, md5_code_f_f by (done || apply u32_range || by apply shift_range).
  unfold u32. rewrite !Z.add_assoc. done.
Qed.

Lemma run_line_round X m e t :
  (t < 64)%nat -> regs_ok e -> (forall i, (i < 16)%nat -> load m i = Done (X i)) ->
  exists e', run_line m e (rfc_line t) = Done e' /\ regs_ok e' /\
    view (S t) e' = Rfc1321.round X (view t e) t.
Proof.
  intros Ht Hr Hm.
  assert (Rfc1321.index t < 16)%nat as Hi
    by (unfold Rfc1321.index; repeat case_match; by apply Nat.mod_upper_bound).
  pose proof (Nat.mod_upper_bound t 4 ltac:(lia)) as Hb.
  setoid_rewrite view_S. destruct e as [a b c d]. unfold regs_ok, view, rfc_line in *. cbn [va vb vc vd] in *.
  inv_Forall.
  assert (run_line m (mkRegs a b c d) (rfc_line t) =
    Done (match (t mod 4)%nat with
          | 0%nat => mkRegs (new_value t (X (Rfc1321.index t)) a b c d) b c d
          | 1%nat => mkRegs a b c (new_value t (X (Rfc1321.index t)) d a b c)
          | 2%nat => mkRegs a b (new_value t (X (Rfc1321.index t)) c d a b) d
          | _ => mkRegs a (new_value t (X (Rfc1321.index t)) b c d a) c d
          end)) as R.
  { unfold rfc_line, new_value, code_f.
    repeat case_match; cbn [run_line]; by rewrite Hm. }
  unfold rfc_line in R. rewrite R. eexists. split; [done|].
  destruct (t mod 4)%nat as [|[|[|[|?]]]]; [..|lia]; cbn -[Rfc1321.round new_value];
    (split; [solve_words|rewrite <- new_value_round; [done|done|solve_words]]).
Qed.

Lemma run_lines_rounds X m n : forall lo e,
  (lo + n <= 64)%nat -> regs_ok e -> (forall i, (i < 16)%nat -> load m i = Done (X i)) ->
  exists e', run_lines m e (rfc_line <$> seq lo n) = Done e' /\
    view (lo + n) e' = foldl (Rfc1321.round X) (view lo e) (seq lo n).
Proof.
  induction n as [|n IH]; intros lo e Hn He Hm.
  - exists e. by rewrite Nat.add_0_r.
  - cbn [seq fmap list_fmap foldl run_lines].
    destruct (run_line_round X m e lo) as (e' & -> & He' & <-); [lia|done|done|]. run.
    rewrite <- Nat.add_succ_comm. apply IH; [lia|done|done].
Qed.

Lemma message_word_le blk i :
  length blk = 64%nat -> bytes blk -> (i < 16)%nat ->
  message_word blk i = Done (Rfc1321.le_word blk i).
Proof.
  intros Hl Hb Hi. unfold message_word. rewrite !(load_nth blk _ 0) by lia. run.
  rewrite !Z.shiftl_mul_pow2 by lia. rewrite u32_small; [done|].
  assert (forall j, (j < 64)%nat -> is_u8 (nth j blk 0)) as Hn
    by (intros; apply nth_Forall; [done|lia]).
  pose proof (Hn (4 * i)%nat ltac:(lia)). pose proof (Hn (4 * i + 1)%nat ltac:(lia)).
  pose proof (Hn (4 * i + 2)%nat ltac:(lia)). pose proof (Hn (4 * i + 3)%nat ltac:(lia)).
  unfold is_u8, is_u32 in *. lia.
Qed.

Definition state_ok (st : list Z) : Prop := length st = 4%nat /\ Forall is_u32 st.

Lemma md5_compress_ok st blk : state_ok st -> state_ok (Rfc1321.compress st blk).
Proof.
  intros [Hl _]. explode st. unfold Rfc1321.compress.
  destruct (foldl _ _ _) as [[[a b] c] d]. split; [done|]. simpl. solve_words.
Qed.

Lemma md5_transform_compress ctx blk :
  length blk = 64%nat -> bytes blk -> state_ok (state ctx) ->
  md5_transform ctx blk =
    Done (mkCtx (data ctx) (datalen ctx) (bitlen ctx) (Rfc1321.compress (state ctx) blk)).
Proof.
  intros Hl Hb [Hs Hu]. unfold md5_transform.
  rewrite (for_range_init (Rfc1321.le_word blk));
    [|by rewrite length_replicate|intros; by apply message_word_le].
  rewrite drop_ge, app_nil_r by by rewrite length_replicate. run.
  destruct ctx as [d dl bl st]. cbn [state data datalen bitlen] in *. explode st.
  rewrite lines_rfc.
  destruct (run_lines_rounds (Rfc1321.le_word blk) (Rfc1321.le_word blk <$> seq 0 16) 64 0
    (mkRegs x x0 x1 x2)) as (e' & -> & E).
  - lia.
  - done.
  - intros i Hi. apply load_Done. by rewrite list_lookup_fmap, lookup_seq_lt.
  - run. unfold Rfc1321.compress. change (view 0 (mkRegs x x0 x1 x2)) with (x, x0, x1, x2) in E.
    by rewrite <- E.
Qed.

(** ** Streaming *)

#[export] Instance md5_block_hash : BlockHash MD5_CTX := {|
  bh_data := data; bh_datalen := datalen; bh_bitlen := bitlen; bh_state := state;
  bh_set := fun _ => mkCtx;
  bh_ok := fun c => state_ok (state c);
  bh_iv := Rfc1321.H0; bh_compress := Rfc1321.compress;
  bh_transform := md5_transform;
|}.

#[export] Instance md5_block_hash_laws : BlockHashLaws MD5_CTX.
Proof.
  split; try done.
  - simpl. by intros c d n b s Hc ->.
  - intros c blk Hc Hl Hb. split; [by apply md5_transform_compress|by apply md5_compress_ok].
Qed.

Lemma md5_updates_bh frags : forall ctx, md5_updates ctx frags = bh_updates ctx frags.
Proof.
  induction frags as [|f frags IH]; intros ctx; simpl; [done|].
  change (md5_update ctx f (length f)) with (bh_update ctx f (length f)).
  destruct (bh_update ctx f _); run; auto.
Qed.

Lemma md5_init_absorbed ctx : length (data ctx) = 64%nat -> has_absorbed (md5_init ctx) [].
Proof.
  intros Hd. exists [], []. split; [done|]. split; simpl; try done; try lia.
  split; [done|]. by_compute.
Qed.

Lemma le_digest_bytes w :
  is_u32 w -> le_digest_byte w <$> [0; 1; 2; 3]%nat = Rfc1321.le32_bytes w.
Proof.
  unfold is_u32, le_digest_byte, Rfc1321.le32_bytes. intros Hw. simpl.
  rewrite !land_255, !Z.shiftr_div_pow2 by lia. simpl Z.mul.
  rewrite (Z.mod_small (w / 2 ^ 24)) by (split; [apply Z.div_pos; lia|apply Z.div_lt_upper_bound; lia]).
  by rewrite ?Z.shiftr_0_r, ?Z.div_1_r.
Qed.

Lemma md5_output_spec st hash :
  state_ok st -> (16 <= length hash)%nat ->
  md5_output st hash = Done (concat (Rfc1321.le32_bytes <$> st) ++ drop 16 hash).
Proof.
  intros [Hl Hu] Hh.
  assert (md5_output st hash = write_digest le_digest_byte st hash) as ->
    by (unfold write_digest; by rewrite Hl).
  rewrite write_digest_spec by (rewrite Hl; lia). rewrite Hl.
  unfold digest. do 3 f_equal. apply list_fmap_ext. intros i w Hw.
  by eapply le_digest_bytes, Forall_lookup_1.
Qed.

Lemma md5_final_absorbed ctx msg hash :
  has_absorbed ctx msg -> bytes msg -> (16 <= length hash)%nat ->
  returns (md5_final ctx hash) (fun r => r.2 = Rfc1321.md5 msg ++ drop 16 hash).
Proof.
  intros Hc Hm Hh. unfold md5_final.
  change (md5_pad ctx) with (bh_pad ctx).
  pose proof (bh_final_spec ctx msg put_le64 le64_bytes
    (fun c => hash' ← md5_output (state c) hash; Done (c, hash'))
    (fun r => r.2 = Rfc1321.md5 msg ++ drop 16 hash)) as E.
  cbn [bh_datalen bh_bitlen bh_state bh_set bh_data bh_transform md5_block_hash] in E.
  apply E; [apply put_le64_spec|done|apply bytes_le64|done|done|].
  intros c2 Hok Hst. rewrite md5_output_spec by done. run. apply returns_Done. simpl in *.
  by rewrite Hst.
Qed.

(** C19: For any context memory with a 64-byte buffer, any message cut into
    any fragments and any output buffer of at least 16 bytes, [md5_init], one
    [md5_update] per fragment and [md5_final] run without a memory error and
    write the RFC 1321 digest of the whole message to the first 16 bytes of
    the output. *)
Theorem md5_correct ctx frags hash :
  length (data ctx) = 64%nat -> Forall bytes frags -> (16 <= length hash)%nat ->
  md5_run ctx frags hash = Done (Rfc1321.md5 (concat frags) ++ drop 16 hash).
Proof.
  intros Hd Hb Hh. unfold md5_run. rewrite md5_updates_bh.
  destruct (has_absorbed_updates frags (md5_init ctx) []
    (md5_init_absorbed ctx Hd) (Forall_nil_2 _) Hb) as (c & -> & Hc). run.
  destruct (md5_final_absorbed c (concat frags) hash Hc) as (r & -> & Hr);
    [by apply Forall_concat|done|]. run. by rewrite Hr.
Qed.

Lemma md5_correct_witness :
  md5_run (mkCtx (replicate 64 9) 3 5 []) [[97]; []; [98; 99]] (replicate 17 1) =
    Done (Rfc1321.md5 [97; 98; 99] ++ [1]).
Proof.
  apply (md5_correct (mkCtx (replicate 64 9) 3 5 []) [[97]; []; [98; 99]] (replicate 17 1));
    [done|by_compute|simpl; lia].
Defined.

(** The first two vectors of md5_test.c. *)
Example md5_empty :
  md5_run (mkCtx (replicate 64 0) 0 0 []) [[]] (replicate 16 0) =
  Done [0xD4; 0x1D; 0x8C; 0xD9; 0x8F; 0x00; 0xB2; 0x04; 0xE9; 0x80; 0x09; 0x98; 0xEC; 0xF8;
        0x42; 0x7E].
Proof. vm_compute. reflexivity. Qed.

Example md5_abc :
  md5_run (mkCtx (replicate 64 0) 0 0 []) [[0x61; 0x62; 0x63]] (replicate 16 0) =
  Done [0x90; 0x01; 0x50; 0x98; 0x3C; 0xD2; 0x4F; 0xB0; 0xD6; 0x96; 0x3F; 0x7D; 0x28; 0xE1;
        0x7F; 0x72].
Proof. vm_compute. reflexivity. Qed.

End Md5.
