(* ===== verification/Md2.v ===== *)
(** * MD2 (src/crypto-algorithms_learn/md2.c)

    The context, its operations, the RFC 1319 description of MD2 and the proof
    that any sequence of [md2_update] calls between [md2_init] and [md2_final]
    computes it.  [md2_final] passes the context's own checksum to
    [md2_transform] as its input block, so the input is a pointer into the
    context that is read while the checksum is being updated. *)

From S2P Require Import Prelude.

Module Md2.

(** ** The code *)

Definition s : list Z :=
  [ 41; 46; 67; 201; 162; 216; 124; 1; 61; 54; 84; 161; 236; 240; 6; 19;
    98; 167; 5; 243; 192; 199; 115; 140; 152; 147; 43; 217; 188; 76; 130; 202;
    30; 155; 87; 60; 253; 212; 224; 22; 103; 66; 111; 24; 138; 23; 229; 18;
    190; 78; 196; 214; 218; 158; 222; 73; 160; 251; 245; 142; 187; 47; 238; 122;
    169; 104; 121; 145; 21; 178; 7; 63; 148; 194; 16; 137; 11; 34; 95; 33;
    128; 127; 93; 154; 90; 144; 50; 39; 53; 62; 204; 231; 191; 247; 151; 3;
    255; 25; 48; 179; 72; 165; 181; 209; 215; 94; 146; 42; 172; 86; 170; 198;
    79; 184; 56; 210; 150; 164; 125; 182; 118; 252; 107; 226; 156; 116; 4; 241;
    69; 157; 112; 89; 100; 113; 135; 32; 134; 91; 207; 101; 230; 45; 168; 2;
    27; 96; 37; 173; 174; 176; 185; 246; 28; 70; 97; 105; 52; 64; 126; 15;
    85; 71; 163; 35; 221; 81; 175; 58; 195; 92; 249; 206; 186; 197; 234; 38;
    44; 83; 13; 110; 133; 40; 132; 9; 211; 223; 205; 244; 65; 129; 77; 82;
    106; 220; 55; 200; 108; 193; 171; 250; 36; 225; 123; 8; 12; 189; 177; 74;
    120; 136; 149; 139; 227; 99; 232; 109; 233; 203; 213; 254; 59; 0; 29; 57;
    242; 239; 183; 14; 102; 88; 208; 228; 166; 119; 114; 248; 235; 117; 75; 10;
    49; 68; 80; 180; 143; 237; 31; 26; 219; 153; 141; 51; 159; 17; 131; 20 ].

(** [MD2_CTX]. *)
Record MD2_CTX := mkCtx {
  data : list Z;      (* BYTE data[16] *)
  state : list Z;     (* BYTE state[48] *)
  checksum : list Z;  (* BYTE checksum[16] *)
  len : nat;          (* int len, at most 16 *)
}.

(** The two pointers [md2_transform] is called with: [ctx->data] and
    [ctx->checksum]. *)
Inductive field := Fdata | Fchecksum.

Definition deref (ctx : MD2_CTX) (p : field) : list Z :=
  match p with Fdata => data ctx | Fchecksum => checksum ctx end.

(** First loop: [state[j + 16] = data[j]; state[j + 32] = state[j + 16] ^ state[j]]. *)
Definition load_block (blk st : list Z) : exec (list Z) :=
  for_range 0 16 (fun j st =>
    d ← load blk j;
    st ← store st (j + 16) d;
    x ← load st (j + 16);
    y ← load st j;
    store st (j + 32) (Z.lxor x y)) st.

(** [ctx->state[k] ^= s[t]; t = ctx->state[k]]. *)
Definition mix_byte (k : nat) (p : list Z * Z) : exec (list Z * Z) :=
  let '(st, t) := p in
  x ← load st k;
  v ← load s (Z.to_nat t);
  st ← store st k (Z.lxor x v);
  t ← load st k;
  Done (st, t).

(** Second loop. *)
Definition mix (st : list Z) : exec (list Z * Z) :=
  for_range 0 18 (fun j p =>
    r ← for_range 0 48 mix_byte p;
    let '(st, t) := r in
    Done (st, Z.land (t + Z.of_nat j) 0xff)) (st, 0).

(** [ctx->checksum[j] ^= s[data[j] ^ t]; t = ctx->checksum[j]]: [data] is read
    from the context as it is now. *)
Definition checksum_byte (ctx : MD2_CTX) (p : field) (j : nat) (q : list Z * Z)
    : exec (list Z * Z) :=
  let '(ck, t) := q in
  d ← load (deref (mkCtx (data ctx) (state ctx) ck (len ctx)) p) j;
  v ← load s (Z.to_nat (Z.lxor d t));
  c ← load ck j;
  ck ← store ck j (Z.lxor c v);
  t ← load ck j;
  Done (ck, t).

Definition md2_transform (ctx : MD2_CTX) (p : field) : exec MD2_CTX :=
  st ← load_block (deref ctx p) (state ctx);
  r ← mix st;
  let ctx := mkCtx (data ctx) r.1 (checksum ctx) (len ctx) in
  t ← load (checksum ctx) 15;
  q ← for_range 0 16 (checksum_byte ctx p) (checksum ctx, t);
  Done (mkCtx (data ctx) (state ctx) q.1 (len ctx)).

Definition md2_init (ctx : MD2_CTX) : exec MD2_CTX :=
  st ← for_range 0 48 (fun i st => store st i 0) (state ctx);
  ck ← for_range 0 16 (fun i ck => store ck i 0) (checksum ctx);
  Done (mkCtx (data ctx) st ck 0).

(** The body of the loop of [md2_update], for the byte [b] = [data[i]]. *)
Definition md2_absorb (ctx : MD2_CTX) (b : Z) : exec MD2_CTX :=
  data' ← store (data ctx) (len ctx) b;
  let ctx1 := mkCtx data' (state ctx) (checksum ctx) (len ctx + 1) in
  if (len ctx1 =? 16)%nat then
    ctx2 ← md2_transform ctx1 Fdata;
    Done (mkCtx (data ctx2) (state ctx2) (checksum ctx2) 0)
  else Done ctx1.

Definition md2_update (ctx : MD2_CTX) (buf : list Z) (n : nat) : exec MD2_CTX :=
  for_range 0 n (fun i ctx => b ← load buf i; md2_absorb ctx b) ctx.

Definition md2_final (ctx : MD2_CTX) (hash : list Z) : exec (MD2_CTX * list Z) :=
  let to_pad := 16 - Z.of_nat (len ctx) in
  d ← fill_from (data ctx) (len ctx) 16 (u8 to_pad);
  ctx1 ← md2_transform (mkCtx d (state ctx) (checksum ctx) 16) Fdata;
  ctx2 ← md2_transform ctx1 Fchecksum;
  hash' ← memcpy hash 0 (state ctx2) 0 16;
  Done (ctx2, hash').

(** A message given to [md2_update] in fragments. *)
Fixpoint md2_updates (ctx : MD2_CTX) (frags : list (list Z)) : exec MD2_CTX :=
  match frags with
  | [] => Done ctx
  | f :: frags' => ctx' ← md2_update ctx f (length f); md2_updates ctx' frags'
  end.

Definition md2_run (ctx : MD2_CTX) (frags : list (list Z)) (hash : list Z) : exec (list Z) :=
  ctx0 ← md2_init ctx;
  ctx' ← md2_updates ctx0 frags;
  r ← md2_final ctx' hash;
  Done r.2.

(** ** MD2 as RFC 1319 describes it *)

(** [scan f j t l]: runs through [l], replacing each [x] at index [j] by
    [f j t x], where [t] is the value written just before. *)
Fixpoint scan (f : nat -> Z -> Z -> Z) (j : nat) (t : Z) (l : list Z) : list Z * Z :=
  match l with
  | [] => ([], t)
  | x :: l' => let x' := f j t x in let r := scan f (S j) x' l' in (x' :: r.1, r.2)
  end.

Module Rfc1319.

Definition S_ (x : Z) : Z := nth (Z.to_nat x) s 0.

(** Step 3.2: the checksum [C] after the block [M]; [L] is its last byte. *)
Definition checksum_block (C M : list Z) : list Z :=
  (scan (fun j L c => Z.lxor c (S_ (Z.lxor (nth j M 0) L))) 0 (nth 15 C 0) C).1.

(** Step 3.4: the 16-byte digest [X] after the block [M]. *)
Definition rounds (X48 : list Z) : list Z * Z :=
  foldl (fun p j => let r := scan (fun _ t x => Z.lxor x (S_ t)) 0 p.2 p.1 in
                    (r.1, (r.2 + Z.of_nat j) mod 256)) (X48, 0) (seq 0 18).

Definition digest_block (X M : list Z) : list Z :=
  take 16 (rounds (X ++ M ++ zip_with Z.lxor M X)).1.

Definition pad (msg : list Z) : list Z :=
  let n := (16 - length msg mod 16)%nat in msg ++ replicate n (Z.of_nat n).

Definition md2 (msg : list Z) : list Z :=
  let bs := chunks 16 (pad msg) in
  let C := foldl checksum_block (replicate 16 0) bs in
  foldl digest_block (replicate 16 0) (bs ++ [C]).

End Rfc1319.

(** ** The code follows the description *)

Lemma s_byte : Forall is_u8 s.
Proof. by_compute. Qed.

Lemma S_range x : is_u8 (Rfc1319.S_ x).
Proof.
  unfold Rfc1319.S_. destruct (decide (Z.to_nat x < length s)%nat).
  - by apply nth_Forall; [apply s_byte|].
  - rewrite nth_overflow by lia. by_compute.
Qed.

Lemma load_s x : is_u8 x -> load s (Z.to_nat x) = Done (Rfc1319.S_ x).
Proof. unfold is_u8. intros Hx. apply load_nth. simpl length. lia. Qed.

#[local] Hint Resolve S_range : words.

(** A loop that rewrites an array from left to right, carrying the last value. *)
Lemma for_range_scan f body (l : list Z) : forall pre post t,
  bytes l -> is_u8 t ->
  (forall j t x, is_u8 t -> is_u8 x -> is_u8 (f j t x)) ->
  (forall pre x post t, is_u8 t -> is_u8 x -> 
     body (length pre) (pre ++ x :: post, t) =
       Done (pre ++ f (length pre) t x :: post, f (length pre) t x)) ->
  let r := scan f (length pre) t l in
  for_range (length pre) (length l) body (pre ++ l ++ post, t) = Done (pre ++ r.1 ++ post, r.2)
  /\ bytes r.1 /\ is_u8 r.2 /\ length r.1 = length l.
Proof.
  induction l as [|x l IH]; intros pre post t Hl Ht Hf Hb; simpl; [done|].
  apply Forall_cons in Hl as [Hx Hl].
  rewrite Hb by done. run. set (x' := f (length pre) t x).
  specialize (IH (pre ++ [x']) post x'). rewrite length_app, Nat.add_1_r in IH.
  rewrite <- !app_assoc in IH. simpl in IH.
  destruct IH as (-> & Hr & Ht' & Hlen); [done|by apply Hf|done|done|].
  split_and!; [by rewrite <- (app_assoc pre)|constructor; [by apply Hf|done]|done|by f_equal].
Qed.

Lemma load_block_spec blk st :
  length blk = 16%nat -> length st = 48%nat ->
  load_block blk st = Done (take 16 st ++ blk ++ zip_with Z.lxor blk (take 16 st)).
Proof. intros Hb Hs. explode blk. explode st. reflexivity. Qed.

Definition mix_f (j : nat) (t x : Z) : Z := Z.lxor x (Rfc1319.S_ t).

Lemma mix_byte_spec pre x post t :
  is_u8 t -> mix_byte (length pre) (pre ++ x :: post, t) =
    Done (pre ++ mix_f (length pre) t x :: post, mix_f (length pre) t x).
Proof.
  intros Ht. unfold mix_byte, mix_f. rewrite load_middle. run. rewrite load_s by done. run.
  rewrite store_middle. run. by rewrite load_middle.
Qed.

Lemma mix_spec st :
  bytes st -> length st = 48%nat ->
  mix st = Done (Rfc1319.rounds st) /\ bytes (Rfc1319.rounds st).1 /\
  length (Rfc1319.rounds st).1 = 48%nat.
Proof.
  intros Hs Hl. unfold mix, Rfc1319.rounds.
  assert (forall n lo p, bytes p.1 -> length p.1 = 48%nat -> is_u8 p.2 ->
    let q := foldl (fun p j => let r := scan mix_f 0 p.2 p.1 in
               (r.1, (r.2 + Z.of_nat j) mod 256)) p (seq lo n) in
    for_range lo n (fun j p => r ← for_range 0 48 mix_byte p;
      let '(st, t) := r in Done (st, Z.land (t + Z.of_nat j) 0xff)) p = Done q /\
    bytes q.1 /\ length q.1 = 48%nat) as H.
  { induction n as [|n IH]; intros lo [l t] Hb Hlen Ht; simpl in Hb, Hlen, Ht; cbn [seq foldl];
      [done|].
    rewrite for_range_S.
    destruct (for_range_scan mix_f mix_byte l [] [] t) as (E & Hr & Ht' & Hlr);
      [done|done|intros; unfold mix_f; auto with words|intros; by apply mix_byte_spec|].
    rewrite app_nil_r, Hlen in E. cbn [length app] in E, Hr, Ht', Hlr. rewrite E. run. rewrite app_nil_r, land_255.
    apply IH; cbn [fst snd]; [done|by rewrite Hlr|apply u8_range]. }
  apply (H 18%nat 0%nat (st, 0)); [done|done|by_compute].
Qed.

#[local] Opaque Rfc1319.rounds Rfc1319.checksum_block.

Definition check_f (blk : option (list Z)) (j : nat) (t x : Z) : Z :=
  Z.lxor x (Rfc1319.S_ (Z.lxor (match blk with Some b => nth j b 0 | None => x end) t)).

(** The input block of the checksum loop: the data buffer, or the entry about
    to be overwritten. *)
Definition block_of (ctx : MD2_CTX) (p : field) : option (list Z) :=
  match p with Fdata => Some (data ctx) | Fchecksum => None end.

(** A context whose arrays have their sizes and hold bytes. *)
Record ctx_ok (ctx : MD2_CTX) : Prop := {
  ok_data : length (data ctx) = 16%nat;
  ok_state : length (state ctx) = 48%nat /\ bytes (state ctx);
  ok_checksum : length (checksum ctx) = 16%nat /\ bytes (checksum ctx);
}.

Lemma checksum_loop ctx p :
  ctx_ok ctx -> bytes (deref ctx p) ->
  let r := scan (check_f (block_of ctx p)) 0 (nth 15 (checksum ctx) 0) (checksum ctx) in
  for_range 0 16 (checksum_byte ctx p) (checksum ctx, nth 15 (checksum ctx) 0) = Done r /\
  bytes r.1 /\ length r.1 = 16%nat.
Proof.
  intros [Hd _ [Hlc Hbc]] Hp.
  set (body := fun (j : nat) (q : list Z * Z) =>
    if (j <? 16)%nat then checksum_byte ctx p j q
    else let '(l, t) := q in
         x ← load l j; let x' := check_f (block_of ctx p) j t x in
         l ← store l j x'; Done (l, x')).
  assert (forall pre x post t, is_u8 t -> is_u8 x ->
    body (length pre) (pre ++ x :: post, t) =
      Done (pre ++ check_f (block_of ctx p) (length pre) t x :: post,
            check_f (block_of ctx p) (length pre) t x)) as Hb.
  { intros pre x post t Ht Hx. subst body. cbv beta. destruct (Nat.ltb_spec (length pre) 16).
    - unfold checksum_byte, check_f. destruct p; cbn [deref data checksum block_of].
      + rewrite (load_nth (data ctx) _ 0) by lia. run.
        rewrite load_s by (apply lxor_u8; [apply nth_Forall; [done|lia]|done]). run.
        rewrite load_middle. run. rewrite store_middle. run. by rewrite load_middle.
      + rewrite load_middle. run. rewrite load_s by auto with words. run.
        rewrite store_middle. run. by rewrite load_middle.
    - rewrite load_middle. run. by rewrite store_middle. }
  destruct (for_range_scan (check_f (block_of ctx p)) body (checksum ctx) [] []
    (nth 15 (checksum ctx) 0)) as (E & Hr & _ & Hlen);
    [done|apply nth_Forall; [done|lia]|intros; unfold check_f; auto with words|done|].
  rewrite app_nil_r, Hlc in E. cbn [length app] in E. rewrite app_nil_r, <- surjective_pairing in E.
  cbv zeta. cbn [length] in Hlen, Hr. rewrite <- E, Hlen. split; [|done]. apply for_range_ext. intros i q Hi. subst body. cbv beta.
  by rewrite (proj2 (Nat.ltb_lt _ _)) by lia.
Qed.

Lemma md2_transform_spec ctx p :
  ctx_ok ctx -> length (deref ctx p) = 16%nat -> bytes (deref ctx p) ->
  returns (md2_transform ctx p) (fun ctx' => ctx_ok ctx' /\ data ctx' = data ctx /\
    len ctx' = len ctx /\
    take 16 (state ctx') = Rfc1319.digest_block (take 16 (state ctx)) (deref ctx p) /\
    (p = Fdata -> checksum ctx' = Rfc1319.checksum_block (checksum ctx) (data ctx))).
Proof.
  intros Hok Hlp Hbp. pose proof Hok as [Hd [Hls Hbs] [Hlc Hbc]]. unfold md2_transform.
  rewrite load_block_spec by done. run.
  set (X := take 16 (state ctx) ++ deref ctx p ++
    zip_with Z.lxor (deref ctx p) (take 16 (state ctx))).
  destruct (mix_spec X) as (-> & Hbr & Hlr).
  { repeat apply Forall_app_2; [by apply Forall_take|done|].
    by apply bytes_zip_lxor; [|apply Forall_take]. }
  { unfold X. rewrite !length_app, length_zip_with, length_take. lia. }
  run. cbn [checksum]. rewrite (load_nth _ _ 0) by lia. run.
  destruct (checksum_loop (mkCtx (data ctx) (Rfc1319.rounds X).1 (checksum ctx) (len ctx)) p)
    as (E & Hbk & Hlk); [by split|by destruct p|].
  cbn [checksum] in E. rewrite E. run. apply returns_Done.
  split_and!; [by split|done|done|done|]. intros ->. reflexivity.
Qed.

(** ** Streaming *)

(** The context after the blocks [bs] and the incomplete block [rest]. *)
Record absorbed (ctx : MD2_CTX) (bs : list (list Z)) (rest : list Z) : Prop := {
  ab_ok : ctx_ok ctx;
  ab_blocks : Forall (fun b => length b = 16%nat) bs;
  ab_rest : (length rest < 16)%nat;
  ab_len : len ctx = length rest;
  ab_take : take (length rest) (data ctx) = rest;
  ab_state : take 16 (state ctx) = foldl Rfc1319.digest_block (replicate 16 0) bs;
  ab_checksum : checksum ctx = foldl Rfc1319.checksum_block (replicate 16 0) bs;
}.

Definition has_absorbed (ctx : MD2_CTX) (msg : list Z) : Prop :=
  exists bs rest, msg = concat bs ++ rest /\ absorbed ctx bs rest.

(** Compressing a full data buffer. *)
Lemma transform_absorbed ctx bs blk n :
  ctx_ok ctx -> data ctx = blk -> bytes blk -> Forall (fun b => length b = 16%nat) bs ->
  take 16 (state ctx) = foldl Rfc1319.digest_block (replicate 16 0) bs ->
  checksum ctx = foldl Rfc1319.checksum_block (replicate 16 0) bs ->
  returns (md2_transform ctx Fdata) (fun ctx' =>
    absorbed (mkCtx (data ctx') (state ctx') (checksum ctx') 0) (bs ++ [blk]) [] /\
    data ctx' = data ctx /\ (len ctx = n -> len ctx' = n)).
Proof.
  intros Hok Hd Hb Hbs Hs Hc. pose proof (ok_data _ Hok) as Hld.
  destruct (md2_transform_spec ctx Fdata) as (ctx' & -> & Hok' & Hd' & Hn & Hst & Hck);
    [done|done|by rewrite <- Hd in Hb|]. apply returns_Done.
  split_and!; [|done|by rewrite Hn]. destruct Hok'. split; cbn [data state checksum len].
  - by split.
  - apply Forall_app. split; [done|]. constructor; [by rewrite <- Hd|done].
  - simpl. lia.
  - done.
  - done.
  - rewrite foldl_app. simpl. by rewrite Hst, Hs, <- Hd.
  - rewrite foldl_app. simpl. by rewrite Hck, Hc, <- Hd.
Qed.

Lemma md2_has_absorbed_step ctx msg b :
  has_absorbed ctx msg -> bytes msg -> is_u8 b ->
  returns (md2_absorb ctx b) (fun ctx' => has_absorbed ctx' (msg ++ [b])).
Proof.
  intros (bs & rest & -> & [Hok Hbs Hrest Hlen Htake Hst Hck]) Hm Hb.
  pose proof Hok as [Hd Hs Hc]. apply Forall_app in Hm as [_ Hr].
  unfold md2_absorb. rewrite store_lt by lia. run. cbn [len data].
  assert (take (S (length rest)) (<[len ctx := b]> (data ctx)) = rest ++ [b]) as E
    by (rewrite Hlen, take_S_insert by lia; by rewrite Htake).
  destruct (Nat.eqb_spec (len ctx + 1) 16) as [E16|Hne].
  - assert (S (length rest) = 16%nat) as Hl16 by lia.
    rewrite Hl16, take_ge in E by (rewrite length_insert; lia).
    eapply returns_bind; [apply (transform_absorbed _ bs (rest ++ [b]) 16)|].
    + split; cbn [data state checksum]; [by rewrite length_insert|done|done].
    + done.
    + apply Forall_app. split; [done|]. solve_words.
    + done.
    + done.
    + done.
    + intros ctx' (Ha & _ & _). apply returns_Done. exists (bs ++ [rest ++ [b]]), [].
      rewrite concat_app. simpl. by rewrite !app_nil_r, app_assoc.
  - apply returns_Done. exists bs, (rest ++ [b]). split; [by rewrite app_assoc|].
    split; cbn [data state checksum len]; try done.
    + split; cbn [data state checksum]; [by rewrite length_insert|done|done].
    + rewrite length_app. simpl. lia.
    + rewrite length_app. simpl. lia.
    + rewrite length_app, Nat.add_1_r. done.
Qed.

Lemma md2_has_absorbed_update ctx msg f :
  has_absorbed ctx msg -> bytes msg -> bytes f ->
  returns (md2_update ctx f (length f)) (fun ctx' => has_absorbed ctx' (msg ++ f)).
Proof.
  intros Hc Hm Hf. unfold md2_update.
  eapply returns_weaken.
  - apply (for_range_inv (fun i ctx => has_absorbed ctx (msg ++ take i f)) _ (length f) 0).
    + by rewrite take_0, app_nil_r.
    + intros i c Hi Hc'. destruct (load_lt f i ltac:(lia)) as (b & Hb & ->). run.
      rewrite (take_S_r _ _ _ Hb), app_assoc. apply md2_has_absorbed_step; [done| |].
      * apply Forall_app. split; [done|by apply Forall_take].
      * by eapply Forall_lookup_1.
  - intros c. by rewrite take_ge.
Qed.

Lemma md2_has_absorbed_updates frags : forall ctx msg,
  has_absorbed ctx msg -> bytes msg -> Forall bytes frags ->
  returns (md2_updates ctx frags) (fun ctx' => has_absorbed ctx' (msg ++ concat frags)).
Proof.
  induction frags as [|f frags IH]; intros ctx msg Hc Hm Hf; simpl.
  - apply returns_Done. by rewrite app_nil_r.
  - inv_Forall. eapply returns_bind; [by apply md2_has_absorbed_update|].
    intros c Hc'. rewrite app_assoc. apply IH; [done|by apply Forall_app|done].
Qed.

Lemma md2_init_absorbed ctx :
  length (data ctx) = 16%nat -> length (state ctx) = 48%nat -> length (checksum ctx) = 16%nat ->
  returns (md2_init ctx) (fun ctx' => has_absorbed ctx' []).
Proof.
  intros Hd Hs Hc. unfold md2_init.
  rewrite (for_range_grow (fun _ => 0) _ 48) by (try lia; intros; by apply store_lt). run.
  rewrite (for_range_grow (fun _ => 0) _ 16) by (try lia; intros; by apply store_lt). run.
  rewrite !grow_const, !drop_ge by lia. apply returns_Done. exists [], []. split; [done|].
  split; simpl; try done; try lia. split; [done|split; [done|by_compute]..].
Qed.

Lemma pad_blocks bs rest :
  Forall (fun b => length b = 16%nat) bs -> (length rest < 16)%nat ->
  chunks 16 (Rfc1319.pad (concat bs ++ rest)) =
    bs ++ [rest ++ replicate (16 - length rest) (16 - Z.of_nat (length rest))].
Proof.
  intros Hbs Hr. unfold Rfc1319.pad.
  rewrite length_app, (length_concat_chunks 16) by done.
  rewrite (Nat.add_comm (16 * _)), (Nat.mul_comm 16), Nat.Div0.mod_add, Nat.mod_small by done.
  rewrite <- app_assoc, Nat2Z.inj_sub by lia.
  set (lst := rest ++ _).
  assert (bs ++ [lst] = bs ++ [lst] /\ concat bs ++ lst = concat (bs ++ [lst])) as [_ ->]
    by (by rewrite concat_app; simpl; rewrite app_nil_r).
  apply (chunks_concat 16); [done|]. apply Forall_app. split; [done|]. constructor; [|done].
  subst lst. rewrite length_app, length_replicate. lia.
Qed.

Lemma md2_final_absorbed ctx msg hash :
  has_absorbed ctx msg -> bytes msg -> (16 <= length hash)%nat ->
  returns (md2_final ctx hash) (fun r => r.2 = Rfc1319.md2 msg ++ drop 16 hash).
Proof.
  intros (bs & rest & -> & [Hok Hbs Hrest Hlen Htake Hst Hck]) Hm Hh.
  pose proof Hok as [Hd Hs Hc]. apply Forall_app in Hm as [_ Hr].
  unfold md2_final. rewrite Hlen, fill_from_spec, Htake, drop_ge, app_nil_r by lia. run.
  rewrite u8_small by (unfold is_u8; lia).
  set (blk := rest ++ replicate _ _).
  assert (bytes blk) as Hblk.
  { apply Forall_app. split; [done|]. apply Forall_replicate. unfold is_u8. lia. }
  assert (length blk = 16%nat) as Hlb by (unfold blk; rewrite length_app, length_replicate; lia).
  eapply returns_bind; [by apply (transform_absorbed _ bs blk 16); [split|..]|].
  intros c1 ([Hok1 _ _ _ _ Hst1 Hck1] & Hd1 & _). cbn [state checksum data len] in *.
  destruct Hok1 as [Hk1 Hk2 [Hk3 Hk4]]. cbn [state checksum data] in *.
  eapply returns_bind; [by apply (md2_transform_spec c1 Fchecksum); [split|..]|].
  intros c2 (Hok2 & _ & _ & Hst2 & _). pose proof (ok_state _ Hok2) as [Hl2 _].
  rewrite memcpy_in by lia. run. apply returns_Done. simpl. rewrite drop_0, Hst2.
  unfold Rfc1319.md2. rewrite pad_blocks by done. fold blk.
  rewrite foldl_app. simpl. cbn [deref]. by rewrite Hst1, Hck1.
Qed.

(** For any context memory, any message cut into any fragments and any
    output buffer of at least 16 bytes, [md2_init], one [md2_update] per
    fragment and [md2_final] run without a memory error and write the RFC 1319
    digest of the whole message to the first 16 bytes of the output.  The
    description appends the checksum of the whole message as a last block; the
    code keeps it up to date block by block and finally compresses it in
    place. *)
Theorem md2_correct ctx frags hash :
  length (data ctx) = 16%nat -> length (state ctx) = 48%nat -> length (checksum ctx) = 16%nat ->
  Forall bytes frags -> (16 <= length hash)%nat ->
  md2_run ctx frags hash = Done (Rfc1319.md2 (concat frags) ++ drop 16 hash).
Proof.
  intros Hd Hs Hc Hb Hh. unfold md2_run.
  destruct (md2_init_absorbed ctx Hd Hs Hc) as (c0 & -> & H0). run.
  destruct (md2_has_absorbed_updates frags c0 [] H0 (Forall_nil_2 _) Hb) as (c & -> & H1). run.
  destruct (md2_final_absorbed c (concat frags) hash H1) as (r & -> & Hr);
    [by apply Forall_concat|done|]. run. by rewrite Hr.
Qed.

Lemma md2_correct_witness :
  md2_run (mkCtx (replicate 16 9) (replicate 48 8) (replicate 16 7) 3) [[97]; []; [98; 99]]
    (replicate 17 1) = Done (Rfc1319.md2 [97; 98; 99] ++ [1]).
Proof.
  apply (md2_correct (mkCtx (replicate 16 9) (replicate 48 8) (replicate 16 7) 3)
    [[97]; []; [98; 99]] (replicate 17 1)); [done|done|done|by_compute|simpl; lia].
Defined.

(** The first vector of md2_test.c. *)
Example md2_abc :
  md2_run (mkCtx (replicate 16 0) (replicate 48 0) (replicate 16 0) 0) [[0x61; 0x62; 0x63]]
    (replicate 16 0) =
  Done [0xDA; 0x85; 0x3B; 0x0D; 0x3F; 0x88; 0xD9; 0x9B; 0x30; 0x28; 0x3A; 0x69; 0xE6; 0xDE;
        0xD6; 0xBB].
Proof. vm_compute. reflexivity. Qed.

End Md2.
