(* ===== verification/Aes.v ===== *)
(** * AES (src/crypto-algorithms_learn/aes.c, the block cipher)

    The key schedule, the steps of a round and the two directions of the
    cipher; FIPS 197 on the field GF(2^8); the proof that the code computes
    it and that decryption undoes encryption for every key size. *)

From S2P Require Import Prelude AesTables BlockHash.
Import AesTables BlockHash.

Module Aes.

(** ** The code *)

(** [BYTE state[4][4]], by columns: [state[r][c]] is row [r] of column [c]. *)
Record column := Col { r0 : Z; r1 : Z; r2 : Z; r3 : Z }.
Record state := St { c0 : column; c1 : column; c2 : column; c3 : column }.

(** [t[i][j]] on a constant table; the indices of the code are in range. *)
Definition at2 (t : list (list Z)) (i j : Z) : Z := nth (Z.to_nat j) (nth (Z.to_nat i) t []) 0.

(** [aes_sbox[x >> 4][x & 0x0F]] and the same on the inverse table. *)
Definition sbox (x : Z) : Z := at2 aes_sbox (Z.shiftr x 4) (Z.land x 0x0f).
Definition invsbox (x : Z) : Z := at2 aes_invsbox (Z.shiftr x 4) (Z.land x 0x0f).

Definition KE_ROTWORD (x : Z) : Z := Z.lor (u32 (Z.shiftl x 8)) (Z.shiftr x 24).

Definition SubWord (word : Z) : Z :=
  let result := at2 aes_sbox (Z.land (Z.shiftr word 4) 0xf) (Z.land word 0xf) in
  let result := u32 (result + Z.shiftl (at2 aes_sbox (Z.land (Z.shiftr word 12) 0xf)
                                                   (Z.land (Z.shiftr word 8) 0xf)) 8) in
  let result := u32 (result + Z.shiftl (at2 aes_sbox (Z.land (Z.shiftr word 20) 0xf)
                                                   (Z.land (Z.shiftr word 16) 0xf)) 16) in
  u32 (result + Z.shiftl (at2 aes_sbox (Z.land (Z.shiftr word 28) 0xf)
                                     (Z.land (Z.shiftr word 24) 0xf)) 24).

Definition Rcon : list Z :=
  [ 0x01000000; 0x02000000; 0x04000000; 0x08000000; 0x10000000; 0x20000000; 0x40000000;
    0x80000000; 0x1b000000; 0x36000000; 0x6c000000; 0xd8000000; 0xab000000; 0x4d000000;
    0x9a000000 ].

(** [(key[4 * idx] << 24) | ... | key[4 * idx + 3]], as a 32-bit word. *)
Definition key_word (key : list Z) (idx : nat) : exec Z :=
  k0 ← load key (4 * idx);
  k1 ← load key (4 * idx + 1);
  k2 ← load key (4 * idx + 2);
  k3 ← load key (4 * idx + 3);
  Done (u32 (Z.lor (Z.lor (Z.lor (Z.shiftl k0 24) (Z.shiftl k1 16)) (Z.shiftl k2 8)) k3)).

(** The body of the second loop: the value of [w[idx]]. *)
Definition schedule_word (Nk : nat) (w : list Z) (idx : nat) : exec Z :=
  temp ← load w (idx - 1);
  temp ← (if (idx mod Nk =? 0)%nat then
            rc ← load Rcon ((idx - 1) / Nk); Done (Z.lxor (SubWord (KE_ROTWORD temp)) rc)
          else if (6 <? Nk)%nat && (idx mod Nk =? 4)%nat then Done (SubWord temp)
          else Done temp);
  prev ← load w (idx - Nk);
  Done (Z.lxor prev temp).

Definition aes_key_setup (key w : list Z) (key_size : Z) : exec (list Z) :=
  let go (Nr Nk : nat) :=
    w ← for_range 0 Nk (fun idx w => x ← key_word key idx; store w idx x) w;
    for_range Nk (4 * (Nr + 1) - Nk) (fun idx w => x ← schedule_word Nk w idx; store w idx x) w in
  if key_size =? 128 then go 10%nat 4%nat
  else if key_size =? 192 then go 12%nat 6%nat
  else if key_size =? 256 then go 14%nat 8%nat
  else Done w.

(** One subkey: the four bytes of a word are added to a column. *)
Definition add_subkey (c : column) (w : Z) : column :=
  Col (Z.lxor (r0 c) (u8 (Z.shiftr w 24))) (Z.lxor (r1 c) (u8 (Z.shiftr w 16)))
      (Z.lxor (r2 c) (u8 (Z.shiftr w 8))) (Z.lxor (r3 c) (u8 w)).

(** [AddRoundKey(state, &key[off])]. *)
Definition AddRoundKey (s : state) (key : list Z) (off : nat) : exec state :=
  w0 ← load key off;
  let col0 := add_subkey (c0 s) w0 in
  w1 ← load key (off + 1);
  let col1 := add_subkey (c1 s) w1 in
  w2 ← load key (off + 2);
  let col2 := add_subkey (c2 s) w2 in
  w3 ← load key (off + 3);
  let col3 := add_subkey (c3 s) w3 in
  Done (St col0 col1 col2 col3).

Definition map_column (f : Z -> Z) (c : column) : column := Col (f (r0 c)) (f (r1 c)) (f (r2 c)) (f (r3 c)).

Definition SubBytes (s : state) : state :=
  St (map_column sbox (c0 s)) (map_column sbox (c1 s))
     (map_column sbox (c2 s)) (map_column sbox (c3 s)).
Definition InvSubBytes (s : state) : state :=
  St (map_column invsbox (c0 s)) (map_column invsbox (c1 s))
     (map_column invsbox (c2 s)) (map_column invsbox (c3 s)).

(** [state[r][c]] and [state[r][c] = v]. *)
Definition col_get (col : column) (r : nat) : Z :=
  match r with 0 => r0 col | 1 => r1 col | 2 => r2 col | _ => r3 col end%nat.
Definition get (s : state) (r c : nat) : Z :=
  col_get (match c with 0 => c0 s | 1 => c1 s | 2 => c2 s | _ => c3 s end%nat) r.

Definition col_set (col : column) (r : nat) (v : Z) : column :=
  match r with
  | 0 => Col v (r1 col) (r2 col) (r3 col)
  | 1 => Col (r0 col) v (r2 col) (r3 col)
  | 2 => Col (r0 col) (r1 col) v (r3 col)
  | _ => Col (r0 col) (r1 col) (r2 col) v
  end%nat.
Definition set (s : state) (r c : nat) (v : Z) : state :=
  match c with
  | 0 => St (col_set (c0 s) r v) (c1 s) (c2 s) (c3 s)
  | 1 => St (c0 s) (col_set (c1 s) r v) (c2 s) (c3 s)
  | 2 => St (c0 s) (c1 s) (col_set (c2 s) r v) (c3 s)
  | _ => St (c0 s) (c1 s) (c2 s) (col_set (c3 s) r v)
  end%nat.

Definition ShiftRows (s : state) : state :=
  let t := get s 1 0 in
  let s := set s 1 0 (get s 1 1) in
  let s := set s 1 1 (get s 1 2) in
  let s := set s 1 2 (get s 1 3) in
  let s := set s 1 3 t in
  let t := get s 2 0 in
  let s := set s 2 0 (get s 2 2) in
  let s := set s 2 2 t in
  let t := get s 2 1 in
  let s := set s 2 1 (get s 2 3) in
  let s := set s 2 3 t in
  let t := get s 3 0 in
  let s := set s 3 0 (get s 3 3) in
  let s := set s 3 3 (get s 3 2) in
  let s := set s 3 2 (get s 3 1) in
  set s 3 1 t.

Definition InvShiftRows (s : state) : state :=
  let t := get s 1 3 in
  let s := set s 1 3 (get s 1 2) in
  let s := set s 1 2 (get s 1 1) in
  let s := set s 1 1 (get s 1 0) in
  let s := set s 1 0 t in
  let t := get s 2 3 in
  let s := set s 2 3 (get s 2 1) in
  let s := set s 2 1 t in
  let t := get s 2 2 in
  let s := set s 2 2 (get s 2 0) in
  let s := set s 2 0 t in
  let t := get s 3 3 in
  let s := set s 3 3 (get s 3 0) in
  let s := set s 3 0 (get s 3 1) in
  let s := set s 3 1 (get s 3 2) in
  set s 3 2 t.

(** [gf_mul[x][k]]. *)
Definition gf (x : Z) (k : nat) : Z := at2 gf_mul x (Z.of_nat k).

Definition mix_column (col : column) : column :=
  Col (Z.lxor (Z.lxor (Z.lxor (gf (r0 col) 0) (gf (r1 col) 1)) (r2 col)) (r3 col))
      (Z.lxor (Z.lxor (Z.lxor (r0 col) (gf (r1 col) 0)) (gf (r2 col) 1)) (r3 col))
      (Z.lxor (Z.lxor (Z.lxor (r0 col) (r1 col)) (gf (r2 col) 0)) (gf (r3 col) 1))
      (Z.lxor (Z.lxor (Z.lxor (gf (r0 col) 1) (r1 col)) (r2 col)) (gf (r3 col) 0)).

Definition inv_mix_column (col : column) : column :=
  Col (Z.lxor (Z.lxor (Z.lxor (gf (r0 col) 5) (gf (r1 col) 3)) (gf (r2 col) 4)) (gf (r3 col) 2))
      (Z.lxor (Z.lxor (Z.lxor (gf (r0 col) 2) (gf (r1 col) 5)) (gf (r2 col) 3)) (gf (r3 col) 4))
      (Z.lxor (Z.lxor (Z.lxor (gf (r0 col) 4) (gf (r1 col) 2)) (gf (r2 col) 5)) (gf (r3 col) 3))
      (Z.lxor (Z.lxor (Z.lxor (gf (r0 col) 3) (gf (r1 col) 4)) (gf (r2 col) 2)) (gf (r3 col) 5)).

Definition MixColumns (s : state) : state :=
  St (mix_column (c0 s)) (mix_column (c1 s)) (mix_column (c2 s)) (mix_column (c3 s)).
Definition InvMixColumns (s : state) : state :=
  St (inv_mix_column (c0 s)) (inv_mix_column (c1 s)) (inv_mix_column (c2 s)) (inv_mix_column (c3 s)).

(** [state[r][c] = in[4 * c + r]]. *)
Definition read_column (inp : list Z) (i : nat) : exec column :=
  a ← load inp i; b ← load inp (i + 1); c ← load inp (i + 2); d ← load inp (i + 3);
  Done (Col a b c d).
Definition read_state (inp : list Z) : exec state :=
  a ← read_column inp 0; b ← read_column inp 4; c ← read_column inp 8; d ← read_column inp 12;
  Done (St a b c d).

(** [out[4 * c + r] = state[r][c]]. *)
Definition write_column (c : column) (out : list Z) (i : nat) : exec (list Z) :=
  out ← store out i (r0 c); out ← store out (i + 1) (r1 c);
  out ← store out (i + 2) (r2 c); store out (i + 3) (r3 c).
Definition write_state (s : state) (out : list Z) : exec (list Z) :=
  out ← write_column (c0 s) out 0; out ← write_column (c1 s) out 4;
  out ← write_column (c2 s) out 8; write_column (c3 s) out 12.

(** [SubBytes; ShiftRows; MixColumns; AddRoundKey(state, &key[off])]. *)
Definition enc_round (s : state) (key : list Z) (off : nat) : exec state :=
  let s := SubBytes s in
  let s := ShiftRows s in
  let s := MixColumns s in
  AddRoundKey s key off.

Definition enc_last (s : state) (key : list Z) (off : nat) : exec state :=
  let s := SubBytes s in
  let s := ShiftRows s in
  AddRoundKey s key off.

Definition aes_encrypt (inp out key : list Z) (keysize : Z) : exec (list Z) :=
  s ← read_state inp;
  s ← AddRoundKey s key 0;
  s ← enc_round s key 4;
  s ← enc_round s key 8;
  s ← enc_round s key 12;
  s ← enc_round s key 16;
  s ← enc_round s key 20;
  s ← enc_round s key 24;
  s ← enc_round s key 28;
  s ← enc_round s key 32;
  s ← enc_round s key 36;
  s ← (if negb (keysize =? 128) then
         s ← enc_round s key 40;
         s ← enc_round s key 44;
         if negb (keysize =? 192) then
           s ← enc_round s key 48;
           s ← enc_round s key 52;
           enc_last s key 56
         else enc_last s key 48
       else enc_last s key 40);
  write_state s out.

(** [InvShiftRows; InvSubBytes; AddRoundKey(state, &key[off]); InvMixColumns]. *)
Definition dec_round (s : state) (key : list Z) (off : nat) : exec state :=
  let s := InvShiftRows s in
  let s := InvSubBytes s in
  s ← AddRoundKey s key off;
  Done (InvMixColumns s).

Definition dec_last (s : state) (key : list Z) (off : nat) : exec state :=
  let s := InvShiftRows s in
  let s := InvSubBytes s in
  AddRoundKey s key off.

Definition aes_decrypt (inp out key : list Z) (keysize : Z) : exec (list Z) :=
  s ← read_state inp;
  s ← (if 128 <? keysize then
         s ← (if 192 <? keysize then
                s ← AddRoundKey s key 56;
                s ← dec_round s key 52;
                dec_round s key 48
              else AddRoundKey s key 48);
         s ← dec_round s key 44;
         dec_round s key 40
       else AddRoundKey s key 40);
  s ← dec_round s key 36;
  s ← dec_round s key 32;
  s ← dec_round s key 28;
  s ← dec_round s key 24;
  s ← dec_round s key 20;
  s ← dec_round s key 16;
  s ← dec_round s key 12;
  s ← dec_round s key 8;
  s ← dec_round s key 4;
  s ← dec_last s key 0;
  write_state s out.

(** ** AES as FIPS 197 describes it *)

Module Fips197.

(** The field GF(2^8) modulo x^8 + x^4 + x^3 + x + 1. *)
Definition xtime (x : Z) : Z := if x <? 128 then 2 * x else Z.lxor (2 * x - 256) 0x1b.

Fixpoint gmul_bits (n : nat) (a x : Z) : Z :=
  match n with
  | O => 0
  | S n' => Z.lxor (if Z.odd a then x else 0) (gmul_bits n' (a / 2) (xtime x))
  end.
Definition gmul (a x : Z) : Z := gmul_bits 8 a x.

(** The inverse [x ^ 254] (0 for 0), by squarings. *)
Definition ginv (x : Z) : Z :=
  let x2 := gmul x x in let x4 := gmul x2 x2 in let x8 := gmul x4 x4 in
  let x16 := gmul x8 x8 in let x32 := gmul x16 x16 in let x64 := gmul x32 x32 in
  let x128 := gmul x64 x64 in
  gmul x128 (gmul x64 (gmul x32 (gmul x16 (gmul x8 (gmul x4 x2))))).

(** The substitution: the affine transformation of the inverse. *)
Definition rotl8 (x n : Z) : Z := (x * 2 ^ n) mod 256 + x / 2 ^ (8 - n).
Definition S_box (x : Z) : Z :=
  let b := ginv x in
  Z.lxor (Z.lxor (Z.lxor (Z.lxor (Z.lxor b (rotl8 b 1)) (rotl8 b 2)) (rotl8 b 3)) (rotl8 b 4)) 0x63.

(** A state from its entries by row and column. *)
Definition tab (f : nat -> nat -> Z) : state :=
  let col c := Col (f 0%nat c) (f 1%nat c) (f 2%nat c) (f 3%nat c) in
  St (col 0%nat) (col 1%nat) (col 2%nat) (col 3%nat).

Definition sub_bytes (s : state) : state := tab (fun r c => S_box (get s r c)).
Definition shift_rows (s : state) : state := tab (fun r c => get s r ((c + r) mod 4)).

(** The product with the circulant matrix of first row [m]. *)
Definition mat_mul (m : list Z) (s : state) : state :=
  tab (fun r c =>
    let p k := gmul (nth ((k + 4 - r) mod 4) m 0) (get s k c) in
    Z.lxor (Z.lxor (Z.lxor (p 0%nat) (p 1%nat)) (p 2%nat)) (p 3%nat)).
Definition mix_columns : state -> state := mat_mul [2; 3; 1; 1].

(** Word [4 * round + c] of the key schedule is added to column [c], its most
    significant byte to row 0. *)
Definition add_round_key (w : list Z) (round : nat) (s : state) : state :=
  tab (fun r c => Z.lxor (get s r c)
    (nth (4 * round + c) w 0 / 2 ^ (8 * (3 - Z.of_nat r)) mod 256)).

Definition cipher (Nr : nat) (w : list Z) (s : state) : state :=
  let s := foldl (fun s round => add_round_key w round (mix_columns (shift_rows (sub_bytes s))))
             (add_round_key w 0 s) (seq 1 (Nr - 1)) in
  add_round_key w Nr (shift_rows (sub_bytes s)).

(** Key expansion. *)
Definition sub_word (x : Z) : Z :=
  be32 (S_box (x / 2 ^ 24)) (S_box (x / 2 ^ 16 mod 256)) (S_box (x / 2 ^ 8 mod 256)) (S_box (x mod 256)).
Definition rot_word (x : Z) : Z := (x * 2 ^ 8 + x / 2 ^ 24) mod 2 ^ 32.
Definition rcon (i : nat) : Z := Nat.iter (i - 1) xtime 1 * 2 ^ 24.

Definition next_key_word (Nk : nat) (w : list Z) : Z :=
  let i := length w in
  let temp := nth (i - 1) w 0 in
  let temp := if (i mod Nk =? 0)%nat then Z.lxor (sub_word (rot_word temp)) (rcon (i / Nk))
              else if (6 <? Nk)%nat && (i mod Nk =? 4)%nat then sub_word temp
              else temp in
  Z.lxor (nth (i - Nk) w 0) temp.

Definition key_expansion (Nk Nr : nat) (key : list Z) : list Z :=
  grow (4 * (Nr + 1) - Nk) (next_key_word Nk) (be_word key <$> seq 0 Nk).

(** Blocks of 16 bytes, column by column. *)
Definition state_of (b : list Z) : state := tab (fun r c => nth (4 * c + r) b 0).
Definition bytes_of (s : state) : list Z := (fun i => get s (i mod 4) (i / 4)) <$> seq 0 16.

Definition aes (Nk Nr : nat) (key b : list Z) : list Z :=
  bytes_of (cipher Nr (key_expansion Nk Nr key) (state_of b)).

End Fips197.

(** ** The tables *)

Lemma sbox_table x : is_u8 x -> sbox x = Fips197.S_box x /\ invsbox (sbox x) = x /\ is_u8 (sbox x).
Proof.
  intros Hx.
  pose proof (check_range (fun x => (sbox x =? Fips197.S_box x) && (invsbox (sbox x) =? x)
    && (0 <=? sbox x) && (sbox x <? 256)) 0 256 ltac:(vm_compute; reflexivity) x Hx) as H.
  cbv beta in H. unfold is_u8. lia.
Qed.

Lemma gf_table x : is_u8 x ->
  forall k c, [2; 3; 9; 11; 13; 14] !! k = Some c -> gf x k = Fips197.gmul c x /\ is_u8 (gf x k).
Proof.
  intros Hx k c Hk.
  pose proof (check_range (fun x => forallb (fun k =>
    (gf x k =? Fips197.gmul (nth k [2; 3; 9; 11; 13; 14] 0) x) && (0 <=? gf x k) && (gf x k <? 256))
    (seq 0 6)) 0 256 ltac:(vm_compute; reflexivity) x Hx) as H.
  cbv beta in H. rewrite forallb_forall in H.
  assert (k < 6)%nat as Hk6 by by apply lookup_lt_Some in Hk.
  specialize (H k). rewrite <- list_elem_of_In, elem_of_seq in H.
  rewrite (nth_lookup_Some _ _ _ _ Hk) in H. unfold is_u8. lia.
Qed.

Lemma gf_byte x k : is_u8 x -> (k < 6)%nat -> is_u8 (gf x k).
Proof.
  intros Hx Hk. destruct (lookup_lt_is_Some_2 [2; 3; 9; 11; 13; 14] k Hk) as [c Hc].
  by eapply gf_table.
Qed.

Lemma gmul_1 x : is_u8 x -> Fips197.gmul 1 x = x.
Proof.
  intros Hx.
  pose proof (check_range (fun x => Fips197.gmul 1 x =? x) 0 256 ltac:(vm_compute; reflexivity) x Hx) as H.
  cbv beta in H. lia.
Qed.

(** Each column of the table is linear: it is determined by its values on the
    powers of two. *)
Definition linear_part (k : nat) (a : Z) (l : list Z) : Z :=
  foldr (fun i acc => Z.lxor (if Z.testbit a i then gf (2 ^ i) k else 0) acc) 0 l.

Lemma linear_part_lxor k a b l :
  linear_part k (Z.lxor a b) l = Z.lxor (linear_part k a l) (linear_part k b l).
Proof.
  induction l as [|i l IH]; simpl; [done|]. rewrite IH, Z.lxor_spec.
  set (v := gf (2 ^ i) k). set (p := linear_part k a l). set (q := linear_part k b l).
  apply Z.bits_inj. intros j. rewrite !Z.lxor_spec.
  destruct (Z.testbit a i), (Z.testbit b i); simpl; rewrite ?Z.bits_0; btauto.
Qed.

Lemma gf_linear_part x k : is_u8 x -> (k < 6)%nat -> gf x k = linear_part k x (seqZ 0 8).
Proof.
  intros Hx Hk.
  pose proof (check_range (fun x => forallb (fun k => gf x k =? linear_part k x (seqZ 0 8)) (seq 0 6))
    0 256 ltac:(vm_compute; reflexivity) x Hx) as H.
  cbv beta in H. rewrite forallb_forall in H. specialize (H k).
  rewrite <- list_elem_of_In, elem_of_seq in H. lia.
Qed.

Lemma gf_lxor a b k :
  is_u8 a -> is_u8 b -> (k < 6)%nat -> gf (Z.lxor a b) k = Z.lxor (gf a k) (gf b k).
Proof.
  intros Ha Hb Hk. rewrite !gf_linear_part by auto with words. apply linear_part_lxor.
Qed.

(** The products of the two matrices, entry by entry. *)
Lemma gf_inverse x : is_u8 x ->
  Z.lxor (Z.lxor (Z.lxor (gf (gf x 0) 5) (gf x 3)) (gf x 4)) (gf (gf x 1) 2) = x /\
  Z.lxor (Z.lxor (Z.lxor (gf (gf x 1) 5) (gf (gf x 0) 3)) (gf x 4)) (gf x 2) = 0 /\
  Z.lxor (Z.lxor (Z.lxor (gf x 5) (gf (gf x 1) 3)) (gf (gf x 0) 4)) (gf x 2) = 0 /\
  Z.lxor (Z.lxor (Z.lxor (gf x 5) (gf x 3)) (gf (gf x 1) 4)) (gf (gf x 0) 2) = 0.
Proof.
  intros Hx.
  pose proof (check_range (fun x =>
    (Z.lxor (Z.lxor (Z.lxor (gf (gf x 0) 5) (gf x 3)) (gf x 4)) (gf (gf x 1) 2) =? x) &&
    (Z.lxor (Z.lxor (Z.lxor (gf (gf x 1) 5) (gf (gf x 0) 3)) (gf x 4)) (gf x 2) =? 0) &&
    (Z.lxor (Z.lxor (Z.lxor (gf x 5) (gf (gf x 1) 3)) (gf (gf x 0) 4)) (gf x 2) =? 0) &&
    (Z.lxor (Z.lxor (Z.lxor (gf x 5) (gf x 3)) (gf (gf x 1) 4)) (gf (gf x 0) 2) =? 0))
    0 256 ltac:(vm_compute; reflexivity) x Hx) as H.
  cbv beta in H. lia.
Qed.

(** ** The steps of a round *)

Definition col_ok (c : column) : Prop := bytes [r0 c; r1 c; r2 c; r3 c].
Definition state_ok (s : state) : Prop := col_ok (c0 s) /\ col_ok (c1 s) /\ col_ok (c2 s) /\ col_ok (c3 s).

(** Names the sixteen bytes of a state. *)
Ltac bytes_of_state s :=
  destruct s as [[? ? ? ?] [? ? ? ?] [? ? ? ?] [? ? ? ?]];
  unfold state_ok, col_ok, bytes in *; cbn [c0 c1 c2 c3 r0 r1 r2 r3] in *;
  destruct_and?; inv_Forall.

Lemma col_ok_Col a b c d : is_u8 a -> is_u8 b -> is_u8 c -> is_u8 d -> col_ok (Col a b c d).
Proof. unfold col_ok, bytes. intros. solve_words. Qed.

Lemma sbox_u8 x : is_u8 x -> is_u8 (sbox x).
Proof. intros. by apply sbox_table. Qed.
#[local] Hint Resolve sbox_u8 col_ok_Col : words.
#[local] Hint Extern 1 (is_u8 (gf _ _)) => apply gf_byte; [|lia] : words.

Lemma SubBytes_ok s : state_ok s -> state_ok (SubBytes s).
Proof. intros Hs. bytes_of_state s. split_and!; unfold SubBytes, map_column; simpl; solve_words; by apply sbox_u8. Qed.

Lemma ShiftRows_eq s : ShiftRows s = Fips197.shift_rows s.
Proof. by destruct s as [[? ? ? ?] [? ? ? ?] [? ? ? ?] [? ? ? ?]]. Qed.

Lemma ShiftRows_ok s : state_ok s -> state_ok (ShiftRows s).
Proof. intros Hs. bytes_of_state s. split_and!; simpl; solve_words. Qed.

Lemma SubBytes_eq s : state_ok s -> SubBytes s = Fips197.sub_bytes s.
Proof.
  intros Hs. bytes_of_state s. unfold SubBytes, Fips197.sub_bytes, Fips197.tab, map_column, get.
  cbn [c0 c1 c2 c3 r0 r1 r2 r3 col_get].
  repeat match goal with H : is_u8 ?x |- _ => rewrite (proj1 (sbox_table x H)); clear H end. done.
Qed.

Lemma mix_column_ok c : col_ok c -> col_ok (mix_column c).
Proof.
  destruct c as [x y z w]. unfold col_ok, bytes. cbn [r0 r1 r2 r3]. intros H. inv_Forall.
  unfold mix_column. cbn [r0 r1 r2 r3]. solve_words; auto 8 with words.
Qed.

Lemma MixColumns_ok s : state_ok s -> state_ok (MixColumns s).
Proof. intros (? & ? & ? & ?). split_and!; by apply mix_column_ok. Qed.

Lemma MixColumns_eq s : state_ok s -> MixColumns s = Fips197.mix_columns s.
Proof.
  assert (forall x, is_u8 x -> gf x 0 = Fips197.gmul 2 x) as E2 by (intros; by eapply gf_table).
  assert (forall x, is_u8 x -> gf x 1 = Fips197.gmul 3 x) as E3 by (intros; by eapply gf_table).
  intros Hs. bytes_of_state s.
  unfold MixColumns, mix_column, Fips197.mix_columns, Fips197.mat_mul, Fips197.tab, get.
  cbn [c0 c1 c2 c3 r0 r1 r2 r3 col_get].
  rewrite !E2, !E3 by assumption.
  repeat match goal with |- context [nth (?a mod 4) _ _] =>
    let v := eval vm_compute in (a mod 4)%nat in change (a mod 4)%nat with v end.
  cbn [nth]. by rewrite !gmul_1 by assumption.
Qed.

(** The inverse steps. *)
Lemma InvShiftRows_ShiftRows s : InvShiftRows (ShiftRows s) = s.
Proof. by destruct s as [[? ? ? ?] [? ? ? ?] [? ? ? ?] [? ? ? ?]]. Qed.

Lemma InvSubBytes_SubBytes s : state_ok s -> InvSubBytes (SubBytes s) = s.
Proof.
  intros Hs. bytes_of_state s. unfold InvSubBytes, SubBytes, map_column. cbn [c0 c1 c2 c3 r0 r1 r2 r3].
  repeat match goal with H : is_u8 ?x |- _ =>
    rewrite (proj1 (proj2 (sbox_table x H))); clear H end. done.
Qed.

(** Four sums of four, summed by position. *)
Lemma regroup a0 a1 a2 a3 b0 b1 b2 b3 c0 c1 c2 c3 d0 d1 d2 d3 :
  Z.lxor (Z.lxor (Z.lxor (Z.lxor (Z.lxor (Z.lxor a0 a1) a2) a3)
    (Z.lxor (Z.lxor (Z.lxor b0 b1) b2) b3))
    (Z.lxor (Z.lxor (Z.lxor c0 c1) c2) c3)) (Z.lxor (Z.lxor (Z.lxor d0 d1) d2) d3) =
  Z.lxor (Z.lxor (Z.lxor (Z.lxor (Z.lxor (Z.lxor a0 b0) c0) d0)
    (Z.lxor (Z.lxor (Z.lxor a1 b1) c1) d1))
    (Z.lxor (Z.lxor (Z.lxor a2 b2) c2) d2)) (Z.lxor (Z.lxor (Z.lxor a3 b3) c3) d3).
Proof. apply Z.bits_inj. intros j. rewrite !Z.lxor_spec. btauto. Qed.

(** Four sums rotated alike. *)
Lemma lxor_rot1 a b c d : Z.lxor (Z.lxor (Z.lxor a b) c) d = Z.lxor (Z.lxor (Z.lxor b c) d) a.
Proof. apply Z.bits_inj. intros j. rewrite !Z.lxor_spec. btauto. Qed.

Ltac by_rotation :=
  first [ eassumption | rewrite lxor_rot1; eassumption
        | do 2 rewrite lxor_rot1; eassumption | do 3 rewrite lxor_rot1; eassumption ].

Lemma inv_mix_column_mix c : col_ok c -> inv_mix_column (mix_column c) = c.
Proof.
  destruct c as [x y z w]. unfold col_ok, bytes. cbn [r0 r1 r2 r3]. intros H. inv_Forall.
  unfold inv_mix_column, mix_column. cbn [r0 r1 r2 r3].
  repeat rewrite gf_lxor by (auto 8 with words || lia).
  destruct (gf_inverse x) as (? & ? & ? & ?); [done|]. destruct (gf_inverse y) as (? & ? & ? & ?); [done|].
  destruct (gf_inverse z) as (? & ? & ? & ?); [done|]. destruct (gf_inverse w) as (? & ? & ? & ?); [done|].
  f_equal; rewrite regroup;
    (eapply eq_trans; [apply f_equal2; [apply f_equal2; [apply f_equal2|]|]; by_rotation|]);
    by rewrite ?Z.lxor_0_l, ?Z.lxor_0_r.
Qed.

Lemma InvMixColumns_MixColumns s : state_ok s -> InvMixColumns (MixColumns s) = s.
Proof.
  intros (? & ? & ? & ?). unfold InvMixColumns, MixColumns. cbn [c0 c1 c2 c3].
  rewrite !inv_mix_column_mix by done. by destruct s.
Qed.

(** The key addition as a function, for a key schedule that is long enough. *)
Definition ark (key : list Z) (off : nat) (s : state) : state :=
  St (add_subkey (c0 s) (nth off key 0)) (add_subkey (c1 s) (nth (off + 1) key 0))
     (add_subkey (c2 s) (nth (off + 2) key 0)) (add_subkey (c3 s) (nth (off + 3) key 0)).

Lemma AddRoundKey_ark s key off :
  (off + 3 < length key)%nat -> AddRoundKey s key off = Done (ark key off s).
Proof. intros H. unfold AddRoundKey. rewrite !(load_nth _ _ 0) by lia. done. Qed.

Lemma add_subkey_twice c w : add_subkey (add_subkey c w) w = c.
Proof. destruct c. unfold add_subkey. cbn [r0 r1 r2 r3]. by rewrite !lxor_cancel_r. Qed.

Lemma ark_twice key off s : ark key off (ark key off s) = s.
Proof. destruct s. unfold ark. cbn [c0 c1 c2 c3]. by rewrite !add_subkey_twice. Qed.

Lemma ark_ok key off s : state_ok s -> state_ok (ark key off s).
Proof.
  intros Hs. bytes_of_state s. split_and!; unfold ark, add_subkey; cbn; solve_words; auto with words.
Qed.

Lemma ark_eq key round s : ark key (4 * round) s = Fips197.add_round_key key round s.
Proof.
  destruct s as [[? ? ? ?] [? ? ? ?] [? ? ? ?] [? ? ? ?]].
  unfold ark, add_subkey, Fips197.add_round_key, Fips197.tab, get, u8.
  cbn [c0 c1 c2 c3 r0 r1 r2 r3 col_get]. rewrite !Z.shiftr_div_pow2 by lia.
  rewrite !Nat.add_0_r. simpl (3 - _). rewrite !Z.div_1_r. done.
Qed.

(** ** The two directions of the cipher *)

Definition rounds (keysize : Z) : nat :=
  if keysize =? 128 then 10 else if keysize =? 192 then 12 else 14.

Definition valid_keysize (keysize : Z) : Prop := keysize = 128 \/ keysize = 192 \/ keysize = 256.

Definition full_round (key : list Z) (s : state) (round : nat) : state :=
  ark key (4 * round) (MixColumns (ShiftRows (SubBytes s))).
Definition inv_round (key : list Z) (s : state) (round : nat) : state :=
  InvMixColumns (ark key (4 * round) (InvSubBytes (InvShiftRows s))).

Definition encrypt_state (Nr : nat) (key : list Z) (s : state) : state :=
  ark key (4 * Nr) (ShiftRows (SubBytes
    (foldl (full_round key) (ark key 0 s) (seq 1 (Nr - 1))))).
Definition decrypt_state (Nr : nat) (key : list Z) (s : state) : state :=
  ark key 0 (InvSubBytes (InvShiftRows
    (foldl (inv_round key) (ark key (4 * Nr) s) (reverse (seq 1 (Nr - 1)))))).

Lemma full_round_ok key s round : state_ok s -> state_ok (full_round key s round).
Proof. intros. by apply ark_ok, MixColumns_ok, ShiftRows_ok, SubBytes_ok. Qed.

Lemma full_rounds_ok key l : forall s, state_ok s -> state_ok (foldl (full_round key) s l).
Proof. induction l; simpl; auto using full_round_ok. Qed.

Lemma encrypt_state_ok Nr key s : state_ok s -> state_ok (encrypt_state Nr key s).
Proof. intros. by apply ark_ok, ShiftRows_ok, SubBytes_ok, full_rounds_ok, ark_ok. Qed.

(** Undoing the rounds one by one, in the reverse order. *)
Lemma inv_rounds key l : forall s,
  state_ok s ->
  foldl (inv_round key) (ShiftRows (SubBytes (foldl (full_round key) s l))) (reverse l) =
    ShiftRows (SubBytes s).
Proof.
  induction l as [|round l IH]; intros s Hs; [done|]. simpl.
  rewrite reverse_cons, foldl_app, IH by by apply full_round_ok. simpl.
  unfold inv_round. rewrite InvShiftRows_ShiftRows, InvSubBytes_SubBytes by by apply full_round_ok.
  unfold full_round. rewrite ark_twice. apply InvMixColumns_MixColumns.
  by apply ShiftRows_ok, SubBytes_ok.
Qed.

Lemma decrypt_encrypt_state Nr key s :
  state_ok s -> decrypt_state Nr key (encrypt_state Nr key s) = s.
Proof.
  intros Hs. unfold decrypt_state, encrypt_state. rewrite ark_twice, inv_rounds by by apply ark_ok.
  rewrite InvShiftRows_ShiftRows, InvSubBytes_SubBytes by by apply ark_ok. apply ark_twice.
Qed.

Lemma encrypt_state_Fips Nr key s :
  state_ok s -> encrypt_state Nr key s = Fips197.cipher Nr key s.
Proof.
  intros Hs. unfold encrypt_state, Fips197.cipher. cbv zeta.
  rewrite (ark_eq key 0). set (s0 := Fips197.add_round_key key 0 s).
  assert (state_ok s0) as H0 by (unfold s0; rewrite <- (ark_eq key 0); by apply ark_ok).
  destruct (foldl_ext_inv state_ok (fun _ => True) (full_round key)
    (fun s round => Fips197.add_round_key key round
       (Fips197.mix_columns (Fips197.shift_rows (Fips197.sub_bytes s)))) (seq 1 (Nr - 1)) s0)
    as [-> Hok]; [done|by apply Forall_true| |].
  - intros t round Ht _. assert (full_round key t round =
      Fips197.add_round_key key round (Fips197.mix_columns (Fips197.shift_rows (Fips197.sub_bytes t)))) as E.
    { unfold full_round. rewrite ark_eq, MixColumns_eq by by apply ShiftRows_ok, SubBytes_ok.
      by rewrite ShiftRows_eq, SubBytes_eq. }
    split; [done|]. rewrite <- E. by apply full_round_ok.
  - by rewrite ark_eq, ShiftRows_eq, SubBytes_eq.
Qed.

(** Reading and writing blocks. *)
Definition bytes_of (s : state) : list Z :=
  let col c := [r0 c; r1 c; r2 c; r3 c] in col (c0 s) ++ col (c1 s) ++ col (c2 s) ++ col (c3 s).

Lemma read_state_spec b rest :
  length b = 16%nat -> read_state (b ++ rest) = Done (Fips197.state_of b).
Proof. intros Hb. explode b. reflexivity. Qed.

Lemma write_state_spec s out :
  (16 <= length out)%nat -> write_state s out = Done (bytes_of s ++ drop 16 out).
Proof.
  intros Ho. rewrite <- (take_drop 16 out) at 1.
  assert (length (take 16 out) = 16%nat) as Hl by (rewrite length_take; lia).
  revert Hl. generalize (take 16 out) (drop 16 out). intros b rest Hl. explode b. reflexivity.
Qed.

Lemma bytes_of_state_of b : length b = 16%nat -> bytes_of (Fips197.state_of b) = b.
Proof. intros Hb. explode b. reflexivity. Qed.

Lemma state_of_bytes_of s : Fips197.state_of (bytes_of s) = s.
Proof. by destruct s as [[? ? ? ?] [? ? ? ?] [? ? ? ?] [? ? ? ?]]. Qed.

Lemma bytes_of_Fips s : bytes_of s = Fips197.bytes_of s.
Proof. by destruct s as [[? ? ? ?] [? ? ? ?] [? ? ? ?] [? ? ? ?]]. Qed.

Lemma state_of_ok b : length b = 16%nat -> bytes b -> state_ok (Fips197.state_of b).
Proof.
  intros Hl Hb. explode b. unfold bytes in Hb. inv_Forall.
  split_and!; cbn; unfold col_ok, bytes; cbn; solve_words.
Qed.

Lemma bytes_of_bytes s : state_ok s -> bytes (bytes_of s).
Proof. intros (? & ? & ? & ?). unfold bytes_of. repeat apply Forall_app_2; done. Qed.

Lemma length_bytes_of s : length (bytes_of s) = 16%nat.
Proof. done. Qed.

(** What the modes of operation rely on: the cipher as a function on blocks,
    for a key schedule with enough words. *)
Definition key_ok (key : list Z) (keysize : Z) : Prop :=
  valid_keysize keysize /\ (4 * (rounds keysize + 1) <= length key)%nat.

Definition encrypt_block (key : list Z) (keysize : Z) (b : list Z) : list Z :=
  bytes_of (encrypt_state (rounds keysize) key (Fips197.state_of b)).
Definition decrypt_block (key : list Z) (keysize : Z) (b : list Z) : list Z :=
  bytes_of (decrypt_state (rounds keysize) key (Fips197.state_of b)).

Definition block (b : list Z) : Prop := length b = 16%nat /\ bytes b.

Lemma encrypt_block_block key keysize b : block b -> block (encrypt_block key keysize b).
Proof. intros [Hl Hb]. split; [done|]. by apply bytes_of_bytes, encrypt_state_ok, state_of_ok. Qed.

Lemma decrypt_encrypt_block key keysize b :
  block b -> decrypt_block key keysize (encrypt_block key keysize b) = b.
Proof.
  intros [Hl Hb]. unfold decrypt_block, encrypt_block. rewrite state_of_bytes_of.
  rewrite decrypt_encrypt_state by by apply state_of_ok. by apply bytes_of_state_of.
Qed.

Lemma enc_round_full s key off :
  (off + 3 < length key)%nat ->
  enc_round s key off = Done (ark key off (MixColumns (ShiftRows (SubBytes s)))).
Proof. intros. by apply AddRoundKey_ark. Qed.
Lemma enc_last_ark s key off :
  (off + 3 < length key)%nat -> enc_last s key off = Done (ark key off (ShiftRows (SubBytes s))).
Proof. intros. by apply AddRoundKey_ark. Qed.
Lemma dec_round_inv s key off :
  (off + 3 < length key)%nat ->
  dec_round s key off = Done (InvMixColumns (ark key off (InvSubBytes (InvShiftRows s)))).
Proof. intros. unfold dec_round. cbv zeta. by rewrite AddRoundKey_ark. Qed.
Lemma dec_last_ark s key off :
  (off + 3 < length key)%nat ->
  dec_last s key off = Done (ark key off (InvSubBytes (InvShiftRows s))).
Proof. intros. by apply AddRoundKey_ark. Qed.

(** Runs the calls of a round whose subkey is in the schedule. *)
Ltac run_rounds :=
  repeat first
    [ rewrite AddRoundKey_ark by lia | rewrite enc_round_full by lia | rewrite enc_last_ark by lia
    | rewrite dec_round_inv by lia | rewrite dec_last_ark by lia
    | progress cbn [mbind exec_bind] ].

Lemma aes_encrypt_block b rest out key keysize :
  key_ok key keysize -> length b = 16%nat -> (16 <= length out)%nat ->
  aes_encrypt (b ++ rest) out key keysize = Done (encrypt_block key keysize b ++ drop 16 out).
Proof.
  intros [Hk Hl] Hb Ho. unfold aes_encrypt. rewrite read_state_spec by done. run.
  unfold encrypt_block. destruct Hk as [-> | [-> | ->]]; cbn in Hl; cbn [Z.eqb Pos.eqb negb];
    run_rounds; by apply write_state_spec.
Qed.

Lemma aes_decrypt_block b rest out key keysize :
  key_ok key keysize -> length b = 16%nat -> (16 <= length out)%nat ->
  aes_decrypt (b ++ rest) out key keysize = Done (decrypt_block key keysize b ++ drop 16 out).
Proof.
  intros [Hk Hl] Hb Ho. unfold aes_decrypt. rewrite read_state_spec by done. run.
  unfold decrypt_block. destruct Hk as [-> | [-> | ->]]; cbn in Hl;
    cbn [Z.ltb Z.compare Pos.compare Pos.compare_cont];
    run_rounds; by apply write_state_spec.
Qed.

(** ** The key schedule *)

Lemma KE_ROTWORD_eq x : is_u32 x -> KE_ROTWORD x = Fips197.rot_word x.
Proof. intros Hx. by apply (rotl32_spec x 8). Qed.

(** Two adjacent nibbles are a byte. *)
Lemma at2_nibbles w n m :
  0 <= n -> m = n + 4 -> at2 aes_sbox (Z.land (Z.shiftr w m) 15) (Z.land (Z.shiftr w n) 15) =
            sbox (w / 2 ^ n mod 256).
Proof.
  intros Hn ->. unfold sbox. rewrite <- Z.shiftr_shiftr by lia. rewrite (Z.shiftr_div_pow2 w n) by lia.
  set (y := w / 2 ^ n). change 15 with (Z.ones 4).
  rewrite !Z.land_ones, !Z.shiftr_div_pow2 by lia. change (2 ^ 4) with 16.
  f_equal; lia_div.
Qed.

Lemma sum_bytes b0 b1 b2 b3 :
  is_u8 b0 -> is_u8 b1 -> is_u8 b2 -> is_u8 b3 ->
  u32 (u32 (u32 (b3 + Z.shiftl b2 8) + Z.shiftl b1 16) + Z.shiftl b0 24) = be32 b0 b1 b2 b3.
Proof.
  unfold is_u8. intros. rewrite !Z.shiftl_mul_pow2 by lia. unfold be32.
  rewrite (u32_small (b3 + _)) by (unfold is_u32; lia).
  rewrite (u32_small (_ + b1 * _)) by (unfold is_u32; lia).
  rewrite u32_small by (unfold is_u32; lia). lia.
Qed.

Lemma S_box_u8 x : is_u8 x -> is_u8 (Fips197.S_box x).
Proof. intros Hx. rewrite <- (proj1 (sbox_table x Hx)). by apply sbox_u8. Qed.

Lemma top_byte w : is_u32 w -> w / 2 ^ 24 mod 256 = w / 2 ^ 24.
Proof. unfold is_u32. intros. apply Z.mod_small. lia_div. Qed.

Lemma SubWord_eq w : is_u32 w -> SubWord w = Fips197.sub_word w.
Proof.
  intros Hw. unfold SubWord. cbv zeta.
  rewrite (at2_nibbles w 24 28), (at2_nibbles w 16 20), (at2_nibbles w 8 12) by lia.
  pose proof (at2_nibbles w 0 4 ltac:(lia) eq_refl) as E. rewrite Z.shiftr_0_r, Z.div_1_r in E.
  assert (forall x, is_u8 (x mod 256)) as Hm by apply u8_range.
  rewrite E, sum_bytes by apply sbox_u8, Hm.
  rewrite !(proj1 (sbox_table _ (Hm _))). unfold Fips197.sub_word. by rewrite (top_byte w Hw).
Qed.

Lemma sub_word_range w : is_u32 w -> is_u32 (Fips197.sub_word w).
Proof.
  intros Hw. unfold Fips197.sub_word. rewrite <- (top_byte w Hw).
  apply be32_range; apply S_box_u8, u8_range.
Qed.

Lemma Rcon_rcon i : (1 <= i <= 15)%nat -> load Rcon (i - 1) = Done (Fips197.rcon i).
Proof.
  intros Hi. assert (forallb (fun i => bool_decide (load Rcon (i - 1) = Done (Fips197.rcon i)))
    (seq 1 15) = true) as H by by vm_compute.
  rewrite forallb_forall in H. specialize (H i). rewrite <- list_elem_of_In, elem_of_seq in H.
  apply (bool_decide_unpack _ ). rewrite H by lia. done.
Qed.

Lemma rcon_range i : is_u32 (Fips197.rcon i).
Proof.
  assert (forall n, is_u8 (Nat.iter n Fips197.xtime 1)) as H.
  { induction n as [|n IH]; simpl; [by_compute|].
    pose proof (check_range (fun x => (0 <=? Fips197.xtime x) && (Fips197.xtime x <? 256)) 0 256
      ltac:(vm_compute; reflexivity) _ IH) as C. cbv beta in C. unfold is_u8. lia. }
  specialize (H (i - 1)%nat). unfold Fips197.rcon, is_u8, is_u32 in *. lia.
Qed.

(** The word the second loop appends, with the code's operations. *)
Definition code_key_word (Nk : nat) (w : list Z) : Z :=
  let i := length w in
  let temp := nth (i - 1) w 0 in
  let temp := if (i mod Nk =? 0)%nat then Z.lxor (SubWord (KE_ROTWORD temp)) (Fips197.rcon (i / Nk))
              else if (6 <? Nk)%nat && (i mod Nk =? 4)%nat then SubWord temp
              else temp in
  Z.lxor (nth (i - Nk) w 0) temp.

Lemma schedule_word_code Nk w idx :
  (0 < Nk)%nat -> (Nk <= idx < length w)%nat -> (idx < 15 * Nk)%nat ->
  schedule_word Nk w idx = Done (code_key_word Nk (take idx w)).
Proof.
  intros HNk Hi Hb. unfold schedule_word, code_key_word. rewrite length_take_le by lia.
  rewrite (load_nth w (idx - 1) 0), !nth_take by lia. run.
  rewrite (load_nth w (idx - Nk) 0) by lia.
  destruct (Nat.eqb_spec (idx mod Nk) 0) as [E|E].
  - pose proof (Nat.div_mod_eq idx Nk) as Hd.
    assert ((idx - 1) / Nk = idx / Nk - 1)%nat as ->.
    { symmetry. apply (Nat.div_unique _ _ _ (Nk - 1)%nat); [lia|]. nia. }
    rewrite Rcon_rcon; [done|]. nia.
  - by destruct ((6 <? Nk)%nat && _).
Qed.

Lemma code_key_word_next Nk w :
  (0 < Nk <= length w)%nat -> Forall is_u32 w ->
  code_key_word Nk w = Fips197.next_key_word Nk w /\ is_u32 (Fips197.next_key_word Nk w).
Proof.
  intros HN Hw. unfold code_key_word, Fips197.next_key_word.
  assert (is_u32 (nth (length w - 1) w 0)) as H1 by (apply nth_Forall; [done|lia]).
  assert (is_u32 (nth (length w - Nk) w 0)) as H2 by (apply nth_Forall; [done|lia]).
  assert (is_u32 (Fips197.rot_word (nth (length w - 1) w 0))) as H3 by apply u32_range.
  rewrite KE_ROTWORD_eq, !SubWord_eq by done. split; [done|].
  unfold is_u32. apply lxor_bound; [lia|exact H2|].
  case_match; [|case_match; [by apply sub_word_range|exact H1]].
  apply lxor_bound; [lia|by apply sub_word_range|apply rcon_range].
Qed.

Lemma key_word_be key idx :
  (4 * idx + 3 < length key)%nat -> bytes key -> key_word key idx = Done (be_word key idx) /\
  is_u32 (be_word key idx).
Proof.
  intros Hi Hb. unfold key_word. rewrite !(load_nth key _ 0) by lia. run.
  assert (forall j, (j < length key)%nat -> is_u8 (nth j key 0)) as Hn
    by (intros; by apply nth_Forall).
  rewrite be32_lor by (apply Hn; lia).
  assert (is_u32 (be_word key idx)) as Hr by (apply be32_range; apply Hn; lia).
  by rewrite u32_small.
Qed.

Lemma key_schedule_spec Nk Nr key w :
  (0 < Nk)%nat -> (4 * (Nr + 1) <= 15 * Nk)%nat -> (Nk <= 4 * (Nr + 1) <= length w)%nat ->
  length key = (4 * Nk)%nat -> bytes key ->
  (w ← for_range 0 Nk (fun idx w => x ← key_word key idx; store w idx x) w;
   for_range Nk (4 * (Nr + 1) - Nk) (fun idx w => x ← schedule_word Nk w idx; store w idx x) w) =
  Done (Fips197.key_expansion Nk Nr key ++ drop (4 * (Nr + 1)) w).
Proof.
  intros HN H15 Hw Hk Hb. rewrite (for_range_init (be_word key)); [|lia|intros; apply key_word_be; [lia|done]].
  run. set (n := (4 * (Nr + 1) - Nk)%nat).
  rewrite (for_range_grow (code_key_word Nk)).
  - f_equal. rewrite take_app_length' by (by rewrite length_fmap, length_seq). f_equal.
    + unfold Fips197.key_expansion.
      apply (grow_ext_inv (fun W => (Nk <= length W)%nat /\ Forall is_u32 W)).
      * split; [by rewrite length_fmap, length_seq|]. apply Forall_fmap, Forall_forall.
        intros t Ht. apply elem_of_seq in Ht. apply key_word_be; [lia|done].
      * intros W [HW Hu]. destruct (code_key_word_next Nk W) as [-> Hr]; [lia|done|].
        split; [done|]. split; [rewrite length_app; simpl; lia|].
        apply Forall_app. split; [done|]. solve_words.
    + rewrite drop_app, drop_ge, drop_drop by (rewrite length_fmap, length_seq; lia).
      rewrite length_fmap, length_seq. simpl. f_equal. lia.
  - rewrite length_app, length_fmap, length_seq, length_drop. lia.
  - intros i m Hi Hm. rewrite schedule_word_code by lia. run. by apply store_lt.
Qed.

(** The number of 32-bit words of the key. *)
Definition key_words (keysize : Z) : nat :=
  if keysize =? 128 then 4 else if keysize =? 192 then 6 else 8.

Lemma aes_key_setup_spec key w keysize :
  valid_keysize keysize -> length key = (4 * key_words keysize)%nat -> bytes key ->
  (4 * (rounds keysize + 1) <= length w)%nat ->
  aes_key_setup key w keysize =
    Done (Fips197.key_expansion (key_words keysize) (rounds keysize) key ++
          drop (4 * (rounds keysize + 1)) w).
Proof.
  intros [-> | [-> | ->]] Hl Hb Hw; unfold aes_key_setup;
    cbn [Z.eqb Pos.eqb key_words rounds] in *; apply key_schedule_spec; cbn in *; (done || lia).
Qed.

Lemma length_key_expansion Nk Nr key :
  (Nk <= 4 * (Nr + 1))%nat -> length (Fips197.key_expansion Nk Nr key) = (4 * (Nr + 1))%nat.
Proof. intros H. unfold Fips197.key_expansion. rewrite length_grow, length_fmap, length_seq. lia. Qed.

Lemma key_setup_ok key w keysize :
  valid_keysize keysize ->
  key_ok (Fips197.key_expansion (key_words keysize) (rounds keysize) key ++ w) keysize.
Proof.
  intros Hk. split; [done|]. rewrite length_app, length_key_expansion; [lia|].
  destruct Hk as [-> | [-> | ->]]; cbn; lia.
Qed.

(** Only the first [4 * (Nr + 1)] words of the schedule are used. *)
Lemma ark_app w rest off s :
  (off + 3 < length w)%nat -> ark (w ++ rest) off s = ark w off s.
Proof. intros H. unfold ark. by rewrite !app_nth1 by lia. Qed.

Lemma encrypt_state_app Nr w rest s :
  (0 < Nr)%nat -> length w = (4 * (Nr + 1))%nat ->
  encrypt_state Nr (w ++ rest) s = encrypt_state Nr w s.
Proof.
  intros HN Hw. unfold encrypt_state. rewrite !ark_app by lia. do 3 f_equal.
  apply (foldl_ext_inv (fun _ => True) (fun r => (r < Nr)%nat)); [done| |].
  - apply Forall_forall. intros r Hr. apply elem_of_seq in Hr. lia.
  - intros t r _ Hr. split; [|done]. unfold full_round. rewrite ark_app by lia. done.
Qed.

Lemma encrypt_block_Fips key w keysize b :
  valid_keysize keysize -> block b ->
  encrypt_block (Fips197.key_expansion (key_words keysize) (rounds keysize) key ++ w) keysize b =
    Fips197.aes (key_words keysize) (rounds keysize) key b.
Proof.
  intros Hk [Hlb Hbb]. unfold encrypt_block, Fips197.aes.
  rewrite encrypt_state_app, encrypt_state_Fips, bytes_of_Fips; [done|by apply state_of_ok|..].
  - destruct Hk as [-> | [-> | ->]]; cbn; lia.
  - apply length_key_expansion. destruct Hk as [-> | [-> | ->]]; cbn; lia.
Qed.

(** C5: For every key of 128, 192 or 256 bits, [aes_key_setup] followed by
    [aes_encrypt] runs without a memory error and writes the FIPS 197
    encryption of the 16-byte block (field arithmetic, key expansion and
    rounds as the standard defines them) to the output. *)
Theorem aes_encrypt_correct key w keysize b out :
  valid_keysize keysize -> length key = (4 * key_words keysize)%nat -> bytes key ->
  (4 * (rounds keysize + 1) <= length w)%nat -> block b -> (16 <= length out)%nat ->
  (w' ← aes_key_setup key w keysize; aes_encrypt b out w' keysize) =
    Done (Fips197.aes (key_words keysize) (rounds keysize) key b ++ drop 16 out).
Proof.
  intros Hk Hl Hb Hw Hbl Ho. rewrite aes_key_setup_spec by done. run.
  rewrite <- (app_nil_r b) at 1. pose proof (key_setup_ok key) as Hok.
  rewrite aes_encrypt_block by (auto || apply Hbl). by rewrite encrypt_block_Fips.
Qed.

Lemma aes_encrypt_correct_witness :
  (w' ← aes_key_setup (seqZ 0 16) (replicate 60 0) 128; aes_encrypt (seqZ 0 16) (replicate 17 9) w' 128) =
    Done (Fips197.aes 4 10 (seqZ 0 16) (seqZ 0 16) ++ [9]).
Proof.
  apply (aes_encrypt_correct (seqZ 0 16) (replicate 60 0) 128 (seqZ 0 16) (replicate 17 9));
    [by left|done|by_compute|cbn; lia|split; [done|by_compute]|simpl; lia].
Defined.

(** C6: [aes_decrypt] undoes [aes_encrypt] for every key schedule and every
    one of the three key sizes. *)
Theorem aes_decrypt_encrypt key keysize b out out2 :
  key_ok key keysize -> block b -> (16 <= length out)%nat -> (16 <= length out2)%nat ->
  (c ← aes_encrypt b out key keysize; aes_decrypt c out2 key keysize) = Done (b ++ drop 16 out2).
Proof.
  intros Hk Hb Ho Ho2. pose proof Hb as [Hl _].
  rewrite <- (app_nil_r b) at 1. rewrite aes_encrypt_block by done. run.
  rewrite aes_decrypt_block by (done || apply encrypt_block_block, Hb).
  by rewrite decrypt_encrypt_block.
Qed.

Lemma aes_decrypt_encrypt_witness :
  (c ← aes_encrypt (seqZ 7 16) (replicate 16 0) (seqZ 0 60) 256;
   aes_decrypt c (replicate 16 0) (seqZ 0 60) 256) = Done (seqZ 7 16).
Proof.
  apply (aes_decrypt_encrypt (seqZ 0 60) 256 (seqZ 7 16) (replicate 16 0) (replicate 16 0));
    [split; [by right; right|by_compute]|split; [done|by_compute]|simpl; lia|simpl; lia].
Defined.

(** A vector of aes_test.c (256-bit key). *)
Definition test_key : list Z :=
  [0x60; 0x3D; 0xEB; 0x10; 0x15; 0xCA; 0x71; 0xBE; 0x2B; 0x73; 0xAE; 0xF0; 0x85; 0x7D; 0x77; 0x81;
   0x1F; 0x35; 0x2C; 0x07; 0x3B; 0x61; 0x08; 0xD7; 0x2D; 0x98; 0x10; 0xA3; 0x09; 0x14; 0xDF; 0xF4].
Definition test_block : list Z :=
  [0x6B; 0xC1; 0xBE; 0xE2; 0x2E; 0x40; 0x9F; 0x96; 0xE9; 0x3D; 0x7E; 0x11; 0x73; 0x93; 0x17; 0x2A].

Example aes_256_vector :
  (w ← aes_key_setup test_key (replicate 60 0) 256; aes_encrypt test_block (replicate 16 0) w 256) =
  Done [0xF3; 0xEE; 0xD1; 0xBD; 0xB5; 0xD2; 0xA0; 0x3C; 0x06; 0x4B; 0x5A; 0x7E; 0x3D; 0xB1; 0x81; 0xF8].
Proof. vm_compute. reflexivity. Qed.

End Aes.
