(* ===== verification/AesModes.v ===== *)
(** * Modes of operation of AES (src/crypto-algorithms_learn/aes.c)

    CBC encryption, decryption and MAC, the counter increment and CTR
    encryption, with the abstract modes they implement on the block cipher
    of [Aes]. *)

From S2P Require Import Prelude Aes.
Import Aes.

Module AesModes.

(** ** The code *)

(** [xor_buf(in, &out[off], len)]. *)
Definition xor_buf (inp out : list Z) (off len : nat) : exec (list Z) :=
  for_range 0 len (fun idx out =>
    o ← load out (off + idx); i ← load inp idx; store out (off + idx) (Z.lxor o i)) out.

(** The local buffers are written before they are read, except [buf_out] of
    [aes_encrypt_cbc_mac] on an empty input: its contents are an argument. *)
Definition scratch : list Z := replicate 16 0.

(** Returns the result and the output buffer. *)
Definition aes_encrypt_cbc (inp : list Z) (in_len : nat) (out key : list Z) (keysize : Z) (iv : list Z)
    : exec (bool * list Z) :=
  if negb (in_len mod 16 =? 0)%nat then Done (false, out) else
  let blocks := (in_len / 16)%nat in
  iv_buf ← memcpy scratch 0 iv 0 16;
  s ← for_range 0 blocks (fun idx (s : list Z * list Z) =>
        let '(iv_buf, out) := s in
        buf_in ← memcpy scratch 0 inp (idx * 16) 16;
        buf_in ← xor_buf iv_buf buf_in 0 16;
        buf_out ← aes_encrypt buf_in scratch key keysize;
        out ← memcpy out (idx * 16) buf_out 0 16;
        iv_buf ← memcpy iv_buf 0 buf_out 0 16;
        Done (iv_buf, out)) (iv_buf, out);
  Done (true, s.2).

Definition aes_encrypt_cbc_mac (inp : list Z) (in_len : nat) (out key : list Z) (keysize : Z)
    (iv uninit : list Z) : exec (bool * list Z) :=
  if negb (in_len mod 16 =? 0)%nat then Done (false, out) else
  let blocks := (in_len / 16)%nat in
  iv_buf ← memcpy scratch 0 iv 0 16;
  s ← for_range 0 blocks (fun idx (s : list Z * list Z) =>
        let '(iv_buf, buf_out) := s in
        buf_in ← memcpy scratch 0 inp (idx * 16) 16;
        buf_in ← xor_buf iv_buf buf_in 0 16;
        buf_out ← aes_encrypt buf_in buf_out key keysize;
        iv_buf ← memcpy iv_buf 0 buf_out 0 16;
        Done (iv_buf, buf_out)) (iv_buf, uninit);
  out ← memcpy out 0 s.2 0 16;
  Done (true, out).

Definition aes_decrypt_cbc (inp : list Z) (in_len : nat) (out key : list Z) (keysize : Z) (iv : list Z)
    : exec (bool * list Z) :=
  if negb (in_len mod 16 =? 0)%nat then Done (false, out) else
  let blocks := (in_len / 16)%nat in
  iv_buf ← memcpy scratch 0 iv 0 16;
  s ← for_range 0 blocks (fun idx (s : list Z * list Z) =>
        let '(iv_buf, out) := s in
        buf_in ← memcpy scratch 0 inp (idx * 16) 16;
        buf_out ← aes_decrypt buf_in scratch key keysize;
        buf_out ← xor_buf iv_buf buf_out 0 16;
        out ← memcpy out (idx * 16) buf_out 0 16;
        iv_buf ← memcpy iv_buf 0 buf_in 0 16;
        Done (iv_buf, out)) (iv_buf, out);
  Done (true, s.2).

(** The loop of [increment_iv] from index [idx] down to [lim]; it runs at most
    [idx - lim + 1] times. *)
Fixpoint increment_from (fuel : nat) (iv : list Z) (idx lim : Z) : exec (list Z) :=
  if idx >=? lim then
    match fuel with
    | O => NoFuel
    | S fuel' =>
        v ← loadz iv idx;
        iv ← storez iv idx (u8 (v + 1));
        v ← loadz iv idx;
        if negb (v =? 0) || (idx =? lim) then Done iv
        else increment_from fuel' iv (idx - 1) lim
    end
  else Done iv.

Definition increment_iv (iv : list Z) (counter_size : Z) : exec (list Z) :=
  increment_from (Z.to_nat counter_size) iv 15 (16 - counter_size).

(** [inp] is [None] when the call is in place ([in == out]). *)
Definition aes_encrypt_ctr (inp : option (list Z)) (in_len : nat) (out key : list Z) (keysize : Z)
    (iv : list Z) : exec (list Z) :=
  out ← match inp with Some i => memcpy out 0 i 0 in_len | None => Done out end;
  iv_buf ← memcpy scratch 0 iv 0 16;
  s ← (if (16 <? in_len)%nat then
         let last_block_length := (in_len - 16)%nat in
         while in_len (fun s : nat * list Z * list Z => (s.1.1 <? last_block_length)%nat)
           (fun s =>
              let '(idx, iv_buf, out) := s in
              out_buf ← aes_encrypt iv_buf scratch key keysize;
              out ← xor_buf out_buf out idx 16;
              iv_buf ← increment_iv iv_buf 16;
              Done ((idx + 16)%nat, iv_buf, out)) (0%nat, iv_buf, out)
       else Done (0%nat, iv_buf, out));
  let '(idx, iv_buf, out) := s in
  out_buf ← aes_encrypt iv_buf scratch key keysize;
  xor_buf out_buf out idx (in_len - idx).

Definition aes_decrypt_ctr (inp : option (list Z)) (in_len : nat) (out key : list Z) (keysize : Z)
    (iv : list Z) : exec (list Z) :=
  aes_encrypt_ctr inp in_len out key keysize iv.

(** ** The modes on the block cipher *)

Section modes.
Context (key : list Z) (keysize : Z) (Hkey : key_ok key keysize).
Let E := encrypt_block key keysize.
Let D := decrypt_block key keysize.

Definition xor (a b : list Z) : list Z := zip_with Z.lxor a b.

(** A mode that treats the blocks in turn: [f iv b] is the output block and
    the next chaining value. *)
Fixpoint chain (f : list Z -> list Z -> list Z * list Z) (iv : list Z) (bs : list (list Z))
    : list (list Z) :=
  match bs with
  | [] => []
  | b :: bs' => let r := f iv b in r.1 :: chain f r.2 bs'
  end.

(** CBC: each block is added to the ciphertext block before it. *)
Definition cbc_enc (iv b : list Z) : list Z * list Z := (E (xor b iv), E (xor b iv)).
Definition cbc_dec (iv b : list Z) : list Z * list Z := (xor (D b) iv, b).

(** The CBC-MAC is the last block. *)
Definition cbc_mac (iv : list Z) (bs : list (list Z)) : list Z :=
  foldl (fun iv b => E (xor b iv)) iv bs.

(** CTR: the text is added to the encryptions of the successive counters. *)
Definition next_counter (iv : list Z) : list Z := be_bytes 16 ((be_value iv + 1) mod 256 ^ 16).
Fixpoint keystream (n : nat) (iv : list Z) : list Z :=
  match n with O => [] | S n' => E iv ++ keystream n' (next_counter iv) end.
Definition ctr (iv text : list Z) : list Z :=
  xor text (keystream (length text / 16 + 1) iv).

Lemma xor_block a b : block a -> block b -> block (xor a b).
Proof.
  intros [La Ba] [Lb Bb]. split; [unfold xor; rewrite length_zip_with; lia|by apply bytes_zip_lxor].
Qed.

(** ** The code computes them *)

Lemma xor_buf_from inp post (mid : list Z) : forall k off pre,
  (off + k)%nat = length pre -> (k + length mid <= length inp)%nat ->
  for_range k (length mid) (fun idx out =>
    o ← load out (off + idx); i ← load inp idx; store out (off + idx) (Z.lxor o i))
    (pre ++ mid ++ post) = Done (pre ++ xor mid (drop k inp) ++ post).
Proof.
  induction mid as [|x mid IH]; intros k off pre Hp Hi; [done|].
  cbn [length] in *. rewrite for_range_S, Hp. cbn [app].
  rewrite load_middle. run. destruct (load_lt inp k ltac:(lia)) as (i & Hk & ->). run.
  rewrite store_middle. run.
  rewrite (drop_S inp i k Hk). unfold xor. cbn [zip_with app].
  specialize (IH (S k) off (pre ++ [Z.lxor x i])). rewrite length_app, <- !app_assoc in IH.
  cbn [app length] in IH. apply IH; lia.
Qed.

Lemma xor_buf_spec inp pre mid post :
  (length mid <= length inp)%nat ->
  xor_buf inp (pre ++ mid ++ post) (length pre) (length mid) = Done (pre ++ xor mid inp ++ post).
Proof. intros H. unfold xor_buf. rewrite xor_buf_from by lia. by rewrite drop_0. Qed.

Lemma xor_buf_block inp b :
  block inp -> block b -> xor_buf inp b 0 16 = Done (xor b inp).
Proof.
  intros [Hi _] [Hb _]. pose proof (xor_buf_spec inp [] b [] ltac:(lia)) as S.
  rewrite Hb in S. cbn [app length] in S. by rewrite !app_nil_r in S.
Qed.

Lemma memcpy_scratch (dst inp : list Z) j :
  length dst = 16%nat -> (j + 16 <= length inp)%nat ->
  memcpy dst 0 inp j 16 = Done (take 16 (drop j inp)).
Proof.
  intros Hd H. rewrite memcpy_in by lia. by rewrite (drop_ge dst), app_nil_r by lia.
Qed.

Lemma memcpy_whole (dst b : list Z) : length dst = 16%nat -> length b = 16%nat -> memcpy dst 0 b 0 16 = Done b.
Proof. intros Hd Hb. rewrite memcpy_scratch by lia. by rewrite drop_0, take_ge by lia. Qed.

Lemma memcpy_out (opre old opost b : list Z) :
  length old = 16%nat -> length b = 16%nat ->
  memcpy (opre ++ old ++ opost) (length opre) b 0 16 = Done (opre ++ b ++ opost).
Proof.
  intros Ho Hb. rewrite memcpy_in by (rewrite ?length_app; lia).
  rewrite take_app_length, drop_0, (take_ge b) by lia.
  by rewrite (app_assoc opre old), drop_app_length' by (rewrite length_app; lia).
Qed.

Lemma encrypt_scratch b out :
  block b -> length out = 16%nat -> aes_encrypt b out key keysize = Done (E b).
Proof.
  intros [Hb _] Ho. pose proof (aes_encrypt_block b [] out key keysize Hkey Hb ltac:(lia)) as H.
  by rewrite app_nil_r, drop_ge, app_nil_r in H by lia.
Qed.

Lemma decrypt_scratch b out :
  block b -> length out = 16%nat -> aes_decrypt b out key keysize = Done (D b).
Proof.
  intros [Hb _] Ho. pose proof (aes_decrypt_block b [] out key keysize Hkey Hb ltac:(lia)) as H.
  by rewrite app_nil_r, drop_ge, app_nil_r in H by lia.
Qed.

Lemma block_chunk inp j : bytes inp -> (j + 16 <= length inp)%nat -> block (take 16 (drop j inp)).
Proof.
  intros Hb Hj. split; [rewrite length_take, length_drop; lia|by apply Forall_take, Forall_drop].
Qed.

Lemma whole_mod n : (16 * n mod 16 = 0)%nat.
Proof. by rewrite Nat.mul_comm, Nat.Div0.mod_mul. Qed.
Lemma whole_div n : (16 * n / 16 = n)%nat.
Proof. by rewrite Nat.mul_comm, Nat.div_mul. Qed.

(** The loops of the CBC functions. *)
Lemma chain_loop f inp body n :
  (16 * n <= length inp)%nat -> bytes inp ->
  (forall i iv opre old opost, (i < n)%nat -> block iv -> length opre = (i * 16)%nat ->
     length old = 16%nat ->
     let r := f iv (take 16 (drop (i * 16) inp)) in
     body i (iv, opre ++ old ++ opost) = Done (r.2, opre ++ r.1 ++ opost) /\
     block r.2 /\ length r.1 = 16%nat) ->
  forall k i iv opre out, (i + k = n)%nat -> block iv -> length opre = (i * 16)%nat ->
  (16 * k <= length out)%nat ->
  exists iv', for_range i k body (iv, opre ++ out) =
    Done (iv', opre ++ concat (chain f iv (chunks_n 16 k (drop (i * 16) inp))) ++ drop (16 * k) out).
Proof.
  intros Hn Hb Hbody. induction k as [|k IH]; intros i iv opre out Hi Hiv Ho Hout.
  - exists iv. done.
  - rewrite for_range_S, <- (take_drop 16 out).
    destruct (Hbody i iv opre (take 16 out) (drop 16 out)) as (-> & Hiv' & Hl);
      [lia|done|done|rewrite length_take; lia|]. run. cbn [chunks_n chain concat].
    destruct (IH (S i) (f iv (take 16 (drop (i * 16) inp))).2
      (opre ++ (f iv (take 16 (drop (i * 16) inp))).1) (drop 16 out)) as (iv' & Eq);
      [lia|done|rewrite length_app; lia|rewrite length_drop; lia|].
    exists iv'. rewrite <- !app_assoc in *. rewrite Eq, !drop_drop.
    replace (i * 16 + 16)%nat with (S i * 16)%nat by lia.
    rewrite take_drop. by replace (16 * S k)%nat with (16 + 16 * k)%nat by lia.
Qed.

Lemma aes_encrypt_cbc_spec inp out iv n :
  length inp = (16 * n)%nat -> bytes inp -> block iv -> (16 * n <= length out)%nat ->
  aes_encrypt_cbc inp (16 * n) out key keysize iv =
    Done (true, concat (chain cbc_enc iv (chunks_n 16 n inp)) ++ drop (16 * n) out).
Proof.
  intros Hl Hb Hiv Ho. unfold aes_encrypt_cbc.
  rewrite whole_mod, whole_div. cbn [negb Nat.eqb].
  rewrite memcpy_whole by (done || apply Hiv). run.
  destruct (chain_loop cbc_enc inp
    (fun idx (s : list Z * list Z) =>
        let '(iv_buf, out) := s in
        buf_in ← memcpy scratch 0 inp (idx * 16) 16;
        buf_in ← xor_buf iv_buf buf_in 0 16;
        buf_out ← aes_encrypt buf_in scratch key keysize;
        out ← memcpy out (idx * 16) buf_out 0 16;
        iv_buf ← memcpy iv_buf 0 buf_out 0 16;
        Done (iv_buf, out)) n ltac:(lia) Hb) with (k := n) (i := 0%nat) (iv := iv)
        (opre := @nil Z) (out := out) as (iv' & Eq); [|done..|].
  - intros i v opre old opost Hi Hv Hop Hold.
    rewrite memcpy_scratch by (done || lia). run.
    assert (block (take 16 (drop (i * 16) inp))) as Hblk by (apply block_chunk; [done|lia]).
    rewrite xor_buf_block by done. run.
    rewrite encrypt_scratch by (done || by apply xor_block). run.
    assert (block (E (xor (take 16 (drop (i * 16) inp)) v))) as [Hc1 Hc2]
      by by apply encrypt_block_block, xor_block.
    rewrite <- Hop, memcpy_out by done. run. rewrite memcpy_whole by (done || apply Hv). run.
    rewrite Hop. split; [done|split; [exact (conj Hc1 Hc2)|exact Hc1]].
  - cbn [app] in Eq. rewrite Eq. run. done.
Qed.

Lemma aes_decrypt_cbc_spec inp out iv n :
  length inp = (16 * n)%nat -> bytes inp -> block iv -> (16 * n <= length out)%nat ->
  aes_decrypt_cbc inp (16 * n) out key keysize iv =
    Done (true, concat (chain cbc_dec iv (chunks_n 16 n inp)) ++ drop (16 * n) out).
Proof.
  intros Hl Hb Hiv Ho. unfold aes_decrypt_cbc. rewrite whole_mod, whole_div. cbn [negb Nat.eqb].
  rewrite memcpy_whole by (done || apply Hiv). run.
  destruct (chain_loop cbc_dec inp
    (fun idx (s : list Z * list Z) =>
        let '(iv_buf, out) := s in
        buf_in ← memcpy scratch 0 inp (idx * 16) 16;
        buf_out ← aes_decrypt buf_in scratch key keysize;
        buf_out ← xor_buf iv_buf buf_out 0 16;
        out ← memcpy out (idx * 16) buf_out 0 16;
        iv_buf ← memcpy iv_buf 0 buf_in 0 16;
        Done (iv_buf, out)) n ltac:(lia) Hb) with (k := n) (i := 0%nat) (iv := iv)
        (opre := @nil Z) (out := out) as (iv' & Eq); [|done..|].
  - intros i v opre old opost Hi Hv Hop Hold.
    rewrite memcpy_scratch by (done || lia). run.
    set (b := take 16 (drop (i * 16) inp)).
    assert (block b) as Hblk by (apply block_chunk; [done|lia]).
    rewrite decrypt_scratch by done. run.
    assert (length (xor (D b) v) = 16%nat) as Hx
      by (unfold xor; rewrite length_zip_with; destruct Hv as [-> _]; done).
    pose proof (xor_buf_spec v [] (D b) [] ltac:(destruct Hv as [-> _]; done)) as X.
    cbn [app length] in X. rewrite !app_nil_r in X.
    change (length (D b)) with 16%nat in X. rewrite X. run.
    rewrite <- Hop, memcpy_out by done. run. rewrite memcpy_whole by (apply Hv || apply Hblk). run.
    done.
  - cbn [app] in Eq. rewrite Eq. run. done.
Qed.

(** Decrypting the chained blocks. *)
Lemma cbc_dec_enc bs : forall iv,
  block iv -> Forall block bs -> chain cbc_dec iv (chain cbc_enc iv bs) = bs.
Proof.
  induction bs as [|b bs IH]; intros iv Hiv Hbs; [done|]. inv_Forall. cbn [chain cbc_enc cbc_dec fst snd].
  unfold D at 1, E at 1. rewrite decrypt_encrypt_block by by apply xor_block.
  unfold xor at 1 2. rewrite zip_lxor_cancel by (destruct Hiv as [-> _]; destruct H as [-> _]; done).
  f_equal. apply IH; [|done]. by apply encrypt_block_block, xor_block.
Qed.

Lemma chain_enc_blocks bs : forall iv,
  block iv -> Forall block bs -> Forall block (chain cbc_enc iv bs).
Proof.
  induction bs as [|b bs IH]; intros iv Hiv Hbs; [constructor|]. inv_Forall.
  cbn [chain cbc_enc fst snd]. assert (block (E (xor b iv))) by by apply encrypt_block_block, xor_block.
  constructor; [done|by apply IH].
Qed.

Lemma length_chain f bs : forall iv, length (chain f iv bs) = length bs.
Proof. induction bs as [|b bs IH]; intros iv; simpl; [done|]. by rewrite IH. Qed.

Lemma blocks_of_chunks n : forall inp,
  length inp = (16 * n)%nat -> bytes inp -> Forall block (chunks_n 16 n inp).
Proof.
  induction n as [|n IH]; intros inp Hl Hb; [constructor|]. cbn [chunks_n]. constructor.
  - split; [rewrite length_take; lia|by apply Forall_take].
  - apply IH; [rewrite length_drop; lia|by apply Forall_drop].
Qed.

Lemma length_chunks_n {A} (w n : nat) : forall l : list A, length (chunks_n w n l) = n.
Proof. induction n as [|n IH]; intros l; simpl; [done|]. by rewrite IH. Qed.

Lemma cbc_roundtrip inp out out2 iv n :
  length inp = (16 * n)%nat -> bytes inp -> block iv ->
  (16 * n <= length out)%nat -> (16 * n <= length out2)%nat ->
  (r ← aes_encrypt_cbc inp (16 * n) out key keysize iv;
   aes_decrypt_cbc (take (16 * n) r.2) (16 * n) out2 key keysize iv) =
  Done (true, inp ++ drop (16 * n) out2).
Proof.
  intros Hl Hb Hiv Ho Ho2. rewrite aes_encrypt_cbc_spec by done. run. cbn [snd].
  set (bs := chunks_n 16 n inp). pose proof (blocks_of_chunks n inp Hl Hb) as Hbs. fold bs in Hbs.
  pose proof (chain_enc_blocks bs iv Hiv Hbs) as Hc.
  assert (length (chain cbc_enc iv bs) = n) as Hlc
    by (rewrite length_chain; apply length_chunks_n).
  assert (Forall (fun b => length b = 16%nat) (chain cbc_enc iv bs)) as Hc16
    by (eapply Forall_impl; [done|by intros ? []]).
  assert (length (concat (chain cbc_enc iv bs)) = (16 * n)%nat) as Hcl
    by (rewrite (length_concat_chunks 16) by done; by rewrite Hlc).
  rewrite take_app_length' by done.
  rewrite aes_decrypt_cbc_spec; [|done| |done|done].
  - pose proof (chunks_n_concat 16 (chain cbc_enc iv bs) [] Hc16 0) as Eq.
    rewrite Nat.add_0_r, !app_nil_r, Hlc in Eq. rewrite Eq, cbc_dec_enc by done.
    destruct (concat_chunks 16 inp n Hl) as [Ec _]. fold bs in Ec. by rewrite Ec.
  - apply Forall_concat. eapply Forall_impl; [exact Hc|]. intros ? [_ Hx]. exact Hx.
Qed.

(** The loop of the MAC keeps only the chaining value. *)
Lemma mac_loop inp n :
  (16 * n <= length inp)%nat -> bytes inp ->
  forall k i iv buf, (i + k = n)%nat -> block iv -> length buf = 16%nat -> (buf = iv \/ i = 0%nat) ->
  for_range i k (fun idx (s : list Z * list Z) =>
        let '(iv_buf, buf_out) := s in
        buf_in ← memcpy scratch 0 inp (idx * 16) 16;
        buf_in ← xor_buf iv_buf buf_in 0 16;
        buf_out ← aes_encrypt buf_in buf_out key keysize;
        iv_buf ← memcpy iv_buf 0 buf_out 0 16;
        Done (iv_buf, buf_out)) (iv, buf) =
  let v := cbc_mac iv (chunks_n 16 k (drop (i * 16) inp)) in
  Done (v, match k with O => buf | _ => v end).
Proof.
  intros Hn Hb. induction k as [|k IH]; intros i iv buf Hi Hiv Hbuf Hor; [done|].
  rewrite for_range_S, memcpy_scratch by (done || lia). run. cbn [chunks_n cbc_mac foldl].
  set (b := take 16 (drop (i * 16) inp)).
  assert (block b) as Hblk by (apply block_chunk; [done|lia]).
  rewrite xor_buf_block by done. run. rewrite encrypt_scratch by (done || by apply xor_block). run.
  assert (block (E (xor b iv))) as Hc by by apply encrypt_block_block, xor_block.
  rewrite memcpy_whole by (apply Hiv || apply Hc). run.
  rewrite IH by (lia || done || apply Hc || by left).
  rewrite drop_drop. replace (i * 16 + 16)%nat with (S i * 16)%nat by lia.
  destruct k; [|done]. done.
Qed.

Lemma aes_encrypt_cbc_mac_spec inp out iv uninit n :
  (16 * n <= length inp)%nat -> (0 < n)%nat -> bytes inp -> block iv -> length uninit = 16%nat ->
  (16 <= length out)%nat ->
  aes_encrypt_cbc_mac inp (16 * n) out key keysize iv uninit =
    Done (true, cbc_mac iv (chunks_n 16 n inp) ++ drop 16 out).
Proof.
  intros Hl Hn Hb Hiv Hu Ho. unfold aes_encrypt_cbc_mac. rewrite whole_mod, whole_div. cbn [negb Nat.eqb].
  rewrite memcpy_whole by (done || apply Hiv). run.
  rewrite (mac_loop inp n) by (done || lia || by right). run. cbn [snd].
  destruct n as [|n]; [lia|].
  assert (forall bs iv, length iv = 16%nat -> length (cbc_mac iv bs) = 16%nat) as Hlm.
  { induction bs as [|b bs IH]; intros v Hv; [done|]. by apply IH. }
  rewrite memcpy_in by (rewrite ?Hlm by apply Hiv; lia). run.
  by rewrite drop_0, take_0, take_ge by (rewrite Hlm by apply Hiv; lia).
Qed.

(** ** The counter *)

(** The loop increments the big-endian number in the bytes [lo]. *)
Lemma increment_from_spec hi (lo : list Z) : forall tail fuel,
  bytes lo -> lo <> [] -> (length lo <= fuel)%nat ->
  increment_from fuel (hi ++ lo ++ tail) (Z.of_nat (length hi + length lo) - 1) (Z.of_nat (length hi)) =
  Done (hi ++ be_bytes (length lo) ((be_value lo + 1) mod 256 ^ Z.of_nat (length lo)) ++ tail).
Proof.
  induction lo as [|x lo IH] using rev_ind; intros tail fuel Hb Hne Hf; [done|].
  apply Forall_app in Hb as [Hb Hx]. apply Forall_cons in Hx as [Hx _].
  rewrite length_app in *. cbn [length] in *. destruct fuel as [|fuel]; [lia|]. cbn [increment_from].
  rewrite (proj2 (Z.geb_le _ _)) by lia.
  replace (Z.of_nat (length hi + (length lo + 1)) - 1) with (Z.of_nat (length (hi ++ lo)))
    by (rewrite length_app; lia).
  rewrite loadz_nat, <- !app_assoc. rewrite (app_assoc hi lo). cbn [app].
  rewrite load_middle. run. rewrite storez_nat, store_middle. run. rewrite loadz_nat, load_middle. run.
  rewrite Nat.add_1_r. cbn [be_bytes]. rewrite be_value_snoc, Nat2Z.inj_succ, Z.pow_succ_r by lia.
  assert (0 < 256 ^ Z.of_nat (length lo)) as Hp by (apply Z.pow_pos_nonneg; lia).
  unfold is_u8 in Hx. destruct (decide (x = 255)) as [->|Hx'].
  - change (u8 (255 + 1)) with 0. cbn [Z.eqb negb orb].
    replace (be_value lo * 256 + 255 + 1) with (256 * (be_value lo + 1)) by lia.
    rewrite Z.mul_mod_distr_l by lia. rewrite Z.mul_comm, Z.div_mul, Z.mod_mul by lia.
    destruct lo as [|y lo].
    + rewrite app_nil_r, Z.eqb_refl. done.
    + rewrite (proj2 (Z.eqb_neq _ _)) by (rewrite length_app; simpl; lia).
      replace (Z.of_nat (length (hi ++ y :: lo)) - 1) with
        (Z.of_nat (length hi + length (y :: lo)) - 1) by (rewrite length_app; lia).
      rewrite <- !app_assoc. rewrite IH; [done|done|done|lia].
  - assert (u8 (x + 1) = x + 1) as -> by (apply u8_small; unfold is_u8; lia).
    rewrite (proj2 (Z.eqb_neq (x + 1) 0)) by lia. cbn [negb orb].
    pose proof (be_bytes_value lo Hb) as Ev.
    assert (0 <= be_value lo < 256 ^ Z.of_nat (length lo)) as Hv.
    { rewrite <- Ev at 1 2. rewrite be_value_bytes. by apply Z.mod_pos_bound. }
    rewrite Z.mod_small by nia.
    replace (be_value lo * 256 + x + 1) with (be_value lo * 256 + (x + 1)) by lia.
    rewrite Z.div_add_l, (Z.div_small (x + 1)), Z.add_0_r, Ev by lia.
    rewrite (Z.add_comm (be_value lo * 256)), Z.mod_add, (Z.mod_small (x + 1)) by lia.
    by rewrite <- !app_assoc.
Qed.

Lemma increment_iv_16 iv :
  block iv -> increment_iv iv 16 = Done (next_counter iv).
Proof.
  intros [Hl Hb]. unfold increment_iv.
  pose proof (increment_from_spec [] iv [] 16 Hb ltac:(by destruct iv) ltac:(lia)) as Eq.
  rewrite Hl in Eq. cbn [app length] in Eq. rewrite !app_nil_r in Eq. exact Eq.
Qed.

Lemma next_counter_block iv : block (next_counter iv).
Proof. split; [apply length_be_bytes|apply bytes_be_bytes]. Qed.

(** ** CTR *)

Lemma length_E iv : length (E iv) = 16%nat.
Proof. done. Qed.

Lemma ctr_from in_len post (d : list Z) : forall m n pre iv fuel,
  (length d <= m)%nat -> in_len = (length pre + length d)%nat -> (16 < in_len)%nat -> block iv ->
  (length d <= 16 * n)%nat -> (0 < n)%nat -> (length d <= fuel)%nat ->
  (s ← while fuel (fun s : nat * list Z * list Z => (s.1.1 <? in_len - 16)%nat)
         (fun s =>
            let '(idx, iv_buf, out) := s in
            out_buf ← aes_encrypt iv_buf scratch key keysize;
            out ← xor_buf out_buf out idx 16;
            iv_buf ← increment_iv iv_buf 16;
            Done ((idx + 16)%nat, iv_buf, out)) (length pre, iv, pre ++ d ++ post);
   let '(idx, iv_buf, out) := s in
   out_buf ← aes_encrypt iv_buf scratch key keysize;
   xor_buf out_buf out idx (in_len - idx)) =
  Done (pre ++ xor d (keystream n iv) ++ post).
Proof.
  intros m. revert d. induction m as [|m IH]; intros d n pre iv fuel Hm Hlen H16 Hiv Hn Hn0 Hf;
    (destruct n as [|n]; [lia|]); (destruct (decide (length d <= 16)%nat) as [Hd|Hd]; [|try lia]).
  1, 2: rewrite while_stop by (cbn [fst snd]; apply Nat.ltb_ge; lia); run;
    rewrite encrypt_scratch by done; run;
    replace (in_len - length pre)%nat with (length d) by lia;
    rewrite xor_buf_spec by (rewrite length_E; lia); cbn [keystream];
    unfold xor; by rewrite zip_with_prefix by (rewrite length_E; lia).
  destruct fuel as [|fuel]; [lia|]. cbn [while fst snd].
  rewrite (proj2 (Nat.ltb_lt _ _)) by lia. rewrite encrypt_scratch by done. run.
  assert (length (take 16 d) = 16%nat) as Ht by (rewrite length_take; lia).
  pose proof (xor_buf_spec (E iv) pre (take 16 d) (drop 16 d ++ post)) as X.
  rewrite Ht in X. rewrite (app_assoc (take 16 d)), take_drop in X.
  rewrite X by (rewrite length_E; lia). run. rewrite increment_iv_16 by done. run.
  assert (length (xor (take 16 d) (E iv)) = 16%nat) as Hx
    by (unfold xor; rewrite length_zip_with, Ht, length_E; lia).
  specialize (IH (drop 16 d) n (pre ++ xor (take 16 d) (E iv)) (next_counter iv) fuel).
  rewrite !length_app, Hx, <- !app_assoc in IH. rewrite length_drop in IH.
  rewrite IH by (lia || apply next_counter_block). cbn [keystream]. do 2 f_equal.
  rewrite app_assoc. f_equal. unfold xor.
  rewrite <- (take_drop 16 d) at 3. rewrite zip_with_app by by rewrite length_E. done.
Qed.

Lemma aes_ctr_spec inp in_len out iv :
  match inp with Some i => length i = in_len | None => True end ->
  (in_len <= length out)%nat -> block iv ->
  aes_encrypt_ctr inp in_len out key keysize iv =
    Done (ctr iv (match inp with Some i => i | None => take in_len out end) ++ drop in_len out).
Proof.
  intros Hi Ho Hiv. unfold aes_encrypt_ctr.
  set (d := match inp with Some i => i | None => take in_len out end).
  assert (length d = in_len) as Hd by (unfold d; destruct inp; [done|rewrite length_take; lia]).
  assert (match inp with Some i => memcpy out 0 i 0 in_len | None => Done out end =
          Done (d ++ drop in_len out)) as ->.
  { unfold d. destruct inp as [i|]; [|by rewrite take_drop].
    rewrite memcpy_in by lia. by rewrite drop_0, (take_ge i) by lia. }
  run. rewrite memcpy_whole by (done || apply Hiv). run.
  assert (length d <= 16 * (length d / 16 + 1))%nat as Hn.
  { pose proof (Nat.div_mod_eq (length d) 16). pose proof (Nat.mod_upper_bound (length d) 16). lia. }
  destruct (Nat.ltb_spec 16 in_len) as [H16|H16].
  - apply (ctr_from in_len (drop in_len out) d (length d) (length d / 16 + 1) [] iv in_len);
      cbn [length]; (lia || done).
  - run. rewrite encrypt_scratch by done. run.
    pose proof (xor_buf_spec (E iv) [] d (drop in_len out)) as X. cbn [app length] in X.
    rewrite Nat.sub_0_r. rewrite Hd in X. rewrite X by (rewrite length_E; lia).
    unfold ctr, xor. rewrite Nat.add_1_r. cbn [keystream].
    by rewrite zip_with_prefix by (rewrite length_E; lia).
Qed.

Lemma length_keystream n : forall iv, length (keystream n iv) = (16 * n)%nat.
Proof.
  induction n as [|n IH]; intros iv; cbn [keystream]; [done|]. rewrite length_app, IH, length_E. lia.
Qed.

Lemma length_ctr iv d : length (ctr iv d) = length d.
Proof.
  unfold ctr, xor. rewrite length_zip_with, length_keystream.
  pose proof (Nat.div_mod_eq (length d) 16). pose proof (Nat.mod_upper_bound (length d) 16). lia.
Qed.

Lemma bytes_keystream n : forall iv, block iv -> bytes (keystream n iv).
Proof.
  induction n as [|n IH]; intros iv Hiv; cbn [keystream]; [constructor|].
  apply Forall_app. split; [by apply encrypt_block_block|apply IH, next_counter_block].
Qed.

Lemma bytes_ctr iv d : block iv -> bytes d -> bytes (ctr iv d).
Proof. intros Hiv Hd. apply bytes_zip_lxor; [done|by apply bytes_keystream]. Qed.

Lemma ctr_involutive iv d : ctr iv (ctr iv d) = d.
Proof.
  unfold ctr at 1. rewrite length_ctr. apply zip_lxor_cancel. rewrite length_keystream.
  pose proof (Nat.div_mod_eq (length d) 16). pose proof (Nat.mod_upper_bound (length d) 16). lia.
Qed.

End modes.

(** ** Properties *)

(** CBC: for every key schedule, initialisation vector and plaintext of
    whole blocks, [aes_encrypt_cbc] writes the chained encryptions, and
    [aes_decrypt_cbc] on that output gives the plaintext back. *)
Theorem aes_cbc_roundtrip key keysize inp out out2 iv n :
  key_ok key keysize -> length inp = (16 * n)%nat -> bytes inp -> block iv ->
  (16 * n <= length out)%nat -> (16 * n <= length out2)%nat ->
  (r ← aes_encrypt_cbc inp (16 * n) out key keysize iv;
   aes_decrypt_cbc (take (16 * n) r.2) (16 * n) out2 key keysize iv) =
    Done (true, inp ++ drop (16 * n) out2) /\
  aes_encrypt_cbc inp (16 * n) out key keysize iv =
    Done (true, concat (chain (cbc_enc key keysize) iv (chunks_n 16 n inp)) ++ drop (16 * n) out).
Proof. intros. split; [by apply cbc_roundtrip|by apply aes_encrypt_cbc_spec]. Qed.

Lemma aes_cbc_roundtrip_witness :
  (r ← aes_encrypt_cbc (seqZ 0 32) 32 (replicate 33 1) (seqZ 5 60) 192 (seqZ 9 16);
   aes_decrypt_cbc (take 32 r.2) 32 (replicate 33 2) (seqZ 5 60) 192 (seqZ 9 16)) =
    Done (true, seqZ 0 32 ++ [2]) /\
  aes_encrypt_cbc (seqZ 0 32) 32 (replicate 33 1) (seqZ 5 60) 192 (seqZ 9 16) =
    Done (true, concat (chain (cbc_enc (seqZ 5 60) 192) (seqZ 9 16) (chunks_n 16 2 (seqZ 0 32))) ++ [1]).
Proof.
  apply (aes_cbc_roundtrip (seqZ 5 60) 192 (seqZ 0 32) (replicate 33 1) (replicate 33 2) (seqZ 9 16) 2);
    [split; [by right; left|by_compute]|done|by_compute|split; [done|by_compute]|simpl; lia|simpl; lia].
Defined.

(** The CBC-MAC is the last block of the CBC encryption, for at least one
    block; the output buffer needs only that block. *)
Theorem aes_cbc_mac_correct key keysize inp out iv uninit n :
  key_ok key keysize -> length inp = (16 * n)%nat -> (0 < n)%nat -> bytes inp -> block iv ->
  length uninit = 16%nat -> (16 <= length out)%nat ->
  aes_encrypt_cbc_mac inp (16 * n) out key keysize iv uninit =
    Done (true, cbc_mac key keysize iv (chunks_n 16 n inp) ++ drop 16 out).
Proof. intros. apply aes_encrypt_cbc_mac_spec; (done || lia). Qed.

Lemma aes_cbc_mac_correct_witness :
  aes_encrypt_cbc_mac (seqZ 0 32) 32 (replicate 16 1) (seqZ 5 60) 128 (seqZ 9 16) (replicate 16 7) =
    Done (true, cbc_mac (seqZ 5 60) 128 (seqZ 9 16) (chunks_n 16 2 (seqZ 0 32))).
Proof.
  apply (aes_cbc_mac_correct (seqZ 5 60) 128 (seqZ 0 32) (replicate 16 1) (seqZ 9 16) (replicate 16 7) 2);
    [split; [by left|by_compute]|done|lia|by_compute|split; [done|by_compute]|done|simpl; lia].
Defined.

(** The three CBC functions reject an input whose length is not a multiple
    of 16: they return false and leave the output as it was. *)
Theorem aes_cbc_rejects inp in_len out key keysize iv uninit :
  (in_len mod 16 <> 0)%nat ->
  aes_encrypt_cbc inp in_len out key keysize iv = Done (false, out) /\
  aes_encrypt_cbc_mac inp in_len out key keysize iv uninit = Done (false, out) /\
  aes_decrypt_cbc inp in_len out key keysize iv = Done (false, out).
Proof.
  intros H. unfold aes_encrypt_cbc, aes_encrypt_cbc_mac, aes_decrypt_cbc.
  by rewrite (proj2 (Nat.eqb_neq _ _) H).
Qed.

Lemma aes_cbc_rejects_witness :
  aes_encrypt_cbc (seqZ 0 15) 15 [1] [] 128 [] = Done (false, [1]) /\
  aes_encrypt_cbc_mac (seqZ 0 15) 15 [1] [] 128 [] [] = Done (false, [1]) /\
  aes_decrypt_cbc (seqZ 0 15) 15 [1] [] 128 [] = Done (false, [1]).
Proof. apply (aes_cbc_rejects (seqZ 0 15) 15 [1] [] 128 [] []). by_compute. Defined.

(** [increment_iv] adds one to the big-endian counter in the last
    [counter_size] bytes, wrapping around without touching the bytes before. *)
Theorem increment_iv_correct hi lo :
  length (hi ++ lo) = 16%nat -> lo <> [] -> bytes lo ->
  increment_iv (hi ++ lo) (Z.of_nat (length lo)) =
    Done (hi ++ be_bytes (length lo) ((be_value lo + 1) mod 256 ^ Z.of_nat (length lo))).
Proof.
  intros Hl Hne Hb. unfold increment_iv. rewrite Nat2Z.id. rewrite length_app in Hl.
  pose proof (increment_from_spec hi lo [] (length lo) Hb Hne ltac:(lia)) as Eq.
  rewrite !app_nil_r in Eq.
  replace (Z.of_nat (length hi + length lo) - 1) with 15 in Eq by lia.
  replace (Z.of_nat (length hi)) with (16 - Z.of_nat (length lo)) in Eq by lia. exact Eq.
Qed.

Lemma increment_iv_correct_witness :
  increment_iv (replicate 13 255 ++ [3; 255; 255]) 3 =
    Done (replicate 13 255 ++ [4; 0; 0]).
Proof. apply (increment_iv_correct (replicate 13 255) [3; 255; 255]); [done|done|by_compute]. Defined.

(** CTR, in place or not, for any length (also a partial last block): the
    output is the text added to the encryptions of the successive counters,
    and [aes_decrypt_ctr] on it gives the text back. *)
Theorem aes_ctr_roundtrip key keysize text out out2 iv :
  key_ok key keysize -> block iv ->
  (length text <= length out)%nat -> (length text <= length out2)%nat ->
  aes_encrypt_ctr (Some text) (length text) out key keysize iv =
    Done (ctr key keysize iv text ++ drop (length text) out) /\
  aes_encrypt_ctr None (length text) (text ++ out) key keysize iv =
    Done (ctr key keysize iv text ++ out) /\
  aes_decrypt_ctr None (length text) (ctr key keysize iv text ++ out2) key keysize iv =
    Done (text ++ out2).
Proof.
  intros Hk Hiv Ho Ho2.
  pose proof (length_ctr key keysize iv text) as Hl.
  split_and!.
  - by rewrite aes_ctr_spec.
  - rewrite aes_ctr_spec by (rewrite ?length_app; done || lia).
    by rewrite take_app_length, drop_app_length.
  - unfold aes_decrypt_ctr. rewrite aes_ctr_spec by (rewrite ?length_app; done || lia).
    rewrite <- Hl. rewrite take_app_length, drop_app_length. by rewrite ctr_involutive.
Qed.

Lemma aes_ctr_roundtrip_witness :
  aes_encrypt_ctr (Some (seqZ 0 37)) 37 (replicate 38 1) (seqZ 5 60) 256 (replicate 16 255) =
    Done (ctr (seqZ 5 60) 256 (replicate 16 255) (seqZ 0 37) ++ [1]) /\
  aes_encrypt_ctr None 37 (seqZ 0 37 ++ replicate 38 1) (seqZ 5 60) 256 (replicate 16 255) =
    Done (ctr (seqZ 5 60) 256 (replicate 16 255) (seqZ 0 37) ++ replicate 38 1) /\
  aes_decrypt_ctr None 37 (ctr (seqZ 5 60) 256 (replicate 16 255) (seqZ 0 37) ++ replicate 40 3)
    (seqZ 5 60) 256 (replicate 16 255) = Done (seqZ 0 37 ++ replicate 40 3).
Proof.
  apply (aes_ctr_roundtrip (seqZ 5 60) 256 (seqZ 0 37) (replicate 38 1) (replicate 40 3) (replicate 16 255));
    [split; [by right; right|by_compute]|split; [done|by_compute]|by_compute|by_compute].
Defined.

End AesModes.
