(* ===== verification/AesCcm.v ===== *)
(** * CCM mode of AES (src/crypto-algorithms_learn/aes.c)

    Authenticated encryption and decryption with their formatting functions
    on checked buffers, NIST SP 800-38C, what the code computes on every
    input it accepts, and where it departs from the standard.

    Lengths are natural numbers; the theorems are about payloads of at most
    2^30 bytes, so that no length leaves the [int] parameters it is passed
    through and the [WORD] sum handed to malloc does not wrap.  [malloc] is a flag that tells whether the
    allocation succeeded; the allocated buffer and the local arrays are
    written before they are read, so their first contents are immaterial. *)

From S2P Require Import Prelude BlockHash Aes AesModes.
Import BlockHash Aes AesModes.

Module AesCcm.

(** ** The code *)

Definition ccm_prepare_first_ctr_blk (counter nonce : list Z) (nonce_len : nat)
    (payload_len_store_size : Z) : exec (list Z) :=
  counter ← memset counter 0 0 16;
  counter ← store counter 0 (Z.land (payload_len_store_size - 1) 0x07);
  memcpy counter 1 nonce 0 nonce_len.

(** [memset(&buf[1 + nonce_len], 0, 15 - nonce_len)]: a negative count is a
    huge [size_t]. *)
Definition ccm_prepare_first_format_blk (buf : list Z) (assoc_len payload_len : nat)
    (payload_len_store_size : Z) (mac_len : nat) (nonce : list Z) (nonce_len : nat)
    : exec (list Z) :=
  let flags := Z.lor (Z.shiftl (Z.land (Z.quot (Z.of_nat mac_len - 2) 2) 0x07) 3)
                     (Z.land (payload_len_store_size - 1) 0x07) in
  buf ← store buf 0 (u8 flags);
  buf ← (if (0 <? assoc_len)%nat
         then f ← load buf 0; store buf 0 (u8 (f + 0x40)) else Done buf);
  buf ← memcpy buf 1 nonce 0 nonce_len;
  buf ← (if (15 <? nonce_len)%nat then Fault else memset buf (1 + nonce_len) 0 (15 - nonce_len));
  buf ← store buf 15 (Z.land (Z.of_nat payload_len) 0xff);
  store buf 14 (Z.land (Z.shiftr (Z.of_nat payload_len) 8) 0xff).

(** Both return the buffer and the new [end_of_buf]. *)
Definition ccm_format_assoc_data (buf : list Z) (end_of_buf : nat) (assoc : list Z) (assoc_len : nat)
    : exec (list Z * nat) :=
  buf ← store buf (end_of_buf + 1) (Z.land (Z.of_nat assoc_len) 0xff);
  buf ← store buf end_of_buf (Z.land (Z.shiftr (Z.of_nat assoc_len) 8) 0xff);
  let end_of_buf := (end_of_buf + 2)%nat in
  buf ← memcpy buf end_of_buf assoc 0 assoc_len;
  let end_of_buf := (end_of_buf + assoc_len)%nat in
  let pad := (16 - end_of_buf mod 16)%nat in
  buf ← memset buf end_of_buf 0 pad;
  Done (buf, (end_of_buf + pad)%nat).

Definition ccm_format_payload_data (buf : list Z) (end_of_buf : nat) (payload : list Z)
    (payload_len : nat) : exec (list Z * nat) :=
  buf ← memcpy buf end_of_buf payload 0 payload_len;
  let end_of_buf := (end_of_buf + payload_len)%nat in
  let pad := (end_of_buf mod 16)%nat in
  let pad := if (pad =? 0)%nat then pad else (16 - pad)%nat in
  buf ← memset buf end_of_buf 0 pad;
  Done (buf, (end_of_buf + pad)%nat).

(** The three formatting calls, as both functions below make them. *)
Definition ccm_format (buf : list Z) (assoc : list Z) (assoc_len : nat) (payload : list Z)
    (payload_len mac_len : nat) (nonce : list Z) (nonce_len : nat) : exec (list Z * nat) :=
  let payload_len_store_size := 15 - Z.of_nat nonce_len in
  buf ← ccm_prepare_first_format_blk buf assoc_len payload_len payload_len_store_size mac_len
          nonce nonce_len;
  r ← ccm_format_assoc_data buf 16 assoc assoc_len;
  let '(buf, end_of_buf) := r in
  ccm_format_payload_data buf end_of_buf payload payload_len.

(** The CBC-MAC of the formatted buffer under an initialisation vector of
    zeros. *)
Definition ccm_mac (buf : list Z) (end_of_buf : nat) (mac key : list Z) (keysize : Z)
    : exec (list Z) :=
  temp_iv ← memset scratch 0 0 16;
  m ← aes_encrypt_cbc_mac buf end_of_buf mac key keysize temp_iv scratch;
  Done m.2.

Definition valid_mac_len (mac_len : nat) : bool :=
  match mac_len with 4 | 6 | 8 | 10 | 12 | 14 | 16 => true | _ => false end%nat.

(** The allocated buffer: its size is a 32-bit sum. *)
Definition malloc_buf (n : nat) : list Z := replicate (Z.to_nat (u32 (Z.of_nat n))) 0.

(** [None]: the function returned FALSE.  [Some (out, out_len)]: it returned
    TRUE. *)
Definition aes_encrypt_ccm (malloc : bool) (payload : list Z) (payload_len : nat) (assoc : list Z)
    (assoc_len : nat) (nonce : list Z) (nonce_len : nat) (out : list Z) (mac_len : nat)
    (key_str : list Z) (keysize : Z) : exec (option (list Z * nat)) :=
  if negb (valid_mac_len mac_len) then Done None
  else if (nonce_len <? 7)%nat || (13 <? nonce_len)%nat then Done None
  else if 32768 <? Z.of_nat assoc_len then Done None
  else if negb malloc then Done None else
  let buf := malloc_buf (payload_len + assoc_len + 48) in
  key ← aes_key_setup key_str (replicate 60 0) keysize;
  f ← ccm_format buf assoc assoc_len payload payload_len mac_len nonce nonce_len;
  counter ← ccm_prepare_first_ctr_blk scratch nonce nonce_len (15 - Z.of_nat nonce_len);
  mac ← ccm_mac f.1 f.2 scratch key keysize;
  out ← memcpy out 0 payload 0 payload_len;
  out ← memcpy out payload_len mac 0 mac_len;
  temp_iv ← memcpy scratch 0 counter 0 16;
  temp_iv ← increment_iv temp_iv (15 - Z.of_nat mac_len);
  out ← aes_encrypt_ctr None payload_len out key keysize temp_iv;
  tail ← aes_encrypt_ctr None mac_len (drop payload_len out) key keysize counter;
  Done (Some (take payload_len out ++ tail, (payload_len + mac_len)%nat)).

(** [auth] tells whether [mac_auth] is a non-null pointer.  The result is
    [None] for FALSE, else the plaintext buffer, [*plaintext_len] and what was
    stored in [*mac_auth]. *)
Definition aes_decrypt_ccm (malloc : bool) (ciphertext : list Z) (ciphertext_len : nat)
    (assoc : list Z) (assoc_len : nat) (nonce : list Z) (nonce_len : nat) (plaintext : list Z)
    (mac_len : nat) (auth : bool) (key_str : list Z) (keysize : Z)
    : exec (option (list Z * nat * option bool)) :=
  if (ciphertext_len <=? mac_len)%nat then Done None
  else if negb malloc then Done None else
  let buf := malloc_buf (assoc_len + ciphertext_len + 48) in
  key ← aes_key_setup key_str (replicate 60 0) keysize;
  let plaintext_len := (ciphertext_len - mac_len)%nat in
  plaintext ← memcpy plaintext 0 ciphertext 0 plaintext_len;
  mac ← memcpy scratch 0 ciphertext plaintext_len mac_len;
  counter ← ccm_prepare_first_ctr_blk scratch nonce nonce_len (15 - Z.of_nat nonce_len);
  temp_iv ← memcpy scratch 0 counter 0 16;
  temp_iv ← increment_iv temp_iv (15 - Z.of_nat mac_len);
  plaintext ← aes_decrypt_ctr None plaintext_len plaintext key keysize temp_iv;
  if negb auth then Done (Some (plaintext, plaintext_len, None)) else
  mac ← aes_decrypt_ctr None mac_len mac key keysize counter;
  f ← ccm_format buf assoc assoc_len plaintext plaintext_len mac_len nonce nonce_len;
  mac_buf ← ccm_mac f.1 f.2 scratch key keysize;
  if bool_decide (take mac_len mac = take mac_len mac_buf)
  then Done (Some (plaintext, plaintext_len, Some true))
  else plaintext ← memset plaintext 0 0 plaintext_len;
       Done (Some (plaintext, plaintext_len, Some false)).

(** ** What the code computes *)

(** The formatted parts, as the code lays them out. *)
Definition flags (mac_len assoc_len nonce_len : nat) : Z :=
  (if (0 <? assoc_len)%nat then 64 else 0) + 8 * ((Z.of_nat mac_len - 2) / 2) + (14 - Z.of_nat nonce_len).

Definition first_block (mac_len assoc_len payload_len : nat) (nonce : list Z) : list Z :=
  flags mac_len assoc_len (length nonce) ::
    nonce ++ be_bytes (15 - length nonce) (Z.of_nat payload_len mod 2 ^ 16).

Definition assoc_blocks (assoc : list Z) : list Z :=
  be_bytes 2 (Z.of_nat (length assoc)) ++ assoc ++ replicate (16 - (2 + length assoc) mod 16) 0.

Definition zero_pad (l : list Z) : list Z := l ++ replicate ((16 - length l mod 16) mod 16) 0.

Definition formatted (mac_len : nat) (nonce assoc payload : list Z) : list Z :=
  first_block mac_len (length assoc) (length payload) nonce ++ assoc_blocks assoc ++ zero_pad payload.

(** The first counter block. *)
Definition counter0 (nonce : list Z) : list Z :=
  (14 - Z.of_nat (length nonce)) :: nonce ++ replicate (15 - length nonce) 0.

(** The counter of the payload: the increment has no effect when [mac_len]
    is 16. *)
Definition counter1 (mac_len : nat) (nonce : list Z) : list Z :=
  if (mac_len =? 16)%nat then counter0 nonce else take 15 (counter0 nonce) ++ [1].

Lemma memcpy_at {A} (pre buf src : list A) n :
  (n <= length src)%nat -> (n <= length buf)%nat ->
  memcpy (pre ++ buf) (length pre) src 0 n = Done (pre ++ take n src ++ drop n buf).
Proof.
  intros Hs Hb. rewrite memcpy_in by (rewrite ?length_app; lia).
  rewrite take_app_length, drop_0, drop_app, drop_ge by lia. simpl.
  by replace (length pre + n - length pre)%nat with n by lia.
Qed.

Lemma memset_at {A} (pre buf : list A) v n :
  (n <= length buf)%nat ->
  memset (pre ++ buf) (length pre) v n = Done (pre ++ replicate n v ++ drop n buf).
Proof.
  intros Hb. rewrite memset_in by (rewrite ?length_app; lia).
  rewrite take_app_length, drop_app, drop_ge by lia. simpl.
  by replace (length pre + n - length pre)%nat with n by lia.
Qed.

Lemma be_bytes_short k v :
  0 <= v < 2 ^ 16 -> be_bytes (k + 2) v = replicate k 0 ++ [v / 256; v mod 256].
Proof.
  intros Hv. replace (k + 2)%nat with (S (S k)) by lia. cbn [be_bytes].
  assert (v / 256 / 256 = 0) as -> by lia_div.
  assert (v / 256 mod 256 = v / 256) as -> by lia_div.
  rewrite <- app_assoc. f_equal. clear. induction k as [|k IH]; [done|]. cbn [be_bytes].
  rewrite Z.div_0_l, IH, Z.mod_0_l by lia. by rewrite <- replicate_S_end.
Qed.

Lemma low_bytes n :
  Z.land (Z.of_nat n) 0xff = (Z.of_nat n mod 2 ^ 16) mod 256 /\
  Z.land (Z.shiftr (Z.of_nat n) 8) 0xff = (Z.of_nat n mod 2 ^ 16) / 256.
Proof.
  rewrite !land_255, Z.shiftr_div_pow2 by lia. change (2 ^ 8) with 256. split; lia_div.
Qed.

Lemma code_flags mac_len nonce_len :
  (7 <= nonce_len <= 13)%nat -> valid_mac_len mac_len = true ->
  u8 (Z.lor (Z.shiftl (Z.land (Z.quot (Z.of_nat mac_len - 2) 2) 7) 3)
            (Z.land (15 - Z.of_nat nonce_len - 1) 7)) = flags mac_len 0 nonce_len /\
  0 <= flags mac_len 0 nonce_len < 64.
Proof.
  intros Hn Hm.
  assert (In nonce_len (seq 7 7)) as Hin by (apply in_seq; lia). simpl in Hin.
  assert (In mac_len [4; 6; 8; 10; 12; 14; 16]%nat) as Him
    by (do 17 (destruct mac_len as [|mac_len]; [simpl; tauto || done|]); done).
  simpl in Him. destruct_or!; subst; try done; vm_compute; auto.
Qed.

Lemma flags_assoc mac_len assoc_len nonce_len :
  flags mac_len assoc_len nonce_len =
    (if (0 <? assoc_len)%nat then 64 else 0) + flags mac_len 0 nonce_len.
Proof. unfold flags. change (0 <? 0)%nat with false. destruct (0 <? assoc_len)%nat; ring. Qed.

Lemma first_format_spec buf assoc_len payload_len mac_len nonce :
  (7 <= length nonce <= 13)%nat -> valid_mac_len mac_len = true -> (16 <= length buf)%nat ->
  ccm_prepare_first_format_blk buf assoc_len payload_len (15 - Z.of_nat (length nonce)) mac_len
    nonce (length nonce) = Done (first_block mac_len assoc_len payload_len nonce ++ drop 16 buf).
Proof.
  intros Hn Hm Hb. unfold ccm_prepare_first_format_blk.
  destruct (code_flags mac_len (length nonce) Hn Hm) as [-> Hf].
  destruct buf as [|x buf]; [simpl in Hb; lia|]. cbn [length drop store] in *. run.
  assert ((if (0 <? assoc_len)%nat
           then f ← load (flags mac_len 0 (length nonce) :: buf) 0;
                store (flags mac_len 0 (length nonce) :: buf) 0 (u8 (f + 64))
           else Done (flags mac_len 0 (length nonce) :: buf)) =
          Done (flags mac_len assoc_len (length nonce) :: buf)) as ->.
  { rewrite (flags_assoc _ assoc_len). destruct (0 <? assoc_len)%nat; [|done]. cbn [load lookup list_lookup].
    run. rewrite u8_small by (unfold is_u8; lia). cbn [store]. do 2 f_equal. lia. }
  run. set (fl := flags _ _ _).
  pose proof (memcpy_at [fl] buf nonce (length nonce)) as M. cbn [app length] in M. rewrite M by lia. run.
  rewrite take_ge by done. rewrite (proj2 (Nat.ltb_ge _ _)) by lia.
  pose proof (memset_at (fl :: nonce) (drop (length nonce) buf) 0 (15 - length nonce)) as Ms.
  cbn [length app] in Ms. rewrite length_drop in Ms. change (1 + length nonce)%nat with (S (length nonce)).
  rewrite Ms by lia. run.
  rewrite drop_drop. replace (length nonce + (15 - length nonce))%nat with 15%nat by lia.
  destruct (low_bytes payload_len) as [-> ->].
  set (v := Z.of_nat payload_len mod 2 ^ 16).
  unfold first_block. fold fl v.
  replace (15 - length nonce)%nat with ((13 - length nonce) + 2)%nat by lia.
  rewrite be_bytes_short by (apply Z.mod_pos_bound; lia).
  rewrite replicate_add. cbn [replicate app]. rewrite <- !app_assoc. cbn [app].
  set (p := fl :: nonce ++ replicate (13 - length nonce) 0).
  assert (length p = 14%nat) as Hp by (unfold p; simpl; rewrite length_app, length_replicate; lia).
  assert (forall a b, fl :: nonce ++ replicate (13 - length nonce) 0 ++ a :: b :: drop 15 buf =
    p ++ a :: b :: drop 15 buf) as E by (intros; unfold p; simpl; by rewrite <- app_assoc).
  rewrite E. change 15%nat with (14 + 1)%nat. rewrite <- Hp, store_app_r. cbn [store]. run.
  rewrite store_middle. unfold p. simpl. by rewrite <- app_assoc.
Qed.

Lemma length_first_block mac_len assoc_len payload_len nonce :
  (length nonce <= 15)%nat -> length (first_block mac_len assoc_len payload_len nonce) = 16%nat.
Proof. intros. unfold first_block. simpl. rewrite length_app, length_be_bytes. lia. Qed.

Lemma format_assoc_spec pre buf assoc :
  length pre = 16%nat -> Z.of_nat (length assoc) < 2 ^ 16 ->
  (length (assoc_blocks assoc) <= length buf)%nat ->
  ccm_format_assoc_data (pre ++ buf) 16 assoc (length assoc) =
    Done (pre ++ assoc_blocks assoc ++ drop (length (assoc_blocks assoc)) buf,
          (16 + length (assoc_blocks assoc))%nat).
Proof.
  intros Hp Ha Hb. set (a := length assoc) in *.
  assert (length (assoc_blocks assoc) = (2 + a + (16 - (2 + a) mod 16))%nat) as Hl
    by (unfold assoc_blocks; rewrite !length_app, length_replicate, length_be_bytes; fold a; lia).
  rewrite Hl in *. unfold ccm_format_assoc_data. cbv zeta.
  destruct buf as [|x [|y buf]]; [simpl in Hb; lia..|]. cbn [length] in Hb.
  assert (forall q z, store (pre ++ x :: y :: q) (16 + 1) z = Done (pre ++ x :: z :: q)) as St1
    by (intros; rewrite <- Hp, store_app_r; done).
  assert (forall q z t, store (pre ++ t :: q) 16 z = Done (pre ++ z :: q)) as St0
    by (intros; rewrite <- Hp; apply store_middle).
  rewrite St1. run. rewrite St0. run. clear St1 St0.
  destruct (low_bytes a) as [-> ->]. rewrite (Z.mod_small (Z.of_nat a)) by lia.
  set (h := Z.of_nat a / 256). set (l := Z.of_nat a mod 256).
  assert (pre ++ h :: l :: buf = (pre ++ [h; l]) ++ buf) as -> by by rewrite <- app_assoc.
  assert (16 + 2 = length (pre ++ [h; l]))%nat as -> by (rewrite length_app, Hp; done).
  rewrite memcpy_at by lia. run. rewrite take_ge by done. rewrite app_assoc.
  assert (length (pre ++ [h; l]) + a = length ((pre ++ [h; l]) ++ assoc))%nat as ->
    by by rewrite (length_app _ assoc).
  assert ((length ((pre ++ [h; l]) ++ assoc)) mod 16 = (2 + a) mod 16)%nat as ->.
  { rewrite !length_app, Hp. cbn [length]. replace (16 + 2 + length assoc)%nat with (2 + a + 1 * 16)%nat by lia.
    apply Nat.Div0.mod_add. }
  rewrite memset_at by (rewrite length_drop; lia). run.
  rewrite drop_drop. cbn [drop]. do 2 f_equal.
  - rewrite <- !app_assoc. f_equal. unfold assoc_blocks. fold a.
    rewrite (be_bytes_short 0) by lia. fold h l. cbn [replicate app]. rewrite <- app_assoc. done.
  - rewrite !length_app, Hp. fold a. simpl. lia.
Qed.

Lemma pad_amount n : (if (n mod 16 =? 0)%nat then n mod 16 else 16 - n mod 16)%nat = ((16 - n mod 16) mod 16)%nat.
Proof.
  pose proof (Nat.mod_upper_bound n 16 ltac:(lia)).
  destruct (Nat.eqb_spec (n mod 16) 0) as [E|E]; [by rewrite E|].
  rewrite (Nat.mod_small (16 - n mod 16)); lia.
Qed.

Lemma format_payload_spec pre buf pb n :
  (length pre mod 16 = 0)%nat -> (n <= length pb)%nat ->
  (length (zero_pad (take n pb)) <= length buf)%nat ->
  ccm_format_payload_data (pre ++ buf) (length pre) pb n =
    Done (pre ++ zero_pad (take n pb) ++ drop (length (zero_pad (take n pb))) buf,
          (length pre + length (zero_pad (take n pb)))%nat).
Proof.
  intros Hp Hn Hb. unfold ccm_format_payload_data, zero_pad in *. cbv zeta.
  rewrite length_app, length_replicate, length_take_le in * by done.
  rewrite memcpy_at by lia. run. rewrite app_assoc.
  assert (length pre + n = length (pre ++ take n pb))%nat as E by (rewrite length_app, length_take_le; lia).
  rewrite E.
  assert (length (pre ++ take n pb) mod 16 = n mod 16)%nat as ->.
  { rewrite <- E, Nat.Div0.add_mod, Hp. simpl. by rewrite Nat.Div0.mod_mod. }
  rewrite pad_amount, memset_at by (rewrite length_drop; lia). run.
  rewrite drop_drop, <- !app_assoc. do 2 f_equal. lia.
Qed.

Lemma assoc_blocks_mod assoc : (length (assoc_blocks assoc) mod 16 = 0)%nat.
Proof.
  unfold assoc_blocks. rewrite !length_app, length_replicate, length_be_bytes.
  set (n := (2 + length assoc)%nat).
  replace (2 + (length assoc + (16 - n mod 16)))%nat with (n + (16 - n mod 16))%nat by lia.
  pose proof (Nat.mod_upper_bound n 16 ltac:(lia)). pose proof (Nat.div_mod_eq n 16) as E.
  rewrite E at 1. replace (16 * (n / 16) + n mod 16 + (16 - n mod 16))%nat with ((n / 16 + 1) * 16)%nat by lia.
  apply Nat.Div0.mod_mul.
Qed.

Lemma ccm_format_spec buf mac_len nonce assoc pb n :
  (7 <= length nonce <= 13)%nat -> valid_mac_len mac_len = true -> Z.of_nat (length assoc) < 2 ^ 16 ->
  (n <= length pb)%nat ->
  let F := formatted mac_len nonce assoc (take n pb) in
  (length F <= length buf)%nat ->
  ccm_format buf assoc (length assoc) pb n mac_len nonce (length nonce) =
    Done (F ++ drop (length F) buf, length F).
Proof.
  intros Hn Hm Ha Hpb F Hb. unfold ccm_format, F, formatted in *. cbv zeta.
  rewrite !length_app, length_first_block in * by lia.
  rewrite first_format_spec by (done || lia). run. rewrite length_take_le in * by done.
  rewrite format_assoc_spec by (rewrite ?length_first_block, ?length_drop; done || lia). run.
  rewrite app_assoc.
  replace (16 + length (assoc_blocks assoc))%nat with
    (length (first_block mac_len (length assoc) n nonce ++ assoc_blocks assoc))
    by (rewrite length_app, length_first_block; lia).
  rewrite format_payload_spec; [|..|lia|].
  - rewrite !drop_drop, <- !app_assoc, !length_app, length_first_block by lia.
    by do 2 f_equal.
  - rewrite length_app, length_first_block, Nat.Div0.add_mod, assoc_blocks_mod by lia. done.
  - rewrite !length_drop. lia.
Qed.

Lemma zero_pad_mod l : (length (zero_pad l) mod 16 = 0)%nat.
Proof.
  unfold zero_pad. rewrite length_app, length_replicate. set (n := length l).
  pose proof (Nat.mod_upper_bound n 16 ltac:(lia)). pose proof (Nat.div_mod_eq n 16) as Ed.
  destruct (decide (n mod 16 = 0)%nat) as [E|E].
  - rewrite E. change ((16 - 0) mod 16)%nat with 0%nat. by rewrite Nat.add_0_r.
  - rewrite (Nat.mod_small (16 - n mod 16)) by lia.
    replace (n + (16 - n mod 16))%nat with ((n / 16 + 1) * 16)%nat by lia. apply Nat.Div0.mod_mul.
Qed.

Lemma formatted_whole mac_len nonce assoc payload :
  (length nonce <= 15)%nat -> exists m, (0 < m)%nat /\
  length (formatted mac_len nonce assoc payload) = (16 * m)%nat.
Proof.
  intros Hn. unfold formatted. rewrite !length_app, length_first_block by done.
  pose proof (assoc_blocks_mod assoc) as Ea. pose proof (zero_pad_mod payload) as Ep.
  apply Nat.Div0.mod_divides in Ea as [i Ei]. apply Nat.Div0.mod_divides in Ep as [j Ej].
  exists (1 + i + j)%nat. lia.
Qed.

Lemma bytes_formatted mac_len nonce assoc payload :
  (7 <= length nonce <= 13)%nat -> valid_mac_len mac_len = true ->
  bytes nonce -> bytes assoc -> bytes payload -> bytes (formatted mac_len nonce assoc payload).
Proof.
  intros Hn Hm Bn Ba Bp. assert (is_u8 0) by by_compute.
  unfold formatted, first_block, assoc_blocks, zero_pad.
  repeat first [ apply bytes_be_bytes | apply u8_range | apply Forall_app_2 | apply List.Forall_cons
               | by apply Forall_replicate | done ].
  destruct (code_flags mac_len (length nonce) Hn Hm) as [_ Hf]. rewrite flags_assoc.
  unfold is_u8. case_match; lia.
Qed.

(** The counter blocks. *)
Lemma ctr_blk_spec nonce :
  (7 <= length nonce <= 13)%nat ->
  ccm_prepare_first_ctr_blk scratch nonce (length nonce) (15 - Z.of_nat (length nonce)) =
    Done (counter0 nonce).
Proof.
  intros Hn. unfold ccm_prepare_first_ctr_blk.
  assert (Z.land (15 - Z.of_nat (length nonce) - 1) 7 = 14 - Z.of_nat (length nonce)) as ->.
  { assert (In (length nonce) (seq 7 7)) as Hin by (apply in_seq; lia). simpl in Hin.
    destruct_or! Hin; try rewrite <- Hin; done. }
  change (memset scratch 0 0 16) with (Done (replicate 16 0)). run. cbn [store replicate]. run.
  set (x := 14 - _). change (x :: _) with ([x] ++ replicate 15 0).
  pose proof (memcpy_at [x] (replicate 15 0) nonce (length nonce)) as M. cbn [length] in M.
  rewrite M by (rewrite ?length_replicate; lia).
  rewrite take_ge, drop_replicate by done. done.
Qed.

Lemma counter0_snoc nonce :
  (length nonce <= 13)%nat ->
  counter0 nonce =
    ((14 - Z.of_nat (length nonce)) :: nonce ++ replicate (13 - length nonce) 0 ++ [0]) ++ [0].
Proof.
  intros Hn. unfold counter0.
  replace (15 - length nonce)%nat with ((13 - length nonce) + 2)%nat by lia.
  rewrite replicate_add. simpl. by rewrite <- !app_assoc.
Qed.

Lemma counter0_split nonce :
  (7 <= length nonce <= 13)%nat ->
  exists p, length p = 15%nat /\ counter0 nonce = p ++ [0] /\ (bytes nonce -> bytes p).
Proof.
  intros Hn. eexists. rewrite (counter0_snoc nonce) by lia. split_and!; [|done|].
  - simpl. rewrite !length_app, length_replicate. simpl. lia.
  - intros Hb. apply List.Forall_cons; [unfold is_u8; lia|]. apply Forall_app. split; [done|].
    apply Forall_app. split; [apply Forall_replicate|]; by_compute.
Qed.

Lemma counter_blocks mac_len nonce :
  (7 <= length nonce <= 13)%nat -> bytes nonce ->
  block (counter0 nonce) /\ block (counter1 mac_len nonce).
Proof.
  intros Hn Hb. destruct (counter0_split nonce Hn) as (p & Hp & E & Hbp).
  assert (block (counter0 nonce)) as H0.
  { rewrite E. split; [rewrite length_app, Hp; done|]. apply Forall_app. split; [by apply Hbp|by_compute]. }
  split; [done|]. unfold counter1. case_match; [done|]. rewrite E, take_app_length' by done.
  split; [rewrite length_app, Hp; done|]. apply Forall_app. split; [by apply Hbp|by_compute].
Qed.

Lemma increment_counter mac_len nonce :
  (7 <= length nonce <= 13)%nat -> valid_mac_len mac_len = true ->
  increment_iv (counter0 nonce) (15 - Z.of_nat mac_len) = Done (counter1 mac_len nonce).
Proof.
  intros Hn Hm. destruct (counter0_split nonce Hn) as (p & Hp & E & _).
  unfold counter1. destruct (Nat.eqb_spec mac_len 16) as [->|Hne]; [done|].
  assert (mac_len < 15)%nat as Hlt
    by (do 17 (destruct mac_len as [|mac_len]; [simpl in *; done || lia|]); done).
  unfold increment_iv. rewrite E, take_app_length' by done.
  destruct (Z.to_nat (15 - Z.of_nat mac_len)) as [|fuel] eqn:Ef; [lia|]. cbn [increment_from].
  rewrite (proj2 (Z.geb_le _ _)) by lia. change 15 with (Z.of_nat 15). rewrite <- Hp.
  rewrite loadz_nat, load_middle. run. rewrite storez_nat, store_middle. run.
  rewrite loadz_nat, load_middle. run. done.
Qed.

Lemma zero_iv : block (replicate 16 0).
Proof. split; [done|by_compute]. Qed.

Lemma valid_mac_le mac_len : valid_mac_len mac_len = true -> (4 <= mac_len <= 16)%nat.
Proof. do 17 (destruct mac_len as [|mac_len]; [simpl; done || lia|]). done. Qed.

(** The space the formatted data takes. *)
Lemma length_formatted mac_len nonce assoc payload :
  (length nonce <= 15)%nat ->
  length (formatted mac_len nonce assoc payload) =
    (length payload + length assoc + 18 + (16 - (2 + length assoc) mod 16)
     + (16 - length payload mod 16) mod 16)%nat.
Proof.
  intros Hn. unfold formatted. rewrite !length_app, length_first_block by done.
  unfold assoc_blocks, zero_pad. rewrite !length_app, !length_replicate, length_be_bytes. lia.
Qed.

(** ** CCM as NIST SP 800-38C describes it *)

Definition sp_q (nonce : list Z) : nat := (15 - length nonce)%nat.

(** The first formatted block, for a tag of [t] bytes. *)
Definition sp_b0 (t : nat) (nonce assoc payload : list Z) : list Z :=
  ((if (0 <? length assoc)%nat then 64 else 0) + 8 * ((Z.of_nat t - 2) / 2) + (Z.of_nat (sp_q nonce) - 1))
    :: nonce ++ be_bytes (sp_q nonce) (Z.of_nat (length payload)).

(** The associated data, if there are any, preceded by their length and filled
    up with zeros to a whole number of blocks. *)
Definition sp_assoc (assoc : list Z) : list Z :=
  match assoc with
  | [] => []
  | _ => zero_pad (be_bytes 2 (Z.of_nat (length assoc)) ++ assoc)
  end.

Definition sp_counter (nonce : list Z) (i : Z) : list Z :=
  (Z.of_nat (sp_q nonce) - 1) :: nonce ++ be_bytes (sp_q nonce) i.

Definition sp_ccm (cipher : list Z -> list Z) (t : nat) (nonce assoc payload : list Z) : list Z :=
  let B := sp_b0 t nonce assoc payload ++ sp_assoc assoc ++ zero_pad payload in
  let T := take t (foldl (fun Y b => cipher (xor b Y)) (replicate 16 0) (chunks 16 B)) in
  let S := concat ((fun i => cipher (sp_counter nonce (Z.of_nat i))) <$> seq 1 (length payload / 16 + 1)) in
  xor payload S ++ xor T (cipher (sp_counter nonce 0)).

Lemma sp_counter_block nonce i :
  (7 <= length nonce <= 13)%nat -> bytes nonce -> block (sp_counter nonce i).
Proof.
  intros Hn Hb. split.
  - simpl. rewrite length_app, length_be_bytes. unfold sp_q. lia.
  - apply List.Forall_cons; [unfold is_u8, sp_q; lia|]. apply Forall_app.
    split; [done|apply bytes_be_bytes].
Qed.

Lemma sp_counter_next nonce i :
  (7 <= length nonce <= 13)%nat -> bytes nonce -> 0 <= i -> i + 1 < 2 ^ 16 ->
  next_counter (sp_counter nonce i) = sp_counter nonce (i + 1).
Proof.
  intros Hn Hb Hi Hlt. unfold next_counter.
  assert (256 ^ Z.of_nat (sp_q nonce) >= 2 ^ 16) as Hq.
  { change (2 ^ 16) with (256 ^ 2). apply Z.le_ge, Z.pow_le_mono_r; unfold sp_q; lia. }
  assert (forall j, 0 <= j < 2 ^ 16 -> be_value (sp_counter nonce j) =
    be_value ((Z.of_nat (sp_q nonce) - 1) :: nonce) * 256 ^ Z.of_nat (sp_q nonce) + j) as Hv.
  { intros j Hj. unfold sp_counter. rewrite app_comm_cons, be_value_app, length_be_bytes, be_value_bytes.
    rewrite Z.mod_small by lia. done. }
  pose proof (sp_counter_block nonce (i + 1) Hn Hb) as [Hl1 Hb1].
  rewrite <- (be_bytes_value (sp_counter nonce (i + 1))) by done. rewrite Hl1. f_equal.
  pose proof (be_value_range _ Hb1) as Hr. rewrite Hl1, Hv in Hr by lia.
  rewrite !Hv by lia. rewrite Z.mod_small; [lia|]. change (Z.of_nat 16) with 16 in Hr. lia.
Qed.

Lemma counter1_sp mac_len nonce :
  (7 <= length nonce <= 13)%nat -> mac_len <> 16%nat -> counter1 mac_len nonce = sp_counter nonce 1.
Proof.
  intros Hn Hm. unfold counter1. rewrite (proj2 (Nat.eqb_neq _ _) Hm).
  rewrite counter0_snoc by lia. rewrite take_app_length'
    by (simpl; rewrite !length_app, length_replicate; simpl; lia).
  unfold sp_counter, sp_q. replace (15 - length nonce)%nat with ((13 - length nonce) + 2)%nat at 2 by lia.
  rewrite (be_bytes_short _ 1) by lia. simpl. rewrite <- !app_assoc. simpl. f_equal. lia.
Qed.

Lemma counter0_sp nonce :
  (7 <= length nonce <= 13)%nat -> counter0 nonce = sp_counter nonce 0.
Proof.
  intros Hn. rewrite counter0_snoc by lia. unfold sp_counter, sp_q.
  replace (15 - length nonce)%nat with ((13 - length nonce) + 2)%nat at 2 by lia.
  rewrite (be_bytes_short _ 0) by lia. simpl. rewrite <- !app_assoc. simpl. f_equal. lia.
Qed.

Lemma formatted_sp mac_len nonce assoc payload :
  (7 <= length nonce <= 13)%nat -> Z.of_nat (length payload) < 2 ^ 16 -> assoc <> [] ->
  ((2 + length assoc) mod 16 <> 0)%nat ->
  formatted mac_len nonce assoc payload =
    sp_b0 mac_len nonce assoc payload ++ sp_assoc assoc ++ zero_pad payload.
Proof.
  intros Hn Hp Ha Hmod. unfold formatted. f_equal; [|f_equal].
  - unfold first_block, sp_b0, flags, sp_q. rewrite Z.mod_small by lia. f_equal. f_equal. lia.
  - unfold assoc_blocks, sp_assoc. destruct assoc as [|x assoc]; [done|].
    unfold zero_pad. rewrite length_app, length_be_bytes.
    pose proof (Nat.mod_upper_bound (2 + length (x :: assoc)) 16 ltac:(lia)).
    rewrite (Nat.mod_small (16 - _)) by lia. by rewrite <- app_assoc.
Qed.

(** ** The two functions *)

Lemma malloc_buf_small n : Z.of_nat n < 2 ^ 32 -> malloc_buf n = replicate n 0.
Proof. intros H. unfold malloc_buf, u32. by rewrite Z.mod_small, Nat2Z.id by lia. Qed.

Section ccm.
Context (key_str : list Z) (keysize : Z) (Hks : valid_keysize keysize)
  (Hkl : length key_str = (4 * key_words keysize)%nat) (Hkb : bytes key_str).

(** The key schedule in the local array [key[60]]. *)
Definition ccm_key : list Z :=
  Fips197.key_expansion (key_words keysize) (rounds keysize) key_str ++
  drop (4 * (rounds keysize + 1)) (replicate 60 0).

Lemma ccm_key_setup : aes_key_setup key_str (replicate 60 0) keysize = Done ccm_key.
Proof.
  apply aes_key_setup_spec; [done..|]. rewrite length_replicate.
  destruct Hks as [-> | [-> | ->]]; cbn; lia.
Qed.

Lemma ccm_key_ok : key_ok ccm_key keysize.
Proof. by apply key_setup_ok. Qed.

(** The MAC the code computes before it is cut to [mac_len] bytes. *)
Definition code_mac (mac_len : nat) (nonce assoc payload : list Z) : list Z :=
  let F := formatted mac_len nonce assoc payload in
  cbc_mac ccm_key keysize (replicate 16 0) (chunks_n 16 (length F / 16) F).

Definition code_tag (mac_len : nat) (nonce assoc payload : list Z) : list Z :=
  take mac_len (code_mac mac_len nonce assoc payload).

Lemma length_cbc_mac iv bs :
  length iv = 16%nat -> length (cbc_mac ccm_key keysize iv bs) = 16%nat.
Proof. revert iv. induction bs as [|b bs IH]; intros iv Hv; [done|]. by apply IH. Qed.

Lemma ccm_mac_spec mac_len nonce assoc payload rest :
  (7 <= length nonce <= 13)%nat -> valid_mac_len mac_len = true ->
  bytes nonce -> bytes assoc -> bytes payload -> bytes rest ->
  let F := formatted mac_len nonce assoc payload in
  ccm_mac (F ++ rest) (length F) scratch ccm_key keysize =
    Done (code_mac mac_len nonce assoc payload).
Proof.
  intros Hn Hm Bn Ba Bp Br F. unfold ccm_mac.
  change (memset scratch 0 0 16) with (Done (replicate 16 0)). run.
  destruct (formatted_whole mac_len nonce assoc payload) as (m & Hm0 & HF); [lia|]. fold F in HF.
  rewrite HF, aes_encrypt_cbc_mac_spec; [|apply ccm_key_ok|rewrite length_app; lia|done| |apply zero_iv|done|done].
  - run. cbn [snd]. unfold code_mac. fold F. rewrite chunks_n_app by done.
    rewrite HF, whole_div. by rewrite (drop_ge scratch), app_nil_r by done.
  - apply Forall_app. split; [by apply bytes_formatted|done].
Qed.

Lemma length_tag mac_len nonce assoc payload :
  (mac_len <= 16)%nat -> length (code_tag mac_len nonce assoc payload) = mac_len.
Proof.
  intros Hm. unfold code_tag. rewrite length_take_le; [done|].
  unfold code_mac. by rewrite length_cbc_mac.
Qed.

Lemma aes_encrypt_ccm_spec payload assoc nonce out mac_len :
  Z.of_nat (length payload) <= 2 ^ 30 ->
  (7 <= length nonce <= 13)%nat -> valid_mac_len mac_len = true ->
  Z.of_nat (length assoc) <= 32768 ->
  bytes nonce -> bytes assoc -> bytes payload ->
  (length (formatted mac_len nonce assoc payload) <= length payload + length assoc + 48)%nat ->
  (length payload + mac_len <= length out)%nat ->
  aes_encrypt_ccm true payload (length payload) assoc (length assoc) nonce (length nonce) out mac_len
    key_str keysize =
  Done (Some (ctr ccm_key keysize (counter1 mac_len nonce) payload ++
              ctr ccm_key keysize (counter0 nonce) (code_tag mac_len nonce assoc payload) ++
              drop (length payload + mac_len) out, (length payload + mac_len)%nat)).
Proof.
  intros Hs Hn Hm Ha Bn Ba Bp Hf Ho. unfold aes_encrypt_ccm. rewrite Hm, malloc_buf_small by lia. cbn [negb].
  rewrite (proj2 (Nat.ltb_ge _ _)), (proj2 (Nat.ltb_ge 13 _)), (proj2 (Z.ltb_ge _ _)) by lia. cbn [orb].
  rewrite ccm_key_setup. run. pose proof (valid_mac_le _ Hm) as Hm16.
  pose proof (ccm_format_spec (replicate (length payload + length assoc + 48) 0) mac_len nonce assoc
    payload (length payload) Hn Hm ltac:(lia) ltac:(lia)) as Ef.
  rewrite take_ge, length_replicate in Ef by done. rewrite Ef by done. run. clear Ef.
  rewrite ctr_blk_spec by done. run. cbn [fst snd].
  rewrite ccm_mac_spec by (done || apply Forall_drop, Forall_replicate; by_compute). run.
  pose proof (memcpy_at [] out payload (length payload)) as M1. cbn [app length] in M1.
  rewrite M1 by lia. run. rewrite take_ge by done.
  assert (length (code_mac mac_len nonce assoc payload) = 16%nat) as Hlm by by apply length_cbc_mac.
  rewrite memcpy_at by (rewrite ?length_drop; lia). run. rewrite drop_drop.
  fold (code_tag mac_len nonce assoc payload). set (tag := code_tag _ _ _ _).
  assert (length tag = mac_len) as Ht by (apply length_tag; lia).
  destruct (counter_blocks mac_len nonce Hn Bn) as [Hc0 Hc1].
  rewrite memcpy_whole by (done || apply Hc0). run. rewrite increment_counter by done. run.
  rewrite aes_ctr_spec by (done || apply ccm_key_ok || rewrite ?length_app; lia). run.
  rewrite take_app_length, drop_app_length. set (c := ctr _ _ _ payload).
  assert (length c = length payload) as Hc by apply length_ctr.
  rewrite (drop_app_length' c) by done.
  rewrite aes_ctr_spec by (done || apply ccm_key_ok || rewrite ?length_app; lia). run.
  by rewrite (take_app_length' tag), (drop_app_length' tag), (take_app_length' c) by done.
Qed.

Lemma aes_decrypt_ccm_spec body tag assoc nonce plaintext mac_len :
  Z.of_nat (length body) <= 2 ^ 30 ->
  (7 <= length nonce <= 13)%nat -> valid_mac_len mac_len = true -> Z.of_nat (length assoc) <= 32768 ->
  bytes nonce -> bytes assoc -> bytes body -> length tag = mac_len -> (0 < length body)%nat ->
  (length body <= length plaintext)%nat ->
  let p := ctr ccm_key keysize (counter1 mac_len nonce) body in
  aes_decrypt_ccm true (body ++ tag) (length body + mac_len) assoc (length assoc) nonce (length nonce)
    plaintext mac_len true key_str keysize =
  Done (Some (if bool_decide (ctr ccm_key keysize (counter0 nonce) tag = code_tag mac_len nonce assoc p)
              then (p ++ drop (length body) plaintext, length body, Some true)
              else (replicate (length body) 0 ++ drop (length body) plaintext, length body, Some false))).
Proof.
  intros Hs Hn Hm Ha Bn Ba Bb Ht Hb Hp p. unfold aes_decrypt_ccm.
  pose proof (valid_mac_le _ Hm) as Hm16. rewrite malloc_buf_small by lia.
  rewrite (proj2 (Nat.leb_gt _ _)) by lia. cbn [negb]. rewrite ccm_key_setup. run.
  replace (length body + mac_len - mac_len)%nat with (length body) by lia.
  pose proof (memcpy_at [] plaintext (body ++ tag) (length body)) as M1. cbn [app length] in M1.
  rewrite M1 by (rewrite ?length_app; lia). run. rewrite take_app_length.
  rewrite memcpy_in by (rewrite ?length_app, ?length_replicate; simpl; lia). run.
  rewrite drop_app_length, (take_ge tag) by lia. cbn [take app Nat.add].
  rewrite ctr_blk_spec by done. run.
  destruct (counter_blocks mac_len nonce Hn Bn) as [Hc0 Hc1].
  rewrite memcpy_whole by (done || apply Hc0). run. rewrite increment_counter by done. run.
  unfold aes_decrypt_ctr.
  rewrite (aes_ctr_spec ccm_key keysize ccm_key_ok None (length body)) by (done || apply ccm_key_ok || rewrite ?length_app; lia). run.
  rewrite take_app_length, drop_app_length. fold p.
  rewrite aes_ctr_spec by (done || apply ccm_key_ok || rewrite ?length_app; lia). run.
  change (take 0 scratch) with (@nil Z). cbn [app].
  rewrite (take_app_length' tag), (drop_app_length' tag) by done.
  assert (length p = length body) as Hlp by apply length_ctr.
  assert (bytes p) as Bpp by by apply bytes_ctr.
  pose proof (ccm_format_spec (replicate (length assoc + (length body + mac_len) + 48) 0) mac_len nonce
    assoc (p ++ drop (length body) plaintext) (length body) Hn Hm ltac:(lia)
    ltac:(rewrite length_app; lia)) as Ef.
  rewrite (take_app_length' p) in Ef by done. rewrite Ef.
  2: { rewrite length_formatted, length_replicate, Hlp by lia.
       pose proof (Nat.mod_upper_bound (16 - length body mod 16) 16). lia. }
  run. cbn [fst snd].
  rewrite ccm_mac_spec by (done || apply Forall_drop, Forall_replicate; by_compute). run.
  rewrite (take_app_length' (ctr _ _ _ tag)) by by rewrite length_ctr.
  fold (code_tag mac_len nonce assoc p). case_bool_decide; [done|].
  pose proof (memset_at [] (p ++ drop (length body) plaintext) 0 (length body)) as M2.
  cbn [app length] in M2. rewrite M2 by (rewrite length_app; lia). run.
  by rewrite (drop_app_length' p) by done.
Qed.

(** The last padding does not fit. *)
Lemma aes_encrypt_ccm_faults payload assoc nonce out mac_len :
  Z.of_nat (length payload) <= 2 ^ 30 ->
  (7 <= length nonce <= 13)%nat -> valid_mac_len mac_len = true -> Z.of_nat (length assoc) <= 32768 ->
  (length payload + length assoc + 48 < length (formatted mac_len nonce assoc payload))%nat ->
  aes_encrypt_ccm true payload (length payload) assoc (length assoc) nonce (length nonce) out mac_len
    key_str keysize = Fault.
Proof.
  intros Hs Hn Hm Ha Hf. unfold aes_encrypt_ccm. rewrite Hm, malloc_buf_small by lia. cbn [negb].
  rewrite (proj2 (Nat.ltb_ge _ _)), (proj2 (Nat.ltb_ge 13 _)), (proj2 (Z.ltb_ge _ _)) by lia. cbn [orb].
  rewrite ccm_key_setup. run. rewrite length_formatted in Hf by lia.
  unfold ccm_format. cbv zeta.
  rewrite first_format_spec by (rewrite ?length_replicate; done || lia). run.
  assert (length (assoc_blocks assoc) = (2 + length assoc + (16 - (2 + length assoc) mod 16))%nat) as Hl
    by (unfold assoc_blocks; rewrite !length_app, length_replicate, length_be_bytes; lia).
  rewrite format_assoc_spec;
    [|apply length_first_block; lia|lia|rewrite length_drop, length_replicate; lia]. run.
  rewrite app_assoc. set (pre := _ ++ assoc_blocks assoc).
  assert (length pre = (16 + length (assoc_blocks assoc))%nat) as Hp
    by (unfold pre; rewrite length_app, length_first_block; lia).
  rewrite <- Hp. unfold ccm_format_payload_data. cbv zeta.
  rewrite memcpy_at by (rewrite ?length_drop, ?length_replicate; lia). run. rewrite app_assoc.
  rewrite <- (length_app pre). rewrite take_ge by done.
  assert (length (pre ++ payload) mod 16 = length payload mod 16)%nat as ->.
  { rewrite length_app, Hp, Nat.Div0.add_mod, (Nat.Div0.add_mod 16), assoc_blocks_mod. simpl.
    by rewrite Nat.Div0.mod_mod. }
  rewrite pad_amount. unfold memset. rewrite decide_False; [done|].
  rewrite !length_app, !length_drop, length_replicate, Hp, Hl. lia.
Qed.

Lemma sp_keystream nonce n : forall i,
  (7 <= length nonce <= 13)%nat -> bytes nonce -> Z.of_nat (i + n) <= 2 ^ 16 ->
  keystream ccm_key keysize n (sp_counter nonce (Z.of_nat i)) =
    concat ((fun i => encrypt_block ccm_key keysize (sp_counter nonce (Z.of_nat i))) <$> seq i n).
Proof.
  induction n as [|n IH]; intros i Hn Hb Hi; [done|].
  cbn [keystream seq fmap list_fmap concat]. f_equal.
  destruct n as [|n]; [done|]. rewrite sp_counter_next by (done || lia).
  replace (Z.of_nat i + 1) with (Z.of_nat (S i)) by lia. apply IH; (done || lia).
Qed.

Lemma cbc_mac_Fips bs : forall iv,
  block iv -> Forall block bs ->
  cbc_mac ccm_key keysize iv bs =
    foldl (fun Y b => Fips197.aes (key_words keysize) (rounds keysize) key_str (xor b Y)) iv bs.
Proof.
  intros iv Hiv Hbs. unfold cbc_mac. apply (foldl_ext_inv block block); [done|done|].
  intros Y b HY Hb. assert (block (xor b Y)) as Hx by by apply xor_block.
  rewrite <- (encrypt_block_Fips key_str (drop (4 * (rounds keysize + 1)) (replicate 60 0))) by done.
  split; [done|]. by apply encrypt_block_block.
Qed.

Lemma code_sp mac_len nonce assoc payload :
  (7 <= length nonce <= 13)%nat -> valid_mac_len mac_len = true -> mac_len <> 16%nat ->
  bytes nonce -> bytes assoc -> bytes payload ->
  Z.of_nat (length payload) < 2 ^ 16 -> assoc <> [] -> ((2 + length assoc) mod 16 <> 0)%nat ->
  ctr ccm_key keysize (counter1 mac_len nonce) payload ++
  ctr ccm_key keysize (counter0 nonce) (code_tag mac_len nonce assoc payload) =
  sp_ccm (Fips197.aes (key_words keysize) (rounds keysize) key_str) mac_len nonce assoc payload.
Proof.
  intros Hn Hm Hne Bn Ba Bp Hp Hane Hmod. unfold sp_ccm. cbv zeta.
  pose proof (valid_mac_le _ Hm) as Hm16.
  assert (forall i, encrypt_block ccm_key keysize (sp_counter nonce i) =
    Fips197.aes (key_words keysize) (rounds keysize) key_str (sp_counter nonce i)) as Ec
    by (intros; by apply encrypt_block_Fips, sp_counter_block).
  f_equal.
  - unfold ctr. f_equal. rewrite counter1_sp by done.
    pose proof (Nat.div_mod_eq (length payload) 16).
    rewrite (sp_keystream nonce _ 1) by (done || lia). f_equal.
    apply list_fmap_ext. intros i x Hx. apply Ec.
  - unfold ctr. rewrite length_tag by lia. rewrite (Nat.div_small mac_len 16) by lia.
    cbn [Nat.add keystream]. rewrite app_nil_r, counter0_sp, Ec by done. f_equal.
    unfold code_tag. f_equal. unfold code_mac. cbv zeta.
    destruct (formatted_whole mac_len nonce assoc payload) as (m & Hm0 & HF); [lia|].
    rewrite cbc_mac_Fips; [|apply zero_iv|].
    + rewrite formatted_sp by done. done.
    + rewrite HF, whole_div. apply blocks_of_chunks; [done|by apply bytes_formatted].
Qed.

End ccm.

(** ** Properties *)

(** C8: For a tag of less than 16 bytes, a payload of less than 2^16 bytes and
    associated data that are present and do not end exactly at a block
    boundary, [aes_encrypt_ccm] writes the NIST SP 800-38C encryption of the
    payload and the encrypted tag, with AES as FIPS 197 defines it. *)
Theorem aes_encrypt_ccm_correct key_str keysize payload assoc nonce out mac_len :
  valid_keysize keysize -> length key_str = (4 * key_words keysize)%nat -> bytes key_str ->
  (7 <= length nonce <= 13)%nat -> valid_mac_len mac_len = true -> mac_len <> 16%nat ->
  Z.of_nat (length assoc) <= 32768 -> assoc <> [] -> ((2 + length assoc) mod 16 <> 0)%nat ->
  Z.of_nat (length payload) < 2 ^ 16 -> bytes nonce -> bytes assoc -> bytes payload ->
  (length payload + mac_len <= length out)%nat ->
  aes_encrypt_ccm true payload (length payload) assoc (length assoc) nonce (length nonce) out mac_len
    key_str keysize =
  Done (Some (sp_ccm (Fips197.aes (key_words keysize) (rounds keysize) key_str) mac_len nonce assoc payload
              ++ drop (length payload + mac_len) out, (length payload + mac_len)%nat)).
Proof.
  intros. rewrite aes_encrypt_ccm_spec; try done.
  - rewrite app_assoc, code_sp; done.
  - lia.
  - rewrite length_formatted by lia.
    pose proof (Nat.mod_upper_bound (16 - length payload mod 16) 16). lia.
Qed.

Lemma aes_encrypt_ccm_correct_witness :
  let payload := [32; 33; 34; 35] in let assoc := [0; 1; 2; 3; 4; 5; 6; 7] in
  let nonce := [16; 17; 18; 19; 20; 21; 22] in
  aes_encrypt_ccm true payload (length payload) assoc (length assoc) nonce (length nonce)
    (replicate 9 0) 4 (seqZ 64 16) 128 =
  Done (Some (sp_ccm (Fips197.aes (key_words 128) (rounds 128) (seqZ 64 16)) 4 nonce assoc payload
              ++ drop (length payload + 4) (replicate 9 0), (length payload + 4)%nat)).
Proof.
  intros payload assoc nonce.
  apply (aes_encrypt_ccm_correct (seqZ 64 16) 128 payload assoc nonce (replicate 9 0) 4);
    [by left|by_compute..|].
  simpl. lia.
Defined.

(** The lengths for which the formatting buffer of [aes_encrypt_ccm] is one
    byte too small. *)
Definition overflowing (assoc payload : list Z) : Prop :=
  ((2 + length assoc) mod 16 = 0 /\ length payload mod 16 = 1)%nat.

(** The formatted data fit in the buffer exactly for the other lengths. *)
Lemma formatted_fits mac_len nonce assoc payload :
  (7 <= length nonce <= 13)%nat ->
  (overflowing assoc payload /\ (length payload + length assoc + 48 < length (formatted mac_len nonce assoc payload))%nat) \/
  (~ overflowing assoc payload /\ (length (formatted mac_len nonce assoc payload) <= length payload + length assoc + 48)%nat).
Proof.
  intros Hn. unfold overflowing. rewrite length_formatted by lia.
  pose proof (Nat.mod_upper_bound (2 + length assoc) 16 ltac:(lia)).
  pose proof (Nat.mod_upper_bound (length payload) 16 ltac:(lia)).
  destruct (decide (length payload mod 16 = 0)%nat) as [E|E];
    [rewrite E; change ((16 - 0) mod 16)%nat with 0%nat|
     rewrite (Nat.mod_small (16 - length payload mod 16)) by lia]; lia.
Qed.

(** C10: Encrypting and decrypting with the same key, nonce and associated
    data, on every accepted input.  Unless the lengths are [overflowing],
    [aes_encrypt_ccm] succeeds, and [aes_decrypt_ccm] recovers and accepts the
    payload if it is not empty; the encryption of an empty payload, a bare tag,
    it refuses with FALSE.  For the [overflowing] lengths [aes_encrypt_ccm]
    writes behind the buffer it has allocated. *)
Theorem aes_ccm_roundtrip key_str keysize payload assoc nonce out plaintext mac_len :
  Z.of_nat (length payload) <= 2 ^ 30 ->
  valid_keysize keysize -> length key_str = (4 * key_words keysize)%nat -> bytes key_str ->
  (7 <= length nonce <= 13)%nat -> valid_mac_len mac_len = true ->
  Z.of_nat (length assoc) <= 32768 -> bytes nonce -> bytes assoc -> bytes payload ->
  (length payload + mac_len = length out)%nat -> (length payload <= length plaintext)%nat ->
  (~ overflowing assoc payload ->
   exists ciphertext len,
     aes_encrypt_ccm true payload (length payload) assoc (length assoc) nonce (length nonce) out mac_len
       key_str keysize = Done (Some (ciphertext, len)) /\
     aes_decrypt_ccm true ciphertext len assoc (length assoc) nonce (length nonce) plaintext mac_len true
       key_str keysize =
       Done (if decide (payload = []) then None
             else Some (payload ++ drop (length payload) plaintext, length payload, Some true))) /\
  (overflowing assoc payload ->
   aes_encrypt_ccm true payload (length payload) assoc (length assoc) nonce (length nonce) out mac_len
     key_str keysize = Fault).
Proof.
  intros Hs Hks Hkl Hkb Hn Hm Ha Bn Ba Bp Ho Hpl.
  destruct (formatted_fits mac_len nonce assoc payload Hn) as [[Hov Hlen]|[Hov Hlen]]; (split; [intros H|intros H]); try done; [by apply aes_encrypt_ccm_faults|].
  eexists _, _. split; [apply aes_encrypt_ccm_spec; try done; lia|].
  rewrite drop_ge, app_nil_r by lia. destruct (decide (payload = [])) as [->|Hne]; [unfold aes_decrypt_ccm; by rewrite (proj2 (Nat.leb_le _ _)) by (cbn; lia)|].
  assert (0 < length payload)%nat as Hp by (destruct payload; [done|cbn; lia]). set (c := ctr _ _ (counter1 _ _) _).
  destruct (counter_blocks mac_len nonce Hn Bn) as [_ Hc1].
  assert (length c = length payload) as Hlc by apply length_ctr. rewrite <- Hlc.
  rewrite aes_decrypt_ccm_spec; try done; rewrite ?Hlc; try done.
  - subst c. rewrite !ctr_involutive. by rewrite bool_decide_true.
  - by apply bytes_ctr.
  - rewrite length_ctr. apply length_tag. by apply valid_mac_le.
Qed.

Lemma aes_ccm_roundtrip_witness :
  let payload := [32; 33; 34; 35] in let assoc := [0; 1; 2; 3; 4; 5; 6; 7] in
  let nonce := [16; 17; 18; 19; 20; 21; 22] in
  (exists ciphertext len,
    aes_encrypt_ccm true payload (length payload) assoc (length assoc) nonce (length nonce)
      (replicate 8 0) 4 (seqZ 64 16) 128 = Done (Some (ciphertext, len)) /\
    aes_decrypt_ccm true ciphertext len assoc (length assoc) nonce (length nonce) (replicate 5 9) 4 true
      (seqZ 64 16) 128 =
      Done (Some (payload ++ drop (length payload) (replicate 5 9), length payload, Some true))) /\
  (exists ciphertext len,
    aes_encrypt_ccm true [] 0 assoc (length assoc) nonce (length nonce)
      (replicate 4 0) 4 (seqZ 64 16) 128 = Done (Some (ciphertext, len)) /\
    aes_decrypt_ccm true ciphertext len assoc (length assoc) nonce (length nonce) (replicate 5 9) 4 true
      (seqZ 64 16) 128 = Done None) /\
  aes_encrypt_ccm true [5] 1 (replicate 14 0) 14 nonce (length nonce) (replicate 5 0) 4 (seqZ 64 16) 128 = Fault.
Proof.
  intros payload assoc nonce. split_and!.
  - apply (aes_ccm_roundtrip (seqZ 64 16) 128 payload assoc nonce (replicate 8 0) (replicate 5 9) 4);
      [by_compute|by left|by_compute..].
  - apply (aes_ccm_roundtrip (seqZ 64 16) 128 [] assoc nonce (replicate 4 0) (replicate 5 9) 4);
      [by_compute|by left|by_compute..].
  - apply (aes_ccm_roundtrip (seqZ 64 16) 128 [5] (replicate 14 0) nonce (replicate 5 0) (replicate 5 9) 4);
      [by_compute|by left|by_compute..].
Defined.

(** C16: [aes_decrypt_ccm] accepts a ciphertext if and only if its tag is the
    encrypted MAC of the decrypted payload, the nonce and the associated data;
    it then returns the payload, and otherwise a payload of zeros. *)
Theorem aes_decrypt_ccm_authenticates key_str keysize body tag assoc nonce plaintext mac_len :
  Z.of_nat (length body) <= 2 ^ 30 ->
  valid_keysize keysize -> length key_str = (4 * key_words keysize)%nat -> bytes key_str ->
  (7 <= length nonce <= 13)%nat -> valid_mac_len mac_len = true -> Z.of_nat (length assoc) <= 32768 ->
  bytes nonce -> bytes assoc -> bytes body -> length tag = mac_len -> (0 < length body)%nat ->
  (length body <= length plaintext)%nat ->
  let p := ctr (ccm_key key_str keysize) keysize (counter1 mac_len nonce) body in
  aes_decrypt_ccm true (body ++ tag) (length body + mac_len) assoc (length assoc) nonce (length nonce)
    plaintext mac_len true key_str keysize =
  Done (Some (if bool_decide (tag = ctr (ccm_key key_str keysize) keysize (counter0 nonce)
                                      (code_tag key_str keysize mac_len nonce assoc p))
              then (p ++ drop (length body) plaintext, length body, Some true)
              else (replicate (length body) 0 ++ drop (length body) plaintext, length body, Some false))).
Proof.
  intros Hs Hks Hkl Hkb Hn Hm Ha Bn Ba Bb Ht Hb Hp p. rewrite aes_decrypt_ccm_spec by done. fold p.
  do 2 f_equal. set (m := code_tag _ _ _ _ _ _).
  assert (ctr (ccm_key key_str keysize) keysize (counter0 nonce) tag = m <->
          tag = ctr (ccm_key key_str keysize) keysize (counter0 nonce) m) as E.
  { split; [intros <-|intros ->]; by rewrite ctr_involutive. }
  by rewrite (bool_decide_ext _ _ E).
Qed.

Lemma aes_decrypt_ccm_authenticates_witness :
  let body := [1; 2; 3] in let tag := [4; 5; 6; 7] in let assoc := [0; 1] in
  let nonce := [16; 17; 18; 19; 20; 21; 22] in
  let p := ctr (ccm_key (seqZ 64 16) 128) 128 (counter1 4 nonce) body in
  aes_decrypt_ccm true (body ++ tag) (length body + 4) assoc (length assoc) nonce (length nonce)
    (replicate 3 0) 4 true (seqZ 64 16) 128 =
  Done (Some (if bool_decide (tag = ctr (ccm_key (seqZ 64 16) 128) 128 (counter0 nonce)
                                      (code_tag (seqZ 64 16) 128 4 nonce assoc p))
              then (p ++ drop (length body) (replicate 3 0), length body, Some true)
              else (replicate (length body) 0 ++ drop (length body) (replicate 3 0), length body, Some false))).
Proof.
  intros body tag assoc nonce.
  apply (aes_decrypt_ccm_authenticates (seqZ 64 16) 128 body tag assoc nonce (replicate 3 0) 4);
    [by_compute|by left|by_compute..].
Defined.

(** With the longest tag (16 bytes) the counter is not incremented, so the
    payload is encrypted with the keystream that also encrypts the tag. *)
Theorem aes_ccm_tag16_keystream_reuse key_str keysize payload assoc nonce out :
  Z.of_nat (length payload) <= 2 ^ 30 ->
  valid_keysize keysize -> length key_str = (4 * key_words keysize)%nat -> bytes key_str ->
  (7 <= length nonce <= 13)%nat -> Z.of_nat (length assoc) <= 32768 ->
  bytes nonce -> bytes assoc -> bytes payload ->
  (length (formatted 16 nonce assoc payload) <= length payload + length assoc + 48)%nat ->
  (length payload + 16 <= length out)%nat ->
  aes_encrypt_ccm true payload (length payload) assoc (length assoc) nonce (length nonce) out 16
    key_str keysize =
  Done (Some (ctr (ccm_key key_str keysize) keysize (counter0 nonce) payload ++
              ctr (ccm_key key_str keysize) keysize (counter0 nonce)
                (code_tag key_str keysize 16 nonce assoc payload) ++
              drop (length payload + 16) out, (length payload + 16)%nat)).
Proof. intros. by rewrite aes_encrypt_ccm_spec. Qed.

Lemma aes_ccm_tag16_keystream_reuse_witness :
  let payload := [1; 2] in let assoc := [0] in let nonce := [16; 17; 18; 19; 20; 21; 22] in
  aes_encrypt_ccm true payload (length payload) assoc (length assoc) nonce (length nonce)
    (replicate 18 0) 16 (seqZ 64 16) 128 =
  Done (Some (ctr (ccm_key (seqZ 64 16) 128) 128 (counter0 nonce) payload ++
              ctr (ccm_key (seqZ 64 16) 128) 128 (counter0 nonce)
                (code_tag (seqZ 64 16) 128 16 nonce assoc payload) ++
              drop (length payload + 16) (replicate 18 0), (length payload + 16)%nat)).
Proof.
  intros payload assoc nonce.
  apply (aes_ccm_tag16_keystream_reuse (seqZ 64 16) 128 payload assoc nonce (replicate 18 0));
    [by_compute|by left|by_compute..].
Defined.

(** The first vector of the CCM test of aes_test.c. *)
Example aes_ccm_vector :
  aes_encrypt_ccm true [0x20; 0x21; 0x22; 0x23] 4 (seqZ 0 8) 8 (seqZ 16 7) 7 (replicate 8 0) 4
    (seqZ 64 16) 128 =
  Done (Some ([0x71; 0x62; 0x01; 0x5B; 0x4D; 0xAC; 0x25; 0x5D], 8%nat)).
Proof. vm_compute. reflexivity. Qed.

End AesCcm.
