(* ===== verification/Des.v ===== *)
(** * DES and 3DES (src/crypto-algorithms_learn/des.c)

    The permutations, the round function, the key schedule and the two
    ciphers on checked arrays; FIPS 46-3 on lists of bits; the proof that the
    code computes it, and that a decryption schedule undoes an encryption. *)

From S2P Require Import Prelude.

Module Des.

(** ** The code *)

(** The three macros that move one bit; [BITNUM] reads an array.  The shifts
    are on 32-bit words. *)
Definition BITNUM (a : list Z) (b c : nat) : exec Z :=
  x ← load a (b / 8);
  Done (u32 (Z.shiftl (Z.land (Z.shiftr x (Z.of_nat (7 - b mod 8))) 1) (Z.of_nat c))).
Definition BITNUMINTR (a : Z) (b c : nat) : Z :=
  u32 (Z.shiftl (Z.land (Z.shiftr a (Z.of_nat (31 - b))) 1) (Z.of_nat c)).
Definition BITNUMINTL (a : Z) (b c : nat) : Z :=
  Z.shiftr (Z.land (u32 (Z.shiftl a (Z.of_nat b))) 0x80000000) (Z.of_nat c).

Definition SBOXBIT (a : Z) : Z :=
  Z.lor (Z.lor (Z.land a 0x20) (Z.shiftr (Z.land a 0x1f) 1)) (Z.shiftl (Z.land a 0x01) 4).

Definition sbox1 : list Z :=
  [ 14; 4; 13; 1; 2; 15; 11; 8; 3; 10; 6; 12; 5; 9; 0; 7;
    0; 15; 7; 4; 14; 2; 13; 1; 10; 6; 12; 11; 9; 5; 3; 8;
    4; 1; 14; 8; 13; 6; 2; 11; 15; 12; 9; 7; 3; 10; 5; 0;
    15; 12; 8; 2; 4; 9; 1; 7; 5; 11; 3; 14; 10; 0; 6; 13 ].
Definition sbox2 : list Z :=
  [ 15; 1; 8; 14; 6; 11; 3; 4; 9; 7; 2; 13; 12; 0; 5; 10;
    3; 13; 4; 7; 15; 2; 8; 14; 12; 0; 1; 10; 6; 9; 11; 5;
    0; 14; 7; 11; 10; 4; 13; 1; 5; 8; 12; 6; 9; 3; 2; 15;
    13; 8; 10; 1; 3; 15; 4; 2; 11; 6; 7; 12; 0; 5; 14; 9 ].
Definition sbox3 : list Z :=
  [ 10; 0; 9; 14; 6; 3; 15; 5; 1; 13; 12; 7; 11; 4; 2; 8;
    13; 7; 0; 9; 3; 4; 6; 10; 2; 8; 5; 14; 12; 11; 15; 1;
    13; 6; 4; 9; 8; 15; 3; 0; 11; 1; 2; 12; 5; 10; 14; 7;
    1; 10; 13; 0; 6; 9; 8; 7; 4; 15; 14; 3; 11; 5; 2; 12 ].
Definition sbox4 : list Z :=
  [ 7; 13; 14; 3; 0; 6; 9; 10; 1; 2; 8; 5; 11; 12; 4; 15;
    13; 8; 11; 5; 6; 15; 0; 3; 4; 7; 2; 12; 1; 10; 14; 9;
    10; 6; 9; 0; 12; 11; 7; 13; 15; 1; 3; 14; 5; 2; 8; 4;
    3; 15; 0; 6; 10; 1; 13; 8; 9; 4; 5; 11; 12; 7; 2; 14 ].
Definition sbox5 : list Z :=
  [ 2; 12; 4; 1; 7; 10; 11; 6; 8; 5; 3; 15; 13; 0; 14; 9;
    14; 11; 2; 12; 4; 7; 13; 1; 5; 0; 15; 10; 3; 9; 8; 6;
    4; 2; 1; 11; 10; 13; 7; 8; 15; 9; 12; 5; 6; 3; 0; 14;
    11; 8; 12; 7; 1; 14; 2; 13; 6; 15; 0; 9; 10; 4; 5; 3 ].
Definition sbox6 : list Z :=
  [ 12; 1; 10; 15; 9; 2; 6; 8; 0; 13; 3; 4; 14; 7; 5; 11;
    10; 15; 4; 2; 7; 12; 9; 5; 6; 1; 13; 14; 0; 11; 3; 8;
    9; 14; 15; 5; 2; 8; 12; 3; 7; 0; 4; 10; 1; 13; 11; 6;
    4; 3; 2; 12; 9; 5; 15; 10; 11; 14; 1; 7; 6; 0; 8; 13 ].
Definition sbox7 : list Z :=
  [ 4; 11; 2; 14; 15; 0; 8; 13; 3; 12; 9; 7; 5; 10; 6; 1;
    13; 0; 11; 7; 4; 9; 1; 10; 14; 3; 5; 12; 2; 15; 8; 6;
    1; 4; 11; 13; 12; 3; 7; 14; 10; 15; 6; 8; 0; 5; 9; 2;
    6; 11; 13; 8; 1; 4; 10; 7; 9; 5; 0; 15; 14; 2; 3; 12 ].
Definition sbox8 : list Z :=
  [ 13; 2; 8; 4; 6; 15; 11; 1; 10; 9; 3; 14; 5; 0; 12; 7;
    1; 15; 13; 8; 10; 3; 7; 4; 12; 5; 6; 11; 0; 14; 9; 2;
    7; 11; 4; 1; 9; 12; 14; 2; 0; 6; 10; 13; 15; 3; 5; 8;
    2; 1; 14; 7; 4; 10; 8; 13; 15; 12; 9; 0; 3; 5; 6; 11 ].

(** [x | y | ...] over the arguments of a macro. *)
Definition or_each (f : nat -> nat -> Z) (l : list (nat * nat)) : Z :=
  foldr (fun p => Z.lor (f p.1 p.2)) 0 l.

(** The same with [BITNUM], whose operands read the array. *)
Definition or_BITNUM (a : list Z) (l : list (nat * nat)) : exec Z :=
  foldr (fun p m => x ← BITNUM a p.1 p.2; y ← m; Done (Z.lor x y)) (Done 0) l.

(** [WORD state[2]] is a pair. *)
Definition IP_0 : list (nat * nat) :=
  [ (57, 31); (49, 30); (41, 29); (33, 28); (25, 27); (17, 26); (9, 25); (1, 24); (59, 23);
    (51, 22); (43, 21); (35, 20); (27, 19); (19, 18); (11, 17); (3, 16); (61, 15); (53, 14);
    (45, 13); (37, 12); (29, 11); (21, 10); (13, 9); (5, 8); (63, 7); (55, 6); (47, 5);
    (39, 4); (31, 3); (23, 2); (15, 1); (7, 0) ]%nat.
Definition IP_1 : list (nat * nat) :=
  [ (56, 31); (48, 30); (40, 29); (32, 28); (24, 27); (16, 26); (8, 25); (0, 24); (58, 23);
    (50, 22); (42, 21); (34, 20); (26, 19); (18, 18); (10, 17); (2, 16); (60, 15); (52, 14);
    (44, 13); (36, 12); (28, 11); (20, 10); (12, 9); (4, 8); (62, 7); (54, 6); (46, 5);
    (38, 4); (30, 3); (22, 2); (14, 1); (6, 0) ]%nat.
Definition IP (inp : list Z) : exec (Z * Z) :=
  s0 ← or_BITNUM inp IP_0;
  s1 ← or_BITNUM inp IP_1;
  Done (s0, s1).

(** [in[7 - b]]: the eight lines of [InvIP] differ by [b] only. *)
Definition InvIP_byte (s : Z * Z) (b : nat) : Z :=
  Z.lor (Z.lor (Z.lor (Z.lor (Z.lor (Z.lor (Z.lor
    (BITNUMINTR s.2 b 7) (BITNUMINTR s.1 b 6))
    (BITNUMINTR s.2 (b + 8) 5)) (BITNUMINTR s.1 (b + 8) 4))
    (BITNUMINTR s.2 (b + 16) 3)) (BITNUMINTR s.1 (b + 16) 2))
    (BITNUMINTR s.2 (b + 24) 1)) (BITNUMINTR s.1 (b + 24) 0).
Definition InvIP (s : Z * Z) (out : list Z) : exec (list Z) :=
  for_range 0 8 (fun i out => store out i (u8 (InvIP_byte s (7 - i)))) out.

(** The steps of [f]: the two halves of the expansion, the 48-bit buffer, the
    S-boxes and the P-box. *)
Definition expand1 (s : Z) : Z :=
  foldr Z.lor 0
    [ BITNUMINTL s 31 0; Z.shiftr (Z.land s 0xf0000000) 1;
      BITNUMINTL s 4 5; BITNUMINTL s 3 6;
      Z.shiftr (Z.land s 0x0f000000) 3; BITNUMINTL s 8 11;
      BITNUMINTL s 7 12; Z.shiftr (Z.land s 0x00f00000) 5;
      BITNUMINTL s 12 17; BITNUMINTL s 11 18;
      Z.shiftr (Z.land s 0x000f0000) 7; BITNUMINTL s 16 23 ].
Definition expand2 (s : Z) : Z :=
  foldr Z.lor 0
    [ BITNUMINTL s 15 0; u32 (Z.shiftl (Z.land s 0x0000f000) 15);
      BITNUMINTL s 20 5; BITNUMINTL s 19 6;
      u32 (Z.shiftl (Z.land s 0x00000f00) 13); BITNUMINTL s 24 11;
      BITNUMINTL s 23 12; u32 (Z.shiftl (Z.land s 0x000000f0) 11);
      BITNUMINTL s 28 17; BITNUMINTL s 27 18;
      u32 (Z.shiftl (Z.land s 0x0000000f) 9); BITNUMINTL s 0 23 ].
Definition expand (s : Z) : list Z :=
  let t1 := expand1 s in
  let t2 := expand2 s in
  [ Z.land (Z.shiftr t1 24) 0xff; Z.land (Z.shiftr t1 16) 0xff; Z.land (Z.shiftr t1 8) 0xff;
    Z.land (Z.shiftr t2 24) 0xff; Z.land (Z.shiftr t2 16) 0xff; Z.land (Z.shiftr t2 8) 0xff ].

(** [sbox[SBOXBIT(a)]]; the index is below 64 for a 6-bit [a]. *)
Definition lookup_sbox (sbox : list Z) (a : Z) : Z := nth (Z.to_nat (SBOXBIT a)) sbox 0.
Definition substitute (l0 l1 l2 l3 l4 l5 : Z) : Z :=
  foldr Z.lor 0
    [ u32 (Z.shiftl (lookup_sbox sbox1 (Z.shiftr l0 2)) 28);
      u32 (Z.shiftl (lookup_sbox sbox2 (Z.lor (Z.shiftl (Z.land l0 0x03) 4) (Z.shiftr l1 4))) 24);
      u32 (Z.shiftl (lookup_sbox sbox3 (Z.lor (Z.shiftl (Z.land l1 0x0f) 2) (Z.shiftr l2 6))) 20);
      u32 (Z.shiftl (lookup_sbox sbox4 (Z.land l2 0x3f)) 16);
      u32 (Z.shiftl (lookup_sbox sbox5 (Z.shiftr l3 2)) 12);
      u32 (Z.shiftl (lookup_sbox sbox6 (Z.lor (Z.shiftl (Z.land l3 0x03) 4) (Z.shiftr l4 4))) 8);
      u32 (Z.shiftl (lookup_sbox sbox7 (Z.lor (Z.shiftl (Z.land l4 0x0f) 2) (Z.shiftr l5 6))) 4);
      lookup_sbox sbox8 (Z.land l5 0x3f) ].
Definition P_box : list (nat * nat) :=
  [ (15, 0); (6, 1); (19, 2); (20, 3); (28, 4); (11, 5); (27, 6); (16, 7); (0, 8); (14, 9);
    (22, 10); (25, 11); (4, 12); (17, 13); (30, 14); (9, 15); (1, 16); (7, 17); (23, 18);
    (13, 19); (31, 20); (26, 21); (2, 22); (8, 23); (18, 24); (12, 25); (29, 26); (5, 27);
    (21, 28); (10, 29); (3, 30); (24, 31) ]%nat.
Definition f (state : Z) (key : list Z) : exec Z :=
  let lrg i := nth i (expand state) 0 in
  k0 ← load key 0; k1 ← load key 1; k2 ← load key 2;
  k3 ← load key 3; k4 ← load key 4; k5 ← load key 5;
  let state := substitute (Z.lxor (lrg 0%nat) k0) (Z.lxor (lrg 1%nat) k1) (Z.lxor (lrg 2%nat) k2)
                          (Z.lxor (lrg 3%nat) k3) (Z.lxor (lrg 4%nat) k4) (Z.lxor (lrg 5%nat) k5) in
  Done (or_each (BITNUMINTL state) P_box).

Inductive DES_MODE := DES_ENCRYPT | DES_DECRYPT.

Definition key_rnd_shift : list Z := [1; 1; 2; 2; 2; 2; 2; 2; 1; 2; 2; 2; 2; 2; 2; 1].
Definition key_perm_c : list nat :=
  [56; 48; 40; 32; 24; 16; 8; 0; 57; 49; 41; 33; 25; 17; 9; 1; 58; 50; 42; 34; 26; 18; 10; 2;
   59; 51; 43; 35]%nat.
Definition key_perm_d : list nat :=
  [62; 54; 46; 38; 30; 22; 14; 6; 61; 53; 45; 37; 29; 21; 13; 5; 60; 52; 44; 36; 28; 20; 12;
   4; 27; 19; 11; 3]%nat.
Definition key_compression : list nat :=
  [13; 16; 10; 23; 0; 4; 2; 27; 14; 5; 20; 9; 22; 18; 11; 3; 25; 7; 15; 6; 26; 19; 12; 1; 40;
   51; 30; 36; 46; 54; 29; 39; 50; 44; 32; 47; 43; 48; 38; 55; 33; 52; 45; 41; 49; 35; 28; 31]%nat.

(** The two loops of permuted choice 1. *)
Definition pick_key (key : list Z) (perm : list nat) : exec Z :=
  for_range 0 28 (fun i C => b ← load perm i; x ← BITNUM key b (31 - i); Done (Z.lor C x)) 0.

Definition rotate_key (C s : Z) : Z :=
  Z.land (Z.lor (u32 (Z.shiftl C s)) (Z.shiftr C (28 - s))) 0xfffffff0.

(** [row[j / 8] |= BITNUMINTR(C, key_compression[j] - base, 7 - j % 8)]. *)
Definition compress_bit (C : Z) (base j : nat) (row : list Z) : exec (list Z) :=
  b ← load key_compression j;
  x ← load row (j / 8);
  store row (j / 8) (u8 (Z.lor x (BITNUMINTR C (b - base) (7 - j mod 8)))).

(** The row [schedule[to_gen]] of one round. *)
Definition key_row (C D : Z) (row : list Z) : exec (list Z) :=
  row ← for_range 0 6 (fun j row => store row j 0) row;
  row ← for_range 0 24 (compress_bit C 0) row;
  for_range 24 24 (compress_bit D 28) row.

(** The body of the loop that generates the subkeys. *)
Definition key_round (mode : DES_MODE) (i : nat) (st : Z * Z * list (list Z))
    : exec (Z * Z * list (list Z)) :=
  let '(C, D, schedule) := st in
  s ← load key_rnd_shift i;
  let C := rotate_key C s in
  let D := rotate_key D s in
  let to_gen := match mode with DES_DECRYPT => (15 - i)%nat | DES_ENCRYPT => i end in
  row ← load schedule to_gen;
  row ← key_row C D row;
  schedule ← store schedule to_gen row;
  Done (C, D, schedule).

Definition des_key_setup (key : list Z) (schedule : list (list Z)) (mode : DES_MODE)
    : exec (list (list Z)) :=
  C ← pick_key key key_perm_c;
  D ← pick_key key key_perm_d;
  r ← for_range 0 16 (key_round mode) (C, D, schedule);
  Done r.2.

(** [in] and [out] may be the same array: all of [in] is read before [out] is
    written. *)
Definition des_crypt (inp out : list Z) (key : list (list Z)) : exec (list Z) :=
  state ← IP inp;
  state ← for_range 0 15 (fun idx state =>
            k ← load key idx;
            x ← f state.2 k;
            Done (state.2, Z.lxor x state.1)) state;
  k ← load key 15;
  x ← f state.2 k;
  InvIP (Z.lxor x state.1, state.2) out.

(** [&key[i]]. *)
Definition three_des_key_setup (key : list Z) (schedule : list (list (list Z))) (mode : DES_MODE)
    : exec (list (list (list Z))) :=
  let '(first, last, other) := match mode with
                               | DES_ENCRYPT => (0, 16, DES_DECRYPT)
                               | DES_DECRYPT => (16, 0, DES_ENCRYPT)
                               end%nat in
  s ← load schedule 0; s ← des_key_setup (drop first key) s mode; schedule ← store schedule 0 s;
  s ← load schedule 1; s ← des_key_setup (drop 8 key) s other; schedule ← store schedule 1 s;
  s ← load schedule 2; s ← des_key_setup (drop last key) s mode; store schedule 2 s.

Definition three_des_crypt (inp out : list Z) (key : list (list (list Z))) : exec (list Z) :=
  k ← load key 0; out ← des_crypt inp out k;
  k ← load key 1; out ← des_crypt out out k;
  k ← load key 2; des_crypt out out k.

(** ** FIPS 46-3 *)

(** The low [n] bits of a number, the most significant first. *)
Definition wbits (n : nat) (x : Z) : list bool := (fun i => Z.testbit x (Z.of_nat i)) <$> rev (seq 0 n).

Module Fips46.
Local Open Scope nat_scope.

(** Bit [i] of a block is its [i]-th from the left, counted from 1. *)
Definition permute (t : list nat) (l : list bool) : list bool := (fun i => nth (i - 1) l false) <$> t.
Definition xor (a b : list bool) : list bool := zip_with xorb a b.
Definition num (l : list bool) : Z := foldl (fun n b => 2 * n + Z.b2z b)%Z 0%Z l.

Definition IP : list nat :=
  [58; 50; 42; 34; 26; 18; 10; 2; 60; 52; 44; 36; 28; 20; 12; 4; 62; 54; 46; 38; 30; 22; 14;
   6; 64; 56; 48; 40; 32; 24; 16; 8; 57; 49; 41; 33; 25; 17; 9; 1; 59; 51; 43; 35; 27; 19; 11;
   3; 61; 53; 45; 37; 29; 21; 13; 5; 63; 55; 47; 39; 31; 23; 15; 7].
Definition IP_inv : list nat :=
  [40; 8; 48; 16; 56; 24; 64; 32; 39; 7; 47; 15; 55; 23; 63; 31; 38; 6; 46; 14; 54; 22; 62;
   30; 37; 5; 45; 13; 53; 21; 61; 29; 36; 4; 44; 12; 52; 20; 60; 28; 35; 3; 43; 11; 51; 19; 59;
   27; 34; 2; 42; 10; 50; 18; 58; 26; 33; 1; 41; 9; 49; 17; 57; 25].
Definition E : list nat :=
  [32; 1; 2; 3; 4; 5; 4; 5; 6; 7; 8; 9; 8; 9; 10; 11; 12; 13; 12; 13; 14; 15; 16; 17; 16; 17;
   18; 19; 20; 21; 20; 21; 22; 23; 24; 25; 24; 25; 26; 27; 28; 29; 28; 29; 30; 31; 32; 1].
Definition P : list nat :=
  [16; 7; 20; 21; 29; 12; 28; 17; 1; 15; 23; 26; 5; 18; 31; 10; 2; 8; 24; 14; 32; 27; 3; 9;
   19; 13; 30; 6; 22; 11; 4; 25].
Definition PC1_C : list nat :=
  [57; 49; 41; 33; 25; 17; 9; 1; 58; 50; 42; 34; 26; 18; 10; 2; 59; 51; 43; 35; 27; 19; 11; 3;
   60; 52; 44; 36].
Definition PC1_D : list nat :=
  [63; 55; 47; 39; 31; 23; 15; 7; 62; 54; 46; 38; 30; 22; 14; 6; 61; 53; 45; 37; 29; 21; 13;
   5; 28; 20; 12; 4].
Definition PC2 : list nat :=
  [14; 17; 11; 24; 1; 5; 3; 28; 15; 6; 21; 10; 23; 19; 12; 4; 26; 8; 16; 7; 27; 20; 13; 2; 41;
   52; 31; 37; 47; 55; 30; 40; 51; 45; 33; 48; 44; 49; 39; 56; 34; 53; 46; 42; 50; 36; 29; 32].
Definition shifts : list nat := [1; 1; 2; 2; 2; 2; 2; 2; 1; 2; 2; 2; 2; 2; 2; 1].

(** The rows of S1, ..., S8, a hexadecimal digit per column. *)
Definition boxes : list (list Z) :=
  [[0xE4D12FB83A6C5907; 0x0F74E2D1A6CB9538; 0x41E8D62BFC973A50; 0xFC8249175B3EA06D];
   [0xF18E6B34972DC05A; 0x3D47F28EC01A69B5; 0x0E7BA4D158C6932F; 0xD8A13F42B67C05E9];
   [0xA09E63F51DC7B428; 0xD709346A285ECBF1; 0xD6498F30B12C5AE7; 0x1AD069874FE3B52C];
   [0x7DE3069A1285BC4F; 0xD8B56F03472C1AE9; 0xA690CB7DF13E5284; 0x3F06A1D8945BC72E];
   [0x2C417AB6853FD0E9; 0xEB2C47D150FA3986; 0x421BAD78F9C5630E; 0xB8C71E2D6F09A453];
   [0xC1AF92680D34E75B; 0xAF427C9561DE0B38; 0x9EF528C3704A1DB6; 0x432C95FABE17608D];
   [0x4B2EF08D3C975A61; 0xD0B7491AE35C2F86; 0x14BDC37EAF680592; 0x6BD814A7950FE23C];
   [0xD2846FB1A93E50C7; 0x1FD8A374C56B0E92; 0x7B419CE206ADF358; 0x21E74A8DFC90356B]]%Z.

(** The outer two bits select the row, the inner four the column. *)
Definition S (rows : list Z) (b : list bool) : list bool :=
  let row := num [nth 0 b false; nth 5 b false] in
  let col := num (take 4 (drop 1 b)) in
  wbits 4 (Z.shiftr (nth (Z.to_nat row) rows 0%Z) (4 * (15 - col))).

Definition f (R K : list bool) : list bool :=
  permute P (concat (zip_with S boxes (chunks_n 6 8 (xor (permute E R) K)))).

Definition round (s : list bool * list bool) (K : list bool) : list bool * list bool :=
  (s.2, xor s.1 (f s.2 K)).

Definition cipher (Ks : list (list bool)) (b : list bool) : list bool :=
  let b := permute IP b in
  let s := foldl round (take 32 b, drop 32 b) Ks in
  permute IP_inv (s.2 ++ s.1).

Definition rotl (s : nat) (l : list bool) : list bool := drop s l ++ take s l.

Fixpoint subkeys (shifts : list nat) (C D : list bool) : list (list bool) :=
  match shifts with
  | [] => []
  | s :: shifts => let C := rotl s C in let D := rotl s D in permute PC2 (C ++ D) :: subkeys shifts C D
  end.

Definition bits_of (l : list Z) : list bool := concat (wbits 8 <$> l).
Definition bytes_of (l : list bool) : list Z := num <$> chunks_n 8 8 l.

Definition key_schedule (key : list Z) : list (list bool) :=
  subkeys shifts (permute PC1_C (bits_of key)) (permute PC1_D (bits_of key)).
Definition encrypt (key b : list Z) : list Z := bytes_of (cipher (key_schedule key) (bits_of b)).
Definition decrypt (key b : list Z) : list Z := bytes_of (cipher (rev (key_schedule key)) (bits_of b)).

(** The triple cipher (TDEA). *)
Definition tdea_encrypt (key b : list Z) : list Z :=
  encrypt (take 8 (drop 16 key)) (decrypt (take 8 (drop 8 key)) (encrypt (take 8 key) b)).
Definition tdea_decrypt (key b : list Z) : list Z :=
  decrypt (take 8 key) (encrypt (take 8 (drop 8 key)) (decrypt (take 8 (drop 16 key)) b)).

End Fips46.

(** What a key schedule of either kind makes of a block. *)
Definition fips (mode : DES_MODE) : list Z -> list Z -> list Z :=
  match mode with DES_ENCRYPT => Fips46.encrypt | DES_DECRYPT => Fips46.decrypt end.
Definition opposite (mode : DES_MODE) : DES_MODE :=
  match mode with DES_ENCRYPT => DES_DECRYPT | DES_DECRYPT => DES_ENCRYPT end.

(** ** Words as lists of bits *)

(** A word put together from single bits: [(b, c)] puts [b] at place [c]. *)
Definition sel (l : list (bool * nat)) : Z :=
  foldr (fun p => Z.lor (Z.shiftl (Z.b2z p.1) (Z.of_nat p.2))) 0 l.
Fixpoint pick (l : list (bool * nat)) (i : nat) : bool :=
  match l with [] => false | (b, c) :: l => if (i =? c)%nat then b else pick l i end.

Lemma testbit_single b c i :
  Z.testbit (Z.shiftl (Z.b2z b) (Z.of_nat c)) (Z.of_nat i) = ((i =? c)%nat && b).
Proof.
  rewrite Z.shiftl_spec by lia. destruct (Nat.eqb_spec i c) as [->|Hne].
  - rewrite Z.sub_diag. by destruct b.
  - destruct (decide (i < c)%nat); [by rewrite Z.testbit_neg_r by lia|].
    rewrite (testbit_high _ 1); [done| |lia]. destruct b; simpl; lia.
Qed.

Lemma pick_notin l i : i ∉ l.*2 -> pick l i = false.
Proof.
  induction l as [|[b c] l IH]; [done|]. cbn [fmap list_fmap snd pick].
  rewrite not_elem_of_cons. intros [Hi Hl]. rewrite (proj2 (Nat.eqb_neq _ _)) by done. by apply IH.
Qed.

Lemma testbit_sel l i : NoDup l.*2 -> Z.testbit (sel l) (Z.of_nat i) = pick l i.
Proof.
  induction l as [|[b c] l IH]; intros Hl; [by rewrite Z.bits_0|].
  apply NoDup_cons in Hl as [Hc Hl]. cbn [sel foldr fst snd pick]. fold (sel l).
  rewrite Z.lor_spec, testbit_single, IH by done.
  destruct (Nat.eqb_spec i c) as [->|]; [|done]. rewrite pick_notin by done. by rewrite orb_false_r.
Qed.

Lemma wbits_sel n l : NoDup l.*2 -> wbits n (sel l) = pick l <$> rev (seq 0 n).
Proof. intros Hl. apply list_fmap_ext. intros i x _. by apply testbit_sel. Qed.

Lemma sel_range n l : Forall (fun c => c < n)%nat l.*2 -> 0 <= sel l < 2 ^ Z.of_nat n.
Proof.
  induction l as [|[b c] l IH]; intros H; [cbn; lia|].
  apply Forall_cons in H as [Hc Hl]. cbn [sel foldr fst snd] in *. fold (sel l).
  assert (0 <= Z.shiftl (Z.b2z b) (Z.of_nat c) < 2 ^ Z.of_nat n) as H1.
  { rewrite Z.shiftl_mul_pow2 by lia. pose proof (Z.pow_le_mono_r 2 (Z.of_nat (S c)) (Z.of_nat n) ltac:(lia) ltac:(lia)) as Hp.
    rewrite Nat2Z.inj_succ, Z.pow_succ_r in Hp by lia.
    pose proof (Z.pow_pos_nonneg 2 (Z.of_nat c) ltac:(lia) ltac:(lia)). destruct b; cbn [Z.b2z]; lia. }
  apply lor_bound; [lia|done|by apply IH].
Qed.

Lemma land_1 x : Z.land x 1 = Z.b2z (Z.testbit x 0).
Proof. change 1 with (Z.ones 1) at 1. rewrite Z.land_ones, Z.bit0_mod by lia. done. Qed.

Lemma u32_single b c : (c < 32)%nat -> u32 (Z.shiftl (Z.b2z b) (Z.of_nat c)) = Z.shiftl (Z.b2z b) (Z.of_nat c).
Proof.
  intros Hc. apply u32_small. pose proof (sel_range 32 [(b, c)]) as H. cbn in H.
  rewrite Z.lor_0_r in H. apply H. by constructor.
Qed.

Lemma BITNUMINTR_single a b c :
  (c < 32)%nat ->
  BITNUMINTR a b c = Z.shiftl (Z.b2z (Z.testbit a (Z.of_nat (31 - b)))) (Z.of_nat c).
Proof.
  intros Hc. unfold BITNUMINTR. rewrite land_1, Z.shiftr_spec, Z.add_0_l by lia. by apply u32_single.
Qed.

Lemma BITNUMINTL_single a b c :
  (b < 32)%nat -> (c < 32)%nat ->
  BITNUMINTL a b c = Z.shiftl (Z.b2z (Z.testbit a (Z.of_nat (31 - b)))) (Z.of_nat (31 - c)).
Proof.
  intros Hb Hc. apply Z.bits_inj'. intros i Hi. unfold BITNUMINTL, u32.
  rewrite <- (Z2Nat.id i), testbit_single by done. rewrite Z.shiftr_spec, Z.land_spec by lia.
  change 0x80000000 with (2 ^ 31). rewrite Z.pow2_bits_eqb by lia.
  destruct (Nat.eqb_spec (Z.to_nat i) (31 - c)) as [E|E].
  - rewrite (proj2 (Z.eqb_eq _ _)), andb_true_r by lia.
    rewrite Z.mod_pow2_bits_low, Z.shiftl_spec by lia. cbn [andb]. f_equal. lia.
  - rewrite (proj2 (Z.eqb_neq _ _)) by lia. by rewrite andb_false_r.
Qed.

Lemma BITNUM_single a b c x :
  (c < 32)%nat -> a !! (b / 8)%nat = Some x ->
  BITNUM a b c = Done (Z.shiftl (Z.b2z (Z.testbit x (Z.of_nat (7 - b mod 8)))) (Z.of_nat c)).
Proof.
  intros Hc Ha. unfold BITNUM. rewrite (load_Done _ _ _ Ha). run.
  rewrite land_1, Z.shiftr_spec, Z.add_0_l by lia. by rewrite u32_single.
Qed.

(** Bits counted from the left: of an array of bytes, of a 32-bit word. *)
Definition abit (a : list Z) (b : nat) : bool := Z.testbit (nth (b / 8) a 0) (Z.of_nat (7 - b mod 8)).
Definition wbit (a : Z) (b : nat) : bool := Z.testbit a (Z.of_nat (31 - b)).

Lemma wbits_32 x : wbits 32 x = wbit x <$> seq 0 32.
Proof. reflexivity. Qed.

Lemma bits_of_8 a : length a = 8%nat -> Fips46.bits_of a = abit a <$> seq 0 64.
Proof. intros H. explode a. reflexivity. Qed.

Lemma bits_of_6 a : length a = 6%nat -> Fips46.bits_of a = abit a <$> seq 0 48.
Proof. intros H. explode a. reflexivity. Qed.

Lemma or_BITNUM_sel a l :
  length a = 8%nat -> Forall (fun p => p.1 < 64 /\ p.2 < 32)%nat l ->
  or_BITNUM a l = Done (sel ((fun p => (abit a p.1, p.2)) <$> l)).
Proof.
  intros Ha. induction l as [|[b c] l IH]; intros H; [done|].
  apply Forall_cons in H as [[Hb Hc] Hl]. cbn [or_BITNUM foldr fst snd fmap list_fmap sel] in *.
  fold (or_BITNUM a l). rewrite IH by done.
  destruct (load_lt a (b / 8)) as (x & Hx & _); [apply Nat.Div0.div_lt_upper_bound; lia|].
  rewrite (BITNUM_single _ _ _ x) by done. run. unfold abit. rewrite (nth_lookup_Some _ _ _ _ Hx). done.
Qed.

Lemma or_INTL_sel a l :
  Forall (fun p => p.1 < 32 /\ p.2 < 32)%nat l ->
  or_each (BITNUMINTL a) l = sel ((fun p => (wbit a p.1, (31 - p.2)%nat)) <$> l).
Proof.
  induction l as [|[b c] l IH]; intros H; [done|]. apply Forall_cons in H as [[Hb Hc] Hl].
  cbn [or_each foldr fst snd fmap list_fmap sel] in *. fold (or_each (BITNUMINTL a) l).
  by rewrite IH, BITNUMINTL_single.
Qed.

Lemma IP_spec a :
  length a = 8%nat ->
  exists s, IP a = Done s /\ is_u32 s.1 /\ is_u32 s.2 /\
    (wbits 32 s.1, wbits 32 s.2) = (take 32 (Fips46.permute Fips46.IP (Fips46.bits_of a)),
                                    drop 32 (Fips46.permute Fips46.IP (Fips46.bits_of a))).
Proof.
  intros Ha. unfold IP. rewrite !or_BITNUM_sel by (done || by_compute). run.
  eexists. split; [done|]. cbn [fst snd].
  split; [apply (sel_range 32); by_compute|].
  split; [apply (sel_range 32); by_compute|].
  rewrite !wbits_sel, bits_of_8 by (done || by_compute).
  cbv -[abit]. reflexivity.
Qed.

Lemma P_box_spec s :
  let v := or_each (BITNUMINTL s) P_box in
  is_u32 v /\ wbits 32 v = Fips46.permute Fips46.P (wbits 32 s).
Proof.
  intros v. subst v. rewrite or_INTL_sel by by_compute.
  split; [apply (sel_range 32); by_compute|].
  rewrite wbits_sel, wbits_32 by (by_compute). cbv -[wbit]. reflexivity.
Qed.

Lemma InvIP_byte_sel s b :
  InvIP_byte s b =
    sel [(wbit s.2 b, 7); (wbit s.1 b, 6); (wbit s.2 (b + 8), 5); (wbit s.1 (b + 8), 4);
         (wbit s.2 (b + 16), 3); (wbit s.1 (b + 16), 2); (wbit s.2 (b + 24), 1); (wbit s.1 (b + 24), 0)]%nat.
Proof.
  unfold InvIP_byte. rewrite !BITNUMINTR_single by lia. cbn [sel foldr fst snd].
  by rewrite Z.lor_0_r, !Z.lor_assoc.
Qed.

Lemma InvIP_spec s out :
  length out = 8%nat ->
  exists o, InvIP s out = Done o /\ length o = 8%nat /\ bytes o /\
    Fips46.bits_of o = Fips46.permute Fips46.IP_inv (wbits 32 s.1 ++ wbits 32 s.2).
Proof.
  intros Ho. exists ((fun i => u8 (InvIP_byte s (7 - i))) <$> seq 0 8).
  split; [explode out; reflexivity|]. split; [done|].
  split; [by apply Forall_fmap, Forall_true; intros; apply u8_range|].
  rewrite !wbits_32. unfold Fips46.bits_of. rewrite <- list_fmap_compose.
  rewrite (list_fmap_ext (wbits 8 ∘ (fun i => u8 (InvIP_byte s (7 - i)))) (fun i => wbits 8 (InvIP_byte s (7 - i)))).
  2: { intros k x _. unfold compose. rewrite u8_small; [done|]. rewrite InvIP_byte_sel.
       apply (sel_range 8). by_compute. }
  rewrite (list_fmap_ext _ (fun i => pick [(wbit s.2 (7 - i), 7); (wbit s.1 (7 - i), 6);
    (wbit s.2 (7 - i + 8), 5); (wbit s.1 (7 - i + 8), 4); (wbit s.2 (7 - i + 16), 3);
    (wbit s.1 (7 - i + 16), 2); (wbit s.2 (7 - i + 24), 1); (wbit s.1 (7 - i + 24), 0)]%nat <$> rev (seq 0 8))).
  - cbv -[wbit]. reflexivity.
  - intros k x _. rewrite InvIP_byte_sel, wbits_sel by by_compute. done.
Qed.

(** Splits a disjunction of words bit by bit. *)
Lemma wbits_lor n x y : wbits n (Z.lor x y) = zip_with orb (wbits n x) (wbits n y).
Proof.
  unfold wbits. induction (rev (seq 0 n)) as [|i l IH]; [done|]. cbn. by rewrite Z.lor_spec, IH.
Qed.

Lemma wbits_lxor n x y : wbits n (Z.lxor x y) = Fips46.xor (wbits n x) (wbits n y).
Proof.
  unfold wbits, Fips46.xor. induction (rev (seq 0 n)) as [|i l IH]; [done|]. cbn. by rewrite Z.lxor_spec, IH.
Qed.

Lemma expand_spec s :
  is_u32 s -> bytes (expand s) /\ Fips46.bits_of (expand s) = Fips46.permute Fips46.E (wbits 32 s).
Proof.
  intros Hs. split.
  - unfold expand. repeat constructor; rewrite land_255; apply Z.mod_pos_bound; lia.
  - cbv -[Z.testbit Z.lor Z.land Z.shiftr Z.shiftl Z.modulo Z.pow].
    repeat (apply (f_equal2 cons); [bits|]). done.
Qed.

(** One S-box: the code's index computation against row and column. *)
Definition box_ok (sbox rows : list Z) : Prop :=
  forall v, 0 <= v < 64 ->
    0 <= lookup_sbox sbox v < 2 ^ 4 /\ wbits 4 (lookup_sbox sbox v) = Fips46.S rows (wbits 6 v).

Lemma box_check sbox rows :
  forallb (fun v => bool_decide (0 <= lookup_sbox sbox v < 2 ^ 4 /\
                      wbits 4 (lookup_sbox sbox v) = Fips46.S rows (wbits 6 v))) (seqZ 0 64) = true ->
  box_ok sbox rows.
Proof. intros H v Hv. by apply (bool_decide_eq_true_1 _), (check_range _ 0 64 H). Qed.

Lemma boxes_ok : Forall2 box_ok [sbox1; sbox2; sbox3; sbox4; sbox5; sbox6; sbox7; sbox8] Fips46.boxes.
Proof. repeat (constructor; [apply box_check; vm_compute; reflexivity|]). constructor. Qed.

(** The 6-bit groups of three bytes. *)
Lemma groups l0 l1 l2 :
  is_u8 l0 -> is_u8 l1 -> is_u8 l2 ->
  let g := [Z.shiftr l0 2; Z.lor (Z.shiftl (Z.land l0 0x03) 4) (Z.shiftr l1 4);
            Z.lor (Z.shiftl (Z.land l1 0x0f) 2) (Z.shiftr l2 6); Z.land l2 0x3f] in
  Forall (fun v => 0 <= v < 64) g /\ wbits 6 <$> g = chunks_n 6 4 (Fips46.bits_of [l0; l1; l2]).
Proof.
  intros H0 H1 H2 g. split.
  - assert (forall x n, is_u8 x -> 2 <= n -> 0 <= Z.shiftr x n < 2 ^ 6) as Hr.
    { intros x n Hx Hn. rewrite Z.shiftr_div_pow2 by lia. pose proof (Z.pow_le_mono_r 2 2 n).
      unfold is_u8 in Hx. split; [apply Z.div_pos; lia|apply Z.div_lt_upper_bound; nia]. }
    assert (forall x k n, 0 <= n -> 0 <= k -> k + n = 6 -> 0 <= Z.shiftl (Z.land x (Z.ones k)) n < 2 ^ 6) as Hl.
    { intros x k n Hn Hk E. rewrite Z.land_ones, Z.shiftl_mul_pow2, <- E, Z.pow_add_r by lia.
      pose proof (Z.mod_pos_bound x (2 ^ k)). nia. }
    pose proof (Hl l0 2 4) as A. pose proof (Hl l1 4 2) as B. pose proof (Hl l2 6 0) as C.
    rewrite Z.shiftl_0_r in C. change (Z.ones 2) with 3 in A. change (Z.ones 4) with 15 in B.
    change (Z.ones 6) with 63 in C.
    repeat apply Forall_cons_2; [apply Hr; (done || lia)|apply (lor_bound _ _ 6); [lia|by apply A|apply Hr; (done || lia)]
      |apply (lor_bound _ _ 6); [lia|by apply B|apply Hr; (done || lia)]|by apply C|constructor].
  - subst g. cbv -[Z.testbit Z.lor Z.land Z.shiftr Z.shiftl Z.modulo Z.pow].
    repeat (apply (f_equal2 cons); [repeat (apply (f_equal2 cons); [bits|]); done|]). done.
Qed.

Lemma nibbles_word s1 s2 s3 s4 s5 s6 s7 s8 :
  Forall (fun s => 0 <= s < 2 ^ 4) [s1; s2; s3; s4; s5; s6; s7; s8] ->
  wbits 32 (foldr Z.lor 0 [u32 (Z.shiftl s1 28); u32 (Z.shiftl s2 24); u32 (Z.shiftl s3 20);
    u32 (Z.shiftl s4 16); u32 (Z.shiftl s5 12); u32 (Z.shiftl s6 8); u32 (Z.shiftl s7 4); s8]) =
  concat (wbits 4 <$> [s1; s2; s3; s4; s5; s6; s7; s8]).
Proof.
  intros H. inv_Forall. cbv -[Z.testbit Z.lor Z.land Z.shiftr Z.shiftl Z.modulo Z.pow].
  repeat (apply (f_equal2 cons); [bits|]). done.
Qed.

Lemma boxes_lookup sb rows g :
  Forall2 box_ok sb rows -> Forall (fun v => 0 <= v < 64) g ->
  Forall (fun s => 0 <= s < 2 ^ 4) (zip_with lookup_sbox sb g) /\
  wbits 4 <$> zip_with lookup_sbox sb g = zip_with Fips46.S rows (wbits 6 <$> g).
Proof.
  intros Hb. revert g. induction Hb as [|sbox row sb rows H Hb IH]; intros [|v g] Hg; try done.
  apply Forall_cons in Hg as [Hv Hg]. destruct (H v Hv) as [R E]. destruct (IH g Hg) as [R' E'].
  split; [by constructor|]. cbn [zip_with fmap list_fmap]. by rewrite E, E'.
Qed.

Lemma substitute_spec l0 l1 l2 l3 l4 l5 :
  bytes [l0; l1; l2; l3; l4; l5] ->
  wbits 32 (substitute l0 l1 l2 l3 l4 l5) =
    concat (zip_with Fips46.S Fips46.boxes (chunks_n 6 8 (Fips46.bits_of [l0; l1; l2; l3; l4; l5]))).
Proof.
  intros H. unfold bytes in H. inv_Forall.
  destruct (groups l0 l1 l2) as [R1 E1]; [done..|]. destruct (groups l3 l4 l5) as [R2 E2]; [done..|].
  assert (chunks_n 6 8 (Fips46.bits_of [l0; l1; l2; l3; l4; l5]) =
    chunks_n 6 4 (Fips46.bits_of [l0; l1; l2]) ++ chunks_n 6 4 (Fips46.bits_of [l3; l4; l5])) as -> by reflexivity.
  rewrite <- E1, <- E2, <- fmap_app.
  destruct (boxes_lookup _ _ _ boxes_ok (Forall_app_2 _ _ _ R1 R2)) as [R E]. rewrite <- E.
  unfold substitute. by apply nibbles_word.
Qed.

Lemma xor_app a a' b b' : length a = length b -> Fips46.xor (a ++ a') (b ++ b') = Fips46.xor a b ++ Fips46.xor a' b'.
Proof. intros H. unfold Fips46.xor. by rewrite zip_with_app. Qed.

Lemma bits_of_xor : forall a b, length a = length b ->
  Fips46.bits_of (zip_with Z.lxor a b) = Fips46.xor (Fips46.bits_of a) (Fips46.bits_of b).
Proof.
  induction a as [|x a IH]; intros [|y b] H; try done. unfold Fips46.bits_of in *.
  cbn [zip_with fmap list_fmap concat]. rewrite xor_app by done. rewrite wbits_lxor, IH; [done|]. by injection H.
Qed.

Lemma f_spec s key :
  is_u32 s -> length key = 6%nat -> bytes key ->
  exists v, f s key = Done v /\ is_u32 v /\
    wbits 32 v = Fips46.f (wbits 32 s) (Fips46.bits_of key).
Proof.
  intros Hs Hk Bk. destruct (expand_spec s Hs) as [Be Ee].
  assert (bytes (zip_with Z.lxor (expand s) key)) as Bx by by apply bytes_zip_lxor.
  assert (Fips46.bits_of (zip_with Z.lxor (expand s) key) =
          Fips46.xor (Fips46.permute Fips46.E (wbits 32 s)) (Fips46.bits_of key)) as Ex
    by (rewrite bits_of_xor, Ee; done).
  remember (expand s) as e eqn:He. assert (length e = 6%nat) as Hle by by rewrite He.
  explode key. explode e. eexists.
  split; [unfold f; rewrite <- He; reflexivity|]. cbn [nth].
  edestruct P_box_spec as [Hr Hb]. split; [exact Hr|]. etrans; [exact Hb|].
  unfold Fips46.f. rewrite <- Ex. f_equal. by apply substitute_spec.
Qed.

(** ** The cipher *)

Definition row_ok (row : list Z) : Prop := length row = 6%nat /\ bytes row.

Lemma length_wbits n x : length (wbits n x) = n.
Proof. unfold wbits. by rewrite length_fmap, length_rev, length_seq. Qed.

(** One round on words and on bits. *)
Lemma round_spec s key :
  is_u32 s.1 -> is_u32 s.2 -> row_ok key ->
  exists x, f s.2 key = Done x /\ is_u32 (Z.lxor x s.1) /\
    (wbits 32 s.2, wbits 32 (Z.lxor x s.1)) = Fips46.round (wbits 32 s.1, wbits 32 s.2) (Fips46.bits_of key).
Proof.
  intros H1 H2 [Hl Hb]. destruct (f_spec s.2 key H2 Hl Hb) as (x & Hx & Rx & Ex).
  exists x. split; [done|]. split; [by apply (lxor_bound _ _ 32)|].
  unfold Fips46.round. cbn [fst snd]. by rewrite Z.lxor_comm, wbits_lxor, Ex.
Qed.

Lemma rounds_spec ks : forall n lo pre s post,
  length ks = n -> length pre = lo -> Forall row_ok ks -> is_u32 s.1 -> is_u32 s.2 ->
  exists s', for_range lo n (fun idx state =>
      k ← load (pre ++ ks ++ post) idx; x ← f state.2 k; Done (state.2, Z.lxor x state.1)) s = Done s' /\
    is_u32 s'.1 /\ is_u32 s'.2 /\
    (wbits 32 s'.1, wbits 32 s'.2) = foldl Fips46.round (wbits 32 s.1, wbits 32 s.2) (Fips46.bits_of <$> ks).
Proof.
  induction ks as [|k ks IH]; intros n lo pre s post Hn Hpre Hks H1 H2; subst n lo; [by exists s|].
  apply Forall_cons in Hks as [Hk Hks]. cbn [length]. rewrite for_range_S.
  cbn [app]. rewrite load_middle. run.
  destruct (round_spec s k H1 H2 Hk) as (x & -> & Rx & Ex). run.
  specialize (IH (length ks) (S (length pre)) (pre ++ [k]) (s.2, Z.lxor x s.1) post eq_refl).
  rewrite <- app_assoc in IH. cbn [app fst snd] in IH.
  destruct IH as (s' & E & R1 & R2 & Es); [rewrite length_app; simpl; lia|done..|].
  exists s'. split; [exact E|]. split; [done|]. split; [done|].
  rewrite Es. cbn [fmap list_fmap foldl]. by rewrite <- Ex.
Qed.

(** The code's cipher is the standard's, for any 16 subkeys. *)
Lemma des_crypt_bits inp out key :
  length inp = 8%nat -> length out = 8%nat -> length key = 16%nat -> Forall row_ok key ->
  exists o, des_crypt inp out key = Done o /\ length o = 8%nat /\ bytes o /\
    Fips46.bits_of o = Fips46.cipher (Fips46.bits_of <$> key) (Fips46.bits_of inp).
Proof.
  intros Hi Ho Hl Hk. unfold des_crypt.
  destruct (IP_spec inp Hi) as (s & -> & R1 & R2 & Es). run.
  destruct (exists_last (l := key)) as (ks & k & ->); [by intros ->|].
  rewrite length_app in Hl. cbn [length] in Hl. apply Forall_app in Hk as [Hks Hk]. apply Forall_cons in Hk as [Hk _].
  destruct (rounds_spec ks 15 0 [] s [k]) as (s' & E & Q1 & Q2 & Es'); [lia|done..|].
  cbn [app] in E. rewrite E. run. clear E.
  assert (load (ks ++ [k]) 15 = Done k) as -> by (rewrite <- (load_middle ks k []); f_equal; lia). run.
  destruct (round_spec s' k Q1 Q2 Hk) as (x & -> & Rx & Ex). run.
  destruct (InvIP_spec (Z.lxor x s'.1, s'.2) out Ho) as (o & -> & Lo & Bo & Eo).
  exists o. split; [done|]. split; [done|]. split; [done|]. rewrite Eo. cbn [fst snd].
  unfold Fips46.cipher. cbv zeta. rewrite fmap_app, foldl_app, <- Es, <- Es'. cbn [fmap list_fmap foldl].
  by rewrite <- Ex.
Qed.

(** ** The key schedule *)

Lemma sel_snoc l b c : sel (l ++ [(b, c)]) = Z.lor (sel l) (Z.shiftl (Z.b2z b) (Z.of_nat c)).
Proof.
  induction l as [|p l IH]; [cbn; by rewrite Z.lor_0_r|].
  cbn [app sel foldr]. fold (sel l). fold (sel (l ++ [(b, c)])). by rewrite IH, Z.lor_assoc.
Qed.

Lemma pick_key_sel key perm :
  (8 <= length key)%nat -> length perm = 28%nat -> Forall (fun b => b < 64)%nat perm ->
  pick_key key perm = Done (sel ((fun i => (abit key (nth i perm 0%nat), (31 - i)%nat)) <$> seq 0 28)).
Proof.
  intros Hk Hl Hp. unfold pick_key.
  assert (forall n lo acc, (lo + n <= 28)%nat ->
    for_range lo n (fun i C => b ← load perm i; x ← BITNUM key b (31 - i); Done (Z.lor C x)) (sel acc) =
    Done (sel (acc ++ ((fun i => (abit key (nth i perm 0%nat), (31 - i)%nat)) <$> seq lo n)))) as G.
  { induction n as [|n IH]; intros lo acc Hn; [cbn; by rewrite app_nil_r|].
    rewrite for_range_S, (load_nth _ _ 0%nat) by lia. run.
    assert (nth lo perm 0 < 64)%nat as Hb by (apply (nth_Forall _ _ _ _ Hp); lia).
    destruct (load_lt key (nth lo perm 0 / 8)%nat) as (x & Hx & _); [apply Nat.Div0.div_lt_upper_bound; lia|].
    rewrite (BITNUM_single _ _ _ x) by (done || lia). run.
    rewrite <- (nth_lookup_Some _ _ 0 _ Hx). fold (abit key (nth lo perm 0%nat)).
    rewrite <- sel_snoc, IH by lia. by rewrite <- app_assoc. }
  apply (G 28%nat 0%nat []). lia.
Qed.

Lemma pick_key_take key perm :
  (8 <= length key)%nat -> length perm = 28%nat -> Forall (fun b => b < 64)%nat perm ->
  pick_key key perm = pick_key (take 8 key) perm.
Proof.
  intros Hk Hl Hp. rewrite !pick_key_sel by (done || rewrite length_take; lia). do 2 f_equal.
  apply list_fmap_ext. intros k i [-> Hi]%lookup_seq. unfold abit. rewrite nth_take; [done|].
  apply Nat.Div0.div_lt_upper_bound. apply (nth_Forall _ _ _ _ Hp). lia.
Qed.

(** The 28 key bits of a half are at the top of its word. *)
Definition half (C : Z) (c : list bool) : Prop :=
  is_u32 C /\ length c = 28%nat /\ wbits 32 C = c ++ replicate 4 false.

Lemma pick_key_spec key :
  length key = 8%nat ->
  exists C D, pick_key key key_perm_c = Done C /\ pick_key key key_perm_d = Done D /\
    half C (Fips46.permute Fips46.PC1_C (Fips46.bits_of key)) /\
    half D (Fips46.permute Fips46.PC1_D (Fips46.bits_of key)).
Proof.
  intros Hk. eexists _, _. split; [apply pick_key_sel; (done || lia || by_compute)|].
  split; [apply pick_key_sel; (done || lia || by_compute)|]. rewrite bits_of_8 by done. unfold half.
  split; (split; [apply (sel_range 32); by_compute|split; [done|]]);
    rewrite wbits_sel by by_compute; cbv -[abit]; reflexivity.
Qed.

Lemma half_bits C c :
  half C c -> c = wbit C <$> seq 0 28 /\
    Z.testbit C 0 = false /\ Z.testbit C 1 = false /\ Z.testbit C 2 = false /\ Z.testbit C 3 = false.
Proof.
  intros (Hu & Hl & Hb). rewrite wbits_32 in Hb. change 32%nat with (28 + 4)%nat in Hb.
  rewrite seq_app, fmap_app in Hb. apply app_inj_1 in Hb as [<- Hb]; [|by rewrite Hl].
  assert (forall k, nth k (wbit C <$> seq (0 + 28) 4) false = nth k (replicate 4 false) false) as Hk
    by (intros k; by rewrite Hb).
  split; [done|]. split; [exact (Hk 3%nat)|]. split; [exact (Hk 2%nat)|].
  split; [exact (Hk 1%nat)|exact (Hk 0%nat)].
Qed.

Lemma rotate_spec C c s :
  half C c -> s = 1%nat \/ s = 2%nat -> half (rotate_key C (Z.of_nat s)) (Fips46.rotl s c).
Proof.
  intros H Hs. destruct (half_bits _ _ H) as (-> & B0 & B1 & B2 & B3).
  destruct H as (Hu & _). split; [|split; [by destruct Hs as [-> | ->]|]].
  - unfold rotate_key. change 0xfffffff0 with (Z.land 0xfffffff0 (Z.ones 32)).
    rewrite (Z.land_assoc _ _ (Z.ones 32)), Z.land_ones by lia. by apply Z.mod_pos_bound.
  - destruct Hs as [-> | ->]; cbv -[Z.testbit Z.lor Z.land Z.shiftr Z.shiftl Z.modulo Z.pow];
      repeat (apply (f_equal2 cons); [unfold is_u32 in Hu; repeat bit_step; rewrite ?B0, ?B1, ?B2, ?B3; bits|]); done.
Qed.

Lemma key_row_spec C D c d row :
  half C c -> half D d -> length row = 6%nat ->
  exists row', key_row C D row = Done row' /\ row_ok row' /\
    Fips46.bits_of row' = Fips46.permute Fips46.PC2 (c ++ d).
Proof.
  intros HC HD Hr. destruct (half_bits _ _ HC) as [-> _]. destruct (half_bits _ _ HD) as [-> _].
  explode row. eexists.
  split; [cbv -[BITNUMINTR Z.lor u8]; reflexivity|].
  split.
  - split; [done|]. unfold bytes. repeat apply Forall_cons_2; [apply u8_range..|constructor].
  - cbv -[Z.testbit Z.lor Z.land Z.shiftr Z.shiftl Z.modulo Z.pow].
    repeat (apply (f_equal2 cons); [bits|]). done.
Qed.

Lemma shift_at i :
  (i < 16)%nat -> exists s, load key_rnd_shift i = Done (Z.of_nat s) /\ (s = 1 \/ s = 2)%nat /\
    drop i Fips46.shifts = s :: drop (S i) Fips46.shifts.
Proof.
  intros Hi. exists (nth i Fips46.shifts 0%nat).
  do 16 (destruct i as [|i]; [split; [done|]; split; [(by left) || (by right)|done]|]). lia.
Qed.

Lemma key_round_spec mode i C D c d schedule :
  (i < 16)%nat -> half C c -> half D d -> length schedule = 16%nat ->
  Forall (fun row => length row = 6%nat) schedule ->
  exists s row C' D', drop i Fips46.shifts = s :: drop (S i) Fips46.shifts /\
    half C' (Fips46.rotl s c) /\ half D' (Fips46.rotl s d) /\ row_ok row /\
    Fips46.bits_of row = Fips46.permute Fips46.PC2 (Fips46.rotl s c ++ Fips46.rotl s d) /\
    key_round mode i (C, D, schedule) =
      Done (C', D', <[match mode with DES_DECRYPT => (15 - i)%nat | DES_ENCRYPT => i end := row]> schedule).
Proof.
  intros Hi HC HD Hl Hrows. destruct (shift_at i Hi) as (s & Hs & Hs12 & Hd).
  set (to_gen := match mode with DES_DECRYPT => _ | DES_ENCRYPT => _ end).
  assert (to_gen < 16)%nat as Ht by (unfold to_gen; destruct mode; lia).
  destruct (load_lt schedule to_gen) as (row0 & Hrow0 & Hload); [lia|].
  pose proof (rotate_spec C c s HC Hs12) as HC'. pose proof (rotate_spec D d s HD Hs12) as HD'.
  destruct (key_row_spec _ _ _ _ row0 HC' HD') as (row & Hrow & Hok & Hbits).
  { by apply (Forall_lookup_1 _ _ _ _ Hrows) in Hrow0. }
  exists s, row, (rotate_key C (Z.of_nat s)), (rotate_key D (Z.of_nat s)).
  do 5 (split; [done|]). unfold key_round. rewrite Hs. run. fold to_gen. rewrite Hload. run.
  rewrite Hrow. run. by rewrite store_lt by lia.
Qed.

(** What is in the schedule after a loop: the rows still to be written are on
    the right when encrypting, on the left when decrypting. *)
Definition placed (mode : DES_MODE) (done todo : list (list Z)) : list (list Z) :=
  match mode with DES_ENCRYPT => done ++ todo | DES_DECRYPT => todo ++ done end.
Definition ordered {A} (mode : DES_MODE) (l : list A) : list A :=
  match mode with DES_ENCRYPT => l | DES_DECRYPT => rev l end.

Lemma placed_insert mode done todo row :
  (length done + length todo = 16)%nat -> todo <> [] ->
  exists todo', length todo = S (length todo') /\
    (Forall (fun row : list Z => length row = 6%nat) todo -> Forall (fun row : list Z => length row = 6%nat) todo') /\
    <[match mode with DES_DECRYPT => (15 - length done)%nat | DES_ENCRYPT => length done end := row]>
      (placed mode done todo) = placed mode (placed mode done [row]) todo'.
Proof.
  intros Hl Hne. destruct mode; cbn [placed].
  - destruct todo as [|r todo]; [done|]. exists todo. split; [done|]. split.
    + by intros [_ H]%Forall_cons.
    + by rewrite insert_app_r_alt, Nat.sub_diag, <- app_assoc by lia.
  - destruct (exists_last Hne) as (todo' & r & ->). exists todo'. rewrite length_app in *. cbn [length] in *.
    split; [lia|]. split; [by intros [H _]%Forall_app|].
    rewrite insert_app_l by (rewrite length_app; simpl; lia).
    rewrite insert_app_r_alt by lia. replace (15 - length done - length todo')%nat with 0%nat by lia.
    cbn. by rewrite <- app_assoc.
Qed.

Lemma key_rounds_spec mode n : forall C D c d done todo,
  (length done + n = 16)%nat -> length todo = n -> half C c -> half D d ->
  Forall row_ok done -> Forall (fun row : list Z => length row = 6%nat) todo ->
  exists C' D' rows,
    for_range (length done) n (key_round mode) (C, D, placed mode done todo) =
      Done (C', D', placed mode done rows) /\
    length rows = n /\ Forall row_ok rows /\
    Fips46.bits_of <$> rows = ordered mode (Fips46.subkeys (drop (length done) Fips46.shifts) c d).
Proof.
  induction n as [|n IH]; intros C D c d done todo Hd Ht HC HD Bd Bt.
  - exists C, D, []. destruct todo; [|done]. rewrite drop_ge by (simpl; lia). by destruct mode.
  - rewrite for_range_S.
    destruct (key_round_spec mode (length done) C D c d (placed mode done todo))
      as (s & row & C' & D' & Hs & HC' & HD' & Hok & Hbits & ->); [lia|done|done|..].
    { destruct mode; cbn [placed]; rewrite length_app; lia. }
    { destruct mode; cbn [placed]; apply Forall_app; split; try done;
        by apply (Forall_impl _ _ _ Bd); intros ? []. }
    run. destruct (placed_insert mode done todo row) as (todo' & Hl & Hf & ->); [lia|by intros ->|].
    assert (length (placed mode done [row]) = S (length done)) as Hlp
      by (destruct mode; cbn [placed]; rewrite length_app; simpl; lia).
    specialize (IH C' D' (Fips46.rotl s c) (Fips46.rotl s d) (placed mode done [row]) todo').
    rewrite Hlp in IH. destruct IH as (C'' & D'' & rows & E & Lr & Br & Kr); [lia|lia|done|done|..|by apply Hf|].
    { destruct mode; cbn [placed]; apply Forall_app; split; (done || by constructor). }
    exists C'', D'', (match mode with DES_ENCRYPT => row :: rows | DES_DECRYPT => rows ++ [row] end).
    split; [rewrite E; by destruct mode; cbn [placed]; rewrite <- app_assoc|].
    split; [destruct mode; rewrite ?length_app; simpl; lia|].
    split; [destruct mode; [by constructor|apply Forall_app; split; [done|by constructor]]|].
    rewrite Hs. cbn [Fips46.subkeys]. cbv zeta. rewrite <- Hbits.
    destruct mode; cbn [ordered rev] in *; rewrite <- Kr, ?fmap_app; done.
Qed.

Lemma des_key_setup_spec key schedule mode :
  (8 <= length key)%nat -> length schedule = 16%nat ->
  Forall (fun row : list Z => length row = 6%nat) schedule ->
  exists rows, des_key_setup key schedule mode = Done rows /\ length rows = 16%nat /\ Forall row_ok rows /\
    Fips46.bits_of <$> rows = ordered mode (Fips46.key_schedule (take 8 key)).
Proof.
  intros Hk Hl Hs. unfold des_key_setup.
  rewrite (pick_key_take key key_perm_c), (pick_key_take key key_perm_d) by (done || by_compute).
  destruct (pick_key_spec (take 8 key)) as (C & D & -> & -> & HC & HD); [rewrite length_take; lia|]. run.
  destruct (key_rounds_spec mode 16 C D _ _ [] schedule eq_refl Hl HC HD (Forall_nil_2 _) Hs)
    as (C' & D' & rows & E & Lr & Br & Kr).
  assert (placed mode [] schedule = schedule) as Es by (destruct mode; cbn; by rewrite ?app_nil_r).
  assert (placed mode [] rows = rows) as Er by (destruct mode; cbn; by rewrite ?app_nil_r).
  rewrite Es, Er in E. cbn [length] in E. rewrite E. run. by exists rows.
Qed.

(** ** The standard's cipher is its own inverse *)

Lemma length_f R K : length (Fips46.f R K) = 32%nat.
Proof. reflexivity. Qed.

Lemma xor_cancel a b : length a = length b -> Fips46.xor (Fips46.xor a b) b = a.
Proof.
  revert b. induction a as [|x a IH]; intros [|y b] H; try done. injection H as H.
  cbn. by rewrite xorb_assoc, xorb_nilpotent, xorb_false_r, IH.
Qed.

Lemma length_xor a b : length a = length b -> length (Fips46.xor a b) = length a.
Proof. intros H. unfold Fips46.xor. rewrite length_zip_with. lia. Qed.

Definition halves (s : list bool * list bool) : Prop := length s.1 = 32%nat /\ length s.2 = 32%nat.
Definition swap (s : list bool * list bool) : list bool * list bool := (s.2, s.1).

Lemma round_halves s K : halves s -> halves (Fips46.round s K).
Proof. intros [H1 H2]. split; [done|]. cbn [Fips46.round fst snd]. by rewrite length_xor by done. Qed.

Lemma rounds_halves Ks s : halves s -> halves (foldl Fips46.round s Ks).
Proof. revert s. induction Ks as [|K Ks IH]; intros s H; [done|]. by apply IH, round_halves. Qed.

Lemma round_swap s K : halves s -> Fips46.round (swap (Fips46.round s K)) K = swap s.
Proof. intros [H1 H2]. unfold swap, Fips46.round. cbn [fst snd]. by rewrite xor_cancel by done. Qed.

Lemma rounds_swap Ks : forall s, halves s ->
  foldl Fips46.round (swap (foldl Fips46.round s Ks)) (rev Ks) = swap s.
Proof.
  induction Ks as [|K Ks IH] using rev_ind; intros s Hs; [done|].
  rewrite rev_unit, foldl_app. cbn [foldl]. rewrite round_swap by by apply rounds_halves. by apply IH.
Qed.

Lemma IP_inverse l : length l = 64%nat ->
  Fips46.permute Fips46.IP (Fips46.permute Fips46.IP_inv l) = l /\
  Fips46.permute Fips46.IP_inv (Fips46.permute Fips46.IP l) = l.
Proof. intros H. explode l. done. Qed.

Lemma length_permute t l : length (Fips46.permute t l) = length t.
Proof. apply length_fmap. Qed.

Lemma cipher_inverse Ks b :
  length b = 64%nat -> Fips46.cipher (rev Ks) (Fips46.cipher Ks b) = b.
Proof.
  intros Hb. unfold Fips46.cipher. cbv zeta.
  set (s := (take 32 (Fips46.permute Fips46.IP b), drop 32 (Fips46.permute Fips46.IP b))).
  assert (halves s) as Hs by done.
  destruct (rounds_halves Ks s Hs) as [H1 H2]. pose proof (rounds_swap Ks s Hs) as E.
  destruct (foldl Fips46.round s Ks) as [L R]. cbn [fst snd] in *.
  destruct (IP_inverse (R ++ L)) as [-> _]; [rewrite length_app; lia|].
  rewrite (take_app_length' R), (drop_app_length' R) by done.
  change (R, L) with (swap (L, R)). rewrite E. cbn [swap fst snd s].
  rewrite take_drop. apply IP_inverse. done.
Qed.

Lemma num_wbits x : is_u8 x -> Fips46.num (wbits 8 x) = x.
Proof.
  intros Hx. apply Z.eqb_eq. revert x Hx.
  apply (check_range (fun x => Fips46.num (wbits 8 x) =? x) 0 256). vm_compute. reflexivity.
Qed.

Lemma bytes_of_bits o : length o = 8%nat -> bytes o -> Fips46.bytes_of (Fips46.bits_of o) = o.
Proof.
  intros Hl Hb. assert (Fips46.bytes_of (Fips46.bits_of o) = Fips46.num ∘ wbits 8 <$> o) as ->
    by (clear Hb; explode o; reflexivity).
  rewrite <- (list_fmap_id o) at 2. apply Forall_fmap_ext_1. apply (Forall_impl _ _ _ Hb).
  intros x Hx. by apply num_wbits.
Qed.

Lemma length_bits_of l : length (Fips46.bits_of l) = (8 * length l)%nat.
Proof. induction l as [|x l IH]; [done|]. cbn [Fips46.bits_of fmap list_fmap concat]. rewrite length_app, length_wbits. fold (Fips46.bits_of l). simpl length. lia. Qed.

(** ** Schedules and the cipher *)

(** An array [BYTE schedule[16][6]]. *)
Definition schedule_shape (s : list (list Z)) : Prop :=
  length s = 16%nat /\ Forall (fun row : list Z => length row = 6%nat) s.
Definition block (b : list Z) : Prop := length b = 8%nat /\ bytes b.

#[export] Instance schedule_shape_dec s : Decision (schedule_shape s).
Proof. unfold schedule_shape. apply _. Defined.
#[export] Instance block_dec b : Decision (block b).
Proof. unfold block. apply _. Defined.

(** A schedule of the given kind for a key. *)
Definition keyed (mode : DES_MODE) (key : list Z) (rows : list (list Z)) : Prop :=
  length rows = 16%nat /\ Forall row_ok rows /\
  Fips46.bits_of <$> rows = ordered mode (Fips46.key_schedule key).

Lemma des_key_setup_keyed key schedule mode :
  (8 <= length key)%nat -> schedule_shape schedule ->
  exists rows, des_key_setup key schedule mode = Done rows /\ keyed mode (take 8 key) rows.
Proof. intros Hk [Hl Hr]. by apply des_key_setup_spec. Qed.

Lemma des_crypt_keyed mode key rows inp out :
  keyed mode key rows -> length inp = 8%nat -> length out = 8%nat ->
  des_crypt inp out rows = Done (fips mode key inp) /\ block (fips mode key inp) /\
  Fips46.bits_of (fips mode key inp) =
    Fips46.cipher (ordered mode (Fips46.key_schedule key)) (Fips46.bits_of inp).
Proof.
  intros (Hl & Hr & Hk) Hi Ho.
  destruct (des_crypt_bits inp out rows Hi Ho Hl Hr) as (o & -> & Lo & Bo & Eo).
  assert (fips mode key inp = o) as ->.
  { rewrite <- (bytes_of_bits o) by done. rewrite Eo, Hk. by destruct mode. }
  rewrite <- Hk. done.
Qed.

(** Undoing a mode at the level of the standard; the schedules give the bits
    of the block in between. *)
Lemma fips_opposite mode key rows b :
  keyed mode key rows -> block b ->
  fips (opposite mode) key (fips mode key b) = b.
Proof.
  intros Hk [Hl Hb]. destruct (des_crypt_keyed mode key rows b b Hk Hl Hl) as (_ & _ & E).
  rewrite <- (bytes_of_bits b) at 2 by done.
  rewrite <- (cipher_inverse (ordered mode (Fips46.key_schedule key)) (Fips46.bits_of b))
    by (rewrite length_bits_of; lia).
  rewrite <- E. destruct mode; cbn [opposite fips ordered]; [done|].
  unfold Fips46.encrypt. by rewrite rev_involutive.
Qed.

Lemma fips_inverse mode key b :
  length key = 8%nat -> block b -> fips (opposite mode) key (fips mode key b) = b.
Proof.
  intros Hk Hb.
  destruct (des_key_setup_keyed key (replicate 16 (replicate 6 0)) mode) as (rows & _ & K); [lia|by_compute|].
  rewrite take_ge in K by lia. by apply (fips_opposite mode key rows).
Qed.

Lemma fips_block mode key b : length key = 8%nat -> length b = 8%nat -> block (fips mode key b).
Proof.
  intros Hk Hb.
  destruct (des_key_setup_keyed key (replicate 16 (replicate 6 0)) mode) as (rows & _ & K); [lia|by_compute|].
  rewrite take_ge in K by lia. by apply (des_crypt_keyed mode key rows b b K).
Qed.

Lemma three_des_setup key schedule mode :
  length key = 24%nat -> length schedule = 3%nat -> Forall schedule_shape schedule ->
  exists r0 r1 r2, three_des_key_setup key schedule mode = Done [r0; r1; r2] /\
    keyed mode (take 8 (drop (match mode with DES_ENCRYPT => 0 | _ => 16 end) key)) r0 /\
    keyed (opposite mode) (take 8 (drop 8 key)) r1 /\
    keyed mode (take 8 (drop (match mode with DES_ENCRYPT => 16 | _ => 0 end) key)) r2.
Proof.
  intros Hk Hl Hs. explode schedule. inv_Forall.
  destruct (des_key_setup_keyed (drop (match mode with DES_ENCRYPT => 0 | _ => 16 end) key) x mode)
    as (r0 & E0 & K0); [rewrite length_drop; destruct mode; lia|done|].
  destruct (des_key_setup_keyed (drop 8 key) x0 (opposite mode))
    as (r1 & E1 & K1); [rewrite length_drop; lia|done|].
  destruct (des_key_setup_keyed (drop (match mode with DES_ENCRYPT => 16 | _ => 0 end) key) x1 mode)
    as (r2 & E2 & K2); [rewrite length_drop; destruct mode; lia|done|].
  exists r0, r1, r2. split; [|done].
  destruct mode; unfold three_des_key_setup; cbn [opposite] in *;
    change (load [x; x0; x1] 0) with (Done x); run; rewrite E0; run;
    change (store [x; x0; x1] 0 r0) with (Done [r0; x0; x1]); run;
    change (load [r0; x0; x1] 1) with (Done x0); run; rewrite E1; run;
    change (store [r0; x0; x1] 1 r1) with (Done [r0; r1; x1]); run;
    change (load [r0; r1; x1] 2) with (Done x1); run; rewrite E2; done.
Qed.

Definition tdea (mode : DES_MODE) : list Z -> list Z -> list Z :=
  match mode with DES_ENCRYPT => Fips46.tdea_encrypt | DES_DECRYPT => Fips46.tdea_decrypt end.

Lemma three_des_spec key schedule mode inp out :
  length key = 24%nat -> length schedule = 3%nat -> Forall schedule_shape schedule ->
  length inp = 8%nat -> length out = 8%nat ->
  (k ← three_des_key_setup key schedule mode; three_des_crypt inp out k) = Done (tdea mode key inp).
Proof.
  intros Hk Hl Hs Hi Ho. destruct (three_des_setup key schedule mode Hk Hl Hs) as (r0 & r1 & r2 & -> & K0 & K1 & K2).
  run. unfold three_des_crypt. change (load [r0; r1; r2] 0) with (Done r0).
  change (load [r0; r1; r2] 1) with (Done r1). change (load [r0; r1; r2] 2) with (Done r2). run.
  destruct (des_crypt_keyed _ _ _ inp out K0 Hi Ho) as (-> & [L0 _] & _). run.
  destruct (des_crypt_keyed _ _ _ _ _ K1 L0 L0) as (-> & [L1 _] & _). run.
  destruct (des_crypt_keyed _ _ _ _ _ K2 L1 L1) as (-> & _ & _).
  by destruct mode.
Qed.

Lemma tdea_opposite mode key b :
  length key = 24%nat -> block b -> tdea (opposite mode) key (tdea mode key b) = b.
Proof.
  intros Hk Hb. assert (forall i, (i <= 16)%nat -> length (take 8 (drop i key)) = 8%nat) as Hl
    by (intros; rewrite length_take, length_drop; lia).
  pose proof (Hl 0%nat ltac:(lia)) as H0. rewrite drop_0 in H0.
  assert (forall m k c, length k = 8%nat -> block c -> block (fips m k c)) as B
    by (intros m k c Hkk [Hc _]; by apply fips_block).
  destruct mode; cbn [opposite tdea]; unfold Fips46.tdea_encrypt, Fips46.tdea_decrypt.
  - change Fips46.decrypt with (fips DES_DECRYPT). change Fips46.encrypt with (fips DES_ENCRYPT).
    rewrite (fips_inverse DES_ENCRYPT), (fips_inverse DES_DECRYPT), (fips_inverse DES_ENCRYPT); auto with lia.
  - change Fips46.decrypt with (fips DES_DECRYPT). change Fips46.encrypt with (fips DES_ENCRYPT).
    rewrite (fips_inverse DES_DECRYPT), (fips_inverse DES_ENCRYPT), (fips_inverse DES_DECRYPT); auto with lia.
Qed.

Lemma tdea_block mode key b : length key = 24%nat -> length b = 8%nat -> block (tdea mode key b).
Proof.
  intros Hk Hb. assert (forall i, (i <= 16)%nat -> length (take 8 (drop i key)) = 8%nat) as Hl
    by (intros; rewrite length_take, length_drop; lia).
  pose proof (Hl 0%nat ltac:(lia)) as H0. rewrite drop_0 in H0.
  destruct mode.
  - apply (fips_block DES_ENCRYPT); [by apply Hl|]. apply (fips_block DES_DECRYPT); [apply Hl; lia|].
    by apply (fips_block DES_ENCRYPT).
  - apply (fips_block DES_DECRYPT); [done|]. apply (fips_block DES_ENCRYPT); [apply Hl; lia|].
    apply (fips_block DES_DECRYPT); [by apply Hl|done].
Qed.

(** ** Properties *)

(** C25: With a schedule for encryption (decryption) [des_crypt] computes the
    FIPS 46-3 encryption (decryption) of every block under every key. *)
Theorem des_correct key schedule mode inp out :
  length key = 8%nat -> schedule_shape schedule -> length inp = 8%nat -> length out = 8%nat ->
  (k ← des_key_setup key schedule mode; des_crypt inp out k) = Done (fips mode key inp).
Proof.
  intros Hk Hs Hi Ho. destruct (des_key_setup_keyed key schedule mode) as (rows & -> & K); [lia|done|].
  run. rewrite take_ge in K by lia. by apply des_crypt_keyed.
Qed.

Lemma des_correct_witness :
  let key := [0x13; 0x34; 0x57; 0x79; 0x9B; 0xBC; 0xDF; 0xF1] in
  let inp := [0x01; 0x23; 0x45; 0x67; 0x89; 0xAB; 0xCD; 0xEF] in
  (k ← des_key_setup key (replicate 16 (replicate 6 0)) DES_ENCRYPT; des_crypt inp (replicate 8 0) k) =
  Done (fips DES_ENCRYPT key inp).
Proof.
  intros key inp. apply (des_correct key (replicate 16 (replicate 6 0)) DES_ENCRYPT inp (replicate 8 0)); by_compute.
Defined.

(** A block encrypted (decrypted) under a key is given back by the
    schedule of the opposite mode for the same key. *)
Theorem des_roundtrip key schedule1 schedule2 mode b out1 out2 :
  length key = 8%nat -> schedule_shape schedule1 -> schedule_shape schedule2 -> block b ->
  length out1 = 8%nat -> length out2 = 8%nat ->
  (k ← des_key_setup key schedule1 mode; c ← des_crypt b out1 k;
   k ← des_key_setup key schedule2 (opposite mode); des_crypt c out2 k) = Done b.
Proof.
  intros Hk H1 H2 Hb Ho1 Ho2.
  destruct (des_key_setup_keyed key schedule1 mode) as (r1 & -> & K1); [lia|done|].
  destruct (des_key_setup_keyed key schedule2 (opposite mode)) as (r2 & -> & K2); [lia|done|]. run.
  rewrite take_ge in K1, K2 by lia.
  destruct (des_crypt_keyed mode key r1 b out1 K1 (proj1 Hb) Ho1) as (-> & [Lc _] & _). run.
  destruct (des_crypt_keyed _ _ _ (fips mode key b) out2 K2 Lc Ho2) as (-> & _).
  apply (f_equal Done), fips_inverse; done.
Qed.

Lemma des_roundtrip_witness :
  let key := [0x13; 0x34; 0x57; 0x79; 0x9B; 0xBC; 0xDF; 0xF1] in
  let b := [0x01; 0x23; 0x45; 0x67; 0x89; 0xAB; 0xCD; 0xEF] in
  let schedule := replicate 16 (replicate 6 0) in
  (k ← des_key_setup key schedule DES_ENCRYPT; c ← des_crypt b b k;
   k ← des_key_setup key schedule (opposite DES_ENCRYPT); des_crypt c (replicate 8 7) k) = Done b.
Proof.
  intros key b schedule. apply (des_roundtrip key schedule schedule DES_ENCRYPT b b (replicate 8 7)); by_compute.
Defined.

(** [three_des_crypt] computes the triple cipher: encryption with the
    first key, decryption with the second, encryption with the third, and the
    reverse for a decryption schedule. *)
Theorem three_des_correct key schedule mode inp out :
  length key = 24%nat -> length schedule = 3%nat -> Forall schedule_shape schedule ->
  length inp = 8%nat -> length out = 8%nat ->
  (k ← three_des_key_setup key schedule mode; three_des_crypt inp out k) = Done (tdea mode key inp).
Proof. apply three_des_spec. Qed.

Lemma three_des_correct_witness :
  let schedule := replicate 3 (replicate 16 (replicate 6 0)) in
  (k ← three_des_key_setup (seqZ 1 24) schedule DES_ENCRYPT; three_des_crypt (seqZ 0 8) (replicate 8 0) k) =
  Done (tdea DES_ENCRYPT (seqZ 1 24) (seqZ 0 8)).
Proof.
  intros schedule.
  apply (three_des_correct (seqZ 1 24) schedule DES_ENCRYPT (seqZ 0 8) (replicate 8 0)); by_compute.
Defined.

(** The triple cipher under a schedule of the opposite mode gives the
    block back. *)
Theorem three_des_roundtrip key schedule1 schedule2 mode b out1 out2 :
  length key = 24%nat -> length schedule1 = 3%nat -> Forall schedule_shape schedule1 ->
  length schedule2 = 3%nat -> Forall schedule_shape schedule2 -> block b ->
  length out1 = 8%nat -> length out2 = 8%nat ->
  exists c,
    (k ← three_des_key_setup key schedule1 mode; three_des_crypt b out1 k) = Done c /\
    (k ← three_des_key_setup key schedule2 (opposite mode); three_des_crypt c out2 k) = Done b.
Proof.
  intros Hk L1 S1 L2 S2 Hb Ho1 Ho2. exists (tdea mode key b).
  split; [by apply three_des_spec; try apply Hb|].
  rewrite three_des_spec; try done; [by rewrite tdea_opposite|]. by apply tdea_block; try apply Hb.
Qed.

Lemma three_des_roundtrip_witness :
  let schedule := replicate 3 (replicate 16 (replicate 6 0)) in
  exists c,
    (k ← three_des_key_setup (seqZ 1 24) schedule DES_DECRYPT; three_des_crypt (seqZ 0 8) (replicate 8 0) k) = Done c /\
    (k ← three_des_key_setup (seqZ 1 24) schedule (opposite DES_DECRYPT); three_des_crypt c (replicate 8 9) k) =
      Done (seqZ 0 8).
Proof.
  intros schedule.
  apply (three_des_roundtrip (seqZ 1 24) schedule schedule DES_DECRYPT (seqZ 0 8) (replicate 8 0) (replicate 8 9));
    by_compute.
Defined.

(** The first and the last vector of des_test.c. *)
Example des_test_vector :
  (k ← des_key_setup [0x01; 0x23; 0x45; 0x67; 0x89; 0xAB; 0xCD; 0xEF] (replicate 16 (replicate 6 0)) DES_ENCRYPT;
   des_crypt [0x01; 0x23; 0x45; 0x67; 0x89; 0xAB; 0xCD; 0xE7] (replicate 8 0) k) =
  Done [0xC9; 0x57; 0x44; 0x25; 0x6A; 0x5E; 0xD3; 0x1D].
Proof. vm_compute. reflexivity. Qed.

Example three_des_test_vector :
  (k ← three_des_key_setup
         [0x01; 0x23; 0x45; 0x67; 0x89; 0xAB; 0xCD; 0xEF; 0x23; 0x45; 0x67; 0x89; 0xAB; 0xCD; 0xEF; 0x01;
          0x45; 0x67; 0x89; 0xAB; 0xCD; 0xEF; 0x01; 0x23] (replicate 3 (replicate 16 (replicate 6 0))) DES_ENCRYPT;
   three_des_crypt [0x54; 0x68; 0x65; 0x20; 0x71; 0x75; 0x66; 0x63] (replicate 8 0) k) =
  Done [0xA8; 0x26; 0xFD; 0x8C; 0xE5; 0x3B; 0x85; 0x5F].
Proof. vm_compute. reflexivity. Qed.

End Des.
