(* ===== verification/Blowfish.v ===== *)
(** * Blowfish (src/crypto-algorithms_learn/blowfish.c)

    The round function, encryption, decryption and the key schedule on
    checked arrays; Schneier's description of the cipher on pairs of words;
    the proof that the code follows it and that decryption undoes
    encryption. *)

From S2P Require Import Prelude BlockHash BlowfishTables.
Import BlockHash.

Module Blowfish.

(** ** The code *)

Record BLOWFISH_KEY := Key { p : list Z; s : list (list Z) }.

(** [keystruct->s[i][j]]. *)
Definition s_at (k : BLOWFISH_KEY) (i : nat) (j : Z) : exec Z :=
  row ← load (s k) i;
  loadz row j.

(** [F(x, t)]: the value left in [t]. *)
Definition F (k : BLOWFISH_KEY) (x : Z) : exec Z :=
  t ← s_at k 0 (Z.shiftr x 24);
  y ← s_at k 1 (Z.land (Z.shiftr x 16) 0xff);
  let t := u32 (t + y) in
  y ← s_at k 2 (Z.land (Z.shiftr x 8) 0xff);
  let t := Z.lxor t y in
  y ← s_at k 3 (Z.land x 0xff);
  Done (u32 (t + y)).

(** [ITERATION(l, r, t, pval)] on the pair of [l] and [r]. *)
Definition ITERATION (k : BLOWFISH_KEY) (pval : nat) (lr : Z * Z) : exec (Z * Z) :=
  let '(l, r) := lr in
  x ← load (p k) pval;
  let l := Z.lxor l x in
  t ← F k l;
  Done (Z.lxor r t, l).

(** [(a[i] << 24) | (a[i + 1] << 16) | (a[i + 2] << 8) | a[i + 3]]. *)
Definition read_word (a : list Z) (i : nat) : exec Z :=
  b0 ← load a i; b1 ← load a (i + 1); b2 ← load a (i + 2); b3 ← load a (i + 3);
  Done (Z.lor (Z.lor (Z.lor (u32 (Z.shiftl b0 24)) (Z.shiftl b1 16)) (Z.shiftl b2 8)) b3).

Definition write_word (a : list Z) (i : nat) (w : Z) : exec (list Z) :=
  a ← store a i (u8 (Z.shiftr w 24));
  a ← store a (i + 1) (u8 (Z.shiftr w 16));
  a ← store a (i + 2) (u8 (Z.shiftr w 8));
  store a (i + 3) (u8 w).

(** The last iteration, which does not swap, and the two final additions with
    the entries [p[i]], [p[j]] and [p[k]]. *)
Definition finish (key : BLOWFISH_KEY) (i j k : nat) (lr : Z * Z) : exec (Z * Z) :=
  let '(l, r) := lr in
  x ← load (p key) i;
  let l := Z.lxor l x in
  t ← F key l;
  let r := Z.lxor r t in
  x ← load (p key) j;
  let r := Z.lxor r x in
  x ← load (p key) k;
  Done (Z.lxor l x, r).

(** All of [in] is read before [out] is written: they may be one array. *)
Definition blowfish_encrypt (inp out : list Z) (key : BLOWFISH_KEY) : exec (list Z) :=
  l ← read_word inp 0;
  r ← read_word inp 4;
  lr ← for_range 0 15 (ITERATION key) (l, r);
  lr ← finish key 15 16 17 lr;
  out ← write_word out 0 lr.1;
  write_word out 4 lr.2.

Definition blowfish_decrypt (inp out : list Z) (key : BLOWFISH_KEY) : exec (list Z) :=
  l ← read_word inp 0;
  r ← read_word inp 4;
  lr ← for_range 0 15 (fun i => ITERATION key (17 - i)) (l, r);
  lr ← finish key 2 1 0 lr;
  out ← write_word out 0 lr.1;
  write_word out 4 lr.2.

(** [user_key[n % len]]: a remainder by zero is a fault. *)
Definition key_byte (user_key : list Z) (n len : nat) : exec Z :=
  if (len =? 0)%nat then Fault else load user_key (n mod len).

Definition key_word (user_key : list Z) (idx2 len : nat) : exec Z :=
  b0 ← key_byte user_key idx2 len; b1 ← key_byte user_key (idx2 + 1) len;
  b2 ← key_byte user_key (idx2 + 2) len; b3 ← key_byte user_key (idx2 + 3) len;
  Done (Z.lor (Z.lor (Z.lor (u32 (Z.shiftl b0 24)) (Z.shiftl b1 16)) (Z.shiftl b2 8)) b3).

(** The last two loops encrypt [block] in place and store it in the key. *)
Definition refill_p (idx : nat) (st : BLOWFISH_KEY * list Z) : exec (BLOWFISH_KEY * list Z) :=
  let '(key, block) := st in
  block ← blowfish_encrypt block block key;
  x ← read_word block 0;
  p1 ← store (p key) (2 * idx) x;
  x ← read_word block 4;
  p2 ← store p1 (2 * idx + 1) x;
  Done (Key p2 (s key), block).

Definition store_s (key : BLOWFISH_KEY) (i j : nat) (x : Z) : exec BLOWFISH_KEY :=
  row ← load (s key) i;
  row ← store row j x;
  s' ← store (s key) i row;
  Done (Key (p key) s').

Definition refill_s (idx idx2 : nat) (st : BLOWFISH_KEY * list Z) : exec (BLOWFISH_KEY * list Z) :=
  let '(key, block) := st in
  block ← blowfish_encrypt block block key;
  x ← read_word block 0;
  key ← store_s key idx (2 * idx2) x;
  x ← read_word block 4;
  key ← store_s key idx (2 * idx2 + 1) x;
  Done (key, block).

(** The previous contents of the key structure are overwritten. *)
Definition blowfish_key_setup (user_key : list Z) (len : nat) : exec BLOWFISH_KEY :=
  p0 ← for_range 0 18 (fun idx p =>
         w ← key_word user_key (4 * idx) len;
         x ← load p idx;
         store p idx (Z.lxor x w)) p_perm;
  st ← for_range 0 9 refill_p (Key p0 s_perm, replicate 8 0);
  st ← for_range 0 4 (fun idx => for_range 0 128 (refill_s idx)) st;
  Done st.1.

(** ** The cipher as Schneier describes it *)

Module Schneier.

Definition F (B : list (list Z)) (x : Z) : Z :=
  let box i j := nth (Z.to_nat (j mod 256)) (nth i B []) 0 in
  (Z.lxor ((box 0%nat (x / 2 ^ 24) + box 1%nat (x / 2 ^ 16)) mod 2 ^ 32) (box 2%nat (x / 2 ^ 8))
   + box 3%nat x) mod 2 ^ 32.

(** A round on the two halves, with the exchange. *)
Definition round (B : list (list Z)) (x : Z * Z) (P : Z) : Z * Z :=
  let L := Z.lxor x.1 P in (Z.lxor x.2 (F B L), L).

(** Sixteen rounds; the last exchange is undone and the last two subkeys are
    added. *)
Definition cipher (P : list Z) (B : list (list Z)) (x : Z * Z) : Z * Z :=
  let y := foldl (round B) x (take 16 P) in (Z.lxor y.2 (nth 17 P 0), Z.lxor y.1 (nth 16 P 0)).

(** Bytes of the key, repeated as often as needed. *)
Definition key_word (key : list Z) (i : nat) : Z :=
  be_value ((fun k => nth ((4 * i + k) mod length key) key 0) <$> seq 0 4).

(** The all-zero block is encrypted again and again; each result replaces the
    next two subkeys, then the next two B-box entries. *)
Definition next_p (st : list Z * list (list Z) * (Z * Z)) (i : nat) : list Z * list (list Z) * (Z * Z) :=
  let '(P, B, x) := st in
  let x := cipher P B x in (<[2 * i + 1 := x.2]> (<[2 * i := x.1]> P), B, x)%nat.
Definition next_s (j : nat) (st : list Z * list (list Z) * (Z * Z)) (i : nat)
    : list Z * list (list Z) * (Z * Z) :=
  let '(P, B, x) := st in
  let x := cipher P B x in (P, alter (fun row => <[2 * i + 1 := x.2]> (<[2 * i := x.1]> row)) j B, x)%nat.
Definition schedule (key : list Z) : list Z * list (list Z) :=
  let P := zip_with Z.lxor p_perm (key_word key <$> seq 0 18) in
  let st := foldl next_p (P, s_perm, (0, 0)) (seq 0 9) in
  (foldl (fun st j => foldl (next_s j) st (seq 0 128)) st (seq 0 4)).1.

Definition on_bytes (f : Z * Z -> Z * Z) (b : list Z) : list Z :=
  let x := f (be_value (take 4 b), be_value (drop 4 b)) in be_bytes 4 x.1 ++ be_bytes 4 x.2.
Definition encrypt (key b : list Z) : list Z :=
  let '(P, B) := schedule key in on_bytes (cipher P B) b.

End Schneier.

(** Decryption is encryption with the subkeys reversed. *)
Lemma unround B x P Q T :
  let y := Schneier.round B x P in
  Schneier.round B (Z.lxor y.2 T, Z.lxor y.1 Q) T = (Z.lxor x.2 Q, Z.lxor x.1 P).
Proof.
  destruct x as [L R]. unfold Schneier.round. cbn [fst snd]. rewrite lxor_cancel_r. f_equal.
  set (f := Schneier.F _ _). by rewrite (Z.lxor_assoc R), (Z.lxor_comm f), <- Z.lxor_assoc, lxor_cancel_r.
Qed.

Lemma unrounds B ps : forall Q T x,
  let y := foldl (Schneier.round B) x ps in
  foldl (Schneier.round B) (Z.lxor y.2 T, Z.lxor y.1 Q) (take (length ps) (rev (ps ++ [Q; T]))) =
    (Z.lxor x.2 (nth 1 (ps ++ [Q; T]) 0), Z.lxor x.1 (nth 0 (ps ++ [Q; T]) 0)).
Proof.
  induction ps as [|P ps IH] using rev_ind; intros Q T x; [done|].
  rewrite foldl_app, length_app. cbn [foldl length]. cbv zeta.
  assert (rev ((ps ++ [P]) ++ [Q; T]) = T :: rev (ps ++ [P; Q])) as ->
    by (rewrite <- app_assoc, !rev_app_distr; done).
  rewrite Nat.add_1_r. cbn [take foldl]. rewrite unround, IH.
  destruct ps as [|p0 [|p1 ps]]; done.
Qed.

Lemma cipher_reverse P B x :
  length P = 18%nat -> Schneier.cipher (rev P) B (Schneier.cipher P B x) = x.
Proof.
  intros HP. destruct (exists_last (l := P)) as (P1 & T & ->); [by intros ->|].
  rewrite length_app in HP. cbn [length] in HP.
  destruct (exists_last (l := P1)) as (ps & Q & ->); [intros ->; cbn in HP; lia|].
  rewrite length_app in HP. cbn [length] in HP. rewrite <- !app_assoc. cbn [app].
  assert (length ps = 16%nat) as Hl by lia. pose proof (unrounds B ps Q T x) as U. cbv zeta in U.
  unfold Schneier.cipher. cbv zeta. rewrite (take_app_length' ps) by done.
  rewrite (app_nth2 ps _ _ (n := 17)), (app_nth2 ps _ _ (n := 16)), Hl by lia. cbn [Nat.sub nth].
  rewrite <- Hl at 1. rewrite <- Hl at 2. rewrite U. cbn [fst snd].
  explode ps. cbn. rewrite !lxor_cancel_r. by destruct x.
Qed.

(** ** The code computes it *)

Definition row_ok (row : list Z) : Prop := length row = 256%nat /\ Forall is_u32 row.
Definition key_ok (k : BLOWFISH_KEY) : Prop :=
  (length (p k) = 18%nat /\ Forall is_u32 (p k)) /\ length (s k) = 4%nat /\ Forall row_ok (s k).
Definition block (b : list Z) : Prop := length b = 8%nat /\ bytes b.
Definition words (x : Z * Z) : Prop := is_u32 x.1 /\ is_u32 x.2.

#[export] Instance row_ok_dec row : Decision (row_ok row).
Proof. unfold row_ok. apply _. Defined.

Lemma s_at_spec k i j :
  key_ok k -> (i < 4)%nat -> 0 <= j < 256 ->
  s_at k i j = Done (nth (Z.to_nat j) (nth i (s k) []) 0) /\ is_u32 (nth (Z.to_nat j) (nth i (s k) []) 0).
Proof.
  intros (_ & Hl & Hr) Hi Hj. unfold s_at. rewrite (load_nth _ _ []) by lia. run.
  destruct (nth_Forall _ _ i [] Hr) as [L R]; [lia|]. unfold loadz.
  rewrite (proj2 (Z.ltb_ge _ _)), (load_nth _ _ 0) by lia. split; [done|].
  apply nth_Forall; [done|lia].
Qed.

Lemma F_spec k x :
  key_ok k -> is_u32 x -> F k x = Done (Schneier.F (s k) x) /\ is_u32 (Schneier.F (s k) x).
Proof.
  intros Hk Hx. split; [|by apply Z.mod_pos_bound]. unfold F.
  assert (forall n, 0 <= n -> Z.land (Z.shiftr x n) 0xff = (x / 2 ^ n) mod 256) as El
    by (intros; by rewrite land_255, Z.shiftr_div_pow2).
  assert (Z.shiftr x 24 = (x / 2 ^ 24) mod 256) as ->.
  { unfold is_u32 in Hx. rewrite Z.shiftr_div_pow2, Z.mod_small; [done| |done].
    split; [apply Z.div_pos; lia|apply Z.div_lt_upper_bound; lia]. }
  rewrite !El by lia. rewrite land_255.
  assert (forall y, 0 <= y mod 256 < 256) as Hm by (intros; by apply Z.mod_pos_bound).
  assert (forall i y, (i < 4)%nat -> s_at k i (y mod 256) = Done (nth (Z.to_nat (y mod 256)) (nth i (s k) []) 0)) as Hs
    by (intros; by apply s_at_spec).
  rewrite !Hs by lia. run. done.
Qed.

Lemma ITERATION_spec k i x :
  key_ok k -> (i < 18)%nat -> words x ->
  ITERATION k i x = Done (Schneier.round (s k) x (nth i (p k) 0)) /\
  words (Schneier.round (s k) x (nth i (p k) 0)).
Proof.
  intros Hk Hi [H1 H2]. destruct x as [l r]. unfold ITERATION. cbn [fst snd] in *.
  destruct Hk as [[Lp Rp] Hs]. rewrite (load_nth _ _ 0) by lia. run.
  assert (is_u32 (Z.lxor l (nth i (p k) 0))) as Hl
    by (apply (lxor_bound _ _ 32); [done|done|apply nth_Forall; [done|lia]]).
  destruct (F_spec k _ (conj (conj Lp Rp) Hs) Hl) as [-> HF]. run. split; [done|].
  split; [by apply (lxor_bound _ _ 32)|done].
Qed.

Lemma iterations_spec k g n : forall lo x,
  key_ok k -> (forall i, (i < lo + n)%nat -> (g i < 18)%nat) -> words x ->
  let y := foldl (Schneier.round (s k)) x ((fun i => nth (g i) (p k) 0) <$> seq lo n) in
  for_range lo n (fun i => ITERATION k (g i)) x = Done y /\ words y.
Proof.
  induction n as [|n IH]; intros lo x Hk Hg Hx; [done|]. rewrite for_range_S.
  destruct (ITERATION_spec k (g lo) x Hk (Hg lo ltac:(lia)) Hx) as [-> Hw]. run.
  apply IH; [done| |done]. intros i Hi. apply Hg. lia.
Qed.

Lemma finish_spec key i j k x :
  key_ok key -> (i < 18)%nat -> (j < 18)%nat -> (k < 18)%nat -> words x ->
  let y := Schneier.round (s key) x (nth i (p key) 0) in
  let z := (Z.lxor y.2 (nth k (p key) 0), Z.lxor y.1 (nth j (p key) 0)) in
  finish key i j k x = Done z /\ words z.
Proof.
  intros Hk Hi Hj Hkk Hx y z. destruct (ITERATION_spec key i x Hk Hi Hx) as [E [W1 W2]].
  fold y in E, W1, W2. clearbody y. destruct x as [l r]. unfold finish. unfold ITERATION in E.
  destruct Hk as [[Lp Rp] Hs]. rewrite !(load_nth _ _ 0) in * by lia.
  revert E. run. destruct (F key _) as [t| |]; run; [|done..]. intros [= E].
  subst z y. cbn [fst snd] in *. split; [done|].
  split; apply (lxor_bound _ _ 32); try done; apply nth_Forall; (done || lia).
Qed.

Lemma read_word_spec a i :
  (i + 4 <= length a)%nat -> bytes a ->
  read_word a i = Done (be_value (take 4 (drop i a))) /\ is_u32 (be_value (take 4 (drop i a))).
Proof.
  intros Hi Hb. assert (length (take 4 (drop i a)) = 4%nat) as Hl by (rewrite length_take, length_drop; lia).
  assert (bytes (take 4 (drop i a))) as Ht by by apply Forall_take, Forall_drop.
  assert (forall k, (k < 4)%nat -> load a (i + k) = load (take 4 (drop i a)) k) as Hload.
  { intros k Hk. unfold load. by rewrite lookup_take_lt, lookup_drop. }
  split.
  - unfold read_word. rewrite <- (Nat.add_0_r i) at 1. rewrite !Hload by lia.
    revert Hl Ht. generalize (take 4 (drop i a)). intros l Hl Ht. explode l. unfold bytes in Ht. inv_Forall.
    cbn [load lookup list_lookup]. run. apply (f_equal Done).
    rewrite (u32_small (Z.shiftl _ _)) by (unfold is_u32, is_u8 in *; rewrite Z.shiftl_mul_pow2; lia).
    rewrite be32_lor by done. unfold be32. cbn [be_value foldl]. lia.
  - pose proof (be_value_range _ Ht) as R. by rewrite Hl in R.
Qed.

Lemma write_words_spec out l r :
  length out = 8%nat ->
  (out ← write_word out 0 l; write_word out 4 r) = Done (be_bytes 4 l ++ be_bytes 4 r).
Proof.
  intros Ho. explode out. apply (f_equal Done). unfold u8. cbn [be_bytes app Nat.add].
  rewrite !Z.shiftr_div_pow2, !Z.div_div by lia. done.
Qed.

Lemma be_words_bytes b : block b -> be_bytes 4 (be_value (take 4 b)) ++ be_bytes 4 (be_value (drop 4 b)) = b.
Proof.
  intros [Hl Hb]. rewrite <- (take_drop 4 b) at 3.
  rewrite <- (be_bytes_value (take 4 b)) at 2 by by apply Forall_take.
  rewrite <- (be_bytes_value (drop 4 b)) at 2 by by apply Forall_drop.
  rewrite length_take, length_drop, Hl. done.
Qed.

Lemma be_value_words x : words x ->
  be_value (take 4 (be_bytes 4 x.1 ++ be_bytes 4 x.2)) = x.1 /\
  be_value (drop 4 (be_bytes 4 x.1 ++ be_bytes 4 x.2)) = x.2.
Proof.
  intros [H1 H2]. rewrite take_app_length', drop_app_length' by by rewrite length_be_bytes.
  rewrite !be_value_bytes. split; by apply Z.mod_small.
Qed.

Lemma cipher_snoc P B x ps P15 :
  ps ++ [P15] = take 16 P ->
  Schneier.cipher P B x =
    (Z.lxor (Schneier.round B (foldl (Schneier.round B) x ps) P15).2 (nth 17 P 0),
     Z.lxor (Schneier.round B (foldl (Schneier.round B) x ps) P15).1 (nth 16 P 0)).
Proof. intros E. unfold Schneier.cipher. by rewrite <- E, foldl_app. Qed.

Section crypt.
Context (k : BLOWFISH_KEY) (Hk : key_ok k).

(** Both directions: the rounds take the subkeys in the order [P]. *)
Lemma crypt_spec g i j m P inp out :
  (forall n, (n < 15)%nat -> (g n < 18)%nat) -> (i < 18)%nat -> (j < 18)%nat -> (m < 18)%nat ->
  ((fun n => nth (g n) (p k) 0) <$> seq 0 15) ++ [nth i (p k) 0] = take 16 P ->
  nth j (p k) 0 = nth 16 P 0 -> nth m (p k) 0 = nth 17 P 0 ->
  block inp -> length out = 8%nat ->
  let x := Schneier.cipher P (s k) (be_value (take 4 inp), be_value (drop 4 inp)) in
  (l ← read_word inp 0; r ← read_word inp 4;
   lr ← for_range 0 15 (fun n => ITERATION k (g n)) (l, r);
   lr ← finish k i j m lr;
   out ← write_word out 0 lr.1; write_word out 4 lr.2) = Done (be_bytes 4 x.1 ++ be_bytes 4 x.2) /\
  words x.
Proof.
  intros Hg Hi Hj Hm EP Ej Em [Hl Hb] Ho x. subst x. rewrite (cipher_snoc _ _ _ _ _ EP), <- Ej, <- Em.
  destruct (read_word_spec inp 0) as [E0 W0]; [lia|done|]. destruct (read_word_spec inp 4) as [E4 W4]; [lia|done|].
  rewrite drop_0 in *. rewrite (take_ge (drop 4 inp)) in * by (rewrite length_drop; lia).
  rewrite E0, bind_Done, E4, bind_Done. clear E0 E4.
  destruct (iterations_spec k g 15 0 (be_value (take 4 inp), be_value (drop 4 inp)) Hk Hg (conj W0 W4)) as [-> W].
  rewrite bind_Done. set (y := foldl _ _ _) in *. clearbody y.
  destruct (finish_spec k i j m y Hk Hi Hj Hm W) as [-> W']. rewrite bind_Done.
  split; [by apply write_words_spec|exact W'].
Qed.

Lemma encrypt_spec inp out :
  block inp -> length out = 8%nat ->
  blowfish_encrypt inp out k = Done (Schneier.on_bytes (Schneier.cipher (p k) (s k)) inp) /\
  words (Schneier.cipher (p k) (s k) (be_value (take 4 inp), be_value (drop 4 inp))).
Proof.
  intros Hb Ho. apply (crypt_spec (fun i => i) 15 16 17 (p k)); try (done || lia).
  destruct Hk as [[Lp _] _]. revert Lp. generalize (p k). intros P HP. explode P. done.
Qed.

Lemma decrypt_spec inp out :
  block inp -> length out = 8%nat ->
  blowfish_decrypt inp out k = Done (Schneier.on_bytes (Schneier.cipher (rev (p k)) (s k)) inp).
Proof.
  intros Hb Ho. destruct Hk as [[Lp _] _].
  apply (crypt_spec (fun i => 17 - i)%nat 2 1 0 (rev (p k))); try (done || lia);
    revert Lp; generalize (p k); intros P HP; explode P; done.
Qed.

Lemma on_bytes_block f b :
  block (Schneier.on_bytes f b).
Proof.
  unfold Schneier.on_bytes. split; [by rewrite length_app, !length_be_bytes|].
  apply Forall_app. split; apply bytes_be_bytes.
Qed.

Lemma decrypt_encrypt b out1 out2 :
  block b -> length out1 = 8%nat -> length out2 = 8%nat ->
  (c ← blowfish_encrypt b out1 k; blowfish_decrypt c out2 k) = Done b.
Proof.
  intros Hb H1 H2. destruct (encrypt_spec b out1 Hb H1) as [-> W]. run.
  rewrite decrypt_spec by (done || apply on_bytes_block). apply (f_equal Done).
  unfold Schneier.on_bytes at 2. cbv zeta. unfold Schneier.on_bytes.
  destruct (be_value_words _ W) as [-> ->]. rewrite <- surjective_pairing.
  rewrite cipher_reverse by apply Hk. by apply be_words_bytes.
Qed.

End crypt.

(** ** The key schedule *)

Lemma be_value_4 b0 b1 b2 b3 : be_value [b0; b1; b2; b3] = be32 b0 b1 b2 b3.
Proof. unfold be32. cbn [be_value foldl]. lia. Qed.

Lemma key_word_spec user_key i :
  user_key <> [] -> bytes user_key ->
  key_word user_key (4 * i) (length user_key) = Done (Schneier.key_word user_key i) /\
  is_u32 (Schneier.key_word user_key i).
Proof.
  intros Hne Hb. assert (0 < length user_key)%nat as Hl by (destruct user_key; [done|simpl; lia]).
  assert (forall n, key_byte user_key n (length user_key) = Done (nth (n mod length user_key) user_key 0)) as E.
  { intros n. unfold key_byte. rewrite (proj2 (Nat.eqb_neq _ _)) by lia.
    apply load_nth, Nat.mod_upper_bound. lia. }
  assert (forall n, is_u8 (nth (n mod length user_key) user_key 0)) as B.
  { intros n. apply nth_Forall; [done|]. apply Nat.mod_upper_bound. lia. }
  unfold Schneier.key_word. cbn [seq fmap list_fmap]. rewrite be_value_4, Nat.add_0_r.
  split; [|by apply be32_range]. unfold key_word. rewrite !E. run. apply (f_equal Done).
  rewrite (u32_small (Z.shiftl _ _)), be32_lor; try done.
  pose proof (B (4 * i)%nat). unfold is_u8, is_u32 in *. rewrite Z.shiftl_mul_pow2; lia.
Qed.

Lemma mix_key_spec user_key mid : forall pre,
  user_key <> [] -> bytes user_key ->
  for_range (length pre) (length mid) (fun idx p =>
    w ← key_word user_key (4 * idx) (length user_key); x ← load p idx; store p idx (Z.lxor x w)) (pre ++ mid) =
  Done (pre ++ zip_with Z.lxor mid (Schneier.key_word user_key <$> seq (length pre) (length mid))).
Proof.
  induction mid as [|x mid IH]; intros pre Hne Hb; [done|]. cbn [length]. rewrite for_range_S.
  destruct (key_word_spec user_key (length pre) Hne Hb) as [-> _]. rewrite bind_Done, load_middle, bind_Done.
  rewrite store_middle, bind_Done. set (y := Z.lxor _ _).
  specialize (IH (pre ++ [y]) Hne Hb). rewrite length_app, <- !app_assoc, Nat.add_1_r in IH. exact IH.
Qed.

(** The code's key and block against the subkeys, boxes and pair of words. *)
Definition related (st : BLOWFISH_KEY * list Z) (sp : list Z * list (list Z) * (Z * Z)) : Prop :=
  st = (Key sp.1.1 sp.1.2, be_bytes 4 sp.2.1 ++ be_bytes 4 sp.2.2) /\ key_ok st.1 /\ words sp.2.

Lemma related_encrypt P B x :
  key_ok (Key P B) -> words x ->
  let block := be_bytes 4 x.1 ++ be_bytes 4 x.2 in
  let y := Schneier.cipher P B x in
  blowfish_encrypt block block (Key P B) = Done (be_bytes 4 y.1 ++ be_bytes 4 y.2) /\ words y /\
  read_word (be_bytes 4 y.1 ++ be_bytes 4 y.2) 0 = Done y.1 /\
  read_word (be_bytes 4 y.1 ++ be_bytes 4 y.2) 4 = Done y.2.
Proof.
  intros Hk Hx b y. assert (forall z : Z * Z, block (be_bytes 4 z.1 ++ be_bytes 4 z.2)) as Hblk.
  { intros z. split; [by rewrite length_app, !length_be_bytes|]. apply Forall_app. split; apply bytes_be_bytes. }
  destruct (encrypt_spec (Key P B) Hk b b (Hblk x) (proj1 (Hblk x))) as [E W].
  unfold Schneier.on_bytes in E. cbn [p s] in E, W. unfold b in E, W.
  destruct (be_value_words _ Hx) as [E1 E2]. rewrite E1, E2, <- surjective_pairing in E, W.
  split; [exact E|]. split; [exact W|]. destruct (Hblk y) as [Ly By].
  destruct (be_value_words _ W) as [F1 F2]. fold y in F1, F2.
  destruct (read_word_spec _ 0 ltac:(rewrite Ly; lia) By) as [-> _].
  destruct (read_word_spec _ 4 ltac:(rewrite Ly; lia) By) as [-> _].
  rewrite drop_0, F1, (take_ge (drop 4 _)), F2 by (rewrite length_drop; lia). done.
Qed.

Lemma refill_p_spec i st sp :
  (i < 9)%nat -> related st sp -> exists st', refill_p i st = Done st' /\ related st' (Schneier.next_p sp i).
Proof.
  destruct sp as [[P B] x]. intros Hi (-> & Hk & Hx). cbn [fst snd] in *.
  destruct (related_encrypt P B x Hk Hx) as (E & W & R0 & R4). unfold refill_p. rewrite E, bind_Done.
  rewrite R0, R4, bind_Done. destruct Hk as [[Lp Fp] Hs]. cbn [p s] in *.
  rewrite store_lt, bind_Done, bind_Done, store_lt, bind_Done by (rewrite ?length_insert; lia).
  eexists. split; [done|]. split; [done|]. split; [|exact W]. split; [|exact Hs]. cbn [p s fst snd Schneier.next_p].
  split; [by rewrite !length_insert|]. by repeat apply Forall_insert; try apply W.
Qed.

Lemma alter_insert {A} (f : A -> A) i (l : list A) x : l !! i = Some x -> alter f i l = <[i := f x]> l.
Proof.
  revert i. induction l as [|y l IH]; intros [|i] H; try done; cbn in *; [by injection H as ->|].
  by rewrite (IH i H).
Qed.

Lemma store_s_spec key b j x :
  key_ok key -> (b < 4)%nat -> (j < 256)%nat -> is_u32 x ->
  store_s key b j x = Done (Key (p key) (alter (insert j x) b (s key))) /\
  key_ok (Key (p key) (alter (insert j x) b (s key))).
Proof.
  intros (Hp & Ls & Fs) Hb Hj Hx. unfold store_s.
  destruct (load_lt (s key) b) as (row & Hrow & ->); [lia|]. rewrite bind_Done.
  destruct (Forall_lookup_1 _ _ _ _ Fs Hrow) as [Lr Fr].
  rewrite store_lt, bind_Done, store_lt, bind_Done by lia.
  rewrite (alter_insert _ _ _ _ Hrow). split; [done|]. split; [exact Hp|]. cbn [s].
  split; [by rewrite length_insert|]. apply Forall_insert; [done|].
  split; [by rewrite length_insert|by apply Forall_insert].
Qed.

Lemma refill_s_spec b i st sp :
  (b < 4)%nat -> (i < 128)%nat -> related st sp ->
  exists st', refill_s b i st = Done st' /\ related st' (Schneier.next_s b sp i).
Proof.
  destruct sp as [[P B] x]. intros Hb Hi (-> & Hk & Hx). cbn [fst snd] in *.
  destruct (related_encrypt P B x Hk Hx) as (E & [W1 W2] & R0 & R4). unfold refill_s.
  rewrite E, bind_Done, R0, bind_Done, R4.
  destruct (store_s_spec (Key P B) b (2 * i) _ Hk Hb ltac:(lia) W1) as [-> K1]. rewrite !bind_Done.
  destruct (store_s_spec _ b (2 * i + 1) _ K1 Hb ltac:(lia) W2) as [-> K2]. rewrite bind_Done.
  cbn [p s] in *. rewrite list_alter_alter_eq in *. eexists. by split.
Qed.

Lemma zip_lxor_u32 a b : Forall is_u32 a -> Forall is_u32 b -> Forall is_u32 (zip_with Z.lxor a b).
Proof.
  intros Ha. revert b. induction Ha as [|x a Hx Ha IH]; intros b Hb; [done|].
  destruct Hb as [|y b Hy Hb]; [done|]. constructor; [by apply (lxor_bound _ _ 32)|by apply IH].
Qed.

Lemma tables_ok : (length p_perm = 18%nat /\ Forall is_u32 p_perm) /\ length s_perm = 4%nat /\ Forall row_ok s_perm.
Proof. by_compute. Qed.

Lemma key_setup_spec user_key :
  user_key <> [] -> bytes user_key ->
  exists k, blowfish_key_setup user_key (length user_key) = Done k /\ key_ok k /\
    (p k, s k) = Schneier.schedule user_key.
Proof.
  intros Hne Hb. unfold blowfish_key_setup.
  rewrite (mix_key_spec user_key p_perm [] Hne Hb : for_range 0 18 _ p_perm = _), bind_Done.
  destruct tables_ok as [[Lp Fp] [Ls Fs]]. set (P := [] ++ zip_with _ _ _).
  assert (related (Key P s_perm, replicate 8 0) (P, s_perm, (0, 0))) as R0.
  { split; [done|]. split; [|split; by_compute]. split; [|done]. cbn [p]. split; [done|].
    apply zip_lxor_u32; [done|]. apply Forall_fmap, Forall_true. intros i. by apply key_word_spec. }
  destruct (for_range_sim related Schneier.next_p refill_p 9 0 _ _ ltac:(intros; apply refill_p_spec; [lia|done]) R0)
    as (st1 & -> & R1). rewrite bind_Done.
  assert (forall j st sp, (0 <= j < 0 + 4)%nat -> related st sp -> exists st', for_range 0 128 (refill_s j) st = Done st' /\
    related st' (foldl (Schneier.next_s j) sp (seq 0 128))) as Hs.
  { intros j st sp Hj HR. apply (for_range_sim related); [|done].
    intros i st' sp' Hi HR'. apply refill_s_spec; [lia|lia|done]. }
  destruct (for_range_sim related (fun sp j => foldl (Schneier.next_s j) sp (seq 0 128))
    (fun idx => for_range 0 128 (refill_s idx)) 4 0 st1 _ Hs R1) as (st2 & -> & R2).
  rewrite bind_Done. exists st2.1. split; [done|]. destruct R2 as (E & K & _). split; [done|].
  rewrite E. unfold Schneier.schedule. cbn [p s fst]. by rewrite <- surjective_pairing.
Qed.

(** ** Properties *)

(** C31: [blowfish_key_setup] followed by [blowfish_encrypt] computes the cipher
    Schneier describes, for every non-empty key: subkeys and S-boxes replaced
    in turn by encryptions of the zero block, then sixteen rounds. *)
Theorem blowfish_correct user_key b out :
  user_key <> [] -> bytes user_key -> block b -> length out = 8%nat ->
  (k ← blowfish_key_setup user_key (length user_key); blowfish_encrypt b out k) =
    Done (Schneier.encrypt user_key b).
Proof.
  intros Hne Hbk Hb Ho. destruct (key_setup_spec user_key Hne Hbk) as (k & -> & Hk & E). rewrite bind_Done.
  unfold Schneier.encrypt. rewrite <- E. by apply encrypt_spec.
Qed.

Lemma blowfish_correct_witness :
  (k ← blowfish_key_setup [0xF0; 0xE1; 0xD2] (length [0xF0; 0xE1; 0xD2]);
   blowfish_encrypt (seqZ 1 8) (replicate 8 0) k) = Done (Schneier.encrypt [0xF0; 0xE1; 0xD2] (seqZ 1 8)).
Proof. apply (blowfish_correct [0xF0; 0xE1; 0xD2] (seqZ 1 8) (replicate 8 0)); (done || by_compute || split; by_compute). Defined.

(** [blowfish_decrypt] gives back every block [blowfish_encrypt] encrypts
    under the same key. *)
Theorem blowfish_roundtrip user_key b out1 out2 :
  user_key <> [] -> bytes user_key -> block b -> length out1 = 8%nat -> length out2 = 8%nat ->
  (k ← blowfish_key_setup user_key (length user_key);
   c ← blowfish_encrypt b out1 k; blowfish_decrypt c out2 k) = Done b.
Proof.
  intros Hne Hbk Hb H1 H2. destruct (key_setup_spec user_key Hne Hbk) as (k & -> & Hk & _). rewrite bind_Done.
  by apply decrypt_encrypt.
Qed.

Lemma blowfish_roundtrip_witness :
  (k ← blowfish_key_setup [0xF0; 0xE1; 0xD2] (length [0xF0; 0xE1; 0xD2]);
   c ← blowfish_encrypt (seqZ 1 8) (replicate 8 0) k; blowfish_decrypt c (replicate 8 9) k) = Done (seqZ 1 8).
Proof.
  apply (blowfish_roundtrip [0xF0; 0xE1; 0xD2] (seqZ 1 8) (replicate 8 0) (replicate 8 9));
    (done || by_compute || split; by_compute).
Defined.

(** The second vector of blowfish_test.c. *)
Example blowfish_test_vector :
  (k ← blowfish_key_setup (replicate 8 0xFF) 8; blowfish_encrypt (replicate 8 0xFF) (replicate 8 0) k) =
  Done [0x51; 0x86; 0x6F; 0xD5; 0xB8; 0x5E; 0xCB; 0x8A].
Proof. vm_compute. reflexivity. Qed.

End Blowfish.
