(* ===== verification/Avl.v ===== *)
(** * AVL trees (src/DataStruct_learn/Tree/avl_tree/avl_tree.c)

    Insertion, deletion and search on trees of nodes with stored heights.
    The nodes of a tree are owned by it, so that a pointer to a node is the
    tree below it and an update in place is a new value; following a null
    pointer is a fault.

    Insertion is proved to keep the search order, the stored heights and the
    balance; deletion keeps the order wherever it returns, but its test for
    the shape of the right subtree is inverted, and on trees that lean to the
    right it follows a null pointer. *)

From Stdlib Require Import Sorting.Sorted.
From S2P Require Import Prelude.

Module Avl.

(** ** The code *)

Inductive avlNode :=
  | Null
  | Node (key : Z) (left right : avlNode) (height : Z).

#[export] Instance avlNode_eq_dec : EqDecision avlNode.
Proof. solve_decision. Defined.

Definition max (a b : Z) : Z := if b <? a then a else b.

(** [malloc] tells whether the allocation succeeded. *)
Definition newNode (malloc : bool) (key : Z) : avlNode :=
  if malloc then Node key Null Null 0 else Null.

Definition nodeHeight (node : avlNode) : Z :=
  match node with Null => -1 | Node _ _ _ h => h end.

Definition heightDiff (node : avlNode) : Z :=
  match node with Null => 0 | Node _ l r _ => nodeHeight l - nodeHeight r end.

Fixpoint minNode (node : avlNode) : exec avlNode :=
  match node with
  | Null => Fault
  | Node _ Null _ _ => Done node
  | Node _ l _ _ => minNode l
  end.

(** [node->key] and the assignment of the height from the subtrees. *)
Definition key_of (node : avlNode) : exec Z :=
  match node with Null => Fault | Node k _ _ _ => Done k end.
Definition update_height (k : Z) (l r : avlNode) : avlNode :=
  Node k l r (max (nodeHeight l) (nodeHeight r) + 1).

Definition rightRotate (z : avlNode) : exec avlNode :=
  match z with
  | Node k (Node yk yl T3 _) r _ => Done (update_height yk yl (update_height k T3 r))
  | _ => Fault
  end.

Definition leftRotate (z : avlNode) : exec avlNode :=
  match z with
  | Node k l (Node yk T3 yr _) _ => Done (update_height yk (update_height k l T3) yr)
  | _ => Fault
  end.

Definition LeftRightRotate (z : avlNode) : exec avlNode :=
  match z with
  | Node k l r h => l ← leftRotate l; rightRotate (Node k l r h)
  | Null => Fault
  end.

Definition RightLeftRotate (z : avlNode) : exec avlNode :=
  match z with
  | Node k l r h => r ← rightRotate r; leftRotate (Node k l r h)
  | Null => Fault
  end.

(** [a && b], where evaluating [b] may fault. *)
Definition and_then (a : bool) (b : exec bool) : exec bool := if a then b else Done false.

(** The part of [insert] behind the recursive call: height, then the four
    cases; the first two return. *)
Definition insert_balance (key : Z) (k : Z) (l r : avlNode) : exec avlNode :=
  let node := update_height k l r in
  let balance := heightDiff node in
  c ← and_then (1 <? balance) (lk ← key_of l; Done (key <? lk));
  if (c : bool) then rightRotate node else
  c ← and_then (balance <? -1) (rk ← key_of r; Done (rk <? key));
  if (c : bool) then leftRotate node else
  c ← and_then (1 <? balance) (lk ← key_of l; Done (lk <? key));
  node ← (if (c : bool) then LeftRightRotate node else Done node);
  c ← and_then (balance <? -1)
        (match node with Node _ _ r' _ => rk ← key_of r'; Done (key <? rk) | Null => Fault end);
  if (c : bool) then RightLeftRotate node else Done node.

Fixpoint insert (malloc : bool) (node : avlNode) (key : Z) : exec avlNode :=
  match node with
  | Null => Done (newNode malloc key)
  | Node k l r h =>
      if key <? k then l ← insert malloc l key; insert_balance key k l r
      else if k <? key then r ← insert malloc r key; insert_balance key k l r
      else insert_balance key k l r
  end.

(** The part of [delete] behind the removal. *)
Definition delete_balance (node : avlNode) : exec avlNode :=
  match node with
  | Null => Done Null
  | Node k l r _ =>
      let node := update_height k l r in
      let balance := heightDiff node in
      if (1 <? balance) && (0 <=? heightDiff l) then rightRotate node else
      node ← (if (1 <? balance) && (heightDiff l <? 0) then LeftRightRotate node else Done node);
      match node with
      | Null => Fault
      | Node _ _ r' _ =>
          if (balance <? -1) && (0 <=? heightDiff r') then leftRotate node
          else if (balance <? -1) && (heightDiff r' <? 0) then RightLeftRotate node
          else Done node
      end
  end.

Fixpoint delete (node : avlNode) (queryNum : Z) : exec avlNode :=
  match node with
  | Null => Done Null
  | Node k l r h =>
      if queryNum <? k then l ← delete l queryNum; delete_balance (Node k l r h)
      else if k <? queryNum then r ← delete r queryNum; delete_balance (Node k l r h)
      else match l, r with
           | Null, _ => delete_balance r
           | _, Null => delete_balance l
           | _, _ =>
               temp ← minNode r;
               tk ← key_of temp;
               r ← delete r tk;
               delete_balance (Node tk l r h)
           end
  end.

Fixpoint findNode (node : avlNode) (queryNum : Z) : avlNode :=
  match node with
  | Null => Null
  | Node k l r _ =>
      if queryNum <? k then findNode l queryNum
      else if k <? queryNum then findNode r queryNum
      else node
  end.

(** The three traversals, as the sequences of keys they print. *)
Fixpoint printPreOrder (node : avlNode) : list Z :=
  match node with Null => [] | Node k l r _ => k :: printPreOrder l ++ printPreOrder r end.
Fixpoint printInOrder (node : avlNode) : list Z :=
  match node with Null => [] | Node k l r _ => printInOrder l ++ k :: printInOrder r end.
Fixpoint printPostOrder (node : avlNode) : list Z :=
  match node with Null => [] | Node k l r _ => printPostOrder l ++ printPostOrder r ++ [k] end.

(** ** Order and balance *)

(** The keys in order, without duplicates. *)
Definition sorted (l : list Z) : Prop := StronglySorted Z.lt l.

(** The stored heights are the heights, and siblings differ by at most one. *)
Fixpoint balanced (t : avlNode) : Prop :=
  match t with
  | Null => True
  | Node _ l r h =>
      balanced l /\ balanced r /\ h = Z.max (nodeHeight l) (nodeHeight r) + 1 /\
      -1 <= nodeHeight l - nodeHeight r <= 1
  end.

Definition avl (t : avlNode) : Prop := sorted (printInOrder t) /\ balanced t.

(** The set operations on sorted lists. *)
Fixpoint add (key : Z) (l : list Z) : list Z :=
  match l with
  | [] => [key]
  | x :: l => if key <? x then key :: x :: l else if x <? key then x :: add key l else x :: l
  end.

Lemma sorted_mid a k b :
  sorted (a ++ k :: b) <-> sorted a /\ sorted b /\ Forall (fun x => x < k) a /\ Forall (Z.lt k) b.
Proof.
  unfold sorted. induction a as [|x a IH]; cbn [app].
  - split.
    + intros H. apply StronglySorted_inv in H as [H1 H2]. by repeat split; try constructor.
    + intros (_ & H1 & _ & H2). by constructor.
  - split.
    + intros H. apply StronglySorted_inv in H as [H1 H2]. apply IH in H1 as (Ha & Hb & Fa & Fb).
      apply Forall_app in H2 as [H2 H3]. apply Forall_cons in H3 as [H3 _]. by repeat split; try constructor.
    + intros (Ha & Hb & Fa & Fb). apply StronglySorted_inv in Ha as [Ha Hx]. apply Forall_cons in Fa as [Fx Fa].
      constructor; [by apply IH|]. apply Forall_app. split; [done|]. constructor; [done|].
      apply (Forall_impl _ _ _ Fb). intros y Hy. simpl in *. lia.
Qed.

Lemma add_left key a k b : key < k -> add key (a ++ k :: b) = add key a ++ k :: b.
Proof.
  intros Hk. induction a as [|x a IH]; cbn [add app].
  - by rewrite (proj2 (Z.ltb_lt _ _)).
  - destruct (key <? x); [done|]. destruct (x <? key); [by rewrite IH|done].
Qed.

Lemma add_right key a k b :
  k < key -> Forall (fun x => x < k) a -> add key (a ++ k :: b) = a ++ k :: add key b.
Proof.
  intros Hk. induction a as [|x a IH]; intros Ha; cbn [add app].
  - rewrite (proj2 (Z.ltb_ge _ _)), (proj2 (Z.ltb_lt _ _)) by lia. done.
  - apply Forall_cons in Ha as [Hx Ha]. simpl in Hx.
    rewrite (proj2 (Z.ltb_ge _ _)), (proj2 (Z.ltb_lt _ _)) by lia. by rewrite IH.
Qed.

Lemma add_same a k b : Forall (fun x => x < k) a -> add k (a ++ k :: b) = a ++ k :: b.
Proof.
  induction a as [|x a IH]; intros Ha; cbn [add app].
  - by rewrite Z.ltb_irrefl.
  - apply Forall_cons in Ha as [Hx Ha]. simpl in Hx.
    rewrite (proj2 (Z.ltb_ge _ _)), (proj2 (Z.ltb_lt _ _)) by lia. by rewrite IH.
Qed.

Lemma add_elem key l x : x ∈ add key l <-> x = key \/ x ∈ l.
Proof.
  induction l as [|y l IH]; cbn [add].
  - rewrite elem_of_cons. done.
  - destruct (Z.ltb_spec key y); [by rewrite elem_of_cons|].
    destruct (Z.ltb_spec y key); rewrite !elem_of_cons, ?IH; [tauto|].
    assert (key = y) as -> by lia. tauto.
Qed.

Lemma add_sorted key l : sorted l -> sorted (add key l).
Proof.
  unfold sorted. induction l as [|x l IH]; intros H; cbn [add]; [by repeat constructor|].
  destruct (Z.ltb_spec key x).
  - constructor; [done|]. apply StronglySorted_inv in H as [_ Hx]. constructor; [done|].
    apply (Forall_impl _ _ _ Hx). lia.
  - destruct (Z.ltb_spec x key); [|done]. apply StronglySorted_inv in H as [H Hx].
    constructor; [by apply IH|]. apply Forall_forall. intros y [->|Hy]%add_elem; [done|].
    rewrite Forall_forall in Hx. by apply Hx.
Qed.

Lemma max_Z a b : max a b = Z.max a b.
Proof. unfold max. destruct (Z.ltb_spec b a); lia. Qed.

Lemma balanced_height t : balanced t -> -1 <= nodeHeight t.
Proof. induction t as [|k l IHl r IHr h]; cbn; [lia|]. intros (Hl & Hr & -> & _). specialize (IHl Hl). lia. Qed.

(** Balance and height of an explicit tree from those of its parts. *)
Ltac heights :=
  unfold update_height; cbn [balanced nodeHeight heightDiff] in *; rewrite ?max_Z;
  cbn [nodeHeight]; rewrite ?max_Z; repeat split; (done || lia).

(** Rotations keep the sequence of the keys. *)
Ltac reassoc := unfold update_height; cbn [printInOrder]; repeat (progress (rewrite <- ?app_assoc; cbn [app printInOrder])); done.

(** ** Insertion *)

(** How a subtree that became higher leans: to the side of the new key. *)
Definition grown (key : Z) (t t' : avlNode) : Prop :=
  t = Null \/ exists k l r h, t' = Node k l r h /\
    ((key < k /\ heightDiff t' = 1) \/ (k < key /\ heightDiff t' = -1)).
Definition after (key : Z) (t t' : avlNode) : Prop :=
  balanced t' /\
  (nodeHeight t' = nodeHeight t \/ (nodeHeight t' = nodeHeight t + 1 /\ grown key t t')).

Lemma insert_balance_left key k l l' r h :
  balanced (Node k l r h) -> after key l l' -> key < k ->
  exists t', insert_balance key k l' r = Done t' /\ after key (Node k l r h) t' /\
    printInOrder t' = printInOrder l' ++ k :: printInOrder r.
Proof.
  intros (Hl & Hr & Hh & Hd) (Hl' & Hgrow) Hk. pose proof (balanced_height r Hr) as Hr1.
  unfold insert_balance. set (node := update_height k l' r).
  assert (heightDiff node = nodeHeight l' - nodeHeight r) as -> by done.
  destruct (decide (nodeHeight l' - nodeHeight r <= 1)) as [Hb|Hb].
  - rewrite (proj2 (Z.ltb_ge 1 _)), (proj2 (Z.ltb_ge _ (-1))) by lia. cbn [and_then]. run.
    exists node. split; [done|]. split; [|done]. subst node. split; [heights|].
    destruct (decide (nodeHeight l' = nodeHeight l)); [left; heights|].
    destruct (decide (nodeHeight l' <= nodeHeight r)); [left; heights|].
    right. split; [heights|]. right. do 4 eexists. split; [done|]. left. heights.
  - destruct Hgrow as [?|[He [->|(lk & ll & lr & lh & -> & Hg)]]]; [lia|cbn in *; lia|].
    cbn [heightDiff balanced] in Hg, Hl'. destruct Hl' as (Bll & Blr & -> & Hd').
    rewrite (proj2 (Z.ltb_lt 1 _)) by lia. cbn [and_then key_of]. run.
    destruct Hg as [[Hlt Hdiff]|[Hlt Hdiff]].
    + rewrite (proj2 (Z.ltb_lt key lk)) by lia. eexists. split; [reflexivity|]. split.
      * split; [heights|]. left. heights.
      * reassoc.
    + rewrite (proj2 (Z.ltb_ge key lk)) by lia. rewrite (proj2 (Z.ltb_ge _ (-1))) by lia. cbn [and_then]. run.
      rewrite (proj2 (Z.ltb_lt lk key)) by lia. pose proof (balanced_height ll Bll).
      destruct lr as [|mk ml mr mh]; [cbn in *; lia|]. destruct Blr as (Bml & Bmr & -> & Hd'').
      eexists. split; [reflexivity|]. split.
      * split; [heights|]. left. heights.
      * reassoc.
Qed.

Lemma insert_balance_right key k l r r' h :
  balanced (Node k l r h) -> after key r r' -> k < key ->
  exists t', insert_balance key k l r' = Done t' /\ after key (Node k l r h) t' /\
    printInOrder t' = printInOrder l ++ k :: printInOrder r'.
Proof.
  intros (Hl & Hr & Hh & Hd) (Hr' & Hgrow) Hk. pose proof (balanced_height l Hl) as Hl1.
  unfold insert_balance. set (node := update_height k l r').
  assert (heightDiff node = nodeHeight l - nodeHeight r') as -> by done.
  rewrite (proj2 (Z.ltb_ge 1 _)) by lia. cbn [and_then]. run.
  destruct (decide (-1 <= nodeHeight l - nodeHeight r')) as [Hb|Hb].
  - rewrite (proj2 (Z.ltb_ge _ (-1))) by lia. cbn [and_then]. run.
    exists node. split; [done|]. split; [|done]. subst node. split; [heights|].
    destruct (decide (nodeHeight r' = nodeHeight r)); [left; heights|].
    destruct (decide (nodeHeight r' <= nodeHeight l)); [left; heights|].
    right. split; [heights|]. right. do 4 eexists. split; [done|]. right. heights.
  - destruct Hgrow as [?|[He [->|(rk & rl & rr & rh & -> & Hg)]]]; [lia|cbn in *; lia|].
    cbn [heightDiff balanced] in Hg, Hr'. destruct Hr' as (Brl & Brr & -> & Hd').
    rewrite (proj2 (Z.ltb_lt _ (-1))) by lia. cbn [and_then key_of]. run.
    destruct Hg as [[Hlt Hdiff]|[Hlt Hdiff]].
    + rewrite (proj2 (Z.ltb_ge rk key)) by lia. unfold node, update_height. cbn [key_of mbind exec_bind].
      rewrite (proj2 (Z.ltb_lt key rk)) by lia. pose proof (balanced_height rr Brr).
      destruct rl as [|mk ml mr mh]; [cbn in *; lia|]. destruct Brl as (Bml & Bmr & -> & Hd'').
      eexists. split; [reflexivity|]. split.
      * split; [heights|]. left. heights.
      * reassoc.
    + rewrite (proj2 (Z.ltb_lt rk key)) by lia. eexists. split; [reflexivity|]. split.
      * split; [heights|]. left. heights.
      * reassoc.
Qed.

(** Inserting a key that is there: nothing needs to be rotated. *)
Lemma insert_balance_same key k l r h :
  balanced (Node k l r h) -> insert_balance key k l r = Done (Node k l r h).
Proof.
  intros (Hl & Hr & -> & Hd). unfold insert_balance, update_height. cbn [heightDiff].
  rewrite (proj2 (Z.ltb_ge 1 _)), (proj2 (Z.ltb_ge _ (-1))) by lia. cbn [and_then]. run. by rewrite max_Z.
Qed.

Lemma insert_spec t key :
  sorted (printInOrder t) -> balanced t ->
  exists t', insert true t key = Done t' /\ after key t t' /\ printInOrder t' = add key (printInOrder t).
Proof.
  induction t as [|k l IHl r IHr h]; intros Hs Hb.
  - exists (Node key Null Null 0). split; [done|]. split; [|done]. split; [heights|]. right. split; [done|by left].
  - cbn [insert]. cbn [printInOrder] in *. apply sorted_mid in Hs as (Sl & Sr & Fl & Fr).
    destruct Hb as (Bl & Br & Hb). destruct (Z.ltb_spec key k).
    + destruct (IHl Sl Bl) as (l' & -> & Al & El). run.
      destruct (insert_balance_left key k l l' r h) as (t' & E & A & Et); [done|done|done|].
      exists t'. split; [done|]. split; [done|]. by rewrite Et, El, add_left.
    + destruct (Z.ltb_spec k key).
      * destruct (IHr Sr Br) as (r' & -> & Ar & Er). run.
        destruct (insert_balance_right key k l r r' h) as (t' & E & A & Et); [done|done|done|].
        exists t'. split; [done|]. split; [done|]. by rewrite Et, Er, add_right.
      * assert (key = k) as -> by lia. exists (Node k l r h). rewrite (insert_balance_same k k l r h) by done.
        split; [done|]. split; [|by rewrite add_same]. split; [done|by left].
Qed.

(** ** Search and height *)

Fixpoint size (t : avlNode) : Z :=
  match t with Null => 0 | Node _ l r _ => size l + size r + 1 end.

Lemma size_keys t : size t = Z.of_nat (length (printInOrder t)).
Proof.
  induction t as [|k l IHl r IHr h]; [done|]. cbn [size printInOrder]. rewrite length_app. cbn [length]. lia.
Qed.

Lemma height_size_nat t n : balanced t -> nodeHeight t = Z.of_nat n - 1 -> 2 ^ (Z.of_nat n / 2) <= size t + 1.
Proof.
  revert t. induction n as [n IH] using (well_founded_induction lt_wf). intros t Hb Hn.
  destruct t as [|k l r h]; [cbn in Hn; assert (n = 0%nat) as -> by lia; by vm_compute|].
  destruct Hb as (Bl & Br & -> & Hd). cbn [nodeHeight size] in *.
  pose proof (balanced_height l Bl). pose proof (balanced_height r Br).
  destruct (decide (n <= 1)%nat) as [H1|H1].
  - assert (n = 1%nat) as -> by lia. change (2 ^ (Z.of_nat 1 / 2)) with 1. assert (0 <= size l /\ 0 <= size r) by (rewrite !size_keys; lia). lia.
  - assert (Z.of_nat n / 2 = Z.of_nat (n - 2) / 2 + 1) as -> by lia_div.
    rewrite Z.pow_add_r by lia_div.
    assert (forall u, balanced u -> Z.of_nat (n - 2) - 1 <= nodeHeight u <= Z.of_nat n - 2 ->
      2 ^ (Z.of_nat (n - 2) / 2) <= size u + 1) as G.
    { intros u Bu Hu. etrans; [|apply (IH (Z.to_nat (nodeHeight u + 1))); [lia|done|lia]].
      apply Z.pow_le_mono_r; [lia|]. apply Z.div_le_mono; lia. }
    pose proof (G l Bl ltac:(lia)). pose proof (G r Br ltac:(lia)). lia.
Qed.

Lemma findNode_spec t key :
  sorted (printInOrder t) ->
  match findNode t key with
  | Null => key ∉ printInOrder t
  | Node k _ _ _ => k = key /\ key ∈ printInOrder t
  end.
Proof.
  induction t as [|k l IHl r IHr h]; intros Hs; cbn [findNode printInOrder] in *; [apply not_elem_of_nil|].
  apply sorted_mid in Hs as (Sl & Sr & Fl & Fr). rewrite Forall_forall in Fl, Fr.
  destruct (Z.ltb_spec key k).
  - specialize (IHl Sl). destruct (findNode l key).
    + intros [Hi|[->|Hi]%elem_of_cons]%elem_of_app; [done|lia|]. specialize (Fr _ Hi). lia.
    + split; [apply IHl|]. apply elem_of_app. left. apply IHl.
  - destruct (Z.ltb_spec k key).
    + specialize (IHr Sr). destruct (findNode r key).
      * intros [Hi|[->|Hi]%elem_of_cons]%elem_of_app; [|lia|done]. specialize (Fl _ Hi). simpl in Fl. lia.
      * split; [apply IHr|]. apply elem_of_app. right. apply elem_of_cons. right. apply IHr.
    + assert (k = key) as -> by lia. split; [done|]. apply elem_of_app. right. by apply elem_of_cons; left.
Qed.

(** ** Deletion *)

Definition remove (key : Z) (l : list Z) : list Z := filter (fun x => x <> key) l.

Lemma remove_all key l : Forall (fun x => x <> key) l -> remove key l = l.
Proof.
  unfold remove. induction 1 as [|x l Hx Hl IH]; [done|]. rewrite filter_cons, decide_True by done. by rewrite IH.
Qed.

Lemma remove_mid key a k b :
  remove key (a ++ k :: b) = remove key a ++ (if decide (k <> key) then [k] else []) ++ remove key b.
Proof. unfold remove. rewrite filter_app, filter_cons. by case_decide. Qed.

Lemma Forall_neq (P : Z -> Prop) key l : (forall x, P x -> x <> key) -> Forall P l -> Forall (fun x => x <> key) l.
Proof. intros H Hl. exact (Forall_impl _ _ _ Hl H). Qed.

Lemma rotate_keys t t' :
  rightRotate t = Done t' \/ leftRotate t = Done t' -> printInOrder t' = printInOrder t.
Proof.
  intros [H|H]; destruct t as [|k l r h]; try done.
  - destruct l; [done|]. injection H as <-. reassoc.
  - destruct r; [done|]. injection H as <-. reassoc.
Qed.

Lemma double_keys t t' :
  LeftRightRotate t = Done t' \/ RightLeftRotate t = Done t' -> printInOrder t' = printInOrder t.
Proof.
  intros [H|H]; destruct t as [|k l r h]; try done; unfold LeftRightRotate, RightLeftRotate in H; apply bind_Done_inv in H as (u & E & H).
  - rewrite (rotate_keys _ _ (or_introl H)). cbn. by rewrite (rotate_keys _ _ (or_intror E)).
  - rewrite (rotate_keys _ _ (or_intror H)). cbn. by rewrite (rotate_keys _ _ (or_introl E)).
Qed.

Lemma delete_balance_keys t t' : delete_balance t = Done t' -> printInOrder t' = printInOrder t.
Proof.
  destruct t as [|k l r h]; [by intros [= <-]|]. unfold delete_balance. cbv zeta.
  change (printInOrder (Node k l r h)) with (printInOrder (update_height k l r)).
  set (node := update_height k l r).
  destruct ((_ && _)%bool); [intros H; apply rotate_keys; by left|].
  intros (u & Hu & H)%bind_Done_inv. assert (printInOrder u = printInOrder node) as <-.
  { destruct ((_ && _)%bool) in Hu; [apply double_keys; by left|by injection Hu as <-]. }
  destruct u as [|uk ul ur uh]; [done|].
  destruct ((_ && _)%bool) in H; [apply rotate_keys; by right|].
  destruct ((_ && _)%bool) in H; [apply double_keys; by right|by injection H as <-].
Qed.

Lemma minNode_spec t :
  t <> Null -> sorted (printInOrder t) ->
  exists k l r h rest, minNode t = Done (Node k l r h) /\ printInOrder t = k :: rest.
Proof.
  induction t as [|k l IHl r IHr h]; intros Hn Hs; [done|]. cbn [printInOrder minNode] in *.
  destruct l as [|lk ll lr lh]; [by eexists _, _, _, _, _|].
  apply sorted_mid in Hs as (Sl & _). destruct IHl as (k' & l' & r' & h' & rest & E & Er); [done|done|].
  rewrite E, Er. by eexists _, _, _, _, _.
Qed.

Lemma delete_keys t : forall key t',
  sorted (printInOrder t) -> delete t key = Done t' -> printInOrder t' = remove key (printInOrder t).
Proof.
  induction t as [|k l IHl r IHr h]; intros key t' Hs H; [by injection H as <-|].
  cbn [delete printInOrder] in *. rewrite remove_mid. apply sorted_mid in Hs as (Sl & Sr & Fl & Fr).
  destruct (Z.ltb_spec key k); [|destruct (Z.ltb_spec k key)].
  - apply bind_Done_inv in H as (l' & El & H). apply delete_balance_keys in H as ->. cbn [printInOrder].
    rewrite (IHl _ _ Sl El), decide_True, (remove_all key (printInOrder r)) by (lia || (eapply Forall_neq; [|exact Fr]; simpl; lia)).
    done.
  - apply bind_Done_inv in H as (r' & Er & H). apply delete_balance_keys in H as ->. cbn [printInOrder].
    rewrite (IHr _ _ Sr Er), decide_True, (remove_all key (printInOrder l)) by (lia || (eapply Forall_neq; [|exact Fl]; simpl; lia)).
    done.
  - assert (key = k) as -> by lia. rewrite decide_False by auto. cbn [app].
    rewrite !remove_all by ((eapply Forall_neq; [|exact Fl]; simpl; lia) || (eapply Forall_neq; [|exact Fr]; simpl; lia)).
    destruct l as [|lk ll lr lh]; [by apply delete_balance_keys in H as ->|].
    destruct r as [|rk rl rr rh] eqn:Er; [apply delete_balance_keys in H as ->; by rewrite app_nil_r|].
    rewrite <- Er in *. destruct (minNode_spec r) as (mk & ml & mr & mh & rest & Em & Erest); [by rewrite Er|done|].
    rewrite Em, bind_Done in H. cbn [key_of] in H. rewrite bind_Done in H.
    apply bind_Done_inv in H as (r' & Hr' & H).
    apply delete_balance_keys in H as ->. cbn [printInOrder]. rewrite (IHr _ _ Sr Hr'), Erest in *.
    unfold remove. rewrite filter_cons, decide_False by auto. fold (remove mk rest).
    apply StronglySorted_inv in Sr as [_ Hmin]. rewrite remove_all; [done|].
    eapply Forall_neq; [|exact Hmin]. simpl. lia.
Qed.

(** ** Properties *)

(** Inserting a key into an AVL tree always succeeds and gives an AVL tree
    (in order, balanced, with correct stored heights) with exactly that key
    added. *)
Theorem avl_insert t key :
  avl t -> exists t', insert true t key = Done t' /\ avl t' /\ printInOrder t' = add key (printInOrder t).
Proof.
  intros [Hs Hb]. destruct (insert_spec t key Hs Hb) as (t' & E & [B _] & K).
  exists t'. split; [done|]. split; [|done]. split; [|done]. rewrite K. by apply add_sorted.
Qed.

Lemma avl_insert_witness :
  exists t', insert true (Node 10 Null Null 0) 20 = Done t' /\ avl t' /\
    printInOrder t' = add 20 (printInOrder (Node 10 Null Null 0)).
Proof.
  apply (avl_insert (Node 10 Null Null 0) 20). split; [repeat constructor|].
  cbn. repeat split; (done || lia).
Defined.

(** [findNode] returns a node with the wanted key if and only if the tree
    contains it, and a null pointer otherwise. *)
Theorem avl_find t key :
  sorted (printInOrder t) ->
  match findNode t key with
  | Null => key ∉ printInOrder t
  | Node k _ _ _ => k = key /\ key ∈ printInOrder t
  end.
Proof. apply findNode_spec. Qed.

Lemma avl_find_witness :
  let t := Node 20 (Node 10 Null Null 0) Null 1 in
  match findNode t 10 with Null => 10 ∉ printInOrder t | Node k _ _ _ => k = 10 /\ 10 ∈ printInOrder t end.
Proof. apply (avl_find (Node 20 (Node 10 Null Null 0) Null 1) 10). repeat constructor. Defined.

(** C34: The tree built by inserting any sequence of keys contains just those
    keys and its height is at most twice the logarithm of its size. *)
Theorem avl_build keys :
  exists t, foldl (fun m key => t ← m; insert true t key) (Done Null) keys = Done t /\ avl t /\
    (forall x, x ∈ printInOrder t <-> x ∈ keys) /\
    2 ^ ((nodeHeight t + 1) / 2) <= size t + 1.
Proof.
  induction keys as [|key keys IH] using rev_ind.
  - exists Null. split; [done|]. split; [by repeat constructor|]. done.
  - destruct IH as (t & E & [Hs Hb] & Hk & _). rewrite foldl_app, E. cbn [foldl]. run.
    destruct (insert_spec t key Hs Hb) as (t' & E' & [B _] & K).
    exists t'. split; [done|]. split; [split; [rewrite K; by apply add_sorted|done]|]. split.
    + intros x. rewrite K, add_elem, Hk, elem_of_app, list_elem_of_singleton. tauto.
    + pose proof (balanced_height t' B). pose proof (height_size_nat t' (Z.to_nat (nodeHeight t' + 1)) B) as H1.
      rewrite Z2Nat.id in H1 by lia. apply H1. lia.
Qed.

(** Where [delete] returns, the tree has the remaining keys in order. *)
Theorem avl_delete_keys t key t' :
  sorted (printInOrder t) -> delete t key = Done t' -> printInOrder t' = remove key (printInOrder t).
Proof. apply delete_keys. Qed.

Lemma avl_delete_keys_witness :
  let t := Node 20 (Node 10 Null Null 0) (Node 30 Null Null 0) 1 in
  let t' := Node 30 (Node 10 Null Null 0) Null 1 in
  delete t 20 = Done t' /\ printInOrder t' = remove 20 (printInOrder t).
Proof.
  split; [reflexivity|].
  apply (avl_delete_keys (Node 20 (Node 10 Null Null 0) (Node 30 Null Null 0) 1) 20); [repeat constructor|reflexivity].
Defined.

(** Deleting the only node on the left of an AVL tree follows a null
    pointer when the right subtree leans to the right, and returns an
    unbalanced tree when it leans to the left. *)
Theorem avl_delete_right_heavy a b c d :
  a < b -> b < c -> c < d ->
  let leaf x := Node x Null Null 0 in
  avl (Node b (leaf a) (Node c Null (leaf d) 1) 2) /\
  delete (Node b (leaf a) (Node c Null (leaf d) 1) 2) a = Fault /\
  avl (Node b (leaf a) (Node d (leaf c) Null 1) 2) /\
  exists t, delete (Node b (leaf a) (Node d (leaf c) Null 1) 2) a = Done t /\ ~ balanced t.
Proof.
  intros Hab Hbc Hcd leaf.
  assert (forall x, (x <? x) = false) as Hx by apply Z.ltb_irrefl.
  split; [|split; [|split]].
  - split; [cbn; repeat constructor; lia|cbn; repeat split; lia].
  - cbn [delete leaf]. rewrite (proj2 (Z.ltb_lt _ _)) by done. cbn. rewrite Hx. reflexivity.
  - split; [cbn; repeat constructor; lia|cbn; repeat split; lia].
  - cbn [delete leaf]. rewrite (proj2 (Z.ltb_lt _ _)) by done. cbn. rewrite Hx.
    eexists. split; [reflexivity|]. cbn. intros (_ & _ & _ & H). lia.
Qed.

Lemma avl_delete_right_heavy_witness :
  let leaf x := Node x Null Null 0 in
  avl (Node 10 (leaf 5) (Node 20 Null (leaf 30) 1) 2) /\
  delete (Node 10 (leaf 5) (Node 20 Null (leaf 30) 1) 2) 5 = Fault /\
  avl (Node 10 (leaf 5) (Node 30 (leaf 20) Null 1) 2) /\
  exists t, delete (Node 10 (leaf 5) (Node 30 (leaf 20) Null 1) 2) 5 = Done t /\ ~ balanced t.
Proof. apply (avl_delete_right_heavy 5 10 20 30); reflexivity. Defined.

End Avl.
