(* ===== verification/SLinkList.v ===== *)
(** * Static linked lists (src/DataStruct_learn/Array/SLinkList/SLinkList.c)

    Linked lists whose nodes live in one array and whose links are indices:
    slot 0 heads the list of free slots, another slot the list of elements.
    The array is checked: an index outside it is a fault.  The loops follow a
    chain of links and get as much fuel as the array has slots.

    The operations are proved to simulate those of an ordinary list, but for
    one case: when no slot is free, an insertion answers OK and cuts the list. *)

From S2P Require Import Prelude.
#[local] Set Warnings "-level-tolerance".

Module SLinkList.

(** ** The code *)

Definition OK : Z := 1.
Definition ERROR : Z := 0.
Definition TRUE : Z := 1.
Definition FALSE : Z := 0.

Definition MAXSIZE : nat := 1000.

Record SLinkNode := Slot { data : Z; cur : Z }.

(** [space[p].cur], [space[p].data] and the assignments to them. *)
Definition get_cur (space : list SLinkNode) (p : Z) : exec Z := n ← loadz space p; Done (cur n).
Definition get_data (space : list SLinkNode) (p : Z) : exec Z := n ← loadz space p; Done (data n).
Definition set_cur (space : list SLinkNode) (p c : Z) : exec (list SLinkNode) :=
  n ← loadz space p; storez space p (Slot (data n) c).
Definition set_data (space : list SLinkNode) (p e : Z) : exec (list SLinkNode) :=
  n ← loadz space p; storez space p (Slot e (cur n)).

(** [while (cond) body], where the condition reads the array. *)
Fixpoint loop {S} (fuel : nat) (cond : S -> exec bool) (body : S -> exec S) (s : S) : exec S :=
  b ← cond s;
  if (b : bool) then
    match fuel with
    | O => NoFuel
    | Datatypes.S fuel' => s' ← body s; loop fuel' cond body s'
    end
  else Done s.

Definition InitSpace (space : list SLinkNode) : exec (list SLinkNode) :=
  space ← for_range 0 (MAXSIZE - 1) (fun i space => set_cur space (Z.of_nat i) (Z.of_nat i + 1)) space;
  set_cur space (Z.of_nat (MAXSIZE - 1)) 0.

Definition Malloc (space : list SLinkNode) : exec (Z * list SLinkNode) :=
  i ← get_cur space 0;
  space ← (if i =? 0 then Done space else c ← get_cur space i; set_cur space 0 c);
  Done (i, space).

Definition Free (space : list SLinkNode) (k : Z) : exec (list SLinkNode) :=
  c ← get_cur space 0;
  space ← set_cur space k c;
  set_cur space 0 k.

(** The status, [*S] and the array; [S] is what [*S] was before. *)
Definition InitList (space : list SLinkNode) (S : Z) : exec (Z * Z * list SLinkNode) :=
  space ← InitSpace space;
  r ← Malloc space;
  let '(index, space) := r in
  if index =? 0 then Done (ERROR, S, space) else
  space ← set_cur space index 0;
  Done (OK, index, space).

(** Frees the chain from [p]: the loops of [DestroyList] and [ClearList]. *)
Definition free_chain (space : list SLinkNode) (p : Z) : exec (Z * list SLinkNode) :=
  loop MAXSIZE (fun '(p, _) => Done (negb (p =? 0)))
    (fun '(p, space) => c ← get_cur space p; space ← Free space p; Done (c, space)) (p, space).

(** A null pointer [S] is not modelled. *)
Definition DestroyList (space : list SLinkNode) (S : Z) : exec (Z * Z * list SLinkNode) :=
  if S =? 0 then Done (ERROR, S, space) else
  r ← free_chain space S;
  Done (OK, r.1, r.2).

Definition ClearList (space : list SLinkNode) (S : Z) : exec (Z * list SLinkNode) :=
  if S =? 0 then Done (ERROR, space) else
  P ← get_cur space S;
  r ← free_chain space P;
  space ← set_cur r.2 S 0;
  Done (OK, space).

Definition ListEmpty (space : list SLinkNode) (S : Z) : exec Z :=
  if negb (S =? 0) then c ← get_cur space S; Done (if c =? 0 then TRUE else FALSE) else Done FALSE.

(** [S == 0 || space[S].cur == 0]. *)
Definition absent_or_empty (space : list SLinkNode) (S : Z) : exec bool :=
  if S =? 0 then Done true else c ← get_cur space S; Done (c =? 0).

Definition ListLength (space : list SLinkNode) (S : Z) : exec Z :=
  b ← absent_or_empty space S;
  if (b : bool) then Done 0 else
  p ← get_cur space S;
  r ← loop MAXSIZE (fun '(p, _) => Done (negb (p =? 0)))
        (fun '(p, count) => c ← get_cur space p; Done (c, count + 1)) (p, 0);
  Done r.2.

(** The loop [while (p != 0 && j < m) { p = space[p].cur; ++j; }]. *)
Definition walk (space : list SLinkNode) (m p j : Z) : exec (Z * Z) :=
  loop MAXSIZE (fun '(p, j) => Done (negb (p =? 0) && (j <? m)))
    (fun '(p, j) => c ← get_cur space p; Done (c, j + 1)) (p, j).

(** The status and, when it is [OK], the element stored in [*e]. *)
Definition GetElem (space : list SLinkNode) (S i : Z) : exec (Z * option Z) :=
  b ← absent_or_empty space S;
  if (b : bool) then Done (ERROR, None) else
  p ← get_cur space S;
  r ← walk space (i - 1) p 0;
  let '(p, count) := r in
  if (p =? 0) || (i - 1 <? count) then Done (ERROR, None) else
  e ← get_data space p;
  Done (OK, Some e).

Definition LocateElem (space : list SLinkNode) (S e : Z) (Compare : Z -> Z -> bool) : exec Z :=
  b ← absent_or_empty space S;
  if (b : bool) then Done 0 else
  p ← get_cur space S;
  r ← loop MAXSIZE (fun '(p, _) => if p =? 0 then Done false else d ← get_data space p; Done (negb (Compare d e)))
        (fun '(p, i) => c ← get_cur space p; Done (c, i + 1)) (p, 1);
  Done (if r.1 =? 0 then 0 else r.2).

Definition PriorElem (space : list SLinkNode) (S cur_e : Z) : exec (Z * option Z) :=
  b ← absent_or_empty space S;
  if (b : bool) then Done (ERROR, None) else
  pre ← get_cur space S;
  d ← get_data space pre;
  if d =? cur_e then Done (ERROR, None) else
  next ← get_cur space pre;
  r ← loop MAXSIZE (fun '(_, next) => if next =? 0 then Done false else d ← get_data space next; Done (negb (d =? cur_e)))
        (fun '(_, next) => c ← get_cur space next; Done (next, c)) (pre, next);
  let '(pre, next) := r in
  if next =? 0 then Done (ERROR, None) else
  e ← get_data space pre;
  Done (OK, Some e).

Definition NextElem (space : list SLinkNode) (S cur_e : Z) : exec (Z * option Z) :=
  b ← absent_or_empty space S;
  if (b : bool) then Done (ERROR, None) else
  pre ← get_cur space S;
  pre ← loop MAXSIZE (fun pre => c ← get_cur space pre; if c =? 0 then Done false else
                                 d ← get_data space pre; Done (negb (d =? cur_e)))
          (fun pre => get_cur space pre) pre;
  c ← get_cur space pre;
  if c =? 0 then Done (ERROR, None) else
  e ← get_data space c;
  Done (OK, Some e).

Definition ListInsert (space : list SLinkNode) (S i e : Z) : exec (Z * list SLinkNode) :=
  if S =? 0 then Done (ERROR, space) else
  r ← walk space (i - 1) S 0;
  let '(p, j) := r in
  if (p =? 0) || (i - 1 <? j) then Done (ERROR, space) else
  m ← Malloc space;
  let '(s, space) := m in
  space ← set_data space s e;
  c ← get_cur space p;
  space ← set_cur space s c;
  space ← set_cur space p s;
  Done (OK, space).

(** The status, the element stored in [*e] and the array. *)
Definition ListDelete (space : list SLinkNode) (S i : Z) : exec (Z * option Z * list SLinkNode) :=
  if S =? 0 then Done (ERROR, None, space) else
  r ← loop MAXSIZE (fun '(p, j) => c ← get_cur space p; Done (negb (c =? 0) && (j <? i - 1)))
        (fun '(p, j) => c ← get_cur space p; Done (c, j + 1)) (S, 0);
  let '(p, j) := r in
  q ← get_cur space p;
  if (q =? 0) || (i - 1 <? j) then Done (ERROR, None, space) else
  c ← get_cur space q;
  space ← set_cur space p c;
  e ← get_data space q;
  space ← Free space q;
  Done (OK, Some e, space).

(** The elements handed to [Visit], in order. *)
Definition ListTraverse (space : list SLinkNode) (S : Z) : exec (list Z) :=
  b ← absent_or_empty space S;
  if (b : bool) then Done [] else
  p ← get_cur space S;
  r ← loop MAXSIZE (fun '(p, _) => Done (negb (p =? 0)))
        (fun '(p, seen) => d ← get_data space p; c ← get_cur space p; Done (c, seen ++ [d])) (p, []);
  Done r.2.

Lemma MAXSIZE_3 : (3 <= MAXSIZE)%nat.
Proof. unfold MAXSIZE. lia. Qed.
#[local] Opaque MAXSIZE.

(** ** Chains of links *)

(** [seg space p ks q]: following the links from [p] visits the slots of [ks],
    with these data, and ends at [q]. *)
Fixpoint seg (space : list SLinkNode) (p : Z) (ks : list (nat * Z)) (q : Z) : Prop :=
  match ks with
  | [] => p = q
  | (k, e) :: ks =>
      p = Z.of_nat k /\ k <> 0%nat /\ exists c, space !! k = Some (Slot e c) /\ seg space c ks q
  end.

Lemma seg_cons space k e c ks q :
  k <> 0%nat -> space !! k = Some (Slot e c) -> seg space c ks q -> seg space (Z.of_nat k) ((k, e) :: ks) q.
Proof. intros Hk Hc H. cbn [seg]. split; [done|]. split; [done|]. by exists c. Qed.

Lemma seg_app space a b : forall p q,
  seg space p (a ++ b) q <-> exists m, seg space p a m /\ seg space m b q.
Proof.
  induction a as [|[k e] a IH]; intros p q; cbn [app seg].
  - split; [by exists p|by intros (m & -> & H)].
  - split.
    + intros (-> & Hk & c & Hc & H). apply IH in H as (m & Ha & Hb). exists m. split; [|done]. by apply (seg_cons _ _ _ c).
    + intros (m & (-> & Hk & c & Hc & Ha) & Hb). split; [done|]. split; [done|].
      exists c. split; [done|]. apply IH. by exists m.
Qed.

Lemma seg_frame space j n ks : forall p q,
  j ∉ ks.*1 -> seg space p ks q -> seg (<[j:=n]> space) p ks q.
Proof.
  induction ks as [|[k e] ks IH]; intros p q Hj; cbn [seg fmap list_fmap fst] in *; [done|].
  apply not_elem_of_cons in Hj as [Hjk Hj]. intros (-> & Hk & c & Hc & H).
  split; [done|]. split; [done|]. exists c. rewrite list_lookup_insert_ne by done. split; [done|]. by apply IH.
Qed.

Lemma get_cur_at space k n : space !! k = Some n -> get_cur space (Z.of_nat k) = Done (cur n).
Proof. intros H. unfold get_cur. by rewrite loadz_nat, (load_Done _ _ _ H). Qed.

Lemma get_data_at space k n : space !! k = Some n -> get_data space (Z.of_nat k) = Done (data n).
Proof. intros H. unfold get_data. by rewrite loadz_nat, (load_Done _ _ _ H). Qed.

Lemma set_cur_at space k n c :
  space !! k = Some n -> set_cur space (Z.of_nat k) c = Done (<[k := Slot (data n) c]> space).
Proof.
  intros H. unfold set_cur. rewrite loadz_nat, (load_Done _ _ _ H), bind_Done, storez_nat.
  apply store_lt. by apply lookup_lt_Some in H.
Qed.

Lemma set_data_at space k n e :
  space !! k = Some n -> set_data space (Z.of_nat k) e = Done (<[k := Slot e (cur n)]> space).
Proof.
  intros H. unfold set_data. rewrite loadz_nat, (load_Done _ _ _ H), bind_Done, storez_nat.
  apply store_lt. by apply lookup_lt_Some in H.
Qed.

Lemma loop_true {S} fuel cond body (s : S) s' :
  cond s = Done true -> body s = Done s' -> loop (Datatypes.S fuel) cond body s = loop fuel cond body s'.
Proof. intros Hc Hb. cbn [loop]. by rewrite Hc, bind_Done, Hb, bind_Done. Qed.

Lemma loop_false {S} fuel cond body (s : S) : cond s = Done false -> loop fuel cond body s = Done s.
Proof. intros Hc. destruct fuel; cbn [loop]; by rewrite Hc, bind_Done. Qed.

(** A slot of a chain is not slot 0. *)
Lemma slot_neq_0 k : k <> 0%nat -> (Z.of_nat k =? 0) = false.
Proof. intros H. apply Z.eqb_neq. lia. Qed.

Section reads.
Context (space : list SLinkNode).

Lemma walk_from m ks : forall fuel p j,
  seg space p ks 0 -> (length ks <= fuel)%nat ->
  let n := Nat.min (length ks) (Z.to_nat (m - j)) in
  exists p', loop fuel (fun '(p, j) => Done (negb (p =? 0) && (j <? m)))
    (fun '(p, j) => c ← get_cur space p; Done (c, j + 1)) (p, j) = Done (p', j + Z.of_nat n) /\
    seg space p (take n ks) p' /\ seg space p' (drop n ks) 0.
Proof.
  induction ks as [|[k e] ks IH]; intros fuel p j Hs Hf n; subst n.
  - cbn in Hs. subst p. exists 0. rewrite loop_false by done. split; [|done]. do 2 f_equal. cbn. lia.
  - destruct Hs as (-> & Hk & c & Hc & Hs). cbn [length] in *.
    destruct (Z.ltb_spec j m) as [Hj|Hj].
    + destruct fuel as [|fuel]; [lia|]. 
      rewrite (loop_true fuel _ _ _ (c, j + 1));
        [|by rewrite slot_neq_0, (proj2 (Z.ltb_lt j m))|by rewrite (get_cur_at _ _ _ Hc), bind_Done].
      destruct (IH fuel c (j + 1) Hs ltac:(lia)) as (p' & -> & H1 & H2). exists p'.
      replace (Nat.min (S (length ks)) (Z.to_nat (m - j)))
        with (S (Nat.min (length ks) (Z.to_nat (m - (j + 1))))) by lia.
      split; [do 2 f_equal; lia|]. split; [by apply (seg_cons _ _ _ c)|done].
    + rewrite loop_false by (rewrite slot_neq_0, (proj2 (Z.ltb_ge j m)) by done; done).
      exists (Z.of_nat k). replace (Nat.min _ _) with 0%nat by lia. rewrite Z.add_0_r.
      split; [done|]. split; [done|]. by apply (seg_cons _ _ _ c).
Qed.

Lemma count_from ks : forall fuel p n,
  seg space p ks 0 -> (length ks <= fuel)%nat ->
  loop fuel (fun '(p, _) => Done (negb (p =? 0)))
    (fun '(p, count) => c ← get_cur space p; Done (c, count + 1)) (p, n) = Done (0, n + Z.of_nat (length ks)).
Proof.
  induction ks as [|[k e] ks IH]; intros fuel p n Hs Hf.
  - cbn in Hs. subst p. rewrite loop_false by done. do 2 f_equal. cbn. lia.
  - destruct Hs as (-> & Hk & c & Hc & Hs). cbn [length] in *. destruct fuel as [|fuel]; [lia|].
    rewrite (loop_true fuel _ _ _ (c, n + 1));
      [|by rewrite slot_neq_0|by rewrite (get_cur_at _ _ _ Hc), bind_Done].
    rewrite IH by (done || lia). do 2 f_equal. lia.
Qed.

Lemma traverse_from ks : forall fuel p seen,
  seg space p ks 0 -> (length ks <= fuel)%nat ->
  loop fuel (fun '(p, _) => Done (negb (p =? 0)))
    (fun '(p, seen) => d ← get_data space p; c ← get_cur space p; Done (c, seen ++ [d])) (p, seen) =
  Done (0, seen ++ ks.*2).
Proof.
  induction ks as [|[k e] ks IH]; intros fuel p seen Hs Hf.
  - cbn in Hs. subst p. rewrite loop_false by done. by rewrite app_nil_r.
  - destruct Hs as (-> & Hk & c & Hc & Hs). cbn [length] in *. destruct fuel as [|fuel]; [lia|].
    rewrite (loop_true fuel _ _ _ (c, seen ++ [e]));
      [|by rewrite slot_neq_0|by rewrite (get_data_at _ _ _ Hc), bind_Done, (get_cur_at _ _ _ Hc), bind_Done].
    rewrite IH by (done || lia). by rewrite <- app_assoc.
Qed.

(** The position, counted from [i], of the first element that satisfies [f]. *)
Fixpoint position (f : Z -> bool) (i : Z) (l : list Z) : Z :=
  match l with [] => 0 | x :: l => if f x then i else position f (i + 1) l end.

Lemma locate_from e (Compare : Z -> Z -> bool) ks : forall fuel p i,
  seg space p ks 0 -> (length ks <= fuel)%nat ->
  exists r, loop fuel (fun '(p, _) => if p =? 0 then Done false else d ← get_data space p; Done (negb (Compare d e)))
    (fun '(p, i) => c ← get_cur space p; Done (c, i + 1)) (p, i) = Done r /\
    (if r.1 =? 0 then 0 else r.2) = position (fun x => Compare x e) i ks.*2.
Proof.
  induction ks as [|[k x] ks IH]; intros fuel p i Hs Hf.
  - cbn in Hs. subst p. rewrite loop_false by done. by eexists.
  - destruct Hs as (-> & Hk & c & Hc & Hs). cbn [length fmap list_fmap snd position] in *.
    destruct (Compare x e) eqn:E.
    + rewrite loop_false; [|by rewrite slot_neq_0, (get_data_at _ _ _ Hc), bind_Done by done; cbn; rewrite E].
      eexists. split; [done|]. cbn [fst snd]. by rewrite slot_neq_0.
    + destruct fuel as [|fuel]; [lia|]. rewrite (loop_true fuel _ _ _ (c, i + 1));
        [|by rewrite slot_neq_0, (get_data_at _ _ _ Hc), bind_Done by done; cbn; rewrite E
         |by rewrite (get_cur_at _ _ _ Hc), bind_Done].
      apply IH; [done|lia].
Qed.

(** The element before the first [e] behind [pre]; the one behind it. *)
Fixpoint before (e pre : Z) (l : list Z) : option Z :=
  match l with [] => None | x :: l => if x =? e then Some pre else before e x l end.
Fixpoint behind (e : Z) (l : list Z) : option Z :=
  match l with
  | x :: ((y :: _) as l') => if x =? e then Some y else behind e l'
  | _ => None
  end.

(** What the code returns for an element found or not. *)
Definition found (o : option Z) : Z * option Z :=
  match o with Some x => (OK, Some x) | None => (ERROR, None) end.

Lemma prior_from e ks : forall fuel k x c,
  space !! k = Some (Slot x c) -> seg space c ks 0 -> (length ks <= fuel)%nat ->
  (r ← loop fuel (fun '(_, next) => if next =? 0 then Done false else d ← get_data space next; Done (negb (d =? e)))
         (fun '(_, next) => c ← get_cur space next; Done (next, c)) (Z.of_nat k, c);
   let '(pre, next) := r in
   if next =? 0 then Done (ERROR, None) else e ← get_data space pre; Done (OK, Some e)) =
  Done (found (before e x ks.*2)).
Proof.
  induction ks as [|[k' y] ks IH]; intros fuel k x c Hx Hs Hf.
  - cbn in Hs. subst c. by rewrite loop_false.
  - destruct Hs as (-> & Hk & c' & Hc & Hs). cbn [length fmap list_fmap snd before] in *.
    destruct (y =? e) eqn:E.
    + rewrite loop_false; [|by rewrite slot_neq_0, (get_data_at _ _ _ Hc), bind_Done by done; cbn; rewrite E].
      rewrite bind_Done, slot_neq_0, (get_data_at _ _ _ Hx), bind_Done by done. done.
    + destruct fuel as [|fuel]; [lia|]. rewrite (loop_true fuel _ _ _ (Z.of_nat k', c'));
        [|by rewrite slot_neq_0, (get_data_at _ _ _ Hc), bind_Done by done; cbn; rewrite E
         |by rewrite (get_cur_at _ _ _ Hc), bind_Done].
      apply IH; [done|done|lia].
Qed.

Lemma next_from e ks : forall fuel k x c,
  space !! k = Some (Slot x c) -> seg space c ks 0 -> (length ks <= fuel)%nat ->
  (pre ← loop fuel (fun pre => c ← get_cur space pre; if c =? 0 then Done false else
                               d ← get_data space pre; Done (negb (d =? e)))
          (fun pre => get_cur space pre) (Z.of_nat k);
   c ← get_cur space pre;
   if c =? 0 then Done (ERROR, None) else e ← get_data space c; Done (OK, Some e)) =
  Done (found (behind e (x :: ks.*2))).
Proof.
  induction ks as [|[k' y] ks IH]; intros fuel k x c Hx Hs Hf.
  - cbn in Hs. subst c. rewrite loop_false by by rewrite (get_cur_at _ _ _ Hx).
    by rewrite bind_Done, (get_cur_at _ _ _ Hx), bind_Done.
  - destruct Hs as (-> & Hk & c' & Hc & Hs). cbn [length fmap list_fmap snd behind] in *.
    destruct (x =? e) eqn:E.
    + rewrite loop_false; [|rewrite (get_cur_at _ _ _ Hx), bind_Done; cbn [cur];
        by rewrite slot_neq_0, (get_data_at _ _ _ Hx), bind_Done by done; cbn; rewrite E].
      rewrite bind_Done, (get_cur_at _ _ _ Hx), bind_Done. cbn [cur].
      by rewrite slot_neq_0, (get_data_at _ _ _ Hc), bind_Done.
    + destruct fuel as [|fuel]; [lia|]. rewrite (loop_true fuel _ _ _ (Z.of_nat k'));
        [|rewrite (get_cur_at _ _ _ Hx), bind_Done; cbn [cur];
          by rewrite slot_neq_0, (get_data_at _ _ _ Hx), bind_Done by done; cbn; rewrite E
         |by rewrite (get_cur_at _ _ _ Hx)].
      apply (IH fuel k' y c'); [done|done|lia].
Qed.

Lemma seek_from m ks : forall fuel k x c j,
  k <> 0%nat -> space !! k = Some (Slot x c) -> seg space c ks 0 -> (length ks <= fuel)%nat ->
  let n := Nat.min (length ks) (Z.to_nat (m - j)) in
  exists p', loop fuel (fun '(p, j) => c ← get_cur space p; Done (negb (c =? 0) && (j <? m)))
    (fun '(p, j) => c ← get_cur space p; Done (c, j + 1)) (Z.of_nat k, j) = Done (p', j + Z.of_nat n) /\
    seg space (Z.of_nat k) (take n ((k, x) :: ks)) p' /\ seg space p' (drop n ((k, x) :: ks)) 0.
Proof.
  induction ks as [|[k' y] ks IH]; intros fuel k x c j Hk Hx Hs Hf n; subst n.
  - cbn in Hs. subst c. rewrite loop_false by by rewrite (get_cur_at _ _ _ Hx).
    exists (Z.of_nat k). split; [do 2 f_equal; cbn; lia|]. split; [done|]. by apply (seg_cons _ _ _ 0).
  - pose proof Hs as (-> & Hk' & c' & Hc & Hs'). cbn [length] in *.
    destruct (Z.ltb_spec j m) as [Hj|Hj].
    + destruct fuel as [|fuel]; [lia|]. rewrite (loop_true fuel _ _ _ (Z.of_nat k', j + 1));
        [|rewrite (get_cur_at _ _ _ Hx), bind_Done; cbn [cur];
          by rewrite slot_neq_0, (proj2 (Z.ltb_lt j m))|by rewrite (get_cur_at _ _ _ Hx), bind_Done].
      destruct (IH fuel k' y c' (j + 1) Hk' Hc Hs' ltac:(lia)) as (p' & -> & H1 & H2). exists p'.
      replace (Nat.min (S (length ks)) (Z.to_nat (m - j)))
        with (S (Nat.min (length ks) (Z.to_nat (m - (j + 1))))) by lia.
      split; [do 2 f_equal; lia|]. split; [by apply (seg_cons _ _ _ (Z.of_nat k'))|done].
    + rewrite loop_false; [|rewrite (get_cur_at _ _ _ Hx), bind_Done; cbn [cur];
        by rewrite slot_neq_0, (proj2 (Z.ltb_ge j m)) by done].
      exists (Z.of_nat k). replace (Nat.min _ _) with 0%nat by lia. rewrite Z.add_0_r.
      split; [done|]. split; [done|]. by apply (seg_cons _ _ _ (Z.of_nat k')).
Qed.

End reads.

(** ** The two chains of the array *)

(** [full]: the slots from [S] on, the head slot included; [fs]: the free
    slots.  Together they are all slots but slot 0. *)
Definition rep (space : list SLinkNode) (S : Z) (full fs : list (nat * Z)) : Prop :=
  length space = MAXSIZE /\ seg space S full 0 /\
  (exists d c, space !! 0%nat = Some (Slot d c) /\ seg space c fs 0) /\
  full.*1 ++ fs.*1 ≡ₚ seq 1 (MAXSIZE - 1).

(** The list of elements the array stands for. *)
Definition represents (space : list SLinkNode) (S : Z) (l : list Z) : Prop :=
  exists h ks fs, rep space S (h :: ks) fs /\ ks.*2 = l.

Lemma perm_slots (ks : list nat) :
  ks ≡ₚ seq 1 (MAXSIZE - 1) -> NoDup ks /\ 0%nat ∉ ks /\ length ks = (MAXSIZE - 1)%nat.
Proof.
  intros H. split; [|split].
  - rewrite H. apply NoDup_seq.
  - rewrite H. intros [? ?]%elem_of_seq. lia.
  - by rewrite H, length_seq.
Qed.

Lemma rep_lengths space S full fs : rep space S full fs -> (length full + length fs)%nat = (MAXSIZE - 1)%nat.
Proof.
  intros (_ & _ & _ & Hp). apply perm_slots in Hp as (_ & _ & Hl).
  by rewrite length_app, !length_fmap in Hl.
Qed.

(** What is known of the array behind a few assignments. *)
Ltac slots := repeat first
  [ rewrite list_lookup_insert_eq by (rewrite ?length_insert; eauto using lookup_lt_Some)
  | rewrite list_lookup_insert_ne by congruence ].

Lemma Malloc_some space d s e c fs :
  space !! 0%nat = Some (Slot d (Z.of_nat s)) -> s <> 0%nat -> space !! s = Some (Slot e c) ->
  seg space c fs 0 ->
  Malloc space = Done (Z.of_nat s, <[0%nat := Slot d c]> space).
Proof.
  intros H0 Hs Hc _. unfold Malloc. rewrite (get_cur_at space 0 _ H0 : get_cur space 0 = _), bind_Done. cbn [cur].
  rewrite slot_neq_0, (get_cur_at _ _ _ Hc), bind_Done by done.
  by rewrite (set_cur_at space 0 _ _ H0 : set_cur space 0 _ = _), bind_Done.
Qed.

Lemma Malloc_none space d : space !! 0%nat = Some (Slot d 0) -> Malloc space = Done (0, space).
Proof. intros H0. unfold Malloc. by rewrite (get_cur_at space 0 _ H0 : get_cur space 0 = _), bind_Done. Qed.

Lemma Free_at space d c k e c' :
  space !! 0%nat = Some (Slot d c) -> k <> 0%nat -> space !! k = Some (Slot e c') ->
  Free space (Z.of_nat k) = Done (<[0%nat := Slot d (Z.of_nat k)]> (<[k := Slot e c]> space)).
Proof.
  intros H0 Hk Hc. unfold Free. rewrite (get_cur_at space 0 _ H0 : get_cur space 0 = _), bind_Done.
  rewrite (set_cur_at _ _ _ _ Hc), bind_Done.
  apply (set_cur_at _ 0 (Slot d c)). by slots.
Qed.

(** The last part of [ListInsert], behind the search. *)
Definition link_new (space : list SLinkNode) (p e : Z) : exec (Z * list SLinkNode) :=
  m ← Malloc space;
  let '(s, space) := m in
  space ← set_data space s e;
  c ← get_cur space p;
  space ← set_cur space s c;
  space ← set_cur space p s;
  Done (OK, space).

Lemma link_new_spec space S pre k x rest s ds fs e :
  rep space S (pre ++ (k, x) :: rest) ((s, ds) :: fs) ->
  exists space', link_new space (Z.of_nat k) e = Done (OK, space') /\
    rep space' S (pre ++ (k, x) :: (s, e) :: rest) fs.
Proof.
  intros (Hl & Hs & (d & c0 & H0 & (-> & Hs0 & cs & Hcs & Hfs)) & Hp).
  apply seg_app in Hs as (m & Hpre & (-> & Hk & c & Hc & Hrest)).
  destruct (perm_slots _ Hp) as (Hnd & H0in & _).
  rewrite !fmap_app, !fmap_cons in Hnd, H0in. cbn [fst] in *.
  assert (s <> k /\ k ∉ pre.*1 /\ s ∉ pre.*1 /\ k ∉ rest.*1 /\ s ∉ rest.*1 /\ k ∉ fs.*1 /\ s ∉ fs.*1 /\
    0%nat ∉ pre.*1 /\ 0%nat ∉ rest.*1 /\ 0%nat ∉ fs.*1) as (N1 & N2 & N3 & N4 & N5 & N6 & N7 & N8 & N9 & N10).
  { assert ((pre.*1 ++ k :: rest.*1) ++ s :: fs.*1 ≡ₚ k :: s :: pre.*1 ++ rest.*1 ++ fs.*1) as Hq by solve_Permutation.
    rewrite Hq in Hnd, H0in. rewrite !NoDup_cons in Hnd. rewrite !not_elem_of_cons, !not_elem_of_app in *.
    intuition congruence. }
  unfold link_new. rewrite (Malloc_some _ _ _ _ _ _ H0 Hs0 Hcs Hfs), bind_Done.
  erewrite (set_data_at _ s (Slot ds cs)) by by slots. rewrite bind_Done.
  erewrite (get_cur_at _ k (Slot x c)) by by slots. rewrite bind_Done. cbn [cur].
  erewrite (set_cur_at _ s (Slot e cs)) by by slots. rewrite bind_Done. cbn [data].
  erewrite (set_cur_at _ k (Slot x c)) by by slots. rewrite bind_Done. cbn [data].
  eexists. split; [done|]. split; [by rewrite !length_insert|]. split; [|split].
  - apply seg_app. exists (Z.of_nat k). split; [by repeat apply seg_frame|].
    apply (seg_cons _ _ _ (Z.of_nat s)); [done|by slots|].
    apply (seg_cons _ _ _ c); [done|by slots|by repeat apply seg_frame].
  - exists d, cs. split; [by slots|by repeat apply seg_frame].
  - rewrite <- Hp, !fmap_app, !fmap_cons. cbn [fst]. solve_Permutation.
Qed.

(** Without a free slot the new node is slot 0 itself: the list ends at
    [k], and what followed becomes the free list. *)
Lemma link_new_full space S pre k x rest e :
  rep space S (pre ++ (k, x) :: rest) [] ->
  exists space', link_new space (Z.of_nat k) e = Done (OK, space') /\ rep space' S (pre ++ [(k, x)]) rest.
Proof.
  intros (Hl & Hs & (d & c0 & H0 & ->) & Hp).
  apply seg_app in Hs as (m & Hpre & (-> & Hk & c & Hc & Hrest)).
  destruct (perm_slots _ Hp) as (Hnd & H0in & _).
  rewrite app_nil_r, !fmap_app, !fmap_cons in Hnd, H0in. cbn [fst] in *.
  assert (k ∉ pre.*1 /\ k ∉ rest.*1 /\ 0%nat ∉ pre.*1 /\ 0%nat ∉ rest.*1) as (N1 & N2 & N3 & N4).
  { assert (pre.*1 ++ k :: rest.*1 ≡ₚ k :: pre.*1 ++ rest.*1) as Hq by solve_Permutation.
    rewrite Hq in Hnd, H0in. rewrite !NoDup_cons in Hnd. rewrite !not_elem_of_cons, !not_elem_of_app in *.
    intuition congruence. }
  unfold link_new. rewrite (Malloc_none _ _ H0), bind_Done.
  rewrite (set_data_at space 0 _ _ H0 : set_data space 0 e = _), bind_Done. cbn [cur].
  erewrite (get_cur_at _ k (Slot x c)) by by slots. rewrite bind_Done. cbn [cur].
  match goal with |- context [set_cur ?s 0 c] => change (set_cur s 0 c) with (set_cur s (Z.of_nat 0) c) end.
  erewrite (set_cur_at _ 0 (Slot e 0)) by by slots. rewrite bind_Done. cbn [data].
  erewrite (set_cur_at _ k (Slot x c)) by by slots. rewrite bind_Done. cbn [data].
  eexists. split; [done|]. split; [by rewrite !length_insert|]. split; [|split].
  - apply seg_app. exists (Z.of_nat k). split; [by repeat apply seg_frame|].
    apply (seg_cons _ _ _ 0); [done|by slots|done].
  - exists e, c. split; [by slots|by repeat apply seg_frame].
  - rewrite <- Hp, app_nil_r, !fmap_app, !fmap_cons. cbn [fst fmap list_fmap]. solve_Permutation.
Qed.

(** The last part of [ListDelete]. *)
Definition unlink (space : list SLinkNode) (p q : Z) : exec (Z * option Z * list SLinkNode) :=
  c ← get_cur space q;
  space ← set_cur space p c;
  e ← get_data space q;
  space ← Free space q;
  Done (OK, Some e, space).

Lemma unlink_spec space S pre k x q e rest fs :
  rep space S (pre ++ (k, x) :: (q, e) :: rest) fs ->
  exists space', unlink space (Z.of_nat k) (Z.of_nat q) = Done (OK, Some e, space') /\
    rep space' S (pre ++ (k, x) :: rest) ((q, e) :: fs).
Proof.
  intros (Hl & Hs & (d & c0 & H0 & Hfs) & Hp).
  apply seg_app in Hs as (m & Hpre & (-> & Hk & c & Hc & (-> & Hq & c1 & Hc1 & Hrest))).
  destruct (perm_slots _ Hp) as (Hnd & H0in & _).
  rewrite !fmap_app, !fmap_cons in Hnd, H0in. cbn [fst] in *.
  assert (q <> k /\ k ∉ pre.*1 /\ q ∉ pre.*1 /\ k ∉ rest.*1 /\ q ∉ rest.*1 /\ k ∉ fs.*1 /\ q ∉ fs.*1 /\
    0%nat ∉ pre.*1 /\ 0%nat ∉ rest.*1 /\ 0%nat ∉ fs.*1) as (N1 & N2 & N3 & N4 & N5 & N6 & N7 & N8 & N9 & N10).
  { assert ((pre.*1 ++ k :: q :: rest.*1) ++ fs.*1 ≡ₚ k :: q :: pre.*1 ++ rest.*1 ++ fs.*1) as Hpp by solve_Permutation.
    rewrite Hpp in Hnd, H0in. rewrite !NoDup_cons in Hnd. rewrite !not_elem_of_cons, !not_elem_of_app in *.
    intuition congruence. }
  unfold unlink. rewrite (get_cur_at _ _ _ Hc1), bind_Done, (set_cur_at _ _ _ _ Hc), bind_Done. cbn [cur data].
  erewrite (get_data_at _ q (Slot e c1)) by by slots. rewrite bind_Done. cbn [data].
  erewrite (Free_at _ d c0 q e c1) by (done || by slots). rewrite bind_Done.
  eexists. split; [done|]. split; [by rewrite !length_insert|]. split; [|split].
  - apply seg_app. exists (Z.of_nat k). split; [by repeat apply seg_frame|].
    apply (seg_cons _ _ _ c1); [done|by slots|by repeat apply seg_frame].
  - exists d, (Z.of_nat q). split; [by slots|].
    apply (seg_cons _ _ _ c0); [done|by slots|by repeat apply seg_frame].
  - rewrite <- Hp, !fmap_app, !fmap_cons. cbn [fst]. solve_Permutation.
Qed.

(** Freeing a chain moves its slots to the front of the free list and leaves
    the other slots alone. *)
Lemma free_chain_from ks : forall fuel space p d c fs,
  space !! 0%nat = Some (Slot d c) -> seg space p ks 0 -> seg space c fs 0 ->
  NoDup (ks.*1 ++ fs.*1) -> 0%nat ∉ ks.*1 ++ fs.*1 -> (length ks <= fuel)%nat ->
  exists space' c',
    loop fuel (fun '(p, _) => Done (negb (p =? 0)))
      (fun '(p, space) => c ← get_cur space p; space ← Free space p; Done (c, space)) (p, space) = Done (0, space') /\
    length space' = length space /\ space' !! 0%nat = Some (Slot d c') /\ seg space' c' (rev ks ++ fs) 0 /\
    (forall j, j <> 0%nat -> j ∉ ks.*1 -> space' !! j = space !! j).
Proof.
  induction ks as [|[k e] ks IH]; intros fuel space p d c fs H0 Hs Hfs Hnd Hz Hf.
  - cbn in Hs. subst p. exists space, c. rewrite loop_false by done. done.
  - destruct Hs as (-> & Hk & c1 & Hc1 & Hs). cbn [length fmap list_fmap fst app] in *.
    apply NoDup_cons in Hnd as [Hkin Hnd]. apply not_elem_of_cons in Hz as [_ Hz].
    apply not_elem_of_app in Hkin as [Hk1 Hk2]. pose proof (proj1 (not_elem_of_app _ _ _) Hz) as [Hz1 Hz2].
    destruct fuel as [|fuel]; [lia|].
    rewrite (loop_true fuel _ _ _ (c1, <[0%nat := Slot d (Z.of_nat k)]> (<[k := Slot e c]> space)));
      [|by rewrite slot_neq_0|by rewrite (get_cur_at _ _ _ Hc1), bind_Done, (Free_at _ _ _ _ _ _ H0 Hk Hc1), bind_Done].
    destruct (IH fuel (<[0%nat := Slot d (Z.of_nat k)]> (<[k := Slot e c]> space)) c1 d (Z.of_nat k) ((k, e) :: fs))
      as (space' & c' & E & L & H0' & S' & Fr); [by slots|by repeat apply seg_frame| | | |lia|].
    { apply (seg_cons _ _ _ c); [done|by slots|by repeat apply seg_frame]. }
    { cbn [fmap list_fmap fst]. assert (ks.*1 ++ k :: fs.*1 ≡ₚ k :: ks.*1 ++ fs.*1) as -> by solve_Permutation.
      apply NoDup_cons. split; [|done]. by apply not_elem_of_app. }
    { cbn [fmap list_fmap fst]. apply not_elem_of_app. split; [done|]. apply not_elem_of_cons. by split; [congruence|]. }
    exists space', c'. split; [exact E|]. split; [by rewrite L, !length_insert|]. split; [done|]. split.
    + cbn [rev]. by rewrite <- app_assoc.
    + intros j Hj Hjk. apply not_elem_of_cons in Hjk as [Hjk Hj']. rewrite Fr by done. by slots.
Qed.

(** ** Initialisation *)

Lemma seg_links space n : forall lo,
  (0 < lo)%nat ->
  (forall i, (lo <= i < lo + S n)%nat -> exists d, space !! i = Some (Slot d (if (i =? lo + n)%nat then 0 else Z.of_nat i + 1))) ->
  exists ks, ks.*1 = seq lo (S n) /\ seg space (Z.of_nat lo) ks 0.
Proof.
  induction n as [|n IH]; intros lo Hlo H.
  - destruct (H lo) as (d & Hd); [lia|]. rewrite Nat.add_0_r, Nat.eqb_refl in Hd.
    exists [(lo, d)]. split; [done|]. apply (seg_cons _ _ _ 0); [lia|done|done].
  - destruct (H lo) as (d & Hd); [lia|]. rewrite (proj2 (Nat.eqb_neq _ _)) in Hd by lia.
    destruct (IH (S lo)) as (ks & Hks & Hs); [lia| |].
    { intros i Hi. destruct (H i) as (d' & Hd'); [lia|]. exists d'. by rewrite Nat.add_succ_comm. }
    exists ((lo, d) :: ks). split; [cbn; by rewrite Hks|].
    apply (seg_cons _ _ _ (Z.of_nat lo + 1)); [lia|done|]. by replace (Z.of_nat lo + 1) with (Z.of_nat (S lo)) by lia.
Qed.

Lemma InitSpace_spec space :
  length space = MAXSIZE ->
  exists space', InitSpace space = Done space' /\ length space' = MAXSIZE /\
    forall i, (i < MAXSIZE)%nat -> exists d,
      space' !! i = Some (Slot d (if (i =? MAXSIZE - 1)%nat then 0 else Z.of_nat i + 1)).
Proof.
  intros Hl. pose proof MAXSIZE_3. unfold InitSpace.
  pose proof (for_range_inv (fun j s => length s = MAXSIZE /\
    forall i, (i < j)%nat -> exists d, s !! i = Some (Slot d (Z.of_nat i + 1)))
    (fun i space => set_cur space (Z.of_nat i) (Z.of_nat i + 1)) (MAXSIZE - 1) 0 space) as (s & -> & Ls & Hs).
  { split; [done|]. intros i Hi. lia. }
  { intros i s Hi [Ls Hs]. destruct (lookup_lt_is_Some_2 s i) as [n Hn]; [lia|].
    rewrite (set_cur_at _ _ _ _ Hn). eexists. split; [done|]. split; [by rewrite length_insert|].
    intros j Hj. destruct (decide (j = i)) as [->|Hne]; [exists (data n); by slots|].
    rewrite list_lookup_insert_ne by done. apply Hs. lia. }
  rewrite bind_Done. destruct (lookup_lt_is_Some_2 s (MAXSIZE - 1)) as [n Hn]; [lia|].
  rewrite (set_cur_at _ _ _ _ Hn). eexists. split; [done|]. split; [by rewrite length_insert|].
  intros i Hi. destruct (Nat.eqb_spec i (MAXSIZE - 1)) as [->|Hne]; [exists (data n); by slots|].
  rewrite list_lookup_insert_ne by done. apply Hs. lia.
Qed.

Lemma InitList_spec space S0 :
  length space = MAXSIZE ->
  exists S space', InitList space S0 = Done (OK, S, space') /\ represents space' S [].
Proof.
  intros Hl. pose proof MAXSIZE_3. unfold InitList.
  destruct (InitSpace_spec space Hl) as (s & -> & Ls & Hs). rewrite bind_Done.
  destruct (Hs 0%nat) as (d0 & H0); [lia|]. rewrite (proj2 (Nat.eqb_neq _ _)) in H0 by lia.
  destruct (Hs 1%nat) as (d1 & H1); [lia|]. rewrite (proj2 (Nat.eqb_neq _ _)) in H1 by lia.
  destruct (seg_links s (MAXSIZE - 3) 2) as (ks & Hks & Hseg); [lia| |].
  { intros i Hi. destruct (Hs i) as (d & Hd); [lia|]. exists d. by replace (2 + (MAXSIZE - 3))%nat with (MAXSIZE - 1)%nat by lia. }
  rewrite (Malloc_some s d0 1 d1 2 ks); [|done|lia|done|done]. rewrite bind_Done, slot_neq_0 by lia.
  erewrite (set_cur_at _ 1 (Slot d1 2)) by by slots. rewrite bind_Done. cbn [data].
  eexists _, _. split; [done|]. exists (1%nat, d1), [], ks. split; [|done].
  assert (1%nat ∉ ks.*1 /\ 0%nat ∉ ks.*1) as [N1 N0].
  { rewrite Hks. split; intros [? ?]%elem_of_seq; lia. }
  split; [by rewrite !length_insert|]. split; [|split].
  - apply (seg_cons _ 1 _ 0); [lia|by slots|done].
  - exists d0, 2. split; [by slots|]. by repeat apply seg_frame.
  - cbn [fmap list_fmap fst app]. rewrite Hks. by replace (MAXSIZE - 1)%nat with (S (S (MAXSIZE - 3))) by lia.
Qed.

(** ** The operations on the represented list *)

Lemma represents_head space S l :
  represents space S l ->
  exists h x c ks fs, S = Z.of_nat h /\ h <> 0%nat /\ space !! h = Some (Slot x c) /\ seg space c ks 0 /\
    ks.*2 = l /\ rep space S ((h, x) :: ks) fs /\ (1 + length ks <= MAXSIZE)%nat.
Proof.
  intros ([h x] & ks & fs & Hr & Hl). pose proof (rep_lengths _ _ _ _ Hr) as Hn. cbn [length] in Hn.
  pose proof Hr as (_ & (-> & Hh & c & Hc & Hs) & _). exists h, x, c, ks, fs. naive_solver lia.
Qed.

(** Where the list is empty the guard of the queries says so. *)
Lemma guard_spec space h x c ks :
  h <> 0%nat -> space !! h = Some (Slot x c) -> seg space c ks 0 ->
  absent_or_empty space (Z.of_nat h) = Done (match ks with [] => true | _ => false end).
Proof.
  intros Hh Hc Hs. unfold absent_or_empty. rewrite slot_neq_0, (get_cur_at _ _ _ Hc), bind_Done by done. cbn [cur].
  destruct ks as [|[k e] ks]; cbn in Hs; [by subst c|]. destruct Hs as (-> & Hk & _). by rewrite slot_neq_0.
Qed.

Inductive op :=
  | Insert (i e : Z) | Delete (i : Z) | Clear | Length | Empty | Get (i : Z)
  | Locate (Compare : Z -> Z -> bool) (e : Z) | Prior (e : Z) | Next (e : Z) | Traverse.

Inductive answer :=
  | Value (n : Z) | Element (r : Z * option Z) | Sequence (l : list Z).

(** An operation of the code, and the same on a list. *)
Definition run_op (space : list SLinkNode) (S : Z) (o : op) : exec (answer * list SLinkNode) :=
  match o with
  | Insert i e => r ← ListInsert space S i e; Done (Value r.1, r.2)
  | Delete i => r ← ListDelete space S i; Done (Element r.1, r.2)
  | Clear => r ← ClearList space S; Done (Value r.1, r.2)
  | Length => n ← ListLength space S; Done (Value n, space)
  | Empty => b ← ListEmpty space S; Done (Value b, space)
  | Get i => r ← GetElem space S i; Done (Element r, space)
  | Locate Compare e => n ← LocateElem space S e Compare; Done (Value n, space)
  | Prior e => r ← PriorElem space S e; Done (Element r, space)
  | Next e => r ← NextElem space S e; Done (Element r, space)
  | Traverse => l ← ListTraverse space S; Done (Sequence l, space)
  end.

Definition valid_position (i : Z) (n : nat) : bool := (1 <=? i) && (i <=? Z.of_nat n).

Definition list_op (l : list Z) (o : op) : answer * list Z :=
  match o with
  | Insert i e =>
      if valid_position i (length l + 1)
      then (Value OK, take (Z.to_nat (i - 1)) l ++ e :: drop (Z.to_nat (i - 1)) l) else (Value ERROR, l)
  | Delete i =>
      if valid_position i (length l)
      then (Element (found (l !! Z.to_nat (i - 1))), take (Z.to_nat (i - 1)) l ++ drop (Z.to_nat i) l)
      else (Element (found None), l)
  | Clear => (Value OK, [])
  | Length => (Value (Z.of_nat (length l)), l)
  | Empty => (Value (match l with [] => TRUE | _ => FALSE end), l)
  | Get i => (Element (found (if valid_position i (length l) then l !! Z.to_nat (i - 1) else None)), l)
  | Locate Compare e => (Value (position (fun x => Compare x e) 1 l), l)
  | Prior e => (Element (found (match l with [] => None | x :: l => if x =? e then None else before e x l end)), l)
  | Next e => (Element (found (behind e l)), l)
  | Traverse => (Sequence l, l)
  end.

(** Room for the element to insert. *)
Definition fits (l : list Z) (o : op) : Prop :=
  match o with Insert i _ => valid_position i (length l + 1) = true -> (length l < MAXSIZE - 2)%nat | _ => True end.

(** The slot at a position of a chain. *)
Lemma seg_at space q full n :
  seg space q (drop n full) 0 -> (n < length full)%nat ->
  exists k x, full !! n = Some (k, x) /\ q = Z.of_nat k /\ k <> 0%nat.
Proof.
  intros H Hn. destruct (lookup_lt_is_Some_2 full n Hn) as [[k x] Hk].
  rewrite (drop_S _ _ _ Hk) in H. destruct H as (-> & Hk0 & _). by exists k, x.
Qed.

(** Replacing the [m] slots behind the one at position [n] by [mid]. *)
Lemma represents_splice space S h ks fs n k y mid m :
  (h :: ks) !! n = Some (k, y) ->
  rep space S (take n (h :: ks) ++ (k, y) :: mid ++ drop (1 + n + m) (h :: ks)) fs ->
  represents space S (take n ks.*2 ++ mid.*2 ++ drop (n + m) ks.*2).
Proof.
  intros Hn Hr. destruct n as [|n].
  - injection Hn as ->. exists (k, y), (mid ++ drop m ks), fs. split; [done|].
    by rewrite fmap_app, fmap_drop.
  - exists h, (take n ks ++ (k, y) :: mid ++ drop (1 + n + m) ks), fs. split; [done|].
    rewrite fmap_app, fmap_cons, fmap_app, fmap_take, fmap_drop. cbn [snd].
    rewrite (take_S_r _ _ y), <- app_assoc; [done|]. rewrite list_lookup_fmap. exact (f_equal (fmap snd) Hn).
Qed.

Lemma insert_refines space S l i e :
  represents space S l -> fits l (Insert i e) ->
  exists space', run_op space S (Insert i e) = Done ((list_op l (Insert i e)).1, space') /\
    represents space' S (list_op l (Insert i e)).2.
Proof.
  intros Hrep Hfit. destruct (represents_head _ _ _ Hrep) as (h & x & c & ks & fs & -> & Hh & Hc & Hs & <- & Hr & Hn).
  unfold run_op, ListInsert, list_op, fits, valid_position in *. rewrite slot_neq_0 by done.
  destruct (walk_from space (i - 1) ((h, x) :: ks) MAXSIZE (Z.of_nat h) 0) as (p & Hw & H1 & H2);
    [by apply (seg_cons _ _ _ c)|simpl; lia|].
  unfold walk. rewrite Hw, bind_Done. rewrite length_fmap, Z.sub_0_r in *. cbn [length] in *.
  destruct (Z.leb_spec 1 i); cbn [andb] in *; [|replace (Z.to_nat (i - 1)) with 0%nat in * by lia].
  - destruct (Z.leb_spec i (Z.of_nat (length ks + 1))) as [Hi|Hi].
    + rewrite Nat.min_r in * by lia. rewrite (proj2 (Z.ltb_ge (i - 1) _)) by lia.
      destruct (seg_at _ _ _ _ H2) as (k & y & Hk & -> & Hk0); [simpl; lia|].
      rewrite slot_neq_0 by done. cbn [orb]. rewrite <- (take_drop_middle _ _ _ Hk) in Hr.
      destruct fs as [|[s ds] fs].
      { apply rep_lengths in Hr. rewrite (take_drop_middle _ _ _ Hk) in Hr. cbn [length] in Hr. lia. }
      destruct (link_new_spec space (Z.of_nat h) _ k y _ s ds fs e Hr) as (space' & E & Hr').
      unfold link_new in E. rewrite E, bind_Done. exists space'. split; [done|].
      rewrite <- (Nat.add_0_r (Z.to_nat (i - 1))) at 2.
      apply (represents_splice space' _ (h, x) ks fs _ k y [(s, e)] 0 Hk). by rewrite Nat.add_0_r.
    + exists space. rewrite Nat.min_l in H2 by lia. rewrite drop_ge in H2 by done. cbn in H2. by subst p.
  - exists space. rewrite Nat.min_0_r. rewrite (proj2 (Z.ltb_lt (i - 1) _)) by lia. by rewrite orb_true_r.
Qed.

Lemma delete_refines space S l i :
  represents space S l ->
  exists space', run_op space S (Delete i) = Done ((list_op l (Delete i)).1, space') /\
    represents space' S (list_op l (Delete i)).2.
Proof.
  intros Hrep. destruct (represents_head _ _ _ Hrep) as (h & x & c & ks & fs & -> & Hh & Hc & Hs & <- & Hr & Hn).
  unfold run_op, ListDelete, list_op, valid_position. rewrite slot_neq_0 by done.
  destruct (seek_from space (i - 1) ks MAXSIZE h x c 0) as (p & Hw & H1 & H2); [done..|lia|].
  rewrite Hw, bind_Done. rewrite length_fmap, Z.sub_0_r in *.
  destruct (seg_at _ _ _ _ H2) as (k & y & Hk & -> & Hk0); [simpl; lia|].
  rewrite (drop_S _ _ _ Hk) in H2. destruct H2 as (_ & _ & c2 & Hc2 & H2).
  rewrite (get_cur_at _ _ _ Hc2), bind_Done. cbn [cur].
  destruct (Z.leb_spec 1 i); cbn [andb] in *; [|replace (Z.to_nat (i - 1)) with 0%nat in * by lia].
  - destruct (Z.leb_spec i (Z.of_nat (length ks))) as [Hi|Hi].
    + rewrite Nat.min_r in * by lia. rewrite (proj2 (Z.ltb_ge (i - 1) _)) by lia.
      destruct (seg_at _ _ _ _ H2) as (q & e & Hq & -> & Hq0); [simpl; lia|].
      rewrite slot_neq_0 by done. cbn [orb].
      rewrite <- (take_drop_middle _ _ _ Hk), (drop_S _ _ _ Hq) in Hr.
      destruct (unlink_spec space (Z.of_nat h) _ k y q e _ fs Hr) as (space' & E & Hr').
      unfold unlink in E. rewrite E, bind_Done. exists space'. cbn [fst snd].
      rewrite list_lookup_fmap, (f_equal (fmap snd) Hq : snd <$> ks !! Z.to_nat (i - 1) = Some e). split; [done|].
      replace (Z.to_nat i) with (Z.to_nat (i - 1) + 1)%nat by lia.
      apply (represents_splice space' _ (h, x) ks ((q, e) :: fs) _ k y [] 1 Hk).
      by rewrite Nat.add_1_r.
    + exists space. rewrite Nat.min_l in H2 by lia. rewrite drop_ge in H2 by (simpl; lia). cbn in H2. by subst c2.
  - exists space. rewrite Nat.min_0_r. rewrite (proj2 (Z.ltb_lt (i - 1) _)) by lia. by rewrite orb_true_r.
Qed.

Lemma clear_refines space S l :
  represents space S l -> exists space', run_op space S Clear = Done (Value OK, space') /\ represents space' S [].
Proof.
  intros Hrep. destruct (represents_head _ _ _ Hrep) as (h & x & c & ks & fs & -> & Hh & Hc & Hs & <- & Hr & Hn).
  unfold run_op, ClearList. rewrite slot_neq_0, (get_cur_at _ _ _ Hc), bind_Done by done. cbn [cur].
  destruct Hr as (Hl & _ & (d & c0 & H0 & Hfs) & Hp). destruct (perm_slots _ Hp) as (Hnd & H0in & _).
  cbn [fmap list_fmap fst app] in Hnd, H0in. apply NoDup_cons in Hnd as [Hnin Hnd].
  apply not_elem_of_cons in H0in as [_ H0in]. apply not_elem_of_app in Hnin as [Hn1 Hn2].
  destruct (free_chain_from ks MAXSIZE space c d c0 fs) as (space' & c' & E & L & H0' & S' & Fr); [done..|lia|].
  unfold free_chain. rewrite E, bind_Done. cbn [snd].
  rewrite (set_cur_at space' h (Slot x c)), bind_Done by (by rewrite Fr). cbn [data].
  eexists. split; [done|]. exists (h, x), [], (rev ks ++ fs). split; [|done].
  assert (space' !! h = Some (Slot x c)) by by rewrite Fr.
  assert (h ∉ (rev ks ++ fs).*1) by (rewrite <- (Permutation_rev ks), fmap_app, elem_of_app; tauto).
  cbn [snd]. split; [by rewrite length_insert, L|]. split; [|split].
  - apply (seg_cons _ _ _ 0); [done|by slots|done].
  - exists d, c'. split; [by slots|by apply seg_frame].
  - by rewrite <- Hp, <- (Permutation_rev ks), fmap_app.
Qed.

(** The queries: they leave the array alone. *)
Lemma query_refines space S l o :
  represents space S l -> match o with Insert _ _ | Delete _ | Clear => False | _ => True end ->
  run_op space S o = Done ((list_op l o).1, space) /\ (list_op l o).2 = l.
Proof.
  intros Hrep Hq. destruct (represents_head _ _ _ Hrep) as (h & x & c & ks & fs & -> & Hh & Hc & Hs & <- & _ & Hn).
  destruct o as [| | | | |i|Compare e|e|e|]; try done; (split; [|done]); unfold run_op, list_op; cbn [fst];
    unfold ListLength, ListEmpty, GetElem, LocateElem, PriorElem, NextElem, ListTraverse, walk;
    rewrite ?(guard_spec _ _ _ _ _ Hh Hc Hs), ?slot_neq_0, ?bind_Done by done;
    destruct ks as [|[k y] ks]; rewrite ?(get_cur_at _ _ _ Hc), ?bind_Done; cbn [cur].
  all: try (cbn in Hs; subst c; done).
  - rewrite (count_from _ ((k, y) :: ks)), !bind_Done by (done || simpl in *; lia). by rewrite length_fmap.
  - destruct Hs as (-> & Hk & _). by rewrite slot_neq_0.
  - by destruct (valid_position _ _).
  - destruct (walk_from space (i - 1) ((k, y) :: ks) MAXSIZE c 0 Hs) as (p & Hw & H1 & H2); [simpl in *; lia|].
    rewrite Hw, bind_Done. unfold valid_position. rewrite length_fmap, Z.sub_0_r in *.
    destruct (Z.leb_spec 1 i); cbn [andb] in *; [|replace (Z.to_nat (i - 1)) with 0%nat in * by lia].
    + destruct (Z.leb_spec i (Z.of_nat (length ((k, y) :: ks)))) as [Hi|Hi].
      * rewrite Nat.min_r in * by lia. rewrite (proj2 (Z.ltb_ge (i - 1) _)) by lia.
        destruct (seg_at _ _ _ _ H2) as (k1 & y1 & Hk & -> & Hk0); [lia|]. rewrite slot_neq_0 by done. cbn [orb].
        rewrite (drop_S _ _ _ Hk) in H2. destruct H2 as (_ & _ & c2 & Hc2 & H2).
        rewrite (get_data_at _ _ _ Hc2), !bind_Done, list_lookup_fmap. by rewrite (f_equal (fmap snd) Hk).
      * rewrite Nat.min_l in H2 by lia. rewrite drop_ge in H2 by done. cbn in H2. by subst p.
    + rewrite Nat.min_0_r. rewrite (proj2 (Z.ltb_lt (i - 1) _)) by lia. by rewrite orb_true_r.
  - destruct (locate_from space e Compare ((k, y) :: ks) MAXSIZE c 1 Hs) as (r & -> & <-); [lia|done].
  - destruct Hs as (-> & Hk & c' & Hc' & Hs). rewrite (get_data_at _ _ _ Hc'), bind_Done. cbn [data fmap list_fmap snd].
    destruct (y =? e); [done|]. rewrite (get_cur_at _ _ _ Hc'), bind_Done. cbn [cur].
    by rewrite (prior_from space e ks MAXSIZE k y c') by (done || simpl in *; lia).
  - destruct Hs as (-> & Hk & c' & Hc' & Hs).
    by rewrite (next_from space e ks MAXSIZE k y c') by (done || simpl in *; lia).
  - by rewrite (traverse_from _ ((k, y) :: ks)), !bind_Done by (done || simpl in *; lia).
Qed.

Fixpoint run_all (space : list SLinkNode) (S : Z) (ops : list op) : exec (list answer * list SLinkNode) :=
  match ops with
  | [] => Done ([], space)
  | o :: ops => r ← run_op space S o; rs ← run_all r.2 S ops; Done (r.1 :: rs.1, rs.2)
  end.

Fixpoint list_all (l : list Z) (ops : list op) : list answer * list Z :=
  match ops with
  | [] => ([], l)
  | o :: ops => let r := list_op l o in let rs := list_all r.2 ops in (r.1 :: rs.1, rs.2)
  end.

Fixpoint fits_all (l : list Z) (ops : list op) : Prop :=
  match ops with [] => True | o :: ops => fits l o /\ fits_all (list_op l o).2 ops end.

(** Inserting at a valid position while no slot is free does not fail.
    [ListInsert] takes slot 0 for the new node, still answers [OK], and the
    list loses the new element and every element from that position on. *)
Lemma slist_insert_full space S l i e :
  represents space S l -> length l = (MAXSIZE - 2)%nat -> valid_position i (length l + 1) = true ->
  exists space', ListInsert space S i e = Done (OK, space') /\ represents space' S (take (Z.to_nat (i - 1)) l).
Proof.
  intros Hrep Hlen Hi. destruct (represents_head _ _ _ Hrep) as (h & x & c & ks & fs & -> & Hh & Hc & Hs & <- & Hr & Hn).
  unfold ListInsert, valid_position in *. rewrite slot_neq_0 by done. rewrite length_fmap in *.
  apply andb_true_iff in Hi as [Hi1%Z.leb_le Hi2%Z.leb_le].
  destruct (walk_from space (i - 1) ((h, x) :: ks) MAXSIZE (Z.of_nat h) 0) as (p & Hw & H1 & H2);
    [by apply (seg_cons _ _ _ c)|simpl; lia|].
  unfold walk. rewrite Hw, bind_Done. rewrite Z.sub_0_r in *. cbn [length] in *.
  rewrite Nat.min_r in * by lia. rewrite (proj2 (Z.ltb_ge (i - 1) _)) by lia.
  destruct (seg_at _ _ _ _ H2) as (k & y & Hk & -> & Hk0); [simpl; lia|]. rewrite slot_neq_0 by done. cbn [orb].
  pose proof (rep_lengths _ _ _ _ Hr) as L. pose proof MAXSIZE_3. cbn [length] in L.
  destruct fs as [|? fs]; [|cbn [length] in L; lia]. rewrite <- (take_drop_middle _ _ _ Hk) in Hr.
  destruct (link_new_full space (Z.of_nat h) _ k y _ e Hr) as (space' & E & Hr').
  exists space'. split; [exact E|].
  rewrite <- (app_nil_r (take _ _)), <- (drop_ge ks.*2 (Z.to_nat (i - 1) + length ks)) by (rewrite length_fmap; lia).
  apply (represents_splice space' _ (h, x) ks (drop (Datatypes.S (Z.to_nat (i - 1))) ((h, x) :: ks)) _ k y [] (length ks) Hk).
  by rewrite (drop_ge (_ :: _) (1 + _ + _)) by (simpl; lia).
Qed.

(** What an operation really does: an insertion into a list that takes up all
    the slots answers [OK] and cuts the list; everything else is as on an
    ordinary list. *)
Definition cut_op (l : list Z) (o : op) : answer * list Z :=
  match o with
  | Insert i _ =>
      if valid_position i (length l + 1) && (length l =? MAXSIZE - 2)%nat then (Value OK, take (Z.to_nat (i - 1)) l) else list_op l o
  | _ => list_op l o
  end.

Fixpoint cut_all (l : list Z) (ops : list op) : list answer * list Z :=
  match ops with
  | [] => ([], l)
  | o :: ops => let r := cut_op l o in let rs := cut_all r.2 ops in (r.1 :: rs.1, rs.2)
  end.

Lemma represents_length space S l : represents space S l -> (length l <= MAXSIZE - 2)%nat.
Proof. intros (h & ks & fs & Hr & <-). apply rep_lengths in Hr. cbn [length] in Hr. rewrite length_fmap. lia. Qed.

Lemma cut_fits l o : fits l o -> cut_op l o = list_op l o.
Proof.
  destruct o; try done. cbn [fits cut_op]. intros Hf. destruct (valid_position _ _); [|done]. specialize (Hf eq_refl).
  by rewrite (proj2 (Nat.eqb_neq _ _)) by lia.
Qed.

Lemma cut_all_fits ops : forall l, fits_all l ops -> cut_all l ops = list_all l ops.
Proof. induction ops as [|o ops IH]; intros l; [done|]. intros [Hf Hfs]. cbn [cut_all list_all]. rewrite (cut_fits _ _ Hf). by rewrite IH. Qed.

Lemma op_refines space S l o :
  represents space S l -> exists space', run_op space S o = Done ((cut_op l o).1, space') /\ represents space' S (cut_op l o).2.
Proof.
  intros Hr. pose proof (represents_length _ _ _ Hr) as Hl. destruct o as [i e|i| | | | | | | |]; cbn [cut_op].
  4-10: match goal with |- exists _, run_op _ _ ?o = _ /\ _ => destruct (query_refines space S l o Hr I) as [E1 E2] end;
    exists space; by rewrite E2.
  - destruct (valid_position i (length l + 1)) eqn:Hv; cbn [andb]; [destruct (Nat.eqb_spec (length l) (MAXSIZE - 2)) as [Hn|Hn]|].
    + destruct (slist_insert_full _ _ _ i e Hr Hn Hv) as (space' & E & Hr'). exists space'. split; [|done]. cbn [run_op]. by rewrite E, bind_Done.
    + apply insert_refines; [done|]. intros _. lia.
    + apply insert_refines; [done|]. cbn [fits]. by rewrite Hv.
  - by apply delete_refines.
  - by eapply clear_refines.
Qed.

Lemma ops_refine ops : forall space S l,
  represents space S l -> exists space', run_all space S ops = Done ((cut_all l ops).1, space') /\ represents space' S (cut_all l ops).2.
Proof.
  induction ops as [|o ops IH]; intros space S l Hr; [by exists space|].
  destruct (op_refines space S l o Hr) as (s1 & E1 & Hr1).
  destruct (IH s1 S (cut_op l o).2 Hr1) as (s2 & E2 & Hr2).
  exists s2. split; [|done]. cbn [run_all]. rewrite E1, bind_Done. cbn [fst snd]. by rewrite E2, bind_Done.
Qed.

(** A list that fills the array. *)
Definition fill : list op := map (Insert 1) (map Z.of_nat (seq 1 (MAXSIZE - 2))).

Lemma fits_push es : forall l, (length l + length es <=? MAXSIZE - 2)%nat = true -> fits_all l (map (Insert 1) es).
Proof.
  induction es as [|e es IH]; intros l H%Nat.leb_le; cbn [map fits_all length] in *; [done|].
  split; [intros _; lia|]. cbn [list_op]. unfold valid_position. rewrite (proj2 (Z.leb_le 1 (Z.of_nat _))) by lia.
  apply IH, Nat.leb_le. change (S (length l) + length es <= MAXSIZE - 2)%nat. lia.
Qed.

(** ** Properties *)

(** C35: the static linked list implements a list, up to the flaw of a full
    array.  After [InitList] on an array of any contents, every sequence of
    insertions, deletions, clearings and queries runs without leaving the array
    and without looping, and leaves an array that represents the list of
    [cut_all], with every other slot on the free list; the answers are those
    of [cut_all].  When every insertion at a valid position finds a free slot
    ([fits_all]), these are the answers and the contents of the same operations
    on a mathematical list, errors for positions out of range included.  An
    insertion that finds none does not fail: it answers [OK], and the list
    loses the new element and everything from its position on. *)
Theorem slist_refines space S0 ops :
  length space = MAXSIZE ->
  exists S space0 space', InitList space S0 = Done (OK, S, space0) /\
    run_all space0 S ops = Done ((cut_all [] ops).1, space') /\ represents space' S (cut_all [] ops).2 /\
    (fits_all [] ops -> cut_all [] ops = list_all [] ops).
Proof.
  intros Hl. destruct (InitList_spec space S0 Hl) as (S & space0 & E & Hr).
  destruct (ops_refine ops space0 S [] Hr) as (space' & E' & Hr'). exists S, space0, space'. split_and!; try done. apply cut_all_fits.
Qed.

Lemma slist_refines_witness :
  let ops := [Insert 1 7; Insert 1 5; Insert 3 9; Get 2; Delete 3; Delete 3; Prior 7; Next 5;
              Locate Z.eqb 7; Clear; Empty; Insert 2 4; Traverse] in
  let over := fill ++ [Insert 3 42; Traverse] in
  (exists S space0 space', InitList (replicate MAXSIZE (Slot 0 0)) 0 = Done (OK, S, space0) /\
    run_all space0 S ops = Done ((list_all [] ops).1, space') /\ represents space' S (list_all [] ops).2) /\
  exists S space0 space', InitList (replicate MAXSIZE (Slot 0 0)) 0 = Done (OK, S, space0) /\
    run_all space0 S over = Done ((cut_all [] over).1, space') /\ represents space' S [998; 997].
Proof.
  intros ops over. split.
  - destruct (slist_refines (replicate MAXSIZE (Slot 0 0)) 0 ops) as (S & space0 & space' & E & E1 & Hr & Hf); [by vm_compute|].
    rewrite Hf in E1, Hr by (repeat split; intros _; apply Nat.ltb_lt; vm_compute; reflexivity). exists S, space0, space'. exact (conj E (conj E1 Hr)).
  - destruct (slist_refines (replicate MAXSIZE (Slot 0 0)) 0 over) as (S & space0 & space' & E & E1 & Hr & _); [by vm_compute|].
    assert ((cut_all [] over).2 = [998; 997]) as Eo by (vm_compute; reflexivity). rewrite Eo in Hr.
    exists S, space0, space'. exact (conj E (conj E1 Hr)).
Defined.

(** Every slot but the first is on the free list. *)
Definition all_free (space : list SLinkNode) : Prop :=
  exists d c fs, space !! 0%nat = Some (Slot d c) /\ seg space c fs 0 /\ fs.*1 ≡ₚ seq 1 (MAXSIZE - 1).

(** [DestroyList] on a list gives back all its slots, the head included:
    the loop ends, [*S] is 0 and every slot of the array is free again. *)
Theorem slist_destroy space S l :
  represents space S l -> exists space', DestroyList space S = Done (OK, 0, space') /\ all_free space'.
Proof.
  intros ([h x] & ks & fs & Hr & <-). pose proof (rep_lengths _ _ _ _ Hr) as L.
  destruct Hr as (Hl & Hs & (d & c0 & H0 & Hfs) & Hp).
  destruct (perm_slots _ Hp) as (Hnd & H0in & _). pose proof Hs as (-> & Hh & _).
  destruct (free_chain_from ((h, x) :: ks) MAXSIZE space (Z.of_nat h) d c0 fs) as (space' & c' & E & L' & H0' & S' & Fr);
    [done..|lia|].
  unfold DestroyList, free_chain. rewrite slot_neq_0, E, bind_Done by done. exists space'. split; [done|].
  exists d, c', (rev ((h, x) :: ks) ++ fs). split; [done|]. split; [done|].
  by rewrite <- (Permutation_rev ((h, x) :: ks)), fmap_app.
Qed.

Lemma slist_destroy_witness : exists space S space', DestroyList space S = Done (OK, 0, space') /\ all_free space'.
Proof.
  destruct (InitList_spec (replicate MAXSIZE (Slot 0 0)) 0) as (S & space0 & _ & Hr); [by vm_compute|].
  exists space0, S. by apply (slist_destroy space0 S []).
Defined.

End SLinkList.
