(* ===== verification/Kcp.v ===== *)
(** * KCP, a reliable protocol over datagrams (src/kcp_learn/ikcp.c)

    The code of the protocol: the encoding of segments, the queues, sending
    with fragmentation, receiving with reassembly, acknowledgements, timers,
    retransmission and the congestion window.

    Unsigned 32-bit fields are integers reduced with [u32]; signed ones wrap
    around in the same way ([s32]).  The intrusive queues are lists of
    segments (a segment is in one queue at a time and is freed when it leaves
    the last).  An allocation that fails ends the program in every function
    but [ikcp_create] and [ikcp_setmtu], which have a parameter for it.  The
    output callback is what [ikcp_flush] returns: the datagrams, in order.
    Logging is left out. *)

From S2P Require Import Prelude.

#[local] Set Warnings "-level-tolerance".

Module Kcp.

Definition IKCP_RTO_NDL := 30.
Definition IKCP_RTO_MIN := 100.
Definition IKCP_RTO_DEF := 200.
Definition IKCP_RTO_MAX := 60000.
Definition IKCP_CMD_PUSH := 81.
Definition IKCP_CMD_ACK := 82.
Definition IKCP_CMD_WASK := 83.
Definition IKCP_CMD_WINS := 84.
Definition IKCP_ASK_SEND := 1.
Definition IKCP_ASK_TELL := 2.
Definition IKCP_WND_SND := 32.
Definition IKCP_WND_RCV := 128.
Definition IKCP_MTU_DEF := 1400.
Definition IKCP_INTERVAL := 100.
Definition IKCP_OVERHEAD := 24.
Definition IKCP_DEADLINK := 20.
Definition IKCP_THRESH_INIT := 2.
Definition IKCP_THRESH_MIN := 2.
Definition IKCP_PROBE_INIT := 7000.
Definition IKCP_PROBE_LIMIT := 120000.
Definition IKCP_FASTACK_LIMIT := 5.

(** ** Encoding *)

Definition ikcp_encode8u (buf : list Z) (p : nat) (c : Z) : exec (list Z * nat) :=
  buf ← store buf p (u8 c);
  Done (buf, (p + 1)%nat).

Definition ikcp_encode16u (buf : list Z) (p : nat) (w : Z) : exec (list Z * nat) :=
  buf ← store buf p (Z.land w 255);
  buf ← store buf (p + 1) (Z.shiftr w 8);
  Done (buf, (p + 2)%nat).

Definition ikcp_encode32u (buf : list Z) (p : nat) (l : Z) : exec (list Z * nat) :=
  buf ← store buf p (Z.land l 255);
  buf ← store buf (p + 1) (Z.land (Z.shiftr l 8) 255);
  buf ← store buf (p + 2) (Z.land (Z.shiftr l 16) 255);
  buf ← store buf (p + 3) (Z.land (Z.shiftr l 24) 255);
  Done (buf, (p + 4)%nat).

(** Decoding gives the value and what is behind it. *)
Definition ikcp_decode8u (p : list Z) : exec (Z * list Z) :=
  match p with c :: p => Done (c, p) | _ => Fault end.

Definition ikcp_decode16u (p : list Z) : exec (Z * list Z) :=
  match p with b0 :: b1 :: p => Done (u16 (b0 + Z.shiftl b1 8), p) | _ => Fault end.

Definition ikcp_decode32u (p : list Z) : exec (Z * list Z) :=
  match p with
  | b0 :: b1 :: b2 :: b3 :: p =>
      let l := u32 (b2 + Z.shiftl b3 8) in
      let l := u32 (b1 + Z.shiftl l 8) in
      Done (u32 (b0 + Z.shiftl l 8), p)
  | _ => Fault
  end.

Definition _imin_ (a b : Z) : Z := if a <=? b then a else b.
Definition _imax_ (a b : Z) : Z := if b <=? a then a else b.
Definition _ibound_ (lower middle upper : Z) : Z := _imin_ (_imax_ lower middle) upper.
Definition _itimediff (later earlier : Z) : Z := s32 (later - earlier).

(** ** Segments and the control block *)

Module Seg.
Record t := mk {
  conv : Z; cmd : Z; frg : Z; wnd : Z; ts : Z; sn : Z; una : Z; len : Z;
  resendts : Z; rto : Z; fastack : Z; xmit : Z;
  data : list Z
}.

#[export] Instance t_eq_dec : EqDecision t.
Proof. solve_decision. Defined.

(** A segment of the send queue: [ikcp_flush] assigns the other fields before
    they are read. *)
Definition queued (frg len : Z) (data : list Z) : t := mk 0 0 frg 0 0 0 0 len 0 0 0 0 data.

Definition set_fastack (v : Z) (s : t) : t :=
  mk (conv s) (cmd s) (frg s) (wnd s) (ts s) (sn s) (una s) (len s) (resendts s) (rto s) v (xmit s) (data s).
End Seg.

(** Set by the application. *)
Record config := mkConfig {
  conv : Z;
  mtu : Z;
  mss : Z;
  snd_wnd : Z;
  rcv_wnd : Z;
  interval : Z;
  nodelay : Z;
  rx_minrto : Z;
  fastresend : Z;
  fastlimit : Z;
  nocwnd : Z;
  stream : Z;
  dead_link : Z
}.

(** The queue of segments to send and the segments in flight. *)
Record sender := mkSender {
  snd_una : Z;
  snd_nxt : Z;
  snd_queue : list Seg.t;
  snd_buf : list Seg.t;
  nsnd_que : Z;
  nsnd_buf : Z
}.

(** The segments received, in order and ahead of a gap. *)
Record receiver := mkReceiver {
  rcv_nxt : Z;
  rcv_queue : list Seg.t;
  rcv_buf : list Seg.t;
  nrcv_que : Z;
  nrcv_buf : Z
}.

(** The acknowledgements to send: pairs in an array with room for [ackblock]. *)
Record ack_list := mkAcks {
  acklist : list Z;
  ackcount : Z;
  ackblock : Z
}.

(** Windows, round-trip times and what the peer is to be told. *)
Record congestion := mkCongestion {
  rmt_wnd : Z;
  ssthresh : Z;
  cwnd : Z;
  incr : Z;
  rx_rttval : Z;
  rx_srtt : Z;
  rx_rto : Z;
  xmit : Z;
  state : Z;
  probe : Z
}.

(** The clock. *)
Record timer := mkTimer {
  current : Z;
  ts_flush : Z;
  updated : Z;
  ts_probe : Z;
  probe_wait : Z
}.

(** The control block. *)
Record ikcpcb := mkKcp {
  conf : config;
  sending : sender;
  receiving : receiver;
  acks : ack_list;
  control : congestion;
  timing : timer;
  buffer : list Z
}.

Definition set_snd_una (v : Z) (s : sender) : sender :=
  mkSender v (snd_nxt s) (snd_queue s) (snd_buf s) (nsnd_que s) (nsnd_buf s).

Definition set_rmt_wnd (v : Z) (c : congestion) : congestion :=
  mkCongestion v (ssthresh c) (cwnd c) (incr c) (rx_rttval c) (rx_srtt c) (rx_rto c) (xmit c) (state c) (probe c).
Definition set_probe (v : Z) (c : congestion) : congestion :=
  mkCongestion (rmt_wnd c) (ssthresh c) (cwnd c) (incr c) (rx_rttval c) (rx_srtt c) (rx_rto c) (xmit c) (state c) v.

Definition set_conf (v : config) (k : ikcpcb) : ikcpcb :=
  mkKcp v (sending k) (receiving k) (acks k) (control k) (timing k) (buffer k).
Definition set_sending (v : sender) (k : ikcpcb) : ikcpcb :=
  mkKcp (conf k) v (receiving k) (acks k) (control k) (timing k) (buffer k).
Definition set_receiving (v : receiver) (k : ikcpcb) : ikcpcb :=
  mkKcp (conf k) (sending k) v (acks k) (control k) (timing k) (buffer k).
Definition set_acks (v : ack_list) (k : ikcpcb) : ikcpcb :=
  mkKcp (conf k) (sending k) (receiving k) v (control k) (timing k) (buffer k).
Definition set_control (v : congestion) (k : ikcpcb) : ikcpcb :=
  mkKcp (conf k) (sending k) (receiving k) (acks k) v (timing k) (buffer k).
Definition set_timing (v : timer) (k : ikcpcb) : ikcpcb :=
  mkKcp (conf k) (sending k) (receiving k) (acks k) (control k) v (buffer k).

Definition set_window (ssthresh cwnd incr : Z) (c : congestion) : congestion :=
  mkCongestion (rmt_wnd c) ssthresh cwnd incr (rx_rttval c) (rx_srtt c) (rx_rto c) (xmit c) (state c) (probe c).
Definition set_rtt (rttval srtt rto : Z) (c : congestion) : congestion :=
  mkCongestion (rmt_wnd c) (ssthresh c) (cwnd c) (incr c) rttval srtt rto (xmit c) (state c) (probe c).
Definition set_xmit (xmit state : Z) (c : congestion) : congestion :=
  mkCongestion (rmt_wnd c) (ssthresh c) (cwnd c) (incr c) (rx_rttval c) (rx_srtt c) (rx_rto c) xmit state (probe c).

(** Fresh memory of [n] bytes; what it holds is never read. *)
Definition ikcp_malloc (n : nat) : list Z := replicate n 0.

(** [malloc1] and [malloc2]: whether the two allocations succeed. *)
Definition ikcp_create (malloc1 malloc2 : bool) (conv : Z) : option ikcpcb :=
  if negb malloc1 then None else
  let mtu := IKCP_MTU_DEF in
  if negb malloc2 then None else
  Some (mkKcp
    (mkConfig conv mtu (mtu - IKCP_OVERHEAD) IKCP_WND_SND IKCP_WND_RCV IKCP_INTERVAL 0 IKCP_RTO_MIN
       0 IKCP_FASTACK_LIMIT 0 0 IKCP_DEADLINK)
    (mkSender 0 0 [] [] 0 0)
    (mkReceiver 0 [] [] 0 0)
    (mkAcks [] 0 0)
    (mkCongestion IKCP_WND_RCV IKCP_THRESH_INIT 0 0 0 0 IKCP_RTO_DEF 0 0 0)
    (mkTimer 0 IKCP_INTERVAL 0 0 0)
    (ikcp_malloc (Z.to_nat ((mtu + IKCP_OVERHEAD) * 3)))).

(** The segments that are freed, in order. *)
Definition ikcp_release (k : ikcpcb) : list Seg.t :=
  snd_buf (sending k) ++ rcv_buf (receiving k) ++ snd_queue (sending k) ++ rcv_queue (receiving k).

(** ** Receiving messages *)

(** The loop of [ikcp_peeksize]. *)
Fixpoint peek_length (segs : list Seg.t) (length : Z) : Z :=
  match segs with
  | [] => length
  | seg :: segs =>
      let length := s32 (length + Seg.len seg) in
      if Seg.frg seg =? 0 then length else peek_length segs length
  end.

Definition ikcp_peeksize (r : receiver) : Z :=
  match rcv_queue r with
  | [] => -1
  | seg :: _ =>
      if Seg.frg seg =? 0 then s32 (Seg.len seg)
      else if nrcv_que r <? u32 (Seg.frg seg + 1) then -1
      else peek_length (rcv_queue r) 0
  end.

(** The loop that merges fragments: what is written to [buffer] from offset
    [at_], the length, the segments left in the queue and their number when
    the visited ones are deleted. *)
Fixpoint merge_fragments (segs : list Seg.t) (buffer : option (list Z)) (at_ : nat) (len nrcv_que : Z)
    : exec (option (list Z) * Z * list Seg.t * Z) :=
  match segs with
  | [] => Done (buffer, len, [], nrcv_que)
  | seg :: segs =>
      buffer ← match buffer with
               | None => Done None
               | Some b => b ← memcpy b at_ (Seg.data seg) 0 (Z.to_nat (Seg.len seg)); Done (Some b)
               end;
      let len := s32 (len + Seg.len seg) in
      let nrcv_que := u32 (nrcv_que - 1) in
      if Seg.frg seg =? 0 then Done (buffer, len, segs, nrcv_que)
      else merge_fragments segs buffer (at_ + Z.to_nat (Seg.len seg)) len nrcv_que
  end.

(** Moves the segments at the front of [rcv_buf], which is [buf], to
    [rcv_queue] while they are the next ones. *)
Fixpoint move_from (rcv_wnd : Z) (buf : list Seg.t) (r : receiver) : receiver :=
  match buf with
  | [] => r
  | seg :: buf =>
      if (Seg.sn seg =? rcv_nxt r) && (nrcv_que r <? rcv_wnd)
      then move_from rcv_wnd buf
             (mkReceiver (u32 (rcv_nxt r + 1)) (rcv_queue r ++ [seg]) buf (u32 (nrcv_que r + 1)) (u32 (nrcv_buf r - 1)))
      else r
  end.
Definition move_available (rcv_wnd : Z) (r : receiver) : receiver := move_from rcv_wnd (rcv_buf r) r.

(** A negative [len] asks to peek; C does not define [- len] for the least
    [int], which is no length of a buffer. *)
Definition ikcp_recv (k : ikcpcb) (buffer : option (list Z)) (len : Z) : exec (Z * option (list Z) * ikcpcb) :=
  let r := receiving k in
  let w := rcv_wnd (conf k) in
  let ispeek := len <? 0 in
  if bool_decide (rcv_queue r = []) then Done (-1, buffer, k) else
  let len := if len <? 0 then - len else len in
  let peeksize := ikcp_peeksize r in
  if peeksize <? 0 then Done (-2, buffer, k) else
  if len <? peeksize then Done (-3, buffer, k) else
  let recover := w <=? nrcv_que r in
  m ← merge_fragments (rcv_queue r) buffer 0 0 (nrcv_que r);
  let '(buffer, len, rest, nrest) := m in
  let r := if ispeek then r else mkReceiver (rcv_nxt r) rest (rcv_buf r) nrest (nrcv_buf r) in
  if negb (len =? peeksize) then Fault else
  let r := move_available w r in
  let c := if (nrcv_que r <? w) && recover
           then set_probe (Z.lor (probe (control k)) IKCP_ASK_TELL) (control k) else control k in
  Done (len, buffer, set_control c (set_receiving r k)).

(** ** Sending messages *)

(** In streaming mode: fills up the last segment of the queue; gives the rest
    of the buffer and its length. *)
Definition append_last (mss : Z) (s : sender) (buffer : list Z) (len : Z) : exec (sender * list Z * Z) :=
  match last (snd_queue s) with
  | None => Done (s, buffer, len)
  | Some old =>
      if Seg.len old <? mss then
        let capacity := s32 (mss - Seg.len old) in
        let extend := if len <? capacity then len else capacity in
        let n := Z.to_nat (Seg.len old) in
        data ← memcpy (ikcp_malloc (n + Z.to_nat extend)) 0 (Seg.data old) 0 n;
        data ← memcpy data n buffer 0 (Z.to_nat extend);
        let seg := Seg.queued 0 (u32 (Seg.len old + extend)) data in
        Done (mkSender (snd_una s) (snd_nxt s) (removelast (snd_queue s) ++ [seg]) (snd_buf s) (nsnd_que s) (nsnd_buf s),
              drop (Z.to_nat extend) buffer, len - extend)
      else Done (s, buffer, len)
  end.

(** The loop that cuts the buffer into [count] fragments. *)
Definition fragment (mss stream : Z) (count : nat) (s : sender) (buffer : list Z) (len : Z)
    : exec (sender * list Z * Z) :=
  for_range 0 count (fun i '(s, buffer, len) =>
    let size := if s32 mss <? len then s32 mss else len in
    data ← (if 0 <? len then memcpy (ikcp_malloc (Z.to_nat size)) 0 buffer 0 (Z.to_nat size)
            else Done (ikcp_malloc (Z.to_nat size)));
    let frg := if stream =? 0 then Z.of_nat count - Z.of_nat i - 1 else 0 in
    let seg := Seg.queued frg (u32 size) data in
    Done (mkSender (snd_una s) (snd_nxt s) (snd_queue s ++ [seg]) (snd_buf s) (u32 (nsnd_que s + 1)) (nsnd_buf s),
          drop (Z.to_nat size) buffer, len - size)) (s, buffer, len).

(** [buffer] is not null. *)
Definition ikcp_send (k : ikcpcb) (buffer : list Z) (len : Z) : exec (Z * ikcpcb) :=
  let mss := mss (conf k) in
  let stream := stream (conf k) in
  if mss =? 0 then Fault else
  if len <? 0 then Done (-1, k) else
  a ← (if negb (stream =? 0) then append_last mss (sending k) buffer len else Done (sending k, buffer, len));
  let '(s, buffer, len) := a in
  if negb (stream =? 0) && (len <=? 0) then Done (0, set_sending s k) else
  let count := if len <=? s32 mss then 1 else s32 (u32 (u32 (len + mss) - 1) / mss) in
  if IKCP_WND_RCV <=? count then Done (-2, set_sending s k) else
  let count := if count =? 0 then 1 else count in
  f ← fragment mss stream (Z.to_nat count) s buffer len;
  Done (0, set_sending f.1.1 k).

(** ** Acknowledgements *)

Definition ikcp_update_ack (f : config) (c : congestion) (rtt : Z) : congestion :=
  let '(rttval, srtt) :=
    if rx_srtt c =? 0 then (Z.quot rtt 2, rtt)
    else
      let delta := Z.abs (s32 (rtt - rx_srtt c)) in
      let rttval := s32 (Z.quot (s32 (3 * rx_rttval c) + delta) 4) in
      let srtt := Z.quot (s32 (s32 (7 * rx_srtt c) + rtt)) 8 in
      (rttval, if srtt <? 1 then 1 else srtt) in
  let rto := s32 (srtt + _imax_ (interval f) (u32 (s32 (4 * rttval)))) in
  set_rtt rttval srtt (_ibound_ (u32 (rx_minrto f)) (u32 rto) IKCP_RTO_MAX) c.

Definition ikcp_shrink_buf (s : sender) : sender :=
  set_snd_una (match snd_buf s with seg :: _ => Seg.sn seg | [] => snd_nxt s end) s.

(** The loop of [ikcp_parse_ack], and whether a segment was deleted. *)
Fixpoint ack_loop (sn : Z) (segs : list Seg.t) : list Seg.t * bool :=
  match segs with
  | [] => ([], false)
  | seg :: segs =>
      if sn =? Seg.sn seg then (segs, true)
      else if _itimediff sn (Seg.sn seg) <? 0 then (seg :: segs, false)
      else let '(rest, b) := ack_loop sn segs in (seg :: rest, b)
  end.

Definition outside_window (s : sender) (sn : Z) : bool :=
  (_itimediff sn (snd_una s) <? 0) || (0 <=? _itimediff sn (snd_nxt s)).

Definition ikcp_parse_ack (s : sender) (sn : Z) : sender :=
  if outside_window s sn then s else
  let '(segs, b) := ack_loop sn (snd_buf s) in
  mkSender (snd_una s) (snd_nxt s) (snd_queue s) segs (nsnd_que s)
    (if (b : bool) then u32 (nsnd_buf s - 1) else nsnd_buf s).

(** The loop of [ikcp_parse_una] on [snd_buf], with its length. *)
Fixpoint una_loop (una : Z) (segs : list Seg.t) (n : Z) : list Seg.t * Z :=
  match segs with
  | [] => ([], n)
  | seg :: rest => if 0 <? _itimediff una (Seg.sn seg) then una_loop una rest (u32 (n - 1)) else (segs, n)
  end.

Definition ikcp_parse_una (s : sender) (una : Z) : sender :=
  let '(segs, n) := una_loop una (snd_buf s) (nsnd_buf s) in
  mkSender (snd_una s) (snd_nxt s) (snd_queue s) segs (nsnd_que s) n.

Fixpoint fastack_loop (sn : Z) (segs : list Seg.t) : list Seg.t :=
  match segs with
  | [] => []
  | seg :: rest =>
      if _itimediff sn (Seg.sn seg) <? 0 then segs
      else (if sn =? Seg.sn seg then seg else Seg.set_fastack (u32 (Seg.fastack seg + 1)) seg) :: fastack_loop sn rest
  end.

Definition ikcp_parse_fastack (s : sender) (sn ts : Z) : sender :=
  if outside_window s sn then s else
  mkSender (snd_una s) (snd_nxt s) (snd_queue s) (fastack_loop sn (snd_buf s)) (nsnd_que s) (nsnd_buf s).

(** [for (newblock = 8; newblock < newsize; newblock <<= 1)]: at most 29
    rounds, unless [newsize] is above 2^31 and the loop does not end. *)
Definition grow_block (newsize : Z) : exec Z :=
  while 30 (fun newblock => newblock <? newsize) (fun newblock => Done (u32 (Z.shiftl newblock 1))) 8.

Definition ikcp_ack_push (a : ack_list) (sn ts : Z) : exec ack_list :=
  let newsize := u32 (ackcount a + 1) in
  a ← (if ackblock a <? newsize then
         newblock ← grow_block newsize;
         l ← for_range 0 (Z.to_nat (ackcount a)) (fun x l =>
               s ← load (acklist a) (x * 2);
               l ← store l (x * 2) s;
               t ← load (acklist a) (x * 2 + 1);
               store l (x * 2 + 1) t) (ikcp_malloc (Z.to_nat newblock * 2));
         Done (mkAcks l (ackcount a) newblock)
       else Done a);
  let ptr := (Z.to_nat (ackcount a) * 2)%nat in
  l ← store (acklist a) ptr sn;
  l ← store l (ptr + 1) ts;
  Done (mkAcks l (u32 (ackcount a + 1)) (ackblock a)).

Definition ikcp_ack_get (a : ack_list) (p : nat) : exec (Z * Z) :=
  sn ← load (acklist a) (p * 2);
  ts ← load (acklist a) (p * 2 + 1);
  Done (sn, ts).

(** ** Data from the network *)

(** The loop of [ikcp_parse_data], from the back of [rcv_buf]: [None] when the
    segment is there already, else the buffer with the segment behind the
    first one that precedes it.  [rev_segs] is the buffer, last segment first. *)
Fixpoint insert_back (newseg : Seg.t) (rev_segs : list Seg.t) : option (list Seg.t) :=
  match rev_segs with
  | [] => Some [newseg]
  | seg :: rest =>
      if Seg.sn seg =? Seg.sn newseg then None
      else if 0 <? _itimediff (Seg.sn newseg) (Seg.sn seg) then Some (newseg :: rev_segs)
      else match insert_back newseg rest with None => None | Some l => Some (seg :: l) end
  end.

Definition ikcp_parse_data (rcv_wnd : Z) (r : receiver) (newseg : Seg.t) : receiver :=
  let sn := Seg.sn newseg in
  if (0 <=? _itimediff sn (u32 (rcv_nxt r + rcv_wnd))) || (_itimediff sn (rcv_nxt r) <? 0) then r else
  let r := match insert_back newseg (rev (rcv_buf r)) with
           | Some l => mkReceiver (rcv_nxt r) (rcv_queue r) (rev l) (nrcv_que r) (u32 (nrcv_buf r + 1))
           | None => r
           end in
  move_available rcv_wnd r.

(** What the loop of [ikcp_input] remembers of the acknowledgements. *)
Record acked := mkAcked { flag : bool; maxack : Z; latest_ts : Z }.

Definition input_ack (k : ikcpcb) (a : acked) (ts sn : Z) : ikcpcb * acked :=
  let rtt := _itimediff (current (timing k)) ts in
  let k := if 0 <=? rtt then set_control (ikcp_update_ack (conf k) (control k) rtt) k else k in
  let k := set_sending (ikcp_shrink_buf (ikcp_parse_ack (sending k) sn)) k in
  (k, if negb (flag a) then mkAcked true sn ts
      else if 0 <? _itimediff sn (maxack a) then mkAcked true sn ts else a).

Definition input_push (k : ikcpcb) (cv cmd frg wnd ts sn una len : Z) (data : list Z) : exec ikcpcb :=
  let w := rcv_wnd (conf k) in
  if _itimediff sn (u32 (rcv_nxt (receiving k) + w)) <? 0 then
    a ← ikcp_ack_push (acks k) sn ts;
    let k := set_acks a k in
    if 0 <=? _itimediff sn (rcv_nxt (receiving k)) then
      d ← (if 0 <? len then memcpy (ikcp_malloc (Z.to_nat len)) 0 data 0 (Z.to_nat len)
           else Done (ikcp_malloc (Z.to_nat len)));
      let seg := Seg.mk cv cmd frg wnd ts sn una len 0 0 0 0 d in
      Done (set_receiving (ikcp_parse_data w (receiving k) seg) k)
    else Done k
  else Done k.

(** What a segment does once its header has been checked. *)
Definition input_segment (k : ikcpcb) (a : acked) (cv cmd frg wnd ts sn una len : Z) (data : list Z)
    : exec (ikcpcb * acked) :=
  let k := set_control (set_rmt_wnd wnd (control k)) k in
  let k := set_sending (ikcp_shrink_buf (ikcp_parse_una (sending k) una)) k in
  if cmd =? IKCP_CMD_ACK then Done (input_ack k a ts sn)
  else if cmd =? IKCP_CMD_PUSH then k ← input_push k cv cmd frg wnd ts sn una len data; Done (k, a)
  else if cmd =? IKCP_CMD_WASK
  then Done (set_control (set_probe (Z.lor (probe (control k)) IKCP_ASK_TELL) (control k)) k, a)
  else Done (k, a).

Definition known_cmd (cmd : Z) : bool :=
  (cmd =? IKCP_CMD_PUSH) || (cmd =? IKCP_CMD_ACK) || (cmd =? IKCP_CMD_WASK) || (cmd =? IKCP_CMD_WINS).

(** The loop of [ikcp_input]; a round consumes 24 bytes or more.  [inl] is the
    value of an early return. *)
Fixpoint input_loop (fuel : nat) (k : ikcpcb) (a : acked) (data : list Z) (size : Z) : exec (ikcpcb * (Z + acked)) :=
  if size <? IKCP_OVERHEAD then Done (k, inr a) else
  match fuel with
  | O => NoFuel
  | S fuel =>
      d ← ikcp_decode32u data; let '(cv, data) := d in
      if negb (cv =? conv (conf k)) then Done (k, inl (-1)) else
      d ← ikcp_decode8u data; let '(cmd, data) := d in
      d ← ikcp_decode8u data; let '(frg, data) := d in
      d ← ikcp_decode16u data; let '(wnd, data) := d in
      d ← ikcp_decode32u data; let '(ts, data) := d in
      d ← ikcp_decode32u data; let '(sn, data) := d in
      d ← ikcp_decode32u data; let '(una, data) := d in
      d ← ikcp_decode32u data; let '(len, data) := d in
      let size := size - IKCP_OVERHEAD in
      if (size <? len) || (s32 len <? 0) then Done (k, inl (-2)) else
      if negb (known_cmd cmd) then Done (k, inl (-3)) else
      s ← input_segment k a cv cmd frg wnd ts sn una len data;
      input_loop fuel s.1 s.2 (drop (Z.to_nat len) data) (size - len)
  end.

(** [a / b] of unsigned integers. *)
Definition udiv (a b : Z) : exec Z := if b =? 0 then Fault else Done (a / b).

(** The growth of the congestion window at the end of [ikcp_input]: slow start,
    then congestion avoidance. *)
Definition next_cwnd (mss : Z) (c : congestion) : exec (Z * Z) :=
  if cwnd c <? ssthresh c then Done (u32 (cwnd c + 1), u32 (incr c + mss)) else
  let incr := if incr c <? mss then mss else incr c in
  q ← udiv (u32 (mss * mss)) incr;
  let incr := u32 (incr + u32 (q + mss / 16)) in
  if u32 (u32 (cwnd c + 1) * mss) <=? incr
  then Done (u32 (u32 (incr + mss) - 1) / (if 0 <? mss then mss else 1), incr)
  else Done (cwnd c, incr).

Definition grow_cwnd (mss : Z) (c : congestion) : exec congestion :=
  if negb (cwnd c <? rmt_wnd c) then Done c else
  w ← next_cwnd mss c;
  let '(cw, incr) := w in
  if rmt_wnd c <? cw then Done (set_window (ssthresh c) (rmt_wnd c) (u32 (rmt_wnd c * mss)) c)
  else Done (set_window (ssthresh c) cw incr c).

Definition ikcp_input (k : ikcpcb) (data : option (list Z)) (size : Z) : exec (Z * ikcpcb) :=
  let prev_una := snd_una (sending k) in
  match data with
  | None => Done (-1, k)
  | Some data =>
      if s32 size <? IKCP_OVERHEAD then Done (-1, k) else
      r ← input_loop (length data) k (mkAcked false 0 0) data size;
      match r with
      | (k, inl code) => Done (code, k)
      | (k, inr a) =>
          let k := if flag a then set_sending (ikcp_parse_fastack (sending k) (maxack a) (latest_ts a)) k else k in
          c ← (if 0 <? _itimediff (snd_una (sending k)) prev_una then grow_cwnd (mss (conf k)) (control k)
               else Done (control k));
          Done (0, set_control c k)
      end
  end.

(** ** Data to the network *)

Definition ikcp_encode_seg (buf : list Z) (ptr : nat) (seg : Seg.t) : exec (list Z * nat) :=
  e ← ikcp_encode32u buf ptr (Seg.conv seg);
  e ← ikcp_encode8u e.1 e.2 (u8 (Seg.cmd seg));
  e ← ikcp_encode8u e.1 e.2 (u8 (Seg.frg seg));
  e ← ikcp_encode16u e.1 e.2 (u16 (Seg.wnd seg));
  e ← ikcp_encode32u e.1 e.2 (Seg.ts seg);
  e ← ikcp_encode32u e.1 e.2 (Seg.sn seg);
  e ← ikcp_encode32u e.1 e.2 (Seg.una seg);
  ikcp_encode32u e.1 e.2 (Seg.len seg).

Definition ikcp_wnd_unused (rcv_wnd : Z) (r : receiver) : Z :=
  if nrcv_que r <? rcv_wnd then s32 (rcv_wnd - nrcv_que r) else 0.

(** The buffer that is being filled, the offset of [ptr] in it, and the
    datagrams handed to the output callback so far. *)
Record out := mkOut { obuf : list Z; ptr : nat; sent : list (list Z) }.

Definition ikcp_output (o : out) : out :=
  if (ptr o =? 0)%nat then o else mkOut (obuf o) (ptr o) (sent o ++ [take (ptr o) (obuf o)]).

(** Makes room for [need] bytes: [if (size + need > mtu)] output the buffer. *)
Definition make_room (mtu need : Z) (o : out) : out :=
  if s32 mtu <? Z.of_nat (ptr o) + need then let o := ikcp_output o in mkOut (obuf o) 0 (sent o) else o.

(** A segment without data: an acknowledgement or a probe. *)
Definition put_control (mtu : Z) (seg : Seg.t) (o : out) : exec out :=
  let o := make_room mtu IKCP_OVERHEAD o in
  e ← ikcp_encode_seg (obuf o) (ptr o) seg;
  Done (mkOut e.1 e.2 (sent o)).

(** The segment [seg] of [ikcp_flush]. *)
Definition control_seg (k : ikcpcb) (cmd sn ts : Z) : Seg.t :=
  Seg.mk (conv (conf k)) cmd 0 (ikcp_wnd_unused (rcv_wnd (conf k)) (receiving k)) ts sn
    (rcv_nxt (receiving k)) 0 0 0 0 0 [].

(** The acknowledgements; [sn] and [ts] of the last one stay in [seg]. *)
Definition flush_acks (k : ikcpcb) (o : out) : exec (Z * Z * out) :=
  for_range 0 (Z.to_nat (s32 (ackcount (acks k)))) (fun i '(_, _, o) =>
    g ← ikcp_ack_get (acks k) i;
    o ← put_control (mtu (conf k)) (control_seg k IKCP_CMD_ACK g.1 g.2) o;
    Done (g.1, g.2, o)) (0, 0, o).

(** Probing the window of the peer when it is closed. *)
Definition update_probe (c : congestion) (t : timer) : congestion * timer :=
  if rmt_wnd c =? 0 then
    if probe_wait t =? 0 then
      (c, mkTimer (current t) (ts_flush t) (updated t) (u32 (current t + IKCP_PROBE_INIT)) IKCP_PROBE_INIT)
    else if 0 <=? _itimediff (current t) (ts_probe t) then
      let wait := if probe_wait t <? IKCP_PROBE_INIT then IKCP_PROBE_INIT else probe_wait t in
      let wait := u32 (wait + wait / 2) in
      let wait := if IKCP_PROBE_LIMIT <? wait then IKCP_PROBE_LIMIT else wait in
      (set_probe (Z.lor (probe c) IKCP_ASK_SEND) c,
       mkTimer (current t) (ts_flush t) (updated t) (u32 (current t + wait)) wait)
    else (c, t)
  else (c, mkTimer (current t) (ts_flush t) (updated t) 0 0).

(** The window, and the two limits of retransmission. *)
Definition send_window (f : config) (c : congestion) : Z :=
  let cw := _imin_ (snd_wnd f) (rmt_wnd c) in
  if nocwnd f =? 0 then _imin_ (cwnd c) cw else cw.
Definition resent_limit (f : config) : Z := if 0 <? fastresend f then fastresend f else 2 ^ 32 - 1.
Definition rto_min (f : config) (c : congestion) : Z := if nodelay f =? 0 then Z.shiftr (rx_rto c) 3 else 0.

(** The first free segment of the window goes from [snd_queue], which is
    [queue], to [snd_buf]. *)
Fixpoint fill_window (k : ikcpcb) (cwnd : Z) (queue : list Seg.t) (s : sender) : sender :=
  match queue with
  | [] => s
  | newseg :: queue =>
      if _itimediff (snd_nxt s) (u32 (snd_una s + cwnd)) <? 0 then
        let current := current (timing k) in
        let seg := Seg.mk (conv (conf k)) IKCP_CMD_PUSH (Seg.frg newseg)
                     (ikcp_wnd_unused (rcv_wnd (conf k)) (receiving k)) current (snd_nxt s)
                     (rcv_nxt (receiving k)) (Seg.len newseg) current (rx_rto (control k)) 0 0 (Seg.data newseg) in
        fill_window k cwnd queue
          (mkSender (snd_una s) (u32 (snd_nxt s + 1)) queue (snd_buf s ++ [seg])
             (u32 (nsnd_que s - 1)) (u32 (nsnd_buf s + 1)))
      else s
  end.

Inductive verdict := Keep | First | Timeout | Fast.

(** Whether a segment in flight is to be sent now. *)
Definition needsend (f : config) (current resent : Z) (seg : Seg.t) : verdict :=
  if Seg.xmit seg =? 0 then First
  else if 0 <=? _itimediff current (Seg.resendts seg) then Timeout
  else if resent <=? Seg.fastack seg then
    if (s32 (Seg.xmit seg) <=? fastlimit f) || (fastlimit f <=? 0) then Fast else Keep
  else Keep.

(** The segment as it is sent. *)
Definition resend (f : config) (current rx_rto rtomin wnd rcv_nxt : Z) (v : verdict) (seg : Seg.t) : Seg.t :=
  let rto := match v with
             | First => rx_rto
             | Timeout =>
                 if nodelay f =? 0 then u32 (Seg.rto seg + _imax_ (Seg.rto seg) rx_rto)
                 else let step := if nodelay f <? 2 then s32 (Seg.rto seg) else rx_rto in
                      u32 (Seg.rto seg + Z.quot step 2)
             | _ => Seg.rto seg
             end in
  let resendts := match v with
                  | First => u32 (u32 (current + rto) + rtomin)
                  | _ => u32 (current + rto)
                  end in
  let fastack := match v with Fast => 0 | _ => Seg.fastack seg end in
  Seg.mk (Seg.conv seg) (Seg.cmd seg) (Seg.frg seg) wnd current (Seg.sn seg) rcv_nxt (Seg.len seg)
    resendts rto fastack (u32 (Seg.xmit seg + 1)) (Seg.data seg).

Definition put_data (mtu : Z) (seg : Seg.t) (o : out) : exec out :=
  let o := make_room mtu (s32 (IKCP_OVERHEAD + Seg.len seg)) o in
  e ← ikcp_encode_seg (obuf o) (ptr o) seg;
  if 0 <? Seg.len seg then
    b ← memcpy e.1 e.2 (Seg.data seg) 0 (Z.to_nat (Seg.len seg));
    Done (mkOut b (e.2 + Z.to_nat (Seg.len seg)) (sent o))
  else Done (mkOut e.1 e.2 (sent o)).

(** What the loop over the segments in flight counts: [kcp->xmit],
    [kcp->state], [change] and [lost]. *)
Record tally := mkTally { t_xmit : Z; t_state : Z; change : bool; lost : bool }.

Definition note (v : verdict) (dead_link : Z) (seg : Seg.t) (t : tally) : tally :=
  mkTally (match v with Timeout => u32 (t_xmit t + 1) | _ => t_xmit t end)
    (if dead_link <=? Seg.xmit seg then 2 ^ 32 - 1 else t_state t)
    (match v with Fast => true | _ => change t end)
    (match v with Timeout => true | _ => lost t end).

Fixpoint flush_data (k : ikcpcb) (resent rtomin : Z) (segs : list Seg.t) (o : out) (t : tally)
    : exec (list Seg.t * out * tally) :=
  match segs with
  | [] => Done ([], o, t)
  | seg :: segs =>
      let v := needsend (conf k) (current (timing k)) resent seg in
      match v with
      | Keep => r ← flush_data k resent rtomin segs o t; Done (seg :: r.1.1, r.1.2, r.2)
      | _ =>
          let seg := resend (conf k) (current (timing k)) (rx_rto (control k)) rtomin
                       (ikcp_wnd_unused (rcv_wnd (conf k)) (receiving k)) (rcv_nxt (receiving k)) v seg in
          o ← put_data (mtu (conf k)) seg o;
          r ← flush_data k resent rtomin segs o (note v (dead_link (conf k)) seg t);
          Done (seg :: r.1.1, r.1.2, r.2)
      end
  end.

(** The slow start threshold and the window after losses. *)
Definition shrink_cwnd (f : config) (s : sender) (cw resent : Z) (t : tally) (c : congestion) : congestion :=
  let c := if change t then
             let half := u32 (snd_nxt s - snd_una s) / 2 in
             let half := if half <? IKCP_THRESH_MIN then IKCP_THRESH_MIN else half in
             let w := u32 (half + resent) in
             set_window half w (u32 (w * mss f)) c
           else c in
  let c := if lost t then
             let half := cw / 2 in
             set_window (if half <? IKCP_THRESH_MIN then IKCP_THRESH_MIN else half) 1 (mss f) c
           else c in
  if cwnd c <? 1 then set_window (ssthresh c) 1 (mss f) c else c.

(** The control block and the datagrams. *)
Definition ikcp_flush (k : ikcpcb) : exec (ikcpcb * list (list Z)) :=
  if updated (timing k) =? 0 then Done (k, []) else
  let f := conf k in
  a ← flush_acks k (mkOut (buffer k) 0 []);
  let '(sn, ts, o) := a in
  let '(c, t) := update_probe (control k) (timing k) in
  o ← (if negb (Z.land (probe c) IKCP_ASK_SEND =? 0)
       then put_control (mtu f) (control_seg k IKCP_CMD_WASK sn ts) o else Done o);
  o ← (if negb (Z.land (probe c) IKCP_ASK_TELL =? 0)
       then put_control (mtu f) (control_seg k IKCP_CMD_WINS sn ts) o else Done o);
  let cw := send_window f c in
  let s := fill_window k cw (snd_queue (sending k)) (sending k) in
  let resent := resent_limit f in
  let rtomin := rto_min f c in
  d ← flush_data k resent rtomin (snd_buf s) o (mkTally (xmit c) (state c) false false);
  let '(segs, o, y) := d in
  let s := mkSender (snd_una s) (snd_nxt s) (snd_queue s) segs (nsnd_que s) (nsnd_buf s) in
  let o := ikcp_output o in
  let c := shrink_cwnd f s cw resent y (set_probe 0 (set_xmit (t_xmit y) (t_state y) c)) in
  Done (mkKcp f s (receiving k) (mkAcks (acklist (acks k)) 0 (ackblock (acks k))) c t (obuf o), sent o).

(** ** The clock *)

Definition ikcp_update (k : ikcpcb) (now : Z) : exec (ikcpcb * list (list Z)) :=
  let t := timing k in
  let ts_flush := if updated t =? 0 then now else ts_flush t in
  let slap := _itimediff now ts_flush in
  let '(ts_flush, slap) :=
    if (10000 <=? slap) || (slap <? -10000) then (now, 0) else (ts_flush, slap) in
  let ts_flush' := u32 (ts_flush + interval (conf k)) in
  let ts_flush' := if 0 <=? _itimediff now ts_flush' then u32 (now + interval (conf k)) else ts_flush' in
  let updated := if updated t =? 0 then 1 else updated t in
  if 0 <=? slap then ikcp_flush (set_timing (mkTimer now ts_flush' updated (ts_probe t) (probe_wait t)) k)
  else Done (set_timing (mkTimer now ts_flush updated (ts_probe t) (probe_wait t)) k, []).

(** The loop of [ikcp_check]: [None] when a segment is due. *)
Fixpoint next_packet (current : Z) (segs : list Seg.t) (tm_packet : Z) : option Z :=
  match segs with
  | [] => Some tm_packet
  | seg :: segs =>
      let diff := _itimediff (Seg.resendts seg) current in
      if diff <=? 0 then None
      else next_packet current segs (if diff <? tm_packet then diff else tm_packet)
  end.

Definition ikcp_check (k : ikcpcb) (current : Z) : Z :=
  if updated (timing k) =? 0 then current else
  let ts_flush := ts_flush (timing k) in
  let ts_flush := if (10000 <=? _itimediff current ts_flush) || (_itimediff current ts_flush <? -10000)
                  then current else ts_flush in
  if 0 <=? _itimediff current ts_flush then current else
  let tm_flush := _itimediff ts_flush current in
  match next_packet current (snd_buf (sending k)) (2 ^ 31 - 1) with
  | None => current
  | Some tm_packet =>
      let minimal := u32 (if tm_packet <? tm_flush then tm_packet else tm_flush) in
      let minimal := if interval (conf k) <=? minimal then interval (conf k) else minimal in
      u32 (current + minimal)
  end.

(** ** Settings *)

(** [malloc]: whether the allocation succeeds. *)
Definition ikcp_setmtu (malloc : bool) (k : ikcpcb) (mtu : Z) : Z * ikcpcb :=
  if (mtu <? 50) || (mtu <? IKCP_OVERHEAD) then (-1, k) else
  if negb malloc then (-2, k) else
  let f := conf k in
  (0, mkKcp (mkConfig (conv f) mtu (u32 (mtu - IKCP_OVERHEAD)) (snd_wnd f) (rcv_wnd f) (interval f) (nodelay f)
               (rx_minrto f) (fastresend f) (fastlimit f) (nocwnd f) (stream f) (dead_link f))
        (sending k) (receiving k) (acks k) (control k) (timing k)
        (ikcp_malloc (Z.to_nat (u32 (u32 (mtu + IKCP_OVERHEAD) * 3))))).

Definition clamp_interval (interval : Z) : Z :=
  if 5000 <? interval then 5000 else if interval <? 10 then 10 else interval.

Definition ikcp_interval (k : ikcpcb) (interval : Z) : Z * ikcpcb :=
  let f := conf k in
  (0, set_conf (mkConfig (conv f) (mtu f) (mss f) (snd_wnd f) (rcv_wnd f) (clamp_interval interval) (nodelay f)
                  (rx_minrto f) (fastresend f) (fastlimit f) (nocwnd f) (stream f) (dead_link f)) k).

Definition ikcp_nodelay (k : ikcpcb) (nodelay_ interval_ resend nc : Z) : Z * ikcpcb :=
  let f := conf k in
  (0, set_conf (mkConfig (conv f) (mtu f) (mss f) (snd_wnd f) (rcv_wnd f)
                  (if 0 <=? interval_ then clamp_interval interval_ else interval f)
                  (if 0 <=? nodelay_ then nodelay_ else nodelay f)
                  (if 0 <=? nodelay_ then if nodelay_ =? 0 then IKCP_RTO_MIN else IKCP_RTO_NDL else rx_minrto f)
                  (if 0 <=? resend then resend else fastresend f) (fastlimit f)
                  (if 0 <=? nc then nc else nocwnd f) (stream f) (dead_link f)) k).

Definition ikcp_wndsize (k : ikcpcb) (sndwnd rcvwnd : Z) : Z * ikcpcb :=
  let f := conf k in
  (0, set_conf (mkConfig (conv f) (mtu f) (mss f) (if 0 <? sndwnd then sndwnd else snd_wnd f)
                  (if 0 <? rcvwnd then _imax_ rcvwnd IKCP_WND_RCV else rcv_wnd f) (interval f) (nodelay f)
                  (rx_minrto f) (fastresend f) (fastlimit f) (nocwnd f) (stream f) (dead_link f)) k).

Definition ikcp_waitsnd (k : ikcpcb) : Z := s32 (nsnd_buf (sending k) + nsnd_que (sending k)).

Definition ikcp_getconv (p : list Z) : exec Z := d ← ikcp_decode32u p; Done d.1.

End Kcp.
