(* ===== verification/KcpWire.v ===== *)
(** * KCP on the wire: segments as bytes

    What [ikcp_encode_seg] writes is the header of a segment in little-endian
    order; [ikcp_input] reads back from a datagram the segments that were
    written to it, one after the other. *)

From S2P Require Import Prelude Kcp.

#[local] Set Warnings "-level-tolerance".

Module KcpWire.
Import Kcp.

(** ** Headers *)

Lemma encode8u_spec buf p c :
  (p + 1 <= length buf)%nat -> ikcp_encode8u buf p c = Done (splice buf p (le 1 c), (p + 1)%nat).
Proof. intros H. unfold ikcp_encode8u. by rewrite store_splice, bind_Done by lia. Qed.

Lemma encode16u_spec buf p w :
  (p + 2 <= length buf)%nat -> 0 <= w < 2 ^ 16 -> ikcp_encode16u buf p w = Done (splice buf p (le 2 w), (p + 2)%nat).
Proof.
  intros H Hw. unfold ikcp_encode16u. rewrite store_splice, bind_Done by lia.
  rewrite store_splice, bind_Done by (rewrite length_splice; simpl; lia).
  rewrite (splice_splice buf p [_] [_]) by (simpl; lia). do 2 f_equal. unfold le. cbn [app].
  rewrite land_255, Z.shiftr_div_pow2 by lia. change (2 ^ 8) with 256.
  by rewrite (Z.mod_small (w / 256)) by lia_div.
Qed.

Lemma encode32u_spec buf p l :
  (p + 4 <= length buf)%nat -> ikcp_encode32u buf p l = Done (splice buf p (le 4 l), (p + 4)%nat).
Proof.
  intros H. unfold ikcp_encode32u. rewrite store_splice, bind_Done by lia.
  rewrite store_splice, bind_Done by (rewrite length_splice; simpl; lia).
  rewrite (splice_splice buf p [_] [_]) by (simpl; lia). cbn [app].
  rewrite store_splice, bind_Done by (rewrite length_splice; simpl; lia).
  rewrite (splice_splice buf p [_; _] [_]) by (simpl; lia). cbn [app].
  rewrite store_splice, bind_Done by (rewrite length_splice; simpl; lia).
  rewrite (splice_splice buf p [_; _; _] [_]) by (simpl; lia). cbn [app].
  unfold le. rewrite !land_255, !Z.shiftr_div_pow2, !Z.div_div by lia. done.
Qed.

(** ** Segments *)

Definition header (s : Seg.t) : list Z :=
  le 4 (Seg.conv s) ++ le 1 (Seg.cmd s) ++ le 1 (Seg.frg s) ++ le 2 (Seg.wnd s) ++
  le 4 (Seg.ts s) ++ le 4 (Seg.sn s) ++ le 4 (Seg.una s) ++ le 4 (Seg.len s).

(** A segment as bytes, and a datagram of several segments. *)
Definition wire (s : Seg.t) : list Z := header s ++ Seg.data s.
Definition packet (segs : list Seg.t) : list Z := concat (map wire segs).

(** The fields fit their places in the header. *)
Record wf_seg (s : Seg.t) : Prop := {
  wf_conv : is_u32 (Seg.conv s);
  wf_cmd : is_u8 (Seg.cmd s);
  wf_frg : is_u8 (Seg.frg s);
  wf_wnd : 0 <= Seg.wnd s < 2 ^ 16;
  wf_ts : is_u32 (Seg.ts s);
  wf_sn : is_u32 (Seg.sn s);
  wf_una : is_u32 (Seg.una s);
  wf_len : Seg.len s = Z.of_nat (length (Seg.data s));
  wf_small : Seg.len s < 2 ^ 31
}.

Lemma length_header s : length (header s) = 24%nat.
Proof. done. Qed.

Lemma length_wire s : length (wire s) = (24 + length (Seg.data s))%nat.
Proof. unfold wire. by rewrite length_app, length_header. Qed.

Ltac fits := rewrite ?length_splice; rewrite ?length_app, ?length_le; lia.

(** Only the low bits of [cmd], [frg] and [wnd] are written. *)
Lemma encode_seg_spec buf p s :
  (p + 24 <= length buf)%nat -> 
  ikcp_encode_seg buf p s =
  Done (splice buf p (header (Seg.mk (Seg.conv s) (u8 (Seg.cmd s)) (u8 (Seg.frg s)) (u16 (Seg.wnd s)) (Seg.ts s) (Seg.sn s)
                                (Seg.una s) (Seg.len s) 0 0 0 0 [])), (p + 24)%nat).
Proof.
  intros H. unfold ikcp_encode_seg, header. cbn [Seg.conv Seg.cmd Seg.frg Seg.wnd Seg.ts Seg.sn Seg.una Seg.len].
  assert (0 <= u16 (Seg.wnd s) < 2 ^ 16) as Hw by (unfold u16; lia_div).
  rewrite encode32u_spec, bind_Done by lia. cbn [fst snd].
  rewrite encode8u_spec, bind_Done by fits. cbn [fst snd]. rewrite splice_at by fits.
  rewrite encode8u_spec, bind_Done by fits. cbn [fst snd]. rewrite splice_at by fits.
  rewrite encode16u_spec, bind_Done by (done || fits). cbn [fst snd]. rewrite splice_at by fits.
  do 3 (rewrite encode32u_spec, bind_Done by fits; cbn [fst snd]; rewrite splice_at by fits).
  rewrite encode32u_spec by fits. rewrite splice_at by fits. rewrite <- !Nat.add_assoc.
  by rewrite <- !app_assoc.
Qed.

Lemma decode8u_le v rest : is_u8 v -> ikcp_decode8u (le 1 v ++ rest) = Done (v, rest).
Proof. intros H. unfold is_u8 in H. cbn. by rewrite Z.mod_small by lia. Qed.

Lemma decode16u_le v rest : 0 <= v < 2 ^ 16 -> ikcp_decode16u (le 2 v ++ rest) = Done (v, rest).
Proof.
  intros H. unfold le, ikcp_decode16u, u16. cbn [app]. rewrite Z.shiftl_mul_pow2 by lia. do 2 f_equal. lia_div.
Qed.

Lemma decode32u_le v rest : is_u32 v -> ikcp_decode32u (le 4 v ++ rest) = Done (v, rest).
Proof.
  intros H. unfold is_u32 in H. unfold le, ikcp_decode32u, u32. cbn [app]. rewrite !Z.shiftl_mul_pow2 by lia.
  rewrite !Z.div_div by lia. do 2 f_equal. change (2 ^ 8) with 256. change (2 ^ 32) with 4294967296 in *.
  rewrite (Z.mod_small (_ + v / (256 * 256 * 256) mod 256 * 256)) by lia_div.
  rewrite (Z.mod_small (_ + (_ + _) * 256)) by lia_div. lia_div.
Qed.

(** ** Datagrams *)

(** A segment that arrives. *)
Definition handle (k : ikcpcb) (a : acked) (s : Seg.t) : exec (ikcpcb * acked) :=
  input_segment k a (Seg.conv s) (Seg.cmd s) (Seg.frg s) (Seg.wnd s) (Seg.ts s) (Seg.sn s) (Seg.una s) (Seg.len s)
    (Seg.data s).

Fixpoint handle_all (k : ikcpcb) (a : acked) (segs : list Seg.t) : exec (ikcpcb * acked) :=
  match segs with [] => Done (k, a) | s :: segs => r ← handle k a s; handle_all r.1 r.2 segs end.

(** What [ikcp_input] does behind its loop. *)
Definition finish (prev_una : Z) (k : ikcpcb) (a : acked) : exec ikcpcb :=
  let k := if flag a then set_sending (ikcp_parse_fastack (sending k) (maxack a) (latest_ts a)) k else k in
  c ← (if 0 <? _itimediff (snd_una (sending k)) prev_una then grow_cwnd (mss (conf k)) (control k)
       else Done (control k));
  Done (set_control c k).

Lemma conf_push k cv cmd frg wnd ts sn una len data k' :
  input_push k cv cmd frg wnd ts sn una len data = Done k' -> conf k' = conf k.
Proof.
  unfold input_push. intros H. destruct (_ <? 0) in H; [|by simplify_eq].
  apply bind_Done_inv in H as (a & _ & H). destruct (0 <=? _) in H; [|by simplify_eq].
  apply bind_Done_inv in H as (d & _ & H). by simplify_eq/=.
Qed.

Lemma conf_handle k a s k' a' : handle k a s = Done (k', a') -> conf k' = conf k.
Proof.
  unfold handle, input_segment, input_ack. intros H. repeat case_match; simplify_eq/=; try done.
  all: apply bind_Done_inv in H as (k1 & H & E); simplify_eq; by apply conf_push in H.
Qed.

Lemma input_segment_data k a cv cmd frg wnd ts sn una data rest :
  input_segment k a cv cmd frg wnd ts sn una (Z.of_nat (length data)) (data ++ rest) =
  input_segment k a cv cmd frg wnd ts sn una (Z.of_nat (length data)) data.
Proof.
  unfold input_segment. destruct (cmd =? IKCP_CMD_ACK); [done|]. destruct (cmd =? IKCP_CMD_PUSH); [|done].
  f_equal. unfold input_push. destruct (_ <? 0); [|done]. destruct (ikcp_ack_push _ _ _); [|done..]. rewrite !bind_Done.
  destruct (0 <=? _); [|done]. f_equal. destruct (0 <? _); [|done].
  rewrite !memcpy_in; rewrite ?length_app; unfold ikcp_malloc; rewrite ?length_replicate; try lia.
  rewrite !drop_0. by rewrite !Nat2Z.id, take_app_length, firstn_all.
Qed.

(** The loop of [ikcp_input] takes from a datagram the segments in it. *)
Lemma input_loop_packet segs : forall fuel k a,
  Forall (fun s => wf_seg s /\ Seg.conv s = conv (conf k) /\ known_cmd (Seg.cmd s) = true) segs ->
  (length segs <= fuel)%nat ->
  input_loop fuel k a (packet segs) (Z.of_nat (length (packet segs))) = r ← handle_all k a segs; Done (r.1, inr r.2).
Proof.
  induction segs as [|s segs IH]; intros fuel k a Hs Hf; [by destruct fuel|].
  apply Forall_cons in Hs as [(Hw & Hc & Hcmd) Hs]. destruct Hw as [W1 W2 W3 W4 W5 W6 W7 W8 W9].
  destruct fuel as [|fuel]; [simpl in Hf; lia|]. unfold packet. cbn [map concat]. fold (packet segs).
  remember (Z.of_nat (length (wire s ++ packet segs))) as size eqn:Hsize. rewrite length_app, length_wire in Hsize.
  cbn [input_loop]. rewrite (proj2 (Z.ltb_ge size _)) by (unfold IKCP_OVERHEAD; lia).
  unfold wire, header. rewrite <- !app_assoc.
  rewrite decode32u_le, bind_Done, Hc, Z.eqb_refl by done. cbn [negb].
  rewrite !decode8u_le, bind_Done, decode8u_le, bind_Done, decode16u_le, bind_Done by done.
  do 4 (rewrite decode32u_le, bind_Done by done || (unfold is_u32; lia)).
  rewrite (proj2 (Z.ltb_ge (size - _) _)) by (unfold IKCP_OVERHEAD; lia).
  replace (s32 (Seg.len s)) with (Seg.len s) by (unfold s32; rewrite Z.mod_small; lia).
  rewrite (proj2 (Z.ltb_ge _ _)) by lia. cbn [orb]. rewrite Hcmd. cbn [negb handle_all]. unfold handle at 1.
  rewrite W8, input_segment_data, <- W8, <- Hc. fold (handle k a s).
  destruct (handle k a s) as [[k' a']| |] eqn:E; [|done..]. rewrite !bind_Done. cbn [fst snd].
  rewrite <- (IH fuel k' a'); [|by rewrite (conf_handle _ _ _ _ _ E)|simpl in Hf; lia].
  rewrite W8, Nat2Z.id, drop_app_length. f_equal. unfold IKCP_OVERHEAD. lia.
Qed.

(** Reading back what was written.  [ikcp_input] on a datagram that holds
    the encodings of some segments, one after the other, processes exactly
    these segments, with all their fields and data, in this order, and then
    updates the fast retransmission counts and the window once. *)
Theorem kcp_input_packet k segs :
  segs <> [] -> Forall (fun s => wf_seg s /\ Seg.conv s = conv (conf k) /\ known_cmd (Seg.cmd s) = true) segs ->
  Z.of_nat (length (packet segs)) < 2 ^ 31 ->
  ikcp_input k (Some (packet segs)) (Z.of_nat (length (packet segs))) =
  r ← handle_all k (mkAcked false 0 0) segs; k' ← finish (snd_una (sending k)) r.1 r.2; Done (0, k').
Proof.
  intros Hne Hs Hl. unfold ikcp_input.
  assert (length segs <= length (packet segs) /\ 24 <= length (packet segs))%nat as [Hf H24].
  { clear - Hne. unfold packet. split.
    - clear Hne. induction segs as [|s segs IH]; [done|]. cbn [map concat length]. rewrite length_app, length_wire. lia.
    - destruct segs as [|s segs]; [done|]. cbn [map concat]. rewrite length_app, length_wire. lia. }
  rewrite (proj2 (Z.ltb_ge _ _)) by (unfold s32, IKCP_OVERHEAD; rewrite Z.mod_small; lia).
  rewrite input_loop_packet by done. destruct (handle_all k (mkAcked false 0 0) segs) as [[k1 a]| |]; [|done..].
  rewrite !bind_Done. cbn [fst snd]. unfold finish. destruct (if 0 <? _ then _ else _); done.
Qed.

Lemma kcp_input_packet_witness :
  let k := mkKcp (mkConfig 17 1400 1376 32 128 100 0 100 0 5 0 0 20) (mkSender 0 0 [] [] 0 0) (mkReceiver 0 [] [] 0 0)
             (mkAcks [] 0 0) (mkCongestion 128 2 0 0 0 0 200 0 0 0) (mkTimer 0 100 0 0 0) [] in
  let segs := [Seg.mk 17 IKCP_CMD_WINS 0 31 0 0 0 0 0 0 0 0 []; Seg.mk 17 IKCP_CMD_PUSH 1 32 5 0 0 2 0 0 0 0 [7; 8]] in
  ikcp_input k (Some (packet segs)) (Z.of_nat (length (packet segs))) =
  r ← handle_all k (mkAcked false 0 0) segs; k' ← finish (snd_una (sending k)) r.1 r.2; Done (0, k').
Proof.
  intros k segs. apply (kcp_input_packet k segs); [done| |done].
  repeat constructor; cbn; done.
Defined.

End KcpWire.
