(* ===== verification/KcpRecv.v ===== *)
(** * KCP: the receiving side

    The buffer of segments that arrive ahead of a gap is sorted and free of
    duplicates; segments leave it for the queue in the order of their numbers,
    whatever order they arrive in.  Sequence numbers are compared modulo 2^32
    by their distance from [rcv_nxt]. *)

From Stdlib Require Import Sorting.Sorted.
From S2P Require Import Prelude Kcp.

#[local] Set Warnings "-level-tolerance".

Module KcpRecv.
Import Kcp.

(** ** Distances between sequence numbers *)

(** How far [a] is ahead of [b]. *)
Definition dist (a b : Z) : Z := u32 (a - b).

Lemma dist_range a b : 0 <= dist a b < 2 ^ 32.
Proof. unfold dist, u32. lia_div. Qed.

(** Numbers at most 2^31 ahead of a base compare like their distances from it. *)
Lemma itimediff_dist a b base :
  dist a base < 2 ^ 31 -> dist b base < 2 ^ 31 -> _itimediff a b = dist a base - dist b base.
Proof.
  unfold dist, _itimediff, s32, u32. intros Ha Hb.
  change (2 ^ 32) with 4294967296 in *. change (2 ^ 31) with 2147483648 in *. lia_div.
Qed.

Lemma itimediff_nxt a base : 
  (_itimediff a base <? 0) = negb (dist a base <? 2 ^ 31).
Proof.
  unfold dist, _itimediff, s32, u32. change (2 ^ 32) with 4294967296. change (2 ^ 31) with 2147483648.
  apply Bool.eq_iff_eq_true. rewrite negb_true_iff, Z.ltb_ge, Z.ltb_lt. lia_div.
Qed.

(** The window test of [ikcp_input] and [ikcp_parse_data]. *)
Lemma in_window a nxt w :
  0 <= w < 2 ^ 31 ->
  (0 <=? _itimediff a (u32 (nxt + w))) || (_itimediff a nxt <? 0) = negb (dist a nxt <? w).
Proof.
  intros Hw. rewrite itimediff_nxt. unfold dist, _itimediff, s32, u32.
  change (2 ^ 32) with 4294967296. change (2 ^ 31) with 2147483648 in *.
  apply Bool.eq_iff_eq_true. rewrite orb_true_iff, !negb_true_iff, !Z.ltb_ge, Z.leb_le. lia_div.
Qed.

Lemma dist_self a : dist a a = 0.
Proof. unfold dist. by rewrite Z.sub_diag. Qed.

Lemma dist_zero a b : is_u32 a -> is_u32 b -> dist a b = 0 -> a = b.
Proof. unfold dist, is_u32, u32. change (2 ^ 32) with 4294967296. intros. lia_div. Qed.

Lemma dist_inj a b base : is_u32 a -> is_u32 b -> dist a base = dist b base -> a = b.
Proof. unfold dist, is_u32, u32. change (2 ^ 32) with 4294967296. intros. lia_div. Qed.

Lemma dist_succ a b : 0 < dist a b -> dist a (u32 (b + 1)) = dist a b - 1.
Proof. unfold dist, u32. change (2 ^ 32) with 4294967296. intros. lia_div. Qed.

Lemma dist_add n i : 0 <= i < 2 ^ 32 -> dist (u32 (n + i)) n = i.
Proof. unfold dist, u32. change (2 ^ 32) with 4294967296. intros. lia_div. Qed.

Lemma u32_add_add n a b : u32 (u32 (n + a) + b) = u32 (n + (a + b)).
Proof. unfold u32. rewrite Z.add_mod_idemp_l by lia. f_equal. lia. Qed.

(** ** The invariant *)

(** Ahead of [base], one before the other. *)
Definition ahead (base : Z) (a b : Seg.t) : Prop := dist (Seg.sn a) base < dist (Seg.sn b) base.
Definition near (base : Z) (s : Seg.t) : Prop := is_u32 (Seg.sn s) /\ dist (Seg.sn s) base < 2 ^ 31.

(** The data are as long as the header says. *)
Definition whole (s : Seg.t) : Prop := Seg.len s = Z.of_nat (length (Seg.data s)).

Record rcv_wf (r : receiver) : Prop := {
  rw_nxt : is_u32 (rcv_nxt r);
  rw_que : nrcv_que r = Z.of_nat (length (rcv_queue r));
  rw_quelen : Z.of_nat (length (rcv_queue r)) < 2 ^ 31;
  rw_buf : nrcv_buf r = Z.of_nat (length (rcv_buf r));
  rw_sorted : StronglySorted (ahead (rcv_nxt r)) (rcv_buf r);
  rw_near : Forall (near (rcv_nxt r)) (rcv_buf r);
  rw_queue_whole : Forall whole (rcv_queue r);
  rw_buf_whole : Forall whole (rcv_buf r)
}.

(** Increasing distances are few. *)
Lemma sorted_length base lo l :
  StronglySorted (ahead base) l -> Forall (fun s => lo <= dist (Seg.sn s) base < 2 ^ 31) l -> 0 <= lo <= 2 ^ 31 ->
  Z.of_nat (length l) <= 2 ^ 31 - lo.
Proof.
  intros Hs. revert lo. induction Hs as [|s l Hs IH Hf]; intros lo Hl Hlo; [cbn; lia|].
  apply Forall_cons in Hl as [Hs1 Hl]. cbn [length]. rewrite Nat2Z.inj_succ.
  enough (Z.of_nat (length l) <= 2 ^ 31 - (dist (Seg.sn s) base + 1)) by lia.
  apply IH; [|lia]. rewrite Forall_forall in *. intros x Hx. specialize (Hf x Hx). specialize (Hl x Hx).
  unfold ahead in Hf. simpl in *. lia.
Qed.

Lemma rcv_wf_buf_length r : rcv_wf r -> Z.of_nat (length (rcv_buf r)) <= 2 ^ 31.
Proof.
  intros [_ _ _ _ Hs Hn _ _]. rewrite <- (Z.sub_0_r (2 ^ 31)). apply (sorted_length (rcv_nxt r)); [done| |lia].
  apply (Forall_impl _ _ _ Hn). intros s [_ H]. pose proof (dist_range (Seg.sn s) (rcv_nxt r)). lia.
Qed.

(** ** Moving segments to the queue *)

(** The receiver behind one round of the loop. *)
Definition moved (r : receiver) (s : Seg.t) (buf : list Seg.t) : receiver :=
  mkReceiver (u32 (rcv_nxt r + 1)) (rcv_queue r ++ [s]) buf (u32 (nrcv_que r + 1)) (u32 (nrcv_buf r - 1)).

Lemma moved_wf r s buf w :
  rcv_wf r -> rcv_buf r = s :: buf -> Seg.sn s = rcv_nxt r -> nrcv_que r < w -> w < 2 ^ 31 -> rcv_wf (moved r s buf).
Proof.
  intros Hr Hb Hs Hq Hw. pose proof (rcv_wf_buf_length r Hr) as Hl. destruct Hr as [H1 H2 H3 H4 H5 H6 H7 H8].
  rewrite Hb in *. apply StronglySorted_inv in H5 as [H5 H5s]. apply Forall_cons in H6 as [_ H6].
  apply Forall_cons in H8 as [H8 H8s].
  assert (Forall (fun t => 0 < dist (Seg.sn t) (rcv_nxt r)) buf) as Hpos.
  { apply (Forall_impl _ _ _ H5s). intros t Ht. unfold ahead in Ht. by rewrite Hs, dist_self in Ht. }
  split; cbn [moved rcv_nxt rcv_queue rcv_buf nrcv_que nrcv_buf].
  - apply u32_range.
  - rewrite H2, length_app, u32_small; [cbn; lia|]. unfold is_u32. lia.
  - rewrite length_app. cbn. lia.
  - rewrite H4. cbn [length] in *. rewrite u32_small; unfold is_u32; lia.
  - clear Hl Hb H4 H5s H8s. induction H5 as [|t buf H5 IH Ht]; constructor.
    + apply IH; by eapply Forall_inv_tail.
    + apply Forall_cons in Hpos as [Hp Hpos]. rewrite Forall_forall in *. intros x Hx. unfold ahead.
      rewrite !dist_succ by (done || by apply Hpos). specialize (Ht x Hx). unfold ahead in Ht. lia.
  - rewrite Forall_forall in *. intros x Hx. destruct (H6 x Hx) as [? ?]. split; [done|].
    rewrite dist_succ by by apply Hpos. lia.
  - apply Forall_app. by repeat constructor.
  - done.
Qed.

(** The loop moves the first [n] segments of the buffer: they are the next
    ones, and the one behind them is not, or the queue is full. *)
Lemma move_spec w buf : forall r,
  rcv_wf r -> rcv_buf r = buf -> 0 <= w < 2 ^ 31 ->
  exists n, (n <= length buf)%nat /\
    (forall i s, (i < n)%nat -> buf !! i = Some s -> Seg.sn s = u32 (rcv_nxt r + Z.of_nat i)) /\
    let r' := move_from w buf r in
    rcv_nxt r' = u32 (rcv_nxt r + Z.of_nat n) /\ rcv_queue r' = rcv_queue r ++ take n buf /\ rcv_buf r' = drop n buf /\
    rcv_wf r' /\
    ((forall s, head (drop n buf) = Some s -> Seg.sn s <> rcv_nxt r') \/ w <= Z.of_nat (length (rcv_queue r'))).
Proof.
  induction buf as [|s buf IH]; intros r Hr Hb Hw; cbn [move_from].
  - exists 0%nat. split; [done|]. split; [intros i s Hi; lia|]. cbn.
    rewrite app_nil_r, Z.add_0_r, u32_small by apply Hr. split; [done|]. split; [done|]. split; [done|]. split; [done|]. by left.
  - destruct ((Seg.sn s =? rcv_nxt r) && (nrcv_que r <? w)) eqn:E.
    + apply andb_true_iff in E as [E1%Z.eqb_eq E2%Z.ltb_lt].
      destruct (IH (moved r s buf)) as (n & Hn & Hi & G1 & G2 & G3 & G4 & G5);
        [by eapply moved_wf; try done; lia|done|done|].
      exists (S n). cbn [length take drop]. split; [lia|]. split.
      { intros [|i] t Hlt Ht; [injection Ht as <-; rewrite E1, Z.add_0_r; symmetry; by apply u32_small, Hr|].
        rewrite (Hi i t) by (done || lia). cbn. rewrite u32_add_add. f_equal. lia. }
      fold (moved r s buf). cbv zeta. rewrite G1, G2, G3 in *. cbn [moved rcv_nxt rcv_queue] in *.
      rewrite u32_add_add, <- app_assoc in *. replace (1 + Z.of_nat n) with (Z.of_nat (S n)) in * by lia. done.
    + exists 0%nat. split; [lia|]. split; [intros i t Hi; lia|]. cbn [take drop].
      rewrite app_nil_r, Z.add_0_r, u32_small by apply Hr. split; [done|]. split; [done|]. split; [done|]. split; [done|].
      apply andb_false_iff in E as [E%Z.eqb_neq|E%Z.ltb_ge]; [left|right].
      * intros t [= <-]. done.
      * by rewrite (rw_que r Hr) in E.
Qed.

(** ** Inserting a segment *)

(** On the reversed buffer. *)
Definition behind (base : Z) (a b : Seg.t) : Prop := ahead base b a.

Lemma insert_back_spec base new l :
  StronglySorted (behind base) l -> Forall (near base) l -> near base new ->
  match insert_back new l with
  | None => exists s, s ∈ l /\ Seg.sn s = Seg.sn new
  | Some l' => StronglySorted (behind base) l' /\ l' ≡ₚ new :: l
  end.
Proof.
  intros Hs Hn [Hu Hd]. induction Hs as [|s l Hs IH Hf]; cbn [insert_back].
  - split; [by repeat constructor|done].
  - apply Forall_cons in Hn as [[Hsu Hsd] Hn]. destruct (Z.eqb_spec (Seg.sn s) (Seg.sn new)) as [E|E].
    { exists s. split; [by left|done]. }
    rewrite (itimediff_dist _ _ base) by done.
    assert (dist (Seg.sn s) base <> dist (Seg.sn new) base) as Hne by (intros H; by apply dist_inj in H).
    destruct (Z.ltb_spec 0 (dist (Seg.sn new) base - dist (Seg.sn s) base)) as [Hlt|Hge].
    + split; [|done]. constructor; [by constructor|]. constructor; [unfold behind, ahead; lia|].
      apply (Forall_impl _ _ _ Hf). unfold behind, ahead. intros x Hx. lia.
    + specialize (IH Hn). destruct (insert_back new l) as [l'|].
      * destruct IH as [IH Hp]. split; [|by rewrite Hp, Permutation_swap]. constructor; [done|].
        rewrite Hp. constructor; [unfold behind, ahead; lia|done].
      * destruct IH as (t & Ht & Et). exists t. split; [by right|done].
Qed.

Lemma sorted_snoc {A} (R : A -> A -> Prop) l x :
  StronglySorted R l -> Forall (fun y => R y x) l -> StronglySorted R (l ++ [x]).
Proof.
  induction 1 as [|y l Hs IH Hf]; intros Hx; cbn [app]; [by repeat constructor|].
  apply Forall_cons in Hx as [Hyx Hx]. constructor; [by apply IH|]. apply Forall_app. by repeat constructor.
Qed.

Lemma sorted_rev {A} (R S : A -> A -> Prop) l :
  (forall a b, R a b -> S b a) -> StronglySorted R l -> StronglySorted S (rev l).
Proof.
  intros HRS. induction 1 as [|x l Hs IH Hf]; cbn [rev]; [constructor|]. apply sorted_snoc; [done|].
  apply Forall_rev, (Forall_impl _ _ _ Hf). intros y Hy. by apply HRS.
Qed.

Lemma sorted_ahead base l : StronglySorted (ahead base) l -> StronglySorted (behind base) (rev l).
Proof. apply sorted_rev. intros a b H. exact H. Qed.

Lemma sorted_behind base l : StronglySorted (behind base) l -> StronglySorted (ahead base) (rev l).
Proof. apply sorted_rev. intros a b H. exact H. Qed.

(** What [ikcp_parse_data] inserts, before the segments are moved. *)
Definition inserted (r : receiver) (new : Seg.t) : receiver :=
  match insert_back new (rev (rcv_buf r)) with
  | Some l => mkReceiver (rcv_nxt r) (rcv_queue r) (rev l) (nrcv_que r) (u32 (nrcv_buf r + 1))
  | None => r
  end.

Lemma inserted_spec r new :
  rcv_wf r -> near (rcv_nxt r) new -> whole new ->
  rcv_wf (inserted r new) /\ rcv_nxt (inserted r new) = rcv_nxt r /\ rcv_queue (inserted r new) = rcv_queue r /\
  ((rcv_buf (inserted r new) = rcv_buf r /\ exists s, s ∈ rcv_buf r /\ Seg.sn s = Seg.sn new) \/
   rcv_buf (inserted r new) ≡ₚ new :: rcv_buf r).
Proof.
  intros Hr Hnew Hwh. pose proof (rcv_wf_buf_length r Hr) as Hl. pose proof Hr as [H1 H2 H3 H4 H5 H6 H7 H8].
  pose proof (insert_back_spec (rcv_nxt r) new (rev (rcv_buf r))) as Hi.
  unfold inserted. destruct (insert_back _ _) as [l|]; cbn [rcv_nxt rcv_queue rcv_buf].
  - destruct Hi as [Hs Hp]; [by apply sorted_ahead|by apply Forall_rev|done|].
    assert (rev l ≡ₚ new :: rcv_buf r) as Hp' by by rewrite <- (Permutation_rev l), Hp, <- Permutation_rev.
    split; [|by auto]. split; cbn [rcv_nxt rcv_queue rcv_buf nrcv_que nrcv_buf]; try done.
    + rewrite Hp'. cbn [length]. rewrite H4, u32_small; unfold is_u32; lia.
    + by apply sorted_behind.
    + rewrite Hp'. by constructor.
    + rewrite Hp'. by constructor.
  - destruct Hi as (s & Hs & E); [by apply sorted_ahead|by apply Forall_rev|done|].
    split; [done|]. split; [done|]. split; [done|]. left. split; [done|]. exists s. split; [|done].
    by rewrite (Permutation_rev (rcv_buf r)).
Qed.

Lemma parse_data_eq w r new :
  0 <= w < 2 ^ 31 ->
  ikcp_parse_data w r new = if dist (Seg.sn new) (rcv_nxt r) <? w then move_available w (inserted r new) else r.
Proof. intros Hw. unfold ikcp_parse_data. rewrite in_window by done. by destruct (_ <? w). Qed.

Lemma parse_data_wf w r new :
  rcv_wf r -> 0 <= w < 2 ^ 31 -> is_u32 (Seg.sn new) -> whole new -> rcv_wf (ikcp_parse_data w r new).
Proof.
  intros Hr Hw Hu Hwh. rewrite parse_data_eq by done. destruct (Z.ltb_spec (dist (Seg.sn new) (rcv_nxt r)) w); [|done].
  destruct (inserted_spec r new Hr) as (Hi & _); [by split; [|lia]|done|].
  by destruct (move_spec w _ _ Hi eq_refl Hw) as (n & _ & _ & _ & _ & _ & Hwf & _).
Qed.

(** ** Reassembly *)

(** The same segment, up to what a retransmission changes. *)
Definition same (a b : Seg.t) : Prop :=
  Seg.sn a = Seg.sn b /\ Seg.frg a = Seg.frg b /\ Seg.len a = Seg.len b /\ Seg.data a = Seg.data b.

Section reassembly.
Context (w : Z) (Hw : 0 <= w < 2 ^ 31).
(** The number of the first segment to come, the queue so far and the segments
    to come, for which the queue has room. *)
Context (N : Z) (q0 batch : list Seg.t).
Context (Hroom : Z.of_nat (length q0 + length batch) <= w).
Context (Hbatch : forall i s, batch !! i = Some s -> Seg.sn s = u32 (N + Z.of_nat i)).

(** [s] is the segment number [i] of the batch. *)
Definition nth_is (s : Seg.t) (i : nat) : Prop := exists t, batch !! i = Some t /\ same s t.

Lemma nth_is_lt s i : nth_is s i -> (i < length batch)%nat.
Proof. intros (t & Ht & _). by apply lookup_lt_Some in Ht. Qed.

Lemma nth_is_sn s i : nth_is s i -> Seg.sn s = u32 (N + Z.of_nat i).
Proof. intros (t & Ht & [E _]). rewrite E. by apply Hbatch. Qed.

Lemma nth_is_dist s i j :
  nth_is s i -> (j <= length batch)%nat ->
  dist (Seg.sn s) (u32 (N + Z.of_nat j)) = if (j <=? i)%nat then Z.of_nat i - Z.of_nat j else 2 ^ 32 + Z.of_nat i - Z.of_nat j.
Proof.
  intros H Hj. pose proof (nth_is_lt _ _ H). rewrite (nth_is_sn _ _ H). unfold dist, u32.
  change (2 ^ 32) with 4294967296. change (2 ^ 31) with 2147483648 in *. destruct (Nat.leb_spec j i); lia_div.
Qed.

Lemma nth_is_inj s t i j : nth_is s i -> nth_is t j -> Seg.sn s = Seg.sn t -> i = j.
Proof.
  intros Hi Hj E. pose proof (nth_is_lt _ _ Hi). pose proof (nth_is_lt _ _ Hj).
  pose proof (nth_is_dist s i 0 Hi ltac:(lia)) as D1. pose proof (nth_is_dist t j 0 Hj ltac:(lia)) as D2.
  rewrite E in D1. simpl in *. lia.
Qed.

(** [j] segments of the batch are in the queue; the segments in the buffer
    are further ahead, and everything in [seen] is in one of the two. *)
Record progress (seen : list Seg.t) (r : receiver) (j : nat) (q : list Seg.t) : Prop := {
  pr_wf : rcv_wf r;
  pr_le : (j <= length batch)%nat;
  pr_nxt : rcv_nxt r = u32 (N + Z.of_nat j);
  pr_queue : rcv_queue r = q0 ++ q;
  pr_same : Forall2 same q (take j batch);
  pr_buf : forall s, s ∈ rcv_buf r -> exists i, (j < i)%nat /\ nth_is s i;
  pr_seen : forall a, a ∈ seen -> exists i, nth_is a i /\ ((i < j)%nat \/ exists s, s ∈ rcv_buf r /\ Seg.sn s = Seg.sn a)
}.

(** The segments that are moved continue the batch. *)
Lemma batch_prefix j n buf :
  (j <= length batch)%nat -> (n <= length buf)%nat -> Z.of_nat (length buf) <= 2 ^ 31 -> (forall s, s ∈ buf -> exists i, nth_is s i) ->
  (forall i s, (i < n)%nat -> buf !! i = Some s -> Seg.sn s = u32 (u32 (N + Z.of_nat j) + Z.of_nat i)) ->
  (forall i s, (i < n)%nat -> buf !! i = Some s -> nth_is s (j + i)) /\ (j + n <= length batch)%nat.
Proof.
  intros Hj Hn Hl Hin Hsn.
  assert (forall i s, (i < n)%nat -> buf !! i = Some s -> nth_is s (j + i)) as H.
  { intros i s Hi Hs. destruct (Hin s) as [i' Hi']; [by eapply list_elem_of_lookup_2|].
    specialize (Hsn i s Hi Hs). pose proof (nth_is_lt _ _ Hi') as Hlt.
    enough (i' = (j + i)%nat) as <- by done.
    rewrite (nth_is_sn _ _ Hi'), u32_add_add in Hsn. unfold u32 in Hsn.
    change (2 ^ 32) with 4294967296 in *. change (2 ^ 31) with 2147483648 in *. lia_div. }
  split; [done|]. destruct n as [|n]; [lia|].
  destruct (lookup_lt_is_Some_2 buf n) as [s Hs]; [lia|]. pose proof (nth_is_lt _ _ (H n s ltac:(lia) Hs)). lia.
Qed.

Lemma batch_same j n buf :
  (n <= length buf)%nat -> (j + n <= length batch)%nat ->
  (forall i s, (i < n)%nat -> buf !! i = Some s -> nth_is s (j + i)) ->
  Forall2 same (take n buf) (take n (drop j batch)).
Proof.
  intros Hn Hj H. apply Forall2_same_length_lookup_2; [rewrite !length_take, length_drop; lia|].
  intros i s t Hs Ht. apply lookup_take_Some in Hs as [Hs Hi]. apply lookup_take_Some in Ht as [Ht _].
  rewrite lookup_drop in Ht. destruct (H i s Hi Hs) as (t' & Ht' & Hsame). by simplify_eq.
Qed.

(** What is left in the buffer is further ahead. *)
Lemma rest_ahead r j :
  rcv_wf r -> (j <= length batch)%nat -> rcv_nxt r = u32 (N + Z.of_nat j) ->
  (forall s, s ∈ rcv_buf r -> exists i, nth_is s i) ->
  (forall s, head (rcv_buf r) = Some s -> Seg.sn s <> rcv_nxt r) \/ w <= Z.of_nat (length q0 + j) ->
  forall s, s ∈ rcv_buf r -> exists i, (j < i)%nat /\ nth_is s i.
Proof.
  intros [_ _ _ _ Hs Hn _ _] Hj Hnxt Hin Hstop s Hin_s. destruct (Hin s Hin_s) as [i Hi]. exists i. split; [|done].
  pose proof (nth_is_lt _ _ Hi) as Hlt.
  rewrite Forall_forall in Hn. destruct (Hn s Hin_s) as [_ Hd]. pose proof (nth_is_dist s i j Hi Hj) as D.
  rewrite Hnxt in *. revert D. destruct (Nat.leb_spec j i) as [Hle|Hgt]; intros D; [|change (2 ^ 32) with (2 ^ 31 + 2 ^ 31) in D; lia].
  destruct Hstop as [Hhead|Hfull]; [|lia].
  destruct (decide (i = j)) as [->|]; [|lia]. exfalso.
  destruct (rcv_buf r) as [|h t]; [by apply not_elem_of_nil in Hin_s|].
  apply StronglySorted_inv in Hs as [_ Hf]. apply elem_of_cons in Hin_s as [->|Ht].
  - by apply (Hhead h eq_refl), nth_is_sn.
  - rewrite Forall_forall in Hf. specialize (Hf s Ht). unfold ahead in Hf.
    pose proof (dist_range (Seg.sn h) (u32 (N + Z.of_nat j))). lia.
Qed.

Lemma progress_step seen r j q a :
  progress seen r j q -> (exists i, nth_is a i) -> whole a ->
  exists j' q', progress (a :: seen) (ikcp_parse_data w r a) j' q'.
Proof.
  intros [P1 P2 P3 P4 P5 P6 P7] [i Hi] Hwh. pose proof (nth_is_lt _ _ Hi) as Hlt.
  pose proof (nth_is_dist a i j Hi P2) as D. rewrite <- P3 in D. rewrite parse_data_eq by done.
  revert D. destruct (Nat.leb_spec j i) as [Hle|Hgt]; intros D.
  2: { exists j, q. rewrite (proj2 (Z.ltb_ge _ _)) by (change (2 ^ 32) with (2 ^ 31 + 2 ^ 31) in D; lia).
       split; try done. intros b [->|Hb]%elem_of_cons; [|by apply P7]. exists i. split; [done|]. by left. }
  rewrite (proj2 (Z.ltb_lt _ _)) by lia.
  assert (near (rcv_nxt r) a) as Hnear by (split; [rewrite (nth_is_sn _ _ Hi); apply u32_range|lia]).
  destruct (inserted_spec r a P1 Hnear Hwh) as (I1 & I2 & I3 & I4).
  assert ((forall s, s ∈ rcv_buf (inserted r a) -> s ∈ rcv_buf r \/ s = a) /\
    (forall s, s ∈ rcv_buf r -> s ∈ rcv_buf (inserted r a)) /\
    exists s, s ∈ rcv_buf (inserted r a) /\ Seg.sn s = Seg.sn a) as (Iin & Isub & Inew).
  { destruct I4 as [[E Hx]|E]; [rewrite E; by auto|]. setoid_rewrite E. setoid_rewrite elem_of_cons.
    split; [tauto|]. split; [tauto|]. exists a. tauto. }
  assert (forall s, s ∈ rcv_buf (inserted r a) -> exists i, nth_is s i) as Inth.
  { intros s [H| ->]%Iin; [|by exists i]. destruct (P6 s H) as (k & _ & Hk). by exists k. }
  destruct (move_spec w _ _ I1 eq_refl Hw) as (n & Hn & Hsn & G1 & G2 & G3 & G4 & G5).
  fold (move_available w (inserted r a)) in *. set (r' := move_available w (inserted r a)) in *.
  rewrite I2, P3 in Hsn, G1. destruct (batch_prefix j n _ P2 Hn (rcv_wf_buf_length _ I1) Inth Hsn) as [Hmv Hjn].
  rewrite u32_add_add, <- Nat2Z.inj_add in G1. rewrite I3, P4, <- app_assoc in G2.
  set (buf := rcv_buf (inserted r a)) in *. exists (j + n)%nat, (q ++ take n buf). split; try done.
  - rewrite <- take_take_drop. apply Forall2_app; [done|]. by apply batch_same.
  - apply rest_ahead; try done.
    + intros s Hs. apply Inth. rewrite G3 in Hs. rewrite <- (take_drop n buf). apply elem_of_app. by right.
    + destruct G5 as [G5|G5]; [left; by rewrite G3|right].
      apply Forall2_length in P5. rewrite length_take in P5. rewrite G2, !length_app, length_take in G5. lia.
  - assert (forall b, (exists s, s ∈ buf /\ Seg.sn s = Seg.sn b) -> forall i, nth_is b i ->
      (i < j + n)%nat \/ exists s, s ∈ rcv_buf r' /\ Seg.sn s = Seg.sn b) as Hcase.
    { intros b (s & Hs & E) ib Hib. rewrite <- (take_drop n buf), elem_of_app in Hs.
      destruct Hs as [Hs|Hs]; [left|right; exists s; by rewrite G3].
      apply list_elem_of_lookup in Hs as [k Hk]. apply lookup_take_Some in Hk as [Hk Hkn].
      pose proof (nth_is_inj _ _ _ _ (Hmv k s Hkn Hk) Hib E). lia. }
    intros b [->|Hb]%elem_of_cons; [by exists i; auto|].
    destruct (P7 b Hb) as (ib & Hib & Hor). exists ib. split; [done|]. destruct Hor as [Hor|(s & Hs & E)]; [left; lia|].
    apply Hcase; [|done]. exists s. by auto.
Qed.

Lemma progress_all arrivals : forall seen r j q,
  progress seen r j q -> (forall a, a ∈ arrivals -> exists i, nth_is a i) -> Forall whole arrivals ->
  exists j' q', progress (rev arrivals ++ seen) (foldl (ikcp_parse_data w) r arrivals) j' q'.
Proof.
  induction arrivals as [|a arrivals IH]; intros seen r j q Hp Ha Hwh; [by exists j, q|].
  apply Forall_cons in Hwh as [Hwa Hwh].
  destruct (progress_step seen r j q a Hp) as (j1 & q1 & Hp1); [apply Ha; by left|done|].
  destruct (IH (a :: seen) _ j1 q1 Hp1) as (j2 & q2 & Hp2); [intros b Hb; apply Ha; by right|done|].
  exists j2, q2. cbn [rev foldl]. by rewrite <- app_assoc.
Qed.

End reassembly.

(** ** Properties *)

(** C2: segments may arrive in any order and any number of times: once every
    segment of a batch has arrived, and the receive queue has room for them,
    the queue has been extended with exactly the segments of the batch, in
    order and once each, the buffer is empty, and [rcv_nxt] is behind the
    batch, also where the sequence numbers wrap around. *)
Theorem kcp_reassembly w r batch arrivals :
  0 <= w < 2 ^ 31 -> rcv_wf r -> rcv_buf r = [] -> Z.of_nat (length (rcv_queue r) + length batch) <= w ->
  (forall i s, batch !! i = Some s -> Seg.sn s = u32 (rcv_nxt r + Z.of_nat i)) ->
  Forall whole batch -> (forall a, a ∈ arrivals -> exists s, s ∈ batch /\ same a s) ->
  (forall s, s ∈ batch -> exists a, a ∈ arrivals /\ same a s) ->
  let r' := foldl (ikcp_parse_data w) r arrivals in
  rcv_nxt r' = u32 (rcv_nxt r + Z.of_nat (length batch)) /\ rcv_buf r' = [] /\
  exists q, rcv_queue r' = rcv_queue r ++ q /\ Forall2 same q batch.
Proof.
  intros Hw Hr Hbuf Hroom Hsn Hwh Hin Hall r'.
  assert (progress (rcv_nxt r) (rcv_queue r) batch [] r 0 []) as P0.
  { split; try done; [lia|by rewrite Z.add_0_r, u32_small by apply Hr|by rewrite app_nil_r|..].
    - rewrite Hbuf. intros s Hs. by apply not_elem_of_nil in Hs.
    - intros s Hs. by apply not_elem_of_nil in Hs. }
  destruct (progress_all w Hw (rcv_nxt r) (rcv_queue r) batch Hroom Hsn arrivals _ _ _ _ P0) as (j & q & [Q1 Q2 Q3 Q4 Q5 Q6 Q7]).
  { intros a Ha. destruct (Hin a Ha) as (s & Hs & E). apply list_elem_of_lookup in Hs as [i Hi]. by exists i, s. }
  { apply Forall_forall. intros a Ha. destruct (Hin a Ha) as (s & Hs & (_ & _ & E1 & E2)). unfold whole.
    rewrite E1, E2. rewrite Forall_forall in Hwh. by apply Hwh. }
  fold r' in Q1, Q3, Q4, Q6, Q7. assert (j = length batch) as ->.
  { destruct (decide (j = length batch)) as [|Hne]; [done|]. exfalso.
    destruct (lookup_lt_is_Some_2 batch j) as [t Ht]; [lia|].
    destruct (Hall t) as (a & Ha & Eat); [by eapply list_elem_of_lookup_2|].
    destruct (Q7 a) as (i & Hi & Hor); [by rewrite app_nil_r, <- (Permutation_rev arrivals)|].
    assert (nth_is batch a j) as Hj by by exists t.
    pose proof (nth_is_inj w Hw (rcv_nxt r) (rcv_queue r) batch Hroom Hsn _ _ _ _ Hi Hj eq_refl) as ->.
    destruct Hor as [Hor|(s & Hs & E)]; [lia|]. destruct (Q6 s Hs) as (i & Hlt & Hi').
    pose proof (nth_is_inj w Hw (rcv_nxt r) (rcv_queue r) batch Hroom Hsn _ _ _ _ Hi' Hj E). lia. }
  split; [done|]. split.
  - destruct (rcv_buf r') as [|s buf]; [done|]. destruct (Q6 s) as (i & Hlt & Hi); [by left|].
    apply nth_is_lt in Hi. lia.
  - exists q. split; [done|]. by rewrite firstn_all in Q5.
Qed.

(** Three segments around the end of the number range, out of order and with
    duplicates. *)
Lemma kcp_reassembly_witness :
  let r := mkReceiver (2 ^ 32 - 1) [] [] 0 0 in
  let seg ts sn x := Seg.mk 7 IKCP_CMD_PUSH 0 32 ts sn 0 1 0 0 0 0 [x] in
  let batch := [seg 10 (2 ^ 32 - 1) 97; seg 11 0 98; seg 12 1 99] in
  let r' := foldl (ikcp_parse_data 128) r [seg 12 1 99; seg 11 0 98; seg 40 1 99; seg 41 (2 ^ 32 - 1) 97; seg 42 0 98] in
  rcv_nxt r' = u32 (rcv_nxt r + Z.of_nat (length batch)) /\ rcv_buf r' = [] /\
  exists q, rcv_queue r' = rcv_queue r ++ q /\ Forall2 same q batch.
Proof.
  intros r seg batch. apply (kcp_reassembly 128 r batch); try done.
  - split; cbn; try done; constructor.
  - intros [|[|[|i]]] s Hs; cbn in Hs; simplify_eq; done.
  - by repeat constructor.
  - intros a Ha. repeat (apply elem_of_cons in Ha as [->|Ha]); [| | | | |by apply not_elem_of_nil in Ha];
      first [exists (seg 10 (2 ^ 32 - 1) 97); split; [by vm_compute; repeat constructor|done]
            |exists (seg 11 0 98); split; [by vm_compute; repeat constructor|done]
            |exists (seg 12 1 99); split; [by vm_compute; repeat constructor|done]].
  - intros s Hs. repeat (apply elem_of_cons in Hs as [->|Hs]); [| | |by apply not_elem_of_nil in Hs];
      [exists (seg 41 (2 ^ 32 - 1) 97)|exists (seg 11 0 98)|exists (seg 12 1 99)];
      (split; [by vm_compute; repeat constructor|done]).
Defined.

End KcpRecv.
