(* ===== verification/KcpAcks.v ===== *)
(** * KCP: the list of acknowledgements to send

    The growing array of [ikcp_ack_push] holds the pairs pushed since the last
    [ikcp_flush], in order. *)

From S2P Require Import Prelude Kcp.

#[local] Set Warnings "-level-tolerance".

Module KcpAcks.
Import Kcp.

Definition flat (ps : list (Z * Z)) : list Z := concat (map (fun p => [p.1; p.2]) ps).

(** The pairs [ps] are at the front of the array. *)
Record ack_rep (a : ack_list) (ps : list (Z * Z)) : Prop := {
  ar_list : take (2 * length ps) (acklist a) = flat ps;
  ar_count : ackcount a = Z.of_nat (length ps);
  ar_block : length (acklist a) = (2 * Z.to_nat (ackblock a))%nat;
  ar_u32 : is_u32 (ackblock a)
}.

Lemma length_flat ps : length (flat ps) = (2 * length ps)%nat.
Proof. unfold flat. induction ps as [|p ps IH]; [done|]. cbn in *. rewrite IH. lia. Qed.

Lemma flat_lookup ps i p :
  ps !! i = Some p -> flat ps !! (i * 2)%nat = Some p.1 /\ flat ps !! (i * 2 + 1)%nat = Some p.2.
Proof.
  revert i. induction ps as [|q ps IH]; intros [|i] H; cbn in H; simplify_eq; [done|]. by apply IH.
Qed.

Lemma ack_rep_le a ps : ack_rep a ps -> (2 * length ps <= length (acklist a))%nat.
Proof. intros [H _ _ _]. apply (f_equal length) in H. rewrite length_take, length_flat in H. lia. Qed.

Lemma ack_get_spec a ps i p : ack_rep a ps -> ps !! i = Some p -> ikcp_ack_get a i = Done p.
Proof.
  intros Hr Hp. pose proof (ack_rep_le a ps Hr) as Hle. destruct Hr as [H _ _ _].
  pose proof (lookup_lt_Some _ _ _ Hp) as Hi. destruct (flat_lookup ps i p Hp) as [H1 H2].
  rewrite <- H, lookup_take_lt in H1, H2 by lia.
  unfold ikcp_ack_get. rewrite (load_Done _ _ _ H1), bind_Done, (load_Done _ _ _ H2), bind_Done. by destruct p.
Qed.

Lemma grow_block_from newsize fuel : forall j,
  newsize <= 2 ^ 31 -> 0 <= j <= 31 -> 31 - j <= Z.of_nat fuel ->
  exists nb, while fuel (fun nb => nb <? newsize) (fun nb => Done (u32 (Z.shiftl nb 1))) (2 ^ j) = Done nb /\
    newsize <= nb <= 2 ^ 31.
Proof.
  induction fuel as [|fuel IH]; intros j Hn Hj Hf.
  - replace j with 31 by lia. cbn [while]. rewrite (proj2 (Z.ltb_ge _ _)) by lia. by exists (2 ^ 31).
  - cbn [while]. destruct (Z.ltb_spec (2 ^ j) newsize) as [H|H].
    + assert (j <> 31) by (intros ->; lia). rewrite bind_Done.
      replace (u32 (Z.shiftl (2 ^ j) 1)) with (2 ^ (j + 1)); [apply IH; lia|].
      rewrite Z.shiftl_mul_pow2 by lia. rewrite <- Z.pow_add_r by lia. rewrite u32_small; [done|].
      unfold is_u32. pose proof (Z.pow_pos_nonneg 2 (j + 1)). pose proof (Z.pow_le_mono_r 2 (j + 1) 31). lia.
    + exists (2 ^ j). split; [done|]. split; [done|]. apply Z.pow_le_mono_r; lia.
Qed.

Lemma grow_block_spec newsize :
  newsize <= 2 ^ 31 -> exists nb, grow_block newsize = Done nb /\ newsize <= nb <= 2 ^ 31.
Proof. intros H. apply (grow_block_from newsize 30 3); lia. Qed.

(** The copy into a larger array. *)
Lemma copy_spec a ps (l0 : list Z) :
  ack_rep a ps -> (2 * length ps <= length l0)%nat ->
  exists l, for_range 0 (length ps) (fun x l =>
      s ← load (acklist a) (x * 2); l ← store l (x * 2) s; t ← load (acklist a) (x * 2 + 1); store l (x * 2 + 1) t) l0 = Done l /\
    length l = length l0 /\ take (2 * length ps) l = flat ps.
Proof.
  intros Hr Hl. pose proof (ack_rep_le a ps Hr) as Hle. destruct Hr as [H _ _ _].
  pose proof (for_range_inv (fun x l => length l = length l0 /\ take (2 * x) l = take (2 * x) (acklist a))
    (fun x l => s ← load (acklist a) (x * 2); l ← store l (x * 2) s; t ← load (acklist a) (x * 2 + 1); store l (x * 2 + 1) t)
    (length ps) 0 l0) as (l & E & L & T); [done| |].
  - intros x l Hx [L T].
    destruct (load_lt (acklist a) (x * 2)) as (s & Hs & ->); [lia|]. rewrite bind_Done.
    rewrite store_lt, bind_Done by lia.
    destruct (load_lt (acklist a) (x * 2 + 1)) as (t & Ht & ->); [lia|]. rewrite bind_Done.
    rewrite store_lt by (rewrite length_insert; lia). eexists. split; [done|]. split; [by rewrite !length_insert|].
    replace (2 * S x)%nat with (S (S (x * 2))) by lia. rewrite Nat.add_1_r in *.
    rewrite !(take_S_r _ _ _ Ht), !(take_S_r _ _ _ Hs).
    rewrite (take_S_r _ (S (x * 2)) t) by (rewrite list_lookup_insert_eq; [done|rewrite length_insert; lia]).
    rewrite (take_S_r _ (x * 2) s)
      by (rewrite list_lookup_insert_ne, list_lookup_insert_eq by lia; done).
    rewrite !take_insert_ge by lia. replace (x * 2)%nat with (2 * x)%nat by lia. by rewrite T.
  - exists l. split; [done|]. split; [done|]. by rewrite (T : take (2 * length ps) l = _).
Qed.

(** [ikcp_ack_push] appends a pair to the pending acknowledgements, growing
    the array when it is full and keeping what it holds. *)
Lemma ack_push_spec a ps sn ts :
  ack_rep a ps -> Z.of_nat (length ps) < 2 ^ 31 ->
  exists a', ikcp_ack_push a sn ts = Done a' /\ ack_rep a' (ps ++ [(sn, ts)]).
Proof.
  intros Hr Hlen. pose proof (ack_rep_le a ps Hr) as Hle. pose proof Hr as [H Hc Hb Hu].
  unfold ikcp_ack_push. rewrite Hc, Nat2Z.id, u32_small by (unfold is_u32; lia).
  assert (exists l b, (if ackblock a <? Z.of_nat (length ps) + 1 then
         newblock ← grow_block (Z.of_nat (length ps) + 1);
         l ← for_range 0 (length ps) (fun x l =>
               s ← load (acklist a) (x * 2);
               l ← store l (x * 2) s;
               t ← load (acklist a) (x * 2 + 1);
               store l (x * 2 + 1) t) (ikcp_malloc (Z.to_nat newblock * 2));
         Done (mkAcks l (Z.of_nat (length ps)) newblock) else Done a) = Done (mkAcks l (Z.of_nat (length ps)) b) /\
      take (2 * length ps) l = flat ps /\ length l = (2 * Z.to_nat b)%nat /\ (length ps < Z.to_nat b)%nat /\ is_u32 b) as (l & b & -> & L1 & L2 & L3 & L4).
  { destruct (Z.ltb_spec (ackblock a) (Z.of_nat (length ps) + 1)) as [Hg|Hg].
    - destruct (grow_block_spec (Z.of_nat (length ps) + 1)) as (nb & -> & Hnb); [lia|]. rewrite bind_Done.
      destruct (copy_spec a ps (ikcp_malloc (Z.to_nat nb * 2)) Hr) as (l & -> & L & T);
        [unfold ikcp_malloc; rewrite length_replicate; lia|].
      rewrite bind_Done. exists l, nb. unfold ikcp_malloc in L. rewrite length_replicate in L.
      unfold is_u32. repeat split; try done; lia.
    - exists (acklist a), (ackblock a). destruct a. cbn in *. subst. unfold is_u32 in *. repeat split; try done; lia. }
  rewrite bind_Done. cbn [acklist ackcount ackblock]. rewrite Nat2Z.id.
  rewrite store_lt, bind_Done by lia. rewrite store_lt, bind_Done by (rewrite length_insert; lia).
  eexists. split; [done|]. split; cbn [acklist ackcount ackblock]; rewrite ?length_app, ?length_insert; cbn [length].
  - replace (2 * (length ps + 1))%nat with (S (S (length ps * 2))) by lia. rewrite Nat.add_1_r.
    rewrite (take_S_r _ _ ts) by (apply list_lookup_insert_eq; rewrite length_insert; lia).
    rewrite (take_S_r _ _ sn) by (rewrite list_lookup_insert_ne, list_lookup_insert_eq by lia; done).
    rewrite !take_insert_ge by lia. replace (length ps * 2)%nat with (2 * length ps)%nat by lia. rewrite L1.
    unfold flat. by rewrite map_app, concat_app, <- app_assoc.
  - rewrite u32_small; unfold is_u32; lia.
  - done.
  - done.
Qed.

End KcpAcks.
