(* ===== verification/KcpFlush.v ===== *)
(** * KCP: the sending side and what is put on the wire

    [ikcp_flush] packs acknowledgements, window probes and the data segments
    that are due into datagrams of at most [mtu] bytes, without leaving its
    buffer, and keeps at most a window of segments in flight. *)

From Stdlib Require Import Sorting.Sorted.
From S2P Require Import Prelude Kcp KcpWire KcpRecv KcpAcks.

#[local] Set Warnings "-level-tolerance".

Module KcpFlush.
Import Kcp KcpWire KcpRecv KcpAcks.

(** ** Invariants *)

Record conf_wf (f : config) : Prop := {
  cw_conv : is_u32 (conv f);
  cw_mtu : 50 <= mtu f < 2 ^ 29;
  cw_mss : mss f = mtu f - IKCP_OVERHEAD;
  cw_snd : 0 < snd_wnd f < 2 ^ 31;
  cw_rcv : IKCP_WND_RCV <= rcv_wnd f < 2 ^ 16;
  cw_interval : 10 <= interval f <= 5000;
  cw_minrto : 0 < rx_minrto f <= IKCP_RTO_MAX
}.

(** A segment in flight and one that waits. *)
Definition flying (f : config) (s : Seg.t) : Prop :=
  wf_seg s /\ Seg.cmd s = IKCP_CMD_PUSH /\ Seg.conv s = conv f /\ Seg.len s <= mss f.
Definition waiting (f : config) (s : Seg.t) : Prop :=
  is_u8 (Seg.frg s) /\ Seg.len s = Z.of_nat (length (Seg.data s)) /\ Seg.len s <= mss f.

(** The numbers in flight lie between [snd_una] and [snd_nxt], in order, and
    start at [snd_una]. *)
Record snd_wf (f : config) (s : sender) : Prop := {
  sw_una : is_u32 (snd_una s);
  sw_nxt : is_u32 (snd_nxt s);
  sw_que : nsnd_que s = Z.of_nat (length (snd_queue s));
  sw_quelen : Z.of_nat (length (snd_queue s)) < 2 ^ 32;
  sw_buf : nsnd_buf s = Z.of_nat (length (snd_buf s));
  sw_head : snd_una s = match snd_buf s with [] => snd_nxt s | seg :: _ => Seg.sn seg end;
  sw_sorted : StronglySorted (ahead (snd_una s)) (snd_buf s);
  sw_window : Forall (fun seg => dist (Seg.sn seg) (snd_una s) < dist (snd_nxt s) (snd_una s)) (snd_buf s);
  sw_flight : dist (snd_nxt s) (snd_una s) < 2 ^ 31;
  sw_flying : Forall (flying f) (snd_buf s);
  sw_waiting : Forall (waiting f) (snd_queue s)
}.

Record control_wf (c : congestion) : Prop := {
  xw_rmt : 0 <= rmt_wnd c < 2 ^ 16;
  xw_cwnd : is_u32 (cwnd c);
  xw_rto : 0 < rx_rto c <= IKCP_RTO_MAX
}.

Record kcp_wf (k : ikcpcb) : Prop := {
  kw_conf : conf_wf (conf k);
  kw_snd : snd_wf (conf k) (sending k);
  kw_rcv : rcv_wf (receiving k);
  kw_acks : exists ps, ack_rep (acks k) ps /\ Forall (fun p => is_u32 p.1 /\ is_u32 p.2) ps;
  kw_ackcount : ackcount (acks k) < 2 ^ 31;
  kw_control : control_wf (control k);
  kw_current : is_u32 (current (timing k));
  kw_buffer : Z.of_nat (length (buffer k)) = (mtu (conf k) + IKCP_OVERHEAD) * 3
}.

(** ** Filling datagrams *)

(** The datagrams [groups] have been sent and [cur] is in the buffer. *)
Record out_rep (m : Z) (cap : nat) (o : out) (groups : list (list Seg.t)) (cur : list Seg.t) : Prop := {
  or_cap : length (obuf o) = cap;
  or_sent : sent o = map packet groups;
  or_ptr : ptr o = length (packet cur);
  or_cur : take (ptr o) (obuf o) = packet cur;
  or_groups : Forall (fun g => g <> [] /\ Z.of_nat (length (packet g)) <= m) groups;
  or_fits : Z.of_nat (length (packet cur)) <= m
}.

Lemma packet_app a b : packet (a ++ b) = packet a ++ packet b.
Proof. unfold packet. by rewrite map_app, concat_app. Qed.

Lemma packet_one s : packet [s] = wire s.
Proof. unfold packet. cbn [map concat]. apply app_nil_r. Qed.

Lemma packet_nil g : length (packet g) = 0%nat -> g = [].
Proof.
  destruct g as [|s g]; [done|]. unfold packet. cbn [map concat]. rewrite length_app, length_wire. lia.
Qed.

Lemma encode_seg_wf buf p s :
  (p + 24 <= length buf)%nat -> wf_seg s -> ikcp_encode_seg buf p s = Done (splice buf p (header s), (p + 24)%nat).
Proof.
  intros H [_ H1 H2 H3 _ _ _ _ _]. rewrite encode_seg_spec by done. unfold header.
  cbn [Seg.conv Seg.cmd Seg.frg Seg.wnd Seg.ts Seg.sn Seg.una Seg.len].
  by rewrite !u8_small, (Z.mod_small (Seg.wnd s) (2 ^ 16) H3 : u16 (Seg.wnd s) = _) by done.
Qed.

#[local] Opaque header.

(** The current datagram is sent when there is no room for [need] more bytes. *)
Lemma make_room_spec m cap o groups cur need :
  out_rep m cap o groups cur -> 0 <= m < 2 ^ 31 -> 0 <= need <= m ->
  exists groups' cur', out_rep m cap (make_room m need o) groups' cur' /\
    concat groups' ++ cur' = concat groups ++ cur /\ Z.of_nat (length (packet cur')) + need <= m.
Proof.
  intros [H1 H2 H3 H4 H5 H6] Hm Hneed. unfold make_room. rewrite s32_small by lia.
  destruct (Z.ltb_spec m (Z.of_nat (ptr o) + need)) as [Hlt|Hge].
  - unfold ikcp_output. destruct (Nat.eqb_spec (ptr o) 0) as [E|E].
    + lia.
    + exists (groups ++ [cur]), []. cbn [obuf sent]. rewrite concat_app, app_nil_r. cbn [concat]. rewrite app_nil_r.
      split; [|split; [done|cbn; lia]]. split; cbn [obuf ptr sent]; try done.
      * by rewrite H2, map_app, H4.
      * apply Forall_app. split; [done|]. repeat constructor; [|done].
        intros ->. rewrite H3 in E. done.
      * cbn. lia.
  - exists groups, cur. split; [|split; [done|lia]]. by split.
Qed.

Lemma output_spec m cap o g c :
  out_rep m cap o g c ->
  exists groups, sent (ikcp_output o) = map packet groups /\ concat groups = concat g ++ c /\
    Forall (fun g => g <> [] /\ Z.of_nat (length (packet g)) <= m) groups /\ length (obuf (ikcp_output o)) = cap.
Proof.
  intros [H1 H2 H3 H4 H5 H6]. unfold ikcp_output. destruct (Nat.eqb_spec (ptr o) 0) as [E|E].
  - exists g. rewrite H3 in E. apply packet_nil in E. subst c. by rewrite app_nil_r.
  - exists (g ++ [c]). cbn [sent obuf]. rewrite H4, H2, map_app, concat_app. cbn [concat map]. rewrite app_nil_r.
    split; [done|]. split; [done|]. split; [|done]. apply Forall_app. split; [done|]. repeat constructor; [|done].
    intros ->. by rewrite H3 in E.
Qed.

(** Writing a segment behind the current datagram. *)
Lemma put_spec m cap o groups cur s buf' :
  out_rep m cap o groups cur -> Z.of_nat (length (packet cur)) + Z.of_nat (length (wire s)) <= m ->
  m <= Z.of_nat cap -> buf' = splice (obuf o) (ptr o) (wire s) ->
  out_rep m cap (mkOut buf' (ptr o + length (wire s)) (sent o)) groups (cur ++ [s]).
Proof.
  intros [H1 H2 H3 H4 H5 H6] Hm Hcap ->. split; cbn [obuf ptr sent]; try done.
  - rewrite length_splice; [done|]. lia.
  - rewrite packet_app, packet_one, length_app. lia.
  - rewrite packet_app, packet_one, <- H4. unfold splice. rewrite app_assoc. apply take_app_length'.
    rewrite length_app, length_take. lia.
  - rewrite packet_app, packet_one, length_app. lia.
Qed.

Lemma put_control_spec m cap o groups cur s :
  out_rep m cap o groups cur -> 24 <= m < 2 ^ 31 -> m <= Z.of_nat cap -> wf_seg s -> Seg.data s = [] ->
  exists o' groups' cur', put_control m s o = Done o' /\ out_rep m cap o' groups' cur' /\
    concat groups' ++ cur' = concat groups ++ cur ++ [s].
Proof.
  intros Ho Hm Hcap Hs Hd. unfold put_control.
  destruct (make_room_spec m cap o groups cur IKCP_OVERHEAD Ho) as (g & c & Ho' & E & Hf); [lia|unfold IKCP_OVERHEAD; lia|].
  pose proof Ho' as [G1 _ G3 _ _ _]. unfold IKCP_OVERHEAD in *. rewrite encode_seg_wf by (done || lia). rewrite bind_Done.
  eexists _, g, (c ++ [s]). split; [done|]. cbn [fst snd].
  assert (wire s = header s) as Ew by (unfold wire; by rewrite Hd, app_nil_r).
  split; [|by rewrite app_assoc, E, <- app_assoc].
  change 24%nat with (length (header s)). rewrite <- Ew. apply put_spec; try done.
  rewrite Ew, length_header. lia.
Qed.

Lemma put_data_spec m cap o groups cur s :
  out_rep m cap o groups cur -> 24 <= m < 2 ^ 29 -> m <= Z.of_nat cap -> wf_seg s -> Seg.len s <= m - 24 ->
  exists o' groups' cur', put_data m s o = Done o' /\ out_rep m cap o' groups' cur' /\
    concat groups' ++ cur' = concat groups ++ cur ++ [s].
Proof.
  intros Ho Hm Hcap Hs Hl. pose proof (wf_len s Hs) as Hlen. unfold put_data, IKCP_OVERHEAD. rewrite s32_small by lia.
  destruct (make_room_spec m cap o groups cur (24 + Seg.len s) Ho) as (g & c & Ho' & E & Hf); [lia|lia|].
  pose proof Ho' as [G1 _ G3 _ _ _]. rewrite encode_seg_wf by (done || lia). rewrite bind_Done. cbn [fst snd].
  set (o1 := make_room m (24 + Seg.len s) o) in *.
  exists (mkOut (splice (obuf o1) (ptr o1) (wire s)) (ptr o1 + length (wire s)) (sent o1)), g, (c ++ [s]).
  split; [|split; [|by rewrite app_assoc, E, <- app_assoc]].
  - rewrite length_wire. destruct (Z.ltb_spec 0 (Seg.len s)) as [Hpos|Hz].
    + rewrite Hlen, Nat2Z.id, memcpy_splice, bind_Done, firstn_all by (rewrite ?length_splice, ?length_header; rewrite ?length_header; lia).
      rewrite splice_at by (rewrite ?length_header; lia). by rewrite Nat.add_assoc.
    + assert (Seg.data s = []) as Hd by (apply length_zero_iff_nil; lia). unfold wire. by rewrite Hd, app_nil_r.
  - apply put_spec; try done. rewrite length_wire. lia.
Qed.

(** ** What is flushed *)

Lemma wnd_unused_range k :
  kcp_wf k -> 0 <= ikcp_wnd_unused (rcv_wnd (conf k)) (receiving k) < 2 ^ 16.
Proof.
  intros [[_ _ _ _ Hw _ _] _ [_ Hq _ _ _ _ _ _] _ _ _ _ _]. unfold ikcp_wnd_unused.
  destruct (Z.ltb_spec (nrcv_que (receiving k)) (rcv_wnd (conf k))); [|lia]. unfold IKCP_WND_RCV in *.
  rewrite s32_small; lia.
Qed.

Lemma control_seg_wf k cmd sn ts :
  kcp_wf k -> is_u8 cmd -> is_u32 sn -> is_u32 ts -> wf_seg (control_seg k cmd sn ts).
Proof.
  intros Hk Hc Hs Ht. pose proof (wnd_unused_range k Hk). destruct Hk as [[Hcv _ _ _ _ _ _] _ [Hr _ _ _ _ _ _ _] _ _ _ _ _].
  split; cbn [control_seg Seg.conv Seg.cmd Seg.frg Seg.wnd Seg.ts Seg.sn Seg.una Seg.len Seg.data]; try done.
Qed.

Definition ack_segs (k : ikcpcb) (ps : list (Z * Z)) : list Seg.t :=
  map (fun p => control_seg k IKCP_CMD_ACK p.1 p.2) ps.

Definition last_pair (ps : list (Z * Z)) : Z * Z := default (0, 0) (last ps).

Lemma flush_acks_spec k ps m cap :
  kcp_wf k -> ack_rep (acks k) ps -> Forall (fun p => is_u32 p.1 /\ is_u32 p.2) ps ->
  m = mtu (conf k) -> cap = length (buffer k) ->
  exists o groups cur, flush_acks k (mkOut (buffer k) 0 []) = Done ((last_pair ps).1, (last_pair ps).2, o) /\
    out_rep m cap o groups cur /\ concat groups ++ cur = ack_segs k ps.
Proof.
  intros Hk Hr Hps -> ->. pose proof (cw_mtu _ (kw_conf k Hk)) as Hm. pose proof (kw_buffer k Hk) as Hb.
  pose proof (kw_ackcount k Hk) as Hc. unfold flush_acks, IKCP_OVERHEAD in *. rewrite (ar_count _ _ Hr) in *.
  rewrite s32_small, Nat2Z.id by lia.
  match goal with |- exists _ _ _, for_range 0 _ ?body _ = _ /\ _ => pose proof (for_range_inv (fun i st =>
    st.1.1 = (last_pair (take i ps)).1 /\ st.1.2 = (last_pair (take i ps)).2 /\
    exists groups cur, out_rep (mtu (conf k)) (length (buffer k)) st.2 groups cur /\
      concat groups ++ cur = ack_segs k (take i ps)) body (length ps) 0 (0, 0, mkOut (buffer k) 0 [])) as H end.
  destruct H as ([[sn ts] o] & E & E1 & E2 & groups & cur & Ho & Eq).
  - split; [done|]. split; [done|]. exists [], []. split; [|done]. split; cbn; try done; lia.
  - intros i [[sn ts] o] Hi (_ & _ & groups & cur & Ho & Eq). cbn [fst snd] in *.
    destruct (lookup_lt_is_Some_2 ps i) as [p Hp]; [lia|].
    rewrite (ack_get_spec _ _ _ _ Hr Hp), bind_Done.
    pose proof (proj1 (Forall_lookup _ _) Hps i p Hp) as [Hp1 Hp2]. simpl in Hp1, Hp2.
    destruct (put_control_spec (mtu (conf k)) (length (buffer k)) o groups cur (control_seg k IKCP_CMD_ACK p.1 p.2) Ho)
      as (o' & g' & c' & E & Ho' & Eq'); [lia|lia|by apply control_seg_wf|done|].
    rewrite E, bind_Done. eexists. split; [done|]. cbn [fst snd]. rewrite (take_S_r _ _ _ Hp).
    unfold last_pair. rewrite last_snoc. split; [done|]. split; [done|]. exists g', c'. split; [done|].
    rewrite Eq', app_assoc, Eq. unfold ack_segs. by rewrite map_app.
  - rewrite (E : for_range 0 _ _ _ = _). cbn [fst snd] in *. rewrite Nat.add_0_l, firstn_all in *.
    exists o, groups, cur. by subst.
Qed.

(** The segments with commands for the window. *)
Definition probe_segs (k : ikcpcb) (c : congestion) (p : Z * Z) : list Seg.t :=
  (if negb (Z.land (probe c) IKCP_ASK_SEND =? 0) then [control_seg k IKCP_CMD_WASK p.1 p.2] else []) ++
  (if negb (Z.land (probe c) IKCP_ASK_TELL =? 0) then [control_seg k IKCP_CMD_WINS p.1 p.2] else []).

Lemma put_if_spec (b : bool) k o groups cur s :
  kcp_wf k -> out_rep (mtu (conf k)) (length (buffer k)) o groups cur -> wf_seg s -> Seg.data s = [] ->
  exists o' groups' cur', (if b then put_control (mtu (conf k)) s o else Done o) = Done o' /\
    out_rep (mtu (conf k)) (length (buffer k)) o' groups' cur' /\
    concat groups' ++ cur' = (concat groups ++ cur) ++ (if b then [s] else []).
Proof.
  intros Hk Ho Hs Hd. destruct b; [|exists o, groups, cur; by rewrite app_nil_r].
  pose proof (cw_mtu _ (kw_conf k Hk)). pose proof (kw_buffer k Hk) as Hb. unfold IKCP_OVERHEAD in Hb. rewrite <- app_assoc.
  apply put_control_spec; try done; lia.
Qed.

Lemma last_pair_u32 ps :
  Forall (fun p => is_u32 p.1 /\ is_u32 p.2) ps -> is_u32 (last_pair ps).1 /\ is_u32 (last_pair ps).2.
Proof.
  intros H. unfold last_pair. destruct (last ps) as [p|] eqn:E; cbn; [|done].
  apply last_Some_elem_of in E. rewrite Forall_forall in H. by apply H.
Qed.

(** A segment in flight after the loop, and what is sent of it. *)
Definition verdict_of (k : ikcpcb) (s : Seg.t) : verdict :=
  needsend (conf k) (current (timing k)) (resent_limit (conf k)) s.
Definition resent (k : ikcpcb) (s : Seg.t) : Seg.t :=
  resend (conf k) (current (timing k)) (rx_rto (control k)) (rto_min (conf k) (control k))
    (ikcp_wnd_unused (rcv_wnd (conf k)) (receiving k)) (rcv_nxt (receiving k)) (verdict_of k s) s.
Definition after (k : ikcpcb) (s : Seg.t) : Seg.t := match verdict_of k s with Keep => s | _ => resent k s end.
Definition due (k : ikcpcb) (s : Seg.t) : option Seg.t := match verdict_of k s with Keep => None | _ => Some (resent k s) end.

Lemma resent_flying k s : kcp_wf k -> flying (conf k) s -> flying (conf k) (resent k s).
Proof.
  intros Hk ([W1 W2 W3 W4 W5 W6 W7 W8 W9] & H2 & H3 & H4). pose proof (wnd_unused_range k Hk).
  pose proof (rw_nxt _ (kw_rcv k Hk)). pose proof (kw_current k Hk).
  split; [|done]. split; try done.
Qed.

Lemma flush_data_spec k segs : forall o groups cur t,
  kcp_wf k -> Forall (flying (conf k)) segs -> out_rep (mtu (conf k)) (length (buffer k)) o groups cur ->
  exists o' groups' cur' t', flush_data k (resent_limit (conf k)) (rto_min (conf k) (control k)) segs o t =
      Done (map (after k) segs, o', t') /\
    out_rep (mtu (conf k)) (length (buffer k)) o' groups' cur' /\
    concat groups' ++ cur' = concat groups ++ cur ++ omap (due k) segs.
Proof.
  induction segs as [|s segs IH]; intros o groups cur t Hk Hs Ho.
  - exists o, groups, cur, t. cbn. by rewrite app_nil_r.
  - apply Forall_cons in Hs as [Hs Hss]. cbn [flush_data map]. fold (verdict_of k s). fold (resent k s).
    unfold after at 1. unfold omap. cbn [list_omap]. fold (omap (due k) segs). unfold due at 1.
    pose proof (cw_mtu _ (kw_conf k Hk)) as Hm. pose proof (kw_buffer k Hk) as Hb. unfold IKCP_OVERHEAD in Hb.
    pose proof (resent_flying k s Hk Hs) as (Hw & _ & _ & Hl). rewrite (cw_mss _ (kw_conf k Hk)) in Hl.
    destruct (put_data_spec (mtu (conf k)) (length (buffer k)) o groups cur (resent k s) Ho)
      as (o1 & g1 & c1 & E1 & Ho1 & Eq1); [lia|lia|done|done|].
    destruct (IH o groups cur t Hk Hss Ho) as (o2 & g2 & c2 & t2 & E2 & Ho2 & Eq2).
    destruct (IH o1 g1 c1 (note (verdict_of k s) (dead_link (conf k)) (resent k s) t) Hk Hss Ho1)
      as (o3 & g3 & c3 & t3 & E3 & Ho3 & Eq3).
    rewrite app_assoc, Eq1, <- !app_assoc in Eq3.
    destruct (verdict_of k s) eqn:Ev.
    1: { exists o2, g2, c2, t2. rewrite E2, bind_Done. done. }
    all: exists o3, g3, c3, t3; rewrite E1, bind_Done, E3, bind_Done; done.
Qed.

(** ** The window *)

Lemma snd_buf_length f s : snd_wf f s -> Z.of_nat (length (snd_buf s)) <= 2 ^ 31.
Proof.
  intros [_ _ _ _ _ _ Hs Hw Hf _ _]. rewrite <- (Z.sub_0_r (2 ^ 31)). apply (sorted_length (snd_una s)); [done| |lia].
  apply (Forall_impl _ _ _ Hw). intros x Hx. pose proof (dist_range (Seg.sn x) (snd_una s)). simpl in *. lia.
Qed.

(** A segment that enters the window, [i] behind [nxt]. *)
Definition fresh (k : ikcpcb) (nxt : Z) (i : nat) (seg : Seg.t) : Seg.t :=
  Seg.mk (conv (conf k)) IKCP_CMD_PUSH (Seg.frg seg) (ikcp_wnd_unused (rcv_wnd (conf k)) (receiving k))
    (current (timing k)) (u32 (nxt + Z.of_nat i)) (rcv_nxt (receiving k)) (Seg.len seg) (current (timing k))
    (rx_rto (control k)) 0 0 (Seg.data seg).

Definition pushed (s : sender) (queue : list Seg.t) (seg : Seg.t) : sender :=
  mkSender (snd_una s) (u32 (snd_nxt s + 1)) queue (snd_buf s ++ [seg]) (u32 (nsnd_que s - 1)) (u32 (nsnd_buf s + 1)).

Lemma fresh_flying k nxt i seg : kcp_wf k -> waiting (conf k) seg -> flying (conf k) (fresh k nxt i seg).
Proof.
  intros Hk (H1 & H2 & H3). pose proof (wnd_unused_range k Hk). pose proof (rw_nxt _ (kw_rcv k Hk)).
  pose proof (kw_current k Hk). destruct (kw_conf k Hk) as [C1 C2 C3 _ _ _ _]. unfold IKCP_OVERHEAD in *.
  split; [|done]. split; cbn [fresh Seg.conv Seg.cmd Seg.frg Seg.wnd Seg.ts Seg.sn Seg.una Seg.len Seg.data]; try done.
  - apply u32_range.
  - lia.
Qed.

Lemma pushed_wf k s seg queue :
  kcp_wf k -> snd_wf (conf k) s -> snd_queue s = seg :: queue -> dist (snd_nxt s) (snd_una s) < 2 ^ 31 - 1 ->
  snd_wf (conf k) (pushed s queue (fresh k (snd_nxt s) 0 seg)) /\
  dist (u32 (snd_nxt s + 1)) (snd_una s) = dist (snd_nxt s) (snd_una s) + 1.
Proof.
  intros Hk Hs Hq Hd. pose proof (snd_buf_length _ s Hs) as Hl. destruct Hs as [S1 S2 S3 S4 S5 S6 S7 S8 S9 S10 S11].
  assert (dist (u32 (snd_nxt s + 1)) (snd_una s) = dist (snd_nxt s) (snd_una s) + 1) as Hd1.
  { revert Hd. unfold dist, u32. change (2 ^ 32) with 4294967296. change (2 ^ 31) with 2147483648. lia_div. }
  split; [|done]. rewrite Hq in *. apply Forall_cons in S11 as [Hseg S11]. cbn [length] in *.
  split; unfold pushed; cbn [snd_una snd_nxt snd_queue snd_buf nsnd_que nsnd_buf]; try done.
  - apply u32_range.
  - rewrite S3, u32_small; unfold is_u32; lia.
  - lia.
  - rewrite S5, length_app, u32_small; unfold is_u32; cbn; lia.
  - destruct (snd_buf s); cbn; [|done]. by rewrite Z.add_0_r, u32_small.
  - apply sorted_snoc; [done|]. apply (Forall_impl _ _ _ S8). intros x Hx. unfold ahead. cbn [fresh Seg.sn].
    by rewrite Z.add_0_r, u32_small.
  - rewrite Hd1. apply Forall_app. split.
    + apply (Forall_impl _ _ _ S8). intros x Hx. simpl in *. lia.
    + repeat constructor. cbn [fresh Seg.sn]. rewrite Z.add_0_r, u32_small by done. lia.
  - rewrite Hd1. lia.
  - apply Forall_app. split; [done|]. repeat constructor; by apply fresh_flying.
Qed.

Lemma fresh_shift k nxt i seg : fresh k (u32 (nxt + 1)) i seg = fresh k nxt (S i) seg.
Proof. unfold fresh. rewrite u32_add_add. by replace (1 + Z.of_nat i) with (Z.of_nat (S i)) by lia. Qed.

(** The loop takes segments off the queue until it is empty or the window is
    full. *)
Lemma fill_window_spec k cw queue : forall s,
  kcp_wf k -> snd_wf (conf k) s -> snd_queue s = queue -> 0 <= cw < 2 ^ 31 ->
  exists n, (n <= length queue)%nat /\
    let s' := fill_window k cw queue s in
    snd_wf (conf k) s' /\ snd_una s' = snd_una s /\ snd_nxt s' = u32 (snd_nxt s + Z.of_nat n) /\
    snd_queue s' = drop n queue /\ snd_buf s' = snd_buf s ++ imap (fresh k (snd_nxt s)) (take n queue) /\
    dist (snd_nxt s') (snd_una s') <= Z.max (dist (snd_nxt s) (snd_una s)) cw /\
    (snd_queue s' = [] \/ cw <= dist (snd_nxt s') (snd_una s')).
Proof.
  induction queue as [|seg queue IH]; intros s Hk Hs Hq Hcw; cbn [fill_window].
  - exists 0%nat. split; [done|]. cbn. rewrite Z.add_0_r, app_nil_r, u32_small by apply Hs.
    repeat (split; [done|]). split; [lia|by left].
  - replace (_itimediff (snd_nxt s) (u32 (snd_una s + cw)) <? 0) with (dist (snd_nxt s) (snd_una s) <? cw).
    2: { pose proof (sw_flight _ _ Hs) as Hf. revert Hf. unfold dist, _itimediff, s32, u32.
         change (2 ^ 32) with 4294967296. change (2 ^ 31) with 2147483648 in *. intros Hf.
         apply Bool.eq_iff_eq_true. rewrite !Z.ltb_lt. lia_div. }
    destruct (Z.ltb_spec (dist (snd_nxt s) (snd_una s)) cw) as [Hlt|Hge].
    + destruct (pushed_wf k s seg queue Hk Hs Hq) as [Hp Hd]; [lia|].
      destruct (IH (pushed s queue (fresh k (snd_nxt s) 0 seg)) Hk Hp eq_refl Hcw) as (n & Hn & G1 & G2 & G3 & G4 & G5 & G6 & G7).
      exists (S n). cbn [length take drop]. split; [lia|].
      unfold fresh in G1, G2, G3, G4, G5, G6, G7. rewrite Z.add_0_r, u32_small in * by apply Hs.
      unfold pushed in *. cbv zeta. cbn [snd_una snd_nxt snd_buf] in *.
      split; [exact G1|]. split; [exact G2|]. split; [rewrite G3, u32_add_add; f_equal; lia|]. split; [exact G4|].
      split; [|split; [rewrite G2 in *; lia|exact G7]].
      rewrite G5, <- app_assoc. cbn [app imap]. f_equal. f_equal; [unfold fresh; by rewrite Z.add_0_r, u32_small by apply Hs|].
      apply imap_ext. intros i x _. apply fresh_shift.
    + exists 0%nat. split; [lia|]. cbn [take drop imap]. rewrite Z.add_0_r, app_nil_r, u32_small by apply Hs.
      repeat (split; [done|]). split; [lia|]. by right.
Qed.

(** Segments in flight may change in everything but their numbers. *)
Lemma snd_wf_replace f s l :
  snd_wf f s -> Forall2 (fun x y => Seg.sn y = Seg.sn x /\ (flying f x -> flying f y)) (snd_buf s) l ->
  snd_wf f (mkSender (snd_una s) (snd_nxt s) (snd_queue s) l (nsnd_que s) (nsnd_buf s)).
Proof.
  intros [S1 S2 S3 S4 S5 S6 S7 S8 S9 S10 S11] Hl.
  split; cbn [snd_una snd_nxt snd_queue snd_buf nsnd_que nsnd_buf]; try done.
  - by rewrite <- (Forall2_length _ _ _ Hl).
  - rewrite S6. by destruct Hl as [|x y ? ? [-> _]].
  - clear - S7 Hl. induction Hl as [|x y l l' [E _] Hl IH]; [constructor|].
    apply StronglySorted_inv in S7 as [S7 Hx]. constructor; [by apply IH|]. clear IH S7.
    induction Hl as [|a b l l' [E' _] Hl IH]; constructor; apply Forall_cons in Hx as [Ha Hx]; [|by apply IH].
    unfold ahead in *. by rewrite E, E'.
  - clear - S8 Hl. induction Hl as [|x y l l' [E _] Hl IH]; constructor; apply Forall_cons in S8 as [Hx S8]; [|by apply IH].
    by rewrite E.
  - clear - S10 Hl. induction Hl as [|x y l l' [_ Hf] Hl IH]; constructor; apply Forall_cons in S10 as [Hx S10]; [|by apply IH].
    by apply Hf.
Qed.

Lemma after_sn k x : Seg.sn (after k x) = Seg.sn x.
Proof. unfold after. by destruct (verdict_of k x). Qed.

Lemma after_flying k x : kcp_wf k -> flying (conf k) x -> flying (conf k) (after k x).
Proof. intros Hk Hx. unfold after. destruct (verdict_of k x); [done|by apply resent_flying..]. Qed.

Lemma update_probe_spec c t :
  let c' := (update_probe c t).1 in
  rmt_wnd c' = rmt_wnd c /\ cwnd c' = cwnd c /\ rx_rto c' = rx_rto c /\
  current (update_probe c t).2 = current t.
Proof. unfold update_probe. repeat case_match; done. Qed.

Lemma shrink_cwnd_wf f s cw resent t c : control_wf c -> control_wf (shrink_cwnd f s cw resent t c).
Proof.
  intros [H1 H2 H3]. unfold shrink_cwnd.
  repeat (match goal with |- context [if ?b then _ else _] => destruct b end); split; cbn; try done; apply u32_range.
Qed.

Lemma send_window_range f c : conf_wf f -> control_wf c -> 0 <= send_window f c < 2 ^ 31.
Proof.
  intros [_ _ _ H1 _ _ _] [H2 H3 _]. unfold send_window, _imin_, is_u32 in *.
  repeat (match goal with |- context [?a <=? ?b] => destruct (Z.leb_spec a b) end); destruct (nocwnd f =? 0);
  repeat (match goal with |- context [?a <=? ?b] => destruct (Z.leb_spec a b) end); lia.
Qed.

Lemma flush_spec k ps :
  kcp_wf k -> updated (timing k) <> 0 -> ack_rep (acks k) ps -> Forall (fun p => is_u32 p.1 /\ is_u32 p.2) ps ->
  let c := (update_probe (control k) (timing k)).1 in
  let s := fill_window k (send_window (conf k) c) (snd_queue (sending k)) (sending k) in
  exists k' groups, ikcp_flush k = Done (k', map packet groups) /\
    concat groups = ack_segs k ps ++ probe_segs k c (last_pair ps) ++ omap (due k) (snd_buf s) /\
    Forall (fun g => g <> [] /\ Z.of_nat (length (packet g)) <= mtu (conf k)) groups /\
    kcp_wf k' /\ ack_rep (acks k') [] /\ conf k' = conf k /\ receiving k' = receiving k /\
    snd_buf (sending k') = map (after k) (snd_buf s) /\ snd_queue (sending k') = snd_queue s /\
    (exists n, (n <= length (snd_queue (sending k)))%nat /\ snd_nxt (sending k') = u32 (snd_nxt (sending k) + Z.of_nat n) /\
       snd_queue s = drop n (snd_queue (sending k)) /\
       snd_buf s = snd_buf (sending k) ++ imap (fresh k (snd_nxt (sending k))) (take n (snd_queue (sending k)))) /\
    dist (snd_nxt (sending k')) (snd_una (sending k')) <=
      Z.max (dist (snd_nxt (sending k)) (snd_una (sending k))) (send_window (conf k) c) /\
    (snd_queue s = [] \/ send_window (conf k) c <= dist (snd_nxt (sending k')) (snd_una (sending k'))).
Proof.
  intros Hk Hu Hr Hps c s. unfold ikcp_flush. rewrite (proj2 (Z.eqb_neq _ _) Hu).
  destruct (flush_acks_spec k ps _ _ Hk Hr Hps eq_refl eq_refl) as (o & g & cur & E & Ho & Eq). rewrite E, bind_Done.
  destruct (update_probe_spec (control k) (timing k)) as (U1 & U2 & U3 & U4). fold c in U1, U2, U3.
  destruct (update_probe (control k) (timing k)) as [c0 t]. cbn [fst snd] in *. subst c.
  pose proof (kw_control k Hk) as [X1 X2 X3]. assert (control_wf c0) as Hc by (split; congruence).
  destruct (last_pair_u32 ps Hps) as [L1 L2].
  destruct (put_if_spec (negb (Z.land (probe c0) IKCP_ASK_SEND =? 0)) k o g cur
    (control_seg k IKCP_CMD_WASK (last_pair ps).1 (last_pair ps).2) Hk Ho) as (o1 & g1 & c1 & E1 & Ho1 & Eq1);
    [by apply control_seg_wf|done|]. rewrite E1, bind_Done.
  destruct (put_if_spec (negb (Z.land (probe c0) IKCP_ASK_TELL =? 0)) k o1 g1 c1
    (control_seg k IKCP_CMD_WINS (last_pair ps).1 (last_pair ps).2) Hk Ho1) as (o2 & g2 & c2 & E2 & Ho2 & Eq2);
    [by apply control_seg_wf|done|]. rewrite E2, bind_Done.
  destruct (fill_window_spec k (send_window (conf k) c0) (snd_queue (sending k)) (sending k) Hk (kw_snd k Hk) eq_refl)
    as (n & Hn & F1 & F2 & F3 & F4 & F5 & F6 & F7); [apply send_window_range; [apply Hk|done]|]. fold s in F1, F2, F3, F4, F5, F6, F7.
  replace (rto_min (conf k) c0) with (rto_min (conf k) (control k)) by (unfold rto_min; by rewrite U3).
  fold s. destruct (flush_data_spec k (snd_buf s) o2 g2 c2 (mkTally (xmit c0) (state c0) false false) Hk (sw_flying _ _ F1) Ho2)
    as (o3 & g3 & c3 & y & E3 & Ho3 & Eq3). rewrite E3, bind_Done.
  destruct (output_spec _ _ _ _ _ Ho3) as (groups & G1 & G2 & G3 & G4).
  eexists _, groups. rewrite G1. split; [reflexivity|].
  split; [rewrite G2, Eq3, app_assoc, Eq2, Eq1, Eq; unfold probe_segs; by rewrite <- !app_assoc|].
  split; [done|]. cbn [conf sending receiving acks snd_buf snd_queue snd_nxt snd_una]. split.
  { split; cbn [conf sending receiving acks control timing buffer].
    - apply Hk.
    - apply snd_wf_replace; [done|]. apply Forall2_fmap_r, Forall_Forall2_diag, Forall_forall. intros x _.
      split; [apply after_sn|by apply after_flying].
    - apply Hk.
    - exists []. split; [|done]. destruct Hr as [_ _ R3 R4]. by split.
    - done.
    - apply shrink_cwnd_wf. by split; apply Hc.
    - rewrite U4. apply Hk.
    - rewrite G4. apply Hk. }
  split; [destruct Hr as [_ _ R3 R4]; by split|].
  repeat (split; [done|]). split; [by exists n|]. split; [by rewrite F2 in *|]. done.
Qed.

(** ** Properties *)

(** C4: [ikcp_flush] always returns.  The datagrams it sends are the encodings
    of the pending acknowledgements, then the window probes, then the data
    segments that are due (new, timed out or asked for by fast retransmission),
    in this order and nothing else; none is empty or longer than [mtu].  New
    segments enter flight in queue order until the queue is empty or the
    window is full, and the control block stays well formed. *)
Theorem kcp_flush_correct k ps :
  kcp_wf k -> updated (timing k) <> 0 -> ack_rep (acks k) ps -> Forall (fun p => is_u32 p.1 /\ is_u32 p.2) ps ->
  let c := (update_probe (control k) (timing k)).1 in
  let s := fill_window k (send_window (conf k) c) (snd_queue (sending k)) (sending k) in
  exists k' groups, ikcp_flush k = Done (k', map packet groups) /\
    concat groups = ack_segs k ps ++ probe_segs k c (last_pair ps) ++ omap (due k) (snd_buf s) /\
    Forall (fun g => g <> [] /\ Z.of_nat (length (packet g)) <= mtu (conf k)) groups /\
    kcp_wf k' /\ ack_rep (acks k') [] /\ conf k' = conf k /\ receiving k' = receiving k /\
    snd_buf (sending k') = map (after k) (snd_buf s) /\ snd_queue (sending k') = snd_queue s /\
    (exists n, (n <= length (snd_queue (sending k)))%nat /\ snd_nxt (sending k') = u32 (snd_nxt (sending k) + Z.of_nat n) /\
       snd_queue s = drop n (snd_queue (sending k)) /\
       snd_buf s = snd_buf (sending k) ++ imap (fresh k (snd_nxt (sending k))) (take n (snd_queue (sending k)))) /\
    dist (snd_nxt (sending k')) (snd_una (sending k')) <=
      Z.max (dist (snd_nxt (sending k)) (snd_una (sending k))) (send_window (conf k) c) /\
    (snd_queue s = [] \/ send_window (conf k) c <= dist (snd_nxt (sending k')) (snd_una (sending k'))).
Proof. apply flush_spec. Qed.

(** One acknowledgement and one segment to send, with small datagrams. *)
Definition sample : ikcpcb :=
  mkKcp (mkConfig 17 50 26 32 128 100 0 100 0 5 1 0 20) (mkSender 0 0 [Seg.queued 0 1 [9]] [] 1 0) (mkReceiver 3 [] [] 0 0)
    (mkAcks (4 :: 5 :: replicate 14 0) 1 8) (mkCongestion 128 2 0 0 0 0 200 0 0 0) (mkTimer 60 160 1 0 0) (replicate 222 0).

Lemma sample_wf : kcp_wf sample.
Proof.
  split; cbn [sample conf sending receiving acks control timing buffer]; try done.
  - split; cbn; try done; by repeat constructor.
  - split; cbn; try done; constructor.
  - exists [(4, 5)]. split; [done|]. by repeat constructor.
Qed.

Lemma kcp_flush_correct_witness :
  let k := sample in
  let ps := [(4, 5)] in
  let c := (update_probe (control k) (timing k)).1 in
  let s := fill_window k (send_window (conf k) c) (snd_queue (sending k)) (sending k) in
  exists k' groups, ikcp_flush k = Done (k', map packet groups) /\
    concat groups = ack_segs k ps ++ probe_segs k c (last_pair ps) ++ omap (due k) (snd_buf s) /\
    Forall (fun g => g <> [] /\ Z.of_nat (length (packet g)) <= mtu (conf k)) groups /\ kcp_wf k'.
Proof.
  destruct (kcp_flush_correct sample [(4, 5)]) as (k' & groups & H1 & H2 & H3 & H4 & _);
    [apply sample_wf|done|done|by repeat constructor|].
  exists k', groups. exact (conj H1 (conj H2 (conj H3 H4))).
Defined.

End KcpFlush.
