(* ===== verification/KcpSend.v ===== *)
(** * KCP: messages into segments and back

    [ikcp_send] cuts a message into numbered fragments of at most [mss] bytes;
    [ikcp_recv] joins the fragments of the first message of its queue. *)

From S2P Require Import Prelude Kcp KcpWire KcpRecv KcpAcks KcpFlush.

#[local] Set Warnings "-level-tolerance".

Module KcpSend.
Import Kcp KcpWire KcpRecv KcpAcks KcpFlush.

(** ** Cutting *)

(** Fragment [j] of [n], and all of them. *)
Definition piece (stream : Z) (n m : nat) (msg : list Z) (j : nat) : Seg.t :=
  let d := take m (drop (j * m) msg) in
  Seg.queued (if stream =? 0 then Z.of_nat n - Z.of_nat j - 1 else 0) (Z.of_nat (length d)) d.
Definition fragments (stream : Z) (n m : nat) (msg : list Z) : list Seg.t := map (piece stream n m msg) (seq 0 n).

(** The number of fragments of a message. *)
Definition count_of (mss len : Z) : Z := if len <=? mss then 1 else (len + mss - 1) / mss.

Lemma count_of_spec m len : 0 < m -> 0 <= len -> 1 <= count_of m len /\ len <= count_of m len * m /\ (count_of m len - 1) * m <= len.
Proof.
  intros Hm Hl. unfold count_of. destruct (Z.leb_spec len m); [lia|].
  pose proof (Z.div_mod (len + m - 1) m). pose proof (Z.mod_pos_bound (len + m - 1) m). nia.
Qed.

Definition enqueue (s : sender) (segs : list Seg.t) : sender :=
  mkSender (snd_una s) (snd_nxt s) (snd_queue s ++ segs) (snd_buf s)
    (nsnd_que s + Z.of_nat (length segs)) (nsnd_buf s).

Lemma fragment_spec mss stream n s buffer len :
  0 < mss < 2 ^ 31 -> 0 <= len <= Z.of_nat (length buffer) ->
  nsnd_que s + Z.of_nat n < 2 ^ 32 -> 0 <= nsnd_que s -> (Z.of_nat n - 1) * mss <= len ->
  exists b l, fragment mss stream n s buffer len =
    Done (enqueue s (fragments stream n (Z.to_nat mss) (take (Z.to_nat len) buffer)), b, l).
Proof.
  intros Hm Hl Hq Hq0 Hn. unfold fragment. set (m := Z.to_nat mss). set (msg := take (Z.to_nat len) buffer).
  assert (Hlm : length msg = Z.to_nat len) by (unfold msg; rewrite length_take; lia).
  match goal with |- exists _ _, for_range 0 n ?body _ = _ => pose proof (for_range_inv (fun i st =>
    st = (enqueue s (map (piece stream n m msg) (seq 0 i)), drop (Nat.min (i * m) (Z.to_nat len)) buffer,
          len - Z.of_nat (Nat.min (i * m) (Z.to_nat len)))) body n 0 (s, buffer, len)) as H end.
  destruct H as (st & E & ->).
  - cbn. unfold enqueue. rewrite app_nil_r, drop_0, Z.sub_0_r, Z.add_0_r. by destruct s.
  - intros i st Hi ->. rewrite s32_small by lia.
    assert (Hi' : (i * m <= Z.to_nat len)%nat) by nia. rewrite Nat.min_l by done.
    set (size := if mss <? len - Z.of_nat (i * m) then mss else len - Z.of_nat (i * m)).
    assert (Hsz : 0 <= size /\ Z.to_nat size = Nat.min m (Z.to_nat len - i * m) /\ size <= mss).
    { unfold size. destruct (Z.ltb_spec mss (len - Z.of_nat (i * m))); lia. }
    assert (take (Z.to_nat size) (drop (i * m) buffer) = take m (drop (i * m) msg)) as Hd.
    { unfold msg. rewrite skipn_firstn_comm, take_take. f_equal. lia. }
    assert (length (take m (drop (i * m) msg)) = Z.to_nat size) as Hld by (rewrite length_take, length_drop; lia).
    assert ((if 0 <? len - Z.of_nat (i * m) then memcpy (ikcp_malloc (Z.to_nat size)) 0 (drop (i * m) buffer) 0 (Z.to_nat size)
             else Done (ikcp_malloc (Z.to_nat size))) = Done (take m (drop (i * m) msg))) as ->.
    { unfold ikcp_malloc. destruct (Z.ltb_spec 0 (len - Z.of_nat (i * m))).
      - rewrite memcpy_in by (rewrite ?length_replicate, ?length_drop; lia).
        rewrite drop_0, Hd, (drop_ge (replicate _ _)) by (rewrite length_replicate; lia). by rewrite app_nil_r.
      - replace (Z.to_nat size) with 0%nat in * by lia. symmetry in Hld |- *. cbn. f_equal. by apply nil_length_inv. }
    rewrite bind_Done. eexists. split; [done|]. f_equal; [f_equal|].
    + rewrite seq_S, Nat.add_0_l, map_app. unfold enqueue. cbn [snd_una snd_nxt snd_queue snd_buf nsnd_que nsnd_buf map].
      rewrite !length_app, !length_map, !length_seq. cbn [length]. rewrite (u32_small size) by (unfold is_u32; lia).
      assert (piece stream n m msg i = Seg.queued (if stream =? 0 then Z.of_nat n - Z.of_nat i - 1 else 0) size
        (take m (drop (i * m) msg))) as -> by (unfold piece; rewrite Hld, Z2Nat.id by lia; done).
      f_equal; [by rewrite <- app_assoc|]. rewrite u32_small; unfold is_u32; lia.
    + rewrite drop_drop. f_equal. lia.
    + lia.
  - eexists _, _. exact E.
Qed.

Lemma enqueue_wf f s segs :
  snd_wf f s -> Forall (waiting f) segs -> Z.of_nat (length (snd_queue s) + length segs) < 2 ^ 32 -> snd_wf f (enqueue s segs).
Proof.
  intros [S1 S2 S3 S4 S5 S6 S7 S8 S9 S10 S11] Hs Hr.
  split; unfold enqueue; cbn [snd_una snd_nxt snd_queue snd_buf nsnd_que nsnd_buf]; try done.
  - rewrite S3, length_app. lia.
  - rewrite length_app. lia.
  - by apply Forall_app.
Qed.

Lemma fragments_waiting f stream n msg :
  conf_wf f -> (n <= 256)%nat -> Forall (waiting f) (fragments stream n (Z.to_nat (mss f)) msg).
Proof.
  intros [_ Hm Hms _ _ _ _] Hn. unfold IKCP_OVERHEAD in *. apply Forall_map, Forall_forall. intros j Hj%elem_of_seq. simpl.
  split; [|split]; cbn [piece Seg.queued Seg.frg Seg.len Seg.data].
  - unfold is_u8. destruct (stream =? 0); lia.
  - done.
  - rewrite length_take. lia.
Qed.

(** The bytes of segments. *)
Definition bytes_of (segs : list Seg.t) : list Z := concat (map Seg.data segs).

Lemma bytes_of_app a b : bytes_of (a ++ b) = bytes_of a ++ bytes_of b.
Proof. unfold bytes_of. by rewrite map_app, concat_app. Qed.

Lemma fragments_bytes stream n m msg :
  (length msg <= n * m)%nat -> bytes_of (fragments stream n m msg) = msg.
Proof.
  intros Hl. unfold fragments, bytes_of. rewrite map_map. cbn [piece Seg.queued Seg.data].
  assert (forall i, concat (map (fun j => take m (drop (j * m) msg)) (seq 0 i)) = take (i * m) msg) as H.
  { induction i as [|i IH]; [done|]. rewrite seq_S, map_app, concat_app, IH. cbn [map concat].
    rewrite app_nil_r, Nat.add_0_l, take_take_drop. f_equal. lia. }
  rewrite H. by apply take_ge.
Qed.

(** Streaming mode: bytes are appended to the last segment. *)
Lemma append_last_spec f s buffer len :
  conf_wf f -> snd_wf f s -> 0 <= len <= Z.of_nat (length buffer) ->
  exists s' b l, append_last (mss f) s buffer len = Done (s', b, l) /\ snd_wf f s' /\
    length (snd_queue s') = length (snd_queue s) /\ 0 <= l <= Z.of_nat (length b) /\ l <= len /\
    bytes_of (snd_queue s') ++ take (Z.to_nat l) b = bytes_of (snd_queue s) ++ take (Z.to_nat len) buffer.
Proof.
  intros [_ Hm Hms _ _ _ _] Hs Hl. unfold IKCP_OVERHEAD in *. unfold append_last.
  destruct (last (snd_queue s)) as [old|] eqn:El; [|by exists s, buffer, len].
  destruct (Z.ltb_spec (Seg.len old) (mss f)) as [Hlt|Hge]; [|by exists s, buffer, len].
  apply last_Some in El as [q Eq]. pose proof (sw_waiting _ _ Hs) as Hw. rewrite Eq in Hw.
  apply Forall_app in Hw as [Hwq Hold]. apply Forall_cons in Hold as [(O1 & O2 & O3) _].
  rewrite s32_small by lia. set (extend := if len <? mss f - Seg.len old then len else mss f - Seg.len old).
  assert (Hext : 0 <= extend <= len /\ extend <= mss f - Seg.len old)
    by (unfold extend; destruct (Z.ltb_spec len (mss f - Seg.len old)); lia).
  rewrite memcpy_in by (unfold ikcp_malloc; rewrite ?length_replicate; lia). rewrite bind_Done, take_0, drop_0. cbn [app].
  rewrite firstn_all2 by lia. unfold ikcp_malloc. rewrite drop_replicate.
  rewrite memcpy_in by (rewrite ?length_app, ?length_replicate; lia). rewrite bind_Done, drop_0.
  rewrite take_app_length' by lia. rewrite drop_ge by (rewrite length_app, length_replicate; lia). rewrite app_nil_r.
  rewrite u32_small by (unfold is_u32; lia).
  assert (removelast (snd_queue s) = q) as -> by (rewrite Eq; apply removelast_last).
  eexists _, _, _. split; [done|]. cbn [snd_queue]. split; [|split; [|split; [|split]]].
  - destruct Hs as [S1 S2 S3 S4 S5 S6 S7 S8 S9 S10 S11]. rewrite Eq, length_app in *. cbn [length] in *.
    split; cbn [snd_una snd_nxt snd_queue snd_buf nsnd_que nsnd_buf]; rewrite ?length_app; cbn [length]; try done.
    apply Forall_app. split; [done|]. repeat constructor; cbn [Seg.queued Seg.len Seg.data].
    + done.
    + rewrite length_app, length_take. lia.
    + lia.
  - rewrite Eq, !length_app. done.
  - rewrite length_drop. lia.
  - lia.
  - rewrite Eq, !bytes_of_app. unfold bytes_of at 2 4. cbn [map concat Seg.queued Seg.data].
    rewrite !app_nil_r, <- !app_assoc. do 2 f_equal.
    replace (Z.to_nat (len - extend)) with (Z.to_nat len - Z.to_nat extend)%nat by lia.
    rewrite <- skipn_firstn_comm. rewrite <- (take_drop (Z.to_nat extend) (take (Z.to_nat len) buffer)) at 2.
    rewrite take_take. do 2 f_equal. lia.
Qed.

(** The rest of [ikcp_send], behind the streaming part. *)
Definition send_rest (k : ikcpcb) (s : sender) (buffer : list Z) (len : Z) : exec (Z * ikcpcb) :=
  let mss := mss (conf k) in
  let count := if len <=? s32 mss then 1 else s32 (u32 (u32 (len + mss) - 1) / mss) in
  if IKCP_WND_RCV <=? count then Done (-2, set_sending s k) else
  let count := if count =? 0 then 1 else count in
  f ← fragment mss (stream (conf k)) (Z.to_nat count) s buffer len;
  Done (0, set_sending f.1.1 k).

Lemma send_rest_spec k s buffer len :
  conf_wf (conf k) -> snd_wf (conf k) s -> 0 <= len <= Z.of_nat (length buffer) -> len < 2 ^ 31 ->
  Z.of_nat (length (snd_queue s)) + IKCP_WND_RCV < 2 ^ 32 ->
  let n := count_of (mss (conf k)) len in
  let segs := fragments (stream (conf k)) (Z.to_nat n) (Z.to_nat (mss (conf k))) (take (Z.to_nat len) buffer) in
  send_rest k s buffer len =
    Done (if IKCP_WND_RCV <=? n then (-2, set_sending s k) else (0, set_sending (enqueue s segs) k)) /\
  (n < IKCP_WND_RCV -> snd_wf (conf k) (enqueue s segs)).
Proof.
  intros Hf Hs Hl Hlen Hq n segs. pose proof Hf as [_ Hm Hms _ _ _ _]. unfold IKCP_OVERHEAD in *.
  destruct (count_of_spec (mss (conf k)) len) as (Hn1 & Hn2 & Hn3); [lia|lia|]. fold n in Hn1, Hn2, Hn3.
  unfold send_rest. rewrite s32_small by lia.
  assert ((if len <=? mss (conf k) then 1 else s32 (u32 (u32 (len + mss (conf k)) - 1) / mss (conf k))) = n) as ->.
  { unfold n, count_of. destruct (Z.leb_spec len (mss (conf k))); [done|].
    rewrite (u32_small (len + _)), u32_small by (unfold is_u32; lia). apply s32_small.
    pose proof (Z.div_pos (len + mss (conf k) - 1) (mss (conf k))).
    pose proof (Z.div_le_upper_bound (len + mss (conf k) - 1) (mss (conf k)) (2 ^ 31 - 1)). nia. }
  unfold IKCP_WND_RCV in *. split.
  - destruct (Z.leb_spec 128 n); [done|]. rewrite (proj2 (Z.eqb_neq n 0)) by lia.
    pose proof (sw_que _ _ Hs) as Hqs.
    destruct (fragment_spec (mss (conf k)) (stream (conf k)) (Z.to_nat n) s buffer len) as (b & l & ->);
      [lia|lia|lia|lia|nia|]. by rewrite bind_Done.
  - intros Hlt. apply enqueue_wf; [done|apply fragments_waiting; [done|lia]|].
    unfold segs, fragments. rewrite length_map, length_seq. lia.
Qed.

(** Message mode: all the fragments of the message, or an error. *)
Lemma send_message k msg :
  conf_wf (conf k) -> snd_wf (conf k) (sending k) -> stream (conf k) = 0 -> Z.of_nat (length msg) < 2 ^ 31 ->
  Z.of_nat (length (snd_queue (sending k))) + IKCP_WND_RCV < 2 ^ 32 ->
  let n := count_of (mss (conf k)) (Z.of_nat (length msg)) in
  let segs := fragments 0 (Z.to_nat n) (Z.to_nat (mss (conf k))) msg in
  ikcp_send k msg (Z.of_nat (length msg)) =
    Done (if IKCP_WND_RCV <=? n then (-2, k) else (0, set_sending (enqueue (sending k) segs) k)) /\
  (n < IKCP_WND_RCV -> snd_wf (conf k) (enqueue (sending k) segs)).
Proof.
  intros Hf Hs Hst Hl Hq n segs. pose proof Hf as [_ Hm Hms _ _ _ _]. unfold IKCP_OVERHEAD in *.
  destruct (send_rest_spec k (sending k) msg (Z.of_nat (length msg)) Hf Hs) as [E W]; [lia|lia|done|].
  rewrite Nat2Z.id, firstn_all, Hst in E, W. fold n in E, W. fold segs in E, W. split; [|done].
  unfold ikcp_send. rewrite (proj2 (Z.eqb_neq (mss (conf k)) 0)), (proj2 (Z.ltb_ge _ 0)), Hst by lia. cbn [Z.eqb negb andb].
  rewrite bind_Done. unfold send_rest in E. rewrite Hst in E. rewrite E.
  destruct (IKCP_WND_RCV <=? n); [|done]. by destruct k.
Qed.

(** Either mode: it returns and keeps the queue well formed. *)
Lemma send_wf k buffer len :
  conf_wf (conf k) -> snd_wf (conf k) (sending k) -> len <= Z.of_nat (length buffer) -> len < 2 ^ 31 ->
  Z.of_nat (length (snd_queue (sending k))) + IKCP_WND_RCV < 2 ^ 32 ->
  exists r s', ikcp_send k buffer len = Done (r, set_sending s' k) /\ snd_wf (conf k) s'.
Proof.
  intros Hf Hs Hl Hl31 Hq. pose proof Hf as [_ Hm Hms _ _ _ _]. unfold IKCP_OVERHEAD in *.
  unfold ikcp_send. rewrite (proj2 (Z.eqb_neq (mss (conf k)) 0)) by lia.
  destruct (Z.ltb_spec len 0); [exists (-1), (sending k); split; [by destruct k|done]|].
  assert (exists s b l, (if negb (stream (conf k) =? 0) then append_last (mss (conf k)) (sending k) buffer len
    else Done (sending k, buffer, len)) = Done (s, b, l) /\ snd_wf (conf k) s /\
    length (snd_queue s) = length (snd_queue (sending k)) /\ 0 <= l <= Z.of_nat (length b) /\ l <= len) as (s & b & l & -> & H1 & H2 & H3 & H4).
  { destruct (stream (conf k) =? 0); cbn [negb]; [by exists (sending k), buffer, len|].
    destruct (append_last_spec (conf k) (sending k) buffer len Hf Hs) as (s & b & l & ? & ? & ? & ? & ? & ?); [lia|].
    by exists s, b, l. }
  rewrite bind_Done. destruct (_ && _); [by exists 0, s|].
  destruct (send_rest_spec k s b l Hf H1 H3) as [E W]; [lia|by rewrite H2|]. unfold send_rest in E. rewrite E.
  destruct (Z.leb_spec IKCP_WND_RCV (count_of (mss (conf k)) l)); [by exists (-2), s|].
  eexists _, _. split; [done|]. by apply W.
Qed.

(** ** Joining *)

(** The segments up to the last fragment of a message, and the others. *)
Fixpoint split_message (q : list Seg.t) : list Seg.t * list Seg.t :=
  match q with
  | [] => ([], [])
  | s :: q => if Seg.frg s =? 0 then ([s], q) else let '(m, rest) := split_message q in (s :: m, rest)
  end.

Lemma split_message_app q : (split_message q).1 ++ (split_message q).2 = q.
Proof.
  induction q as [|s q IH]; [done|]. cbn [split_message]. destruct (Seg.frg s =? 0); [done|].
  destruct (split_message q). cbn in *. by rewrite IH.
Qed.

Lemma bytes_of_cons s q : bytes_of (s :: q) = Seg.data s ++ bytes_of q.
Proof. done. Qed.

Lemma peek_length_spec q : forall len,
  Forall whole q -> 0 <= len -> len + Z.of_nat (length (bytes_of (split_message q).1)) < 2 ^ 31 ->
  peek_length q len = len + Z.of_nat (length (bytes_of (split_message q).1)).
Proof.
  induction q as [|s q IH]; intros len Hq H0 Hl; [cbn; lia|]. apply Forall_cons in Hq as [Hs Hq]. unfold whole in Hs.
  cbn [split_message peek_length] in *. destruct (Seg.frg s =? 0).
  - cbn [fst] in *. rewrite bytes_of_cons, app_nil_r in *. rewrite s32_small by lia. by rewrite Hs.
  - destruct (split_message q) as [m rest]. cbn [fst] in *. rewrite bytes_of_cons, length_app in *.
    rewrite s32_small, IH by (done || lia). lia.
Qed.

Definition written (buffer : option (list Z)) (p : nat) (bs : list Z) : option (list Z) :=
  match buffer with Some b => Some (splice b p bs) | None => None end.

Lemma merge_fragments_spec q : forall buffer p len n,
  Forall whole q -> 0 <= len -> Z.of_nat (length q) <= n < 2 ^ 32 ->
  len + Z.of_nat (length (bytes_of (split_message q).1)) < 2 ^ 31 ->
  (forall b, buffer = Some b -> (p + length (bytes_of (split_message q).1) <= length b)%nat) ->
  merge_fragments q buffer p len n =
  Done (written buffer p (bytes_of (split_message q).1), len + Z.of_nat (length (bytes_of (split_message q).1)),
        (split_message q).2, n - Z.of_nat (length (split_message q).1)).
Proof.
  induction q as [|s q IH]; intros buffer p len n Hq H0 Hn Hl Hb; cbn [merge_fragments split_message].
  - cbn. rewrite Z.add_0_r, Z.sub_0_r. do 4 f_equal. destruct buffer as [b|]; [|done]. cbn. f_equal.
    unfold splice. cbn. by rewrite Nat.add_0_r, take_drop.
  - apply Forall_cons in Hq as [Hs Hq]. unfold whole in Hs. cbn [split_message length] in *.
    assert (forall rest, length (bytes_of (s :: rest)) = (length (Seg.data s) + length (bytes_of rest))%nat) as Hlen
      by (intros rest; by rewrite bytes_of_cons, length_app).
    assert ((p + length (Seg.data s) <= default (p + length (Seg.data s)) (length <$> buffer))%nat) as Hb1.
    { destruct buffer as [b|]; [|done]. cbn. specialize (Hb b eq_refl).
      destruct (Seg.frg s =? 0); [|destruct (split_message q)]; cbn [fst] in Hb; rewrite Hlen in Hb; lia. }
    assert (match buffer with
            | None => Done None
            | Some b => b ← memcpy b p (Seg.data s) 0 (Z.to_nat (Seg.len s)); Done (Some b)
            end = Done (written buffer p (Seg.data s))) as ->.
    { destruct buffer as [b|]; [|done]. cbn in Hb1. rewrite Hs, Nat2Z.id, memcpy_splice, bind_Done, firstn_all by lia. done. }
    rewrite bind_Done, u32_small by (unfold is_u32; lia). destruct (Seg.frg s =? 0).
    + cbn [fst snd length] in *. rewrite bytes_of_cons, app_nil_r in *. rewrite s32_small by lia. rewrite Hs. done.
    + destruct (split_message q) as [m rest] eqn:Em. cbn [fst snd length] in *. rewrite bytes_of_cons, length_app in *.
      rewrite s32_small, IH by (done || lia ||
        (intros b' Hb'; destruct buffer as [b|]; [|done]; cbn in *; injection Hb' as <-; specialize (Hb b eq_refl);
         rewrite length_splice; lia)).
      assert (written (written buffer p (Seg.data s)) (p + Z.to_nat (Seg.len s)) (bytes_of m) =
        written buffer p (Seg.data s ++ bytes_of m)) as ->.
      { destruct buffer as [b|]; [|done]. cbn. f_equal. specialize (Hb b eq_refl). rewrite Hs, Nat2Z.id. apply splice_at; lia. }
      rewrite Hs. f_equal. f_equal; [|lia]. f_equal. f_equal. lia.
Qed.

(** The first message is complete. *)
Definition complete (r : receiver) : bool :=
  match rcv_queue r with [] => false | s :: _ => (Seg.frg s =? 0) || negb (nrcv_que r <? u32 (Seg.frg s + 1)) end.

Definition first_bytes (r : receiver) : list Z := bytes_of (split_message (rcv_queue r)).1.

Lemma split_message_length q :
  (length (split_message q).1 + length (split_message q).2 = length q)%nat /\
  (length (bytes_of (split_message q).1) <= length (bytes_of q))%nat.
Proof.
  split.
  - rewrite <- length_app. by rewrite split_message_app.
  - rewrite <- (split_message_app q) at 2. rewrite bytes_of_app, length_app. lia.
Qed.

Lemma peeksize_spec r :
  rcv_wf r -> Z.of_nat (length (bytes_of (rcv_queue r))) < 2 ^ 31 ->
  ikcp_peeksize r = if complete r then Z.of_nat (length (first_bytes r)) else -1.
Proof.
  intros Hr Hl. pose proof (rw_queue_whole r Hr) as Hw. destruct (split_message_length (rcv_queue r)) as [_ Hle].
  pose proof (peek_length_spec (rcv_queue r) 0 Hw) as Hp.
  unfold ikcp_peeksize, complete, first_bytes. destruct (rcv_queue r) as [|s q] eqn:Eq; [done|].
  destruct (Seg.frg s =? 0) eqn:E; cbn [orb].
  - cbn [split_message]. rewrite E. cbn [fst]. rewrite bytes_of_cons, app_nil_r.
    apply Forall_cons in Hw as [Hs _]. unfold whole in Hs. rewrite bytes_of_cons, length_app in Hl. rewrite s32_small; lia.
  - destruct (nrcv_que r <? u32 (Seg.frg s + 1)); [done|]. apply Hp; lia.
Qed.

(** The receiver without its first message. *)
Definition taken (r : receiver) : receiver :=
  let m := split_message (rcv_queue r) in
  mkReceiver (rcv_nxt r) m.2 (rcv_buf r) (nrcv_que r - Z.of_nat (length m.1)) (nrcv_buf r).

Lemma taken_wf r : rcv_wf r -> rcv_wf (taken r).
Proof.
  intros [R1 R2 R3 R4 R5 R6 R7 R8]. destruct (split_message_length (rcv_queue r)) as [Hs _].
  split; cbn [taken rcv_nxt rcv_queue rcv_buf nrcv_que nrcv_buf]; try done; [lia|lia|].
  rewrite <- (split_message_app (rcv_queue r)) in R7. by apply Forall_app in R7 as [_ R7].
Qed.

(** The control block behind a successful [ikcp_recv]. *)
Definition received (k : ikcpcb) (peek : bool) : ikcpcb :=
  let r := receiving k in
  let w := rcv_wnd (conf k) in
  let r1 := if peek then r else taken r in
  let r2 := move_available w r1 in
  let c := if (nrcv_que r2 <? w) && (w <=? nrcv_que r)
           then set_probe (Z.lor (probe (control k)) IKCP_ASK_TELL) (control k) else control k in
  set_control c (set_receiving r2 k).

Lemma recv_spec k buffer len :
  rcv_wf (receiving k) -> Z.of_nat (length (bytes_of (rcv_queue (receiving k)))) < 2 ^ 31 ->
  (forall b, buffer = Some b -> Z.abs len <= Z.of_nat (length b)) ->
  ikcp_recv k buffer len =
  let size := Z.of_nat (length (first_bytes (receiving k))) in
  Done (if bool_decide (rcv_queue (receiving k) = []) then (-1, buffer, k)
        else if negb (complete (receiving k)) then (-2, buffer, k)
        else if Z.abs len <? size then (-3, buffer, k)
        else (size, written buffer 0 (first_bytes (receiving k)), received k (len <? 0))).
Proof.
  intros Hr Hl Hb. unfold ikcp_recv. cbv zeta. destruct (bool_decide (rcv_queue (receiving k) = [])); [done|].
  rewrite (peeksize_spec _ Hr Hl). destruct (complete (receiving k)); cbn [negb]; [|done].
  rewrite (proj2 (Z.ltb_ge _ 0)) by lia.
  assert ((if len <? 0 then - len else len) = Z.abs len) as -> by (destruct (Z.ltb_spec len 0); lia).
  destruct (Z.ltb_spec (Z.abs len) (Z.of_nat (length (first_bytes (receiving k))))) as [|Hge]; [done|].
  destruct (split_message_length (rcv_queue (receiving k))) as [_ Hle].
  pose proof (rw_que _ Hr) as Hq. pose proof (rw_quelen _ Hr) as Hq31.
  rewrite merge_fragments_spec; [|apply Hr|lia|lia|lia|].
  2: { intros b Eb. specialize (Hb b Eb). unfold first_bytes in Hge. lia. }
  rewrite bind_Done, Z.add_0_l. fold (first_bytes (receiving k)). rewrite Z.eqb_refl. done.
Qed.

Lemma received_wf k peek :
  rcv_wf (receiving k) -> 0 <= rcv_wnd (conf k) < 2 ^ 31 -> rcv_wf (receiving (received k peek)).
Proof.
  intros Hr Hw. unfold received. cbn [receiving set_control set_receiving]. unfold move_available.
  match goal with |- rcv_wf (move_from _ (rcv_buf ?x) _) => set (r1 := x) end.
  assert (rcv_wf r1) as Hr1 by (subst r1; destruct peek; [done|by apply taken_wf]).
  by destruct (move_spec _ _ r1 Hr1 eq_refl Hw) as (n & _ & _ & _ & _ & _ & Hwf & _).
Qed.

End KcpSend.
