(* ===== verification/KcpInput.v ===== *)
(** * KCP: datagrams from the network

    [ikcp_input] on any bytes whatsoever returns one of its four codes, stays
    within the datagram, and leaves a well-formed control block. *)

From Stdlib Require Import Sorting.Sorted.
From S2P Require Import Prelude Kcp KcpWire KcpRecv KcpAcks KcpFlush.

#[local] Set Warnings "-level-tolerance".

Module KcpInput.
Import Kcp KcpWire KcpRecv KcpAcks KcpFlush.

(** ** Acknowledgements take segments out of flight *)

Lemma Forall_sublist {A} (P : A -> Prop) (l k : list A) : sublist k l -> Forall P l -> Forall P k.
Proof.
  induction 1 as [|x l1 l2 _ IH|x l1 l2 _ IH]; intros H; [done| |]; apply Forall_cons in H as [Hx H].
  - constructor; [done|by apply IH].
  - by apply IH.
Qed.

Lemma sorted_sublist {A} (R : A -> A -> Prop) (l k : list A) : sublist k l -> StronglySorted R l -> StronglySorted R k.
Proof.
  induction 1 as [|x l1 l2 Hs IH|x l1 l2 Hs IH]; intros H; [done| |]; apply StronglySorted_inv in H as [H Hx].
  - constructor; [by apply IH|by eapply Forall_sublist].
  - by apply IH.
Qed.

(** Distances from a later base. *)
Lemma dist_rebase a b base :
  is_u32 a -> dist b base <= dist a base -> dist a b = dist a base - dist b base.
Proof. unfold dist, u32, is_u32. change (2 ^ 32) with 4294967296. intros. lia_div. Qed.

Lemma sorted_rebase base b l :
  StronglySorted (ahead base) l -> Forall (fun s => is_u32 (Seg.sn s) /\ dist b base <= dist (Seg.sn s) base) l ->
  StronglySorted (ahead b) l.
Proof.
  induction 1 as [|s l Hs IH Hf]; intros Hl; constructor; apply Forall_cons in Hl as [[Hu Hd] Hl]; [by apply IH|].
  rewrite Forall_forall in *. intros x Hx. destruct (Hl x Hx) as [Hxu Hxd]. specialize (Hf x Hx). unfold ahead in *.
  rewrite (dist_rebase (Seg.sn s) b base), (dist_rebase (Seg.sn x) b base) by (done || lia). lia.
Qed.

(** The sender when [l] is left in flight. *)
Definition left_in_flight (s : sender) (l : list Seg.t) : sender :=
  ikcp_shrink_buf (mkSender (snd_una s) (snd_nxt s) (snd_queue s) l (nsnd_que s) (Z.of_nat (length l))).

Lemma left_in_flight_wf f s l : snd_wf f s -> sublist l (snd_buf s) -> snd_wf f (left_in_flight s l).
Proof.
  intros [S1 S2 S3 S4 S5 S6 S7 S8 S9 S10 S11] Hl.
  apply (sorted_sublist _ _ _ Hl) in S7. apply (Forall_sublist _ _ _ Hl) in S8. apply (Forall_sublist _ _ _ Hl) in S10.
  assert (Forall (fun x => is_u32 (Seg.sn x)) l) as Hu by (apply (Forall_impl _ _ _ S10); by intros x [[] _]).
  unfold left_in_flight, ikcp_shrink_buf, set_snd_una. cbn [snd_una snd_nxt snd_queue snd_buf nsnd_que nsnd_buf].
  set (una := match l with [] => snd_nxt s | seg :: _ => Seg.sn seg end).
  assert (is_u32 una) as Hun by (unfold una; destruct l; [done|by apply Forall_cons in Hu as [? _]]).
  assert (dist una (snd_una s) <= dist (snd_nxt s) (snd_una s)) as Hle.
  { unfold una. destruct l; [done|]. apply Forall_cons in S8 as [H _]. lia. }
  assert (Forall (fun x => is_u32 (Seg.sn x) /\ dist una (snd_una s) <= dist (Seg.sn x) (snd_una s)) l) as Hd.
  { unfold una. destruct l as [|h t]; [constructor|]. apply StronglySorted_inv in S7 as [_ Hf].
    rewrite Forall_forall in *. intros x Hx. split; [by apply Hu|]. apply elem_of_cons in Hx as [->|Hx]; [done|].
    specialize (Hf x Hx). unfold ahead in Hf. lia. }
  split; cbn [snd_una snd_nxt snd_queue snd_buf nsnd_que nsnd_buf]; try done.
  - by apply (sorted_rebase (snd_una s)).
  - rewrite Forall_forall in *. intros x Hx. destruct (Hd x Hx) as [Hxu Hxd]. specialize (S8 x Hx).
    rewrite (dist_rebase (Seg.sn x) una (snd_una s)), (dist_rebase (snd_nxt s) una (snd_una s)) by (done || lia). lia.
  - rewrite (dist_rebase (snd_nxt s) una (snd_una s)) by done. pose proof (dist_range una (snd_una s)). lia.
Qed.

Lemma una_loop_spec una segs : forall n,
  Z.of_nat (length segs) <= n < 2 ^ 32 ->
  exists j, una_loop una segs n = (drop j segs, n - Z.of_nat (length segs) + Z.of_nat (length (drop j segs))).
Proof.
  induction segs as [|s segs IH]; intros n Hn; cbn [una_loop length] in *.
  - exists 0%nat. cbn. f_equal. lia.
  - destruct (0 <? _); [|exists 0%nat; cbn [drop length]; f_equal; lia].
    rewrite u32_small by (unfold is_u32; lia). destruct (IH (n - 1)) as [j ->]; [lia|].
    exists (S j). cbn [drop]. f_equal. lia.
Qed.

Lemma ack_loop_spec sn segs :
  sublist (ack_loop sn segs).1 segs /\
  length segs = (length (ack_loop sn segs).1 + (if (ack_loop sn segs).2 then 1 else 0))%nat.
Proof.
  induction segs as [|s segs [IH1 IH2]]; cbn [ack_loop]; [by split; [constructor|]|].
  destruct (sn =? Seg.sn s); [cbn; split; [by apply sublist_cons|lia]|].
  destruct (_ <? 0); [cbn; split; [done|lia]|].
  destruct (ack_loop sn segs) as [rest b]. cbn in *. split; [by apply sublist_skip|lia].
Qed.

Lemma parse_una_wf f s una : snd_wf f s -> snd_wf f (ikcp_shrink_buf (ikcp_parse_una s una)).
Proof.
  intros Hs. pose proof (snd_buf_length f s Hs) as Hl. unfold ikcp_parse_una.
  rewrite (sw_buf f s Hs). destruct (una_loop_spec una (snd_buf s) (Z.of_nat (length (snd_buf s)))) as [j ->]; [lia|].
  rewrite Z.sub_diag, Z.add_0_l. apply left_in_flight_wf; [done|apply sublist_drop].
Qed.

Lemma parse_ack_wf f s sn : snd_wf f s -> snd_wf f (ikcp_shrink_buf (ikcp_parse_ack s sn)).
Proof.
  intros Hs. pose proof (snd_buf_length f s Hs) as Hl. unfold ikcp_parse_ack. destruct (outside_window s sn).
  - replace s with (mkSender (snd_una s) (snd_nxt s) (snd_queue s) (snd_buf s) (nsnd_que s) (Z.of_nat (length (snd_buf s))))
      by (rewrite <- (sw_buf f s Hs); by destruct s).
    by apply (left_in_flight_wf f s).
  - destruct (ack_loop_spec sn (snd_buf s)) as [H1 H2]. destruct (ack_loop sn (snd_buf s)) as [l b]. cbn [fst snd] in *.
    replace (if b then u32 (nsnd_buf s - 1) else nsnd_buf s) with (Z.of_nat (length l))
      by (rewrite (sw_buf f s Hs); destruct b; rewrite ?u32_small; unfold is_u32; lia).
    by apply left_in_flight_wf.
Qed.

Lemma parse_fastack_wf f s sn ts : snd_wf f s -> snd_wf f (ikcp_parse_fastack s sn ts).
Proof.
  intros Hs. unfold ikcp_parse_fastack. destruct (outside_window s sn); [done|]. apply snd_wf_replace; [done|].
  assert (forall l, Forall2 (fun x y => Seg.sn y = Seg.sn x /\ (flying f x -> flying f y)) l l) as Hid
    by (intros l; apply Forall_Forall2_diag, Forall_forall; done).
  induction (snd_buf s) as [|x l IH]; cbn [fastack_loop]; [constructor|]. destruct (_ <? 0); [apply Hid|].
  constructor; [|done]. destruct (sn =? Seg.sn x); [done|]. split; [done|].
  intros ([] & ? & ? & ?). by split; [split|].
Qed.

(** ** Windows and timers *)

(** Whatever round-trip time an acknowledgement claims, the timeout stays
    within its bounds. *)
Lemma update_ack_wf f c rtt : conf_wf f -> control_wf c -> control_wf (ikcp_update_ack f c rtt).
Proof.
  intros [_ _ _ _ _ _ Hm] [H1 H2 H3]. unfold ikcp_update_ack, IKCP_RTO_MAX in *. destruct (if _ =? 0 then _ else _) as [v t].
  split; cbn [set_rtt rmt_wnd cwnd rx_rto]; try done. rewrite (u32_small (rx_minrto f)) by (unfold is_u32; lia).
  unfold _ibound_, _imin_, _imax_, IKCP_RTO_MAX.
  repeat (match goal with |- context [?a <=? ?b] => destruct (Z.leb_spec a b) end); lia.
Qed.

Lemma next_cwnd_u32 m c : 0 < m -> is_u32 (cwnd c) -> exists cw ic, next_cwnd m c = Done (cw, ic) /\ is_u32 cw.
Proof.
  intros Hm Hc. unfold next_cwnd. destruct (cwnd c <? ssthresh c); [eexists _, _; split; [done|apply u32_range]|].
  unfold udiv. rewrite (proj2 (Z.eqb_neq _ 0)) by (destruct (Z.ltb_spec (incr c) m); lia). rewrite bind_Done.
  destruct (_ <=? _); [|by eexists _, _]. eexists _, _. split; [done|]. rewrite (proj2 (Z.ltb_lt 0 m)) by done.
  match goal with |- is_u32 (u32 ?x / m) => pose proof (u32_range x) as Hr; generalize dependent (u32 x) end.
  intros a [Ha1 Ha2]. unfold is_u32. pose proof (Z.div_pos a m). pose proof (Z.div_le_upper_bound a m (2 ^ 32 - 1)). nia.
Qed.

Lemma grow_cwnd_wf m c : 0 < m -> control_wf c -> exists c', grow_cwnd m c = Done c' /\ control_wf c'.
Proof.
  intros Hm [H1 H2 H3]. unfold grow_cwnd. destruct (cwnd c <? rmt_wnd c); cbn [negb]; [|by exists c].
  destruct (next_cwnd_u32 m c Hm H2) as (cw & ic & -> & Hcw). rewrite bind_Done.
  destruct (rmt_wnd c <? cw); eexists; (split; [done|]); split; cbn; try done. unfold is_u32. lia.
Qed.

(** ** One segment *)

Lemma set_sending_wf k s : kcp_wf k -> snd_wf (conf k) s -> kcp_wf (set_sending s k).
Proof. intros [] H. by split. Qed.
Lemma set_receiving_wf k r : kcp_wf k -> rcv_wf r -> kcp_wf (set_receiving r k).
Proof. intros [] H. by split. Qed.
Lemma set_control_wf k c : kcp_wf k -> control_wf c -> kcp_wf (set_control c k).
Proof. intros [] H. by split. Qed.
Lemma set_probe_wf v c : control_wf c -> control_wf (set_probe v c).
Proof. intros []. by split. Qed.

Lemma input_push_wf k cv cmd frg wnd ts sn una len data :
  kcp_wf k -> is_u32 sn -> is_u32 ts -> 0 <= len <= Z.of_nat (length data) -> ackcount (acks k) + 1 < 2 ^ 31 ->
  exists k', input_push k cv cmd frg wnd ts sn una len data = Done k' /\ kcp_wf k' /\ conf k' = conf k /\
    ackcount (acks k') <= ackcount (acks k) + 1.
Proof.
  intros Hk Hsn Hts Hlen Hack. unfold input_push. destruct (_ <? 0); [|exists k; split; [done|]; split; [done|]; split; [done|lia]].
  destruct (kw_acks k Hk) as (ps & Hr & Hps). pose proof (ar_count _ _ Hr) as Hc.
  destruct (ack_push_spec (acks k) ps sn ts Hr) as (a & -> & Ha); [lia|]. rewrite bind_Done.
  pose proof (ar_count _ _ Ha) as Hc'. rewrite length_app in Hc'. cbn [length] in Hc'.
  assert (kcp_wf (set_acks a k)) as Hk1.
  { destruct Hk. split; try done; cbn [set_acks acks]; [|lia]. exists (ps ++ [(sn, ts)]). split; [done|].
    apply Forall_app. split; [done|]. by apply Forall_singleton. }
  destruct (0 <=? _); [|exists (set_acks a k); split; [done|]; split; [done|]; split; [done|]; cbn; lia].
  assert ((if 0 <? len then memcpy (ikcp_malloc (Z.to_nat len)) 0 data 0 (Z.to_nat len) else Done (ikcp_malloc (Z.to_nat len)))
    = Done (take (Z.to_nat len) data)) as ->.
  { unfold ikcp_malloc. destruct (Z.ltb_spec 0 len); [|by replace len with 0 by lia].
    rewrite memcpy_in by (rewrite ?length_replicate; lia). rewrite drop_0, drop_ge by (rewrite length_replicate; lia).
    by rewrite app_nil_r. }
  rewrite bind_Done. eexists. split; [done|]. split; [|split; [done|cbn; lia]].
  apply set_receiving_wf; [done|]. pose proof (cw_rcv _ (kw_conf k Hk)). unfold IKCP_WND_RCV in *.
  apply parse_data_wf; [apply Hk|lia|done|]. unfold whole. cbn [Seg.len Seg.data]. rewrite length_take. lia.
Qed.

Lemma input_segment_wf k a cv cmd frg wnd ts sn una len data :
  kcp_wf k -> 0 <= wnd < 2 ^ 16 -> is_u32 sn -> is_u32 ts -> 0 <= len <= Z.of_nat (length data) ->
  ackcount (acks k) + 1 < 2 ^ 31 ->
  exists k' a', input_segment k a cv cmd frg wnd ts sn una len data = Done (k', a') /\ kcp_wf k' /\ conf k' = conf k /\
    ackcount (acks k') <= ackcount (acks k) + 1.
Proof.
  intros Hk Hw Hsn Hts Hlen Hack. unfold input_segment.
  match goal with |- context [set_sending ?s ?x] => set (k1 := set_sending s x) end.
  assert (kcp_wf k1) as Hk1.
  { pose proof (kw_control k Hk) as []. apply set_sending_wf; [apply set_control_wf; [done|by split]|].
    apply parse_una_wf. apply Hk. }
  assert (conf k1 = conf k /\ acks k1 = acks k) as [Ec Ea] by done. clearbody k1.
  destruct (cmd =? IKCP_CMD_ACK).
  - eexists _, _. split; [unfold input_ack; reflexivity|]. cbn [fst].
    destruct (0 <=? _); cbn [acks set_sending set_control conf]; rewrite ?Ea; (split; [|split; [done|lia]]).
    + apply set_sending_wf; [apply set_control_wf; [done|apply update_ack_wf; apply Hk1]|apply parse_ack_wf, Hk1].
    + apply set_sending_wf; [done|apply parse_ack_wf, Hk1].
  - destruct (cmd =? IKCP_CMD_PUSH).
    + destruct (input_push_wf k1 cv cmd frg wnd ts sn una len data Hk1 Hsn Hts Hlen) as (k' & -> & H1 & H2 & H3); [by rewrite Ea|].
      rewrite bind_Done. exists k', a. rewrite Ea, Ec in *. done.
    + destruct (cmd =? IKCP_CMD_WASK); eexists _, a; (split; [done|]); rewrite <- Ea, <- Ec;
        (split; [|split; [done|cbn; lia]]); [|done].
      apply set_control_wf; [done|]. apply set_probe_wf, Hk1.
Qed.

(** ** Any datagram *)

Lemma decode8u_any p : (1 <= length p)%nat -> exists v p', ikcp_decode8u p = Done (v, p') /\ length p = (1 + length p')%nat.
Proof. destruct p; cbn; [lia|]. by eexists _, _. Qed.

Lemma decode16u_any p :
  (2 <= length p)%nat -> exists v p', ikcp_decode16u p = Done (v, p') /\ 0 <= v < 2 ^ 16 /\ length p = (2 + length p')%nat.
Proof.
  destruct p as [|b0 [|b1 p]]; cbn [length]; try lia. intros _. eexists _, _. split; [reflexivity|]. split; [|done].
  unfold u16. lia_div.
Qed.

Lemma decode32u_any p :
  (4 <= length p)%nat -> exists v p', ikcp_decode32u p = Done (v, p') /\ is_u32 v /\ length p = (4 + length p')%nat.
Proof.
  destruct p as [|b0 [|b1 [|b2 [|b3 p]]]]; cbn [length]; try lia. intros _. eexists _, _. split; [reflexivity|].
  split; [apply u32_range|done].
Qed.

Lemma input_loop_wf fuel : forall k a data size,
  kcp_wf k -> size <= Z.of_nat (length data) -> size <= Z.of_nat fuel ->
  ackcount (acks k) + Z.max 0 size < 2 ^ 31 ->
  exists k' r, input_loop fuel k a data size = Done (k', r) /\ kcp_wf k' /\ conf k' = conf k /\
    match r with inl code => code = -1 \/ code = -2 \/ code = -3 | inr _ => True end.
Proof.
  induction fuel as [|fuel IH]; intros k a data size Hk Hs Hf Hack; cbn [input_loop]; unfold IKCP_OVERHEAD.
  - rewrite (proj2 (Z.ltb_lt _ _)) by lia. by exists k, (inr a).
  - destruct (Z.ltb_spec size 24) as [|Hge]; [by exists k, (inr a)|].
    destruct (decode32u_any data) as (cv & d1 & -> & _ & L1); [lia|]. rewrite bind_Done.
    destruct (negb (cv =? conv (conf k))); [exists k, (inl (-1)); by auto 6|].
    destruct (decode8u_any d1) as (cmd & d2 & -> & L2); [lia|]. rewrite bind_Done.
    destruct (decode8u_any d2) as (frg & d3 & -> & L3); [lia|]. rewrite bind_Done.
    destruct (decode16u_any d3) as (wnd & d4 & -> & Hwnd & L4); [lia|]. rewrite bind_Done.
    destruct (decode32u_any d4) as (ts & d5 & -> & Hts & L5); [lia|]. rewrite bind_Done.
    destruct (decode32u_any d5) as (sn & d6 & -> & Hsn & L6); [lia|]. rewrite bind_Done.
    destruct (decode32u_any d6) as (una & d7 & -> & _ & L7); [lia|]. rewrite bind_Done.
    destruct (decode32u_any d7) as (len & d8 & -> & Hlen & L8); [lia|]. rewrite bind_Done. unfold is_u32 in Hlen.
    destruct (Z.ltb_spec (size - 24) len); cbn [orb]; [exists k, (inl (-2)); by auto 6|].
    destruct (s32 len <? 0); [exists k, (inl (-2)); by auto 6|].
    destruct (negb (known_cmd cmd)); [exists k, (inl (-3)); by auto 6|].
    destruct (input_segment_wf k a cv cmd frg wnd ts sn una len d8)
      as (k1 & a1 & -> & H1 & H2 & H3); [done|done|done|done|lia|lia|].
    rewrite bind_Done. cbn [fst snd]. rewrite <- H2.
    apply IH; [done|rewrite !length_drop; lia|lia|lia].
Qed.

Lemma input_wf k data size :
  kcp_wf k -> size <= Z.of_nat (length data) -> ackcount (acks k) + Z.max 0 size < 2 ^ 31 ->
  exists code k', ikcp_input k (Some data) size = Done (code, k') /\ kcp_wf k' /\ conf k' = conf k /\
    -3 <= code <= 0.
Proof.
  intros Hk Hs Hack. unfold ikcp_input. destruct (s32 size <? IKCP_OVERHEAD); [exists (-1), k; split; [done|]; split; [done|]; split; [done|lia]|].
  destruct (input_loop_wf (length data) k (mkAcked false 0 0) data size Hk Hs Hs Hack) as (k1 & r & -> & H1 & H2 & H3).
  rewrite bind_Done. destruct r as [code|a]; [exists code, k1; split; [done|]; split; [done|]; split; [done|lia]|].
  set (k2 := if flag a then _ else k1).
  assert (kcp_wf k2 /\ conf k2 = conf k) as [Hk2 Ec].
  { subst k2. destruct (flag a); [|done]. split; [|done]. apply set_sending_wf; [done|]. apply parse_fastack_wf, H1. }
  pose proof (kw_conf k2 Hk2) as [_ Hm Hms _ _ _ _]. unfold IKCP_OVERHEAD in *.
  destruct (grow_cwnd_wf (mss (conf k2)) (control k2)) as (c & Hc & Hcw); [lia|apply Hk2|].
  destruct (0 <? _); [rewrite Hc|]; rewrite bind_Done; eexists 0, _; (split; [done|]); (split; [|split; [done|lia]]);
    apply set_control_wf; done || apply Hk2.
Qed.

End KcpInput.
