(* ===== verification/KcpApi.v ===== *)
(** * KCP: every sequence of calls is safe

    The invariant of the control block holds from [ikcp_create] on, through
    every sequence of the functions of ikcp.h that change it, with any data from
    the network, as long as [ikcp_setmtu] is not called with a size that
    segments already cut exceed. *)

From S2P Require Import Prelude Kcp KcpWire KcpRecv KcpAcks KcpFlush KcpSend KcpInput.

#[local] Set Warnings "-level-tolerance".

Module KcpApi.
Import Kcp KcpWire KcpRecv KcpAcks KcpFlush KcpSend KcpInput.

Lemma create_wf cv k : is_u32 cv -> ikcp_create true true cv = Some k -> kcp_wf k.
Proof.
  intros Hc [= <-]. split; cbn [conf sending receiving acks control timing buffer].
  - by split.
  - split; cbn; try done; constructor.
  - split; cbn; try done; constructor.
  - exists []. by split.
  - done.
  - by split.
  - done.
  - unfold ikcp_malloc. rewrite length_replicate. by vm_compute.
Qed.

Lemma set_timing_wf k t : kcp_wf k -> is_u32 (current t) -> kcp_wf (set_timing t k).
Proof. intros [] H. by split. Qed.

Lemma flush_wf k :
  kcp_wf k -> exists k' outs, ikcp_flush k = Done (k', outs) /\ kcp_wf k' /\ conf k' = conf k /\ receiving k' = receiving k.
Proof.
  intros Hk. destruct (Z.eqb_spec (updated (timing k)) 0) as [E|E].
  - unfold ikcp_flush. rewrite E. by exists k, [].
  - destruct (kw_acks k Hk) as (ps & Hr & Hps).
    destruct (flush_spec k ps Hk E Hr Hps) as (k' & groups & F1 & _ & _ & F4 & _ & F6 & F7 & _).
    by exists k', (map packet groups).
Qed.

(** [ikcp_update] sets the clock, and flushes or does nothing else. *)
Lemma update_cases k now :
  exists t, current t = now /\ updated t <> 0 /\
    (ikcp_update k now = ikcp_flush (set_timing t k) \/ ikcp_update k now = Done (set_timing t k, [])).
Proof.
  unfold ikcp_update. destruct (if (_ || _)%bool then _ else _) as [ts slap]. cbv zeta.
  assert ((if updated (timing k) =? 0 then 1 else updated (timing k)) <> 0) as Hu
    by (destruct (Z.eqb_spec (updated (timing k)) 0); lia).
  destruct (0 <=? slap); eexists; (split; [|split; [|by auto]]); done.
Qed.

Lemma update_wf k now :
  kcp_wf k -> is_u32 now ->
  exists k' outs, ikcp_update k now = Done (k', outs) /\ kcp_wf k' /\ conf k' = conf k /\ receiving k' = receiving k.
Proof.
  intros Hk Hn. destruct (update_cases k now) as (t & <- & _ & [E|E]); rewrite E.
  - apply (flush_wf (set_timing t k)). by apply set_timing_wf.
  - eexists _, _. split; [done|]. split; [by apply set_timing_wf|done].
Qed.

Lemma recv_wf k buffer len :
  kcp_wf k -> Z.of_nat (length (bytes_of (rcv_queue (receiving k)))) < 2 ^ 31 ->
  (forall b, buffer = Some b -> Z.abs len <= Z.of_nat (length b)) ->
  exists n b k', ikcp_recv k buffer len = Done (n, b, k') /\ kcp_wf k'.
Proof.
  intros Hk Hl Hb. rewrite (recv_spec k buffer len (kw_rcv k Hk) Hl Hb). cbv zeta.
  assert (kcp_wf (received k (len <? 0))) as Hrec.
  { unfold received. apply set_control_wf; [apply set_receiving_wf; [done|]|].
    - apply (received_wf k (len <? 0) (kw_rcv k Hk)). pose proof (cw_rcv _ (kw_conf k Hk)). unfold IKCP_WND_RCV in *. lia.
    - case_match; [apply set_probe_wf|]; apply Hk. }
  repeat (case_match; [by eexists _, _, _|]). by eexists _, _, _.
Qed.

(** ** Calls *)

Inductive call :=
  | Send (buffer : list Z) (len : Z)
  | Recv (buffer : option (list Z)) (len : Z)
  | Input (data : option (list Z)) (size : Z)
  | Update (now : Z)
  | Interval (interval : Z)
  | Nodelay (nodelay interval resend nc : Z)
  | Wndsize (sndwnd rcvwnd : Z).

Definition run_call (k : ikcpcb) (c : call) : exec ikcpcb :=
  match c with
  | Send buffer len => r ← ikcp_send k buffer len; Done r.2
  | Recv buffer len => r ← ikcp_recv k buffer len; Done r.2
  | Input data size => r ← ikcp_input k data size; Done r.2
  | Update now => r ← ikcp_update k now; Done r.1
  | Interval interval => Done (ikcp_interval k interval).2
  | Nodelay nodelay interval resend nc => Done (ikcp_nodelay k nodelay interval resend nc).2
  | Wndsize sndwnd rcvwnd => Done (ikcp_wndsize k sndwnd rcvwnd).2
  end.

(** What a caller has to respect: lengths are those of the buffers and fit an
    [int], there is memory for the queues, fewer than 2^31 acknowledgements
    wait for a flush, and windows fit the 16 bits of the header. *)
Definition call_ok (k : ikcpcb) (c : call) : Prop :=
  match c with
  | Send buffer len => len <= Z.of_nat (length buffer) /\ len < 2 ^ 31 /\
      Z.of_nat (length (snd_queue (sending k))) + IKCP_WND_RCV < 2 ^ 32
  | Recv buffer len => Z.of_nat (length (bytes_of (rcv_queue (receiving k)))) < 2 ^ 31 /\
      (forall b, buffer = Some b -> Z.abs len <= Z.of_nat (length b))
  | Input data size => (forall d, data = Some d -> size <= Z.of_nat (length d)) /\ ackcount (acks k) + Z.max 0 size < 2 ^ 31
  | Update now => is_u32 now
  | Wndsize sndwnd rcvwnd => sndwnd < 2 ^ 31 /\ rcvwnd < 2 ^ 16
  | _ => True
  end.

Lemma set_conf_wf k f :
  kcp_wf k -> conf_wf f -> conv f = conv (conf k) -> mtu f = mtu (conf k) -> mss f = mss (conf k) -> kcp_wf (set_conf f k).
Proof.
  intros [K1 K2 K3 K4 K5 K6 K7 K8] Hf E1 E2 E3. split; cbn [set_conf conf sending receiving acks control timing buffer]; try done.
  - destruct K2 as [S1 S2 S3 S4 S5 S6 S7 S8 S9 S10 S11]. split; try done; unfold flying, waiting; by rewrite ?E1, ?E3.
  - by rewrite E2.
Qed.

Lemma clamp_interval_range i : 10 <= clamp_interval i <= 5000.
Proof. unfold clamp_interval. destruct (Z.ltb_spec 5000 i); [lia|]. destruct (Z.ltb_spec i 10); lia. Qed.

Lemma call_wf k c : kcp_wf k -> call_ok k c -> exists k', run_call k c = Done k' /\ kcp_wf k'.
Proof.
  intros Hk Hc. pose proof (kw_conf k Hk) as Hf. destruct c; cbn [run_call call_ok] in *.
  - destruct Hc as (H1 & H2 & H3). destruct (send_wf k buffer0 len Hf (kw_snd k Hk) H1 H2 H3) as (r & s & -> & Hs).
    rewrite bind_Done. eexists. split; [done|]. by apply set_sending_wf.
  - destruct Hc as (H1 & H2). destruct (recv_wf k buffer0 len Hk H1 H2) as (n & b & k' & -> & Hk').
    rewrite bind_Done. by exists k'.
  - destruct Hc as (H1 & H2). destruct data as [d|]; [|by exists k].
    destruct (input_wf k d size Hk (H1 d eq_refl) H2) as (code & k' & -> & Hk' & _). rewrite bind_Done. by exists k'.
  - destruct (update_wf k now Hk Hc) as (k' & outs & -> & Hk' & _). rewrite bind_Done. by exists k'.
  - eexists. split; [done|]. destruct Hf as [C1 C2 C3 C4 C5 C6 C7]. apply set_conf_wf; try done. split; try done. apply clamp_interval_range.
  - eexists. split; [done|]. destruct Hf as [C1 C2 C3 C4 C5 C6 C7]. apply set_conf_wf; try done. split; try done; cbn.
    + destruct (0 <=? interval0); [apply clamp_interval_range|done].
    + unfold IKCP_RTO_MIN, IKCP_RTO_NDL, IKCP_RTO_MAX in *. destruct (0 <=? nodelay0); [|done]. destruct (_ =? 0); lia.
  - eexists. split; [done|]. destruct Hf as [C1 C2 C3 C4 C5 C6 C7]. unfold IKCP_WND_RCV in *. apply set_conf_wf; try done.
    split; try done; cbn; unfold _imax_, IKCP_WND_RCV.
    + destruct (Z.ltb_spec 0 sndwnd); lia.
    + destruct (Z.ltb_spec 0 rcvwnd); [|done]. destruct (Z.leb_spec 128 rcvwnd); lia.
Qed.

(** ** All the functions that change the control block *)

(** Besides the calls above, which a network may see in any order, a program
    can flush itself and change the size of the datagrams; [malloc] tells
    whether the new buffer can be allocated. *)
Inductive api :=
  | Call (c : call)
  | Flush
  | SetMtu (malloc : bool) (mtu : Z).

Definition run_api (k : ikcpcb) (a : api) : exec ikcpcb :=
  match a with
  | Call c => run_call k c
  | Flush => r ← ikcp_flush k; Done r.1
  | SetMtu malloc mtu => Done (ikcp_setmtu malloc k mtu).2
  end.

(** The segments that wait to be sent or acknowledged. *)
Definition unsent (k : ikcpcb) : list Seg.t := snd_buf (sending k) ++ snd_queue (sending k).

(** [ikcp_setmtu] is safe only when no segment that has been cut already is
    longer than the new datagrams can carry: [ikcp_flush] does not cut it again
    and would write it past the end of the new buffer
    ([KcpEdge.kcp_setmtu_overflow]). *)
Definition api_ok (k : ikcpcb) (a : api) : Prop :=
  match a with
  | Call c => call_ok k c
  | Flush => True
  | SetMtu _ mtu => mtu < 2 ^ 29 /\ (50 <= mtu -> Forall (fun s => Seg.len s <= mtu - IKCP_OVERHEAD) (unsent k))
  end.

Lemma setmtu_wf k malloc m : kcp_wf k -> api_ok k (SetMtu malloc m) -> kcp_wf (ikcp_setmtu malloc k m).2.
Proof.
  intros Hk [Hm Hs]. unfold ikcp_setmtu, IKCP_OVERHEAD. destruct (Z.ltb_spec m 50) as [|H50]; [done|].
  rewrite (proj2 (Z.ltb_ge m 24)) by lia. cbn [orb]. destruct malloc; [|done]. cbn [negb snd]. apply Forall_app in Hs as [Hb Hq]; [|done].
  destruct Hk as [[C1 C2 C3 C4 C5 C6 C7] [S1 S2 S3 S4 S5 S6 S7 S8 S9 S10 S11] K3 K4 K5 K6 K7 K8]. unfold IKCP_OVERHEAD in *.
  assert (u32 (m - 24) = m - 24) as Em by (apply u32_small; unfold is_u32; lia).
  split; cbn [conf sending receiving acks control timing buffer mtu]; try done.
  - split; try done; apply Forall_forall; intros x Hx; unfold flying, waiting; cbn [mss conv]; rewrite Em.
    + destruct (proj1 (Forall_forall _ _) S10 x Hx) as (F1 & F2 & F3 & _). split_and!; try done. exact (proj1 (Forall_forall _ _) Hb x Hx).
    + destruct (proj1 (Forall_forall _ _) S11 x Hx) as (F1 & F2 & _). split_and!; try done. exact (proj1 (Forall_forall _ _) Hq x Hx).
  - unfold ikcp_malloc. rewrite length_replicate, (u32_small (m + 24)), u32_small by (unfold is_u32; lia).
    unfold IKCP_OVERHEAD. lia.
Qed.

Lemma api_wf k a : kcp_wf k -> api_ok k a -> exists k', run_api k a = Done k' /\ kcp_wf k'.
Proof.
  intros Hk Ha. destruct a as [c| |malloc m]; cbn [run_api].
  - by apply call_wf.
  - destruct (flush_wf k Hk) as (k' & outs & -> & Hk' & _). rewrite bind_Done. by exists k'.
  - eexists. split; [done|]. by apply setmtu_wf.
Qed.

Fixpoint run_calls (k : ikcpcb) (cs : list api) : exec ikcpcb :=
  match cs with [] => Done k | c :: cs => k ← run_api k c; run_calls k cs end.

(** The calls are made in states that allow them. *)
Fixpoint calls_ok (k : ikcpcb) (cs : list api) : Prop :=
  match cs with [] => True | c :: cs => api_ok k c /\ (forall k', run_api k c = Done k' -> calls_ok k' cs) end.

(** C3: sequences of calls are safe.  From [ikcp_create] on, [ikcp_send],
    [ikcp_recv], [ikcp_update], [ikcp_flush], the settings ([ikcp_nodelay],
    [ikcp_interval], [ikcp_wndsize], [ikcp_setmtu]) and [ikcp_input] with any
    bytes, in any order, return normally (no access outside an object, no
    failed assertion, no endless loop), and the control block stays well
    formed: queues sorted and without duplicates, counters right, window and
    timeout within their bounds.  What the caller has to respect ([api_ok]):
    lengths are those of the buffers and fit an [int], windows fit the 16 bits
    of the header, fewer than 2^31 acknowledgements wait, and [ikcp_setmtu] is
    not called with a size that the segments already queued or in flight
    exceed. *)
Theorem kcp_calls_safe cv k cs :
  is_u32 cv -> ikcp_create true true cv = Some k -> calls_ok k cs -> exists k', run_calls k cs = Done k' /\ kcp_wf k'.
Proof.
  intros Hc Hk. pose proof (create_wf cv k Hc Hk) as Hwf. clear Hk. revert k Hwf.
  induction cs as [|c cs IH]; intros k Hwf Hok; [by exists k|]. destruct Hok as [Hok Hrest].
  destruct (api_wf k c Hwf Hok) as (k1 & E & Hk1). cbn [run_calls]. rewrite E, bind_Done. apply IH; [done|]. by apply Hrest.
Qed.

Definition demo : ikcpcb := default (mkKcp (mkConfig 0 0 0 0 0 0 0 0 0 0 0 0 0) (mkSender 0 0 [] [] 0 0)
  (mkReceiver 0 [] [] 0 0) (mkAcks [] 0 0) (mkCongestion 0 0 0 0 0 0 0 0 0 0) (mkTimer 0 0 0 0 0) []) (ikcp_create true true 17).

Lemma kcp_calls_safe_witness :
  let cs := [SetMtu false 600; SetMtu true 1000; Call (Nodelay 1 10 2 1); Call (Wndsize 64 256); Call (Send [1; 2; 3] 3); Call (Update 7);
    SetMtu true 60; Flush; Call (Input (Some [1; 2; 3]) 3); Call (Recv None 5); SetMtu true 20] in
  exists k', run_calls demo cs = Done k' /\ kcp_wf k'.
Proof.
  intros cs. apply (kcp_calls_safe 17); [done|done|]. unfold cs. clear cs.
  repeat match goal with
    | |- True => exact I
    | |- calls_ok _ [] => exact I
    | |- calls_ok _ (_ :: _) => split; [repeat split; first [by vm_compute | by intros ? [= <-]; vm_compute | by intros ? [=] | lia | by intros _; vm_compute; repeat constructor; try discriminate] |]
    | |- forall k', run_api _ _ = Done k' -> _ => let E := fresh in intros ? E; vm_compute in E; injection E as <-
    end.
Defined.

End KcpApi.
