(* ===== verification/KcpNet.v ===== *)
(** * KCP: reliable delivery over an unreliable network

    Two endpoints and a network that may lose, delay, duplicate and reorder
    the datagrams of the first, and that may hand anything at all to it as
    answers.  The messages the second endpoint delivers are always a prefix of
    the messages the first one accepted. *)

From S2P Require Import Prelude Kcp KcpWire KcpRecv KcpAcks KcpFlush KcpSend KcpInput KcpApi.

#[local] Set Warnings "-level-tolerance".

Module KcpNet.
Import Kcp KcpWire KcpRecv KcpAcks KcpFlush KcpSend KcpInput KcpApi.

(** ** Contents *)

(** What a segment carries. *)
Definition key (s : Seg.t) : Z * list Z := (Seg.frg s, Seg.data s).

Definition message_keys (m : Z) (msg : list Z) : list (Z * list Z) :=
  map key (fragments 0 (Z.to_nat (count_of m (Z.of_nat (length msg)))) (Z.to_nat m) msg).

(** The fragments of a sequence of messages: number [i] of the list is the
    segment with sequence number [i]. *)
Definition stream_keys (m : Z) (msgs : list (list Z)) : list (Z * list Z) := concat (map (message_keys m) msgs).

Definition authentic (keys : list (Z * list Z)) (s : Seg.t) : Prop := keys !! Z.to_nat (Seg.sn s) = Some (key s).

Lemma authentic_lt keys s : authentic keys s -> (Z.to_nat (Seg.sn s) < length keys)%nat.
Proof. apply lookup_lt_Some. Qed.

Lemma authentic_app keys more s : authentic keys s -> authentic (keys ++ more) s.
Proof. apply lookup_app_l_Some. Qed.

Lemma stream_keys_app m a b : stream_keys m (a ++ b) = stream_keys m a ++ stream_keys m b.
Proof. unfold stream_keys. by rewrite map_app, concat_app. Qed.

(** ** Receiving *)

(** The queue continues the [d] fragments delivered so far; the buffer holds
    fragments of the stream. *)
Record rcv_inv (keys : list (Z * list Z)) (d : nat) (r : receiver) : Prop := {
  ri_le : (d <= Z.to_nat (rcv_nxt r) <= length keys)%nat;
  ri_queue : map key (rcv_queue r) = take (Z.to_nat (rcv_nxt r) - d) (drop d keys);
  ri_buf : Forall (authentic keys) (rcv_buf r)
}.

Lemma rcv_inv_app keys more d r : rcv_inv keys d r -> rcv_inv (keys ++ more) d r.
Proof.
  intros [H1 H2 H3]. split; [rewrite length_app; lia| |].
  - rewrite H2, drop_app_le, take_app_le by (rewrite ?length_drop; lia). done.
  - apply (Forall_impl _ _ _ H3). intros s. apply authentic_app.
Qed.

(** Moving the next segments to the queue. *)
Lemma move_inv w keys d r :
  rcv_wf r -> 0 <= w < 2 ^ 31 -> Z.of_nat (length keys) < 2 ^ 31 -> rcv_inv keys d r -> rcv_inv keys d (move_available w r).
Proof.
  intros Hr Hw Hk [H1 H2 H3]. pose proof (rcv_wf_buf_length r Hr) as Hl. pose proof (rw_nxt r Hr) as Hn. unfold is_u32 in Hn.
  destruct (move_spec w _ r Hr eq_refl Hw) as (n & Hle & Hsn & G1 & G2 & G3 & _).
  fold (move_available w r) in *. set (r' := move_available w r) in *.
  assert (forall i, (i < n)%nat -> key <$> (rcv_buf r !! i) = keys !! (Z.to_nat (rcv_nxt r) + i)%nat) as Hkey.
  { intros i Hi. destruct (lookup_lt_is_Some_2 (rcv_buf r) i) as [s Hs]; [lia|]. rewrite Hs. cbn.
    pose proof (proj1 (Forall_lookup _ _) H3 i s Hs) as Ha. unfold authentic in Ha.
    rewrite (Hsn i s Hi Hs), u32_small in Ha by (unfold is_u32; lia). rewrite <- Ha. f_equal. lia. }
  assert (Z.to_nat (rcv_nxt r) + n <= length keys)%nat as Hend.
  { destruct n as [|n]; [lia|]. specialize (Hkey n ltac:(lia)).
    destruct (lookup_lt_is_Some_2 (rcv_buf r) n) as [s Hs]; [lia|]. rewrite Hs in Hkey. symmetry in Hkey.
    apply lookup_lt_Some in Hkey. lia. }
  assert (rcv_nxt r' = rcv_nxt r + Z.of_nat n) as En by (rewrite G1, u32_small; unfold is_u32; lia).
  split; [rewrite En; lia| |rewrite G3; by apply Forall_drop].
  rewrite G2, map_app, H2, En. replace (Z.to_nat (rcv_nxt r + Z.of_nat n) - d)%nat
    with ((Z.to_nat (rcv_nxt r) - d) + n)%nat by lia.
  rewrite <- take_take_drop, drop_drop. f_equal. apply list_eq. intros i.
  replace (d + (Z.to_nat (rcv_nxt r) - d))%nat with (Z.to_nat (rcv_nxt r)) by lia.
  destruct (decide (i < n)%nat) as [Hi|Hi].
  - rewrite lookup_take_lt, lookup_drop by done. rewrite <- (Hkey i Hi). change (map key) with (fmap (M := list) key).
    rewrite list_lookup_fmap. by rewrite lookup_take_lt.
  - rewrite !lookup_ge_None_2; [done|rewrite length_take; lia|rewrite length_map, length_take; lia].
Qed.

Lemma parse_data_inv w keys d r new :
  rcv_wf r -> 0 <= w < 2 ^ 31 -> Z.of_nat (length keys) < 2 ^ 31 -> is_u32 (Seg.sn new) -> whole new ->
  rcv_inv keys d r -> authentic keys new -> rcv_inv keys d (ikcp_parse_data w r new).
Proof.
  intros Hr Hw Hk Hu Hwh Hi Ha. rewrite parse_data_eq by done.
  destruct (Z.ltb_spec (dist (Seg.sn new) (rcv_nxt r)) w); [|done].
  destruct (inserted_spec r new Hr) as (I1 & I2 & I3 & I4); [by split; [|lia]|done|].
  apply move_inv; try done. destruct Hi as [H1 H2 H3]. split; rewrite ?I2, ?I3; try done.
  destruct I4 as [[-> _]| ->]; [done|by constructor].
Qed.

(** A segment that the sender made: fragment [sn] of the stream, or one
    without data. *)
Definition genuine (cv : Z) (keys : list (Z * list Z)) (s : Seg.t) : Prop :=
  wf_seg s /\ Seg.conv s = cv /\ known_cmd (Seg.cmd s) = true /\ (Seg.cmd s = IKCP_CMD_PUSH -> authentic keys s).

(** Only data segments change the receiving side. *)
Lemma receiving_handle k a s k' a' :
  handle k a s = Done (k', a') -> wf_seg s ->
  receiving k' = receiving k \/
  (Seg.cmd s = IKCP_CMD_PUSH /\ receiving k' = ikcp_parse_data (rcv_wnd (conf k)) (receiving k)
    (Seg.mk (Seg.conv s) (Seg.cmd s) (Seg.frg s) (Seg.wnd s) (Seg.ts s) (Seg.sn s) (Seg.una s) (Seg.len s) 0 0 0 0 (Seg.data s))).
Proof.
  intros H Hs. pose proof (wf_len s Hs) as Hl. unfold handle, input_segment in H.
  destruct (Seg.cmd s =? IKCP_CMD_ACK). { left. unfold input_ack in H. by destruct (0 <=? _); simplify_eq/=. }
  destruct (Z.eqb_spec (Seg.cmd s) IKCP_CMD_PUSH) as [Ec|_].
  2: { left. by destruct (_ =? IKCP_CMD_WASK); simplify_eq/=. }
  apply bind_Done_inv in H as (k1 & H & [= <- <-]). unfold input_push in H. cbn [receiving set_sending set_control conf] in H.
  destruct (_ <? 0) in H; [|left; by simplify_eq/=]. apply bind_Done_inv in H as (ak & _ & H).
  destruct (0 <=? _) in H; [|left; by simplify_eq/=]. apply bind_Done_inv in H as (d & Ed & [= <-]). right. split; [done|].
  cbn [receiving set_receiving set_acks set_sending set_control conf]. do 2 f_equal.
  unfold ikcp_malloc in Ed. rewrite Hl, Nat2Z.id in Ed. destruct (Z.ltb_spec 0 (Z.of_nat (length (Seg.data s)))).
  - rewrite memcpy_in in Ed by (rewrite ?length_replicate; lia). rewrite drop_0, firstn_all, drop_ge, app_nil_r in Ed
      by (rewrite length_replicate; lia). by simplify_eq/=.
  - destruct (Seg.data s); cbn in *; [by simplify_eq|lia].
Qed.

Lemma handle_all_inv keys d segs : forall k a k' a',
  kcp_wf k -> Z.of_nat (length keys) < 2 ^ 31 -> rcv_inv keys d (receiving k) ->
  Forall (genuine (conv (conf k)) keys) segs -> ackcount (acks k) + Z.of_nat (length segs) < 2 ^ 31 ->
  handle_all k a segs = Done (k', a') -> rcv_inv keys d (receiving k').
Proof.
  induction segs as [|s segs IH]; intros k a k' a' Hk Hkeys Hi Hs Hack H; [by injection H as <- <-|].
  apply Forall_cons in Hs as [(Hw & Hc & Hcmd & Ha) Hs]. cbn [handle_all length] in *.
  apply bind_Done_inv in H as ([k1 a1] & H1 & H). cbn [fst snd] in H.
  pose proof Hw as [W1 W2 W3 W4 W5 W6 W7 W8 W9].
  destruct (input_segment_wf k a (Seg.conv s) (Seg.cmd s) (Seg.frg s) (Seg.wnd s) (Seg.ts s) (Seg.sn s) (Seg.una s)
    (Seg.len s) (Seg.data s) Hk W4 W6 W5) as (k2 & a2 & E & H2 & H3 & H4); [lia|lia|].
  fold (handle k a s) in E. rewrite E in H1. injection H1 as -> ->.
  apply (IH k1 a1 k' a'); try done; [|by rewrite H3|lia].
  pose proof (cw_rcv _ (kw_conf k Hk)) as Hw'. unfold IKCP_WND_RCV in Hw'.
  destruct (receiving_handle k a s k1 a1 E Hw) as [->|[Ec ->]]; [done|].
  apply parse_data_inv; try done; [apply Hk|lia|]. by apply Ha.
Qed.

Lemma deliver_inv keys d k segs code k' :
  kcp_wf k -> Z.of_nat (length keys) < 2 ^ 31 -> rcv_inv keys d (receiving k) ->
  Forall (genuine (conv (conf k)) keys) segs -> ackcount (acks k) + Z.of_nat (length (packet segs)) < 2 ^ 31 ->
  ikcp_input k (Some (packet segs)) (Z.of_nat (length (packet segs))) = Done (code, k') -> rcv_inv keys d (receiving k').
Proof.
  intros Hk Hkeys Hi Hs Hack H. unfold ikcp_input in H. destruct (_ <? IKCP_OVERHEAD) in H; [by simplify_eq|].
  assert (length segs <= length (packet segs))%nat as Hlen.
  { clear. unfold packet. induction segs as [|s segs IH]; [done|]. cbn [map concat length]. rewrite length_app, length_wire. lia. }
  rewrite input_loop_packet in H; [|apply (Forall_impl _ _ _ Hs); by intros s (? & ? & ? & _)|done].
  apply bind_Done_inv in H as ([k1 r] & H1 & H). apply bind_Done_inv in H1 as ([k2 a] & H1 & [= <- <-]).
  cbn [fst snd] in H. apply bind_Done_inv in H as (c & _ & [= <- <-]).
  assert (rcv_inv keys d (receiving k2)) as Hi2 by (apply (handle_all_inv keys d segs k (mkAcked false 0 0) k2 a); try done; lia).
  cbn. by destruct (flag a).
Qed.

(** ** Sending *)

Record snd_inv (keys : list (Z * list Z)) (s : sender) : Prop := {
  si_le : (Z.to_nat (snd_nxt s) <= length keys)%nat;
  si_queue : map key (snd_queue s) = drop (Z.to_nat (snd_nxt s)) keys;
  si_buf : Forall (authentic keys) (snd_buf s)
}.

Lemma enqueue_inv keys s segs : snd_inv keys s -> snd_inv (keys ++ map key segs) (enqueue s segs).
Proof.
  intros [H1 H2 H3]. split; cbn [enqueue snd_nxt snd_queue snd_buf].
  - rewrite length_app. lia.
  - by rewrite map_app, H2, drop_app_le.
  - apply (Forall_impl _ _ _ H3). intros x. apply authentic_app.
Qed.

(** Nothing is added to what is in flight. *)
Definition shrinks (s s' : sender) : Prop :=
  snd_queue s' = snd_queue s /\ snd_nxt s' = snd_nxt s /\
  forall x, x ∈ snd_buf s' -> exists y, y ∈ snd_buf s /\ Seg.sn x = Seg.sn y /\ key x = key y.

#[export] Instance shrinks_preorder : PreOrder shrinks.
Proof.
  split.
  - intros s. repeat split. intros x Hx. by exists x.
  - intros a b c (A1 & A2 & A3) (B1 & B2 & B3). split; [congruence|]. split; [congruence|].
    intros x Hx. destruct (B3 x Hx) as (y & Hy & E1 & E2). destruct (A3 y Hy) as (z & Hz & E3 & E4).
    exists z. split; [done|]. split; congruence.
Qed.

Lemma shrinks_inv keys s s' : shrinks s s' -> snd_inv keys s -> snd_inv keys s'.
Proof.
  intros (E1 & E2 & Hin) [H1 H2 H3]. split; rewrite ?E1, ?E2; try done.
  rewrite Forall_forall in *. intros x Hx. destruct (Hin x Hx) as (y & Hy & Es & Ek). unfold authentic.
  rewrite Es, Ek. by apply H3.
Qed.

(** Where the buffer is a part of the old one. *)
Lemma shrinks_sub s s' :
  snd_queue s' = snd_queue s -> snd_nxt s' = snd_nxt s -> (forall x, x ∈ snd_buf s' -> x ∈ snd_buf s) -> shrinks s s'.
Proof. intros E1 E2 H. split; [done|]. split; [done|]. intros x Hx. exists x. by auto. Qed.

Lemma parse_una_shrinks s una : shrinks s (ikcp_shrink_buf (ikcp_parse_una s una)).
Proof.
  unfold ikcp_parse_una. assert (forall n x, x ∈ (una_loop una (snd_buf s) n).1 -> x ∈ snd_buf s) as H.
  { induction (snd_buf s) as [|y l IH]; intros n x Hx; cbn in *; [done|].
    destruct (0 <? _); [right; by eapply IH|done]. }
  specialize (H (nsnd_buf s)). destruct (una_loop _ _ _). by apply shrinks_sub.
Qed.

Lemma parse_ack_shrinks s sn : shrinks s (ikcp_shrink_buf (ikcp_parse_ack s sn)).
Proof.
  unfold ikcp_parse_ack. destruct (outside_window s sn); [by apply shrinks_sub|].
  assert (forall x, x ∈ (ack_loop sn (snd_buf s)).1 -> x ∈ snd_buf s) as H.
  { intros x. destruct (ack_loop_spec sn (snd_buf s)) as [Hs _]. intros Hx. eapply elem_of_submseteq; [done|].
    by apply sublist_submseteq. }
  destruct (ack_loop _ _). by apply shrinks_sub.
Qed.

Lemma parse_fastack_shrinks s sn ts : shrinks s (ikcp_parse_fastack s sn ts).
Proof.
  unfold ikcp_parse_fastack. destruct (outside_window s sn); [done|]. split; [done|]. split; [done|]. cbn [snd_buf].
  induction (snd_buf s) as [|y l IH]; cbn [fastack_loop]; intros x Hx; [by apply not_elem_of_nil in Hx|].
  destruct (_ <? 0); [by exists x|]. apply elem_of_cons in Hx as [->|Hx].
  - exists y. split; [by left|]. by destruct (sn =? Seg.sn y).
  - destruct (IH x Hx) as (z & Hz & E). exists z. split; [by right|done].
Qed.

Lemma sending_push k cv cmd frg wnd ts sn una len data k' :
  input_push k cv cmd frg wnd ts sn una len data = Done k' -> sending k' = sending k.
Proof.
  unfold input_push. intros H. destruct (_ <? 0) in H; [|by simplify_eq].
  apply bind_Done_inv in H as (a & _ & H). destruct (0 <=? _) in H; [|by simplify_eq].
  apply bind_Done_inv in H as (d & _ & H). by simplify_eq/=.
Qed.

Lemma input_segment_shrinks k a cv cmd frg wnd ts sn una len data k' a' :
  input_segment k a cv cmd frg wnd ts sn una len data = Done (k', a') -> shrinks (sending k) (sending k').
Proof.
  intros H. etrans; [apply (parse_una_shrinks _ una)|]. unfold input_segment in H.
  destruct (cmd =? IKCP_CMD_ACK).
  - unfold input_ack in H. destruct (0 <=? _); simplify_eq/=; apply parse_ack_shrinks.
  - destruct (cmd =? IKCP_CMD_PUSH).
    + apply bind_Done_inv in H as (k1 & H & [= <- <-]). apply sending_push in H. by rewrite H.
    + by destruct (cmd =? IKCP_CMD_WASK); simplify_eq/=.
Qed.

Lemma input_loop_shrinks fuel : forall k a data size k' r,
  input_loop fuel k a data size = Done (k', r) -> shrinks (sending k) (sending k').
Proof.
  induction fuel as [|fuel IH]; intros k a data size k' r H; cbn [input_loop] in H;
    destruct (size <? IKCP_OVERHEAD); try by simplify_eq.
  apply bind_Done_inv in H as ([cv d1] & _ & H). destruct (negb _) in H; [by simplify_eq|].
  do 7 (apply bind_Done_inv in H as ([? ?] & _ & H)).
  destruct ((_ || _)%bool) in H; [by simplify_eq|]. destruct (negb _) in H; [by simplify_eq|].
  apply bind_Done_inv in H as ([k1 a1] & H1 & H). apply input_segment_shrinks in H1. etrans; [done|].
  by apply IH in H.
Qed.

Lemma input_shrinks k data size code k' : ikcp_input k data size = Done (code, k') -> shrinks (sending k) (sending k').
Proof.
  unfold ikcp_input. intros H. destruct data as [data|]; [|by simplify_eq].
  destruct (_ <? IKCP_OVERHEAD) in H; [by simplify_eq|]. apply bind_Done_inv in H as ([k1 r] & H1 & H).
  apply input_loop_shrinks in H1. etrans; [done|]. destruct r as [c|a]; [by simplify_eq|].
  apply bind_Done_inv in H as (c & _ & [= <- <-]). cbn. destruct (flag a); [|done]. apply parse_fastack_shrinks.
Qed.

(** A datagram of genuine segments. *)
Definition genuine_packet (cv : Z) (keys : list (Z * list Z)) (p : list Z) : Prop :=
  exists segs, p = packet segs /\ Forall (genuine cv keys) segs.

Lemma genuine_app cv keys more s : genuine cv keys s -> genuine cv (keys ++ more) s.
Proof. intros (H1 & H2 & H3 & H4). repeat (split; [done|]). intros E. by apply authentic_app, H4. Qed.

Lemma genuine_packet_app cv keys more p : genuine_packet cv keys p -> genuine_packet cv (keys ++ more) p.
Proof.
  intros (segs & -> & H). exists segs. split; [done|]. apply (Forall_impl _ _ _ H). intros s. apply genuine_app.
Qed.

Lemma genuine_control k keys cmd sn ts :
  kcp_wf k -> known_cmd cmd = true -> cmd <> IKCP_CMD_PUSH -> is_u32 sn -> is_u32 ts ->
  genuine (conv (conf k)) keys (control_seg k cmd sn ts).
Proof.
  intros Hk Hc Hp Hs Ht. split; [apply control_seg_wf; try done|].
  - unfold known_cmd in Hc. rewrite !orb_true_iff, !Z.eqb_eq in Hc.
    unfold IKCP_CMD_PUSH, IKCP_CMD_ACK, IKCP_CMD_WASK, IKCP_CMD_WINS in Hc. unfold is_u8. lia.
  - split; [done|]. split; [done|]. intros E. by destruct Hp.
Qed.

Lemma genuine_due k keys s x :
  kcp_wf k -> flying (conf k) s -> authentic keys s -> due k s = Some x -> genuine (conv (conf k)) keys x.
Proof.
  intros Hk Hf Ha Hd. unfold due in Hd.
  assert (x = resent k s) as -> by (destruct (verdict_of k s); by simplify_eq).
  destruct (resent_flying k s Hk Hf) as (W & Ec & Ev & _). split; [done|]. split; [done|]. split; [by rewrite Ec|].
  intros _. exact Ha.
Qed.

Lemma fresh_authentic k keys s i seg :
  snd_inv keys s -> is_u32 (snd_nxt s) -> Z.of_nat (length keys) < 2 ^ 32 -> snd_queue s !! i = Some seg ->
  authentic keys (fresh k (snd_nxt s) i seg).
Proof.
  intros [H1 H2 H3] Hn Hk Hi. unfold authentic. cbn [fresh Seg.sn]. unfold is_u32 in Hn.
  assert (keys !! (Z.to_nat (snd_nxt s) + i)%nat = Some (key seg)) as Hkey.
  { rewrite <- lookup_drop, <- H2. change (map key) with (fmap (M := list) key). by rewrite list_lookup_fmap, Hi. }
  pose proof (lookup_lt_Some _ _ _ Hkey). rewrite u32_small by (unfold is_u32; lia).
  replace (Z.to_nat (snd_nxt s + Z.of_nat i)) with (Z.to_nat (snd_nxt s) + i)%nat by lia. exact Hkey.
Qed.

Lemma flush_inv k keys k' outs :
  kcp_wf k -> Z.of_nat (length keys) < 2 ^ 32 -> snd_inv keys (sending k) -> ikcp_flush k = Done (k', outs) ->
  snd_inv keys (sending k') /\ Forall (genuine_packet (conv (conf k)) keys) outs.
Proof.
  intros Hk Hkeys Hi E. destruct (Z.eqb_spec (updated (timing k)) 0) as [E0|E0].
  { unfold ikcp_flush in E. rewrite E0 in E. by simplify_eq/=. }
  destruct (kw_acks k Hk) as (ps & Hr & Hps).
  destruct (flush_spec k ps Hk E0 Hr Hps) as (k1 & groups & F1 & F2 & F3 & F4 & _ & _ & _ & F8 & F9 & F10 & _).
  rewrite F1 in E. injection E as <- <-. destruct F10 as (n & Hn & N1 & N2 & N3).
  pose proof (sw_nxt _ _ (kw_snd k Hk)) as Hnxt. pose proof Hi as [I1 I2 I3].
  match type of F2 with context [snd_buf ?x] => set (s := x) in * end.
  assert (Forall (fun x => authentic keys x /\ flying (conf k) x) (snd_buf s)) as Hauth.
  { pose proof (kw_snd k Hk) as Hs. rewrite N3. apply Forall_app. split; [apply Forall_and; split; [done|apply Hs]|].
    apply Forall_lookup. intros i x Hx. rewrite list_lookup_imap in Hx.
    destruct (take n _ !! i) as [seg|] eqn:Eseg; cbn in Hx; [|done].
    injection Hx as <-. apply lookup_take_Some in Eseg as [Eseg _]. split; [by apply fresh_authentic|].
    apply fresh_flying; [done|]. exact (proj1 (Forall_lookup _ _) (sw_waiting _ _ Hs) i seg Eseg). }
  assert (length (snd_queue (sending k)) = (length keys - Z.to_nat (snd_nxt (sending k)))%nat) as Hlq
    by (rewrite <- (length_map key), I2, length_drop; done).
  unfold is_u32 in Hnxt. rewrite u32_small in N1 by (unfold is_u32; lia). split.
  - split.
    + rewrite N1. lia.
    + rewrite F9, N2, N1. rewrite <- skipn_map, I2, drop_drop. f_equal. lia.
    + rewrite F8. apply Forall_map. apply (Forall_impl _ _ _ Hauth). intros x [Hx _]. unfold authentic in *. simpl.
      rewrite after_sn. by unfold after; destruct (verdict_of k x).
  - assert (Forall (genuine (conv (conf k)) keys) (concat groups)) as Hgen.
    { rewrite F2. apply Forall_app. split; [|apply Forall_app; split].
      - apply Forall_map. apply (Forall_impl _ _ _ Hps). intros p [Hp1 Hp2]. by apply genuine_control.
      - destruct (last_pair_u32 ps Hps) as [L1 L2].
        apply Forall_app. split; (case_match; [|constructor]); apply Forall_singleton; by apply genuine_control.
      - rewrite Forall_forall in *. intros x (y & Hy & Ey)%list_elem_of_omap. destruct (Hauth y Hy).
        by apply (genuine_due k keys y). }
    apply Forall_map. rewrite Forall_concat in Hgen. apply (Forall_impl _ _ _ Hgen). intros g Hg. by exists g.
Qed.

(** ** Messages *)

Lemma split_message_at n : forall q,
  (0 < n <= length q)%nat ->
  (forall j s, (j < n)%nat -> q !! j = Some s -> (Seg.frg s = 0 <-> j = (n - 1)%nat)) ->
  split_message q = (take n q, drop n q).
Proof.
  induction n as [|n IH]; intros q Hn H; [lia|]. destruct q as [|s q]; cbn [length] in Hn; [lia|].
  cbn [split_message take drop]. pose proof (H 0%nat s ltac:(lia) eq_refl) as H0.
  destruct (Z.eqb_spec (Seg.frg s) 0) as [E|E].
  - apply H0 in E. replace n with 0%nat by lia. done.
  - rewrite (IH q); [done| |].
    + split; [|lia]. destruct n; [|lia]. exfalso. by apply E, H0.
    + intros j t Hj Ht. rewrite (H (S j) t) by (done || lia). lia.
Qed.

Lemma message_keys_lookup m msg j x :
  message_keys m msg !! j = Some x ->
  (j < Z.to_nat (count_of m (Z.of_nat (length msg))))%nat /\
  x.1 = Z.of_nat (Z.to_nat (count_of m (Z.of_nat (length msg)))) - Z.of_nat j - 1.
Proof.
  unfold message_keys, fragments. set (n := Z.to_nat _). intros H.
  change (map key) with (fmap (M := list) key) in H. change (map (piece 0 n (Z.to_nat m) msg)) with (fmap (M := list) (piece 0 n (Z.to_nat m) msg)) in H.
  rewrite !list_lookup_fmap in H. destruct (seq 0 n !! j) as [i|] eqn:E; [|done]. cbn in H. injection H as <-.
  apply lookup_seq in E as [-> E]. cbn. lia.
Qed.

Lemma message_keys_length m msg : length (message_keys m msg) = Z.to_nat (count_of m (Z.of_nat (length msg))).
Proof. unfold message_keys, fragments. by rewrite !length_map, length_seq. Qed.

Lemma keys_bytes segs : bytes_of segs = concat (map snd (map key segs)).
Proof. unfold bytes_of. by rewrite map_map. Qed.

Lemma message_keys_bytes m msg :
  0 < m -> concat (map snd (message_keys m msg)) = msg.
Proof.
  intros Hm. unfold message_keys. rewrite <- keys_bytes. apply fragments_bytes.
  destruct (count_of_spec m (Z.of_nat (length msg))) as (H1 & H2 & _); [lia|lia|]. nia.
Qed.

(** Where the queue starts with a complete message, [ikcp_recv] takes it off. *)
Lemma message_boundary m sent c r :
  0 < m -> rcv_wf r -> Z.of_nat (length (stream_keys m sent)) < 2 ^ 31 ->
  rcv_inv (stream_keys m sent) (length (stream_keys m (take c sent))) r -> rcv_queue r <> [] -> complete r = true ->
  exists msg, sent !! c = Some msg /\ first_bytes r = msg /\
    map key (split_message (rcv_queue r)).2 =
      take (Z.to_nat (rcv_nxt r) - length (stream_keys m (take (S c) sent))) (drop (length (stream_keys m (take (S c) sent))) (stream_keys m sent)) /\
    (length (stream_keys m (take (S c) sent)) <= Z.to_nat (rcv_nxt r))%nat.
Proof.
  intros Hm Hr Hk [H1 H2 H3] Hne Hc. pose proof (rw_que r Hr) as Hq.
  assert (drop (length (stream_keys m (take c sent))) (stream_keys m sent) = stream_keys m (drop c sent)) as Hdrop.
  { rewrite <- (take_drop c sent) at 2. by rewrite stream_keys_app, drop_app_length. }
  rewrite Hdrop in H2. destruct (drop c sent) as [|msg later] eqn:Ed.
  { exfalso. cbn in H2. rewrite take_nil in H2. by destruct (rcv_queue r). }
  assert (sent !! c = Some msg) as Hmsg by (rewrite <- (Nat.add_0_r c), <- lookup_drop, Ed; done).
  exists msg. split; [done|].
  assert (stream_keys m (take (S c) sent) = stream_keys m (take c sent) ++ message_keys m msg) as Hnext.
  { rewrite (take_S_r _ _ _ Hmsg), stream_keys_app. f_equal. unfold stream_keys. cbn. apply app_nil_r. }
  set (d := length (stream_keys m (take c sent))) in *. set (n := length (message_keys m msg)).
  assert (stream_keys m (msg :: later) = message_keys m msg ++ stream_keys m later) as Hcons by done.
  rewrite Hcons in H2.
  assert (length (rcv_queue r) = (Z.to_nat (rcv_nxt r) - d)%nat) as Hlen.
  { apply (f_equal length) in H2. rewrite length_map, length_take, <- Hcons, <- Hdrop, length_drop in H2. lia. }
  assert (forall j s, (j < n)%nat -> rcv_queue r !! j = Some s -> message_keys m msg !! j = Some (key s)) as Hkeys.
  { intros j s Hj Hs. apply (f_equal (fun l => l !! j)) in H2. change (map key) with (fmap (M := list) key) in H2.
    rewrite list_lookup_fmap, Hs, lookup_take_lt, lookup_app_l in H2 by (apply lookup_lt_Some in Hs; fold n; lia). done. }
  destruct (count_of_spec m (Z.of_nat (length msg))) as (C1 & _); [lia|lia|].
  assert (n = Z.to_nat (count_of m (Z.of_nat (length msg)))) as Hn by apply message_keys_length.
  assert (d + n <= length (stream_keys m sent))%nat as Hdn.
  { pose proof (f_equal length Hdrop) as Hl. rewrite length_drop, Hcons, length_app in Hl. fold n in Hl. lia. }
  assert (n <= length (rcv_queue r))%nat as Hnq.
  { unfold complete in Hc. destruct (rcv_queue r) as [|s q]; [done|].
    destruct (message_keys_lookup m msg 0 (key s)) as [_ Hf]; [apply Hkeys; [lia|done]|]. cbn [key fst] in Hf. rewrite <- Hn in Hf.
    destruct (Z.eqb_spec (Seg.frg s) 0) as [E|E]; cbn [orb] in Hc; [cbn [length]; lia|].
    apply negb_true_iff, Z.ltb_ge in Hc. rewrite u32_small in Hc by (unfold is_u32; lia). lia. }
  assert (split_message (rcv_queue r) = (take n (rcv_queue r), drop n (rcv_queue r))) as Hsplit.
  { apply split_message_at; [lia|]. intros j s Hj Hs. destruct (message_keys_lookup m msg j (key s)) as [_ Hf]; [by apply Hkeys|].
    cbn [key fst] in Hf. lia. }
  unfold first_bytes. rewrite Hsplit. cbn [fst snd]. rewrite Hnext, length_app. fold d n. split; [|split; [|lia]].
  - rewrite keys_bytes, <- firstn_map, H2, take_take, Nat.min_l by lia. rewrite take_app_length' by done.
    by apply message_keys_bytes.
  - rewrite <- skipn_map, H2, skipn_firstn_comm, drop_app_length' by done.
    rewrite <- drop_drop, Hdrop, Hcons, drop_app_length' by done. f_equal. lia.
Qed.

(** ** Two endpoints and a network *)

(** [source] and [sink]; the datagrams the source has ever sent; the messages
    it has accepted; the messages the sink has delivered. *)
Record net := mkNet {
  source : ikcpcb; sink : ikcpcb; wires : list (list Z); accepted : list (list Z); delivered : list (list Z)
}.

Definition is_send (c : call) : bool := match c with Send _ _ => true | _ => false end.
Definition is_update (c : call) : bool := match c with Update _ => true | _ => false end.
Definition is_arrival (c : call) : bool := match c with Recv _ _ | Input _ _ => true | _ => false end.

Inductive step (n : net) : net -> Prop :=
  | Accept msg k :
      call_ok (source n) (Send msg (Z.of_nat (length msg))) ->
      Z.of_nat (length (stream_keys (mss (conf (source n))) (accepted n ++ [msg]))) < 2 ^ 31 ->
      ikcp_send (source n) msg (Z.of_nat (length msg)) = Done (0, k) ->
      step n (mkNet k (sink n) (wires n) (accepted n ++ [msg]) (delivered n))
  | Clock now k outs :
      is_u32 now -> ikcp_update (source n) now = Done (k, outs) ->
      step n (mkNet k (sink n) (wires n ++ outs) (accepted n) (delivered n))
  | SourceCall c k :
      is_send c = false -> is_update c = false -> call_ok (source n) c -> run_call (source n) c = Done k ->
      step n (mkNet k (sink n) (wires n) (accepted n) (delivered n))
  | Deliver p code k :
      p ∈ wires n -> call_ok (sink n) (Input (Some p) (Z.of_nat (length p))) ->
      ikcp_input (sink n) (Some p) (Z.of_nat (length p)) = Done (code, k) ->
      step n (mkNet (source n) k (wires n) (accepted n) (delivered n))
  | Receive buffer len size written k :
      0 <= len -> call_ok (sink n) (Recv (Some buffer) len) ->
      ikcp_recv (sink n) (Some buffer) len = Done (size, Some written, k) ->
      step n (mkNet (source n) k (wires n) (accepted n)
                (if size <? 0 then delivered n else delivered n ++ [take (Z.to_nat size) written]))
  | SinkCall c k :
      is_arrival c = false -> call_ok (sink n) c -> run_call (sink n) c = Done k ->
      step n (mkNet (source n) k (wires n) (accepted n) (delivered n)).

(** An endpoint that has been created and configured. *)
Inductive opened : ikcpcb -> Prop :=
  | Created cv k : is_u32 cv -> ikcp_create true true cv = Some k -> opened k
  | Setmtu k mtu : opened k -> mtu < 2 ^ 29 -> opened (ikcp_setmtu true k mtu).2
  | Configured k c k' :
      opened k -> match c with Interval _ | Nodelay _ _ _ _ | Wndsize _ _ => True | _ => False end ->
      call_ok k c -> run_call k c = Done k' -> opened k'.

Definition initial (n : net) : Prop :=
  exists a b, opened a /\ opened b /\ conv (conf a) = conv (conf b) /\ n = mkNet a b [] [] [].

Lemma opened_spec k :
  opened k -> kcp_wf k /\ sending k = mkSender 0 0 [] [] 0 0 /\ receiving k = mkReceiver 0 [] [] 0 0 /\ stream (conf k) = 0.
Proof.
  induction 1 as [cv k Hcv Hk|k m _ (IH1 & IH2 & IH3 & IH4) Hm|k c k' _ (IH1 & IH2 & IH3 & IH4) Hc Hok E].
  - split; [by eapply create_wf|]. by injection Hk as <-.
  - split; [apply setmtu_wf; [done|]; split; [done|]; intros _; unfold unsent; rewrite IH2; constructor|]. unfold ikcp_setmtu. by case_match.
  - destruct (call_wf k c IH1 Hok) as (k1 & E1 & Hk1). rewrite E1 in E. injection E as ->. split; [done|].
    destruct c; cbn [run_call] in E1; try done; by injection E1 as <-.
Qed.

Record net_inv (n : net) : Prop := {
  ni_source : kcp_wf (source n);
  ni_sink : kcp_wf (sink n);
  ni_conv : conv (conf (sink n)) = conv (conf (source n));
  ni_stream : stream (conf (source n)) = 0;
  ni_small : Z.of_nat (length (stream_keys (mss (conf (source n))) (accepted n))) < 2 ^ 31;
  ni_snd : snd_inv (stream_keys (mss (conf (source n))) (accepted n)) (sending (source n));
  ni_wires : Forall (genuine_packet (conv (conf (source n))) (stream_keys (mss (conf (source n))) (accepted n))) (wires n);
  ni_delivered : exists c, delivered n = take c (accepted n) /\ (c <= length (accepted n))%nat /\
    rcv_inv (stream_keys (mss (conf (source n))) (accepted n))
      (length (stream_keys (mss (conf (source n))) (take c (accepted n)))) (receiving (sink n))
}.

Lemma initial_inv n : initial n -> net_inv n.
Proof.
  intros (a & b & Ha & Hb & Ec & ->). apply opened_spec in Ha as (A1 & A2 & A3 & A4). apply opened_spec in Hb as (B1 & B2 & B3 & B4).
  split; cbn [source sink wires accepted delivered]; try done; rewrite ?A2, ?B3; [by split; [| |constructor]|].
  exists 0%nat. split; [done|]. split; [done|]. by split; [| |constructor].
Qed.

(** What no call changes. *)
Lemma run_call_conf k c k' :
  run_call k c = Done k' -> kcp_wf k -> call_ok k c ->
  conv (conf k') = conv (conf k) /\ mss (conf k') = mss (conf k) /\ stream (conf k') = stream (conf k).
Proof.
  intros E Hk Hok. pose proof (kw_conf k Hk) as Hf. destruct c; cbn [run_call call_ok] in *; try by simplify_eq/=.
  - destruct Hok as (H1 & H2 & H3). destruct (send_wf k buffer0 len Hf (kw_snd k Hk) H1 H2 H3) as (r & s & E' & _).
    rewrite E' in E. by simplify_eq/=.
  - destruct Hok as (H1 & H2). rewrite (recv_spec k buffer0 len (kw_rcv k Hk) H1 H2) in E. cbv zeta in E. rewrite bind_Done in E.
    injection E as <-. by repeat case_match.
  - destruct Hok as (H1 & H2). destruct data as [d|]; [|by simplify_eq/=].
    destruct (input_wf k d size Hk (H1 d eq_refl) H2) as (code & k1 & E' & _ & Ec & _). rewrite E' in E. simplify_eq/=. by rewrite Ec.
  - destruct (update_wf k now Hk Hok) as (k1 & outs & E' & _ & Ec & _). rewrite E' in E. simplify_eq/=. by rewrite Ec.
Qed.

Lemma sink_call_receiving k c k' :
  run_call k c = Done k' -> is_arrival c = false -> kcp_wf k -> call_ok k c -> receiving k' = receiving k.
Proof.
  intros E Hc Hk Hok. destruct c; cbn [run_call is_arrival call_ok] in *; try done; try by simplify_eq/=.
  - destruct Hok as (H1 & H2 & H3).
    destruct (send_wf k buffer0 len (kw_conf k Hk) (kw_snd k Hk) H1 H2 H3) as (r & s & E' & _). rewrite E' in E. by simplify_eq/=.
  - destruct (update_wf k now Hk Hok) as (k1 & outs & E' & _ & _ & Er). rewrite E' in E. by simplify_eq/=.
Qed.

Lemma source_call_sending k c k' :
  run_call k c = Done k' -> is_send c = false -> is_update c = false -> kcp_wf k -> call_ok k c ->
  shrinks (sending k) (sending k').
Proof.
  intros E Hs Hu Hk Hok. destruct c; cbn [run_call is_send is_update call_ok] in *; try done; try by simplify_eq/=.
  - destruct Hok as (H1 & H2). rewrite (recv_spec k buffer0 len (kw_rcv k Hk) H1 H2) in E. cbv zeta in E. rewrite bind_Done in E.
    injection E as <-. by repeat case_match.
  - apply bind_Done_inv in E as ([code k1] & E & [= <-]). by apply input_shrinks in E.
Qed.

Lemma accept_inv n msg k :
  net_inv n -> call_ok (source n) (Send msg (Z.of_nat (length msg))) ->
  Z.of_nat (length (stream_keys (mss (conf (source n))) (accepted n ++ [msg]))) < 2 ^ 31 ->
  ikcp_send (source n) msg (Z.of_nat (length msg)) = Done (0, k) ->
  net_inv (mkNet k (sink n) (wires n) (accepted n ++ [msg]) (delivered n)).
Proof.
  intros [N1 N2 N3 N4 N5 N6 N7 (c & N8 & N9 & N10)] (_ & Hl & Hq) Hsmall E.
  destruct (send_message (source n) msg (kw_conf _ N1) (kw_snd _ N1) N4 Hl Hq) as [E' W].
  rewrite E' in E. destruct (Z.leb_spec IKCP_WND_RCV (count_of (mss (conf (source n))) (Z.of_nat (length msg)))) as [|Hlt]; [by simplify_eq|].
  injection E as <-. specialize (W Hlt).
  assert (stream_keys (mss (conf (source n))) [msg] = message_keys (mss (conf (source n))) msg) as Hone
    by (unfold stream_keys; cbn; apply app_nil_r).
  split; cbn [source sink wires accepted delivered set_sending conf sending]; try done.
  - by apply set_sending_wf.
  - rewrite stream_keys_app, Hone. by apply enqueue_inv.
  - rewrite stream_keys_app. apply (Forall_impl _ _ _ N7). intros p. apply genuine_packet_app.
  - exists c. rewrite take_app_le, length_app by done. split; [done|]. split; [lia|].
    rewrite stream_keys_app. by apply rcv_inv_app.
Qed.

Lemma clock_inv n now k outs :
  net_inv n -> is_u32 now -> ikcp_update (source n) now = Done (k, outs) ->
  net_inv (mkNet k (sink n) (wires n ++ outs) (accepted n) (delivered n)).
Proof.
  intros [N1 N2 N3 N4 N5 N6 N7 N8] Hn E. destruct (update_wf (source n) now N1 Hn) as (k1 & o1 & E1 & Wk & Ec & _).
  rewrite E1 in E. injection E as -> ->.
  assert (snd_inv (stream_keys (mss (conf (source n))) (accepted n)) (sending k) /\
    Forall (genuine_packet (conv (conf (source n))) (stream_keys (mss (conf (source n))) (accepted n))) outs) as [Hs Ho].
  { destruct (update_cases (source n) now) as (t & Ht & _ & [E2|E2]); rewrite E2 in E1; [|by simplify_eq/=].
    apply (flush_inv (set_timing t (source n)) (stream_keys (mss (conf (source n))) (accepted n))) in E1; [done| |lia|done]. apply set_timing_wf; [done|by rewrite Ht]. }
  split; cbn [source sink wires accepted delivered]; rewrite ?Ec; try done. by apply Forall_app.
Qed.

Lemma receive_inv n buffer len size written k :
  net_inv n -> 0 <= len -> call_ok (sink n) (Recv (Some buffer) len) ->
  ikcp_recv (sink n) (Some buffer) len = Done (size, Some written, k) ->
  net_inv (mkNet (source n) k (wires n) (accepted n)
    (if size <? 0 then delivered n else delivered n ++ [take (Z.to_nat size) written])).
Proof.
  intros N Hlen [Hl Hb] E. pose proof N as [N1 N2 N3 N4 N5 N6 N7 (c & N8 & N9 & N10)].
  destruct (run_call_conf (sink n) (Recv (Some buffer) len) k) as (Ec & _); [by cbn [run_call]; rewrite E|done|done|].
  destruct (recv_wf (sink n) (Some buffer) len N2 Hl Hb) as (n1 & b1 & k1 & E1 & Wk). rewrite E1 in E. injection E as -> -> ->.
  rewrite (recv_spec (sink n) (Some buffer) len (kw_rcv _ N2) Hl Hb) in E1. cbv zeta in E1. revert E1.
  destruct (bool_decide_reflect (rcv_queue (receiving (sink n)) = [])) as [|Hne]; [intros [= <- <- <-]; by split; try done; exists c|].
  destruct (complete (receiving (sink n))) eqn:Hcomp; cbn [negb]; [|intros [= <- <- <-]; by split; try done; exists c].
  destruct (Z.ltb_spec (Z.abs len) (Z.of_nat (length (first_bytes (receiving (sink n)))))) as [|Hge];
    intros [= <- <- <-]; [by split; try done; exists c|].
  pose proof (kw_conf _ N1) as [_ Hm Hms _ _ _ _]. pose proof (cw_rcv _ (kw_conf _ N2)) as Hw. unfold IKCP_OVERHEAD, IKCP_WND_RCV in *.
  destruct (message_boundary (mss (conf (source n))) (accepted n) c (receiving (sink n)) ltac:(lia) (kw_rcv _ N2) N5 N10 Hne Hcomp)
    as (msg & M1 & M2 & M3 & M4).
  rewrite (proj2 (Z.ltb_ge (Z.of_nat _) 0)), (proj2 (Z.ltb_ge len 0)) in * by lia. specialize (Hb buffer eq_refl).
  split; cbn [source sink wires accepted delivered]; try done. exists (S c). split; [|split].
  - rewrite (take_S_r _ _ _ M1), N8, M2. do 2 f_equal. unfold splice. rewrite take_0. cbn [app]. rewrite Nat2Z.id. apply take_app_length.
  - apply lookup_lt_Some in M1. lia.
  - unfold received. cbn [receiving set_control set_receiving]. apply move_inv; [by apply taken_wf, N2|lia|done|].
    destruct N10 as [R1 R2 R3]. split; cbn [taken rcv_nxt rcv_queue rcv_buf]; [lia|exact M3|done].
Qed.

Lemma step_inv n n' : net_inv n -> step n n' -> net_inv n'.
Proof.
  intros N Hstep. pose proof N as [N1 N2 N3 N4 N5 N6 N7 N8].
  destruct Hstep as [msg k H1 H2 H3|now k outs H1 H2|c k H1 H2 H3 H4|p code k H1 H2 H3|buffer len size written k H1 H2 H3|c k H1 H2 H3].
  - by apply accept_inv.
  - by eapply clock_inv.
  - destruct (call_wf _ c N1 H3) as (k1 & E & Wk). rewrite E in H4. injection H4 as ->.
    destruct (run_call_conf _ _ _ E N1 H3) as (C1 & C2 & C3).
    split; cbn [source sink wires accepted delivered]; rewrite ?C1, ?C2, ?C3; try done.
    eapply shrinks_inv; [by eapply source_call_sending|done].
  - destruct (call_wf _ _ N2 H2) as (k1 & E & Wk). destruct (run_call_conf _ _ _ E N2 H2) as (C1 & _).
    cbn [run_call] in E. rewrite H3 in E. injection E as <-. destruct H2 as [_ Hack]. destruct N8 as (c & D1 & D2 & D3).
    split; cbn [source sink wires accepted delivered]; try done; [by rewrite C1|]. exists c. split; [done|]. split; [done|].
    rewrite Forall_forall in N7. destruct (N7 p H1) as (segs & -> & Hg).
    eapply (deliver_inv _ _ (sink n) segs); [done|done|done|by rewrite N3|lia|done].
  - by eapply receive_inv.
  - destruct (call_wf _ c N2 H2) as (k1 & E & Wk). rewrite E in H3. injection H3 as ->.
    destruct (run_call_conf _ _ _ E N2 H2) as (C1 & _).
    split; cbn [source sink wires accepted delivered]; try done; [by rewrite C1|].
    by rewrite (sink_call_receiving _ _ _ E H1 N2 H2).
Qed.

(** C1: reliable, ordered delivery.  However the network loses, delays,
    duplicates and reorders the datagrams of the source, whatever bytes it
    hands to the source, and whatever the two applications and clocks do, the
    messages the sink delivers are a prefix of those the source accepted: none
    is lost in between, repeated, changed, split or out of order (for fewer
    than 2^31 fragments in one conversation). *)
Theorem kcp_reliable n n' : initial n -> rtc step n n' -> delivered n' `prefix_of` accepted n'.
Proof.
  intros Hi Hs. apply initial_inv in Hi. induction Hs as [n|n n1 n' H1 _ IH]; [|by apply IH; eapply step_inv].
  destruct Hi as [_ _ _ _ _ _ _ (c & -> & _)]. apply prefix_take.
Qed.

(** Two messages, a datagram that arrives twice, and the first message read. *)
Definition endpoint (nc : Z) : ikcpcb := (ikcp_nodelay (ikcp_setmtu true demo 60).2 0 100 0 nc).2.
Definition demo_net : net := mkNet (endpoint 1) (endpoint 0) [] [] [].

Lemma endpoint_opened nc : opened (endpoint nc).
Proof.
  apply (Configured (ikcp_setmtu true demo 60).2 (Nodelay 0 100 0 nc)); [|done|done|done].
  apply Setmtu; [|done]. by apply (Created 17).
Qed.

Lemma demo_initial : initial demo_net.
Proof. exists (endpoint 1), (endpoint 0). split; [apply endpoint_opened|]. split; [apply endpoint_opened|]. done. Qed.

Lemma demo_run : exists n, rtc step demo_net n /\ delivered n = [[1; 2; 3]] /\ accepted n = [[1; 2; 3]; [4]].
Proof.
  eexists. split.
  - eapply rtc_l; [apply (Accept _ [1; 2; 3]); [by repeat split; vm_compute|by vm_compute|vm_compute; reflexivity]|].
    eapply rtc_l; [apply (Accept _ [4]); [by repeat split; vm_compute|by vm_compute|vm_compute; reflexivity]|].
    eapply rtc_l; [apply (Clock _ 0); [done|vm_compute; reflexivity]|].
    do 2 (eapply rtc_l; [eapply Deliver; [by left|split; [by intros d [= <-]; vm_compute|by vm_compute]|vm_compute; reflexivity]|]).
    eapply rtc_l; [apply (Receive _ (replicate 10 0) 10); [done|split; [by vm_compute|by intros b [= <-]; vm_compute]|vm_compute; reflexivity]|].
    apply rtc_refl.
  - split; by vm_compute.
Qed.

Lemma kcp_reliable_witness :
  exists n, rtc step demo_net n /\ delivered n = [[1; 2; 3]] /\ delivered n `prefix_of` accepted n.
Proof.
  destruct demo_run as (n & H1 & H2 & _). exists n. split; [exact H1|]. split; [exact H2|].
  exact (kcp_reliable demo_net n demo_initial H1).
Defined.

End KcpNet.
