(* ===== verification/KcpEdge.v ===== *)
(** * KCP: the schedule of [ikcp_check], and the limits of the code

    When [ikcp_check] asks to be called, and four inputs on which the code does
    not do what its interface says. *)

From S2P Require Import Prelude Kcp KcpWire KcpRecv KcpAcks KcpFlush KcpSend.

#[local] Set Warnings "-level-tolerance".

Module KcpEdge.
Import Kcp KcpWire KcpRecv KcpAcks KcpFlush KcpSend.

(** ** The schedule *)

Lemma next_packet_spec now segs : forall t,
  match next_packet now segs t with
  | None => exists s, s ∈ segs /\ _itimediff (Seg.resendts s) now <= 0
  | Some t' => t' <= t /\ (0 < t -> 0 < t') /\ forall s, s ∈ segs -> 0 < _itimediff (Seg.resendts s) now /\ t' <= _itimediff (Seg.resendts s) now
  end.
Proof.
  induction segs as [|s segs IH]; intros t; cbn [next_packet]; [split; [done|]; split; [done|]; intros s Hs; by apply not_elem_of_nil in Hs|].
  destruct (Z.leb_spec (_itimediff (Seg.resendts s) now) 0) as [H|H]; [exists s; split; [by left|done]|].
  specialize (IH (if _itimediff (Seg.resendts s) now <? t then _itimediff (Seg.resendts s) now else t)).
  destruct (next_packet _ _ _) as [t'|].
  - destruct IH as (H1 & H3 & H2). split; [destruct (Z.ltb_spec (_itimediff (Seg.resendts s) now) t); lia|].
    split; [destruct (Z.ltb_spec (_itimediff (Seg.resendts s) now) t); lia|]. intros x [->|Hx]%elem_of_cons; [|by apply H2].
    destruct (Z.ltb_spec (_itimediff (Seg.resendts s) now) t); lia.
  - destruct IH as (x & Hx & Hle). exists x. split; [by right|done].
Qed.

(** Moving the clock by [d] moves a difference by [d]. *)
Lemma itimediff_later now d t :
  0 <= d < 2 ^ 31 -> 0 < _itimediff t now -> _itimediff (u32 (now + d)) t = d - _itimediff t now.
Proof.
  unfold _itimediff, s32, u32. change (2 ^ 32) with 4294967296. change (2 ^ 31) with 2147483648. intros. lia_div.
Qed.

Lemma itimediff_opp a b : -10000 <= _itimediff a b < 0 -> _itimediff b a = - _itimediff a b.
Proof.
  unfold _itimediff, s32, u32. change (2 ^ 32) with 4294967296. change (2 ^ 31) with 2147483648. intros. lia_div.
Qed.

(** [ikcp_update] before the time of the next flush only sets the clock. *)
Lemma update_early k now :
  updated (timing k) <> 0 -> -10000 <= _itimediff now (ts_flush (timing k)) < 0 ->
  ikcp_update k now =
  Done (set_timing (mkTimer now (ts_flush (timing k)) (updated (timing k)) (ts_probe (timing k)) (probe_wait (timing k))) k, []).
Proof.
  intros Hu Hs. unfold ikcp_update. rewrite (proj2 (Z.eqb_neq _ _) Hu). cbv zeta.
  rewrite (proj2 (Z.leb_gt 10000 _)), (proj2 (Z.ltb_ge _ (-10000))) by lia. cbn [orb].
  by rewrite (proj2 (Z.leb_gt 0 _)) by lia.
Qed.

(** [ikcp_check] never asks for a call too late or further away than the
    update interval: it returns a time [t] from [now] to [now + interval] such
    that before [t] a call of [ikcp_update] would send nothing and no segment
    in flight is due for retransmission. *)
Theorem kcp_check_schedule k now :
  updated (timing k) <> 0 -> is_u32 now -> 10 <= interval (conf k) <= 5000 ->
  let t := ikcp_check k now in
  dist t now <= interval (conf k) /\
  forall d, 0 <= d < dist t now ->
    (exists k', ikcp_update k (u32 (now + d)) = Done (k', [])) /\
    Forall (fun s => _itimediff (u32 (now + d)) (Seg.resendts s) < 0) (snd_buf (sending k)).
Proof.
  intros Hu Hn Hi. unfold ikcp_check. rewrite (proj2 (Z.eqb_neq _ _) Hu). cbv zeta.
  assert (dist now now <= interval (conf k) /\ forall d, 0 <= d < dist now now ->
    (exists k', ikcp_update k (u32 (now + d)) = Done (k', [])) /\
    Forall (fun s => _itimediff (u32 (now + d)) (Seg.resendts s) < 0) (snd_buf (sending k))) as Hnow
    by (rewrite dist_self; split; [lia|]; intros; lia).
  set (slap := _itimediff now (ts_flush (timing k))) in *.
  destruct ((10000 <=? slap) || (slap <? -10000)) eqn:E.
  { replace (_itimediff now now) with 0 by (unfold _itimediff; by rewrite Z.sub_diag). done. }
  apply orb_false_iff in E as [E1%Z.leb_gt E2%Z.ltb_ge]. fold slap. destruct (Z.leb_spec 0 slap) as [|Hs]; [done|].
  assert (_itimediff (ts_flush (timing k)) now = - slap) as Hts by (apply itimediff_opp; fold slap; lia). rewrite Hts.
  pose proof (next_packet_spec now (snd_buf (sending k)) (2 ^ 31 - 1)) as Hp.
  destruct (next_packet _ _ _) as [tp|]; [|done]. destruct Hp as (Hp1 & Hp2 & Hp3). specialize (Hp2 ltac:(lia)).
  assert (exists m, (let minimal := u32 (if tp <? - slap then tp else - slap) in
    if interval (conf k) <=? minimal then interval (conf k) else minimal) = m /\ 0 < m <= interval (conf k) /\ m <= tp /\ m <= - slap)
    as (m & Em & Hm1 & Hm2 & Hm3).
  { eexists. split; [reflexivity|]. cbv zeta. rewrite u32_small by (unfold is_u32; destruct (Z.ltb_spec tp (- slap)); lia).
    destruct (Z.ltb_spec tp (- slap)); match goal with |- context [?a <=? ?b] => destruct (Z.leb_spec a b) end; lia. }
  cbv zeta in Em. rewrite Em, dist_add by lia. split; [lia|]. intros d Hd. split.
  - rewrite update_early; [by eexists|done|]. rewrite itimediff_later, Hts by (rewrite ?Hts; lia). lia.
  - apply Forall_forall. intros s Hs'. destruct (Hp3 s Hs'). rewrite itimediff_later by lia. lia.
Qed.

(** A control block with one segment in flight. *)
Definition busy (resendts ts_flush : Z) : ikcpcb :=
  mkKcp (mkConfig 17 1400 1376 32 128 100 0 100 0 5 0 0 20)
    (mkSender 0 1 [] [Seg.mk 17 IKCP_CMD_PUSH 0 128 0 0 0 1 resendts 200 0 1 [42]] 0 1) (mkReceiver 0 [] [] 0 0)
    (mkAcks [] 0 0) (mkCongestion 128 2 1 1376 0 0 200 0 0 0) (mkTimer 0 ts_flush 1 0 0) [].

Lemma kcp_check_schedule_witness :
  let k := busy 1030 1050 in
  let t := ikcp_check k 1000 in
  dist t 1000 <= interval (conf k) /\
  forall d, 0 <= d < dist t 1000 ->
    (exists k', ikcp_update k (u32 (1000 + d)) = Done (k', [])) /\
    Forall (fun s => _itimediff (u32 (1000 + d)) (Seg.resendts s) < 0) (snd_buf (sending k)).
Proof. intros k. apply (kcp_check_schedule k 1000); done. Defined.

(** [ikcp_check] can ask for calls that do nothing: when a segment in flight
    is overdue but the next flush is still ahead, it returns the current time,
    [ikcp_update] at that time sends nothing, and [ikcp_check] again returns the
    current time. *)
Theorem kcp_check_spins k now s :
  updated (timing k) <> 0 -> -10000 <= _itimediff now (ts_flush (timing k)) < 0 ->
  s ∈ snd_buf (sending k) -> _itimediff (Seg.resendts s) now <= 0 ->
  ikcp_check k now = now /\
  exists k', ikcp_update k now = Done (k', []) /\ ikcp_check k' now = now.
Proof.
  intros Hu Hs Hin Hdue.
  assert (forall k, updated (timing k) <> 0 -> -10000 <= _itimediff now (ts_flush (timing k)) < 0 ->
    s ∈ snd_buf (sending k) -> ikcp_check k now = now) as Hcheck.
  { clear k Hu Hs Hin. intros k Hu Hs Hin. unfold ikcp_check. rewrite (proj2 (Z.eqb_neq _ _) Hu). cbv zeta.
    rewrite (proj2 (Z.leb_gt 10000 _)), (proj2 (Z.ltb_ge _ (-10000))) by lia. cbn [orb].
    rewrite (proj2 (Z.leb_gt 0 _)) by lia.
    pose proof (next_packet_spec now (snd_buf (sending k)) (2 ^ 31 - 1)) as Hp.
    destruct (next_packet _ _ _) as [tp|]; [|done]. destruct Hp as (_ & _ & Hp). destruct (Hp s Hin). lia. }
  split; [by apply Hcheck|]. eexists. split; [by apply update_early|]. by apply Hcheck.
Qed.

Lemma kcp_check_spins_witness :
  let k := busy 1000 1050 in
  ikcp_check k 1020 = 1020 /\ exists k', ikcp_update k 1020 = Done (k', []) /\ ikcp_check k' 1020 = 1020.
Proof.
  intros k. apply (kcp_check_spins k 1020 (Seg.mk 17 IKCP_CMD_PUSH 0 128 0 0 0 1 1000 200 0 1 [42])); [done|done| |done]. by left.
Defined.

(** ** A smaller datagram size *)

(** A message is queued, then [ikcp_setmtu] succeeds with a smaller size, and
    the clock is set. *)
Definition shrink_mtu (cv : Z) (size mtu : Z) : exec (Z * (ikcpcb * list (list Z))) :=
  match ikcp_create true true cv with
  | None => Fault
  | Some k =>
      let k := (ikcp_nodelay k 0 100 0 1).2 in
      r ← ikcp_send k (replicate (Z.to_nat size) 0) size;
      let '(code, k) := ikcp_setmtu true r.2 mtu in
      u ← ikcp_update k 0;
      Done (code, u)
  end.

(** After [ikcp_setmtu] has made the datagrams smaller, [ikcp_flush] still
    writes the segments that were queued before, as long as they are, into the
    new, smaller buffer, and past its end. *)
Theorem kcp_setmtu_overflow : shrink_mtu 17 1376 50 = Fault /\ exists k p, shrink_mtu 17 1376 1400 = Done (0, (k, [p])).
Proof. split; [by vm_compute|]. eexists _, _. vm_compute. reflexivity. Qed.

(** ** Streaming mode *)

(** In streaming mode [ikcp_send] can take a part of the data and report a
    failure: when the rest does not fit, it returns -2 but the last segment of
    the queue has already been filled up with the first bytes. *)
Theorem kcp_stream_partial k q old buffer len :
  conf_wf (conf k) -> snd_wf (conf k) (sending k) -> stream (conf k) <> 0 ->
  snd_queue (sending k) = q ++ [old] -> Seg.len old < mss (conf k) ->
  let room := mss (conf k) - Seg.len old in
  room + IKCP_WND_RCV * mss (conf k) <= len <= Z.of_nat (length buffer) -> len < 2 ^ 31 ->
  Z.of_nat (length (snd_queue (sending k))) + IKCP_WND_RCV < 2 ^ 32 ->
  exists k', ikcp_send k buffer len = Done (-2, k') /\
    bytes_of (snd_queue (sending k')) = bytes_of (snd_queue (sending k)) ++ take (Z.to_nat room) buffer /\ 0 < room.
Proof.
  intros Hf Hs Hst Hq Hold room Hlen Hl31 Hroom. pose proof Hf as [_ Hm Hms _ _ _ _]. unfold IKCP_OVERHEAD, IKCP_WND_RCV in *.
  destruct (append_last_spec (conf k) (sending k) buffer len Hf Hs) as (s & b & l & E & W & L1 & L2 & L3 & L4); [lia|].
  pose proof (sw_waiting _ _ Hs) as Hw. rewrite Hq in Hw. apply Forall_app in Hw as [_ Hw]. apply Forall_singleton in Hw as (_ & O2 & _).
  assert (l = len - room /\ b = drop (Z.to_nat room) buffer) as [-> ->].
  { unfold append_last in E. rewrite Hq, last_snoc, (proj2 (Z.ltb_lt _ _) Hold) in E. rewrite s32_small in E by lia.
    fold room in E. rewrite (proj2 (Z.ltb_ge len room)) in E by lia.
    apply bind_Done_inv in E as (d1 & _ & E). apply bind_Done_inv in E as (d2 & _ & E). by simplify_eq. }
  unfold ikcp_send. rewrite (proj2 (Z.eqb_neq _ 0)), (proj2 (Z.ltb_ge len 0)), (proj2 (Z.eqb_neq _ _) Hst) by lia. cbn [negb andb].
  rewrite E, bind_Done, (proj2 (Z.leb_gt (len - room) 0)) by lia.
  destruct (send_rest_spec k s (drop (Z.to_nat room) buffer) (len - room) Hf W) as [E2 _]; [lia|lia|unfold IKCP_WND_RCV; lia|].
  unfold send_rest in E2. rewrite E2.
  assert (IKCP_WND_RCV <= count_of (mss (conf k)) (len - room)) as Hcount.
  { destruct (count_of_spec (mss (conf k)) (len - room)) as (C1 & C2 & _); [lia|lia|]. unfold IKCP_WND_RCV. nia. }
  rewrite (proj2 (Z.leb_le _ _) Hcount). eexists. split; [done|]. split; [|lia]. cbn [sending set_sending].
  apply (app_inv_tail (take (Z.to_nat (len - room)) (drop (Z.to_nat room) buffer))). rewrite L4, <- app_assoc. f_equal.
  rewrite take_take_drop. f_equal. lia.
Qed.

Lemma kcp_stream_partial_witness :
  let k := mkKcp (mkConfig 17 50 26 32 128 100 0 100 0 5 0 1 20) (mkSender 0 0 [Seg.queued 0 1 [9]] [] 1 0)
             (mkReceiver 0 [] [] 0 0) (mkAcks [] 0 0) (mkCongestion 128 2 0 0 0 0 200 0 0 0) (mkTimer 0 100 0 0 0) [] in
  exists k', ikcp_send k (replicate 3353 7) 3353 = Done (-2, k') /\
    bytes_of (snd_queue (sending k')) = bytes_of (snd_queue (sending k)) ++ take (Z.to_nat 25) (replicate 3353 7) /\ 0 < 25.
Proof.
  intros k. apply (kcp_stream_partial k [] (Seg.queued 0 1 [9]) (replicate 3353 7) 3353); try done.
  split; cbn; try done; by repeat constructor.
Defined.

(** ** A large window *)

(** A receive window of 65536 or more segments, which [ikcp_wndsize] accepts,
    does not fit the header: with the queue empty the window that is announced
    to the peer is 0, and the peer stops sending. *)
Theorem kcp_window_wraps k sn ts buf :
  nrcv_que (receiving k) = 0 -> (24 <= length buf)%nat ->
  let k' := (ikcp_wndsize k 0 65536).2 in
  ikcp_wnd_unused (rcv_wnd (conf k')) (receiving k') = 65536 /\
  exists buf' rest, ikcp_encode_seg buf 0 (control_seg k' IKCP_CMD_ACK sn ts) = Done (buf', 24%nat) /\
    ikcp_decode16u (drop 6 buf') = Done (0, rest).
Proof.
  intros Hq Hb k'. assert (ikcp_wnd_unused (rcv_wnd (conf k')) (receiving k') = 65536) as Hw.
  { unfold ikcp_wnd_unused. cbn. by rewrite Hq. }
  split; [done|]. rewrite encode_seg_spec by done. eexists _, _. split; [done|].
  unfold control_seg. cbn [Seg.wnd]. rewrite Hw. unfold splice, header. cbn [take app Seg.wnd].
  reflexivity.
Qed.

Lemma kcp_window_wraps_witness :
  let k' := (ikcp_wndsize (busy 1000 1050) 0 65536).2 in
  ikcp_wnd_unused (rcv_wnd (conf k')) (receiving k') = 65536 /\
  exists buf' rest, ikcp_encode_seg (replicate 24 0) 0 (control_seg k' IKCP_CMD_ACK 5 6) = Done (buf', 24%nat) /\
    ikcp_decode16u (drop 6 buf') = Done (0, rest).
Proof. apply (kcp_window_wraps (busy 1000 1050) 5 6 (replicate 24 0)); [done|]. cbn. lia. Defined.

End KcpEdge.
