(* ===== verification/Interleave.v ===== *)
(** * Interleavings of threads on a shared object

    The queues of src/demo/queue are called by several threads at once.  A
    thread is a small machine: its local state holds the program point and the
    locals of the function it is in, and one step is one access to the shared
    object.  This file has the labelled transition system that interleaves the
    steps of the threads in any order, and the simulation argument by which an
    invariant of the shared object gives a refinement of an executable
    sequential specification. *)

From S2P Require Import Prelude.

(** A step of a function either goes on to another program point or returns. *)
Inductive outcome (P R : Type) := Continue (p : P) | Return (r : R).
Arguments Continue {P R} p.
Arguments Return {P R} r.

(** The assertion macros of the queues: a false condition aborts. *)
Definition assert (b : bool) : exec unit := if b then Done tt else Fault.

Section interleave.
(** The shared object, the local state of a thread, what its client asks for,
    and the observable events. *)
Context {Sh Loc Act Ev : Type}.

(** [tstep a q p]: the step of a thread in local state [p]; [None] when the
    action makes no sense there, [Fault] when the code aborts. *)
Context (tstep : Act -> Sh -> Loc -> option (exec (Sh * Loc * list Ev))).

(** What is assumed of a thread that is scheduled. *)
Context (admissible : Sh -> Loc -> Prop) `{!RelDecision admissible}.

Record sys := Sys { shared : Sh; locals : list Loc }.

Definition label (t : nat) (es : list Ev) : list (nat * Ev) := map (pair t) es.

Inductive step : sys -> list (nat * Ev) -> sys -> Prop :=
  | step_thread t a q ps p q' p' es :
      ps !! t = Some p -> admissible q p ->
      tstep a q p = Some (Done (q', p', es)) ->
      step (Sys q ps) (label t es) (Sys q' (<[t := p']> ps)).

Inductive steps : sys -> list (nat * Ev) -> sys -> Prop :=
  | steps_nil s : steps s [] s
  | steps_snoc s tr s' es s'' : steps s tr s' -> step s' es s'' -> steps s (tr ++ es) s''.

(** No thread that may be scheduled aborts. *)
Definition never_aborts (s : sys) : Prop :=
  forall t a p, locals s !! t = Some p -> admissible (shared s) p ->
    tstep a (shared s) p <> Some Fault.

(** The executable form: a schedule names the thread and its action at each
    step. *)
Definition run_one (s : sys) (ta : nat * Act) : option (exec (sys * list (nat * Ev))) :=
  p ← locals s !! ta.1;
  guard (admissible (shared s) p);;
  m ← tstep ta.2 (shared s) p;
  Some (r ← m; let '(q', p', es) := r in
        Done (Sys q' (<[ta.1 := p']> (locals s)), label ta.1 es)).

Fixpoint run_schedule (s : sys) (l : list (nat * Act)) : option (sys * list (nat * Ev)) :=
  match l with
  | [] => Some (s, [])
  | ta :: l' =>
      match run_one s ta with
      | Some (Done (s', es)) =>
          r ← run_schedule s' l'; let '(s'', tr) := r in Some (s'', es ++ tr)
      | _ => None
      end
  end.

Section simulation.
(** The specification: a deterministic machine that accepts or refuses each
    event. *)
Context {A : Type} (spec : A -> nat * Ev -> option A).

Fixpoint spec_run (a : A) (tr : list (nat * Ev)) : option A :=
  match tr with [] => Some a | e :: tr' => a' ← spec a e; spec_run a' tr' end.

Lemma spec_run_app a tr1 tr2 :
  spec_run a (tr1 ++ tr2) = (a' ← spec_run a tr1; spec_run a' tr2).
Proof.
  revert a. induction tr1 as [|e tr1 IH]; intros a; simpl; [done|].
  destruct (spec a e); simpl; auto.
Qed.

Lemma spec_run_one a t e : spec_run a (label t [e]) = spec a (t, e).
Proof. unfold label. cbn [map spec_run]. by destruct (spec a (t, e)). Qed.

(** A relation kept by every step, in which the specification follows. *)
Context (R : sys -> A -> Prop).
Hypothesis R_step : forall s a es s', R s a -> step s es s' ->
  exists a', spec_run a es = Some a' /\ R s' a'.

Lemma simulation s a tr s' :
  R s a -> steps s tr s' -> exists a', spec_run a tr = Some a' /\ R s' a'.
Proof.
  intros HR. induction 1 as [|s tr s' es s'' _ IH Hs]; [by exists a|].
  destruct (IH HR) as (a' & Ha' & HR'). destruct (R_step _ _ _ _ HR' Hs) as (a'' & Ha'' & HR'').
  exists a''. rewrite spec_run_app, Ha'. simpl. auto.
Qed.
End simulation.

Lemma steps_app s tr s' tr' s'' : steps s tr s' -> steps s' tr' s'' -> steps s (tr ++ tr') s''.
Proof.
  intros H1 H2. induction H2 as [|? ? ? ? ? ? IH Hs]; [by rewrite app_nil_r|].
  rewrite app_assoc. eapply steps_snoc; eauto.
Qed.

(** Running a schedule is a sequence of steps. *)
Lemma run_schedule_steps l : forall s s' tr,
  run_schedule s l = Some (s', tr) -> steps s tr s'.
Proof.
  induction l as [|[t a] l IH]; intros s s' tr H; simpl in H.
  - simplify_eq. constructor.
  - unfold run_one in H. simpl in H. destruct (locals s !! t) as [p|] eqn:Ht; simpl in H; [|done].
    case_guard; simpl in H; [|done].
    destruct (tstep a (shared s) p) as [[[[q' p'] es]| |]|] eqn:Hst; simpl in H; try done.
    destruct (run_schedule _ l) as [[s2 tr2]|] eqn:Hr; simpl in H; [|done]. simplify_eq.
    eapply (steps_app _ (label t es) _ _ _); [|by eapply IH].
    destruct s as [q ps]. apply (steps_snoc _ [] (Sys q ps)); [constructor|].
    by eapply step_thread.
Qed.
End interleave.

Arguments sys : clear implicits.
Arguments Sys {Sh Loc} shared locals.
