(* ===== verification/Mempool.v ===== *)
(** * Memory pools of the LSM-trie: src/DataStruct_learn/Tree/lsm-trie/mempool.c

    A pool is one block of memory that is given out from front to back; what
    mempool_alloc returns is the offset in it.  Threads allocate at the same
    time: the position is read once without and then advanced with an atomic
    instruction.  The operating system ([mmap], which may refuse huge pages or
    all pages, and [malloc]) is a parameter. *)

From S2P Require Import Prelude Interleave.

Module Mempool.

(** ** The code *)

Definition MEMPOOL_UNIT : Z := 1024 * 1024 * 2.

Record Mempool := mkPool { using_mmap : bool; pos : Z; max : Z }.

Section os.
(** [mmap huge n], [malloc n]: whether memory is granted. *)
Context (mmap : bool -> Z -> bool) (malloc : Z -> bool).

Definition round_up (cap : Z) : Z := u64 (u64 (u64 (cap + MEMPOOL_UNIT) - 1) / MEMPOOL_UNIT * MEMPOOL_UNIT).

Definition huge_alloc (cap : Z) : bool :=
  let hcap := round_up cap in
  if negb (hcap =? cap) then false
  else if mmap true cap then true else mmap false cap.

(** The pool after pos was set, or [None] when there is no memory. *)
Definition space_alloc_mmap (p : Z) (cap : Z) : exec (option Mempool) :=
  let hcap := round_up cap in
  _ ← assert (cap <=? hcap);
  if huge_alloc hcap then Done (Some (mkPool true p hcap))
  else if malloc cap then Done (Some (mkPool false p cap)) else Done None.

(** The structure itself is 32 bytes. *)
Definition mempool_new (cap : Z) : exec (option Mempool) :=
  if malloc 32 then space_alloc_mmap 0 cap else Done None.
End os.

(** [(cap + 8u) & ~7u]: the mask has 32 bits. *)
Definition hcap (cap : Z) : Z := Z.land (u64 (cap + 8)) (2 ^ 32 - 8).

(** The first test, on the position as it is read there. *)
Definition alloc_check (p : Mempool) (cap : Z) : bool := u64 (pos p + hcap cap) <=? max p.

(** The atomic addition and the second test. *)
Definition alloc_add (p : Mempool) (cap : Z) : Mempool * option Z :=
  let old := pos p in
  let p := mkPool (using_mmap p) (u64 (old + hcap cap)) (max p) in
  (p, if u64 (old + hcap cap) <=? max p then Some old else None).

(** Without other threads in between. *)
Definition mempool_alloc (p : Mempool) (cap : Z) : Mempool * option Z :=
  if alloc_check p cap then alloc_add p cap else (p, None).

(** As a machine: one access to the position at a time. *)
Inductive point := Idle | Adding (cap : Z).
Inductive action := Call (cap : Z) | Go.
Inductive event := Got (cap off : Z) | Refused (cap : Z) | Lost (cap : Z).

Definition alloc_step (a : action) (p : Mempool) (l : point) : option (exec (Mempool * point * list event)) :=
  match a, l with
  | Call cap, Idle =>
      Some (Done (if alloc_check p cap then (p, Adding cap, []) else (p, Idle, [Refused cap])))
  | Go, Adding cap =>
      let '(p, r) := alloc_add p cap in
      Some (Done (p, Idle, [match r with Some off => Got cap off | None => Lost cap end]))
  | _, _ => None
  end.

(** ** Sizes *)

Lemma hcap_spec cap : 0 <= cap < 2 ^ 32 - 8 -> hcap cap = (cap + 8) / 8 * 8 /\ cap < hcap cap <= cap + 8 /\ hcap cap mod 8 = 0.
Proof.
  intros H. assert (hcap cap = (cap + 8) / 8 * 8) as E.
  { unfold hcap. rewrite u64_small by lia. replace (2 ^ 32 - 8) with (Z.shiftl (Z.ones 29) 3) by reflexivity.
    replace ((cap + 8) / 8 * 8) with (Z.shiftl (Z.shiftr (cap + 8) 3) 3)
      by (rewrite Z.shiftl_mul_pow2, Z.shiftr_div_pow2 by lia; reflexivity).
    apply Z.bits_inj'. intros i Hi. rewrite Z.land_spec, !Z.shiftl_spec by lia.
    destruct (Z.lt_ge_cases i 3); [by rewrite !(Z.testbit_neg_r _ (i - 3)), andb_false_r by lia|].
    rewrite Z.shiftr_spec, Z.sub_add, Z.testbit_ones_nonneg by lia.
    destruct (Z.ltb_spec (i - 3) 29); [by rewrite andb_true_r|].
    rewrite andb_false_r. symmetry. apply (testbit_high _ 32); lia. }
  split; [done|]. rewrite E. split; [lia_div|]. apply Z.mod_mul. lia.
Qed.

(** ** Concurrent allocation *)

Section threads.
(** Requests of at most [limit] bytes from a pool with [size] bytes by [n]
    threads. *)
Context (limit size : Z) (n : nat).

Definition pool_step (a : action) (p : Mempool) (l : point) : option (exec (Mempool * point * list event)) :=
  match a with
  | Call cap => if (0 <=? cap) && (cap <=? limit) then alloc_step a p l else None
  | Go => alloc_step a p l
  end.

Definition any_time (p : Mempool) (l : point) : Prop := True.

(** The specification, on unbounded integers: [used] bytes are spent and
    [blocks] are given out. *)
Record bump := mkBump { used : Z; blocks : list (Z * Z) }.

Definition bump_spec (s : bump) (e : nat * event) : option bump :=
  match e.2 with
  | Got cap off =>
      guard (off = used s /\ used s + hcap cap <= size);; Some (mkBump (used s + hcap cap) ((off, cap) :: blocks s))
  | Refused cap => guard (size < used s + hcap cap);; Some s
  | Lost cap => guard (size < used s + hcap cap);; Some (mkBump (used s + hcap cap) (blocks s))
  end.

Definition disjoint_blocks (a b : Z * Z) : Prop := a.1 + a.2 <= b.1 \/ b.1 + b.2 <= a.1.
Definition block_ok (b : Z * Z) : Prop := 0 <= b.1 /\ 0 <= b.2 /\ b.1 + b.2 <= size /\ b.1 mod 8 = 0.

Hypothesis Hlimit : 0 <= limit < 2 ^ 32 - 8.
Hypothesis Hsize : 0 <= size.
Hypothesis Hroom : size + (Z.of_nat n + 1) * (limit + 8) < 2 ^ 64.

Definition adding (l : point) : Z := match l with Adding _ => 1 | Idle => 0 end.
Notation pending := (tally adding).

Lemma adding_range l : 0 <= adding l <= 1.
Proof. destruct l; cbn; lia. Qed.

Definition request_ok (l : point) : Prop := match l with Adding cap => 0 <= cap <= limit | Idle => True end.

(** The invariant: threads that are past the first test may still add. *)
Record pool_inv (s : sys Mempool point) (a : bump) : Prop := {
  pi_threads : length (locals s) = n;
  pi_size : max (shared s) = size;
  pi_used : pos (shared s) = used a;
  pi_range : 0 <= used a /\ used a mod 8 = 0;
  pi_room : used a + pending (locals s) * (limit + 8) <= size + Z.of_nat n * (limit + 8);
  pi_requests : Forall request_ok (locals s);
  pi_blocks : Forall (fun b => block_ok b /\ b.1 + b.2 <= used a) (blocks a);
  pi_disjoint : ForallOrdPairs disjoint_blocks (blocks a) }.

Lemma call_step s a t cap :
  pool_inv s a -> locals s !! t = Some Idle -> 0 <= cap <= limit ->
  exists a' l es, alloc_step (Call cap) (shared s) Idle = Some (Done (shared s, l, es)) /\
    spec_run bump_spec a (label t es) = Some a' /\ pool_inv (Sys (shared s) (<[t:=l]> (locals s))) a'.
Proof using Hlimit Hroom Hsize.
  intros [H1 H2 H3 H4 H5 H6 H7 H8] Ht Hc. destruct (hcap_spec cap ltac:(lia)) as (_ & Hh & _).
  pose proof (tally_range adding adding_range (locals s)) as Hp. pose proof (tally_insert adding _ t _ Idle Ht) as Hi0. pose proof (tally_insert adding _ t _ (Adding cap) Ht) as Hi1.
  pose proof (tally_range adding adding_range (<[t:=Adding cap]> (locals s))) as Hp1. rewrite length_insert in Hp1. cbn [adding] in *.
  assert (used a + hcap cap < 2 ^ 64) by nia.
  cbn [alloc_step]. unfold alloc_check. rewrite H2, H3, u64_small by lia.
  destruct (Z.leb_spec (used a + hcap cap) size).
  - exists a, (Adding cap), []. split_and!; [done|done|]. 
    assert ((pending (locals s) + 1) * (limit + 8) <= Z.of_nat n * (limit + 8)) by (apply Z.mul_le_mono_nonneg_r; lia).
    split; cbn [shared locals]; rewrite ?length_insert, ?Hi1; try done; [lia|]. by apply Forall_insert.
  - exists a, Idle, [Refused cap]. split_and!; [done|rewrite spec_run_one; unfold bump_spec; cbn [snd]; by rewrite option_guard_True by lia|].
    split; cbn [shared locals]; rewrite ?length_insert, ?Hi0; try done; [lia|by apply Forall_insert].
Qed.

Lemma go_step s a t cap :
  pool_inv s a -> locals s !! t = Some (Adding cap) ->
  exists a' p es, alloc_step Go (shared s) (Adding cap) = Some (Done (p, Idle, es)) /\
    spec_run bump_spec a (label t es) = Some a' /\ pool_inv (Sys p (<[t:=Idle]> (locals s))) a'.
Proof using Hlimit Hroom Hsize.
  intros [H1 H2 H3 H4 H5 H6 H7 H8] Ht. pose proof (Forall_lookup_1 _ _ _ _ H6 Ht) as Hc. cbn in Hc.
  destruct (hcap_spec cap ltac:(lia)) as (_ & Hh & Hh8).
  pose proof (tally_range adding adding_range (locals s)) as Hp. pose proof (tally_insert adding _ t _ Idle Ht) as Hi0.
  pose proof (tally_range adding adding_range (<[t:=Idle]> (locals s))) as Hp1. rewrite length_insert in Hp1. cbn [adding] in *.
  assert (used a + hcap cap < 2 ^ 64) by nia.
  assert ((used a + hcap cap) mod 8 = 0) as Hm by (rewrite Z.add_mod, Hh8, (proj2 H4) by lia; done).
  assert (forall p' bl, max p' = size -> pos p' = used a + hcap cap ->
    Forall (fun b => block_ok b /\ b.1 + b.2 <= used a + hcap cap) bl -> ForallOrdPairs disjoint_blocks bl ->
    pool_inv (Sys p' (<[t:=Idle]> (locals s))) (mkBump (used a + hcap cap) bl)) as Hinv.
  { intros p' bl ????. split; cbn [shared locals used blocks]; rewrite ?length_insert, ?Hi0; try done; [lia|lia|by apply Forall_insert]. }
  assert (Forall (fun b => block_ok b /\ b.1 + b.2 <= used a + hcap cap) (blocks a)) as Hb
    by (eapply Forall_impl; [exact H7|]; cbn; intros b [Hb1 Hb2]; split; [done|lia]).
  cbn [alloc_step]. unfold alloc_add. cbn [max]. rewrite H2, H3, !u64_small by lia.
  destruct (Z.leb_spec (used a + hcap cap) size).
  - exists (mkBump (used a + hcap cap) ((used a, cap) :: blocks a)). do 2 eexists. split; [done|]. split.
    + rewrite spec_run_one. unfold bump_spec. cbn [snd]. by rewrite option_guard_True by lia.
    + apply Hinv; [done|done| |].
      * constructor; [|done]. unfold block_ok. cbn. lia.
      * constructor; [|done]. eapply Forall_impl; [exact H7|]. intros b [_ Hb2]. right. cbn. lia.
  - exists (mkBump (used a + hcap cap) (blocks a)). do 2 eexists. split; [done|]. split; [|by apply Hinv].
    rewrite spec_run_one. unfold bump_spec. cbn [snd]. by rewrite option_guard_True by lia.
Qed.

Lemma pool_inv_step s a es s' :
  pool_inv s a -> step pool_step any_time s es s' -> exists a', spec_run bump_spec a es = Some a' /\ pool_inv s' a'.
Proof using Hlimit Hroom Hsize.
  intros HI Hs. destruct Hs as [t act q ps p q' p' es Ht _ Hst]. unfold pool_step in Hst.
  destruct act as [cap|], p as [|cap']; try done.
  - destruct ((0 <=? cap) && (cap <=? limit)) eqn:Hc; [|done].
    destruct (call_step (Sys q ps) a t cap HI Ht ltac:(lia)) as (a' & l & es' & E & Hr & Hi).
    cbn [shared] in *. rewrite E in Hst. simplify_eq. by exists a'.
  - by destruct ((0 <=? cap) && (cap <=? limit)).
  - destruct (go_step (Sys q ps) a t cap' HI Ht) as (a' & p2 & es' & E & Hr & Hi). cbn [shared] in *. rewrite E in Hst. simplify_eq. by exists a'.
Qed.

End threads.

#[local] Instance any_time_dec : RelDecision any_time := fun _ _ => left I.


(** A request of 2^32 - 4 bytes advances the position by nothing. *)
Lemma mempool_alloc_mask : mempool_alloc (mkPool true 0 (2 ^ 40)) (2 ^ 32 - 4) = (mkPool true 0 (2 ^ 40), Some 0).
Proof. reflexivity. Qed.

(** A request that fits is granted. *)
Lemma mempool_alloc_fits p cap :
  0 <= cap < 2 ^ 32 - 8 -> 0 <= pos p -> max p < 2 ^ 64 -> pos p + cap + 8 <= max p ->
  mempool_alloc p cap = (mkPool (using_mmap p) (pos p + hcap cap) (max p), Some (pos p)).
Proof.
  intros Hc Hp Hm Hf. destruct (hcap_spec cap Hc) as (_ & Hh & _). unfold mempool_alloc, alloc_check, alloc_add. cbn [max].
  rewrite u64_small, (proj2 (Z.leb_le _ _)) by lia. done.
Qed.
End Mempool.
