(* ===== verification/RwLock.v ===== *)
(** * The read-write lock of the LSM-trie: src/DataStruct_learn/Tree/lsm-trie/rwlock.c

    Writers take a number and are served in its order.  Readers line up in one
    of two rooms, in turn: a writer sends new readers to the next room and
    waits until the readers of its own room have left; when it is done the
    next room opens.

    Every function holds the mutex of the lock except while it waits on a
    condition variable, so a thread is a machine that runs from one wait to
    the next.  A condition variable is the number of its broadcasts: a thread
    that waits has noted the number it saw and is awake once there was another
    broadcast; it may also wake up without any, as the standard allows. *)

From S2P Require Import Prelude Interleave.

Module RwLock.

(** ** The code *)

Record ReaderLock := mkRL { nr_readers : Z; open : bool; cond_reader : Z }.

Record RWLock := mkLock {
  next_ticket : Z; reader_ticket : Z; writer_ticket : Z; cond_writer : Z; rl : list ReaderLock }.

Definition rwlock_initial : RWLock := mkLock 0 0 0 0 [mkRL 0 true 0; mkRL 0 false 0].

(** The index [ticket & 1]. *)
Definition room (ticket : Z) : nat := Z.to_nat (Z.land ticket 1).

Definition broadcast_writer (bo : RWLock) : RWLock :=
  mkLock (next_ticket bo) (reader_ticket bo) (writer_ticket bo) (cond_writer bo + 1) (rl bo).

Definition set_room (bo : RWLock) (ticket : Z) (r : ReaderLock) : RWLock :=
  mkLock (next_ticket bo) (reader_ticket bo) (writer_ticket bo) (cond_writer bo) (<[room ticket:=r]> (rl bo)).

(** Where a thread is: outside, waiting in one of the three loops (with the
    number of broadcasts it saw), or holding the lock. *)
Inductive point :=
  | Idle
  | ReadWait (ticket seen : Z)
  | Reading (ticket : Z)
  | WriteWait (ticket seen : Z)
  | DrainWait (ticket seen : Z)
  | Writing (ticket : Z).

Inductive action := CallReaderLock | CallReaderUnlock | CallWriterLock | CallWriterUnlock | Wake.

(** Readers ask, enter and leave; writers ask, enter and leave. *)
Inductive event := AskRead | BeginRead | EndRead | AskWrite | BeginWrite | EndWrite.

Notation result := (exec (RWLock * point * list event)).

(** The loop of rwlock_reader_lock. *)
Definition reader_wait (bo : RWLock) (ticket : Z) : result :=
  r ← load (rl bo) (room ticket);
  if open r then Done (bo, Reading ticket, [BeginRead]) else Done (bo, ReadWait ticket (cond_reader r), []).

Definition rwlock_reader_lock (bo : RWLock) : result :=
  let ticket := reader_ticket bo in
  r ← load (rl bo) (room ticket);
  x ← reader_wait (set_room bo ticket (mkRL (u64 (nr_readers r + 1)) (open r) (cond_reader r))) ticket;
  let '(bo, p, es) := x in Done (bo, p, AskRead :: es).

Definition rwlock_reader_unlock (bo : RWLock) (ticket : Z) : result :=
  r ← load (rl bo) (room ticket);
  _ ← assert (negb (nr_readers r =? 0));
  let n := u64 (nr_readers r - 1) in
  let bo := set_room bo ticket (mkRL n (open r) (cond_reader r)) in
  Done (if n =? 0 then broadcast_writer bo else bo, Idle, [EndRead]).

(** The second loop of rwlock_writer_lock. *)
Definition writer_drain (bo : RWLock) (ticket : Z) : result :=
  r ← load (rl bo) (room ticket);
  if 0 <? nr_readers r then Done (bo, DrainWait ticket (cond_writer bo), [])
  else Done (set_room bo ticket (mkRL (nr_readers r) false (cond_reader r)), Writing ticket, [BeginWrite]).

(** The first loop. *)
Definition writer_wait (bo : RWLock) (ticket : Z) : result :=
  if negb (ticket =? writer_ticket bo) then Done (bo, WriteWait ticket (cond_writer bo), [])
  else
    _ ← assert (reader_ticket bo =? writer_ticket bo);
    writer_drain (mkLock (next_ticket bo) (u64 (reader_ticket bo + 1)) (writer_ticket bo) (cond_writer bo) (rl bo)) ticket.

Definition rwlock_writer_lock (bo : RWLock) : result :=
  let ticket := next_ticket bo in
  x ← writer_wait (mkLock (u64 (ticket + 1)) (reader_ticket bo) (writer_ticket bo) (cond_writer bo) (rl bo)) ticket;
  let '(bo, p, es) := x in Done (bo, p, AskWrite :: es).

Definition rwlock_writer_unlock (bo : RWLock) (ticket : Z) : result :=
  r ← load (rl bo) (room ticket);
  _ ← assert (nr_readers r =? 0);
  next ← load (rl bo) (room (u64 (ticket + 1)));
  let seen := if 0 <? nr_readers next then cond_reader next + 1 else cond_reader next in
  let bo := set_room bo (u64 (ticket + 1)) (mkRL (nr_readers next) true seen) in
  let bo := mkLock (next_ticket bo) (reader_ticket bo) (u64 (writer_ticket bo + 1)) (cond_writer bo) (rl bo) in
  Done (broadcast_writer bo, Idle, [EndWrite]).

(** A thread passes the ticket it got from locking to unlocking. *)
Definition lock_step (a : action) (bo : RWLock) (p : point) : option result :=
  match a, p with
  | CallReaderLock, Idle => Some (rwlock_reader_lock bo)
  | CallWriterLock, Idle => Some (rwlock_writer_lock bo)
  | Wake, ReadWait ticket _ => Some (reader_wait bo ticket)
  | Wake, WriteWait ticket _ => Some (writer_wait bo ticket)
  | Wake, DrainWait ticket _ => Some (writer_drain bo ticket)
  | CallReaderUnlock, Reading ticket => Some (rwlock_reader_unlock bo ticket)
  | CallWriterUnlock, Writing ticket => Some (rwlock_writer_unlock bo ticket)
  | _, _ => None
  end.

Definition any_time (bo : RWLock) (p : point) : Prop := True.

(** ** The specification *)

(** Who reads, who writes, the writers in line, and the readers that wait:
    [true] when a writer has entered since the reader asked. *)
Record fair := mkFair { readers : gset nat; writer : option nat; line : list nat; late : gmap nat bool }.

Definition fair_spec (s : fair) (e : nat * event) : option fair :=
  let '(t, e) := e in
  match e with
  | AskRead => guard (late s !! t = None);; Some (mkFair (readers s) (writer s) (line s) (<[t:=false]> (late s)))
  | BeginRead =>
      guard (writer s = None /\ is_Some (late s !! t));;
      Some (mkFair ({[t]} ∪ readers s) None (line s) (delete t (late s)))
  | EndRead => guard (t ∈ readers s);; Some (mkFair (readers s ∖ {[t]}) (writer s) (line s) (late s))
  | AskWrite => guard (t ∉ line s);; Some (mkFair (readers s) (writer s) (line s ++ [t]) (late s))
  | BeginWrite =>
      guard (readers s = ∅ /\ writer s = None /\ head (line s) = Some t /\ map_Forall (fun _ b => b = false) (late s));;
      Some (mkFair ∅ (Some t) (tail (line s)) ((fun _ => true) <$> late s))
  | EndWrite => guard (writer s = Some t);; Some (mkFair (readers s) None (line s) (late s))
  end.
End RwLock.
