(* ===== verification/RwLockProof.v ===== *)
(** * Correctness of the read-write lock

    Under every interleaving of its users the lock of rwlock.c admits readers
    together or one writer alone, serves writers in the order in which they
    ask, and lets no reader be overtaken by two writers; no assertion fails; and
    a thread that waits for what has come to pass has been woken, so that the
    threads never all wait. *)

From S2P Require Import Prelude Interleave RwLock.
Import RwLock.

(** ** The invariant *)

Definition par (W : Z) : nat := Z.to_nat (W mod 2).

Lemma room_u64 W : room (u64 W) = par W.
Proof.
  unfold room, par. f_equal. change 1 with (Z.ones 1). rewrite Z.land_ones by lia. unfold u64. change (2 ^ 1) with 2.
  apply Z.mod_mod_divide. by exists (2 ^ 63).
Qed.

Lemma par_next W : par (W + 1) <> par W.
Proof. unfold par. pose proof (Z.mod_pos_bound W 2). pose proof (Z.mod_pos_bound (W + 1) 2). lia_div. Qed.

Lemma par_turn W : par (W + 1 + 1) = par W.
Proof. unfold par. f_equal. lia_div. Qed.

Lemma u64_succ x : u64 (u64 x + 1) = u64 (x + 1).
Proof. unfold u64. by rewrite Z.add_mod_idemp_l. Qed.

Definition in_room (r : nat) (p : point) : Z :=
  match p with ReadWait tk _ | Reading tk => if (room tk =? r)%nat then 1 else 0 | _ => 0 end.

Lemma in_room_range r p : 0 <= in_room r p <= 1.
Proof. destruct p; cbn; try lia; case_match; lia. Qed.

(** Writer number [W] has not begun, waits for readers to leave, or writes. *)
Inductive phase := Free | Draining | Held.

#[local] Instance phase_eq_dec : EqDecision phase.
Proof. solve_decision. Defined.

Section threads.
Context (n : nat) (Hn : Z.of_nat n < 2 ^ 64).

(** [q] are the threads with the numbers from [W] on; [rc] is the room of
    [W], [rn] the next one.  A thread that waits for what has come to pass has
    been woken. *)
Section state.
Context (bo : RWLock) (W : Z) (q : list nat) (ph : phase) (rc rn : ReaderLock).

Definition local_ok (t : nat) (p : point) : Prop :=
  match p with
  | Idle => t ∉ q
  | ReadWait tk g => t ∉ q /\ (room tk = par W /\ g < cond_reader rc \/ room tk = par (W + 1) /\ g <= cond_reader rn)
  | Reading tk => t ∉ q /\ room tk = par W
  | WriteWait tk g => exists i, q !! i = Some t /\ tk = u64 (W + Z.of_nat i) /\ g <= cond_writer bo /\ (i = 0%nat -> ph = Free /\ g < cond_writer bo)
  | DrainWait tk g => head q = Some t /\ tk = u64 W /\ ph = Draining /\ g <= cond_writer bo /\ (nr_readers rc = 0 -> g < cond_writer bo)
  | Writing tk => head q = Some t /\ tk = u64 W /\ ph = Held
  end.

Record lock_ok : Prop := {
  lo_rooms : rl bo !! par W = Some rc /\ rl bo !! par (W + 1) = Some rn;
  lo_next : next_ticket bo = u64 (W + Z.of_nat (length q));
  lo_writer : writer_ticket bo = u64 W;
  lo_reader : reader_ticket bo = u64 (match ph with Free => W | _ => W + 1 end);
  lo_open : open rc = match ph with Held => false | _ => true end /\ open rn = false;
  lo_free : ph = Free -> nr_readers rn = 0;
  lo_held : ph = Held -> nr_readers rc = 0;
  lo_line : ph <> Free -> q <> [];
  lo_queue : NoDup q /\ Forall (fun t => t < n)%nat q }.

Record locals_ok (ls : list point) : Prop := {
  ll_threads : length ls = n;
  ll_rc : nr_readers rc = tally (in_room (par W)) ls;
  ll_rn : nr_readers rn = tally (in_room (par (W + 1))) ls;
  ll_each : forall t p, ls !! t = Some p -> local_ok t p }.

Record fair_ok (ls : list point) (a : fair) : Prop := {
  fo_readers : forall t, t ∈ readers a <-> exists tk, ls !! t = Some (Reading tk);
  fo_late : forall t, is_Some (late a !! t) <-> exists tk g, ls !! t = Some (ReadWait tk g);
  fo_over : forall t, late a !! t = Some true -> ph = Held \/ exists tk g, ls !! t = Some (ReadWait tk g) /\ room tk = par W;
  fo_writer : writer a = match ph with Held => head q | _ => None end;
  fo_line : line a = match ph with Held => tail q | _ => q end }.
End state.

Definition lock_inv (s : sys RWLock point) (a : fair) : Prop :=
  exists W q ph rc rn, lock_ok (shared s) W q ph rc rn /\ locals_ok (shared s) W q ph rc rn (locals s) /\ fair_ok W q ph (locals s) a.

(** Cases on whether [u] is the thread [t] that has moved. *)
Ltac cases_at t u Ht :=
  destruct (decide (u = t)) as [->|];
  [rewrite list_lookup_insert_eq by (by eapply lookup_lt_Some)|rewrite list_lookup_insert_ne by done].

Lemma locals_insert bo W q ph rc rn bo' W' q' ph' rc' rn' ls t p p' :
  locals_ok bo W q ph rc rn ls -> ls !! t = Some p ->
  nr_readers rc' = tally (in_room (par W')) (<[t:=p']> ls) -> nr_readers rn' = tally (in_room (par (W' + 1))) (<[t:=p']> ls) ->
  local_ok bo' W' q' ph' rc' rn' t p' ->
  (forall u pu, u <> t -> ls !! u = Some pu -> local_ok bo W q ph rc rn u pu -> local_ok bo' W' q' ph' rc' rn' u pu) ->
  locals_ok bo' W' q' ph' rc' rn' (<[t:=p']> ls).
Proof.
  intros [H1 H2 H3 H4] Ht Hc Hn' Hp Ho. split; [by rewrite length_insert|done|done|]. intros u pu Hu.
  apply list_lookup_insert_Some in Hu as [(<- & <- & _)|(Hne & Hu)]; [done|]. apply Ho; auto.
Qed.

Lemma fair_insert W q ph W' q' ph' ls t p p' a a' :
  fair_ok W q ph ls a -> ls !! t = Some p ->
  (forall u, u ∈ readers a' <-> if decide (u = t) then exists tk, p' = Reading tk else u ∈ readers a) ->
  (forall u, is_Some (late a' !! u) <-> if decide (u = t) then exists tk g, p' = ReadWait tk g else is_Some (late a !! u)) ->
  (forall u, late a' !! u = Some true -> ph' = Held \/ exists tk g, <[t:=p']> ls !! u = Some (ReadWait tk g) /\ room tk = par W') ->
  writer a' = match ph' with Held => head q' | _ => None end ->
  line a' = match ph' with Held => tail q' | _ => q' end ->
  fair_ok W' q' ph' (<[t:=p']> ls) a'.
Proof.
  intros [H1 H2 H3 H4 H5] Ht Hr Hl Ho Hw Hq. split; [| |done|done|done]; intros u.
  - rewrite Hr. cases_at t u Ht; [|apply H1].
    split; intros [tk E]; exists tk; [by subst|by injection E].
  - rewrite Hl. cases_at t u Ht; [|apply H2].
    split; intros (tk & g & E); exists tk, g; [by subst|by injection E].
Qed.

(** ** Readers *)

Lemma wake_read s a t tk g :
  lock_inv s a -> locals s !! t = Some (ReadWait tk g) ->
  exists p es a', reader_wait (shared s) tk = Done (shared s, p, es) /\ spec_run fair_spec a (label t es) = Some a' /\
    lock_inv (Sys (shared s) (<[t:=p]> (locals s))) a'.
Proof.
  intros (W & q & ph & rc & rn & HO & HL & HF) Ht. destruct s as [bo ls]. cbn [shared locals] in *.
  destruct (ll_each _ _ _ _ _ _ _ HL _ _ Ht) as [Hq Hr]. unfold reader_wait. destruct (lo_rooms _ _ _ _ _ _ HO) as [Hrc Hrn].
  destruct (lo_open _ _ _ _ _ _ HO) as [Hoc Hon].
  assert (forall r p, in_room r p = in_room r (ReadWait tk g) -> tally (in_room r) (<[t:=p]> ls) = tally (in_room r) ls) as Htally
    by (intros r p E; rewrite (tally_insert _ _ _ _ _ Ht), E; lia).
  assert (is_Some (late a !! t)) as Hlate by (apply (fo_late _ _ _ _ _ HF); by exists tk, g).
  destruct Hr as [[Hr Hg]|[Hr Hg]]; rewrite Hr.
  - rewrite (load_Done _ _ _ Hrc). run. assert (ph <> Held) as Hph.
    { intros E. pose proof (lo_held _ _ _ _ _ _ HO E) as H0. rewrite (ll_rc _ _ _ _ _ _ _ HL) in H0.
      pose proof (tally_ge _ (in_room_range (par W)) _ _ _ Ht) as Hge. cbn [in_room] in Hge. rewrite Hr, Nat.eqb_refl in Hge. lia. }
    assert (open rc = true) as -> by (rewrite Hoc; by destruct ph). assert (writer a = None) as Hw by (rewrite (fo_writer _ _ _ _ _ HF); by destruct ph).
    exists (Reading tk), [BeginRead], (mkFair ({[t]} ∪ readers a) None (line a) (delete t (late a))).
    split; [done|]. split; [rewrite spec_run_one; cbn [fair_spec]; by rewrite option_guard_True|].
    exists W, q, ph, rc, rn. split; [done|]. split.
    + eapply (locals_insert bo W q ph rc rn); [done|done|rewrite Htally; [apply HL|done]|rewrite Htally; [apply HL|done]|done|auto].
    + eapply (fair_insert W q ph); [done|done|..]; cbn [readers late writer line].
      * intros u. case_decide; set_solver.
      * intros u. case_decide as Hu; [subst; rewrite lookup_delete_eq; split; [intros [? ?]; done|intros (? & ? & ?); done]|by rewrite lookup_delete_ne].
      * intros u Hu. apply lookup_delete_Some in Hu as [Hne Hu]. rewrite list_lookup_insert_ne by done. by apply (fo_over _ _ _ _ _ HF).
      * by rewrite <- (fo_writer _ _ _ _ _ HF).
      * apply HF.
  - rewrite (load_Done _ _ _ Hrn). run. rewrite Hon. exists (ReadWait tk (cond_reader rn)), [], a. split; [done|]. split; [done|].
    exists W, q, ph, rc, rn. split; [done|]. split.
    + eapply (locals_insert bo W q ph rc rn); [done|done|rewrite Htally; [apply HL|done]|rewrite Htally; [apply HL|done]| |auto].
      split; [done|]. right. split; [done|lia].
    + eapply (fair_insert W q ph); [done|done|..|apply HF|apply HF].
      * intros u. case_decide as Hu; [subst|done]. rewrite (fo_readers _ _ _ _ _ HF), Ht. split; intros [? ?]; done.
      * intros u. case_decide as Hu; [subst; split; [intros _; by eauto|done]|done].
      * intros u Hu. destruct (fo_over _ _ _ _ _ HF _ Hu) as [?|(tk' & g' & Hu' & Hr')]; [by left|right].
        destruct (decide (u = t)) as [->|Hne]; [rewrite Ht in Hu'; injection Hu' as <- <-; pose proof (par_next W); congruence|].
        rewrite list_lookup_insert_ne by done. by eauto.
Qed.

(** One of the two rooms changes. *)
Lemma set_room_ok bo W q ph rc rn rc' :
  lock_ok bo W q ph rc rn -> open rc' = open rc -> (ph = Held -> nr_readers rc' = 0) ->
  lock_ok (set_room bo (u64 W) rc') W q ph rc' rn.
Proof.
  intros [[Hc Hr] H2 H3 H4 [H5 H5'] H6 H7 H8 H9] Ho Hh. unfold set_room. rewrite room_u64. split; cbn [rl next_ticket writer_ticket reader_ticket]; try done.
  - split; [apply list_lookup_insert_eq; by eapply lookup_lt_Some|]. by rewrite list_lookup_insert_ne by (intros E; by apply (par_next W)).
  - by rewrite Ho.
Qed.

Lemma set_next_ok bo W q ph rc rn rn' :
  lock_ok bo W q ph rc rn -> open rn' = open rn -> (ph = Free -> nr_readers rn' = 0) ->
  lock_ok (set_room bo (u64 (W + 1)) rn') W q ph rc rn'.
Proof.
  intros [[Hc Hr] H2 H3 H4 [H5 H5'] H6 H7 H8 H9] Ho Hh. unfold set_room. rewrite room_u64. split; cbn [rl next_ticket writer_ticket reader_ticket]; try done.
  - split; [|apply list_lookup_insert_eq; by eapply lookup_lt_Some]. by rewrite list_lookup_insert_ne by apply par_next.
  - by rewrite Ho.
Qed.

(** A reader lines up, as if it had been woken. *)
Lemma ask_read s a t :
  lock_inv s a -> locals s !! t = Some Idle ->
  let tk := reader_ticket (shared s) in
  let a' := mkFair (readers a) (writer a) (line a) (<[t:=false]> (late a)) in
  exists r g, load (rl (shared s)) (room tk) = Done r /\ fair_spec a (t, AskRead) = Some a' /\
    lock_inv (Sys (set_room (shared s) tk (mkRL (u64 (nr_readers r + 1)) (open r) (cond_reader r))) (<[t:=ReadWait tk g]> (locals s))) a'.
Proof using Hn.
  intros (W & q & ph & rc & rn & HO & HL & HF) Ht tk a'. destruct s as [bo ls]. cbn [shared locals] in *.
  pose proof (ll_each _ _ _ _ _ _ _ HL _ _ Ht) as Hq. cbn in Hq. destruct (lo_rooms _ _ _ _ _ _ HO) as [Hrc Hrn].
  assert (late a !! t = None) as Hl0.
  { destruct (late a !! t) eqn:E; [|done]. destruct (proj1 (fo_late _ _ _ _ _ HF t) ltac:(by eexists)) as (? & ? & E'). by rewrite Ht in E'. }
  assert (forall g, fair_ok W q ph (<[t:=ReadWait tk g]> ls) a') as HF'.
  { intros g. eapply (fair_insert W q ph); [done|done|..|apply HF|apply HF]; cbn [a' readers late].
    - intros u. case_decide as Hu; [subst|done]. rewrite (fo_readers _ _ _ _ _ HF), Ht. split; intros [? ?]; done.
    - intros u. case_decide as Hu; [subst; rewrite lookup_insert_eq; split; [by eauto|by eexists]|by rewrite lookup_insert_ne].
    - intros u Hu. apply lookup_insert_Some in Hu as [[_ Hu]|[Hne Hu]]; [done|]. rewrite list_lookup_insert_ne by done. by apply (fo_over _ _ _ _ _ HF). }
  assert (fair_spec a (t, AskRead) = Some a') as Hspec by (cbn [fair_spec]; by rewrite option_guard_True).
  assert (forall r g, tally (in_room r) (<[t:=ReadWait tk g]> ls) = tally (in_room r) ls + if (room tk =? r)%nat then 1 else 0) as Htl
    by (intros r g; rewrite (tally_insert _ _ _ _ _ Ht); cbn [in_room]; lia).
  assert (forall r g, 0 <= tally (in_room r) ls /\ tally (in_room r) (<[t:=ReadWait tk g]> ls) < 2 ^ 64) as Hb.
  { intros r g. pose proof (tally_range _ (in_room_range r) ls). pose proof (tally_range _ (in_room_range r) (<[t:=ReadWait tk g]> ls)) as H1.
    rewrite length_insert, (ll_threads _ _ _ _ _ _ _ HL) in H1. lia. }
  pose proof (par_next W) as Hpar. unfold tk in *. rewrite (lo_reader _ _ _ _ _ _ HO) in *.
  destruct (decide (ph = Free)) as [->|Hph].
  - set (g := cond_reader rc - 1). exists rc, g. rewrite room_u64 in *. split; [by rewrite (load_Done _ _ _ Hrc)|]. split; [done|].
    pose proof (Htl (par W) g) as H1. pose proof (Htl (par (W + 1)) g) as H2. rewrite Nat.eqb_refl in H1. rewrite (proj2 (Nat.eqb_neq _ _)) in H2 by done.
    specialize (Hb (par W) g). pose proof (ll_rc _ _ _ _ _ _ _ HL) as Hcc.
    set (rc' := mkRL _ _ _). exists W, q, Free, rc', rn. cbn [shared locals]. split; [by apply (set_room_ok _ _ _ _ rc)|]. split; [|done].
    eapply (locals_insert bo W q Free rc rn); [done|done|cbn; rewrite u64_small; lia|rewrite H2, Z.add_0_r; apply HL| |].
    + split; [done|]. left. rewrite room_u64. split; [done|cbn; lia].
    + intros u pu _ Hu Hlo. destruct pu; try done. cbn in Hlo |- *. destruct Hlo as (? & ? & Hx & _). done.
  - set (g := cond_reader rn). assert (match ph with Free => W | _ => W + 1 end = W + 1) as E by (by destruct ph). rewrite E in *.
    exists rn, g. rewrite room_u64 in *. split; [by rewrite (load_Done _ _ _ Hrn)|]. split; [done|].
    pose proof (Htl (par W) g) as H1. pose proof (Htl (par (W + 1)) g) as H2. rewrite Nat.eqb_refl in H2. rewrite (proj2 (Nat.eqb_neq _ _)) in H1 by done.
    specialize (Hb (par (W + 1)) g). pose proof (ll_rn _ _ _ _ _ _ _ HL) as Hcc.
    set (rn' := mkRL _ _ _). exists W, q, ph, rc, rn'. cbn [shared locals]. split; [by apply (set_next_ok _ _ _ _ rc rn)|]. split; [|done].
    eapply (locals_insert bo W q ph rc rn); [done|done|rewrite H1, Z.add_0_r; apply HL|cbn; rewrite u64_small; lia| |].
    + split; [done|]. right. rewrite room_u64. split; [done|cbn; lia].
    + intros u pu _ Hu Hlo. by destruct pu.
Qed.

Lemma end_read s a t tk :
  lock_inv s a -> locals s !! t = Some (Reading tk) ->
  exists bo' a', rwlock_reader_unlock (shared s) tk = Done (bo', Idle, [EndRead]) /\ fair_spec a (t, EndRead) = Some a' /\
    lock_inv (Sys bo' (<[t:=Idle]> (locals s))) a'.
Proof using Hn.
  intros (W & q & ph & rc & rn & HO & HL & HF) Ht. destruct s as [bo ls]. cbn [shared locals] in *.
  destruct (ll_each _ _ _ _ _ _ _ HL _ _ Ht) as [Hq Hr]. destruct (lo_rooms _ _ _ _ _ _ HO) as [Hrc Hrn].
  pose proof (ll_rc _ _ _ _ _ _ _ HL) as Hcc. pose proof (par_next W) as Hpar.
  assert (forall r, tally (in_room r) (<[t:=Idle]> ls) = tally (in_room r) ls - if (par W =? r)%nat then 1 else 0) as Htl
    by (intros r; rewrite (tally_insert _ _ _ _ _ Ht); cbn [in_room]; rewrite Hr; lia).
  pose proof (Htl (par W)) as H1. pose proof (Htl (par (W + 1))) as H2. rewrite Nat.eqb_refl in H1. rewrite (proj2 (Nat.eqb_neq _ _)) in H2 by done. cbv iota in H1, H2.
  pose proof (tally_range _ (in_room_range (par W)) (<[t:=Idle]> ls)) as Hrg. rewrite length_insert, (ll_threads _ _ _ _ _ _ _ HL) in Hrg.
  unfold rwlock_reader_unlock. unfold set_room. rewrite Hr, (load_Done _ _ _ Hrc). run.
  rewrite (proj2 (Z.eqb_neq (nr_readers rc) 0)) by lia. cbn [negb assert]. run. rewrite u64_small by lia.
  set (rc' := mkRL (nr_readers rc - 1) _ _). set (bo1 := mkLock _ _ _ _ _).
  set (bo' := if nr_readers rc - 1 =? 0 then broadcast_writer bo1 else bo1). set (a' := mkFair (readers a ∖ {[t]}) (writer a) (line a) (late a)).
  assert (ph <> Held) as Hph by (intros E; pose proof (lo_held _ _ _ _ _ _ HO E); lia).
  exists bo', a'. split; [done|]. split.
  { cbn [fair_spec]. rewrite option_guard_True; [done|]. apply (fo_readers _ _ _ _ _ HF). by exists tk. }
  assert (lock_ok bo1 W q ph rc' rn) as HO1.
  { pose proof (set_room_ok bo W q ph rc rn rc' HO eq_refl ltac:(done)) as H. unfold set_room in H. by rewrite room_u64 in H. }
  assert (lock_ok bo' W q ph rc' rn) as HO' by (unfold bo'; destruct (_ =? 0); [by destruct HO1|done]).
  exists W, q, ph, rc', rn. cbn [shared locals]. split; [done|]. split.
  - eapply (locals_insert bo W q ph rc rn); [done|done|cbn; lia|rewrite H2, Z.sub_0_r; apply HL|done|].
    assert (cond_writer bo' = cond_writer bo + if nr_readers rc - 1 =? 0 then 1 else 0) as Ecw by (unfold bo'; destruct (_ =? 0); cbn; lia).
    intros u pu _ Hu Hlo. destruct pu as [|tk' g|tk'|tk' g|tk' g|tk']; try done; cbn in Hlo |- *; rewrite Ecw.
    + destruct Hlo as (i & ? & ? & ? & Hi). exists i. split_and!; [done|done|destruct (_ =? 0); lia|]. intros E. destruct (Hi E). split; [done|destruct (_ =? 0); lia].
    + destruct Hlo as (? & ? & ? & ? & _). split_and!; try done; [destruct (_ =? 0); lia|]. intros E. rewrite E. cbn. lia.
  - eapply (fair_insert W q ph); [done|done|..|apply HF|apply HF]; cbn [a' readers late].
    + intros u. case_decide as Hu; [subst|set_solver]. split; [set_solver|]. intros [? ?]; done.
    + intros u. case_decide as Hu; [subst|done]. rewrite (fo_late _ _ _ _ _ HF), Ht. split; intros (? & ? & ?); done.
    + intros u Hu. destruct (fo_over _ _ _ _ _ HF _ Hu) as [?|(tk' & g' & Hu' & Hr')]; [by left|right].
      destruct (decide (u = t)) as [->|Hne]; [by rewrite Ht in Hu'|]. rewrite list_lookup_insert_ne by done. by eauto.
Qed.

(** ** Writers *)

(** The thread does not read, before and after. *)
Definition no_reader (p : point) : Prop := match p with ReadWait _ _ | Reading _ => False | _ => True end.

Lemma tally_no_reader ls t p p' r : ls !! t = Some p -> no_reader p -> no_reader p' -> tally (in_room r) (<[t:=p']> ls) = tally (in_room r) ls.
Proof. intros Ht Hp Hp'. rewrite (tally_insert _ _ _ _ _ Ht). destruct p, p'; done || (cbn; lia). Qed.

Lemma fair_no_reader W q ph q' ph' ls t p p' a w l :
  fair_ok W q ph ls a -> ls !! t = Some p -> no_reader p -> no_reader p' -> (ph = Held -> ph' = Held) ->
  w = match ph' with Held => head q' | _ => None end -> l = match ph' with Held => tail q' | _ => q' end ->
  fair_ok W q' ph' (<[t:=p']> ls) (mkFair (readers a) w l (late a)).
Proof.
  intros HF Ht Hp Hp' Hph -> ->. eapply (fair_insert W q ph); [done|done|..]; cbn [readers late writer line]; [| | |done|done]; intros u.
  - case_decide; [subst|done]. rewrite (fo_readers _ _ _ _ _ HF), Ht. split; intros (? & E); [injection E as ->|subst]; done.
  - case_decide; [subst|done]. rewrite (fo_late _ _ _ _ _ HF), Ht. split; intros (? & ? & E); [injection E as ->|subst]; done.
  - intros Hu. destruct (fo_over _ _ _ _ _ HF _ Hu) as [?|(tk' & g' & Hu' & Hr')]; [left; auto|right].
    destruct (decide (u = t)) as [->|Hne]; [rewrite Ht in Hu'; by injection Hu' as ->|]. rewrite list_lookup_insert_ne by done. by eauto.
Qed.

Lemma queue_short q : NoDup q -> Forall (fun t => t < n)%nat q -> (length q <= n)%nat.
Proof.
  intros Hd Hf. rewrite <- (length_seq n 0). apply NoDup_incl_length; [by apply NoDup_ListNoDup|].
  intros x Hx. apply in_seq. apply list_elem_of_In in Hx. pose proof (proj1 (Forall_forall _ _) Hf x Hx) as Hlt. cbn in Hlt. lia.
Qed.

Lemma ask_write s a t :
  lock_inv s a -> locals s !! t = Some Idle ->
  let tk := next_ticket (shared s) in
  let a' := mkFair (readers a) (writer a) (line a ++ [t]) (late a) in
  exists g, fair_spec a (t, AskWrite) = Some a' /\
    lock_inv (Sys (mkLock (u64 (tk + 1)) (reader_ticket (shared s)) (writer_ticket (shared s)) (cond_writer (shared s)) (rl (shared s)))
      (<[t:=WriteWait tk g]> (locals s))) a'.
Proof.
  intros (W & q & ph & rc & rn & HO & HL & HF) Ht tk a'. destruct s as [bo ls]. cbn [shared locals] in *.
  pose proof (ll_each _ _ _ _ _ _ _ HL _ _ Ht) as Hq. cbn in Hq. exists (cond_writer bo - 1). split.
  { cbn [fair_spec]. rewrite option_guard_True; [done|]. rewrite (fo_line _ _ _ _ _ HF). destruct ph; [done|done|]. intros Hin. apply Hq. destruct q; [done|by right]. }
  exists W, (q ++ [t]), ph, rc, rn. cbn [shared locals].
  assert (match ph with Held => q <> [] | _ => True end) as Hne by (destruct ph; [done|done|by apply (lo_line _ _ _ _ _ _ HO)]).
  split; [|split].
  - destruct HO as [H1 H2 H3 H4 H5 H6 H7 H8 [H9 H10]]. split; cbn; try done.
    + unfold tk. rewrite H2, u64_succ, length_app. f_equal. cbn [length]. lia.
    + intros _ E. by destruct q.
    + split; [apply NoDup_app; split_and!; [done|set_solver|apply NoDup_singleton]|]. apply Forall_app. split; [done|]. constructor; [|done].
      rewrite <- (ll_threads _ _ _ _ _ _ _ HL). by eapply lookup_lt_Some.
  - eapply (locals_insert bo W q ph rc rn); [done|done|rewrite (tally_no_reader ls t Idle) by done; apply HL|rewrite (tally_no_reader ls t Idle) by done; apply HL| |].
    + exists (length q). split_and!; [by rewrite lookup_app_r, Nat.sub_diag by done|apply HO|cbn; lia|]. intros E. split; [|cbn; lia].
      apply length_zero_iff_nil in E. destruct (decide (ph = Free)) as [|Hph]; [done|]. by destruct (lo_line _ _ _ _ _ _ HO Hph).
    + intros u pu Hu _ Hlo. destruct pu as [|tk' g|tk'|tk' g|tk' g|tk']; cbn in Hlo |- *.
      * set_solver.
      * destruct Hlo. split; [set_solver|done].
      * destruct Hlo. split; [set_solver|done].
      * destruct Hlo as (i & Hi & ?). exists i. by rewrite (lookup_app_l_Some _ _ _ _ Hi).
      * destruct Hlo as (Hh & ?). by destruct q.
      * destruct Hlo as (Hh & ?). by destruct q.
  - eapply (fair_no_reader W q ph); [done|done|done|done|done|..].
    + rewrite (fo_writer _ _ _ _ _ HF). destruct ph; [done|done|]. by destruct q.
    + rewrite (fo_line _ _ _ _ _ HF). destruct ph; [done|done|]. by destruct q.
Qed.

(** The writer whose turn it is sends new readers to the next room. *)
Lemma start_drain bo ls a t tk g W q rc rn :
  lock_ok bo W q Free rc rn -> locals_ok bo W q Free rc rn ls -> fair_ok W q Free ls a ->
  ls !! t = Some (WriteWait tk g) -> head q = Some t -> tk = u64 W ->
  lock_inv (Sys (mkLock (next_ticket bo) (u64 (reader_ticket bo + 1)) (writer_ticket bo) (cond_writer bo) (rl bo))
    (<[t:=DrainWait tk (cond_writer bo - 1)]> ls)) a.
Proof.
  intros HO HL HF Ht Hh Htk. exists W, q, Draining, rc, rn. cbn [shared locals]. split; [|split].
  - destruct HO as [H1 H2 H3 H4 H5 H6 H7 H8 H9]. split; cbn; try done; [by rewrite H4, u64_succ|]. intros _ E. by rewrite E in Hh.
  - eapply (locals_insert bo W q Free rc rn); [done|done|rewrite (tally_no_reader ls t (WriteWait tk g)) by done; apply HL
      |rewrite (tally_no_reader ls t (WriteWait tk g)) by done; apply HL| |].
    + cbn. split_and!; try done; intros; lia.
    + intros u pu Hu _ Hlo. destruct pu as [|tk' g'|tk'|tk' g'|tk' g'|tk']; cbn in Hlo |- *; try done.
      * destruct Hlo as (i & Hi & ? & ? & _). exists i. split_and!; [done..|]. intros ->. rewrite head_lookup in Hh. congruence.
      * by destruct Hlo as (_ & _ & ? & _).
      * by destruct Hlo as (_ & _ & ?).
  - destruct a. eapply (fair_no_reader W q Free _ _ _ _ _ _ (mkFair _ _ _ _)); [done|done|done|done|done|apply HF|apply HF].
Qed.

(** Nobody is in an empty room. *)
Lemma room_empty bo W q ph rc rn ls u pu :
  locals_ok bo W q ph rc rn ls -> nr_readers rc = 0 -> ls !! u = Some pu -> in_room (par W) pu = 0.
Proof.
  intros HL H0 Hu. rewrite (ll_rc _ _ _ _ _ _ _ HL) in H0. pose proof (tally_ge _ (in_room_range (par W)) _ _ _ Hu). pose proof (in_room_range (par W) pu). lia.
Qed.

Lemma in_room_no r tk g : in_room r (ReadWait tk g) = 0 \/ in_room r (Reading tk) = 0 -> room tk <> r.
Proof. cbn. intros [H|H] E; rewrite E, Nat.eqb_refl in H; done. Qed.

Lemma wake_drain s a t tk g :
  lock_inv s a -> locals s !! t = Some (DrainWait tk g) ->
  exists bo' p es a', writer_drain (shared s) tk = Done (bo', p, es) /\ spec_run fair_spec a (label t es) = Some a' /\
    lock_inv (Sys bo' (<[t:=p]> (locals s))) a'.
Proof.
  intros (W & q & ph & rc & rn & HO & HL & HF) Ht. destruct s as [bo ls]. cbn [shared locals] in *.
  destruct (ll_each _ _ _ _ _ _ _ HL _ _ Ht) as (Hh & -> & -> & Hg & Hw). destruct (lo_rooms _ _ _ _ _ _ HO) as [Hrc Hrn].
  unfold writer_drain, set_room. rewrite room_u64, (load_Done _ _ _ Hrc). run.
  assert (forall p' r, no_reader p' -> tally (in_room r) (<[t:=p']> ls) = tally (in_room r) ls) as Htl
    by (intros p' r Hp'; by apply (tally_no_reader ls t (DrainWait (u64 W) g))).
  destruct (Z.ltb_spec 0 (nr_readers rc)) as [Hpos|Hz].
  - exists bo, (DrainWait (u64 W) (cond_writer bo)), [], a. split; [done|]. split; [done|]. exists W, q, Draining, rc, rn. cbn [shared locals].
    split; [done|]. split; [|destruct a; eapply (fair_no_reader W q Draining _ _ _ _ _ _ (mkFair _ _ _ _)); [done|done|done|done|done|apply HF|apply HF]].
    eapply (locals_insert bo W q Draining rc rn); [done|done|rewrite Htl by done; apply HL|rewrite Htl by done; apply HL| |done].
    cbn. split_and!; try done; intros; lia.
  - assert (nr_readers rc = 0) as H0 by (rewrite (ll_rc _ _ _ _ _ _ _ HL) in *; pose proof (tally_range _ (in_room_range (par W)) ls); lia).
    set (bo' := mkLock _ _ _ _ _). set (rc' := mkRL _ _ _) in *.
    exists bo', (Writing (u64 W)), [BeginWrite], (mkFair ∅ (Some t) (tail q) ((fun _ => true) <$> late a)). split; [done|].
    assert (readers a = ∅) as Hr0.
    { apply set_eq. intros u. rewrite (fo_readers _ _ _ _ _ HF). split; [|set_solver]. intros [tk Hu].
      destruct (ll_each _ _ _ _ _ _ _ HL _ _ Hu) as [_ Hr]. pose proof (room_empty _ _ _ _ _ _ _ _ _ HL H0 Hu) as Hz'. by destruct (in_room_no _ _ 0 (or_intror Hz') Hr). }
    assert (map_Forall (fun _ b => b = false) (late a)) as Hl0.
    { intros u [] Hu; [|done]. destruct (fo_over _ _ _ _ _ HF _ Hu) as [?|(tk & g' & Hu' & Hr)]; [done|].
      pose proof (room_empty _ _ _ _ _ _ _ _ _ HL H0 Hu') as Hz'. by destruct (in_room_no _ _ g' (or_introl Hz') Hr). }
    split.
    { rewrite spec_run_one. cbn [fair_spec]. rewrite (fo_line _ _ _ _ _ HF). rewrite option_guard_True; [done|].
      split_and!; [done|apply HF|done|done]. }
    exists W, q, Held, rc', rn. cbn [shared locals]. split; [|split].
    + destruct HO as [H1 H2 H3 H4 H5 H6 H7 H8 H9]. split; cbn; try done.
      * split; [apply list_lookup_insert_eq; by eapply lookup_lt_Some|]. rewrite list_lookup_insert_ne; [done|]. intros E. by apply (par_next W).
      * split; [done|apply H5].
      * intros _ E. by rewrite E in Hh.
    + eapply (locals_insert bo W q Draining rc rn); [done|done|rewrite Htl by done; apply HL|rewrite Htl by done; apply HL|done|].
      intros u pu Hu _ Hlo. destruct pu as [|tk' g'|tk'|tk' g'|tk' g'|tk']; cbn in Hlo |- *; try done.
      * destruct Hlo as (i & Hi & ? & ? & _). exists i. split_and!; [done..|]. intros ->. rewrite head_lookup in Hh. congruence.
      * destruct Hlo as (? & _). congruence.
      * by destruct Hlo as (_ & _ & ?).
    + eapply (fair_insert W q Draining); [done|done|..]; cbn [readers late writer line]; [| | |done|done]; intros u.
      * case_decide; [subst; split; [set_solver|intros [? ?]; done]|by rewrite Hr0].
      * rewrite lookup_fmap, fmap_is_Some. case_decide; [subst|done]. rewrite (fo_late _ _ _ _ _ HF), Ht. split; intros (? & ? & ?); done.
      * by left.
Qed.

Lemma wake_write s a t tk g :
  lock_inv s a -> locals s !! t = Some (WriteWait tk g) ->
  exists bo' p es a', writer_wait (shared s) tk = Done (bo', p, es) /\ spec_run fair_spec a (label t es) = Some a' /\
    lock_inv (Sys bo' (<[t:=p]> (locals s))) a'.
Proof using Hn.
  intros (W & q & ph & rc & rn & HO & HL & HF) Ht. destruct s as [bo ls]. cbn [shared locals] in *.
  destruct (ll_each _ _ _ _ _ _ _ HL _ _ Ht) as (i & Hi & -> & Hg & H0). unfold writer_wait. rewrite (lo_writer _ _ _ _ _ _ HO).
  destruct i as [|i].
  - destruct (H0 eq_refl) as [-> _]. rewrite Z.add_0_r in *. rewrite Z.eqb_refl. cbn [negb]. rewrite (lo_reader _ _ _ _ _ _ HO), Z.eqb_refl. cbn [assert]. run.
    pose proof (start_drain bo ls a t (u64 W) g W q rc rn HO HL HF Ht ltac:(by rewrite head_lookup) eq_refl) as HI.
    rewrite (lo_reader _ _ _ _ _ _ HO), (lo_writer _ _ _ _ _ _ HO) in HI. set (bo1 := mkLock _ _ _ _ _) in *.
    destruct (wake_drain _ a t (u64 W) (cond_writer bo - 1) HI) as (bo' & p & es & a' & E & Hs & HI');
      [cbn; rewrite list_lookup_insert_eq; [done|by eapply lookup_lt_Some]|].
    cbn [shared locals] in E, HI'. rewrite list_insert_insert_eq in HI'. by exists bo', p, es, a'.
  - destruct (lo_queue _ _ _ _ _ _ HO) as [Hnd Hlt]. pose proof (queue_short q Hnd Hlt). pose proof (lookup_lt_Some _ _ _ Hi).
    assert (u64 (W + Z.of_nat (S i)) <> u64 W) as Hne.
    { intros E. unfold u64 in E. assert ((W + Z.of_nat (S i) - W) mod 2 ^ 64 = 0) as Hz by (rewrite Zminus_mod, E, Z.sub_diag; done).
      rewrite Z.mod_small in Hz by lia. lia. }
    rewrite (proj2 (Z.eqb_neq _ _)) by done. cbn [negb]. exists bo, (WriteWait (u64 (W + Z.of_nat (S i))) (cond_writer bo)), [], a.
    split; [done|]. split; [done|]. exists W, q, ph, rc, rn. cbn [shared locals]. split; [done|].
    split; [|destruct a; eapply (fair_no_reader W q ph _ _ _ _ _ _ (mkFair _ _ _ _)); [done|done|done|done|done|apply HF|apply HF]].
    eapply (locals_insert bo W q ph rc rn); [done|done|rewrite (tally_no_reader ls t _ _ _ Ht) by done; apply HL
      |rewrite (tally_no_reader ls t _ _ _ Ht) by done; apply HL| |done].
    exists (S i). split_and!; [done|done|lia|done].
Qed.

(** The next room opens and the next number is called. *)
Lemma end_write s a t tk :
  lock_inv s a -> locals s !! t = Some (Writing tk) ->
  exists bo' a', rwlock_writer_unlock (shared s) tk = Done (bo', Idle, [EndWrite]) /\ fair_spec a (t, EndWrite) = Some a' /\
    lock_inv (Sys bo' (<[t:=Idle]> (locals s))) a'.
Proof.
  intros (W & q & ph & rc & rn & HO & HL & HF) Ht. destruct s as [bo ls]. cbn [shared locals] in *.
  destruct (ll_each _ _ _ _ _ _ _ HL _ _ Ht) as (Hh & -> & ->). destruct (lo_rooms _ _ _ _ _ _ HO) as [Hrc Hrn].
  pose proof (lo_held _ _ _ _ _ _ HO eq_refl) as H0. destruct q as [|t' q]; [done|]. cbn in Hh. injection Hh as ->.
  unfold rwlock_writer_unlock, set_room. rewrite u64_succ, !room_u64, (load_Done _ _ _ Hrc). run. rewrite H0. cbn [Z.eqb assert]. run.
  rewrite (load_Done _ _ _ Hrn). run. set (rc' := mkRL _ _ _). set (bo' := broadcast_writer _).
  exists bo', (mkFair (readers a) None (line a) (late a)). split; [done|]. split.
  { cbn [fair_spec]. rewrite option_guard_True; [done|]. by rewrite (fo_writer _ _ _ _ _ HF). }
  assert (forall r, tally (in_room r) (<[t:=Idle]> ls) = tally (in_room r) ls) as Htl by (intros r; by apply (tally_no_reader ls t (Writing (u64 W)))).
  assert (forall u tk, in_room (par W) (Reading tk) = 1 -> ls !! u = Some (Reading tk) -> False) as Hnor.
  { intros u tk E Hu. pose proof (room_empty _ _ _ _ _ _ _ _ _ HL H0 Hu). lia. }
  exists (W + 1), q, Free, rc', rc. cbn [shared locals]. split; [|split].
  - destruct HO as [H1 H2 H3 H4 H5 H6 H7 H8 [H9 H10]]. apply NoDup_cons in H9 as [H9 H9']. inversion_clear H10. split; cbn; try done.
    + rewrite par_turn. split; [apply list_lookup_insert_eq; by eapply lookup_lt_Some|]. by rewrite list_lookup_insert_ne by apply par_next.
    + rewrite H2. f_equal. cbn [length]. lia.
    + by rewrite H3, u64_succ.
    + split; [done|apply H5].
  - eapply (locals_insert bo W (t :: q) Held rc rn); [done|done|rewrite Htl; apply HL|rewrite par_turn, Htl; apply HL| |].
    + cbn. destruct (lo_queue _ _ _ _ _ _ HO) as [Hd _]. by apply NoDup_cons in Hd as [Hd _].
    + intros u pu Hu Hlu Hlo. destruct pu as [|tk' g|tk'|tk' g|tk' g|tk']; cbn in Hlo |- *.
      * set_solver.
      * destruct Hlo as [Hq [[Hr Hg]|[Hr Hg]]].
        { pose proof (room_empty _ _ _ _ _ _ _ _ _ HL H0 Hlu) as Hz. by destruct (in_room_no _ _ g (or_introl Hz)). }
        split; [set_solver|]. left. split; [done|]. pose proof (tally_ge _ (in_room_range (par (W + 1))) _ _ _ Hlu) as Hge.
        rewrite <- (ll_rn _ _ _ _ _ _ _ HL) in Hge. cbn [in_room] in Hge. rewrite Hr, Nat.eqb_refl in Hge.
        rewrite (proj2 (Z.ltb_lt 0 _)) by lia. lia.
      * destruct Hlo as [_ Hr]. pose proof (room_empty _ _ _ _ _ _ _ _ _ HL H0 Hlu) as Hz. by destruct (in_room_no _ _ 0 (or_intror Hz)).
      * destruct Hlo as (i & Hi & -> & Hg & _). destruct i as [|i]; [cbn in Hi; congruence|]. exists i. split_and!; [done|f_equal; lia|lia|]. intros _. split; [done|lia].
      * by destruct Hlo as (_ & _ & ? & _).
      * destruct Hlo as (E & _). congruence.
  - eapply (fair_insert W (t :: q) Held); [done|done|..]; cbn [readers late writer line]; [| | |done|apply HF]; intros u.
    + case_decide; [subst|done]. rewrite (fo_readers _ _ _ _ _ HF), Ht. split; intros [? ?]; done.
    + case_decide; [subst|done]. rewrite (fo_late _ _ _ _ _ HF), Ht. split; intros (? & ? & ?); done.
    + intros Hu. right. destruct (proj1 (fo_late _ _ _ _ _ HF u) ltac:(by eexists)) as (tk & g & Hu'). exists tk, g.
      destruct (ll_each _ _ _ _ _ _ _ HL _ _ Hu') as [_ [[Hr _]|[Hr _]]].
      { pose proof (room_empty _ _ _ _ _ _ _ _ _ HL H0 Hu') as Hz. by destruct (in_room_no _ _ g (or_introl Hz)). }
      split; [|done]. rewrite list_lookup_insert_ne; [done|]. intros ->. by rewrite Ht in Hu'.
Qed.

(** ** Every step *)

Lemma lock_step_ok s a t act p m :
  lock_inv s a -> locals s !! t = Some p -> lock_step act (shared s) p = Some m ->
  exists bo' p' es a', m = Done (bo', p', es) /\ spec_run fair_spec a (label t es) = Some a' /\ lock_inv (Sys bo' (<[t:=p']> (locals s))) a'.
Proof using Hn.
  intros HI Ht Hm. pose proof (lookup_lt_Some _ _ _ Ht) as Hlt.
  destruct act, p as [|tk g|tk|tk g|tk g|tk]; try done; cbn [lock_step] in Hm; apply (inj Some) in Hm as <-.
  - destruct (ask_read s a t HI Ht) as (r & g & El & Es & HI1). unfold rwlock_reader_lock. rewrite El. run.
    destruct (wake_read _ _ t (reader_ticket (shared s)) g HI1) as (p' & es & a' & E & Hs & HI2); [cbn; by rewrite list_lookup_insert_eq|].
    cbn [shared locals] in E, HI2. rewrite E. run. rewrite list_insert_insert_eq in HI2. eexists _, p', (AskRead :: es), a'. split; [done|]. split; [|done].
    change (label t (AskRead :: es)) with ((t, AskRead) :: label t es). cbn [spec_run]. by rewrite Es.
  - destruct (end_read s a t tk HI Ht) as (bo' & a' & -> & Es & HI1). exists bo', Idle, [EndRead], a'. by rewrite spec_run_one.
  - destruct (ask_write s a t HI Ht) as (g & Es & HI1). unfold rwlock_writer_lock.
    destruct (wake_write _ _ t (next_ticket (shared s)) g HI1) as (bo' & p' & es & a' & E & Hs & HI2); [cbn; by rewrite list_lookup_insert_eq|].
    cbn [shared locals] in E, HI2. rewrite E. run. rewrite list_insert_insert_eq in HI2. eexists _, p', (AskWrite :: es), a'. split; [done|]. split; [|done].
    change (label t (AskWrite :: es)) with ((t, AskWrite) :: label t es). cbn [spec_run]. by rewrite Es.
  - destruct (end_write s a t tk HI Ht) as (bo' & a' & -> & Es & HI1). exists bo', Idle, [EndWrite], a'. by rewrite spec_run_one.
  - destruct (wake_read s a t tk g HI Ht) as (p' & es & a' & -> & Hs & HI2). by exists (shared s), p', es, a'.
  - apply (wake_write s a t tk g HI Ht).
  - apply (wake_drain s a t tk g HI Ht).
Qed.

Notation fresh := (Sys rwlock_initial (replicate n Idle)).
Notation nobody := (mkFair ∅ None [] ∅).

Lemma fresh_inv : lock_inv fresh nobody.
Proof.
  assert (forall r, tally (in_room r) (replicate n Idle) = 0) as H0 by (intros r; apply tally_zero; intros x Hx; by apply elem_of_replicate in Hx as [-> _]).
  assert (forall t p, replicate n Idle !! t = Some p -> p = Idle) as Hi by (intros t p Hp; by apply lookup_replicate in Hp as [-> _]).
  exists 0, [], Free, (mkRL 0 true 0), (mkRL 0 false 0). cbn [shared locals]. split; [|split].
  - split; try done. split; constructor.
  - split; [apply length_replicate|by rewrite H0|by rewrite H0|]. intros t p Hp. apply Hi in Hp as ->. apply not_elem_of_nil.
  - split; try done; intros t; cbn [readers late].
    + split; [set_solver|]. intros [tk E]. by apply Hi in E.
    + rewrite lookup_empty. split; [intros [? ?]; done|]. intros (tk & g & E). by apply Hi in E.
Qed.

Lemma lock_inv_step s a es s' :
  lock_inv s a -> step lock_step any_time s es s' -> exists a', spec_run fair_spec a es = Some a' /\ lock_inv s' a'.
Proof using Hn.
  intros HI Hs. destruct Hs as [t act bo ps p bo' p' es Ht _ Hst].
  destruct (lock_step_ok (Sys bo ps) a t act p _ HI Ht Hst) as (bo2 & p2 & es2 & a' & E & Hr & HI'). injection E as <- <- <-. by exists a'.
Qed.

Lemma reachable_inv tr s : steps lock_step any_time fresh tr s -> exists a, spec_run fair_spec nobody tr = Some a /\ lock_inv s a.
Proof using Hn. apply (simulation lock_step any_time fair_spec lock_inv lock_inv_step). apply fresh_inv. Qed.

(** A writer is alone. *)
Definition excluded (ls : list point) : Prop :=
  forall t tk u p, ls !! t = Some (Writing tk) -> ls !! u = Some p -> u <> t -> match p with Reading _ | Writing _ => False | _ => True end.

Lemma inv_excluded s a : lock_inv s a -> excluded (locals s).
Proof.
  intros (W & q & ph & rc & rn & HO & HL & HF) t tk u p Ht Hu Hne. destruct (ll_each _ _ _ _ _ _ _ HL _ _ Ht) as (Hh & _ & ->).
  pose proof (lo_held _ _ _ _ _ _ HO eq_refl) as H0. pose proof (ll_each _ _ _ _ _ _ _ HL _ _ Hu) as Hlo. destruct p; try done; cbn in Hlo.
  - destruct Hlo as [_ Hr]. pose proof (room_empty _ _ _ _ _ _ _ _ _ HL H0 Hu) as Hz. by destruct (in_room_no _ _ 0 (or_intror Hz)).
  - destruct Hlo as (E & _). congruence.
Qed.

(** C13: Under every interleaving of its users the lock behaves as the fair
    read-write lock: readers enter only while nobody writes, a writer enters
    only when nobody reads or writes, writers enter in the order in which they
    asked, and between the request of a reader and its entry at most one
    writer enters; no assertion fails. *)
Theorem rwlock_refines tr s :
  steps lock_step any_time fresh tr s ->
  (exists a, spec_run fair_spec nobody tr = Some a) /\ excluded (locals s) /\ never_aborts lock_step any_time s.
Proof using Hn.
  intros Hs. destruct (reachable_inv tr s Hs) as (a & Ha & HI). split; [by exists a|]. split; [by eapply inv_excluded|].
  intros t act p Ht _ E. destruct (lock_step_ok s a t act p _ HI Ht E) as (? & ? & ? & ? & ? & _). done.
Qed.

(** The thread waits and there was no broadcast since. *)
Definition asleep (bo : RWLock) (p : point) : Prop :=
  match p with
  | ReadWait tk g => exists r, rl bo !! room tk = Some r /\ g = cond_reader r
  | WriteWait _ g | DrainWait _ g => g = cond_writer bo
  | _ => False
  end.

(** C23: No wake-up is lost: whenever threads wait for the lock, one of them has
    been woken or some thread holds it. *)
Theorem rwlock_no_deadlock tr s :
  steps lock_step any_time fresh tr s ->
  Forall (fun p => p = Idle \/ asleep (shared s) p) (locals s) -> Forall (eq Idle) (locals s).
Proof using Hn.
  intros Hs Hall. destruct (reachable_inv tr s Hs) as (a & _ & W & q & ph & rc & rn & HO & HL & HF). destruct (lo_rooms _ _ _ _ _ _ HO) as [Hrc Hrn].
  assert (forall t p, locals s !! t = Some p -> in_room (par W) p = 0) as Hroom.
  { intros t p Ht. pose proof (ll_each _ _ _ _ _ _ _ HL _ _ Ht) as Hlo. pose proof (Forall_lookup_1 _ _ _ _ Hall Ht) as [->|Hz]; [done|].
    destruct p as [|tk g|tk|tk g|tk g|tk]; try done. cbn in Hlo, Hz. destruct Hz as (r & Hr & ->). destruct Hlo as [_ [[E Hg]|[E _]]].
    - rewrite E in Hr. assert (r = rc) by congruence. subst. lia.
    - cbn. rewrite E, (proj2 (Nat.eqb_neq _ _)); [done|]. apply par_next. }
  assert (nr_readers rc = 0) as H0.
  { rewrite (ll_rc _ _ _ _ _ _ _ HL). apply tally_zero. intros p Hp. apply list_elem_of_lookup in Hp as (t & Ht). by eapply Hroom. }
  assert (q = []) as Hq.
  { destruct q as [|t q]; [done|]. destruct (lo_queue _ _ _ _ _ _ HO) as [Hnd Hlt]. inversion_clear Hlt as [|?? Ht _].
    destruct (lookup_lt_is_Some_2 (locals s) t) as [p Hp]; [by rewrite (ll_threads _ _ _ _ _ _ _ HL)|].
    pose proof (ll_each _ _ _ _ _ _ _ HL _ _ Hp) as Hlo. pose proof (Forall_lookup_1 _ _ _ _ Hall Hp) as [->|Hz]; [cbn in Hlo; set_solver|].
    destruct p as [|tk g|tk|tk g|tk g|tk]; try done; cbn in Hlo, Hz; [set_solver| |].
    - destruct Hlo as (i & Hi & _ & _ & Hi0). pose proof (NoDup_lookup _ i 0%nat _ Hnd Hi eq_refl) as ->. destruct (Hi0 eq_refl). lia.
    - destruct Hlo as (_ & _ & _ & _ & Hw). specialize (Hw H0). lia. }
  assert (ph = Free) as Hph by (destruct (decide (ph = Free)) as [|Hph]; [done|]; by destruct (lo_line _ _ _ _ _ _ HO Hph)).
  pose proof (lo_free _ _ _ _ _ _ HO Hph) as H1. rewrite (ll_rn _ _ _ _ _ _ _ HL) in H1.
  apply Forall_lookup_2. intros t p Ht. pose proof (ll_each _ _ _ _ _ _ _ HL _ _ Ht) as Hlo.
  pose proof (Hroom t p Ht) as Hr0. pose proof (tally_ge _ (in_room_range (par (W + 1))) _ _ _ Ht) as Hr1. rewrite H1 in Hr1.
  pose proof (Forall_lookup_1 _ _ _ _ Hall Ht) as [->|Hz]; [done|]. rewrite Hq in Hlo. destruct p as [|tk g|tk|tk g|tk g|tk]; try done; cbn in Hlo.
  - destruct Hlo as [_ [[E _]|[E _]]]; cbn in Hr0, Hr1; rewrite E, Nat.eqb_refl in *; lia.
  - by destruct Hlo as (i & Hi & _).
  - by destruct Hlo as (Hi & _).
Qed.
End threads.

(** ** An instance *)

#[local] Instance any_time_dec : RelDecision any_time := fun _ _ => left I.

(** A writer asks while a thread reads; a reader who comes then enters behind
    the writer. *)
Definition lock_run : list (nat * action) :=
  [(0, CallReaderLock); (1, CallWriterLock); (2, CallReaderLock); (1, Wake); (0, CallReaderUnlock); (1, Wake); (2, Wake); (1, CallWriterUnlock);
   (2, Wake); (2, CallReaderUnlock)]%nat.

Definition lock_trace : list (nat * event) :=
  [(0, AskRead); (0, BeginRead); (1, AskWrite); (2, AskRead); (0, EndRead); (1, BeginWrite); (1, EndWrite); (2, BeginRead); (2, EndRead)]%nat.

Lemma lock_run_steps : exists bo, steps lock_step any_time (Sys rwlock_initial (replicate 3 Idle)) lock_trace (Sys bo [Idle; Idle; Idle]).
Proof. eexists. apply (run_schedule_steps lock_step any_time lock_run). vm_compute. reflexivity. Qed.

Lemma rwlock_refines_witness :
  exists bo, steps lock_step any_time (Sys rwlock_initial (replicate 3 Idle)) lock_trace (Sys bo [Idle; Idle; Idle]) /\
    (exists a, spec_run fair_spec (mkFair ∅ None [] ∅) lock_trace = Some a) /\ excluded [Idle; Idle; Idle] /\
    never_aborts lock_step any_time (Sys bo [Idle; Idle; Idle]).
Proof.
  destruct lock_run_steps as [bo H]. exists bo. split; [exact H|]. exact (rwlock_refines 3 ltac:(lia) lock_trace _ H).
Defined.

Lemma rwlock_no_deadlock_witness :
  exists bo, steps lock_step any_time (Sys rwlock_initial (replicate 3 Idle)) lock_trace (Sys bo [Idle; Idle; Idle]) /\
    Forall (eq Idle) [Idle; Idle; Idle].
Proof.
  destruct lock_run_steps as [bo H]. exists bo. split; [exact H|]. apply (rwlock_no_deadlock 3 ltac:(lia) lock_trace _ H).
  repeat constructor.
Defined.
