(* ===== verification/MpmcQueue.v ===== *)
(** * The lock-free queue of src/demo/queue/mpmc_queue.c

    Items live in one array.  Free items form a stack whose top is the upper
    half of the word [free] (its lower half counts the updates, against reuse
    of an old value); committed items form a second stack whose top is [head].
    A producer pops a free item, fills it and pushes it on the committed stack;
    a consumer takes the whole committed stack at once, reverses it, walks it,
    and pushes all of it back on the free stack.

    Each function is a machine whose steps are its single accesses to the
    shared words: the atomic loads and compare-and-swaps, and the plain reads
    and writes of [next].  The steps of the threads are interleaved in any
    order (file Interleave), as in a sequentially consistent memory.  A
    failing QUEUE_ASSERT and an access outside the items are [Fault]. *)

From S2P Require Import Prelude Interleave.

Module Mpmc.

Definition TAIL_IDX : Z := 0xFFFFFFFF.
Definition UNUSED_FLAG : Z := 0xFFFFFFFE.

(** ** The object *)

Record item := Item { i_next : Z; i_content : list Z }.

Record mpmc_queue := Queue {
  q_nmemb : Z;
  q_size : Z;
  q_item_size : Z;
  q_head : Z;
  q_free : Z;
  q_items : list item;
}.

Definition set_head (q : mpmc_queue) (h : Z) : mpmc_queue :=
  Queue (q_nmemb q) (q_size q) (q_item_size q) h (q_free q) (q_items q).
Definition set_free (q : mpmc_queue) (f : Z) : mpmc_queue :=
  Queue (q_nmemb q) (q_size q) (q_item_size q) (q_head q) f (q_items q).
Definition set_items (q : mpmc_queue) (l : list item) : mpmc_queue :=
  Queue (q_nmemb q) (q_size q) (q_item_size q) (q_head q) (q_free q) l.

(** A [struct item *] is its distance in bytes from [q->items]; [next] takes
    the first four bytes of an item. *)
Definition sizeof_item : Z := 4.
Definition ITEM (q : mpmc_queue) (i : Z) : Z := i * q_size q.
Definition ITEM_IDX (q : mpmc_queue) (ptr : Z) : Z := ptr / q_size q.
Definition CONTENT_PTR (item : Z) : Z := item + sizeof_item.
Definition ITEM_FROM_CONTENT (ptr : Z) : Z := ptr - sizeof_item.

(** The item a pointer designates; only pointers to the start of an item of
    the array may be followed. *)
Definition slot (q : mpmc_queue) (ptr : Z) : exec nat :=
  if decide (0 <= ptr /\ ptr mod q_size q = 0)
  then Done (Z.to_nat (ITEM_IDX q ptr)) else Fault.

Definition load_next (q : mpmc_queue) (ptr : Z) : exec Z :=
  i ← slot q ptr; it ← load (q_items q) i; Done (i_next it).

Definition store_next (q : mpmc_queue) (ptr v : Z) : exec mpmc_queue :=
  i ← slot q ptr; it ← load (q_items q) i;
  l ← store (q_items q) i (Item v (i_content it)); Done (set_items q l).

(** What a client does with the pointer it was given: [memcpy] of a whole
    element in or out. *)
Definition read_content (q : mpmc_queue) (ptr : Z) : exec (list Z) :=
  i ← slot q (ITEM_FROM_CONTENT ptr); it ← load (q_items q) i; Done (i_content it).

Definition write_content (q : mpmc_queue) (ptr : Z) (bs : list Z) : exec mpmc_queue :=
  if decide (Z.of_nat (length bs) = q_item_size q) then
    i ← slot q (ITEM_FROM_CONTENT ptr); it ← load (q_items q) i;
    l ← store (q_items q) i (Item (i_next it) bs); Done (set_items q l)
  else Fault.

(** ** Creation *)

Inductive errno := EINVAL | EOVERFLOW | ENOMEM.

(** The layout of [struct mpmc_queue] on a 64-bit machine with 64-byte cache
    lines: [head] at 64, [free] at 128, [items] at 136, padded to 192. *)
Definition sizeof_queue : Z := 192.
Definition offsetof_items : Z := 136.

(** The loop that links the free items, [i] a 32-bit counter. *)
Definition link_free (q : mpmc_queue) (n : nat) : exec mpmc_queue :=
  for_range 0 n (fun i q => store_next q (ITEM q (Z.of_nat i)) (Z.of_nat i + 1)) q.

(** [calloc_ok] says whether calloc finds the memory.  The loop counter is a
    [uint32_t]: from 2^32+1 items on it never reaches [nmemb - 1]. *)
Definition mpmc_queue_create (calloc_ok : bool) (nmemb size : Z) : exec (mpmc_queue + errno) :=
  if (nmemb =? 0) || (size =? 0) then Done (inr EINVAL) else
  let item_size := u64 (u64 (size + sizeof_item + 7) / 8 * 8) in
  let total_size := u64 (sizeof_queue + u64 (item_size * nmemb)) in
  if total_size <? sizeof_queue then Done (inr EOVERFLOW) else
  if negb calloc_ok then Done (inr ENOMEM) else
  let room := Z.to_nat ((total_size - offsetof_items) / item_size) in
  let zero := Item 0 (replicate (Z.to_nat size) 0) in
  let q := Queue nmemb item_size size TAIL_IDX 0 (replicate room zero) in
  if 2 ^ 32 <? nmemb then NoFuel else
  q ← link_free q (Z.to_nat (nmemb - 1));
  q ← store_next q (ITEM q (nmemb - 1)) TAIL_IDX;
  let initial_free := Z.lor (Z.shiftl 0 32) 1 in
  Done (inl (set_free q initial_free)).

(** ** The functions as machines *)

(** The two halves of [free]. *)
Definition free_index (f : Z) : Z := u32 (Z.shiftr f 32).
Definition free_seq (f : Z) : Z := u32 (Z.land f 0xFFFFFFFF).
Definition pack (index seq : Z) : Z := Z.lor (Z.shiftl index 32) seq.

(** mpmc_queue_writer_prepare *)
Inductive wp_pc :=
  | WP_load
  | WP_next (oldf : Z)
  | WP_cas (oldf newf : Z)
  | WP_mark (ret : Z).

Definition writer_prepare_step (q : mpmc_queue) (p : wp_pc)
    : exec (mpmc_queue * outcome wp_pc (option Z)) :=
  match p with
  | WP_load =>
      let oldf := q_free q in
      let freen := free_index oldf in
      if freen =? TAIL_IDX then Done (q, Return None) else
      if q_nmemb q <=? freen then Done (q, Return None) else
      Done (q, Continue (WP_next oldf))
  | WP_next oldf =>
      n ← load_next q (ITEM q (free_index oldf));
      Done (q, Continue (WP_cas oldf (pack n (u32 (free_seq oldf + 1)))))
  | WP_cas oldf newf =>
      if q_free q =? oldf
      then Done (set_free q newf, Continue (WP_mark (ITEM q (free_index oldf))))
      else Done (q, Continue WP_load)
  | WP_mark ret =>
      q' ← store_next q ret UNUSED_FLAG;
      Done (q', Return (Some (CONTENT_PTR ret)))
  end.

(** mpmc_queue_writer_commit *)
Inductive wc_pc :=
  | WC_check (ptr : Z)
  | WC_load (item idx : Z)
  | WC_link (item idx expected_head : Z)
  | WC_cas (item idx expected_head : Z).

Definition writer_commit_step (q : mpmc_queue) (p : wc_pc)
    : exec (mpmc_queue * outcome wc_pc unit) :=
  match p with
  | WC_check ptr =>
      let item := ITEM_FROM_CONTENT ptr in
      let idx := u32 (ITEM_IDX q item) in
      assert (idx <? q_nmemb q);;
      n ← load_next q item;
      assert (n =? UNUSED_FLAG);;
      Done (q, Continue (WC_load item idx))
  | WC_load item idx => Done (q, Continue (WC_link item idx (q_head q)))
  | WC_link item idx expected_head =>
      q' ← store_next q item expected_head;
      Done (q', Continue (WC_cas item idx expected_head))
  | WC_cas item idx expected_head =>
      if q_head q =? expected_head then Done (set_head q idx, Return tt)
      else Done (q, Continue (WC_load item idx))
  end.

Record reader_result := Result {
  r_header : Z;
  r_tail : Z;
  r_curr : option Z;
  r_nmemb : Z;
}.

(** mpmc_queue_reader_prepare: the locals of the reversal. *)
Record walk := Walk { w_tail : Z; w_item : Z; w_head : Z; w_prev : Z; w_n : Z }.

Inductive rp_pc :=
  | RP_load
  | RP_cas (head : Z)
  | RP_test (w : walk)
  | RP_next (w : walk)
  | RP_store (w : walk) (next : Z)
  | RP_last (w : walk).

Definition reader_prepare_step (q : mpmc_queue) (p : rp_pc)
    : exec (mpmc_queue * outcome rp_pc (option reader_result)) :=
  match p with
  | RP_load =>
      if q_head q =? TAIL_IDX then Done (q, Return None)
      else Done (q, Continue (RP_cas (q_head q)))
  | RP_cas head =>
      if q_head q =? head then
        assert (head <? q_nmemb q);;
        Done (set_head q TAIL_IDX,
              Continue (RP_test (Walk (ITEM q head) (ITEM q head) head TAIL_IDX 1)))
      else Done (q, Continue RP_load)
  | RP_test w =>
      n ← load_next q (w_item w);
      Done (q, Continue (if n =? TAIL_IDX then RP_last w else RP_next w))
  | RP_next w =>
      next ← load_next q (w_item w);
      assert (next <? q_nmemb q);;
      Done (q, Continue (RP_store w next))
  | RP_store w next =>
      q' ← store_next q (w_item w) (w_prev w);
      Done (q', Continue (RP_test
        (Walk (w_tail w) (ITEM q next) next (w_head w) (u64 (w_n w + 1)))))
  | RP_last w =>
      q' ← store_next q (w_item w) (w_prev w);
      Done (q', Return (Some (Result (w_item w) (w_tail w) None (w_n w))))
  end.

(** mpmc_queue_reader_next: it reads [curr->next] up to three times. *)
Inductive rn_pc := RN_start | RN_check | RN_move.

Definition set_curr (res : reader_result) (c : Z) : reader_result :=
  Result (r_header res) (r_tail res) (Some c) (r_nmemb res).

Definition reader_next_step (q : mpmc_queue) (res : reader_result) (p : rn_pc)
    : exec (outcome rn_pc (reader_result * option Z)) :=
  match r_curr res with
  | None =>
      Done (Return (set_curr res (r_header res), Some (CONTENT_PTR (r_header res))))
  | Some curr =>
      n ← load_next q curr;
      match p with
      | RN_start =>
          if n =? TAIL_IDX then
            assert (curr =? r_tail res);; Done (Return (res, None))
          else Done (Continue RN_check)
      | RN_check => assert (n <? q_nmemb q);; Done (Continue RN_move)
      | RN_move =>
          Done (Return (set_curr res (ITEM q n), Some (CONTENT_PTR (ITEM q n))))
      end
  end.

(** mpmc_queue_reader_commit *)
Inductive rc_pc :=
  | RC_check
  | RC_load (idx : Z)
  | RC_link (idx oldf : Z)
  | RC_cas (idx oldf newf : Z).

Definition reader_commit_step (q : mpmc_queue) (res : reader_result) (p : rc_pc)
    : exec (mpmc_queue * outcome rc_pc unit) :=
  match p with
  | RC_check =>
      let idx := u32 (ITEM_IDX q (r_header res)) in
      assert (idx <? q_nmemb q);;
      Done (q, Continue (RC_load idx))
  | RC_load idx => Done (q, Continue (RC_link idx (q_free q)))
  | RC_link idx oldf =>
      q' ← store_next q (r_tail res) (free_index oldf);
      Done (q', Continue (RC_cas idx oldf (pack idx (u32 (free_seq oldf + 1)))))
  | RC_cas idx oldf newf =>
      if q_free q =? oldf then Done (set_free q newf, Return tt)
      else Done (q, Continue (RC_load idx))
  end.

(** ** The queries; [None] is the null pointer *)

Definition mpmc_queue_empty (queue : option mpmc_queue) : bool :=
  match queue with None => true | Some q => q_head q =? TAIL_IDX end.
Definition mpmc_queue_full (queue : option mpmc_queue) : bool :=
  match queue with None => true | Some q => free_index (q_free q) =? TAIL_IDX end.
Definition mpmc_queue_capacity (queue : option mpmc_queue) : Z :=
  match queue with None => 0 | Some q => q_nmemb q end.

(** The walk of mpmc_queue_available: at most [nmemb] items. *)
Fixpoint count_used (q : mpmc_queue) (fuel : nat) (current : Z) : exec Z :=
  match fuel with
  | O => Done 0
  | S fuel' =>
      if current =? TAIL_IDX then Done 0 else
      next ← load_next q (ITEM q current);
      n ← count_used q fuel' next; Done (n + 1)
  end.

Definition mpmc_queue_available (queue : option mpmc_queue) : exec Z :=
  match queue with
  | None => Done 0
  | Some q =>
      if q_head q =? TAIL_IDX then Done (q_nmemb q) else
      used ← count_used q (Z.to_nat (q_nmemb q)) (q_head q);
      Done (u64 (q_nmemb q - used))
  end.

(** ** A thread that uses the queue *)

(** Between calls a client is idle, holds an element to fill, or holds a
    batch to read ([seen] is the pointer the last reader_next returned). *)
Inductive pc :=
  | Idle
  | Preparing (p : wp_pc)
  | Writing (ptr : Z)
  | Committing (ptr : Z) (p : wc_pc)
  | Fetching (p : rp_pc)
  | Reading (res : reader_result) (seen : option Z)
  | Advancing (res : reader_result) (p : rn_pc)
  | Releasing (res : reader_result) (p : rc_pc).

Inductive action :=
  | Run
  | CallWriterPrepare
  | Fill (bs : list Z)
  | CallWriterCommit
  | CallReaderPrepare
  | CallReaderNext
  | Look
  | CallReaderCommit.

(** What an observer sees: the linearization points of the operations and the
    values the clients read. *)
Inductive event :=
  | Reserved
  | NoRoom
  | Enqueued (v : list Z)
  | Empty
  | Took
  | Fetched (n : Z)
  | Moved
  | AtEnd
  | Saw (v : list Z)
  | Released.

Definition reply (q : mpmc_queue) (p : pc) (es : list event)
    : option (exec (mpmc_queue * pc * list event)) := Some (Done (q, p, es)).

(** One step of a function in progress. *)
Definition run_step (q : mpmc_queue) (l : pc) : option (exec (mpmc_queue * pc * list event)) :=
  match l with
  | Preparing p => Some (
      r ← writer_prepare_step q p; let '(q', o) := r in
      match o with
      | Continue (WP_mark ret) => Done (q', Preparing (WP_mark ret), [Reserved])
      | Continue p' => Done (q', Preparing p', [])
      | Return None => Done (q', Idle, [NoRoom])
      | Return (Some ptr) => Done (q', Writing ptr, [])
      end)
  | Committing ptr p => Some (
      r ← writer_commit_step q p; let '(q', o) := r in
      match o with
      | Continue p' => Done (q', Committing ptr p', [])
      | Return _ => v ← read_content q' ptr; Done (q', Idle, [Enqueued v])
      end)
  | Fetching p => Some (
      r ← reader_prepare_step q p; let '(q', o) := r in
      match o with
      | Continue p' => Done (q', Fetching p',
          match p, p' with RP_cas _, RP_test _ => [Took] | _, _ => [] end)
      | Return None => Done (q', Idle, [Empty])
      | Return (Some res) => Done (q', Reading res None, [Fetched (r_nmemb res)])
      end)
  | Advancing res p => Some (
      o ← reader_next_step q res p;
      match o with
      | Continue p' => Done (q, Advancing res p', [])
      | Return (res', Some ptr) => Done (q, Reading res' (Some ptr), [Moved])
      | Return (res', None) => Done (q, Reading res' None, [AtEnd])
      end)
  | Releasing res p => Some (
      r ← reader_commit_step q res p; let '(q', o) := r in
      match o with
      | Continue p' => Done (q', Releasing res p', [])
      | Return _ => Done (q', Idle, [Released])
      end)
  | Idle | Writing _ | Reading _ _ => None
  end.

Definition client_step (a : action) (q : mpmc_queue) (l : pc)
    : option (exec (mpmc_queue * pc * list event)) :=
  match a, l with
  | Run, _ => run_step q l
  | CallWriterPrepare, Idle => reply q (Preparing WP_load) []
  | Fill bs, Writing ptr =>
      if decide (Z.of_nat (length bs) = q_item_size q)
      then Some (q' ← write_content q ptr bs; Done (q', Writing ptr, [])) else None
  | CallWriterCommit, Writing ptr => reply q (Committing ptr (WC_check ptr)) []
  | CallReaderPrepare, Idle => reply q (Fetching RP_load) []
  | CallReaderNext, Reading res _ => reply q (Advancing res RN_start) []
  | Look, Reading res (Some ptr) =>
      Some (v ← read_content q ptr; Done (q, Reading res (Some ptr), [Saw v]))
  | CallReaderCommit, Reading res _ => reply q (Releasing res RC_check) []
  | _, _ => None
  end.

(** ** The history of [free]

    Two auxiliary counters, which no step of the code reads: how often [free]
    has been updated, and for each thread that count when it last read [free]
    in writer_prepare.  The word carries only the count modulo 2^32, so a
    thread that is stopped between its read and its compare-and-swap while
    2^32 updates happen may be fooled; [admissible] excludes just that. *)

Record shared := Shared { s_queue : mpmc_queue; s_updates : Z }.
Record thread := Thread { t_pc : pc; t_stamp : Z }.

Definition thread_step (a : action) (s : shared) (th : thread)
    : option (exec (shared * thread * list event)) :=
  m ← client_step a (s_queue s) (t_pc th);
  Some (r ← m; let '(q', p', es) := r in
    Done (Shared q' (if q_free q' =? q_free (s_queue s) then s_updates s else s_updates s + 1),
          Thread p' (match t_pc th with Preparing WP_load => s_updates s | _ => t_stamp th end),
          es)).

Definition admissible (s : shared) (th : thread) : Prop :=
  match t_pc th with
  | Preparing (WP_next _ | WP_cas _ _) => s_updates s - t_stamp th < 2 ^ 32
  | _ => True
  end.

#[export] Instance admissible_dec : RelDecision admissible.
Proof.
  intros s th. unfold admissible. destruct (t_pc th) as [|[]| | | | | |]; apply _.
Defined.

(** The system: a fresh queue and [k] idle threads. *)
Definition start (q : mpmc_queue) (k : nat) : sys shared thread :=
  Sys (Shared q 0) (replicate k (Thread Idle 0)).

(** ** The specification

    A bounded queue of elements: a thread reserves a slot before it enqueues,
    and a consumer takes everything that is in the queue, in order, and holds
    those slots until it releases them. *)

Inductive role := Free | Reserving | Holding (vs : list (list Z)) (k : nat).

Record bqueue := Bqueue { b_pending : list (list Z); b_roles : list role }.

Definition weight (r : role) : nat :=
  match r with Free => 0 | Reserving => 1 | Holding vs _ => length vs end%nat.

Definition used (b : bqueue) : nat :=
  (length (b_pending b) + sum_list (weight <$> b_roles b))%nat.

Definition set_role (b : bqueue) (t : nat) (r : role) : bqueue :=
  Bqueue (b_pending b) (<[t := r]> (b_roles b)).

Definition bqueue_step (nmemb : Z) (b : bqueue) (te : nat * event) : option bqueue :=
  let '(t, e) := te in
  r ← b_roles b !! t;
  match e, r with
  | Reserved, Free => guard (Z.of_nat (used b) < nmemb);; Some (set_role b t Reserving)
  | NoRoom, Free => guard (Z.of_nat (used b) = nmemb);; Some b
  | Enqueued v, Reserving =>
      Some (Bqueue (b_pending b ++ [v]) (<[t := Free]> (b_roles b)))
  | Empty, Free => guard (b_pending b = []);; Some b
  | Took, Free =>
      guard (b_pending b <> []);;
      Some (Bqueue [] (<[t := Holding (b_pending b) 0]> (b_roles b)))
  | Fetched n, Holding vs k => guard (n = Z.of_nat (length vs));; Some b
  | Moved, Holding vs k =>
      guard (k < length vs)%nat;; Some (set_role b t (Holding vs (S k)))
  | AtEnd, Holding vs k => guard (k = length vs);; Some b
  | Saw v, Holding vs (S k) => guard (vs !! k = Some v);; Some b
  | Released, Holding vs k => Some (set_role b t Free)
  | _, _ => None
  end.

End Mpmc.
