(* ===== verification/MpmcProof.v ===== *)
(** * Correctness of the lock-free queue

    The invariant of the items of mpmc_queue.c under every interleaving: each
    item is on the free stack, on the committed stack, or owned by one thread;
    a thread writes only items it owns.  From it follow that the queue refines
    a bounded queue with batch consumers, that no assertion fails, and that a
    thread left to run alone finishes its call. *)

From S2P Require Import Prelude Interleave MpmcQueue.
Import Mpmc.

(** ** Lists *)

Lemma insert_as_alter {A} (f : A -> A) (l : list A) i x :
  l !! i = Some x -> <[i := f x]> l = alter f i l.
Proof.
  intros Hx. apply list_eq. intros j. destruct (decide (i = j)) as [<-|].
  - rewrite list_lookup_insert_eq, list_lookup_alter_eq, Hx; [done|]. by eapply lookup_lt_Some.
  - by rewrite list_lookup_insert_ne, list_lookup_alter_ne.
Qed.

Lemma join_insert {A} (ls : list (list A)) t o o' :
  ls !! t = Some o -> mjoin (<[t := o']> ls) ≡ₚ o' ++ mjoin (<[t := []]> ls).
Proof.
  revert t. induction ls as [|x ls IH]; intros [|t] Ht; simplify_eq/=; [done|].
  rewrite (IH t Ht). by rewrite !app_assoc, (Permutation_app_comm x).
Qed.

Lemma join_lookup {A} (ls : list (list A)) t o :
  ls !! t = Some o -> mjoin ls ≡ₚ o ++ mjoin (<[t := []]> ls).
Proof. intros Ht. rewrite <- (join_insert ls t o o Ht). by rewrite list_insert_id. Qed.

Lemma join_disjoint {A} (ls : list (list A)) t u o o' x :
  NoDup (mjoin ls) -> ls !! t = Some o -> ls !! u = Some o' -> t <> u -> x ∈ o -> x ∉ o'.
Proof.
  intros Hnd Ht Hu Htu Hx Hx'. rewrite (join_lookup _ _ _ Ht) in Hnd.
  apply NoDup_app in Hnd as (_ & Hdis & _). apply (Hdis x Hx).
  apply list_elem_of_join. exists o'. split; [done|].
  apply (list_elem_of_lookup_2 _ u). by rewrite list_lookup_insert_ne.
Qed.

(** ** Accesses to the items *)

Definition next_of (q : mpmc_queue) (i : nat) : option Z := i_next <$> q_items q !! i.
Definition content_of (q : mpmc_queue) (i : nat) : list Z :=
  default [] (i_content <$> q_items q !! i).

Definition upd_next (q : mpmc_queue) (i : nat) (v : Z) : mpmc_queue :=
  set_items q (alter (fun it => Item v (i_content it)) i (q_items q)).
Definition upd_content (q : mpmc_queue) (i : nat) (bs : list Z) : mpmc_queue :=
  set_items q (alter (fun it => Item (i_next it) bs) i (q_items q)).

(** A pointer to item [i]. *)
Definition item_ptr (q : mpmc_queue) (i : nat) : Z := ITEM q (Z.of_nat i).

(** The part of the object no step changes. *)
Record geometry (n : nat) (q : mpmc_queue) : Prop := {
  geo_nmemb : q_nmemb q = Z.of_nat n;
  geo_bound : Z.of_nat n < 2 ^ 32;
  geo_size : 0 < q_size q;
  geo_items : (n <= length (q_items q))%nat;
}.

Section access.
Context {n : nat} {q : mpmc_queue} (G : geometry n q).

Lemma ITEM_IDX_ptr i : ITEM_IDX q (item_ptr q i) = Z.of_nat i.
Proof using G. unfold ITEM_IDX, item_ptr, ITEM. apply Z.div_mul. destruct G. lia. Qed.

Lemma slot_ptr i : slot q (item_ptr q i) = Done i.
Proof using G.
  unfold slot. rewrite ITEM_IDX_ptr, Nat2Z.id. rewrite decide_True; [done|].
  destruct G. unfold item_ptr, ITEM. rewrite Z.mod_mul by lia. lia.
Qed.

Lemma item_at i : (i < n)%nat -> exists it, q_items q !! i = Some it.
Proof using G. intros Hi. apply lookup_lt_is_Some. destruct G. lia. Qed.

Lemma load_next_ptr i v : next_of q i = Some v -> load_next q (item_ptr q i) = Done v.
Proof using G.
  unfold next_of, load_next. intros H. rewrite slot_ptr. run. unfold load.
  destruct (q_items q !! i); simplify_option_eq. done.
Qed.

Lemma read_content_ptr i :
  (i < n)%nat -> read_content q (CONTENT_PTR (item_ptr q i)) = Done (content_of q i).
Proof using G.
  intros Hi. destruct (item_at i Hi) as [it Hit]. unfold read_content, content_of.
  replace (ITEM_FROM_CONTENT _) with (item_ptr q i) by (unfold ITEM_FROM_CONTENT, CONTENT_PTR; lia).
  rewrite slot_ptr. run. rewrite (load_Done _ _ _ Hit), Hit. done.
Qed.

Lemma write_content_ptr i bs :
  (i < n)%nat -> Z.of_nat (length bs) = q_item_size q ->
  write_content q (CONTENT_PTR (item_ptr q i)) bs = Done (upd_content q i bs).
Proof using G.
  intros Hi Hbs. destruct (item_at i Hi) as [it Hit]. unfold write_content, upd_content.
  rewrite decide_True by done.
  replace (ITEM_FROM_CONTENT _) with (item_ptr q i) by (unfold ITEM_FROM_CONTENT, CONTENT_PTR; lia).
  rewrite slot_ptr. run. rewrite (load_Done _ _ _ Hit). run.
  rewrite store_lt by by eapply lookup_lt_Some. run. unfold set_items. do 2 f_equal.
  by rewrite (insert_as_alter (fun it => Item (i_next it) bs) _ _ it).
Qed.

Lemma u32_ITEM_IDX i : (i < n)%nat -> u32 (ITEM_IDX q (item_ptr q i)) = Z.of_nat i.
Proof using G.
  intros Hi. rewrite ITEM_IDX_ptr. apply Z.mod_small. pose proof (geo_bound _ _ G). lia.
Qed.

Lemma store_next_ptr i v : (i < n)%nat -> store_next q (item_ptr q i) v = Done (upd_next q i v).
Proof using G.
  intros Hi. destruct (item_at i Hi) as [it Hit]. unfold store_next, upd_next.
  rewrite slot_ptr. run. rewrite (load_Done _ _ _ Hit). run.
  rewrite store_lt by by eapply lookup_lt_Some. run. unfold set_items. do 2 f_equal.
  by rewrite (insert_as_alter (fun it => Item v (i_content it)) _ _ it).
Qed.
End access.

(** What an update of one item leaves alone. *)
Lemma next_upd q i v j :
  next_of (upd_next q i v) j = if decide (i = j) then const v <$> next_of q j else next_of q j.
Proof.
  unfold next_of, upd_next, set_items. cbn [q_items]. case_decide as Hij.
  - subst. rewrite list_lookup_alter_eq. by destruct (q_items q !! j).
  - by rewrite list_lookup_alter_ne.
Qed.

Lemma content_upd q i v j : content_of (upd_next q i v) j = content_of q j.
Proof.
  unfold content_of, upd_next, set_items. cbn [q_items].
  rewrite list_lookup_alter. case_decide; [subst|done]. by destruct (q_items q !! j).
Qed.

(** ** Linked lists of items *)

Fixpoint linked (q : mpmc_queue) (first : Z) (l : list nat) (stop : Z) : Prop :=
  match l with
  | [] => first = stop
  | i :: l' => first = Z.of_nat i /\ exists v, next_of q i = Some v /\ linked q v l' stop
  end.

(** The two objects have the same items at [l]. *)
Definition agree (l : list nat) (q q' : mpmc_queue) : Prop :=
  q_size q' = q_size q /\ forall i, i ∈ l -> q_items q' !! i = q_items q !! i.

Lemma agree_next l q q' i : agree l q q' -> i ∈ l -> next_of q' i = next_of q i.
Proof. intros [_ H] Hi. unfold next_of. by rewrite H. Qed.

Lemma agree_contents l q q' : agree l q q' -> content_of q' <$> l = content_of q <$> l.
Proof.
  intros [_ H]. apply list_fmap_ext. intros k i Hk. unfold content_of.
  rewrite H; [done|]. by apply list_elem_of_lookup_2 in Hk.
Qed.

Lemma agree_ptr l q q' i : agree l q q' -> item_ptr q' i = item_ptr q i.
Proof. intros [H _]. unfold item_ptr, ITEM. by rewrite H. Qed.

Lemma agree_sub l l' q q' : l' ⊆ l -> agree l q q' -> agree l' q q'.
Proof. intros Hs [H1 H2]. split; auto. Qed.

Lemma linked_frame q q' l : agree l q q' -> forall first stop,
  linked q first l stop -> linked q' first l stop.
Proof.
  intros Ha. induction l as [|i l IH]; intros first stop; simpl; [done|].
  intros [-> (v & Hv & Hl)]. split; [done|]. exists v.
  rewrite (agree_next _ _ _ i Ha) by set_solver. split; [done|].
  apply IH; [|done]. eapply agree_sub; [|done]. set_solver.
Qed.

Lemma linked_items q q' first l stop :
  q_items q' = q_items q -> linked q first l stop -> linked q' first l stop.
Proof.
  intros E. revert first. induction l as [|i l IH]; intros first; simpl; [done|].
  intros [-> (v & Hv & Hl)]. split; [done|]. exists v. split; [|auto].
  unfold next_of. by rewrite E.
Qed.

(** Changing the link of the last item redirects the list. *)
Lemma linked_redirect q first l z stop v :
  NoDup (l ++ [z]) -> linked q first (l ++ [z]) stop ->
  linked (upd_next q z v) first (l ++ [z]) v.
Proof.
  revert first. induction l as [|i l IH]; intros first Hnd; simpl.
  - intros [-> (w & Hw & _)]. split; [done|]. exists v.
    by rewrite next_upd, decide_True, Hw.
  - intros [-> (w & Hw & Hl)]. split; [done|]. exists w.
    rewrite next_upd, decide_False; [split; [done|]|].
    + apply IH; [|done]. simpl in Hnd. by apply NoDup_cons in Hnd as [_ ?].
    + intros ->. simpl in Hnd. apply NoDup_cons in Hnd as [Hz _]. set_solver.
Qed.

Lemma linked_app q first l1 l2 stop :
  linked q first (l1 ++ l2) stop <->
  exists mid, linked q first l1 mid /\ linked q mid l2 stop.
Proof.
  revert first. induction l1 as [|i l1 IH]; intros first; simpl.
  - split; [eauto|]. by intros (? & -> & ?).
  - split.
    + intros [-> (v & Hv & Hl)]. apply IH in Hl as (mid & ? & ?). eauto 10.
    + intros (mid & [-> (v & Hv & ?)] & ?). split; [done|]. exists v. split; [done|].
      apply IH. eauto.
Qed.

Lemma linked_nth q l : forall first k i stop,
  linked q first l stop -> l !! k = Some i ->
  exists v, next_of q i = Some v /\ linked q v (drop (S k) l) stop.
Proof.
  induction l as [|j l IH]; intros first [|k] i stop; simpl; try done.
  - intros [_ (v & Hv & Hl)] [= ->]. exists v. by rewrite drop_0.
  - intros [_ (v & Hv & Hl)] Hk. by eapply IH.
Qed.

Lemma linked_first q first l :
  linked q first l TAIL_IDX -> Forall (fun i => Z.of_nat i < TAIL_IDX) l ->
  0 <= first < 2 ^ 32 /\ (first = TAIL_IDX <-> l = []).
Proof.
  unfold TAIL_IDX. destruct l as [|i l]; simpl; [intros -> _; split; [lia|done]|].
  intros [-> _]. inversion 1; subst. split; [lia|]. split; [lia|done].
Qed.

(** ** The two halves of [free] *)

Lemma pack_halves i w :
  0 <= i < 2 ^ 32 -> 0 <= w < 2 ^ 32 ->
  free_index (pack i w) = i /\ free_seq (pack i w) = w.
Proof.
  intros Hi Hw. unfold free_index, free_seq, pack. rewrite lor_shiftl_add by lia. split.
  - rewrite Z.shiftr_div_pow2, Z.div_add_l, (Z.div_small w) by lia.
    unfold u32. rewrite Z.add_0_r. by apply Z.mod_small.
  - change 0xFFFFFFFF with (Z.ones 32). rewrite Z.land_ones by lia.
    unfold u32. rewrite Z.mod_mod by lia. rewrite Z.add_comm, Z.mod_add by lia.
    by apply Z.mod_small.
Qed.

(** ** What a thread owns and knows *)

(** A producer owns one item. *)
Definition owns_one (o : list nat) (r : role) (i : nat) : Prop := o = [i] /\ r = Reserving.

(** A consumer reversing the list it took: [rest] is still to be reversed,
    [fin] is done, and [o] is the batch in the order of its elements. *)
Definition walking (q : mpmc_queue) (o : list nat) (r : role) (w : walk)
    (fin : list nat) (x : nat) (rest : list nat) : Prop :=
  o = reverse (x :: rest) ++ fin /\ r = Holding (content_of q <$> o) 0 /\
  w_item w = item_ptr q x /\ w_head w = Z.of_nat x /\
  linked q (Z.of_nat x) (x :: rest) TAIL_IDX /\ linked q (w_prev w) fin TAIL_IDX /\
  (exists z, last o = Some z /\ w_tail w = item_ptr q z) /\
  w_n w = Z.of_nat (S (length fin)).

(** A consumer that has a batch and has moved [k] times. *)
Definition batch (q : mpmc_queue) (o : list nat) (r : role) (res : reader_result) (k : nat)
    (stop : Z) : Prop :=
  r = Holding (content_of q <$> o) k /\ (k <= length o)%nat /\
  (exists h, head o = Some h /\ r_header res = item_ptr q h /\ linked q (Z.of_nat h) o stop) /\
  (exists z, last o = Some z /\ r_tail res = item_ptr q z) /\
  r_curr res = match k with O => None | S k' => item_ptr q <$> o !! k' end /\
  r_nmemb res = Z.of_nat (length o).

Definition sees (q : mpmc_queue) (o : list nat) (k : nat) (seen : option Z) : Prop :=
  seen = None \/ exists k' i, k = S k' /\ o !! k' = Some i /\ seen = Some (CONTENT_PTR (item_ptr q i)).

Definition thread_inv (q : mpmc_queue) (o : list nat) (r : role) (p : pc) : Prop :=
  match p with
  | Idle | Preparing (WP_load | WP_next _ | WP_cas _ _) | Fetching RP_load => o = [] /\ r = Free
  | Fetching (RP_cas h) => o = [] /\ r = Free /\ h <> TAIL_IDX
  | Preparing (WP_mark ret) => exists i, owns_one o r i /\ ret = item_ptr q i
  | Writing ptr =>
      exists i, owns_one o r i /\ ptr = CONTENT_PTR (item_ptr q i) /\ next_of q i = Some UNUSED_FLAG
  | Committing ptr p =>
      exists i, owns_one o r i /\ ptr = CONTENT_PTR (item_ptr q i) /\
      match p with
      | WC_check ptr' => ptr' = ptr /\ next_of q i = Some UNUSED_FLAG
      | WC_load item idx | WC_link item idx _ => item = item_ptr q i /\ idx = Z.of_nat i
      | WC_cas item idx e => item = item_ptr q i /\ idx = Z.of_nat i /\ next_of q i = Some e
      end
  | Fetching (RP_test w) => exists fin x rest, walking q o r w fin x rest
  | Fetching (RP_next w) => exists fin x y rest, walking q o r w fin x (y :: rest)
  | Fetching (RP_store w nx) =>
      exists fin x y rest, walking q o r w fin x (y :: rest) /\ nx = Z.of_nat y
  | Fetching (RP_last w) => exists fin x, walking q o r w fin x []
  | Reading res seen => exists k, batch q o r res k TAIL_IDX /\ sees q o k seen
  | Advancing res p =>
      exists k, batch q o r res k TAIL_IDX /\
        match p with RN_start => True | _ => (0 < k < length o)%nat end
  | Releasing res p =>
      exists k stop, batch q o r res k stop /\
      match p with
      | RC_check => True
      | RC_load idx | RC_link idx _ => r_header res = ITEM q idx /\ head o = Some (Z.to_nat idx) /\ 0 <= idx
      | RC_cas idx oldf newf =>
          r_header res = ITEM q idx /\ head o = Some (Z.to_nat idx) /\ 0 <= idx /\ stop = free_index oldf /\
          newf = pack idx (u32 (free_seq oldf + 1))
      end
  end.

(** What a producer that is popping knows of [free]: if it has not been
    updated since, the word is the one it read, and the link it read is the
    link of the top item. *)
Definition stamp_inv (q : mpmc_queue) (u : Z) (th : thread) : Prop :=
  match t_pc th with
  | Preparing (WP_next oldf) =>
      t_stamp th <= u /\ free_seq oldf = u32 (1 + t_stamp th) /\ free_index oldf < q_nmemb q /\
      (t_stamp th = u -> q_free q = oldf)
  | Preparing (WP_cas oldf newf) =>
      t_stamp th <= u /\ free_seq oldf = u32 (1 + t_stamp th) /\ free_index oldf < q_nmemb q /\
      (t_stamp th = u -> q_free q = oldf /\
         exists v, next_of q (Z.to_nat (free_index oldf)) = Some v /\
                   newf = pack v (u32 (free_seq oldf + 1)))
  | _ => True
  end.

(** ** The invariant *)

Record inv (n : nat) (q : mpmc_queue) (u : Z) (ths : list thread) (b : bqueue)
    (fl hl : list nat) (owns : list (list nat)) : Prop := {
  inv_geo : geometry n q;
  inv_part : fl ++ hl ++ mjoin owns ≡ₚ seq 0 n;
  inv_fl : linked q (free_index (q_free q)) fl TAIL_IDX;
  inv_hl : linked q (q_head q) hl TAIL_IDX;
  inv_pending : b_pending b = content_of q <$> reverse hl;
  inv_seq : free_seq (q_free q) = u32 (1 + u);
  inv_owns : length owns = length ths;
  inv_roles : length (b_roles b) = length ths;
  inv_threads : forall t th o r,
    ths !! t = Some th -> owns !! t = Some o -> b_roles b !! t = Some r ->
    thread_inv q o r (t_pc th) /\ stamp_inv q u th;
}.

Section frame.
Context {q q' : mpmc_queue} {o : list nat} (Ha : agree o q q').

Lemma batch_frame r res k stop : batch q o r res k stop -> batch q' o r res k stop.
Proof using Ha.
  intros (-> & Hk & (h & Hh & Hr & Hl) & (z & Hz & Ht) & Hcu & Hn).
  unfold batch. rewrite (agree_contents _ _ _ Ha). split_and!; try done.
  - exists h. rewrite (agree_ptr _ _ _ _ Ha). split_and!; try done. by eapply linked_frame.
  - exists z. by rewrite (agree_ptr _ _ _ _ Ha).
  - rewrite Hcu. destruct k as [|k]; [done|].
    destruct (o !! k); simpl; [by rewrite (agree_ptr _ _ _ _ Ha)|done].
Qed.

Lemma walking_frame r w fin x rest : walking q o r w fin x rest -> walking q' o r w fin x rest.
Proof using Ha.
  intros (Ho & -> & Hi & Hh & Hl1 & Hl2 & (z & Hz & Ht) & Hn).
  unfold walking. rewrite (agree_contents _ _ _ Ha), (agree_ptr _ _ _ x Ha). split_and!; try done.
  - eapply linked_frame; [|done]. eapply agree_sub; [|done]. rewrite Ho.
    intros i Hir. apply elem_of_app. left. by apply elem_of_reverse.
  - eapply linked_frame; [|done]. eapply agree_sub; [|done]. rewrite Ho.
    intros i Hir. apply elem_of_app. by right.
  - exists z. by rewrite (agree_ptr _ _ _ z Ha).
Qed.

Lemma thread_inv_frame r p : thread_inv q o r p -> thread_inv q' o r p.
Proof using Ha.
  pose proof (fun i => agree_ptr _ _ _ i Ha) as Hp.
  assert (forall i, ITEM q' i = ITEM q i) as HI by (intros; unfold ITEM; by destruct Ha as [-> _]).
  assert (forall i, o = [i] -> next_of q' i = next_of q i) as Hn.
  { intros i Ho. eapply agree_next; [exact Ha|]. rewrite Ho. set_solver. }
  pose proof batch_frame as Hbf. pose proof walking_frame as Hwf. clear Ha.
  destruct p as [|[]|ptr|ptr []|[]|res seen|res []|res []]; cbn [thread_inv];
    unfold owns_one, sees; try done;
    intros;
    repeat match goal with H : exists _, _ |- _ => destruct H | H : _ /\ _ |- _ => destruct H end;
    repeat match goal with H : o = [?i] |- _ => rewrite <- (Hn _ H) in * end; subst;
    rewrite <- ?Hp, <- ?HI in *; eauto 12.
  eexists. split; [eauto|]. setoid_rewrite Hp. done.
Qed.
End frame.

(** ** Steps keep the invariant *)

Section step.
Context {n : nat} {q : mpmc_queue} {u : Z} {ths : list thread} {b : bqueue}
        {fl hl : list nat} {owns : list (list nat)} (I : inv n q u ths b fl hl owns).
Context {t : nat} {o : list nat} (Ho : owns !! t = Some o).

Lemma inv_nodup : NoDup (fl ++ hl ++ mjoin owns).
Proof using I. rewrite (inv_part _ _ _ _ _ _ _ _ I). apply NoDup_seq. Qed.

Lemma inv_lt i : i ∈ fl ++ hl ++ mjoin owns -> (i < n)%nat.
Proof using I. rewrite (inv_part _ _ _ _ _ _ _ _ I). rewrite elem_of_seq. lia. Qed.

Lemma own_join i : i ∈ o -> i ∈ mjoin owns.
Proof using Ho. intros Hi. apply list_elem_of_join. exists o. split; [done|]. by eapply list_elem_of_lookup_2. Qed.

Lemma own_lt i : i ∈ o -> (i < n)%nat.
Proof using I Ho. intros Hi. apply inv_lt. rewrite !elem_of_app. auto using own_join. Qed.

Lemma own_nodup : NoDup o.
Proof using I Ho.
  pose proof inv_nodup as H. rewrite !NoDup_app in H. destruct H as (_ & _ & _ & _ & H).
  rewrite (join_lookup _ _ _ Ho), NoDup_app in H. by destruct H.
Qed.

(** What a thread owns is on neither stack and is not owned by another. *)
Lemma own_apart i : i ∈ o ->
  (i ∉ fl) /\ (i ∉ hl) /\ forall u' o', u' <> t -> owns !! u' = Some o' -> i ∉ o'.
Proof using I Ho.
  intros Hi. pose proof (own_join i Hi) as Hj. pose proof inv_nodup as H.
  rewrite !NoDup_app in H. destruct H as (_ & H1 & _ & H2 & H3). split_and!.
  - intros Hf. apply (H1 i Hf). set_solver.
  - intros Hh. by apply (H2 i Hh).
  - intros u' o' Hu' Ho'. eapply (join_disjoint owns t u'); eauto.
Qed.

Lemma stack_lt l : l = fl \/ l = hl -> Forall (fun i => Z.of_nat i < TAIL_IDX) l.
Proof using I.
  intros Hl. apply Forall_forall. intros i Hi.
  assert (i < n)%nat by (apply inv_lt; rewrite !elem_of_app; destruct Hl; subst; auto).
  pose proof (geo_bound _ _ (inv_geo _ _ _ _ _ _ _ _ I)). unfold TAIL_IDX. lia.
Qed.

Context {th : thread} {r : role} (Ht : ths !! t = Some th) (Hr : b_roles b !! t = Some r).

(** The step of thread [t]: it writes only items it owns, and moves items
    between its own and the stacks. *)
Lemma inv_step q' u' th' b' fl' hl' o' r' :
  geometry n q' -> q_size q' = q_size q ->
  (forall i, i ∉ o -> q_items q' !! i = q_items q !! i) ->
  fl' ++ hl' ++ o' ≡ₚ fl ++ hl ++ o ->
  linked q' (free_index (q_free q')) fl' TAIL_IDX ->
  linked q' (q_head q') hl' TAIL_IDX ->
  b_pending b' = content_of q' <$> reverse hl' ->
  b_roles b' = <[t := r']> (b_roles b) ->
  (u' = u /\ q_free q' = q_free q \/ u' = u + 1 /\ free_seq (q_free q') = u32 (1 + u')) ->
  thread_inv q' o' r' (t_pc th') -> stamp_inv q' u' th' ->
  inv n q' u' (<[t := th']> ths) b' fl' hl' (<[t := o']> owns).
Proof using I Ht Ho Hr.
  intros G Hsz Hit Hp Hfl Hhl Hpend Hroles Hu Hth Hst. destruct I as [G0 P0 F0 H0 Q0 S0 L1 L2 T0].
  split; try done.
  - rewrite (join_insert _ _ _ _ Ho). rewrite (join_lookup _ _ _ Ho) in P0. rewrite <- P0.
    rewrite !app_assoc. apply Permutation_app; [|done]. by rewrite <- !app_assoc.
  - destruct Hu as [[-> ->]|[_ ->]]; done.
  - by rewrite !length_insert.
  - rewrite Hroles. by rewrite !length_insert.
  - intros v w ov rv Hw Hov Hrv. rewrite Hroles in Hrv. destruct (decide (t = v)) as [<-|Hne].
    + rewrite list_lookup_insert_eq in Hw by by eapply lookup_lt_Some.
      rewrite list_lookup_insert_eq in Hov by by eapply lookup_lt_Some.
      rewrite list_lookup_insert_eq in Hrv by by eapply lookup_lt_Some.
      by simplify_eq.
    + rewrite list_lookup_insert_ne in Hw by done. rewrite list_lookup_insert_ne in Hov by done.
      rewrite list_lookup_insert_ne in Hrv by done.
      destruct (T0 v w ov rv Hw Hov Hrv) as [Tv Sv].
      assert (q_nmemb q' = q_nmemb q) as Hnm by by rewrite (geo_nmemb _ _ G), (geo_nmemb _ _ G0).
      pose proof (geo_nmemb _ _ G0) as Hn0. pose proof (geo_bound _ _ G0) as Hb0.
      assert (agree ov q q') as Ha.
      { split; [done|]. intros i Hi. apply Hit. intros Hio.
        destruct (own_apart i Hio) as (_ & _ & Hx). by apply (Hx v ov). }
      split; [by eapply thread_inv_frame|]. clear Hth Hst Hrv Hov Hw.
      unfold stamp_inv in *. destruct (t_pc w) as [|[|oldf|oldf newf|]| | | | | |]; try done.
      * destruct Sv as (Sv1 & Sv2 & Sv4 & Sv3). split_and!; try done; [lia|congruence|].
        destruct Hu as [[-> ->]|[-> _]]; [done|lia].
      * destruct Sv as (Sv1 & Sv2 & Sv4 & Sv3). split_and!; try done; [lia|congruence|].
        destruct Hu as [[-> Hf]|[-> _]]; [|lia]. intros Hw. destruct (Sv3 Hw) as (Hq & x & Hx & ->).
        rewrite Hf. split; [done|]. exists x. split; [|done]. rewrite <- Hx. unfold next_of.
        f_equal. apply Hit. intros Hio. apply own_apart in Hio as [Hio _]. apply Hio.
        rewrite Hq in F0. destruct fl as [|i0 fl0].
        { rewrite F0, Hn0 in Sv4. unfold TAIL_IDX in Sv4. lia. }
        destruct F0 as [-> _]. rewrite Nat2Z.id. set_solver.
Qed.

(** A step that writes only items of the thread and moves none. *)
Lemma inv_private l th' b' r' :
  length l = length (q_items q) -> (forall i, i ∉ o -> l !! i = q_items q !! i) ->
  b_pending b' = b_pending b -> b_roles b' = <[t := r']> (b_roles b) ->
  thread_inv (set_items q l) o r' (t_pc th') -> stamp_inv (set_items q l) u th' ->
  inv n (set_items q l) u (<[t := th']> ths) b' fl hl owns.
Proof using I Ht Ho Hr.
  intros Hl Hit Hpb Hrb Hth Hst. rewrite <- (list_insert_id owns t o Ho).
  assert (forall l', (forall i, i ∈ l' -> i ∉ o) -> agree l' q (set_items q l)) as Ha.
  { intros l' Hl'. split; [done|]. intros i Hi. apply Hit. by apply Hl'. }
  assert (agree fl q (set_items q l)) by (apply Ha; intros i Hi Hio; by destruct (own_apart i Hio)).
  assert (agree hl q (set_items q l)) as Hah
    by (apply Ha; intros i Hi Hio; by destruct (own_apart i Hio) as (_ & ? & _)).
  destruct I as [[G1 G2 G3 G4] P0 F0 H0 Q0 S0 L1 L2 T0].
  eapply inv_step; try done.
  - split; try done. cbn. lia.
  - by eapply linked_frame.
  - by eapply linked_frame.
  - rewrite Hpb, Q0, !fmap_reverse. by rewrite (agree_contents _ _ _ Hah).
  - by left.
Qed.

Lemma inv_local th' b' r' :
  b_pending b' = b_pending b -> b_roles b' = <[t := r']> (b_roles b) ->
  thread_inv q o r' (t_pc th') -> stamp_inv q u th' ->
  inv n q u (<[t := th']> ths) b' fl hl owns.
Proof using I Ht Ho Hr.
  intros. assert (set_items q (q_items q) = q) as Hq by by destruct q.
  rewrite <- Hq. eapply inv_private; rewrite ?Hq; eauto.
Qed.

Lemma inv_write i v th' :
  i ∈ o -> thread_inv (upd_next q i v) o r (t_pc th') -> stamp_inv (upd_next q i v) u th' ->
  inv n (upd_next q i v) u (<[t := th']> ths) b fl hl owns.
Proof using I Ht Ho Hr.
  intros Hi. eapply inv_private; try done.
  - by rewrite length_alter.
  - intros j Hj. apply list_lookup_alter_ne. by intros ->.
  - by rewrite list_insert_id.
Qed.

(** The slots in use are those off the free stack. *)
Lemma used_free : (used b + length fl)%nat = n.
Proof using I.
  clear Ht Hr. destruct I as [G0 P0 F0 H0 Q0 S0 L1 L2 T0]. apply Permutation_length in P0.
  rewrite !length_app, length_seq, length_join in P0.
  assert (weight <$> b_roles b = length <$> owns) as Hw.
  { apply list_eq. intros v. rewrite !list_lookup_fmap.
    destruct (b_roles b !! v) as [rv|] eqn:Hrv, (owns !! v) as [ov|] eqn:Hov; simpl;
      try done.
    - assert (exists w, ths !! v = Some w) as [w Hw].
      { apply lookup_lt_is_Some. apply lookup_lt_Some in Hov. lia. }
      destruct (T0 v w ov rv Hw Hov Hrv) as [Tv _]. f_equal. clear -Tv.
      destruct (t_pc w) as [|[]|ptr|ptr []|[]|res seen|res []|res []]; simpl in Tv;
        unfold owns_one, walking, batch in Tv;
        repeat match goal with H : exists _, _ |- _ => destruct H | H : _ /\ _ |- _ => destruct H end;
        subst; simpl; by rewrite ?length_fmap.
    - apply lookup_lt_Some in Hrv. apply lookup_ge_None in Hov. lia.
    - apply lookup_lt_Some in Hov. apply lookup_ge_None in Hrv. lia. }
  unfold used. rewrite Hw, Q0, length_fmap, length_reverse. lia.
Qed.
End step.

(** ** The functions *)

(** The stamp of a thread after its next step. *)
Definition restamp (u : Z) (th : thread) : Z :=
  match t_pc th with Preparing WP_load => u | _ => t_stamp th end.

(** The step [m] of thread [t] succeeds, the specification accepts its events,
    and the invariant holds after it. *)
Definition follows (n : nat) (q : mpmc_queue) (u : Z) (ths : list thread) (b : bqueue)
    (t : nat) (th : thread) (m : option (exec (mpmc_queue * pc * list event))) : Prop :=
  exists q' p' es b' fl' hl' owns',
    m = Some (Done (q', p', es)) /\
    spec_run (bqueue_step (Z.of_nat n)) b (label t es) = Some b' /\
    inv n q' (if q_free q' =? q_free q then u else u + 1)
      (<[t := Thread p' (restamp u th)]> ths) b' fl' hl' owns'.

Section stacks.
Context {n : nat} {q : mpmc_queue} {u : Z} {ths : list thread} {b : bqueue}
        {fl hl : list nat} {owns : list (list nat)} (I : inv n q u ths b fl hl owns).

Lemma free_nil : free_index (q_free q) = TAIL_IDX <-> fl = [].
Proof using I. eapply linked_first; [apply I|]. eapply stack_lt; eauto. Qed.

Lemma head_nil : q_head q = TAIL_IDX <-> hl = [].
Proof using I. eapply linked_first; [apply I|]. eapply stack_lt; eauto. Qed.

(** The top of a stack that is not empty. *)
Lemma free_cons : free_index (q_free q) <> TAIL_IDX ->
  exists i fl' v, fl = i :: fl' /\ free_index (q_free q) = Z.of_nat i /\ (i < n)%nat /\
    next_of q i = Some v /\ linked q v fl' TAIL_IDX.
Proof using I.
  intros E. pose proof (inv_fl _ _ _ _ _ _ _ _ I) as H. pose proof (inv_lt I) as Hlt.
  destruct fl as [|i fl']; [by destruct E|]. destruct H as [Hi (v & Hv & Hl)].
  exists i, fl', v. split_and!; try done. apply Hlt. set_solver.
Qed.

Lemma head_cons : q_head q <> TAIL_IDX ->
  exists i hl', hl = i :: hl' /\ q_head q = Z.of_nat i /\ (i < n)%nat.
Proof using I.
  intros E. pose proof (inv_hl _ _ _ _ _ _ _ _ I) as H. pose proof (inv_lt I) as Hlt.
  destruct hl as [|i hl']; [by destruct E|]. destruct H as [Hi _].
  exists i, hl'. split_and!; try done. apply Hlt. set_solver.
Qed.

(** The sequence number moves on with every update. *)
Lemma seq_bump oldf : free_seq oldf = u32 (1 + u) -> u32 (free_seq oldf + 1) = u32 (1 + (u + 1)).
Proof. intros ->. unfold u32. rewrite Zplus_mod_idemp_l. f_equal. lia. Qed.

Lemma bumped newf : free_seq newf = u32 (1 + (u + 1)) -> (newf =? q_free q) = false.
Proof using I.
  intros H. apply Z.eqb_neq. intros ->. rewrite (inv_seq _ _ _ _ _ _ _ _ I) in H.
  unfold u32 in H. lia_div.
Qed.
End stacks.

Section functions.
Context {n : nat} {q : mpmc_queue} {u : Z} {ths : list thread} {b : bqueue}
        {fl hl : list nat} {owns : list (list nat)} (I : inv n q u ths b fl hl owns).
Context {t : nat} {o : list nat} {th : thread} {r : role} (Ho : owns !! t = Some o)
        (Ht : ths !! t = Some th) (Hr : b_roles b !! t = Some r).
Let G : geometry n q := inv_geo _ _ _ _ _ _ _ _ I.

Lemma follows_local p' es b' r' m :
  m = Some (Done (q, p', es)) ->
  spec_run (bqueue_step (Z.of_nat n)) b (label t es) = Some b' ->
  b_pending b' = b_pending b -> b_roles b' = <[t := r']> (b_roles b) ->
  thread_inv q o r' p' -> stamp_inv q u (Thread p' (restamp u th)) ->
  follows n q u ths b t th m.
Proof using I Ht Ho Hr.
  intros -> Hs Hp Hro Hth Hst. exists q, p', es, b', fl, hl, owns. split_and!; try done.
  rewrite Z.eqb_refl. by apply (inv_local I Ho Ht Hr) with (r' := r').
Qed.

Lemma follows_quiet p' m :
  m = Some (Done (q, p', [])) -> thread_inv q o r p' ->
  stamp_inv q u (Thread p' (restamp u th)) -> follows n q u ths b t th m.
Proof using I Ht Ho Hr.
  intros Hm Hth Hst. by apply (follows_local p' [] b r); rewrite ?list_insert_id.
Qed.

Lemma follows_write i v p' es m :
  i ∈ o -> m = Some (Done (upd_next q i v, p', es)) ->
  spec_run (bqueue_step (Z.of_nat n)) b (label t es) = Some b ->
  thread_inv (upd_next q i v) o r p' ->
  stamp_inv (upd_next q i v) u (Thread p' (restamp u th)) ->
  follows n q u ths b t th m.
Proof using I Ht Ho Hr.
  intros Hi -> Hs Hth Hst. exists (upd_next q i v), p', es, b, fl, hl, owns.
  split_and!; try done. cbn [upd_next set_items q_free]. rewrite Z.eqb_refl.
  by apply (inv_write I Ho Ht Hr).
Qed.

(** mpmc_queue_writer_prepare *)
Lemma prepare_load_follows :
  thread_inv q o r (Preparing WP_load) -> t_pc th = Preparing WP_load ->
  follows n q u ths b t th (run_step q (Preparing WP_load)).
Proof using I Ht Ho Hr G.
  intros [Ho0 Hr0] Hpc. cbn. destruct (Z.eqb_spec (free_index (q_free q)) TAIL_IDX) as [E|E].
  - apply (free_nil I) in E. apply (follows_local Idle [NoRoom] b Free); try done.
    + rewrite spec_run_one. simpl. rewrite Hr, Hr0. simpl. rewrite option_guard_True; [done|].
      rewrite <- (used_free I), E. simpl. lia.
    + by rewrite <- Hr0, list_insert_id.
  - destruct (free_cons I E) as (i & fl' & v & _ & Hi & Hn & _). pose proof (geo_nmemb _ _ G) as Hnm.
    destruct (Z.leb_spec (q_nmemb q) (free_index (q_free q))); [lia|].
    apply (follows_quiet (Preparing (WP_next (q_free q)))); [done..|].
    unfold restamp. rewrite Hpc. split_and!; [simpl; lia|apply I|lia|done].
Qed.

Lemma prepare_next_follows oldf :
  thread_inv q o r (Preparing (WP_next oldf)) -> t_pc th = Preparing (WP_next oldf) ->
  stamp_inv q u th -> follows n q u ths b t th (run_step q (Preparing (WP_next oldf))).
Proof using I Ht Ho Hr G.
  intros [Ho0 Hr0] Hpc Hst. unfold stamp_inv in Hst. rewrite Hpc in Hst.
  destruct Hst as (S1 & S2 & S3 & S4). pose proof (geo_nmemb _ _ G) as Hnm.
  assert (0 <= free_index oldf) as Hpos by (unfold free_index, u32; lia_div).
  destruct (item_at G (Z.to_nat (free_index oldf))) as [it Hit]; [lia|].
  assert (next_of q (Z.to_nat (free_index oldf)) = Some (i_next it)) as Hn
    by (unfold next_of; by rewrite Hit).
  assert (ITEM q (free_index oldf) = item_ptr q (Z.to_nat (free_index oldf))) as Hptr
    by (unfold item_ptr; by rewrite Z2Nat.id).
  cbn. rewrite Hptr, (load_next_ptr G _ _ Hn). run.
  eapply follows_quiet; [done|done|]. unfold restamp. rewrite Hpc.
  split_and!; try done. intros E. split; [auto|]. by exists (i_next it).
Qed.

Lemma prepare_cas_follows oldf newf :
  thread_inv q o r (Preparing (WP_cas oldf newf)) -> t_pc th = Preparing (WP_cas oldf newf) ->
  stamp_inv q u th -> u - t_stamp th < 2 ^ 32 ->
  follows n q u ths b t th (run_step q (Preparing (WP_cas oldf newf))).
Proof using I Ht Ho Hr G.
  intros [Ho0 Hr0] Hpc Hst Hadm. unfold stamp_inv in Hst. rewrite Hpc in Hst.
  destruct Hst as (S1 & S2 & S3 & S4). cbn. destruct (Z.eqb_spec (q_free q) oldf) as [E|E].
  2: { apply (follows_quiet (Preparing WP_load)); done. }
  assert (t_stamp th = u) as Hfresh.
  { rewrite <- E, (inv_seq _ _ _ _ _ _ _ _ I) in S2. unfold u32 in S2. lia_div. }
  destruct (S4 Hfresh) as (_ & v & Hv & ->).
  pose proof (geo_nmemb _ _ G) as Hnm. pose proof (geo_bound _ _ G) as Hbd.
  destruct (free_cons I) as (i & fl' & v' & Efl & Hi & Hin & Hv' & Hl').
  { rewrite E. unfold TAIL_IDX. lia. }
  rewrite E in Hi. rewrite Hi, Nat2Z.id in Hv. assert (v' = v) as -> by congruence.
  assert (0 <= v < 2 ^ 32) as Hvr.
  { eapply linked_first; [done|]. apply (Forall_cons_1 _ i). rewrite <- Efl. apply (stack_lt I). by left. }
  rewrite Hfresh in S2. rewrite (seq_bump _ S2).
  destruct (pack_halves v (u32 (1 + (u + 1)))) as [P1 P2]; [done|apply u32_range|].
  exists (set_free q (pack v (u32 (1 + (u + 1))))), (Preparing (WP_mark (item_ptr q i))), [Reserved],
    (set_role b t Reserving), fl', hl, (<[t := [i]]> owns). split_and!.
  - by rewrite Hi.
  - rewrite spec_run_one. simpl. rewrite Hr, Hr0. simpl. rewrite option_guard_True; [done|].
    rewrite <- (used_free I), Efl. simpl. lia.
  - cbn [set_free q_free]. rewrite (bumped I _ P2).
    destruct I as [[G1 G2 G3 G4] P0 F0 H0 Q0 S0 L1 L2 T0].
    eapply (inv_step I Ho Ht Hr); try done; cbn [set_free q_free q_head].
    + by rewrite Efl, Ho0, app_nil_r, app_assoc, Permutation_app_comm.
    + rewrite P1. by apply (linked_items q).
    + by apply (linked_items q).
    + by right.
    + by exists i.
Qed.

Lemma own_next i v : i ∈ o -> next_of (upd_next q i v) i = Some v.
Proof using I Ht Ho Hr G.
  intros Hi. rewrite next_upd, decide_True by done.
  destruct (item_at G i (own_lt I Ho i Hi)) as [it Hit]. unfold next_of. by rewrite Hit.
Qed.

Lemma prepare_mark_follows ret :
  thread_inv q o r (Preparing (WP_mark ret)) ->
  follows n q u ths b t th (run_step q (Preparing (WP_mark ret))).
Proof using I Ht Ho Hr G.
  intros (i & [Ho0 Hr0] & ->). cbn.
  assert (i ∈ o) as Hi by (rewrite Ho0; set_solver).
  rewrite (store_next_ptr G) by by apply (own_lt I Ho). run.
  eapply (follows_write i); try done. exists i. split_and!; try done. by apply own_next.
Qed.

(** mpmc_queue_writer_commit *)
Lemma commit_push_follows ptr i e :
  thread_inv q o r (Committing ptr (WC_cas (item_ptr q i) (Z.of_nat i) e)) -> o = [i] ->
  q_head q = e ->
  follows n q u ths b t th
    (Some (v ← read_content (set_head q (Z.of_nat i)) ptr;
           Done (set_head q (Z.of_nat i), Idle, [Enqueued v]))).
Proof using I Ht Ho Hr G.
  intros (i' & [Ho1 Hr0] & -> & _ & _ & Hnx) Ho0 He. assert (i' = i) as -> by congruence.
  assert (i ∈ o) as Hi by (rewrite Ho0; set_solver).
  assert (geometry n (set_head q (Z.of_nat i))) as G' by (destruct G; by split).
  change (item_ptr q i) with (item_ptr (set_head q (Z.of_nat i)) i).
  rewrite (read_content_ptr G') by by apply (own_lt I Ho). run.
  exists (set_head q (Z.of_nat i)), Idle, [Enqueued (content_of q i)],
    (Bqueue (b_pending b ++ [content_of q i]) (<[t := Free]> (b_roles b))), fl, (i :: hl), (<[t := []]> owns).
  split_and!; [done|rewrite spec_run_one; simpl; by rewrite Hr, Hr0|].
  cbn [set_head q_free]. rewrite Z.eqb_refl.
  eapply (inv_step I Ho Ht Hr); try done; cbn [set_head q_free q_head].
  - by rewrite Ho0, app_nil_r, (Permutation_app_comm hl).
  - apply (linked_items q); [done|apply I].
  - split; [done|]. exists e. split; [done|]. rewrite <- He. apply (linked_items q); [done|apply I].
  - simpl. rewrite (inv_pending _ _ _ _ _ _ _ _ I), reverse_cons, fmap_app. done.
  - by left.
Qed.

Lemma committing_follows ptr p :
  thread_inv q o r (Committing ptr p) ->
  follows n q u ths b t th (run_step q (Committing ptr p)).
Proof using I Ht Ho Hr G.
  intros Hth. pose proof Hth as (i & [Ho0 Hr0] & Hptr & Hp).
  assert (i ∈ o) as Hi by (rewrite Ho0; set_solver).
  assert (i < n)%nat as Hin by by apply (own_lt I Ho).
  destruct p as [ptr'|item idx|item idx e|item idx e]; cbn.
  - destruct Hp as [-> Hnx]. rewrite Hptr.
    replace (ITEM_FROM_CONTENT _) with (item_ptr q i) by (unfold ITEM_FROM_CONTENT, CONTENT_PTR; lia).
    rewrite (u32_ITEM_IDX G) by done. rewrite (proj2 (Z.ltb_lt _ _)) by (rewrite (geo_nmemb _ _ G); lia).
    run. rewrite (load_next_ptr G _ _ Hnx). run.
    eapply follows_quiet; [done| |done]. by exists i.
  - destruct Hp as [-> ->]. eapply follows_quiet; [done| |done]. by exists i.
  - destruct Hp as [-> ->]. rewrite (store_next_ptr G) by done. run.
    eapply (follows_write i); try done. exists i. split_and!; try done. by apply own_next.
  - destruct Hp as (-> & -> & Hnx). destruct (Z.eqb_spec (q_head q) e) as [E|E].
    + by apply (commit_push_follows ptr i e).
    + eapply follows_quiet; [done| |done]. by exists i.
Qed.

(** mpmc_queue_reader_prepare *)
Lemma fetch_take_follows h :
  thread_inv q o r (Fetching (RP_cas h)) -> q_head q = h ->
  follows n q u ths b t th (run_step q (Fetching (RP_cas h))).
Proof using I Ht Ho Hr G.
  intros (Ho0 & Hr0 & Hh) E. cbn. rewrite E, Z.eqb_refl. rewrite <- E in Hh.
  destruct (head_cons I Hh) as (x & rest & Ehl & Hx & Hxn).
  rewrite E in Hx. rewrite Hx. pose proof (geo_nmemb _ _ G) as Hnm.
  rewrite (proj2 (Z.ltb_lt _ _)) by lia. run.
  pose proof (inv_pending _ _ _ _ _ _ _ _ I) as Hpend. pose proof (inv_hl _ _ _ _ _ _ _ _ I) as Hl.
  exists (set_head q TAIL_IDX),
    (Fetching (RP_test (Walk (item_ptr q x) (item_ptr q x) (Z.of_nat x) TAIL_IDX 1))), [Took],
    (Bqueue [] (<[t := Holding (b_pending b) 0]> (b_roles b))), fl, [], (<[t := reverse hl]> owns).
  split_and!; [done| |].
  { rewrite spec_run_one. simpl. rewrite Hr, Hr0. simpl. rewrite option_guard_True; [done|].
    intros Hnil. apply (f_equal length) in Hnil.
    by rewrite Hpend, length_fmap, length_reverse, Ehl in Hnil. }
  cbn [set_head q_free]. rewrite Z.eqb_refl.
  assert (geometry n (set_head q TAIL_IDX)) by (destruct G; by split).
  eapply (inv_step I Ho Ht Hr); try done; cbn [set_head q_free q_head].
  - by rewrite Ho0, app_nil_r, reverse_Permutation.
  - apply (linked_items q); [done|apply I].
  - by left.
  - exists [], x, rest. rewrite Hpend. unfold walking. rewrite app_nil_r, Ehl. split_and!; try done.
    + apply (linked_items q); [done|]. by rewrite <- Ehl, <- Hx, <- E.
    + exists x. by rewrite reverse_cons, last_snoc.
Qed.

Lemma walking_lt w fin x rest :
  walking q o r w fin x rest -> Forall (fun i => Z.of_nat i < TAIL_IDX) rest /\ x ∈ o.
Proof using I Ht Ho Hr G.
  intros (Ho0 & _). split.
  - apply Forall_forall. intros i Hi. assert (i < n)%nat.
    { apply (own_lt I Ho). rewrite Ho0. apply elem_of_app. left. apply elem_of_reverse. set_solver. }
    pose proof (geo_bound _ _ G). unfold TAIL_IDX. lia.
  - rewrite Ho0. apply elem_of_app. left. apply elem_of_reverse. set_solver.
Qed.

(** Reversing one more link. *)
Lemma walking_store w fin x rest :
  walking q o r w fin x rest ->
  linked (upd_next q x (w_prev w)) (Z.of_nat x) (x :: fin) TAIL_IDX /\
  agree rest q (upd_next q x (w_prev w)).
Proof using I Ht Ho Hr G.
  intros Hw. pose proof (walking_lt _ _ _ _ Hw) as [_ Hx].
  destruct Hw as (Ho0 & _ & _ & _ & _ & Hl2 & _).
  pose proof (own_nodup I Ho) as Hnd. rewrite Ho0, reverse_cons, <- app_assoc in Hnd.
  apply NoDup_app in Hnd as (_ & Hd1 & Hd2). simpl in Hd2. apply NoDup_cons in Hd2 as [Hd2 _].
  assert (forall l, x ∉ l -> agree l q (upd_next q x (w_prev w))) as Ha.
  { intros l Hxl. split; [done|]. intros i Hi. apply list_lookup_alter_ne. by intros ->. }
  split; [|apply Ha; intros Hxr; apply (Hd1 x); [by apply elem_of_reverse|set_solver]].
  split; [done|]. exists (w_prev w). split; [by apply own_next|].
  eapply linked_frame; [by apply Ha|done].
Qed.

Lemma walking_in w fin x y rest : walking q o r w fin x (y :: rest) -> (y < n)%nat.
Proof using I Ht Ho Hr G.
  intros (Ho0 & _). apply (own_lt I Ho). rewrite Ho0. apply elem_of_app. left.
  apply elem_of_reverse. set_solver.
Qed.

Lemma own_length : (length o <= n)%nat.
Proof using I Ho.
  rewrite <- (length_seq n 0). apply submseteq_length, NoDup_submseteq; [apply (own_nodup I Ho)|].
  intros i Hi. apply elem_of_seq. pose proof (own_lt I Ho i Hi). lia.
Qed.

Lemma contents_upd (l : list nat) i v : content_of (upd_next q i v) <$> l = content_of q <$> l.
Proof. apply list_fmap_ext. intros. by rewrite content_upd. Qed.

Lemma fetch_test_follows w :
  thread_inv q o r (Fetching (RP_test w)) ->
  follows n q u ths b t th (run_step q (Fetching (RP_test w))).
Proof using I Ht Ho Hr G.
  intros (fin & x & rest & Hw). destruct (walking_lt _ _ _ _ Hw) as [Hlt _].
  pose proof Hw as (_ & _ & Hit & _ & [_ (v & Hv & Hl)] & _). cbn.
  rewrite Hit, (load_next_ptr G _ _ Hv). run.
  destruct (linked_first _ _ _ Hl Hlt) as [_ Hnil].
  eapply follows_quiet; [done| |destruct (v =? TAIL_IDX); done].
  destruct (Z.eqb_spec v TAIL_IDX) as [E|E].
  - rewrite (proj1 Hnil E) in Hw. by exists fin, x.
  - destruct rest as [|y rest]; [by destruct E; apply Hnil|]. by exists fin, x, y, rest.
Qed.

Lemma fetch_next_follows w :
  thread_inv q o r (Fetching (RP_next w)) ->
  follows n q u ths b t th (run_step q (Fetching (RP_next w))).
Proof using I Ht Ho Hr G.
  intros (fin & x & y & rest & Hw). pose proof (walking_in _ _ _ _ _ Hw).
  pose proof Hw as (_ & _ & Hit & _ & [_ (v & Hv & [Hy _])] & _). cbn.
  rewrite Hit, (load_next_ptr G _ _ Hv). run.
  pose proof (geo_nmemb _ _ G). rewrite (proj2 (Z.ltb_lt _ _)) by lia. run.
  eapply follows_quiet; [done| |done]. by exists fin, x, y, rest.
Qed.

Lemma fetch_store_follows w nx :
  thread_inv q o r (Fetching (RP_store w nx)) ->
  follows n q u ths b t th (run_step q (Fetching (RP_store w nx))).
Proof using I Ht Ho Hr G.
  intros (fin & x & y & rest & Hw & ->). destruct (walking_lt _ _ _ _ Hw) as [_ Hx].
  destruct (walking_store _ _ _ _ Hw) as [Hl Ha].
  destruct Hw as (Ho0 & Hr0 & Hit & Hhd & [_ (v & Hv & Hrest)] & _ & (z & Hz & Htl) & Hn). cbn.
  rewrite Hit, (store_next_ptr G) by by apply (own_lt I Ho). run.
  eapply (follows_write x); try done. exists (x :: fin), y, rest.
  unfold walking. cbn [w_tail w_item w_head w_prev w_n]. rewrite contents_upd. split_and!; try done.
  - by rewrite Ho0, (reverse_cons (y :: rest)), <- app_assoc.
  - apply (linked_frame q _ (y :: rest) Ha). by destruct Hrest as [_ Hrest].
  - by rewrite Hhd.
  - by exists z.
  - rewrite Hn. unfold u64. pose proof own_length as Hlen. pose proof (geo_bound _ _ G).
    rewrite Ho0, length_app in Hlen. rewrite Z.mod_small; simpl; lia.
Qed.

Lemma fetch_last_follows w :
  thread_inv q o r (Fetching (RP_last w)) ->
  follows n q u ths b t th (run_step q (Fetching (RP_last w))).
Proof using I Ht Ho Hr G.
  intros (fin & x & Hw). destruct (walking_lt _ _ _ _ Hw) as [_ Hx].
  destruct (walking_store _ _ _ _ Hw) as [Hl _].
  destruct Hw as (Ho0 & Hr0 & Hit & Hhd & _ & _ & (z & Hz & Htl) & Hn). cbn.
  rewrite Hit, (store_next_ptr G) by by apply (own_lt I Ho). run.
  eapply (follows_write x); try done.
  - rewrite spec_run_one. simpl. rewrite Hr, Hr0. simpl. rewrite option_guard_True; [done|].
    rewrite length_fmap, Hn, Ho0. done.
  - exists 0%nat. split; [|by left]. unfold batch. rewrite contents_upd.
    cbn [r_header r_tail r_curr r_nmemb]. split_and!; try done; [lia|..].
    + exists x. by rewrite Ho0.
    + by exists z.
    + by rewrite Ho0, Hn.
Qed.

Lemma fetching_follows p :
  thread_inv q o r (Fetching p) -> follows n q u ths b t th (run_step q (Fetching p)).
Proof using I Ht Ho Hr G.
  intros Hth. destruct p as [|h|w|w|w nx|w].
  - destruct Hth as [Ho0 Hr0]. cbn. destruct (Z.eqb_spec (q_head q) TAIL_IDX) as [E|E].
    + apply (follows_local Idle [Empty] b Free); try done; [|by rewrite <- Hr0, list_insert_id].
      rewrite spec_run_one. simpl. rewrite Hr, Hr0. simpl. rewrite option_guard_True; [done|].
      rewrite (inv_pending _ _ _ _ _ _ _ _ I). by rewrite (proj1 (head_nil I) E).
    + by apply (follows_quiet (Fetching (RP_cas (q_head q)))).
  - destruct (decide (q_head q = h)) as [E|E]; [by apply fetch_take_follows|].
    destruct Hth as (Ho0 & Hr0 & _). cbn. rewrite (proj2 (Z.eqb_neq _ _) E).
    by apply (follows_quiet (Fetching RP_load)).
  - by apply fetch_test_follows.
  - by apply fetch_next_follows.
  - by apply fetch_store_follows.
  - by apply fetch_last_follows.
Qed.

(** mpmc_queue_reader_next *)
Lemma batch_curr res k :
  batch q o r res (S k) TAIL_IDX ->
  exists i v, o !! k = Some i /\ r_curr res = Some (item_ptr q i) /\ next_of q i = Some v /\
    linked q v (drop (S k) o) TAIL_IDX /\ (v = TAIL_IDX <-> S k = length o).
Proof using I Ht Ho Hr G.
  intros (_ & Hk & (h & _ & _ & Hl) & _ & Hc & _).
  destruct (lookup_lt_is_Some_2 o k) as [i Hi]; [lia|]. rewrite Hi in Hc.
  destruct (linked_nth _ _ _ _ _ _ Hl Hi) as (v & Hv & Hd). exists i, v. split_and!; try done.
  destruct (linked_first _ _ _ Hd) as [_ ->].
  - apply Forall_drop, Forall_forall. intros j Hj. pose proof (own_lt I Ho j Hj).
    pose proof (geo_bound _ _ G). unfold TAIL_IDX. lia.
  - rewrite <- length_zero_iff_nil, length_drop. lia.
Qed.

Lemma moved_follows res k i :
  batch q o r res k TAIL_IDX -> o !! k = Some i ->
  follows n q u ths b t th (Some (Done (q,
    Reading (set_curr res (item_ptr q i)) (Some (CONTENT_PTR (item_ptr q i))), [Moved]))).
Proof using I Ht Ho Hr G.
  intros Hb Hi. pose proof (lookup_lt_Some _ _ _ Hi).
  destruct Hb as (Hr0 & Hk & Hh & Hz & Hc & Hn).
  eapply (follows_local _ [Moved] (set_role b t (Holding (content_of q <$> o) (S k)))); try done.
  - rewrite spec_run_one. simpl. rewrite Hr, Hr0. simpl. rewrite option_guard_True; [done|].
    by rewrite length_fmap.
  - exists (S k). split; [|right; eauto 10]. unfold batch. cbn [r_curr set_curr r_header r_tail r_nmemb].
    rewrite Hi. split_and!; try done.
Qed.

Lemma advancing_follows res p :
  thread_inv q o r (Advancing res p) -> follows n q u ths b t th (run_step q (Advancing res p)).
Proof using I Ht Ho Hr G.
  intros (k & Hb & Hp). pose proof (geo_nmemb _ _ G) as Hnm. destruct k as [|k].
  - pose proof Hb as (_ & _ & (h & Hh & Hhd & _) & _ & Hc & _). cbn. unfold reader_next_step.
    rewrite Hc, Hhd. run. apply (moved_follows _ 0); [done|]. by rewrite <- head_lookup.
  - destruct (batch_curr _ _ Hb) as (i & v & Hi & Hc & Hv & Hd & Hend). cbn. unfold reader_next_step.
    rewrite Hc, (load_next_ptr G _ _ Hv). run. destruct p.
    + destruct (Z.eqb_spec v TAIL_IDX) as [E|E].
      * apply Hend in E. pose proof Hb as (Hr0 & _ & _ & (z & Hz & Htl) & _).
        rewrite last_lookup, <- E in Hz. simpl in Hz. assert (z = i) as -> by congruence.
        rewrite Htl, Z.eqb_refl. run.
        eapply (follows_local _ [AtEnd] b r); try done; [|by rewrite list_insert_id|].
        -- rewrite spec_run_one. simpl. rewrite Hr, Hr0. simpl. rewrite option_guard_True; [done|].
           by rewrite length_fmap.
        -- exists (S k). split; [done|by left].
      * eapply follows_quiet; [done| |done]. exists (S k). split; [done|].
        pose proof Hb as (_ & Hk & _). destruct (decide (S k = length o)); [tauto|]. lia.
    + destruct (lookup_lt_is_Some_2 o (S k)) as [j Hj]; [lia|]. rewrite (drop_S _ _ _ Hj) in Hd.
      destruct Hd as [-> _]. assert (j < n)%nat by (eapply (own_lt I Ho), list_elem_of_lookup_2, Hj).
      rewrite (proj2 (Z.ltb_lt _ _)) by lia. run. eapply follows_quiet; [done| |done]. by exists (S k).
    + destruct (lookup_lt_is_Some_2 o (S k)) as [j Hj]; [lia|]. rewrite (drop_S _ _ _ Hj) in Hd.
      destruct Hd as [-> _]. by apply (moved_follows res (S k)).
Qed.

(** mpmc_queue_reader_commit *)
Lemma release_push_follows res idx oldf newf :
  thread_inv q o r (Releasing res (RC_cas idx oldf newf)) -> q_free q = oldf ->
  follows n q u ths b t th (Some (Done (set_free q newf, Idle, [Released]))).
Proof using I Ht Ho Hr G.
  intros (k & stop & Hb & Hhd & Hh & Hpos & -> & ->) E.
  destruct Hb as (Hr0 & _ & (h & Hh' & _ & Hl) & _). simplify_eq.
  assert (idx = Z.of_nat (Z.to_nat idx)) as Hidx by lia. set (h := Z.to_nat idx) in *.
  rewrite <- Hidx in Hl. assert (h < n)%nat as Hhn.
  { apply (own_lt I Ho). apply list_elem_of_lookup. exists 0%nat. by rewrite <- head_lookup. }
  pose proof (geo_bound _ _ G). pose proof (inv_seq _ _ _ _ _ _ _ _ I) as Hs.
  rewrite (seq_bump _ Hs).
  destruct (pack_halves idx (u32 (1 + (u + 1)))) as [P1 P2]; [lia|apply u32_range|].
  exists (set_free q (pack idx (u32 (1 + (u + 1))))), Idle, [Released], (set_role b t Free),
    (o ++ fl), hl, (<[t := []]> owns). split_and!; [done|rewrite spec_run_one; simpl; by rewrite Hr|].
  cbn [set_free q_free]. rewrite (bumped I _ P2).
  assert (geometry n (set_free q (pack idx (u32 (1 + (u + 1)))))) by (destruct G; by split).
  eapply (inv_step I Ho Ht Hr); try done; cbn [set_free q_free q_head].
  - rewrite app_nil_r, (Permutation_app_comm o), <- !app_assoc. by rewrite (Permutation_app_comm o).
  - rewrite P1. apply (linked_items q); [done|]. apply linked_app. eexists. split; [done|apply I].
  - apply (linked_items q); [done|apply I].
  - apply I.
  - by right.
Qed.

Lemma releasing_follows res p :
  thread_inv q o r (Releasing res p) -> follows n q u ths b t th (run_step q (Releasing res p)).
Proof using I Ht Ho Hr G.
  intros Hth. pose proof Hth as (k & stop & Hb & Hp).
  pose proof Hb as (Hr0 & Hk & (h & Hh & Hhd & Hl) & (z & Hz & Htl) & Hc & Hn).
  assert (forall i, i ∈ o -> (i < n)%nat) as Hlt by apply (own_lt I Ho).
  assert (h < n)%nat as Hhn.
  { apply Hlt, list_elem_of_lookup. exists 0%nat. by rewrite <- head_lookup. }
  destruct p as [|idx|idx oldf|idx oldf newf]; cbn.
  - rewrite Hhd, (u32_ITEM_IDX G) by done.
    rewrite (proj2 (Z.ltb_lt _ _)) by (rewrite (geo_nmemb _ _ G); lia). run.
    eapply follows_quiet; [done| |done]. exists k, stop. rewrite Nat2Z.id. split_and!; try done. lia.
  - eapply follows_quiet; [done| |done]. by exists k, stop.
  - destruct Hp as (Hp1 & Hp2 & Hp3). apply last_Some in Hz as [o' Ho'].
    assert (z ∈ o) as Hzo by (rewrite Ho'; set_solver).
    rewrite Htl, (store_next_ptr G) by auto. run.
    eapply (follows_write z); try done. exists k, (free_index oldf). split; [|by split_and!].
    unfold batch. rewrite contents_upd. split_and!; try done.
    + exists h. split_and!; try done. rewrite Ho'. eapply linked_redirect; [|by rewrite <- Ho'].
      rewrite <- Ho'. apply (own_nodup I Ho).
    + exists z. split; [|done]. by rewrite Ho', last_snoc.
  - destruct (Z.eqb_spec (q_free q) oldf) as [E|E].
    + by apply (release_push_follows res idx oldf).
    + destruct Hp as (Hp1 & Hp2 & Hp3 & _). eapply follows_quiet; [done| |done]. by exists k, stop.
Qed.

(** ** Every step of a thread *)

Lemma mpmc_fill_follows bs ptr :
  thread_inv q o r (Writing ptr) -> Z.of_nat (length bs) = q_item_size q ->
  follows n q u ths b t th (Some (q' ← write_content q ptr bs; Done (q', Writing ptr, []))).
Proof using I Ht Ho Hr G.
  intros (i & [Ho0 Hr0] & -> & Hnx) Hbs.
  assert (i ∈ o) as Hi by (rewrite Ho0; set_solver).
  rewrite (write_content_ptr G) by (try done; by apply (own_lt I Ho)). run.
  exists (upd_content q i bs), (Writing (CONTENT_PTR (item_ptr q i))), [], b, fl, hl, owns.
  split_and!; try done. cbn [upd_content set_items q_free]. rewrite Z.eqb_refl.
  eapply (inv_private I Ho Ht Hr); try done.
  - by rewrite length_alter.
  - intros j Hj. apply list_lookup_alter_ne. by intros ->.
  - by rewrite list_insert_id.
  - exists i. split_and!; try done. revert Hnx. unfold next_of. cbn [set_items q_items].
    rewrite list_lookup_alter_eq. by destruct (q_items q !! i).
Qed.

Lemma client_follows a m :
  thread_inv q o r (t_pc th) -> stamp_inv q u th ->
  admissible (Shared q u) th -> client_step a q (t_pc th) = Some m ->
  follows n q u ths b t th (Some m).
Proof using I Ht Ho Hr G.
  intros Hth Hst Hadm Hm. unfold admissible in Hadm.
  destruct (t_pc th) as [|p|ptr|ptr p|p|res seen|res p|res p] eqn:Hpc; destruct a;
    cbn [client_step] in Hm; try discriminate Hm; try (injection Hm as <-).
  - by apply (follows_quiet (Preparing WP_load)).
  - by apply (follows_quiet (Fetching RP_load)).
  - destruct p as [|oldf|oldf newf|ret].
    + by apply prepare_load_follows.
    + by apply prepare_next_follows.
    + by apply prepare_cas_follows.
    + by apply prepare_mark_follows.
  - case_decide; [|done]. injection Hm as <-. by apply mpmc_fill_follows.
  - eapply follows_quiet; [done| |done]. destruct Hth as (i & ? & ? & ?). by exists i.
  - by apply committing_follows.
  - by apply fetching_follows.
  - destruct Hth as (k & Hb & _). eapply follows_quiet; [done| |done]. by exists k.
  - destruct seen as [ptr|]; [|done]. injection Hm as <-.
    destruct Hth as (k & Hb & [Hs|(k' & i & -> & Hi & [= ->])]); [done|].
    assert (i < n)%nat by (eapply (own_lt I Ho), list_elem_of_lookup_2, Hi).
    rewrite (read_content_ptr G) by done. run.
    pose proof Hb as (Hr0 & _).
    eapply (follows_local _ _ b r); [done| |done|by rewrite list_insert_id| |done].
    + rewrite spec_run_one. simpl. rewrite Hr, Hr0. simpl. rewrite option_guard_True; [done|].
      by rewrite list_lookup_fmap, Hi.
    + exists (S k'). split; [done|]. right. eauto 10.
  - destruct Hth as (k & Hb & _). eapply follows_quiet; [done| |done]. by exists k, TAIL_IDX.
  - by apply advancing_follows.
  - by apply releasing_follows.
Qed.
End functions.
