(* ===== verification/MpmcSystem.v ===== *)
(** * The lock-free queue as a system

    A created queue satisfies the invariant of file MpmcProof, so every
    interleaving of any number of threads refines the bounded queue; a thread
    that runs alone finishes its call; and the 32-bit update counter of the
    word [free] is what the compare-and-swap of a producer depends on. *)

From S2P Require Import Prelude Interleave MpmcQueue MpmcProof.
Import Mpmc.

(** ** Creation *)

(** The bytes an item takes. *)
Definition item_bytes (size : Z) : Z := (size + 11) / 8 * 8.

(** The memory of the queue fits in the address space. *)
Definition fits (nmemb size : Z) : Prop :=
  0 < nmemb < 2 ^ 32 /\ 0 < size /\ sizeof_queue + item_bytes size * nmemb < 2 ^ 64.

#[export] Instance fits_dec nmemb size : Decision (fits nmemb size).
Proof. unfold fits. apply _. Defined.

Lemma geometry_upd n q i v : geometry n q -> geometry n (upd_next q i v).
Proof. intros [G1 G2 G3 G4]. split; try done. cbn. by rewrite length_alter. Qed.

(** The free stack after the linking loop and after the last store. *)
Definition chained (q : mpmc_queue) (i : nat) : Prop :=
  forall j, (j < i)%nat -> next_of q j = Some (Z.of_nat (S j)).

Lemma link_free_spec n q :
  geometry n q -> (0 < n)%nat ->
  returns (link_free q (n - 1)) (fun q' => geometry n q' /\ chained q' (n - 1) /\
    q_size q' = q_size q /\ q_head q' = q_head q /\ q_free q' = q_free q).
Proof.
  intros G Hn. unfold link_free.
  apply (for_range_inv (fun i q' => geometry n q' /\ chained q' i /\
    q_size q' = q_size q /\ q_head q' = q_head q /\ q_free q' = q_free q)).
  { split_and!; try done. intros j Hj. lia. }
  intros i q' Hi (G' & Hc & Hs). fold (item_ptr q' i).
  rewrite (store_next_ptr G') by lia. apply returns_Done. split_and!; try apply Hs.
  - by apply geometry_upd.
  - intros j Hj. rewrite next_upd. case_decide as Hij.
    + subst j. destruct (item_at G' i) as [it Hit]; [lia|]. unfold next_of. rewrite Hit.
      simpl. f_equal. lia.
    + apply Hc. lia.
Qed.

Lemma chained_linked q n i :
  chained q n -> next_of q n = Some TAIL_IDX -> (i <= n)%nat ->
  linked q (Z.of_nat i) (seq i (S n - i)) TAIL_IDX.
Proof.
  intros Hc Hn. remember (n - i)%nat as d eqn:Hd. revert i Hd.
  induction d as [|d IH]; intros i Hd Hi.
  - assert (i = n) as -> by lia. replace (S n - n)%nat with 1%nat by lia. simpl. eauto.
  - replace (S n - i)%nat with (S (S n - S i)) by lia. simpl. split; [done|].
    exists (Z.of_nat (S i)). split; [apply Hc; lia|]. apply IH; lia.
Qed.

Lemma mpmc_create_spec nmemb size k :
  fits nmemb size ->
  returns (mpmc_queue_create true nmemb size) (fun res => exists q, res = inl q /\
    inv (Z.to_nat nmemb) q 0 (replicate k (Thread Idle 0)) (Bqueue [] (replicate k Free))
      (seq 0 (Z.to_nat nmemb)) [] (replicate k [])).
Proof.
  intros (Hn & Hs & Hfit). set (n := Z.to_nat nmemb). unfold sizeof_queue, item_bytes in Hfit.
  unfold mpmc_queue_create, sizeof_queue, sizeof_item.
  rewrite (proj2 (Z.eqb_neq nmemb 0)), (proj2 (Z.eqb_neq size 0)) by lia. cbn [orb negb].
  replace (size + 4 + 7) with (size + 11) by lia.
  set (isz := (size + 11) / 8 * 8) in *. assert (0 < isz) as Hisz by (subst isz; lia_div).
  assert (isz <= isz * nmemb) by nia. assert (size + 11 < 2 ^ 64) as Hsz by (subst isz; lia_div).
  assert (u64 (u64 (size + 11) / 8 * 8) = isz) as ->.
  { unfold u64. rewrite (Z.mod_small (size + 11)) by lia. fold isz. apply Z.mod_small. nia. }
  assert (u64 (192 + u64 (isz * nmemb)) = 192 + isz * nmemb) as ->.
  { unfold u64. rewrite (Z.mod_small (isz * nmemb)) by nia. apply Z.mod_small. nia. }
  rewrite (proj2 (Z.ltb_ge _ _)) by nia. rewrite (proj2 (Z.ltb_ge (2 ^ 32) nmemb)) by lia.
  set (q0 := Queue _ _ _ _ _ _). assert (geometry n q0) as G0.
  { split; cbn; try lia. rewrite length_replicate. unfold offsetof_items.
    assert (nmemb <= (192 + isz * nmemb - 136) / isz) by (apply Z.div_le_lower_bound; lia). lia. }
  destruct (link_free_spec n q0 G0) as (q1 & Hq1 & G1 & Hc1 & _ & Hh1 & _); [lia|].
  replace (Z.to_nat (nmemb - 1)) with (n - 1)%nat by lia. rewrite Hq1. run.
  replace (nmemb - 1) with (Z.of_nat (n - 1)) by lia. fold (item_ptr q1 (n - 1)).
  rewrite (store_next_ptr G1) by lia. run. apply returns_Done. eexists. split; [done|].
  set (q2 := upd_next q1 (n - 1) TAIL_IDX).
  assert (linked q2 0 (seq 0 n) TAIL_IDX) as Hl.
  { replace n with (S (n - 1) - 0)%nat at 1 by lia. apply (chained_linked q2 (n - 1) 0); [| |lia].
    - intros j Hj. unfold q2. rewrite next_upd, decide_False by lia. by apply Hc1.
    - unfold q2. rewrite next_upd, decide_True by done.
      destruct (item_at G1 (n - 1)) as [it Hit]; [lia|]. unfold next_of. by rewrite Hit. }
  assert (mjoin (replicate k []) = @nil nat) as Hj by (clear; by induction k).
  split; try done.
  - by destruct (geometry_upd _ _ (n - 1) TAIL_IDX G1).
  - by rewrite Hj, !app_nil_r.
  - apply (linked_items q2); [done|exact Hl].
  - by rewrite !length_replicate.
  - cbn [b_roles]. by rewrite !length_replicate.
  - intros t th o r Ht Ho Hr. apply lookup_replicate in Ht as [-> _].
    apply lookup_replicate in Ho as [-> _]. by apply lookup_replicate in Hr as [-> _].
Qed.

(** ** Refinement *)

Definition related (n : nat) (s : sys shared thread) (b : bqueue) : Prop :=
  exists fl hl owns, inv n (s_queue (Interleave.shared s)) (s_updates (Interleave.shared s))
    (locals s) b fl hl owns.

Section related.
Context {n : nat} {q : mpmc_queue} {u : Z} {ths : list thread} {b : bqueue}
        (HR : related n (Sys (Shared q u) ths) b).

(** A step of a thread of a related system succeeds and is followed. *)
Lemma mpmc_related_thread t th a m :
  ths !! t = Some th -> admissible (Shared q u) th -> client_step a q (t_pc th) = Some m ->
  follows n q u ths b t th (Some m).
Proof using HR.
  destruct HR as (fl & hl & owns & I). cbn in I. intros Ht Hadm Hm.
  destruct (lookup_lt_is_Some_2 owns t) as [o Ho].
  { rewrite (inv_owns _ _ _ _ _ _ _ _ I). by eapply lookup_lt_Some. }
  destruct (lookup_lt_is_Some_2 (b_roles b) t) as [r Hr].
  { rewrite (inv_roles _ _ _ _ _ _ _ _ I). by eapply lookup_lt_Some. }
  destruct (inv_threads _ _ _ _ _ _ _ _ I _ _ _ _ Ht Ho Hr) as [Hth Hst].
  eapply (client_follows I Ho Ht Hr); eauto.
Qed.
End related.

Lemma mpmc_related_step n s b es s' :
  related n s b -> step thread_step admissible s es s' ->
  exists b', spec_run (bqueue_step (Z.of_nat n)) b es = Some b' /\ related n s' b'.
Proof.
  intros HR Hs. destruct Hs as [t a [q u] ths th s1 th1 es Ht Hadm Hst].
  unfold thread_step in Hst. cbn [s_queue s_updates] in Hst.
  destruct (client_step a q (t_pc th)) as [m|] eqn:Hm; [|done]. cbn in Hst.
  destruct (mpmc_related_thread HR t th a m Ht Hadm Hm)
    as (q' & p' & es' & b' & fl' & hl' & owns' & [= ->] & Hsp & I').
  cbn in Hst. injection Hst as <- <- <-. exists b'. split; [done|]. by exists fl', hl', owns'.
Qed.

Lemma mpmc_related_safe n s b : related n s b -> never_aborts thread_step admissible s.
Proof.
  intros HR t a th Ht Hadm. destruct s as [[q u] ths]. unfold thread_step.
  destruct (client_step a _ (t_pc th)) as [m|] eqn:Hm; [|done].
  destruct (mpmc_related_thread HR t th a m Ht Hadm Hm) as (q' & p' & es' & ? & ? & ? & ? & [= ->] & _).
  done.
Qed.

Lemma related_start nmemb size k q :
  fits nmemb size -> mpmc_queue_create true nmemb size = Done (inl q) ->
  related (Z.to_nat nmemb) (start q k) (Bqueue [] (replicate k Free)).
Proof.
  intros Hf Hq. destruct (mpmc_create_spec nmemb size k Hf) as (res & Hres & q' & -> & I).
  rewrite Hq in Hres. simplify_eq. by exists (seq 0 (Z.to_nat nmemb)), [], (replicate k []).
Qed.

Lemma mpmc_related_steps nmemb size k q tr s :
  fits nmemb size -> mpmc_queue_create true nmemb size = Done (inl q) ->
  steps thread_step admissible (start q k) tr s ->
  exists b, spec_run (bqueue_step nmemb) (Bqueue [] (replicate k Free)) tr = Some b /\
    related (Z.to_nat nmemb) s b.
Proof.
  intros Hf Hq Hs. pose proof (related_start _ _ k _ Hf Hq) as HR.
  assert (Z.of_nat (Z.to_nat nmemb) = nmemb) as E by (destruct Hf; lia).
  refine (simulation thread_step admissible (bqueue_step _) (related _) _ _ _ _ _ HR Hs).
  intros s0 b0 es s1 H0 H1. pose proof (mpmc_related_step _ _ _ _ _ H0 H1) as H2. by rewrite E in H2.
Qed.

(** C7: the lock-free queue of mpmc_queue.c, for any capacity whose memory
    fits, any number of producer and consumer threads and any interleaving of
    their single memory accesses, refines a bounded queue with batch
    consumers.  Creation succeeds; every trace of reservations, commits,
    batches, reads and releases is one the bounded queue accepts, so each
    committed element is delivered to exactly one consumer, unchanged and in
    commit order, a producer is told that there is no room only when all slots
    are in use, and no QUEUE_ASSERT fails and no access leaves the items. *)
Theorem mpmc_refines nmemb size k :
  fits nmemb size ->
  exists q, mpmc_queue_create true nmemb size = Done (inl q) /\
    forall tr s, steps thread_step admissible (start q k) tr s ->
      is_Some (spec_run (bqueue_step nmemb) (Bqueue [] (replicate k Free)) tr) /\
      never_aborts thread_step admissible s.
Proof.
  intros Hf. destruct (mpmc_create_spec nmemb size 0 Hf) as (res & Hres & q & -> & _).
  exists q. split; [done|]. intros tr s Hs.
  destruct (mpmc_related_steps _ _ _ _ _ _ Hf Hres Hs) as (b & Hb & HR).
  split; [by exists b|by eapply mpmc_related_safe].
Qed.

(** Two producers and a consumer share two slots. *)
Definition mpmc_demo : list (nat * action) :=
  let produce t bs := [(t, CallWriterPrepare); (t, Run); (t, Run); (t, Run); (t, Run); (t, Fill bs);
                       (t, CallWriterCommit); (t, Run); (t, Run); (t, Run); (t, Run)] in
  produce 0%nat [1; 2] ++ [(1%nat, CallWriterPrepare); (1%nat, Run)] ++ produce 2%nat [3; 4] ++
  [(1%nat, Run); (1%nat, Run); (1%nat, Run)] ++
  [(0%nat, CallReaderPrepare); (0%nat, Run); (0%nat, Run); (0%nat, Run); (0%nat, Run); (0%nat, Run);
   (0%nat, Run); (0%nat, Run); (0%nat, CallReaderNext); (0%nat, Run); (0%nat, Look);
   (0%nat, CallReaderNext); (0%nat, Run); (0%nat, Run); (0%nat, Run); (0%nat, Look);
   (0%nat, CallReaderNext); (0%nat, Run)].

Definition mpmc_demo_queue : mpmc_queue :=
  match mpmc_queue_create true 2 2 with
  | Done (inl q) => q
  | _ => Queue 0 0 0 0 0 []
  end.

Definition mpmc_demo_run := run_schedule thread_step admissible (start mpmc_demo_queue 3) mpmc_demo.
Definition mpmc_demo_end := from_option fst (start mpmc_demo_queue 3) mpmc_demo_run.

Lemma mpmc_refines_witness :
  fits 2 2 /\
  run_schedule thread_step admissible (start mpmc_demo_queue 3) mpmc_demo = Some (mpmc_demo_end,
         [(0%nat, Reserved); (0%nat, Enqueued [1; 2]); (2%nat, Reserved); (2%nat, Enqueued [3; 4]);
          (1%nat, NoRoom); (0%nat, Took); (0%nat, Fetched 2); (0%nat, Moved); (0%nat, Saw [1; 2]);
          (0%nat, Moved); (0%nat, Saw [3; 4]); (0%nat, AtEnd)]) /\
  never_aborts thread_step admissible mpmc_demo_end.
Proof.
  assert (fits 2 2) as Hf by by_compute. split; [done|].
  destruct (mpmc_refines 2 2 3 Hf) as (q & Hq & H).
  assert (q = mpmc_demo_queue) as -> by (unfold mpmc_demo_queue; by rewrite Hq).
  refine ((fun Hr => conj Hr (proj2 (H _ _ (run_schedule_steps _ _ _ _ _ _ Hr)))) _).
  vm_compute. reflexivity.
Defined.

(** ** The queries *)

Lemma count_used_linked n q l : forall fuel h,
  geometry n q -> linked q h l TAIL_IDX -> Forall (fun i => Z.of_nat i < TAIL_IDX) l ->
  (length l <= fuel)%nat -> count_used q fuel h = Done (Z.of_nat (length l)).
Proof.
  induction l as [|i l IH]; intros [|fuel] h G Hl Hlt Hf; cbn [length count_used] in *; try lia; try done.
  - simpl in Hl. by rewrite Hl, Z.eqb_refl.
  - destruct Hl as [-> (v & Hv & Hl)]. inversion_clear Hlt.
    rewrite (proj2 (Z.eqb_neq _ _)) by lia. fold (item_ptr q i). rewrite (load_next_ptr G _ _ Hv). run.
    rewrite IH by (done || lia). run. f_equal. lia.
Qed.

(** What the queries answer in a state of the system: exact for empty and
    full, and for the room only the elements that are waiting are counted, not
    the slots being written or read. *)
Lemma mpmc_queries n s b :
  related n s b ->
  let q := Some (s_queue (Interleave.shared s)) in
  (mpmc_queue_empty q = true <-> b_pending b = []) /\
  (mpmc_queue_full q = true <-> used b = n) /\ mpmc_queue_capacity q = Z.of_nat n /\
  mpmc_queue_available q = Done (Z.of_nat n - Z.of_nat (length (b_pending b))).
Proof.
  intros (fl & hl & owns & I). cbn [mpmc_queue_empty mpmc_queue_full mpmc_queue_capacity mpmc_queue_available].
  pose proof (used_free I) as Hu. pose proof (geo_nmemb _ _ (inv_geo _ _ _ _ _ _ _ _ I)) as Hn.
  pose proof (geo_bound _ _ (inv_geo _ _ _ _ _ _ _ _ I)) as Hb.
  assert (length (b_pending b) = length hl) as Hp
    by (rewrite (inv_pending _ _ _ _ _ _ _ _ I), length_fmap, length_reverse; done).
  assert (length hl <= n)%nat as Hle.
  { pose proof (Permutation_length (inv_part _ _ _ _ _ _ _ _ I)) as Hl.
    rewrite !length_app, length_seq in Hl. lia. }
  rewrite !Z.eqb_eq, (head_nil I), (free_nil I), Hn, Hp.
  rewrite <- (length_zero_iff_nil (b_pending b)), Hp, length_zero_iff_nil.
  split_and!; [done| |done|].
  - rewrite <- length_zero_iff_nil. lia.
  - destruct (Z.eqb_spec (q_head (s_queue (Interleave.shared s))) TAIL_IDX) as [E|E].
    + apply (head_nil I) in E. rewrite E. simpl. f_equal. lia.
    + rewrite Nat2Z.id. erewrite count_used_linked; [|apply I|apply I|by apply (stack_lt I); right|done].
      run. f_equal. apply Z.mod_small. lia.
Qed.

(** ** Progress *)

(** The client decides what happens next. *)
Definition between_calls (p : pc) : bool :=
  match p with Idle | Writing _ | Reading _ _ => true | _ => false end.

(** A thread runs alone until its call returns. *)
Fixpoint finish (fuel : nat) (s : shared) (th : thread) : option (shared * thread) :=
  if between_calls (t_pc th) then Some (s, th) else
  match fuel with
  | O => None
  | S fuel' =>
      match thread_step Run s th with
      | Some (Done (s', th', _)) => finish fuel' s' th'
      | _ => None
      end
  end.

(** The steps left: a compare-and-swap whose word has changed costs a retry. *)
Definition cost (n : Z) (q : mpmc_queue) (p : pc) : Z :=
  match p with
  | Idle | Writing _ | Reading _ _ => 0
  | Preparing WP_load => 4
  | Preparing (WP_next f) => if q_free q =? f then 3 else 6
  | Preparing (WP_cas f _) => if q_free q =? f then 2 else 5
  | Preparing (WP_mark _) => 1
  | Committing _ (WC_check _) => 4
  | Committing _ (WC_load _ _) => 3
  | Committing _ (WC_link _ _ h) => if q_head q =? h then 2 else 5
  | Committing _ (WC_cas _ _ h) => if q_head q =? h then 1 else 4
  | Fetching RP_load => 3 * n + 1
  | Fetching (RP_cas h) => if q_head q =? h then 3 * n else 3 * n + 2
  | Fetching (RP_test w) => 3 * (n - w_n w) + 2
  | Fetching (RP_next w) => 3 * (n - w_n w) + 1
  | Fetching (RP_store w _) => 3 * (n - w_n w)
  | Fetching (RP_last _) => 1
  | Advancing _ RN_start => 3
  | Advancing _ RN_check => 2
  | Advancing _ RN_move => 1
  | Releasing _ RC_check => 4
  | Releasing _ (RC_load _) => 3
  | Releasing _ (RC_link _ f) => if q_free q =? f then 2 else 5
  | Releasing _ (RC_cas _ f _) => if q_free q =? f then 1 else 4
  end.

Lemma store_next_words q ptr v q' :
  store_next q ptr v = Done q' -> q_head q' = q_head q /\ q_free q' = q_free q.
Proof.
  unfold store_next. intros H. apply bind_Done_inv in H as (i & _ & H).
  apply bind_Done_inv in H as (it & _ & H). apply bind_Done_inv in H as (l & _ & H).
  by injection H as <-.
Qed.

(** What the walk knows of its length. *)
Definition walk_ok (n : Z) (p : pc) : Prop :=
  match p with
  | Fetching (RP_test w | RP_last w) => 1 <= w_n w <= n
  | Fetching (RP_next w | RP_store w _) => 1 <= w_n w < n
  | _ => True
  end.

(** Opens the branches of a step that succeeds. *)
Ltac open_step H :=
  repeat (match type of H with
    | context [if ?c then _ else _] => let E := fresh "E" in destruct c eqn:E
    | context [load_next ?q ?x] => destruct (load_next q x)
    | context [store_next ?q ?x ?v] => let E := fresh "Hst" in destruct (store_next q x v) eqn:E
    | context [read_content ?x ?v] => destruct (read_content x v)
    | context [r_curr ?x] => destruct (r_curr x)
    end; cbn [mbind exec_bind mret exec_ret] in H; try discriminate H);
  injection H as <- <- <-;
  cbn [cost w_n set_free set_head q_head q_free] in *;
  try match goal with E : store_next _ _ _ = Done _ |- _ =>
        let E' := fresh "E" in apply store_next_words in E as [E E']; rewrite ?E, ?E' in * end;
  rewrite ?Z.eqb_refl;
  repeat match goal with
    | E : (?a =? ?b) = _ |- context [?a =? ?b] => rewrite E
    | |- context [?a =? ?b] => destruct (a =? b)
    end.

(** Every step of a function in progress costs at least one. *)
Lemma run_step_cost n q p q' p' es :
  walk_ok n p -> 1 <= n < 2 ^ 32 -> run_step q p = Some (Done (q', p', es)) ->
  cost n q' p' < cost n q p.
Proof.
  intros Hw Hn H.
  destruct p as [|[]|ptr|ptr []|[|h|w|w|w nx|w]|res seen|res []|res []]; cbn [run_step] in H;
    try discriminate H; apply (inj Some) in H;
    unfold writer_prepare_step, writer_commit_step, reader_prepare_step, reader_commit_step,
      reader_next_step, assert in H;
    cbn [mbind exec_bind mret exec_ret] in H; cbn [walk_ok] in Hw.
  all: open_step H; unfold u64; rewrite ?Z.mod_small by lia; lia.
Qed.

Lemma cost_nonneg n q p : 1 <= n -> walk_ok n p -> 0 <= cost n q p.
Proof.
  intros Hn Hw. destruct p as [|[]|ptr|ptr []|[|h|w|w|w nx|w]|res seen|res []|res []];
    cbn [cost walk_ok] in *; try (destruct (_ =? _)); lia.
Qed.

Lemma cost_bound n q p : 1 <= n -> walk_ok n p -> cost n q p <= 3 * n + 6.
Proof.
  intros Hn Hw. destruct p as [|[]|ptr|ptr []|[|h|w|w|w nx|w]|res seen|res []|res []];
    cbn [cost walk_ok] in *; try (destruct (_ =? _)); lia.
Qed.

(** A thread that runs alone stays within the reach of the update counter. *)
Lemma run_step_admissible q u th q' p' es u' :
  admissible (Shared q u) th -> run_step q (t_pc th) = Some (Done (q', p', es)) ->
  (q_free q' = q_free q -> u' = u) ->
  admissible (Shared q' u') (Thread p' (restamp u th)).
Proof.
  unfold admissible, restamp. cbn [t_pc t_stamp s_updates]. intros Hadm H Hu.
  destruct (t_pc th) as [|[]|ptr|ptr []|[|h|w|w|w nx|w]|res seen|res []|res []]; cbn [run_step] in H;
    try discriminate H; apply (inj Some) in H;
    unfold writer_prepare_step, writer_commit_step, reader_prepare_step, reader_commit_step,
      reader_next_step, assert in H;
    cbn [mbind exec_bind mret exec_ret] in H.
  all: open_step H; try done; rewrite Hu; lia.
Qed.

Lemma related_walk n s b t th :
  related n s b -> locals s !! t = Some th -> walk_ok (Z.of_nat n) (t_pc th).
Proof.
  intros (fl & hl & owns & I) Ht.
  destruct (lookup_lt_is_Some_2 owns t) as [o Ho].
  { rewrite (inv_owns _ _ _ _ _ _ _ _ I). by eapply lookup_lt_Some. }
  destruct (lookup_lt_is_Some_2 (b_roles b) t) as [r Hr].
  { rewrite (inv_roles _ _ _ _ _ _ _ _ I). by eapply lookup_lt_Some. }
  destruct (inv_threads _ _ _ _ _ _ _ _ I _ _ _ _ Ht Ho Hr) as [Hth _].
  pose proof (own_length I Ho) as Hlen.
  assert (forall w fin x rest, walking (s_queue (Interleave.shared s)) o r w fin x rest ->
    w_n w = 1 + Z.of_nat (length fin) /\ (length rest + 1 + length fin <= n)%nat) as Hw.
  { intros w fin x rest (Ho0 & _ & _ & _ & _ & _ & _ & ->). split; [lia|].
    rewrite Ho0, length_app, length_reverse in Hlen. simpl in Hlen. lia. }
  destruct (t_pc th) as [|p|ptr|ptr p|[|h|w|w|w nx|w]|res seen|res p|res p]; cbn in Hth |- *; try done.
  - destruct Hth as (fin & x & rest & H). apply Hw in H. lia.
  - destruct Hth as (fin & x & y & rest & H). apply Hw in H. simpl in H. lia.
  - destruct Hth as (fin & x & y & rest & H & _). apply Hw in H. simpl in H. lia.
  - destruct Hth as (fin & x & H). apply Hw in H. lia.
Qed.

Lemma related_finish n t fuel : forall q u ths b th,
  (0 < n)%nat -> Z.of_nat n < 2 ^ 32 ->
  related n (Sys (Shared q u) ths) b -> ths !! t = Some th -> admissible (Shared q u) th ->
  cost (Z.of_nat n) q (t_pc th) <= Z.of_nat fuel ->
  exists s' th', finish fuel (Shared q u) th = Some (s', th') /\ between_calls (t_pc th') = true.
Proof.
  induction fuel as [|fuel IH]; intros q u ths b th Hn Hn' HR Ht Hadm Hc.
  all: pose proof (related_walk _ _ _ _ _ HR Ht) as Hw; cbn [finish];
    destruct (between_calls (t_pc th)) eqn:Hb; [by eauto|].
  all: assert (exists m, run_step q (t_pc th) = Some m) as [m Hm]
    by (destruct (t_pc th); try discriminate Hb; cbn [run_step]; eauto).
  all: destruct (mpmc_related_thread HR t th Run m Ht Hadm Hm)
    as (q' & p' & es & b' & fl' & hl' & owns' & E & Hsp & I'); apply (inj Some) in E as ->.
  all: pose proof (run_step_cost (Z.of_nat n) q _ _ _ _ Hw ltac:(lia) Hm) as Hlt.
  all: assert (related n (Sys (Shared q' (if q_free q' =? q_free q then u else u + 1))
         (<[t := Thread p' (restamp u th)]> ths)) b') as HR' by by exists fl', hl', owns'.
  all: assert (<[t := Thread p' (restamp u th)]> ths !! t = Some (Thread p' (restamp u th))) as Ht'
    by (apply list_lookup_insert_eq; by eapply lookup_lt_Some).
  all: pose proof (cost_nonneg (Z.of_nat n) q' p' ltac:(lia) (related_walk _ _ _ _ _ HR' Ht')).
  - lia.
  - unfold thread_step. cbn [client_step s_queue]. rewrite Hm. cbn [mbind option_bind exec_bind].
    eapply (IH _ _ _ b' _ Hn Hn' HR' Ht'); [|cbn [t_pc]; lia].
    eapply run_step_admissible; eauto. intros ->. by rewrite Z.eqb_refl.
Qed.

(** C11: the lock-free queue makes progress: in every state any number of
    threads can reach, a thread that is left to run alone, wherever it is in
    mpmc_queue_writer_prepare, writer_commit, reader_prepare, reader_next or
    reader_commit and whatever the others have done to the words it read,
    returns within three steps per slot of the queue and six more. *)
Theorem mpmc_solo_progress nmemb size k q tr s t th :
  fits nmemb size -> mpmc_queue_create true nmemb size = Done (inl q) ->
  steps thread_step admissible (start q k) tr s ->
  locals s !! t = Some th -> admissible (Interleave.shared s) th ->
  exists s' th', finish (3 * Z.to_nat nmemb + 6) (Interleave.shared s) th = Some (s', th') /\
    between_calls (t_pc th') = true.
Proof.
  intros Hf Hq Hs Ht Hadm. destruct (mpmc_related_steps _ _ _ _ _ _ Hf Hq Hs) as (b & _ & HR).
  destruct Hf as (Hn & _). destruct s as [[q' u'] ths].
  pose proof (related_walk _ _ _ _ _ HR Ht) as Hw.
  eapply (related_finish (Z.to_nat nmemb)); eauto; [lia|lia|].
  pose proof (cost_bound (Z.of_nat (Z.to_nat nmemb)) q' (t_pc th) ltac:(lia) Hw). lia.
Qed.

(** Thread 1 of the demonstration, stopped after reading [free] while the
    other producer takes the last slot, still returns. *)
Definition mpmc_race : list (nat * action) := take 13 mpmc_demo ++ take 5 (drop 13 mpmc_demo).

Definition mpmc_race_run := run_schedule thread_step admissible (start mpmc_demo_queue 3) mpmc_race.
Definition mpmc_race_end := from_option fst (start mpmc_demo_queue 3) mpmc_race_run.
Definition mpmc_race_trace := from_option snd [] mpmc_race_run.

Lemma mpmc_solo_progress_witness :
  exists th, locals mpmc_race_end !! 1%nat = Some th /\
    t_pc th = Preparing (WP_next (pack 1 2)) /\ q_free (s_queue (Interleave.shared mpmc_race_end)) <> pack 1 2 /\
    exists s' th', finish (3 * Z.to_nat 2 + 6) (Interleave.shared mpmc_race_end) th = Some (s', th') /\
      between_calls (t_pc th') = true.
Proof.
  exists (Thread (Preparing (WP_next (pack 1 2))) 1).
  assert (locals mpmc_race_end !! 1%nat = Some (Thread (Preparing (WP_next (pack 1 2))) 1)) as Ht
    by (vm_compute; reflexivity).
  split; [exact Ht|]. split; [reflexivity|]. split; [vm_compute; discriminate|].
  assert (run_schedule thread_step admissible (start mpmc_demo_queue 3) mpmc_race =
          Some (mpmc_race_end, mpmc_race_trace)) as Hr by (vm_compute; reflexivity).
  refine (mpmc_solo_progress 2 2 3 mpmc_demo_queue _ _ 1 _ _ _ (run_schedule_steps _ _ _ _ _ _ Hr) Ht _).
  - by_compute.
  - vm_compute; reflexivity.
  - vm_compute. reflexivity.
Defined.
