(* ===== verification/SpscQueue.v ===== *)
(** * The single-producer single-consumer queue of src/demo/queue/spsc_queue.c

    A ring of [capacity + 1] elements and two 64-bit positions that only grow:
    the producer owns [write_pos], the consumer [read_pos].  As in file
    MpmcQueue each function is a machine whose steps are its atomic loads and
    stores, and the two threads are interleaved in any order.  A failing
    SQUEUE_ASSERT and an access outside the buffer are [Fault]. *)

From S2P Require Import Prelude Interleave.

(** ** next_power_of_2, shared with src/demo/queue/ringbuffer.c *)

Definition smear (n w : Z) : Z := Z.lor n (Z.shiftr n w).

Definition next_power_of_2 (n : Z) : Z :=
  if n =? 0 then 1 else
  let n := u32 (n - 1) in
  let n := smear n 1 in
  let n := smear n 2 in
  let n := smear n 4 in
  let n := smear n 8 in
  let n := smear n 16 in
  u32 (n + 1).

(** Bit [i] of [x] says whether [m] has a bit set among [w] from [i] on. *)
Definition window (m x w : Z) : Prop :=
  forall i, 0 <= i -> Z.testbit x i = true <-> exists j, i <= j < i + w /\ Z.testbit m j = true.

Lemma window_smear m x w : 0 < w -> window m x w -> window m (smear x w) (2 * w).
Proof.
  intros Hw H i Hi. unfold smear. rewrite Z.lor_spec, Z.shiftr_spec, orb_true_iff by done.
  rewrite (H i), (H (i + w)) by lia. split.
  - intros [(j & ? & ?)|(j & ? & ?)]; exists j; (split; [lia|done]).
  - intros (j & Hj & Hb). destruct (decide (j < i + w)); [left|right]; exists j; (split; [lia|done]).
Qed.

Lemma window_full m x : 0 < m < 2 ^ 32 -> 0 <= x -> window m x 32 -> x = 2 ^ (Z.log2 m + 1) - 1.
Proof.
  intros Hm Hx H. assert (Z.log2 m < 32) by (apply Z.log2_lt_pow2; lia).
  pose proof (Z.log2_nonneg m).
  replace (2 ^ (Z.log2 m + 1) - 1) with (Z.ones (Z.log2 m + 1)) by (rewrite Z.ones_equiv; lia).
  apply Z.bits_inj'. intros i Hi. destruct (decide (i < Z.log2 m + 1)).
  - rewrite Z.ones_spec_low by lia. apply H; [lia|]. exists (Z.log2 m). split; [lia|].
    apply Z.bit_log2. lia.
  - rewrite Z.ones_spec_high by lia. apply not_true_is_false. rewrite (H i Hi).
    intros (j & Hj & Hb). rewrite Z.bits_above_log2 in Hb by lia. done.
Qed.

Lemma smear_nonneg n w : 0 <= n -> 0 <= smear n w.
Proof. intros. apply Z.lor_nonneg. split; [done|]. by apply Z.shiftr_nonneg. Qed.

Lemma next_power_of_2_log2 n :
  1 <= n < 2 ^ 32 -> next_power_of_2 n = u32 (2 ^ Z.log2_up n).
Proof.
  intros Hn. unfold next_power_of_2. rewrite (proj2 (Z.eqb_neq n 0)) by lia.
  assert (u32 (n - 1) = n - 1) as -> by (apply Z.mod_small; lia).
  destruct (decide (n = 1)) as [->|Hn1]; [reflexivity|].
  rewrite (window_full (n - 1) (smear _ 16)).
  - rewrite Z.log2_up_eqn by lia. f_equal. replace (Z.pred n) with (n - 1) by lia.
    rewrite Z.add_1_r. lia.
  - lia.
  - repeat apply smear_nonneg. lia.
  - apply (window_smear _ _ 16); [lia|]. apply (window_smear _ _ 8); [lia|].
    apply (window_smear _ _ 4); [lia|]. apply (window_smear _ _ 2); [lia|].
    apply (window_smear _ _ 1); [lia|]. intros i Hi. split; [exists i; auto with lia|].
    intros (j & Hj & Hb). by replace i with j by lia.
Qed.

(** The five shift-and-or steps of next_power_of_2 compute the least power
    of two that is at least [n], for every [n] from 1 to 2^31. *)
Theorem next_power_of_2_correct n :
  1 <= n <= 2 ^ 31 ->
  exists k, 0 <= k <= 31 /\ next_power_of_2 n = 2 ^ k /\ n <= 2 ^ k /\
    forall j, 0 <= j -> n <= 2 ^ j -> 2 ^ k <= 2 ^ j.
Proof.
  intros Hn. rewrite next_power_of_2_log2 by lia. exists (Z.log2_up n).
  pose proof (Z.log2_up_nonneg n) as H0.
  assert (Z.log2_up n <= 31) as H1.
  { change 31 with (Z.log2_up (2 ^ 31)). apply Z.log2_up_le_mono. lia. }
  assert (2 ^ Z.log2_up n <= 2 ^ 31) by (apply Z.pow_le_mono_r; lia). split_and!; [lia|lia| | |].
  - apply Z.mod_small. lia.
  - destruct (decide (n = 1)) as [->|]; [done|]. apply Z.log2_up_spec. lia.
  - intros j Hj Hnj. apply Z.pow_le_mono_r; [lia|]. apply Z.log2_up_le_pow2; lia.
Qed.

Lemma next_power_of_2_correct_witness :
  exists k, 0 <= k <= 31 /\ next_power_of_2 1000 = 2 ^ k /\ 1000 <= 2 ^ k /\
    forall j, 0 <= j -> 1000 <= 2 ^ j -> 2 ^ k <= 2 ^ j.
Proof. exact (next_power_of_2_correct 1000 ltac:(lia)). Defined.

Module Spsc.

(** ** The object *)

Record squeue := Squeue {
  capacity : Z;
  mask : Z;
  element_size : Z;
  write_pos : Z;
  read_pos : Z;
  buffer : list Z;
}.

Definition set_write (q : squeue) (p : Z) : squeue :=
  Squeue (capacity q) (mask q) (element_size q) p (read_pos q) (buffer q).
Definition set_read (q : squeue) (p : Z) : squeue :=
  Squeue (capacity q) (mask q) (element_size q) (write_pos q) p (buffer q).
Definition set_buffer (q : squeue) (l : list Z) : squeue :=
  Squeue (capacity q) (mask q) (element_size q) (write_pos q) (read_pos q) l.

Record reader_result := Result { start_pos : Z; current_pos : Z; end_pos : Z }.

(** A pointer into the buffer is its distance from the start. *)
Definition get_element (q : squeue) (index : Z) : Z :=
  u64 (Z.land index (mask q) * element_size q).

Definition validate_pointer (q : squeue) (ptr : Z) : bool :=
  (0 <=? ptr) && (ptr <? (capacity q + 1) * element_size q).

(** The distance of the two positions, in unsigned arithmetic. *)
Definition wrap_add (write_pos read_pos : Z) : Z :=
  if read_pos <=? write_pos then write_pos - read_pos
  else u64 (write_pos + u64 (0 - read_pos)).

(** ** Creation *)

Inductive errno := EINVAL | EOVERFLOW | ENOMEM.

(** [struct squeue] with 64-byte cache lines: the positions at 64 and 128, the
    buffer at 136, the whole padded to 192. *)
Definition sizeof_squeue : Z := 192.
Definition offsetof_buffer : Z := 136.

Definition squeue_create (alloc_ok : bool) (nmemb element_size : Z) : squeue + errno :=
  if (nmemb =? 0) || (element_size =? 0) then inr EINVAL else
  let actual_capacity := u32 (next_power_of_2 (u32 nmemb) - 1) in
  if actual_capacity <? 1 then inr EINVAL else
  let total_size := u64 (sizeof_squeue + u64 ((actual_capacity + 1) * element_size)) in
  if total_size <? sizeof_squeue then inr EOVERFLOW else
  if negb alloc_ok then inr ENOMEM else
  inl (Squeue actual_capacity actual_capacity element_size 0 0
         (replicate (Z.to_nat (total_size - offsetof_buffer)) 0)).

(** ** The functions as machines *)

Inductive wp_pc := WP_write | WP_read (write_pos : Z).

Definition writer_prepare_step (q : squeue) (p : wp_pc) : outcome wp_pc (option Z) :=
  match p with
  | WP_write => Continue (WP_read (write_pos q))
  | WP_read w =>
      if capacity q <=? wrap_add w (read_pos q) then Return None
      else Return (Some (get_element q w))
  end.

Inductive wc_pc := WC_load (ptr : Z) | WC_store (current_write_pos : Z).

Definition writer_commit_step (q : squeue) (p : wc_pc) : exec (squeue * outcome wc_pc unit) :=
  match p with
  | WC_load ptr =>
      assert (validate_pointer q ptr);;
      assert (ptr =? get_element q (write_pos q));;
      Done (q, Continue (WC_store (write_pos q)))
  | WC_store w => Done (set_write q (u64 (w + 1)), Return tt)
  end.

Inductive rp_pc := RP_read | RP_write (read_pos : Z).

(** The count returned, and the result filled in when it is not zero. *)
Definition reader_prepare_step (q : squeue) (p : rp_pc)
    : outcome rp_pc (Z * option reader_result) :=
  match p with
  | RP_read => Continue (RP_write (read_pos q))
  | RP_write r =>
      if r =? write_pos q then Return (0, None)
      else Return (u64 (write_pos q - r), Some (Result r r (write_pos q)))
  end.

Definition squeue_result_next (q : squeue) (res : reader_result) : reader_result * option Z :=
  if end_pos res <=? current_pos res then (res, None)
  else (Result (start_pos res) (u64 (current_pos res + 1)) (end_pos res),
        Some (get_element q (current_pos res))).

Inductive rc_pc := RC_load | RC_store.

Definition reader_commit_step (q : squeue) (res : reader_result) (p : rc_pc)
    : exec (squeue * outcome rc_pc unit) :=
  match p with
  | RC_load => assert (read_pos q =? start_pos res);; Done (q, Continue RC_store)
  | RC_store => Done (set_read q (current_pos res), Return tt)
  end.

(** ** The queries; [None] is the null pointer *)

Definition squeue_empty (queue : option squeue) : bool :=
  match queue with None => true | Some q => read_pos q =? write_pos q end.
Definition squeue_full (queue : option squeue) : bool :=
  match queue with None => true | Some q => capacity q <? wrap_add (write_pos q) (read_pos q) end.
Definition squeue_capacity (queue : option squeue) : Z :=
  match queue with None => 0 | Some q => capacity q end.
Definition squeue_size (queue : option squeue) : Z :=
  match queue with None => 0 | Some q => wrap_add (write_pos q) (read_pos q) end.
Definition squeue_element_size (queue : option squeue) : Z :=
  match queue with None => 0 | Some q => element_size q end.
Definition squeue_available_space (queue : option squeue) : Z :=
  match queue with
  | None => 0
  | Some q => u64 (capacity q - wrap_add (write_pos q) (read_pos q))
  end.

(** ** The two threads *)

Inductive pc :=
  | W_idle
  | W_preparing (p : wp_pc)
  | W_writing (ptr : Z)
  | W_committing (ptr : Z) (p : wc_pc)
  | R_idle
  | R_preparing (p : rp_pc)
  | R_reading (res : reader_result) (seen : option Z)
  | R_committing (res : reader_result) (p : rc_pc).

Inductive action :=
  | Run
  | CallWriterPrepare
  | Fill (bs : list Z)
  | CallWriterCommit
  | CallReaderPrepare
  | CallReaderNext
  | Look
  | CallReaderCommit.

Inductive event :=
  | Full
  | Pushed (v : list Z)
  | Empty
  | Batch (n : Z)
  | Moved
  | AtEnd
  | Saw (v : list Z)
  | Popped.

(** What the clients do with the pointers: a copy of one element in or out. *)
Definition read_element (q : squeue) (ptr : Z) : exec (list Z) :=
  memcpy (replicate (Z.to_nat (element_size q)) 0) 0 (buffer q) (Z.to_nat ptr)
    (Z.to_nat (element_size q)).

Definition write_element (q : squeue) (ptr : Z) (bs : list Z) : exec squeue :=
  l ← memcpy (buffer q) (Z.to_nat ptr) bs 0 (Z.to_nat (element_size q));
  Done (set_buffer q l).

Definition thread_step (a : action) (q : squeue) (l : pc)
    : option (exec (squeue * pc * list event)) :=
  match a, l with
  | CallWriterPrepare, W_idle => Some (Done (q, W_preparing WP_write, []))
  | Run, W_preparing p => Some (Done
      match writer_prepare_step q p with
      | Continue p' => (q, W_preparing p', [])
      | Return None => (q, W_idle, [Full])
      | Return (Some ptr) => (q, W_writing ptr, [])
      end)
  | Fill bs, W_writing ptr =>
      if decide (Z.of_nat (length bs) = element_size q)
      then Some (q' ← write_element q ptr bs; Done (q', W_writing ptr, [])) else None
  | CallWriterCommit, W_writing ptr => Some (Done (q, W_committing ptr (WC_load ptr), []))
  | Run, W_committing ptr p => Some (
      r ← writer_commit_step q p; let '(q', o) := r in
      match o with
      | Continue p' => Done (q', W_committing ptr p', [])
      | Return _ => v ← read_element q ptr; Done (q', W_idle, [Pushed v])
      end)
  | CallReaderPrepare, R_idle => Some (Done (q, R_preparing RP_read, []))
  | Run, R_preparing p => Some (Done
      match reader_prepare_step q p with
      | Continue p' => (q, R_preparing p', [])
      | Return (_, None) => (q, R_idle, [Empty])
      | Return (n, Some res) => (q, R_reading res None, [Batch n])
      end)
  | CallReaderNext, R_reading res _ => Some (Done
      match squeue_result_next q res with
      | (res', Some ptr) => (q, R_reading res' (Some ptr), [Moved])
      | (res', None) => (q, R_reading res' None, [AtEnd])
      end)
  | Look, R_reading res (Some ptr) =>
      Some (v ← read_element q ptr; Done (q, R_reading res (Some ptr), [Saw v]))
  | CallReaderCommit, R_reading res _ => Some (Done (q, R_committing res RC_load, []))
  | Run, R_committing res p => Some (
      r ← reader_commit_step q res p; let '(q', o) := r in
      match o with
      | Continue p' => Done (q', R_committing res p', [])
      | Return _ => Done (q', R_idle, [Popped])
      end)
  | _, _ => None
  end.

(** The positions are 64-bit: the producer has not yet written 2^64 elements. *)
Definition admissible (q : squeue) (l : pc) : Prop :=
  match l with W_committing _ (WC_store _) => write_pos q + 1 < 2 ^ 64 | _ => True end.

#[export] Instance admissible_dec : RelDecision admissible.
Proof. intros q l. unfold admissible. destruct l as [| | |? []| | | |]; apply _. Defined.

Definition start (q : squeue) : sys squeue pc := Sys q [W_idle; R_idle].

(** ** The specification: a bounded first-in first-out queue

    Thread 0 pushes; thread 1 looks at the elements that were there when it
    asked, front first, and drops those it has moved past. *)

Record fifo := Fifo { f_items : list (list Z); f_batch : option (nat * nat) }.

Definition fifo_step (cap : Z) (f : fifo) (te : nat * event) : option fifo :=
  let items := f_items f in
  match te.2, f_batch f with
  | Full, _ => guard (Z.of_nat (length items) = cap);; Some f
  | Pushed v, bt => guard (Z.of_nat (length items) < cap);; Some (Fifo (items ++ [v]) bt)
  | Empty, None => guard (items = []);; Some f
  | Batch n, None =>
      guard (items <> [] /\ n = Z.of_nat (length items));; Some (Fifo items (Some (length items, 0)%nat))
  | Moved, Some (n, c) => guard (c < n)%nat;; Some (Fifo items (Some (n, S c)))
  | AtEnd, Some (n, c) => guard (c = n);; Some f
  | Saw v, Some (n, S c) => guard (items !! c = Some v);; Some f
  | Popped, Some (n, c) => Some (Fifo (drop c items) None)
  | _, _ => None
  end.

End Spsc.
