(* ===== verification/SpscProof.v ===== *)
(** * Correctness of the single-producer single-consumer queue

    Under every interleaving of the producer and the consumer the queue of
    spsc_queue.c is a bounded first-in first-out queue and no assertion fails,
    as long as fewer than 2^64 elements are written; what its query
    squeue_full answers, and what the consumer does when the positions wrap. *)

From S2P Require Import Prelude Interleave SpscQueue.
Import Spsc.

(** ** The ring *)

Record ring (k : Z) (q : squeue) : Prop := {
  ring_k : 0 < k;
  ring_capacity : capacity q = 2 ^ k - 1;
  ring_mask : mask q = 2 ^ k - 1;
  ring_element : 0 < element_size q;
  ring_buffer : 2 ^ k * element_size q <= Z.of_nat (length (buffer q));
  ring_bytes : 2 ^ k * element_size q < 2 ^ 64;
}.

Definition content (q : squeue) (i : Z) : list Z :=
  take (Z.to_nat (element_size q)) (drop (Z.to_nat (get_element q i)) (buffer q)).

Section ring.
Context {k : Z} {q : squeue} (G : ring k q).

Lemma get_element_mod i : get_element q i = i mod 2 ^ k * element_size q.
Proof using G.
  destruct G as [G1 G2 G3 G4 G5 G6]. unfold get_element. rewrite G3.
  replace (2 ^ k - 1) with (Z.ones k) by (rewrite Z.ones_equiv; lia).
  rewrite Z.land_ones by lia. pose proof (Z.mod_pos_bound i (2 ^ k) ltac:(lia)).
  apply Z.mod_small. nia.
Qed.

Lemma get_element_range i :
  0 <= get_element q i /\ get_element q i + element_size q <= 2 ^ k * element_size q.
Proof using G.
  rewrite get_element_mod. destruct G as [G1 G2 G3 G4 G5 G6].
  pose proof (Z.mod_pos_bound i (2 ^ k) ltac:(lia)). nia.
Qed.

Lemma validate_element i : validate_pointer q (get_element q i) = true.
Proof using G.
  pose proof (get_element_range i). unfold validate_pointer. rewrite (ring_capacity _ _ G).
  pose proof (ring_element _ _ G). apply andb_true_intro. split; [lia|].
  apply Z.ltb_lt. replace (2 ^ k - 1 + 1) with (2 ^ k) by lia. lia.
Qed.

Lemma read_element_content i : read_element q (get_element q i) = Done (content q i).
Proof using G.
  pose proof (get_element_range i). pose proof (ring_buffer _ _ G). pose proof (ring_element _ _ G).
  unfold read_element, content. rewrite memcpy_in by (rewrite ?length_replicate; lia).
  rewrite (drop_ge (replicate _ _)) by (rewrite length_replicate; lia). by rewrite app_nil_r.
Qed.

(** Elements less than a ring apart do not overlap. *)
Lemma elements_apart i j :
  0 < j - i < 2 ^ k ->
  get_element q i + element_size q <= get_element q j \/
  get_element q j + element_size q <= get_element q i.
Proof using G.
  intros Hij. rewrite !get_element_mod. apply slots_apart; [lia|apply G|lia].
Qed.

Lemma write_element_spec i bs :
  Z.of_nat (length bs) = element_size q ->
  exists l, write_element q (get_element q i) bs = Done (set_buffer q l) /\
    ring k (set_buffer q l) /\
    forall j, 0 < i - j < 2 ^ k -> content (set_buffer q l) j = content q j.
Proof using G.
  intros Hbs. pose proof (get_element_range i) as Hi. pose proof (ring_element _ _ G) as He.
  pose proof (ring_buffer _ _ G) as Hb. unfold write_element.
  rewrite memcpy_splice, (take_ge bs) by lia. run. eexists. split; [done|]. split.
  - destruct G. split; try done. cbn [set_buffer buffer]. rewrite length_splice; [done|lia].
  - intros j Hj. pose proof (get_element_range j) as Hgj. unfold content.
    change (get_element (set_buffer q _) j) with (get_element q j). cbn [set_buffer buffer element_size].
    apply splice_elsewhere; [lia|]. destruct (elements_apart j i Hj); lia.
Qed.
End ring.

(** ** The invariant *)

Definition writer_inv (q : squeue) (p : pc) : Prop :=
  match p with
  | W_idle | W_preparing WP_write => True
  | W_preparing (WP_read w) => w = write_pos q
  | W_writing ptr =>
      ptr = get_element q (write_pos q) /\ write_pos q - read_pos q < capacity q
  | W_committing ptr p =>
      ptr = get_element q (write_pos q) /\ write_pos q - read_pos q < capacity q /\
      match p with WC_load ptr' => ptr' = ptr | WC_store w => w = write_pos q end
  | _ => False
  end.

Definition batch (q : squeue) (bt : option (nat * nat)) (res : reader_result) (n c : nat) : Prop :=
  bt = Some (n, c) /\ res = Result (read_pos q) (read_pos q + Z.of_nat c) (read_pos q + Z.of_nat n) /\
  (c <= n)%nat /\ read_pos q + Z.of_nat n <= write_pos q.

Definition reader_inv (q : squeue) (bt : option (nat * nat)) (p : pc) : Prop :=
  match p with
  | R_idle | R_preparing RP_read => bt = None
  | R_preparing (RP_write r) => bt = None /\ r = read_pos q
  | R_reading res seen =>
      exists n c, batch q bt res n c /\
        (seen = None \/ exists c', c = S c' /\ seen = Some (get_element q (read_pos q + Z.of_nat c')))
  | R_committing res p => exists n c, batch q bt res n c
  | _ => False
  end.

Record inv (k : Z) (q : squeue) (wp rp : pc) (f : fifo) : Prop := {
  inv_ring : ring k q;
  inv_read : 0 <= read_pos q <= write_pos q;
  inv_write : write_pos q < 2 ^ 64;
  inv_room : write_pos q - read_pos q <= capacity q;
  inv_items : f_items f = content q <$> seqZ (read_pos q) (write_pos q - read_pos q);
  inv_writer : writer_inv q wp;
  inv_reader : reader_inv q (f_batch f) rp;
}.

(** The step [m] of thread [t] succeeds, the specification accepts its events,
    and the invariant holds after it. *)
Definition follows (k : Z) (q : squeue) (f : fifo) (t : nat) (wp rp : pc)
    (m : exec (squeue * pc * list event)) : Prop :=
  exists q' p' es f', m = Done (q', p', es) /\
    spec_run (fifo_step (capacity q)) f (label t es) = Some f' /\ capacity q' = capacity q /\
    inv k q' (if (t =? 0)%nat then p' else wp) (if (t =? 0)%nat then rp else p') f'.

(** The positions are no part of the ring. *)
Lemma ring_write k q w : ring k q -> ring k (set_write q w).
Proof. intros []. by split. Qed.
Lemma ring_read k q r : ring k q -> ring k (set_read q r).
Proof. intros []. by split. Qed.

Section functions.
Context {k : Z} {q : squeue} {wp rp : pc} {f : fifo} (I : inv k q wp rp f).
Let G : ring k q := inv_ring _ _ _ _ _ I.

Lemma wrap_distance : wrap_add (write_pos q) (read_pos q) = write_pos q - read_pos q.
Proof using I.
  unfold wrap_add. pose proof (inv_read _ _ _ _ _ I). by rewrite (proj2 (Z.leb_le _ _)) by lia.
Qed.

Lemma spsc_items_length : Z.of_nat (length (f_items f)) = write_pos q - read_pos q.
Proof using I.
  rewrite (inv_items _ _ _ _ _ I), length_fmap, length_seqZ. pose proof (inv_read _ _ _ _ _ I). lia.
Qed.

(** Steps that only change the local state of one of the threads. *)
Lemma spsc_writer_local p' es :
  writer_inv q p' -> spec_run (fifo_step (capacity q)) f (label 0 es) = Some f ->
  follows k q f 0 wp rp (Done (q, p', es)).
Proof using I. intros Hw Hs. exists q, p', es, f. split_and!; try done. by destruct I. Qed.

Lemma spsc_reader_local p' es f' :
  f_items f' = f_items f -> reader_inv q (f_batch f') p' ->
  spec_run (fifo_step (capacity q)) f (label 1 es) = Some f' ->
  follows k q f 1 wp rp (Done (q, p', es)).
Proof using I.
  intros Hf Hw Hs. exists q, p', es, f'. split_and!; try done. destruct I. split; try done. by rewrite Hf.
Qed.

(** The producer publishes the element it has filled. *)
Lemma spsc_push_follows ptr :
  writer_inv q (W_committing ptr (WC_store (write_pos q))) -> write_pos q + 1 < 2 ^ 64 ->
  follows k q f 0 wp rp (v ← read_element q ptr;
    Done (set_write q (u64 (write_pos q + 1)), W_idle, [Pushed v])).
Proof using I G.
  intros (-> & Hroom & _) Hw. rewrite (read_element_content G). run.
  pose proof (inv_read _ _ _ _ _ I). unfold u64. rewrite Z.mod_small by lia.
  eexists _, W_idle, [Pushed (content q (write_pos q))], (Fifo (f_items f ++ [_]) (f_batch f)).
  split; [done|]. split.
  { rewrite spec_run_one. cbn. rewrite option_guard_True; [done|]. by rewrite spsc_items_length. }
  split; [done|]. destruct I as [I0 I1 I2 I3 I4 I5 I6].
  split; [by apply ring_write|cbn; lia|cbn; lia|cbn; lia|cbn|done|cbn].
  - rewrite I4. replace (write_pos q + 1 - read_pos q) with (write_pos q - read_pos q + 1) by lia.
    rewrite seqZ_app, fmap_app by lia.
    replace (read_pos q + (write_pos q - read_pos q)) with (write_pos q) by lia. done.
  - clear -I6. destruct rp as [| | | | |[]|res seen|res p]; cbn in I6 |- *; try done.
    + destruct I6 as (n & c & (H1 & H2 & H3 & H4) & Hs). exists n, c. split; [split_and!; cbn; try done; lia|done].
    + destruct I6 as (n & c & (H1 & H2 & H3 & H4)). exists n, c. split_and!; cbn; try done; lia.
Qed.

(** The producer fills an element no position of the queue refers to. *)
Lemma spsc_fill_follows ptr bs :
  writer_inv q (W_writing ptr) -> Z.of_nat (length bs) = element_size q ->
  follows k q f 0 wp rp (q' ← write_element q ptr bs; Done (q', W_writing ptr, [])).
Proof using I G.
  intros [-> Hroom] Hbs. destruct (write_element_spec G (write_pos q) bs Hbs) as (l & -> & G' & Hc).
  run. exists (set_buffer q l), (W_writing (get_element q (write_pos q))), [], f.
  split_and!; try done. pose proof (ring_capacity _ _ G) as Hcap.
  destruct I as [I0 I1 I2 I3 I4 I5 I6]. split; try done. rewrite I4. apply list_fmap_ext.
  intros j i Hi. apply lookup_seqZ in Hi as [-> Hj]. symmetry. apply Hc. cbn in *. lia.
Qed.

Lemma spsc_writer_follows p a m :
  writer_inv q p -> admissible q p -> thread_step a q p = Some m -> follows k q f 0 wp rp m.
Proof using I G.
  intros Hw Hadm Hm. pose proof spsc_items_length as Hlen.
  destruct p as [|[|w]|ptr|ptr [ptr'|w]|p|p|res seen|res p]; try done;
    destruct a; cbn [thread_step] in Hm; try discriminate Hm;
    try (apply (inj Some) in Hm as <-).
  - by apply spsc_writer_local.
  - by apply spsc_writer_local.
  - cbn in Hw |- *. subst w. rewrite wrap_distance. destruct (Z.leb_spec (capacity q) (write_pos q - read_pos q)).
    + apply spsc_writer_local; [done|]. rewrite spec_run_one. cbn. rewrite option_guard_True; [done|].
      pose proof (inv_room _ _ _ _ _ I). lia.
    + apply spsc_writer_local; [|done]. cbn. auto.
  - case_decide; [|done]. apply (inj Some) in Hm as <-. by apply spsc_fill_follows.
  - destruct Hw as [Hw1 Hw2]. by apply spsc_writer_local.
  - destruct Hw as (-> & Hw & ->). cbn. rewrite (validate_element G), Z.eqb_refl. run.
    by apply spsc_writer_local.
  - pose proof Hw as (Hw1 & Hw2 & ->). cbn [writer_commit_step mbind exec_bind]. by apply spsc_push_follows.
Qed.

(** The consumer gives back what it has moved past. *)
Lemma spsc_pop_follows res n c :
  batch q (f_batch f) res n c ->
  follows k q f 1 wp rp (Done (set_read q (current_pos res), R_idle, [Popped])).
Proof using I G.
  intros (Hb & -> & Hc & Hn). cbn [current_pos].
  exists (set_read q (read_pos q + Z.of_nat c)), R_idle, [Popped], (Fifo (drop c (f_items f)) None).
  split; [done|]. split; [rewrite spec_run_one; cbn; by rewrite Hb|]. split; [done|].
  destruct I as [I0 I1 I2 I3 I4 I5 I6].
  split; [by apply ring_read|cbn; lia|done|cbn; lia|cbn|cbn|done].
  - rewrite I4, <- fmap_drop.
    replace (write_pos q - read_pos q) with (Z.of_nat c + (write_pos q - (read_pos q + Z.of_nat c))) by lia.
    rewrite seqZ_app by lia. rewrite drop_app_length'; [done|]. rewrite length_seqZ. lia.
  - clear -I5 Hn. destruct wp as [|[]|ptr|ptr []| | | |]; cbn in I5 |- *; try done; lia || intuition lia.
Qed.

Lemma batch_element n c res :
  batch q (f_batch f) res n (S c) -> f_items f !! c = Some (content q (read_pos q + Z.of_nat c)).
Proof using I.
  intros (_ & _ & Hc & Hn). rewrite (inv_items _ _ _ _ _ I), list_lookup_fmap.
  rewrite lookup_seqZ_lt by lia. done.
Qed.

Lemma spsc_next_follows res seen :
  reader_inv q (f_batch f) (R_reading res seen) ->
  follows k q f 1 wp rp (Done
    match squeue_result_next q res with
    | (res', Some ptr) => (q, R_reading res' (Some ptr), [Moved])
    | (res', None) => (q, R_reading res' None, [AtEnd])
    end).
Proof using I G.
  intros (n & c & Hb & _). pose proof Hb as (Hb1 & Hb2 & Hb3 & Hb4).
  pose proof (inv_read _ _ _ _ _ I). pose proof (inv_write _ _ _ _ _ I).
  unfold squeue_result_next. rewrite Hb2. cbn [start_pos current_pos end_pos].
  destruct (Z.leb_spec (read_pos q + Z.of_nat n) (read_pos q + Z.of_nat c)).
  - apply (spsc_reader_local _ [AtEnd] f); [done| |].
    + exists n, c. subst res. auto.
    + rewrite spec_run_one. cbn. rewrite Hb1. rewrite option_guard_True; [done|]. lia.
  - eapply (spsc_reader_local _ [Moved] (Fifo (f_items f) (Some (n, S c)))); [done| |].
    + exists n, (S c). split; [|right; by exists c]. split_and!; [done| |lia|lia].
      unfold u64. rewrite Z.mod_small by lia. f_equal. lia.
    + rewrite spec_run_one. cbn. rewrite Hb1. rewrite option_guard_True; [done|]. lia.
Qed.

Lemma spsc_reader_follows p a m :
  reader_inv q (f_batch f) p -> thread_step a q p = Some m -> follows k q f 1 wp rp m.
Proof using I G.
  intros Hr Hm. pose proof spsc_items_length as Hlen.
  pose proof (inv_read _ _ _ _ _ I). pose proof (inv_write _ _ _ _ _ I).
  destruct p as [|p|ptr|ptr p| |[|r]|res seen|res [|]]; try done;
    destruct a; cbn [thread_step] in Hm; try discriminate Hm;
    try (apply (inj Some) in Hm as <-).
  - by apply (spsc_reader_local _ _ f).
  - by apply (spsc_reader_local _ _ f).
  - destruct Hr as [Hr ->]. cbn [reader_prepare_step]. destruct (Z.eqb_spec (read_pos q) (write_pos q)).
    + apply (spsc_reader_local _ _ f); [done|done|]. rewrite spec_run_one. cbn. rewrite Hr.
      rewrite option_guard_True; [done|]. apply nil_length_inv. lia.
    + eapply (spsc_reader_local _ _ (Fifo (f_items f) (Some (length (f_items f), 0%nat)))); [done| |].
      * exists (length (f_items f)), 0%nat. split; [|by left]. split_and!; [done| |lia|lia].
        f_equal; lia.
      * rewrite spec_run_one. cbn. rewrite Hr. unfold u64. rewrite Z.mod_small by lia.
        rewrite option_guard_True; [done|]. split; [|lia]. intros E. rewrite E in Hlen. cbn in Hlen. lia.
  - by apply (spsc_next_follows res seen).
  - destruct seen as [ptr|]; [|done]. apply (inj Some) in Hm as <-.
    destruct Hr as (n & c & Hb & [?|(c' & -> & Hs)]); [done|]. injection Hs as ->.
    rewrite (read_element_content G). run. pose proof Hb as (Hb1 & _).
    eapply (spsc_reader_local _ _ f); [done| |].
    + exists n, (S c'). split; [done|]. right. by exists c'.
    + rewrite spec_run_one. cbn. rewrite Hb1. rewrite (batch_element _ _ _ Hb).
      by rewrite option_guard_True.
  - destruct Hr as (n & c & Hb & _). apply (spsc_reader_local _ _ f); [done| |done]. by exists n, c.
  - destruct Hr as (n & c & Hb). pose proof Hb as (_ & -> & _). cbn [reader_commit_step start_pos].
    rewrite Z.eqb_refl. run. apply (spsc_reader_local _ _ f); [done| |done]. by exists n, c.
  - destruct Hr as (n & c & Hb). cbn [reader_commit_step mbind exec_bind]. by apply (spsc_pop_follows res n c).
Qed.
End functions.

(** ** The system *)

Definition related (k : Z) (s : sys squeue pc) (f : fifo) : Prop :=
  exists wp rp, locals s = [wp; rp] /\ inv k (shared s) wp rp f.

Lemma spsc_related_thread k q wp rp f t p a m :
  inv k q wp rp f -> [wp; rp] !! t = Some p -> admissible q p -> thread_step a q p = Some m ->
  (t = 0%nat \/ t = 1%nat) /\ follows k q f t wp rp m.
Proof.
  intros I Ht Hadm Hm. destruct t as [|[|t]]; [| |by destruct t]; injection Ht as <-.
  - split; [by left|]. eapply spsc_writer_follows; eauto. apply I.
  - split; [by right|]. eapply spsc_reader_follows; eauto. apply I.
Qed.

Lemma spsc_related_step k cap s f es s' :
  related k s f /\ capacity (shared s) = cap -> step thread_step admissible s es s' ->
  exists f', spec_run (fifo_step cap) f es = Some f' /\ related k s' f' /\ capacity (shared s') = cap.
Proof.
  intros [(wp & rp & Hl & I) <-] Hs. destruct Hs as [t a q ps p q1 p1 es Ht Hadm Hst].
  cbn in Hl, I |- *. subst ps. destruct (spsc_related_thread _ _ _ _ _ _ _ _ _ I Ht Hadm Hst) as [Ht' Hf].
  destruct Hf as (q' & p' & es' & f' & [= -> -> ->] & Hsp & Hcap & I').
  exists f'. split; [done|]. split; [|done]. destruct Ht' as [-> | ->].
  - by exists p', rp.
  - by exists wp, p'.
Qed.

Lemma spsc_related_safe k s f : related k s f -> never_aborts thread_step admissible s.
Proof.
  intros (wp & rp & Hl & I) t a p Ht Hadm Hst. rewrite Hl in Ht.
  destruct (spsc_related_thread _ _ _ _ _ _ _ _ _ I Ht Hadm Hst) as [_ (q' & p' & es' & f' & ? & _)]. done.
Qed.

(** The memory of the ring fits in the address space. *)
Definition fits (nmemb element_size : Z) : Prop :=
  2 <= nmemb < 2 ^ 32 /\ 0 < element_size /\
  sizeof_squeue + 2 ^ Z.log2_up nmemb * element_size < 2 ^ 64.

#[export] Instance fits_dec nmemb element_size : Decision (fits nmemb element_size).
Proof. unfold fits. apply _. Defined.

Lemma spsc_create_spec nmemb es :
  fits nmemb es ->
  exists q, squeue_create true nmemb es = inl q /\ capacity q = 2 ^ Z.log2_up nmemb - 1 /\
    inv (Z.log2_up nmemb) q W_idle R_idle (Fifo [] None).
Proof.
  intros (Hn & He & Hfit). unfold squeue_create, sizeof_squeue in *.
  rewrite (proj2 (Z.eqb_neq nmemb 0)), (proj2 (Z.eqb_neq es 0)) by lia. cbn [orb negb].
  assert (u32 nmemb = nmemb) as -> by (apply Z.mod_small; lia).
  rewrite next_power_of_2_log2 by lia.
  assert (0 < Z.log2_up nmemb <= 32) as Hk.
  { split; [apply Z.log2_up_pos; lia|]. change 32 with (Z.log2_up (2 ^ 32)).
    apply Z.log2_up_le_mono. lia. }
  set (k := Z.log2_up nmemb) in *.
  assert (2 ^ 1 <= 2 ^ k <= 2 ^ 32) as Hp by (split; apply Z.pow_le_mono_r; lia).
  assert (u32 (u32 (2 ^ k) - 1) = 2 ^ k - 1) as ->.
  { unfold u32. rewrite Zminus_mod_idemp_l. apply Z.mod_small. lia. }
  rewrite (proj2 (Z.ltb_ge _ _)) by lia. replace (2 ^ k - 1 + 1) with (2 ^ k) by lia.
  assert (u64 (192 + u64 (2 ^ k * es)) = 192 + 2 ^ k * es) as ->.
  { unfold u64. rewrite (Z.mod_small (2 ^ k * es)) by nia. apply Z.mod_small. nia. }
  rewrite (proj2 (Z.ltb_ge _ _)) by nia. eexists. split; [done|]. split; [done|].
  split; cbn [read_pos write_pos capacity]; try done; try lia.
  split; cbn; try done; try lia. rewrite length_replicate. unfold offsetof_buffer. nia.
Qed.

Lemma spsc_related_steps nmemb es q tr s :
  fits nmemb es -> squeue_create true nmemb es = inl q ->
  steps thread_step admissible (start q) tr s ->
  exists f, spec_run (fifo_step (capacity q)) (Fifo [] None) tr = Some f /\
    related (Z.log2_up nmemb) s f /\ capacity (shared s) = capacity q.
Proof.
  intros Hf Hq Hs. destruct (spsc_create_spec nmemb es Hf) as (q' & Hq' & _ & I).
  rewrite Hq in Hq'. injection Hq' as <-.
  refine (simulation thread_step admissible (fifo_step (capacity q))
            (fun s f => related (Z.log2_up nmemb) s f /\ capacity (shared s) = capacity q)
            _ _ _ _ _ _ Hs).
  - intros s0 f0 es0 s1. apply spsc_related_step.
  - split; [|done]. by exists W_idle, R_idle.
Qed.

(** C17: the queue of spsc_queue.c, created for [nmemb] elements, refines under
    every interleaving of its producer and its consumer a first-in first-out
    queue of capacity one less than the next power of two: every trace is one
    the bounded queue accepts, the producer is told it is full exactly when it
    is, the consumer sees the elements unchanged and in order, no assertion
    fails and no access leaves the buffer. *)
Theorem spsc_refines nmemb es :
  fits nmemb es ->
  exists q, squeue_create true nmemb es = inl q /\ capacity q = 2 ^ Z.log2_up nmemb - 1 /\
    forall tr s, steps thread_step admissible (start q) tr s ->
      is_Some (spec_run (fifo_step (capacity q)) (Fifo [] None) tr) /\
      never_aborts thread_step admissible s.
Proof.
  intros Hf. destruct (spsc_create_spec nmemb es Hf) as (q & Hq & Hcap & _).
  exists q. split; [done|]. split; [done|]. intros tr s Hs.
  destruct (spsc_related_steps _ _ _ _ _ Hf Hq Hs) as (f & Hr & HR & _).
  split; [by exists f|by eapply spsc_related_safe].
Qed.

(** The producer fills the queue of capacity 3 while the consumer reads. *)
Definition spsc_demo : list (nat * action) :=
  let push bs := [(0%nat, CallWriterPrepare); (0%nat, Run); (0%nat, Run); (0%nat, Fill bs);
                  (0%nat, CallWriterCommit); (0%nat, Run); (0%nat, Run)] in
  push [1; 2] ++ [(1%nat, CallReaderPrepare); (1%nat, Run); (1%nat, Run)] ++ push [3; 4] ++
  push [5; 6] ++ [(0%nat, CallWriterPrepare); (0%nat, Run); (0%nat, Run)] ++
  [(1%nat, CallReaderNext); (1%nat, Look); (1%nat, CallReaderNext); (1%nat, CallReaderCommit);
   (1%nat, Run); (1%nat, Run)] ++ push [7; 8] ++
  [(1%nat, CallReaderPrepare); (1%nat, Run); (1%nat, Run); (1%nat, CallReaderNext); (1%nat, Look)].

Definition spsc_demo_queue : squeue :=
  match squeue_create true 4 2 with inl q => q | inr _ => Squeue 0 0 0 0 0 [] end.

Definition spsc_demo_end : sys squeue pc :=
  from_option fst (start spsc_demo_queue) (run_schedule thread_step admissible (start spsc_demo_queue) spsc_demo).

Lemma spsc_refines_witness :
  fits 4 2 /\
  run_schedule thread_step admissible (start spsc_demo_queue) spsc_demo = Some (spsc_demo_end,
    [(0%nat, Pushed [1; 2]); (1%nat, Batch 1); (0%nat, Pushed [3; 4]); (0%nat, Pushed [5; 6]);
     (0%nat, Full); (1%nat, Moved); (1%nat, Saw [1; 2]); (1%nat, AtEnd); (1%nat, Popped);
     (0%nat, Pushed [7; 8]); (1%nat, Batch 3); (1%nat, Moved); (1%nat, Saw [3; 4])]) /\
  never_aborts thread_step admissible spsc_demo_end.
Proof.
  assert (fits 4 2) as Hf by by_compute. split; [exact Hf|].
  destruct (spsc_refines 4 2 Hf) as (q & Hq & _ & H).
  assert (q = spsc_demo_queue) as -> by (unfold spsc_demo_queue; by rewrite Hq).
  refine ((fun Hr => conj Hr (proj2 (H _ _ (run_schedule_steps _ _ _ _ _ _ Hr)))) _).
  vm_compute. reflexivity.
Defined.

(** Squeue_full never answers true: it tests for more than [capacity]
    elements, and in every state the two threads can reach there are at most
    [capacity], also when squeue_writer_prepare has just refused an element
    because the queue is full. *)
Theorem spsc_full_never nmemb es q tr s :
  fits nmemb es -> squeue_create true nmemb es = inl q ->
  steps thread_step admissible (start q) tr s ->
  squeue_full (Some (shared s)) = false /\ squeue_size (Some (shared s)) <= squeue_capacity (Some (shared s)).
Proof.
  intros Hf Hq Hs. destruct (spsc_related_steps _ _ _ _ _ Hf Hq Hs) as (f & _ & (wp & rp & _ & I) & _).
  pose proof (inv_room _ _ _ _ _ I). unfold squeue_full, squeue_size, squeue_capacity.
  rewrite (wrap_distance I). split; [|done]. apply Z.ltb_ge. lia.
Qed.

Definition spsc_full_end : sys squeue pc :=
  from_option fst (start spsc_demo_queue)
    (run_schedule thread_step admissible (start spsc_demo_queue) (take 27 spsc_demo)).

(** The producer has just been refused. *)
Lemma spsc_full_never_witness :
  run_schedule thread_step admissible (start spsc_demo_queue) (take 27 spsc_demo) = Some (spsc_full_end,
    [(0%nat, Pushed [1; 2]); (1%nat, Batch 1); (0%nat, Pushed [3; 4]); (0%nat, Pushed [5; 6]);
     (0%nat, Full)]) /\
  squeue_full (Some (shared spsc_full_end)) = false /\
  squeue_size (Some (shared spsc_full_end)) <= squeue_capacity (Some (shared spsc_full_end)).
Proof.
  assert (fits 4 2) as Hf by by_compute.
  refine ((fun Hr => conj Hr (spsc_full_never 4 2 spsc_demo_queue _ _ Hf eq_refl
            (run_schedule_steps _ _ _ _ _ _ Hr))) _).
  vm_compute. reflexivity.
Defined.

(** When the 64-bit write position has wrapped around and the read
    position has not, squeue_reader_prepare reports the right number of
    waiting elements, but squeue_result_next compares the positions as plain
    numbers and returns none of them. *)
Theorem spsc_wrap_stalls q :
  0 <= write_pos q < read_pos q -> read_pos q < 2 ^ 64 ->
  exists res, reader_prepare_step q (RP_write (read_pos q)) =
      Return (write_pos q + 2 ^ 64 - read_pos q, Some res) /\
    squeue_size (Some q) = write_pos q + 2 ^ 64 - read_pos q /\
    squeue_result_next q res = (res, None).
Proof.
  intros Hw Hr. exists (Result (read_pos q) (read_pos q) (write_pos q)).
  unfold reader_prepare_step, squeue_size, wrap_add, squeue_result_next. cbn [end_pos current_pos].
  rewrite (proj2 (Z.eqb_neq _ _)) by lia. rewrite (proj2 (Z.leb_gt _ _)) by lia.
  rewrite (proj2 (Z.leb_le _ _)) by lia. split_and!; [|unfold u64; lia_div|done].
  repeat f_equal. unfold u64. lia_div.
Qed.

Lemma spsc_wrap_stalls_witness :
  let q := Squeue 3 3 1 1 (2 ^ 64 - 1) [10; 11; 12; 13] in
  exists res, reader_prepare_step q (RP_write (read_pos q)) = Return (2, Some res) /\
    squeue_size (Some q) = 2 /\ squeue_result_next q res = (res, None).
Proof.
  exact (spsc_wrap_stalls (Squeue 3 3 1 1 (2 ^ 64 - 1) [10; 11; 12; 13])
           ltac:(cbn; lia) ltac:(cbn; lia)).
Defined.
