(* ===== verification/RingBuffer.v ===== *)
(** * The message ring of src/demo/queue/ringbuffer.c

    One producer and one consumer exchange messages of varying length through
    a ring of bytes.  A message is a 32-bit length and its bytes, rounded up to
    whole cache lines; a message that does not fit before the end of the ring
    is preceded by a padding item.  As in file SpscQueue each function is a
    machine whose steps are its accesses to the shared words (the consumer's
    walk through the messages it has been given is one step per message), and
    a failing RINGBUF_ASSERT is [Fault]. *)

From S2P Require Import Prelude Interleave SpscQueue.

Module Ring.

Definition CACHE_LINE_SIZE : Z := 64.
Definition sizeof_item : Z := 4.

Record ringbuffer := Ringbuffer {
  size : Z;
  max_msg_size : Z;
  mask : Z;
  write_pos : Z;
  read_pos : Z;
  buffer : list Z;
}.

Definition set_write (q : ringbuffer) (p : Z) : ringbuffer :=
  Ringbuffer (size q) (max_msg_size q) (mask q) p (read_pos q) (buffer q).
Definition set_read (q : ringbuffer) (p : Z) : ringbuffer :=
  Ringbuffer (size q) (max_msg_size q) (mask q) (write_pos q) p (buffer q).
Definition set_buffer (q : ringbuffer) (l : list Z) : ringbuffer :=
  Ringbuffer (size q) (max_msg_size q) (mask q) (write_pos q) (read_pos q) l.

Record reader_result := Result { start_pos : Z; end_pos : Z; current_pos : Z }.

(** [~(x)] on [size_t] and [uint64_t]. *)
Definition not64 (x : Z) : Z := 2 ^ 64 - 1 - x.

Definition align_to_cache_line (n : Z) : Z :=
  Z.land (u64 (n + CACHE_LINE_SIZE - 1)) (not64 (CACHE_LINE_SIZE - 1)).

Definition total_message_size (data_size : Z) : Z :=
  align_to_cache_line (u64 (sizeof_item + data_size)).

(** The byte offset of the item at a position. *)
Definition WRAP_POSITION (q : ringbuffer) (pos : Z) : Z := Z.land pos (mask q).
Definition ITEM_AT_POS (q : ringbuffer) (pos : Z) : Z := WRAP_POSITION q pos.

(** The field [size] of an item, a little-endian [uint32_t]. *)
Definition load_size (q : ringbuffer) (item : Z) : exec Z :=
  bs ← memcpy (replicate 4 0) 0 (buffer q) (Z.to_nat item) 4; Done (le_value bs).

Definition store_size (q : ringbuffer) (item v : Z) : exec ringbuffer :=
  l ← memcpy (buffer q) (Z.to_nat item) (le 4 (u32 v)) 0 4; Done (set_buffer q l).

(** ** Creation *)

Inductive errno := EINVAL | EOVERFLOW | ENOMEM.

(** [struct ringbuffer] has the layout of [struct squeue]. *)
Definition sizeof_ringbuffer : Z := 192.
Definition offsetof_buffer : Z := 136.

Definition ringbuffer_create (calloc_ok : bool) (size max_msg_size : Z) : ringbuffer + errno :=
  if (size =? 0) || (max_msg_size =? 0) then inr EINVAL else
  let size := next_power_of_2 (u32 size) in
  if size <? u64 (max_msg_size + sizeof_item) then inr EINVAL else
  let buffer_size := align_to_cache_line size in
  let total_size := u64 (sizeof_ringbuffer + buffer_size) in
  if total_size <? sizeof_ringbuffer then inr EOVERFLOW else
  if negb calloc_ok then inr ENOMEM else
  inl (Ringbuffer size max_msg_size (size - 1) 0 0
         (replicate (Z.to_nat (total_size - offsetof_buffer)) 0)).

(** ** The functions as machines *)

(** The room left, as ringbuffer_writer_prepare and
    ringbuffer_available_space compute it. *)
Definition space_between (q : ringbuffer) (w r : Z) : Z :=
  if r <=? w then u64 (size q - (w - r)) else r - w.

(** ringbuffer_writer_prepare for a message of [n] bytes. *)
Inductive wp_pc :=
  | WP_start
  | WP_write
  | WP_read (write_pos : Z)
  | WP_pad (write_pos mark space_until_wrap : Z)
  | WP_wrap (write_pos : Z)
  | WP_item (write_pos : Z).

Definition writer_prepare_step (q : ringbuffer) (n : Z) (p : wp_pc)
    : exec (ringbuffer * outcome wp_pc (option Z)) :=
  let required_size := total_message_size n in
  match p with
  | WP_start =>
      Done (q, if (n =? 0) || (max_msg_size q <? n) then Return None else Continue WP_write)
  | WP_write => Done (q, Continue (WP_read (write_pos q)))
  | WP_read w =>
      let available_space := space_between q w (read_pos q) in
      let space_until_wrap := size q - Z.land w (mask q) in
      Done (q,
        if available_space <=? u64 (required_size + CACHE_LINE_SIZE) then Return None else
        if space_until_wrap <? sizeof_item then Continue (WP_pad w 0 space_until_wrap) else
        if space_until_wrap <? required_size
        then Continue (WP_pad w space_until_wrap space_until_wrap)
        else Continue (WP_item w))
  | WP_pad w mark space_until_wrap =>
      q' ← store_size q (ITEM_AT_POS q w) mark;
      Done (q', Continue (WP_wrap (Z.land (u64 (w + space_until_wrap)) (not64 (mask q)))))
  | WP_wrap w => Done (set_write q w, Continue WP_write)
  | WP_item w =>
      q' ← store_size q (ITEM_AT_POS q w) n;
      Done (q', Return (Some (ITEM_AT_POS q w + sizeof_item)))
  end.

Inductive wc_pc := WC_load (ptr : Z) | WC_store (current_pos item_size : Z).

Definition writer_commit_step (q : ringbuffer) (p : wc_pc)
    : exec (ringbuffer * outcome wc_pc unit) :=
  match p with
  | WC_load ptr =>
      let item := ptr - sizeof_item in
      let current_pos := write_pos q in
      n ← load_size q item;
      assert (item =? ITEM_AT_POS q current_pos);;
      Done (q, Continue (WC_store current_pos (total_message_size n)))
  | WC_store current_pos item_size =>
      Done (set_write q (u64 (current_pos + item_size)), Return tt)
  end.

Inductive rp_pc := RP_read | RP_write (read_pos : Z).

Definition reader_prepare_step (q : ringbuffer) (p : rp_pc)
    : outcome rp_pc (option reader_result) :=
  match p with
  | RP_read => Continue (RP_write (read_pos q))
  | RP_write r =>
      if r =? write_pos q then Return None
      else Return (Some (Result r (write_pos q) r))
  end.

Definition set_current (res : reader_result) (c : Z) : reader_result :=
  Result (start_pos res) (end_pos res) c.

(** From the item at [pos] on: the pointer and the size of the message. *)
Definition take_message (q : ringbuffer) (res : reader_result) (pos n : Z)
    : exec (reader_result * option (Z * Z)) :=
  assert (n <=? max_msg_size q);;
  let current := u64 (pos + total_message_size n) in
  let current :=
    if size q <? Z.land current (mask q) + sizeof_item
    then Z.land (u64 (current + size q - 1)) (not64 (mask q)) else current in
  Done (set_current res current, Some (ITEM_AT_POS q pos + sizeof_item, n)).

Definition ringbuffer_result_next (q : ringbuffer) (res : reader_result)
    : exec (reader_result * option (Z * Z)) :=
  if end_pos res <=? current_pos res then Done (res, None) else
  n ← load_size q (ITEM_AT_POS q (current_pos res));
  if n =? 0 then
    let space_until_wrap := size q - Z.land (current_pos res) (mask q) in
    let current := Z.land (u64 (current_pos res + space_until_wrap)) (not64 (mask q)) in
    if end_pos res <=? current then Done (set_current res current, None) else
    n ← load_size q (ITEM_AT_POS q current);
    take_message q res current n
  else take_message q res (current_pos res) n.

Inductive rc_pc := RC_load | RC_store.

Definition reader_commit_step (q : ringbuffer) (res : reader_result) (p : rc_pc)
    : exec (ringbuffer * outcome rc_pc unit) :=
  match p with
  | RC_load => assert (read_pos q =? start_pos res);; Done (q, Continue RC_store)
  | RC_store => Done (set_read q (current_pos res), Return tt)
  end.

(** ** The queries; [None] is the null pointer *)

Definition ringbuffer_empty (ring : option ringbuffer) : bool :=
  match ring with None => true | Some q => read_pos q =? write_pos q end.
Definition ringbuffer_full (ring : option ringbuffer) : bool :=
  match ring with
  | None => true
  | Some q => u64 (u64 (size q - max_msg_size q) - sizeof_item) <=? u64 (write_pos q - read_pos q)
  end.
Definition ringbuffer_capacity (ring : option ringbuffer) : Z :=
  match ring with None => 0 | Some q => size q end.
Definition ringbuffer_available_space (ring : option ringbuffer) : Z :=
  match ring with None => 0 | Some q => space_between q (write_pos q) (read_pos q) end.
Definition ringbuffer_used_space (ring : option ringbuffer) : Z :=
  match ring with None => 0 | Some q => u64 (write_pos q - read_pos q) end.

(** ** The two threads *)

Inductive pc :=
  | W_idle
  | W_preparing (n : Z) (p : wp_pc)
  | W_writing (n ptr : Z)
  | W_committing (n ptr : Z) (p : wc_pc)
  | R_idle
  | R_preparing (p : rp_pc)
  | R_reading (res : reader_result) (seen : option (Z * Z))
  | R_committing (res : reader_result) (p : rc_pc).

Inductive action :=
  | Run
  | CallWriterPrepare (n : Z)
  | Fill (bs : list Z)
  | CallWriterCommit
  | CallReaderPrepare
  | CallReaderNext
  | Look
  | CallReaderCommit.

Inductive event :=
  | Refused (n : Z)
  | Pushed (v : list Z)
  | Empty
  | Opened
  | Moved
  | AtEnd
  | Saw (v : list Z)
  | Popped.

(** What the clients do with the pointers: a copy of a whole message. *)
Definition read_message (q : ringbuffer) (ptr n : Z) : exec (list Z) :=
  memcpy (replicate (Z.to_nat n) 0) 0 (buffer q) (Z.to_nat ptr) (Z.to_nat n).

Definition write_message (q : ringbuffer) (ptr : Z) (bs : list Z) : exec ringbuffer :=
  l ← memcpy (buffer q) (Z.to_nat ptr) bs 0 (length bs); Done (set_buffer q l).

Definition thread_step (a : action) (q : ringbuffer) (l : pc)
    : option (exec (ringbuffer * pc * list event)) :=
  match a, l with
  | CallWriterPrepare n, W_idle =>
      if decide (0 <= n < 2 ^ 64) then Some (Done (q, W_preparing n WP_start, [])) else None
  | Run, W_preparing n p => Some (
      r ← writer_prepare_step q n p; let '(q', o) := r in
      Done match o with
           | Continue p' => (q', W_preparing n p', [])
           | Return None => (q', W_idle, [Refused n])
           | Return (Some ptr) => (q', W_writing n ptr, [])
           end)
  | Fill bs, W_writing n ptr =>
      if decide (Z.of_nat (length bs) = n)
      then Some (q' ← write_message q ptr bs; Done (q', W_writing n ptr, [])) else None
  | CallWriterCommit, W_writing n ptr => Some (Done (q, W_committing n ptr (WC_load ptr), []))
  | Run, W_committing n ptr p => Some (
      r ← writer_commit_step q p; let '(q', o) := r in
      match o with
      | Continue p' => Done (q', W_committing n ptr p', [])
      | Return _ => v ← read_message q ptr n; Done (q', W_idle, [Pushed v])
      end)
  | CallReaderPrepare, R_idle => Some (Done (q, R_preparing RP_read, []))
  | Run, R_preparing p => Some (Done
      match reader_prepare_step q p with
      | Continue p' => (q, R_preparing p', [])
      | Return None => (q, R_idle, [Empty])
      | Return (Some res) => (q, R_reading res None, [Opened])
      end)
  | CallReaderNext, R_reading res _ => Some (
      r ← ringbuffer_result_next q res;
      Done match r with
           | (res', Some seen) => (q, R_reading res' (Some seen), [Moved])
           | (res', None) => (q, R_reading res' None, [AtEnd])
           end)
  | Look, R_reading res (Some seen) =>
      Some (v ← read_message q seen.1 seen.2; Done (q, R_reading res (Some seen), [Saw v]))
  | CallReaderCommit, R_reading res _ => Some (Done (q, R_committing res RC_load, []))
  | Run, R_committing res p => Some (
      r ← reader_commit_step q res p; let '(q', o) := r in
      match o with
      | Continue p' => Done (q', R_committing res p', [])
      | Return _ => Done (q', R_idle, [Popped])
      end)
  | _, _ => None
  end.

(** The positions are 64-bit: the producer has not yet written 2^64 bytes. *)
Definition admissible (q : ringbuffer) (l : pc) : Prop :=
  match l with
  | W_committing _ _ (WC_store _ n) => write_pos q + n < 2 ^ 64
  | _ => True
  end.

#[export] Instance admissible_dec : RelDecision admissible.
Proof. intros q l. unfold admissible. destruct l as [| | |? ? []| | | |]; apply _. Defined.

Definition start (q : ringbuffer) : sys ringbuffer pc := Sys q [W_idle; R_idle].

(** ** The specification: a first-in first-out queue of messages

    A message is refused when it is empty or too long, or when there are
    already [cap] messages; the consumer looks at the messages that were there
    when it asked, and drops those it has moved past. *)

Record mailbox := Mailbox { m_items : list (list Z); m_batch : option (nat * nat) }.

Definition mailbox_step (cap maxlen : Z) (f : mailbox) (te : nat * event) : option mailbox :=
  let items := m_items f in
  match te.2, m_batch f with
  | Refused n, _ => guard (n = 0 \/ maxlen < n \/ Z.of_nat (length items) = cap);; Some f
  | Pushed v, bt =>
      guard (Z.of_nat (length items) < cap /\ (0 < length v)%nat /\ Z.of_nat (length v) <= maxlen);;
      Some (Mailbox (items ++ [v]) bt)
  | Empty, None => guard (items = []);; Some f
  | Opened, None => guard (items <> []);; Some (Mailbox items (Some (length items, 0)%nat))
  | Moved, Some (n, c) => guard (c < n)%nat;; Some (Mailbox items (Some (n, S c)))
  | AtEnd, Some (n, c) => guard (c = n);; Some f
  | Saw v, Some (n, S c) => guard (items !! c = Some v);; Some f
  | Popped, Some (n, c) => Some (Mailbox (drop c items) None)
  | _, _ => None
  end.

End Ring.
