(* ===== verification/RingProof.v ===== *)
(** * Correctness of the message ring

    A ring whose messages all fit in one cache line never needs padding: under
    every interleaving it is a first-in first-out queue of messages.  With
    longer messages the padding written before a wrap is handed to the
    consumer as a message nobody sent. *)

From S2P Require Import Prelude Interleave SpscQueue RingBuffer.
Import Ring.

(** ** One line per message *)

(** A ring of [m] lines, for messages of at most 60 bytes. *)
Record lines (m : Z) (q : ringbuffer) : Prop := {
  lines_size : size q = 64 * m;
  lines_pow : exists k, 0 <= k < 32 /\ 64 * m = 2 ^ k;
  lines_mask : mask q = 64 * m - 1;
  lines_max : 0 < max_msg_size q <= 60;
  lines_buffer : 64 * m <= Z.of_nat (length (buffer q));
}.

Lemma lines_set_write m q w : lines m q -> lines m (set_write q w).
Proof. intros []. by split. Qed.
Lemma lines_set_read m q r : lines m q -> lines m (set_read q r).
Proof. intros []. by split. Qed.

Lemma align_spec n : 0 <= n -> n + 63 < 2 ^ 64 -> align_to_cache_line n = (n + 63) / 64 * 64.
Proof.
  intros H0 Hn. unfold align_to_cache_line, not64, CACHE_LINE_SIZE, u64.
  replace (n + 64 - 1) with (n + 63) by lia. rewrite Z.mod_small by lia.
  replace (2 ^ 64 - 1 - (64 - 1)) with (Z.land (Z.ones 64) (Z.lnot (Z.ones 6))) by reflexivity.
  rewrite Z.land_assoc, Z.land_ones, Z.mod_small by lia. rewrite <- Z.ldiff_land, Z.ldiff_ones_r by lia.
  rewrite Z.shiftr_div_pow2, Z.shiftl_mul_pow2 by lia. done.
Qed.

Lemma one_line n : 0 < n <= 60 -> total_message_size n = 64.
Proof.
  intros Hn. unfold total_message_size, sizeof_item, u64. rewrite Z.mod_small by lia.
  rewrite align_spec by lia. lia_div.
Qed.

(** The message on line [i]: what its header says, and the bytes after it. *)
Definition line_at (m i : Z) : nat := Z.to_nat (64 * (i mod m)).
Definition header (q : ringbuffer) (m i : Z) : Z := le_value (take 4 (drop (line_at m i) (buffer q))).
Definition message (q : ringbuffer) (m i : Z) : list Z :=
  take (Z.to_nat (header q m i)) (drop (line_at m i + 4) (buffer q)).

Section lines.
Context {m : Z} {q : ringbuffer} (G : lines m q).

Lemma lines_pos : 0 < m.
Proof using G. destruct (lines_pow _ _ G) as (k & Hk & E). assert (0 < 2 ^ k) by lia. lia. Qed.

Lemma wrap_line i : 0 <= i -> WRAP_POSITION q (64 * i) = 64 * (i mod m).
Proof using G.
  intros Hi. unfold WRAP_POSITION. rewrite (lines_mask _ _ G). destruct (lines_pow _ _ G) as (k & Hk & E).
  replace (64 * m - 1) with (Z.ones k) by (rewrite Z.ones_equiv; lia).
  rewrite Z.land_ones, <- E by lia. apply Z.mul_mod_distr_l; pose proof lines_pos; lia.
Qed.

Lemma line_range i : (line_at m i + 64 <= length (buffer q))%nat.
Proof using G.
  pose proof lines_pos. pose proof (Z.mod_pos_bound i m ltac:(lia)). pose proof (lines_buffer _ _ G).
  unfold line_at. lia.
Qed.

Lemma load_size_line i : 0 <= i -> load_size q (ITEM_AT_POS q (64 * i)) = Done (header q m i).
Proof using G.
  intros Hi. unfold load_size, ITEM_AT_POS. rewrite wrap_line by done. fold (line_at m i).
  pose proof (line_range i). rewrite memcpy_in by (simpl; lia). run.
  unfold header. do 2 f_equal. apply app_nil_r.
Qed.

Lemma read_message_line i :
  0 <= header q m i <= 60 -> 0 <= i ->
  read_message q (ITEM_AT_POS q (64 * i) + sizeof_item) (header q m i) = Done (message q m i).
Proof using G.
  intros Hh Hi. unfold read_message, ITEM_AT_POS, sizeof_item, message. rewrite wrap_line by done.
  pose proof lines_pos. pose proof (Z.mod_pos_bound i m ltac:(lia)). pose proof (line_range i).
  replace (Z.to_nat (64 * (i mod m) + 4)) with (line_at m i + 4)%nat by (unfold line_at; lia).
  rewrite memcpy_in by (rewrite ?length_replicate; lia).
  rewrite (drop_ge (replicate _ _)) by (rewrite length_replicate; lia). by rewrite app_nil_r.
Qed.

Lemma store_size_line i n :
  0 <= i -> is_u32 n -> store_size q (ITEM_AT_POS q (64 * i)) n =
    Done (set_buffer q (splice (buffer q) (line_at m i + 0) (le 4 n))).
Proof using G.
  intros Hi Hn. unfold store_size, ITEM_AT_POS. rewrite wrap_line by done. fold (line_at m i).
  unfold u32. rewrite Z.mod_small by done. pose proof (line_range i). rewrite Nat.add_0_r.
  pose proof (length_le 4 n) as Hl. by rewrite memcpy_splice, take_ge by lia.
Qed.

Lemma write_message_line i bs :
  0 <= i -> (length bs <= 60)%nat -> write_message q (ITEM_AT_POS q (64 * i) + sizeof_item) bs =
    Done (set_buffer q (splice (buffer q) (line_at m i + 4) bs)).
Proof using G.
  intros Hi Hbs. unfold write_message, ITEM_AT_POS, sizeof_item. rewrite wrap_line by done.
  pose proof lines_pos. pose proof (Z.mod_pos_bound i m ltac:(lia)). pose proof (line_range i).
  replace (Z.to_nat (64 * (i mod m) + 4)) with (line_at m i + 4)%nat by (unfold line_at; lia).
  by rewrite memcpy_splice, take_ge by lia.
Qed.

(** The header of line [i] after its own two writes. *)
Lemma header_stored i n :
  is_u32 n -> header (set_buffer q (splice (buffer q) (line_at m i + 0) (le 4 n))) m i = n.
Proof using G.
  intros Hn. unfold header. cbn [set_buffer buffer]. pose proof (line_range i). rewrite Nat.add_0_r.
  pose proof (length_le 4 n) as Hl. rewrite <- Hl at 1. rewrite splice_here by lia. by apply le_value_le.
Qed.

Lemma header_filled i bs :
  (length bs <= 60)%nat ->
  header (set_buffer q (splice (buffer q) (line_at m i + 4) bs)) m i = header q m i.
Proof using G.
  intros Hbs. unfold header. cbn [set_buffer buffer]. pose proof (line_range i).
  rewrite splice_elsewhere by lia. done.
Qed.

(** Writing within line [i]. *)
Lemma write_line i off bs :
  0 <= i -> (off + length bs <= 64)%nat ->
  lines m (set_buffer q (splice (buffer q) (line_at m i + off) bs)) /\
  forall j, 0 < i - j < m ->
    header (set_buffer q (splice (buffer q) (line_at m i + off) bs)) m j = header q m j /\
    (0 <= header q m j <= 60 ->
     message (set_buffer q (splice (buffer q) (line_at m i + off) bs)) m j = message q m j).
Proof using G.
  intros Hi Hoff. pose proof (line_range i). split.
  - destruct G. split; try done. cbn [set_buffer buffer]. rewrite length_splice; [done|lia].
  - intros j Hj. pose proof lines_pos as Hm.
    pose proof (slots_apart m 64 j i Hm ltac:(lia) ltac:(lia)) as Hap.
    pose proof (Z.mod_pos_bound i m ltac:(lia)). pose proof (Z.mod_pos_bound j m ltac:(lia)).
    assert (forall a n, (a + n <= 64)%nat ->
      take n (drop (line_at m j + a) (splice (buffer q) (line_at m i + off) bs)) =
      take n (drop (line_at m j + a) (buffer q))) as Hout.
    { intros a n Ha. apply splice_elsewhere; [lia|]. unfold line_at in *. lia. }
    assert (header (set_buffer q (splice (buffer q) (line_at m i + off) bs)) m j = header q m j) as Hh.
    { unfold header. cbn [set_buffer buffer]. 
      pose proof (Hout 0%nat 4%nat ltac:(lia)) as H4. rewrite Nat.add_0_r in H4. by rewrite H4. }
    split; [done|]. intros Hr. unfold message. rewrite Hh. cbn [set_buffer buffer].
    apply Hout. lia.
Qed.

(** Within the ring there is always room up to its end. *)
Lemma until_wrap i : 0 <= i -> 64 <= size q - Z.land (64 * i) (mask q).
Proof using G.
  intros Hi. pose proof (wrap_line i Hi) as Hw. unfold WRAP_POSITION in Hw. rewrite Hw, (lines_size _ _ G).
  pose proof lines_pos. pose proof (Z.mod_pos_bound i m ltac:(lia)). lia.
Qed.
End lines.

(** ** The invariant *)

(** How many messages the ring takes: two lines stay free. *)
Definition room (m : Z) : Z := Z.max 0 (m - 2).

Definition sendable (q : ringbuffer) (n : Z) : Prop := 0 < n <= max_msg_size q.

Definition writer_inv (q : ringbuffer) (m W R : Z) (p : pc) : Prop :=
  match p with
  | W_idle => True
  | W_preparing n p =>
      match p with
      | WP_start => 0 <= n
      | WP_write => sendable q n
      | WP_read w => sendable q n /\ w = 64 * W
      | WP_item w => sendable q n /\ w = 64 * W /\ W - R < room m
      | WP_pad _ _ _ | WP_wrap _ => False
      end
  | W_writing n ptr =>
      sendable q n /\ W - R < room m /\ ptr = ITEM_AT_POS q (64 * W) + sizeof_item /\ header q m W = n
  | W_committing n ptr p =>
      sendable q n /\ W - R < room m /\ ptr = ITEM_AT_POS q (64 * W) + sizeof_item /\ header q m W = n /\
      match p with WC_load ptr' => ptr' = ptr | WC_store c sz => c = 64 * W /\ sz = 64 end
  | _ => False
  end.

Definition batch (W R : Z) (bt : option (nat * nat)) (res : reader_result) (n c : nat) : Prop :=
  bt = Some (n, c) /\
  res = Result (64 * R) (64 * (R + Z.of_nat n)) (64 * (R + Z.of_nat c)) /\
  (c <= n)%nat /\ R + Z.of_nat n <= W.

Definition reader_inv (q : ringbuffer) (m W R : Z) (bt : option (nat * nat)) (p : pc) : Prop :=
  match p with
  | R_idle | R_preparing RP_read => bt = None
  | R_preparing (RP_write r) => bt = None /\ r = 64 * R
  | R_reading res seen =>
      exists n c, batch W R bt res n c /\
        (seen = None \/ exists c', c = S c' /\
           seen = Some (ITEM_AT_POS q (64 * (R + Z.of_nat c')) + sizeof_item, header q m (R + Z.of_nat c')))
  | R_committing res p => exists n c, batch W R bt res n c
  | _ => False
  end.

Record inv (m W R : Z) (q : ringbuffer) (wp rp : pc) (f : mailbox) : Prop := {
  inv_lines : lines m q;
  inv_write : write_pos q = 64 * W;
  inv_read : read_pos q = 64 * R;
  inv_order : 0 <= R <= W;
  inv_bound : 64 * W < 2 ^ 64;
  inv_room : W - R <= room m;
  inv_headers : forall j, R <= j < W -> sendable q (header q m j);
  inv_items : m_items f = message q m <$> seqZ R (W - R);
  inv_writer : writer_inv q m W R wp;
  inv_reader : reader_inv q m W R (m_batch f) rp;
}.

Definition follows (m : Z) (q : ringbuffer) (f : mailbox) (t : nat) (wp rp : pc)
    (s : exec (ringbuffer * pc * list event)) : Prop :=
  exists q' p' es f' W' R', s = Done (q', p', es) /\
    spec_run (mailbox_step (room m) (max_msg_size q)) f (label t es) = Some f' /\
    max_msg_size q' = max_msg_size q /\
    inv m W' R' q' (if (t =? 0)%nat then p' else wp) (if (t =? 0)%nat then rp else p') f'.

Section functions.
Context {m W R : Z} {q : ringbuffer} {wp rp : pc} {f : mailbox} (I : inv m W R q wp rp f).
Let G : lines m q := inv_lines _ _ _ _ _ _ _ I.

Lemma ring_items_length : Z.of_nat (length (m_items f)) = W - R.
Proof using I.
  rewrite (inv_items _ _ _ _ _ _ _ I), length_fmap, length_seqZ. pose proof (inv_order _ _ _ _ _ _ _ I). lia.
Qed.

Lemma ring_writer_local p' es :
  writer_inv q m W R p' ->
  spec_run (mailbox_step (room m) (max_msg_size q)) f (label 0 es) = Some f ->
  follows m q f 0 wp rp (Done (q, p', es)).
Proof using I. intros Hw Hs. exists q, p', es, f, W, R. split_and!; try done. by destruct I. Qed.

Lemma ring_reader_local p' es f' :
  m_items f' = m_items f -> reader_inv q m W R (m_batch f') p' ->
  spec_run (mailbox_step (room m) (max_msg_size q)) f (label 1 es) = Some f' ->
  follows m q f 1 wp rp (Done (q, p', es)).
Proof using I.
  intros Hf Hw Hs. exists q, p', es, f', W, R. split_and!; try done. destruct I. split; try done.
  by rewrite Hf.
Qed.

(** The producer writes within the line after the last message. *)
Lemma write_follows off bs p' :
  W - R < room m -> (off + length bs <= 64)%nat ->
  let q' := set_buffer q (splice (buffer q) (line_at m W + off) bs) in
  writer_inv q' m W R p' -> follows m q f 0 wp rp (Done (q', p', [])).
Proof using I G.
  intros Hroom Hoff q' Hw. pose proof (inv_order _ _ _ _ _ _ _ I) as Hord.
  destruct (write_line G W off bs ltac:(lia) Hoff) as (G' & Hkeep).
  subst q'. set (l := splice _ _ _) in *.
  exists (set_buffer q l), p', [], f, W, R. split_and!; try done.
  assert (forall j, R <= j < W -> 0 < W - j < m) as Hj by (unfold room in Hroom; lia).
  destruct I as [I0 I1 I2 I3 I4 I5 I6 I7 I8 I9]. pose proof (lines_max _ _ I0) as Hmax.
  assert (forall j, R <= j < W -> header (set_buffer q l) m j = header q m j) as Hh
    by (intros j ?; by apply Hkeep, Hj).
  split; try done.
  - intros j ?. unfold sendable. rewrite Hh by done. by apply I6.
  - rewrite I7. apply list_fmap_ext. intros x j Hx. apply lookup_seqZ in Hx as [-> Hx].
    symmetry. apply Hkeep; [apply Hj; lia|]. pose proof (I6 (R + Z.of_nat x) ltac:(lia)) as Hs.
    unfold sendable in Hs. lia.
  - cbn. destruct rp as [| | | | |[]|res seen|res p]; cbn in I9 |- *; try done.
    destruct I9 as (n & c & Hb & [Hs|(c' & Hc & Hs)]); exists n, c; (split; [done|]); [by left|].
    right. exists c'. split; [done|]. rewrite Hs. destruct Hb as (Hb1 & Hb2 & Hb3 & Hb4).
    unfold ITEM_AT_POS, WRAP_POSITION. cbn [set_buffer mask]. by rewrite Hh by lia.
Qed.
(** ringbuffer_writer_prepare *)
Lemma prepare_read_follows n :
  sendable q n -> follows m q f 0 wp rp
    (r ← writer_prepare_step q n (WP_read (64 * W)); let '(q', o) := r in
     Done match o with
          | Continue p' => (q', W_preparing n p', [])
          | Return None => (q', W_idle, [Refused n])
          | Return (Some ptr) => (q', W_writing n ptr, [])
          end).
Proof using I G.
  intros Hn. pose proof (lines_max _ _ G) as Hmax. pose proof (inv_order _ _ _ _ _ _ _ I) as Hord.
  pose proof (inv_bound _ _ _ _ _ _ _ I) as Hb. pose proof (lines_pos G) as Hm.
  pose proof (until_wrap G W ltac:(lia)) as Huw. pose proof (inv_room _ _ _ _ _ _ _ I) as Hroom.
  destruct (lines_pow _ _ G) as (k & Hk & E). assert (2 ^ k < 2 ^ 32) by (apply Z.pow_lt_mono_r; lia).
  cbn [writer_prepare_step mbind exec_bind]. unfold sendable in Hn. rewrite one_line by lia.
  unfold space_between, CACHE_LINE_SIZE, sizeof_item. rewrite (inv_read _ _ _ _ _ _ _ I), (lines_size _ _ G) in *.
  rewrite (proj2 (Z.leb_le (64 * R) _)) by lia.
  assert (u64 (64 * m - (64 * W - 64 * R)) = 64 * m - (64 * W - 64 * R)) as ->.
  { apply Z.mod_small. unfold room in Hroom. lia. }
  change (u64 (64 + 64)) with 128. unfold room in Hroom.
  destruct (Z.leb_spec (64 * m - (64 * W - 64 * R)) 128).
  - apply ring_writer_local; [done|]. rewrite spec_run_one. cbn. rewrite option_guard_True; [done|].
    right. right. rewrite ring_items_length. unfold room. lia.
  - rewrite (proj2 (Z.ltb_ge _ 4)), (proj2 (Z.ltb_ge _ 64)) by lia.
    apply ring_writer_local; [|done]. cbn. unfold sendable, room. lia.
Qed.

(** The producer publishes the message it has filled. *)
Lemma ring_push_follows n ptr :
  writer_inv q m W R (W_committing n ptr (WC_store (64 * W) 64)) -> 64 * W + 64 < 2 ^ 64 ->
  follows m q f 0 wp rp (v ← read_message q ptr n;
    Done (set_write q (u64 (64 * W + 64)), W_idle, [Pushed v])).
Proof using I G.
  intros (Hn & Hroom & -> & Hh & _) Hb. pose proof (inv_order _ _ _ _ _ _ _ I) as Hord.
  pose proof (lines_max _ _ G) as Hmax. unfold sendable in Hn. pose proof (line_range G W) as Hl.
  rewrite <- Hh, (read_message_line G) by lia. run. unfold u64. rewrite Z.mod_small by lia.
  assert (Z.of_nat (length (message q m W)) = n) as Hlen.
  { unfold message. rewrite length_take, length_drop, Hh. lia. }
  eexists _, W_idle, [Pushed (message q m W)], (Mailbox (m_items f ++ [_]) (m_batch f)), (W + 1), R.
  split; [done|]. split.
  { rewrite spec_run_one. cbn. rewrite option_guard_True; [done|]. rewrite ring_items_length. lia. }
  split; [done|]. destruct I as [I0 I1 I2 I3 I4 I5 I6 I7 I8 I9].
  split; try done; [by apply lines_set_write|cbn; lia|lia|lia|lia| | |].
  - intros j Hj. destruct (decide (j = W)) as [->|]; [|apply I6; lia].
    change (header (set_write q _) m W) with (header q m W). unfold sendable. cbn. lia.
  - cbn [m_items]. rewrite I7. replace (W + 1 - R) with (W - R + 1) by lia.
    rewrite seqZ_app, fmap_app by lia. replace (R + (W - R)) with W by lia. done.
  - cbn. clear -I9. destruct rp as [| | | | |[]|res seen|res p]; cbn in I9 |- *; try done.
    + destruct I9 as (n & c & (H1 & H2 & H3 & H4) & Hs). exists n, c. split; [split_and!; try done; lia|done].
    + destruct I9 as (n & c & (H1 & H2 & H3 & H4)). exists n, c. split_and!; try done; lia.
Qed.

Lemma ring_writer_follows p a s :
  writer_inv q m W R p -> admissible q p -> thread_step a q p = Some s -> follows m q f 0 wp rp s.
Proof using I G.
  intros Hw Hadm Hs. pose proof (inv_order _ _ _ _ _ _ _ I) as Hord. pose proof (lines_max _ _ G) as Hmax.
  pose proof (inv_write _ _ _ _ _ _ _ I) as HW.
  destruct p as [|n [| |w|w mk sp|w|w]|n ptr|n ptr [ptr'|c sz]|p|p|res seen|res p]; try done;
    destruct a; cbn [thread_step] in Hs; try discriminate Hs; try (apply (inj Some) in Hs as <-).
  - case_decide; [|done]. apply (inj Some) in Hs as <-. apply ring_writer_local; [|done]. cbn. lia.
  - cbn in Hw |- *. destruct ((n =? 0) || (max_msg_size q <? n)) eqn:E.
    + apply ring_writer_local; [done|]. rewrite spec_run_one. cbn. rewrite option_guard_True; [done|]. lia.
    + apply ring_writer_local; [|done]. cbn. unfold sendable. lia.
  - apply ring_writer_local; [|done]. by split.
  - destruct Hw as [Hn ->]. by apply prepare_read_follows.
  - destruct Hw as (Hn & -> & Hroom). cbn [writer_prepare_step]. unfold sendable in Hn.
    assert (is_u32 n) as Hn32 by (unfold is_u32; lia).
    rewrite (store_size_line G) by (done || lia). run.
    apply (write_follows 0 (le 4 n)); [done|rewrite length_le; lia|].
    split; [exact Hn|]. split_and!; [done|done|]. by apply (header_stored G).
  - case_decide; [|done]. apply (inj Some) in Hs as <-. destruct Hw as (Hn & Hroom & -> & Hh).
    unfold sendable in Hn. rewrite (write_message_line G) by lia. run.
    apply (write_follows 4 bs); [done|lia|]. split; [exact Hn|]. split_and!; [done|done|].
    rewrite (header_filled G) by lia. done.
  - destruct Hw as (Hn & Hroom & -> & Hh). by apply ring_writer_local.
  - destruct Hw as (Hn & Hroom & -> & Hh & ->). cbn [writer_commit_step].
    replace (ITEM_AT_POS q (64 * W) + sizeof_item - sizeof_item) with (ITEM_AT_POS q (64 * W)) by lia.
    rewrite (load_size_line G) by lia. run. rewrite HW, Z.eqb_refl. run. unfold sendable in Hn.
    rewrite Hh, one_line by lia. apply ring_writer_local; [|done]. by split_and!.
  - pose proof Hw as (_ & _ & _ & _ & -> & ->). cbn in Hadm. cbn [writer_commit_step mbind exec_bind].
    apply ring_push_follows; [done|lia].
Qed.
(** ringbuffer_result_next: no message ends beyond the end of the ring. *)
Lemma take_message_line res i :
  0 <= i -> sendable q (header q m i) -> 64 * i + 64 < 2 ^ 64 ->
  take_message q res (64 * i) (header q m i) =
    Done (set_current res (64 * (i + 1)), Some (ITEM_AT_POS q (64 * i) + sizeof_item, header q m i)).
Proof using I G.
  intros Hi Hs Hb. pose proof (lines_max _ _ G) as Hmax. unfold sendable in Hs. unfold take_message.
  rewrite (proj2 (Z.leb_le _ _)) by lia. run. rewrite one_line by lia.
  unfold u64. rewrite (Z.mod_small (64 * i + 64)) by lia.
  replace (64 * i + 64) with (64 * (i + 1)) by lia.
  pose proof (until_wrap G (i + 1) ltac:(lia)). unfold sizeof_item.
  by rewrite (proj2 (Z.ltb_ge _ _)) by lia.
Qed.

Lemma ring_next_follows res seen :
  reader_inv q m W R (m_batch f) (R_reading res seen) ->
  follows m q f 1 wp rp
    (r ← ringbuffer_result_next q res;
     Done match r with
          | (res', Some seen) => (q, R_reading res' (Some seen), [Moved])
          | (res', None) => (q, R_reading res' None, [AtEnd])
          end).
Proof using I G.
  intros (n & c & Hb & _). pose proof Hb as (Hb1 & Hb2 & Hb3 & Hb4).
  pose proof (inv_order _ _ _ _ _ _ _ I) as Hord. pose proof (inv_bound _ _ _ _ _ _ _ I) as Hbd.
  unfold ringbuffer_result_next. rewrite Hb2. cbn [start_pos current_pos end_pos].
  destruct (Z.leb_spec (64 * (R + Z.of_nat n)) (64 * (R + Z.of_nat c))) as [Hc|Hc].
  - run. apply (ring_reader_local _ [AtEnd] f); [done| |].
    + exists n, c. subst res. auto.
    + rewrite spec_run_one. cbn. rewrite Hb1. rewrite option_guard_True; [done|]. lia.
  - rewrite (load_size_line G) by lia. run.
    pose proof (inv_headers _ _ _ _ _ _ _ I (R + Z.of_nat c) ltac:(lia)) as Hs.
    rewrite (proj2 (Z.eqb_neq _ 0)) by (unfold sendable in Hs; lia).
    rewrite take_message_line by (done || lia). run.
    eapply (ring_reader_local _ [Moved] (Mailbox (m_items f) (Some (n, S c)))); [done| |].
    + exists n, (S c). split; [|right; by exists c]. split_and!; [done| |lia|lia].
      unfold set_current. cbn [start_pos end_pos]. f_equal. lia.
    + rewrite spec_run_one. cbn. rewrite Hb1. rewrite option_guard_True; [done|]. lia.
Qed.

(** The consumer gives back what it has moved past. *)
Lemma ring_pop_follows res n c :
  batch W R (m_batch f) res n c ->
  follows m q f 1 wp rp (Done (set_read q (current_pos res), R_idle, [Popped])).
Proof using I G.
  intros (Hb & -> & Hc & Hn). cbn [current_pos].
  exists (set_read q (64 * (R + Z.of_nat c))), R_idle, [Popped], (Mailbox (drop c (m_items f)) None),
    W, (R + Z.of_nat c).
  split; [done|]. split; [rewrite spec_run_one; cbn; by rewrite Hb|]. split; [done|].
  destruct I as [I0 I1 I2 I3 I4 I5 I6 I7 I8 I9].
  split; try done; [by apply lines_set_read|lia|lia| | |].
  - intros j Hj. apply I6. lia.
  - cbn [m_items]. rewrite I7, <- fmap_drop.
    replace (W - R) with (Z.of_nat c + (W - (R + Z.of_nat c))) by lia.
    rewrite seqZ_app by lia. rewrite drop_app_length'; [done|]. rewrite length_seqZ. lia.
  - cbn. clear -I8 Hn. destruct wp as [|n' []|n' ptr|n' ptr []| | | |]; cbn in I8 |- *; try done;
      destruct_and?; split_and?; try done; lia.
Qed.

Lemma ring_reader_follows p a s :
  reader_inv q m W R (m_batch f) p -> thread_step a q p = Some s -> follows m q f 1 wp rp s.
Proof using I G.
  intros Hr Hs. pose proof ring_items_length as Hlen. pose proof (inv_order _ _ _ _ _ _ _ I) as Hord.
  pose proof (inv_write _ _ _ _ _ _ _ I) as HW. pose proof (inv_read _ _ _ _ _ _ _ I) as HR.
  destruct p as [|n p|n ptr|n ptr p| |[|r]|res seen|res [|]]; try done;
    destruct a; cbn [thread_step] in Hs; try discriminate Hs; try (apply (inj Some) in Hs as <-).
  - by apply (ring_reader_local _ _ f).
  - by apply (ring_reader_local _ _ f).
  - destruct Hr as [Hr ->]. cbn [reader_prepare_step]. rewrite HW.
    destruct (Z.eqb_spec (64 * R) (64 * W)).
    + apply (ring_reader_local _ _ f); [done|done|]. rewrite spec_run_one. cbn. rewrite Hr.
      rewrite option_guard_True; [done|]. apply nil_length_inv. lia.
    + eapply (ring_reader_local _ _ (Mailbox (m_items f) (Some (length (m_items f), 0%nat)))); [done| |].
      * exists (length (m_items f)), 0%nat. split; [|by left]. split_and!; [done| |lia|lia].
        f_equal; lia.
      * rewrite spec_run_one. cbn. rewrite Hr. rewrite option_guard_True; [done|].
        intros E. rewrite E in Hlen. cbn in Hlen. lia.
  - by apply (ring_next_follows res seen).
  - destruct seen as [[ptr sz]|]; [|done]. apply (inj Some) in Hs as <-.
    destruct Hr as (n & c & Hb & [?|(c' & -> & Hse)]); [done|]. injection Hse as -> ->.
    pose proof Hb as (Hb1 & Hb2 & Hb3 & Hb4). pose proof (lines_max _ _ G) as Hmax.
    pose proof (inv_headers _ _ _ _ _ _ _ I (R + Z.of_nat c') ltac:(lia)) as Hh. unfold sendable in Hh.
    cbn [fst snd]. rewrite (read_message_line G) by lia. run.
    eapply (ring_reader_local _ _ f); [done| |].
    + exists n, (S c'). split; [done|]. right. by exists c'.
    + rewrite spec_run_one. cbn. rewrite Hb1. rewrite option_guard_True; [done|].
      rewrite (inv_items _ _ _ _ _ _ _ I), list_lookup_fmap, lookup_seqZ_lt by lia. done.
  - destruct Hr as (n & c & Hb & _). apply (ring_reader_local _ _ f); [done| |done]. by exists n, c.
  - destruct Hr as (n & c & Hb). pose proof Hb as (_ & -> & _). cbn [reader_commit_step start_pos].
    rewrite HR, Z.eqb_refl. run. apply (ring_reader_local _ _ f); [done| |done]. by exists n, c.
  - destruct Hr as (n & c & Hb). cbn [reader_commit_step mbind exec_bind]. by apply (ring_pop_follows res n c).
Qed.
End functions.

(** ** The system *)

Definition related (m : Z) (s : sys ringbuffer pc) (f : mailbox) : Prop :=
  exists wp rp W R, locals s = [wp; rp] /\ inv m W R (shared s) wp rp f.

Lemma ring_related_thread m W R q wp rp f t p a s :
  inv m W R q wp rp f -> [wp; rp] !! t = Some p -> admissible q p -> thread_step a q p = Some s ->
  (t = 0%nat \/ t = 1%nat) /\ follows m q f t wp rp s.
Proof.
  intros I Ht Hadm Hs. destruct t as [|[|t]]; [| |by destruct t]; injection Ht as <-.
  - split; [by left|]. eapply ring_writer_follows; eauto. apply I.
  - split; [by right|]. eapply ring_reader_follows; eauto. apply I.
Qed.

Lemma ring_related_step m mx s f es s' :
  related m s f /\ max_msg_size (shared s) = mx -> step thread_step admissible s es s' ->
  exists f', spec_run (mailbox_step (room m) mx) f es = Some f' /\ related m s' f' /\
    max_msg_size (shared s') = mx.
Proof.
  intros [(wp & rp & W & R & Hl & I) <-] Hs. destruct Hs as [t a q ps p q1 p1 es Ht Hadm Hst].
  cbn in Hl, I |- *. subst ps. destruct (ring_related_thread _ _ _ _ _ _ _ _ _ _ _ I Ht Hadm Hst) as [Ht' Hf].
  destruct Hf as (q' & p' & es' & f' & W' & R' & [= -> -> ->] & Hsp & Hmx & I').
  exists f'. split; [done|]. split; [|done]. destruct Ht' as [-> | ->].
  - by exists p', rp, W', R'.
  - by exists wp, p', W', R'.
Qed.

Lemma ring_related_safe m s f : related m s f -> never_aborts thread_step admissible s.
Proof.
  intros (wp & rp & W & R & Hl & I) t a p Ht Hadm Hst. rewrite Hl in Ht.
  destruct (ring_related_thread _ _ _ _ _ _ _ _ _ _ _ I Ht Hadm Hst)
    as [_ (q' & p' & es' & f' & W' & R' & ? & _)]. done.
Qed.

(** The number of lines of the ring that [ringbuffer_create] makes. *)
Definition created_lines (size : Z) : Z := 2 ^ Z.log2_up size / 64.

Lemma ring_create_spec size mx :
  33 <= size <= 2 ^ 31 -> 0 < mx <= 60 ->
  exists q, ringbuffer_create true size mx = inl q /\ max_msg_size q = mx /\
    inv (created_lines size) 0 0 q W_idle R_idle (Mailbox [] None).
Proof.
  intros Hs Hmx. unfold ringbuffer_create, sizeof_ringbuffer, sizeof_item, created_lines.
  rewrite (proj2 (Z.eqb_neq size 0)), (proj2 (Z.eqb_neq mx 0)) by lia. cbn [orb negb].
  assert (u32 size = size) as -> by (apply Z.mod_small; lia). rewrite next_power_of_2_log2 by lia.
  assert (6 <= Z.log2_up size <= 31) as Hk.
  { split; [change 6 with (Z.log2_up 33)|change 31 with (Z.log2_up (2 ^ 31))]; apply Z.log2_up_le_mono; lia. }
  set (k := Z.log2_up size) in *.
  assert (2 ^ 6 <= 2 ^ k <= 2 ^ 31) as Hp by (split; apply Z.pow_le_mono_r; lia).
  assert (64 * (2 ^ k / 64) = 2 ^ k) as Hdiv.
  { change 64 with (2 ^ 6). rewrite <- Z.pow_sub_r, <- Z.pow_add_r by lia. f_equal. lia. }
  assert (u32 (2 ^ k) = 2 ^ k) as -> by (apply Z.mod_small; lia).
  unfold u64. rewrite (Z.mod_small (mx + 4)) by lia. rewrite (proj2 (Z.ltb_ge (2 ^ k) _)) by lia.
  rewrite align_spec by lia. assert ((2 ^ k + 63) / 64 * 64 = 2 ^ k) as -> by lia_div.
  rewrite Z.mod_small by lia. rewrite (proj2 (Z.ltb_ge _ 192)) by lia.
  eexists. split; [done|]. split; [done|].
  split; try done; cbn [write_pos read_pos]; try lia; try (unfold room; lia).
  split; cbn; try done; try lia; [exists k; lia|]. rewrite length_replicate. unfold offsetof_buffer. lia.
Qed.

(** C32: a message ring created for messages of at most 60 bytes, so that each
    takes one cache line, refines under every interleaving of its producer
    and its consumer a first-in first-out queue of messages holding two fewer
    than the ring has lines: a message is refused only if it is empty or too
    long or the queue is full, the consumer sees each message with its length
    and bytes unchanged and in order, and no assertion fails. *)
Theorem ring_refines size mx :
  33 <= size <= 2 ^ 31 -> 0 < mx <= 60 ->
  exists q, ringbuffer_create true size mx = inl q /\
    forall tr s, steps thread_step admissible (start q) tr s ->
      is_Some (spec_run (mailbox_step (room (created_lines size)) mx) (Mailbox [] None) tr) /\
      never_aborts thread_step admissible s.
Proof.
  intros Hs Hmx. destruct (ring_create_spec size mx Hs Hmx) as (q & Hq & Hm & I).
  exists q. split; [done|]. intros tr s Hst.
  destruct (simulation thread_step admissible (mailbox_step (room (created_lines size)) mx)
    (fun s f => related (created_lines size) s f /\ max_msg_size (shared s) = mx)
    (fun s0 f0 es0 s1 => ring_related_step _ mx s0 f0 es0 s1) (start q) (Mailbox [] None) tr s)
    as (f & Hf & HR & _).
  - split; [|done]. by exists W_idle, R_idle, 0, 0.
  - done.
  - split; [by exists f|by eapply ring_related_safe].
Qed.

(** The longest messages such a ring takes. *)
Definition ring_demo_queue : ringbuffer :=
  match ringbuffer_create true 256 60 with inl q => q | inr _ => Ringbuffer 0 0 0 0 0 [] end.

Definition ring_push (bs : list Z) : list (nat * action) :=
  [(0%nat, CallWriterPrepare (Z.of_nat (length bs))); (0%nat, Run); (0%nat, Run); (0%nat, Run);
   (0%nat, Run); (0%nat, Fill bs); (0%nat, CallWriterCommit); (0%nat, Run); (0%nat, Run)].

Definition ring_demo : list (nat * action) :=
  ring_push [1; 2; 3] ++ ring_push [4] ++
  [(0%nat, CallWriterPrepare 5); (0%nat, Run); (0%nat, Run); (0%nat, Run)] ++
  [(1%nat, CallReaderPrepare); (1%nat, Run); (1%nat, Run); (1%nat, CallReaderNext); (1%nat, Look);
   (1%nat, CallReaderNext); (1%nat, Look); (1%nat, CallReaderNext); (1%nat, CallReaderCommit);
   (1%nat, Run); (1%nat, Run)].

Definition ring_demo_end : sys ringbuffer pc :=
  from_option fst (start ring_demo_queue)
    (run_schedule thread_step admissible (start ring_demo_queue) ring_demo).

Lemma ring_refines_witness :
  run_schedule thread_step admissible (start ring_demo_queue) ring_demo = Some (ring_demo_end,
    [(0%nat, Pushed [1; 2; 3]); (0%nat, Pushed [4]); (0%nat, Refused 5); (1%nat, Opened);
     (1%nat, Moved); (1%nat, Saw [1; 2; 3]); (1%nat, Moved); (1%nat, Saw [4]); (1%nat, AtEnd);
     (1%nat, Popped)]) /\
  never_aborts thread_step admissible ring_demo_end.
Proof.
  destruct (ring_refines 256 60 ltac:(lia) ltac:(lia)) as (q & Hq & H).
  assert (q = ring_demo_queue) as -> by (unfold ring_demo_queue; by rewrite Hq).
  refine ((fun Hr => conj Hr (proj2 (H _ _ (run_schedule_steps _ _ _ _ _ _ Hr)))) _).
  vm_compute. reflexivity.
Defined.

(** ** Padding *)

(** A ring of 256 bytes for messages of up to 100: two messages are sent and
    received, and the next one, which does not fit before the end of the ring,
    is refused. *)
Definition padded_queue : ringbuffer :=
  match ringbuffer_create true 256 100 with inl q => q | inr _ => Ringbuffer 0 0 0 0 0 [] end.

Definition ring_pull : list (nat * action) :=
  [(1%nat, CallReaderPrepare); (1%nat, Run); (1%nat, Run); (1%nat, CallReaderNext);
   (1%nat, CallReaderNext); (1%nat, CallReaderCommit); (1%nat, Run); (1%nat, Run)].

Definition padded_run : list (nat * action) :=
  ring_push (replicate 60 1) ++ ring_pull ++ ring_push (replicate 100 2) ++ ring_pull ++
  (0%nat, CallWriterPrepare 100) :: replicate 7 (0%nat, Run).

Definition padded_read : list (nat * action) :=
  [(1%nat, CallReaderPrepare); (1%nat, Run); (1%nat, Run); (1%nat, CallReaderNext); (1%nat, Look);
   (1%nat, CallReaderCommit); (1%nat, Run); (1%nat, Run)].

Definition padded_state : sys ringbuffer pc :=
  from_option fst (start padded_queue)
    (run_schedule thread_step admissible (start padded_queue) padded_run).

Definition broken_state : sys ringbuffer pc :=
  from_option fst (start padded_queue)
    (run_schedule thread_step admissible padded_state padded_read).

(** The padding ringbuffer_writer_prepare writes when a message does not
    fit before the end of the ring is taken for a message: its size field
    holds the bytes left, while ringbuffer_result_next recognises padding by
    size zero.  On a ring of 256 bytes both messages that were sent have been
    received and the third was refused; the consumer is then given a message
    of 64 bytes that nobody sent, and after it has released it the read
    position lies beyond the write position. *)
Theorem ring_padding_read :
  run_schedule thread_step admissible (start padded_queue) padded_run = Some (padded_state,
    [(0%nat, Pushed (replicate 60 1)); (1%nat, Opened); (1%nat, Moved); (1%nat, AtEnd); (1%nat, Popped);
     (0%nat, Pushed (replicate 100 2)); (1%nat, Opened); (1%nat, Moved); (1%nat, AtEnd); (1%nat, Popped);
     (0%nat, Refused 100)]) /\
  (exists v, length v = 64%nat /\
    run_schedule thread_step admissible padded_state padded_read = Some (broken_state,
      [(1%nat, Opened); (1%nat, Moved); (1%nat, Saw v); (1%nat, Popped)])) /\
  write_pos (shared broken_state) < read_pos (shared broken_state).
Proof.
  split; [vm_compute; reflexivity|]. split; [|vm_compute; reflexivity].
  eexists. split; [|vm_compute; reflexivity]. reflexivity.
Qed.
