(* ===== verification/Sds.v ===== *)
(** * Dynamic strings: src/demo/config_parse/sds.c

    An [sds] is a byte buffer with a header that records how much of it is
    used and how much is free; the byte after the used part is always zero.
    Characters are the bytes 0..255 of the "C" locale.  The memory that
    zmalloc and zrealloc hand out is not initialised: its content is the
    parameter [junk].  When there is no memory zmalloc.c aborts the program,
    so the tests for a null result never fire and are left out. *)

From S2P Require Import Prelude.

Module Sds.

Definition SDS_MAX_PREALLOC : Z := 1024 * 1024.

Record sdshdr := Sdshdr { len : Z; free : Z; buf : list Z }.

Definition sdslen (s : sdshdr) : Z := u64 (len s).
Definition sdsavail (s : sdshdr) : Z := u64 (free s).

(** ** What the code uses of the C library *)

(** [strlen]: the string must be terminated within its object. *)
Fixpoint strlen (s : list Z) : exec nat :=
  match s with
  | [] => Fault
  | c :: s' => if c =? 0 then Done O else n ← strlen s'; Done (S n)
  end.

(** [strchr(cset, c) != NULL]: the terminator counts as a character. *)
Fixpoint strchr (cset : list Z) (c : Z) : exec bool :=
  match cset with
  | [] => Fault
  | x :: cset' => if x =? c then Done true else if x =? 0 then Done false else strchr cset' c
  end.

(** [memcmp] on the first [n] bytes. *)
Fixpoint memcmp (a b : list Z) (n : nat) : exec Z :=
  match n, a, b with
  | O, _, _ => Done 0
  | S n', x :: a', y :: b' =>
      if x =? y then memcmp a' b' n' else Done (if x <? y then -1 else 1)
  | _, _, _ => Fault
  end.

Definition isspace (c : Z) : bool := (c =? 32) || ((9 <=? c) && (c <=? 13)).
Definition isprint (c : Z) : bool := (32 <=? c) && (c <=? 126).
Definition tolower (c : Z) : Z := if (65 <=? c) && (c <=? 90) then c + 32 else c.
Definition toupper (c : Z) : Z := if (97 <=? c) && (c <=? 122) then c - 32 else c.

Section sds.
Context (junk : nat -> list Z).

(** A block of [n] bytes that keeps what it has of the old one. *)
Definition zrealloc (old : list Z) (n : nat) : list Z := take n old ++ junk (n - length old).

(** ** Creation *)

(** [init]: the bytes pointed to, or the null pointer. *)
Definition sdsnewlen (init : option (list Z)) (initlen : nat) : exec sdshdr :=
  let block := match init with
               | Some _ => junk (initlen + 1)
               | None => replicate (initlen + 1) 0
               end in
  block ← match init with
          | Some t => if (initlen =? 0)%nat then Done block else memcpy block 0 t 0 initlen
          | None => Done block
          end;
  block ← store block initlen 0;
  Done (Sdshdr (s32 (Z.of_nat initlen)) 0 block).

Definition sdsempty : exec sdshdr := sdsnewlen (Some [0]) 0.

Definition sdsnew (init : option (list Z)) : exec sdshdr :=
  initlen ← match init with None => Done O | Some t => strlen t end;
  sdsnewlen init initlen.

Definition sdsdup (s : sdshdr) : exec sdshdr := sdsnewlen (Some (buf s)) (Z.to_nat (sdslen s)).

(** ** Lengths and room *)

Definition sdsupdatelen (s : sdshdr) : exec sdshdr :=
  n ← strlen (buf s);
  let reallen := s32 (Z.of_nat n) in
  Done (Sdshdr reallen (s32 (free s + s32 (len s - reallen))) (buf s)).

Definition sdsclear (s : sdshdr) : exec sdshdr :=
  b ← store (buf s) 0 0;
  Done (Sdshdr 0 (s32 (free s + len s)) b).

Definition sdsMakeRoomFor (s : sdshdr) (addlen : Z) : sdshdr :=
  if addlen <=? sdsavail s then s else
  let len0 := sdslen s in
  let newlen := u64 (len0 + addlen) in
  let newlen := if newlen <? SDS_MAX_PREALLOC then newlen * 2 else u64 (newlen + SDS_MAX_PREALLOC) in
  Sdshdr (len s) (s32 (newlen - len0)) (zrealloc (buf s) (Z.to_nat newlen + 1)).

Definition sdsRemoveFreeSpace (s : sdshdr) : sdshdr :=
  Sdshdr (len s) 0 (zrealloc (buf s) (Z.to_nat (len s) + 1)).

Definition sdsAllocSize (s : sdshdr) : Z := 8 + len s + free s + 1.

Definition sdsIncrLen (s : sdshdr) (incr : Z) : exec sdshdr :=
  if free s <? incr then Fault else
  let s' := Sdshdr (s32 (len s + incr)) (s32 (free s - incr)) (buf s) in
  if free s' <? 0 then Fault else
  b ← storez (buf s') (len s') 0;
  Done (Sdshdr (len s') (free s') b).

(** ** Growing and copying *)

Definition sdsgrowzero (s : sdshdr) (len' : Z) : exec sdshdr :=
  let curlen := u64 (len s) in
  if len' <=? curlen then Done s else
  let s := sdsMakeRoomFor s (len' - curlen) in
  b ← memset (buf s) (Z.to_nat curlen) 0 (Z.to_nat (len' - curlen + 1));
  let totlen := u64 (s32 (len s + free s)) in
  Done (Sdshdr (s32 len') (s32 (totlen - u64 (s32 len'))) b).

Definition sdscatlen (s : sdshdr) (t : list Z) (n : nat) : exec sdshdr :=
  let curlen := sdslen s in
  let s := sdsMakeRoomFor s (Z.of_nat n) in
  b ← memcpy (buf s) (Z.to_nat curlen) t 0 n;
  b ← storez b (curlen + Z.of_nat n) 0;
  Done (Sdshdr (s32 (curlen + Z.of_nat n)) (s32 (free s - Z.of_nat n)) b).

Definition sdscat (s : sdshdr) (t : list Z) : exec sdshdr := n ← strlen t; sdscatlen s t n.

Definition sdscatsds (s t : sdshdr) : exec sdshdr := sdscatlen s (buf t) (Z.to_nat (sdslen t)).

Definition sdscpylen (s : sdshdr) (t : list Z) (n : nat) : exec sdshdr :=
  let totlen := u64 (s32 (free s + len s)) in
  let s := if totlen <? Z.of_nat n then sdsMakeRoomFor s (u64 (Z.of_nat n - len s)) else s in
  let totlen := u64 (s32 (free s + len s)) in
  b ← memcpy (buf s) 0 t 0 n;
  b ← store b n 0;
  Done (Sdshdr (s32 (Z.of_nat n)) (s32 (totlen - Z.of_nat n)) b).

Definition sdscpy (s : sdshdr) (t : list Z) : exec sdshdr := n ← strlen t; sdscpylen s t n.

(** ** Numbers as text *)

Definition SDS_LLSTR_SIZE : nat := 21.

(** The digits of [v], the last one first, written from [p] on. *)
Fixpoint put_digits (fuel : nat) (s : list Z) (p : nat) (v : Z) : exec (list Z * nat) :=
  s ← store s p (48 + v mod 10);
  let v := v / 10 in
  if v =? 0 then Done (s, S p) else
  match fuel with O => NoFuel | S fuel' => put_digits fuel' s (S p) v end.

(** The loop that reverses [s[i..p]]. *)
Fixpoint reverse_loop (fuel : nat) (s : list Z) (i p : nat) : exec (list Z) :=
  if (i <? p)%nat then
    match fuel with
    | O => NoFuel
    | S fuel' =>
        aux ← load s i;
        x ← load s p;
        s ← store s i x;
        s ← store s p aux;
        reverse_loop fuel' s (S i) (p - 1)
    end
  else Done s.

(** From the digits on: the terminator and the reversal; the length is the
    result. *)
Definition finish_digits (s : list Z) (p : nat) : exec (list Z * nat) :=
  s ← store s p 0;
  s ← reverse_loop p s 0 (p - 1);
  Done (s, p).

Definition sdsll2str (s : list Z) (value : Z) : exec (list Z * nat) :=
  let v := if value <? 0 then u64 (- value) else value in
  d ← put_digits 20 s 0 v; let '(s, p) := d in
  d ← (if value <? 0 then s ← store s p 45; Done (s, S p) else Done (s, p)); let '(s, p) := d in
  finish_digits s p.

Definition sdsull2str (s : list Z) (v : Z) : exec (list Z * nat) :=
  d ← put_digits 20 s 0 v; let '(s, p) := d in
  finish_digits s p.

Definition sdsfromlonglong (value : Z) : exec sdshdr :=
  d ← sdsll2str (junk SDS_LLSTR_SIZE) value; let '(b, n) := d in
  sdsnewlen (Some b) n.

(** ** Formatted output *)

(** The buffer after vsnprintf has written the text [out] to it: what fits,
    and a terminator. *)
Definition vsnprintf (b : list Z) (out : list Z) : exec (list Z) :=
  let w := take (length b - 1) out ++ [0] in
  memcpy b 0 w 0 (length w).

(** sdscatvprintf, [fmtlen] the length of the format and [out] the text that
    the format and the arguments stand for: the buffer is doubled until the
    text fits. *)
Fixpoint print_loop (fuel : nat) (b out : list Z) : exec (list Z) :=
  b ← store b (length b - 2) 0;
  b ← vsnprintf b out;
  c ← load b (length b - 2);
  if c =? 0 then Done b else
  match fuel with
  | O => NoFuel
  | S fuel' => print_loop fuel' (junk (length b * 2)) out
  end.

Definition sdscatvprintf (s : sdshdr) (fmtlen : nat) (out : list Z) : exec sdshdr :=
  let buflen := (fmtlen * 2)%nat in
  let b := junk (if (1024 <? buflen)%nat then buflen else 1024) in
  b ← print_loop (length out) b out;
  sdscat s b.

(** The formats of sdscatrepr: "%c", "\%c" and "\x%02x". *)
Definition hex_digit (d : Z) : Z := if d <? 10 then 48 + d else 87 + d.
Definition sdscatprintf_c (s : sdshdr) (c : Z) : exec sdshdr := sdscatvprintf s 2 [c].
Definition sdscatprintf_bc (s : sdshdr) (c : Z) : exec sdshdr := sdscatvprintf s 3 [92; c].
Definition sdscatprintf_x (s : sdshdr) (c : Z) : exec sdshdr :=
  sdscatvprintf s 6 [92; 120; hex_digit (c / 16); hex_digit (c mod 16)].

(** sdscatfmt: the variable arguments. *)
Inductive fmt_arg :=
  | ArgStr (t : list Z)
  | ArgSds (t : sdshdr)
  | ArgInt (z : Z).

(** Room for [l] bytes, and the copy to [s + i]. *)
Definition fmt_copy (s : sdshdr) (i : Z) (t : list Z) (l : nat) : exec (sdshdr * Z) :=
  let s := if sdsavail s <? Z.of_nat l then sdsMakeRoomFor s (Z.of_nat l) else s in
  b ← memcpy (buf s) (Z.to_nat i) t 0 l;
  Done (Sdshdr (s32 (len s + Z.of_nat l)) (s32 (free s - Z.of_nat l)) b, s32 (i + Z.of_nat l)).

Definition fmt_char (s : sdshdr) (i c : Z) : exec (sdshdr * Z) :=
  b ← storez (buf s) i c;
  Done (Sdshdr (s32 (len s + 1)) (s32 (free s - 1)) b, s32 (i + 1)).

(** One conversion; [%i] and [%u] pass an [int], [%I] and [%U] 64 bits. *)
Definition fmt_conversion (s : sdshdr) (i next : Z) (args : list fmt_arg)
    : exec (sdshdr * Z * list fmt_arg) :=
  let finish (r : exec (sdshdr * Z)) args := d ← r; Done (d.1, d.2, args) in
  if next =? 115 then                                   (* 's' *)
    match args with
    | ArgStr t :: args => n ← strlen t; finish (fmt_copy s i t n) args
    | _ => Fault
    end
  else if next =? 83 then                               (* 'S' *)
    match args with
    | ArgSds t :: args => finish (fmt_copy s i (buf t) (Z.to_nat (sdslen t))) args
    | _ => Fault
    end
  else if (next =? 105) || (next =? 73) then            (* 'i', 'I' *)
    match args with
    | ArgInt z :: args =>
        d ← sdsll2str (junk SDS_LLSTR_SIZE) (if next =? 105 then s32 z else z);
        let '(b, n) := d in finish (fmt_copy s i b n) args
    | _ => Fault
    end
  else if (next =? 117) || (next =? 85) then            (* 'u', 'U' *)
    match args with
    | ArgInt z :: args =>
        d ← sdsull2str (junk SDS_LLSTR_SIZE) (if next =? 117 then u32 z else z);
        let '(b, n) := d in finish (fmt_copy s i b n) args
    | _ => Fault
    end
  else finish (fmt_char s i next) args.

Fixpoint fmt_loop (f : list Z) (s : sdshdr) (i : Z) (args : list fmt_arg) : exec sdshdr :=
  match f with
  | [] => Fault
  | c :: f' =>
      if c =? 0 then b ← storez (buf s) i 0; Done (Sdshdr (len s) (free s) b) else
      let s := if free s =? 0 then sdsMakeRoomFor s 1 else s in
      if c =? 37 then                                   (* '%' *)
        match f' with
        | [] => Fault
        | next :: f'' =>
            r ← fmt_conversion s i next args; let '(s, i, args) := r in
            fmt_loop f'' s i args
        end
      else
        r ← fmt_char s i c; let '(s, i) := r in
        fmt_loop f' s i args
  end.

Definition sdscatfmt (s : sdshdr) (fmt : list Z) (args : list fmt_arg) : exec sdshdr :=
  fmt_loop fmt s (s32 (sdslen s)) args.

(** ** Parts of a string *)

(** The two scans of sdstrim; [end_] and [ep] may be one before the start. *)
Fixpoint trim_left (fuel : nat) (s cset : list Z) (sp end_ : Z) : exec Z :=
  if sp <=? end_ then
    c ← loadz s sp; t ← strchr cset c;
    if t : bool then match fuel with O => NoFuel | S fuel' => trim_left fuel' s cset (sp + 1) end_ end
    else Done sp
  else Done sp.

Fixpoint trim_right (fuel : nat) (s cset : list Z) (ep : Z) : exec Z :=
  if 0 <? ep then
    c ← loadz s ep; t ← strchr cset c;
    if t : bool then match fuel with O => NoFuel | S fuel' => trim_right fuel' s cset (ep - 1) end
    else Done ep
  else Done ep.

Definition sdstrim (s : sdshdr) (cset : list Z) : exec sdshdr :=
  let end_ := sdslen s - 1 in
  sp ← trim_left (length (buf s)) (buf s) cset 0 end_;
  ep ← trim_right (length (buf s)) (buf s) cset end_;
  let n := if ep <? sp then 0 else ep - sp + 1 in
  b ← (if sp =? 0 then Done (buf s) else memcpy (buf s) 0 (buf s) (Z.to_nat sp) (Z.to_nat n));
  b ← storez b n 0;
  Done (Sdshdr (s32 n) (s32 (free s + (len s - n))) b).

Definition sdsrange (s : sdshdr) (start end_ : Z) : exec sdshdr :=
  let l := sdslen s in
  if l =? 0 then Done s else
  let start := if start <? 0 then let x := s32 (l + start) in if x <? 0 then 0 else x else start in
  let end_ := if end_ <? 0 then let x := s32 (l + end_) in if x <? 0 then 0 else x else end_ in
  let newlen := if end_ <? start then 0 else u64 (s32 (end_ - start + 1)) in
  let '(start, newlen) :=
    if newlen =? 0 then (0, 0) else
    if s32 l <=? start then (start, 0) else
    if s32 l <=? end_ then
      let end_ := s32 (l - 1) in
      (start, if end_ <? start then 0 else u64 (s32 (end_ - start + 1)))
    else (start, newlen) in
  b ← (if (start =? 0) || (newlen =? 0) then Done (buf s)
       else memcpy (buf s) 0 (buf s) (Z.to_nat start) (Z.to_nat newlen));
  b ← storez b newlen 0;
  Done (Sdshdr (s32 newlen) (s32 (free s + (len s - newlen))) b).

(** ** Characters *)

Definition map_loop (f : Z -> Z) (s : sdshdr) : exec sdshdr :=
  b ← for_range 0 (Z.to_nat (s32 (sdslen s))) (fun j b => c ← load b j; store b j (f c)) (buf s);
  Done (Sdshdr (len s) (free s) b).

Definition sdstolower (s : sdshdr) : exec sdshdr := map_loop tolower s.
Definition sdstoupper (s : sdshdr) : exec sdshdr := map_loop toupper s.

(** The first position of [c] in [from] gives its replacement. *)
Fixpoint map_char (c : Z) (from to : list Z) (setlen : nat) : exec Z :=
  match setlen with
  | O => Done c
  | S setlen' =>
      x ← load from 0;
      if c =? x then load to 0 else map_char c (drop 1 from) (drop 1 to) setlen'
  end.

Definition sdsmapchars (s : sdshdr) (from to : list Z) (setlen : nat) : exec sdshdr :=
  b ← for_range 0 (Z.to_nat (sdslen s))
        (fun j b => c ← load b j; c' ← map_char c from to setlen; store b j c') (buf s);
  Done (Sdshdr (len s) (free s) b).

Definition sdscmp (s1 s2 : sdshdr) : exec Z :=
  let l1 := sdslen s1 in
  let l2 := sdslen s2 in
  let minlen := if l1 <? l2 then l1 else l2 in
  cmp ← memcmp (buf s1) (buf s2) (Z.to_nat minlen);
  Done (if cmp =? 0 then s32 (l1 - l2) else cmp).

(** ** Splitting and joining *)

(** [tokens[elements++] = t] in an array with room for [slots] tokens. *)
Definition put_token (slots : Z) (tokens : list sdshdr) (t : sdshdr) : exec (list sdshdr) :=
  if Z.of_nat (length tokens) <? slots then Done (tokens ++ [t]) else Fault.

(** The loop of sdssplitlen from position [j] on. *)
Fixpoint split_loop (fuel : nat) (s : list Z) (slen : Z) (sep : list Z) (seplen : Z)
    (slots : Z) (tokens : list sdshdr) (start j : Z) : exec (Z * list sdshdr * Z) :=
  if j <? slen - (seplen - 1) then
    match fuel with
    | O => NoFuel
    | S fuel' =>
        let slots := if slots <? Z.of_nat (length tokens) + 2 then s32 (slots * 2) else slots in
        c ← loadz s j; c0 ← load sep 0;
        hit ← (if (seplen =? 1) && (c =? c0) then Done true
               else r ← memcmp (drop (Z.to_nat j) s) sep (Z.to_nat seplen); Done (r =? 0));
        if hit : bool then
          t ← sdsnewlen (Some (drop (Z.to_nat start) s)) (Z.to_nat (j - start));
          tokens ← put_token slots tokens t;
          split_loop fuel' s slen sep seplen slots tokens (j + seplen) (j + seplen - 1 + 1)
        else split_loop fuel' s slen sep seplen slots tokens start (j + 1)
    end
  else Done (slots, tokens, start).

(** [None] is the null result. *)
Definition sdssplitlen (s : list Z) (slen : Z) (sep : list Z) (seplen : Z)
    : exec (option (list sdshdr)) :=
  if (seplen <? 1) || (slen <? 0) then Done None else
  if slen =? 0 then Done (Some []) else
  r ← split_loop (Z.to_nat slen) s slen sep seplen 5 [] 0 0; let '(slots, tokens, start) := r in
  t ← sdsnewlen (Some (drop (Z.to_nat start) s)) (Z.to_nat (slen - start));
  tokens ← put_token slots tokens t;
  Done (Some tokens).

Fixpoint join_loop (argv : list (list Z)) (sep : list Z) (join : sdshdr) : exec sdshdr :=
  match argv with
  | [] => Done join
  | t :: argv' =>
      join ← sdscat join t;
      join ← (if decide (argv' = []) then Done join else sdscat join sep);
      join_loop argv' sep join
  end.

Definition sdsjoin (argv : list (list Z)) (sep : list Z) : exec sdshdr :=
  join ← sdsempty; join_loop argv sep join.

(** ** Quoting and unquoting *)

Definition repr_char (s : sdshdr) (c : Z) : exec sdshdr :=
  if (c =? 92) || (c =? 34) then sdscatprintf_bc s c
  else if c =? 10 then sdscatlen s [92; 110; 0] 2
  else if c =? 13 then sdscatlen s [92; 114; 0] 2
  else if c =? 9 then sdscatlen s [92; 116; 0] 2
  else if c =? 7 then sdscatlen s [92; 97; 0] 2
  else if c =? 8 then sdscatlen s [92; 98; 0] 2
  else if isprint c then sdscatprintf_c s c
  else sdscatprintf_x s c.

Fixpoint repr_loop (s : sdshdr) (p : list Z) (n : nat) : exec sdshdr :=
  match n with
  | O => Done s
  | S n' => c ← load p 0; s ← repr_char s c; repr_loop s (drop 1 p) n'
  end.

Definition sdscatrepr (s : sdshdr) (p : list Z) (n : nat) : exec sdshdr :=
  s ← sdscatlen s [34; 0] 1;
  s ← repr_loop s p n;
  sdscatlen s [34; 0] 1.

Definition is_hex_digit (c : Z) : bool :=
  ((48 <=? c) && (c <=? 57)) || ((97 <=? c) && (c <=? 102)) || ((65 <=? c) && (c <=? 70)).

Definition hex_digit_to_int (c : Z) : Z :=
  if (48 <=? c) && (c <=? 57) then c - 48
  else if (97 <=? c) && (c <=? 102) then c - 97 + 10
  else if (65 <=? c) && (c <=? 70) then c - 65 + 10
  else 0.

(** [*(p + k)] *)
Definition peek (p : list Z) (k : nat) : exec Z := load p k.

(** The escape starting at [p]: the test reads one more byte only when the
    ones before it match. *)
Definition is_hex_escape (p : list Z) : exec bool :=
  c0 ← peek p 0;
  if negb (c0 =? 92) then Done false else
  c1 ← peek p 1;
  if negb (c1 =? 120) then Done false else
  c2 ← peek p 2;
  if negb (is_hex_digit c2) then Done false else
  c3 ← peek p 3;
  Done (is_hex_digit c3).

Definition unescape (c : Z) : Z :=
  if c =? 110 then 10 else if c =? 114 then 13 else if c =? 116 then 9
  else if c =? 98 then 8 else if c =? 97 then 7 else c.

(** [c && !isspace(c)]: what may not follow a closing quote. *)
Definition bad_after_quote (c : Z) : bool := negb (c =? 0) && negb (isspace c).

(** The state of the scan of one token. *)
Inductive quoting := Plain | Double | Single.

(** What one turn of the inner loop decides: an error, the end of the token,
    or another turn. *)
Inductive turn :=
  | Bad (current : sdshdr)
  | Token (p : list Z) (current : sdshdr)
  | Next (p : list Z) (q : quoting) (current : sdshdr).

(** One byte on, but not past the terminator. *)
Definition advance (p : list Z) : exec (list Z) :=
  c ← peek p 0; Done (if c =? 0 then p else drop 1 p).

Definition scan_double (p : list Z) (current : sdshdr) : exec turn :=
  hex ← is_hex_escape p;
  if hex : bool then
    h ← peek p 2; l ← peek p 3;
    current ← sdscatlen current [hex_digit_to_int h * 16 + hex_digit_to_int l] 1;
    p ← advance (drop 3 p);
    Done (Next p Double current)
  else
    c ← peek p 0;
    esc ← (if c =? 92 then c1 ← peek p 1; Done (negb (c1 =? 0)) else Done false);
    if esc : bool then
      c1 ← peek p 1;
      current ← sdscatlen current [unescape c1] 1;
      p ← advance (drop 1 p);
      Done (Next p Double current)
    else if c =? 34 then
      c1 ← peek p 1;
      if bad_after_quote c1 then Done (Bad current) else
      p ← advance p; Done (Token p current)
    else if c =? 0 then Done (Bad current)
    else
      current ← sdscatlen current p 1;
      p ← advance p; Done (Next p Double current).

Definition scan_single (p : list Z) (current : sdshdr) : exec turn :=
  c ← peek p 0;
  esc ← (if c =? 92 then c1 ← peek p 1; Done (c1 =? 39) else Done false);
  if esc : bool then
    current ← sdscatlen current [39; 0] 1;
    p ← advance (drop 1 p); Done (Next p Single current)
  else if c =? 39 then
    c1 ← peek p 1;
    if bad_after_quote c1 then Done (Bad current) else
    p ← advance p; Done (Token p current)
  else if c =? 0 then Done (Bad current)
  else
    current ← sdscatlen current p 1;
    p ← advance p; Done (Next p Single current).

Definition scan_plain (p : list Z) (current : sdshdr) : exec turn :=
  c ← peek p 0;
  p' ← advance p;
  if (c =? 32) || (c =? 10) || (c =? 13) || (c =? 9) || (c =? 0) then Done (Token p' current)
  else if c =? 34 then Done (Next p' Double current)
  else if c =? 39 then Done (Next p' Single current)
  else current ← sdscatlen current p 1; Done (Next p' Plain current).

Definition scan (p : list Z) (q : quoting) (current : sdshdr) : exec turn :=
  match q with
  | Double => scan_double p current
  | Single => scan_single p current
  | Plain => scan_plain p current
  end.

(** The inner loop; [None] is the jump to [err]. *)
Fixpoint token_loop (fuel : nat) (p : list Z) (q : quoting) (current : sdshdr)
    : exec (option (list Z * sdshdr)) :=
  t ← scan p q current;
  match t with
  | Bad _ => Done None
  | Token p current => Done (Some (p, current))
  | Next p q current =>
      match fuel with O => NoFuel | S fuel' => token_loop fuel' p q current end
  end.

Fixpoint skip_blanks (p : list Z) : exec (list Z) :=
  match p with
  | [] => Fault
  | c :: p' => if negb (c =? 0) && isspace c then skip_blanks p' else Done p
  end.

Fixpoint args_loop (fuel : nat) (p : list Z) (vector : list sdshdr) : exec (option (list sdshdr)) :=
  p ← skip_blanks p;
  c ← peek p 0;
  if c =? 0 then Done (Some vector) else
  current ← sdsempty;
  r ← token_loop (length p) p Plain current;
  match r with
  | None => Done None
  | Some (p, current) =>
      match fuel with
      | O => NoFuel
      | S fuel' => args_loop fuel' p (vector ++ [current])
      end
  end.

Definition sdssplitargs (line : list Z) : exec (option (list sdshdr)) :=
  args_loop (length line) line [].

End sds.
End Sds.
