(* ===== verification/SdsProof.v ===== *)
(** * What the operations on dynamic strings do to the bytes

    [rep s bs]: the string [s] holds the bytes [bs], its header is consistent
    with its buffer and it is terminated.  Every operation of sds.c keeps such
    a representation and acts on the bytes as its comment says, but for
    sdstrim: on top of the characters of its set it removes zero bytes, since
    strchr finds the terminator of the set. *)

From S2P Require Import Prelude Sds.
Import Sds.

(** ** Representation *)

Definition rep (s : sdshdr) (bs : list Z) : Prop :=
  exists rest, s = Sdshdr (Z.of_nat (length bs)) (Z.of_nat (length rest)) (bs ++ 0 :: rest) /\
    Z.of_nat (length bs) + Z.of_nat (length rest) < 2 ^ 31.

(** Lengths for which appending [n] more bytes stays within an [int], the
    spare room included. *)
Definition room_for (bs : list Z) (n : Z) : Prop := Z.of_nat (length bs) + n + 2 ^ 20 < 2 ^ 31.

Ltac small :=
  repeat match goal with
    | |- context [s32 ?z] => rewrite (s32_small z) by lia
    | |- context [u64 ?z] => rewrite (u64_small z) by lia
    end.

Lemma rep_sdslen s bs : rep s bs -> sdslen s = Z.of_nat (length bs).
Proof. intros (rest & -> & H). unfold sdslen. cbn [len]. by small. Qed.

(** C strings: the bytes before the first zero. *)
Fixpoint until0 (t : list Z) : list Z :=
  match t with [] => [] | c :: t' => if c =? 0 then [] else c :: until0 t' end.

Lemma strlen_until0 t : In 0 t -> strlen t = Done (length (until0 t)) /\
  take (length (until0 t)) t = until0 t /\ (length (until0 t) < length t)%nat.
Proof.
  induction t as [|c t IH]; simpl; [done|]. destruct (Z.eqb_spec c 0) as [->|Hc]; simpl; [intros; split_and!; (done || lia)|].
  intros [?|H]; [done|]. destruct (IH H) as (-> & E & Hl). simpl. split_and!; [done| |lia]. by rewrite E.
Qed.

Lemma until0_app bs rest : ~ In 0 bs -> until0 (bs ++ 0 :: rest) = bs.
Proof.
  induction bs as [|c bs IH]; intros H; simpl; [done|]. simpl in H.
  destruct (Z.eqb_spec c 0); [tauto|]. f_equal. apply IH. tauto.
Qed.

Lemma memcpy_prefix (dst : list Z) n t :
  (n <= length dst)%nat -> (n <= length t)%nat -> memcpy dst 0 t 0 n = Done (take n t ++ drop n dst).
Proof. intros. rewrite memcpy_in by lia. done. Qed.

Lemma store_at (l r : list Z) x y : store (l ++ x :: r) (length l) y = Done (l ++ y :: r).
Proof. apply store_middle. Qed.

Lemma storez_pos {A} (l : list A) i x : 0 <= i -> storez l i x = store l (Z.to_nat i) x.
Proof. intros H. rewrite <- storez_nat. by rewrite Z2Nat.id. Qed.

Lemma loadz_pos {A} (l : list A) i : 0 <= i -> loadz l i = load l (Z.to_nat i).
Proof. intros H. rewrite <- loadz_nat. by rewrite Z2Nat.id. Qed.

Section ops.
Context (junk : nat -> list Z) (Hjunk : forall n, length (junk n) = n).

(** ** Creation *)

Lemma sdsnewlen_spec t n :
  (n <= length t)%nat -> Z.of_nat n < 2 ^ 31 ->
  sdsnewlen junk (Some t) n = Done (Sdshdr (Z.of_nat n) 0 (take n t ++ [0])).
Proof using Hjunk.
  intros Hn Hs. unfold sdsnewlen. small.
  assert ((if (n =? 0)%nat then Done (junk (n + 1)) else memcpy (junk (n + 1)) 0 t 0 n) =
          Done (take n t ++ drop n (junk (n + 1)))) as ->.
  { destruct (Nat.eqb_spec n 0) as [->|]; [done|]. apply memcpy_prefix; rewrite ?Hjunk; lia. }
  run. destruct (drop n (junk (n + 1))) as [|x [|y r]] eqn:E;
    apply (f_equal length) in E; rewrite length_drop, Hjunk in E; simpl in E; try lia.
  pose proof (store_at (take n t) [] x 0) as Hst. rewrite length_take, Nat.min_l in Hst by lia.
  by rewrite Hst.
Qed.

Lemma sdsnewlen_rep t n :
  (n <= length t)%nat -> Z.of_nat n < 2 ^ 31 ->
  exists s, sdsnewlen junk (Some t) n = Done s /\ rep s (take n t).
Proof using Hjunk.
  intros Hn Hs. rewrite sdsnewlen_spec by done. eexists. split; [done|]. exists [].
  rewrite length_take, Nat.min_l by done. split; [done|]. simpl. lia.
Qed.

(** ** Room *)

(** The room a string needs is made whatever the byte after its content is. *)
Lemma sdsMakeRoomFor_open bs x rest n :
  Z.of_nat (length bs) + Z.of_nat (length rest) < 2 ^ 31 -> 0 <= n -> room_for bs n ->
  exists rest', sdsMakeRoomFor junk (Sdshdr (Z.of_nat (length bs)) (Z.of_nat (length rest)) (bs ++ x :: rest)) n =
      Sdshdr (Z.of_nat (length bs)) (Z.of_nat (length rest')) (bs ++ x :: rest') /\
    n <= Z.of_nat (length rest') /\ Z.of_nat (length bs) + Z.of_nat (length rest') < 2 ^ 31.
Proof using Hjunk.
  intros Hb Hn Hr. unfold room_for in Hr. unfold sdsMakeRoomFor, sdsavail, sdslen.
  cbn [len free buf]. small. destruct (Z.leb_spec n (Z.of_nat (length rest))); [by exists rest|].
  set (l := Z.of_nat (length bs)) in *. small. set (newlen := if _ <? _ then _ else _).
  assert (l + n <= newlen < 2 ^ 31 /\ newlen < 2 ^ 31) as Hnl.
  { unfold newlen, SDS_MAX_PREALLOC. destruct (Z.ltb_spec (l + n) (1024 * 1024)); [lia|]. small. lia. }
  unfold zrealloc. rewrite take_ge by (rewrite length_app; simpl; lia).
  rewrite <- app_assoc. cbn [app].
  exists (rest ++ junk (Z.to_nat newlen + 1 - length (bs ++ x :: rest))).
  rewrite !length_app, Hjunk. cbn [length]. split_and!; [|lia|lia].
  small. f_equal. lia.
Qed.

Lemma sdsMakeRoomFor_spec s bs n :
  rep s bs -> 0 <= n -> room_for bs n ->
  exists rest, sdsMakeRoomFor junk s n =
      Sdshdr (Z.of_nat (length bs)) (Z.of_nat (length rest)) (bs ++ 0 :: rest) /\
    n <= Z.of_nat (length rest) /\ Z.of_nat (length bs) + Z.of_nat (length rest) < 2 ^ 31.
Proof using Hjunk. intros (rest & -> & Hb) Hn Hr. by apply sdsMakeRoomFor_open. Qed.

Lemma sdsMakeRoomFor_rep s bs n :
  rep s bs -> 0 <= n -> room_for bs n -> rep (sdsMakeRoomFor junk s n) bs.
Proof using Hjunk. intros H1 H2 H3. destruct (sdsMakeRoomFor_spec s bs n H1 H2 H3) as (rest & -> & _ & H). by exists rest. Qed.

(** ** Appending *)

Lemma sdscatlen_rep s bs t n :
  rep s bs -> (n <= length t)%nat -> room_for bs (Z.of_nat n) ->
  exists s', sdscatlen junk s t n = Done s' /\ rep s' (bs ++ take n t).
Proof using Hjunk.
  intros Hs Hn Hr. unfold sdscatlen. rewrite (rep_sdslen _ _ Hs).
  destruct (sdsMakeRoomFor_spec s bs (Z.of_nat n) Hs ltac:(lia) Hr) as (rest & -> & Hle & Hb).
  cbn [buf free]. rewrite Nat2Z.id.
  assert (memcpy (bs ++ 0 :: rest) (length bs) t 0 n =
          Done (bs ++ take n t ++ drop n (0 :: rest))) as ->.
  { rewrite memcpy_in by (rewrite ?length_app; simpl; lia). rewrite take_app_length, drop_0.
    rewrite drop_app_ge by lia. by replace (length bs + n - length bs)%nat with n by lia. }
  run. assert (exists x rest', drop n (0 :: rest) = x :: rest' /\ length rest' = (length rest - n)%nat)
    as (x & rest' & Hd & Hlr).
  { destruct (drop n (0 :: rest)) as [|x r] eqn:E; apply (f_equal length) in E;
      rewrite length_drop in E; simpl in E; [lia|]. exists x, r. split; [done|]. lia. }
  rewrite Hd. replace (Z.of_nat (length bs) + Z.of_nat n) with (Z.of_nat (length (bs ++ take n t)))
    by (rewrite length_app, length_take; lia).
  rewrite storez_nat, app_assoc, store_at. run. eexists. split; [done|]. exists rest'.
  rewrite length_app, length_take, Nat.min_l by lia. small. split; [f_equal; lia|lia].
Qed.

Lemma sdscat_rep s bs t :
  rep s bs -> In 0 t -> room_for bs (Z.of_nat (length (until0 t))) ->
  exists s', sdscat junk s t = Done s' /\ rep s' (bs ++ until0 t).
Proof using Hjunk.
  intros Hs Ht Hr. destruct (strlen_until0 t Ht) as (H1 & H2 & H3). unfold sdscat. rewrite H1. run.
  destruct (sdscatlen_rep s bs t (length (until0 t)) Hs) as (s' & -> & H); [lia|unfold room_for in *; lia|].
  exists s'. split; [done|]. by rewrite H2 in H.
Qed.

(** ** Overwriting and shortening *)

Lemma rep_intro bs rest l f b :
  l = Z.of_nat (length bs) -> f = Z.of_nat (length rest) -> b = bs ++ 0 :: rest ->
  Z.of_nat (length bs) + Z.of_nat (length rest) < 2 ^ 31 -> rep (Sdshdr l f b) bs.
Proof. intros -> -> -> H. by exists rest. Qed.

Lemma sdscpylen_rep s bs t n :
  rep s bs -> (n <= length t)%nat -> room_for bs (Z.of_nat n) ->
  exists s', sdscpylen junk s t n = Done s' /\ rep s' (take n t).
Proof using Hjunk.
  intros Hs Hn Hr. unfold sdscpylen. set (s1 := if _ <? _ then _ else s).
  assert (exists rest, s1 = Sdshdr (Z.of_nat (length bs)) (Z.of_nat (length rest)) (bs ++ 0 :: rest) /\
    (n <= length bs + length rest)%nat /\ Z.of_nat (length bs) + Z.of_nat (length rest) < 2 ^ 31)
    as (rest & -> & Hle & Hb).
  { subst s1. pose proof Hs as (rest & -> & Hb). cbn [len free buf]. small.
    destruct (Z.ltb_spec (Z.of_nat (length rest) + Z.of_nat (length bs)) (Z.of_nat n)).
    - unfold room_for in Hr. small.
      destruct (sdsMakeRoomFor_spec _ bs (Z.of_nat n - Z.of_nat (length bs)) Hs) as (rest' & -> & ? & ?);
        [lia|unfold room_for; lia|]. exists rest'. split_and!; [done|lia|done].
    - exists rest. split_and!; [done|lia|done]. }
  cbn [len free buf]. rewrite memcpy_prefix by (rewrite ?length_app; simpl; lia). run.
  destruct (drop n (bs ++ 0 :: rest)) as [|x r] eqn:E; apply (f_equal length) in E;
    rewrite length_drop, length_app in E; simpl in E; [lia|].
  pose proof (store_at (take n t) r x 0) as Hst. rewrite length_take, Nat.min_l in Hst by lia. rewrite Hst. run.
  eexists. split; [done|]. apply (rep_intro _ r); rewrite ?length_take, ?Nat.min_l by lia; small; try done; lia.
Qed.

(** Terminating a string earlier gives the bytes up to there. *)
Lemma shorten bs rest n l f :
  (n <= length bs)%nat -> Z.of_nat (length bs) + Z.of_nat (length rest) < 2 ^ 31 ->
  l = Z.of_nat n -> f = Z.of_nat (length rest) + (Z.of_nat (length bs) - Z.of_nat n) ->
  exists b, store (bs ++ 0 :: rest) n 0 = Done b /\ rep (Sdshdr l f b) (take n bs).
Proof using Hjunk.
  intros Hn Hb -> ->. destruct (decide (n = length bs)) as [->|Hne].
  - rewrite store_at. eexists. split; [done|]. rewrite firstn_all. apply (rep_intro _ rest); try done; lia.
  - destruct (lookup_lt_is_Some_2 bs n) as [x Hx]; [lia|].
    assert (bs ++ 0 :: rest = take n bs ++ x :: drop (S n) bs ++ 0 :: rest) as ->
      by (rewrite <- (take_drop_middle bs n x Hx) at 1; by rewrite <- app_assoc).
    pose proof (store_at (take n bs) (drop (S n) bs ++ 0 :: rest) x 0) as Hst.
    rewrite length_take, Nat.min_l in Hst by lia. rewrite Hst. eexists. split; [done|].
    apply (rep_intro _ (drop (S n) bs ++ 0 :: rest)); rewrite ?length_take, ?length_app, ?length_drop; simpl;
      try done; lia.
Qed.

Lemma sdsclear_rep s bs : rep s bs -> exists s', sdsclear s = Done s' /\ rep s' [].
Proof using Hjunk.
  intros (rest & -> & Hb). unfold sdsclear. cbn [len free buf].
  destruct (shorten bs rest 0 0 (Z.of_nat (length rest) + Z.of_nat (length bs))) as (b & -> & Hr);
    [lia|done|done|lia|]. run. small. by eexists.
Qed.

Lemma sdsIncrLen_rep s bs k :
  rep s bs -> - Z.of_nat (length bs) <= k <= 0 ->
  exists s', sdsIncrLen s k = Done s' /\ rep s' (take (Z.to_nat (Z.of_nat (length bs) + k)) bs).
Proof using Hjunk.
  intros (rest & -> & Hb) Hk. unfold sdsIncrLen. cbn [len free buf]. rewrite (proj2 (Z.ltb_ge _ _)) by lia.
  small. rewrite (proj2 (Z.ltb_ge _ _)) by lia.
  rewrite storez_pos by lia.
  destruct (shorten bs rest (Z.to_nat (Z.of_nat (length bs) + k)) (Z.of_nat (length bs) + k)
              (Z.of_nat (length rest) - k)) as (b & -> & Hr); [lia|done|lia|lia|].
  run. by eexists.
Qed.

Lemma sdsRemoveFreeSpace_rep s bs : rep s bs -> rep (sdsRemoveFreeSpace junk s) bs.
Proof using Hjunk.
  intros (rest & -> & Hb). unfold sdsRemoveFreeSpace, zrealloc. cbn [len buf]. rewrite Nat2Z.id.
  assert (length bs + 1 - length (bs ++ 0%Z :: rest) = 0)%nat as -> by (rewrite length_app; simpl; lia).
  pose proof (Hjunk 0) as H0. apply nil_length_inv in H0. rewrite H0, app_nil_r.
  rewrite take_app_ge by lia. replace (length bs + 1 - length bs)%nat with 1%nat by lia.
  apply (rep_intro _ []); simpl; try done; lia.
Qed.

Lemma take_until0 bs : exists n, until0 bs = take n bs /\ (n <= length bs)%nat /\ length (until0 bs) = n.
Proof.
  induction bs as [|c bs (n & E & Hn & Hl)]; [by exists 0%nat|]. simpl.
  destruct (Z.eqb_spec c 0); [exists 0%nat; simpl; split_and!; (done || lia)|].
  exists (S n). simpl. split_and!; [by rewrite E|lia|lia].
Qed.

Lemma until0_nul bs rest : until0 (bs ++ 0 :: rest) = until0 bs.
Proof. induction bs as [|c bs IH]; simpl; [done|]. destruct (c =? 0); [done|]. by rewrite IH. Qed.

Lemma sdsupdatelen_rep s bs : rep s bs -> exists s', sdsupdatelen s = Done s' /\ rep s' (until0 bs).
Proof using Hjunk.
  intros (rest & -> & Hb). unfold sdsupdatelen. cbn [len free buf].
  destruct (strlen_until0 (bs ++ 0 :: rest)) as (-> & Ht & _); [apply in_or_app; right; by left|]. run.
  rewrite until0_nul in *. destruct (take_until0 bs) as (n & E & Hn & Hl). rewrite Hl in *.
  small. eexists. split; [done|].
  assert (drop n (bs ++ 0 :: rest) = 0 :: drop (S n) (bs ++ 0 :: rest)) as Hd.
  { clear -E Hn Hl. revert n E Hn Hl. induction bs as [|c bs IH]; intros n E Hn Hl; simpl in *.
    - by replace n with 0%nat by lia.
    - destruct (Z.eqb_spec c 0) as [->|]; simpl in *; [by subst n|]. destruct n as [|n]; [done|].
      simpl in *. apply IH; congruence || lia. }
  rewrite <- (take_drop n (bs ++ 0 :: rest)), Ht, Hd.
  apply (rep_intro _ (drop (S n) (bs ++ 0 :: rest))); rewrite ?length_drop, ?length_app, ?Hl; simpl; try done; lia.
Qed.

Lemma sdsgrowzero_rep s bs n :
  rep s bs -> 0 <= n -> room_for bs n ->
  exists s', sdsgrowzero junk s n = Done s' /\
    rep s' (bs ++ replicate (Z.to_nat (n - Z.of_nat (length bs))) 0).
Proof using Hjunk.
  intros Hs Hn Hr. unfold sdsgrowzero. pose proof (rep_sdslen _ _ Hs) as Hl. unfold sdslen in Hl. rewrite Hl.
  destruct (Z.leb_spec n (Z.of_nat (length bs))).
  { replace (Z.to_nat (n - Z.of_nat (length bs))) with 0%nat by lia. simpl. rewrite app_nil_r. by exists s. }
  destruct (sdsMakeRoomFor_spec s bs (n - Z.of_nat (length bs)) Hs) as (rest & -> & Hle & Hb);
    [lia|unfold room_for in *; lia|].
  cbn [len free buf]. rewrite Nat2Z.id. set (k := Z.to_nat (n - Z.of_nat (length bs))).
  rewrite memset_in by (rewrite length_app; simpl; lia). run. rewrite take_app_length.
  eexists. split; [done|].
  apply (rep_intro _ (drop k rest)); rewrite ?length_app, ?length_replicate, ?length_drop; small; try lia.
  rewrite <- app_assoc. f_equal.
  replace (Z.to_nat (n - Z.of_nat (length bs) + 1)) with (k + 1)%nat by lia.
  rewrite replicate_add, <- app_assoc. cbn. do 2 f_equal. rewrite drop_app_ge by lia.
  replace (length bs + (k + 1) - length bs)%nat with (S k) by lia. done.
Qed.

(** ** Trimming *)

(** A C string of characters, its terminator included. *)
Definition cstring (t : list Z) : Prop := In 0 t.

(** The characters sdstrim really removes: those before the terminator of
    [cset], and the terminator itself, which strchr finds as well. *)
Definition in_set (cset : list Z) (c : Z) : bool := bool_decide (c = 0 \/ c ∈ until0 cset).

Lemma strchr_in_set cset c : cstring cset -> strchr cset c = Done (in_set cset c).
Proof.
  unfold cstring, in_set. induction cset as [|x cset IH]; simpl; [done|]. intros H.
  destruct (Z.eqb_spec x c) as [->|Hxc].
  - destruct (Z.eqb_spec c 0) as [->|]; rewrite bool_decide_true; (done || set_solver).
  - destruct (Z.eqb_spec x 0) as [->|Hx0].
    + rewrite bool_decide_false; [done|]. set_solver.
    + rewrite IH by naive_solver. f_equal. apply bool_decide_ext. set_solver.
Qed.

Fixpoint drop_while (f : Z -> bool) (l : list Z) : list Z :=
  match l with [] => [] | c :: l' => if f c then drop_while f l' else l end.

Definition trim (f : Z -> bool) (l : list Z) : list Z :=
  reverse (drop_while f (reverse (drop_while f l))).

(** The characters its comment says it removes. *)
Definition in_cset (cset : list Z) (c : Z) : bool := bool_decide (c ∈ until0 cset).

Lemma drop_while_ext f g l : Forall (fun c => f c = g c) l -> drop_while f l = drop_while g l.
Proof. induction 1 as [|c l H _ IH]; [done|]. cbn [drop_while]. by rewrite H, IH. Qed.

Lemma drop_while_spec f l : exists pre, l = pre ++ drop_while f l /\ Forall (fun c => f c = true) pre /\
  match drop_while f l with [] => True | c :: _ => f c = false end.
Proof.
  induction l as [|c l (pre & E & Hp & Hd)]; simpl; [by exists []|].
  destruct (f c) eqn:Hc; [|exists []; done]. exists (c :: pre). simpl. split_and!; [by rewrite <- E|by constructor|done].
Qed.

(** A string is its trimmed part between two runs of trimmed characters. *)
Lemma trim_spec f l : exists pre post, l = pre ++ trim f l ++ post /\
  Forall (fun c => f c = true) pre /\ Forall (fun c => f c = true) post /\
  (trim f l = [] -> post = []) /\
  match trim f l with [] => True | c :: _ => f c = false end /\
  match last (trim f l) with None => True | Some c => f c = false end.
Proof.
  unfold trim. destruct (drop_while_spec f l) as (pre & E & Hp & Hd).
  destruct (drop_while_spec f (reverse (drop_while f l))) as (post & E' & Hp' & Hd').
  set (m := drop_while f l) in *. set (k := drop_while f (reverse m)) in *.
  assert (m = reverse k ++ reverse post) as Em.
  { rewrite <- (reverse_involutive m), E', reverse_app. done. }
  exists pre, (reverse post). split_and!; try done.
  - by rewrite <- Em.
  - by apply Forall_reverse.
  - intros Hk. rewrite Hk in Em. simpl in Em. rewrite Em in Hd.
    destruct (reverse post) as [|c r] eqn:Er; [done|]. apply Forall_reverse in Hp'. rewrite Er in Hp'.
    inversion_clear Hp'. congruence.
  - destruct (reverse k) as [|c r] eqn:Ek; [done|]. rewrite Em in Hd. done.
  - rewrite last_reverse. destruct k; done.
Qed.

(** Without zero bytes the two sets trim the same. *)
Lemma trim_documented cset bs : Forall (fun c => c <> 0) bs -> trim (in_set cset) bs = trim (in_cset cset) bs.
Proof.
  intros Hz. assert (Forall (fun c => in_set cset c = in_cset cset c) bs) as He.
  { eapply Forall_impl; [exact Hz|]. intros c Hc. unfold in_set, in_cset. apply bool_decide_ext. naive_solver. }
  unfold trim. rewrite (drop_while_ext _ _ bs He). f_equal. apply drop_while_ext, Forall_reverse.
  destruct (drop_while_spec (in_cset cset) bs) as (pre & E & _). rewrite E in He. by apply Forall_app in He as [_ He].
Qed.

Lemma trim_left_spec cset pre mid tl fuel : forall n,
  cstring cset -> Forall (fun c => in_set cset c = true) pre ->
  match mid with [] => True | c :: _ => in_set cset c = false end ->
  (length pre <= fuel)%nat -> forall pfx, length pfx = n ->
  trim_left fuel (pfx ++ pre ++ mid ++ tl) cset (Z.of_nat n)
    (Z.of_nat (n + length pre + length mid) - 1) = Done (Z.of_nat (n + length pre)).
Proof.
  revert fuel. induction pre as [|c pre IH]; intros fuel n Hcs Hpre Hmid Hf pfx Hpfx.
  - rewrite Nat.add_0_r. cbn [length app]. destruct fuel as [|fuel]; cbn [trim_left];
      (destruct mid as [|c mid]; [rewrite (proj2 (Z.leb_gt _ _)) by (simpl; lia); done|]);
      rewrite (proj2 (Z.leb_le _ _)) by (simpl; lia); rewrite loadz_nat, <- Hpfx; cbn [app];
      rewrite load_middle; run; rewrite strchr_in_set by done; run; by rewrite Hmid.
  - inversion_clear Hpre. simpl in Hf. destruct fuel as [|fuel]; [lia|]. cbn [trim_left].
    rewrite (proj2 (Z.leb_le _ _)) by (simpl; lia). rewrite loadz_nat, <- Hpfx. cbn [app].
    rewrite load_middle. run. rewrite strchr_in_set by done. run. rewrite H.
    specialize (IH fuel (S n) Hcs H0 Hmid ltac:(lia) (pfx ++ [c]) ltac:(rewrite length_app; simpl; lia)).
    rewrite <- app_assoc in IH. cbn [app length] in *. rewrite Hpfx.
    replace (Z.of_nat n + 1) with (Z.of_nat (S n)) by lia.
    replace (n + S (length pre))%nat with (S n + length pre)%nat by lia. exact IH.
Qed.

Lemma trim_left_start cset pre mid tl fuel :
  cstring cset -> Forall (fun c => in_set cset c = true) pre ->
  match mid with [] => True | c :: _ => in_set cset c = false end -> (length pre <= fuel)%nat ->
  trim_left fuel (pre ++ mid ++ tl) cset 0 (Z.of_nat (length pre + length mid) - 1) =
    Done (Z.of_nat (length pre)).
Proof. intros H1 H2 H3 H4. exact (trim_left_spec cset pre mid tl fuel 0 H1 H2 H3 H4 [] eq_refl). Qed.

Lemma trim_right_spec cset head mid post tl fuel :
  cstring cset -> Forall (fun c => in_set cset c = true) post ->
  match last mid with None => True | Some c => in_set cset c = false end -> mid <> [] ->
  (length post <= fuel)%nat ->
  trim_right fuel (head ++ mid ++ post ++ tl) cset (Z.of_nat (length head + length mid + length post) - 1) =
    Done (Z.of_nat (length head + length mid) - 1).
Proof.
  intros Hcs. revert fuel tl. induction post as [|c post IH] using rev_ind; intros fuel tl Hpost Hmid Hne Hf.
  - cbn [length app]. rewrite Nat.add_0_r. destruct mid as [|c mid _] using rev_ind; [done|].
    rewrite last_snoc in Hmid. rewrite length_app. cbn [length].
    replace (Z.of_nat (length head + (length mid + 1)) - 1) with (Z.of_nat (length (head ++ mid)))
      by (rewrite length_app; lia).
    rewrite <- (app_assoc mid), (app_assoc head).
    destruct fuel as [|fuel]; cbn [trim_right];
      (destruct (Z.ltb_spec 0 (Z.of_nat (length (head ++ mid)))); [|done]);
      rewrite loadz_nat; cbn [app]; rewrite load_middle; run; rewrite strchr_in_set by done; run;
      by rewrite Hmid.
  - apply Forall_app in Hpost as [Hpost Hc]. inv_Forall. rewrite length_app in Hf. cbn [length] in Hf.
    destruct fuel as [|fuel]; [lia|]. rewrite length_app. cbn [length].
    replace (Z.of_nat (length head + length mid + (length post + 1)) - 1)
      with (Z.of_nat (length (head ++ mid ++ post))) by (rewrite !length_app; lia).
    assert (0 < length mid)%nat by (destruct mid; [done|simpl; lia]).
    cbn [trim_right]. rewrite (proj2 (Z.ltb_lt _ _)) by (rewrite !length_app; lia).
    rewrite loadz_nat. replace (head ++ mid ++ (post ++ [c]) ++ tl) with ((head ++ mid ++ post) ++ c :: tl)
      by (by rewrite <- !app_assoc).
    rewrite load_middle. run. rewrite strchr_in_set by done. run. rewrite H.
    replace ((head ++ mid ++ post) ++ c :: tl) with (head ++ mid ++ post ++ c :: tl) by (by rewrite <- !app_assoc).
    replace (Z.of_nat (length (head ++ mid ++ post)) - 1)
      with (Z.of_nat (length head + length mid + length post) - 1) by (rewrite !length_app; lia).
    apply IH; (done || lia).
Qed.

Lemma trim_right_all cset tl fuel : forall pre,
  cstring cset -> Forall (fun c => in_set cset c = true) pre -> (length pre <= fuel)%nat ->
  trim_right fuel (pre ++ tl) cset (Z.of_nat (length pre) - 1) = Done (Z.min (Z.of_nat (length pre) - 1) 0).
Proof.
  intros pre Hcs. revert fuel tl. induction pre as [|c pre IH] using rev_ind; intros fuel tl Hpre Hf.
  { by destruct fuel. }
  apply Forall_app in Hpre as [Hpre Hc]. inv_Forall. rewrite length_app in *. cbn [length] in *.
  replace (Z.of_nat (length pre + 1) - 1) with (Z.of_nat (length pre)) by lia.
  destruct fuel as [|fuel]; [lia|]. cbn [trim_right].
  destruct (Z.ltb_spec 0 (Z.of_nat (length pre))).
  - rewrite loadz_nat, <- app_assoc. cbn [app]. rewrite load_middle. run. rewrite strchr_in_set by done. run.
    rewrite H. rewrite IH by (done || lia). f_equal. lia.
  - f_equal. lia.
Qed.

(** Moving a part of the buffer to its start and terminating it. *)
Lemma move_front pre mid tl l f :
  (0 < length tl)%nat -> Z.of_nat (length pre + length mid + length tl) <= 2 ^ 31 ->
  l = Z.of_nat (length mid) -> f = Z.of_nat (length pre + length tl) - 1 ->
  exists b, (b ← (if Z.of_nat (length pre) =? 0 then Done (pre ++ mid ++ tl)
                  else memcpy (pre ++ mid ++ tl) 0 (pre ++ mid ++ tl) (length pre) (length mid));
             store b (length mid) 0) = Done b /\ rep (Sdshdr l f b) mid.
Proof using Hjunk.
  intros Htl Hb -> ->.
  assert (exists x r, (if Z.of_nat (length pre) =? 0 then Done (pre ++ mid ++ tl)
                  else memcpy (pre ++ mid ++ tl) 0 (pre ++ mid ++ tl) (length pre) (length mid)) =
                 Done (mid ++ x :: r) /\ (length r = length pre + length tl - 1)%nat) as (x & r & -> & Hr).
  { destruct (Z.eqb_spec (Z.of_nat (length pre)) 0) as [E|E].
    - assert (pre = []) as -> by (apply nil_length_inv; lia). destruct tl as [|x r]; [simpl in *; lia|].
      exists x, r. split; [done|]. simpl. lia.
    - rewrite memcpy_in by (rewrite !length_app; lia). rewrite take_0, drop_app_length, take_app_length. cbn [app].
      destruct (drop (0 + length mid) (pre ++ mid ++ tl)) as [|x r] eqn:E'; apply (f_equal length) in E';
        rewrite length_drop, !length_app in E'; simpl in E'; [lia|]. exists x, r. split; [done|]. lia. }
  run. rewrite store_at. eexists. split; [done|]. apply (rep_intro _ r); try done; lia.
Qed.

Lemma sdstrim_rep s bs cset :
  rep s bs -> cstring cset -> exists s', sdstrim s cset = Done s' /\ rep s' (trim (in_set cset) bs).
Proof using Hjunk.
  intros Hs Hcs. pose proof (rep_sdslen _ _ Hs) as Hl. destruct Hs as (rest & -> & Hb).
  unfold sdstrim. rewrite Hl. cbn [len free buf].
  destruct (trim_spec (in_set cset) bs) as (pre & post & E & Hpre & Hpost & Hnil & Hhd & Hlast).
  set (mid := trim (in_set cset) bs) in *. set (fuel := length (bs ++ 0 :: rest)).
  assert (length bs = length pre + length mid + length post)%nat as Hlen by (rewrite E, !length_app; lia).
  assert (bs ++ 0 :: rest = pre ++ mid ++ post ++ 0 :: rest) as Eb by (by rewrite E at 1; rewrite <- !app_assoc).
  assert (length pre <= fuel /\ length post <= fuel)%nat as [Hf1 Hf2]
    by (unfold fuel; rewrite length_app; lia).
  rewrite Eb.
  assert (exists ep, trim_left fuel (pre ++ mid ++ post ++ 0 :: rest) cset 0 (Z.of_nat (length bs) - 1) =
      Done (Z.of_nat (length pre)) /\
    trim_right fuel (pre ++ mid ++ post ++ 0 :: rest) cset (Z.of_nat (length bs) - 1) = Done ep /\
    (if ep <? Z.of_nat (length pre) then 0 else ep - Z.of_nat (length pre) + 1) = Z.of_nat (length mid))
    as (ep & -> & -> & En).
  { destruct (decide (mid = [])) as [Hm|Hm].
    - pose proof (Hnil Hm) as Hp. clearbody mid. subst mid post. cbn [app length] in *.
      pose proof (trim_left_start cset pre [] (0 :: rest) fuel Hcs Hpre I Hf1) as H1.
      pose proof (trim_right_all cset (0 :: rest) fuel pre Hcs Hpre Hf1) as H2.
      cbn [app length] in H1. rewrite Nat.add_0_r in H1. rewrite Hlen, !Nat.add_0_r, H1, H2.
      eexists. split_and!; [done|done|]. by rewrite (proj2 (Z.ltb_lt _ _)) by lia.
    - pose proof (trim_left_start cset pre (mid ++ post) (0 :: rest) fuel Hcs Hpre ltac:(by destruct mid) Hf1) as H1.
      rewrite <- app_assoc, length_app, Nat.add_assoc in H1. rewrite Hlen, H1.
      rewrite (trim_right_spec cset pre mid post (0 :: rest) fuel Hcs Hpost Hlast Hm Hf2).
      assert (0 < length mid)%nat by (destruct mid; [done|simpl; lia]).
      eexists. split_and!; [done|done|]. rewrite (proj2 (Z.ltb_ge _ _)) by lia. lia. }
  run. rewrite En, !Nat2Z.id.
  destruct (move_front pre mid (post ++ 0 :: rest) (Z.of_nat (length mid))
    (Z.of_nat (length rest) + (Z.of_nat (length bs) - Z.of_nat (length mid)))) as (b & Hmv & Hr);
    [rewrite length_app; simpl; lia|rewrite length_app; simpl; lia|done|rewrite length_app; simpl; lia|].
  apply bind_Done_inv in Hmv as (b0 & -> & Hst). run. rewrite storez_nat, Hst. run. small. by eexists.
Qed.

(** ** Ranges *)

(** An index counted from the end when it is negative. *)
Definition from_end (bs : list Z) (i : Z) : Z :=
  if i <? 0 then Z.max 0 (Z.of_nat (length bs) + i) else i.

(** The bytes from [start] to [end_], both included. *)
Definition slice (bs : list Z) (start end_ : Z) : list Z :=
  take (Z.to_nat (from_end bs end_ - from_end bs start + 1)) (drop (Z.to_nat (from_end bs start)) bs).

Lemma from_end_code bs i :
  Z.of_nat (length bs) < 2 ^ 31 -> - 2 ^ 31 <= i < 2 ^ 31 ->
  (if i <? 0 then let x := s32 (Z.of_nat (length bs) + i) in if x <? 0 then 0 else x else i) = from_end bs i /\
  0 <= from_end bs i < 2 ^ 31.
Proof.
  intros Hb Hi. unfold from_end. destruct (Z.ltb_spec i 0); [|lia]. cbv zeta. small.
  destruct (Z.ltb_spec (Z.of_nat (length bs) + i) 0); lia.
Qed.

(** The start and the length that sdsrange settles on. *)
Definition range_bounds (l start end_ : Z) : Z * Z :=
  let newlen := if end_ <? start then 0 else u64 (s32 (end_ - start + 1)) in
  if newlen =? 0 then (0, 0) else
  if s32 l <=? start then (start, 0) else
  if s32 l <=? end_ then
    let end_ := s32 (l - 1) in
    (start, if end_ <? start then 0 else u64 (s32 (end_ - start + 1)))
  else (start, newlen).

Lemma range_bounds_spec l start end_ :
  0 < l < 2 ^ 31 -> 0 <= start < 2 ^ 31 -> 0 <= end_ < 2 ^ 31 ->
  exists st n, range_bounds l start end_ = (st, n) /\
    (n = 0 /\ (end_ < start \/ l <= start) \/
     st = start /\ 0 < n /\ start + n <= l /\ n = Z.min (end_ - start + 1) (l - start)).
Proof.
  intros Hl Hs He. unfold range_bounds. rewrite (s32_small l), (s32_small (l - 1)) by lia.
  destruct (Z.ltb_spec end_ start); [do 2 eexists; split; [reflexivity|lia]|].
  assert (u64 (s32 (end_ - start + 1)) = end_ - start + 1 \/
          end_ - start + 1 = 2 ^ 31 /\ u64 (s32 (end_ - start + 1)) = 2 ^ 64 - 2 ^ 31) as Hu.
  { destruct (decide (end_ - start + 1 = 2 ^ 31)) as [E|E]; [right; rewrite E; done|left; small; lia]. }
  rewrite (proj2 (Z.eqb_neq _ _)) by lia.
  destruct (Z.leb_spec l start); [do 2 eexists; split; [reflexivity|lia]|].
  destruct (Z.leb_spec l end_).
  - rewrite (proj2 (Z.ltb_ge _ _)) by lia. small. do 2 eexists; split; [reflexivity|lia].
  - do 2 eexists; split; [reflexivity|lia].
Qed.

Lemma sdsrange_rep s bs start end_ :
  rep s bs -> - 2 ^ 31 <= start < 2 ^ 31 -> - 2 ^ 31 <= end_ < 2 ^ 31 ->
  exists s', sdsrange s start end_ = Done s' /\ rep s' (slice bs start end_).
Proof using Hjunk.
  intros Hs Hst Hen. unfold sdsrange. rewrite (rep_sdslen _ _ Hs).
  destruct (Z.eqb_spec (Z.of_nat (length bs)) 0) as [E0|E0].
  { exists s. split; [done|]. assert (bs = []) as -> by (apply nil_length_inv; lia).
    unfold slice. by rewrite drop_nil, take_nil. }
  destruct Hs as (rest & -> & Hb). cbn [len free buf].
  destruct (from_end_code bs start ltac:(lia) Hst) as [Ei Hst'].
  destruct (from_end_code bs end_ ltac:(lia) Hen) as [Ej Hen'].
  cbv zeta in *. rewrite Ei, Ej.
  unfold slice. set (i := from_end bs start) in *. set (j := from_end bs end_) in *.
  destruct (range_bounds_spec (Z.of_nat (length bs)) i j ltac:(lia) Hst' Hen') as (st & n & E & Hn).
  unfold range_bounds in E. cbv zeta in E. rewrite E. clear E.
  destruct Hn as [[-> Hout]|(-> & Hn0 & Hle & Hn)].
  - rewrite orb_true_r. run. rewrite storez_pos by lia. change (Z.to_nat 0) with 0%nat.
    destruct (shorten bs rest 0 0 (Z.of_nat (length rest) + (Z.of_nat (length bs) - 0))) as (b & -> & Hr);
      [lia|done|done|lia|]. run. small. eexists. split; [done|]. rewrite take_0 in Hr.
    assert (take (Z.to_nat (j - i + 1)) (drop (Z.to_nat i) bs) = []) as ->; [|exact Hr].
    destruct Hout; [by replace (Z.to_nat (j - i + 1)) with 0%nat by lia|]. rewrite drop_ge by lia. apply take_nil.
  - rewrite (proj2 (Z.eqb_neq n 0)), orb_false_r by lia.
    assert (take (Z.to_nat (j - i + 1)) (drop (Z.to_nat i) bs) = take (Z.to_nat n) (drop (Z.to_nat i) bs)) as ->.
    { destruct (decide (n = j - i + 1)) as [->|]; [done|]. rewrite !take_ge by (rewrite length_drop; lia). done. }
    set (mid := take (Z.to_nat n) (drop (Z.to_nat i) bs)).
    assert (bs = take (Z.to_nat i) bs ++ mid ++ drop (Z.to_nat n) (drop (Z.to_nat i) bs)) as Ebs
      by (unfold mid; by rewrite take_drop, take_drop).
    assert (length mid = Z.to_nat n) as Hmid by (unfold mid; rewrite length_take, length_drop; lia).
    destruct (move_front (take (Z.to_nat i) bs) mid (drop (Z.to_nat n) (drop (Z.to_nat i) bs) ++ 0 :: rest)
      n (Z.of_nat (length rest) + (Z.of_nat (length bs) - n))) as (b & Hmv & Hr);
      [rewrite length_app; simpl; lia
      |rewrite length_app, Hmid, length_take, !length_drop; simpl; lia
      |lia
      |rewrite length_app, length_take, !length_drop; simpl; lia|].
    rewrite !app_assoc, <- (app_assoc (take _ _)), <- Ebs in Hmv.
    rewrite length_take, Nat.min_l, Z2Nat.id, Hmid in Hmv by lia.
    apply bind_Done_inv in Hmv as (b0 & -> & Hst1). run. rewrite storez_pos by lia. rewrite Hst1. run. small. by eexists.
Qed.

(** ** Characters *)

Lemma map_rep s bs (f : Z -> Z) body n :
  rep s bs -> n = length bs -> (forall j b, body j b = (c ← load b j; store b j (f c))) ->
  exists s', (b ← for_range 0 n body (buf s); Done (Sdshdr (len s) (free s) b)) = Done s' /\ rep s' (f <$> bs).
Proof.
  intros (rest & -> & Hb) -> Hbody. cbn [len free buf].
  rewrite (for_range_ext body (fun j b => c ← load b j; store b j (f c))) by (intros; apply Hbody).
  pose proof (for_range_map f bs [] (0 :: rest)) as H. cbn [length app] in H. rewrite H. run.
  eexists. split; [done|]. apply (rep_intro _ rest); rewrite ?length_fmap; done.
Qed.

Lemma map_loop_rep s bs f : rep s bs -> exists s', map_loop f s = Done s' /\ rep s' (f <$> bs).
Proof.
  intros Hs. unfold map_loop. apply map_rep; [done| |done]. rewrite (rep_sdslen _ _ Hs).
  destruct Hs as (rest & -> & Hb). small. lia.
Qed.

(** The replacement of a character: the one at its first position in [from]. *)
Fixpoint subst_char (ft : list (Z * Z)) (c : Z) : Z :=
  match ft with [] => c | (x, y) :: ft' => if c =? x then y else subst_char ft' c end.

Lemma map_char_spec c : forall n from to, (n <= length from)%nat -> (n <= length to)%nat ->
  map_char c from to n = Done (subst_char (zip (take n from) (take n to)) c).
Proof.
  induction n as [|n IH]; intros from to Hf Ht; [done|].
  destruct from as [|x from], to as [|y to]; simpl in *; try lia. rewrite ?drop_0, IH by lia.
  by destruct (c =? x).
Qed.

Lemma sdsmapchars_rep s bs from to n :
  rep s bs -> (n <= length from)%nat -> (n <= length to)%nat ->
  exists s', sdsmapchars s from to n = Done s' /\
    rep s' (subst_char (zip (take n from) (take n to)) <$> bs).
Proof.
  intros Hs Hf Ht. unfold sdsmapchars. apply map_rep; [done| |].
  - rewrite (rep_sdslen _ _ Hs). lia.
  - intros j b. destruct (load b j); [|done|done]. run. by rewrite map_char_spec by done.
Qed.

(** ** The use that sdsIncrLen is made for *)

(** Room for [n] bytes, [data] put into it from outside, and the length
    adjusted. *)
Definition read_into (s : sdshdr) (n : Z) (data : list Z) : exec sdshdr :=
  let oldlen := sdslen s in
  let s := sdsMakeRoomFor junk s n in
  b ← memcpy (buf s) (Z.to_nat oldlen) data 0 (length data);
  sdsIncrLen (Sdshdr (len s) (free s) b) (Z.of_nat (length data)).

Lemma read_into_rep s bs n data :
  rep s bs -> 0 <= n -> room_for bs n -> Z.of_nat (length data) <= n ->
  exists s', read_into s n data = Done s' /\ rep s' (bs ++ data).
Proof using Hjunk.
  intros Hs Hn Hr Hd. unfold read_into. rewrite (rep_sdslen _ _ Hs).
  destruct (sdsMakeRoomFor_spec s bs n Hs Hn Hr) as (rest & -> & Hle & Hb). cbn [len free buf]. rewrite Nat2Z.id.
  rewrite memcpy_in by (rewrite ?length_app; simpl; lia). run. rewrite take_app_length, drop_0, firstn_all.
  rewrite drop_app_ge by lia. replace (length bs + length data - length bs)%nat with (length data) by lia.
  unfold sdsIncrLen. cbn [len free buf]. rewrite (proj2 (Z.ltb_ge _ _)) by lia. small.
  rewrite (proj2 (Z.ltb_ge _ _)) by lia.
  destruct (drop (length data) (0 :: rest)) as [|x r] eqn:E; apply (f_equal length) in E;
    rewrite length_drop in E; simpl in E; [lia|].
  replace (Z.of_nat (length bs) + Z.of_nat (length data)) with (Z.of_nat (length (bs ++ data)))
    by (rewrite length_app; lia).
  rewrite storez_nat, app_assoc, store_at. run. eexists. split; [done|].
  apply (rep_intro _ r); rewrite ?length_app; (done || lia).
Qed.

(** ** Any sequence of operations *)

Inductive op :=
  | OCatlen (t : list Z) (n : nat) | OCat (t : list Z)
  | OCpylen (t : list Z) (n : nat) | OCpy (t : list Z)
  | OGrowzero (n : Z) | OMakeRoom (n : Z) | ORemoveFree | OClear | OUpdatelen
  | OCut (k : Z) | ORead (n : Z) (data : list Z)
  | OTrim (cset : list Z) | ORange (start end_ : Z)
  | OLower | OUpper | OMapchars (from to : list Z) (n : nat).

Definition run_op (s : sdshdr) (o : op) : exec sdshdr :=
  match o with
  | OCatlen t n => sdscatlen junk s t n
  | OCat t => sdscat junk s t
  | OCpylen t n => sdscpylen junk s t n
  | OCpy t => sdscpy junk s t
  | OGrowzero n => sdsgrowzero junk s n
  | OMakeRoom n => Done (sdsMakeRoomFor junk s n)
  | ORemoveFree => Done (sdsRemoveFreeSpace junk s)
  | OClear => sdsclear s
  | OUpdatelen => sdsupdatelen s
  | OCut k => sdsIncrLen s (- k)
  | ORead n data => read_into s n data
  | OTrim cset => sdstrim s cset
  | ORange start end_ => sdsrange s start end_
  | OLower => sdstolower s
  | OUpper => sdstoupper s
  | OMapchars from to n => sdsmapchars s from to n
  end.

(** What the operations do to the bytes. *)
Definition apply_op (bs : list Z) (o : op) : list Z :=
  match o with
  | OCatlen t n => bs ++ take n t
  | OCat t => bs ++ until0 t
  | OCpylen t n => take n t
  | OCpy t => until0 t
  | OGrowzero n => bs ++ replicate (Z.to_nat (n - Z.of_nat (length bs))) 0
  | OMakeRoom _ | ORemoveFree => bs
  | OClear => []
  | OUpdatelen => until0 bs
  | OCut k => take (Z.to_nat (Z.of_nat (length bs) - k)) bs
  | ORead _ data => bs ++ data
  | OTrim cset => trim (in_set cset) bs
  | ORange start end_ => slice bs start end_
  | OLower => tolower <$> bs
  | OUpper => toupper <$> bs
  | OMapchars from to n => subst_char (zip (take n from) (take n to)) <$> bs
  end.

(** What an operation requires of its arguments. *)
Definition op_ok (bs : list Z) (o : op) : Prop :=
  match o with
  | OCatlen t n | OCpylen t n => (n <= length t)%nat /\ room_for bs (Z.of_nat n)
  | OCat t | OCpy t => cstring t /\ room_for bs (Z.of_nat (length (until0 t)))
  | OGrowzero n | OMakeRoom n => 0 <= n /\ room_for bs n
  | OCut k => 0 <= k <= Z.of_nat (length bs)
  | ORead n data => Z.of_nat (length data) <= n /\ room_for bs n
  | OTrim cset => cstring cset
  | ORange start end_ => - 2 ^ 31 <= start < 2 ^ 31 /\ - 2 ^ 31 <= end_ < 2 ^ 31
  | OMapchars from to n => (n <= length from)%nat /\ (n <= length to)%nat
  | _ => True
  end.

Fixpoint run_ops (s : sdshdr) (os : list op) : exec sdshdr :=
  match os with [] => Done s | o :: os' => s ← run_op s o; run_ops s os' end.

Fixpoint ops_ok (bs : list Z) (os : list op) : Prop :=
  match os with [] => True | o :: os' => op_ok bs o /\ ops_ok (apply_op bs o) os' end.

Lemma sdscpy_rep s bs t :
  rep s bs -> cstring t -> room_for bs (Z.of_nat (length (until0 t))) ->
  exists s', sdscpy junk s t = Done s' /\ rep s' (until0 t).
Proof using Hjunk.
  intros Hs Ht Hr. destruct (strlen_until0 t Ht) as (H1 & H2 & H3). unfold sdscpy. rewrite H1. run.
  destruct (sdscpylen_rep s bs t (length (until0 t)) Hs) as (s' & E & H); [lia|unfold room_for in *; lia|].
  rewrite H2 in H. by exists s'.
Qed.

Lemma run_op_rep s bs o :
  rep s bs -> op_ok bs o -> exists s', run_op s o = Done s' /\ rep s' (apply_op bs o).
Proof using Hjunk.
  intros Hs Ho. destruct o; cbn [run_op apply_op op_ok] in *; try destruct Ho as [Ho1 Ho2].
  - by apply sdscatlen_rep.
  - by apply sdscat_rep.
  - by apply (sdscpylen_rep s bs).
  - by apply (sdscpy_rep s bs).
  - by apply sdsgrowzero_rep.
  - eexists. split; [done|]. by apply sdsMakeRoomFor_rep.
  - eexists. split; [done|]. by apply sdsRemoveFreeSpace_rep.
  - by apply (sdsclear_rep s bs).
  - by apply sdsupdatelen_rep.
  - apply sdsIncrLen_rep; [done|lia].
  - apply read_into_rep; (done || lia).
  - by apply sdstrim_rep.
  - by apply sdsrange_rep.
  - by apply map_loop_rep.
  - by apply map_loop_rep.
  - by apply sdsmapchars_rep.
Qed.

(** What the comments of sds.c say: sdstrim removes characters of its set
    only. *)
Definition documented_op (bs : list Z) (o : op) : list Z :=
  match o with OTrim cset => trim (in_cset cset) bs | _ => apply_op bs o end.

(** No string that is trimmed has a zero byte. *)
Fixpoint trims_text (bs : list Z) (os : list op) : Prop :=
  match os with
  | [] => True
  | o :: os' => match o with OTrim _ => Forall (fun c => c <> 0) bs | _ => True end /\ trims_text (apply_op bs o) os'
  end.

Lemma as_documented os : forall bs, trims_text bs os -> foldl apply_op bs os = foldl documented_op bs os.
Proof.
  induction os as [|o os IH]; intros bs; [done|]. intros [Ho Hos]. cbn [foldl]. rewrite (IH _ Hos). f_equal.
  destruct o; try done. by apply trim_documented.
Qed.

(** C15: The dynamic strings of sds.c implement sequences of bytes.  From a
    string that holds the bytes [bs], with a consistent header and a
    terminator, any sequence of sdscatlen, sdscat, sdscpylen, sdscpy,
    sdsgrowzero, sdsMakeRoomFor, sdsRemoveFreeSpace, sdsclear, sdsupdatelen,
    sdsIncrLen (cutting off the end, or taking in bytes written to the free
    room), sdstrim, sdsrange, sdstolower, sdstoupper and sdsmapchars whose
    arguments are in order returns, never touches memory outside the buffer,
    and leaves a string with a consistent header and a terminator that holds
    exactly the bytes given by [apply_op], whatever the memory handed out by
    the allocator contains.  These are the bytes the comments promise when
    no string with a zero byte is trimmed; sdstrim removes zero bytes at either
    end too, although its comment names the characters of its set only. *)
Theorem sds_refines os : forall s bs,
  rep s bs -> ops_ok bs os ->
  exists s', run_ops s os = Done s' /\ rep s' (foldl apply_op bs os) /\
    (trims_text bs os -> foldl apply_op bs os = foldl documented_op bs os).
Proof using Hjunk.
  intros s bs Hs Hos. enough (exists s', run_ops s os = Done s' /\ rep s' (foldl apply_op bs os)) as (s' & E & H)
    by (exists s'; split_and!; [done|done|apply as_documented]).
  revert s bs Hs Hos. induction os as [|o os IH]; intros s bs Hs Hos; [by exists s|]. destruct Hos as [Ho Hos].
  destruct (run_op_rep s bs o Hs Ho) as (s1 & H1 & Hs1). cbn [run_ops foldl]. rewrite H1. run. by apply IH.
Qed.
End ops.

(** Memory full of 171 and a text that is trimmed, grown, cut and put in upper
    case; then one with zero bytes at its end. *)
Definition demo_junk (n : nat) : list Z := replicate n 171.
Definition demo_ops : list op :=
  [OCat [104; 105; 32; 0]; ORead 16 [121; 111; 117; 32]; OTrim [32; 0]; OGrowzero 12; OUpdatelen; OUpper; ORange (-3) (-1); ORemoveFree].
Definition zero_ops : list op := [OCat [104; 105; 0]; OGrowzero 4; OTrim [32; 0]].

Lemma sds_refines_witness :
  (exists s', run_ops demo_junk (Sdshdr 0 0 [0]) demo_ops = Done s' /\ rep s' [89; 79; 85] /\ foldl documented_op [] demo_ops = [89; 79; 85]) /\
  exists s', run_ops demo_junk (Sdshdr 0 0 [0]) zero_ops = Done s' /\ rep s' [104; 105] /\ foldl documented_op [] zero_ops = [104; 105; 0; 0].
Proof.
  assert (rep (Sdshdr 0 0 [0]) []) as Hrep by (exists []; split; [done|]; simpl; lia).
  assert (forall n, length (demo_junk n) = n) as Hj by (intros n; apply length_replicate). split.
  - destruct (sds_refines demo_junk Hj demo_ops _ _ Hrep) as (s' & E & Hs & Hd);
      [unfold demo_ops; cbn; unfold cstring, room_for; split_and!; simpl; try lia; auto|].
    exists s'. split; [exact E|]. split; [exact Hs|]. rewrite <- Hd; [done|]. clear. vm_compute. repeat split; repeat constructor; discriminate.
  - destruct (sds_refines demo_junk Hj zero_ops _ _ Hrep) as (s' & E & Hs & _);
      [unfold zero_ops; cbn; unfold cstring, room_for; split_and!; simpl; try lia; auto|].
    exists s'. split; [exact E|]. split; [exact Hs|done].
Defined.
