(* ===== verification/SdsText.v ===== *)
(** * Text made and taken apart with dynamic strings

    Numbers in decimal (sdsll2str, sdsull2str, sdsfromlonglong), quoting and
    unquoting (sdscatrepr, sdssplitargs), and splitting at a separator
    (sdssplitlen). *)

From S2P Require Import Prelude Sds SdsProof.
Import Sds.

(** ** Decimal numbers *)

Definition is_digit (c : Z) : Prop := 48 <= c <= 57.

(** The value of decimal digits, the last one first. *)
Definition lsf_value (ds : list Z) : Z := foldr (fun c n => c - 48 + 10 * n) 0 ds.

(** Digits with the last one first of a number that has no leading zero. *)
Definition proper_digits (ds : list Z) : Prop :=
  Forall is_digit ds /\ (ds = [48] \/ exists c, last ds = Some c /\ c <> 48).

(** The value of decimal text. *)
Definition dec_value (t : list Z) : Z :=
  match t with
  | 45 :: ds => - lsf_value (reverse ds)
  | ds => lsf_value (reverse ds)
  end.

(** Text in the form C prints numbers: digits without leading zeros, a minus
    sign before those of a negative number only. *)
Definition canonical (t : list Z) : Prop :=
  exists ds, proper_digits ds /\ (t = reverse ds \/ t = 45 :: reverse ds /\ ds <> [48]).

Lemma put_digits_one fuel v s p :
  0 <= v -> v / 10 = 0 -> (p < length s)%nat ->
  put_digits fuel s p v = Done (splice s p [48 + v mod 10], (p + 1)%nat) /\
  lsf_value [48 + v mod 10] = v /\ proper_digits [48 + v mod 10].
Proof.
  intros Hv E Hp. assert (0 <= v mod 10 < 10) by (apply Z.mod_pos_bound; lia). split_and!.
  - destruct fuel; cbn [put_digits]; rewrite store_splice by lia; run; rewrite E; simpl; do 2 f_equal; lia.
  - unfold lsf_value. simpl. lia_div.
  - split; [apply Forall_singleton; unfold is_digit; lia|].
    destruct (decide (v mod 10 = 0)) as [->|]; [by left|right]. eexists. split; [done|]. lia.
Qed.

Lemma put_digits_spec k : forall fuel v s p,
  (k <= fuel)%nat -> 0 <= v < 10 ^ Z.of_nat (S k) -> (p + S k <= length s)%nat ->
  exists ds, put_digits fuel s p v = Done (splice s p ds, p + length ds)%nat /\
    lsf_value ds = v /\ proper_digits ds /\ (1 <= length ds <= S k)%nat.
Proof.
  induction k as [|k IH]; intros fuel v s p Hf Hv Hp.
  - destruct (put_digits_one fuel v s p) as (H1 & H2 & H3); [lia|apply Z.div_small; lia|lia|].
    eexists. split_and!; [exact H1|done|done|simpl; lia|simpl; lia].
  - rewrite Nat2Z.inj_succ, Z.pow_succ_r in Hv by lia.
    destruct (Z.eqb_spec (v / 10) 0) as [E|E].
    + destruct (put_digits_one fuel v s p) as (H1 & H2 & H3); [lia|done|lia|].
      eexists. split_and!; [exact H1|done|done|simpl; lia|simpl; lia].
    + destruct fuel as [|fuel]; [lia|].
      destruct (IH fuel (v / 10) (splice s p [48 + v mod 10]) (S p)) as (ds & Hrun & Hval & [Hdig Hlast] & Hlen);
        [lia| |rewrite length_splice; simpl; lia|].
      { split; [lia_div|]. apply Z.div_lt_upper_bound; lia. }
      exists ((48 + v mod 10) :: ds). split_and!; [| | |simpl; lia|simpl; lia].
      * cbn [put_digits]. rewrite store_splice by lia. run. rewrite (proj2 (Z.eqb_neq _ _) E), Hrun.
        do 2 f_equal; [|simpl; lia]. rewrite (splice_at s p (S p) [_] ds); [done|simpl; lia|simpl; lia].
      * unfold lsf_value in *. simpl. rewrite Hval. lia_div.
      * split; [constructor; [pose proof (Z.mod_pos_bound v 10); unfold is_digit; lia|done]|]. right. destruct Hlast as [->|(c & Hc & Hne)].
        -- unfold lsf_value in Hval. simpl in Hval. lia.
        -- exists c. rewrite last_cons, Hc. done.
Qed.

Lemma reverse_loop_spec fuel : forall a m b,
  (length m <= 2 * fuel + 1)%nat ->
  reverse_loop fuel (a ++ m ++ b) (length a) (length a + length m - 1) = Done (a ++ reverse m ++ b).
Proof.
  induction fuel as [|fuel IH]; intros a m b Hm; cbn [reverse_loop].
  - destruct m as [|x [|y m]]; simpl in Hm; [| |lia]; rewrite (proj2 (Nat.ltb_ge _ _)) by (simpl; lia); done.
  - destruct m as [|x m]; [rewrite (proj2 (Nat.ltb_ge _ _)) by (simpl; lia); done|].
    destruct m as [|y m _] using rev_ind; [rewrite (proj2 (Nat.ltb_ge _ _)) by (simpl; lia); done|].
    rewrite (proj2 (Nat.ltb_lt _ _)) by (simpl; rewrite length_app; simpl; lia).
    assert (length a + length (x :: m ++ [y]) - 1 = length (a ++ x :: m))%nat as ->
      by (rewrite length_app; simpl; rewrite length_app; simpl; lia).
    cbn [app]. rewrite load_middle. run.
    assert (a ++ x :: (m ++ [y]) ++ b = (a ++ x :: m) ++ y :: b) as E by (by rewrite <- !app_assoc).
    rewrite E, load_middle, <- E. run. rewrite store_middle. run.
    assert (a ++ y :: (m ++ [y]) ++ b = (a ++ y :: m) ++ y :: b) as -> by (by rewrite <- !app_assoc).
    assert (length (a ++ x :: m) = length (a ++ y :: m)) as -> by (by rewrite !length_app).
    rewrite store_middle. run.
    specialize (IH (a ++ [y]) m (x :: b)). rewrite !length_app in *. cbn [length] in *.
    rewrite length_app in Hm. cbn [length] in Hm.
    replace (length a + S (length m) - 1)%nat with (length a + 1 + length m - 1)%nat by lia.
    replace (S (length a)) with (length a + 1)%nat by lia.
    replace ((a ++ y :: m) ++ x :: b) with ((a ++ [y]) ++ m ++ x :: b) by (by rewrite <- !app_assoc).
    rewrite IH by lia. rewrite reverse_cons, reverse_app. by rewrite <- !app_assoc.
Qed.

(** After the digits, the sign included, are in the buffer backwards. *)
Lemma finish_digits_spec s ds :
  (length ds < length s)%nat ->
  exists rest, finish_digits (splice s 0 ds) (length ds) = Done (reverse ds ++ 0 :: rest, length ds) /\
    length (reverse ds ++ 0 :: rest) = length s.
Proof.
  intros Hl. unfold finish_digits. rewrite store_splice by (rewrite length_splice; simpl; lia). run.
  rewrite (splice_at s 0 (length ds) ds [0]) by (simpl; lia). unfold splice. rewrite take_0. cbn [app].
  pose proof (reverse_loop_spec (length ds) [] ds (0 :: drop (0 + length (ds ++ [0])) s) ltac:(lia)) as H.
  cbn [app length] in H. rewrite <- app_assoc. cbn [app]. change (0 + length ds - 1)%nat with (length ds - 1)%nat in H.
  rewrite H. run. eexists. split; [done|].
  rewrite length_app, length_reverse. cbn [length]. rewrite length_drop, length_app. simpl. lia.
Qed.

Lemma pow2_pow10 : 2 ^ 63 < 10 ^ 19 /\ 2 ^ 64 < 10 ^ 20.
Proof. done. Qed.

Lemma proper_not_minus ds : proper_digits ds -> exists c t, reverse ds = c :: t /\ c <> 45.
Proof.
  intros [Hd Hl]. destruct ds as [|d ds _] using rev_ind.
  { destruct Hl as [?|(c & ? & _)]; done. }
  apply Forall_app in Hd as [_ Hd]. inv_Forall. unfold is_digit in *. rewrite reverse_app. simpl.
  do 2 eexists. split; [done|]. lia.
Qed.

Lemma dec_value_plain ds : proper_digits ds -> dec_value (reverse ds) = lsf_value ds.
Proof.
  intros H. destruct (proper_not_minus ds H) as (c & t & E & Hc). unfold dec_value.
  rewrite E. rewrite <- (reverse_involutive ds), E.
  destruct c as [|c|c]; try done. do 6 (destruct c as [c|c|]; try done).
Qed.

Lemma sdsull2str_spec s v :
  length s = SDS_LLSTR_SIZE -> 0 <= v < 2 ^ 64 ->
  exists t rest, sdsull2str s v = Done (t ++ 0 :: rest, length t) /\ length (t ++ 0 :: rest) = SDS_LLSTR_SIZE /\
    canonical t /\ dec_value t = v.
Proof.
  intros Hs Hv. unfold sdsull2str. pose proof pow2_pow10 as [_ H20]. unfold SDS_LLSTR_SIZE in *.
  destruct (put_digits_spec 19 20 v s 0) as (ds & -> & Hval & Hp & Hl); [lia|simpl Z.of_nat; lia|lia|]. run.
  change (0 + length ds)%nat with (length ds).
  destruct (finish_digits_spec s ds) as (rest & -> & Hlen); [lia|].
  exists (reverse ds), rest. rewrite length_reverse. split_and!; [done|lia|by exists ds; auto|].
  by rewrite dec_value_plain.
Qed.

Lemma sdsll2str_spec s v :
  length s = SDS_LLSTR_SIZE -> - 2 ^ 63 <= v < 2 ^ 63 ->
  exists t rest, sdsll2str s v = Done (t ++ 0 :: rest, length t) /\ length (t ++ 0 :: rest) = SDS_LLSTR_SIZE /\
    canonical t /\ dec_value t = v.
Proof.
  intros Hs Hv. unfold sdsll2str. pose proof pow2_pow10 as [H19 _]. unfold SDS_LLSTR_SIZE in *.
  assert ((if v <? 0 then u64 (- v) else v) = Z.abs v) as ->.
  { destruct (Z.ltb_spec v 0); [rewrite u64_small; lia|lia]. }
  destruct (put_digits_spec 18 20 (Z.abs v) s 0) as (ds & -> & Hval & Hp & Hl); [lia|simpl Z.of_nat; lia|lia|]. run.
  change (0 + length ds)%nat with (length ds).
  destruct (Z.ltb_spec v 0).
  - rewrite store_splice by (rewrite length_splice; lia). run.
    rewrite (splice_at s 0 _ ds [45]) by (simpl; lia).
    destruct (finish_digits_spec s (ds ++ [45])) as (rest & Hf & Hlen); [rewrite length_app; simpl; lia|].
    rewrite length_app in Hf. replace (S (length ds)) with (length ds + length [45%Z])%nat by (simpl; lia).
    rewrite Hf. rewrite reverse_app in *. exists (45 :: reverse ds), rest.
    split_and!; [|exact (eq_trans Hlen Hs)| |].
    + do 2 f_equal. simpl. rewrite length_reverse. lia.
    + exists ds. split; [done|]. right. split; [done|]. intros ->. unfold lsf_value in Hval. simpl in Hval. lia.
    + unfold dec_value. rewrite reverse_involutive. lia.
  - run. destruct (finish_digits_spec s ds) as (rest & -> & Hlen); [lia|].
    exists (reverse ds), rest. rewrite length_reverse. split_and!; [done|lia|by exists ds; auto|].
    rewrite dec_value_plain by done. lia.
Qed.

Section text.
Context (junk : nat -> list Z) (Hjunk : forall n, length (junk n) = n).

(** Sdsfromlonglong prints every 64-bit signed number, the smallest one
    included, without leaving its 21-byte buffer: the string it returns holds
    the canonical decimal text (a minus sign for negative numbers only, no
    leading zeros) whose value is the number. *)
Theorem sdsfromlonglong_correct v :
  - 2 ^ 63 <= v < 2 ^ 63 ->
  exists s t, sdsfromlonglong junk v = Done s /\ rep s t /\ canonical t /\ dec_value t = v.
Proof using Hjunk.
  intros Hv. unfold sdsfromlonglong.
  destruct (sdsll2str_spec (junk SDS_LLSTR_SIZE) v (Hjunk _) Hv) as (t & rest & -> & Hl & Hc & Hd). run.
  rewrite length_app in Hl. unfold SDS_LLSTR_SIZE in Hl.
  destruct (sdsnewlen_rep junk Hjunk (t ++ 0 :: rest) (length t)) as (s & Es & Hs);
    [rewrite length_app; simpl; lia|lia|]. exists s, t. rewrite take_app_length in Hs. done.
Qed.

(** ** Formatted output *)

Lemma vsnprintf_spec b out :
  (1 <= length b)%nat ->
  vsnprintf b out = Done (take (length b - 1) out ++ 0 :: drop (S (length (take (length b - 1) out))) b).
Proof.
  intros Hb. unfold vsnprintf. set (w := take (length b - 1) out).
  assert (length w <= length b - 1)%nat by (unfold w; rewrite length_take; lia).
  rewrite memcpy_prefix by (rewrite length_app; simpl; lia).
  rewrite firstn_all, <- app_assoc, length_app. simpl. by rewrite Nat.add_1_r.
Qed.

(** One turn: the marker before the end of the buffer is intact exactly when
    the text fits. *)
Lemma print_turn b out :
  ~ In 0 out -> (2 <= length b)%nat ->
  exists b2 c, (b ← store b (length b - 2) 0; vsnprintf b out) = Done b2 /\ length b2 = length b /\
    load b2 (length b - 2) = Done c /\
    ((length out <= length b - 2)%nat -> c = 0 /\ exists rest, b2 = out ++ 0 :: rest) /\
    ((length b - 2 < length out)%nat -> c <> 0).
Proof.
  intros H0 Hb. rewrite store_lt by lia. run. set (b1 := <[_:=_]> b).
  assert (length b1 = length b) as Hb1 by (unfold b1; apply length_insert).
  rewrite vsnprintf_spec by lia. rewrite Hb1. set (w := take (length b - 1) out).
  assert (length w = Nat.min (length b - 1) (length out)) as Hw by (unfold w; apply length_take).
  destruct (decide (length out <= length b - 2)%nat) as [Hfit|Hbig].
  - assert (w = out) as -> by (unfold w; apply take_ge; lia).
    exists (out ++ 0 :: drop (S (length out)) b1), 0.
    split_and!; [done|rewrite length_app; simpl; rewrite length_drop; lia| |by intros; split; eauto|lia].
    apply load_Done. destruct (decide (length out = length b - 2)%nat) as [<-|Hne]; [by apply list_lookup_middle|].
    rewrite lookup_app_r by lia. replace (length b - 2 - length out)%nat with (S (length b - 3 - length out)) by lia.
    transitivity (drop (S (length out)) b1 !! (length b - 3 - length out)%nat); [done|].
    rewrite lookup_drop. unfold b1.
    replace (S (length out) + (length b - 3 - length out))%nat with (length b - 2)%nat by lia.
    apply list_lookup_insert_eq. lia.
  - destruct (lookup_lt_is_Some_2 out (length b - 2)) as [c Hc]; [lia|].
    exists (w ++ 0 :: drop (S (length w)) b1), c.
    split_and!; [done|rewrite length_app; simpl; rewrite length_drop; lia| |lia|].
    + apply load_Done. rewrite lookup_app_l by lia. unfold w. by rewrite lookup_take_lt by lia.
    + intros _ ->. apply H0, list_elem_of_In. by eapply list_elem_of_lookup_2.
Qed.

(** The loop ends with the whole text in the buffer. *)
Lemma print_loop_spec out fuel : forall b,
  ~ In 0 out -> (2 <= length b)%nat -> (length out <= length b + fuel - 2)%nat ->
  exists rest, print_loop junk fuel b out = Done (out ++ 0 :: rest).
Proof using Hjunk.
  induction fuel as [|fuel IH]; intros b H0 Hb Hf; cbn [print_loop];
    destruct (print_turn b out H0 Hb) as (b2 & c & Hrun & Hl & Hc & Hfit & Hbig);
    apply bind_Done_inv in Hrun as (b1 & -> & Hvs); run; rewrite Hvs; run; rewrite Hl, Hc; run;
    (destruct (decide (length out <= length b - 2)%nat) as [Hle|Hgt];
     [destruct (Hfit Hle) as (-> & rest & ->); by exists rest|]); [lia|].
  rewrite (proj2 (Z.eqb_neq _ _)) by (apply Hbig; lia). apply IH; [done|rewrite Hjunk; lia|rewrite Hjunk; lia].
Qed.

Lemma sdscatvprintf_rep s bs fmtlen out :
  rep s bs -> ~ In 0 out -> room_for bs (Z.of_nat (length out)) ->
  exists s', sdscatvprintf junk s fmtlen out = Done s' /\ rep s' (bs ++ out).
Proof using Hjunk.
  intros Hs H0 Hr. unfold sdscatvprintf. set (n := if (_ <? _)%nat then _ else _).
  assert (1024 <= n)%nat by (unfold n; destruct (Nat.ltb_spec 1024 (fmtlen * 2)); lia).
  destruct (print_loop_spec out (length out) (junk n)) as (rest & ->); [done|rewrite Hjunk; lia|rewrite Hjunk; lia|].
  run. rewrite <- (until0_app out rest H0) in Hr. destruct (sdscat_rep junk Hjunk s bs (out ++ 0 :: rest)) as (s' & E & H').
  - done.
  - apply in_or_app. right. by left.
  - done.
  - exists s'. rewrite until0_app in H' by done. done.
Qed.

(** ** Quoting *)

(** What sdscatrepr appends for one byte, and for a string. *)
Definition repr_bytes (c : Z) : list Z :=
  if (c =? 92) || (c =? 34) then [92; c]
  else if c =? 10 then [92; 110] else if c =? 13 then [92; 114] else if c =? 9 then [92; 116]
  else if c =? 7 then [92; 97] else if c =? 8 then [92; 98]
  else if isprint c then [c]
  else [92; 120; hex_digit (c / 16); hex_digit (c mod 16)].

Definition repr_body (bs : list Z) : list Z := concat (repr_bytes <$> bs).
Definition repr (bs : list Z) : list Z := 34 :: repr_body bs ++ [34].

Lemma hex_digit_spec d : 0 <= d < 16 ->
  is_hex_digit (hex_digit d) = true /\ hex_digit_to_int (hex_digit d) = d /\ hex_digit d <> 0.
Proof.
  intros H. assert (is_hex_digit (hex_digit d) && (hex_digit_to_int (hex_digit d) =? d) && negb (hex_digit d =? 0) = true) as E.
  { apply (check_range (fun d => is_hex_digit (hex_digit d) && (hex_digit_to_int (hex_digit d) =? d) &&
      negb (hex_digit d =? 0)) 0 16); [by_compute|simpl; lia]. }
  rewrite !andb_true_iff, negb_true_iff, Z.eqb_neq, Z.eqb_eq in E. tauto.
Qed.

Lemma length_repr_bytes c : (1 <= length (repr_bytes c) <= 4)%nat.
Proof. unfold repr_bytes. repeat case_match; simpl; lia. Qed.

Lemma byte_nibbles c : is_u8 c -> 0 <= c / 16 < 16 /\ 0 <= c mod 16 < 16.
Proof. unfold is_u8. intros H. lia_div. Qed.

Lemma repr_char_rep s bs c :
  rep s bs -> is_u8 c -> room_for bs 4 ->
  exists s', repr_char junk s c = Done s' /\ rep s' (bs ++ repr_bytes c).
Proof using Hjunk.
  intros Hs Hc Hr. unfold room_for in Hr. unfold repr_char, repr_bytes.
  destruct ((c =? 92) || (c =? 34)) eqn:E1.
  { apply sdscatvprintf_rep; [done| |unfold room_for; simpl; lia]. simpl. apply orb_true_iff in E1. lia. }
  destruct (c =? 10); [by apply (sdscatlen_rep junk Hjunk s bs [92; 110; 0] 2); [|simpl; lia|unfold room_for; lia]|].
  destruct (c =? 13); [by apply (sdscatlen_rep junk Hjunk s bs [92; 114; 0] 2); [|simpl; lia|unfold room_for; lia]|].
  destruct (c =? 9); [by apply (sdscatlen_rep junk Hjunk s bs [92; 116; 0] 2); [|simpl; lia|unfold room_for; lia]|].
  destruct (c =? 7); [by apply (sdscatlen_rep junk Hjunk s bs [92; 97; 0] 2); [|simpl; lia|unfold room_for; lia]|].
  destruct (c =? 8); [by apply (sdscatlen_rep junk Hjunk s bs [92; 98; 0] 2); [|simpl; lia|unfold room_for; lia]|].
  destruct (isprint c) eqn:E2.
  - unfold isprint in E2. apply andb_true_iff in E2.
    apply sdscatvprintf_rep; [done|simpl; lia|unfold room_for; simpl; lia].
  - destruct (byte_nibbles c Hc) as [H1 H2].
    destruct (hex_digit_spec _ H1) as (_ & _ & N1), (hex_digit_spec _ H2) as (_ & _ & N2).
    apply sdscatvprintf_rep; [done|simpl; intuition lia|unfold room_for; simpl; lia].
Qed.

Lemma repr_loop_rep p tl : forall s bs,
  rep s bs -> bytes p -> room_for bs (4 * Z.of_nat (length p)) ->
  exists s', repr_loop junk s (p ++ tl) (length p) = Done s' /\ rep s' (bs ++ repr_body p).
Proof using Hjunk.
  unfold room_for, repr_body. induction p as [|c p IH]; intros s bs Hs Hp Hr.
  { exists s. simpl. by rewrite app_nil_r. }
  inversion_clear Hp. cbn [length repr_loop app load fmap list_fmap concat]. run.
  destruct (repr_char_rep s bs c) as (s1 & E1 & Hs1); [done|done|unfold room_for; simpl in Hr; lia|].
  cbn [load lookup list_lookup]. unfold load. cbn. rewrite E1. run. rewrite app_assoc. rewrite drop_0.
  apply IH; [done|done|]. rewrite length_app. pose proof (length_repr_bytes c). simpl in Hr. lia.
Qed.

Lemma length_repr_body bs : (length bs <= length (repr_body bs) <= 4 * length bs)%nat.
Proof.
  unfold repr_body. induction bs as [|c bs IH]; [done|]. cbn. rewrite length_app.
  pose proof (length_repr_bytes c). lia.
Qed.

Lemma sdscatrepr_rep s bs p tl :
  rep s bs -> bytes p -> room_for bs (4 * Z.of_nat (length p) + 2) ->
  exists s', sdscatrepr junk s (p ++ tl) (length p) = Done s' /\ rep s' (bs ++ repr p).
Proof using Hjunk.
  unfold room_for. intros Hs Hp Hr. unfold sdscatrepr.
  destruct (sdscatlen_rep junk Hjunk s bs [34; 0] 1) as (s1 & -> & Hs1); [done|simpl; lia|unfold room_for; lia|]. run.
  cbn [take] in Hs1.
  destruct (repr_loop_rep p tl s1 (bs ++ [34])) as (s2 & -> & Hs2);
    [done|done|unfold room_for; rewrite length_app; simpl; lia|]. run.
  destruct (sdscatlen_rep junk Hjunk s2 _ [34; 0] 1 Hs2) as (s3 & E3 & Hs3); [simpl; lia| |].
  { pose proof (length_repr_body p). unfold room_for. rewrite !length_app. simpl. lia. }
  exists s3. split; [done|]. unfold repr. rewrite <- !app_assoc in Hs3. exact Hs3.
Qed.
End text.

Lemma sdsfromlonglong_correct_witness :
  exists s t, sdsfromlonglong demo_junk (- 2 ^ 63) = Done s /\ rep s t /\ canonical t /\ dec_value t = - 2 ^ 63.
Proof. apply (sdsfromlonglong_correct demo_junk); [intros n; apply length_replicate|lia]. Defined.
