(* ===== verification/SdsFmt.v ===== *)
(** * sdscatfmt: formatted output without vsnprintf

    A format is a sequence of pieces: literal characters, the conversions %s,
    %S, %i, %I, %u, %U, and any other character after a percent sign, which
    stands for itself.  sdscatfmt appends what the pieces stand for. *)

From S2P Require Import Prelude Sds SdsProof SdsText.
Import Sds.

(** ** Strings in the middle of the work *)

(** While sdscatfmt appends, the header counts the content but the byte after
    it is not yet the terminator. *)
Definition unfinished (s : sdshdr) (bs : list Z) : Prop :=
  exists x rest, s = Sdshdr (Z.of_nat (length bs)) (Z.of_nat (length rest)) (bs ++ x :: rest) /\
    Z.of_nat (length bs) + Z.of_nat (length rest) < 2 ^ 31.

Lemma rep_unfinished s bs : rep s bs -> unfinished s bs.
Proof. intros (rest & -> & H). by exists 0, rest. Qed.

(** ** Pieces of a format *)

Inductive piece :=
  | PChar (c : Z)
  | PEscape (c : Z)
  | PStr (t : list Z)
  | PSds (s : sdshdr) (bs : list Z)
  | PInt (n : Z) | PInt64 (n : Z) | PUint (n : Z) | PUint64 (n : Z).

Definition piece_format (p : piece) : list Z :=
  match p with
  | PChar c => [c]
  | PEscape c => [37; c]
  | PStr _ => [37; 115] | PSds _ _ => [37; 83]
  | PInt _ => [37; 105] | PInt64 _ => [37; 73] | PUint _ => [37; 117] | PUint64 _ => [37; 85]
  end.

Definition piece_args (p : piece) : list fmt_arg :=
  match p with
  | PChar _ | PEscape _ => []
  | PStr t => [ArgStr t]
  | PSds s _ => [ArgSds s]
  | PInt n | PInt64 n | PUint n | PUint64 n => [ArgInt n]
  end.

(** The arguments have the types the conversions name. *)
Definition piece_ok (p : piece) : Prop :=
  match p with
  | PChar c => c <> 0 /\ c <> 37
  | PEscape c => c <> 0 /\ c ∉ [115; 83; 105; 73; 117; 85]
  | PStr t => cstring t
  | PSds s bs => rep s bs
  | PInt n => - 2 ^ 31 <= n < 2 ^ 31
  | PInt64 n => - 2 ^ 63 <= n < 2 ^ 63
  | PUint n => 0 <= n < 2 ^ 32
  | PUint64 n => 0 <= n < 2 ^ 64
  end.

(** The text a piece stands for. *)
Definition prints (p : piece) (t : list Z) : Prop :=
  match p with
  | PChar c | PEscape c => t = [c]
  | PStr u => t = until0 u
  | PSds _ bs => t = bs
  | PInt n | PInt64 n | PUint n | PUint64 n => canonical t /\ dec_value t = n
  end.

Definition piece_size (p : piece) : Z :=
  match p with
  | PChar _ | PEscape _ => 1
  | PStr t => Z.of_nat (length (until0 t))
  | PSds _ bs => Z.of_nat (length bs)
  | PInt _ | PInt64 _ | PUint _ | PUint64 _ => 20
  end.

Definition pieces_size (ps : list piece) : Z := foldr (fun p n => piece_size p + n) 0 ps.

Lemma piece_size_nonneg p : 0 <= piece_size p.
Proof. destruct p; simpl; lia. Qed.

Lemma pieces_size_nonneg ps : 0 <= pieces_size ps.
Proof. induction ps as [|p ps IH]; simpl; [lia|]. pose proof (piece_size_nonneg p). lia. Qed.

Section fmt.
Context (junk : nat -> list Z) (Hjunk : forall n, length (junk n) = n).

(** ** One step *)

Lemma fmt_copy_spec s bs t l :
  unfinished s bs -> (l <= length t)%nat -> room_for bs (Z.of_nat l) ->
  exists s', fmt_copy junk s (Z.of_nat (length bs)) t l = Done (s', Z.of_nat (length (bs ++ take l t))) /\
    unfinished s' (bs ++ take l t).
Proof using Hjunk.
  intros (x & rest & -> & Hb) Hl Hr. unfold fmt_copy, sdsavail. cbn [free]. small.
  set (s1 := if _ <? _ then _ else _).
  assert (exists rest', s1 = Sdshdr (Z.of_nat (length bs)) (Z.of_nat (length rest')) (bs ++ x :: rest') /\
    (l <= length rest')%nat /\ Z.of_nat (length bs) + Z.of_nat (length rest') < 2 ^ 31) as (r & -> & Hle & Hb').
  { subst s1. destruct (Z.ltb_spec (Z.of_nat (length rest)) (Z.of_nat l)).
    - destruct (sdsMakeRoomFor_open junk Hjunk bs x rest (Z.of_nat l) Hb ltac:(lia) Hr) as (r & -> & H1 & H2).
      exists r. split_and!; [done|lia|done].
    - exists rest. split_and!; [done|lia|done]. }
  cbn [buf len free]. rewrite Nat2Z.id, memcpy_in by (rewrite ?length_app; simpl; lia). run.
  rewrite take_app_length, drop_0, drop_app_ge by lia. replace (length bs + l - length bs)%nat with l by lia.
  destruct (drop l (x :: r)) as [|y r'] eqn:E; apply (f_equal length) in E; rewrite length_drop in E; simpl in E; [lia|].
  rewrite length_app, length_take, Nat.min_l by lia. small. eexists. split; [do 2 f_equal; lia|].
  exists y, r'. rewrite length_app, length_take, Nat.min_l by lia. rewrite <- app_assoc.
  split; [f_equal; lia|lia].
Qed.

Lemma fmt_char_spec s bs c :
  unfinished s bs -> 0 < free s ->
  exists s', fmt_char s (Z.of_nat (length bs)) c = Done (s', Z.of_nat (length (bs ++ [c]))) /\ unfinished s' (bs ++ [c]).
Proof.
  intros (x & rest & -> & Hb) Hf. cbn [free] in Hf. destruct rest as [|y rest]; [simpl in Hf; lia|].
  unfold fmt_char. cbn [buf len free]. rewrite storez_nat, store_at. run. simpl length in Hb.
  rewrite length_app. cbn [length]. small. eexists. split; [do 2 f_equal; lia|].
  exists y, rest. rewrite length_app, <- app_assoc. cbn [length app]. split; [f_equal; lia|lia].
Qed.

(** Every turn starts with room for one byte. *)
Lemma fmt_room s bs :
  unfinished s bs -> room_for bs 1 ->
  unfinished (if free s =? 0 then sdsMakeRoomFor junk s 1 else s) bs /\
  0 < free (if free s =? 0 then sdsMakeRoomFor junk s 1 else s).
Proof using Hjunk.
  intros Hs Hr. pose proof Hs as (x & rest & -> & Hb). cbn [free].
  destruct (Z.eqb_spec (Z.of_nat (length rest)) 0) as [E|E]; [|cbn [free]; split; [done|lia]].
  destruct (sdsMakeRoomFor_open junk Hjunk bs x rest 1 Hb ltac:(lia) Hr) as (r & -> & H1 & H2).
  split; [by exists x, r|cbn [free]; lia].
Qed.

(** A conversion to decimal appends the number. *)
Lemma fmt_number s bs conv n (args : list fmt_arg) :
  unfinished s bs -> room_for bs 20 ->
  (exists t rest, conv = Done (t ++ 0 :: rest, length t) /\ length (t ++ 0 :: rest) = SDS_LLSTR_SIZE /\
     canonical t /\ dec_value t = n) ->
  exists t s', (d ← conv; let '(b, k) := d in
                d ← fmt_copy junk s (Z.of_nat (length bs)) b k; Done (d.1, d.2, args)) =
      Done (s', Z.of_nat (length (bs ++ t)), args) /\ unfinished s' (bs ++ t) /\
    (canonical t /\ dec_value t = n) /\ Z.of_nat (length t) <= 20.
Proof using Hjunk.
  intros Hs Hr (t & rest & -> & Hl & Hc). rewrite length_app in Hl. unfold SDS_LLSTR_SIZE in Hl. simpl length in Hl.
  unfold room_for in *. run.
  destruct (fmt_copy_spec s bs (t ++ 0 :: rest) (length t) Hs) as (s' & -> & H');
    [rewrite length_app; simpl; lia|unfold room_for; lia|].
  run. rewrite take_app_length in *. exists t, s'. split_and!; [done|done|tauto|tauto|lia].
Qed.

Lemma fmt_conversion_spec s bs p args :
  unfinished s bs -> 0 < free s -> piece_ok p -> (forall c, p <> PChar c) -> room_for bs (piece_size p) ->
  exists next t s', piece_format p = [37; next] /\
    fmt_conversion junk s (Z.of_nat (length bs)) next (piece_args p ++ args) =
      Done (s', Z.of_nat (length (bs ++ t)), args) /\
    unfinished s' (bs ++ t) /\ prints p t /\ Z.of_nat (length t) <= piece_size p.
Proof using Hjunk.
  intros Hs Hf Hok Hne Hr. destruct p as [c|c|u|s2 bs2|n|n|n|n]; [by destruct (Hne c)|..];
    cbn [piece_format piece_args piece_size piece_ok prints app] in *.
  - exists c, [c]. destruct (fmt_char_spec s bs c Hs Hf) as (s' & E & H'). exists s'.
    split_and!; [done| |done|done|done]. unfold fmt_conversion.
    destruct Hok as [_ Hok]. rewrite !not_elem_of_cons in Hok. destruct Hok as (? & ? & ? & ? & ? & ? & _).
    repeat rewrite (proj2 (Z.eqb_neq _ _)) by done. cbn [orb]. by rewrite E.
  - destruct (strlen_until0 u Hok) as (H1 & H2 & H3).
    destruct (fmt_copy_spec s bs u (length (until0 u)) Hs) as (s' & E & H'); [lia|done|]. rewrite H2 in *.
    exists 115, (until0 u), s'. split_and!; [done| |done|done|lia].
    unfold fmt_conversion. cbn [Z.eqb Pos.eqb]. rewrite H1. run. by rewrite E.
  - pose proof (rep_sdslen _ _ Hok) as Hl. destruct Hok as (r2 & -> & Hb2).
    destruct (fmt_copy_spec s bs (bs2 ++ 0 :: r2) (length bs2) Hs) as (s' & E & H');
      [rewrite length_app; lia|done|]. rewrite take_app_length in *.
    exists 83, bs2, s'. split_and!; [done| |done|done|lia].
    unfold fmt_conversion. cbn [Z.eqb Pos.eqb buf]. rewrite Hl, Nat2Z.id. by rewrite E.
  - destruct (fmt_number s bs (sdsll2str (junk SDS_LLSTR_SIZE) n) n args Hs Hr) as (t & s' & E & H' & Hp & Hle);
      [apply sdsll2str_spec; [apply Hjunk|lia]|]. exists 105, t, s'. split_and!; [done| |done|tauto|tauto|done].
    unfold fmt_conversion. cbn [Z.eqb Pos.eqb orb]. rewrite s32_small by lia. exact E.
  - destruct (fmt_number s bs (sdsll2str (junk SDS_LLSTR_SIZE) n) n args Hs Hr) as (t & s' & E & H' & Hp & Hle);
      [apply sdsll2str_spec; [apply Hjunk|lia]|]. exists 73, t, s'. split_and!; [done| |done|tauto|tauto|done].
    unfold fmt_conversion. cbn [Z.eqb Pos.eqb orb]. exact E.
  - destruct (fmt_number s bs (sdsull2str (junk SDS_LLSTR_SIZE) n) n args Hs Hr) as (t & s' & E & H' & Hp & Hle);
      [apply sdsull2str_spec; [apply Hjunk|lia]|]. exists 117, t, s'. split_and!; [done| |done|tauto|tauto|done].
    unfold fmt_conversion. cbn [Z.eqb Pos.eqb orb]. rewrite u32_small by (unfold is_u32; lia). exact E.
  - destruct (fmt_number s bs (sdsull2str (junk SDS_LLSTR_SIZE) n) n args Hs Hr) as (t & s' & E & H' & Hp & Hle);
      [apply sdsull2str_spec; [apply Hjunk|lia]|]. exists 85, t, s'. split_and!; [done| |done|tauto|tauto|done].
    unfold fmt_conversion. cbn [Z.eqb Pos.eqb orb]. exact E.
Qed.

(** ** The whole format *)

Definition format (ps : list piece) : list Z := concat (piece_format <$> ps).
Definition format_args (ps : list piece) : list fmt_arg := concat (piece_args <$> ps).

Lemma fmt_loop_spec ps tl : forall s bs,
  unfinished s bs -> Forall piece_ok ps -> room_for bs (pieces_size ps + 1) ->
  exists s' ts, fmt_loop junk (format ps ++ 0 :: tl) s (Z.of_nat (length bs)) (format_args ps) = Done s' /\
    rep s' (bs ++ concat ts) /\ Forall2 prints ps ts.
Proof using Hjunk.
  unfold format, format_args. induction ps as [|p ps IH]; intros s bs Hs Hok Hr.
  { destruct Hs as (x & rest & -> & Hb). cbn [fmap list_fmap concat app fmt_loop Z.eqb buf len free].
    rewrite storez_nat, store_at. run. eexists _, []. split; [done|]. cbn [concat]. rewrite app_nil_r.
    split; [by exists rest|constructor]. }
  inversion_clear Hok as [|?? Hp Hok']. cbn [pieces_size foldr] in Hr.
  change (foldr _ 0 ps) with (pieces_size ps) in Hr. pose proof (pieces_size_nonneg ps). pose proof (piece_size_nonneg p).
  destruct (fmt_room s bs Hs) as [Hs1 Hf1].
  { unfold room_for in *. lia. }
  rewrite !fmap_cons. cbn [concat]. rewrite <- (app_assoc (piece_format p)). set (s1 := if free s =? 0 then _ else _) in *.
  assert ((exists c, p = PChar c) \/ (forall c, p <> PChar c)) as [[c ->]|Hne]
    by (destruct p; [left; by eexists|right; congruence..]).
  - destruct Hp as [Hc0 Hc37]. cbn [piece_format piece_args app fmt_loop].
    rewrite (proj2 (Z.eqb_neq _ _) Hc0), (proj2 (Z.eqb_neq _ _) Hc37).
    destruct (fmt_char_spec s1 bs c Hs1 Hf1) as (s2 & E & Hs2). fold s1. rewrite E. run.
    destruct (IH s2 (bs ++ [c]) Hs2 Hok') as (s' & ts & -> & Hrep & Hpr);
      [unfold room_for in *; rewrite length_app; simpl in *; lia|].
    exists s', ([c] :: ts). cbn [concat]. rewrite <- app_assoc in Hrep. split_and!; [done|done|by constructor].
  - destruct (fmt_conversion_spec s1 bs p (concat (piece_args <$> ps)) Hs1 Hf1 Hp Hne) as (next & t & s2 & Ef & E & Hs2 & Hpt & Hle);
      [unfold room_for in *; lia|].
    rewrite Ef. cbn [app fmt_loop Z.eqb Pos.eqb]. fold s1. rewrite E. run.
    destruct (IH s2 (bs ++ t) Hs2 Hok') as (s' & ts & -> & Hrep & Hpr);
      [unfold room_for in *; rewrite length_app; lia|].
    exists s', (t :: ts). cbn [concat]. rewrite <- app_assoc in Hrep. split_and!; [done|done|by constructor].
Qed.

(** C33: sdscatfmt appends what its format stands for.  For every format made
    of literal characters and the conversions %s, %S, %i, %I, %u, %U and %%,
    with arguments of the types they name, it returns, stays within its
    buffers, and the string then holds its old bytes followed by the text of
    each piece: the bytes of the strings and the canonical decimal text of
    the numbers over the full range of their types. *)
Theorem sdscatfmt_correct s bs ps tl :
  rep s bs -> Forall piece_ok ps -> room_for bs (pieces_size ps + 1) ->
  exists s' ts, sdscatfmt junk s (format ps ++ 0 :: tl) (format_args ps) = Done s' /\
    rep s' (bs ++ concat ts) /\ Forall2 prints ps ts.
Proof using Hjunk.
  intros Hs Hok Hr. unfold sdscatfmt. rewrite (rep_sdslen _ _ Hs), s32_small.
  - apply fmt_loop_spec; [by apply rep_unfinished|done|done].
  - destruct Hs as (rest & _ & Hb). lia.
Qed.
End fmt.

Lemma sdscatfmt_correct_witness :
  let ps := [PChar 61; PInt (-7); PChar 32; PStr [111; 107; 0]; PEscape 37; PUint64 (2 ^ 64 - 1)] in
  exists s' ts, sdscatfmt demo_junk (Sdshdr 1 0 [120; 0]) (format ps ++ [0]) (format_args ps) = Done s' /\
    rep s' ([120] ++ concat ts) /\ Forall2 prints ps ts.
Proof.
  intros ps. apply (sdscatfmt_correct demo_junk (fun n => length_replicate n 171)).
  - exists []. split; [done|]. simpl. lia.
  - unfold ps. repeat (apply Forall_cons; split); [..|constructor]; simpl; unfold cstring;
      rewrite ?not_elem_of_cons; split_and?; try lia; simpl; auto; set_solver.
  - unfold room_for. simpl. lia.
Defined.
