(* ===== verification/SdsArgs.v ===== *)
(** * Taking text apart: sdssplitargs and sdssplitlen

    Lines of quoted strings come back as the strings that were quoted; a text
    split at a separator is the tokens joined by it. *)

From S2P Require Import Prelude Sds SdsProof SdsText.
Import Sds.

#[local] Arguments sdscatlen : simpl never.

Section args.
Context (junk : nat -> list Z) (Hjunk : forall n, length (junk n) = n).

(** ** One turn of the scan inside double quotes *)

Lemma peek_0 c p : peek (c :: p) 0 = Done c.
Proof. done. Qed.
Lemma peek_S c p k : peek (c :: p) (S k) = peek p k.
Proof. done. Qed.

Lemma advance_cons c p : c <> 0 -> advance (c :: p) = Done p.
Proof. intros H. unfold advance. rewrite peek_0. run. by rewrite (proj2 (Z.eqb_neq _ _) H). Qed.

Ltac scan_step := repeat (rewrite ?peek_0, ?peek_S; run).

Lemma scan_escape e tl cur :
  e <> 0 -> e <> 120 ->
  scan_double junk (92 :: e :: tl) cur =
    (cur ← sdscatlen junk cur [unescape e] 1; Done (Next tl Double cur)).
Proof.
  intros H1 H2. unfold scan_double, is_hex_escape. scan_step. cbn [Z.eqb Pos.eqb negb].
  rewrite (proj2 (Z.eqb_neq _ _) H2). cbn [negb]. run. scan_step.
  rewrite (proj2 (Z.eqb_neq _ _) H1). cbn [negb drop]. scan_step.
  destruct (sdscatlen junk cur [unescape e] 1); [|done|done]. run. by rewrite advance_cons.
Qed.

Lemma scan_hex h l tl cur :
  is_hex_digit h = true -> is_hex_digit l = true -> l <> 0 ->
  scan_double junk (92 :: 120 :: h :: l :: tl) cur =
    (cur ← sdscatlen junk cur [hex_digit_to_int h * 16 + hex_digit_to_int l] 1; Done (Next tl Double cur)).
Proof.
  intros H1 H2 H3. unfold scan_double, is_hex_escape. scan_step. cbn [Z.eqb Pos.eqb negb]. scan_step.
  rewrite H1. cbn [negb]. scan_step. rewrite H2. cbn [drop].
  destruct (sdscatlen junk cur _ 1); [|done|done]. run. by rewrite advance_cons.
Qed.

Lemma scan_literal c tl cur :
  c <> 92 -> c <> 34 -> c <> 0 ->
  scan_double junk (c :: tl) cur = (cur ← sdscatlen junk cur (c :: tl) 1; Done (Next tl Double cur)).
Proof.
  intros H1 H2 H3. unfold scan_double, is_hex_escape. scan_step.
  rewrite (proj2 (Z.eqb_neq _ _) H1). cbn [negb]. scan_step.
  rewrite (proj2 (Z.eqb_neq _ _) H2), (proj2 (Z.eqb_neq _ _) H3).
  destruct (sdscatlen junk cur _ 1); [|done|done]. run. by rewrite advance_cons.
Qed.

Lemma append_byte cur bs t c :
  rep cur bs -> room_for bs 1 -> take 1 t = [c] -> forall A (k : sdshdr -> A),
  exists s', (cur ← sdscatlen junk cur t 1; Done (k cur)) = Done (k s') /\ rep s' (bs ++ [c]).
Proof using Hjunk.
  intros Hs Hr Ht A k. destruct (sdscatlen_rep junk Hjunk cur bs t 1 Hs) as (s' & -> & H').
  - destruct t; [done|simpl; lia].
  - done.
  - rewrite Ht in H'. by exists s'.
Qed.

(** The turn for a quoted byte appends the byte. *)
Lemma scan_repr c tl cur bs :
  is_u8 c -> rep cur bs -> room_for bs 1 ->
  exists s', scan_double junk (repr_bytes c ++ tl) cur = Done (Next tl Double s') /\ rep s' (bs ++ [c]).
Proof using Hjunk.
  intros Hc Hs Hr. unfold repr_bytes.
  destruct ((c =? 92) || (c =? 34)) eqn:E1; cbn [app].
  { assert (c = 92 \/ c = 34) as E by lia. rewrite scan_escape by lia.
    apply (append_byte cur bs _ c Hs Hr); by destruct E as [-> | ->]. }
  apply orb_false_iff in E1 as [N1 N2].
  repeat match goal with
    | |- context [if (c =? ?k) then _ else _] =>
        destruct (Z.eqb_spec c k) as [-> |];
          [cbn [app]; rewrite scan_escape by lia; by apply (append_byte cur bs _ k Hs Hr)|]
    end.
  destruct (isprint c) eqn:E2; cbn [app].
  - unfold isprint in E2. apply andb_true_iff in E2. rewrite scan_literal by lia. by apply (append_byte cur bs _ c Hs Hr).
  - destruct (byte_nibbles c Hc) as [H1 H2].
    destruct (hex_digit_spec _ H1) as (D1 & V1 & N3), (hex_digit_spec _ H2) as (D2 & V2 & N4).
    rewrite scan_hex by done. rewrite V1, V2. replace (c / 16 * 16 + c mod 16) with c by lia_div.
    by apply (append_byte cur bs _ c Hs Hr).
Qed.

(** ** A quoted token *)

Definition after_quote (e : Z) : Prop := bad_after_quote e = false.

Lemma scan_close e tl cur : after_quote e -> scan_double junk (34 :: e :: tl) cur = Done (Token (e :: tl) cur).
Proof.
  intros He. unfold scan_double, is_hex_escape. scan_step. cbn [Z.eqb Pos.eqb negb]. scan_step.
  unfold after_quote in He. rewrite He. by rewrite advance_cons.
Qed.

Lemma token_repr bs e tl : forall fuel cur pre,
  after_quote e -> bytes bs -> rep cur pre -> room_for pre (Z.of_nat (length bs)) -> (length bs <= fuel)%nat ->
  exists s', token_loop junk fuel (repr_body bs ++ 34 :: e :: tl) Double cur = Done (Some (e :: tl, s')) /\
    rep s' (pre ++ bs).
Proof using Hjunk.
  unfold room_for. induction bs as [|c bs IH]; intros fuel cur pre He Hb Hs Hr Hf.
  - exists cur. rewrite app_nil_r. split; [|done].
    destruct fuel; cbn [token_loop scan repr_body fmap list_fmap concat app]; by rewrite scan_close.
  - inversion_clear Hb. cbn [length] in *. destruct fuel as [|fuel]; [lia|].
    change (repr_body (c :: bs)) with (repr_bytes c ++ repr_body bs). rewrite <- app_assoc.
    cbn [token_loop scan].
    destruct (scan_repr c (repr_body bs ++ 34 :: e :: tl) cur pre) as (s1 & -> & H1); [done|done|unfold room_for; lia|].
    run. destruct (IH fuel s1 (pre ++ [c])) as (s2 & -> & H2); try done; [rewrite length_app; simpl; lia|lia|].
    exists s2. by rewrite <- app_assoc in H2.
Qed.

Lemma token_quoted bs e tl fuel cur :
  after_quote e -> bytes bs -> rep cur [] -> room_for bs 0 -> (S (length bs) <= fuel)%nat ->
  exists s', token_loop junk fuel (repr bs ++ e :: tl) Plain cur = Done (Some (e :: tl, s')) /\ rep s' bs.
Proof using Hjunk.
  intros He Hb Hs Hr Hf. destruct fuel as [|fuel]; [lia|]. unfold repr. cbn [app]. rewrite <- app_assoc. cbn [app].
  cbn [token_loop scan]. unfold scan_plain. scan_step. rewrite advance_cons by done. run. cbn [Z.eqb Pos.eqb orb]. run.
  apply (token_repr bs e tl fuel cur []); [done|done|done|unfold room_for in *; simpl; lia|lia].
Qed.

(** ** A line of quoted strings *)

Definition line (args : list (list Z)) (tl : list Z) : list Z :=
  concat ((fun a => repr a ++ [32]) <$> args) ++ 0 :: tl.

Lemma line_cons a args tl : line (a :: args) tl = repr a ++ 32 :: line args tl.
Proof. unfold line. cbn. by rewrite <- !app_assoc. Qed.

Lemma skip_blanks_stop c p : c = 34 \/ c = 0 -> skip_blanks (c :: p) = Done (c :: p).
Proof. by intros [-> | ->]. Qed.

Lemma sdsempty_rep : exists s, sdsempty junk = Done s /\ rep s [].
Proof using Hjunk. unfold sdsempty. apply (sdsnewlen_rep junk Hjunk [0] 0); simpl; lia. Qed.

Lemma args_loop_line args tl : forall fuel p vec,
  Forall (fun a => bytes a /\ room_for a 0) args -> (length args <= fuel)%nat ->
  skip_blanks p = skip_blanks (line args tl) ->
  exists v, args_loop junk fuel p vec = Done (Some (vec ++ v)) /\ Forall2 rep v args.
Proof using Hjunk.
  induction args as [|a args IH]; intros fuel p vec Ha Hf Hp.
  - exists []. rewrite app_nil_r. split; [|constructor].
    destruct fuel; cbn [args_loop]; rewrite Hp; done.
  - inversion_clear Ha as [|?? [Hb Hr] Ha']. cbn [length] in Hf. destruct fuel as [|fuel]; [lia|].
    cbn [args_loop]. rewrite Hp, line_cons. destruct sdsempty_rep as (s0 & -> & H0).
    assert (skip_blanks (repr a ++ 32 :: line args tl) = Done (repr a ++ 32 :: line args tl)) as ->
      by (apply skip_blanks_stop; by left).
    run. assert (peek (repr a ++ 32 :: line args tl) 0 = Done 34) as -> by done. run. cbn [Z.eqb]. run.
    destruct (token_quoted a 32 (line args tl) (length (repr a ++ 32 :: line args tl)) s0) as (s1 & -> & H1);
      [done|done|done|done| |].
    { pose proof (length_repr_body a). unfold repr. rewrite length_app. cbn [length]. rewrite length_app. simpl. lia. }
    run. destruct (IH fuel (32 :: line args tl) (vec ++ [s1]) Ha' ltac:(lia) eq_refl) as (v & -> & Hv).
    exists (s1 :: v). rewrite <- app_assoc. split; [done|]. by constructor.
Qed.

(** The strings quoted by sdscatrepr, with a blank after each. *)
Fixpoint quote_all (s : sdshdr) (args : list (list Z)) : exec sdshdr :=
  match args with
  | [] => Done s
  | a :: args' =>
      s ← sdscatrepr junk s a (length a);
      s ← sdscatlen junk s [32; 0] 1;
      quote_all s args'
  end.

Definition quoted_size (args : list (list Z)) : Z :=
  4 * Z.of_nat (length (concat args)) + 3 * Z.of_nat (length args).

Lemma length_repr a : (length (repr a) <= 4 * length a + 2)%nat.
Proof. pose proof (length_repr_body a). unfold repr. cbn [length]. rewrite length_app. simpl. lia. Qed.

Lemma quote_all_rep args : forall s bs,
  rep s bs -> Forall bytes args -> room_for bs (quoted_size args) ->
  exists s', quote_all s args = Done s' /\ rep s' (bs ++ concat ((fun a => repr a ++ [32]) <$> args)).
Proof using Hjunk.
  unfold room_for, quoted_size. induction args as [|a args IH]; intros s bs Hs Ha Hr.
  { exists s. cbn. by rewrite app_nil_r. }
  inversion_clear Ha as [|?? Hba Ha']. cbn [concat length quote_all] in *. rewrite length_app in Hr. pose proof (length_repr a).
  destruct (sdscatrepr_rep junk Hjunk s bs a []) as (s1 & E1 & H1); [done|done|unfold room_for; lia|].
  rewrite app_nil_r in E1. rewrite E1. run.
  destruct (sdscatlen_rep junk Hjunk s1 _ [32; 0] 1 H1) as (s2 & -> & H2);
    [simpl; lia|unfold room_for; rewrite length_app; lia|]. run. cbn [take] in H2.
  destruct (IH s2 _ H2) as (s3 & -> & H3); [done|rewrite !length_app; cbn [length]; lia|].
  exists s3. split; [done|]. rewrite fmap_cons. cbn [concat]. by rewrite <- !app_assoc in *.
Qed.

(** C20: Quoting and unquoting are inverse.  Whatever bytes the strings hold
    (zeros, quotes, backslashes and control characters included), the line
    that sdscatrepr writes for them, one after the other with a blank between
    them, is taken apart by sdssplitargs into exactly those strings: it
    returns, reports no syntax error, reads and writes only within its
    buffers, and gives as many strings as were quoted. *)
Theorem sdssplitargs_sdscatrepr args :
  Forall bytes args -> room_for [] (quoted_size args) ->
  exists s v, (s ← sdsempty junk; quote_all s args) = Done s /\
    sdssplitargs junk (buf s) = Done (Some v) /\ Forall2 rep v args.
Proof using Hjunk.
  intros Ha Hr. destruct sdsempty_rep as (s0 & -> & H0). run.
  destruct (quote_all_rep args s0 [] H0 Ha Hr) as (s & -> & (rest & -> & Hb)). cbn [app] in *.
  set (text := concat _). exists (Sdshdr (Z.of_nat (length text)) (Z.of_nat (length rest)) (text ++ 0 :: rest)).
  unfold sdssplitargs. cbn [buf].
  destruct (args_loop_line args rest (length (text ++ 0 :: rest)) (text ++ 0 :: rest) []) as (v & Hv & Hrep).
  - apply Forall_forall. intros a Hin. split; [by apply (proj1 (Forall_forall _ _) Ha)|].
    apply list_elem_of_In, in_split in Hin as (l1 & l2 & ->). unfold room_for, quoted_size in *.
    rewrite concat_app, length_app in Hr. cbn [concat] in Hr. rewrite length_app in Hr. cbn [length] in Hr. lia.
  - rewrite length_app. assert (length args <= length text)%nat; [|lia]. unfold text.
    clear. induction args as [|a args IH]; [done|]. rewrite fmap_cons. cbn [concat]. rewrite !length_app. cbn [length]. lia.
  - done.
  - by exists v.
Qed.
(** ** Splitting at a separator *)

Lemma memcmp_spec n : forall a b, (n <= length a)%nat -> (n <= length b)%nat ->
  exists r, memcmp a b n = Done r /\ (r = 0 <-> take n a = take n b).
Proof.
  induction n as [|n IH]; intros a b Ha Hb; [exists 0; by destruct a|].
  destruct a as [|x a], b as [|y b]; simpl in Ha, Hb; try lia. cbn [memcmp take].
  destruct (Z.eqb_spec x y) as [->|Hne].
  - destruct (IH a b) as (r & -> & Hr); [lia|lia|]. exists r. split; [done|]. rewrite Hr. split; congruence.
  - eexists. split; [done|]. split; [destruct (x <? y); lia|congruence].
Qed.

Definition occurs_at (sp text : list Z) (i : nat) : Prop := take (length sp) (drop i text) = sp.
#[local] Instance occurs_at_dec sp text i : Decision (occurs_at sp text i).
Proof. unfold occurs_at. apply _. Defined.
Definition contains (sp text : list Z) : Prop := exists a b, text = a ++ sp ++ b.

(** The tokens with the separator between them. *)
Fixpoint join (sp : list Z) (toks : list (list Z)) : list Z :=
  match toks with [] => [] | [t] => t | t :: toks' => t ++ sp ++ join sp toks' end.

Lemma join_snoc sp toks t : join sp (toks ++ [t]) = concat ((fun u => u ++ sp) <$> toks) ++ t.
Proof.
  induction toks as [|u toks IH]; [done|]. rewrite fmap_cons. cbn [concat app]. rewrite <- !app_assoc, <- IH.
  by destruct toks.
Qed.

Section split.
Context (text tl sp stl : list Z) (Hsp : sp <> []).

(** The test for the separator at [j]. *)
Lemma hit_spec j c c0 :
  (j + length sp <= length text)%nat -> (text ++ tl) !! j = Some c -> (sp ++ stl) !! 0%nat = Some c0 ->
  (if (Z.of_nat (length sp) =? 1) && (c =? c0) then Done true
   else r ← memcmp (drop (Z.to_nat (Z.of_nat j)) (text ++ tl)) (sp ++ stl) (Z.to_nat (Z.of_nat (length sp)));
        Done (r =? 0)) = Done (bool_decide (occurs_at sp text j)).
Proof using Hsp.
  intros Hj Hc Hc0. rewrite !Nat2Z.id. rewrite drop_app_le by lia. unfold occurs_at.
  destruct (memcmp_spec (length sp) (drop j text ++ tl) (sp ++ stl)) as (r & -> & Hr);
    [rewrite length_app, length_drop; lia|rewrite length_app; lia|]. run.
  rewrite take_app_length, take_app_le in Hr by (rewrite length_drop; lia).
  assert ((r =? 0) = bool_decide (take (length sp) (drop j text) = sp)) as ->.
  { destruct (Z.eqb_spec r 0); symmetry; [apply bool_decide_true|apply bool_decide_false]; tauto. }
  destruct (Z.eqb_spec (Z.of_nat (length sp)) 1) as [E|E]; [|done].
  destruct (Z.eqb_spec c c0) as [->|]; [|done]. cbn [andb]. f_equal. symmetry. apply bool_decide_true.
  destruct sp as [|x [|y sp']]; [done| |simpl in E; lia]. simpl in *. simplify_eq.
  rewrite lookup_app_l in Hc by lia. by rewrite (drop_S _ _ _ Hc).
Qed.

(** What holds at the head of the loop. *)
Record split_inv (slots : Z) (tokens : list sdshdr) (start j : nat) (toks : list (list Z)) : Prop := {
  si_tokens : Forall2 rep tokens toks;
  si_slots : Z.of_nat (length tokens) + 1 <= slots <= 2 * Z.of_nat (length tokens) + 5;
  si_order : (start <= j)%nat /\ (start <= length text)%nat;
  si_count : (length tokens <= start)%nat;
  si_text : concat ((fun u => u ++ sp) <$> toks) = take start text;
  si_none : forall i, (start <= i < j)%nat -> ~ occurs_at sp text i;
  si_free : Forall (fun u => ~ contains sp u) toks }.

(** A part of the text without an occurrence of the separator. *)
Lemma part_free start n :
  (forall i, (start <= i)%nat -> (i + length sp <= start + n)%nat -> ~ occurs_at sp text i) ->
  (start + n <= length text)%nat -> ~ contains sp (take n (drop start text)).
Proof.
  intros Hno Hn (a & b & E).
  assert (length a + length sp + length b = n)%nat as Hl.
  { apply (f_equal length) in E. rewrite length_take, length_drop, !length_app in E. lia. }
  apply (Hno (start + length a)%nat); [lia|lia|]. unfold occurs_at.
  rewrite <- drop_drop, <- (take_drop n (drop start text)), E, <- !app_assoc, drop_app_length. apply take_app_length.
Qed.

Lemma new_token start n :
  (start + n <= length text)%nat -> Z.of_nat (length text) < 2 ^ 29 ->
  exists s, sdsnewlen junk (Some (drop start (text ++ tl))) n = Done s /\ rep s (take n (drop start text)).
Proof using Hjunk.
  intros Hn Hl. destruct (sdsnewlen_rep junk Hjunk (drop start (text ++ tl)) n) as (s & E & Hs);
    [rewrite length_drop, length_app; lia|lia|].
  exists s. split; [done|]. by rewrite drop_app_le, take_app_le in Hs by (rewrite ?length_drop; lia).
Qed.

(** A turn that finds the separator, and one that does not. *)
Lemma split_hit slots tokens start j toks s slots' :
  split_inv slots tokens start j toks -> (j + length sp <= length text)%nat -> occurs_at sp text j ->
  slots' = (if slots <? Z.of_nat (length tokens) + 2 then 2 * slots else slots) ->
  rep s (take (j - start) (drop start text)) ->
  split_inv slots' (tokens ++ [s]) (j + length sp) (j + length sp) (toks ++ [take (j - start) (drop start text)]).
Proof using Hsp.
  intros [Ht Hs Ho Hc Hx Hn Hf] Hj Hocc -> Hrep.
  assert (0 < length sp)%nat by (destruct sp; [done|simpl; lia]). split.
  - apply Forall2_app; [done|by repeat constructor].
  - rewrite length_app. cbn [length]. destruct (Z.ltb_spec slots (Z.of_nat (length tokens) + 2)); lia.
  - lia.
  - rewrite length_app. simpl. lia.
  - rewrite fmap_app, concat_app, Hx. cbn. rewrite app_nil_r.
    rewrite <- Hocc at 1. rewrite <- (take_drop j text) at 4. rewrite take_app, length_take.
    rewrite (take_ge (take j text)) by (rewrite length_take; lia).
    replace (j + length sp - j `min` length text)%nat with (length sp) by lia. rewrite app_assoc. f_equal.
    rewrite <- (take_drop start (take j text)), take_take, Nat.min_l by lia. f_equal.
    by rewrite skipn_firstn_comm.
  - lia.
  - apply Forall_app. split; [done|]. apply Forall_singleton, part_free; [intros; apply Hn; lia|lia].
Qed.

Lemma split_miss slots tokens start j toks slots' :
  split_inv slots tokens start j toks -> ~ occurs_at sp text j ->
  slots' = (if slots <? Z.of_nat (length tokens) + 2 then 2 * slots else slots) ->
  split_inv slots' tokens start (S j) toks.
Proof.
  intros [Ht Hs Ho Hc Hx Hn Hf] Hocc ->. split; try done; [|lia|].
  - destruct (Z.ltb_spec slots (Z.of_nat (length tokens) + 2)); lia.
  - intros i Hi. destruct (decide (i = j)) as [->|]; [done|]. apply Hn. lia.
Qed.

Lemma split_loop_spec fuel : forall slots tokens start j toks,
  split_inv slots tokens start j toks -> (length text <= fuel + j)%nat -> Z.of_nat (length text) < 2 ^ 29 ->
  exists slots' tokens' start' j' toks',
    split_loop junk fuel (text ++ tl) (Z.of_nat (length text)) (sp ++ stl) (Z.of_nat (length sp)) slots tokens
      (Z.of_nat start) (Z.of_nat j) = Done (slots', tokens', Z.of_nat start') /\
    split_inv slots' tokens' start' j' toks' /\ (length text < j' + length sp)%nat.
Proof using Hsp Hjunk.
  assert (0 < length sp)%nat as Hsp0 by (destruct sp; [done|simpl; lia]).
  induction fuel as [|fuel IH]; intros slots tokens start j toks Hinv Hf Hl; cbn [split_loop];
    (destruct (Z.ltb_spec (Z.of_nat j) (Z.of_nat (length text) - (Z.of_nat (length sp) - 1)));
      [|do 5 eexists; split_and!; [done|exact Hinv|lia]]); [lia|].
  set (slots' := if slots <? Z.of_nat (length tokens) + 2 then 2 * slots else slots).
  assert ((if slots <? Z.of_nat (length tokens) + 2 then s32 (slots * 2) else slots) = slots') as ->.
  { unfold slots'. destruct Hinv as [_ Hs Ho Hc _ _ _].
    destruct (Z.ltb_spec slots (Z.of_nat (length tokens) + 2)); [|done]. small. lia. }
  destruct (lookup_lt_is_Some_2 (text ++ tl) j) as [c Hc]; [rewrite length_app; lia|].
  destruct (lookup_lt_is_Some_2 (sp ++ stl) 0) as [c0 Hc0]; [rewrite length_app; lia|].
  rewrite loadz_nat, (load_Done _ _ _ Hc), (load_Done _ _ _ Hc0). run.
  rewrite (hit_spec j c c0) by (done || lia). run. case_bool_decide as Hocc.
  - destruct (si_order _ _ _ _ _ Hinv) as [Ho _].
    destruct (new_token start (j - start)) as (s & Es & Hs); [lia|done|].
    rewrite Nat2Z.id. replace (Z.to_nat (Z.of_nat j - Z.of_nat start)) with (j - start)%nat by lia. rewrite Es. run.
    pose proof (split_hit _ _ _ _ _ s slots' Hinv ltac:(lia) Hocc eq_refl Hs) as Hinv'.
    unfold put_token. rewrite (proj2 (Z.ltb_lt _ _)) by (destruct Hinv' as [_ Hs' _ _ _ _ _]; rewrite length_app in Hs'; simpl in Hs'; lia).
    run. replace (Z.of_nat j + Z.of_nat (length sp) - 1 + 1) with (Z.of_nat (j + length sp)) by lia.
    replace (Z.of_nat j + Z.of_nat (length sp)) with (Z.of_nat (j + length sp)) by lia.
    apply (IH _ _ _ _ _ Hinv'); lia.
  - replace (Z.of_nat j + 1) with (Z.of_nat (S j)) by lia.
    apply (IH _ _ _ _ _ (split_miss _ _ _ _ _ slots' Hinv Hocc eq_refl)); lia.
Qed.
End split.

(** Splitting at a separator and joining are inverse.  For a text of
    fewer than 2^29 bytes and a separator that is not empty, sdssplitlen
    returns tokens none of which contains the separator and which, joined by
    it, give back the text; it reads only the text and the separator and the
    array of tokens never overflows, however many of them there are. *)
Theorem sdssplitlen_join text tl sp stl :
  text <> [] -> sp <> [] -> Z.of_nat (length text) < 2 ^ 29 ->
  exists v toks, sdssplitlen junk (text ++ tl) (Z.of_nat (length text)) (sp ++ stl) (Z.of_nat (length sp)) = Done (Some v) /\
    Forall2 rep v toks /\ join sp toks = text /\ Forall (fun t => ~ contains sp t) toks.
Proof using Hjunk.
  intros Ht Hsp Hl. unfold sdssplitlen.
  assert (0 < length sp)%nat by (destruct sp; [done|simpl; lia]).
  assert (0 < length text)%nat by (destruct text; [done|simpl; lia]).
  rewrite (proj2 (Z.ltb_ge _ _)), (proj2 (Z.ltb_ge _ _)), (proj2 (Z.eqb_neq _ _)) by lia. cbn [orb].
  destruct (split_loop_spec text tl sp stl Hsp (length text) 5 [] 0 0 []) as (slots & tokens & start & j & toks & E & Hinv & Hj);
    [split; try done; simpl; try lia; constructor|lia|done|].
  rewrite Nat2Z.id. change (Z.of_nat 0) with 0 in E. rewrite E. run. destruct Hinv as [Hr Hs Ho _ Hx Hn Hf].
  destruct (new_token text tl start (length text - start)) as (s & Es & Hrep); [lia|done|].
  rewrite Nat2Z.id. replace (Z.to_nat (Z.of_nat (length text) - Z.of_nat start)) with (length text - start)%nat by lia.
  rewrite Es. run. unfold put_token. rewrite (proj2 (Z.ltb_lt _ _)) by lia. run.
  exists (tokens ++ [s]), (toks ++ [take (length text - start) (drop start text)]). split_and!; [done| | |].
  - apply Forall2_app; [done|by repeat constructor].
  - rewrite join_snoc, Hx, (take_ge (drop start text)) by (rewrite length_drop; lia). apply take_drop.
  - apply Forall_app. split; [done|]. apply Forall_singleton, part_free; [|lia]. intros i H1 H2. apply Hn. lia.
Qed.
End args.

Lemma sdssplitargs_sdscatrepr_witness :
  exists s v, (s ← sdsempty demo_junk; quote_all demo_junk s [[0; 34; 92]; []; [104; 105; 32; 255]]) = Done s /\
    sdssplitargs demo_junk (buf s) = Done (Some v) /\ Forall2 rep v [[0; 34; 92]; []; [104; 105; 32; 255]].
Proof.
  apply (sdssplitargs_sdscatrepr demo_junk).
  - intros n. apply length_replicate.
  - unfold bytes, is_u8. repeat constructor; lia.
  - unfold room_for, quoted_size. simpl. lia.
Defined.

Lemma sdssplitlen_join_witness :
  exists v toks, sdssplitlen demo_junk ([97; 44; 44; 98] ++ [0]) 4 ([44] ++ [0]) 1 = Done (Some v) /\
    Forall2 rep v toks /\ join [44] toks = [97; 44; 44; 98] /\ Forall (fun t => ~ contains [44] t) toks.
Proof.
  apply (sdssplitlen_join demo_junk (fun n => length_replicate n 171) [97; 44; 44; 98] [0] [44] [0]); [done|done|simpl; lia].
Defined.
