(* ===== verification/Coding.v ===== *)
(** * Variable-length integers: src/DataStruct_learn/Tree/lsm-trie/coding.c

    Seven bits per byte, the low ones first; the top bit of a byte says that
    more follow.  Pointers into a buffer are positions. *)

From S2P Require Import Prelude.

Module Coding.

(** ** The code *)

(** The loop of encode_uint64 and the byte after it, from position [ptr] on. *)
Fixpoint encode_loop (fuel : nat) (dst : list Z) (ptr : nat) (t : Z) : exec (list Z * nat) :=
  if 128 <=? t then
    dst ← store dst ptr (u8 (Z.lor (Z.land t 127) 128));
    match fuel with
    | O => NoFuel
    | S fuel' => encode_loop fuel' dst (S ptr) (Z.shiftr t 7)
    end
  else
    dst ← store dst ptr (u8 t);
    Done (dst, S ptr).

(** The buffer and the position after the bytes written. *)
Definition encode_uint64 (dst : list Z) (ptr : nat) (v : Z) : exec (list Z * nat) :=
  encode_loop 10 dst ptr v.

(** The [n] turns of the loop of decode_uint64 that are left; [start] is the
    position the function returns when the loop runs out. *)
Fixpoint decode_loop (n : nat) (src : list Z) (start p : nat) (shift result : Z) : exec (nat * Z) :=
  match n with
  | O => Done (start, 0)
  | S n' =>
      byte ← load src p;
      if negb (Z.land byte 128 =? 0) then
        decode_loop n' src start (S p) (shift + 7) (Z.lor result (u64 (Z.shiftl (Z.land byte 127) shift)))
      else Done (S p, Z.lor result (u64 (Z.shiftl byte shift)))
  end.

Definition decode_uint64 (src : list Z) (p : nat) : exec (nat * Z) := decode_loop 10 src p p 0 0.

Definition decode_uint32 (src : list Z) (p : nat) : exec (nat * Z) :=
  r ← decode_uint64 src p; let '(p, v) := r in Done (p, u32 v).

(** ** Reference encoding *)

(** The bytes of [v], at most [n] of them. *)
Fixpoint varint_n (n : nat) (v : Z) : list Z :=
  match n with
  | O => []
  | S n' => if v <? 128 then [v] else (128 + v mod 128) :: varint_n n' (v / 128)
  end.

Definition varint (v : Z) : list Z := varint_n 10 v.

Lemma varint_small n v : v < 128 -> varint_n (S n) v = [v].
Proof. intros H. simpl. by rewrite (proj2 (Z.ltb_lt _ _) H). Qed.
Lemma varint_big n v : 128 <= v -> varint_n (S n) v = (128 + v mod 128) :: varint_n n (v / 128).
Proof. intros H. simpl. by rewrite (proj2 (Z.ltb_ge _ _) H). Qed.

Lemma length_varint_n n : forall v, (length (varint_n n v) <= n)%nat.
Proof. induction n as [|n IH]; intros v; [done|]. simpl. destruct (v <? 128); simpl; [lia|]. specialize (IH (v / 128)). lia. Qed.

Lemma length_varint v : (1 <= length (varint v) <= 10)%nat.
Proof.
  split; [|apply length_varint_n]. unfold varint. change 10%nat with (S 9). cbn [varint_n]. destruct (v <? 128); simpl; lia.
Qed.

(** ** The code computes it *)

Lemma low_byte t : 0 <= t -> u8 (Z.lor (Z.land t 127) 128) = 128 + t mod 128.
Proof.
  intros Ht. change 127 with (Z.ones 7). rewrite Z.land_ones by lia. change (2 ^ 7) with 128.
  assert (0 <= t mod 128 < 128) by (apply Z.mod_pos_bound; lia).
  rewrite Z.lor_comm. replace 128 with (Z.shiftl 1 7) at 1 by done.
  rewrite lor_shiftl_add by lia. rewrite u8_small; [simpl; lia|]. unfold is_u8. simpl. lia.
Qed.

Lemma encode_loop_spec n : forall fuel dst ptr t,
  (n <= fuel)%nat -> 0 <= t < 128 ^ Z.of_nat (S n) -> (ptr + length (varint_n (S n) t) <= length dst)%nat ->
  encode_loop fuel dst ptr t = Done (splice dst ptr (varint_n (S n) t), (ptr + length (varint_n (S n) t))%nat).
Proof.
  induction n as [|n IH]; intros fuel dst ptr t Hf Ht Hd.
  - change (128 ^ Z.of_nat 1) with 128 in Ht. rewrite varint_small in * by lia.
    simpl length in *. destruct fuel; cbn [encode_loop]; rewrite (proj2 (Z.leb_gt _ _)) by lia;
      rewrite u8_small by (unfold is_u8; lia); rewrite store_splice by lia; run; do 2 f_equal; lia.
  - rewrite Nat2Z.inj_succ, Z.pow_succ_r in Ht by lia.
    destruct (Z.ltb_spec t 128) as [Hs|Hs].
    + rewrite varint_small in * by lia. simpl length in *. destruct fuel; cbn [encode_loop]; rewrite (proj2 (Z.leb_gt _ _)) by lia;
        rewrite u8_small by (unfold is_u8; lia); rewrite store_splice by lia; run; do 2 f_equal; lia.
    + rewrite varint_big in * by lia. set (rest := varint_n (S n) (t / 128)) in *. cbn [length] in *.
      destruct fuel as [|fuel]; [lia|]. cbn [encode_loop]. rewrite (proj2 (Z.leb_le _ _)) by lia.
      rewrite low_byte by lia. rewrite store_splice by lia. run.
      rewrite Z.shiftr_div_pow2 by lia. change (2 ^ 7) with 128.
      rewrite IH; [|lia|split; [lia_div|apply Z.div_lt_upper_bound; lia]|fold rest; rewrite length_splice by (simpl; lia); lia].
      fold rest. rewrite (splice_at dst ptr (S ptr) [_] rest) by (simpl; lia). do 2 f_equal. lia.
Qed.

Lemma encode_uint64_spec dst ptr v :
  0 <= v < 2 ^ 64 -> (ptr + length (varint v) <= length dst)%nat ->
  encode_uint64 dst ptr v = Done (splice dst ptr (varint v), (ptr + length (varint v))%nat).
Proof.
  intros Hv Hd. unfold encode_uint64, varint in *. apply (encode_loop_spec 9); [lia| |done].
  split; [lia|]. apply (Z.lt_trans _ (2 ^ 64)); [lia|done].
Qed.

Lemma more_bit b : 0 <= b < 128 -> Z.land (128 + b) 128 = 128 /\ Z.land (128 + b) 127 = b.
Proof.
  intros H. change 127 with (Z.ones 7). rewrite Z.land_ones by lia. change (2 ^ 7) with 128.
  split; [|rewrite <- Z.add_mod_idemp_l, Z.mod_same, Z.mod_small by lia; lia].
  replace (128 + b) with (Z.lor (Z.shiftl 1 7) b) by (rewrite lor_shiftl_add; simpl; lia).
  apply Z.bits_inj'. intros i Hi. rewrite Z.land_spec, Z.lor_spec. change 128 with (2 ^ 7).
  rewrite Z.pow2_bits_eqb, testbit_shiftl by lia. destruct (Z.eqb_spec 7 i) as [<-|Hne].
  - rewrite (testbit_high b 7 7) by lia. done.
  - by rewrite andb_false_r.
Qed.

Lemma last_bit b : 0 <= b < 128 -> Z.land b 128 = 0.
Proof.
  intros H. apply Z.bits_inj'. intros i Hi. rewrite Z.land_spec, Z.bits_0. change 128 with (2 ^ 7).
  rewrite Z.pow2_bits_eqb by lia. destruct (Z.eqb_spec 7 i) as [<-|Hne]; [|by rewrite andb_false_r].
  by rewrite (testbit_high b 7 7) by lia.
Qed.

(** Reading [7 * k] bits from bit [shift] on into a result that has only the
    bits below. *)
Lemma decode_loop_spec n : forall pre start v tl shift result,
  0 <= shift -> 0 <= result < 2 ^ shift -> 0 <= v -> v * 2 ^ shift < 2 ^ 64 -> v < 128 ^ Z.of_nat (S n) ->
  decode_loop (S n) (pre ++ varint_n (S n) v ++ tl) start (length pre) shift result =
    Done ((length pre + length (varint_n (S n) v))%nat, result + v * 2 ^ shift).
Proof.
  induction n as [|n IH]; intros pre start v tl shift result Hsh Hres Hv Hfit Hsize.
  - change (128 ^ Z.of_nat 1) with 128 in Hsize. rewrite varint_small by lia.
    cbn [app decode_loop]. rewrite load_middle. run. rewrite last_bit by lia. cbn [Z.eqb negb].
    rewrite Z.lor_comm, u64_small by (rewrite Z.shiftl_mul_pow2 by lia; nia).
    rewrite lor_shiftl_add by lia. simpl. do 2 f_equal; lia.
  - rewrite Nat2Z.inj_succ, Z.pow_succ_r in Hsize by lia.
    destruct (Z.ltb_spec v 128) as [Hs|Hs].
    + rewrite varint_small by lia. cbn [app decode_loop]. rewrite load_middle. run. rewrite last_bit by lia. cbn [Z.eqb negb].
      rewrite Z.lor_comm, u64_small by (rewrite Z.shiftl_mul_pow2 by lia; nia).
      rewrite lor_shiftl_add by lia. simpl. do 2 f_equal; lia.
    + rewrite varint_big by lia. set (rest := varint_n (S n) (v / 128)). remember (S n) as m eqn:Em.
      cbn [app decode_loop]. rewrite load_middle. run.
      assert (0 <= v mod 128 < 128) as Hm by (apply Z.mod_pos_bound; lia).
      destruct (more_bit (v mod 128) Hm) as [-> ->]. cbn [Z.eqb negb].
      assert (0 <= 2 ^ shift) by lia.
      assert (v mod 128 * 2 ^ shift <= v * 2 ^ shift) as Hmv by (apply Z.mul_le_mono_nonneg_r; [lia|lia_div]).
      rewrite Z.lor_comm, u64_small by (rewrite Z.shiftl_mul_pow2 by lia; nia).
      rewrite lor_shiftl_add by lia.
      assert (2 ^ (shift + 7) = 128 * 2 ^ shift) as Hp by (rewrite Z.pow_add_r by lia; lia).
      pose proof (IH (pre ++ [128 + v mod 128]) start (v / 128) tl (shift + 7) (v mod 128 * 2 ^ shift + result)) as IH'.
      rewrite length_app, <- app_assoc in IH'. cbn [length app] in IH'. fold rest in IH'.
      replace (S (length pre)) with (length pre + 1)%nat by lia. cbn [length].
      assert (v = 128 * (v / 128) + v mod 128) as Ev by (apply Z.div_mod; lia).
      rewrite Hp in IH'. rewrite IH'; [|lia|nia|lia_div|nia|apply Z.div_lt_upper_bound; lia].
      f_equal. f_equal; [lia|nia].
Qed.

Lemma decode_uint64_spec pre v tl :
  0 <= v < 2 ^ 64 ->
  decode_uint64 (pre ++ varint v ++ tl) (length pre) = Done ((length pre + length (varint v))%nat, v).
Proof.
  intros Hv. unfold decode_uint64, varint. rewrite (decode_loop_spec 9 pre (length pre) v tl 0 0); try lia.
  do 2 f_equal. lia.
Qed.

Lemma decode_uint32_spec pre v tl :
  0 <= v < 2 ^ 32 ->
  decode_uint32 (pre ++ varint v ++ tl) (length pre) = Done ((length pre + length (varint v))%nat, v).
Proof. intros Hv. unfold decode_uint32. rewrite decode_uint64_spec by lia. run. by rewrite u32_small. Qed.
End Coding.
