(* ===== verification/Bloom.v ===== *)
(** * Bloom filters of the LSM-trie: src/DataStruct_learn/Tree/lsm-trie

    bloom.c (filters, tables of filters, containers of filters on disk).  A
    filter is a block of bytes; a table is the concatenation of
    filters with their lengths, and a sparse index of offsets; a container
    stores, page by page, one box per barrel with the filters of that barrel
    from several tables.  A file is its bytes; numbers are stored
    little-endian.  What malloc returns is not initialised: [junk].  A false
    assertion aborts, so [assert] faults; allocation by malloc succeeds (the
    code asserts it). *)

From S2P Require Import Prelude Coding.
Import Coding.

Module Bloom.

Definition assert (b : bool) : exec unit := if b then Done tt else Fault.

(** ** Filters *)

Definition BITS_PER_KEY : Z := 16.
Definition NR_PROBES : nat := 11.
Definition HSHIFT0 : Z := 31.
Definition HSHIFT1 : Z := 64 - HSHIFT0.

Record BloomFilter := mkFilter { bytes_ : Z; nr_keys : Z; filter : list Z }.

(** 32-bit arithmetic, then converted to 64 bits. *)
Definition bloom_bytes_to_bits (len : Z) : Z := u32 (u32 (Z.shiftl len 3) - 3).

Definition bloom_create (nr_keys : Z) : BloomFilter :=
  let bytes0 := Z.shiftr (u32 (u32 (nr_keys * BITS_PER_KEY) + 7)) 3 in
  let bytes := if bytes0 <? 8 then 8 else bytes0 in
  mkFilter bytes 0 (replicate (Z.to_nat bytes) 0).

Definition delta (h : Z) : Z := Z.lor (Z.shiftr h HSHIFT0) (u64 (Z.shiftl h HSHIFT1)).

Definition bloom_update (bf : BloomFilter) (hv : Z) : exec BloomFilter :=
  let delta := delta hv in
  let bits := bloom_bytes_to_bits (bytes_ bf) in
  r ← for_range 0 NR_PROBES (fun _ '(filter, h) =>
        let bitpos := h mod bits in
        let i := Z.to_nat (Z.shiftr bitpos 3) in
        b ← load filter i;
        filter ← store filter i (u8 (Z.lor b (u32 (Z.shiftl 1 (bitpos mod 8)))));
        Done (filter, u64 (h + delta))) (filter bf, hv);
  Done (mkFilter (bytes_ bf) (u32 (nr_keys bf + 1)) r.1).

(** The probes of bloom_match_raw that are left. *)
Fixpoint probe_loop (n : nat) (filter : list Z) (base : nat) (bits delta h : Z) : exec bool :=
  match n with
  | O => Done true
  | S n' =>
      let bitpos := h mod bits in
      b ← load filter (base + Z.to_nat (Z.shiftr bitpos 3))%nat;
      if Z.land b (u32 (Z.shiftl 1 (bitpos mod 8))) =? 0 then Done false
      else probe_loop n' filter base bits delta (u64 (h + delta))
  end.

(** [base]: where the filter starts in the object it is part of. *)
Definition bloom_match_raw (filter : list Z) (base : nat) (bytes hv : Z) : exec bool :=
  probe_loop NR_PROBES filter base (bloom_bytes_to_bits bytes) (delta hv) hv.

Definition bloom_match (bf : BloomFilter) (hv : Z) : exec bool :=
  bloom_match_raw (filter bf) 0 (bytes_ bf) hv.

(** ** Tables *)

Section table.
Context (junk : nat -> list Z).

Definition BLOOMTABLE_INTERVAL : nat := 16.
Definition TABLE_MAX_BARRELS : nat := 8192.
Definition BARREL_ALIGN : nat := 4096.

Record BloomTable := mkTable { raw_bf : list Z; nr_bf : Z; nr_bytes : Z; offsets : list Z }.

(** The counting pass: the length of the number is found by encoding it. *)
Definition count_bytes (bfs : list BloomFilter) : exec Z :=
  foldl (fun acc bf =>
    all_bytes ← acc;
    r ← encode_uint64 (junk 20) 0 (bytes_ bf);
    Done (u32 (all_bytes + u32 (Z.of_nat r.2 + bytes_ bf)))) (Done 0) bfs.

(** The filling pass from filter [i] on, at position [ptr] of the block. *)
Fixpoint fill_table (bfs : list BloomFilter) (i : nat) (raw : list Z) (ptr : nat) (offsets : list Z)
    : exec (list Z * list Z) :=
  match bfs with
  | [] => Done (raw, offsets)
  | bf :: bfs' =>
      offsets ← (if (i mod BLOOMTABLE_INTERVAL =? 0)%nat
                 then store offsets (i / BLOOMTABLE_INTERVAL) (u32 (Z.of_nat ptr))
                 else Done offsets);
      r ← encode_uint64 raw ptr (bytes_ bf); let '(raw, pfilter) := r in
      raw ← memcpy raw pfilter (filter bf) 0 (Z.to_nat (bytes_ bf));
      fill_table bfs' (S i) raw (pfilter + Z.to_nat (bytes_ bf)) offsets
  end.

Definition bloomtable_build (bfs : list BloomFilter) : exec BloomTable :=
  let n := length bfs in
  let nr_offsets := ((n + BLOOMTABLE_INTERVAL - 1) / BLOOMTABLE_INTERVAL)%nat in
  all_bytes ← count_bytes bfs;
  r ← fill_table bfs 0 (junk (Z.to_nat (u32 (all_bytes + 8)))) 0 (junk nr_offsets);
  let '(raw, offsets) := r in
  _ ← assert (Z.of_nat n <? 2 ^ 32);
  Done (mkTable raw (u32 (Z.of_nat n)) all_bytes offsets).

(** What bloomtable_dump appends to the file. *)
Definition bloomtable_dump (bt : BloomTable) (fo : list Z) : exec (list Z) :=
  raw ← (if (Z.to_nat (nr_bytes bt) <=? length (raw_bf bt))%nat
         then Done (take (Z.to_nat (nr_bytes bt)) (raw_bf bt)) else Fault);
  Done (fo ++ le 4 (nr_bytes bt) ++ raw).

(** [fread] of [n] bytes from what is left of a file. *)
Definition fread (fi : list Z) (n : nat) : exec (list Z * list Z) :=
  _ ← assert (n <=? length fi)%nat; Done (take n fi, drop n fi).

(** The scan of bloomtable_load. *)
Fixpoint scan_table (fuel : nat) (raw : list Z) (raw_size : Z) (ptr i : nat) (offsets : list Z)
    (nr_offsets : nat) : exec (nat * nat * list Z * nat) :=
  if Z.of_nat ptr <? raw_size then
    match fuel with
    | O => NoFuel
    | S fuel' =>
        r ← decode_uint64 raw ptr; let '(praw, bf_len) := r in
        _ ← assert (ptr <? praw)%nat;
        _ ← assert (negb (bf_len =? 0));
        r ← (if (i mod BLOOMTABLE_INTERVAL =? 0)%nat
             then offsets ← store offsets (i / BLOOMTABLE_INTERVAL) (u32 (Z.of_nat ptr));
                  Done (offsets, S nr_offsets)
             else Done (offsets, nr_offsets));
        scan_table fuel' raw raw_size (praw + Z.to_nat bf_len) (S i) r.1 r.2
    end
  else Done (ptr, i, offsets, nr_offsets).

Definition bloomtable_load (fi : list Z) : exec (BloomTable * list Z) :=
  r ← fread fi 4; let '(w, fi) := r in
  let raw_size := le_value w in
  r ← fread fi (Z.to_nat raw_size); let '(data, fi) := r in
  raw_bf ← memcpy (junk (Z.to_nat (u32 (raw_size + 8)))) 0 data 0 (length data);
  r ← scan_table (Z.to_nat raw_size) raw_bf raw_size 0 0
        (junk (TABLE_MAX_BARRELS / BLOOMTABLE_INTERVAL)) 0;
  let '(ptr, i, offsets, nr_offsets) := r in
  _ ← assert (Z.of_nat ptr =? raw_size);
  Done (mkTable raw_bf (u32 (Z.of_nat i)) raw_size (take nr_offsets offsets), fi).

(** Past [n] filters of a table. *)
Fixpoint skip_filters (n : nat) (raw : list Z) (ptr : nat) : exec nat :=
  match n with
  | O => Done ptr
  | S n' =>
      r ← decode_uint64 raw ptr; let '(pbf, bf_len) := r in
      _ ← assert (ptr <? pbf)%nat;
      _ ← assert (negb (bf_len =? 0));
      skip_filters n' raw (pbf + Z.to_nat bf_len)
  end.

Definition bloomtable_match (bt : BloomTable) (index hv : Z) : exec bool :=
  _ ← assert (index <? nr_bf bt);
  let index := Z.to_nat index in
  let ixix := (index / BLOOMTABLE_INTERVAL)%nat in
  off ← load (offsets bt) ixix;
  ptr ← skip_filters (index - ixix * BLOOMTABLE_INTERVAL) (raw_bf bt) (Z.to_nat off);
  r ← decode_uint32 (raw_bf bt) ptr; let '(pbf, bytes) := r in
  _ ← assert (ptr <? pbf)%nat;
  _ ← assert (negb (bytes =? 0));
  bloom_match_raw (raw_bf bt) pbf bytes hv.
End table.

(** ** Containers on disk *)

(** [raw_fd] is the file the operations are given; mtid is not used here. *)
Record BloomContainer := mkContainer {
  off_raw : nat; nr_barrels : Z; nr_bf_per_box : Z; nr_index : Z; index_last : list Z }.

(** Whole reads and writes at a position of a file. *)
Definition pread (file : list Z) (n off : nat) : exec (list Z) :=
  _ ← assert (off + n <=? length file)%nat; Done (take n (drop off file)).

Definition pwrite (file data : list Z) (off : nat) : list Z :=
  let file := file ++ replicate (off - length file) 0 in
  take off file ++ data ++ drop (off + length data) file.

(** A 16-bit number at position [p]. *)
Definition load16 (a : list Z) (p : nat) : exec Z :=
  lo ← load a p; hi ← load a (S p); Done (lo + 256 * hi).
Definition store16 (a : list Z) (p : nat) (v : Z) : exec (list Z) := memcpy a p (le 2 (u16 v)) 0 2.

(** The pages being written: those that are finished, the one at [page], the
    position in it, and the array index_last.  The buffer has room for
    TABLE_MAX_BARRELS pages. *)
Record writer := mkWriter { done : list (list Z); page : list Z; off_page : nat; last_ids : list Z }.

Definition first_page : writer :=
  mkWriter [] (replicate BARREL_ALIGN 0) 0 (replicate TABLE_MAX_BARRELS 0).

(** [bzero(page + off_page, BARREL_ALIGN - off_page)] *)
Definition clear_rest (w : writer) : exec (list Z) :=
  if (off_page w <? BARREL_ALIGN)%nat
  then memset (page w) (off_page w) 0 (BARREL_ALIGN - off_page w) else Done (page w).

(** The switch to the next page before box [i]. *)
Definition next_page (w : writer) (i alllen_new : nat) : exec writer :=
  page ← clear_rest w;
  last_ids ← store (last_ids w) (length (done w)) (u16 (Z.of_nat i - 1));
  _ ← assert (alllen_new <=? BARREL_ALIGN)%nat;
  if (S (length (done w)) <? TABLE_MAX_BARRELS)%nat
  then Done (mkWriter (done w ++ [page]) (replicate BARREL_ALIGN 0) 0 last_ids) else Fault.

(** The identifier and the length of a box, and the switch before them. *)
Definition open_box (w : writer) (i boxlen_new : nat) : exec writer :=
  let alllen_new := (4 + boxlen_new)%nat in
  w ← (if (BARREL_ALIGN <? off_page w + alllen_new)%nat then next_page w i alllen_new else Done w);
  page ← store16 (page w) (off_page w) (Z.of_nat i);
  page ← store16 page (off_page w + 2) (Z.of_nat boxlen_new);
  Done (mkWriter (done w) page (off_page w) (last_ids w)).

(** The last page. *)
Definition close_pages (w : writer) (last : Z) : exec (list (list Z) * list Z) :=
  page ← clear_rest w;
  last_ids ← store (last_ids w) (length (done w)) (u16 last);
  Done (done w ++ [page], last_ids).

(** The filter at [ptr] of a table: where it starts and the length of its
    item. *)
Definition table_item (raw : list Z) (ptr : nat) : exec nat :=
  r ← decode_uint64 raw ptr; let '(praw, bf_len) := r in
  _ ← assert (ptr <? praw)%nat;
  _ ← assert (negb (bf_len =? 0));
  Done (praw + Z.to_nat bf_len - ptr)%nat.

Fixpoint build_loop (n i : nat) (raw : list Z) (ptr_bt : nat) (w : writer) : exec writer :=
  match n with
  | O => Done w
  | S n' =>
      item_len ← table_item raw ptr_bt;
      w ← open_box w i item_len;
      page ← memcpy (page w) (off_page w + 4) raw ptr_bt item_len;
      build_loop n' (S i) raw (ptr_bt + item_len)
        (mkWriter (done w) page (off_page w + (4 + item_len)) (last_ids w))
  end.

(** The new container, the file and the count of pages written. *)
Definition bloomcontainer_build (bt : BloomTable) (file : list Z) (off : nat) (nr_write_bc : Z)
    : exec (BloomContainer * list Z * Z) :=
  _ ← assert (nr_bf bt <? 65536);
  w ← build_loop (Z.to_nat (nr_bf bt)) 0 (raw_bf bt) 0 first_page;
  r ← close_pages w (nr_bf bt - 1); let '(pages, last_ids) := r in
  let n := length pages in
  Done (mkContainer off (nr_bf bt) 1 (Z.of_nat n) (take n last_ids),
        pwrite file (concat pages) off, u64 (nr_write_bc + Z.of_nat n)).

(** The next old page when box [i] is not on the one in [old]. *)
Definition turn_page (bc : BloomContainer) (file : list Z) (i : nat) (st : list Z * nat * nat)
    : exec (list Z * nat * nat) :=
  let '(old, old_page, ptr_old) := st in
  last ← load (index_last bc) old_page;
  if last <? Z.of_nat i then
    let old_page := S old_page in
    last ← load (index_last bc) old_page;
    _ ← assert (Z.of_nat i <=? last);
    old ← pread file BARREL_ALIGN (off_raw bc + old_page * BARREL_ALIGN);
    Done (old, old_page, O)
  else Done st.

Fixpoint update_loop (n i : nat) (bc : BloomContainer) (file raw : list Z) (ptr_bt : nat)
    (st : list Z * nat * nat) (w : writer) : exec writer :=
  match n with
  | O => Done w
  | S n' =>
      item_len ← table_item raw ptr_bt;
      st ← turn_page bc file i st; let '(old, old_page, ptr_old) := st in
      boxid_old ← load16 old ptr_old;
      _ ← assert (boxid_old =? Z.of_nat i);
      len_old ← load16 old (ptr_old + 2);
      let boxlen_old := Z.to_nat len_old in
      let boxlen_new := (boxlen_old + item_len)%nat in
      w ← open_box w i boxlen_new;
      page ← memcpy (page w) (off_page w + 4) raw ptr_bt item_len;
      page ← memcpy page (off_page w + 4 + item_len) old (ptr_old + 4) boxlen_old;
      update_loop n' (S i) bc file raw (ptr_bt + item_len)
        (old, old_page, (ptr_old + (4 + boxlen_old))%nat)
        (mkWriter (done w) page (off_page w + (4 + boxlen_new)) (last_ids w))
  end.

Definition bloomcontainer_update (bc : BloomContainer) (bt : BloomTable) (file new_file : list Z)
    (new_off : nat) (nr_write_bc : Z) : exec (BloomContainer * list Z * Z) :=
  _ ← assert (nr_barrels bc =? nr_bf bt);
  old ← pread file BARREL_ALIGN (off_raw bc);
  w ← update_loop (Z.to_nat (nr_bf bt)) 0 bc file (raw_bf bt) 0 (old, O, O) first_page;
  r ← close_pages w (nr_barrels bc - 1); let '(pages, last_ids) := r in
  let n := length pages in
  Done (mkContainer new_off (nr_barrels bc) (u32 (nr_bf_per_box bc + 1)) (Z.of_nat n) (take n last_ids),
        pwrite new_file (concat pages) new_off, u64 (nr_write_bc + Z.of_nat n)).

(** The first page from [i] on whose last box is not before [barrel_id]. *)
Fixpoint fetch_loop (n i : nat) (bc : BloomContainer) (file : list Z) (barrel_id : Z)
    : exec (option (list Z)) :=
  match n with
  | O => Done None
  | S n' =>
      last ← load (index_last bc) i;
      if barrel_id <=? last then
        buf ← pread file BARREL_ALIGN (off_raw bc + BARREL_ALIGN * i); Done (Some buf)
      else fetch_loop n' (S i) bc file barrel_id
  end.

Definition bloomcontainer_fetch_raw (bc : BloomContainer) (file : list Z) (barrel_id : Z)
    : exec (option (list Z)) :=
  fetch_loop (Z.to_nat (nr_index bc)) 0 bc file barrel_id.

Definition bloomcontainer_dump_meta (bc : BloomContainer) (fo : list Z) : exec (list Z) :=
  ids ← (if (Z.to_nat (nr_index bc) <=? length (index_last bc))%nat
         then Done (take (Z.to_nat (nr_index bc)) (index_last bc)) else Fault);
  Done (fo ++ le 8 (Z.of_nat (off_raw bc)) ++ le 4 (nr_barrels bc) ++ le 4 (nr_bf_per_box bc) ++
        le 4 (nr_index bc) ++ concat (le 2 <$> ids)).

(** [n] 16-bit numbers. *)
Fixpoint read16 (n : nat) (data : list Z) : list Z :=
  match n with O => [] | S n' => le_value (take 2 data) :: read16 n' (drop 2 data) end.

Definition bloomcontainer_load_meta (fi : list Z) : exec (BloomContainer * list Z) :=
  r ← fread fi 8; let '(off, fi) := r in
  r ← fread fi 4; let '(nbar, fi) := r in
  r ← fread fi 4; let '(nbpb, fi) := r in
  r ← fread fi 4; let '(nidx, fi) := r in
  let n := Z.to_nat (le_value nidx) in
  r ← fread fi (2 * n); let '(ids, fi) := r in
  Done (mkContainer (Z.to_nat (le_value off)) (le_value nbar) (le_value nbpb) (le_value nidx) (read16 n ids), fi).

(** The filters of a box from the [i]-th on. *)
Fixpoint match_box (n i : nat) (nr_bf : Z) (box : list Z) (ptr : nat) (hv bits : Z) : exec Z :=
  match n with
  | O => Done bits
  | S n' =>
      r ← decode_uint32 box ptr; let '(pbf, blen) := r in
      _ ← assert (ptr <? pbf)%nat;
      _ ← assert (negb (blen =? 0));
      m ← bloom_match_raw box pbf blen hv;
      let l := nr_bf - Z.of_nat i - 1 in
      let bits := if m : bool then Z.lor bits (u64 (Z.shiftl 1 l)) else bits in
      match_box n' (S i) nr_bf box (pbf + Z.to_nat blen) hv bits
  end.

Definition bloomcontainer_match_nr (bc : BloomContainer) (box : list Z) (pbox : nat) (hv : Z) : exec Z :=
  match_box (Z.to_nat (nr_bf_per_box bc)) 0 (nr_bf_per_box bc) box pbox hv 0.

(** The search for the box on its page. *)
Fixpoint find_box (fuel : nat) (bc : BloomContainer) (boxpage : list Z) (ptr : nat) (index hv : Z) : exec Z :=
  id ← load16 boxpage ptr;
  if id =? index then bloomcontainer_match_nr bc boxpage (ptr + 4) hv
  else if id <? index then
    len ← load16 boxpage (ptr + 2);
    match fuel with
    | O => NoFuel
    | S fuel' => find_box fuel' bc boxpage (ptr + (4 + Z.to_nat len)) index hv
    end
  else Done 0.

Definition bloomcontainer_match (bc : BloomContainer) (file : list Z) (index hv : Z) : exec Z :=
  rf ← bloomcontainer_fetch_raw bc file index;
  match rf with
  | None => Fault
  | Some boxpage => find_box BARREL_ALIGN bc boxpage 0 index hv
  end.
End Bloom.
