(* ===== verification/BloomProof.v ===== *)
(** * Bloom filters and tables of filters: what they promise

    A filter answers yes exactly for the hash values all of whose probes have
    been set; a table, also after it has been written to a file and read back,
    answers for each of its filters as the filter itself does. *)

From S2P Require Import Prelude Coding Bloom.
Import Coding Bloom.

(** ** Probe positions *)

Fixpoint probes_n (n : nat) (bits d h : Z) : list Z :=
  match n with O => [] | S n' => h mod bits :: probes_n n' bits d (u64 (h + d)) end.

Definition probes (bytes hv : Z) : list Z :=
  probes_n NR_PROBES (bloom_bytes_to_bits bytes) (delta hv) hv.

(** Bit [pos] of a block of bytes. *)
Definition bit (l : list Z) (pos : Z) : bool := Z.testbit (nth (Z.to_nat (pos / 8)) l 0) (pos mod 8).

Definition size_ok (bytes : Z) : Prop := 8 <= bytes < 2 ^ 29.

(** A filter as bloom_create makes it and bloom_update keeps it. *)
Record wf (f : BloomFilter) : Prop := {
  wf_size : size_ok (bytes_ f);
  wf_length : length (filter f) = Z.to_nat (bytes_ f);
  wf_bytes : bytes (filter f);
  wf_keys : is_u32 (nr_keys f) }.

Lemma bits_value n : size_ok n -> bloom_bytes_to_bits n = 8 * n - 3.
Proof.
  unfold size_ok. intros H. unfold bloom_bytes_to_bits. rewrite Z.shiftl_mul_pow2 by lia. change (2 ^ 3) with 8.
  rewrite (u32_small (n * 8)), u32_small by (unfold is_u32; lia). lia.
Qed.

Lemma probes_n_range n : forall bits d h, 0 < bits -> Forall (fun pos => 0 <= pos < bits) (probes_n n bits d h).
Proof.
  induction n as [|n IH]; intros bits d h Hb; constructor; [apply Z.mod_pos_bound; lia|]. by apply IH.
Qed.

Lemma probes_range n hv : size_ok n -> Forall (fun pos => 0 <= pos < 8 * n - 3) (probes n hv).
Proof. intros H. unfold probes. rewrite bits_value by done. apply probes_n_range. unfold size_ok in H. lia. Qed.

(** The mask the code tests and sets. *)
Lemma mask_land b k : 0 <= k < 8 -> (Z.land b (u32 (Z.shiftl 1 k)) =? 0) = negb (Z.testbit b k).
Proof.
  intros Hk. assert (Z.shiftl 1 k = 2 ^ k) as -> by (rewrite Z.shiftl_mul_pow2; lia).
  assert (2 ^ k < 2 ^ 8) by (apply Z.pow_lt_mono_r; lia).
  rewrite u32_small by (unfold is_u32; lia). destruct (Z.testbit b k) eqn:E; cbn [negb].
  - apply Z.eqb_neq. intros H0. assert (Z.testbit (Z.land b (2 ^ k)) k = true) as H1
      by (rewrite Z.land_spec, E, Z.pow2_bits_true by lia; done). by rewrite H0, Z.bits_0 in H1.
  - apply Z.eqb_eq, Z.bits_inj'. intros i Hi. rewrite Z.land_spec, Z.bits_0, Z.pow2_bits_eqb by lia.
    destruct (Z.eqb_spec k i) as [<-|]; [by rewrite E|apply andb_false_r].
Qed.

Lemma mask_lor b k i : is_u8 b -> 0 <= k < 8 -> 0 <= i ->
  Z.testbit (u8 (Z.lor b (u32 (Z.shiftl 1 k)))) i = Z.testbit b i || (k =? i).
Proof.
  intros Hb Hk Hi. assert (Z.shiftl 1 k = 2 ^ k) as -> by (rewrite Z.shiftl_mul_pow2; lia).
  assert (2 ^ k < 2 ^ 8) by (apply Z.pow_lt_mono_r; lia).
  rewrite u32_small by (unfold is_u32; lia).
  rewrite u8_small by (apply (lor_bound b (2 ^ k) 8); unfold is_u8 in *; lia).
  rewrite Z.lor_spec, Z.pow2_bits_eqb by lia. done.
Qed.

Lemma pos_index n pos : size_ok n -> 0 <= pos < 8 * n - 3 -> Z.shiftr pos 3 = pos / 8 /\ 0 <= pos / 8 < n /\ 0 <= pos mod 8 < 8.
Proof. intros Hn Hp. rewrite Z.shiftr_div_pow2 by lia. change (2 ^ 3) with 8. split; [done|]. lia_div. Qed.

(** ** Matching *)

Lemma probe_loop_spec l tl n k : forall pre d h,
  size_ok n -> length l = Z.to_nat n ->
  probe_loop k (pre ++ l ++ tl) (length pre) (8 * n - 3) d h =
    Done (forallb (bit l) (probes_n k (8 * n - 3) d h)).
Proof.
  induction k as [|k IH]; intros pre d h Hn Hl; [done|]. cbn [probe_loop probes_n forallb].
  assert (0 <= h mod (8 * n - 3) < 8 * n - 3) as Hp by (apply Z.mod_pos_bound; unfold size_ok in Hn; lia).
  set (pos := h mod (8 * n - 3)) in *. destruct (pos_index n pos Hn Hp) as (-> & Hi & Hm).
  rewrite load_app_r, (load_nth _ _ 0) by (rewrite length_app; lia). run. rewrite mask_land by done.
  rewrite app_nth1 by lia. unfold bit at 1. destruct (Z.testbit _ _); [|done]. by apply IH.
Qed.

Lemma bloom_match_raw_spec pre l tl n hv :
  size_ok n -> length l = Z.to_nat n ->
  bloom_match_raw (pre ++ l ++ tl) (length pre) n hv = Done (forallb (bit l) (probes n hv)).
Proof. intros Hn Hl. unfold bloom_match_raw, probes. rewrite bits_value by done. by apply probe_loop_spec. Qed.

Lemma bloom_match_spec f hv : wf f -> bloom_match f hv = Done (forallb (bit (filter f)) (probes (bytes_ f) hv)).
Proof.
  intros [Hn Hl _ _]. unfold bloom_match. pose proof (bloom_match_raw_spec [] (filter f) [] (bytes_ f) hv Hn Hl) as H.
  cbn [app length] in H. by rewrite app_nil_r in H.
Qed.

(** ** Updating *)

Lemma set_bit l n pos b :
  size_ok n -> length l = Z.to_nat n -> bytes l -> 0 <= pos < 8 * n - 3 ->
  l !! Z.to_nat (pos / 8) = Some b ->
  let l' := <[Z.to_nat (pos / 8) := u8 (Z.lor b (u32 (Z.shiftl 1 (pos mod 8))))]> l in
  length l' = length l /\ bytes l' /\ forall q, 0 <= q -> bit l' q = bit l q || (pos =? q).
Proof.
  intros Hn Hl Hb Hp Hlk l'. destruct (pos_index n pos Hn Hp) as (_ & Hi & Hm).
  split_and!; [apply length_insert|by apply Forall_insert; [|apply u8_range]|].
  intros q Hq. unfold bit, l'. set (j := Z.to_nat (q / 8)).
  assert (0 <= q mod 8 < 8) by (apply Z.mod_pos_bound; lia).
  destruct (decide (Z.to_nat (pos / 8) = j)) as [E|E].
  - rewrite !nth_lookup, <- E, Hlk, list_lookup_insert_eq by lia. cbn.
    assert (is_u8 b) by (by eapply Forall_lookup_1).
    rewrite mask_lor by (done || lia). f_equal. assert (0 <= q / 8) by lia_div.
    assert (pos / 8 = q / 8) by (unfold j in E; lia).
    destruct (Z.eqb_spec (pos mod 8) (q mod 8)), (Z.eqb_spec pos q); try done; subst; lia_div.
  - rewrite !nth_lookup, list_lookup_insert_ne by done.
    destruct (Z.eqb_spec pos q) as [->|]; [by destruct E|]. by rewrite orb_false_r.
Qed.

Lemma update_loop_bits n d k : forall lo l h,
  size_ok n -> length l = Z.to_nat n -> bytes l ->
  exists l' h', for_range lo k (fun _ '(filter, h) =>
        let bitpos := h mod (8 * n - 3) in
        let i := Z.to_nat (Z.shiftr bitpos 3) in
        b ← load filter i;
        filter ← store filter i (u8 (Z.lor b (u32 (Z.shiftl 1 (bitpos mod 8)))));
        Done (filter, u64 (h + d))) (l, h) = Done (l', h') /\
    length l' = length l /\ bytes l' /\
    forall q, 0 <= q -> bit l' q = bit l q || existsb (Z.eqb q) (probes_n k (8 * n - 3) d h).
Proof.
  induction k as [|k IH]; intros lo l h Hn Hl Hb.
  { exists l, h. split_and!; try done. intros. by rewrite orb_false_r. }
  rewrite for_range_S. cbn beta iota zeta.
  assert (0 <= h mod (8 * n - 3) < 8 * n - 3) as Hp by (apply Z.mod_pos_bound; unfold size_ok in Hn; lia).
  set (pos := h mod (8 * n - 3)) in *. destruct (pos_index n pos Hn Hp) as (-> & Hi & Hm).
  destruct (load_lt l (Z.to_nat (pos / 8))) as (b & Hlk & ->); [lia|]. run. rewrite store_lt by lia. run.
  destruct (set_bit l n pos b Hn Hl Hb Hp Hlk) as (Hl1 & Hb1 & Hbit).
  destruct (IH (S lo) _ (u64 (h + d)) Hn (eq_trans Hl1 Hl) Hb1) as (l' & h' & E & Hl2 & Hb2 & Hbit2).
  exists l', h'. split_and!; [exact E|congruence|done|].
  intros q Hq. rewrite Hbit2, Hbit by done. cbn [probes_n existsb]. fold pos.
  rewrite (Z.eqb_sym q pos). by rewrite orb_assoc.
Qed.

(** An update sets the probes of its hash value and nothing else. *)
Lemma bloom_update_spec f hv :
  wf f -> exists f', bloom_update f hv = Done f' /\ wf f' /\ bytes_ f' = bytes_ f /\
    nr_keys f' = u32 (nr_keys f + 1) /\
    forall q, 0 <= q -> bit (filter f') q = bit (filter f) q || existsb (Z.eqb q) (probes (bytes_ f) hv).
Proof.
  intros [Hn Hl Hb Hk]. unfold bloom_update, probes. rewrite bits_value by done.
  destruct (update_loop_bits (bytes_ f) (delta hv) NR_PROBES 0 (filter f) hv Hn Hl Hb) as (l' & h' & E & Hl' & Hb' & Hbit).
  cbv zeta in E |- *. rewrite E. run. eexists. split; [done|]. cbn. split_and!; try done.
  split; cbn; [done|congruence|done|apply u32_range].
Qed.

Lemma bloom_create_wf n : is_u32 n -> wf (bloom_create n).
Proof.
  intros Hn. unfold bloom_create. set (b0 := Z.shiftr _ 3).
  assert (0 <= b0 < 2 ^ 29) as H0.
  { unfold b0. rewrite Z.shiftr_div_pow2 by lia. pose proof (u32_range (u32 (n * BITS_PER_KEY) + 7)). unfold is_u32 in *. lia_div. }
  assert (size_ok (if b0 <? 8 then 8 else b0)) as Hs by (unfold size_ok; destruct (Z.ltb_spec b0 8); lia).
  split; cbn; [done|apply length_replicate| |unfold is_u32; lia].
  apply Forall_replicate. unfold is_u8. lia.
Qed.

Lemma bit_zeros k q : bit (replicate k 0) q = false.
Proof.
  unfold bit. rewrite nth_lookup. destruct (replicate k 0 !! _) eqn:E; cbn; [|apply Z.bits_0].
  apply lookup_replicate_1 in E as [-> _]. apply Z.bits_0.
Qed.

(** Inserting hash values one after the other. *)
Fixpoint bloom_updates (f : BloomFilter) (hvs : list Z) : exec BloomFilter :=
  match hvs with [] => Done f | hv :: hvs' => f ← bloom_update f hv; bloom_updates f hvs' end.

(** Every probe of [hv] is a probe of an inserted value. *)
Definition covered (n : Z) (hvs : list Z) (hv : Z) : Prop :=
  Forall (fun q => Exists (fun h => q ∈ probes n h) hvs) (probes n hv).

#[local] Instance covered_dec n hvs hv : Decision (covered n hvs hv).
Proof. unfold covered. apply _. Defined.

Lemma bloom_updates_spec hvs : forall f,
  wf f -> exists f', bloom_updates f hvs = Done f' /\ wf f' /\ bytes_ f' = bytes_ f /\
    nr_keys f' = u32 (nr_keys f + Z.of_nat (length hvs)) /\
    forall q, 0 <= q ->
      bit (filter f') q = bit (filter f) q || existsb (fun h => existsb (Z.eqb q) (probes (bytes_ f) h)) hvs.
Proof.
  induction hvs as [|hv hvs IH]; intros f Hf.
  { exists f. split_and!; try done.
    - rewrite Z.add_0_r, u32_small by apply Hf. done.
    - intros. by rewrite orb_false_r. }
  destruct (bloom_update_spec f hv Hf) as (f1 & E & Hf1 & Hb1 & Hk1 & Hbit1). cbn [bloom_updates]. rewrite E. run.
  destruct (IH f1 Hf1) as (f' & E' & Hf' & Hb' & Hk' & Hbit'). exists f'. split_and!; [done|done|congruence| |].
  - rewrite Hk', Hk1. cbn [length]. unfold u32. rewrite Z.add_mod_idemp_l by done. f_equal. lia.
  - intros q Hq. rewrite Hbit', Hbit1, Hb1 by done. cbn [existsb]. by rewrite orb_assoc.
Qed.

Lemma existsb_eqb q l : existsb (Z.eqb q) l = bool_decide (q ∈ l).
Proof.
  induction l as [|x l IH]; [done|]. cbn [existsb]. rewrite IH.
  destruct (Z.eqb_spec q x) as [->|]; cbn [orb].
  - symmetry. apply bool_decide_true. by constructor.
  - apply bool_decide_ext. rewrite elem_of_cons. tauto.
Qed.

(** A Bloom filter gives no wrong negative, and its positives are exactly
    those its probes allow.  From bloom_create for any number of keys, after
    inserting any hash values, the filter is well formed, bloom_match answers
    yes for every inserted value, and in general it answers yes exactly when
    every probed bit was set by some inserted value; no access leaves the
    block. *)
Theorem bloom_filter_correct n hvs :
  is_u32 n ->
  exists f, bloom_updates (bloom_create n) hvs = Done f /\ wf f /\ nr_keys f = u32 (Z.of_nat (length hvs)) /\
    (forall hv, hv ∈ hvs -> bloom_match f hv = Done true) /\
    forall hv, bloom_match f hv = Done (bool_decide (covered (bytes_ f) hvs hv)).
Proof.
  intros Hn. pose proof (bloom_create_wf n Hn) as Hc.
  destruct (bloom_updates_spec hvs _ Hc) as (f & E & Hf & Hb & Hk & Hbit).
  assert (forall hv, bloom_match f hv = Done (bool_decide (covered (bytes_ f) hvs hv))) as Hm.
  { intros hv. rewrite bloom_match_spec by done. f_equal.
    apply eq_true_iff_eq. rewrite bool_decide_eq_true. unfold covered. rewrite forallb_forall, Forall_forall.
    pose proof (proj1 (Forall_forall _ _) (probes_range (bytes_ f) hv (wf_size _ Hf))) as Hr.
    assert (forall q, q ∈ probes (bytes_ f) hv ->
      bit (filter f) q = true <-> Exists (fun h => q ∈ probes (bytes_ f) h) hvs) as Hq.
    { intros q Hin. rewrite Hbit by (apply Hr in Hin; lia). unfold bloom_create at 1. cbn [filter].
      rewrite bit_zeros, <- Hb. cbn [orb]. rewrite existsb_exists, Exists_exists. setoid_rewrite list_elem_of_In.
      split; intros (h & Hh & H); exists h; (split; [done|]); by rewrite existsb_eqb, bool_decide_eq_true, list_elem_of_In in *. }
    split; intros H q Hin; [apply Hq, H; [done|by apply list_elem_of_In]|apply list_elem_of_In in Hin; by apply Hq, H]. }
  exists f. split_and!; [done|done|by rewrite Hk|intros hv Hin|done].
  rewrite Hm, bool_decide_true; [done|]. apply Forall_forall. intros q Hq. apply Exists_exists. by exists hv.
Qed.

Lemma bloom_filter_correct_witness :
  exists f, bloom_updates (bloom_create 100) [12345; 2 ^ 64 - 1] = Done f /\ wf f /\
    nr_keys f = u32 (Z.of_nat (length [12345; 2 ^ 64 - 1])) /\
    (forall hv, hv ∈ [12345; 2 ^ 64 - 1] -> bloom_match f hv = Done true) /\
    forall hv, bloom_match f hv = Done (bool_decide (covered (bytes_ f) [12345; 2 ^ 64 - 1] hv)).
Proof. apply (bloom_filter_correct 100). unfold is_u32. lia. Defined.
