(* ===== verification/BloomTable.v ===== *)
(** * Tables of Bloom filters: build, write, read back, match *)

From S2P Require Import Prelude Coding Bloom BloomProof.
Import Coding Bloom.

(** A filter in a table: its length, then its bytes. *)
Definition item (f : BloomFilter) : list Z := varint (bytes_ f) ++ filter f.
Definition items (fs : list BloomFilter) : list Z := concat (item <$> fs).

(** Where filter [k] starts. *)
Definition start (fs : list BloomFilter) (k : nat) : nat := length (items (take k fs)).

(** The sparse index is right for the filters before [n]. *)
Definition index_ok (fs : list BloomFilter) (offs : list Z) (n : nat) : Prop :=
  forall j, (j * BLOOMTABLE_INTERVAL < n)%nat -> offs !! j = Some (Z.of_nat (start fs (j * BLOOMTABLE_INTERVAL))).

(** [bt] is a table of the filters [fs]. *)
Record table_of (fs : list BloomFilter) (bt : BloomTable) : Prop := {
  to_raw : exists tl, raw_bf bt = items fs ++ tl;
  to_nr : nr_bf bt = Z.of_nat (length fs);
  to_bytes : nr_bytes bt = Z.of_nat (length (items fs));
  to_index : index_ok fs (offsets bt) (length fs) }.

Lemma items_app a b : items (a ++ b) = items a ++ items b.
Proof. unfold items. by rewrite fmap_app, concat_app. Qed.

Lemma items_cons f fs : items (f :: fs) = varint (bytes_ f) ++ filter f ++ items fs.
Proof. unfold items. cbn. unfold item. by rewrite <- app_assoc. Qed.

Lemma length_item f : wf f -> length (item f) = (length (varint (bytes_ f)) + Z.to_nat (bytes_ f))%nat.
Proof. intros Hf. unfold item. rewrite length_app. by rewrite (wf_length _ Hf). Qed.

Lemma wf_u64 f : wf f -> 0 <= bytes_ f < 2 ^ 64.
Proof. intros [H _ _ _]. unfold size_ok in H. lia. Qed.

(** Reading the length of a filter. *)
Lemma decode_item pre f tl :
  wf f -> decode_uint64 (pre ++ varint (bytes_ f) ++ tl) (length pre) =
    Done ((length pre + length (varint (bytes_ f)))%nat, bytes_ f) /\
  (length pre <? length pre + length (varint (bytes_ f)))%nat = true /\ (bytes_ f =? 0) = false.
Proof.
  intros Hf. pose proof (wf_u64 f Hf). pose proof (length_varint (bytes_ f)). pose proof (wf_size _ Hf) as Hs. unfold size_ok in Hs.
  split_and!; [by apply decode_uint64_spec|apply Nat.ltb_lt; lia|apply Z.eqb_neq; lia].
Qed.

Lemma skip_filters_spec mid tl : forall pre,
  Forall wf mid -> skip_filters (length mid) (pre ++ items mid ++ tl) (length pre) = Done (length pre + length (items mid))%nat.
Proof.
  induction mid as [|f mid IH]; intros pre Hwf; [simpl; f_equal; lia|].
  inversion_clear Hwf as [|?? Hf Hwf']. cbn [skip_filters length]. rewrite items_cons, <- !app_assoc.
  destruct (decode_item pre f (filter f ++ items mid ++ tl) Hf) as (-> & E1 & E2). run. rewrite E1, E2. cbn [assert negb]. run.
  specialize (IH (pre ++ varint (bytes_ f) ++ filter f) Hwf'). rewrite !length_app, <- !app_assoc in IH.
  rewrite <- (wf_length _ Hf), <- Nat.add_assoc, IH. f_equal. rewrite !length_app. lia.
Qed.

(** ** Matching *)

Lemma bloomtable_match_spec fs bt i f hv :
  Forall wf fs -> table_of fs bt -> fs !! i = Some f ->
  bloomtable_match bt (Z.of_nat i) hv = bloom_match f hv.
Proof.
  intros Hwf [(tl & Hraw) Hnr _ Hidx] Hi. unfold bloomtable_match.
  pose proof (lookup_lt_Some _ _ _ Hi) as Hlt. rewrite Hnr, (proj2 (Z.ltb_lt _ _)) by lia. cbn [assert]. run.
  rewrite Nat2Z.id. set (j := (i / BLOOMTABLE_INTERVAL)%nat).
  assert (j * BLOOMTABLE_INTERVAL <= i)%nat as Hj by (rewrite Nat.mul_comm; apply Nat.Div0.mul_div_le).
  rewrite (load_Done _ _ _ (Hidx j ltac:(lia))). run. rewrite Nat2Z.id.
  set (k := (j * BLOOMTABLE_INTERVAL)%nat) in *.
  assert (fs = take k fs ++ take (i - k) (drop k fs) ++ f :: drop (S i) fs) as Efs.
  { rewrite <- (take_drop k fs) at 1. f_equal. rewrite <- (take_drop (i - k) (drop k fs)) at 1. f_equal.
    rewrite drop_drop. replace (k + (i - k))%nat with i by lia. by apply drop_S. }
  set (mid := take (i - k) (drop k fs)) in *. set (rest := drop (S i) fs) in *.
  assert (length mid = (i - k)%nat) as Hmid by (unfold mid; rewrite length_take, length_drop; lia).
  assert (raw_bf bt = items (take k fs) ++ items mid ++ varint (bytes_ f) ++ filter f ++ items rest ++ tl) as Er.
  { rewrite Hraw. rewrite Efs at 1. rewrite !items_app, items_cons, <- !app_assoc. done. }
  assert (Forall wf mid /\ wf f) as [Hwm Hwff].
  { rewrite Efs in Hwf. rewrite !Forall_app, Forall_cons in Hwf. tauto. }
  pose proof (skip_filters_spec mid (varint (bytes_ f) ++ filter f ++ items rest ++ tl) (items (take k fs)) Hwm) as Hs.
  rewrite Hmid, <- Er in Hs. unfold start. rewrite Hs. run.
  rewrite Er. set (pre := items (take k fs) ++ items mid).
  rewrite (app_assoc (items (take k fs))). fold pre.
  replace (length (items (take k fs)) + length (items mid))%nat with (length pre) by (unfold pre; rewrite length_app; done).
  pose proof (wf_size _ Hwff) as Hsz. unfold size_ok in Hsz.
  rewrite decode_uint32_spec by lia. run. destruct (decode_item pre f [] Hwff) as (_ & -> & ->). cbn [assert negb]. run.
  rewrite bloom_match_spec by done. rewrite <- length_app, app_assoc.
  apply bloom_match_raw_spec; [apply Hwff|apply Hwff].
Qed.

(** ** Building *)

Section build.
Context (junk : nat -> list Z) (Hjunk : forall n, length (junk n) = n).

Lemma count_bytes_spec fs : forall a,
  Forall wf fs -> 0 <= a -> a + Z.of_nat (length (items fs)) < 2 ^ 32 ->
  foldl (fun acc bf =>
    all_bytes ← acc;
    r ← encode_uint64 (junk 20) 0 (bytes_ bf);
    Done (u32 (all_bytes + u32 (Z.of_nat r.2 + bytes_ bf)))) (Done a) fs = Done (a + Z.of_nat (length (items fs))).
Proof using Hjunk.
  induction fs as [|f fs IH]; intros a Hwf Ha Hs; [simpl; f_equal; lia|].
  inversion_clear Hwf as [|?? Hf Hwf']. pose proof (wf_u64 f Hf) as Hb. pose proof (length_varint (bytes_ f)) as Hl.
  rewrite items_cons, !length_app, (wf_length _ Hf) in *. cbn [foldl]. run.
  rewrite encode_uint64_spec by (rewrite ?Hjunk; (done || lia)). run. cbn [snd].
  rewrite (u32_small (Z.of_nat _ + _)), u32_small by (unfold is_u32; lia). rewrite IH; [f_equal; lia|done|lia|lia].
Qed.

(** An index entry is written for every sixteenth filter. *)
Lemma index_step fs before f after offs :
  fs = before ++ f :: after -> index_ok fs offs (length before) ->
  (length fs <= BLOOMTABLE_INTERVAL * length offs)%nat -> Z.of_nat (start fs (length before)) < 2 ^ 32 ->
  exists offs', (if (length before mod BLOOMTABLE_INTERVAL =? 0)%nat
                 then store offs (length before / BLOOMTABLE_INTERVAL) (u32 (Z.of_nat (start fs (length before))))
                 else Done offs) = Done offs' /\
    index_ok fs offs' (S (length before)) /\ length offs' = length offs.
Proof.
  intros Efs Hidx Hlen Hpos. unfold BLOOMTABLE_INTERVAL in *. assert (length before < length fs)%nat as Hb by (rewrite Efs, length_app; simpl; lia).
  destruct (Nat.eqb_spec (length before mod 16) 0) as [E|E].
  - set (q := (length before / 16)%nat). assert (length before = q * 16)%nat as Eq by (unfold q; pose proof (Nat.div_mod_eq (length before) 16); lia).
    rewrite store_lt by lia. eexists. split; [done|]. split; [|apply length_insert].
    intros j Hj. unfold BLOOMTABLE_INTERVAL in *. destruct (decide (j = q)) as [->|Hne].
    + rewrite list_lookup_insert_eq by lia. rewrite u32_small by (unfold is_u32; lia). by rewrite <- Eq.
    + rewrite list_lookup_insert_ne by done. apply Hidx. unfold BLOOMTABLE_INTERVAL. lia.
  - exists offs. split_and!; [done| |done]. intros j Hj. apply Hidx. unfold BLOOMTABLE_INTERVAL in *.
    destruct (decide (j * 16 = length before)%nat) as [E'|]; [|lia]. destruct E. rewrite <- E'. apply Nat.Div0.mod_mul.
Qed.

Lemma start_before before after : start (before ++ after) (length before) = length (items before).
Proof. unfold start. by rewrite take_app_length. Qed.

Lemma fill_table_spec after : forall before buf offs,
  Forall wf after -> index_ok (before ++ after) offs (length before) ->
  (length (before ++ after) <= BLOOMTABLE_INTERVAL * length offs)%nat ->
  (length (items after) <= length buf)%nat -> Z.of_nat (length (items (before ++ after))) < 2 ^ 32 ->
  exists tl offs', fill_table after (length before) (items before ++ buf) (length (items before)) offs =
      Done (items (before ++ after) ++ tl, offs') /\
    index_ok (before ++ after) offs' (length (before ++ after)).
Proof.
  induction after as [|f after IH]; intros before buf offs Hwf Hidx Hlen Hbuf Hsz.
  { exists buf, offs. cbn [fill_table]. rewrite app_nil_r in *. done. }
  inversion_clear Hwf as [|?? Hf Hwf']. cbn [fill_table].
  pose proof Hsz as Hsz'. rewrite items_app, length_app in Hsz'.
  destruct (index_step (before ++ f :: after) before f after offs eq_refl Hidx Hlen) as (offs1 & E1 & Hidx1 & Hl1);
    [rewrite start_before; lia|].
  rewrite start_before in E1. rewrite E1. run.
  rewrite items_cons, !length_app in Hbuf. pose proof (wf_length _ Hf) as Hfl. pose proof (wf_u64 f Hf) as Hu.
  rewrite encode_uint64_spec by (rewrite ?length_app; (done || lia)). run.
  rewrite memcpy_splice by (rewrite ?length_splice; rewrite ?length_app; lia).
  rewrite (firstn_all2 (filter f)) by lia.
  rewrite splice_splice by (rewrite ?length_app; lia). run.
  unfold splice. rewrite take_app_length. rewrite drop_app_ge by lia.
  set (buf' := drop _ buf).
  assert (before ++ f :: after = (before ++ [f]) ++ after) as Ea by (by rewrite <- app_assoc).
  assert (items (before ++ [f]) = items before ++ varint (bytes_ f) ++ filter f) as Eb.
  { rewrite items_app, items_cons. cbn [items concat fmap list_fmap]. by rewrite app_nil_r. }
  destruct (IH (before ++ [f]) buf' offs1 Hwf') as (tl & offs' & E & Hi).
  - rewrite <- Ea, length_app, Nat.add_1_r. done.
  - by rewrite <- Ea, Hl1.
  - unfold buf'. rewrite length_drop, !length_app. lia.
  - by rewrite <- Ea.
  - exists tl, offs'. rewrite Ea. split; [|done]. rewrite <- E, Eb, !length_app, Nat.add_1_r, <- !app_assoc, Hfl.
    by rewrite Nat.add_assoc.
Qed.

Lemma length_items fs : Forall wf fs -> (length fs <= length (items fs))%nat.
Proof.
  induction 1 as [|f fs Hf _ IH]; [done|]. rewrite items_cons, !length_app.
  pose proof (length_varint (bytes_ f)). simpl. lia.
Qed.

Lemma bloomtable_build_spec fs :
  Forall wf fs -> Z.of_nat (length (items fs)) + 8 < 2 ^ 32 ->
  exists bt, bloomtable_build junk fs = Done bt /\ table_of fs bt.
Proof using Hjunk.
  intros Hwf Hsz. unfold bloomtable_build, count_bytes. rewrite count_bytes_spec by (done || lia). run.
  rewrite Z.add_0_l, (u32_small (_ + 8)) by (unfold is_u32; lia). pose proof (length_items fs Hwf) as Hn.
  set (n := ((length fs + BLOOMTABLE_INTERVAL - 1) / BLOOMTABLE_INTERVAL)%nat).
  destruct (fill_table_spec fs [] (junk (Z.to_nat (Z.of_nat (length (items fs)) + 8))) (junk n)) as (tl & offs & E & Hi).
  - done.
  - intros j Hj. simpl in Hj. lia.
  - rewrite Hjunk. unfold n, BLOOMTABLE_INTERVAL. cbn [app].
    pose proof (Nat.div_mod_eq (length fs + 16 - 1) 16). pose proof (Nat.mod_upper_bound (length fs + 16 - 1) 16). lia.
  - rewrite Hjunk. lia.
  - cbn [app]. lia.
  - cbn [app items concat fmap list_fmap length] in E. cbn [app] in E. unfold items in E at 1. cbn in E.
    fold (items fs) in E. rewrite E. run.
    rewrite (proj2 (Z.ltb_lt _ _)) by lia. cbn [assert]. run. rewrite u32_small by (unfold is_u32; lia).
    eexists. split; [done|]. split; cbn; [by exists tl|done|done|exact Hi].
Qed.

(** ** Reading back *)

Lemma scan_table_spec after tl : forall before fuel offs nr,
  Forall wf after -> index_ok (before ++ after) offs (length before) ->
  (length (before ++ after) <= BLOOMTABLE_INTERVAL * length offs)%nat ->
  Z.of_nat (length (items (before ++ after))) < 2 ^ 32 -> (length after <= fuel)%nat ->
  nr = ((length before + BLOOMTABLE_INTERVAL - 1) / BLOOMTABLE_INTERVAL)%nat ->
  exists offs', scan_table fuel (items (before ++ after) ++ tl) (Z.of_nat (length (items (before ++ after))))
      (length (items before)) (length before) offs nr =
      Done (length (items (before ++ after)), length (before ++ after), offs',
            ((length (before ++ after) + BLOOMTABLE_INTERVAL - 1) / BLOOMTABLE_INTERVAL)%nat) /\
    index_ok (before ++ after) offs' (length (before ++ after)) /\ length offs' = length offs.
Proof.
  induction after as [|f after IH]; intros before fuel offs nr Hwf Hidx Hlen Hsz Hf Hnr.
  { rewrite app_nil_r in *. exists offs. split; [|done].
    destruct fuel; cbn [scan_table]; rewrite Z.ltb_irrefl, Hnr; done. }
  inversion_clear Hwf as [|?? Hwff Hwf']. cbn [length] in Hf. destruct fuel as [|fuel]; [lia|]. cbn [scan_table].
  pose proof (length_varint (bytes_ f)) as Hv.
  assert (length (items (before ++ f :: after)) = length (items before) + length (varint (bytes_ f)) + length (filter f) + length (items after))%nat as El
    by (rewrite items_app, items_cons, !length_app; lia).
  rewrite (proj2 (Z.ltb_lt _ _)) by lia.
  assert (items (before ++ f :: after) ++ tl = items before ++ varint (bytes_ f) ++ filter f ++ items after ++ tl) as Er
    by (by rewrite items_app, items_cons, <- !app_assoc).
  destruct (decode_item (items before) f (filter f ++ items after ++ tl) Hwff) as (Ed & E1 & E2).
  rewrite <- Er in Ed. rewrite Ed. run. rewrite E1, E2. cbn [assert negb]. run.
  destruct (index_step (before ++ f :: after) before f after offs eq_refl Hidx Hlen) as (offs1 & Es & Hidx1 & Hl1);
    [rewrite start_before; lia|]. rewrite start_before in Es.
  set (nr' := ((S (length before) + BLOOMTABLE_INTERVAL - 1) / BLOOMTABLE_INTERVAL)%nat).
  assert ((if (length before mod BLOOMTABLE_INTERVAL =? 0)%nat
           then offsets ← store offs (length before / BLOOMTABLE_INTERVAL) (u32 (Z.of_nat (length (items before))));
                Done (offsets, S nr)
           else Done (offs, nr)) = Done (offs1, nr')) as ->.
  { unfold nr', BLOOMTABLE_INTERVAL in *. pose proof (Nat.div_mod_eq (length before) 16) as Hdm.
    pose proof (Nat.mod_upper_bound (length before) 16) as Hm.
    destruct (Nat.eqb_spec (length before mod 16) 0) as [E0|E0].
    - rewrite Es. run. do 2 f_equal. subst nr.
      replace (S (length before) + 16 - 1)%nat with ((length before / 16 + 1) * 16 + 0)%nat by lia.
      replace (length before + 16 - 1)%nat with ((length before / 16) * 16 + 15)%nat by lia.
      rewrite !Nat.div_add_l, (Nat.div_small 0 16), (Nat.div_small 15 16) by lia. lia.
    - injection Es as <-. do 2 f_equal. subst nr.
      replace (S (length before) + 16 - 1)%nat with ((length before / 16 + 1) * 16 + (length before mod 16))%nat by lia.
      replace (length before + 16 - 1)%nat with ((length before / 16 + 1) * 16 + (length before mod 16 - 1))%nat by lia.
      rewrite !Nat.div_add_l, (Nat.div_small (length before mod 16) 16), (Nat.div_small (length before mod 16 - 1) 16) by lia. lia. }
  run. cbn [fst snd].
  assert (before ++ f :: after = (before ++ [f]) ++ after) as Ea by (by rewrite <- app_assoc).
  assert (items (before ++ [f]) = items before ++ varint (bytes_ f) ++ filter f) as Eb.
  { rewrite items_app, items_cons. cbn [items concat fmap list_fmap]. by rewrite app_nil_r. }
  destruct (IH (before ++ [f]) fuel offs1 nr' Hwf') as (offs' & E & Hi & Hlo).
  - rewrite <- Ea, length_app, Nat.add_1_r. done.
  - by rewrite <- Ea, Hl1.
  - by rewrite <- Ea.
  - lia.
  - unfold nr'. by rewrite length_app, Nat.add_1_r.
  - exists offs'. rewrite Ea. split_and!; [|done|congruence]. rewrite <- E, Eb, !length_app, Nat.add_1_r, (wf_length _ Hwff).
    by rewrite Nat.add_assoc.
Qed.

(** The bytes of a table in a file. *)
Definition table_bytes (fs : list BloomFilter) : list Z := le 4 (Z.of_nat (length (items fs))) ++ items fs.

Lemma bloomtable_dump_spec fs bt fo : table_of fs bt -> bloomtable_dump bt fo = Done (fo ++ table_bytes fs).
Proof.
  intros [(tl & Hr) _ Hb _]. unfold bloomtable_dump, table_bytes. rewrite Hb, Nat2Z.id, Hr, length_app.
  rewrite (proj2 (Nat.leb_le _ _)) by lia. run. by rewrite take_app_length.
Qed.

Lemma fread_app a b : fread (a ++ b) (length a) = Done (a, b).
Proof.
  unfold fread. rewrite length_app, (proj2 (Nat.leb_le _ _)) by lia. cbn [assert]. run.
  by rewrite take_app_length, drop_app_length.
Qed.

Lemma bloomtable_load_spec fs fi :
  Forall wf fs -> (length fs <= TABLE_MAX_BARRELS)%nat -> Z.of_nat (length (items fs)) + 8 < 2 ^ 32 ->
  exists bt, bloomtable_load junk (table_bytes fs ++ fi) = Done (bt, fi) /\ table_of fs bt.
Proof using Hjunk.
  intros Hwf Hmax Hsz. unfold bloomtable_load, table_bytes. rewrite <- app_assoc.
  pose proof (fread_app (le 4 (Z.of_nat (length (items fs)))) (items fs ++ fi)) as Ef. rewrite length_le in Ef.
  rewrite Ef. run. rewrite le_value_le by lia. rewrite Nat2Z.id, fread_app. run.
  rewrite u32_small by (unfold is_u32; lia). rewrite memcpy_splice by (rewrite ?Hjunk; lia). run.
  unfold splice. rewrite take_0, firstn_all. cbn [app]. set (tl := drop _ (junk _)).
  pose proof (length_items fs Hwf) as Hn.
  destruct (scan_table_spec fs tl [] (length (items fs)) (junk (TABLE_MAX_BARRELS / BLOOMTABLE_INTERVAL)) 0) as (offs & E & Hi & Hl);
    [done|intros j Hj; simpl in Hj; lia| |cbn [app]; lia|done|done|].
  { rewrite Hjunk. unfold BLOOMTABLE_INTERVAL. cbn [app]. assert (16 * (TABLE_MAX_BARRELS / 16) = TABLE_MAX_BARRELS)%nat as ->; [|done].
    vm_compute. reflexivity. }
  cbn [app length] in E. change (length (items [])) with 0%nat in E. rewrite E. run.
  rewrite Z.eqb_refl. cbn [assert]. run.
  rewrite u32_small by (unfold is_u32; lia). eexists. split; [done|].
  split; cbn; [by exists tl|done|done|]. intros j Hj. rewrite lookup_take_lt; [by apply Hi|].
  unfold BLOOMTABLE_INTERVAL in *.
  assert (S j * 16 <= length fs + 16 - 1)%nat as H16 by lia. apply (Nat.Div0.div_le_mono _ _ 16) in H16.
  rewrite Nat.div_mul in H16 by lia. lia.
Qed.

(** Tables of Bloom filters keep their answers, in memory and on disk.
    bloomtable_build of any well-formed filters gives a table in which
    bloomtable_match answers for each index exactly as bloom_match does on
    that filter; bloomtable_dump appends the table to a file, and
    bloomtable_load of those bytes (up to 8192 filters) gives a table with the
    same answers and leaves the rest of the file. *)
Theorem bloomtable_correct fs fo fi :
  Forall wf fs -> (length fs <= TABLE_MAX_BARRELS)%nat -> Z.of_nat (length (items fs)) + 8 < 2 ^ 32 ->
  exists bt bt' data, bloomtable_build junk fs = Done bt /\
    bloomtable_dump bt fo = Done (fo ++ data) /\ bloomtable_load junk (data ++ fi) = Done (bt', fi) /\
    forall i f hv, fs !! i = Some f ->
      bloomtable_match bt (Z.of_nat i) hv = bloom_match f hv /\
      bloomtable_match bt' (Z.of_nat i) hv = bloom_match f hv.
Proof using Hjunk.
  intros Hwf Hmax Hsz. destruct (bloomtable_build_spec fs Hwf Hsz) as (bt & E1 & Ht).
  destruct (bloomtable_load_spec fs fi Hwf Hmax Hsz) as (bt' & E2 & Ht').
  exists bt, bt', (table_bytes fs). split_and!; [done|by apply bloomtable_dump_spec|done|].
  intros i f hv Hi. split; by apply (bloomtable_match_spec fs).
Qed.
End build.

Lemma bloomtable_correct_witness :
  exists bt bt' data, bloomtable_build (fun n => replicate n 171) [bloom_create 1; bloom_create 2] = Done bt /\
    bloomtable_dump bt [5] = Done ([5] ++ data) /\ bloomtable_load (fun n => replicate n 171) (data ++ [6]) = Done (bt', [6]) /\
    forall i f hv, [bloom_create 1; bloom_create 2] !! i = Some f ->
      bloomtable_match bt (Z.of_nat i) hv = bloom_match f hv /\ bloomtable_match bt' (Z.of_nat i) hv = bloom_match f hv.
Proof.
  apply (bloomtable_correct (fun n => replicate n 171) (fun n => length_replicate n 171) [bloom_create 1; bloom_create 2] [5] [6]).
  - repeat apply Forall_cons_2; try apply Forall_nil_2; apply bloom_create_wf; unfold is_u32; lia.
  - apply Nat.leb_le. vm_compute. reflexivity.
  - vm_compute. reflexivity.
Defined.
