(* ===== verification/BloomPages.v ===== *)
(** * Containers of Bloom filters: the pages on disk

    A container stores one box per barrel: its number, its length and its
    content.  The boxes lie in order on pages; a page holds a run of boxes and
    is filled up with zeros, and index_last names the last box of each page.
    This file has the layout, the writing of pages, and the reading of a box. *)

From S2P Require Import Prelude Coding Bloom BloomProof BloomTable.
Import Coding Bloom.

(** ** The layout *)

Definition box (i : nat) (c : list Z) : list Z := le 2 (Z.of_nat i) ++ le 2 (Z.of_nat (length c)) ++ c.

(** The boxes of the contents [cs], numbered from [s] on. *)
Fixpoint boxes (s : nat) (cs : list (list Z)) : list Z :=
  match cs with [] => [] | c :: cs' => box s c ++ boxes (S s) cs' end.

Definition page_of (s : nat) (r : list (list Z)) : list Z :=
  boxes s r ++ replicate (BARREL_ALIGN - length (boxes s r)) 0.

Fixpoint layout (s : nat) (runs : list (list (list Z))) : list (list Z) :=
  match runs with [] => [] | r :: rs => page_of s r :: layout (s + length r) rs end.

Fixpoint lasts (s : nat) (runs : list (list (list Z))) : list Z :=
  match runs with [] => [] | r :: rs => Z.of_nat (s + length r) - 1 :: lasts (s + length r) rs end.

Definition run_ok (r : list (list Z)) : Prop := r <> [] /\ forall s, (length (boxes s r) <= BARREL_ALIGN)%nat.

Lemma barrel_value : Z.of_nat BARREL_ALIGN = 4096.
Proof. vm_compute. reflexivity. Qed.
Lemma barrels_value : Z.of_nat TABLE_MAX_BARRELS = 8192.
Proof. vm_compute. reflexivity. Qed.
#[global] Opaque BARREL_ALIGN TABLE_MAX_BARRELS.

Lemma length_box i c : length (box i c) = (4 + length c)%nat.
Proof. unfold box. rewrite !length_app, !length_le. lia. Qed.

Lemma boxes_app s a b : boxes s (a ++ b) = boxes s a ++ boxes (s + length a) b.
Proof.
  revert s. induction a as [|c a IH]; intros s; cbn [app boxes length]; [by rewrite Nat.add_0_r|].
  rewrite IH, <- app_assoc. by replace (S s + length a)%nat with (s + S (length a))%nat by lia.
Qed.

Lemma length_boxes s s' cs : length (boxes s cs) = length (boxes s' cs).
Proof.
  revert s s'. induction cs as [|c cs IH]; intros s s'; [done|]. cbn [boxes]. rewrite !length_app, !length_box. by rewrite (IH _ (S s')).
Qed.

Lemma length_boxes_ge s cs : (4 * length cs <= length (boxes s cs))%nat.
Proof. revert s. induction cs as [|c cs IH]; intros s; [done|]. cbn [boxes length]. rewrite length_app, length_box. specialize (IH (S s)). lia. Qed.

Lemma layout_app s a b : layout s (a ++ b) = layout s a ++ layout (s + length (concat a)) b.
Proof.
  revert s. induction a as [|r a IH]; intros s; cbn [app layout concat length]; [by rewrite Nat.add_0_r|].
  rewrite IH, length_app. by replace (s + length r + length (concat a))%nat with (s + (length r + length (concat a)))%nat by lia.
Qed.

Lemma lasts_app s a b : lasts s (a ++ b) = lasts s a ++ lasts (s + length (concat a)) b.
Proof.
  revert s. induction a as [|r a IH]; intros s; cbn [app lasts concat length]; [by rewrite Nat.add_0_r|].
  rewrite IH, length_app. by replace (s + length r + length (concat a))%nat with (s + (length r + length (concat a)))%nat by lia.
Qed.

Lemma length_layout s runs : length (layout s runs) = length runs.
Proof. revert s. induction runs as [|r rs IH]; intros s; [done|]. simpl. by rewrite IH. Qed.
Lemma length_lasts s runs : length (lasts s runs) = length runs.
Proof. revert s. induction runs as [|r rs IH]; intros s; [done|]. simpl. by rewrite IH. Qed.

Lemma length_page_of s r : run_ok r -> length (page_of s r) = BARREL_ALIGN.
Proof. intros [_ H]. specialize (H s). unfold page_of. rewrite length_app, length_replicate. lia. Qed.

Lemma layout_pages s runs : Forall run_ok runs -> Forall (fun p => length p = BARREL_ALIGN) (layout s runs).
Proof. intros H. revert s. induction H as [|r rs Hr _ IH]; intros s; constructor; [by apply length_page_of|apply IH]. Qed.

Lemma runs_le runs : Forall run_ok runs -> (length runs <= length (concat runs))%nat.
Proof.
  induction 1 as [|r rs [Hr _] _ IH]; [done|]. cbn [length concat]. rewrite length_app.
  destruct r; [done|]. simpl. lia.
Qed.

(** ** Writing *)

(** The boxes with the contents [cs] have been written: [runs] on finished
    pages and [cur] on the current one. *)
Definition writer_of (cs : list (list Z)) (w : writer) : Prop :=
  exists runs cur, cs = concat runs ++ cur /\ Forall run_ok runs /\
    done w = layout 0 runs /\ off_page w = length (boxes (length (concat runs)) cur) /\
    length (page w) = BARREL_ALIGN /\ (off_page w <= BARREL_ALIGN)%nat /\
    take (off_page w) (page w) = boxes (length (concat runs)) cur /\
    length (last_ids w) = TABLE_MAX_BARRELS /\ take (length runs) (last_ids w) = lasts 0 runs /\
    (length runs < TABLE_MAX_BARRELS)%nat.

Lemma first_page_of : writer_of [] first_page.
Proof.
  pose proof barrels_value. exists [], []. unfold first_page. cbn [done page off_page last_ids].
  rewrite !length_replicate. split_and!; try done; simpl; try lia; constructor.
Qed.

(** The content is final up to [off_page]; the rest of the page is cleared. *)
Lemma clear_rest_spec w s cur :
  length (page w) = BARREL_ALIGN -> (off_page w <= BARREL_ALIGN)%nat ->
  off_page w = length (boxes s cur) -> take (off_page w) (page w) = boxes s cur ->
  clear_rest w = Done (page_of s cur).
Proof.
  intros Hl Ho Hlen Ht. unfold clear_rest, page_of. rewrite <- Hlen.
  destruct (Nat.ltb_spec (off_page w) BARREL_ALIGN).
  - rewrite memset_in by lia. rewrite Ht. rewrite drop_ge by lia. by rewrite app_nil_r.
  - assert (off_page w = BARREL_ALIGN) as E by lia. rewrite E, Nat.sub_diag. cbn [replicate]. rewrite app_nil_r.
    rewrite E, <- Hl, firstn_all in Ht. by rewrite Ht.
Qed.

(** Closing the current page. *)
Lemma close_run runs cur (ids : list Z) n :
  length ids = TABLE_MAX_BARRELS -> (length runs < TABLE_MAX_BARRELS)%nat -> take (length runs) ids = lasts 0 runs ->
  n = length (concat runs ++ cur) -> (1 <= n)%nat -> Z.of_nat n <= 65536 ->
  exists ids', store ids (length (layout 0 runs)) (u16 (Z.of_nat n - 1)) = Done ids' /\
    length ids' = TABLE_MAX_BARRELS /\ take (length (runs ++ [cur])) ids' = lasts 0 (runs ++ [cur]).
Proof.
  intros Hl Hr Ht -> Hn Hn2. rewrite length_layout, store_lt by lia. eexists. split; [done|].
  rewrite length_insert. split; [done|]. rewrite (length_app runs), Nat.add_1_r, take_S_insert, Ht, lasts_app by lia.
  cbn [lasts]. do 2 f_equal. rewrite length_app in *. unfold u16. rewrite Z.mod_small by lia. lia.
Qed.

Lemma layout_snoc runs cur : layout 0 (runs ++ [cur]) = layout 0 runs ++ [page_of (length (concat runs)) cur].
Proof. rewrite layout_app. done. Qed.

Lemma concat_snoc {A} (l : list (list A)) x : concat (l ++ [x]) = concat l ++ x.
Proof. rewrite concat_app. cbn [concat]. by rewrite app_nil_r. Qed.

(** Before a box with [n] bytes: there is room for it on the current page. *)
Lemma room_for_box cs w n :
  writer_of cs w -> (4 + n <= BARREL_ALIGN)%nat -> (length cs < TABLE_MAX_BARRELS)%nat ->
  exists w', (if (BARREL_ALIGN <? off_page w + (4 + n))%nat then next_page w (length cs) (4 + n) else Done w) = Done w' /\
    writer_of cs w' /\ (off_page w' + (4 + n) <= BARREL_ALIGN)%nat.
Proof.
  intros Hw Hn Hcs. destruct (Nat.ltb_spec BARREL_ALIGN (off_page w + (4 + n))); [|exists w; split_and!; (done || lia)].
  destruct Hw as (runs & cur & -> & Hok & Hd & Ho & Hp & Hle & Ht & Hi & Hids & Hr).
  unfold next_page. rewrite (clear_rest_spec w _ cur Hp Hle Ho Ht). run. rewrite Hd.
  assert (cur <> []) as Hcur by (intros ->; simpl in Ho; lia).
  assert (1 <= length cur)%nat by (destruct cur; [done|simpl; lia]).
  pose proof (runs_le runs Hok) as Hrl. pose proof barrels_value as Hb. rewrite length_app in Hcs.
  destruct (close_run runs cur (last_ids w) (length (concat runs ++ cur)) Hi Hr Hids eq_refl) as (ids' & -> & Hi' & Hids');
    [rewrite length_app; lia..|]. run. rewrite (proj2 (Nat.leb_le _ _)) by lia. cbn [assert]. run.
  rewrite length_layout, (proj2 (Nat.ltb_lt _ _)) by lia. eexists. split; [done|]. cbn [off_page].
  split; [|lia]. exists (runs ++ [cur]), []. cbn [done page off_page last_ids boxes length].
  rewrite concat_snoc, app_nil_r, length_replicate, (length_app runs). cbn [length] in *. rewrite length_app in Hids'. cbn [length] in Hids'.
  split_and!; try done; try lia.
  - apply Forall_app. split; [done|]. apply Forall_singleton. split; [done|]. intros s.
    rewrite (length_boxes _ (length (concat runs))). lia.
  - by rewrite layout_snoc.
Qed.

Lemma store16_splice a p v : 0 <= v < 65536 -> (p + 2 <= length a)%nat -> store16 a p v = Done (splice a p (le 2 v)).
Proof.
  intros Hv Hp. unfold store16, u16. rewrite Z.mod_small by lia.
  rewrite memcpy_splice by (rewrite ?length_le; lia). by rewrite firstn_all2 by (rewrite length_le; lia).
Qed.

Lemma take_splice a p bs : (p + length bs <= length a)%nat -> take (p + length bs) (splice a p bs) = take p a ++ bs.
Proof.
  intros H. unfold splice. rewrite app_assoc, take_app_length'; [done|]. rewrite length_app, length_take. lia.
Qed.

(** A box is opened, and whatever content of its length is copied behind the
    header, the box is written. *)
Lemma open_box_spec cs w n :
  writer_of cs w -> (4 + n <= BARREL_ALIGN)%nat -> (length cs < TABLE_MAX_BARRELS)%nat ->
  exists w', open_box w (length cs) n = Done w' /\ length (page w') = BARREL_ALIGN /\
    (off_page w' + (4 + n) <= BARREL_ALIGN)%nat /\
    forall c, length c = n ->
      writer_of (cs ++ [c]) (mkWriter (done w') (splice (page w') (off_page w' + 4) c) (off_page w' + (4 + n)) (last_ids w')).
Proof.
  intros Hw Hn Hcs. unfold open_box. destruct (room_for_box cs w n Hw Hn Hcs) as (w1 & -> & Hw1 & Hroom). run.
  pose proof barrel_value as HB. pose proof barrels_value as HT.
  destruct Hw1 as (runs & cur & E & Hok & Hd & Ho & Hp & Hle & Ht & Hi & Hids & Hr).
  rewrite store16_splice by lia. run. rewrite store16_splice; [run|lia|rewrite length_splice; rewrite ?length_le; lia].
  rewrite (splice_at (page w1) (off_page w1) _ (le 2 _)) by (rewrite ?length_le; lia).
  eexists. split; [done|]. cbn [done page off_page last_ids].
  rewrite length_splice by (rewrite length_app, !length_le; lia). split_and!; [done|done|].
  intros c Hc. exists runs, (cur ++ [c]). cbn [done page off_page last_ids].
  rewrite (splice_at (page w1) (off_page w1) _ (le 2 _ ++ le 2 _)) by (rewrite ?length_app, ?length_le; lia).
  rewrite <- app_assoc, <- Hc. fold (box (length cs) c).
  rewrite boxes_app, length_app. cbn [boxes]. rewrite app_nil_r, length_box, <- Ho.
  assert (length cs = length (concat runs) + length cur)%nat as El by (rewrite E, length_app; done).
  split_and!; try done; try lia.
  - by rewrite E, app_assoc.
  - rewrite length_splice; [done|rewrite length_box; lia].
  - rewrite <- length_box with (i := length cs), take_splice by (rewrite length_box; lia). by rewrite Ht, El.
Qed.
