(* ===== verification/BloomContainer.v ===== *)
(** * Containers of Bloom filters: build, update, match

    A container that has taken in the filters of several tables answers, for
    each barrel and hash value, with one bit per table.  The filters of a barrel
    must fit on one page; a table that would exceed it fails an assertion. *)

From S2P Require Import Prelude Coding Bloom BloomProof BloomTable BloomPages.
Import Coding Bloom.

(** [bc] and [file] hold boxes with the contents [cs]. *)
Record holds (cs : list (list Z)) (bc : BloomContainer) (file : list Z) (runs : list (list (list Z))) : Prop := {
  ho_runs : cs = concat runs;
  ho_ok : Forall run_ok runs;
  ho_count : nr_index bc = Z.of_nat (length runs);
  ho_lasts : index_last bc = lasts 0 runs;
  ho_barrels : nr_barrels bc = Z.of_nat (length cs);
  ho_file : take (length (concat (layout 0 runs))) (drop (off_raw bc) file) = concat (layout 0 runs) }.

(** ** Building *)

Lemma table_item_spec pre f tl :
  wf f -> table_item (pre ++ item f ++ tl) (length pre) = Done (length (item f)).
Proof.
  intros Hf. unfold table_item, item. rewrite <- app_assoc.
  destruct (decode_item pre f (filter f ++ tl) Hf) as (-> & E1 & E2). run. rewrite E1, E2. cbn [assert negb]. run.
  f_equal. rewrite length_app, <- (wf_length _ Hf). lia.
Qed.

Lemma memcpy_mid (dst : list Z) p pre c tl :
  (p + length c <= length dst)%nat -> memcpy dst p (pre ++ c ++ tl) (length pre) (length c) = Done (splice dst p c).
Proof.
  intros H. rewrite memcpy_in by (rewrite ?length_app; lia). rewrite drop_app_length, take_app_length. done.
Qed.

Lemma items_cons_item f fs : items (f :: fs) = item f ++ items fs.
Proof. done. Qed.

Lemma build_loop_spec fs : forall pre tl cs w,
  Forall wf fs -> Forall (fun f => 4 + length (item f) <= BARREL_ALIGN)%nat fs ->
  (length cs + length fs <= TABLE_MAX_BARRELS)%nat -> writer_of cs w ->
  exists w', build_loop (length fs) (length cs) (pre ++ items fs ++ tl) (length pre) w = Done w' /\
    writer_of (cs ++ (item <$> fs)) w' /\ ((0 < off_page w)%nat \/ fs <> [] -> (0 < off_page w')%nat).
Proof.
  induction fs as [|f fs IH]; intros pre tl cs w Hwf Hfit Hn Hw.
  { exists w. cbn. rewrite app_nil_r. split_and!; [done|done|]. by intros [?|?]. }
  inversion_clear Hwf as [|?? Hf Hwf']. inversion_clear Hfit as [|?? Hff Hfit']. cbn [length] in *.
  cbn [build_loop]. rewrite items_cons_item, <- app_assoc, table_item_spec by done. run.
  destruct (open_box_spec cs w (length (item f)) Hw Hff ltac:(lia)) as (w1 & -> & Hp1 & Hroom & Hput). run.
  rewrite memcpy_mid by lia. run. specialize (Hput (item f) eq_refl).
  destruct (IH (pre ++ item f) tl (cs ++ [item f]) _ Hwf' Hfit' ltac:(rewrite length_app; simpl; lia) Hput) as (w2 & E & Hw2 & Ho2).
  rewrite !length_app, <- !app_assoc in E. cbn [length] in E. rewrite Nat.add_1_r in E. rewrite E.
  exists w2. rewrite <- app_assoc in Hw2. split_and!; [done|done|]. intros _. apply Ho2. left. cbn. lia.
Qed.

Lemma concat_length_pages ps : Forall (fun p : list Z => length p = BARREL_ALIGN) ps -> length (concat ps) = (BARREL_ALIGN * length ps)%nat.
Proof. induction 1 as [|p ps Hp _ IH]; [cbn; lia|]. cbn [concat length]. rewrite length_app, Hp, IH. lia. Qed.

Lemma close_pages_spec cs w :
  writer_of cs w -> (0 < off_page w)%nat -> (length cs <= TABLE_MAX_BARRELS)%nat ->
  exists runs ids, close_pages w (Z.of_nat (length cs) - 1) = Done (layout 0 runs, ids) /\
    cs = concat runs /\ Forall run_ok runs /\ take (length runs) ids = lasts 0 runs.
Proof.
  intros (runs & cur & E & Hok & Hd & Ho & Hp & Hle & Ht & Hi & Hids & Hr) Hne Hn.
  pose proof barrels_value as HT. unfold close_pages. rewrite (clear_rest_spec w _ cur Hp Hle Ho Ht). run. rewrite Hd.
  assert (cur <> []) as Hcur by (intros ->; simpl in Ho; lia).
  assert (1 <= length cur)%nat by (destruct cur; [done|simpl; lia]).
  destruct (close_run runs cur (last_ids w) (length cs) Hi Hr Hids) as (ids & -> & Hi' & Hids');
    [by rewrite E|rewrite E, length_app; lia|lia|]. run.
  exists (runs ++ [cur]), ids. rewrite layout_snoc, concat_snoc. split_and!; try done.
  apply Forall_app. split; [done|]. apply Forall_singleton. split; [done|]. intros s.
  rewrite (length_boxes _ (length (concat runs))). lia.
Qed.

Lemma pwrite_read file data off : take (length data) (drop off (pwrite file data off)) = data.
Proof.
  unfold pwrite. rewrite drop_app_length'; [by rewrite take_app_length|].
  rewrite length_take, length_app, length_replicate. lia.
Qed.

(** What is left to do after the loops: the pages are written, and the
    container describes them. *)
Lemma holds_written cs w file off k :
  writer_of cs w -> (0 < off_page w)%nat -> (length cs <= TABLE_MAX_BARRELS)%nat ->
  exists runs ids, close_pages w (Z.of_nat (length cs) - 1) = Done (layout 0 runs, ids) /\
    holds cs (mkContainer off (Z.of_nat (length cs)) k (Z.of_nat (length (layout 0 runs))) (take (length (layout 0 runs)) ids))
      (pwrite file (concat (layout 0 runs)) off) runs.
Proof.
  intros Hw Ho Hn. destruct (close_pages_spec cs w Hw Ho Hn) as (runs & ids & E & Hcs & Hok & Hids).
  exists runs, ids. split; [done|]. rewrite length_layout. split; cbn [nr_index index_last nr_barrels off_raw]; try done.
  apply pwrite_read.
Qed.

Lemma holds_size cs bc file runs : holds cs bc file runs -> (length (concat (layout 0 runs)) <= BARREL_ALIGN * length cs)%nat.
Proof.
  intros Hh. rewrite (concat_length_pages _ (layout_pages 0 runs (ho_ok _ _ _ _ Hh))), length_layout, (ho_runs _ _ _ _ Hh).
  apply Nat.mul_le_mono_l, runs_le, Hh.
Qed.

(** ** Reading *)

(** Reading page [k]. *)
Lemma read_page cs bc file runs k p :
  holds cs bc file runs -> layout 0 runs !! k = Some p ->
  pread file BARREL_ALIGN (off_raw bc + k * BARREL_ALIGN) = Done p.
Proof.
  intros [_ Hok _ _ _ Hf] Hk. pose proof (layout_pages 0 runs Hok) as Hpg.
  set (ps := layout 0 runs) in *. pose proof barrel_value as HB.
  apply list_elem_of_split_length in Hk as (a & b & E & Hk).
  assert (length p = BARREL_ALIGN) as Hp.
  { rewrite E in Hpg. rewrite Forall_app, Forall_cons in Hpg. tauto. }
  assert (length (concat a) = k * BARREL_ALIGN)%nat as Ha.
  { rewrite concat_length_pages by (rewrite E in Hpg; rewrite Forall_app in Hpg; tauto). lia. }
  assert (length (concat ps) <= length (drop (off_raw bc) file))%nat as Hlen
    by (rewrite <- Hf, length_take; lia).
  rewrite E, concat_app in *. cbn [concat] in *. rewrite !length_app, Hp, Ha, length_drop in Hlen.
  unfold pread. rewrite (proj2 (Nat.leb_le _ _)) by lia. cbn [assert]. run. f_equal.
  rewrite <- drop_drop. rewrite <- (take_drop (length (concat a ++ p ++ concat b)) (drop (off_raw bc) file)), Hf.
  rewrite <- Ha, <- app_assoc, drop_app_length, <- app_assoc, <- Hp. apply take_app_length.
Qed.

Lemma load16_le pre v tl p : 0 <= v < 65536 -> p = length pre -> load16 (pre ++ le 2 v ++ tl) p = Done v.
Proof.
  intros Hv ->. unfold load16. cbn [le app]. rewrite load_middle. run.
  replace (S (length pre)) with (length (pre ++ [v mod 256])) by (rewrite length_app; simpl; lia).
  rewrite cons_middle, app_assoc, load_middle. run. f_equal. lia_div.
Qed.

(** The header of a box. *)
Lemma read_box pre i c tl p :
  Z.of_nat i < 65536 -> Z.of_nat (length c) < 65536 -> p = length pre ->
  load16 (pre ++ box i c ++ tl) p = Done (Z.of_nat i) /\
  load16 (pre ++ box i c ++ tl) (p + 2) = Done (Z.of_nat (length c)).
Proof.
  intros Hi Hc ->. unfold box. rewrite <- !app_assoc. split; [apply load16_le; lia|].
  rewrite (app_assoc pre). apply load16_le; [lia|]. rewrite length_app, length_le. done.
Qed.

Lemma box_split i c : exists h, box i c = h ++ c /\ length h = 4%nat.
Proof. exists (le 2 (Z.of_nat i) ++ le 2 (Z.of_nat (length c))). unfold box. rewrite length_app, !length_le, <- app_assoc. done. Qed.

(** The run and the place in it of box [j]. *)
Lemma locate (runs : list (list (list Z))) : forall j c, concat runs !! j = Some c ->
  exists a r1 r2 b, runs = a ++ (r1 ++ c :: r2) :: b /\ j = (length (concat a) + length r1)%nat.
Proof.
  induction runs as [|r rs IH]; intros j c H; [done|]. cbn [concat] in H. apply lookup_app_Some in H as [H|[Hj H]].
  - apply list_elem_of_split_length in H as (r1 & r2 & -> & ->). by exists [], r1, r2, rs.
  - apply IH in H as (a & r1 & r2 & b & -> & E). exists (r :: a), r1, r2, b. split; [done|].
    cbn [concat]. rewrite length_app. lia.
Qed.

Lemma lasts_before a : forall s, Forall run_ok a -> Forall (fun v => v < Z.of_nat (s + length (concat a))) (lasts s a).
Proof.
  induction a as [|r a IH]; intros s H; [constructor|]. inversion_clear H as [|?? _ Ha]. cbn [lasts concat]. rewrite length_app.
  constructor; [lia|]. eapply Forall_impl; [apply (IH _ Ha)|]. cbn. intros v Hv. lia.
Qed.

Lemma lasts_at a r b : lasts 0 (a ++ r :: b) !! length a = Some (Z.of_nat (length (concat a) + length r) - 1).
Proof. rewrite lasts_app, lookup_app_r by (rewrite length_lasts; lia). rewrite length_lasts, Nat.sub_diag. done. Qed.

Lemma layout_at a r b : layout 0 (a ++ r :: b) !! length a = Some (page_of (length (concat a)) r).
Proof. rewrite layout_app, lookup_app_r by (rewrite length_layout; lia). rewrite length_layout, Nat.sub_diag. done. Qed.

Lemma fetch_loop_spec cs bc file a r b j : forall d i,
  holds cs bc file (a ++ r :: b) -> (length (concat a) <= j < length (concat a) + length r)%nat ->
  (i + d = length a)%nat ->
  fetch_loop (S d + length b) i bc file (Z.of_nat j) = Done (Some (page_of (length (concat a)) r)).
Proof.
  induction d as [|d IH]; intros i Hh Hj Hi.
  - cbn [fetch_loop Nat.add]. rewrite (ho_lasts _ _ _ _ Hh). assert (i = length a) as -> by lia. rewrite (load_Done _ _ _ (lasts_at a r b)). run.
    rewrite (proj2 (Z.leb_le _ _)) by lia. rewrite Nat.mul_comm. by rewrite (read_page _ _ _ _ _ _ Hh (layout_at a r b)).
  - pose proof (ho_ok _ _ _ _ Hh) as Hok. apply Forall_app in Hok as [Hoka _].
    destruct (lookup_lt_is_Some_2 (lasts 0 a) i) as [v Hv]; [rewrite length_lasts; lia|].
    assert (v < Z.of_nat (length (concat a))) by (eapply Forall_lookup_1 in Hv; [|by apply (lasts_before a 0)]; done).
    change (S (S d) + length b)%nat with (S (S d + length b)). set (n := (S d + length b)%nat) in *.
    cbn [fetch_loop]. rewrite (ho_lasts _ _ _ _ Hh), lasts_app, (load_Done _ i v) by (by apply lookup_app_l_Some). run.
    rewrite (proj2 (Z.leb_gt _ _)) by lia. apply (IH (S i)); [done|lia|lia].
Qed.

Lemma find_box_spec bc c r2 tl hv r1 : forall fuel pre s,
  (length r1 <= fuel)%nat -> Forall (fun x => Z.of_nat (length x) < 65536) (r1 ++ [c]) -> Z.of_nat (s + length r1) < 65536 ->
  exists P T, pre ++ boxes s (r1 ++ c :: r2) ++ tl = P ++ c ++ T /\
    find_box fuel bc (P ++ c ++ T) (length pre) (Z.of_nat (s + length r1)) hv =
    bloomcontainer_match_nr bc (P ++ c ++ T) (length P) hv.
Proof.
  induction r1 as [|x r1 IH]; intros fuel pre s Hf Hl Hs; cbn [app boxes length] in *; rewrite <- app_assoc;
    inversion_clear Hl as [|?? Hx Hl'].
  - destruct (read_box pre s c (boxes (S s) r2 ++ tl) (length pre)) as [E _]; [lia..|].
    destruct (box_split s c) as (h & Eb & Hh). rewrite Eb, <- app_assoc in *.
    exists (pre ++ h), (boxes (S s) r2 ++ tl). rewrite <- app_assoc. split; [done|].
    destruct fuel; cbn [find_box]; rewrite E; run; rewrite Nat.add_0_r, Z.eqb_refl, length_app, Hh; done.
  - destruct (read_box pre s x (boxes (S s) (r1 ++ c :: r2) ++ tl) (length pre)) as [E1 E2]; [lia..|].
    destruct fuel as [|fuel]; [lia|].
    destruct (IH fuel (pre ++ box s x) (S s)) as (P & T & E & Er); [lia|done|lia|].
    rewrite <- app_assoc in E. exists P, T. split; [done|]. cbn [find_box]. rewrite <- E, E1. run.
    rewrite (proj2 (Z.eqb_neq _ _)), (proj2 (Z.ltb_lt _ _)) by lia. rewrite E2. run. rewrite E, Nat2Z.id.
    rewrite length_app, length_box in Er. replace (s + S (length r1))%nat with (S s + length r1)%nat by lia. done.
Qed.

(** ** Matching *)

(** The answer of a filter. *)
Definition hit (hv : Z) (f : BloomFilter) : bool := forallb (bit (filter f)) (probes (bytes_ f) hv).

Lemma hit_bits bits n (m : bool) l :
  0 <= bits -> (n < 64)%nat ->
  let bits' := if m then Z.lor bits (u64 (Z.shiftl 1 (Z.of_nat n))) else bits in
  0 <= bits' /\ Z.testbit bits' (Z.of_nat l) = Z.testbit bits (Z.of_nat l) || ((l =? n)%nat && m).
Proof.
  intros Hb Hn. rewrite Z.shiftl_1_l, (u64_small (2 ^ Z.of_nat n)) by (split; [lia|apply Z.pow_lt_mono_r; lia]).
  destruct m; [|by rewrite andb_false_r, orb_false_r].
  split; [apply Z.lor_nonneg; lia|]. rewrite Z.lor_spec, Z.pow2_bits_eqb, andb_true_r by lia. f_equal.
  destruct (Nat.eqb_spec l n), (Z.eqb_spec (Z.of_nat n) (Z.of_nat l)); lia || done.
Qed.

Lemma rev_lookup_cons {A} (h : A -> bool) f gs l :
  default false (h <$> rev (f :: gs) !! l) = ((l =? length gs)%nat && h f) || default false (h <$> rev gs !! l).
Proof.
  cbn [rev]. destruct (Nat.eqb_spec l (length gs)) as [->|Hne].
  - rewrite (lookup_ge_None_2 (rev gs)), lookup_app_r, length_rev, Nat.sub_diag by (rewrite length_rev; lia).
    cbn. by rewrite orb_false_r.
  - rewrite andb_false_l, orb_false_l. destruct (decide (l < length gs)%nat).
    + by rewrite lookup_app_l by (rewrite length_rev; lia).
    + rewrite !lookup_ge_None_2; [done|rewrite length_rev; lia|rewrite length_app, length_rev; simpl; lia].
Qed.

(** One filter of a box. *)
Lemma match_box_step hv nr n i pre f tl bits :
  wf f ->
  match_box (S n) i nr (pre ++ item f ++ tl) (length pre) hv bits =
  match_box n (S i) nr (pre ++ item f ++ tl) (length (pre ++ item f)) hv
    (if hit hv f then Z.lor bits (u64 (Z.shiftl 1 (nr - Z.of_nat i - 1))) else bits).
Proof.
  intros Hf. pose proof (wf_size _ Hf) as Hs. unfold size_ok in Hs. unfold item. cbn [match_box].
  rewrite <- !app_assoc. destruct (decode_item pre f (filter f ++ tl) Hf) as (_ & E1 & E2).
  rewrite decode_uint32_spec by lia. run. rewrite E1, E2. cbn [assert negb]. run.
  rewrite <- length_app, (app_assoc pre), bloom_match_raw_spec by apply Hf. run. unfold hit. f_equal.
  rewrite app_assoc, (length_app (pre ++ _)), (wf_length _ Hf). done.
Qed.

Lemma match_box_spec hv nr tl gs : forall i pre bits,
  Forall wf gs -> Z.of_nat (i + length gs) = nr -> nr <= 64 -> 0 <= bits ->
  exists bits', match_box (length gs) i nr (pre ++ items gs ++ tl) (length pre) hv bits = Done bits' /\ 0 <= bits' /\
    forall l, Z.testbit bits' (Z.of_nat l) = Z.testbit bits (Z.of_nat l) || default false (hit hv <$> rev gs !! l).
Proof.
  induction gs as [|f gs IH]; intros i pre bits Hwf Hi Hnr Hb.
  { exists bits. cbn. split_and!; [done|done|]. intros l. by rewrite orb_false_r. }
  inversion_clear Hwf as [|?? Hf Hwf']. cbn [length] in *.
  rewrite items_cons_item, <- app_assoc, match_box_step by done.
  replace (nr - Z.of_nat i - 1) with (Z.of_nat (length gs)) by lia.
  pose proof (fun l => hit_bits bits (length gs) (hit hv f) l Hb ltac:(lia)) as Hl. cbv zeta in Hl.
  set (bits1 := if hit hv f then _ else _) in *.
  destruct (IH (S i) (pre ++ item f) bits1 Hwf' ltac:(lia) Hnr (proj1 (Hl 0%nat))) as (bits' & E & Hb' & Hl').
  rewrite <- app_assoc in E. exists bits'. split_and!; [done|done|].
  intros l. rewrite Hl', (proj2 (Hl l)), rev_lookup_cons. by rewrite orb_assoc.
Qed.

(** ** Updating *)

(** The old pages have been read up to box [i]: the page at hand is the [k]-th,
    and its boxes up to [ptr] have been passed. *)
Definition old_at (runs : list (list (list Z))) (i : nat) (st : list Z * nat * nat) : Prop :=
  exists a r1 r2 b, runs = a ++ (r1 ++ r2) :: b /\ i = (length (concat a) + length r1)%nat /\
    st = (page_of (length (concat a)) (r1 ++ r2), length a, length (boxes (length (concat a)) r1)).

(** After turn_page, box [i] is at [ptr]. *)
Definition box_at (runs : list (list (list Z))) (i : nat) (c : list Z) (st : list Z * nat * nat) : Prop :=
  exists a r1 r2 b, runs = a ++ (r1 ++ c :: r2) :: b /\ i = (length (concat a) + length r1)%nat /\
    st = (page_of (length (concat a)) (r1 ++ c :: r2), length a, length (boxes (length (concat a)) r1)).

Lemma turn_page_spec cs bc file runs i c st :
  holds cs bc file runs -> old_at runs i st -> cs !! i = Some c ->
  exists st', turn_page bc file i st = Done st' /\ box_at runs i c st'.
Proof.
  intros Hh (a & r1 & r2 & b & E & Ei & ->) Hc. unfold turn_page. rewrite (ho_lasts _ _ _ _ Hh), E.
  rewrite (load_Done _ _ _ (lasts_at a (r1 ++ r2) b)). run. rewrite length_app.
  rewrite (ho_runs _ _ _ _ Hh), E, concat_app, lookup_app_r in Hc by lia. cbn [concat] in Hc.
  replace (i - length (concat a))%nat with (length r1) in Hc by lia. rewrite <- app_assoc, lookup_app_r, Nat.sub_diag in Hc by lia.
  destruct r2 as [|x r2].
  - destruct b as [|r' b]; [done|]. pose proof (ho_ok _ _ _ _ Hh) as Hok. rewrite E in Hok.
    apply Forall_app in Hok as [_ Hok]. inversion_clear Hok as [|?? _ Hok']. inversion_clear Hok' as [|?? [Hne _] _].
    destruct r' as [|x r']; [done|]. cbn [concat app] in Hc. injection Hc as ->. rewrite app_nil_r in *. cbn [length].
    rewrite (proj2 (Z.ltb_lt _ _)) by lia.
    assert (a ++ r1 :: (c :: r') :: b = (a ++ [r1]) ++ (c :: r') :: b) as E' by (by rewrite <- app_assoc).
    rewrite E' in *. replace (S (length a)) with (length (a ++ [r1])) by (rewrite length_app; simpl; lia).
    rewrite (load_Done _ _ _ (lasts_at (a ++ [r1]) (c :: r') b)). run. cbn [length].
    rewrite (proj2 (Z.leb_le _ _)) by (rewrite concat_snoc, length_app; lia). cbn [assert]. run.
    subst runs. rewrite (read_page _ _ _ _ _ _ Hh (layout_at (a ++ [r1]) (c :: r') b)). run.
    eexists. split; [done|]. exists (a ++ [r1]), [], r', b. split_and!; [done|rewrite concat_snoc, length_app; simpl; lia|done].
  - cbn in Hc. injection Hc as ->. cbn [length]. rewrite (proj2 (Z.ltb_ge _ _)) by lia.
    eexists. split; [done|]. by exists a, r1, r2, b.
Qed.

Lemma box_read runs i c st :
  box_at runs i c st -> Forall run_ok runs -> Z.of_nat i < 65536 ->
  exists P T, st.1.1 = P ++ box i c ++ T /\ st.2 = length P /\ (4 + length c <= BARREL_ALIGN)%nat /\
    old_at runs (S i) (st.1.1, st.1.2, (st.2 + (4 + length c))%nat).
Proof.
  intros (a & r1 & r2 & b & -> & Ei & ->) Hok Hi. cbn [fst snd].
  apply Forall_app in Hok as [_ Hok]. inversion_clear Hok as [|?? [_ Hfit] _].
  specialize (Hfit (length (concat a))). rewrite boxes_app, length_app in Hfit. cbn [boxes] in Hfit. rewrite length_app, length_box in Hfit.
  exists (boxes (length (concat a)) r1). eexists. split_and!; [|done|lia|].
  - unfold page_of at 1. rewrite boxes_app, <- app_assoc. cbn [boxes]. rewrite <- Ei, <- app_assoc. done.
  - exists a, (r1 ++ [c]), r2, b. rewrite <- app_assoc. split_and!; [done|rewrite length_app; simpl; lia|].
    rewrite boxes_app, length_app. cbn [boxes]. rewrite app_nil_r, length_box. done.
Qed.

Definition put_new (f : BloomFilter) (c : list Z) : list Z := item f ++ c.

Lemma update_loop_spec cs bc file runs fs : forall csb csa pre tl ws w st,
  holds cs bc file runs -> cs = csb ++ csa -> length fs = length csa -> length ws = length csb ->
  Forall wf fs -> Forall (fun c => 4 + length c <= BARREL_ALIGN)%nat (zip_with put_new fs csa) ->
  (length cs <= TABLE_MAX_BARRELS)%nat -> old_at runs (length ws) st -> writer_of ws w ->
  exists w', update_loop (length fs) (length ws) bc file (pre ++ items fs ++ tl) (length pre) st w = Done w' /\
    writer_of (ws ++ zip_with put_new fs csa) w' /\ ((0 < off_page w)%nat \/ fs <> [] -> (0 < off_page w')%nat).
Proof.
  induction fs as [|f fs IH]; intros csb csa pre tl ws w st Hh Hcs Hl Hws Hwf Hfit Hn Hold Hw.
  { exists w. cbn. rewrite app_nil_r. split_and!; [done|done|]. by intros [?|?]. }
  destruct csa as [|c csa]; [done|]. cbn [length zip_with] in *.
  inversion_clear Hwf as [|?? Hf Hwf']. inversion_clear Hfit as [|?? Hff Hfit']. pose proof barrels_value as HT. pose proof barrel_value as HB.
  assert (length cs = length csb + S (length csa))%nat as Hlen by (rewrite Hcs, length_app; done).
  cbn [update_loop]. rewrite items_cons_item, <- app_assoc, table_item_spec by done. run.
  destruct (turn_page_spec cs bc file runs (length ws) c st Hh Hold) as (((old & k) & p) & -> & Hbox);
    [rewrite Hcs, Hws; apply list_lookup_middle; done|]. run.
  destruct (box_read _ _ _ _ Hbox (ho_ok _ _ _ _ Hh) ltac:(lia)) as (P & T & Eold & Ep & Hfc & Hold'). cbn [fst snd] in *.
  destruct (read_box P (length ws) c T p) as [E1 E2]; [lia..|done|].
  rewrite Eold, E1. run. rewrite Z.eqb_refl. cbn [assert]. run. rewrite E2. run. rewrite Nat2Z.id.
  unfold put_new in Hff. rewrite length_app in Hff.
  destruct (open_box_spec ws w (length c + length (item f)) Hw ltac:(lia) ltac:(lia)) as (w1 & -> & Hp1 & Hroom & Hput). run.
  rewrite memcpy_mid by lia. run.
  destruct (box_split (length ws) c) as (h & Eb & Hh4).
  assert (P ++ box (length ws) c ++ T = (P ++ h) ++ c ++ T) as Esp by (rewrite Eb, <- !app_assoc; done).
  rewrite Ep, Esp. replace (length P + 4)%nat with (length (P ++ h)) by (rewrite length_app; lia).
  rewrite memcpy_mid by (rewrite length_splice; lia). run.
  rewrite splice_at by lia. specialize (Hput (item f ++ c) ltac:(rewrite length_app; lia)).
  match type of Hput with writer_of _ ?x => destruct (IH (csb ++ [c]) csa (pre ++ item f) tl (ws ++ [item f ++ c]) x (old, k, (p + (4 + length c))%nat) Hh) as (w2 & E & Hw2 & Ho2);
    [by rewrite Hcs, <- app_assoc|lia|rewrite !length_app; simpl; lia|done|done|done|rewrite length_app, Nat.add_1_r; done|exact Hput|] end.
  rewrite !length_app, <- !app_assoc in E. cbn [length] in E. rewrite Nat.add_1_r in E.
  rewrite <- Esp, <- Eold, <- Ep. rewrite E.
  exists w2. rewrite <- app_assoc in Hw2. split_and!; [done|done|]. intros _. apply Ho2. left. cbn. lia.
Qed.

(** ** The tables a container has taken in *)

(** The filters of barrel [j], oldest table first. *)
Definition column (j : nat) (tss : list (list BloomFilter)) : list BloomFilter := omap (fun fs => fs !! j) tss.

(** Tables with [n] wellformed filters each whose boxes fit on a page; a match
    has 64 bits for the tables. *)
Record tables_ok (n : nat) (tss : list (list BloomFilter)) : Prop := {
  tk_some : (0 < n <= TABLE_MAX_BARRELS)%nat;
  tk_length : Forall (fun fs => length fs = n) tss;
  tk_wf : Forall (Forall wf) tss;
  tk_fit : forall j, (j < n)%nat -> (4 + length (items (column j tss)) <= BARREL_ALIGN)%nat;
  tk_bits : (length tss <= 64)%nat }.

(** The boxes hold the columns, the newest filter first. *)
Definition stores (n : nat) (tss : list (list BloomFilter)) (bc : BloomContainer) (file : list Z) : Prop :=
  exists gs runs, holds (items <$> gs) bc file runs /\ length gs = n /\
    (forall j g, gs !! j = Some g -> g = rev (column j tss)) /\ nr_bf_per_box bc = Z.of_nat (length tss).

Lemma column_app j a b : column j (a ++ b) = column j a ++ column j b.
Proof. apply omap_app. Qed.

Lemma column_lookup n j tss : forall l, Forall (fun fs => length fs = n) tss -> (j < n)%nat -> column j tss !! l = tss !! l ≫= (fun fs => fs !! j).
Proof.
  induction tss as [|fs tss IH]; intros l H Hj; [done|]. inversion_clear H as [|?? Hfs Ht]. unfold column in *. cbn [omap list_omap].
  destruct (lookup_lt_is_Some_2 fs j) as [f Ef]; [lia|]. rewrite Ef. destruct l as [|l]; [by cbn|]. cbn. by apply IH.
Qed.

Lemma length_column n j tss : Forall (fun fs => length fs = n) tss -> (j < n)%nat -> length (column j tss) = length tss.
Proof.
  induction 1 as [|fs tss Hfs _ IH]; intros Hj; [done|]. unfold column in *. cbn [omap list_omap].
  destruct (lookup_lt_is_Some_2 fs j) as [f ->]; [lia|]. cbn [length]. by rewrite IH.
Qed.

Lemma column_wf j tss : Forall (Forall wf) tss -> Forall wf (column j tss).
Proof.
  induction 1 as [|fs tss Hfs _ IH]; [constructor|]. unfold column in *. cbn [omap list_omap].
  destruct (fs !! j) as [f|] eqn:E; [|done]. constructor; [eapply (Forall_lookup_1 _ fs); eauto|done].
Qed.

Lemma length_items_rev l : length (items (rev l)) = length (items l).
Proof.
  induction l as [|f l IH]; [done|]. cbn [rev]. rewrite items_app, !items_cons_item, !length_app, IH.
  change (items []) with (@nil Z). cbn [length]. lia.
Qed.

Lemma tables_ok_prefix n a b : tables_ok n (a ++ b) -> tables_ok n a.
Proof.
  intros [H1 H2 H3 H4 H5]. rewrite Forall_app in H2, H3. rewrite length_app in H5. split; [done|tauto|tauto| |lia].
  intros j Hj. specialize (H4 j Hj). rewrite column_app, items_app, length_app in H4. lia.
Qed.

Lemma tables_ok_last n a fs : tables_ok n (a ++ [fs]) -> length fs = n /\ Forall wf fs.
Proof. intros [_ H2 H3 _ _]. rewrite !Forall_app, !Forall_singleton in *. tauto. Qed.

Lemma build_stores n fs bt file off nr :
  table_of fs bt -> tables_ok n [fs] ->
  exists bc file' nr', bloomcontainer_build bt file off nr = Done (bc, file', nr') /\ stores n [fs] bc file' /\ off_raw bc = off /\
    exists data, file' = pwrite file data off /\ (length data <= BARREL_ALIGN * n)%nat.
Proof.
  intros Ht Hok. destruct (tables_ok_last n [] fs Hok) as [Hl Hwf]. pose proof (tk_some _ _ Hok) as Hn.
  pose proof barrels_value as HT. destruct (to_raw _ _ Ht) as [tl Hraw].
  unfold bloomcontainer_build. rewrite Hraw, (to_nr _ _ Ht), Nat2Z.id, (proj2 (Z.ltb_lt _ _)) by lia. cbn [assert]. run.
  assert (Forall (fun f => 4 + length (item f) <= BARREL_ALIGN)%nat fs) as Hfit.
  { apply Forall_lookup_2. intros j f Hj. pose proof (lookup_lt_Some _ _ _ Hj). pose proof (tk_fit _ _ Hok j ltac:(lia)) as H4.
    unfold column in H4. cbn [omap list_omap] in H4. rewrite Hj, items_cons_item, length_app in H4. lia. }
  destruct (build_loop_spec fs [] tl [] first_page Hwf Hfit ltac:(simpl; lia) first_page_of) as (w & E & Hw & Ho).
  cbn [app length] in E, Hw. rewrite E. run.
  assert (length (item <$> fs) = length fs) as Hm by apply length_fmap.
  destruct (holds_written _ w file off 1 Hw) as (runs & ids & Ec & Hh); [apply Ho; right; intros ->; simpl in *; lia|lia|].
  rewrite Hm in *. rewrite Ec. run. pose proof (holds_size _ _ _ _ Hh) as Hsz. do 3 eexists.
  split; [done|]. split; [|split; [done|eexists; split; [done|rewrite Hm in Hsz; subst n; exact Hsz]]].
  exists ((fun f => [f]) <$> fs), runs. rewrite length_fmap. split_and!; [|done| |done].
  - rewrite <- list_fmap_compose. erewrite list_fmap_ext; [exact Hh|]. intros j f _. cbn. by rewrite app_nil_r.
  - intros j g Hg. rewrite list_lookup_fmap in Hg. unfold column. cbn [omap list_omap].
    destruct (fs !! j); [|done]. by injection Hg as <-.
Qed.

Lemma zip_put fs gs : zip_with put_new fs (items <$> gs) = items <$> zip_with cons fs gs.
Proof. revert gs. induction fs as [|f fs IH]; intros [|g gs]; [done..|]. cbn [zip_with fmap list_fmap]. f_equal. apply IH. Qed.

Lemma update_stores n tss fs bc bt file new_file off nr :
  stores n tss bc file -> table_of fs bt -> tables_ok n (tss ++ [fs]) ->
  exists bc' file' nr', bloomcontainer_update bc bt file new_file off nr = Done (bc', file', nr') /\
    stores n (tss ++ [fs]) bc' file' /\ off_raw bc' = off /\
    exists data, file' = pwrite new_file data off /\ (length data <= BARREL_ALIGN * n)%nat.
Proof.
  intros (gs & runs & Hh & Hgl & Hgs & Hk) Ht Hok. destruct (tables_ok_last n tss fs Hok) as [Hl Hwf].
  pose proof (tk_some _ _ Hok) as Hn. pose proof (tk_bits _ _ Hok) as Hb. rewrite length_app in Hb. cbn [length] in Hb.
  pose proof barrels_value as HT. destruct (to_raw _ _ Ht) as [tl Hraw]. pose proof (ho_barrels _ _ _ _ Hh) as Hnb. rewrite length_fmap in Hnb.
  unfold bloomcontainer_update. rewrite Hraw, (to_nr _ _ Ht), Nat2Z.id, Hnb, Hgl, Hl, Z.eqb_refl. cbn [assert]. run.
  assert (forall j g, zip_with cons fs gs !! j = Some g -> g = rev (column j (tss ++ [fs]))) as Hnew.
  { intros j g Hj. apply lookup_zip_with_Some in Hj as (f & g0 & -> & Hf & Hg0). rewrite column_app, rev_app_distr, (Hgs _ _ Hg0).
    unfold column at 2. cbn [omap list_omap]. by rewrite Hf. }
  assert (old_at runs 0 (page_of 0 (default [] (head runs)), O, O) /\ pread file BARREL_ALIGN (off_raw bc) = Done (page_of 0 (default [] (head runs)))) as [Hold ->].
  { destruct runs as [|r b]; [pose proof (ho_runs _ _ _ _ Hh) as Hr; destruct gs; simpl in *; [lia|done]|]. split.
    - by exists [], [], r, b.
    - pose proof (read_page _ _ _ _ 0 _ Hh eq_refl) as E. by rewrite Nat.mul_0_l, Nat.add_0_r in E. }
  run. destruct (update_loop_spec _ bc file runs fs [] (items <$> gs) [] tl [] first_page
    (page_of 0 (default [] (head runs)), O, O) Hh eq_refl) as (w & E & Hw & Ho);
    [rewrite length_fmap; lia|done|done| |rewrite length_fmap; lia|exact Hold|apply first_page_of|].
  { rewrite zip_put. apply Forall_fmap, Forall_lookup_2. intros j g Hj. pose proof (lookup_lt_Some _ _ _ Hj) as Hjn.
    rewrite length_zip_with in Hjn. cbn. rewrite (Hnew j g Hj), length_items_rev. apply (tk_fit _ _ Hok). lia. }
  cbn [app length] in E, Hw. rewrite Hl in E. rewrite E. run. rewrite zip_put in Hw.
  assert (length (items <$> zip_with cons fs gs) = n) as Hm by (rewrite length_fmap, length_zip_with; lia).
  destruct (holds_written _ w new_file off (u32 (nr_bf_per_box bc + 1)) Hw) as (runs' & ids & Ec & Hh');
    [apply Ho; right; intros ->; simpl in *; lia|lia|].
  rewrite Hm in *. rewrite Ec. run. pose proof (holds_size _ _ _ _ Hh') as Hsz. rewrite Hm in Hsz. do 3 eexists.
  split; [done|]. split; [|split; [done|by eexists]].
  exists (zip_with cons fs gs), runs'. split_and!; [exact Hh'|by rewrite length_fmap in Hm|done|].
  cbn [nr_bf_per_box]. rewrite Hk, length_app, u32_small by (unfold is_u32; lia). cbn. lia.
Qed.

Lemma hit_match hv f : wf f -> bloom_match f hv = Done (hit hv f).
Proof. apply bloom_match_spec. Qed.

Lemma run_box_small r c : run_ok r -> c ∈ r -> Z.of_nat (length c) < 65536.
Proof.
  intros [_ H] Hc. pose proof barrel_value as HB. specialize (H O). apply list_elem_of_split in Hc as (a & b & ->).
  rewrite boxes_app in H. cbn [boxes] in H. rewrite !length_app, length_box in H. lia.
Qed.

Lemma match_stores n tss bc file j hv :
  stores n tss bc file -> tables_ok n tss -> (j < n)%nat ->
  exists bits, bloomcontainer_match bc file (Z.of_nat j) hv = Done bits /\ 0 <= bits /\
    forall l, Z.testbit bits (Z.of_nat l) = default false (hit hv <$> column j tss !! l).
Proof.
  intros (gs & runs & Hh & Hgl & Hgs & Hk) Hok Hj. pose proof (tk_some _ _ Hok) as Hn. pose proof (tk_bits _ _ Hok) as Hb.
  pose proof barrels_value as HT. destruct (lookup_lt_is_Some_2 gs j) as [g Hg]; [lia|].
  pose proof (Hgs _ _ Hg) as Eg.
  assert ((items <$> gs) !! j = Some (items g)) as Hc by (rewrite list_lookup_fmap, Hg; done).
  rewrite (ho_runs _ _ _ _ Hh) in Hc. apply locate in Hc as (a & r1 & r2 & b & Er & Ej). subst runs.
  pose proof (ho_ok _ _ _ _ Hh) as Hruns. apply Forall_app in Hruns as [_ Hruns]. inversion_clear Hruns as [|?? Hr _].
  unfold bloomcontainer_match, bloomcontainer_fetch_raw. rewrite (ho_count _ _ _ _ Hh), Nat2Z.id, length_app. cbn [length].
  replace (length a + S (length b))%nat with (S (length a) + length b)%nat by lia.
  rewrite (fetch_loop_spec _ _ _ _ _ _ j (length a) 0 Hh) by (rewrite ?length_app; cbn [length]; lia). run.
  destruct (find_box_spec bc (items g) r2 (replicate (BARREL_ALIGN - length (boxes (length (concat a)) (r1 ++ items g :: r2))) 0) hv r1
    BARREL_ALIGN [] (length (concat a))) as (P & T & E & Ef).
  - destruct Hr as [_ Hr]. specialize (Hr O). pose proof (length_boxes_ge 0 (r1 ++ items g :: r2)) as Hge.
    rewrite length_app in Hge. cbn [length] in Hge. lia.
  - apply Forall_forall. intros c Hc. apply (run_box_small (r1 ++ items g :: r2) c Hr). set_solver.
  - lia.
  - cbn [app length] in E, Ef. unfold page_of. rewrite E, Ej, Ef. unfold bloomcontainer_match_nr. rewrite Hk, Nat2Z.id.
    assert (length tss = length g) as El by (rewrite Eg, length_rev; symmetry; apply (length_column n); [apply Hok|lia]).
    destruct (match_box_spec hv (Z.of_nat (length tss)) T g 0 P 0) as (bits & Em & Hb0 & Hbits);
      [rewrite Eg; apply Forall_rev, column_wf, Hok|lia|lia|lia|].
    rewrite <- El in Em. exists bits. split_and!; [done|done|]. intros l. rewrite Hbits, Z.bits_0, Eg, rev_involutive. by rewrite orb_false_l, <- Ej.
Qed.

(** ** The description on disk *)

Lemma read16_le ids : Forall (fun v => 0 <= v < 65536) ids -> read16 (length ids) (concat (le 2 <$> ids)) = ids.
Proof.
  induction 1 as [|v ids Hv _ IH]; [done|]. cbn [length read16 fmap list_fmap concat].
  rewrite take_app_length', drop_app_length' by (by rewrite length_le). by rewrite le_value_le, IH by lia.
Qed.

Lemma length_le_list (ids : list Z) : length (concat (le 2 <$> ids)) = (2 * length ids)%nat.
Proof. induction ids as [|v ids IH]; [done|]. rewrite fmap_cons. cbn [concat length]. rewrite length_app, length_le, IH. lia. Qed.

Lemma fread_le n v tl : fread (le n v ++ tl) n = Done (le n v, tl).
Proof. pose proof (fread_app (le n v) tl) as E. by rewrite length_le in E. Qed.

Lemma meta_roundtrip n tss bc file fo fi :
  stores n tss bc file -> tables_ok n tss -> Z.of_nat (off_raw bc) < 2 ^ 64 ->
  exists data, bloomcontainer_dump_meta bc fo = Done (fo ++ data) /\ bloomcontainer_load_meta (data ++ fi) = Done (bc, fi).
Proof.
  intros (gs & runs & Hh & Hgl & _ & Hk) Hok Hoff. pose proof (tk_some _ _ Hok) as Hn. pose proof (tk_bits _ _ Hok) as Hb.
  pose proof barrels_value as HT. pose proof (ho_ok _ _ _ _ Hh) as Hr. pose proof (runs_le runs Hr) as Hrl.
  pose proof (ho_runs _ _ _ _ Hh) as Hcs. rewrite <- Hcs, length_fmap in Hrl.
  pose proof (ho_barrels _ _ _ _ Hh) as Hnb. rewrite length_fmap in Hnb.
  pose proof (ho_count _ _ _ _ Hh) as Hni. pose proof (ho_lasts _ _ _ _ Hh) as Hix.
  assert (Forall (fun v => 0 <= v < 65536) (index_last bc)) as Hids.
  { rewrite Hix. pose proof (lasts_before runs 0 Hr) as Hu. rewrite <- Hcs, length_fmap in Hu.
    assert (forall s, Forall (fun v => 0 <= v) (lasts s runs)) as Hl.
    { clear - Hr. induction Hr as [|r rs [Hne _] _ IH]; intros s; [constructor|]. constructor; [destruct r; [done|simpl; lia]|apply IH]. }
    apply Forall_lookup_2. intros i v Hv. pose proof (Forall_lookup_1 _ _ _ _ Hu Hv). pose proof (Forall_lookup_1 _ _ _ _ (Hl O) Hv). cbn in *. lia. }
  assert (Z.to_nat (nr_index bc) = length (index_last bc)) as El by (rewrite Hni, Hix, length_lasts; lia).
  unfold bloomcontainer_dump_meta. rewrite El, (proj2 (Nat.leb_le _ _)), firstn_all by lia. run.
  eexists. split; [done|]. unfold bloomcontainer_load_meta. rewrite <- !app_assoc.
  do 4 (rewrite fread_le; run). rewrite !le_value_le by lia. rewrite El, <- length_le_list, fread_app. run.
  rewrite Nat2Z.id, read16_le by done. by destruct bc.
Qed.

(** ** The whole life of a container *)

Lemma below_pow2 x n : 0 <= x -> 0 <= n -> (forall i, n <= i -> Z.testbit x i = false) -> x < 2 ^ n.
Proof.
  intros Hx Hn H. assert (x = x mod 2 ^ n) as ->; [|apply Z.mod_pos_bound; lia].
  apply Z.bits_inj'. intros i Hi. destruct (Z.lt_ge_cases i n); [by rewrite Z.mod_pow2_bits_low|].
  rewrite Z.mod_pow2_bits_high by lia. by apply H.
Qed.

(** ** Tables that were taken in fit on pages *)

Lemma assert_Done b u : assert b = Done u -> b = true.
Proof. by destruct b. Qed.

Lemma open_box_fits w i n w' : open_box w i n = Done w' -> (4 + n <= BARREL_ALIGN)%nat.
Proof.
  unfold open_box. intros E. apply bind_Done_inv in E as (w1 & E1 & _). destruct (Nat.ltb_spec BARREL_ALIGN (off_page w + (4 + n))); [|lia].
  unfold next_page in E1. apply bind_Done_inv in E1 as (p & _ & E1). apply bind_Done_inv in E1 as (ids & _ & E1). apply bind_Done_inv in E1 as (u & E1 & _).
  by apply assert_Done, Nat.leb_le in E1.
Qed.

Lemma build_fits fs : forall pre tl i w w',
  Forall wf fs -> build_loop (length fs) i (pre ++ items fs ++ tl) (length pre) w = Done w' ->
  Forall (fun f => 4 + length (item f) <= BARREL_ALIGN)%nat fs.
Proof.
  induction fs as [|f fs IH]; intros pre tl i w w' Hwf E; [constructor|]. inversion_clear Hwf as [|?? Hf Hwf']. cbn [length build_loop] in E.
  rewrite items_cons_item, <- app_assoc, table_item_spec in E by done. cbn [mbind exec_bind] in E. apply bind_Done_inv in E as (w1 & E1 & E).
  apply bind_Done_inv in E as (pg & _ & E). constructor; [by eapply open_box_fits|].
  rewrite app_assoc, <- length_app in E. by eapply (IH (pre ++ item f)).
Qed.

Lemma update_fits cs bc file runs fs : forall csb csa pre tl st w w',
  holds cs bc file runs -> cs = csb ++ csa -> length fs = length csa -> Forall wf fs -> (length cs <= TABLE_MAX_BARRELS)%nat ->
  old_at runs (length csb) st -> update_loop (length fs) (length csb) bc file (pre ++ items fs ++ tl) (length pre) st w = Done w' ->
  Forall (fun c => 4 + length c <= BARREL_ALIGN)%nat (zip_with put_new fs csa).
Proof.
  induction fs as [|f fs IH]; intros csb csa pre tl st w w' Hh Hcs Hl Hwf Hn Hold E; [constructor|]. destruct csa as [|c csa]; [done|]. cbn [length zip_with] in *.
  inversion_clear Hwf as [|?? Hf Hwf']. pose proof barrels_value as HT. pose proof barrel_value as HB.
  assert (length cs = length csb + S (length csa))%nat as Hlen by (rewrite Hcs, length_app; done).
  cbn [update_loop] in E. rewrite items_cons_item, <- app_assoc, table_item_spec in E by done. cbn [mbind exec_bind] in E.
  destruct (turn_page_spec cs bc file runs (length csb) c st Hh Hold) as (((old & k) & p) & Et & Hbox);
    [rewrite Hcs; by apply list_lookup_middle|]. rewrite Et in E. cbn [mbind exec_bind] in E.
  destruct (box_read _ _ _ _ Hbox (ho_ok _ _ _ _ Hh) ltac:(lia)) as (P & T & Eold & Ep & Hfc & Hold'). cbn [fst snd] in *.
  destruct (read_box P (length csb) c T p) as [E1 E2]; [lia..|done|].
  rewrite Eold, E1 in E. cbn [mbind exec_bind] in E. rewrite Z.eqb_refl in E. cbn [assert mbind exec_bind] in E. rewrite E2 in E. cbn [mbind exec_bind] in E.
  rewrite Nat2Z.id in E. apply bind_Done_inv in E as (w1 & Eo & E). apply bind_Done_inv in E as (pg & _ & E). apply bind_Done_inv in E as (pg' & _ & E).
  constructor; [apply open_box_fits in Eo; unfold put_new; rewrite length_app; lia|].
  rewrite app_assoc, <- length_app in E. replace (S (length csb)) with (length (csb ++ [c])) in E by (rewrite length_app; cbn; lia).
  rewrite <- Eold in E. refine (IH (csb ++ [c]) csa (pre ++ item f) tl _ _ w' Hh _ _ Hwf' Hn _ E); [by rewrite Hcs, <- app_assoc|lia|].
  rewrite length_app, Nat.add_1_r. exact Hold'.
Qed.

Section container.
Context (n : nat) (Hn : (0 < n <= TABLE_MAX_BARRELS)%nat).

Lemma build_kept fs bt file off nr bc file' nr' :
  table_of fs bt -> Forall wf fs -> length fs = n -> bloomcontainer_build bt file off nr = Done (bc, file', nr') ->
  tables_ok n [fs] /\ stores n [fs] bc file' /\ off_raw bc = off /\ exists data, file' = pwrite file data off /\ (length data <= BARREL_ALIGN * n)%nat.
Proof using Hn.
  intros Ht Hwf Hl E. assert (tables_ok n [fs]) as Hok.
  { split; [done|by constructor|by constructor| |cbn; lia]. intros j Hj. unfold column. cbn [omap list_omap]. destruct (lookup_lt_is_Some_2 fs j) as [f Ef]; [lia|]. rewrite Ef.
    unfold bloomcontainer_build in E. apply bind_Done_inv in E as (u & _ & E). apply bind_Done_inv in E as (w & E & _).
    destruct (to_raw _ _ Ht) as [tl Hraw]. rewrite Hraw, (to_nr _ _ Ht), Nat2Z.id in E. apply (build_fits fs [] tl) in E; [|done].
    pose proof (Forall_lookup_1 _ _ _ _ E Ef) as Hf. cbn in Hf. cbn. rewrite app_nil_r. done. }
  destruct (build_stores n fs bt file off nr Ht Hok) as (bc1 & f1 & n1 & E1 & Hs & Ho & Hd). rewrite E in E1. injection E1 as <- <- <-. done.
Qed.

Lemma update_kept tss fs bc bt file new_file off nr bc' file' nr' :
  stores n tss bc file -> tables_ok n tss -> (length tss < 64)%nat -> table_of fs bt -> Forall wf fs -> length fs = n ->
  bloomcontainer_update bc bt file new_file off nr = Done (bc', file', nr') ->
  tables_ok n (tss ++ [fs]) /\ stores n (tss ++ [fs]) bc' file' /\ off_raw bc' = off /\
  exists data, file' = pwrite new_file data off /\ (length data <= BARREL_ALIGN * n)%nat.
Proof using Hn.
  intros Hst Htk H64 Ht Hwf Hl E. assert (tables_ok n (tss ++ [fs])) as Hok.
  { destruct Htk as [_ K2 K3 _ _]. split; [done|apply Forall_app; split; [done|by constructor]|apply Forall_app; split; [done|by constructor]| |rewrite length_app; cbn; lia].
    intros j Hj. destruct Hst as (gs & runs & Hh & Hgl & Hgs & Hk). destruct (to_raw _ _ Ht) as [tl Hraw]. pose proof (ho_barrels _ _ _ _ Hh) as Hnb. rewrite length_fmap in Hnb.
    unfold bloomcontainer_update in E. apply bind_Done_inv in E as (u & _ & E). apply bind_Done_inv in E as (old & Er & E). apply bind_Done_inv in E as (w & E & _).
    rewrite Hraw, (to_nr _ _ Ht), Nat2Z.id in E.
    assert (old_at runs 0 (old, O, O)) as Hold.
    { destruct runs as [|r b]; [pose proof (ho_runs _ _ _ _ Hh) as Hr; destruct gs; simpl in *; [lia|done]|].
      pose proof (read_page _ _ _ _ 0 _ Hh eq_refl) as E0. rewrite Nat.mul_0_l, Nat.add_0_r, Er in E0. injection E0 as ->. by exists [], [], r, b. }
    apply (update_fits (items <$> gs) bc file runs fs [] (items <$> gs) [] tl) in E; [|done|done|rewrite length_fmap; lia|done|rewrite length_fmap; lia|done].
    destruct (lookup_lt_is_Some_2 fs j) as [f Ef]; [lia|]. destruct (lookup_lt_is_Some_2 gs j) as [g Eg]; [lia|].
    rewrite zip_put in E. apply Forall_fmap in E.
    pose proof (Forall_lookup_1 _ _ j (f :: g) E ltac:(apply lookup_zip_with_Some; by exists f, g)) as Hf. cbn [compose] in Hf.
    rewrite column_app, items_app, length_app. unfold column at 2. cbn [omap list_omap]. rewrite Ef. rewrite items_cons_item, length_app, (Hgs _ _ Eg), length_items_rev in Hf.
    rewrite items_cons_item, length_app. change (items []) with (@nil Z). cbn [length]. unfold items in *. lia. }
  destruct (update_stores n tss fs bc bt file new_file off nr Hst Ht Hok) as (bc1 & f1 & n1 & E1 & Hs & Ho & Hd). rewrite E in E1. injection E1 as <- <- <-. done.
Qed.
End container.

Section life.
Context (junk : nat -> list Z) (Hjunk : forall n, length (junk n) = n).

(** The updates of a container, each with the filters of its table, the file it
    writes and the position there. *)
Fixpoint ingest (steps : list (list BloomFilter * list Z * nat)) (bc : BloomContainer) (file : list Z) (nr_write_bc : Z)
    : exec (BloomContainer * list Z * Z) :=
  match steps with
  | [] => Done (bc, file, nr_write_bc)
  | (fs, new_file, new_off) :: steps' =>
      bt ← bloomtable_build junk fs;
      r ← bloomcontainer_update bc bt file new_file new_off nr_write_bc;
      let '(bc, file, nr_write_bc) := r in ingest steps' bc file nr_write_bc
  end.

(** The container of the first table, and the updates. *)
Definition life (fs : list BloomFilter) (file : list Z) (off : nat) (steps : list (list BloomFilter * list Z * nat))
    : exec (BloomContainer * list Z * Z) :=
  bt ← bloomtable_build junk fs;
  r ← bloomcontainer_build bt file off 0;
  let '(bc, file, nr_write_bc) := r in ingest steps bc file nr_write_bc.

Lemma items_bound fs : (forall j, (j < length fs)%nat -> (4 + length (items (column j [fs])) <= BARREL_ALIGN)%nat) ->
  Z.of_nat (length (items fs)) <= 4096 * Z.of_nat (length fs).
Proof.
  pose proof barrel_value as HB. induction fs as [|f fs IH]; intros H; [done|]. rewrite items_cons_item, length_app. cbn [length] in *.
  assert (Z.of_nat (length (items fs)) <= 4096 * Z.of_nat (length fs)) by (apply IH; intros j Hj; apply (H (S j)); lia).
  specialize (H O ltac:(lia)). cbn [column omap list_omap lookup list_lookup] in H. rewrite items_cons_item, length_app in H. lia.
Qed.

Lemma tables_ok_each n a fs b : tables_ok n (a ++ fs :: b) -> tables_ok n [fs].
Proof.
  intros [H1 H2 H3 H4 H5]. rewrite Forall_app, Forall_cons in H2, H3. rewrite length_app in H5. cbn [length] in *.
  split; [done|apply Forall_singleton; tauto|apply Forall_singleton; tauto| |cbn; lia].
  intros j Hj. specialize (H4 j Hj). change (fs :: b) with ([fs] ++ b) in H4. rewrite !column_app, !items_app, !length_app in H4. lia.
Qed.

Lemma build_table n a fs b : tables_ok n (a ++ fs :: b) -> exists bt, bloomtable_build junk fs = Done bt /\ table_of fs bt.
Proof using Hjunk.
  intros H. apply tables_ok_each in H. pose proof barrels_value. destruct (tables_ok_last n [] fs H) as [Hl Hwf].
  pose proof (tk_some _ _ H). apply bloomtable_build_spec; [done|done|].
  assert (Z.of_nat (length (items fs)) <= 4096 * Z.of_nat (length fs)) by (apply items_bound; intros j Hj; apply (tk_fit _ _ H); lia). lia.
Qed.

Lemma ingest_stores n steps : forall tss bc file nr,
  stores n tss bc file -> tables_ok n (tss ++ steps.*1.*1) ->
  Z.of_nat (off_raw bc) < 2 ^ 64 -> Forall (fun st => Z.of_nat st.2 < 2 ^ 64) steps ->
  exists bc' file' nr', ingest steps bc file nr = Done (bc', file', nr') /\
    stores n (tss ++ steps.*1.*1) bc' file' /\ Z.of_nat (off_raw bc') < 2 ^ 64.
Proof using Hjunk.
  induction steps as [|((fs & nf) & no) steps IH]; intros tss bc file nr Hs Hok Ho Hos.
  { cbn in *. rewrite app_nil_r in *. by exists bc, file, nr. }
  inversion_clear Hos as [|?? Hno Hos1]. cbn [ingest fst snd fmap list_fmap] in *.
  destruct (build_table _ _ _ _ Hok) as (bt & -> & Hbt). run.
  rewrite cons_middle, app_assoc in Hok |- *.
  destruct (update_stores n tss fs bc bt file nf no nr Hs Hbt) as (bc1 & file1 & nr1 & -> & Hs1 & Ho1 & _); [by eapply tables_ok_prefix|].
  run. apply IH; [done|done|by rewrite Ho1|done].
Qed.

(** Tables with [n] wellformed filters each, as many as a match has bits. *)
Record tables_shape (n : nat) (tss : list (list BloomFilter)) : Prop := {
  ts_some : (0 < n <= TABLE_MAX_BARRELS)%nat;
  ts_length : Forall (fun fs => length fs = n) tss;
  ts_wf : Forall (Forall wf) tss;
  ts_bits : (length tss <= 64)%nat }.

(** The filters of each barrel, of all the tables, fit on one page. *)
Definition pages_fit (n : nat) (tss : list (list BloomFilter)) : Prop :=
  forall j, (j < n)%nat -> (4 + length (items (column j tss)) <= BARREL_ALIGN)%nat.

Lemma tables_ok_shape n tss : tables_shape n tss -> pages_fit n tss -> tables_ok n tss.
Proof. intros [] H. by split. Qed.

(** The 32-bit size of the memory for the filters of a table does not wrap. *)
Definition raw_fits (fs : list BloomFilter) : Prop := Z.of_nat (length (items fs)) + 8 < 2 ^ 32.

(** Updates that return have filled no page too far. *)
Lemma ingest_fits n steps : forall tss bc file nr r,
  stores n tss bc file -> tables_ok n tss -> tables_shape n (tss ++ steps.*1.*1) -> Forall raw_fits steps.*1.*1 ->
  ingest steps bc file nr = Done r -> pages_fit n (tss ++ steps.*1.*1).
Proof using Hjunk.
  induction steps as [|((fs & nf) & no) steps IH]; intros tss bc file nr r Hs Hok Hsh Hraw E.
  { cbn [fmap list_fmap] in *. rewrite app_nil_r in *. exact (tk_fit _ _ Hok). }
  cbn [fmap list_fmap fst ingest] in *. inversion_clear Hraw as [|?? Hfs Hraw']. destruct Hsh as [S1 S2 S3 S4].
  pose proof S2 as S2'. pose proof S3 as S3'. rewrite Forall_app, Forall_cons in S2', S3'. rewrite length_app in S4. cbn [length] in S4.
  destruct (bloomtable_build_spec junk Hjunk fs (proj1 (proj2 S3')) Hfs) as (bt & Eb & Ht). rewrite Eb in E. cbn [mbind exec_bind] in E.
  apply bind_Done_inv in E as ([[bc1 file1] nr1] & Eu & E).
  destruct (update_kept n S1 tss fs bc bt file nf no nr bc1 file1 nr1 Hs Hok ltac:(lia) Ht (proj1 (proj2 S3')) (proj1 (proj2 S2')) Eu) as (Hok1 & Hs1 & _).
  rewrite cons_middle, app_assoc in S2, S3 |- *. eapply IH; [exact Hs1|done| |done|exact E]. split; try done. rewrite !length_app. cbn [length]. lia.
Qed.

Lemma life_fits n fs file off steps r :
  let tss := fs :: steps.*1.*1 in
  tables_shape n tss -> Forall raw_fits tss -> life fs file off steps = Done r -> pages_fit n tss.
Proof using Hjunk.
  intros tss Hsh Hraw E. destruct (Hsh) as [S1 S2 S3 S4]. apply Forall_cons in S2 as [Hl _], S3 as [Hw _], Hraw as [Hfs Hraw]. unfold life in E.
  destruct (bloomtable_build_spec junk Hjunk fs Hw Hfs) as (bt & Eb & Ht). rewrite Eb in E. cbn [mbind exec_bind] in E.
  apply bind_Done_inv in E as ([[bc1 file1] nr1] & Eu & E). destruct (build_kept n S1 fs bt file off 0 bc1 file1 nr1 Ht Hw Hl Eu) as (Hok1 & Hs1 & _).
  eapply (ingest_fits n steps [fs]); [done|done|done|done|exact E].
Qed.

(** C22: A container that is built from a table of Bloom filters and updated
    with up to 63 further tables, where for each barrel the filters of all the
    tables fit on one page of 4096 bytes ([pages_fit]), answers every match: bit
    [l] of the result for a barrel is the answer of that barrel's filter of the
    [l]-th table, the oldest being bit 0, and no other bit is set.  Its
    description can be dumped and loaded again.  The condition is exact:
    building and updating return only if it holds; otherwise the assertion on
    the length of a box fails. *)
Theorem bloomcontainer_correct n fs file off steps fo fi :
  let tss := fs :: steps.*1.*1 in
  tables_shape n tss -> Forall (fun o => Z.of_nat o < 2 ^ 64) (off :: steps.*2) ->
  (pages_fit n tss ->
   exists bc file' nr data, life fs file off steps = Done (bc, file', nr) /\
    bloomcontainer_dump_meta bc fo = Done (fo ++ data) /\ bloomcontainer_load_meta (data ++ fi) = Done (bc, fi) /\
    forall j hv, (j < n)%nat -> exists bits, bloomcontainer_match bc file' (Z.of_nat j) hv = Done bits /\
      0 <= bits < 2 ^ Z.of_nat (length tss) /\
      forall l ts f, tss !! l = Some ts -> ts !! j = Some f -> bloom_match f hv = Done (Z.testbit bits (Z.of_nat l))) /\
  (Forall raw_fits tss -> ~ pages_fit n tss -> forall r, life fs file off steps <> Done r).
Proof using Hjunk.
  intros tss Hsh Hoff. split; [|intros Hraw Hno r E; apply Hno; by eapply life_fits].
  intros Hpf. pose proof (tables_ok_shape n tss Hsh Hpf) as Hok. inversion_clear Hoff as [|?? Ho Hos]. apply Forall_fmap in Hos. unfold life.
  destruct (build_table n [] fs (steps.*1.*1) Hok) as (bt & -> & Hbt). run.
  destruct (build_stores n fs bt file off 0 Hbt (tables_ok_prefix n [fs] _ Hok)) as (bc0 & file0 & nr0 & -> & Hs0 & Ho0 & _). run.
  destruct (ingest_stores n steps [fs] bc0 file0 nr0 Hs0 Hok) as (bc & file' & nr & E & Hs & Hbo); [by rewrite Ho0|done|].
  destruct (meta_roundtrip n _ bc file' fo fi Hs Hok Hbo) as (data & E1 & E2).
  exists bc, file', nr, data. split_and!; [done|done|done|]. intros j hv Hj.
  destruct (match_stores n _ bc file' j hv Hs Hok Hj) as (bits & Em & Hb & Hbits). exists bits. split_and!; [done|done| |].
  - apply below_pow2; [done|lia|]. intros l Hl. rewrite <- (Z2Nat.id l) by lia. rewrite Hbits, lookup_ge_None_2; [done|].
    rewrite (length_column n) by (apply Hok || done). unfold tss in Hl. cbn [app] in *. lia.
  - intros l ts f Hl Hf. assert (wf f) as Hw.
    { pose proof (Forall_lookup_1 _ _ _ _ (tk_wf _ _ Hok) Hl) as H. exact (Forall_lookup_1 _ _ _ _ H Hf). }
    rewrite hit_match by done. rewrite Hbits, (column_lookup n) by (apply Hok || done).
    change ([fs] ++ steps.*1.*1) with tss. by rewrite Hl; cbn [mbind option_bind]; rewrite Hf.
Qed.
End life.

(** Two tables with two barrels each; a table with a filter of 4096 bytes. *)
Definition demo_tables : list (list BloomFilter) := [[bloom_create 1; bloom_create 2]; [bloom_create 3; bloom_create 1]].
Definition large_filter : BloomFilter := bloom_create 2048.

Lemma demo_tables_shape : tables_shape 2 demo_tables /\ pages_fit 2 demo_tables.
Proof.
  pose proof barrels_value. pose proof barrel_value.
  assert (forall k, 0 <= k < 10 -> wf (bloom_create k)) as Hw by (intros k Hk; apply bloom_create_wf; unfold is_u32; lia).
  split; [split; [lia|repeat constructor| |cbn; lia]|].
  - repeat apply Forall_cons_2; try apply Forall_nil_2; apply Hw; lia.
  - intros [|[|j]] Hj; [| |lia]; apply Nat2Z.inj_le; rewrite barrel_value; vm_compute; discriminate.
Qed.

Lemma large_shape : tables_shape 1 [[large_filter]] /\ raw_fits [large_filter] /\ ~ pages_fit 1 [[large_filter]].
Proof.
  pose proof barrels_value. pose proof barrel_value. assert (wf large_filter) as Hw by (apply bloom_create_wf; unfold is_u32; lia).
  split; [split; [lia|by apply Forall_singleton|by apply Forall_singleton, Forall_singleton|cbn; lia]|]. split; [vm_compute; reflexivity|].
  intros Hp. specialize (Hp O ltac:(lia)). apply Nat2Z.inj_le in Hp. rewrite barrel_value in Hp. vm_compute in Hp. by apply Hp.
Qed.

Lemma bloomcontainer_correct_witness :
  (exists bc file' nr data,
    life (fun n => replicate n 171) [bloom_create 1; bloom_create 2] [7; 7] 1 [([bloom_create 3; bloom_create 1], [], 4096%nat)] =
      Done (bc, file', nr) /\
    bloomcontainer_dump_meta bc [5] = Done ([5] ++ data) /\ bloomcontainer_load_meta (data ++ [6]) = Done (bc, [6]) /\
    forall j hv, (j < 2)%nat -> exists bits, bloomcontainer_match bc file' (Z.of_nat j) hv = Done bits /\
      0 <= bits < 2 ^ Z.of_nat (length demo_tables) /\
      forall l ts f, demo_tables !! l = Some ts -> ts !! j = Some f -> bloom_match f hv = Done (Z.testbit bits (Z.of_nat l))) /\
  forall r, life (fun n => replicate n 171) [large_filter] [] 0 [] <> Done r.
Proof.
  split.
  - apply (bloomcontainer_correct (fun n => replicate n 171) (fun n => length_replicate n 171) 2
           [bloom_create 1; bloom_create 2] [7; 7] 1 [([bloom_create 3; bloom_create 1], [], 4096%nat)] [5] [6]).
    + exact (proj1 demo_tables_shape).
    + repeat apply Forall_cons_2; [lia|cbn; lia|apply Forall_nil_2].
    + exact (proj2 demo_tables_shape).
  - apply (bloomcontainer_correct (fun n => replicate n 171) (fun n => length_replicate n 171) 1 [large_filter] [] 0 [] [] []).
    + exact (proj1 large_shape).
    + repeat apply Forall_cons_2; [lia|apply Forall_nil_2].
    + apply Forall_singleton. exact (proj1 (proj2 large_shape)).
    + exact (proj2 (proj2 large_shape)).
Defined.
