(* ===== verification/Cmap.v ===== *)
(** * The map of containers of the LSM-trie: src/DataStruct_learn/Tree/lsm-trie/cmap.c

    A device or file is cut into units of 32 MiB, the containers of tables; a
    bitmap records which are in use.  A unit is chosen by a random start and a
    search from there.  The mutex of the map makes each operation atomic; the
    random number is an argument. *)

From S2P Require Import Prelude Coding Bloom BloomTable.
Import Bloom.

Module Cmap.

(** ** The code *)

Definition CONTAINER_UNIT_SIZE : Z := 4096 * 8192.

Record ContainerMap := mkCM { nr_units : Z; nr_used : Z; total_cap : Z; discard : bool; bits : list Z }.

(** What stat tells of the raw file: whether it is a block device, its size. *)
Record Raw := mkRaw { is_blk : bool; st_size : Z }.

(** A regular file is extended to [cap_hint], a signed number; [grows]:
    whether ftruncate succeeds. *)
Definition containermap_open_raw (grows : bool) (raw : Raw) (cap_hint : Z) : option Raw :=
  if is_blk raw then Some raw
  else let hint := (cap_hint + 2 ^ 63) mod 2 ^ 64 - 2 ^ 63 in
    if st_size raw <? hint then (if grows then Some (mkRaw false hint) else None) else Some raw.

(** The map without its bits, and whether the device has a unit. *)
Definition containermap_probe (raw : Raw) : ContainerMap * bool :=
  let cm := mkCM (st_size raw / CONTAINER_UNIT_SIZE) 0 (st_size raw) (is_blk raw) [] in
  (cm, (0 <? nr_units cm) && (0 <? total_cap cm)).

Definition nr_bytes (units : Z) : nat := Z.to_nat (Z.shiftr (u64 (units + 7)) 3).

Definition containermap_create (grows : bool) (raw : Raw) (cap_hint : Z) : option ContainerMap :=
  raw ← containermap_open_raw grows raw cap_hint;
  let '(cm0, rp) := containermap_probe raw in
  if rp : bool then Some (mkCM (nr_units cm0) 0 (total_cap cm0) (discard cm0) (replicate (nr_bytes (nr_units cm0)) 0)) else None.

Definition containermap_load (grows : bool) (raw : Raw) (cmap_in : list Z) : exec ContainerMap :=
  r ← fread cmap_in 8; let '(b, cmap_in) := r in
  let units := le_value b in
  _ ← assert (0 <? units);
  match containermap_open_raw grows raw (u64 (units * CONTAINER_UNIT_SIZE)) with
  | None => Fault
  | Some raw =>
      let '(cm0, rp) := containermap_probe raw in
      _ ← assert rp;
      _ ← assert (units <=? nr_units cm0);
      r ← fread cmap_in 8; let '(used, cmap_in) := r in
      r ← fread cmap_in (nr_bytes units); let '(bs, cmap_in) := r in
      Done (mkCM units (le_value used) (total_cap cm0) (discard cm0) bs)
  end.

Definition containermap_dump (cm : ContainerMap) : exec (list Z) :=
  bs ← (if (nr_bytes (nr_units cm) <=? length (bits cm))%nat then Done (take (nr_bytes (nr_units cm)) (bits cm)) else Fault);
  Done (le 8 (nr_units cm) ++ le 8 (nr_used cm) ++ bs).

(** The units from [i] on, [n] of them. *)
Fixpoint alloc_loop (n : nat) (i rid : Z) (cm : ContainerMap) : exec (option (ContainerMap * Z)) :=
  match n with
  | O => Done None
  | S n' =>
      let id := u64 (i + rid) mod nr_units cm in
      byte ← load (bits cm) (Z.to_nat (Z.shiftr id 3));
      let bit := Z.land byte (Z.shiftl 1 (Z.land id 7)) in
      if bit =? 0 then
        let new_byte := Z.lor byte (Z.shiftl 1 (Z.land id 7)) in
        Done (Some (mkCM (nr_units cm) (u64 (nr_used cm + 1)) (total_cap cm) (discard cm) (<[Z.to_nat (Z.shiftr id 3):=new_byte]> (bits cm)),
                    id * CONTAINER_UNIT_SIZE))
      else alloc_loop n' (i + 1) rid cm
  end.

(** When all units are in use: an offset behind the last byte. *)
Definition containermap_alloc (cm : ContainerMap) (rid : Z) : exec (ContainerMap * Z) :=
  r ← alloc_loop (Z.to_nat (nr_units cm)) 0 rid cm;
  match r with Some r => Done r | None => Done (cm, u64 ((nr_units cm + 100) * CONTAINER_UNIT_SIZE)) end.

(** The discarding of the unit on the device is left out. *)
Definition containermap_release (cm : ContainerMap) (offset : Z) : exec ContainerMap :=
  _ ← assert (Z.land offset (CONTAINER_UNIT_SIZE - 1) =? 0);
  let id := offset / CONTAINER_UNIT_SIZE in
  _ ← assert (id <? nr_units cm);
  byte ← load (bits cm) (Z.to_nat (Z.shiftr id 3));
  let new_byte := Z.land byte (2 ^ 32 - 1 - Z.shiftl 1 (Z.land id 7)) in
  _ ← assert (new_byte <? byte);
  Done (mkCM (nr_units cm) (u64 (nr_used cm - 1)) (total_cap cm) (discard cm) (<[Z.to_nat (Z.shiftr id 3):=new_byte]> (bits cm))).

Definition containermap_unused (cm : ContainerMap) : Z := u64 (nr_units cm - nr_used cm).

(** ** Bits of a byte *)

Definition byte_fact (b k j : Z) : bool :=
  let m := Z.shiftl 1 k in
  let set := Z.lor b m in
  let clear := Z.land b (2 ^ 32 - 1 - m) in
  bool_decide ((Z.land b m =? 0) = negb (Z.testbit b k)) &&
  (0 <=? set) && (set <? 256) && bool_decide (Z.testbit set j = Z.testbit b j || (j =? k)) &&
  (0 <=? clear) && (clear <? 256) && bool_decide (Z.testbit clear j = Z.testbit b j && negb (j =? k)) &&
  bool_decide ((clear <? b) = Z.testbit b k).

Lemma byte_facts b k j :
  is_u8 b -> 0 <= k < 8 -> 0 <= j < 8 ->
  let m := Z.shiftl 1 k in let set := Z.lor b m in let clear := Z.land b (2 ^ 32 - 1 - m) in
  (Z.land b m =? 0) = negb (Z.testbit b k) /\ is_u8 set /\ Z.testbit set j = Z.testbit b j || (j =? k) /\
  is_u8 clear /\ Z.testbit clear j = Z.testbit b j && negb (j =? k) /\ (clear <? b) = Z.testbit b k.
Proof.
  intros Hb Hk Hj.
  assert (forallb (fun b => forallb (fun k => forallb (byte_fact b k) (seqZ 0 8)) (seqZ 0 8)) (seqZ 0 256) = true) as H by (vm_compute; reflexivity).
  rewrite forallb_forall in H. specialize (H b). rewrite <- list_elem_of_In, elem_of_seqZ in H. specialize (H Hb).
  rewrite forallb_forall in H. specialize (H k). rewrite <- list_elem_of_In, elem_of_seqZ in H. specialize (H Hk).
  rewrite forallb_forall in H. specialize (H j). rewrite <- list_elem_of_In, elem_of_seqZ in H. specialize (H Hj).
  unfold byte_fact in H. rewrite !andb_true_iff, !bool_decide_eq_true, !Z.leb_le, !Z.ltb_lt in H. unfold is_u8. change (2 ^ 8) with 256. tauto.
Qed.

(** ** The invariant *)

Definition unit_used (bs : list Z) (id : Z) : bool :=
  match bs !! Z.to_nat (Z.shiftr id 3) with Some b => Z.testbit b (Z.land id 7) | None => false end.

Lemma shift3 id : Z.shiftr id 3 = id / 8.
Proof. by rewrite Z.shiftr_div_pow2. Qed.
Lemma land7 id : Z.land id 7 = id mod 8.
Proof. change 7 with (Z.ones 3). by rewrite Z.land_ones. Qed.

(** A bit of the byte of [id] is changed. *)
Lemma used_insert bs id b new id' :
  0 <= id -> 0 <= id' -> bs !! Z.to_nat (Z.shiftr id 3) = Some b ->
  unit_used (<[Z.to_nat (Z.shiftr id 3):=new]> bs) id' =
  if id' / 8 =? id / 8 then Z.testbit new (id' mod 8) else unit_used bs id'.
Proof.
  intros Hi Hi' Hb. unfold unit_used. rewrite !shift3, land7 in *. destruct (Z.eqb_spec (id' / 8) (id / 8)) as [->|Hne].
  - by rewrite list_lookup_insert_eq by (by eapply lookup_lt_Some).
  - rewrite list_lookup_insert_ne; [done|]. intros E. apply Hne. apply Z2Nat.inj in E; [done|apply Z.div_pos; lia..].
Qed.

Record cm_inv (cm : ContainerMap) (U : gset Z) : Prop := {
  ci_units : 0 < nr_units cm <= 2 ^ 38;
  ci_length : length (bits cm) = nr_bytes (nr_units cm);
  ci_bytes : bytes (bits cm);
  ci_bits : forall id, 0 <= id < nr_units cm -> unit_used (bits cm) id = bool_decide (id ∈ U);
  ci_range : forall id, id ∈ U -> 0 <= id < nr_units cm;
  ci_used : nr_used cm = Z.of_nat (size U) }.

Lemma byte_of cm U id : cm_inv cm U -> 0 <= id < nr_units cm -> exists b, bits cm !! Z.to_nat (Z.shiftr id 3) = Some b /\ is_u8 b.
Proof.
  intros HI Hid. pose proof (ci_units _ _ HI). destruct (lookup_lt_is_Some_2 (bits cm) (Z.to_nat (Z.shiftr id 3))) as [b Hb].
  - rewrite (ci_length _ _ HI). unfold nr_bytes. rewrite u64_small by lia. rewrite !shift3. apply Z2Nat.inj_lt; lia_div.
  - exists b. split; [done|]. exact (Forall_lookup_1 _ _ _ _ (ci_bytes _ _ HI) Hb).
Qed.

Lemma size_bound cm U : cm_inv cm U -> Z.of_nat (size U) <= nr_units cm.
Proof.
  intros HI. pose proof (ci_units _ _ HI). assert (U ⊆ list_to_set (seqZ 0 (nr_units cm))) as Hs.
  { intros id Hid. apply elem_of_list_to_set, elem_of_seqZ. pose proof (ci_range _ _ HI _ Hid). lia. }
  apply subseteq_size in Hs. rewrite size_list_to_set in Hs by apply NoDup_seqZ. rewrite length_seqZ in Hs. lia.
Qed.

(** The bit of [id] becomes [v]. *)
Lemma change_bit cm U id b new v U' used' :
  cm_inv cm U -> 0 <= id < nr_units cm -> bits cm !! Z.to_nat (Z.shiftr id 3) = Some b -> is_u8 new ->
  (forall j, 0 <= j < 8 -> Z.testbit new j = if j =? id mod 8 then v else Z.testbit b j) ->
  (forall x, x ∈ U' <-> if decide (x = id) then v = true else x ∈ U) -> used' = Z.of_nat (size U') ->
  cm_inv (mkCM (nr_units cm) used' (total_cap cm) (discard cm) (<[Z.to_nat (Z.shiftr id 3):=new]> (bits cm))) U'.
Proof.
  intros HI Hid Hb Hnew Ht HU ->. split; cbn [nr_units bits nr_used].
  - apply HI.
  - rewrite length_insert. apply HI.
  - apply Forall_insert; [apply HI|done].
  - intros x Hx. rewrite (used_insert _ id b) by (done || lia). pose proof (Z.mod_pos_bound x 8).
    destruct (Z.eqb_spec (x / 8) (id / 8)) as [E|E].
    + rewrite Ht by lia. assert (unit_used (bits cm) x = Z.testbit b (x mod 8)) as Eb.
      { unfold unit_used. rewrite shift3 in *. rewrite E, Hb. by rewrite land7. }
      destruct (Z.eqb_spec (x mod 8) (id mod 8)) as [Em|Em].
      * assert (x = id) as -> by (rewrite (Z.div_mod x 8), (Z.div_mod id 8) by lia; lia).
        destruct v; symmetry; [apply bool_decide_true|apply bool_decide_false]; rewrite HU, decide_True by done; done.
      * rewrite <- Eb, (ci_bits _ _ HI) by done. apply bool_decide_ext. rewrite HU, decide_False; [done|]. by intros ->.
    + rewrite (ci_bits _ _ HI) by done. apply bool_decide_ext. rewrite HU, decide_False; [done|]. by intros ->.
  - intros x Hx. apply HU in Hx. case_decide as E; [subst; done|]. by apply (ci_range _ _ HI).
  - done.
Qed.

Lemma bit_of cm U id b : cm_inv cm U -> 0 <= id < nr_units cm -> bits cm !! Z.to_nat (Z.shiftr id 3) = Some b ->
  Z.testbit b (Z.land id 7) = bool_decide (id ∈ U).
Proof. intros HI Hid Hb. rewrite <- (ci_bits _ _ HI id Hid). unfold unit_used. by rewrite Hb. Qed.

Lemma land7_range id : 0 <= Z.land id 7 < 8.
Proof. rewrite land7. apply Z.mod_pos_bound. lia. Qed.

(** ** Operations *)

Lemma take_unit cm U id b :
  cm_inv cm U -> 0 <= id < nr_units cm -> id ∉ U -> bits cm !! Z.to_nat (Z.shiftr id 3) = Some b -> is_u8 b ->
  cm_inv (mkCM (nr_units cm) (u64 (nr_used cm + 1)) (total_cap cm) (discard cm)
    (<[Z.to_nat (Z.shiftr id 3):=Z.lor b (Z.shiftl 1 (Z.land id 7))]> (bits cm))) ({[id]} ∪ U).
Proof.
  intros HI Hid HU Hb H8. pose proof (size_bound cm U HI) as Hsz. pose proof (ci_units _ _ HI) as Hu.
  destruct (byte_facts b (Z.land id 7) 0 H8 (land7_range id) ltac:(lia)) as (_ & Hs8 & _).
  apply (change_bit cm U id b _ true ({[id]} ∪ U)); [done|done|done|done|..].
  - intros j Hj. destruct (byte_facts b (Z.land id 7) j H8 (land7_range id) Hj) as (_ & _ & -> & _). rewrite land7.
    destruct (j =? id mod 8); [apply orb_true_r|apply orb_false_r].
  - intros x. case_decide as E; [subst; split; [done|intros _; set_solver]|set_solver].
  - rewrite size_union by set_solver. rewrite size_singleton, (ci_used _ _ HI), u64_small by lia. lia.
Qed.

(** Whatever the random number, a unit that is given was free. *)
Lemma alloc_loop_fresh cm U rid n : forall i cm' off,
  cm_inv cm U -> alloc_loop n i rid cm = Done (Some (cm', off)) ->
  exists id, 0 <= id < nr_units cm /\ id ∉ U /\ off = id * CONTAINER_UNIT_SIZE /\
    cm_inv cm' ({[id]} ∪ U) /\ nr_units cm' = nr_units cm /\ total_cap cm' = total_cap cm.
Proof.
  induction n as [|n IH]; intros i cm' off HI E; [done|]. pose proof (ci_units _ _ HI) as Hu. cbn [alloc_loop] in E.
  set (id := u64 (i + rid) mod nr_units cm) in *. assert (0 <= id < nr_units cm) as Hid by (apply Z.mod_pos_bound; lia).
  destruct (byte_of cm U id HI Hid) as (b & Hb & H8). rewrite (load_Done _ _ _ Hb) in E. cbn [mbind exec_bind] in E.
  destruct (byte_facts b (Z.land id 7) 0 H8 (land7_range id) ltac:(lia)) as (Eb & _). rewrite Eb, (bit_of cm U id b HI Hid Hb) in E.
  case_bool_decide as HU; cbn [negb] in E; [by eapply IH|]. injection E as <- <-. exists id.
  split; [done|]. split; [done|]. split; [done|]. split; [by apply take_unit|done].
Qed.

(** The search, when the numbers do not wrap around. *)
Lemma alloc_loop_spec cm U rid n : forall i,
  cm_inv cm U -> 0 <= rid -> 0 <= i -> i + Z.of_nat n <= nr_units cm -> rid + nr_units cm <= 2 ^ 64 ->
  exists r, alloc_loop n i rid cm = Done r /\
    match r with
    | None => forall j, i <= j < i + Z.of_nat n -> (j + rid) mod nr_units cm ∈ U
    | Some (cm', off) => exists id, 0 <= id < nr_units cm /\ id ∉ U /\ off = id * CONTAINER_UNIT_SIZE /\
        cm_inv cm' ({[id]} ∪ U) /\ nr_units cm' = nr_units cm /\ total_cap cm' = total_cap cm /\ discard cm' = discard cm
    end.
Proof.
  induction n as [|n IH]; intros i HI Hr Hi Hn Hw; [exists None; split; [done|]; intros j Hj; lia|].
  pose proof (ci_units _ _ HI) as Hu. cbn [alloc_loop]. rewrite u64_small by lia. set (id := (i + rid) mod nr_units cm).
  assert (0 <= id < nr_units cm) as Hid by (apply Z.mod_pos_bound; lia).
  destruct (byte_of cm U id HI Hid) as (b & Hb & H8). rewrite (load_Done _ _ _ Hb). run.
  destruct (byte_facts b (Z.land id 7) 0 H8 (land7_range id) ltac:(lia)) as (-> & Hs8 & _). rewrite (bit_of cm U id b HI Hid Hb).
  case_bool_decide as HU; cbn [negb].
  - destruct (IH (i + 1) HI Hr) as (r & E & Hspec); [lia|lia|done|]. exists r. split; [done|]. destruct r as [[cm' off]|]; [done|].
    intros j Hj. destruct (decide (j = i)) as [->|Hne]; [done|]. apply Hspec. lia.
  - eexists. split; [done|]. exists id. split; [done|]. split; [done|]. split; [done|]. split; [|done]. by apply take_unit.
Qed.

Definition full_offset (cm : ContainerMap) : Z := (nr_units cm + 100) * CONTAINER_UNIT_SIZE.

Lemma alloc_spec cm U rid :
  cm_inv cm U -> 0 <= rid -> rid + nr_units cm <= 2 ^ 64 ->
  exists cm' off U', containermap_alloc cm rid = Done (cm', off) /\ cm_inv cm' U' /\
    nr_units cm' = nr_units cm /\ total_cap cm' = total_cap cm /\ discard cm' = discard cm /\
    ((Z.of_nat (size U) = nr_units cm /\ U' = U /\ off = full_offset cm) \/
     (exists id, 0 <= id < nr_units cm /\ id ∉ U /\ off = id * CONTAINER_UNIT_SIZE /\ U' = {[id]} ∪ U)).
Proof.
  intros HI Hr Hw. pose proof (ci_units _ _ HI) as Hu. unfold containermap_alloc.
  destruct (alloc_loop_spec cm U rid (Z.to_nat (nr_units cm)) 0 HI Hr) as (r & -> & Hspec); [lia|lia|done|]. run.
  destruct r as [[cm' off]|].
  - destruct Hspec as (id & Hid & HU & -> & HI' & E1 & E2 & E3). eexists _, _, ({[id]} ∪ U). split; [done|]. split_and!; try done. right. by exists id.
  - eexists _, _, U. split; [done|]. split_and!; try done. left. split; [|split; [done|unfold full_offset, CONTAINER_UNIT_SIZE; rewrite u64_small; lia]].
    pose proof (size_bound cm U HI) as Hsz. assert (list_to_set (seqZ 0 (nr_units cm)) ⊆ U) as Hs.
    { intros id Hid. apply elem_of_list_to_set, elem_of_seqZ in Hid. specialize (Hspec ((id - rid) mod nr_units cm)).
      rewrite Z.add_mod_idemp_l in Hspec by lia. replace (id - rid + rid) with id in Hspec by lia. rewrite (Z.mod_small id) in Hspec by lia. apply Hspec.
      pose proof (Z.mod_pos_bound (id - rid) (nr_units cm)). lia. }
    apply subseteq_size in Hs. rewrite size_list_to_set in Hs by apply NoDup_seqZ. rewrite length_seqZ in Hs. lia.
Qed.

(** The offset of a unit in use. *)
Definition releasable (U : gset Z) (off : Z) : Prop := off mod CONTAINER_UNIT_SIZE = 0 /\ off / CONTAINER_UNIT_SIZE ∈ U.

#[export] Instance releasable_dec U off : Decision (releasable U off).
Proof. apply _. Defined.

Lemma release_spec cm U off :
  cm_inv cm U -> 0 <= off ->
  if decide (releasable U off) then
    exists cm', containermap_release cm off = Done cm' /\ cm_inv cm' (U ∖ {[off / CONTAINER_UNIT_SIZE]}) /\
      nr_units cm' = nr_units cm /\ total_cap cm' = total_cap cm /\ discard cm' = discard cm
  else containermap_release cm off = Fault.
Proof.
  intros HI Ho. unfold containermap_release. assert (Z.land off (CONTAINER_UNIT_SIZE - 1) = off mod CONTAINER_UNIT_SIZE) as ->.
  { change (CONTAINER_UNIT_SIZE - 1) with (Z.ones 25). by rewrite Z.land_ones. }
  set (id := off / CONTAINER_UNIT_SIZE). assert (0 <= id) as Hid0 by (apply Z.div_pos; [done|reflexivity]).
  destruct (Z.eqb_spec (off mod CONTAINER_UNIT_SIZE) 0) as [Hm|Hm]; [|rewrite decide_False by (by intros [? _]); done]. cbn [assert]. run.
  destruct (Z.ltb_spec id (nr_units cm)) as [Hlt|Hge]; [|rewrite decide_False; [done|]; intros [_ HU]; apply (ci_range _ _ HI) in HU; unfold id in *; lia].
  cbn [assert]. run. assert (0 <= id < nr_units cm) as Hid by lia. destruct (byte_of cm U id HI Hid) as (b & Hb & H8). rewrite (load_Done _ _ _ Hb). run.
  destruct (byte_facts b (Z.land id 7) 0 H8 (land7_range id) ltac:(lia)) as (_ & _ & _ & Hc8 & _ & ->). rewrite (bit_of cm U id b HI Hid Hb).
  case_bool_decide as HU; cbn [assert]; run; [rewrite decide_True by done|rewrite decide_False by (by intros [_ ?]); done].
  eexists. split; [done|]. split_and!; try done. pose proof (ci_units _ _ HI). pose proof (size_bound cm U HI) as Hsz.
  assert (size (U ∖ {[id]}) = (size U - 1)%nat) as Es by (rewrite size_difference by set_solver; by rewrite size_singleton).
  assert (0 < size U)%nat as Hpos. { destruct (decide (size U = 0%nat)) as [E|]; [|lia]. apply size_empty_inv in E. set_solver. }
  apply (change_bit cm U id b _ false (U ∖ {[id]})); [done|done|done|done|..].
  - intros j Hj. destruct (byte_facts b (Z.land id 7) j H8 (land7_range id) Hj) as (_ & _ & _ & _ & -> & _). rewrite land7.
    destruct (j =? id mod 8); [apply andb_false_r|apply andb_true_r].
  - intros x. case_decide as E; [subst; split; [intros Hx; exfalso; set_solver|done]|set_solver].
  - rewrite Es, (ci_used _ _ HI), u64_small by lia. lia.
Qed.

(** ** Sequences of operations *)

Inductive op := Alloc (rid : Z) | Release (off : Z).

Definition run_op (cm : ContainerMap) (o : op) : exec (ContainerMap * Z) :=
  match o with Alloc rid => containermap_alloc cm rid | Release off => cm ← containermap_release cm off; Done (cm, 0) end.

Fixpoint run_ops (cm : ContainerMap) (ops : list op) : exec (ContainerMap * list Z) :=
  match ops with
  | [] => Done (cm, [])
  | o :: ops' =>
      r ← run_op cm o; let '(cm, x) := r in
      r ← run_ops cm ops'; let '(cm, xs) := r in Done (cm, x :: xs)
  end.

(** The specification: the set of units in use. *)
Definition units_step (nr : Z) (U : gset Z) (e : op * Z) : option (gset Z) :=
  match e with
  | (Alloc _, off) =>
      if bool_decide (Z.of_nat (size U) = nr) then guard (nr * CONTAINER_UNIT_SIZE <= off);; Some U
      else guard (off mod CONTAINER_UNIT_SIZE = 0 /\ 0 <= off / CONTAINER_UNIT_SIZE < nr /\ off / CONTAINER_UNIT_SIZE ∉ U);;
           Some ({[off / CONTAINER_UNIT_SIZE]} ∪ U)
  | (Release off, _) => guard (releasable U off);; Some (U ∖ {[off / CONTAINER_UNIT_SIZE]})
  end.

Fixpoint units_run (nr : Z) (U : gset Z) (l : list (op * Z)) : option (gset Z) :=
  match l with [] => Some U | e :: l' => U ← units_step nr U e; units_run nr U l' end.

(** Random numbers close to 2^64 are excluded: the search would wrap around. *)
Definition op_ok (nr : Z) (o : op) : Prop :=
  match o with Alloc rid => 0 <= rid /\ rid + nr <= 2 ^ 64 | Release off => 0 <= off end.

Definition same_device (cm cm' : ContainerMap) : Prop :=
  nr_units cm' = nr_units cm /\ total_cap cm' = total_cap cm /\ discard cm' = discard cm.

Lemma unit_offset id : id * CONTAINER_UNIT_SIZE / CONTAINER_UNIT_SIZE = id /\ (id * CONTAINER_UNIT_SIZE) mod CONTAINER_UNIT_SIZE = 0.
Proof. split; [by apply Z.div_mul|by apply Z.mod_mul]. Qed.

Lemma run_op_spec cm U o :
  cm_inv cm U -> op_ok (nr_units cm) o ->
  (exists cm' x U', run_op cm o = Done (cm', x) /\ units_step (nr_units cm) U (o, x) = Some U' /\ cm_inv cm' U' /\ same_device cm cm') \/
  (exists off, o = Release off /\ run_op cm o = Fault /\ ~ releasable U off).
Proof.
  intros HI Ho. pose proof (ci_units _ _ HI) as Hu. destruct o as [rid|off]; cbn [op_ok run_op] in *.
  - left. destruct (alloc_spec cm U rid HI) as (cm' & off & U' & E & HI' & H1 & H2 & H3 & Hr); [lia|lia|].
    exists cm', off, U'. split; [done|]. split; [|by split_and!]. cbn [units_step]. destruct Hr as [(Hf & -> & ->)|(id & Hid & HU & -> & ->)].
    + rewrite bool_decide_true by done. rewrite option_guard_True; [done|]. unfold full_offset. apply Z.mul_le_mono_nonneg_r; [done|lia].
    + destruct (unit_offset id) as [-> ->]. rewrite bool_decide_false; [by rewrite option_guard_True|]. intros Hs.
      pose proof (size_bound cm' _ HI') as Hb. rewrite H1, size_union, size_singleton in Hb by set_solver. lia.
  - pose proof (release_spec cm U off HI Ho) as Hs. case_decide as Hd.
    + left. destruct Hs as (cm' & -> & HI' & Hdev). run. eexists _, 0, _. split; [done|]. split; [cbn [units_step]; by rewrite option_guard_True|]. done.
    + right. exists off. rewrite Hs. done.
Qed.

Lemma run_ops_spec ops : forall cm U,
  cm_inv cm U -> Forall (op_ok (nr_units cm)) ops ->
  match run_ops cm ops with
  | Done (cm', rs) => exists U', units_run (nr_units cm) U (zip ops rs) = Some U' /\ cm_inv cm' U' /\ same_device cm cm'
  | Fault => exists k off cm' rs U', ops !! k = Some (Release off) /\ run_ops cm (take k ops) = Done (cm', rs) /\
      units_run (nr_units cm) U (zip (take k ops) rs) = Some U' /\ ~ releasable U' off
  | NoFuel => False
  end.
Proof.
  induction ops as [|o ops IH]; intros cm U HI Hok; cbn [run_ops]; [by exists U|]. inversion_clear Hok as [|?? Ho Hok'].
  destruct (run_op_spec cm U o HI Ho) as [(cm1 & x & U1 & E & Es & HI1 & Hd)|(off & -> & E & Hn)]; rewrite E; run.
  - assert (nr_units cm1 = nr_units cm) as En by apply Hd. rewrite <- En in Hok'. specialize (IH cm1 U1 HI1 Hok'). rewrite En in IH.
    destruct (run_ops cm1 ops) as [[cm2 rs]| |]; run; [| |done].
    + destruct IH as (U2 & Er & HI2 & Hd2). exists U2. cbn [zip zip_with units_run]. rewrite Es. split; [done|]. split; [done|].
      destruct Hd as (? & ? & ?), Hd2 as (? & ? & ?). split_and!; congruence.
    + destruct IH as (k & off & cm' & rs & U' & Hk & Er & Eu & Hn). exists (S k), off, cm', (x :: rs), U'. split; [done|].
      cbn [take run_ops]. rewrite E. run. rewrite Er. split; [done|]. cbn [zip zip_with units_run]. by rewrite Es.
  - exists 0%nat, off, cm, [], U. done.
Qed.

Lemma create_spec grows raw hint cm :
  0 <= st_size raw < 2 ^ 63 -> containermap_create grows raw hint = Some cm ->
  cm_inv cm ∅ /\ nr_units cm = total_cap cm / CONTAINER_UNIT_SIZE /\ total_cap cm < 2 ^ 63.
Proof.
  intros Hs E. unfold containermap_create in E. destruct (containermap_open_raw grows raw hint) as [raw'|] eqn:Er; [|done]. cbn [mbind option_bind] in E.
  assert (st_size raw' < 2 ^ 63) as Hs'.
  { unfold containermap_open_raw in Er. destruct (is_blk raw); [injection Er as <-; lia|]. pose proof (Z.mod_pos_bound (hint + 2 ^ 63) (2 ^ 64)).
    destruct (_ <? _); [destruct grows; [|done]|]; injection Er as <-; cbn [st_size]; lia. }
  unfold containermap_probe in E. cbn [nr_units total_cap discard] in E. destruct (Z.ltb_spec 0 (st_size raw' / CONTAINER_UNIT_SIZE)) as [Hp|]; [|done].
  destruct (Z.ltb_spec 0 (st_size raw')); [|done]. injection E as <-. cbn [nr_units total_cap].
  assert (st_size raw' / CONTAINER_UNIT_SIZE < 2 ^ 38) by (apply Z.div_lt_upper_bound; [done|exact Hs']).
  split; [|done]. split; cbn [nr_units bits nr_used]; [lia|apply length_replicate|by apply Forall_replicate| |set_solver|by rewrite size_empty].
  intros id _. unfold unit_used. rewrite bool_decide_false by set_solver. destruct (_ !! _) as [b|] eqn:Eb; [|done]. apply lookup_replicate in Eb as [-> _].
  apply Z.bits_0.
Qed.

Lemma dump_load cm U grows :
  cm_inv cm U -> nr_units cm = total_cap cm / CONTAINER_UNIT_SIZE -> total_cap cm < 2 ^ 63 ->
  exists file, containermap_dump cm = Done file /\ containermap_load grows (mkRaw (discard cm) (total_cap cm)) file = Done cm.
Proof.
  intros HI Hu Hc. pose proof (ci_units _ _ HI) as Hr. pose proof (size_bound cm U HI) as Hsz. pose proof (ci_used _ _ HI) as Hus.
  unfold containermap_dump. rewrite <- (ci_length _ _ HI), Nat.leb_refl, firstn_all. run. eexists. split; [done|].
  assert (forall v, 0 <= v < 2 ^ 64 -> le_value (le 8 v) = v) as Hle by (intros v Hv; apply le_value_le; change (256 ^ Z.of_nat 8) with (2 ^ 64); lia).
  assert (forall v l, fread (le 8 v ++ l) 8 = Done (le 8 v, l)) as Hf by (intros v l; rewrite <- (length_le 8 v) at 2; apply BloomTable.fread_app).
  unfold containermap_load. rewrite Hf. run. rewrite Hle, (proj2 (Z.ltb_lt _ _)) by lia. cbn [assert]. run.
  assert (nr_units cm * CONTAINER_UNIT_SIZE <= total_cap cm) as Hfit by (rewrite Hu, Z.mul_comm; by apply Z.mul_div_le).
  assert (0 <= nr_units cm * CONTAINER_UNIT_SIZE) as H0 by (apply Z.mul_nonneg_nonneg; [lia|done]).
  assert (containermap_open_raw grows (mkRaw (discard cm) (total_cap cm)) (u64 (nr_units cm * CONTAINER_UNIT_SIZE)) = Some (mkRaw (discard cm) (total_cap cm))) as ->.
  { unfold containermap_open_raw. cbn [is_blk st_size]. destruct (discard cm); [done|]. rewrite u64_small, Z.mod_small by lia.
    by rewrite (proj2 (Z.ltb_ge _ _)) by lia. }
  assert (0 < total_cap cm) as Hpos by (unfold CONTAINER_UNIT_SIZE in Hfit; lia).
  unfold containermap_probe. cbn [st_size is_blk nr_units total_cap discard]. rewrite <- Hu.
  rewrite (proj2 (Z.ltb_lt 0 (nr_units cm))), (proj2 (Z.ltb_lt 0 (total_cap cm))), Z.leb_refl by lia. cbn [andb assert]. run. rewrite Hf. run.
  rewrite <- (ci_length _ _ HI), <- (app_nil_r (bits cm)) at 1. rewrite BloomTable.fread_app. run. rewrite Hle by lia. by destruct cm.
Qed.

(** C27: From its creation on, under every sequence of allocations and releases,
    a container map behaves as the set of units in use: an allocation returns
    the offset of a unit that is free, or one behind the end when there is
    none; a release gives the unit back, and fails its assertion exactly when
    the unit is not in use.  The count of unused units is right, and the map
    that is written to a file is the one that is loaded from it. *)
Theorem cmap_refines grows raw hint cm ops :
  0 <= st_size raw < 2 ^ 63 -> containermap_create grows raw hint = Some cm -> Forall (op_ok (nr_units cm)) ops ->
  match run_ops cm ops with
  | Done (cm', rs) => exists U, units_run (nr_units cm) ∅ (zip ops rs) = Some U /\
      containermap_unused cm' = nr_units cm - Z.of_nat (size U) /\
      exists file, containermap_dump cm' = Done file /\ containermap_load grows (mkRaw (discard cm) (total_cap cm)) file = Done cm'
  | Fault => exists k off cm' rs U, ops !! k = Some (Release off) /\ run_ops cm (take k ops) = Done (cm', rs) /\
      units_run (nr_units cm) ∅ (zip (take k ops) rs) = Some U /\ ~ releasable U off
  | NoFuel => False
  end.
Proof.
  intros Hs Ec Hok. destruct (create_spec _ _ _ _ Hs Ec) as (HI & Hu & Hc). pose proof (run_ops_spec ops cm ∅ HI Hok) as Hr.
  destruct (run_ops cm ops) as [[cm' rs]| |]; [|done|done]. destruct Hr as (U & Er & HI' & E1 & E2 & E3). exists U. split; [done|]. split.
  - unfold containermap_unused. pose proof (size_bound cm' U HI'). pose proof (ci_units _ _ HI').
    rewrite (ci_used _ _ HI'), u64_small by lia. by rewrite E1.
  - destruct (dump_load cm' U grows HI') as (file & Ed & El); [by rewrite E1, E2|by rewrite E2|]. exists file. by rewrite <- E2, <- E3.
Qed.

(** A file of 100 MB has two units; the one that is released is used again. *)
Lemma cmap_refines_witness :
  let cm := mkCM 2 0 100000000 false [0] in
  let ops := [Alloc 7; Alloc 1; Alloc 5; Release 33554432; Alloc 4] in
  let rs := [33554432; 0; 3422552064; 0; 33554432] in
  containermap_create true (mkRaw false 0) 100000000 = Some cm /\ run_ops cm ops = Done (mkCM 2 2 100000000 false [3], rs) /\
  exists U, units_run 2 ∅ (zip ops rs) = Some U /\ containermap_unused (mkCM 2 2 100000000 false [3]) = 2 - Z.of_nat (size U) /\
    exists file, containermap_dump (mkCM 2 2 100000000 false [3]) = Done file /\
      containermap_load true (mkRaw false 100000000) file = Done (mkCM 2 2 100000000 false [3]).
Proof.
  intros cm ops rs. assert (containermap_create true (mkRaw false 0) 100000000 = Some cm) as Ec by (vm_compute; reflexivity).
  assert (run_ops cm ops = Done (mkCM 2 2 100000000 false [3], rs)) as Er by (vm_compute; reflexivity).
  split; [exact Ec|]. split; [exact Er|].
  assert (Forall (op_ok (nr_units cm)) ops) as Hok by (repeat constructor; cbn; lia).
  pose proof (cmap_refines true (mkRaw false 0) 100000000 cm ops ltac:(cbn; lia) Ec Hok) as H. rewrite Er in H. exact H.
Defined.

(** With a random number close to 2^64 the search wraps around and may miss a
    unit: here unit 2 of 3 is free. *)
Lemma alloc_misses_unit : containermap_alloc (mkCM 3 2 (3 * CONTAINER_UNIT_SIZE) false [3]) (2 ^ 64 - 1) = Done (mkCM 3 2 (3 * CONTAINER_UNIT_SIZE) false [3], 103 * CONTAINER_UNIT_SIZE).
Proof. vm_compute. reflexivity. Qed.
End Cmap.
