(* ===== verification/LsmTable.v ===== *)
(** * Tables of the LSM-trie: src/DataStruct_learn/Tree/lsm-trie/table.c

    A table holds items in 8191 barrels; a barrel is a hash table with 64
    chains and is written to one page of 4096 bytes.  Before a table is
    written, table_retain moves items from the barrels that are too large to
    others, and remembers for each which items have left it; metatable_lookup
    finds items on disk through these notes.

    A key or value is its bytes (the code's length and pointer), a chain is
    the list of its items, a pointer to a barrel is its number, and a position
    in a page is a number.  SHA1 is a function of OpenSSL: [SHA1].  The order
    in which qsort leaves elements that compare equal is not specified: qsort
    is any sort ([Qsort]).  Allocation by malloc succeeds (the code asserts
    it); memory of the pool may run out.  The array of barrels has room for
    one barrel more, which is never used. *)

From Stdlib Require Import Sorted SpecFloat.
From S2P Require Import Prelude Coding Bloom Mempool.
Import Coding Bloom Mempool.

(** ** qsort *)

(** [cmp] orders by a number. *)
Definition compares {A} (cmp : A -> A -> Z) (f : A -> Z) : Prop := forall x y, cmp x y <= 0 <-> f x <= f y.

(** What the C standard promises of qsort and qsort_r. *)
Class Qsort := {
  qsort : forall {A}, (A -> A -> Z) -> list A -> list A;
  qsort_perm : forall {A} (cmp : A -> A -> Z) f l, compares cmp f -> qsort cmp l ≡ₚ l;
  qsort_sorted : forall {A} (cmp : A -> A -> Z) f l, compares cmp f -> StronglySorted (fun x y => f x <= f y) (qsort cmp l) }.

Module Lsm.

(** ** Sizes *)

Definition TABLE_NR_BARRELS : nat := 8191.
Definition BARREL_CAP : nat := 4088.
Definition BARREL_NR_HT : nat := 64.
Definition METAINDEX_MAX_NR : nat := 2048.
Definition TABLE_NR_IO : nat := 2048.

(** ** Data *)

Record KeyValue := mkKV { kv_key : list Z; kv_value : list Z }.

Record Item := mkItem { nr_moved : Z; volume : Z; key : list Z; value : list Z; hash : list Z }.

Record RawItem := mkRaw { klen : nat; vlen : nat; pk : nat; pv : nat; limit : nat }.

Record MetaIndex := mkMI { mi_id : nat; mi_rid : nat; mi_min : Z }.

Record Barrel := mkBarrel {
  items : list (list Item); bvolume : Z; id : nat; rid : nat; nr_out : Z; bmin : Z }.

Record Table := mkTab {
  tvolume : Z; capacity : Z; mempool : Mempool; barrels : list Barrel; io_buffer : list (list Z);
  nr_mi : Z; mis : list MetaIndex; bt : option BloomTable }.

Record MetaTable := mkMT { mt_off : nat; mt_volume : Z; mt_nr_mi : Z; mt_mis : list MetaIndex; mt_bt : option BloomTable }.

(** The counters of struct Stat that lookups change. *)
Record Stat := mkStat { nr_fetch_barrel : Z; nr_true_negative : Z; nr_true_positive : Z; nr_false_positive : Z }.

(** ** Parts of a hash *)

(** An integer of [n] bytes at byte [p]. *)
Definition word (n p : nat) (l : list Z) : Z := le_value (take n (drop p l)).

Definition __hash_bf (hash : list Z) : Z := word 8 12 hash.

(** A rotation by [bid mod 32]; for 0 the right shift is by 32, which the
    target takes modulo 32. *)
Definition rotated (hash : list Z) (bid : nat) : Z :=
  let hv := word 4 12 hash in
  let shift := Z.of_nat (bid mod 32) in
  Z.lor (u32 (Z.shiftl hv shift)) (Z.shiftr hv ((32 - shift) mod 32)).

Definition __hash_order (hash : list Z) (bid : nat) : exec Z :=
  _ ← assert (bid <? TABLE_NR_BARRELS)%nat; Done (rotated hash bid).

Definition __hash_ht (hash : list Z) : nat := Z.to_nat (word 4 16 hash mod Z.of_nat BARREL_NR_HT).

Definition table_select_barrel (hash : list Z) : nat := Z.to_nat (word 8 4 hash mod Z.of_nat TABLE_NR_BARRELS).

(** ** Chains of items *)

Definition item_identical (a b : Item) : bool := bool_decide (key a = key b).

(** The chain without the item, and the volume of the victim (0 if none). *)
Fixpoint item_erase (items : list Item) (item : Item) : list Item * Z :=
  match items with
  | [] => ([], 0)
  | iter :: next =>
      if item_identical iter item then (next, volume iter)
      else let '(next, v) := item_erase next item in (iter :: next, v)
  end.

Definition item_insert (items : list Item) (item : Item) : list Item * Z :=
  let '(items, victim_volume) := item_erase items item in (item :: items, victim_volume).

Fixpoint item_lookup (items : list Item) (k : list Z) : option Item :=
  match items with
  | [] => None
  | iter :: next => if bool_decide (k = key iter) then Some iter else item_lookup next k
  end.

(** The buffer and the position after the item. *)
Definition item_encode (item : Item) (buffer : list Z) (ptr : nat) : exec (list Z * nat) :=
  r ← encode_uint64 buffer ptr (Z.of_nat (length (key item))); let '(buffer, pk) := r in
  buffer ← memcpy buffer pk (key item) 0 (length (key item));
  r ← encode_uint64 buffer (pk + length (key item)) (Z.of_nat (length (value item))); let '(buffer, pv) := r in
  buffer ← memcpy buffer pv (value item) 0 (length (value item));
  let pnext := (pv + length (value item))%nat in
  _ ← assert (volume item =? Z.of_nat (pnext - ptr));
  Done (buffer, pnext).

(** ** Items on a page *)

Definition decode_uint16 (src : list Z) (p : nat) : exec (nat * nat) :=
  r ← decode_uint64 src p; let '(p, v) := r in Done (p, Z.to_nat (u16 v)).

(** The item at [pklen], or [None] at the end of the items. *)
Definition rawitem_at (raw : list Z) (pklen limit : nat) : exec (option RawItem) :=
  r ← decode_uint16 raw pklen; let '(pk, klen) := r in
  if (pk =? pklen)%nat || (klen =? 0)%nat then Done None else
  r ← decode_uint16 raw (pk + klen); let '(pv, vlen) := r in
  Done (Some (mkRaw klen vlen pk pv limit)).

Definition rawitem_init (raw : list Z) (ptr : nat) : exec (option RawItem) :=
  rawitem_at raw ptr (ptr + BARREL_CAP).

Definition rawitem_next (raw : list Z) (ri : RawItem) : exec (option RawItem) :=
  let pklen := (pv ri + vlen ri)%nat in
  if (limit ri <=? pklen)%nat then Done None else rawitem_at raw pklen (limit ri).

(** [n] bytes at [p], as memcpy and memcmp read them. *)
Definition bytes_at (raw : list Z) (p n : nat) : exec (list Z) :=
  if (p + n <=? length raw)%nat then Done (take n (drop p raw)) else Fault.

Definition rawitem_to_keyvalue (raw : list Z) (ri : RawItem) : exec KeyValue :=
  k ← bytes_at raw (pk ri) (klen ri);
  v ← bytes_at raw (pv ri) (vlen ri);
  Done (mkKV k v).

Fixpoint raw_lookup_loop (fuel : nat) (key0 : list Z) (raw : list Z) (ri : RawItem) : exec (option KeyValue) :=
  same ← (if (klen ri =? length key0)%nat
          then k ← bytes_at raw (pk ri) (length key0); Done (bool_decide (key0 = k)) else Done false);
  if same : bool then kv ← rawitem_to_keyvalue raw ri; Done (Some kv)
  else
    next ← rawitem_next raw ri;
    match next, fuel with
    | None, _ => Done None
    | Some ri, O => NoFuel
    | Some ri, S fuel' => raw_lookup_loop fuel' key0 raw ri
    end.

Definition raw_barrel_lookup (key0 : list Z) (raw : list Z) : exec (option KeyValue) :=
  r ← rawitem_init raw 0;
  match r with None => Done None | Some ri => raw_lookup_loop BARREL_CAP key0 raw ri end.

(** ** Barrels *)

(** The count is 16 bits wide. *)
Definition barrel_count_lookup (b : Barrel) : Z := foldl (fun c i => u16 (c + (1 + nr_moved i))) 0 (concat (items b)).

(** The items, when an array of [room] pointers can take them. *)
Definition barrel_to_array (b : Barrel) (room : nat) : exec (list Item) :=
  if (length (concat (items b)) <=? room)%nat then Done (concat (items b)) else Fault.

Definition with_chain (b : Barrel) (hid : nat) (chain : list Item) (v : Z) : Barrel :=
  mkBarrel (<[hid:=chain]> (items b)) v (id b) (rid b) (nr_out b) (bmin b).

Definition barrel_erase (b : Barrel) (item : Item) : exec Barrel :=
  let hid := __hash_ht (hash item) in
  chain ← load (items b) hid;
  let '(chain, volume) := item_erase chain item in
  Done (with_chain b hid chain (u16 (bvolume b - volume))).

Definition barrel_insert (b : Barrel) (item : Item) : exec Barrel :=
  let hid := __hash_ht (hash item) in
  chain ← load (items b) hid;
  let '(chain, victim_volume) := item_insert chain item in
  Done (with_chain b hid chain (u16 (u16 (bvolume b + volume item) - victim_volume))).

Definition barrel_lookup (b : Barrel) (k hash : list Z) : exec (option Item) :=
  chain ← load (items b) (__hash_ht hash);
  Done (item_lookup chain k).

Definition metaindex_bytes (id rid : nat) (min : Z) : list Z := le 2 (Z.of_nat id) ++ le 2 (Z.of_nat rid) ++ le 4 min.

Fixpoint dump_items (l : list Item) (buffer : list Z) (ptr : nat) (nr_items : Z) : exec (list Z * nat * Z) :=
  match l with
  | [] => Done (buffer, ptr, nr_items)
  | iter :: l' =>
      r ← item_encode iter buffer ptr; let '(buffer, pnext) := r in
      _ ← assert (pnext <=? BARREL_CAP)%nat;
      dump_items l' buffer pnext (u16 (nr_items + 1))
  end.

(** [buffer] is the page of the barrel; the assertion keeps what is written
    inside it. *)
Definition barrel_dump_buffer (b : Barrel) (buffer : list Z) : exec (list Z * Z) :=
  r ← dump_items (concat (items b)) buffer 0 0; let '(buffer, ptr, nr_items) := r in
  buffer ← (if (ptr <? BARREL_CAP)%nat then
              buffer ← memset buffer ptr 0 (BARREL_CAP - ptr);
              r ← encode_uint64 buffer ptr 0; Done r.1
            else Done buffer);
  buffer ← memcpy buffer BARREL_CAP (metaindex_bytes (id b) (rid b) (bmin b)) 0 8;
  Done (buffer, nr_items).

(** ** The meta index *)

Fixpoint search_loop (fuel : nat) (mis : list MetaIndex) (id lid rid : nat) : exec (nat * nat) :=
  if (4 <? rid - lid)%nat then
    let mid := ((lid + rid) / 2)%nat in
    mi ← load mis mid;
    if (mi_id mi =? id)%nat then Done (lid, rid)
    else match fuel with
         | O => NoFuel
         | S fuel' => if (id <? mi_id mi)%nat then search_loop fuel' mis id lid mid
                      else search_loop fuel' mis id (S mid) rid
         end
  else Done (lid, rid).

(** The entries from [lid] on; [n] of them are left. *)
Fixpoint scan_loop (n : nat) (mis : list MetaIndex) (id lid : nat) : exec (option MetaIndex) :=
  match n with
  | O => Done None
  | S n' =>
      mi ← load mis lid;
      if (mi_id mi <? id)%nat then scan_loop n' mis id (S lid)
      else if (mi_id mi =? id)%nat then Done (Some mi) else Done None
  end.

Definition __find_metaindex (nr_mi : nat) (mis : list MetaIndex) (id : nat) : exec (option MetaIndex) :=
  r ← search_loop nr_mi mis id 0 nr_mi; let '(lid, rid) := r in
  scan_loop (rid - lid) mis id lid.

(** ** Tables in memory *)

(** Doubles: 53 bits of precision. *)
Definition fmul : spec_float -> spec_float -> spec_float := SFmul 53 1024.
Definition double_of (z : Z) : spec_float := binary_normalize 53 1024 z 0 false.
Definition to_uint64 (f : spec_float) : exec Z :=
  let z := match f with
           | S754_finite false m e => if 0 <=? e then Zpos m * 2 ^ e else Zpos m / 2 ^ (- e)
           | S754_finite true m e => if 0 <=? e then - (Zpos m * 2 ^ e) else - (Zpos m / 2 ^ (- e))
           | S754_zero _ => 0
           | _ => -1
           end in
  if (0 <=? z) && (z <? 2 ^ 64) then Done z else Fault.

(** 0.75 and 0.99 as the compiler rounds them. *)
Definition TABLE_VOLUME_PERCENT : spec_float := S754_finite false 6755399441055744 (-53).
Definition METAINDEX_PERCENT : spec_float := S754_finite false 8917127262193582 (-53).

Definition SIZEOF_BARREL : Z := 528.
Definition SIZEOF_ITEM : Z := 40.
Definition SIZEOF_BLOOMFILTER : Z := 8.

Section table.
Context (SHA1 : list Z -> list Z) `{Qsort}.
Context (mmap : bool -> Z -> bool) (malloc : Z -> bool) (junk : nat -> list Z).

Definition empty_barrel (i : nat) : Barrel := mkBarrel (replicate BARREL_NR_HT []) 0 i i 0 0.

(** [None] when the pool is too small for the barrels.  The table is fresh, so
    that io_buffer is allocated here. *)
Definition table_initial (pool : Mempool) (cap : Z) : exec (option Table) :=
  let '(pool, r) := mempool_alloc pool (SIZEOF_BARREL * Z.of_nat TABLE_MAX_BARRELS) in
  match r with
  | None => Done None
  | Some _ =>
      _ ← assert (huge_alloc mmap (Z.of_nat BARREL_ALIGN * Z.of_nat TABLE_NR_IO));
      Done (Some (mkTab 0 cap pool (empty_barrel <$> seq 0 TABLE_NR_BARRELS)
                    (replicate TABLE_NR_IO (replicate BARREL_ALIGN 0)) 0 [] None))
  end.

Definition table_alloc_new (cap_percent mempool_factor : spec_float) : exec Table :=
  let cap_max := double_of (Z.of_nat TABLE_NR_BARRELS * Z.of_nat BARREL_CAP) in
  msize ← to_uint64 (fmul cap_max mempool_factor);
  pool ← mempool_new mmap malloc msize;
  cap_limit ← to_uint64 (fmul cap_max cap_percent);
  match pool with
  | None => Fault
  | Some pool => ri ← table_initial pool cap_limit; match ri with None => Fault | Some t => Done t end
  end.

Definition table_alloc_default (mempool_factor : spec_float) : exec Table :=
  table_alloc_new TABLE_VOLUME_PERCENT mempool_factor.

Definition table_full (t : Table) : bool := capacity t <=? tvolume t.

(** The size of an item on a page, as 16 bits. *)
Definition item_volume (k v : list Z) : exec Z :=
  r ← encode_uint64 (junk 16) 0 (Z.of_nat (length k)); let '(buf, p1) := r in
  r ← encode_uint64 buf p1 (Z.of_nat (length v)); let '(buf, p2) := r in
  Done (u16 (Z.of_nat (length k) + Z.of_nat (length v) + Z.of_nat p2)).

Definition keyvalue_to_item (kv : KeyValue) (pool : Mempool) : exec (Mempool * option Item) :=
  let msize := SIZEOF_ITEM + Z.of_nat (length (kv_key kv)) + Z.of_nat (length (kv_value kv)) in
  let '(pool, r) := mempool_alloc pool msize in
  match r with
  | None => Done (pool, None)
  | Some _ =>
      volume ← item_volume (kv_key kv) (kv_value kv);
      Done (pool, Some (mkItem 0 volume (kv_key kv) (kv_value kv) (SHA1 (kv_key kv))))
  end.

Definition table_insert_item (t : Table) (item : Item) : exec Table :=
  let barrel_id := table_select_barrel (hash item) in
  barrel ← load (barrels t) barrel_id;
  let vol0 := bvolume barrel in
  barrel ← barrel_insert barrel item;
  let vol1 := bvolume barrel in
  Done (mkTab (u64 (tvolume t + (vol1 - vol0))) (capacity t) (mempool t) (<[barrel_id:=barrel]> (barrels t))
          (io_buffer t) (nr_mi t) (mis t) (bt t)).

Definition with_pool (t : Table) (pool : Mempool) : Table :=
  mkTab (tvolume t) (capacity t) pool (barrels t) (io_buffer t) (nr_mi t) (mis t) (bt t).

Definition table_insert_kv_safe (t : Table) (kv : KeyValue) : exec (Table * bool) :=
  if table_full t then Done (t, false) else
  r ← keyvalue_to_item kv (mempool t); let '(pool, item) := r in
  let t := with_pool t pool in
  match item with
  | None => Done (t, false)
  | Some item => t ← table_insert_item t item; Done (t, true)
  end.

Definition table_lookup (t : Table) (k hash : list Z) : exec (option KeyValue) :=
  let bid := table_select_barrel hash in
  barrel ← load (barrels t) bid;
  item ← barrel_lookup barrel k hash;
  Done (option_map (fun i => mkKV (key i) (value i)) item).

(** ** The Bloom filters of a table *)

Fixpoint update_filter (l : list Item) (bf : BloomFilter) : exec BloomFilter :=
  match l with [] => Done bf | i :: l' => bf ← bloom_update bf (__hash_bf (hash i)); update_filter l' bf end.

(** bloom_create does not look whether the pool has given it memory. *)
Definition barrel_create_bf (b : Barrel) (pool : Mempool) : exec (BloomFilter * Mempool) :=
  items ← barrel_to_array b BARREL_CAP;
  let item_count := u16 (Z.of_nat (length items)) in
  _ ← assert (item_count <? Z.of_nat BARREL_CAP);
  let bf := bloom_create item_count in
  let '(pool, r) := mempool_alloc pool (SIZEOF_BLOOMFILTER + bytes_ bf) in
  match r with None => Fault | Some _ => bf ← update_filter items bf; Done (bf, pool) end.

Fixpoint create_filters (bs : list Barrel) (pool : Mempool) : exec (list BloomFilter * Mempool) :=
  match bs with
  | [] => Done ([], pool)
  | b :: bs' =>
      r ← barrel_create_bf b pool; let '(bf, pool) := r in
      r ← create_filters bs' pool; let '(bfs, pool) := r in
      Done (bf :: bfs, pool)
  end.

Definition table_build_bloomtable (t : Table) : exec Table :=
  _ ← assert (match bt t with None => true | Some _ => false end);
  r ← create_filters (barrels t) (mempool t); let '(bfs, pool) := r in
  b ← bloomtable_build junk bfs;
  Done (mkTab (tvolume t) (capacity t) pool (barrels t) (io_buffer t) (nr_mi t) (mis t) (Some b)).

(** ** Retaining: no barrel larger than a page *)

(** -1, 0 or 1. *)
Definition compare_by {A} (f : A -> Z) (x y : A) : Z := if f x <? f y then -1 else if f y <? f x then 1 else 0.

Definition volume_of (bs : list Barrel) (i : nat) : Z := match bs !! i with Some b => bvolume b | None => 0 end.

Definition __compare_volume (bs : list Barrel) : nat -> nat -> Z := compare_by (volume_of bs).

Definition retaining_sort_barrels_by_volume (bs : list Barrel) : list nat :=
  qsort (__compare_volume bs) (seq 0 TABLE_NR_BARRELS).

(** The argument is the address of a 16-bit id, read as 64 bits and cut back. *)
Definition __compare_hash_order (bid : nat) : Item -> Item -> Z := compare_by (fun i => rotated (hash i) bid).

(** The items from [ir] on, the [i]-th first, as long as [br] is too large;
    whether this succeeds, and the items that stay. *)
Fixpoint move_loop (ir : list Item) (i : Z) (br bl : Barrel) : exec (Barrel * Barrel * Z * list Item * bool) :=
  if Z.of_nat BARREL_CAP <? bvolume br then
    match ir with
    | [] => Done (br, bl, i, [], false)
    | it :: ir' =>
        br ← barrel_erase br it;
        bl ← barrel_insert bl (mkItem (u16 (nr_moved it + 1)) (volume it) (key it) (value it) (hash it));
        move_loop ir' (i + 1) br bl
    end
  else Done (br, bl, i, ir, true).

(** [br] and [bl] are different barrels. *)
Definition retaining_move_barrels (br bl : Barrel) : exec (Barrel * Barrel * bool) :=
  ir ← barrel_to_array br BARREL_ALIGN;
  r ← move_loop (qsort (__compare_hash_order (id br)) ir) 0 br bl;
  let '(br, bl, i, rest, ok) := r in
  if ok : bool then
    it ← load rest 0;
    min ← __hash_order (hash it) (id br);
    Done (mkBarrel (items br) (bvolume br) (id br) (id bl) (u16 i) min, bl, true)
  else Done (br, bl, false).

(** The next barrel from [lid] on that has not given items away. *)
Fixpoint skip_moved (fuel : nat) (bs : list Barrel) (order : list nat) (lid : nat) : exec nat :=
  x ← load order lid; b ← load bs x;
  if 0 <? nr_out b then match fuel with O => NoFuel | S fuel' => skip_moved fuel' bs order (S lid) end
  else Done lid.

(** [rid] counts down.  The result is whether the largest barrel left fits. *)
Fixpoint move_sorted_loop (order : list nat) (lid rid : nat) (bs : list Barrel) : exec (list Barrel * bool) :=
  xr ← load order rid; br ← load bs xr;
  if (Z.of_nat BARREL_CAP <? bvolume br) && (lid <? rid)%nat then
    _ ← assert (nr_out br =? 0);
    lid ← skip_moved (length order) bs order lid;
    if (rid <=? lid)%nat then Done (bs, negb (Z.of_nat BARREL_CAP <? bvolume br)) else
    xl ← load order lid; bl ← load bs xl;
    r ← retaining_move_barrels br bl; let '(br, bl, rm) := r in
    let bs := <[xl:=bl]> (<[xr:=br]> bs) in
    match rm, rid with
    (* rid is not 0: lid < rid *)
    | true, S rid' => move_sorted_loop order (S lid) rid' bs
    | _, _ => Done (bs, false)
    end
  else Done (bs, negb (Z.of_nat BARREL_CAP <? bvolume br)).

Definition retaining_move_sorted (order : list nat) (bs : list Barrel) : exec (list Barrel * bool) :=
  move_sorted_loop order 0 (TABLE_NR_BARRELS - 1) bs.

Definition retaining_nr_todo (bs : list Barrel) : exec Z :=
  let nr_all := foldl (fun n b => u64 (n + barrel_count_lookup b)) 0 bs in
  let nr_out := foldl (fun n b => u64 (n + nr_out b)) 0 bs in
  let nr_covered := u64 (nr_all - nr_out) in
  nr_cover ← to_uint64 (fmul (double_of nr_all) METAINDEX_PERCENT);
  Done (if nr_covered <? nr_cover then nr_cover - nr_covered else 0).

Definition out_of (bs : list Barrel) (i : nat) : Z := match bs !! i with Some b => nr_out b | None => 0 end.

(** From the largest to the smallest. *)
Definition __compare_out (bs : list Barrel) : nat -> nat -> Z := compare_by (fun i => - out_of bs i).
Definition __compare_id : MetaIndex -> MetaIndex -> Z := compare_by (fun m => Z.of_nat (mi_id m)).

(** The index entries of the barrels in [order], at most [n]. *)
Fixpoint copy_index (n : nat) (bs : list Barrel) (order : list nat) (nr_todo : Z) : exec (list MetaIndex) :=
  match n with
  | O => Done []
  | S n' =>
      match order with
      | [] => Fault
      | x :: order' =>
          b ← load bs x;
          let mi := mkMI (id b) (rid b) (bmin b) in
          if nr_todo <=? nr_out b then Done [mi]
          else l ← copy_index n' bs order' (nr_todo - nr_out b); Done (mi :: l)
      end
  end.

Definition retaining_build_metaindex (t : Table) : exec Table :=
  let order := qsort (__compare_out (barrels t)) (seq 0 TABLE_NR_BARRELS) in
  nr_todo ← retaining_nr_todo (barrels t);
  mi_buf ← copy_index METAINDEX_MAX_NR (barrels t) order nr_todo;
  let mi_buf := qsort __compare_id mi_buf in
  let nr_mi := Z.of_nat (length mi_buf) in
  let '(pool, r) := mempool_alloc (mempool t) (8 * nr_mi) in
  match r with
  | None => Fault
  | Some _ => Done (mkTab (tvolume t) (capacity t) pool (barrels t) (io_buffer t) nr_mi mi_buf (bt t))
  end.

Definition with_barrels (t : Table) (bs : list Barrel) : Table :=
  mkTab (tvolume t) (capacity t) (mempool t) bs (io_buffer t) (nr_mi t) (mis t) (bt t).

(** [count] rounds are left. *)
Fixpoint retain_loop (count : nat) (t : Table) : exec (Table * bool) :=
  match count with
  | O => Done (t, false)
  | S count' =>
      let order := retaining_sort_barrels_by_volume (barrels t) in
      x ← load order (TABLE_NR_BARRELS - 1); b ← load (barrels t) x;
      if bvolume b <=? Z.of_nat BARREL_CAP then t ← retaining_build_metaindex t; Done (t, true)
      else
        r ← retaining_move_sorted order (barrels t); let '(bs, rr) := r in
        if rr : bool then retain_loop count' (with_barrels t bs) else Done (with_barrels t bs, false)
  end.

Definition table_retain (t : Table) : exec (Table * bool) := retain_loop 100 t.

(** ** Tables on disk *)

(** The barrels [bs] into the slots of io_buffer, and the items counted. *)
Fixpoint dump_slots (bs : list Barrel) (slots : list (list Z)) (nr : Z) : exec (list (list Z) * Z) :=
  match bs, slots with
  | [], _ => Done (slots, nr)
  | b :: bs', slot :: slots' =>
      r ← barrel_dump_buffer b slot; let '(slot, nr_items) := r in
      r ← dump_slots bs' slots' (u64 (nr + nr_items)); let '(slots', nr) := r in
      Done (slot :: slots', nr)
  | _, [] => Fault
  end.

(** From barrel [j] on, TABLE_NR_IO barrels at a time, [n] times. *)
Fixpoint dump_loop (n j : nat) (t : Table) (file : list Z) (off : nat) (nr_all_items : Z) : exec (Table * list Z * Z) :=
  match n with
  | O => Done (t, file, nr_all_items)
  | S n' =>
      if (j <? TABLE_NR_BARRELS)%nat then
        let nr_dump := if (TABLE_NR_BARRELS <? j + TABLE_NR_IO)%nat then (TABLE_NR_BARRELS - j)%nat else TABLE_NR_IO in
        r ← dump_slots (take nr_dump (drop j (barrels t))) (io_buffer t) nr_all_items;
        let '(slots, nr_all_items) := r in
        let slots := take nr_dump slots ++ replicate (TABLE_NR_IO - nr_dump) (replicate BARREL_ALIGN 0) in
        let t := mkTab (tvolume t) (capacity t) (mempool t) (barrels t) slots (nr_mi t) (mis t) (bt t) in
        dump_loop n' (j + TABLE_NR_IO) t (pwrite file (concat slots) (off + BARREL_ALIGN * j)) off nr_all_items
      else Done (t, file, nr_all_items)
  end.

(** Four turns are enough for 8191 barrels. *)
Definition table_dump_barrels (t : Table) (file : list Z) (off : nat) : exec (Table * list Z * Z) :=
  dump_loop 4 0 t file off 0.

(** The content of the metadata file; it can be created. *)
Definition table_dump_meta (t : Table) (off : nat) : exec (list Z) :=
  let mfh := le 8 (Z.of_nat off) ++ le 8 (tvolume t) ++ le 8 (nr_mi t) in
  ids ← (if (Z.to_nat (nr_mi t) <=? length (mis t))%nat then Done (take (Z.to_nat (nr_mi t)) (mis t)) else Fault);
  match bt t with
  | None => Fault
  | Some b => bloomtable_dump b (mfh ++ concat ((fun m => metaindex_bytes (mi_id m) (mi_rid m) (mi_min m)) <$> ids))
  end.

Definition metaindex_of (l : list Z) : MetaIndex :=
  mkMI (Z.to_nat (word 2 0 l)) (Z.to_nat (word 2 2 l)) (word 4 4 l).

Fixpoint read_metaindex (n : nat) (l : list Z) : list MetaIndex :=
  match n with O => [] | S n' => metaindex_of l :: read_metaindex n' (drop 8 l) end.

Definition metatable_load (fi : list Z) (load_bf : bool) : exec MetaTable :=
  r ← fread fi 24; let '(mfh, fi) := r in
  let nr_mi := word 8 16 mfh in
  _ ← assert (nr_mi <=? Z.of_nat TABLE_NR_BARRELS);
  r ← fread fi (8 * Z.to_nat nr_mi); let '(mis, fi) := r in
  b ← (if load_bf then r ← bloomtable_load junk fi; Done (Some r.1) else Done None);
  Done (mkMT (Z.to_nat (word 8 0 mfh)) (word 8 8 mfh) nr_mi (read_metaindex (Z.to_nat nr_mi) mis) b).

Definition count_fetch (s : option Stat) : option Stat :=
  option_map (fun s => mkStat (u64 (nr_fetch_barrel s + 1)) (nr_true_negative s) (nr_true_positive s) (nr_false_positive s)) s.

(** The page of a barrel: a short read fails the assertion at the callers. *)
Definition raw_barrel_fetch (mt : MetaTable) (file : list Z) (barrel_id : nat) (s : option Stat) : exec (list Z * option Stat) :=
  buf ← pread file BARREL_ALIGN (barrel_id * BARREL_ALIGN + mt_off mt);
  Done (buf, count_fetch s).

Definition raw_barrel_metaindex (buf : list Z) : exec MetaIndex :=
  l ← bytes_at buf BARREL_CAP 8; Done (metaindex_of l).

(** [fuel] more barrels. *)
Fixpoint metatable_recursive_lookup (fuel : nat) (mt : MetaTable) (file : list Z) (bid : nat) (buf k hash : list Z)
    (s : option Stat) : exec (option KeyValue * option Stat) :=
  _ ← assert (bid <? TABLE_NR_BARRELS)%nat;
  hash32 ← __hash_order hash bid;
  mi0 ← __find_metaindex (Z.to_nat (mt_nr_mi mt)) (mt_mis mt) bid;
  let fetch0 := match mi0 with None => true | Some mi0 => mi_min mi0 <=? hash32 end in
  r ← (if fetch0 : bool then raw_barrel_fetch mt file bid s else Done (buf, s)); let '(buf, s) := r in
  mi ← match mi0 with Some mi0 => Done mi0 | None => raw_barrel_metaindex buf end;
  if hash32 <? mi_min mi then
    _ ← assert (negb (mi_id mi =? mi_rid mi)%nat);
    match fuel with O => NoFuel | S fuel' => metatable_recursive_lookup fuel' mt file (mi_rid mi) buf k hash s end
  else
    r ← (if fetch0 : bool then Done (buf, s) else raw_barrel_fetch mt file bid s); let '(buf, s) := r in
    kv ← raw_barrel_lookup k buf;
    match kv with
    | Some kv => Done (Some kv, s)
    | None =>
        if (hash32 =? mi_min mi) && negb (mi_id mi =? mi_rid mi)%nat then
          match fuel with O => NoFuel | S fuel' => metatable_recursive_lookup fuel' mt file (mi_rid mi) buf k hash s end
        else Done (None, s)
    end.

(** The counters after a lookup that ended with [kv]. *)
Definition count_result (kv : option KeyValue) (s : option Stat) : option Stat :=
  option_map (fun s =>
    match kv with
    | Some _ => mkStat (nr_fetch_barrel s) (nr_true_negative s) (u64 (nr_true_positive s + 1)) (nr_false_positive s)
    | None => mkStat (nr_fetch_barrel s) (nr_true_negative s) (nr_true_positive s) (u64 (nr_false_positive s + 1))
    end) s.

Definition count_negative (s : option Stat) : option Stat :=
  option_map (fun s => mkStat (nr_fetch_barrel s) (u64 (nr_true_negative s + 1)) (nr_true_positive s) (nr_false_positive s)) s.

Definition metatable_lookup (mt : MetaTable) (file : list Z) (k hash : list Z) (s : option Stat)
    : exec (option KeyValue * option Stat) :=
  let bid := table_select_barrel hash in
  exist ← match mt_bt mt with
          | None => Done true
          | Some b => bloomtable_match b (Z.of_nat bid) (__hash_bf hash)
          end;
  if exist : bool then
    r ← metatable_recursive_lookup TABLE_NR_BARRELS mt file bid (junk BARREL_ALIGN) k hash s; let '(kv, s) := r in
    Done (kv, count_result kv s)
  else Done (None, count_negative s).

(** ** Feeding the barrels of a table to other tables *)

Definition rawitem_to_item (raw : list Z) (ri : RawItem) (pool : Mempool) (hash : list Z) : exec (Mempool * option Item) :=
  let '(pool, r) := mempool_alloc pool (SIZEOF_ITEM + Z.of_nat (klen ri) + Z.of_nat (vlen ri)) in
  match r with
  | None => Done (pool, None)
  | Some _ =>
      kv ← rawitem_to_keyvalue raw ri;
      volume ← item_volume (kv_key kv) (kv_value kv);
      Done (pool, Some (mkItem 0 volume (kv_key kv) (kv_value kv) hash))
  end.

(** The locks of table_insert_item_mt order the insertions into a barrel. *)
Definition table_insert_rawitem_mt (t : Table) (raw : list Z) (ri : RawItem) (hash : list Z) : exec Table :=
  r ← rawitem_to_item raw ri (mempool t) hash; let '(pool, item) := r in
  match item with None => Fault | Some item => table_insert_item (with_pool t pool) item end.

Context (select_table : list Z -> Z -> nat).

Fixpoint feed_loop (fuel : nat) (raw : list Z) (ri : RawItem) (tables : list Table) (arg2 : Z) : exec (list Table) :=
  k ← bytes_at raw (pk ri) (klen ri);
  let hash := SHA1 k in
  let tid := select_table hash arg2 in
  t ← load tables tid;
  t ← table_insert_rawitem_mt t raw ri hash;
  let tables := <[tid:=t]> tables in
  next ← rawitem_next raw ri;
  match next, fuel with
  | None, _ => Done tables
  | Some ri, O => NoFuel
  | Some ri, S fuel' => feed_loop fuel' raw ri tables arg2
  end.

(** [None] for a page without items. *)
Definition raw_barrel_feed_to_tables (raw : list Z) (tables : list Table) (arg2 : Z) : exec (option (list Table)) :=
  r ← rawitem_init raw 0;
  match r with None => Done None | Some ri => tables ← feed_loop BARREL_CAP raw ri tables arg2; Done (Some tables) end.

Fixpoint feed_pages (pages : list (list Z)) (tables : list Table) (arg2 : Z) : exec (list Table) :=
  match pages with
  | [] => Done tables
  | raw :: pages' =>
      rf ← raw_barrel_feed_to_tables raw tables arg2;
      match rf with None => Fault | Some tables => feed_pages pages' tables arg2 end
  end.

(** The pages are read in one piece; that the read is complete is not checked,
    and a page that is not on disk is not modelled. *)
Definition metatable_feed_barrels_to_tables (mt : MetaTable) (file : list Z) (start nr : nat) (tables : list Table) (arg2 : Z)
    : exec (list Table) :=
  _ ← assert (start + nr <=? TABLE_NR_BARRELS)%nat;
  arena ← pread file (BARREL_ALIGN * nr) (start * BARREL_ALIGN + mt_off mt);
  feed_pages ((fun i => take BARREL_ALIGN (drop (i * BARREL_ALIGN) arena)) <$> seq 0 nr) tables arg2.
End table.
End Lsm.
