(* ===== verification/LsmMem.v ===== *)
(** * Tables of the LSM-trie in memory

    What a barrel holds and how its operations change it, and the table as a
    finite map from keys to values. *)

From Stdlib Require Import Sorted.
From stdpp Require Import gmap.
From S2P Require Import Prelude Coding Bloom BloomPages Mempool LsmTable.
Import Coding Lsm.

Lemma nr_barrels_value : Z.of_nat TABLE_NR_BARRELS = 8191.
Proof. vm_compute. reflexivity. Qed.
Lemma cap_value : Z.of_nat BARREL_CAP = 4088.
Proof. vm_compute. reflexivity. Qed.
#[global] Opaque TABLE_NR_BARRELS BARREL_CAP TABLE_NR_IO METAINDEX_MAX_NR BARREL_NR_HT.

Lemma u16_eq a b : (exists k, a = b + k * 2 ^ 16) -> u16 a = u16 b.
Proof. intros [k ->]. unfold u16. apply Z.mod_add. lia. Qed.

Lemma u16_small z : 0 <= z < 65536 -> u16 z = z.
Proof. apply Z.mod_small. Qed.

(** [u16] of sums and differences. *)
Lemma u16_sub a b : u16 (u16 a - u16 b) = u16 (a - b).
Proof. unfold u16. by rewrite <- Zminus_mod. Qed.
Lemma u16_add a b : u16 (u16 a + u16 b) = u16 (a + b).
Proof. unfold u16. by rewrite <- Z.add_mod. Qed.

(** ** Items *)

(** The bytes of an item on a page. *)
Definition enc (i : Item) : list Z :=
  varint (Z.of_nat (length (key i))) ++ key i ++ varint (Z.of_nat (length (value i))) ++ value i.

Definition size (i : Item) : Z := Z.of_nat (length (enc i)).
Definition sizes (l : list Item) : Z := foldr (fun i n => size i + n) 0 l.
Definition pair_of (i : Item) : list Z * list Z := (key i, value i).

Lemma sizes_cons i l : sizes (i :: l) = size i + sizes l.
Proof. done. Qed.
Lemma sizes_app a b : sizes (a ++ b) = sizes a + sizes b.
Proof. induction a as [|i a IH]; [done|]. cbn [app]. rewrite !sizes_cons, IH. lia. Qed.

#[export] Instance sizes_perm : Proper ((≡ₚ) ==> (=)) sizes.
Proof. intros a b H. induction H; rewrite ?sizes_cons; lia. Qed.

Lemma size_pos i : 2 <= size i.
Proof.
  unfold size, enc. rewrite !length_app. pose proof (length_varint (Z.of_nat (length (key i)))).
  pose proof (length_varint (Z.of_nat (length (value i)))). lia.
Qed.

Lemma sizes_nonneg l : 2 * Z.of_nat (length l) <= sizes l.
Proof. induction l as [|i l IH]; [done|]. rewrite sizes_cons. pose proof (size_pos i). cbn [length]. lia. Qed.

(** Keys as the callers pass them; an empty key ends a page. *)
Definition key_ok (k : list Z) : Prop := k <> [] /\ Z.of_nat (length k) < 65536.

Section sha.
Context (SHA1 : list Z -> list Z).

Record item_ok (i : Item) : Prop := {
  it_hash : hash i = SHA1 (key i);
  it_key : key_ok (key i);
  it_value : Z.of_nat (length (value i)) < 65536;
  it_volume : volume i = u16 (size i) }.

(** ** Chains *)

(** The items with another key. *)
Definition others (k : list Z) (l : list Item) : list Item := base.filter (fun i => key i <> k) l.

#[export] Instance others_perm k : Proper ((≡ₚ) ==> (≡ₚ)) (others k).
Proof. intros a b H. unfold others. by rewrite H. Qed.

Lemma others_cons_ne k i l : key i <> k -> others k (i :: l) = i :: others k l.
Proof. intros H. unfold others. by rewrite list.filter_cons_True. Qed.
Lemma others_cons_eq k i l : key i = k -> others k (i :: l) = others k l.
Proof. intros H. unfold others. rewrite list.filter_cons_False; [done|]. intros Hn. by apply Hn. Qed.

Lemma others_none k l : k ∉ key <$> l -> others k l = l.
Proof.
  induction l as [|i l IH]; intros H; [done|]. rewrite fmap_cons, not_elem_of_cons in H. destruct H as [H1 H2].
  rewrite others_cons_ne by congruence. by rewrite IH.
Qed.

Lemma Forall_others P k l : Forall P l -> Forall P (others k l).
Proof. intros H. apply Forall_forall. intros i Hi. apply list_elem_of_filter in Hi as [_ Hi]. by apply (proj1 (Forall_forall _ _) H). Qed.

Lemma others_app k a b : others k (a ++ b) = others k a ++ others k b.
Proof. apply filter_app. Qed.

Lemma others_keys k l : k ∉ key <$> others k l.
Proof. intros H. apply list_elem_of_fmap_1 in H as (i & -> & Hi). apply list_elem_of_filter in Hi as [Hi _]. done. Qed.

Lemma others_nodup k l : NoDup (key <$> l) -> NoDup (key <$> others k l).
Proof.
  induction l as [|i l IH]; intros H; [done|]. apply NoDup_cons in H as [H1 H2].
  destruct (decide (key i = k)); [rewrite others_cons_eq by done; auto|]. rewrite others_cons_ne by done.
  apply NoDup_cons. split; [|auto]. intros Hin. apply H1. apply list_elem_of_fmap_1 in Hin as (j & -> & Hj).
  apply list_elem_of_filter in Hj as [_ Hj]. by apply list_elem_of_fmap_2.
Qed.

(** item_erase takes the item with the key out. *)
Lemma item_erase_spec it l :
  NoDup (key <$> l) -> Forall item_ok l ->
  exists v, item_erase l it = (others (key it) l, v) /\ u16 (sizes l - v) = u16 (sizes (others (key it) l)).
Proof.
  induction l as [|i l IH]; intros Hn Hok.
  { exists 0. done. }
  apply NoDup_cons in Hn as [Hn1 Hn2]. inversion_clear Hok as [|?? Hi Hok']. cbn [item_erase]. unfold item_identical.
  case_bool_decide as E.
  - rewrite others_cons_eq by done. rewrite E in Hn1. rewrite (others_none _ l) by done.
    exists (volume i). split; [done|]. rewrite sizes_cons, (it_volume _ Hi). apply u16_eq.
    exists (size i / 2 ^ 16). unfold u16. pose proof (Z.div_mod (size i) (2 ^ 16)). lia.
  - destruct (IH Hn2 Hok') as (v & -> & Hv). exists v. rewrite others_cons_ne by done. split; [done|].
    rewrite !sizes_cons. replace (size i + sizes l - v) with (size i + (sizes l - v)) by lia.
    rewrite <- (u16_add (size i)), Hv, u16_add. done.
Qed.

Lemma item_lookup_spec l k : NoDup (key <$> l) ->
  forall i, item_lookup l k = Some i <-> i ∈ l /\ key i = k.
Proof.
  induction l as [|j l IH]; intros Hn i; [split; [done|intros [H _]; by apply not_elem_of_nil in H]|].
  apply NoDup_cons in Hn as [Hn1 Hn2]. cbn [item_lookup]. case_bool_decide as E.
  - split; [intros H; injection H as ->; split; [apply list_elem_of_here|done]|]. intros [Hi Hk].
    apply elem_of_cons in Hi as [->|Hi]; [done|]. exfalso. apply Hn1. rewrite <- E, <- Hk. by apply list_elem_of_fmap_2.
  - rewrite (IH Hn2). split; intros [Hi Hk]; (split; [|done]); [by apply list_elem_of_further|].
    apply elem_of_cons in Hi as [->|Hi]; [by rewrite Hk in E|done].
Qed.

(** ** Barrels *)

Definition contents (b : Barrel) : list Item := concat (items b).

Record barrel_ok (b : Barrel) : Prop := {
  ba_chains : length (items b) = BARREL_NR_HT;
  ba_items : Forall item_ok (contents b);
  ba_place : forall h c, items b !! h = Some c -> Forall (fun i => __hash_ht (hash i) = h) c;
  ba_nodup : NoDup (key <$> contents b);
  ba_volume : bvolume b = u16 (sizes (contents b)) }.

Lemma hash_ht_lt h : (__hash_ht h < BARREL_NR_HT)%nat.
Proof.
  unfold __hash_ht. assert (0 < Z.of_nat BARREL_NR_HT) by (vm_compute; reflexivity).
  pose proof (Z.mod_pos_bound (word 4 16 h) (Z.of_nat BARREL_NR_HT)). lia.
Qed.

(** The chains but one. *)
Lemma concat_chain {A} (ls : list (list A)) h c : ls !! h = Some c ->
  exists r, concat ls ≡ₚ c ++ r /\ (forall c', concat (<[h:=c']> ls) ≡ₚ c' ++ r) /\
    forall x, x ∈ r -> exists h' c', h' <> h /\ ls !! h' = Some c' /\ x ∈ c'.
Proof.
  revert h. induction ls as [|l ls IH]; intros [|h] H; [done..| |].
  - injection H as ->. exists (concat ls). split_and!; [done|done|]. intros x Hx.
    apply list_elem_of_In, in_concat in Hx as (c' & Hc' & Hx). apply list_elem_of_In, list_elem_of_lookup in Hc' as (j & Hj).
    exists (S j), c'. split_and!; [lia|done|by apply list_elem_of_In].
  - destruct (IH h H) as (r & H1 & H2 & H3). exists (l ++ r). split_and!.
    + cbn [concat]. rewrite H1. by rewrite !app_assoc, (Permutation_app_comm l).
    + intros c'. change (<[S h:=c']> (l :: ls)) with (l :: <[h:=c']> ls). cbn [concat]. rewrite H2. by rewrite !app_assoc, (Permutation_app_comm l).
    + intros x Hx. apply elem_of_app in Hx as [Hx|Hx].
      * exists O, l. split_and!; [lia|done|done].
      * destruct (H3 x Hx) as (h' & c' & ? & ? & ?). exists (S h'), c'. split_and!; [lia|done|done].
Qed.

(** A barrel whose chain for [it] has lost the item with its key and gained
    the items [new]. *)
Lemma chain_change b it new v :
  barrel_ok b -> hash it = SHA1 (key it) ->
  Forall (fun i => item_ok i /\ key i = key it) new -> NoDup (key <$> new) ->
  u16 v = u16 (sizes (others (key it) (contents b)) + sizes new) ->
  exists c, items b !! __hash_ht (hash it) = Some c /\ NoDup (key <$> c) /\ Forall item_ok c /\
    u16 (sizes c - sizes (others (key it) c)) = u16 (sizes (contents b) - sizes (others (key it) (contents b))) /\
    let b' := with_chain b (__hash_ht (hash it)) (new ++ others (key it) c) (u16 v) in
    barrel_ok b' /\ contents b' ≡ₚ new ++ others (key it) (contents b).
Proof.
  intros [H1 H2 H3 H4 H5] Hh Hnew Hnn Hv.
  destruct (lookup_lt_is_Some_2 (items b) (__hash_ht (hash it))) as [c Hc]; [rewrite H1; apply hash_ht_lt|].
  destruct (concat_chain _ _ _ Hc) as (r & Hr & Hins & Hrest). fold (contents b) in Hr.
  assert (key it ∉ key <$> r) as Hkr.
  { intros Hin. apply list_elem_of_fmap_1 in Hin as (j & Ej & Hj). destruct (Hrest j Hj) as (h' & c' & Hne & Hc' & Hjc).
    apply Hne. pose proof (proj1 (Forall_forall _ _) (H3 _ _ Hc') j Hjc) as Hp. cbn in Hp. rewrite <- Hp.
    rewrite Hh, Ej. f_equal. apply (it_hash j). rewrite Hr, Forall_app in H2. destruct H2 as [_ H2].
    exact (proj1 (Forall_forall _ _) H2 j Hj). }
  assert (others (key it) (contents b) ≡ₚ others (key it) c ++ r) as Ho.
  { rewrite Hr, others_app, (others_none _ r) by done. done. }
  pose proof H4 as H4'. rewrite Hr, fmap_app in H4'. apply NoDup_app in H4' as (Hnc & Hncr & Hnr).
  pose proof H2 as H2'. rewrite Hr, Forall_app in H2'. destruct H2' as [H2c H2r].
  exists c. split_and!; [done|done|done| |].
  { f_equal. rewrite Ho, Hr, !sizes_app. lia. }
  set (b' := with_chain _ _ _ _). assert (contents b' ≡ₚ new ++ others (key it) (contents b)) as Hb'.
  { unfold contents, b', with_chain. cbn [items]. rewrite Hins, <- app_assoc. fold (contents b). by rewrite Ho. }
  split; [|done]. split.
  - cbn. by rewrite length_insert.
  - rewrite Hb', Forall_app. split; [eapply Forall_impl; [exact Hnew|]; by intros i []|]. by apply Forall_others.
  - intros h c' Hl. cbn [b' with_chain items] in Hl. destruct (decide (h = __hash_ht (hash it))) as [->|Hne].
    + rewrite list_lookup_insert_eq in Hl by (rewrite H1; apply hash_ht_lt). injection Hl as <-. apply Forall_app. split.
      * eapply Forall_impl; [exact Hnew|]. intros i [Hi Hk]. by rewrite (it_hash _ Hi), Hk, <- Hh.
      * apply Forall_others. by apply H3.
    + rewrite list_lookup_insert_ne in Hl by done. by apply H3.
  - rewrite Hb', fmap_app. apply NoDup_app. split_and!; [done| |by apply others_nodup].
    intros k Hk. apply list_elem_of_fmap_1 in Hk as (i & -> & Hi).
    rewrite (proj2 (proj1 (Forall_forall _ _) Hnew i Hi)). apply others_keys.
  - rewrite Hb', sizes_app. cbn. rewrite Hv. f_equal. lia.
Qed.

Definition same_meta (b b' : Barrel) : Prop :=
  id b' = id b /\ rid b' = rid b /\ nr_out b' = nr_out b /\ bmin b' = bmin b.

Lemma barrel_erase_spec b it :
  barrel_ok b -> hash it = SHA1 (key it) ->
  exists b', barrel_erase b it = Done b' /\ barrel_ok b' /\ contents b' ≡ₚ others (key it) (contents b) /\ same_meta b b'.
Proof.
  intros Hb Hh. destruct (chain_change b it [] (sizes (others (key it) (contents b))) Hb Hh) as (c & Hc & Hn & Hok & Hs & Hb' & Hp);
    [constructor|constructor|f_equal; cbn; lia|].
  unfold barrel_erase. rewrite (load_Done _ _ _ Hc). run. destruct (item_erase_spec it c Hn Hok) as (v & -> & Hv).
  assert (u16 (bvolume b - v) = u16 (sizes (others (key it) (contents b)))) as ->.
  { rewrite (ba_volume _ Hb). unfold u16 in *. rewrite Zminus_mod_idemp_l.
    replace (sizes (contents b) - v) with (sizes (contents b) - sizes c + (sizes c - v)) by lia.
    rewrite <- Z.add_mod_idemp_r, Hv, Z.add_mod_idemp_r by lia.
    replace (sizes (contents b) - sizes c + sizes (others (key it) c))
      with (sizes (contents b) - (sizes c - sizes (others (key it) c))) by lia.
    rewrite <- Zminus_mod_idemp_r, Hs, Zminus_mod_idemp_r. f_equal. lia. }
  eexists. split; [done|]. split_and!; [exact Hb'|exact Hp|done].
Qed.

Lemma barrel_insert_spec b it :
  barrel_ok b -> item_ok it ->
  exists b', barrel_insert b it = Done b' /\ barrel_ok b' /\ contents b' ≡ₚ it :: others (key it) (contents b) /\ same_meta b b'.
Proof.
  intros Hb Hi. destruct (chain_change b it [it] (sizes (others (key it) (contents b)) + size it) Hb (it_hash _ Hi)) as (c & Hc & Hn & Hok & Hs & Hb' & Hp);
    [by constructor|apply NoDup_singleton|f_equal; cbn; lia|].
  unfold barrel_insert. rewrite (load_Done _ _ _ Hc). run. unfold item_insert.
  destruct (item_erase_spec it c Hn Hok) as (v & -> & Hv).
  assert (u16 (u16 (bvolume b + volume it) - v) = u16 (sizes (others (key it) (contents b)) + size it)) as ->.
  { rewrite (ba_volume _ Hb), (it_volume _ Hi), u16_add. unfold u16 in *. rewrite Zminus_mod_idemp_l.
    replace (sizes (contents b) + size it - v) with (sizes (contents b) + size it - sizes c + (sizes c - v)) by lia.
    rewrite <- Z.add_mod_idemp_r, Hv, Z.add_mod_idemp_r by lia.
    replace (sizes (contents b) + size it - sizes c + sizes (others (key it) c))
      with (sizes (contents b) + size it - (sizes c - sizes (others (key it) c))) by lia.
    rewrite <- Zminus_mod_idemp_r, Hs, Zminus_mod_idemp_r. f_equal. lia. }
  eexists. split; [done|]. split_and!; [exact Hb'|exact Hp|done].
Qed.

Lemma barrel_lookup_spec b k :
  barrel_ok b -> exists r, barrel_lookup b k (SHA1 k) = Done r /\ forall i, r = Some i <-> i ∈ contents b /\ key i = k.
Proof.
  intros Hb. pose proof (ba_chains _ Hb) as Hl.
  destruct (lookup_lt_is_Some_2 (items b) (__hash_ht (SHA1 k))) as [c Hc]; [rewrite Hl; apply hash_ht_lt|].
  unfold barrel_lookup. rewrite (load_Done _ _ _ Hc). run. eexists. split; [done|]. intros i.
  destruct (concat_chain _ _ _ Hc) as (r & Hr & _ & Hrest). fold (contents b) in Hr.
  pose proof (ba_nodup _ Hb) as Hn. rewrite Hr, fmap_app in Hn. apply NoDup_app in Hn as (Hn & _ & _).
  rewrite (item_lookup_spec c k Hn), Hr, elem_of_app. split; [intros [? ?]; auto|]. intros [[Hi|Hi] Hk]; [done|].
  exfalso. pose proof (ba_items _ Hb) as Hok. rewrite Hr, Forall_app in Hok. destruct Hok as [_ Hok].
  destruct (Hrest i Hi) as (h' & c' & Hne & Hc' & Hic). apply Hne.
  pose proof (proj1 (Forall_forall _ _) (ba_place _ Hb _ _ Hc') i Hic) as Hp. cbn in Hp. rewrite <- Hp.
  f_equal. rewrite <- Hk. exact (it_hash _ (proj1 (Forall_forall _ _) Hok i Hi)).
Qed.
End sha.

(** ** Tables *)

Definition at_barrel (bs : list Barrel) (i : nat) (it : Item) : Prop := exists b, bs !! i = Some b /\ it ∈ contents b.

(** The barrels hold the map. *)
Definition holds_map (bs : list Barrel) (M : gmap (list Z) (list Z)) : Prop :=
  forall k v, M !! k = Some v <-> exists i it, at_barrel bs i it /\ pair_of it = (k, v).

Lemma select_lt h : (table_select_barrel h < TABLE_NR_BARRELS)%nat.
Proof.
  unfold table_select_barrel. pose proof nr_barrels_value as Hn.
  pose proof (Z.mod_pos_bound (word 8 4 h) (Z.of_nat TABLE_NR_BARRELS)). lia.
Qed.

Lemma length_varint_16 v : 0 <= v < 65536 -> (length (varint v) <= 3)%nat.
Proof.
  intros Hv. unfold varint. destruct (Z.lt_ge_cases v 128); [rewrite varint_small by lia; simpl; lia|].
  rewrite varint_big by lia. cbn [length]. destruct (Z.lt_ge_cases (v / 128) 128); [rewrite varint_small by lia; simpl; lia|].
  rewrite varint_big by lia. cbn [length]. rewrite varint_small by lia_div. simpl. lia.
Qed.

Section table.
Context (SHA1 : list Z -> list Z) (junk : nat -> list Z) (Hjunk : forall n, length (junk n) = n).

Lemma item_volume_spec k v m vol h :
  Z.of_nat (length k) < 65536 -> Z.of_nat (length v) < 65536 ->
  item_volume junk k v = Done (u16 (size (mkItem m vol k v h))).
Proof using Hjunk.
  intros Hk Hv. pose proof (length_varint_16 (Z.of_nat (length k))). pose proof (length_varint_16 (Z.of_nat (length v))).
  unfold item_volume. rewrite encode_uint64_spec by (rewrite ?Hjunk; lia). run.
  rewrite encode_uint64_spec by (rewrite ?length_splice; rewrite ?Hjunk; lia). run.
  do 2 f_equal. unfold size, enc. cbn [key value]. rewrite !length_app. lia.
Qed.

(** The table in memory, before it is retained. *)
Record mem_inv (t : Table) (M : gmap (list Z) (list Z)) : Prop := {
  me_length : length (barrels t) = TABLE_NR_BARRELS;
  me_ok : forall i b, barrels t !! i = Some b ->
    barrel_ok SHA1 b /\ id b = i /\ rid b = i /\ nr_out b = 0 /\ bmin b = 0;
  me_home : forall i it, at_barrel (barrels t) i it -> table_select_barrel (hash it) = i;
  me_map : holds_map (barrels t) M;
  me_io : io_buffer t = replicate TABLE_NR_IO (replicate Bloom.BARREL_ALIGN 0);
  me_bt : bt t = None }.

Lemma at_hash t M i it : mem_inv t M -> at_barrel (barrels t) i it -> hash it = SHA1 (key it).
Proof.
  intros H (b & Hb & Hin). destruct (me_ok _ _ H _ _ Hb) as [Hok _].
  exact (it_hash _ _ (proj1 (Forall_forall _ _) (ba_items _ _ Hok) it Hin)).
Qed.

(** Changing one barrel. *)
Lemma at_insert bs i b b' j it :
  bs !! i = Some b -> at_barrel (<[i:=b']> bs) j it <-> (j = i /\ it ∈ contents b') \/ (j <> i /\ at_barrel bs j it).
Proof.
  intros Hb. pose proof (lookup_lt_Some _ _ _ Hb). unfold at_barrel. destruct (decide (j = i)) as [->|Hne].
  - rewrite list_lookup_insert_eq by done. split; [intros (x & Hx & Hi); injection Hx as <-; auto|].
    intros [[_ Hi]|[Hn _]]; [by exists b'|done].
  - rewrite list_lookup_insert_ne by done. split; [auto|]. intros [[-> _]|[_ Hi]]; done.
Qed.

Lemma insert_item_spec t M it :
  mem_inv t M -> item_ok SHA1 it ->
  exists t', table_insert_item t it = Done t' /\ mem_inv t' (<[key it:=value it]> M) /\ mempool t' = mempool t /\ capacity t' = capacity t.
Proof.
  intros HI Hit. pose proof (it_hash _ _ Hit) as Hh. set (i0 := table_select_barrel (hash it)).
  destruct (lookup_lt_is_Some_2 (barrels t) i0) as [b Hb]; [rewrite (me_length _ _ HI); apply select_lt|].
  destruct (me_ok _ _ HI _ _ Hb) as (Hok & Hm).
  destruct (barrel_insert_spec SHA1 b it Hok Hit) as (b' & E & Hok' & Hp & Hid & Hrid & Hout & Hmin).
  unfold table_insert_item. fold i0. rewrite (load_Done _ _ _ Hb). run. rewrite E. run.
  eexists. split; [done|]. split; [|done].
  assert (forall j i, at_barrel (<[i0:=b']> (barrels t)) j i <-> (j = i0 /\ i = it) \/ (key i <> key it /\ at_barrel (barrels t) j i)) as Hat.
  { intros j i. rewrite (at_insert _ _ _ _ _ _ Hb), Hp, elem_of_cons. unfold others. rewrite list_elem_of_filter. split.
    - intros [[-> [->|[Hk Hi]]]|[Hne Hi]]; [auto|right; split; [done|by exists b]|right; split; [|done]].
      intros Hk. apply Hne. rewrite <- (me_home _ _ HI j i Hi), (at_hash _ _ _ _ HI Hi), Hk, <- Hh. done.
    - intros [[-> ->]|[Hk Hi]]; [auto|]. destruct (decide (j = i0)) as [->|]; [|auto]. left. split; [done|]. right.
      split; [done|]. destruct Hi as (b0 & Hb0 & Hi). rewrite Hb in Hb0. by injection Hb0 as <-. }
  split; cbn [barrels io_buffer bt].
  - rewrite length_insert. apply HI.
  - intros j c Hc. destruct (decide (j = i0)) as [->|Hne].
    + rewrite list_lookup_insert_eq in Hc by (by eapply lookup_lt_Some). injection Hc as <-. rewrite Hid, Hrid, Hout, Hmin. done.
    + rewrite list_lookup_insert_ne in Hc by done. by apply HI.
  - intros j i Hi. apply Hat in Hi as [[-> ->]|[_ Hi]]; [done|]. by apply HI.
  - intros k v. split.
    + intros HM. destruct (decide (key it = k)) as [<-|Hne].
      * rewrite lookup_insert_eq in HM. injection HM as <-. exists i0, it. split; [apply Hat; auto|done].
      * rewrite lookup_insert_ne in HM by done. apply (me_map _ _ HI) in HM as (j & i & Hi & Ep).
        exists j, i. split; [|done]. apply Hat. right. split; [|done]. intros Hk. apply Hne. rewrite <- Hk. by injection Ep.
    + intros (j & i & Hi & Ep). apply Hat in Hi as [[-> ->]|[Hk Hi]].
      * injection Ep as <- <-. apply lookup_insert_eq.
      * injection Ep as Ek Ev. rewrite lookup_insert_ne by congruence. apply (me_map _ _ HI). exists j, i. unfold pair_of. by rewrite Ek, Ev.
  - apply HI.
  - apply HI.
Qed.

Definition kv_ok (kv : KeyValue) : Prop := key_ok (kv_key kv) /\ Z.of_nat (length (kv_value kv)) < 65536.

(** Whether an insertion is refused: the table is full or its pool is. *)
Definition refuses (t : Table) (kv : KeyValue) : bool :=
  table_full t ||
  match (Mempool.mempool_alloc (mempool t) (SIZEOF_ITEM + Z.of_nat (length (kv_key kv)) + Z.of_nat (length (kv_value kv)))).2 with
  | Some _ => false | None => true
  end.

Lemma insert_kv_spec t M kv :
  mem_inv t M -> kv_ok kv ->
  exists t', table_insert_kv_safe SHA1 junk t kv = Done (t', negb (refuses t kv)) /\
    mem_inv t' (if refuses t kv then M else <[kv_key kv:=kv_value kv]> M).
Proof using Hjunk.
  intros HI [Hk Hv]. unfold table_insert_kv_safe, refuses. destruct (table_full t); cbn [orb negb]; [by exists t|].
  unfold keyvalue_to_item. destruct (Mempool.mempool_alloc _ _) as [pool [off|]]; cbn [snd negb].
  - rewrite (item_volume_spec _ _ 0 0 (SHA1 (kv_key kv))) by (apply Hk || done). run.
    destruct (insert_item_spec (with_pool t pool) M (mkItem 0 (u16 (size (mkItem 0 0 (kv_key kv) (kv_value kv) (SHA1 (kv_key kv)))))
      (kv_key kv) (kv_value kv) (SHA1 (kv_key kv)))) as (t' & E & HI' & _); [by destruct HI|by split|].
    rewrite E. run. by exists t'.
  - run. eexists. split; [done|]. by destruct HI.
Qed.

Lemma table_lookup_spec t M k : mem_inv t M -> table_lookup t k (SHA1 k) = Done (mkKV k <$> M !! k).
Proof.
  intros HI. unfold table_lookup.
  destruct (lookup_lt_is_Some_2 (barrels t) (table_select_barrel (SHA1 k))) as [b Hb]; [rewrite (me_length _ _ HI); apply select_lt|].
  rewrite (load_Done _ _ _ Hb). run. destruct (me_ok _ _ HI _ _ Hb) as (Hok & _).
  destruct (barrel_lookup_spec SHA1 b k Hok) as (r & -> & Hr). run. f_equal.
  destruct (M !! k) as [v|] eqn:HM.
  - apply (me_map _ _ HI) in HM as (i & it & Hi & Ep). injection Ep as Ek Ev.
    assert (r = Some it) as ->; [|cbn; by rewrite Ek, Ev]. apply Hr. split; [|done].
    pose proof (me_home _ _ HI _ _ Hi) as Hi0. rewrite (at_hash _ _ _ _ HI Hi), Ek in Hi0. subst i.
    destruct Hi as (b0 & Hb0 & Hi). rewrite Hb in Hb0. by injection Hb0 as <-.
  - destruct r as [it|]; [|done]. destruct (proj1 (Hr it) eq_refl) as [Hi Ek].
    assert (M !! k = Some (value it)) as Hc; [|by rewrite Hc in HM]. apply (me_map _ _ HI).
    exists (table_select_barrel (SHA1 k)), it. split; [by exists b|]. unfold pair_of. by rewrite Ek.
Qed.

(** ** Sequences of insertions *)

Fixpoint insert_all (t : Table) (kvs : list KeyValue) : exec (Table * list bool) :=
  match kvs with
  | [] => Done (t, [])
  | kv :: kvs' =>
      r ← table_insert_kv_safe SHA1 junk t kv; let '(t, b) := r in
      r ← insert_all t kvs'; let '(t, bs) := r in Done (t, b :: bs)
  end.

(** The map after insertions with the results [rs]. *)
Fixpoint stored (M : gmap (list Z) (list Z)) (kvs : list KeyValue) (rs : list bool) : gmap (list Z) (list Z) :=
  match kvs, rs with
  | kv :: kvs', r :: rs' => stored (if r : bool then <[kv_key kv:=kv_value kv]> M else M) kvs' rs'
  | _, _ => M
  end.

Lemma insert_all_spec kvs : forall t M,
  mem_inv t M -> Forall kv_ok kvs -> exists t' rs, insert_all t kvs = Done (t', rs) /\ mem_inv t' (stored M kvs rs).
Proof using Hjunk.
  induction kvs as [|kv kvs IH]; intros t M HI Hok; [by exists t, []|]. inversion_clear Hok as [|?? Hkv Hok'].
  destruct (insert_kv_spec t M kv HI Hkv) as (t1 & E & HI1). cbn [insert_all]. rewrite E. run.
  destruct (IH _ _ HI1 Hok') as (t2 & rs & E2 & HI2). rewrite E2. run. eexists _, _. split; [done|].
  cbn [stored]. by destruct (refuses t kv).
Qed.

Lemma concat_nils {A} n : concat (replicate n (@nil A)) = [].
Proof. induction n as [|n IH]; [done|exact IH]. Qed.

Lemma empty_barrel_ok i : barrel_ok SHA1 (empty_barrel i).
Proof.
  assert (contents (empty_barrel i) = []) as Hc by apply concat_nils.
  split; rewrite ?Hc; cbn [empty_barrel items bvolume]; [apply length_replicate|constructor| |constructor|done].
  intros h c Hl. apply lookup_replicate in Hl as [-> _]. constructor.
Qed.

Lemma table_initial_spec mmap pool cap t : table_initial mmap pool cap = Done (Some t) -> mem_inv t ∅.
Proof.
  unfold table_initial. destruct (Mempool.mempool_alloc _ _) as [pool' [off|]]; [|done]. intros H.
  destruct (Bloom.assert _); [|done..]. injection H as <-.
  assert (forall i b, (empty_barrel <$> seq 0 TABLE_NR_BARRELS) !! i = Some b -> b = empty_barrel i) as Hl.
  { intros i b Hb. rewrite list_lookup_fmap in Hb. destruct (seq 0 TABLE_NR_BARRELS !! i) eqn:E; [|done].
    apply lookup_seq in E as [-> _]. by injection Hb. }
  assert (forall i it, ~ at_barrel (empty_barrel <$> seq 0 TABLE_NR_BARRELS) i it) as Hn.
  { intros i it (b & Hb & Hin). rewrite (Hl _ _ Hb) in Hin. unfold contents, empty_barrel in Hin. cbn [items] in Hin.
    rewrite concat_nils in Hin. by apply not_elem_of_nil in Hin. }
  split; cbn [barrels io_buffer bt]; [| | | |reflexivity|reflexivity].
  - by rewrite length_fmap, length_seq.
  - intros i b Hb. rewrite (Hl _ _ Hb). split_and!; [apply empty_barrel_ok|done..].
  - intros i it Hi. by apply Hn in Hi.
  - intros k v. rewrite lookup_empty. split; [done|]. intros (i & it & Hi & _). by apply Hn in Hi.
Qed.

Lemma table_alloc_new_spec mmap malloc p q t : table_alloc_new mmap malloc p q = Done t -> mem_inv t ∅.
Proof.
  unfold table_alloc_new. set (x := fmul _ p). set (y := fmul _ q). clearbody x y. intros H.
  apply bind_Done_inv in H as (msize & _ & H). apply bind_Done_inv in H as (pool & _ & H). apply bind_Done_inv in H as (cap & _ & H).
  destruct pool as [pool|]; [|done]. apply bind_Done_inv in H as (r & E & H). destruct r as [t'|]; [|done]. injection H as <-.
  by eapply table_initial_spec.
Qed.
End table.
