(* ===== verification/LsmRetain.v ===== *)
(** * Balancing the barrels of a table: table_retain

    Items are moved from barrels that do not fit on a page to others.  A
    barrel gives items away once, the ones that come first in an order of its
    own, and afterwards takes none: so every item is found by following, from
    its home barrel, the notes on where items have gone. *)

From Stdlib Require Import Sorted.
From stdpp Require Import gmap sorting.
From S2P Require Import Prelude Coding Bloom BloomPages Mempool LsmTable LsmMem.
Import Coding Lsm.

(** ** Orders *)

Lemma le_value_range l : Forall is_u8 l -> 0 <= le_value l < 256 ^ Z.of_nat (length l).
Proof.
  induction 1 as [|b l Hb _ IH]; [by cbn|]. unfold is_u8 in Hb. cbn [length]. rewrite Nat2Z.inj_succ, Z.pow_succ_r by lia.
  cbn [le_value foldr]. fold (le_value l). lia.
Qed.

Lemma rotated_range h i : length h = 20%nat -> Forall is_u8 h -> 0 <= rotated h i < 2 ^ 32.
Proof.
  intros Hl Hb. assert (0 <= word 4 12 h < 2 ^ 32) as Hw.
  { unfold word. pose proof (le_value_range (take 4 (drop 12 h))) as Hr.
    rewrite length_take, length_drop, Hl in Hr. apply Hr. by apply Forall_take, Forall_drop. }
  unfold rotated. set (s := Z.of_nat (i mod 32)).
  assert (0 <= Z.shiftr (word 4 12 h) ((32 - s) mod 32) < 2 ^ 32).
  { pose proof (Z.mod_pos_bound (32 - s) 32). rewrite Z.shiftr_div_pow2 by lia. split; [apply Z.div_pos; lia|].
    apply Z.div_lt_upper_bound; nia. }
  apply lor_bound; [lia|apply Z.mod_pos_bound; lia|lia].
Qed.

Lemma compare_by_compares {A} (f : A -> Z) : compares (compare_by f) f.
Proof. intros x y. unfold compare_by. destruct (Z.ltb_spec (f x) (f y)), (Z.ltb_spec (f y) (f x)); lia. Qed.

Section retain.
Context (SHA1 : list Z -> list Z) `{Qsort}.
Hypothesis Hsha : forall k, length (SHA1 k) = 20%nat /\ Forall is_u8 (SHA1 k).

(** ** Moving items between two barrels *)

Definition bump (it : Item) : Item := mkItem (u16 (nr_moved it + 1)) (volume it) (key it) (value it) (hash it).

Lemma bump_ok it : item_ok SHA1 it -> item_ok SHA1 (bump it).
Proof. by intros []. Qed.

Definition small (it : Item) : Prop := size it <= Z.of_nat BARREL_CAP.

Lemma move_loop_spec ir : forall i br bl,
  barrel_ok SHA1 br -> barrel_ok SHA1 bl -> contents br ≡ₚ ir -> ir <> [] -> Forall small ir ->
  (forall k, k ∈ key <$> ir -> k ∉ key <$> contents bl) ->
  exists moved rest br' bl', ir = moved ++ rest /\ rest <> [] /\
    move_loop ir i br bl = Done (br', bl', i + Z.of_nat (length moved), rest, true) /\
    barrel_ok SHA1 br' /\ barrel_ok SHA1 bl' /\ contents br' ≡ₚ rest /\ contents bl' ≡ₚ (bump <$> moved) ++ contents bl /\
    same_meta br br' /\ same_meta bl bl' /\ bvolume br' <= Z.of_nat BARREL_CAP /\
    (Z.of_nat BARREL_CAP < bvolume br -> moved <> []).
Proof.
  pose proof cap_value as HC.
  induction ir as [|it ir IH]; intros i br bl Hbr Hbl Hp Hne Hs Hd; [done|]. cbn [move_loop].
  destruct (Z.ltb_spec (Z.of_nat BARREL_CAP) (bvolume br)) as [Hv|Hv].
  - inversion_clear Hs as [|?? Hit Hs'].
    assert (ir <> []) as Hne'.
    { intros ->. rewrite (ba_volume _ _ Hbr), Hp in Hv. unfold small in Hit. pose proof (size_pos it).
      rewrite sizes_cons, u16_small in Hv; cbn [sizes foldr] in *; lia. }
    pose proof (ba_items _ _ Hbr) as Hok. rewrite Hp in Hok. inversion_clear Hok as [|?? Hio Hok'].
    pose proof (ba_nodup _ _ Hbr) as Hn. rewrite Hp, fmap_cons in Hn. apply NoDup_cons in Hn as [Hn1 Hn2].
    destruct (barrel_erase_spec SHA1 br it Hbr (it_hash _ _ Hio)) as (br1 & -> & Hbr1 & Hp1 & Hm1). run.
    destruct (barrel_insert_spec SHA1 bl (bump it) Hbl (bump_ok _ Hio)) as (bl1 & E & Hbl1 & Hq1 & Hm2).
    fold (bump it). rewrite E. run.
    rewrite Hp, others_cons_eq, others_none in Hp1 by done.
    rewrite others_none in Hq1 by (apply Hd; rewrite fmap_cons; apply list_elem_of_here).
    destruct (IH (i + 1) br1 bl1 Hbr1 Hbl1 Hp1 Hne' Hs') as (moved & rest & br' & bl' & -> & Hr & E' & Hbr' & Hbl' & Hp' & Hq' & Hm1' & Hm2' & Hv' & _).
    { intros k Hk. rewrite Hq1, fmap_cons, not_elem_of_cons. split; [intros ->; done|]. apply Hd. rewrite fmap_cons. by apply list_elem_of_further. }
    exists (it :: moved), rest, br', bl'. unfold same_meta in *. split_and!; try done; try (intuition congruence).
    + rewrite E'. do 4 f_equal. cbn [length]. lia.
    + rewrite Hq', Hq1, fmap_cons. cbn [app]. by rewrite Permutation_middle.
  - exists [], (it :: ir), br, bl. cbn [length fmap list_fmap app]. rewrite Z.add_0_r. unfold same_meta. split_and!; try done. lia.
Qed.

Lemma move_barrels_spec br bl :
  barrel_ok SHA1 br -> barrel_ok SHA1 bl -> Forall small (contents br) -> Z.of_nat BARREL_CAP < bvolume br ->
  (forall k, k ∈ key <$> contents br -> k ∉ key <$> contents bl) -> (id br < TABLE_NR_BARRELS)%nat ->
  (length (contents br) <= Bloom.BARREL_ALIGN)%nat ->
  exists moved rest br' bl', retaining_move_barrels br bl = Done (br', bl', true) /\
    barrel_ok SHA1 br' /\ barrel_ok SHA1 bl' /\ contents br ≡ₚ moved ++ rest /\ contents br' ≡ₚ rest /\
    contents bl' ≡ₚ (bump <$> moved) ++ contents bl /\ same_meta bl bl' /\
    id br' = id br /\ rid br' = id bl /\ 0 < nr_out br' /\ bvolume br' <= Z.of_nat BARREL_CAP /\ 0 <= bmin br' < 2 ^ 32 /\
    (forall it, it ∈ moved -> rotated (hash it) (id br) <= bmin br') /\
    (forall it, it ∈ rest -> bmin br' <= rotated (hash it) (id br)).
Proof using Hsha.
  intros Hbr Hbl Hs Hv Hd Hid Hcnt. pose proof barrel_value as HA. unfold retaining_move_barrels, barrel_to_array.
  fold (contents br). rewrite (proj2 (Nat.leb_le _ _)) by done. run.
  pose proof (qsort_perm _ _ (contents br) (compare_by_compares (fun i => rotated (hash i) (id br)))) as Hperm.
  pose proof (qsort_sorted _ _ (contents br) (compare_by_compares (fun i => rotated (hash i) (id br)))) as Hsort.
  fold (__compare_hash_order (id br)) in Hperm, Hsort. set (ir := qsort _ _) in *.
  assert (ir <> []) as Hne.
  { intros E. rewrite E in Hperm. apply Permutation_nil_l in Hperm. rewrite (ba_volume _ _ Hbr), <- Hperm in Hv.
    change (sizes []) with 0 in Hv. rewrite u16_small in Hv by lia. lia. }
  destruct (move_loop_spec ir 0 br bl Hbr Hbl) as (moved & rest & br' & bl' & Eir & Hr & E & Hbr' & Hbl' & Hp' & Hq' & Hm & Hm' & Hv' & Hmv);
    [by rewrite Hperm|done|by rewrite Hperm|intros k; rewrite Hperm; apply Hd|].
  rewrite E. run. rewrite Z.add_0_l. destruct rest as [|it rest]; [done|]. cbn [load lookup list_lookup]. unfold load. cbn [lookup list_lookup]. run.
  destruct Hm as (Hi & _). unfold __hash_order. rewrite Hi, (proj2 (Nat.ltb_lt _ _)) by done. cbn [Bloom.assert]. run.
  rewrite Eir in Hperm, Hsort. specialize (Hmv Hv).
  assert (1 <= length moved <= Bloom.BARREL_ALIGN)%nat as Hlen.
  { split; [destruct moved; [done|simpl; lia]|]. rewrite <- Hperm, length_app in Hcnt. lia. }
  exists moved, (it :: rest). do 2 eexists. split; [done|]. unfold contents in *. cbn [items id rid nr_out bvolume bmin].
  assert (item_ok SHA1 it) as Hit.
  { pose proof (ba_items _ _ Hbr) as Hok. unfold contents in Hok. rewrite <- Hperm, Forall_app, Forall_cons in Hok. tauto. }
  apply StronglySorted_app in Hsort as (Hcross & _ & Hrest).
  split_and!; try done.
  - by destruct Hbr'.
  - by destruct Hm' as (-> & _).
  - rewrite u16_small; lia.
  - rewrite (it_hash _ _ Hit). by apply rotated_range; apply Hsha.
  - rewrite (it_hash _ _ Hit). by apply rotated_range; apply Hsha.
  - intros x Hx. apply Hcross; [done|apply list_elem_of_here].
  - intros x Hx. apply StronglySorted_inv in Hrest as [_ Hrest]. apply elem_of_cons in Hx as [->|Hx]; [lia|].
    exact (proj1 (Forall_forall _ _) Hrest x Hx).
Qed.

(** ** The notes on where items have gone *)

(** Items with the hash [h] are searched in barrel [j] when the search starts
    at [i]. *)
Inductive routes (bs : list Barrel) (h : list Z) : nat -> nat -> Prop :=
  | routes_here i : routes bs h i i
  | routes_on i b j : bs !! i = Some b -> 0 < nr_out b -> rotated h i <= bmin b -> routes bs h (rid b) j -> routes bs h i j.

Lemma routes_snoc bs h i j b :
  routes bs h i j -> bs !! j = Some b -> 0 < nr_out b -> rotated h j <= bmin b -> routes bs h i (rid b).
Proof.
  induction 1 as [i|i b' j Hb' Ho' Hr' _ IH]; intros Hb Ho Hr; [eapply routes_on; [done..|constructor]|].
  eapply routes_on; [done..|]. by apply IH.
Qed.

(** Barrels that have not given items away may change. *)
Lemma routes_mono bs bs' h i j :
  (forall x b, bs !! x = Some b -> 0 < nr_out b -> bs' !! x = Some b) -> routes bs h i j -> routes bs' h i j.
Proof. intros Hm. induction 1; [constructor|]. eapply routes_on; eauto. Qed.

(** [F] lists the barrels that have given items away, in the order of time. *)
Record ret_inv (F : list nat) (bs : list Barrel) (M : gmap (list Z) (list Z)) : Prop := {
  re_length : length bs = TABLE_NR_BARRELS;
  re_ok : forall i b, bs !! i = Some b -> barrel_ok SHA1 b /\ Forall small (contents b) /\ id b = i /\ 0 <= bmin b < 2 ^ 32;
  re_open : forall i b, bs !! i = Some b -> 0 <= nr_out b /\ (nr_out b = 0 -> rid b = i /\ bmin b = 0) /\
    (0 < nr_out b -> bvolume b <= Z.of_nat BARREL_CAP);
  re_nodup : NoDup F;
  re_range : Forall (fun i => i < TABLE_NR_BARRELS)%nat F;
  re_frozen : forall i b, bs !! i = Some b -> i ∈ F <-> 0 < nr_out b;
  re_rank : forall F1 i F2 b, F = F1 ++ i :: F2 -> bs !! i = Some b -> rid b ∉ F1 ++ [i] /\ (rid b < TABLE_NR_BARRELS)%nat;
  re_routes : forall i it, at_barrel bs i it -> routes bs (hash it) (table_select_barrel (hash it)) i;
  re_stay : forall i b it, bs !! i = Some b -> it ∈ contents b -> bmin b <= rotated (hash it) i;
  re_unique : forall i j it it', at_barrel bs i it -> at_barrel bs j it' -> key it = key it' -> i = j;
  re_map : holds_map bs M }.

Lemma ret_item_ok F bs M i it : ret_inv F bs M -> at_barrel bs i it -> item_ok SHA1 it.
Proof. intros HI (b & Hb & Hin). destruct (re_ok _ _ _ HI _ _ Hb) as [Hok _]. exact (proj1 (Forall_forall _ _) (ba_items _ _ Hok) it Hin). Qed.

Lemma hash_rotated it i : item_ok SHA1 it -> 0 <= rotated (hash it) i < 2 ^ 32.
Proof using Hsha. intros Hit. rewrite (it_hash _ _ Hit). apply rotated_range; apply Hsha. Qed.

(** A table in memory has not been balanced yet. *)
Lemma mem_ret t M : mem_inv SHA1 t M -> (forall i it, at_barrel (barrels t) i it -> small it) -> ret_inv [] (barrels t) M.
Proof using Hsha.
  intros HI Hs. split.
  - apply HI.
  - intros i b Hb. destruct (me_ok _ _ _ HI _ _ Hb) as (Hok & Hid & _ & _ & ->). split_and!; [done| |done|lia|lia].
    apply Forall_forall. intros it Hit. apply (Hs i). by exists b.
  - intros i b Hb. destruct (me_ok _ _ _ HI _ _ Hb) as (Hok & Hid & Hrid & -> & ->). split_and!; [done|done|lia].
  - constructor.
  - constructor.
  - intros i b Hb. destruct (me_ok _ _ _ HI _ _ Hb) as (_ & _ & _ & -> & _). split; [|lia]. intros Hn. by apply not_elem_of_nil in Hn.
  - intros F1 i F2 b E. by destruct F1.
  - intros i it Hi. rewrite (me_home _ _ _ HI _ _ Hi). constructor.
  - intros i b it Hb Hin. destruct (me_ok _ _ _ HI _ _ Hb) as (Hok & _ & _ & _ & ->).
    apply hash_rotated. exact (proj1 (Forall_forall _ _) (ba_items _ _ Hok) it Hin).
  - intros i j it it' Hi Hj Hk. rewrite <- (me_home _ _ _ HI _ _ Hi), <- (me_home _ _ _ HI _ _ Hj).
    by rewrite (at_hash _ _ _ _ _ HI Hi), (at_hash _ _ _ _ _ HI Hj), Hk.
  - apply HI.
Qed.

(** Two barrels change: what is where afterwards. *)
Lemma at_two (bs : list Barrel) xr xl (br bl br' bl' : Barrel) j it :
  xr <> xl -> bs !! xr = Some br -> bs !! xl = Some bl ->
  at_barrel (<[xl:=bl']> (<[xr:=br']> bs)) j it <->
    (j = xl /\ it ∈ contents bl') \/ (j = xr /\ it ∈ contents br') \/ (j <> xl /\ j <> xr /\ at_barrel bs j it).
Proof.
  intros Hne Hr Hl. rewrite (at_insert _ xl bl) by (rewrite list_lookup_insert_ne by done; done).
  rewrite (at_insert _ xr br) by done. intuition congruence.
Qed.

Lemma two_lookup (bs : list Barrel) (xr xl : nat) (br bl br' bl' : Barrel) (j : nat) b :
  xr <> xl -> bs !! xr = Some br -> bs !! xl = Some bl -> <[xl:=bl']> (<[xr:=br']> bs) !! j = Some b ->
  (j = xl /\ b = bl') \/ (j = xr /\ b = br') \/ (j <> xl /\ j <> xr /\ bs !! j = Some b).
Proof.
  intros Hne Hr Hl H1. apply list_lookup_insert_Some in H1 as [(-> & -> & _)|(Hj & H1)]; [auto|].
  apply list_lookup_insert_Some in H1 as [(-> & -> & _)|(Hj' & H1)]; auto.
Qed.

(** One move keeps the invariant. *)
Section step.
Context (F : list nat) (bs : list Barrel) (M : gmap (list Z) (list Z)) (HI : ret_inv F bs M).
Context (xr xl : nat) (br bl br' bl' : Barrel) (moved rest : list Item).
Hypothesis Hne : xr <> xl.
Hypothesis Hr : bs !! xr = Some br.
Hypothesis Hl : bs !! xl = Some bl.
Hypothesis Hro : nr_out br = 0.
Hypothesis Hlo : nr_out bl = 0.
Hypothesis Hbr' : barrel_ok SHA1 br'.
Hypothesis Hbl' : barrel_ok SHA1 bl'.
Hypothesis Hcr : contents br ≡ₚ moved ++ rest.
Hypothesis Hcr' : contents br' ≡ₚ rest.
Hypothesis Hcl' : contents bl' ≡ₚ (bump <$> moved) ++ contents bl.
Hypothesis Hml : same_meta bl bl'.
Hypothesis Hid : id br' = id br.
Hypothesis Hrid : rid br' = id bl.
Hypothesis Hout : 0 < nr_out br'.
Hypothesis Hvol : bvolume br' <= Z.of_nat BARREL_CAP.
Hypothesis Hmin : 0 <= bmin br' < 2 ^ 32.
Hypothesis Hmoved : forall it, it ∈ moved -> rotated (hash it) xr <= bmin br'.
Hypothesis Hrest : forall it, it ∈ rest -> bmin br' <= rotated (hash it) xr.

Notation bs' := (<[xl:=bl']> (<[xr:=br']> bs)).

(** Where an item of the new barrels was before. *)
Lemma was_at j it : at_barrel bs' j it ->
  (at_barrel bs j it /\ (j = xr -> it ∈ rest)) \/ (j = xl /\ exists it0, it0 ∈ moved /\ it = bump it0 /\ at_barrel bs xr it0).
Proof using All.
  rewrite (at_two _ _ _ br bl) by done. intros [[-> Hi]|[[-> Hi]|(H1 & H2 & Hi)]].
  - rewrite Hcl', elem_of_app in Hi. destruct Hi as [Hi|Hi]; [|left; split; [by exists bl|congruence]].
    apply list_elem_of_fmap_1 in Hi as (it0 & -> & Hi). right. split; [done|]. exists it0. split_and!; [done|done|].
    exists br. rewrite Hcr. split; [done|]. set_solver.
  - rewrite Hcr' in Hi. left. split; [|done]. exists br. rewrite Hcr. split; [done|]. set_solver.
  - left. split; [done|congruence].
Qed.

Lemma stay_or_go it it0 : it ∈ rest -> it0 ∈ moved -> key it = key it0 -> False.
Proof using All.
  intros Hs Hm Hk. destruct (re_ok _ _ _ HI _ _ Hr) as (Hok & _). pose proof (ba_nodup _ _ Hok) as Hn.
  rewrite Hcr, fmap_app in Hn. apply NoDup_app in Hn as (_ & Hn & _). apply (Hn (key it0)); [by apply list_elem_of_fmap_2|].
  rewrite <- Hk. by apply list_elem_of_fmap_2.
Qed.

Lemma frozen_same x b : bs !! x = Some b -> 0 < nr_out b -> bs' !! x = Some b.
Proof using All. 
  intros Hx Ho. assert (x <> xl) by (intros ->; simplify_eq; lia). assert (x <> xr) by (intros ->; simplify_eq; lia).
  by rewrite !list_lookup_insert_ne by done.
Qed.

Lemma new_routes j it : at_barrel bs' j it -> routes bs' (hash it) (table_select_barrel (hash it)) j.
Proof using All.
  assert (bs' !! xr = Some br') as Hx by (rewrite list_lookup_insert_ne by done; apply list_lookup_insert_eq; by eapply lookup_lt_Some).
  intros Hi. apply was_at in Hi as [[Hi _]|(-> & it0 & Hm & -> & Hi)];
    (eapply re_routes in Hi; [|exact HI]); apply (routes_mono _ bs' _ _ _ frozen_same) in Hi; [done|].
  destruct (re_ok _ _ _ HI _ _ Hl) as (_ & _ & Hidl & _). cbn [hash bump].
  pose proof (routes_snoc _ _ _ _ _ Hi Hx Hout (Hmoved _ Hm)) as Hs. by rewrite Hrid, Hidl in Hs.
Qed.

Lemma new_map : holds_map bs' M.
Proof using All.
  intros k v. pose proof (re_map _ _ _ HI k v) as Hmap. rewrite Hmap. split.
  - intros (i & it & (b & Hb & Hin) & Ep). destruct (decide (i = xr)) as [->|H1].
    + rewrite Hr in Hb. injection Hb as <-. rewrite Hcr, elem_of_app in Hin. destruct Hin as [Hin|Hin].
      * exists xl, (bump it). split; [|done]. rewrite (at_two _ _ _ br bl) by done. left. split; [done|].
        rewrite Hcl', elem_of_app. left. by apply list_elem_of_fmap_2.
      * exists xr, it. split; [|done]. rewrite (at_two _ _ _ br bl) by done. right. left. by rewrite Hcr'.
    + exists i, it. split; [|done]. rewrite (at_two _ _ _ br bl) by done. destruct (decide (i = xl)) as [->|H2].
      * rewrite Hl in Hb. injection Hb as <-. left. split; [done|]. rewrite Hcl', elem_of_app. by right.
      * right. right. split_and!; [done|done|by exists b].
  - intros (i & it & Hi & Ep). apply was_at in Hi as [[Hi _]|(-> & it0 & _ & -> & Hi)]; [by exists i, it|by exists xr, it0].
Qed.

Lemma move_keeps : ret_inv (F ++ [xr]) bs' M.
Proof using All.
  destruct Hml as (Mid & Mrid & Mout & Mmin). destruct (re_ok _ _ _ HI _ _ Hr) as (Hokr & Hsr & Hidr & _).
  destruct (re_ok _ _ _ HI _ _ Hl) as (Hokl & Hsl & Hidl & Hminl). destruct (re_open _ _ _ HI _ _ Hl) as (_ & Hopl & _).
  pose proof (fun j b => two_lookup bs xr xl br bl br' bl' j b Hne Hr Hl) as Htwo.
  assert (xr ∉ F) as HxF by (rewrite (re_frozen _ _ _ HI _ _ Hr); lia).
  assert (xl ∉ F) as HlF by (rewrite (re_frozen _ _ _ HI _ _ Hl); lia).
  rewrite Hcr, Forall_app in Hsr. split.
  - rewrite !length_insert. apply HI.
  - intros i b Hb. apply Htwo in Hb as [[-> ->]|[[-> ->]|(_ & _ & Hb)]]; [| |by apply HI].
    + split_and!; [done| |congruence|lia|lia]. rewrite Hcl', Forall_app, Forall_fmap. split; [|done].
      eapply Forall_impl; [apply Hsr|]. done.
    + split_and!; [done|rewrite Hcr'; apply Hsr|congruence|lia|lia].
  - intros i b Hb. apply Htwo in Hb as [[-> ->]|[[-> ->]|(_ & _ & Hb)]]; [| |by apply HI].
    + rewrite Mout, Mrid, Mmin. split_and!; [lia|done|lia].
    + split_and!; [lia|lia|done].
  - apply NoDup_app. split_and!; [apply HI| |apply NoDup_singleton]. intros x Hx Hs. apply list_elem_of_singleton in Hs. by subst x.
  - apply Forall_app. split; [apply HI|]. apply Forall_singleton. rewrite <- (re_length _ _ _ HI). by eapply lookup_lt_Some.
  - intros i b Hb. rewrite elem_of_app, list_elem_of_singleton.
    apply Htwo in Hb as [[-> ->]|[[-> ->]|(H1 & H2 & Hb)]]; [intuition (congruence || lia)|tauto|].
    rewrite (re_frozen _ _ _ HI _ _ Hb). intuition congruence.
  - intros F1 i F2 b E Hb. destruct F2 as [|y F2' _] using rev_ind.
    + apply app_inj_tail in E as [-> <-]. apply Htwo in Hb as [[Hc _]|[[_ ->]|(_ & Hc & _)]]; [done| |done].
      rewrite Hrid, Hidl. split; [|rewrite <- (re_length _ _ _ HI); by eapply lookup_lt_Some].
      rewrite elem_of_app, list_elem_of_singleton. intros [?|?]; congruence.
    + rewrite app_comm_cons, app_assoc in E. apply app_inj_tail in E as [-> <-].
      assert (i ∈ F1 ++ i :: F2') as HiF by set_solver.
      apply Htwo in Hb as [[-> _]|[[-> _]|(_ & _ & Hb)]]; [done|done|]. by apply (re_rank _ _ _ HI F1 i F2' b).
  - apply new_routes.
  - intros i b it Hb Hin. apply Htwo in Hb as [[-> ->]|[[-> ->]|(_ & _ & Hb)]].
    + rewrite Mmin, (proj2 (Hopl Hlo)). apply hash_rotated. exact (proj1 (Forall_forall _ _) (ba_items _ _ Hbl') it Hin).
    + apply Hrest. by rewrite <- Hcr'.
    + by apply (re_stay _ _ _ HI i b it).
  - intros i j it it' Hi Hj Hk.
    apply was_at in Hi as [[Hi Hi']|(-> & i0 & Hi' & -> & Hi)]; apply was_at in Hj as [[Hj Hj']|(-> & j0 & Hj' & -> & Hj)]; [| | |done].
    + by apply (re_unique _ _ _ HI i j it it').
    + exfalso. pose proof (re_unique _ _ _ HI _ _ _ _ Hi Hj Hk) as ->. eapply (stay_or_go it j0); eauto.
    + exfalso. pose proof (re_unique _ _ _ HI _ _ _ _ Hi Hj Hk) as E. symmetry in E. subst j. eapply (stay_or_go it' i0); eauto.
  - apply new_map.
Qed.
End step.

(** ** Rounds *)

(** A barrel with more items than the array of retaining_move_barrels takes. *)
Definition crowded (M : gmap (list Z) (list Z)) : Prop :=
  exists F bs i b, ret_inv F bs M /\ bs !! i = Some b /\ (Bloom.BARREL_ALIGN < length (contents b))%nat.

Lemma move_step F bs M xr xl br bl :
  ret_inv F bs M -> xr <> xl -> bs !! xr = Some br -> bs !! xl = Some bl -> nr_out br = 0 -> nr_out bl = 0 ->
  Z.of_nat BARREL_CAP < bvolume br ->
  (exists br' bl', retaining_move_barrels br bl = Done (br', bl', true) /\ ret_inv (F ++ [xr]) (<[xl:=bl']> (<[xr:=br']> bs)) M) \/
  (retaining_move_barrels br bl = Fault /\ crowded M).
Proof using Hsha.
  intros HI Hne Hr Hl Hro Hlo Hv. destruct (re_ok _ _ _ HI _ _ Hr) as (Hokr & Hsr & Hidr & _).
  destruct (re_ok _ _ _ HI _ _ Hl) as (Hokl & _ & Hidl & _).
  destruct (le_lt_dec (length (contents br)) Bloom.BARREL_ALIGN) as [Hc|Hc].
  - left. destruct (move_barrels_spec br bl Hokr Hokl Hsr Hv) as
      (moved & rest & br' & bl' & E & Hbr' & Hbl' & Hcr & Hcr' & Hcl' & Hml & Hid & Hrid & Hout & Hvol & Hmin & Hmv & Hrs); [| |done|].
    + intros k Hk Hk'. apply list_elem_of_fmap_1 in Hk as (i & -> & Hi). apply list_elem_of_fmap_1 in Hk' as (j & Ej & Hj).
      apply Hne. apply (re_unique _ _ _ HI xr xl i j); [by exists br|by exists bl|done].
    + rewrite Hidr, <- (re_length _ _ _ HI). by eapply lookup_lt_Some.
    + exists br', bl'. split; [done|]. rewrite Hidr in Hmv, Hrs.
      by apply (move_keeps F bs M HI xr xl br bl br' bl' moved rest).
  - right. split; [|by exists F, bs, xr, br]. unfold retaining_move_barrels, barrel_to_array. fold (contents br).
    by rewrite (proj2 (Nat.leb_gt _ _)) by done.
Qed.

(** The positions of the barrels, in some order. *)
Notation order_ok order := (order ≡ₚ seq 0 TABLE_NR_BARRELS).

Lemma order_barrel F bs M order i :
  ret_inv F bs M -> order_ok order -> (i < TABLE_NR_BARRELS)%nat ->
  exists x b, order !! i = Some x /\ bs !! x = Some b.
Proof.
  intros HI Ho Hi. destruct (lookup_lt_is_Some_2 order i) as [x Hx]; [rewrite Ho, length_seq; done|].
  assert (x ∈ order) as Hin by (by eapply list_elem_of_lookup_2). rewrite Ho in Hin. apply elem_of_seq in Hin.
  destruct (lookup_lt_is_Some_2 bs x) as [b Hb]; [rewrite (re_length _ _ _ HI); lia|]. by exists x, b.
Qed.

Lemma skip_moved_spec F bs M order rid xr br :
  ret_inv F bs M -> order_ok order -> order !! rid = Some xr -> bs !! xr = Some br -> nr_out br = 0 ->
  forall fuel lid, (lid <= rid)%nat -> (rid - lid <= fuel)%nat ->
  exists lid' xl bl, skip_moved fuel bs order lid = Done lid' /\ (lid <= lid' <= rid)%nat /\
    order !! lid' = Some xl /\ bs !! xl = Some bl /\ nr_out bl = 0.
Proof.
  intros HI Ho Hxr Hbr Hn. assert (rid < TABLE_NR_BARRELS)%nat as Hlt.
  { pose proof (lookup_lt_Some _ _ _ Hxr) as Hl. by rewrite Ho, length_seq in Hl. }
  induction fuel as [|fuel IH]; intros lid Hle Hf; (destruct (order_barrel F bs M order lid HI Ho ltac:(lia)) as (x & b & Hx & Hb));
    cbn [skip_moved]; rewrite (load_Done _ _ _ Hx); run; rewrite (load_Done _ _ _ Hb); run;
    destruct (re_open _ _ _ HI _ _ Hb) as (Hn0 & _); destruct (Z.ltb_spec 0 (nr_out b)) as [Hp|Hp];
    try (exists lid, x, b; split_and!; (done || lia)).
  - assert (lid = rid) as -> by lia. simplify_eq. lia.
  - destruct (decide (lid = rid)) as [->|Hne]; [simplify_eq; lia|].
    destruct (IH (S lid)) as (lid' & xl & bl & E & Hr' & ?); [lia|lia|]. exists lid', xl, bl. split_and!; (done || lia || tauto).
Qed.

Lemma move_sorted_spec M order rid : forall F bs lid,
  ret_inv F bs M -> order_ok order -> (rid < TABLE_NR_BARRELS)%nat ->
  match move_sorted_loop order lid rid bs with
  | Done (bs', _) => exists F', ret_inv F' bs' M
  | Fault => crowded M
  | NoFuel => False
  end.
Proof using Hsha.
  induction rid as [|rid IH]; intros F bs lid HI Ho Hr;
    (destruct (order_barrel F bs M order _ HI Ho Hr) as (xr & br & Hxr & Hbr)); cbn [move_sorted_loop];
    rewrite (load_Done _ _ _ Hxr); run; rewrite (load_Done _ _ _ Hbr); run.
  - rewrite andb_comm. destruct (Nat.ltb_spec lid 0); [lia|]. cbn. by exists F.
  - destruct (Z.ltb_spec (Z.of_nat BARREL_CAP) (bvolume br)) as [Hv|Hv]; cbn [andb]; [|by exists F].
    destruct (Nat.ltb_spec lid (S rid)) as [Hlr|Hlr]; [|by exists F].
    destruct (re_open _ _ _ HI _ _ Hbr) as (Hn0 & _ & Hfr).
    assert (nr_out br = 0) as Hro by (destruct (decide (nr_out br = 0)); [done|specialize (Hfr ltac:(lia)); lia]).
    rewrite Hro. cbn [Z.eqb Bloom.assert]. run.
    destruct (skip_moved_spec F bs M order (S rid) xr br HI Ho Hxr Hbr Hro (length order) lid) as (lid' & xl & bl & -> & Hl' & Hxl & Hbl & Hlo);
      [lia|rewrite Ho, length_seq; lia|]. run.
    destruct (Nat.leb_spec (S rid) lid') as [Hge|Hlt]; [by exists F|].
    rewrite (load_Done _ _ _ Hxl). run. rewrite (load_Done _ _ _ Hbl). run.
    assert (xr <> xl) as Hne.
    { intros ->. assert (NoDup order) as Hnd by (rewrite Ho; apply NoDup_seq). pose proof (NoDup_lookup _ _ _ _ Hnd Hxr Hxl). lia. }
    destruct (move_step F bs M xr xl br bl HI Hne Hbr Hbl Hro Hlo Hv) as [(br' & bl' & -> & HI')|[-> Hc]]; run; [|done].
    apply (IH (F ++ [xr])); [done|done|lia].
Qed.

Lemma sorted_order_ok bs : order_ok (retaining_sort_barrels_by_volume bs).
Proof. apply (qsort_perm _ (volume_of bs)). apply compare_by_compares. Qed.

(** The last barrel of the sorted array is a largest one. *)
Lemma last_is_largest F bs M x b :
  ret_inv F bs M -> retaining_sort_barrels_by_volume bs !! (TABLE_NR_BARRELS - 1)%nat = Some x -> bs !! x = Some b ->
  forall i b', bs !! i = Some b' -> bvolume b' <= bvolume b.
Proof.
  intros HI Hx Hb i b' Hb'. pose proof nr_barrels_value as HN. set (order := retaining_sort_barrels_by_volume bs) in *.
  pose proof (sorted_order_ok bs) as Ho. fold order in Ho.
  assert (i ∈ order) as Hi.
  { rewrite Ho. apply elem_of_seq. split; [lia|]. cbn. rewrite <- (re_length _ _ _ HI). by eapply lookup_lt_Some. }
  apply list_elem_of_lookup_1 in Hi as (j & Hj). pose proof (lookup_lt_Some _ _ _ Hj) as Hjl. rewrite Ho, length_seq in Hjl.
  assert (volume_of bs i <= volume_of bs x) as Hv; [|unfold volume_of in Hv; by rewrite Hb, Hb' in Hv].
  destruct (decide (j = (TABLE_NR_BARRELS - 1)%nat)) as [->|Hne]; [simplify_eq; lia|].
  pose proof (qsort_sorted _ (volume_of bs) (seq 0 TABLE_NR_BARRELS) (compare_by_compares (volume_of bs))) as Hs.
  fold (__compare_volume bs) in Hs. fold (retaining_sort_barrels_by_volume bs) in Hs. fold order in Hs.
  rewrite <- (take_drop (S j) order) in Hs.
  apply (StronglySorted_app_1_elem_of _ _ _ i x Hs).
  - apply list_elem_of_lookup. exists j. rewrite lookup_take_lt by lia. done.
  - apply list_elem_of_lookup. exists (TABLE_NR_BARRELS - 1 - S j)%nat. rewrite lookup_drop. rewrite <- Hx. f_equal. lia.
Qed.

(** ** The meta index *)

Definition note (b : Barrel) : MetaIndex := mkMI (id b) (rid b) (bmin b).

Record index_of (bs : list Barrel) (l : list MetaIndex) : Prop := {
  ix_notes : Forall (fun m => exists b, bs !! mi_id m = Some b /\ m = note b) l;
  ix_sorted : StronglySorted (fun a b => mi_id a < mi_id b)%nat l }.

Lemma copy_index_spec bs n : forall order todo,
  (forall x, x ∈ order -> exists b, bs !! x = Some b /\ id b = x) -> (n <= length order)%nat ->
  exists l, copy_index n bs order todo = Done l /\ (length l <= n)%nat /\ (exists k, mi_id <$> l = take k order) /\
    Forall (fun m => exists b, bs !! mi_id m = Some b /\ m = note b) l.
Proof.
  induction n as [|n IH]; intros order todo Ho Hn.
  { exists []. split_and!; [done|done|by exists O|constructor]. }
  destruct order as [|x order]; [simpl in Hn; lia|]. destruct (Ho x) as (b & Hb & Hid); [apply list_elem_of_here|].
  cbn [copy_index]. rewrite (load_Done _ _ _ Hb). run. fold (note b).
  assert (exists b', bs !! mi_id (note b) = Some b' /\ note b = note b') as Hnote by (exists b; cbn; by rewrite Hid).
  destruct (todo <=? nr_out b).
  - exists [note b]. split_and!; [done|simpl; lia|exists 1%nat; cbn; by rewrite Hid|by constructor].
  - destruct (IH order (todo - nr_out b)) as (l & -> & Hl & (k & Hk) & Hf);
      [intros y Hy; apply Ho; by apply list_elem_of_further|simpl in Hn; lia|]. run.
    exists (note b :: l). split_and!; [done|simpl; lia|exists (S k); rewrite fmap_cons, Hk; cbn; by rewrite Hid|by constructor].
Qed.

Lemma strictly_sorted (l : list MetaIndex) :
  NoDup (mi_id <$> l) -> StronglySorted (fun a b => Z.of_nat (mi_id a) <= Z.of_nat (mi_id b)) l ->
  StronglySorted (fun a b => mi_id a < mi_id b)%nat l.
Proof.
  induction l as [|m l IH]; intros Hn Hs; [constructor|]. rewrite fmap_cons in Hn. apply NoDup_cons in Hn as [Hn1 Hn2].
  apply StronglySorted_inv in Hs as [Hs1 Hs2]. constructor; [auto|]. apply Forall_forall. intros m' Hm'.
  pose proof (proj1 (Forall_forall _ _) Hs2 m' Hm') as Hle. cbn in Hle.
  assert (mi_id m <> mi_id m'); [|lia]. intros E. apply Hn1. rewrite E. by apply list_elem_of_fmap_2.
Qed.

Lemma build_metaindex_spec F t M todo :
  ret_inv F (barrels t) M -> retaining_nr_todo (barrels t) = Done todo ->
  exists l, index_of (barrels t) l /\ (length l <= METAINDEX_MAX_NR)%nat /\
    retaining_build_metaindex t =
      (let '(pool, r) := Mempool.mempool_alloc (mempool t) (8 * Z.of_nat (length l)) in
       match r with
       | None => Fault
       | Some _ => Done (mkTab (tvolume t) (capacity t) pool (barrels t) (io_buffer t) (Z.of_nat (length l)) l (bt t))
       end).
Proof.
  intros HI Htodo. set (order := qsort (__compare_out (barrels t)) (seq 0 TABLE_NR_BARRELS)).
  assert (order ≡ₚ seq 0 TABLE_NR_BARRELS) as Ho by (apply (qsort_perm _ _ _ (compare_by_compares (fun i => - out_of (barrels t) i)))).
  assert (forall x, x ∈ order -> exists b, barrels t !! x = Some b /\ id b = x) as Hx.
  { intros x Hin. rewrite Ho in Hin. apply elem_of_seq in Hin. destruct (lookup_lt_is_Some_2 (barrels t) x) as [b Hb];
      [rewrite (re_length _ _ _ HI); lia|]. exists b. split; [done|]. by apply (re_ok _ _ _ HI). }
  assert (METAINDEX_MAX_NR <= length order)%nat as Hlen.
  { rewrite Ho, length_seq. pose proof nr_barrels_value. assert (Z.of_nat METAINDEX_MAX_NR = 2048) by (vm_compute; reflexivity). lia. }
  unfold retaining_build_metaindex. fold order. rewrite Htodo. run.
  destruct (copy_index_spec (barrels t) METAINDEX_MAX_NR order todo Hx Hlen) as (l & -> & Hl & (k & Hk) & Hf). run.
  assert (qsort __compare_id l ≡ₚ l) as Hq by (apply (qsort_perm _ _ _ (compare_by_compares (fun m => Z.of_nat (mi_id m))))).
  exists (qsort __compare_id l). split; [split|split].
  - by rewrite Hq.
  - apply strictly_sorted; [|apply (qsort_sorted _ _ _ (compare_by_compares (fun m => Z.of_nat (mi_id m))))].
    rewrite Hq, Hk. assert (NoDup order) as Hnd by (rewrite Ho; apply NoDup_seq).
    rewrite <- (take_drop k order) in Hnd. by apply NoDup_app in Hnd as [Hnd _].
  - by rewrite Hq.
  - done.
Qed.

(** A table after table_retain has returned true. *)
Record retained (t : Table) (M : gmap (list Z) (list Z)) : Prop := {
  rt_inv : exists F, ret_inv F (barrels t) M;
  rt_fit : forall i b, barrels t !! i = Some b -> bvolume b <= Z.of_nat BARREL_CAP;
  rt_index : index_of (barrels t) (mis t);
  rt_nr : nr_mi t = Z.of_nat (length (mis t)) /\ (length (mis t) <= METAINDEX_MAX_NR)%nat }.

Lemma retain_loop_spec M n : forall F t t',
  ret_inv F (barrels t) M -> retain_loop n t = Done (t', true) ->
  retained t' M /\ bt t' = bt t /\ io_buffer t' = io_buffer t /\ tvolume t' = tvolume t.
Proof using Hsha.
  pose proof nr_barrels_value as HN.
  induction n as [|n IH]; intros F t t' HI E; [done|]. cbn [retain_loop] in E.
  set (order := retaining_sort_barrels_by_volume (barrels t)) in *. pose proof (sorted_order_ok (barrels t)) as Ho. fold order in Ho.
  destruct (order_barrel F (barrels t) M order (TABLE_NR_BARRELS - 1) HI Ho ltac:(lia)) as (x & b & Hx & Hb).
  rewrite (load_Done _ _ _ Hx) in E. cbn [mbind exec_bind] in E. rewrite (load_Done _ _ _ Hb) in E. cbn [mbind exec_bind] in E.
  destruct (Z.leb_spec (bvolume b) (Z.of_nat BARREL_CAP)) as [Hle|Hgt].
  - apply bind_Done_inv in E as (t1 & E1 & E). injection E as <-. pose proof E1 as E2. unfold retaining_build_metaindex in E2.
    apply bind_Done_inv in E2 as (todo & Etodo & _). destruct (build_metaindex_spec F t M todo HI Etodo) as (l & Hl & Hll & Eb).
    rewrite Eb in E1. destruct (Mempool.mempool_alloc _ _) as [pool [off|]]; [|done]. injection E1 as <-. split; [|done].
    split; cbn [barrels mis nr_mi]; [by exists F| |done|done]. intros i b' Hi. pose proof (last_is_largest F _ M x b HI Hx Hb i b' Hi). lia.
  - apply bind_Done_inv in E as ([bs rr] & E1 & E). destruct rr; [|done].
    pose proof (move_sorted_spec M order (TABLE_NR_BARRELS - 1) F (barrels t) 0 HI Ho ltac:(lia)) as Hm.
    unfold retaining_move_sorted in E1. rewrite E1 in Hm. destruct Hm as (F' & HI'). by apply (IH F' (with_barrels t bs) t').
Qed.
End retain.
