(* ===== verification/LsmDisk.v ===== *)
(** * Tables of the LSM-trie on disk: the page of a barrel, the meta index and
    the search through both

    The page holds the items of a barrel one after the other; the search reads
    them back and follows the notes on items that were moved. *)

From Stdlib Require Import Sorted.
From stdpp Require Import gmap sorting.
From S2P Require Import Prelude Coding Bloom BloomPages Mempool LsmTable LsmMem LsmRetain.
Import Coding Lsm.

(** ** Writing a page *)

Definition encs (l : list Item) : list Z := concat (enc <$> l).

Lemma encs_cons i l : encs (i :: l) = enc i ++ encs l.
Proof. done. Qed.

Lemma length_encs l : Z.of_nat (length (encs l)) = sizes l.
Proof. induction l as [|i l IH]; [done|]. rewrite encs_cons, length_app, sizes_cons, <- IH. unfold size. lia. Qed.

Definition barrel_page (b : Barrel) : list Z :=
  encs (contents b) ++ replicate (BARREL_CAP - length (encs (contents b))) 0 ++ metaindex_bytes (id b) (rid b) (bmin b).

Lemma length_metaindex_bytes i r m : length (metaindex_bytes i r m) = 8%nat.
Proof. unfold metaindex_bytes. by rewrite !length_app, !length_le. Qed.

Lemma length_barrel_page b : sizes (contents b) <= Z.of_nat BARREL_CAP -> length (barrel_page b) = Bloom.BARREL_ALIGN.
Proof.
  intros Hs. rewrite <- length_encs in Hs. pose proof cap_value. pose proof barrel_value.
  unfold barrel_page. rewrite !length_app, length_replicate, length_metaindex_bytes. lia.
Qed.

Lemma memset_splice buf p v n : (p + n <= length buf)%nat -> memset buf p v n = Done (splice buf p (replicate n v)).
Proof. intros Hp. rewrite memset_in by done. unfold splice. by rewrite length_replicate. Qed.

Lemma splice_same a x c : splice (a ++ x ++ c) (length a) x = a ++ x ++ c.
Proof. unfold splice. rewrite take_app_length. do 2 f_equal. rewrite <- drop_drop, drop_app_length. by rewrite drop_app_length. Qed.

Lemma splice_all buf bs : length bs = length buf -> splice buf 0 bs = bs.
Proof. intros Hl. unfold splice. rewrite drop_ge by lia. cbn. by rewrite app_nil_r. Qed.

(** Lengths of buffers that have been written to. *)
Ltac len := rewrite ?length_splice; rewrite ?length_app, ?length_replicate, ?length_metaindex_bytes; lia.

Section disk.
Context (SHA1 : list Z -> list Z).

Lemma item_encode_spec it buf p :
  item_ok SHA1 it -> size it < 65536 -> (p + length (enc it) <= length buf)%nat ->
  item_encode it buf p = Done (splice buf p (enc it), (p + length (enc it))%nat).
Proof.
  intros Hit Hs Hp. destruct (it_key _ _ Hit) as [_ Hk]. pose proof (it_value _ _ Hit) as Hv. unfold item_encode.
  unfold size, enc in *. set (vk := varint (Z.of_nat (length (key it)))) in *. set (vv := varint (Z.of_nat (length (value it)))) in *.
  rewrite !length_app in *.
  rewrite encode_uint64_spec by (fold vk; lia). fold vk. run.
  rewrite memcpy_splice by len. run. rewrite firstn_all, splice_at by lia.
  rewrite encode_uint64_spec by (fold vv; len). fold vv. run.
  rewrite splice_at by len.
  rewrite memcpy_splice by len. run. rewrite firstn_all, splice_at by len.
  rewrite (it_volume _ _ Hit), u16_small by (unfold size, enc; fold vk vv; rewrite !length_app; lia).
  unfold size, enc. fold vk vv. rewrite !length_app. rewrite (proj2 (Z.eqb_eq _ _)) by lia. cbn [Bloom.assert]. run.
  rewrite <- !app_assoc. do 2 f_equal. lia.
Qed.

Lemma dump_items_spec l : forall buf p nr,
  Forall (item_ok SHA1) l -> length buf = Bloom.BARREL_ALIGN -> Z.of_nat p + sizes l <= Z.of_nat BARREL_CAP ->
  exists nr', dump_items l buf p nr = Done (splice buf p (encs l), (p + length (encs l))%nat, nr').
Proof.
  pose proof cap_value as HC. pose proof barrel_value as HA.
  induction l as [|it l IH]; intros buf p nr Hok Hl Hp.
  { exists nr. cbn [dump_items encs fmap list_fmap concat length]. rewrite Nat.add_0_r. do 3 f_equal. unfold splice. cbn [length app].
    rewrite Nat.add_0_r. by rewrite take_drop. }
  inversion_clear Hok as [|?? Hit Hok']. rewrite sizes_cons in Hp. cbn [dump_items].
  pose proof (sizes_nonneg l). assert (Z.of_nat (length (enc it)) = size it) as Es by done.
  rewrite item_encode_spec by (done || lia). run. rewrite (proj2 (Nat.leb_le _ _)) by lia. cbn [Bloom.assert]. run.
  destruct (IH (splice buf p (enc it)) (p + length (enc it))%nat (u16 (nr + 1)) Hok') as (nr' & ->);
    [rewrite length_splice; lia|lia|]. exists nr'. pose proof (length_encs l).
  rewrite splice_at by lia. rewrite encs_cons, length_app. do 3 f_equal. lia.
Qed.

(** The zeros behind the items. *)
Lemma zero_rest buf e n :
  (length e <= n)%nat -> (n <= length buf)%nat ->
  (if (length e <? n)%nat
   then buffer ← memset (splice buf 0 e) (length e) 0 (n - length e); r ← encode_uint64 buffer (length e) 0; Done r.1
   else Done (splice buf 0 e)) = Done (splice buf 0 (e ++ replicate (n - length e) 0)).
Proof.
  intros He Hn. destruct (Nat.ltb_spec (length e) n) as [Hlt|Hge].
  - rewrite memset_splice by len. run. rewrite splice_at by len.
    assert (varint 0 = [0]) as Hv by reflexivity.
    rewrite encode_uint64_spec by (rewrite ?Hv, ?length_splice; rewrite ?length_app, ?length_replicate; cbn [length]; lia). run. cbn [fst].
    rewrite Hv. destruct (n - length e)%nat as [|m] eqn:En; [lia|]. cbn [replicate].
    unfold splice at 2 3. cbn [take app]. rewrite <- !app_assoc. cbn [app]. f_equal. apply (splice_same e [0]).
  - replace (n - length e)%nat with O by lia. cbn [replicate]. by rewrite app_nil_r.
Qed.

Lemma barrel_dump_spec b buf :
  barrel_ok SHA1 b -> sizes (contents b) <= Z.of_nat BARREL_CAP -> length buf = Bloom.BARREL_ALIGN ->
  exists nr, barrel_dump_buffer b buf = Done (barrel_page b, nr).
Proof.
  pose proof cap_value as HC. pose proof barrel_value as HA.
  intros Hb Hs Hl. unfold barrel_dump_buffer. fold (contents b).
  destruct (dump_items_spec (contents b) buf 0 0 (ba_items _ _ Hb) Hl ltac:(lia)) as (nr & ->). run. exists nr. cbn [Nat.add].
  pose proof (length_encs (contents b)) as He. pose proof (length_barrel_page b Hs) as Hp. unfold barrel_page in *.
  generalize dependent (encs (contents b)). clear Hb. generalize dependent Bloom.BARREL_ALIGN. generalize dependent BARREL_CAP.
  intros cap HC Hs align HA Hl e He Hp. rewrite zero_rest by lia. run.
  rewrite memcpy_splice by len. run. rewrite firstn_all2 by len. rewrite splice_at by len.
  rewrite <- app_assoc, splice_all by lia. done.
Qed.

(** ** Reading a page *)

Definition raw_of (it : Item) (p lim : nat) : RawItem :=
  let pk := (p + length (varint (Z.of_nat (length (key it)))))%nat in
  mkRaw (length (key it)) (length (value it)) pk
    (pk + length (key it) + length (varint (Z.of_nat (length (value it)))))%nat lim.

Lemma decode_uint16_spec pre v tl p :
  Z.of_nat v < 65536 -> p = length pre ->
  decode_uint16 (pre ++ varint (Z.of_nat v) ++ tl) p = Done ((p + length (varint (Z.of_nat v)))%nat, v).
Proof.
  intros Hv ->. unfold decode_uint16. rewrite decode_uint64_spec by lia. run. rewrite u16_small by lia. by rewrite Nat2Z.id.
Qed.

Lemma rawitem_at_spec pre it tl lim p :
  item_ok SHA1 it -> p = length pre -> rawitem_at (pre ++ enc it ++ tl) p lim = Done (Some (raw_of it p lim)).
Proof.
  intros Hit ->. destruct (it_key _ _ Hit) as [Hne Hk]. pose proof (it_value _ _ Hit) as Hv.
  pose proof (length_varint (Z.of_nat (length (key it)))) as Hl. unfold rawitem_at, enc. rewrite <- !app_assoc.
  rewrite decode_uint16_spec by done. run. rewrite (proj2 (Nat.eqb_neq _ _)) by lia.
  rewrite (proj2 (Nat.eqb_neq _ _)) by (destruct (key it); [done|simpl; lia]). cbn [orb].
  rewrite (app_assoc pre), (app_assoc (pre ++ _)). rewrite decode_uint16_spec by (done || len). run. done.
Qed.

Lemma rawitem_end pre tl lim p : p = length pre -> rawitem_at (pre ++ 0 :: tl) p lim = Done None.
Proof.
  intros ->. pose proof (decode_uint16_spec pre 0 tl (length pre) ltac:(lia) eq_refl) as E.
  change (varint (Z.of_nat 0)) with [0] in E. cbn [app] in E. unfold rawitem_at. rewrite E. run.
  cbn [length]. rewrite Nat.eqb_refl, orb_true_r. done.
Qed.

Lemma bytes_at_spec pre x tl p : p = length pre -> bytes_at (pre ++ x ++ tl) p (length x) = Done x.
Proof.
  intros ->. unfold bytes_at. rewrite (proj2 (Nat.leb_le _ _)) by len. by rewrite drop_app_length, take_app_length.
Qed.

Definition to_kv (i : Item) : KeyValue := mkKV (key i) (value i).

(** Where the items of a page end. *)
Definition ends (tl : list Z) (p lim : nat) : Prop := p = lim \/ (p < lim)%nat /\ exists tl', tl = 0 :: tl'.

(** One item on a page. *)
Section one.
Context (pre tl : list Z) (it : Item) (lim p : nat) (Hp : p = length pre).
Notation raw := (pre ++ enc it ++ tl).

Lemma raw_key : bytes_at raw (p + length (varint (Z.of_nat (length (key it))))) (length (key it)) = Done (key it).
Proof using Hp. unfold enc. rewrite <- !app_assoc, (app_assoc pre). apply bytes_at_spec. len. Qed.

Lemma raw_same k :
  (if (Lsm.klen (raw_of it p lim) =? length k)%nat
   then k' ← bytes_at raw (Lsm.pk (raw_of it p lim)) (length k); Done (bool_decide (k = k')) else Done false) =
  Done (bool_decide (k = key it)).
Proof using Hp.
  unfold raw_of. cbn [Lsm.pk Lsm.klen].
  destruct (Nat.eqb_spec (length (key it)) (length k)) as [E|E]; [rewrite <- E, raw_key; done|].
  rewrite bool_decide_false; [done|]. by intros ->.
Qed.

Lemma raw_kv : rawitem_to_keyvalue raw (raw_of it p lim) = Done (to_kv it).
Proof using Hp.
  unfold rawitem_to_keyvalue, raw_of. cbn [Lsm.pk Lsm.pv Lsm.klen Lsm.vlen]. rewrite raw_key. run.
  unfold enc. rewrite <- !app_assoc, (app_assoc pre), (app_assoc (pre ++ _)), (app_assoc ((pre ++ _) ++ _)).
  rewrite bytes_at_spec by len. done.
Qed.

Lemma raw_next :
  rawitem_next raw (raw_of it p lim) =
  if (lim <=? p + length (enc it))%nat then Done None else rawitem_at raw (p + length (enc it)) lim.
Proof using Hp.
  unfold rawitem_next, raw_of. cbn [Lsm.pk Lsm.pv Lsm.klen Lsm.vlen Lsm.limit].
  assert (forall a b c d, p + a + b + c + d = p + (a + (b + (c + d))))%nat as Ha by lia. rewrite Ha, <- !length_app. done.
Qed.
End one.

(** The item behind [it], when [l] is what is left on the page. *)
Lemma raw_advance pre it l tl p lim :
  p = length pre -> Forall (item_ok SHA1) l -> ends tl (p + length (encs (it :: l))) lim ->
  rawitem_next (pre ++ enc it ++ encs l ++ tl) (raw_of it p lim) = Done ((fun it' => raw_of it' (p + length (enc it)) lim) <$> head l).
Proof.
  intros Hp Hok He. rewrite raw_next by done. rewrite encs_cons, length_app in He. destruct l as [|it' l].
  - change (encs []) with (@nil Z) in *. cbn [app length] in *. destruct (Nat.leb_spec lim (p + length (enc it))); [done|].
    destruct He as [?|(_ & tl' & ->)]; [lia|]. rewrite app_assoc. apply rawitem_end. len.
  - rewrite encs_cons in *. rewrite length_app in He. pose proof (size_pos it') as Hs. unfold size in Hs.
    rewrite (proj2 (Nat.leb_gt _ _)) by (destruct He as [?|[? _]]; lia). inversion_clear Hok as [|?? Hit' _].
    rewrite <- (app_assoc (enc it')), (app_assoc pre). apply rawitem_at_spec; [done|len].
Qed.

Lemma raw_lookup_spec k lim tl l : forall it fuel pre p,
  Forall (item_ok SHA1) (it :: l) -> p = length pre -> (length l <= fuel)%nat ->
  ends tl (p + length (encs (it :: l))) lim ->
  raw_lookup_loop fuel k (pre ++ encs (it :: l) ++ tl) (raw_of it p lim) = Done (option_map to_kv (item_lookup (it :: l) k)).
Proof.
  induction l as [|it' l IH]; intros it fuel pre p Hok Hp Hf He; inversion_clear Hok as [|?? Hit Hok'];
    rewrite (encs_cons it), <- app_assoc; pose proof (raw_advance pre it _ tl p lim Hp Hok' He) as En.
  - destruct fuel; cbn [raw_lookup_loop]; rewrite raw_same by done; run; cbn [item_lookup]; case_bool_decide;
      first [rewrite raw_kv by done|rewrite En]; run; done.
  - destruct fuel as [|fuel]; [simpl in Hf; lia|]. cbn [raw_lookup_loop]. rewrite raw_same by done. run. cbn [item_lookup].
    case_bool_decide; [rewrite raw_kv by done; run; done|]. rewrite En. cbn [head fmap option_fmap option_map]. run.
    rewrite (app_assoc pre). apply IH; [done|len|simpl in Hf; lia|]. rewrite encs_cons, length_app in He. by rewrite <- Nat.add_assoc.
Qed.

Lemma page_end b : sizes (contents b) <= Z.of_nat BARREL_CAP ->
  ends (replicate (BARREL_CAP - length (encs (contents b))) 0 ++ metaindex_bytes (id b) (rid b) (bmin b)) (length (encs (contents b))) BARREL_CAP.
Proof.
  intros Hs. rewrite <- length_encs in Hs. destruct (decide (length (encs (contents b)) = BARREL_CAP)) as [E|Hne]; [by left|].
  right. split; [lia|]. destruct (BARREL_CAP - length (encs (contents b)))%nat eqn:E; [lia|]. by eexists.
Qed.

Lemma raw_barrel_lookup_spec b k :
  barrel_ok SHA1 b -> sizes (contents b) <= Z.of_nat BARREL_CAP ->
  raw_barrel_lookup k (barrel_page b) = Done (option_map to_kv (item_lookup (contents b) k)).
Proof.
  intros Hb Hs. pose proof (page_end b Hs) as He. unfold raw_barrel_lookup, rawitem_init, barrel_page. cbn [Nat.add].
  set (tl := replicate _ _ ++ _) in *. pose proof (ba_items _ _ Hb) as Hok. pose proof (sizes_nonneg (contents b)) as Hn.
  destruct (contents b) as [|it l].
  - change (encs []) with (@nil Z) in *. cbn [app length] in *. destruct He as [E|(_ & tl' & ->)]; [pose proof cap_value; lia|].
    rewrite (rawitem_end [] tl') by done. run. done.
  - inversion Hok as [|?? Hit _]. subst. rewrite encs_cons, <- app_assoc.
    rewrite (rawitem_at_spec [] it (encs l ++ tl)) by done. run. rewrite app_assoc, <- encs_cons.
    cbn [length] in *. apply (raw_lookup_spec k BARREL_CAP tl l it BARREL_CAP []); [done|done|lia|done].
Qed.

Lemma metaindex_of_bytes i r m tl :
  Z.of_nat i < 65536 -> Z.of_nat r < 65536 -> 0 <= m < 2 ^ 32 -> metaindex_of (metaindex_bytes i r m ++ tl) = mkMI i r m.
Proof.
  intros Hi Hr Hm. unfold metaindex_of, metaindex_bytes, word. rewrite <- !app_assoc.
  assert (forall n v l, take n (le n v ++ l) = le n v) as Ht by (intros n v l; apply take_app_length'; by rewrite length_le).
  assert (forall n v l, drop n (le n v ++ l) = l) as Hd by (intros n v l; apply drop_app_length'; by rewrite length_le).
  rewrite drop_0. change 4%nat with (2 + 2)%nat at 2. rewrite <- (drop_drop _ 2 2). rewrite !Hd, !Ht, !le_value_le by lia. by rewrite !Nat2Z.id.
Qed.

Lemma page_metaindex b :
  sizes (contents b) <= Z.of_nat BARREL_CAP -> Z.of_nat (id b) < 65536 -> Z.of_nat (rid b) < 65536 -> 0 <= bmin b < 2 ^ 32 ->
  raw_barrel_metaindex (barrel_page b) = Done (note b).
Proof.
  intros Hs Hi Hr Hm. rewrite <- length_encs in Hs. unfold raw_barrel_metaindex, barrel_page.
  rewrite <- (app_nil_r (metaindex_bytes _ _ _)), app_assoc.
  rewrite <- (length_metaindex_bytes (id b) (rid b) (bmin b)), bytes_at_spec by len. run.
  rewrite <- (app_nil_r (metaindex_bytes _ _ _)). by rewrite metaindex_of_bytes.
Qed.
End disk.

(** ** The binary search in the meta index *)

Section find.
Context (l : list MetaIndex) (target : nat).
Hypothesis Hs : StronglySorted (fun a b => mi_id a < mi_id b)%nat l.

(** An entry for [target] is between [lid] and [rid]. *)
Definition between (lid rid : nat) : Prop :=
  (lid <= rid <= length l)%nat /\ forall i m, l !! i = Some m -> mi_id m = target -> (lid <= i < rid)%nat.

Lemma sorted_lookup i j a b : l !! i = Some a -> l !! j = Some b -> (i < j)%nat -> (mi_id a < mi_id b)%nat.
Proof using Hs.
  intros Ha Hb Hij. rewrite <- (take_drop j l) in Hs. apply (StronglySorted_app_1_elem_of _ _ _ a b Hs).
  - apply list_elem_of_lookup. exists i. by rewrite lookup_take_lt.
  - apply list_elem_of_lookup. exists O. by rewrite lookup_drop, Nat.add_0_r.
Qed.

Lemma search_loop_spec fuel : forall lid rid,
  between lid rid -> (rid - lid <= fuel)%nat ->
  exists lid' rid', search_loop fuel l target lid rid = Done (lid', rid') /\ between lid' rid'.
Proof using Hs.
  induction fuel as [|fuel IH]; intros lid rid Hb Hf; cbn [search_loop];
    (destruct (Nat.ltb_spec 4 (rid - lid)) as [Hlt|Hge]; [|by exists lid, rid]); [lia|].
  destruct Hb as [Hr Hb]. pose proof (Nat.div_mod_eq (lid + rid) 2) as Hd. pose proof (Nat.mod_upper_bound (lid + rid) 2).
  set (mid := ((lid + rid) / 2)%nat) in *. destruct (lookup_lt_is_Some_2 l mid) as [m Hm]; [lia|].
  rewrite (load_Done _ _ _ Hm). run. destruct (Nat.eqb_spec (mi_id m) target) as [E|E]; [by exists lid, rid|].
  destruct (Nat.ltb_spec target (mi_id m)) as [Hlt'|Hge']; apply IH; try lia; (split; [lia|]); intros i m' Hi Ei;
    specialize (Hb i m' Hi Ei); destruct (Nat.lt_trichotomy i mid) as [Hc|[->|Hc]]; try (simplify_eq; lia).
  - pose proof (sorted_lookup _ _ _ _ Hm Hi Hc). lia.
  - pose proof (sorted_lookup _ _ _ _ Hi Hm Hc). lia.
Qed.

Lemma scan_loop_spec n : forall lid,
  (lid + n <= length l)%nat -> (forall i m, l !! i = Some m -> mi_id m = target -> (lid <= i < lid + n)%nat) ->
  exists r, scan_loop n l target lid = Done r /\ forall m, r = Some m <-> m ∈ l /\ mi_id m = target.
Proof using Hs.
  induction n as [|n IH]; intros lid Hl Hb; cbn [scan_loop].
  { exists None. split; [done|]. intros m. split; [done|]. intros [Hin E]. apply list_elem_of_lookup in Hin as [i Hi].
    specialize (Hb i m Hi E). lia. }
  destruct (lookup_lt_is_Some_2 l lid) as [m Hm]; [lia|]. rewrite (load_Done _ _ _ Hm). run.
  destruct (Nat.ltb_spec (mi_id m) target) as [Hlt|Hge].
  - apply IH; [lia|]. intros i m' Hi Ei. specialize (Hb i m' Hi Ei). destruct (decide (i = lid)) as [->|]; [simplify_eq; lia|lia].
  - destruct (Nat.eqb_spec (mi_id m) target) as [E|E]; eexists; (split; [done|]); intros m'; split; try done.
    + intros H1. injection H1 as <-. split; [by eapply list_elem_of_lookup_2|done].
    + intros [Hin E']. apply list_elem_of_lookup in Hin as [i Hi]. f_equal. destruct (Nat.lt_trichotomy lid i) as [Hc|[->|Hc]]; [|congruence|].
      * pose proof (sorted_lookup _ _ _ _ Hm Hi Hc). lia.
      * pose proof (sorted_lookup _ _ _ _ Hi Hm Hc). lia.
    + intros [Hin E']. apply list_elem_of_lookup in Hin as [i Hi]. specialize (Hb i m' Hi E').
      destruct (decide (i = lid)) as [->|]; [simplify_eq; lia|]. pose proof (sorted_lookup _ _ _ _ Hm Hi ltac:(lia)). lia.
Qed.

(** The search finds the entry when there is one. *)
Lemma find_metaindex_spec :
  exists r, __find_metaindex (length l) l target = Done r /\ forall m, r = Some m <-> m ∈ l /\ mi_id m = target.
Proof using Hs.
  unfold __find_metaindex. destruct (search_loop_spec (length l) 0 (length l)) as (lid & rid & -> & Hr & Hb); [|lia|].
  - split; [lia|]. intros i m Hi _. apply lookup_lt_Some in Hi. lia.
  - run. apply scan_loop_spec; [lia|]. intros i m Hi Ei. specialize (Hb i m Hi Ei). lia.
Qed.
End find.
