(* ===== verification/LsmLookup.v ===== *)
(** * Tables of the LSM-trie on disk: metatable_lookup

    The search starts at the home barrel of a key and follows the notes; it
    ends because the barrels that have given items away are ordered in time. *)

From Stdlib Require Import Sorted.
From stdpp Require Import gmap sorting.
From S2P Require Import Prelude Coding Bloom BloomPages Mempool LsmTable LsmMem LsmRetain LsmDisk.
Import Coding Lsm.

Section lookup.
Context (SHA1 : list Z -> list Z).
Hypothesis Hsha : forall k, length (SHA1 k) = 20%nat /\ Forall is_u8 (SHA1 k).

(** The file holds the pages of [bs], and the meta index describes them. *)
Record on_disk (bs : list Barrel) (M : gmap (list Z) (list Z)) (mt : MetaTable) (file : list Z) : Prop := {
  od_inv : exists F, ret_inv SHA1 F bs M;
  od_fit : forall i b, bs !! i = Some b -> sizes (contents b) <= Z.of_nat BARREL_CAP;
  od_index : index_of bs (mt_mis mt);
  od_nr : mt_nr_mi mt = Z.of_nat (length (mt_mis mt));
  od_pages : forall i b, bs !! i = Some b ->
    Bloom.pread file Bloom.BARREL_ALIGN (i * Bloom.BARREL_ALIGN + mt_off mt) = Done (barrel_page b) }.

Section one.
Context (bs : list Barrel) (M : gmap (list Z) (list Z)) (mt : MetaTable) (file : list Z) (F : list nat) (k : list Z).
Hypothesis HD : on_disk bs M mt file.
Hypothesis HI : ret_inv SHA1 F bs M.

(** Where the search for [k] may be. *)
Definition reaches (i : nat) : Prop := forall j it, at_barrel bs j it -> key it = k -> routes bs (SHA1 k) i j.

Lemma frozen_rid F1 F2 i b :
  F = F1 ++ F2 -> i ∉ F1 -> bs !! i = Some b -> 0 < nr_out b ->
  exists G1 G2, F2 = G1 ++ i :: G2 /\ rid b ∉ F1 ++ G1 ++ [i] /\ rid b <> i /\ (rid b < TABLE_NR_BARRELS)%nat.
Proof using All.
  intros E Hi Hb Ho. apply (re_frozen _ _ _ _ HI _ _ Hb) in Ho. rewrite E, elem_of_app in Ho. destruct Ho as [Ho|Ho]; [done|].
  apply list_elem_of_split in Ho as (G1 & G2 & ->). exists G1, G2.
  destruct (re_rank _ _ _ _ HI (F1 ++ G1) i G2 b) as [Hr Hlt]; [by rewrite E, <- app_assoc|done|]. rewrite <- app_assoc in Hr.
  split_and!; [done|done| |done]. intros Hc. apply Hr. rewrite Hc. set_solver.
Qed.

Lemma open_or_frozen i b : bs !! i = Some b -> (rid b = i /\ bmin b = 0) \/ 0 < nr_out b.
Proof using All.
  intros Hb. destruct (re_open _ _ _ _ HI _ _ Hb) as (H0 & H1 & _). destruct (decide (nr_out b = 0)); [left; auto|right; lia].
Qed.

Lemma find_note i b : bs !! i = Some b ->
  exists r, __find_metaindex (Z.to_nat (mt_nr_mi mt)) (mt_mis mt) i = Done r /\ (r = None \/ r = Some (note b)).
Proof using All.
  intros Hb. destruct (od_index _ _ _ _ HD) as [Hn Hs]. rewrite (od_nr _ _ _ _ HD), Nat2Z.id.
  destruct (find_metaindex_spec (mt_mis mt) i Hs) as (r & -> & Hr). exists r. split; [done|]. destruct r as [m|]; [right|by left].
  destruct (proj1 (Hr m) eq_refl) as [Hm <-]. destruct (proj1 (Forall_forall _ _) Hn m Hm) as (b' & Hb' & ->). congruence.
Qed.

(** What the page of a barrel says about the key. *)
Lemma page_answer i b : bs !! i = Some b ->
  (exists it, raw_barrel_lookup k (barrel_page b) = Done (Some (to_kv it)) /\ mkKV k <$> M !! k = Some (to_kv it)) \/
  (raw_barrel_lookup k (barrel_page b) = Done None /\ forall it, it ∈ contents b -> key it <> k).
Proof using All.
  intros Hb. destruct (re_ok _ _ _ _ HI _ _ Hb) as (Hok & _). rewrite (raw_barrel_lookup_spec SHA1 b k Hok (od_fit _ _ _ _ HD _ _ Hb)).
  pose proof (item_lookup_spec (contents b) k (ba_nodup _ _ Hok)) as Hl. destruct (item_lookup (contents b) k) as [it|].
  - left. exists it. split; [done|]. destruct (proj1 (Hl it) eq_refl) as [Hin Hk].
    assert (M !! k = Some (value it)) as ->; [|unfold to_kv; cbn; by rewrite Hk].
    apply (re_map _ _ _ _ HI). exists i, it. split; [by exists b|]. unfold pair_of. by rewrite Hk.
  - right. split; [done|]. intros it Hin Hk. by pose proof (proj2 (Hl it) (conj Hin Hk)).
Qed.

(** The key is not where the search ends. *)
Lemma not_further i b :
  reaches i -> bs !! i = Some b -> (forall it, it ∈ contents b -> key it <> k) ->
  (0 < nr_out b -> bmin b < rotated (SHA1 k) i) -> M !! k = None.
Proof using All.
  intros Hre Hb Hn Hno. destruct (M !! k) as [v|] eqn:HM; [|done]. exfalso.
  apply (re_map _ _ _ _ HI) in HM as (j & it & Hat & Ep). injection Ep as Ek Ev.
  specialize (Hre j it Hat Ek). inversion Hre as [? E1 E2|? b' ? Hb' Ho' Hr' _ E1 E2]; subst.
  - destruct Hat as (b0 & Hb0 & Hin). rewrite Hb in Hb0. injection Hb0 as <-. by apply (Hn it Hin).
  - rewrite Hb in Hb'. injection Hb' as <-. specialize (Hno Ho'). lia.
Qed.

(** From a barrel whose page does not hold the key the search goes on. *)
Lemma reaches_on i b :
  reaches i -> bs !! i = Some b -> (forall it, at_barrel bs i it -> key it <> k) -> reaches (rid b).
Proof using All.
  intros Hre Hb Hn j it Hat Hk. specialize (Hre j it Hat Hk). inversion Hre as [? E1 E2|? b' ? Hb' Ho' Hr' Hroute E1 E2]; subst.
  - by destruct (Hn it Hat).
  - rewrite Hb in Hb'. by injection Hb' as <-.
Qed.

(** Items that have left a barrel are not on its page. *)
Lemma left_barrel i b : bs !! i = Some b -> rotated (SHA1 k) i < bmin b -> forall it, at_barrel bs i it -> key it <> k.
Proof using All.
  intros Hb Hr it Hat Hk. pose proof (ret_item_ok _ _ _ _ _ _ HI Hat) as Hit. destruct Hat as (b0 & Hb0 & Hin).
  rewrite Hb in Hb0. injection Hb0 as <-. pose proof (re_stay _ _ _ _ HI _ _ _ Hb Hin) as Hst.
  rewrite (it_hash _ _ Hit), Hk in Hst. lia.
Qed.

(** One barrel of the search, when the rest of it is right. *)
Section here.
Context (fuel i : nat) (b : Barrel) (Hb : bs !! i = Some b) (Hre : reaches i).
Hypothesis Hrid : (rid b < TABLE_NR_BARRELS)%nat.
Hypothesis Hmove : 0 < nr_out b -> rid b <> i.

Definition go_on (buf : list Z) (s : option Stat) : exec (option KeyValue * option Stat) :=
  match fuel with O => NoFuel | S fuel' => metatable_recursive_lookup fuel' mt file (rid b) buf k (SHA1 k) s end.

Hypothesis Hgo : forall buf s, (forall it, at_barrel bs i it -> key it <> k) -> 0 < nr_out b ->
  exists s', go_on buf s = Done (mkKV k <$> M !! k, s').

Lemma look_here s :
  bmin b <= rotated (SHA1 k) i ->
  exists s', (kv ← raw_barrel_lookup k (barrel_page b);
    match kv with
    | Some kv => Done (Some kv, s)
    | None => if (rotated (SHA1 k) i =? bmin b) && negb (id b =? rid b)%nat then go_on (barrel_page b) s else Done (None, s)
    end) = Done (mkKV k <$> M !! k, s').
Proof using All.
  intros Hle. destruct (re_ok _ _ _ _ HI _ _ Hb) as (_ & _ & Hid & _). rewrite Hid.
  destruct (page_answer i b Hb) as [(it & -> & ->)|[-> Hn]]; run; [by exists s|].
  assert (forall it, at_barrel bs i it -> key it <> k) as Hn'.
  { intros it (b0 & Hb0 & Hin). rewrite Hb in Hb0. injection Hb0 as <-. by apply Hn. }
  destruct (Z.eqb_spec (rotated (SHA1 k) i) (bmin b)) as [E|E]; cbn [andb].
  - destruct (Nat.eqb_spec i (rid b)) as [Er|Er]; cbn [negb].
    + exists s. rewrite (not_further i b Hre Hb Hn); [done|]. intros Ho. by destruct (Hmove Ho).
    + destruct (open_or_frozen i b Hb) as [[Hc _]|Ho]; [congruence|]. by apply Hgo.
  - exists s. rewrite (not_further i b Hre Hb Hn); [done|]. lia.
Qed.

Lemma lookup_here buf s : (i < TABLE_NR_BARRELS)%nat ->
  exists s', metatable_recursive_lookup fuel mt file i buf k (SHA1 k) s = Done (mkKV k <$> M !! k, s').
Proof using All.
  intros Hi. pose proof nr_barrels_value as HN. destruct (re_ok _ _ _ _ HI _ _ Hb) as (Hok & _ & Hid & Hmin).
  pose proof (page_metaindex b (od_fit _ _ _ _ HD _ _ Hb) ltac:(lia) ltac:(lia) Hmin) as Hpm.
  assert (forall buf s, rotated (SHA1 k) i < bmin b ->
    exists s', (_ ← Bloom.assert (negb (id b =? rid b)%nat); go_on buf s) = Done (mkKV k <$> M !! k, s')) as Haway.
  { intros buf' s' Hlt. destruct (open_or_frozen i b Hb) as [[_ Hc]|Ho].
    - pose proof (proj1 (rotated_range (SHA1 k) i (proj1 (Hsha k)) (proj2 (Hsha k)))). lia.
    - rewrite Hid, (proj2 (Nat.eqb_neq _ _)) by (intros E; by destruct (Hmove Ho)). cbn [Bloom.assert negb]. run.
      apply Hgo; [by apply (left_barrel i b Hb)|done]. }
  assert (forall s, raw_barrel_fetch mt file i s = Done (barrel_page b, count_fetch s)) as Hfetch.
  { intros s'. unfold raw_barrel_fetch. by rewrite (od_pages _ _ _ _ HD _ _ Hb). }
  destruct (find_note i b Hb) as (r & Er & Hr).
  assert (forall s, exists s', (if rotated (SHA1 k) i <? bmin b then _ ← Bloom.assert (negb (id b =? rid b)%nat); go_on (barrel_page b) s
    else kv ← raw_barrel_lookup k (barrel_page b);
      match kv with
      | Some kv => Done (Some kv, s)
      | None => if (rotated (SHA1 k) i =? bmin b) && negb (id b =? rid b)%nat then go_on (barrel_page b) s else Done (None, s)
      end) = Done (mkKV k <$> M !! k, s')) as Hpage.
  { intros s'. destruct (Z.ltb_spec (rotated (SHA1 k) i) (bmin b)); [by apply Haway|by apply look_here]. }
  unfold go_on in *. destruct fuel as [|fuel'] eqn:Ef; cbn [metatable_recursive_lookup]; unfold __hash_order;
    rewrite (proj2 (Nat.ltb_lt _ _)) by done; cbn [Bloom.assert]; run; rewrite Er; run; destruct Hr as [->| ->].
  all: try (rewrite Hfetch; run; rewrite Hpm; run; apply Hpage).
  all: cbn [mi_min mi_id mi_rid note]; destruct (Z.leb_spec (bmin b) (rotated (SHA1 k) i)) as [Hle|Hgt];
    [rewrite Hfetch; run; apply Hpage|run; rewrite (proj2 (Z.ltb_lt _ _)) by done; by apply Haway].
Qed.
End here.

Lemma recursive_lookup_spec n : forall F1 F2 fuel i buf s,
  length F2 = n -> F = F1 ++ F2 -> i ∉ F1 -> (i < TABLE_NR_BARRELS)%nat -> (length F2 <= fuel)%nat -> reaches i ->
  exists s', metatable_recursive_lookup fuel mt file i buf k (SHA1 k) s = Done (mkKV k <$> M !! k, s').
Proof using All.
  induction n as [n IH] using lt_wf_ind. intros F1 F2 fuel i buf s Hn E Hi Hlt Hf Hre.
  destruct (lookup_lt_is_Some_2 bs i) as [b Hb]; [rewrite (re_length _ _ _ _ HI); done|].
  apply (lookup_here fuel i b Hb Hre); [| | |done].
  - destruct (open_or_frozen i b Hb) as [[-> _]|Ho]; [done|]. by destruct (frozen_rid F1 F2 i b E Hi Hb Ho) as (? & ? & _ & _ & _ & ?).
  - intros Ho. by destruct (frozen_rid F1 F2 i b E Hi Hb Ho) as (? & ? & _ & _ & ? & _).
  - intros buf' s' Hnot Ho. destruct (frozen_rid F1 F2 i b E Hi Hb Ho) as (G1 & G2 & E2 & Hr & _ & Hlt').
    rewrite E2, length_app in Hf, Hn. cbn [length] in Hf, Hn. unfold go_on. destruct fuel as [|fuel]; [lia|].
    apply (IH (length G2) ltac:(lia) (F1 ++ G1 ++ [i]) G2); [done|by rewrite E, E2, <- !app_assoc|done|done|lia|by eapply reaches_on].
Qed.

Lemma frozen_count : (length F <= TABLE_NR_BARRELS)%nat.
Proof using All.
  rewrite <- (length_seq TABLE_NR_BARRELS 0). apply submseteq_length, NoDup_submseteq; [apply HI|]. intros i Hi. apply elem_of_seq.
  pose proof (proj1 (Forall_forall _ _) (re_range _ _ _ _ HI) i Hi). cbn in *. lia.
Qed.
End one.

(** What a table of Bloom filters promises: no key is missed. *)
Definition bloom_ok (M : gmap (list Z) (list Z)) (b : Bloom.BloomTable) : Prop :=
  forall k, exists r, Bloom.bloomtable_match b (Z.of_nat (table_select_barrel (SHA1 k))) (__hash_bf (SHA1 k)) = Done r /\
    (is_Some (M !! k) -> r = true).

Lemma metatable_lookup_spec junk bs M mt file k s :
  on_disk bs M mt file -> match mt_bt mt with None => True | Some b => bloom_ok M b end ->
  exists s', metatable_lookup junk mt file k (SHA1 k) s = Done (mkKV k <$> M !! k, s').
Proof using Hsha.
  intros HD Hbt. destruct (od_inv _ _ _ _ HD) as [F HI]. unfold metatable_lookup.
  assert (exists s', (r ← metatable_recursive_lookup TABLE_NR_BARRELS mt file (table_select_barrel (SHA1 k)) (junk Bloom.BARREL_ALIGN) k (SHA1 k) s;
      let '(kv, s) := r in Done (kv, count_result kv s)) = Done (mkKV k <$> M !! k, s')) as Hrec.
  { destruct (recursive_lookup_spec bs M mt file F k HD HI (length F) [] F TABLE_NR_BARRELS (table_select_barrel (SHA1 k)) (junk Bloom.BARREL_ALIGN) s)
      as [s' E]; [done|done|apply not_elem_of_nil|apply select_lt|apply (frozen_count bs M mt file F k HD HI)| |].
    - intros j it Hat Hk. pose proof (re_routes _ _ _ _ HI _ _ Hat) as Hr. by rewrite (it_hash _ _ (ret_item_ok _ _ _ _ _ _ HI Hat)), Hk in Hr.
    - rewrite E. run. by eexists. }
  destruct (mt_bt mt) as [b|]; run; [|done]. destruct (Hbt k) as (r & -> & Hr). run. destruct r; [done|].
  destruct (M !! k); [by discriminate Hr|]. by eexists.
Qed.
End lookup.
