(* ===== verification/LsmSystem.v ===== *)
(** * Tables of the LSM-trie: from insertions to lookups on disk

    A table is filled, its Bloom filters are made, it is balanced, written and
    loaded; the loaded table answers like the map of what was inserted. *)

From Stdlib Require Import Sorted SpecFloat.
From stdpp Require Import gmap sorting.
From S2P Require Import Prelude Coding Bloom BloomProof BloomTable BloomPages BloomContainer Mempool LsmTable LsmMem LsmRetain LsmDisk LsmLookup.
Import Coding Lsm.

Lemma Done_inj {A} (x y : A) : Done x = Done y -> x = y.
Proof. congruence. Qed.

(** ** Bloom filters of barrels *)

Lemma updates_match hvs f f' hv :
  wf f -> Forall (fun q => 0 <= q) (probes (Bloom.bytes_ f) hv) -> bloom_updates f hvs = Done f' -> hv ∈ hvs -> Bloom.bloom_match f' hv = Done true.
Proof.
  intros Hf Hq E Hin. destruct (bloom_updates_spec hvs f Hf) as (f1 & E1 & Hf1 & Hb1 & _ & Hbit). rewrite E in E1. injection E1 as <-.
  rewrite bloom_match_spec by done. f_equal. apply forallb_forall. intros q Hqin. rewrite Hb1 in Hqin.
  apply list_elem_of_In in Hqin. rewrite Hbit by exact (proj1 (Forall_forall _ _) Hq q Hqin).
  apply orb_true_iff. right. apply existsb_exists. exists hv. split; [by apply list_elem_of_In|]. rewrite existsb_eqb. by apply bool_decide_true.
Qed.

Lemma probes_nonneg f hv : wf f -> Forall (fun q => 0 <= q) (probes (Bloom.bytes_ f) hv).
Proof. intros Hf. eapply Forall_impl; [apply (probes_range _ hv (wf_size _ Hf))|]. cbn. lia. Qed.

Lemma update_filter_spec l f : update_filter l f = bloom_updates f ((fun i => __hash_bf (hash i)) <$> l).
Proof.
  revert f. induction l as [|i l IH]; intros f; [done|]. rewrite fmap_cons. cbn [update_filter bloom_updates].
  destruct (Bloom.bloom_update f (__hash_bf (hash i))); run; [apply IH|done..].
Qed.

(** The filter of a barrel. *)
Record filter_for (b : Barrel) (f : Bloom.BloomFilter) : Prop := {
  ff_wf : wf f;
  ff_bytes : Bloom.bytes_ f <= 8184;
  ff_match : forall it, it ∈ contents b -> Bloom.bloom_match f (__hash_bf (hash it)) = Done true }.

Lemma bloom_create_bytes n : 0 <= n <= 4088 -> Bloom.bytes_ (Bloom.bloom_create n) <= 8184 /\ 8 <= Bloom.bytes_ (Bloom.bloom_create n).
Proof.
  intros Hn. unfold Bloom.bloom_create. cbn [Bloom.bytes_]. unfold Bloom.BITS_PER_KEY. rewrite (u32_small (n * 16)), u32_small by (unfold is_u32; lia).
  rewrite Z.shiftr_div_pow2 by lia. destruct (Z.ltb_spec ((n * 16 + 7) / 2 ^ 3) 8); lia_div.
Qed.

Lemma create_bf_spec b pool :
  match barrel_create_bf b pool with
  | Done (f, pool') => filter_for b f /\ exists f0, Bloom.bytes_ f = Bloom.bytes_ f0 /\ pool' = (Mempool.mempool_alloc pool (SIZEOF_BLOOMFILTER + Bloom.bytes_ f0)).1
  | _ => True
  end.
Proof.
  unfold barrel_create_bf, barrel_to_array. fold (contents b). destruct (Nat.leb_spec (length (contents b)) BARREL_CAP) as [Hle|]; [|done]. run.
  pose proof cap_value as HC. rewrite u16_small by lia. destruct (Z.of_nat (length (contents b)) <? Z.of_nat BARREL_CAP); [|done]. cbn [Bloom.assert]. run.
  set (n := Z.of_nat (length (contents b))). destruct (Mempool.mempool_alloc pool _) as [pool' [off|]] eqn:Ep; [|done].
  assert (wf (Bloom.bloom_create n)) as Hw by (apply bloom_create_wf; unfold is_u32; lia).
  rewrite update_filter_spec. set (hvs := _ <$> contents b).
  destruct (bloom_updates_spec hvs _ Hw) as (f & E & Hf & Hb & _). rewrite E. run. split.
  - split; [done|rewrite Hb; apply bloom_create_bytes; lia|]. intros it Hin.
    apply (updates_match hvs (Bloom.bloom_create n)); [done|by apply probes_nonneg|done|]. by apply (list_elem_of_fmap_2 (fun i => __hash_bf (hash i))).
  - exists (Bloom.bloom_create n). by rewrite Ep.
Qed.

Lemma create_filters_spec bs : forall pool fs pool',
  create_filters bs pool = Done (fs, pool') -> Forall2 filter_for bs fs.
Proof.
  induction bs as [|b bs IH]; intros pool fs pool' E; cbn [create_filters] in E.
  { injection E as <- _. constructor. }
  apply bind_Done_inv in E as ([f p1] & E1 & E). apply bind_Done_inv in E as ([fs' p2] & E2 & E). injection E as <- _.
  pose proof (create_bf_spec b pool) as Hc. rewrite E1 in Hc. constructor; [apply Hc|by eapply IH].
Qed.

Lemma items_small fs : Forall (fun f => wf f /\ Bloom.bytes_ f <= 8184) fs ->
  Z.of_nat (length (BloomTable.items fs)) <= 8194 * Z.of_nat (length fs).
Proof.
  induction 1 as [|f fs [Hf Hb] _ IH]; [done|]. rewrite items_cons, !length_app. cbn [length]. rewrite (wf_length _ Hf).
  pose proof (length_varint (Bloom.bytes_ f)). lia.
Qed.

Section system.
Context (SHA1 : list Z -> list Z) `{Qsort} (junk : nat -> list Z).
Hypothesis Hjunk : forall n, length (junk n) = n.
Hypothesis Hsha : forall k, length (SHA1 k) = 20%nat /\ Forall is_u8 (SHA1 k).

(** The Bloom filters of a table with the barrels [bs]. *)
Definition blooms (bs : list Barrel) (fs : list Bloom.BloomFilter) (b : Bloom.BloomTable) : Prop :=
  Forall2 filter_for bs fs /\ table_of fs b.

Lemma blooms_small bs fs : length bs = TABLE_NR_BARRELS -> Forall2 filter_for bs fs ->
  Forall wf fs /\ length fs = TABLE_NR_BARRELS /\ Z.of_nat (length (BloomTable.items fs)) + 8 < 2 ^ 32.
Proof.
  intros Hl Hf. pose proof nr_barrels_value as HN. pose proof (Forall2_length _ _ _ Hf) as Hlen.
  assert (Forall (fun f => wf f /\ Bloom.bytes_ f <= 8184) fs) as Hw.
  { clear - Hf. induction Hf as [|b f bs fs [H1 H2 _] _ IH]; constructor; auto. }
  split; [eapply Forall_impl; [exact Hw|]; by intros f []|]. split; [congruence|]. pose proof (items_small fs Hw). lia.
Qed.

Lemma build_bloomtable_spec t M t' :
  mem_inv SHA1 t M -> table_build_bloomtable junk t = Done t' ->
  barrels t' = barrels t /\ io_buffer t' = io_buffer t /\ tvolume t' = tvolume t /\ exists fs b, bt t' = Some b /\ blooms (barrels t) fs b.
Proof using Hjunk.
  intros HI E. unfold table_build_bloomtable in E. rewrite (me_bt _ _ _ HI) in E. cbn [Bloom.assert mbind exec_bind] in E.
  apply bind_Done_inv in E as ([fs pool] & E1 & E). apply bind_Done_inv in E as (b & E2 & E). injection E as <-.
  pose proof (create_filters_spec _ _ _ _ E1) as Hf. destruct (blooms_small _ fs (me_length _ _ _ HI) Hf) as (Hw & _ & Hs).
  destruct (bloomtable_build_spec junk Hjunk fs Hw Hs) as (b' & E3 & Ht). rewrite E2 in E3. injection E3 as <-.
  split_and!; [done..|]. exists fs, b. done.
Qed.

(** Every key of the map passes the filters of the barrels it was put in. *)
Lemma blooms_ok t M fs b :
  mem_inv SHA1 t M -> blooms (barrels t) fs b -> bloom_ok SHA1 M b.
Proof.
  intros HI [Hf Ht] k. destruct (blooms_small _ fs (me_length _ _ _ HI) Hf) as (Hw & Hl & _).
  pose proof (select_lt (SHA1 k)) as Hlt. destruct (lookup_lt_is_Some_2 fs (table_select_barrel (SHA1 k))) as [f Hfk]; [lia|].
  rewrite (bloomtable_match_spec fs b _ f _ Hw Ht Hfk). pose proof (proj1 (Forall_lookup _ _) Hw _ _ Hfk) as Hwf.
  rewrite bloom_match_spec by done. eexists. split; [done|]. intros [v Hv].
  apply (me_map _ _ _ HI) in Hv as (i & it & Hat & Ep). injection Ep as Ek _.
  pose proof (me_home _ _ _ HI _ _ Hat) as Hi. rewrite (at_hash _ _ _ _ _ HI Hat), Ek in Hi. subst i.
  pose proof (at_hash _ _ _ _ _ HI Hat) as Hh. destruct Hat as (bb & Hbb & Hin).
  destruct (Forall2_lookup_l _ _ _ _ _ Hf Hbb) as (f' & Hf' & [_ _ Hm]). rewrite Hfk in Hf'. injection Hf' as <-.
  specialize (Hm it Hin). rewrite Hh, Ek, bloom_match_spec in Hm by done. by apply Done_inj in Hm.
Qed.

(** ** Writing the barrels *)

Lemma dump_slots_spec bs : forall slots nr,
  Forall (fun b => barrel_ok SHA1 b /\ sizes (contents b) <= Z.of_nat BARREL_CAP) bs ->
  Forall (fun s => length s = Bloom.BARREL_ALIGN) slots -> (length bs <= length slots)%nat ->
  exists nr', dump_slots bs slots nr = Done ((barrel_page <$> bs) ++ drop (length bs) slots, nr').
Proof.
  induction bs as [|b bs IH]; intros slots nr Hok Hs Hl; [exists nr; cbn; by destruct slots|].
  destruct slots as [|s slots]; [simpl in Hl; lia|]. inversion_clear Hok as [|?? [Hb Hf] Hok']. inversion_clear Hs as [|?? Hs1 Hs'].
  cbn [dump_slots]. destruct (barrel_dump_spec SHA1 b s Hb Hf Hs1) as (n & ->). run.
  destruct (IH slots (u64 (nr + n)) Hok' Hs' ltac:(simpl in Hl; lia)) as (nr' & ->). run. by exists nr'.
Qed.

Lemma pread_pwrite_before file n a p data o :
  Bloom.pread file n a = Done p -> (a + n <= o)%nat -> Bloom.pread (Bloom.pwrite file data o) n a = Done p.
Proof.
  unfold Bloom.pread, Bloom.pwrite. intros E Ho. destruct (Nat.leb_spec (a + n) (length file)) as [Hle|]; [|done]. cbn [Bloom.assert mbind exec_bind] in E.
  apply Done_inj in E. rewrite !length_app, length_take, length_app, length_replicate.
  rewrite (proj2 (Nat.leb_le _ _)) by lia. cbn [Bloom.assert]. run. f_equal. rewrite <- E.
  rewrite drop_app_le by (rewrite length_take, length_app, length_replicate; lia).
  rewrite take_app_le by (rewrite length_drop, length_take, length_app, length_replicate; lia).
  rewrite skipn_firstn_comm, take_take, Nat.min_l by lia. rewrite drop_app_le by lia.
  by rewrite take_app_le by (rewrite length_drop; lia).
Qed.

Lemma pread_pwrite_after file n a p data o :
  Bloom.pread file n a = Done p -> (o + length data <= a)%nat -> Bloom.pread (Bloom.pwrite file data o) n a = Done p.
Proof.
  unfold Bloom.pread, Bloom.pwrite. intros E Ho. destruct (Nat.leb_spec (a + n) (length file)) as [Hle|]; [|done]. cbn [Bloom.assert mbind exec_bind] in E.
  apply Done_inj in E. replace (o - length file)%nat with 0%nat by lia. cbn [replicate]. rewrite app_nil_r, !length_app, length_take, length_drop.
  rewrite (proj2 (Nat.leb_le _ _)) by lia. cbn [Bloom.assert]. run. f_equal. rewrite <- E, app_assoc.
  rewrite drop_app_ge by (rewrite length_app, length_take; lia). rewrite drop_drop, length_app, length_take. do 2 f_equal. lia.
Qed.

Lemma pread_pwrite_other file n a p data o :
  Bloom.pread file n a = Done p -> (a + n <= o \/ o + length data <= a)%nat -> Bloom.pread (Bloom.pwrite file data o) n a = Done p.
Proof. intros E [Ho|Ho]; [by apply pread_pwrite_before|by apply pread_pwrite_after]. Qed.

Lemma pread_pwrite_slot file slots o i p :
  Forall (fun s => length s = Bloom.BARREL_ALIGN) slots -> slots !! i = Some p ->
  Bloom.pread (Bloom.pwrite file (concat slots) o) Bloom.BARREL_ALIGN (o + Bloom.BARREL_ALIGN * i) = Done p.
Proof.
  intros Hs Hi. apply list_elem_of_split_length in Hi as (a & b & -> & ->).
  rewrite Forall_app, Forall_cons in Hs. destruct Hs as (Ha & Hp & _).
  assert (length (concat a) = Bloom.BARREL_ALIGN * length a)%nat as El.
  { clear - Ha. induction Ha as [|x a Hx _ IH]; [cbn; lia|]. cbn [concat length]. rewrite length_app, Hx, IH. lia. }
  unfold Bloom.pread, Bloom.pwrite. set (f := file ++ _). assert (length (take o f) = o) as Ho by (unfold f; rewrite length_take, length_app, length_replicate; lia).
  rewrite concat_app. cbn [concat]. rewrite <- !app_assoc, !length_app.
  rewrite (proj2 (Nat.leb_le _ _)) by lia. cbn [Bloom.assert]. run. f_equal. rewrite <- El.
  rewrite <- drop_drop, (drop_app_length' (take o f)) by done. rewrite drop_app_length, <- Hp. apply take_app_length.
Qed.

(** The pages of the barrels before [j] are in the file. *)
Definition has_pages (bs : list Barrel) (file : list Z) (off j : nat) : Prop :=
  forall i b, (i < j)%nat -> bs !! i = Some b ->
    Bloom.pread file Bloom.BARREL_ALIGN (i * Bloom.BARREL_ALIGN + off) = Done (barrel_page b).

Lemma dump_loop_spec off n : forall j t file nr,
  (forall i b, barrels t !! i = Some b -> barrel_ok SHA1 b /\ sizes (contents b) <= Z.of_nat BARREL_CAP) ->
  length (barrels t) = TABLE_NR_BARRELS -> length (io_buffer t) = TABLE_NR_IO ->
  Forall (fun s => length s = Bloom.BARREL_ALIGN) (io_buffer t) ->
  has_pages (barrels t) file off j -> (TABLE_NR_BARRELS <= j + n * TABLE_NR_IO)%nat ->
  exists t' file' nr', dump_loop n j t file off nr = Done (t', file', nr') /\ has_pages (barrels t) file' off TABLE_NR_BARRELS /\
    forall m a p, Bloom.pread file m a = Done p ->
      (a + m <= off + Bloom.BARREL_ALIGN * j \/ off + Bloom.BARREL_ALIGN * (j + n * TABLE_NR_IO) <= a)%nat -> Bloom.pread file' m a = Done p.
Proof.
  induction n as [|n IH]; intros j t file nr Hok Hl Hio Hsl Hp Hn; cbn [dump_loop].
  { exists t, file, nr. split; [done|]. split; [|done]. intros i b Hi. apply Hp. lia. }
  destruct (Nat.ltb_spec j TABLE_NR_BARRELS) as [Hj|Hj]; [|exists t, file, nr; split; [done|]; split; [|done]; intros i b Hi; apply Hp; lia].
  set (d := if (TABLE_NR_BARRELS <? j + TABLE_NR_IO)%nat then (TABLE_NR_BARRELS - j)%nat else TABLE_NR_IO).
  assert (d <= TABLE_NR_IO /\ j + d <= TABLE_NR_BARRELS /\ (d < TABLE_NR_IO -> j + d = TABLE_NR_BARRELS))%nat as (Hd1 & Hd2 & Hd3)
    by (unfold d; destruct (Nat.ltb_spec TABLE_NR_BARRELS (j + TABLE_NR_IO)); lia).
  clearbody d. set (chunk := take d (drop j (barrels t))). assert (length chunk = d) as Hc by (unfold chunk; rewrite length_take, length_drop; lia).
  destruct (dump_slots_spec chunk (io_buffer t) nr) as (nr1 & E); [|done|lia|].
  { apply Forall_lookup_2. intros i b Hi. unfold chunk in Hi. apply lookup_take_Some in Hi as [Hi _]. rewrite lookup_drop in Hi. by apply Hok in Hi. }
  rewrite E. run. rewrite Hc, take_app_length' by (by rewrite length_fmap).
  set (slots := (barrel_page <$> chunk) ++ _).
  assert (Forall (fun s => length s = Bloom.BARREL_ALIGN) slots) as Hslots.
  { apply Forall_app. split; [|apply Forall_replicate, length_replicate]. apply Forall_fmap, Forall_lookup_2. intros i b Hi. cbn.
    apply length_barrel_page. unfold chunk in Hi. apply lookup_take_Some in Hi as [Hi _]. rewrite lookup_drop in Hi. by destruct (Hok _ _ Hi). }
  match goal with |- context [dump_loop n _ ?t1 _ off _] => destruct (IH (j + TABLE_NR_IO)%nat t1 (Bloom.pwrite file (concat slots) (off + Bloom.BARREL_ALIGN * j)) nr1) as (t' & file' & nr' & E' & Hp' & Hk) end;
    [done|done|unfold slots; cbn [io_buffer]; rewrite length_app, length_fmap, length_replicate; lia|done| |cbn [Nat.mul] in Hn; lia|].
  2: { exists t', file', nr'. split; [done|]. split; [done|]. intros m a p Ep Ha. apply Hk; [apply pread_pwrite_other; [done|]|]; cbn [Nat.mul] in Ha.
       - rewrite (concat_length_pages _ Hslots). assert (length slots = TABLE_NR_IO) as -> by (unfold slots; rewrite length_app, length_fmap, length_replicate; lia). lia.
       - rewrite Nat.mul_add_distr_l in *. lia. }
  intros i b Hi Hb. cbn [barrels] in Hb. destruct (decide (i < j)%nat) as [Hij|Hij].
  - apply pread_pwrite_before; [by apply Hp|]. rewrite (Nat.mul_comm Bloom.BARREL_ALIGN).
    pose proof (Nat.mul_le_mono_r (S i) j Bloom.BARREL_ALIGN ltac:(lia)). cbn [Nat.mul] in *. lia.
  - pose proof (lookup_lt_Some _ _ _ Hb) as Hlt.
    replace (i * Bloom.BARREL_ALIGN + off)%nat with (off + Bloom.BARREL_ALIGN * j + Bloom.BARREL_ALIGN * (i - j))%nat
      by (pose proof (Nat.mul_le_mono_l j i Bloom.BARREL_ALIGN ltac:(lia)); rewrite Nat.mul_sub_distr_l, (Nat.mul_comm i); lia).
    apply pread_pwrite_slot; [done|]. unfold slots. apply lookup_app_l_Some. rewrite list_lookup_fmap. unfold chunk.
    rewrite lookup_take_lt by lia. rewrite lookup_drop. replace (j + (i - j))%nat with i by lia. by rewrite Hb.
Qed.

(** ** The metadata file *)

Lemma word_le n p a v b : length a = p -> 0 <= v < 256 ^ Z.of_nat n -> word n p (a ++ le n v ++ b) = v.
Proof.
  intros Ha Hv. unfold word. rewrite drop_app_length' by done. rewrite take_app_length' by (by rewrite length_le). by apply le_value_le.
Qed.

Lemma read_metaindex_spec bs l :
  length bs = TABLE_NR_BARRELS ->
  Forall (fun m => exists b, bs !! mi_id m = Some b /\ m = note b) l ->
  (forall i b, bs !! i = Some b -> (rid b < TABLE_NR_BARRELS)%nat /\ 0 <= bmin b < 2 ^ 32) ->
  read_metaindex (length l) (concat ((fun m => metaindex_bytes (mi_id m) (mi_rid m) (mi_min m)) <$> l)) = l.
Proof.
  intros Hl Hn Hr. pose proof nr_barrels_value as HN. induction Hn as [|m l (b & Hb & Em) _ IH]; [done|].
  rewrite fmap_cons. cbn [length concat read_metaindex]. destruct (Hr _ _ Hb) as [Hrid Hmin]. pose proof (lookup_lt_Some _ _ _ Hb).
  assert (mi_rid m = rid b /\ mi_min m = bmin b) as [E1 E2] by (by rewrite Em).
  rewrite metaindex_of_bytes by (rewrite ?E1, ?E2; lia).
  rewrite drop_app_length' by (by rewrite length_metaindex_bytes). rewrite IH. by destruct m.
Qed.

Lemma length_index (l : list MetaIndex) : length (concat ((fun m => metaindex_bytes (mi_id m) (mi_rid m) (mi_min m)) <$> l)) = (8 * length l)%nat.
Proof. induction l as [|m l IH]; [done|]. rewrite fmap_cons. cbn [concat length]. rewrite length_app, length_metaindex_bytes, IH. lia. Qed.

Lemma meta_file_spec t M fs b off :
  retained SHA1 t M -> bt t = Some b -> Forall wf fs -> length fs = TABLE_NR_BARRELS -> Z.of_nat (length (BloomTable.items fs)) + 8 < 2 ^ 32 ->
  table_of fs b -> Z.of_nat off < 2 ^ 64 ->
  exists meta mt b', table_dump_meta t off = Done meta /\ metatable_load junk meta true = Done mt /\
    mt_off mt = off /\ mt_mis mt = mis t /\ mt_nr_mi mt = nr_mi t /\ mt_bt mt = Some b' /\ table_of fs b'.
Proof using Hjunk.
  intros [[F HI] _ Hix [Hnr Hle]] Hb Hw Hl Hs Ht Hoff. pose proof nr_barrels_value as HN. pose proof barrels_value as HM.
  assert (Z.of_nat METAINDEX_MAX_NR = 2048) as HX by (vm_compute; reflexivity).
  unfold table_dump_meta. rewrite Hnr, Nat2Z.id, (proj2 (Nat.leb_le _ _)), firstn_all by lia. run. rewrite Hb, (bloomtable_dump_spec fs b _ Ht).
  set (mfh := le 8 _ ++ le 8 _ ++ le 8 _). set (ix := concat _).
  assert (length mfh = 24%nat) as Hm24 by (unfold mfh; rewrite !length_app, !length_le; done).
  pose proof (length_index (mis t)) as Hi8. fold ix in Hi8.
  destruct (bloomtable_load_spec junk Hjunk fs [] Hw ltac:(lia) Hs) as (b' & Eload & Ht'). rewrite app_nil_r in Eload.
  assert (word 8 16 mfh = Z.of_nat (length (mis t))) as Hw16.
  { unfold mfh. rewrite app_assoc, <- (app_nil_r (le 8 (Z.of_nat (length _)))). apply word_le; [by rewrite length_app, !length_le|]. change (256 ^ Z.of_nat 8) with (2 ^ 64). lia. }
  assert (word 8 0 mfh = Z.of_nat off) as Hw0 by (apply (word_le 8 0 [] (Z.of_nat off)); [done|]; change (256 ^ Z.of_nat 8) with (2 ^ 64); lia).
  eexists _, _, b'. split; [done|]. split.
  - unfold metatable_load. rewrite <- app_assoc, <- Hm24, fread_app. run. rewrite Hw16.
    rewrite (proj2 (Z.leb_le _ _)) by lia. cbn [Bloom.assert]. run. rewrite Nat2Z.id, <- Hi8, fread_app. run. rewrite Eload. run. done.
  - cbn [mt_off mt_mis mt_nr_mi mt_bt fst]. rewrite Hw0, Nat2Z.id. split_and!; try done.
    apply (read_metaindex_spec (barrels t)); [apply HI|apply Hix|]. intros i bb Hbb.
    destruct (re_ok _ _ _ _ HI _ _ Hbb) as (_ & _ & _ & Hmin). split; [|done].
    destruct (re_open _ _ _ _ HI _ _ Hbb) as (H0 & H1 & _). destruct (decide (nr_out bb = 0)) as [E|E].
    + rewrite (proj1 (H1 E)), <- (re_length _ _ _ _ HI). by eapply lookup_lt_Some.
    + assert (i ∈ F) as Hin by (apply (re_frozen _ _ _ _ HI _ _ Hbb); lia). apply list_elem_of_split in Hin as (F1 & F2 & ->).
      by destruct (re_rank _ _ _ _ HI F1 i F2 bb eq_refl Hbb).
Qed.

(** ** The whole way *)

(** The size of a pair on a page. *)
Definition kv_size (kv : KeyValue) : Z := size (mkItem 0 0 (kv_key kv) (kv_value kv) []).

Lemma stored_from kvs : forall rs M k v, stored M kvs rs !! k = Some v -> M !! k = Some v \/ mkKV k v ∈ kvs.
Proof.
  induction kvs as [|kv kvs IH]; intros rs M k v E; [by left|]. destruct rs as [|r rs]; [by left|]. cbn [stored] in E.
  apply IH in E as [E|E]; [|right; by apply list_elem_of_further]. destruct r; [|by left].
  apply lookup_insert_Some in E as [[<- <-]|[_ E]]; [|by left]. right. destruct kv. apply list_elem_of_here.
Qed.

Lemma stored_small kvs rs t :
  mem_inv SHA1 t (stored ∅ kvs rs) -> Forall (fun kv => kv_size kv <= Z.of_nat BARREL_CAP) kvs ->
  forall i it, at_barrel (barrels t) i it -> small it.
Proof.
  intros HI Hs i it Hat. assert (stored ∅ kvs rs !! key it = Some (value it)) as HM by (apply (me_map _ _ _ HI); by exists i, it).
  apply stored_from in HM as [HM|HM]; [by rewrite lookup_empty in HM|]. exact (proj1 (Forall_forall _ _) Hs _ HM).
Qed.

(** The way to the disk. *)
Lemma written_on_disk mmap malloc cap_percent factor kvs t0 t1 rs t2 t3 file off :
  Forall kv_ok kvs -> Forall (fun kv => kv_size kv <= Z.of_nat BARREL_CAP) kvs -> Z.of_nat off < 2 ^ 64 ->
  table_alloc_new mmap malloc cap_percent factor = Done t0 ->
  insert_all SHA1 junk t0 kvs = Done (t1, rs) ->
  table_build_bloomtable junk t1 = Done t2 ->
  table_retain t2 = Done (t3, true) ->
  (forall i b, barrels t3 !! i = Some b -> sizes (contents b) < 65536) ->
  mem_inv SHA1 t1 (stored ∅ kvs rs) /\
  exists t4 file' n meta mt,
    table_dump_barrels t3 file off = Done (t4, file', n) /\ table_dump_meta t3 off = Done meta /\ metatable_load junk meta true = Done mt /\
    on_disk SHA1 (barrels t3) (stored ∅ kvs rs) mt file' /\ exists b, mt_bt mt = Some b /\ bloom_ok SHA1 (stored ∅ kvs rs) b.
Proof using Hjunk Hsha.
  intros Hok Hsm Hoff E0 E1 E2 E3 H64. pose proof (table_alloc_new_spec SHA1 _ _ _ _ _ E0) as HI0.
  destruct (insert_all_spec SHA1 junk Hjunk kvs t0 ∅ HI0 Hok) as (t1' & rs' & E1' & HI1). rewrite E1 in E1'. injection E1' as <- <-.
  set (M := stored ∅ kvs rs) in *. destruct (build_bloomtable_spec t1 M t2 HI1 E2) as (Eb & Eio & _ & fs & b & Ebt & Hfs & Ht).
  pose proof (mem_ret SHA1 Hsha t1 M HI1 (stored_small kvs rs t1 HI1 Hsm)) as HR. rewrite <- Eb in HR.
  destruct (retain_loop_spec SHA1 Hsha M 100 [] t2 t3 HR E3) as (Hret & Ebt3 & Eio3 & _).
  destruct Hret as [[F HF] Hfit Hix Hnr] eqn:Hret'. clear Hret'.
  assert (forall i bb, barrels t3 !! i = Some bb -> barrel_ok SHA1 bb /\ sizes (contents bb) <= Z.of_nat BARREL_CAP) as Hpg.
  { intros i bb Hbb. destruct (re_ok _ _ _ _ HF _ _ Hbb) as (Hbo & _). split; [done|]. pose proof (Hfit _ _ Hbb) as Hv.
    pose proof (sizes_nonneg (contents bb)). rewrite (ba_volume _ _ Hbo), u16_small in Hv by (specialize (H64 _ _ Hbb); lia). done. }
  assert (Z.of_nat TABLE_NR_IO = 2048) as HIO by (vm_compute; reflexivity). pose proof nr_barrels_value as HN.
  destruct (dump_loop_spec off 4 0 t3 file 0 Hpg (re_length _ _ _ _ HF)) as (t4 & file' & n & Ed & Hp & _);
    [rewrite Eio3, Eio, (me_io _ _ _ HI1); apply length_replicate
    |rewrite Eio3, Eio, (me_io _ _ _ HI1); apply Forall_replicate, length_replicate|intros ???; lia|lia|].
  destruct (blooms_small (barrels t1) fs (me_length _ _ _ HI1) Hfs) as (Hw & Hlf & Hs32).
  destruct (meta_file_spec t3 M fs b off Hret) as (meta & mt & b' & Em & El & Eo & Emis & Enr & Emb & Ht'); [congruence|done..|].
  split; [done|]. exists t4, file', n, meta, mt. split_and!; [done..| |].
  - split; [by exists F|apply Hpg|by rewrite Emis|rewrite Enr, Emis; apply Hnr|]. intros i bb Hbb. rewrite Eo.
    apply Hp; [rewrite <- (re_length _ _ _ _ HF); by eapply lookup_lt_Some|done].
  - exists b'. split; [done|]. exact (blooms_ok t1 M fs b' HI1 (conj Hfs Ht')).
Qed.

(** C12: A table of the LSM-trie that is filled, given its Bloom filters,
    balanced, written to disk and loaded again answers every lookup like the
    map of the pairs that were inserted, and so did the table in memory.  The
    pairs fit on a page; the volumes of barrels are 16 bits wide, so no
    balanced barrel may hold 64 KiB. *)
Theorem lsm_table_correct mmap malloc cap_percent factor kvs t0 t1 rs t2 t3 file off :
  Forall kv_ok kvs -> Forall (fun kv => kv_size kv <= Z.of_nat BARREL_CAP) kvs -> Z.of_nat off < 2 ^ 64 ->
  table_alloc_new mmap malloc cap_percent factor = Done t0 ->
  insert_all SHA1 junk t0 kvs = Done (t1, rs) ->
  table_build_bloomtable junk t1 = Done t2 ->
  table_retain t2 = Done (t3, true) ->
  (forall i b, barrels t3 !! i = Some b -> sizes (contents b) < 65536) ->
  exists t4 file' n meta mt,
    table_dump_barrels t3 file off = Done (t4, file', n) /\ table_dump_meta t3 off = Done meta /\ metatable_load junk meta true = Done mt /\
    forall k, table_lookup t1 k (SHA1 k) = Done (mkKV k <$> stored ∅ kvs rs !! k) /\
      forall s, exists s', metatable_lookup junk mt file' k (SHA1 k) s = Done (mkKV k <$> stored ∅ kvs rs !! k, s').
Proof using Hjunk Hsha.
  intros Hok Hsm Hoff E0 E1 E2 E3 H64.
  destruct (written_on_disk _ _ _ _ kvs t0 t1 rs t2 t3 file off Hok Hsm Hoff E0 E1 E2 E3 H64)
    as (HI1 & t4 & file' & n & meta & mt & Ed & Em & El & HD & b & Eb & Hb).
  exists t4, file', n, meta, mt. split_and!; [done..|]. intros k. split; [by apply table_lookup_spec|]. intros s.
  apply (metatable_lookup_spec SHA1 Hsha junk (barrels t3)); [done|by rewrite Eb].
Qed.
End system.
