(* ===== verification/LsmFeed.v ===== *)
(** * Tables of the LSM-trie: feeding the pages of a table to other tables

    Compaction reads the barrels of a table from disk and inserts what they
    hold into the tables that select_table names. *)

From stdpp Require Import gmap.
From S2P Require Import Prelude Coding Bloom BloomPages Mempool LsmTable LsmMem LsmRetain LsmDisk LsmLookup LsmSystem.
Import Coding Lsm.

(** ** Room in the pool *)

Definition room (p : Mempool.Mempool) (n : Z) : Prop := 0 <= Mempool.pos p /\ Mempool.max p < 2 ^ 64 /\ Mempool.pos p + n <= Mempool.max p.

Lemma alloc_room p cap n :
  0 <= n -> 0 <= cap < 2 ^ 32 - 8 -> room p (n + cap + 8) ->
  exists p', Mempool.mempool_alloc p cap = (p', Some (Mempool.pos p)) /\ room p' n.
Proof.
  intros Hn Hc (H1 & H2 & H3). rewrite Mempool.mempool_alloc_fits by (done || lia). eexists. split; [done|].
  destruct (Mempool.hcap_spec cap Hc) as (_ & Hh & _). unfold room. cbn. lia.
Qed.

(** What the pool gives for an item, at most. *)
Definition need (it : Item) : Z := 48 + Z.of_nat (length (key it)) + Z.of_nat (length (value it)).
Definition needs (l : list Item) : Z := foldr (fun it n => need it + n) 0 l.

Lemma needs_cons it l : needs (it :: l) = need it + needs l.
Proof. done. Qed.
Lemma needs_nonneg l : 0 <= needs l.
Proof. induction l as [|it l IH]; [done|]. rewrite needs_cons. unfold need. lia. Qed.
Lemma needs_app a b : needs (a ++ b) = needs a + needs b.
Proof. induction a as [|it a IH]; [done|]. cbn [app]. rewrite !needs_cons, IH. lia. Qed.

(** ** Pages that are read in one piece *)

Lemma slice_pages A (pages : list (list Z)) :
  Forall (fun p => length p = A) pages ->
  (fun i => take A (drop (i * A) (concat pages))) <$> seq 0 (length pages) = pages.
Proof.
  intros Hl. apply list_eq. intros i. rewrite list_lookup_fmap. destruct (pages !! i) as [p|] eqn:Hi.
  - pose proof (lookup_lt_Some _ _ _ Hi). rewrite (lookup_seq_lt 0) by done. cbn [fmap option_fmap option_map Nat.add]. f_equal.
    rewrite <- (take_drop_middle _ _ _ Hi), concat_app. cbn [concat].
    assert (length (concat (take i pages)) = i * A)%nat as Hc.
    { assert (Forall (fun p => length p = A) (take i pages)) as Ht by (by apply Forall_take). clear Hi.
      rewrite <- (length_take_le pages i) at 2 by lia. induction Ht as [|q l Hq _ IH]; [done|]. cbn [concat length]. rewrite length_app. lia. }
    rewrite drop_app_length' by done. apply take_app_length'. symmetry. exact (Forall_lookup_1 _ _ _ _ Hl Hi).
  - apply lookup_ge_None in Hi. by rewrite lookup_seq_ge.
Qed.

Lemma pread_pages A file pages : forall off, pages <> [] ->
  (forall i p, pages !! i = Some p -> Bloom.pread file A (off + i * A) = Done p) ->
  Bloom.pread file (A * length pages) off = Done (concat pages).
Proof.
  induction pages as [|p pages IH]; intros off Hne Hp; [done|]. pose proof (Hp 0%nat p eq_refl) as H0. rewrite Nat.mul_0_l, Nat.add_0_r in H0.
  unfold Bloom.pread in H0. destruct (Nat.leb_spec (off + A) (length file)) as [Hle|]; [|done]. cbn [Bloom.assert mbind exec_bind] in H0. injection H0 as H0.
  destruct pages as [|q pages].
  { unfold Bloom.pread. cbn [length concat]. rewrite Nat.mul_1_r, (proj2 (Nat.leb_le _ _)) by done. cbn [Bloom.assert]. run. by rewrite H0, app_nil_r. }
  assert (Bloom.pread file (A * length (q :: pages)) (off + A) = Done (concat (q :: pages))) as E.
  { apply IH; [done|]. intros i r Hi. rewrite <- (Hp (S i) r Hi). f_equal. lia. }
  unfold Bloom.pread in E |- *. set (n := length (q :: pages)) in *. change (length (p :: q :: pages)) with (S n).
  destruct (Nat.leb_spec (off + A + A * n) (length file)) as [Hle2|]; [|done]. cbn [Bloom.assert mbind exec_bind] in E. injection E as E.
  rewrite (proj2 (Nat.leb_le _ _)) by lia. cbn [Bloom.assert]. run. f_equal. rewrite Nat.mul_succ_r, (Nat.add_comm (A * n)), <- take_take_drop.
  by rewrite drop_drop, H0, E.
Qed.

Lemma list_alter_at {A} (f : A -> A) (l : list A) i x : l !! i = Some x -> alter f i l = <[i:=f x]> l.
Proof.
  intros Hi. apply list_eq. intros j. destruct (decide (j = i)) as [->|Hne].
  - rewrite list_lookup_alter_eq, Hi, list_lookup_insert_eq by (by eapply lookup_lt_Some). done.
  - by rewrite list_lookup_alter_ne, list_lookup_insert_ne by done.
Qed.

Section feed.
Context (SHA1 : list Z -> list Z) (junk : nat -> list Z) (Hjunk : forall n, length (junk n) = n).
Context (select_table : list Z -> Z -> nat) (arg2 : Z).

(** ** The specification *)

(** The items for table [j]. *)
Definition meant (j : nat) (l : list Item) : list Item := base.filter (fun it => select_table (hash it) arg2 = j) l.

Definition put (M : gmap (list Z) (list Z)) (it : Item) : gmap (list Z) (list Z) := <[key it:=value it]> M.

(** The maps of the tables after the items. *)
Definition feed_maps (Ms : list (gmap (list Z) (list Z))) (l : list Item) : list (gmap (list Z) (list Z)) :=
  foldl (fun Ms it => alter (fun M => put M it) (select_table (hash it) arg2) Ms) Ms l.

Definition map_of (l : list Item) : gmap (list Z) (list Z) := list_to_map (pair_of <$> l).

Lemma foldl_put l : forall M, NoDup (key <$> l) -> foldl put M l = map_of l ∪ M.
Proof.
  induction l as [|it l IH]; intros M Hn; [symmetry; apply (left_id_L ∅ (∪))|]. rewrite fmap_cons in Hn. apply NoDup_cons in Hn as [Hk Hn].
  cbn [foldl]. rewrite IH by done. unfold put, map_of. rewrite fmap_cons. cbn [list_to_map foldr].
  rewrite <- insert_union_l. symmetry. apply insert_union_r. apply not_elem_of_list_to_map_1. by rewrite <- list_fmap_compose.
Qed.

Lemma feed_maps_cons Ms it l : feed_maps Ms (it :: l) = feed_maps (alter (fun M => put M it) (select_table (hash it) arg2) Ms) l.
Proof. done. Qed.

Lemma feed_maps_lookup l : forall Ms j M, Ms !! j = Some M -> feed_maps Ms l !! j = Some (foldl put M (meant j l)).
Proof.
  induction l as [|it l IH]; intros Ms j M Hj; [done|]. rewrite feed_maps_cons. unfold meant. rewrite filter_cons.
  destruct (decide (select_table (hash it) arg2 = j)) as [<-|Hne]; apply IH; [by rewrite list_lookup_alter_eq, Hj|].
  by rewrite list_lookup_alter_ne.
Qed.

Lemma meant_nodup j l : NoDup (key <$> l) -> NoDup (key <$> meant j l).
Proof.
  intros H. eapply sublist_NoDup; [done|apply fmap_sublist, sublist_filter].
Qed.

(** ** One page *)

Lemma insert_raw_spec pre tl it lim p t M n :
  p = length pre -> item_ok SHA1 it -> mem_inv SHA1 t M -> 0 <= n -> room (mempool t) (need it + n) ->
  exists t', table_insert_rawitem_mt junk t (pre ++ enc it ++ tl) (raw_of it p lim) (hash it) = Done t' /\
    mem_inv SHA1 t' (put M it) /\ room (mempool t') n.
Proof using Hjunk.
  intros Hp Hit HI Hn Hr. destruct (it_key _ _ Hit) as [_ Hk]. pose proof (it_value _ _ Hit) as Hv. unfold table_insert_rawitem_mt, rawitem_to_item.
  destruct (alloc_room (mempool t) (SIZEOF_ITEM + Z.of_nat (Lsm.klen (raw_of it p lim)) + Z.of_nat (Lsm.vlen (raw_of it p lim))) n)
    as (pool & -> & Hr'); [done|cbn; unfold SIZEOF_ITEM; lia|destruct Hr as (? & ? & ?); unfold need, room in *; cbn; unfold SIZEOF_ITEM; lia|].
  rewrite raw_kv by done. run. unfold to_kv. cbn [kv_key kv_value]. rewrite (item_volume_spec junk Hjunk _ _ 0 0 (hash it)) by done. run.
  destruct (insert_item_spec SHA1 (with_pool t pool) M (mkItem 0 (u16 (size (mkItem 0 0 (key it) (value it) (hash it)))) (key it) (value it) (hash it)))
    as (t' & E & HI' & Em & _); [by destruct HI|by destruct Hit|]. rewrite E. exists t'. split_and!; [done|done|by rewrite Em].
Qed.

(** [tables] hold [Ms] and have room for [n] bytes each. *)
Definition ready (tables : list Table) (Ms : list (gmap (list Z) (list Z))) (n : Z) : Prop :=
  Forall2 (mem_inv SHA1) tables Ms /\ Forall (fun t => room (mempool t) n) tables /\ forall h, (select_table h arg2 < length tables)%nat.

Lemma feed_one pre tl it lim p tables Ms n :
  p = length pre -> item_ok SHA1 it -> 0 <= n -> ready tables Ms (need it + n) ->
  exists t t', tables !! select_table (SHA1 (key it)) arg2 = Some t /\
    table_insert_rawitem_mt junk t (pre ++ enc it ++ tl) (raw_of it p lim) (SHA1 (key it)) = Done t' /\
    ready (<[select_table (SHA1 (key it)) arg2:=t']> tables) (feed_maps Ms [it]) n.
Proof using Hjunk.
  intros Hp Hit Hn (HI & Hr & Hs). rewrite <- (it_hash _ _ Hit). set (j := select_table (hash it) arg2).
  destruct (lookup_lt_is_Some_2 tables j (Hs _)) as [t Ht]. destruct (Forall2_lookup_l _ _ _ _ _ HI Ht) as (M & HM & Hinv).
  destruct (insert_raw_spec pre tl it lim p t M n Hp Hit Hinv Hn (Forall_lookup_1 _ _ _ _ Hr Ht)) as (t' & E & HI' & Hr').
  exists t, t'. split_and!; [done|done|]. unfold feed_maps. cbn [foldl]. fold j. rewrite (list_alter_at _ _ _ _ HM). split_and!.
  - by apply Forall2_insert.
  - apply Forall_insert; [|done]. eapply Forall_impl; [exact Hr|]. intros x (? & ? & ?). unfold room, need in *. lia.
  - intros h. rewrite length_insert. apply Hs.
Qed.

Lemma feed_loop_spec lim tl l : forall it fuel pre p tables Ms n,
  Forall (item_ok SHA1) (it :: l) -> p = length pre -> (length l <= fuel)%nat -> ends tl (p + length (encs (it :: l))) lim ->
  0 <= n -> ready tables Ms (needs (it :: l) + n) ->
  exists tables', feed_loop SHA1 junk select_table fuel (pre ++ encs (it :: l) ++ tl) (raw_of it p lim) tables arg2 = Done tables' /\
    ready tables' (feed_maps Ms (it :: l)) n.
Proof using Hjunk.
  induction l as [|it' l IH]; intros it fuel pre p tables Ms n Hok Hp Hf He Hn HR; inversion_clear Hok as [|?? Hit Hok'];
    rewrite (encs_cons it), <- app_assoc; rewrite needs_cons, <- Z.add_assoc in HR;
    pose proof (raw_advance SHA1 pre it _ tl p lim Hp Hok' He) as En.
  - destruct (feed_one pre (encs [] ++ tl) it lim p tables Ms n Hp Hit Hn HR) as (t & t' & Ht & E & HR').
    exists (<[select_table (SHA1 (key it)) arg2:=t']> tables). split; [|done].
    destruct fuel; cbn [feed_loop]; rewrite (raw_key pre _ it p Hp : bytes_at _ (Lsm.pk (raw_of it p lim)) (Lsm.klen (raw_of it p lim)) = _);
      run; rewrite (load_Done _ _ _ Ht); run; rewrite E; run; rewrite En; run; done.
  - destruct fuel as [|fuel]; [simpl in Hf; lia|]. cbn [feed_loop].
    assert (0 <= needs (it' :: l) + n) as Hn' by (pose proof (needs_nonneg (it' :: l)); lia).
    destruct (feed_one pre (encs (it' :: l) ++ tl) it lim p tables Ms _ Hp Hit Hn' HR) as (t & t' & Ht & E & HR').
    rewrite (raw_key pre _ it p Hp : bytes_at _ (Lsm.pk (raw_of it p lim)) (Lsm.klen (raw_of it p lim)) = _).
    run. rewrite (load_Done _ _ _ Ht). run. rewrite E. run. rewrite En. cbn [head fmap option_fmap option_map]. run.
    rewrite (app_assoc pre). apply IH; [done|len|simpl in Hf; lia| |done|done].
    rewrite encs_cons, length_app in He. by rewrite <- Nat.add_assoc.
Qed.

Lemma feed_from cap l tl tables Ms n :
  0 < Z.of_nat cap -> Forall (item_ok SHA1) l -> ends tl (length (encs l)) cap -> (length l <= cap)%nat ->
  0 <= n -> ready tables Ms (needs l + n) ->
  exists r, (r ← rawitem_at (encs l ++ tl) 0 cap;
             match r with
             | None => Done None
             | Some ri => tables ← feed_loop SHA1 junk select_table cap (encs l ++ tl) ri tables arg2; Done (Some tables)
             end) = Done r /\
    (l = [] -> r = None) /\ (l <> [] -> exists tables', r = Some tables' /\ ready tables' (feed_maps Ms l) n).
Proof using Hjunk.
  intros HC Hok He Hl Hn HR. destruct l as [|it l].
  - change (encs []) with (@nil Z) in *. cbn [app length] in *. destruct He as [E|(_ & tl' & ->)]; [lia|].
    rewrite (rawitem_end [] tl') by done. run. by exists None.
  - inversion Hok as [|?? Hit _]. subst. rewrite encs_cons, <- app_assoc.
    rewrite (rawitem_at_spec SHA1 [] it (encs l ++ tl)) by done. run. rewrite app_assoc, <- encs_cons. cbn [length] in Hl.
    destruct (feed_loop_spec cap tl l it cap [] 0 tables Ms n) as (tables' & E & HR'); [done|done|lia|done|done|done|].
    cbn [app] in E. rewrite E. run. exists (Some tables'). split_and!; [done..|]. by exists tables'.
Qed.

Lemma barrel_feed_spec b tables Ms n :
  barrel_ok SHA1 b -> sizes (contents b) <= Z.of_nat BARREL_CAP -> 0 <= n -> ready tables Ms (needs (contents b) + n) ->
  exists r, raw_barrel_feed_to_tables SHA1 junk select_table (barrel_page b) tables arg2 = Done r /\
    (contents b = [] -> r = None) /\ (contents b <> [] -> exists tables', r = Some tables' /\ ready tables' (feed_maps Ms (contents b)) n).
Proof using Hjunk.
  intros Hb Hs Hn HR. pose proof cap_value as HC. pose proof (sizes_nonneg (contents b)) as Hl.
  exact (feed_from BARREL_CAP (contents b) _ tables Ms n ltac:(lia) (ba_items _ _ Hb) (page_end b Hs) ltac:(lia) Hn HR).
Qed.

Lemma feed_maps_app Ms a b : feed_maps Ms (a ++ b) = feed_maps (feed_maps Ms a) b.
Proof. apply foldl_app. Qed.

Lemma feed_pages_spec bs : forall tables Ms n,
  Forall (fun b => barrel_ok SHA1 b /\ sizes (contents b) <= Z.of_nat BARREL_CAP) bs ->
  0 <= n -> ready tables Ms (needs (concat (contents <$> bs)) + n) ->
  (Forall (fun b => contents b <> []) bs ->
     exists tables', feed_pages SHA1 junk select_table (barrel_page <$> bs) tables arg2 = Done tables' /\
       ready tables' (feed_maps Ms (concat (contents <$> bs))) n) /\
  (Exists (fun b => contents b = []) bs -> feed_pages SHA1 junk select_table (barrel_page <$> bs) tables arg2 = Fault).
Proof using Hjunk.
  induction bs as [|b bs IH]; intros tables Ms n Hok Hn HR; [split; [by exists tables|intros He; inversion He]|].
  inversion_clear Hok as [|?? [Hb Hs] Hok']. rewrite !fmap_cons in *. cbn [concat feed_pages] in *. rewrite needs_app, <- Z.add_assoc in HR.
  assert (0 <= needs (concat (contents <$> bs)) + n) as Hn' by (pose proof (needs_nonneg (concat (contents <$> bs))); lia).
  pose proof (barrel_feed_spec b tables Ms _ Hb Hs Hn' HR) as (r & -> & H0 & Hf). run. destruct (decide (contents b = [])) as [E|E].
  - rewrite (H0 E). split; [|done]. intros Hne. by inversion Hne.
  - destruct (Hf E) as (t1 & -> & HR1). rewrite feed_maps_app. destruct (IH t1 _ n Hok' Hn HR1) as [H1 H2].
    split; [intros Hne; apply H1; by inversion Hne|]. intros He. apply H2. by inversion He.
Qed.

(** ** A range of pages *)

(** The items of the barrels from [start] on. *)
Definition range_items (bs : list Barrel) (start nr : nat) : list Item := concat (contents <$> take nr (drop start bs)).

Lemma keys_nodup bs :
  Forall (fun b => NoDup (key <$> contents b)) bs ->
  (forall i j it it', at_barrel bs i it -> at_barrel bs j it' -> key it = key it' -> i = j) ->
  NoDup (key <$> concat (contents <$> bs)).
Proof.
  induction bs as [|b bs IH]; intros Hn Hu; [constructor|]. inversion_clear Hn as [|?? Hb Hn']. rewrite fmap_cons. cbn [concat]. rewrite fmap_app.
  apply NoDup_app. split_and!; [done| |].
  - intros k Hk Hk'. apply list_elem_of_fmap_1 in Hk as (x & -> & Hx). apply list_elem_of_fmap_1 in Hk' as (y & E & Hy).
    apply list_elem_of_In, in_concat in Hy as (c & Hc & Hy). apply list_elem_of_In, list_elem_of_fmap_1 in Hc as (b' & -> & Hb').
    apply list_elem_of_lookup in Hb' as (j & Hj). apply list_elem_of_In in Hy.
    discriminate (Hu 0%nat (S j) x y ltac:(by exists b) ltac:(by exists b') E).
  - apply IH; [done|]. intros i j x y (bi & Hi & Hx) (bj & Hj & Hy) E. apply Nat.succ_inj. eapply Hu; [by exists bi|by exists bj|done].
Qed.

Lemma range_nodup F bs M start nr : ret_inv SHA1 F bs M -> NoDup (key <$> range_items bs start nr).
Proof.
  intros HI. assert (NoDup (key <$> concat (contents <$> bs))) as Hn.
  { apply keys_nodup; [|apply HI]. apply Forall_lookup_2. intros i b Hb. by destruct (re_ok _ _ _ _ HI _ _ Hb) as ([] & _). }
  unfold range_items. rewrite <- (take_drop start bs), <- (take_drop nr (drop start bs)) in Hn. rewrite !fmap_app, !concat_app, !fmap_app in Hn.
  apply NoDup_app in Hn as (_ & _ & Hn). by apply NoDup_app in Hn as (Hn & _).
Qed.

Lemma range_known F bs M start nr : ret_inv SHA1 F bs M -> map_of (range_items bs start nr) ⊆ M.
Proof.
  intros HI. apply map_subseteq_spec. intros k v E. apply elem_of_list_to_map_2, list_elem_of_fmap_1 in E as (it & E & Hin).
  apply list_elem_of_In, in_concat in Hin as (c & Hc & Hin). apply list_elem_of_In, list_elem_of_fmap_1 in Hc as (b & -> & Hb).
  apply list_elem_of_lookup in Hb as (i & Hb). apply list_elem_of_In in Hin. apply lookup_take_Some in Hb as [Hb _]. rewrite lookup_drop in Hb.
  apply (re_map _ _ _ _ HI). exists (start + i)%nat, it. split; [by exists b|done].
Qed.

Lemma range_pages bs M mt file start nr :
  on_disk SHA1 bs M mt file -> (0 < nr)%nat -> (start + nr <= TABLE_NR_BARRELS)%nat ->
  let sub := take nr (drop start bs) in
  length sub = nr /\ Forall (fun b => barrel_ok SHA1 b /\ sizes (contents b) <= Z.of_nat BARREL_CAP) sub /\
  forall tables, metatable_feed_barrels_to_tables SHA1 junk select_table mt file start nr tables arg2 =
    feed_pages SHA1 junk select_table (barrel_page <$> sub) tables arg2.
Proof.
  intros HD Hnr Hrange sub. destruct (od_inv _ _ _ _ _ HD) as [F HF].
  assert (length sub = nr) as Hlen by (unfold sub; rewrite length_take, length_drop, (re_length _ _ _ _ HF); lia).
  assert (Forall (fun b => barrel_ok SHA1 b /\ sizes (contents b) <= Z.of_nat BARREL_CAP) sub) as Hok.
  { apply Forall_take, Forall_drop, Forall_lookup_2. intros i b Hb. split; [apply (re_ok _ _ _ _ HF _ _ Hb)|by eapply (od_fit _ _ _ _ _ HD)]. }
  split; [done|]. split; [done|]. intros tables.
  assert (Forall (fun p => length p = Bloom.BARREL_ALIGN) (barrel_page <$> sub)) as Hpl.
  { apply Forall_fmap. eapply Forall_impl; [exact Hok|]. intros b [_ Hs]. by apply length_barrel_page. }
  assert (Bloom.pread file (Bloom.BARREL_ALIGN * nr) (start * Bloom.BARREL_ALIGN + mt_off mt) = Done (concat (barrel_page <$> sub))) as Epr.
  { rewrite <- Hlen, <- (length_fmap barrel_page sub). apply pread_pages; [intros E; apply fmap_nil_inv in E; rewrite E in Hlen; simpl in Hlen; lia|].
    intros i p Hi. rewrite list_lookup_fmap in Hi. destruct (sub !! i) as [b|] eqn:Hb; [|done]. apply (inj Some) in Hi as <-.
    apply lookup_take_Some in Hb as [Hb _]. rewrite lookup_drop in Hb. rewrite <- (od_pages _ _ _ _ _ HD _ _ Hb). f_equal. lia. }
  unfold metatable_feed_barrels_to_tables. rewrite (proj2 (Nat.leb_le _ _)) by done. cbn [Bloom.assert]. run. rewrite Epr. run.
  rewrite <- Hlen, <- (length_fmap barrel_page sub). by rewrite slice_pages.
Qed.

(** Metatable_feed_barrels_to_tables inserts what a range of pages holds
    into the tables that select_table names, when their pools have the room:
    afterwards each table answers like its former map under the new pairs,
    which are pairs of the table on disk.  When a page of the range is empty
    the assertion on the result of raw_barrel_feed_to_tables fails. *)
Theorem lsm_feed_correct bs M mt file start nr tables Ms :
  on_disk SHA1 bs M mt file -> (0 < nr)%nat -> (start + nr <= TABLE_NR_BARRELS)%nat ->
  Forall2 (mem_inv SHA1) tables Ms -> (forall h, select_table h arg2 < length tables)%nat ->
  Forall (fun t => room (mempool t) (needs (range_items bs start nr))) tables ->
  map_of (range_items bs start nr) ⊆ M /\
  (Forall (fun b => contents b <> []) (take nr (drop start bs)) ->
     exists tables', metatable_feed_barrels_to_tables SHA1 junk select_table mt file start nr tables arg2 = Done tables' /\
       forall j Mj, Ms !! j = Some Mj -> exists t', tables' !! j = Some t' /\
         forall k, table_lookup t' k (SHA1 k) = Done (mkKV k <$> (map_of (meant j (range_items bs start nr)) ∪ Mj) !! k)) /\
  (Exists (fun b => contents b = []) (take nr (drop start bs)) ->
     metatable_feed_barrels_to_tables SHA1 junk select_table mt file start nr tables arg2 = Fault).
Proof using Hjunk.
  intros HD Hnr Hrange HI Hsel Hroom. destruct (od_inv _ _ _ _ _ HD) as [F HF]. split; [by eapply range_known|].
  destruct (range_pages bs M mt file start nr HD Hnr Hrange) as (_ & Hok & ->). set (sub := take nr (drop start bs)) in *.
  destruct (feed_pages_spec sub tables Ms 0 Hok ltac:(lia)) as [H1 H2]; [rewrite Z.add_0_r; done|]. split; [|done]. intros Hne.
  destruct (H1 Hne) as (tables' & E & HI' & _). exists tables'. split; [done|]. intros j Mj HMj.
  apply (feed_maps_lookup (concat (contents <$> sub))) in HMj. destruct (Forall2_lookup_r _ _ _ _ _ HI' HMj) as (t' & Ht' & Hinv).
  exists t'. split; [done|]. intros k. rewrite (table_lookup_spec SHA1 t' _ k Hinv), foldl_put; [done|]. apply meant_nodup. by eapply range_nodup.
Qed.
End feed.
