(* ===== verification/LsmDemo.v ===== *)
(** * Tables of the LSM-trie: when the steps succeed

    With room in the pool the Bloom filters are made; a table whose barrels fit
    on their pages is balanced as it is.  An instance of the whole way, with a
    merge sort for qsort. *)

From Stdlib Require Import Sorted SpecFloat.
From stdpp Require Import gmap sorting.
From S2P Require Import Prelude Coding Bloom BloomProof BloomTable BloomPages Mempool LsmTable LsmMem LsmRetain LsmDisk LsmLookup LsmSystem LsmFeed.
Import Coding Lsm.

(** ** A sort *)

Definition below {A} (cmp : A -> A -> Z) (x y : A) : Prop := cmp x y <= 0.

#[local] Instance below_dec {A} (cmp : A -> A -> Z) : RelDecision (below cmp) := fun x y => Z_le_dec (cmp x y) 0.

Lemma compares_total {A} (cmp : A -> A -> Z) f : compares cmp f -> Total (below cmp).
Proof. intros Hc x y. unfold below. rewrite !(Hc _ _). lia. Qed.
Lemma compares_trans {A} (cmp : A -> A -> Z) f : compares cmp f -> Transitive (below cmp).
Proof. intros Hc x y z. unfold below. rewrite !(Hc _ _). lia. Qed.

Definition msort {A} (cmp : A -> A -> Z) (l : list A) : list A := merge_sort (below cmp) l.

Lemma msort_perm {A} (cmp : A -> A -> Z) f l : compares cmp f -> msort cmp l ≡ₚ l.
Proof. intros _. apply merge_sort_Permutation. Qed.

Lemma msort_sorted {A} (cmp : A -> A -> Z) f l : compares cmp f -> StronglySorted (fun x y => f x <= f y) (msort cmp l).
Proof.
  intros Hc. pose proof (compares_total cmp f Hc). pose proof (compares_trans cmp f Hc).
  assert (forall l', StronglySorted (below cmp) l' -> StronglySorted (fun x y => f x <= f y) l') as Hs.
  { induction 1 as [|x l' _ IH Hx]; constructor; [done|]. eapply Forall_impl; [exact Hx|]. intros y Hy. by apply Hc. }
  apply Hs. by apply StronglySorted_merge_sort.
Qed.

#[export] Instance merge_qsort : Qsort := {| qsort := @msort; qsort_perm := @msort_perm; qsort_sorted := @msort_sorted |}.

(** ** With room in the pool *)

Lemma create_bf_total b pool n :
  (length (contents b) < BARREL_CAP)%nat -> 0 <= n -> room pool (n + 8200) ->
  exists f pool', barrel_create_bf b pool = Done (f, pool') /\ room pool' n.
Proof.
  intros Hl Hn Hr. pose proof cap_value as HC. unfold barrel_create_bf, barrel_to_array. fold (contents b).
  rewrite (proj2 (Nat.leb_le _ _)) by lia. run. rewrite u16_small, (proj2 (Z.ltb_lt _ _)) by lia. cbn [Bloom.assert]. run.
  set (k := Z.of_nat (length (contents b))). destruct (bloom_create_bytes k ltac:(lia)) as [Hb1 Hb2].
  destruct (alloc_room pool (SIZEOF_BLOOMFILTER + Bloom.bytes_ (Bloom.bloom_create k)) n Hn) as (p' & -> & Hr');
    [unfold SIZEOF_BLOOMFILTER; lia|destruct Hr as (? & ? & ?); unfold room, SIZEOF_BLOOMFILTER; lia|].
  rewrite update_filter_spec. set (hvs := _ <$> contents b).
  destruct (bloom_updates_spec hvs (Bloom.bloom_create k)) as (f & -> & _); [apply bloom_create_wf; unfold is_u32; lia|]. run.
  by exists f, p'.
Qed.

Lemma create_filters_total bs : forall pool n,
  Forall (fun b => length (contents b) < BARREL_CAP)%nat bs -> 0 <= n -> room pool (n + 8200 * Z.of_nat (length bs)) ->
  exists fs pool', create_filters bs pool = Done (fs, pool') /\ room pool' n.
Proof.
  induction bs as [|b bs IH]; intros pool n Hl Hn Hr; cbn [create_filters].
  { exists [], pool. split; [done|]. cbn [length] in Hr. by replace (n + 8200 * Z.of_nat 0) with n in Hr by lia. }
  inversion_clear Hl as [|?? Hb Hl']. cbn [length] in Hr.
  destruct (create_bf_total b pool (n + 8200 * Z.of_nat (length bs)) Hb ltac:(lia)) as (f & p1 & -> & Hr1).
  { by replace (n + 8200 * Z.of_nat (length bs) + 8200) with (n + 8200 * Z.of_nat (S (length bs))) by lia. }
  run. destruct (IH p1 n Hl' Hn Hr1) as (fs & p2 & -> & Hr2). run. by exists (f :: fs), p2.
Qed.

Section total.
Context (SHA1 : list Z -> list Z) `{Qsort} (junk : nat -> list Z).
Hypothesis Hjunk : forall n, length (junk n) = n.
Hypothesis Hsha : forall k, length (SHA1 k) = 20%nat /\ Forall is_u8 (SHA1 k).

Lemma build_bloomtable_total t M n :
  mem_inv SHA1 t M -> Forall (fun b => length (contents b) < BARREL_CAP)%nat (barrels t) -> 0 <= n ->
  room (mempool t) (n + 8200 * 8191) ->
  exists t', table_build_bloomtable junk t = Done t' /\ room (mempool t') n.
Proof using Hjunk.
  intros HI Hl Hn Hr. unfold table_build_bloomtable. rewrite (me_bt _ _ _ HI). cbn [Bloom.assert]. run. pose proof nr_barrels_value as HN.
  destruct (create_filters_total (barrels t) (mempool t) n Hl Hn) as (fs & p & E & Hp); [by rewrite (me_length _ _ _ HI), HN|]. rewrite E. run.
  destruct (blooms_small _ fs (me_length _ _ _ HI) (create_filters_spec _ _ _ _ E)) as (Hw & _ & Hs).
  destruct (bloomtable_build_spec junk Hjunk fs Hw Hs) as (b & -> & _). run. by eexists.
Qed.

(** A table whose barrels all fit is balanced as it is. *)
Lemma retain_balanced t M F todo :
  ret_inv SHA1 F (barrels t) M -> (forall i b, barrels t !! i = Some b -> bvolume b <= Z.of_nat BARREL_CAP) ->
  retaining_nr_todo (barrels t) = Done todo -> room (mempool t) 16392 ->
  exists t', table_retain t = Done (t', true) /\ barrels t' = barrels t.
Proof using Hsha.
  intros HI Hf Ht Hr. pose proof nr_barrels_value as HN. unfold table_retain. change 100%nat with (S 99). cbn [retain_loop].
  set (order := retaining_sort_barrels_by_volume (barrels t)). pose proof (sorted_order_ok (barrels t)) as Ho. fold order in Ho.
  destruct (order_barrel SHA1 F (barrels t) M order (TABLE_NR_BARRELS - 1) HI Ho ltac:(lia)) as (x & b & Hx & Hb).
  rewrite (load_Done _ _ _ Hx). run. rewrite (load_Done _ _ _ Hb). run. rewrite (proj2 (Z.leb_le _ _)) by (by eapply Hf).
  destruct (build_metaindex_spec SHA1 F t M todo HI Ht) as (l & _ & Hl & ->).
  assert (Z.of_nat METAINDEX_MAX_NR = 2048) as HX by (vm_compute; reflexivity).
  destruct (alloc_room (mempool t) (8 * Z.of_nat (length l)) 0) as (p & -> & _); [lia|lia|destruct Hr as (? & ? & ?); unfold room; lia|].
  run. by eexists.
Qed.
End total.

(** ** One pair in a fresh table *)

Definition lsm_sha (k : list Z) : list Z := replicate 20 (Z.of_nat (length k) mod 256).
Definition lsm_junk (n : nat) : list Z := replicate n 171.
Definition lsm_four : spec_float := S754_finite false 4503599627370496 (-50).
Definition lsm_kv : KeyValue := mkKV [1; 2; 3] [4; 5].

Lemma lsm_sha_ok k : length (lsm_sha k) = 20%nat /\ Forall is_u8 (lsm_sha k).
Proof.
  split; [apply length_replicate|]. apply Forall_replicate. unfold is_u8.
  pose proof (Z.mod_pos_bound (Z.of_nat (length k)) 256). lia.
Qed.

(** [factor] gives a pool of [pmax] bytes. *)
Definition lsm_pool (factor : spec_float) (pmax : Z) : Prop :=
  (msize ← to_uint64 (fmul (double_of (Z.of_nat TABLE_NR_BARRELS * Z.of_nat BARREL_CAP)) factor);
   Mempool.mempool_new (fun _ _ => true) (fun _ => true) msize) = Done (Some (Mempool.mkPool true 0 pmax)) /\ 104325384 <= pmax < 2 ^ 64.

Lemma lsm_pool_four : lsm_pool lsm_four 134217728.
Proof. split; [vm_compute; reflexivity|lia]. Qed.

Lemma lsm_fresh factor pmax : lsm_pool factor pmax ->
  exists t0, table_alloc_new (fun _ _ => true) (fun _ => true) TABLE_VOLUME_PERCENT factor = Done t0 /\
    barrels t0 = empty_barrel <$> seq 0 TABLE_NR_BARRELS /\ tvolume t0 = 0 /\ capacity t0 = 25113606 /\ room (mempool t0) 100000000.
Proof.
  intros [E Hp]. unfold table_alloc_new, table_initial. apply bind_Done_inv in E as (msize & -> & E). run. rewrite E. run.
  assert (to_uint64 (fmul (double_of (Z.of_nat TABLE_NR_BARRELS * Z.of_nat BARREL_CAP)) TABLE_VOLUME_PERCENT) = Done 25113606) as -> by (vm_compute; reflexivity). run.
  destruct (alloc_room (Mempool.mkPool true 0 pmax) (SIZEOF_BARREL * Z.of_nat Bloom.TABLE_MAX_BARRELS) 100000000) as (pool & -> & Hr);
    [lia|unfold SIZEOF_BARREL; rewrite barrels_value; lia|unfold room, SIZEOF_BARREL; rewrite barrels_value; cbn; lia|].
  assert (Mempool.huge_alloc (fun _ _ => true) (Z.of_nat Bloom.BARREL_ALIGN * Z.of_nat TABLE_NR_IO) = true) as -> by (vm_compute; reflexivity).
  cbn [Bloom.assert]. run. eexists. split; [reflexivity|]. split; [reflexivity|]. split; [reflexivity|]. split; [reflexivity|exact Hr].
Qed.

(** Sums over the barrels. *)
Lemma foldl_tally (c : Barrel -> Z) bs : forall n, foldl (fun n b => u64 (n + c b)) (u64 n) bs = u64 (n + tally c bs).
Proof.
  induction bs as [|b bs IH]; intros n; cbn [foldl tally foldr]; [by rewrite Z.add_0_r|].
  replace (u64 (u64 n + c b)) with (u64 (n + c b)) by (unfold u64; by rewrite Z.add_mod_idemp_l).
  rewrite IH. f_equal. unfold tally. lia.
Qed.

Lemma tally_empty c l : (forall i, c (empty_barrel i) = 0) -> tally c (empty_barrel <$> l) = 0.
Proof. intros Hc. apply tally_zero. intros b Hb. by apply list_elem_of_fmap_1 in Hb as (i & -> & _). Qed.

(** The table after the insertion. *)
Lemma lsm_inserted t0 :
  mem_inv lsm_sha t0 ∅ -> barrels t0 = empty_barrel <$> seq 0 TABLE_NR_BARRELS -> tvolume t0 = 0 -> capacity t0 = 25113606 -> room (mempool t0) 100000000 ->
  exists t1 i b it, insert_all lsm_sha lsm_junk t0 [lsm_kv] = Done (t1, [true]) /\ barrels t1 = <[i:=b]> (barrels t0) /\ (i < TABLE_NR_BARRELS)%nat /\
    contents b = [it] /\ pair_of it = ([1; 2; 3], [4; 5]) /\ nr_moved it = 0 /\ nr_out b = 0 /\ sizes (contents b) = 7 /\ bvolume b = 7 /\ room (mempool t1) 99999000 /\ tvolume t1 = 7.
Proof.
  intros HI Hb Hv Hc Hr. cbn [insert_all]. unfold table_insert_kv_safe, table_full. rewrite Hv, Hc. cbn [Z.leb Z.compare].
  unfold keyvalue_to_item. cbn [lsm_kv kv_key kv_value length].
  destruct (alloc_room (mempool t0) (SIZEOF_ITEM + Z.of_nat 3 + Z.of_nat 2) 99999000) as (p & -> & Hp);
    [lia|unfold SIZEOF_ITEM; lia|destruct Hr as (? & ? & ?); unfold room, SIZEOF_ITEM; lia|].
  rewrite (item_volume_spec lsm_junk (fun n => length_replicate n 171) [1; 2; 3] [4; 5] 0 0 []) by (cbn; lia). run.
  change (u16 (size (mkItem 0 0 [1; 2; 3] [4; 5] []))) with 7. set (it := mkItem 0 7 [1; 2; 3] [4; 5] (lsm_sha [1; 2; 3])).
  assert (item_ok lsm_sha it) as Hit by (split; [done|split; [done|cbn; lia]|cbn; lia|done]).
  unfold table_insert_item. set (i := table_select_barrel (hash it)). pose proof (select_lt (hash it)) as Hi. fold i in Hi. cbn [with_pool barrels].
  assert (barrels t0 !! i = Some (empty_barrel i)) as Hbi by (rewrite Hb, list_lookup_fmap, lookup_seq_lt by done; done).
  rewrite (load_Done _ _ _ Hbi). run.
  destruct (barrel_insert_spec lsm_sha (empty_barrel i) it (empty_barrel_ok _ i) Hit) as (b & -> & Hok & Hperm & Hm & _ & Ho & _). run.
  assert (contents (empty_barrel i) = []) as He by apply concat_nils. rewrite He in Hperm.
  change (others (key it) []) with (@nil Item) in Hperm. apply Permutation_singleton_r in Hperm.
  eexists _, i, b, it. split; [done|].
  split; [reflexivity|]. split; [exact Hi|]. split; [exact Hperm|]. split; [reflexivity|]. split; [reflexivity|]. split; [exact Ho|].
  rewrite (ba_volume _ _ Hok), Hperm. split; [vm_compute; reflexivity|]. split; [vm_compute; reflexivity|]. split; [exact Hp|].
  cbn [tvolume with_pool]. rewrite Hv. vm_compute. reflexivity.
Qed.

Lemma fmap_seq_lookup i b : (empty_barrel <$> seq 0 TABLE_NR_BARRELS) !! i = Some b -> b = empty_barrel i.
Proof.
  intros Hb. rewrite list_lookup_fmap in Hb. destruct (seq 0 TABLE_NR_BARRELS !! i) eqn:E; [|done]. apply lookup_seq in E as [-> _]. by injection Hb.
Qed.

Lemma lsm_todo bs i b it :
  bs = empty_barrel <$> seq 0 TABLE_NR_BARRELS -> (i < TABLE_NR_BARRELS)%nat -> contents b = [it] -> nr_moved it = 0 -> nr_out b = 0 ->
  retaining_nr_todo (<[i:=b]> bs) = Done 0.
Proof.
  intros Hbs Hi Hc Hm Ho. assert (bs !! i = Some (empty_barrel i)) as Hl by (rewrite Hbs, list_lookup_fmap, lookup_seq_lt by done; done).
  assert (forall j, barrel_count_lookup (empty_barrel j) = 0) as H0.
  { intros j. unfold barrel_count_lookup. change (concat (items (empty_barrel j))) with (contents (empty_barrel j)).
    assert (contents (empty_barrel j) = []) as -> by apply concat_nils. done. }
  assert (barrel_count_lookup b = 1) as H1 by (unfold barrel_count_lookup; fold (contents b); rewrite Hc; cbn [foldl]; by rewrite Hm).
  assert (foldl (fun n b => u64 (n + barrel_count_lookup b)) 0 (<[i:=b]> bs) = 1) as Ea.
  { change 0 with (u64 0). rewrite foldl_tally, (tally_insert _ _ _ _ _ Hl), Hbs, tally_empty, H0, H1 by done. done. }
  assert (foldl (fun n b => u64 (n + nr_out b)) 0 (<[i:=b]> bs) = 0) as Eb.
  { change 0 with (u64 0) at 1. rewrite foldl_tally, (tally_insert _ _ _ _ _ Hl), Hbs, tally_empty, Ho by done. done. }
  unfold retaining_nr_todo. rewrite Ea, Eb. vm_compute. reflexivity.
Qed.

Lemma lsm_kv_ok : Forall kv_ok [lsm_kv] /\ Forall (fun kv => kv_size kv <= Z.of_nat BARREL_CAP) [lsm_kv].
Proof. split; [repeat constructor; done|]. apply Forall_singleton. rewrite cap_value. vm_compute. discriminate. Qed.

(** The barrels of the table with one pair. *)
Lemma lsm_barrels bs i b it :
  bs = empty_barrel <$> seq 0 TABLE_NR_BARRELS -> contents b = [it] -> sizes (contents b) = 7 -> bvolume b = 7 ->
  forall j bb, <[i:=b]> bs !! j = Some bb -> (length (contents bb) <= 1)%nat /\ sizes (contents bb) <= 7 /\ bvolume bb <= 7.
Proof.
  intros Hbs Hc Hs Hv j bb Hj. apply list_lookup_insert_Some in Hj as [(-> & <- & _)|(_ & Hj)].
  - rewrite Hs, Hv, Hc. cbn. lia.
  - rewrite Hbs in Hj. apply fmap_seq_lookup in Hj as ->. assert (contents (empty_barrel j) = []) as -> by apply concat_nils. cbn. lia.
Qed.

(** All steps succeed; barrel [i] holds the item. *)
Lemma lsm_steps factor pmax : lsm_pool factor pmax ->
  exists t0 t1 t2 t3 i b it,
    table_alloc_new (fun _ _ => true) (fun _ => true) TABLE_VOLUME_PERCENT factor = Done t0 /\ room (mempool t0) 100000000 /\
    insert_all lsm_sha lsm_junk t0 [lsm_kv] = Done (t1, [true]) /\
    table_build_bloomtable lsm_junk t1 = Done t2 /\ table_retain t2 = Done (t3, true) /\
    barrels t3 !! i = Some b /\ contents b = [it] /\ pair_of it = ([1; 2; 3], [4; 5]) /\
    (forall j bb, barrels t3 !! j = Some bb -> sizes (contents bb) < 65536) /\ tvolume t1 = 7.
Proof.
  intros Hpool. pose proof cap_value as HC. destruct (lsm_fresh _ _ Hpool) as (t0 & E0 & Hb0 & Hv0 & Hc0 & Hr0). pose proof (table_alloc_new_spec lsm_sha _ _ _ _ _ E0) as HI0.
  destruct (lsm_inserted t0 HI0 Hb0 Hv0 Hc0 Hr0) as (t1 & i & b & it & E1 & Hb1 & Hi & Hc & Hp & Hm & Ho & Hs & Hv & Hr1 & Hv1).
  pose proof lsm_kv_ok as [Hok Hsm].
  destruct (insert_all_spec lsm_sha lsm_junk (fun n => length_replicate n 171) _ t0 ∅ HI0 Hok) as (t1' & rs' & E1' & HI1).
  rewrite E1 in E1'. injection E1' as <- <-.
  pose proof (lsm_barrels (barrels t0) i b it Hb0 Hc Hs Hv) as Hall.
  destruct (build_bloomtable_total lsm_sha lsm_junk (fun n => length_replicate n 171) t1 _ 16392 HI1) as (t2 & E2 & Hr2);
    [apply Forall_lookup_2; intros j bb Hj; rewrite Hb1 in Hj; apply Hall in Hj; lia|lia|destruct Hr1 as (? & ? & ?); unfold room; lia|].
  destruct (build_bloomtable_spec lsm_sha lsm_junk (fun n => length_replicate n 171) t1 _ t2 HI1 E2) as (Eb2 & _).
  destruct (retain_balanced lsm_sha lsm_sha_ok t2 (stored ∅ [lsm_kv] [true]) [] 0) as (t3 & E3 & Eb3);
    [rewrite Eb2; apply (mem_ret lsm_sha lsm_sha_ok t1 _ HI1), (stored_small lsm_sha _ _ t1 HI1 Hsm)
    |intros j bb Hj; rewrite Eb2, Hb1 in Hj; apply Hall in Hj; lia|rewrite Eb2, Hb1; by apply (lsm_todo _ _ _ it)|done|].
  exists t0, t1, t2, t3, i, b, it. split_and!; [exact E0|exact Hr0|exact E1|exact E2|exact E3| |exact Hc|exact Hp| |exact Hv1].
  - rewrite Eb3, Eb2, Hb1. apply list_lookup_insert_eq. rewrite Hb0, length_fmap, length_seq. exact Hi.
  - intros j bb Hj. rewrite Eb3, Eb2, Hb1 in Hj. apply Hall in Hj. lia.
Qed.

Lemma lsm_table_correct_witness :
  exists t0 t1 t2 t3,
    table_alloc_new (fun _ _ => true) (fun _ => true) TABLE_VOLUME_PERCENT lsm_four = Done t0 /\
    insert_all lsm_sha lsm_junk t0 [lsm_kv] = Done (t1, [true]) /\
    table_build_bloomtable lsm_junk t1 = Done t2 /\ table_retain t2 = Done (t3, true) /\
    exists t4 file' n meta mt,
      table_dump_barrels t3 [9] 4096 = Done (t4, file', n) /\ table_dump_meta t3 4096 = Done meta /\ metatable_load lsm_junk meta true = Done mt /\
      forall k, table_lookup t1 k (lsm_sha k) = Done (mkKV k <$> stored ∅ [lsm_kv] [true] !! k) /\
        forall s, exists s', metatable_lookup lsm_junk mt file' k (lsm_sha k) s = Done (mkKV k <$> stored ∅ [lsm_kv] [true] !! k, s').
Proof.
  destruct (lsm_steps _ _ lsm_pool_four) as (t0 & t1 & t2 & t3 & i & b & it & E0 & _ & E1 & E2 & E3 & _ & _ & _ & H64 & _). destruct lsm_kv_ok as [Hok Hsm].
  exists t0, t1, t2, t3. split; [exact E0|]. split; [exact E1|]. split; [exact E2|]. split; [exact E3|].
  exact (lsm_table_correct lsm_sha lsm_junk (fun n => length_replicate n 171) lsm_sha_ok (fun _ _ => true) (fun _ => true)
           TABLE_VOLUME_PERCENT lsm_four [lsm_kv] t0 t1 [true] t2 t3 [9] 4096 Hok Hsm ltac:(lia) E0 E1 E2 E3 H64).
Defined.

(** The page that holds the item is fed to an empty table. *)
Lemma lsm_feed_correct_witness :
  exists t0 t3 i mt file tables' t',
    table_alloc_new (fun _ _ => true) (fun _ => true) TABLE_VOLUME_PERCENT lsm_four = Done t0 /\
    on_disk lsm_sha (barrels t3) (stored ∅ [lsm_kv] [true]) mt file /\
    metatable_feed_barrels_to_tables lsm_sha lsm_junk (fun _ _ => O) mt file i 1 [t0] 7 = Done tables' /\ tables' !! O = Some t' /\
    table_lookup t' [1; 2; 3] (lsm_sha [1; 2; 3]) = Done (Some (mkKV [1; 2; 3] [4; 5])) /\
    table_lookup t' [1] (lsm_sha [1]) = Done None.
Proof.
  destruct (lsm_steps _ _ lsm_pool_four) as (t0 & t1 & t2 & t3 & i & b & it & E0 & Hr0 & E1 & E2 & E3 & Hb & Hc & Hp & H64 & _). destruct lsm_kv_ok as [Hok Hsm].
  destruct (written_on_disk lsm_sha lsm_junk (fun n => length_replicate n 171) lsm_sha_ok (fun _ _ => true) (fun _ => true)
           TABLE_VOLUME_PERCENT lsm_four [lsm_kv] t0 t1 [true] t2 t3 [9] 4096 Hok Hsm ltac:(lia) E0 E1 E2 E3 H64)
    as (_ & t4 & file & n & meta & mt & _ & _ & _ & HD & _).
  assert (take 1 (drop i (barrels t3)) = [b]) as Er by (by rewrite (drop_S _ _ _ Hb)).
  assert (range_items (barrels t3) i 1 = [it]) as Ei by (unfold range_items; rewrite Er; cbn; by rewrite Hc).
  destruct (od_inv _ _ _ _ _ HD) as [F HF]. pose proof (lookup_lt_Some _ _ _ Hb) as Hlt. rewrite (re_length _ _ _ _ HF) in Hlt.
  destruct (lsm_feed_correct lsm_sha lsm_junk (fun n => length_replicate n 171) (fun _ _ => O) 7 (barrels t3) _ mt file i 1 [t0] [∅] HD)
    as (_ & Hfed & _); [lia|lia| |intros _; cbn; lia| |].
  - constructor; [exact (table_alloc_new_spec lsm_sha _ _ _ _ _ E0)|constructor].
  - rewrite Ei. constructor; [|constructor]. injection Hp as Hk Hv. unfold needs, need, room in *. cbn [foldr]. rewrite Hk, Hv. cbn [length]. lia.
  - destruct Hfed as (tables' & E & Hl); [rewrite Er; constructor; [by rewrite Hc|constructor]|].
    destruct (Hl O ∅ eq_refl) as (t' & Ht' & Hlk). exists t0, t3, i, mt, file, tables', t'. split_and!; [exact E0|exact HD|exact E|exact Ht'|..];
      rewrite Hlk, Ei; unfold meant; rewrite filter_cons_True by done; unfold map_of; rewrite fmap_cons, Hp; reflexivity.
Defined.
