(* ===== verification/Stdio.v ===== *)
(** * Text files and numbers of the C library

    fgets, strtoull and the conversions %lu and %016lx, on lists of bytes. *)

From S2P Require Import Prelude.

(** fgets(buf, n, in): at most n - 1 bytes up to a newline, and a zero behind
    them; at the end of the file the buffer stays as it is. *)
Fixpoint line_of (n : nat) (input : list Z) : list Z * list Z :=
  match n, input with
  | S n', c :: input' => if c =? 10 then ([c], input') else let '(l, rest) := line_of n' input' in (c :: l, rest)
  | _, _ => ([], input)
  end.

Definition fgets (buf : list Z) (n : nat) (input : list Z) : exec (list Z * list Z) :=
  match input with
  | [] => Done (buf, [])
  | _ => let '(l, rest) := line_of (n - 1) input in
         buf ← memcpy buf 0 (l ++ [0]) 0 (length l + 1); Done (buf, rest)
  end.

(** The bytes of the string at the start of a buffer. *)
Fixpoint c_string (buf : list Z) : exec (list Z) :=
  match buf with
  | [] => Fault
  | c :: buf' => if c =? 0 then Done [] else s ← c_string buf'; Done (c :: s)
  end.

(** What is in front of the first [c]. *)
Fixpoint before (c : Z) (l : list Z) : list Z :=
  match l with [] => [] | x :: l' => if x =? c then [] else x :: before c l' end.

Definition isspace (c : Z) : bool := (c =? 32) || ((9 <=? c) && (c <=? 13)).

Definition digit_value (c : Z) : Z :=
  if (48 <=? c) && (c <=? 57) then c - 48
  else if (97 <=? c) && (c <=? 122) then c - 87
  else if (65 <=? c) && (c <=? 90) then c - 55 else 99.

Fixpoint read_digits (base : Z) (l : list Z) (acc : Z) : exec Z :=
  match l with
  | [] => Fault
  | c :: l' => if digit_value c <? base then read_digits base l' (acc * base + digit_value c) else Done acc
  end.

Fixpoint skip_spaces (l : list Z) : list Z :=
  match l with c :: l' => if isspace c then skip_spaces l' else l | [] => [] end.

(** The value is cut to the largest one; a minus sign negates it. *)
Definition strtoull (base : Z) (l : list Z) : exec Z :=
  let l := skip_spaces l in
  let '(neg, l) := match l with 45 :: l' => (true, l') | 43 :: l' => (false, l') | _ => (false, l) end in
  let l := match l with 48 :: x :: l' => if (base =? 16) && ((x =? 120) || (x =? 88)) then l' else l | _ => l end in
  v ← read_digits base l 0;
  if 2 ^ 64 <=? v then Done (2 ^ 64 - 1) else Done (if neg : bool then u64 (- v) else v).

(** %lu *)
Fixpoint dec_digits (fuel : nat) (v : Z) (acc : list Z) : list Z :=
  match fuel with
  | O => acc
  | S fuel' => let acc := 48 + v mod 10 :: acc in if v / 10 =? 0 then acc else dec_digits fuel' (v / 10) acc
  end.

Definition fmt_lu (v : Z) : list Z := dec_digits 20 v [].

(** %016lx *)
Fixpoint hex_digits (n : nat) (v : Z) : list Z :=
  match n with
  | O => []
  | S n' => hex_digits n' (v / 16) ++ [if v mod 16 <? 10 then 48 + v mod 16 else 87 + v mod 16]
  end.

Definition fmt_016lx (v : Z) : list Z := hex_digits 16 v.

(** ** A line that was written is read *)

Lemma line_of_line l : forall n rest, (length l < n)%nat -> Forall (fun c => c <> 10) l -> line_of n (l ++ 10 :: rest) = (l ++ [10], rest).
Proof.
  induction l as [|c l IH]; intros [|n] rest Hn Hl; cbn [length] in Hn; [lia|done|lia|]. inversion_clear Hl as [|?? Hc Hl']. cbn [app line_of].
  rewrite (proj2 (Z.eqb_neq c 10) Hc), IH by (done || lia). done.
Qed.

Lemma fgets_line buf n l rest :
  (length l + 1 < n)%nat -> (length l + 1 < length buf)%nat -> Forall (fun c => c <> 10) l ->
  exists tl, fgets buf n (l ++ 10 :: rest) = Done (l ++ 10 :: 0 :: tl, rest) /\ length (l ++ 10 :: 0 :: tl) = length buf.
Proof.
  intros Hn Hb Hl. exists (drop (length l + 2) buf). split; [|rewrite length_app; cbn [length]; rewrite length_drop; lia]. unfold fgets. rewrite line_of_line by (done || lia).
  destruct (l ++ 10 :: rest) eqn:E; [by destruct l|]. clear E. rewrite length_app. cbn [length].
  rewrite memcpy_in by (rewrite ?length_app; cbn [length]; lia). run. rewrite take_0, drop_0. cbn [app plus].
  rewrite take_ge by (rewrite !length_app; cbn [length]; lia). rewrite <- !app_assoc. cbn [app].
  by replace (length l + 1 + 1)%nat with (length l + 2)%nat by lia.
Qed.

Lemma read_digits_app base ds : forall acc c rest,
  Forall (fun d => digit_value d < base) ds -> base <= digit_value c ->
  read_digits base (ds ++ c :: rest) acc = Done (foldl (fun a d => a * base + digit_value d) acc ds).
Proof.
  induction ds as [|d ds IH]; intros acc c rest Hd Hc; cbn [app read_digits foldl]; [by rewrite (proj2 (Z.ltb_ge _ _) Hc)|].
  inversion_clear Hd as [|?? H1 H2]. rewrite (proj2 (Z.ltb_lt _ _) H1). by apply IH.
Qed.

(** Digits and nothing else: no space, sign or prefix. *)
Definition plain (base : Z) (c : Z) : Prop := digit_value c < base /\ (48 <= c <= 57 \/ 97 <= c <= 102).

Lemma plain_cases base c : base <= 16 -> plain base c -> isspace c = false /\ c <> 45 /\ c <> 43 /\ c <> 120 /\ c <> 88 /\ c <> 10.
Proof. unfold plain, isspace. intros Hb [_ Hc]. split_and!; lia. Qed.

Lemma strtoull_digits base ds rest :
  base <= 16 -> ds <> [] -> Forall (plain base) ds -> foldl (fun a d => a * base + digit_value d) 0 ds < 2 ^ 64 ->
  strtoull base (ds ++ 10 :: rest) = Done (foldl (fun a d => a * base + digit_value d) 0 ds).
Proof.
  intros Hb Hne Hp Hv. assert (read_digits base (ds ++ 10 :: rest) 0 = Done (foldl (fun a d => a * base + digit_value d) 0 ds)) as Er.
  { apply read_digits_app; [eapply Forall_impl; [exact Hp|by intros ? [? _]]|cbn; lia]. }
  destruct ds as [|c ds]; [done|]. inversion_clear Hp as [|?? Hc Hp']. destruct (plain_cases base c Hb Hc) as (H1 & H2 & H3 & _).
  unfold strtoull. cbn [app skip_spaces] in *. rewrite H1.
  assert (match c :: ds ++ 10 :: rest with 45 :: l' => (true, l') | 43 :: l' => (false, l') | _ => (false, c :: ds ++ 10 :: rest) end
    = (false, c :: ds ++ 10 :: rest)) as ->.
  { destruct c as [|c|c]; try done. repeat (destruct c as [c|c|]; try done). }
  assert (match c :: ds ++ 10 :: rest with 48 :: x :: l' => if (base =? 16) && ((x =? 120) || (x =? 88)) then l' else c :: ds ++ 10 :: rest | _ => c :: ds ++ 10 :: rest end
    = c :: ds ++ 10 :: rest) as ->.
  { assert (forall x, x = 10 \/ plain base x -> (x =? 120) || (x =? 88) = false) as Hx.
    { intros x [->|Hx]; [done|]. destruct (plain_cases base x Hb Hx) as (_ & _ & _ & ? & ? & _). destruct (Z.eqb_spec x 120), (Z.eqb_spec x 88); done. }
    assert (exists x l', ds ++ 10 :: rest = x :: l' /\ (x = 10 \/ plain base x)) as (x & l' & E & Hxx).
    { destruct ds as [|d ds]; [exists 10, rest; by auto|]. inversion_clear Hp' as [|?? Hd _]. exists d, (ds ++ 10 :: rest). by auto. }
    rewrite E, (Hx x Hxx), andb_false_r. destruct c as [|c|c]; try done. repeat (destruct c as [c|c|]; try done). }
  rewrite Er. run. by rewrite (proj2 (Z.leb_gt _ _) Hv).
Qed.

Lemma dec_digits_spec n : forall v acc, 0 <= v < 10 ^ Z.of_nat n -> (0 < n)%nat -> Forall (plain 10) acc ->
  let l := dec_digits n v acc in
  Forall (plain 10) l /\ (length acc < length l <= n + length acc)%nat /\
  forall a, exists k, foldl (fun a d => a * 10 + digit_value d) a l = foldl (fun a d => a * 10 + digit_value d) (a * k + v) acc.
Proof.
  induction n as [|n IH]; intros v acc Hv Hn Hacc; [lia|]. cbn [dec_digits].
  assert (plain 10 (48 + v mod 10) /\ digit_value (48 + v mod 10) = v mod 10) as [Hp Ed].
  { unfold plain, digit_value. pose proof (Z.mod_pos_bound v 10 eq_refl).
    rewrite (proj2 (Z.leb_le 48 _)), (proj2 (Z.leb_le _ 57)) by lia. cbn [andb]. lia. }
  destruct (Z.eqb_spec (v / 10) 0) as [E|E].
  - split; [by constructor|]. cbn [length]. split; [lia|]. intros a. exists 10. cbn [foldl]. rewrite Ed. pose proof (Z.div_mod v 10 ltac:(lia)). f_equal. lia.
  - rewrite Nat2Z.inj_succ, Z.pow_succ_r in Hv by lia. assert (0 <= v / 10 < 10 ^ Z.of_nat n) as Hd by (split; [apply Z.div_pos; lia|apply Z.div_lt_upper_bound; lia]).
    destruct n as [|n]; [change (10 ^ Z.of_nat 0) with 1 in Hd; lia|].
    destruct (IH (v / 10) (48 + v mod 10 :: acc) Hd ltac:(lia) ltac:(by constructor)) as (H1 & H2 & H3). cbn [length] in H2.
    split; [done|]. split; [lia|]. intros a. destruct (H3 a) as [k ->]. exists (k * 10). cbn [foldl]. rewrite Ed. f_equal. pose proof (Z.div_mod v 10 ltac:(lia)). nia.
Qed.

Lemma fmt_lu_spec v : 0 <= v < 2 ^ 64 ->
  Forall (plain 10) (fmt_lu v) /\ (0 < length (fmt_lu v) <= 20)%nat /\ forall rest, strtoull 10 (fmt_lu v ++ 10 :: rest) = Done v.
Proof.
  intros Hv. destruct (dec_digits_spec 20 v [] ltac:(split; [lia|]; change (10 ^ Z.of_nat 20) with (10 ^ 20); lia) ltac:(lia) ltac:(constructor)) as (H1 & H2 & H3).
  fold (fmt_lu v) in *. cbn [length] in H2. destruct (H3 0) as [k E]. cbn [foldl] in E. split; [done|]. split; [lia|]. intros rest.
  rewrite strtoull_digits; [by rewrite E|lia| |done|rewrite E; lia]. intros E0. rewrite E0 in H2. cbn in H2. lia.
Qed.

Lemma hex_digits_spec n : forall v, 0 <= v < 16 ^ Z.of_nat n ->
  Forall (plain 16) (hex_digits n v) /\ length (hex_digits n v) = n /\ foldl (fun a d => a * 16 + digit_value d) 0 (hex_digits n v) = v.
Proof.
  induction n as [|n IH]; intros v Hv; [cbn; change (16 ^ Z.of_nat 0) with 1 in Hv; split; [constructor|]; split; [done|lia]|].
  rewrite Nat2Z.inj_succ, Z.pow_succ_r in Hv by lia. assert (0 <= v / 16 < 16 ^ Z.of_nat n) as Hd by (split; [apply Z.div_pos; lia|apply Z.div_lt_upper_bound; lia]).
  destruct (IH _ Hd) as (H1 & H2 & H3). cbn [hex_digits]. set (c := if v mod 16 <? 10 then 48 + v mod 16 else 87 + v mod 16).
  assert (plain 16 c /\ digit_value c = v mod 16) as [Hp Ed].
  { pose proof (Z.mod_pos_bound v 16 eq_refl). unfold c, plain, digit_value. destruct (Z.ltb_spec (v mod 16) 10).
    - rewrite (proj2 (Z.leb_le 48 _)), (proj2 (Z.leb_le _ 57)) by lia. cbn [andb]. lia.
    - rewrite (proj2 (Z.leb_gt _ 57)), andb_false_r, (proj2 (Z.leb_le 97 _)), (proj2 (Z.leb_le _ 122)) by lia. cbn [andb]. lia. }
  split; [apply Forall_app; split; [done|by apply Forall_singleton]|]. split; [rewrite length_app, H2; cbn; lia|]. rewrite foldl_app, H3. cbn [foldl]. rewrite Ed.
  pose proof (Z.div_mod v 16 ltac:(lia)). lia.
Qed.

Lemma fmt_016lx_spec v : 0 <= v < 2 ^ 64 ->
  Forall (plain 16) (fmt_016lx v) /\ length (fmt_016lx v) = 16%nat /\ forall rest, strtoull 16 (fmt_016lx v ++ 10 :: rest) = Done v.
Proof.
  intros Hv. destruct (hex_digits_spec 16 v Hv) as (H1 & H2 & H3). fold (fmt_016lx v) in *. split; [done|]. split; [done|]. intros rest.
  rewrite strtoull_digits; [by rewrite H3|done| |done|rewrite H3; lia]. intros E0. by rewrite E0 in H2.
Qed.

Lemma plain_no_newline base (l : list Z) : base <= 16 -> Forall (plain base) l -> Forall (fun c : Z => c <> 10) l.
Proof. intros Hb Hp. eapply Forall_impl; [exact Hp|]. intros c Hc. by apply (plain_cases base). Qed.
