(* ===== verification/Db.v ===== *)
(** * The database of the LSM-trie: src/DataStruct_learn/Tree/lsm-trie/db.c

    Pairs are inserted into an active table in memory.  When it is full it is
    set aside, written to disk and appended to the container of the root.  A
    container that has grown too large is compacted: its oldest tables are
    merged into eight new ones by three bits of the hash of the keys, and each
    is appended to the container of one of eight children.

    The tree of virtual containers is a finite map from paths to containers: a
    path lists the indices into sub_vc on the way from the root, and start_bit
    is three times its length.  A raw file or device is its bytes, and one map
    of containers belongs to each; data_id tells which one a level uses.  The
    metadata files are a map from their number.  The functions of the
    background threads are here in the order of their steps: a step that takes
    the lock for writing, and the work between two of them, which is on tables
    that no other thread changes.  Threads that share work (feeding, dumping)
    do it one after the other.  Statistics and the log are left out.  DbMeta has
    the configuration, saving and loading. *)

From Stdlib Require Import SpecFloat.
From stdpp Require Import gmap.
From S2P Require Import Prelude Coding Bloom Mempool Cmap LsmTable.
Import Bloom Lsm Cmap.

Module Db.

Definition DB_CONTAINER_NR : nat := 20.
Definition BC_START_BIT : nat := 12.
(** 7.2 times the size of a table, as the compiler rounds it. *)
Definition DB_COMPACTION_CAP : Z := 241591910.
Definition DB_FEED_UNIT : nat := 1024.
Definition DB_NR_LEVELS : nat := 5.
Definition NR_MAPS : nat := 6.

(** A container: its Bloom filters, when they are kept apart from the tables,
    and the tables with the numbers of their metadata files, oldest first. *)
Record Container := mkCC { bc : option (Z * BloomContainer); metatables : list (Z * MetaTable) }.

(** The pointer to the table that is being written: after table_free it may
    dangle. *)
Inductive Slot := Null | Live (t : Table) | Freed.

Record DB := mkDB {
  active_table0 : option Table; active_table1 : Slot;
  vcs : gmap (list nat) Container;
  cms_dump : list ContainerMap; raws : list (list Z); data_id : list nat; bc_id : nat;
  metafiles : gmap Z (list Z); next_mtid : Z }.

Definition start_bit (path : list nat) : nat := 3 * length path.

Section db.
Context (SHA1 : list Z -> list Z) `{Qsort} (mmap : bool -> Z -> bool) (malloc : Z -> bool) (junk : nat -> list Z).

(** 15.0 and 1.8 *)
Definition ACTIVE_FACTOR : spec_float := S754_finite false 8444249301319680 (-49).
Definition COMPACTION_FACTOR : spec_float := S754_finite false 8106479329266893 (-52).

(** ** Virtual containers *)

Definition vc_create : Container := mkCC None [].

Definition vc_insert_internal (cc : Container) (mt : Z * MetaTable) (b : option (Z * BloomContainer)) : exec Container :=
  if (length (metatables cc) <? DB_CONTAINER_NR)%nat then Done (mkCC b (metatables cc ++ [mt])) else Fault.

Fixpoint count_feed (mts : list (Z * MetaTable)) (j : nat) (vc_cap : Z) : nat :=
  match mts with
  | [] => 0
  | (_, mt) :: mts' =>
      let vc_cap := u64 (vc_cap + mt_volume mt) in
      if DB_COMPACTION_CAP <=? vc_cap then S j else count_feed mts' (S j) vc_cap
  end.

(** How many tables to compact, 0 for none. *)
Definition vc_count_feed (cc : Container) : nat := count_feed (metatables cc) 0 0.

(** ** Writing a table *)

Definition with_vcs (db : DB) (v : gmap (list nat) Container) : DB :=
  mkDB (active_table0 db) (active_table1 db) v (cms_dump db) (raws db) (data_id db) (bc_id db) (metafiles db) (next_mtid db).

Definition with_cm (db : DB) (d : nat) (cm : ContainerMap) : DB :=
  mkDB (active_table0 db) (active_table1 db) (vcs db) (<[d:=cm]> (cms_dump db)) (raws db) (data_id db) (bc_id db) (metafiles db) (next_mtid db).

Definition with_raw (db : DB) (d : nat) (raw : list Z) : DB :=
  mkDB (active_table0 db) (active_table1 db) (vcs db) (cms_dump db) (<[d:=raw]> (raws db)) (data_id db) (bc_id db) (metafiles db) (next_mtid db).

Definition with_metas (db : DB) (m : gmap Z (list Z)) : DB :=
  mkDB (active_table0 db) (active_table1 db) (vcs db) (cms_dump db) (raws db) (data_id db) (bc_id db) m (next_mtid db).

Definition db_aquire_mtid (db : DB) : DB * Z :=
  (mkDB (active_table0 db) (active_table1 db) (vcs db) (cms_dump db) (raws db) (data_id db) (bc_id db) (metafiles db) (u64 (next_mtid db + 1)),
   next_mtid db).

(** While the database is open it tries until there is a unit; the random
    numbers of the attempts are [rids], and without them it still waits. *)
Fixpoint db_cmap_safe_alloc (rids : list Z) (db : DB) (d : nat) : exec (DB * Z) :=
  match rids with
  | [] => NoFuel
  | rid :: rids' =>
      cm ← load (cms_dump db) d;
      r ← containermap_alloc cm rid; let '(cm', off) := r in
      let db := with_cm db d cm' in
      if off <? total_cap cm then Done (db, off) else db_cmap_safe_alloc rids' db d
  end.

Definition db_table_dump (rids : list Z) (db : DB) (t : Table) (path : list nat) : exec (DB * Table * Z) :=
  let '(db, mtid) := db_aquire_mtid db in
  _ ← assert (match bt t with Some _ => true | None => false end);
  r ← table_retain t; let '(t, rr) := r in
  _ ← assert rr;
  d ← load (data_id db) (start_bit path / 3);
  r ← db_cmap_safe_alloc rids db d; let '(db, off_main) := r in
  raw ← load (raws db) d;
  r ← table_dump_barrels t raw (Z.to_nat off_main); let '(t, raw, _) := r in
  let db := with_raw db d raw in
  meta ← table_dump_meta t (Z.to_nat off_main);
  Done (with_metas db (<[mtid:=meta]> (metafiles db)), t, mtid).

Definition db_load_metatable (db : DB) (mtid : Z) (load_bf : bool) : exec MetaTable :=
  match metafiles db !! mtid with None => Fault | Some meta => metatable_load junk meta load_bf end.

Definition set_bt (mt : MetaTable) (b : option BloomTable) : MetaTable :=
  mkMT (mt_off mt) (mt_volume mt) (mt_nr_mi mt) (mt_mis mt) b.

(** ** The active table *)

(** The first part of the turn of thread_active_dumper: a new table becomes
    active, unless the database is closing. *)
Definition active_shift (closing : bool) (db : DB) : exec DB :=
  match active_table0 db with
  | None => Fault
  | Some t =>
      fresh ← (if closing then Done None else t ← table_alloc_default mmap malloc ACTIVE_FACTOR; Done (Some t));
      Done (mkDB fresh (Live t) (vcs db) (cms_dump db) (raws db) (data_id db) (bc_id db) (metafiles db) (next_mtid db))
  end.

(** When the database is closing and the active table is empty, the dumper
    frees it and ends. *)
Definition active_quit (db : DB) : DB :=
  mkDB None (active_table1 db) (vcs db) (cms_dump db) (raws db) (data_id db) (bc_id db) (metafiles db) (next_mtid db).

Definition with_active1 (db : DB) (s : Slot) : DB :=
  mkDB (active_table0 db) s (vcs db) (cms_dump db) (raws db) (data_id db) (bc_id db) (metafiles db) (next_mtid db).

(** Whether the map of the first level is nearly full. *)
Definition near_full (db : DB) : exec bool :=
  d ← load (data_id db) 0; cm ← load (cms_dump db) d; Done (containermap_unused cm <? 8).

(** The second part: the old one goes to disk, if there is room for it, and is
    freed.  An empty table is only freed. *)
Definition active_dump (rids : list Z) (db : DB) : exec DB :=
  match active_table1 db with
  | Live table1 =>
      full ← near_full db;
      if full : bool then Done (with_active1 db Null)
      else if 0 <? tvolume table1 then
        table1 ← table_build_bloomtable junk table1;
        r ← db_table_dump rids db table1 []; let '(db, table1, mtid) := r in
        mt ← db_load_metatable db mtid false;
        let mt := set_bt mt (bt table1) in
        match vcs db !! [] with
        | None => Fault
        | Some root =>
            root ← vc_insert_internal root (mtid, mt) None;
            Done (with_active1 (with_vcs db (<[[]:=root]> (vcs db))) Null)
        end
      else Done (with_active1 db Freed)
  | _ => Fault
  end.

(** The loops over cms_dump end when they read a null pointer; six maps leave
    none in the array. *)
Definition end_of_maps (db : DB) : exec (option ContainerMap) :=
  load ((Some <$> cms_dump db) ++ replicate (NR_MAPS - length (cms_dump db)) None) (length (cms_dump db)).

Definition db_free (db : DB) : exec unit :=
  _ ← match active_table1 db with Freed => Fault | _ => Done tt end;
  _ ← end_of_maps db; Done tt.

Definition db_insert_try (db : DB) (kv : KeyValue) : exec (DB * bool) :=
  match active_table0 db with
  | None => Fault
  | Some at0 =>
      r ← table_insert_kv_safe SHA1 junk at0 kv; let '(at0, ri) := r in
      Done (mkDB (Some at0) (active_table1 db) (vcs db) (cms_dump db) (raws db) (data_id db) (bc_id db) (metafiles db) (next_mtid db), ri)
  end.

(** The pairs that are left when the table refuses one; all of it happens
    under one lock. *)
Fixpoint db_multi_insert_try (db : DB) (kvs : list KeyValue) : exec (DB * list KeyValue) :=
  match kvs with
  | [] => Done (db, [])
  | kv :: kvs' =>
      r ← db_insert_try db kv; let '(db, ri) := r in
      if ri : bool then db_multi_insert_try db kvs' else Done (db, kvs)
  end.

(** ** Compaction *)

Definition selected (hash : list Z) (start_bit : Z) : nat :=
  let sel_bit := start_bit - 3 in
  let tmp := word 8 (Z.to_nat (Z.shiftr sel_bit 3)) hash in
  let hv := Z.shiftr tmp (Z.land sel_bit 7) in
  Z.to_nat (Z.land hv 7).

Definition compaction_select_table (hash : list Z) (start_bit : Z) : exec nat :=
  _ ← assert (3 <=? start_bit); Done (selected hash start_bit).

(** Missing children are created. *)
Fixpoint create_subs (n : nat) (path : list nat) (v : gmap (list nat) Container) : gmap (list nat) Container :=
  match n with
  | O => v
  | S i => let v := create_subs i path v in
           match v !! (path ++ [i]) with None => <[path ++ [i]:=vc_create]> v | Some _ => v end
  end.

Fixpoint alloc_tables (n : nat) : exec (list Table) :=
  match n with
  | O => Done []
  | S n' => t ← table_alloc_default mmap malloc COMPACTION_FACTOR; ts ← alloc_tables n'; Done (t :: ts)
  end.

(** The tables to merge and eight empty tables. *)
Definition compaction_initial (db : DB) (path : list nat) (nr_feed : nat) : exec (DB * list (Z * MetaTable) * list Table) :=
  match vcs db !! path with
  | None => Fault
  | Some cc =>
      _ ← assert (nr_feed <=? length (metatables cc))%nat;
      _ ← assert (length (metatables cc) <=? DB_CONTAINER_NR)%nat;
      _ ← assert (Mempool.huge_alloc mmap (Z.of_nat BARREL_ALIGN * Z.of_nat TABLE_MAX_BARRELS));
      tables ← alloc_tables 8;
      Done (with_vcs db (create_subs 8 path (vcs db)), take nr_feed (metatables cc), tables)
  end.

Definition compaction_feed (mt : MetaTable) (raw : list Z) (sub_bit : Z) (token : nat) (tables : list Table) : exec (list Table) :=
  _ ← assert (token <? TABLE_MAX_BARRELS)%nat;
  if (TABLE_NR_BARRELS <=? token)%nat then Done tables else
  let nr_fetch := if (TABLE_NR_BARRELS - token <? DB_FEED_UNIT)%nat then (TABLE_NR_BARRELS - token)%nat else DB_FEED_UNIT in
  _ ← assert (token + nr_fetch <=? TABLE_NR_BARRELS)%nat;
  metatable_feed_barrels_to_tables SHA1 junk selected mt raw token nr_fetch tables sub_bit.

(** [n] feeds from [token] on. *)
Fixpoint feed_table (n : nat) (mt : MetaTable) (raw : list Z) (sub_bit : Z) (token : nat) (tables : list Table) : exec (list Table) :=
  match n with
  | O => Done tables
  | S n' => tables ← compaction_feed mt raw sub_bit token tables; feed_table n' mt raw sub_bit (token + DB_FEED_UNIT) tables
  end.

Fixpoint compaction_feed_all (mts : list (Z * MetaTable)) (raw : list Z) (sub_bit : Z) (tables : list Table) : exec (list Table) :=
  match mts with
  | [] => Done tables
  | (_, mt) :: mts' => tables ← feed_table 8 mt raw sub_bit 0 tables; compaction_feed_all mts' raw sub_bit tables
  end.

Fixpoint compaction_build_bt_all (tables : list Table) : exec (list Table) :=
  match tables with
  | [] => Done []
  | t :: ts => t ← table_build_bloomtable junk t; ts ← compaction_build_bt_all ts; Done (t :: ts)
  end.

Definition gen_bc (path : list nat) : bool := (BC_START_BIT <=? start_bit path + 3)%nat.

(** One of the new tables goes to disk and is loaded; its filters stay in
    memory unless they are kept in a container. *)
Definition compaction_dump (rids : list Z) (db : DB) (path : list nat) (i : nat) (t : Table) : exec (DB * (Z * MetaTable)) :=
  r ← db_table_dump rids db t (path ++ [i]); let '(db, t, mtid) := r in
  mt ← db_load_metatable db mtid false;
  _ ← assert (match mt_bt mt with None => true | Some _ => false end);
  Done (db, (mtid, if gen_bc path then mt else set_bt mt (bt t))).

Definition compaction_update_bc (rids : list Z) (db : DB) (old_bc : option (Z * BloomContainer)) (b : BloomTable) : exec (DB * (Z * BloomContainer)) :=
  r ← db_cmap_safe_alloc rids db (bc_id db); let '(db, off_bc) := r in
  let '(db, mtid_bc) := db_aquire_mtid db in
  raw ← load (raws db) (bc_id db);
  r ← match old_bc with
      | None => bloomcontainer_build b raw (Z.to_nat off_bc) 0
      | Some (_, old) => bloomcontainer_update old b raw raw (Z.to_nat off_bc) 0
      end; let '(new_bc, raw, _) := r in
  let db := with_raw db (bc_id db) raw in
  _ ← assert (0 <? nr_bf_per_box new_bc);
  data ← bloomcontainer_dump_meta new_bc [];
  Done (with_metas db (<[mtid_bc:=data]> (metafiles db)), (mtid_bc, new_bc)).

Definition old_bc (db : DB) (path : list nat) : option (Z * BloomContainer) := cc ← vcs db !! path; bc cc.

(** The tables from number [i] on; [rids] has the random numbers of each
    table, and of its filters. *)
Fixpoint compaction_dump_and_bc_all (rids : nat -> list Z * list Z) (db : DB) (path : list nat) (i : nat) (tables : list Table)
    : exec (DB * list ((Z * MetaTable) * option (Z * BloomContainer))) :=
  match tables with
  | [] => Done (db, [])
  | t :: ts =>
      r ← compaction_dump (rids i).1 db path i t; let '(db, mt) := r in
      r ← (if gen_bc path then
             match bt t with
             | None => Fault
             | Some b => r ← compaction_update_bc (rids i).2 db (old_bc db (path ++ [i])) b; let '(db, b) := r in Done (db, Some b)
             end
           else Done (db, None)); let '(db, b) := r in
      r ← compaction_dump_and_bc_all rids db path (S i) ts; let '(db, l) := r in
      Done (db, (mt, b) :: l)
  end.

Fixpoint insert_subs (path : list nat) (i : nat) (l : list ((Z * MetaTable) * option (Z * BloomContainer))) (v : gmap (list nat) Container)
    : exec (gmap (list nat) Container) :=
  match l with
  | [] => Done v
  | (mt, b) :: l' =>
      match v !! (path ++ [i]) with
      | None => Fault
      | Some cc => cc ← vc_insert_internal cc mt b; insert_subs path (S i) l' (<[path ++ [i]:=cc]> v)
      end
  end.

Definition compaction_update_vc (db : DB) (path : list nat) (nr_feed : nat) (l : list ((Z * MetaTable) * option (Z * BloomContainer))) : exec DB :=
  v ← insert_subs path 0 l (vcs db);
  match v !! path with
  | None => Fault
  | Some cc => Done (with_vcs db (<[path:=mkCC (bc cc) (drop nr_feed (metatables cc))]> v))
  end.

Definition release_unit (db : DB) (d : nat) (off : nat) : exec DB :=
  cm ← load (cms_dump db) d; cm ← containermap_release cm (Z.of_nat off); Done (with_cm db d cm).

Fixpoint free_tables (db : DB) (d : nat) (mts : list (Z * MetaTable)) : exec DB :=
  match mts with
  | [] => Done db
  | (mtid, mt) :: mts' =>
      db ← release_unit db d (mt_off mt);
      free_tables (with_metas db (delete mtid (metafiles db))) d mts'
  end.

Fixpoint free_bcs (db : DB) (l : list (option (Z * BloomContainer))) : exec DB :=
  match l with
  | [] => Done db
  | None :: l' => free_bcs db l'
  | Some (_, b) :: l' => db ← release_unit db (bc_id db) (off_raw b); free_bcs db l'
  end.

Definition compaction_free_old (db : DB) (path : list nat) (mts_old : list (Z * MetaTable)) (mbcs_old : list (option (Z * BloomContainer))) : exec DB :=
  d ← load (data_id db) (start_bit path / 3);
  db ← free_tables db d mts_old;
  free_bcs db mbcs_old.

Definition compaction_main (rids : nat -> list Z * list Z) (db : DB) (path : list nat) (nr_feed : nat) : exec DB :=
  r ← compaction_initial db path nr_feed; let '(db, mts_old, tables) := r in
  let mbcs_old := (fun i => old_bc db (path ++ [i])) <$> seq 0 8 in
  d ← load (data_id db) (start_bit path / 3); raw ← load (raws db) d;
  tables ← compaction_feed_all mts_old raw (Z.of_nat (start_bit path) + 3) tables;
  tables ← compaction_build_bt_all tables;
  r ← compaction_dump_and_bc_all rids db path 0 tables; let '(db, l) := r in
  db ← compaction_update_vc db path nr_feed l;
  compaction_free_old db path mts_old mbcs_old.

(** The indices start, start + inc, ... below 8. *)
Definition indices (start inc : nat) : list nat := base.filter (fun i => start <= i /\ (i - start) mod inc = 0)%nat (seq 0 8).

Definition height (db : DB) (path : list nat) : nat := match vcs db !! path with None => 0 | Some cc => vc_count_feed cc end.

(** The child with the most tables to compact. *)
Definition vc_pick_compaction (db : DB) (path : list nat) (start inc : nat) : option nat :=
  (foldl (fun best i => let h := height db (path ++ [i]) in if (best.1 <? h)%nat then (h, Some i) else best)
    (O, None) (indices start inc)).2.

Definition is_full (db : DB) (path : list nat) : bool :=
  match vcs db !! path with None => false | Some cc => (length (metatables cc) =? DB_CONTAINER_NR)%nat end.

Definition vc_pick_full (db : DB) (path : list nat) (start inc : nat) : option nat :=
  head (base.filter (fun i => is_full db (path ++ [i]) = true) (indices start inc)).

(** The loop on full children; [rec] compacts one of them. *)
Fixpoint compact_full (rec : nat -> DB -> list nat -> exec (DB * nat)) (path : list nat) (start inc : nat) (n : nat) (c : nat) (db : DB)
    : exec (DB * nat) :=
  match vc_pick_full db path start inc with
  | None => Done (db, c)
  | Some i =>
      match n with
      | O => NoFuel
      | S n' => r ← rec c db (path ++ [i]); compact_full rec path start inc n' r.2 r.1
      end
  end.

(** What follows the compaction of [path]. *)
Definition compact_below (rec : nat -> DB -> list nat -> exec (DB * nat)) (path : list nat) (start inc : nat) (n : nat) (c : nat) (db : DB)
    : exec (DB * nat) :=
  match vc_pick_compaction db path start inc with
  | None => Done (db, c)
  | Some i => r ← rec c db (path ++ [i]); compact_full rec path start inc n r.2 r.1
  end.

(** [rids] has the random numbers of the [c]-th compaction. *)
Fixpoint recursive_compaction (fuel : nat) (rids : nat -> nat -> list Z * list Z) (c : nat) (db : DB) (path : list nat) : exec (DB * nat) :=
  match vcs db !! path with
  | None => Fault
  | Some cc =>
      if (BC_START_BIT <=? start_bit path)%nat then Done (db, c) else
      let nr_input := vc_count_feed cc in
      if (nr_input =? 0)%nat then Done (db, c) else
      db ← compaction_main (rids c) db path nr_input;
      match fuel with
      | O => NoFuel
      | S fuel' => compact_below (recursive_compaction fuel' rids) path 0 1 fuel' (S c) db
      end
  end.

(** One turn of a compaction thread: the child of the root with the number
    [token] is its own. *)
Definition db_root_compaction (fuel : nat) (rids : nat -> nat -> list Z * list Z) (c : nat) (db : DB) (token : nat) : exec (DB * nat) :=
  match vcs db !! [] with
  | None => Fault
  | Some cc =>
      let nr_input := vc_count_feed cc in
      if (nr_input =? 0)%nat then Done (db, c) else
      db ← compaction_main (rids c) db [] nr_input;
      compact_below (recursive_compaction fuel rids) [] token 8 fuel (S c) db
  end.

(** ** Lookups *)

(** The tables from the newest to the oldest; [mts] has the newest first, and
    [bitmap] tells which ones may have the key. *)
Fixpoint lookup_tables (mts : list (Z * MetaTable)) (raw : list Z) (bitmap : Z) (k hash : list Z) : exec (option KeyValue) :=
  match mts with
  | [] => Done None
  | (_, mt) :: mts' =>
      if Z.land bitmap (Z.shiftl 1 (Z.of_nat (length mts'))) =? 0 then lookup_tables mts' raw bitmap k hash
      else
        r ← metatable_lookup junk mt raw k hash None;
        match r with (Some kv, _) => Done (Some kv) | (None, _) => lookup_tables mts' raw bitmap k hash end
  end.

(** [fuel] levels below. *)
Fixpoint recursive_lookup (fuel : nat) (db : DB) (path : list nat) (k hash : list Z) : exec (option KeyValue) :=
  match vcs db !! path with
  | None => Fault
  | Some cc =>
      bitmap ← match bc cc with
               | None => Done (2 ^ 64 - 1)
               | Some (_, b) =>
                   raw ← load (raws db) (bc_id db);
                   bloomcontainer_match b raw (Z.of_nat (table_select_barrel hash)) (__hash_bf hash)
               end;
      d ← load (data_id db) (start_bit path / 3); raw ← load (raws db) d;
      r ← lookup_tables (rev (metatables cc)) raw bitmap k hash;
      match r with
      | Some kv => Done (Some kv)
      | None =>
          sub_id ← compaction_select_table hash (Z.of_nat (start_bit path) + 3);
          match vcs db !! (path ++ [sub_id]), fuel with
          | None, _ => Done None
          | Some _, O => NoFuel
          | Some _, S fuel' => recursive_lookup fuel' db (path ++ [sub_id]) k hash
          end
      end
  end.

Definition lookup_active (t : Slot) (k hash : list Z) : exec (option KeyValue) :=
  match t with Null => Done None | Live t => table_lookup t k hash | Freed => Fault end.

Definition db_lookup (db : DB) (k : list Z) : exec (option KeyValue) :=
  let hash := SHA1 k in
  r ← lookup_active (match active_table0 db with None => Null | Some t => Live t end) k hash;
  match r with
  | Some kv => Done (Some kv)
  | None =>
      r ← lookup_active (active_table1 db) k hash;
      match r with Some kv => Done (Some kv) | None => recursive_lookup DB_NR_LEVELS db [] k hash end
  end.

(** ** Creation *)

(** The raw files: what stat tells, the size asked for, the bytes; [grows]:
    whether they can be extended. *)
Fixpoint create_maps (grows : bool) (conf : list (Raw * Z)) : exec (list ContainerMap) :=
  match conf with
  | [] => Done []
  | (raw, hint) :: conf' =>
      match containermap_create grows raw hint with
      | None => Fault
      | Some cm => cms ← create_maps grows conf'; Done (cm :: cms)
      end
  end.

(** No table is written yet, no container made; [metas] are the metadata files
    in the directory. *)
Definition db_initial (cms : list ContainerMap) (files : list (list Z)) (ids : list nat) (bcid : nat) (metas : gmap Z (list Z)) : exec DB :=
  _ ← assert (forallb (fun d => d <? length cms)%nat (bcid :: ids));
  t ← table_alloc_default mmap malloc ACTIVE_FACTOR;
  Done (mkDB (Some t) Null ∅ cms files ids bcid metas 0).

Definition with_tree (db : DB) (v : gmap (list nat) Container) (mtid : Z) : DB :=
  mkDB (active_table0 db) (active_table1 db) v (cms_dump db) (raws db) (data_id db) (bc_id db) (metafiles db) mtid.

(** The directories can be made. *)
Definition db_create (grows : bool) (conf : list (Raw * Z)) (files : list (list Z)) (ids : list nat) (bcid : nat) (metas : gmap Z (list Z)) : exec DB :=
  cms ← create_maps grows conf;
  db ← db_initial cms files ids bcid metas;
  Done (with_tree db {[ [] := vc_create ]} 1).
End db.
End Db.
