(* ===== verification/DbMeta.v ===== *)
(** * Opening and saving the database: src/DataStruct_learn/Tree/lsm-trie/db.c

    The tree of containers is written as text with the numbers of the metadata
    files, and the maps of the devices are written next to it; both are read
    when the database is opened.  The configuration file names the devices and
    tells which one each level uses.

    The state of a text file that is being read is the bytes that are left.
    Buffers on the stack start with any bytes.  Backup copies and symbolic
    links are left out: saving gives the contents of META and of the
    CONTAINER_MAP files.  [fs] is what stat tells of the raw file with a name,
    and its bytes. *)

From stdpp Require Import gmap.
From S2P Require Import Prelude Coding Bloom Mempool Cmap LsmTable Stdio Db.
Import Bloom Lsm Cmap Db.

Module DbMeta.

Section meta.
Context `{Qsort} (mmap : bool -> Z -> bool) (malloc : Z -> bool) (junk : nat -> list Z).

(** ** Saving *)

Definition newline : list Z := [10].

Definition dump_bc_open (b : option (Z * BloomContainer)) : list Z :=
  match b with Some _ => [60; 33] ++ newline | None => [60] ++ newline end.

Definition dump_bc_close (b : option (Z * BloomContainer)) : list Z :=
  match b with Some (mtid, _) => [62; 33] ++ fmt_016lx mtid ++ newline | None => [62] ++ newline end.

Definition dump_ids (mts : list (Z * MetaTable)) : list Z := concat ((fun m => fmt_016lx m.1 ++ newline) <$> mts).

(** The children from number [i] on, [n] of them. *)
Fixpoint dump_subs (rec : list nat -> exec (list Z)) (path : list nat) (i n : nat) : exec (list Z) :=
  match n with
  | O => Done []
  | S n' => t ← rec (path ++ [i]); ts ← dump_subs rec path (S i) n'; Done (t ++ ts)
  end.

(** [fuel] levels below. *)
Fixpoint recursive_dump (fuel : nat) (v : gmap (list nat) Container) (path : list nat) : exec (list Z) :=
  match v !! path with
  | None => Done ([91; 93] ++ newline)
  | Some cc =>
      match fuel with
      | O => NoFuel
      | S fuel' =>
          subs ← dump_subs (recursive_dump fuel' v) path 0 8;
          Done ([91; 32] ++ fmt_lu (Z.of_nat (start_bit path)) ++ newline ++ dump_bc_open (bc cc) ++ dump_ids (metatables cc) ++
                dump_bc_close (bc cc) ++ subs ++ [93] ++ newline)
      end
  end.

Fixpoint dump_maps (cms : list ContainerMap) : exec (list (list Z)) :=
  match cms with
  | [] => Done []
  | cm :: cms' => f ← containermap_dump cm; fs ← dump_maps cms'; Done (f :: fs)
  end.

Definition db_dump_meta (db : DB) : exec (list Z * list (list Z)) :=
  text ← recursive_dump DB_NR_LEVELS (vcs db) [];
  files ← dump_maps (cms_dump db);
  _ ← end_of_maps db;
  Done (text ++ fmt_lu (next_mtid db) ++ newline, files).

(** ** Loading *)

Definition db_load_bloomcontainer_meta (db : DB) (mtid : Z) : exec BloomContainer :=
  match metafiles db !! mtid with None => Fault | Some fi => r ← bloomcontainer_load_meta fi; Done r.1 end.

(** The tables of a container, at most [n] more. *)
Fixpoint parse_tables (n : nat) (db : DB) (path : list nat) (load_bf : bool) (buf input : list Z) : exec (list (Z * MetaTable) * list Z * list Z) :=
  match n with
  | O => Done ([], buf, input)
  | S n' =>
      r ← fgets buf 28 input; let '(buf, input) := r in
      c ← load buf 0;
      if c =? 62 then Done ([], buf, input) else
      mtid ← strtoull 16 buf;
      _ ← load (data_id db) (start_bit path / 3);
      mt ← db_load_metatable junk db mtid load_bf;
      r ← parse_tables n' db path load_bf buf input; let '(mts, buf, input) := r in
      Done ((mtid, mt) :: mts, buf, input)
  end.

Fixpoint parse_subs (rec : list nat -> gmap (list nat) Container -> list Z -> exec (gmap (list nat) Container * list Z))
    (path : list nat) (i n : nat) (v : gmap (list nat) Container) (input : list Z) : exec (gmap (list nat) Container * list Z) :=
  match n with
  | O => Done (v, input)
  | S n' => r ← rec (path ++ [i]) v input; let '(v, input) := r in parse_subs rec path (S i) n' v input
  end.

(** [v] are the containers read so far; [fuel] levels below. *)
Fixpoint recursive_parse (fuel : nat) (db : DB) (path : list nat) (v : gmap (list nat) Container) (input : list Z)
    : exec (gmap (list nat) Container * list Z) :=
  r ← fgets (junk 128) 120 input; let '(buf, input) := r in
  c0 ← load buf 0; _ ← assert (c0 =? 91);
  c1 ← load buf 1;
  if c1 =? 93 then Done (v, input) else
  r ← fgets buf 28 input; let '(buf, input) := r in
  c0 ← load buf 0; _ ← assert (c0 =? 60);
  c1 ← load buf 1; let load_bf := negb (c1 =? 33) in
  r ← parse_tables DB_CONTAINER_NR db path load_bf buf input; let '(mts, buf, input) := r in
  c0 ← load buf 0;
  r ← (if c0 =? 62 then Done (buf, input)
       else r ← fgets buf 28 input; let '(buf, input) := r in c0 ← load buf 0; _ ← assert (c0 =? 62); Done (buf, input)); let '(buf, input) := r in
  b ← (if load_bf then Done None
       else c1 ← load buf 1; _ ← assert (c1 =? 33);
            c2 ← load buf 2; _ ← assert (negb (c2 =? 0));
            mtid_bc ← strtoull 16 (drop 2 buf);
            b ← db_load_bloomcontainer_meta db mtid_bc; Done (Some (mtid_bc, b)));
  match fuel with
  | O => NoFuel
  | S fuel' =>
      r ← parse_subs (recursive_parse fuel' db) path 0 8 (<[path := mkCC b mts]> v) input; let '(v, input) := r in
      r ← fgets buf 28 input; let '(buf, input) := r in
      c0 ← load buf 0; _ ← assert (c0 =? 93);
      Done (v, input)
  end.

Fixpoint load_maps (grows : bool) (conf : list Raw) (files : list (list Z)) : exec (list ContainerMap) :=
  match conf, files with
  | raw :: conf', f :: files' => cm ← containermap_load grows raw f; cms ← load_maps grows conf' files'; Done (cm :: cms)
  | _, _ => Done []
  end.

(** None: META or one of the maps is missing. *)
Definition db_load (grows : bool) (conf : list Raw) (files : list (list Z)) (ids : list nat) (bcid : nat) (metas : gmap Z (list Z))
    (meta : option (list Z)) (cmaps : nat -> option (list Z)) : exec (option DB) :=
  match meta, mapM cmaps (seq 0 (length conf)) with
  | Some text, Some maps =>
      cms ← load_maps grows conf maps;
      db ← db_initial mmap malloc cms files ids bcid metas;
      r ← recursive_parse (length text) db [] ∅ text; let '(v, input) := r in
      _ ← assert (bool_decide (is_Some (v !! [])));
      r ← fgets (junk 32) 30 input; let '(buf, input) := r in
      mtid ← strtoull 10 buf;
      _ ← assert (0 <? mtid);
      Done (Some (with_tree db v mtid))
  | _, _ => Done None
  end.

(** ** The configuration *)

Record ContainerMapConf := mkConf { raw_fn : list (list Z); hints : list Z; conf_bc_id : Z; conf_data_id : list Z }.

(** At most [n] more devices. *)
Fixpoint conf_devices (n : nat) (buf fi : list Z) : exec (list (list Z * Z) * list Z * list Z) :=
  match n with
  | O => Done ([], buf, fi)
  | S n' =>
      buf ← store buf 0 0;
      r ← fgets buf 1000 fi; let '(buf, fi) := r in
      c ← load buf 0;
      if c =? 36 then Done ([], buf, fi) else
      line ← c_string buf;
      let name := before 10 line in
      buf ← store buf (length name) 0;
      buf ← store buf 0 0;
      r ← fgets buf 1000 fi; let '(buf, fi) := r in
      hint ← strtoull 10 buf;
      r ← conf_devices n' buf fi; let '(devs, buf, fi) := r in
      Done ((name, u64 (hint * 1024 * 1024 * 1024)) :: devs, buf, fi)
  end.

Fixpoint conf_levels (n : nat) (count : Z) (buf fi : list Z) : exec (list Z) :=
  match n with
  | O => Done []
  | S n' =>
      buf ← store buf 0 0;
      r ← fgets buf 1000 fi; let '(buf, fi) := r in
      id ← strtoull 10 buf;
      _ ← assert (id <? count);
      ids ← conf_levels n' count buf fi; Done (id :: ids)
  end.

Definition db_load_cm_conf (fi : list Z) : exec ContainerMapConf :=
  r ← conf_devices NR_MAPS (junk 1024) fi; let '(devs, buf, fi) := r in
  c ← load buf 0; _ ← assert (c =? 36);
  buf ← store buf 0 0;
  r ← fgets buf 1000 fi; let '(buf, fi) := r in
  bcid ← strtoull 10 buf;
  _ ← assert (bcid <? Z.of_nat (length devs));
  ids ← conf_levels DB_NR_LEVELS (Z.of_nat (length devs)) buf fi;
  Done (mkConf devs.*1 devs.*2 bcid ids).

(** The database is loaded when it is there, and created otherwise. *)
Definition db_touch (grows : bool) (fs : list Z -> Raw * list Z) (conf_text : list Z) (has_dir : bool) (metas : gmap Z (list Z))
    (meta : option (list Z)) (cmaps : nat -> option (list Z)) : exec DB :=
  conf ← db_load_cm_conf conf_text;
  let devs := fs <$> raw_fn conf in
  let ids := Z.to_nat <$> conf_data_id conf in let bcid := Z.to_nat (conf_bc_id conf) in
  db ← (if has_dir then db_load grows devs.*1 devs.*2 ids bcid metas meta cmaps else Done None);
  match db with
  | Some db => Done db
  | None => db_create mmap malloc grows (zip devs.*1 (hints conf)) devs.*2 ids bcid metas
  end.
End meta.
End DbMeta.
