(* ===== verification/DbTable.v ===== *)
(** * What the steps of the database do to tables, when they succeed

    The lemmas on tables say that with room in the pool and on the pages every
    step succeeds.  The database goes on only when its assertions hold: here
    what is known of a table that was written, of tables that were fed and of
    filters that were put into a container, from the success of the step. *)

From Stdlib Require Import Sorted.
From stdpp Require Import gmap sorting.
From S2P Require Import Prelude Coding Bloom BloomProof BloomTable BloomPages BloomContainer Mempool LsmTable LsmMem LsmRetain LsmDisk LsmLookup LsmSystem LsmFeed.
Import Coding Lsm.

Lemma load_Done_inv {A} (a : list A) i x : load a i = Done x -> a !! i = Some x.
Proof. unfold load. destruct (a !! i); congruence. Qed.

(** ** A page that was written was large enough *)

Lemma encode_loop_ends n : forall fuel dst ptr t dst' p,
  0 <= t < 128 ^ Z.of_nat (S n) -> encode_loop fuel dst ptr t = Done (dst', p) ->
  p = (ptr + length (varint_n (S n) t))%nat /\ length dst' = length dst.
Proof.
  assert (forall fuel dst ptr t dst' p m, t < 128 -> encode_loop fuel dst ptr t = Done (dst', p) ->
    p = (ptr + length (varint_n (S m) t))%nat /\ length dst' = length dst) as Hsmall.
  { intros fuel dst ptr t dst' p m Ht E. rewrite varint_small by done. destruct fuel; cbn [encode_loop] in E; rewrite (proj2 (Z.leb_gt _ _)) in E by lia;
      apply bind_Done_inv in E as (d & Es & E); injection E as <- <-; (destruct (decide (ptr < length dst)%nat) as [Hl|Hl];
        [rewrite store_lt in Es by done; injection Es as <-; rewrite length_insert; cbn; lia|rewrite store_ge in Es by lia; done]). }
  induction n as [|n IH]; intros fuel dst ptr t dst' p Ht E; [by eapply Hsmall; [|exact E]; cbn in Ht; lia|].
  destruct (Z.lt_ge_cases t 128) as [Hlt|Hge]; [by eapply Hsmall|]. rewrite varint_big by done.
  rewrite Nat2Z.inj_succ, Z.pow_succ_r in Ht by lia.
  destruct fuel as [|fuel]; cbn [encode_loop] in E; rewrite (proj2 (Z.leb_le _ _)) in E by lia; apply bind_Done_inv in E as (d & Es & E); [done|].
  destruct (decide (ptr < length dst)%nat) as [Hl|Hl]; [|by rewrite store_ge in Es by lia]. rewrite store_lt in Es by done. injection Es as <-.
  rewrite Z.shiftr_div_pow2 in E by lia. change (2 ^ 7) with 128 in E.
  apply IH in E as [-> ->]; [|split; [lia_div|apply Z.div_lt_upper_bound; lia]]. rewrite length_insert. cbn [length]. lia.
Qed.

Lemma encode_ends dst ptr v dst' p :
  0 <= v < 2 ^ 64 -> encode_uint64 dst ptr v = Done (dst', p) -> p = (ptr + length (varint v))%nat /\ length dst' = length dst.
Proof.
  intros Hv. apply (encode_loop_ends 9). split; [lia|]. apply (Z.lt_trans _ (2 ^ 64)); [lia|done].
Qed.

Lemma memcpy_Done_inv {A} (dst src d : list A) i j n : memcpy dst i src j n = Done d -> (i + n <= length dst)%nat /\ length d = length dst.
Proof.
  unfold memcpy. destruct (decide _) as [[H1 H2]|]; [|done]. intros E. injection E as <-. split; [done|].
  rewrite !length_app, !length_take, !length_drop. lia.
Qed.

(** ** Units of a file *)

Definition unit_bytes : nat := Bloom.BARREL_ALIGN * Bloom.TABLE_MAX_BARRELS.

(** Different units do not overlap. *)
Definition apart (o off : nat) : Prop := (off + unit_bytes <= o \/ o + unit_bytes <= off)%nat.

(** What could be read in the unit at [off] still can be. *)
Definition keeps (file file' : list Z) (off : nat) : Prop :=
  forall m a p, (off <= a)%nat -> (a + m <= off + unit_bytes)%nat -> Bloom.pread file m a = Done p -> Bloom.pread file' m a = Done p.

Lemma keeps_refl file off : keeps file file off.
Proof. by intros m a p. Qed.
Lemma keeps_trans f1 f2 f3 off : keeps f1 f2 off -> keeps f2 f3 off -> keeps f1 f3 off.
Proof. intros H1 H2 m a p Ha Hm E. apply H2; [done..|]. by apply H1. Qed.

Lemma pwrite_keeps file data o off : (length data <= unit_bytes)%nat -> apart o off -> keeps file (Bloom.pwrite file data o) off.
Proof. intros Hd Ho m a p Ha Hm E. apply pread_pwrite_other; [done|]. unfold apart in Ho. lia. Qed.

Section table.
Context (SHA1 : list Z -> list Z) `{Qsort} (junk : nat -> list Z).
Hypothesis Hjunk : forall n, length (junk n) = n.
Hypothesis Hsha : forall k, length (SHA1 k) = 20%nat /\ Forall is_u8 (SHA1 k).

Lemma item_encode_ends it buf p buf' p' :
  item_ok SHA1 it -> item_encode it buf p = Done (buf', p') ->
  Z.of_nat p' = Z.of_nat p + size it /\ (p' <= length buf)%nat /\ length buf' = length buf.
Proof.
  intros Hit E. destruct (it_key _ _ Hit) as [_ Hk]. pose proof (it_value _ _ Hit) as Hv. unfold item_encode in E.
  apply bind_Done_inv in E as ([b1 p1] & E1 & E). apply encode_ends in E1 as [-> L1]; [|lia].
  apply bind_Done_inv in E as (b2 & E2 & E). apply memcpy_Done_inv in E2 as [_ L2].
  apply bind_Done_inv in E as ([b3 p3] & E3 & E). apply encode_ends in E3 as [-> L3]; [|lia].
  apply bind_Done_inv in E as (b4 & E4 & E). apply memcpy_Done_inv in E4 as [H4 L4].
  apply bind_Done_inv in E as (u & _ & E). injection E as <- <-. unfold size, enc. rewrite !length_app. lia.
Qed.

Lemma dump_items_fits l : forall buf p nr r,
  Forall (item_ok SHA1) l -> Z.of_nat p <= Z.of_nat BARREL_CAP -> dump_items l buf p nr = Done r -> Z.of_nat p + sizes l <= Z.of_nat BARREL_CAP.
Proof.
  induction l as [|it l IH]; intros buf p nr r Hok Hp E; [unfold sizes; cbn; lia|]. inversion_clear Hok as [|?? Hit Hok']. cbn [dump_items] in E.
  apply bind_Done_inv in E as ([b1 p1] & E1 & E). apply bind_Done_inv in E as (u & Ea & E). apply assert_Done, Nat.leb_le in Ea.
  apply item_encode_ends in E1 as (Ep & _); [|done]. apply IH in E; [|done|lia]. rewrite sizes_cons. lia.
Qed.

Lemma dump_slots_fits bs : forall slots nr r,
  Forall (barrel_ok SHA1) bs -> dump_slots bs slots nr = Done r -> Forall (fun b => sizes (contents b) <= Z.of_nat BARREL_CAP) bs.
Proof.
  induction bs as [|b bs IH]; intros slots nr r Hok E; [constructor|]. inversion_clear Hok as [|?? Hb Hok'].
  destruct slots as [|s slots]; [done|]. cbn [dump_slots] in E. apply bind_Done_inv in E as ([s1 n1] & E1 & E).
  apply bind_Done_inv in E as ([s2 n2] & E2 & _). constructor; [|by eapply IH].
  unfold barrel_dump_buffer in E1. apply bind_Done_inv in E1 as ([[b1 p1] n3] & E1 & _). apply dump_items_fits in E1; [unfold contents; lia|apply Hb|lia].
Qed.

Lemma dump_loop_fits off n : forall j t file nr r,
  Forall (barrel_ok SHA1) (barrels t) -> (TABLE_NR_BARRELS <= j + n * TABLE_NR_IO)%nat -> dump_loop n j t file off nr = Done r ->
  forall i b, (j <= i < TABLE_NR_BARRELS)%nat -> barrels t !! i = Some b -> sizes (contents b) <= Z.of_nat BARREL_CAP.
Proof.
  induction n as [|n IH]; intros j t file nr r Hok Hn E i b Hi Hb; [lia|]. cbn [dump_loop] in E.
  rewrite (proj2 (Nat.ltb_lt _ _)) in E by lia. apply bind_Done_inv in E as ([slots nr'] & E1 & E).
  set (d := if (TABLE_NR_BARRELS <? j + TABLE_NR_IO)%nat then _ else _) in *.
  assert (d = TABLE_NR_IO \/ j + d = TABLE_NR_BARRELS)%nat as Hd by (unfold d; destruct (Nat.ltb_spec TABLE_NR_BARRELS (j + TABLE_NR_IO)); lia). clearbody d.
  destruct (decide (i < j + d)%nat) as [Hlt|Hge].
  - apply dump_slots_fits in E1; [|by apply Forall_take, Forall_drop]. apply (Forall_lookup_1 _ _ (i - j)%nat b E1).
    rewrite lookup_take_lt by lia. rewrite lookup_drop. by replace (j + (i - j))%nat with i by lia.
  - refine (IH _ _ _ _ _ _ _ E i b _ Hb); [exact Hok|cbn [Nat.mul] in Hn; lia|lia].
Qed.

Lemma dump_fits t file off r :
  Forall (barrel_ok SHA1) (barrels t) -> length (barrels t) = TABLE_NR_BARRELS -> table_dump_barrels t file off = Done r ->
  forall i b, barrels t !! i = Some b -> sizes (contents b) <= Z.of_nat BARREL_CAP.
Proof.
  intros Hok Hl E i b Hb. pose proof (lookup_lt_Some _ _ _ Hb). pose proof nr_barrels_value. assert (Z.of_nat TABLE_NR_IO = 2048) by (vm_compute; reflexivity).
  apply (dump_loop_fits off 4 0 t file 0 r Hok ltac:(lia) E i b ltac:(lia) Hb).
Qed.

(** Only the buffer of the table changes. *)
Lemma dump_loop_same off n : forall j t file nr t' file' nr',
  dump_loop n j t file off nr = Done (t', file', nr') ->
  barrels t' = barrels t /\ mis t' = mis t /\ nr_mi t' = nr_mi t /\ bt t' = bt t /\ tvolume t' = tvolume t.
Proof.
  induction n as [|n IH]; intros j t file nr t' file' nr' E; cbn [dump_loop] in E; [injection E as <- _ _; done|].
  destruct (j <? TABLE_NR_BARRELS)%nat; [|injection E as <- _ _; done]. apply bind_Done_inv in E as ([slots n1] & _ & E).
  by apply IH in E.
Qed.

(** ** A table that was written *)

Definition small_map (M : gmap (list Z) (list Z)) : Prop := forall k v, M !! k = Some v -> kv_size (mkKV k v) <= Z.of_nat BARREL_CAP.

Lemma small_items t M : mem_inv SHA1 t M -> small_map M -> forall i it, at_barrel (barrels t) i it -> small it.
Proof. intros HI Hs i it Hat. apply (Hs (key it)). apply (me_map _ _ _ HI). by exists i, it. Qed.

(** The key of every pair passes the filter of its barrel. *)
Definition filters_for (fs : list Bloom.BloomFilter) (M : gmap (list Z) (list Z)) : Prop :=
  forall k, is_Some (M !! k) -> exists f, fs !! table_select_barrel (SHA1 k) = Some f /\ hit (__hash_bf (SHA1 k)) f = true.

Lemma blooms_filters t M fs b : mem_inv SHA1 t M -> blooms (barrels t) fs b -> filters_for fs M.
Proof.
  intros HI [Hf Ht] k [v Hv]. apply (me_map _ _ _ HI) in Hv as (i & it & Hat & Ep). injection Ep as Ek _.
  pose proof (me_home _ _ _ HI _ _ Hat) as Hi. pose proof (at_hash _ _ _ _ _ HI Hat) as Hh. rewrite Hh, Ek in Hi. subst i.
  destruct Hat as (bb & Hbb & Hin). destruct (Forall2_lookup_l _ _ _ _ _ Hf Hbb) as (f & Hf' & [Hw _ Hm]).
  exists f. split; [done|]. specialize (Hm it Hin). rewrite Hh, Ek, hit_match in Hm by done. by apply Done_inj in Hm.
Qed.

Lemma load_without meta mt : metatable_load junk meta true = Done mt ->
  metatable_load junk meta false = Done (mkMT (mt_off mt) (mt_volume mt) (mt_nr_mi mt) (mt_mis mt) None).
Proof.
  unfold metatable_load. intros E. apply bind_Done_inv in E as ([mfh fi] & -> & E). run. apply bind_Done_inv in E as (u & -> & E). run.
  apply bind_Done_inv in E as ([ix fi'] & -> & E). run. apply bind_Done_inv in E as (b & _ & E). injection E as <-. done.
Qed.

Lemma table_written t M t2 t3 file off t4 file' n meta mt :
  mem_inv SHA1 t M -> small_map M -> Z.of_nat off < 2 ^ 64 ->
  table_build_bloomtable junk t = Done t2 -> table_retain t2 = Done (t3, true) ->
  table_dump_barrels t3 file off = Done (t4, file', n) -> table_dump_meta t4 off = Done meta -> metatable_load junk meta false = Done mt ->
  (exists bs, on_disk SHA1 bs M mt file') /\ mt_off mt = off /\ mt_bt mt = None /\ (forall o, apart off o -> keeps file file' o) /\
  exists fs b, bt t2 = Some b /\ bt t4 = Some b /\ table_of fs b /\ Forall wf fs /\ length fs = TABLE_NR_BARRELS /\ filters_for fs M /\ bloom_ok SHA1 M b /\
    exists b', metatable_load junk meta true = Done (mkMT (mt_off mt) (mt_volume mt) (mt_nr_mi mt) (mt_mis mt) (Some b')) /\ table_of fs b'.
Proof using Hjunk Hsha.
  intros HI Hsm Hoff E2 E3 E4 E5 E6. destruct (build_bloomtable_spec SHA1 junk Hjunk t M t2 HI E2) as (Eb & Eio & _ & fs & b & Ebt & Hfs & Ht).
  pose proof (mem_ret SHA1 Hsha t M HI (small_items t M HI Hsm)) as HR. rewrite <- Eb in HR.
  destruct (retain_loop_spec SHA1 Hsha M 100 [] t2 t3 HR E3) as (Hret & Ebt3 & Eio3 & _). pose proof Hret as [[F HF] _ Hix Hnr].
  destruct (dump_loop_same off 4 0 t3 file 0 t4 file' n E4) as (S1 & S2 & S3 & S4 & S5).
  assert (Forall (barrel_ok SHA1) (barrels t3)) as Hbo by (apply Forall_lookup_2; intros i bb Hbb; apply (re_ok _ _ _ _ HF _ _ Hbb)).
  pose proof (dump_fits t3 file off _ Hbo (re_length _ _ _ _ HF) E4) as Hfit.
  assert (Z.of_nat TABLE_NR_IO = 2048) as HIO by (vm_compute; reflexivity). pose proof nr_barrels_value as HN.
  destruct (dump_loop_spec SHA1 off 4 0 t3 file 0) as (t5 & file5 & n5 & Ed & Hp & Hk);
    [intros i bb Hbb; split; [exact (Forall_lookup_1 _ _ _ _ Hbo Hbb)|by eapply Hfit]|apply HF|rewrite Eio3, Eio, (me_io _ _ _ HI); apply length_replicate
    |rewrite Eio3, Eio, (me_io _ _ _ HI); apply Forall_replicate, length_replicate|intros ???; lia|lia|].
  unfold table_dump_barrels in E4. rewrite E4 in Ed. injection Ed as <- <- <-.
  destruct (blooms_small (barrels t) fs (me_length _ _ _ HI) Hfs) as (Hw & Hlf & Hs32).
  destruct (meta_file_spec SHA1 junk Hjunk t3 M fs b off Hret) as (meta' & mt' & b' & Em & El & Eo & Emis & Enr & Emb & Ht'); [congruence|done..|].
  assert (table_dump_meta t4 off = table_dump_meta t3 off) as Es by (unfold table_dump_meta; by rewrite S2, S3, S4, S5).
  rewrite Es, Em in E5. injection E5 as <-. pose proof El as El1. apply load_without in El. rewrite E6 in El. injection El as ->. split_and!; [|done|done| |].
  - exists (barrels t3). split; cbn [mt_mis mt_nr_mi mt_off]; [by exists F|exact Hfit|by rewrite Emis|rewrite Enr, Emis; apply Hnr|].
    intros i bb Hbb. rewrite Eo. apply Hp; [rewrite <- (re_length _ _ _ _ HF); by eapply lookup_lt_Some|done].
  - intros o Ho m a p Ha Hm Ep. apply (Hk m a p Ep). pose proof barrels_value. unfold apart, unit_bytes in *.
    replace (0 + 4 * TABLE_NR_IO)%nat with Bloom.TABLE_MAX_BARRELS by lia. lia.
  - exists fs, b. split_and!; [done|congruence|done|done|done|by eapply blooms_filters|by apply (blooms_ok SHA1 t M fs b)|].
    exists b'. split; [|done]. rewrite El1. destruct mt'. cbn in Emb |- *. by rewrite Emb.
Qed.

Lemma on_disk_keeps bs M mt file file' : on_disk SHA1 bs M mt file -> keeps file file' (mt_off mt) -> on_disk SHA1 bs M mt file'.
Proof.
  intros HD Hk. destruct (od_inv _ _ _ _ _ HD) as [F HF]. destruct HD as [H1 H2 H3 H4 H5]. split; [done..|]. intros i b Hb. apply Hk; [lia| |by apply H5].
  pose proof (lookup_lt_Some _ _ _ Hb) as Hi. rewrite (re_length _ _ _ _ HF) in Hi. pose proof nr_barrels_value. pose proof barrels_value. unfold unit_bytes.
  pose proof (Nat.mul_le_mono_l (S i) Bloom.TABLE_MAX_BARRELS Bloom.BARREL_ALIGN ltac:(lia)). rewrite Nat.mul_succ_r in *. lia.
Qed.
End table.

(** ** Tables that were fed *)

Section feed.
Context (SHA1 : list Z -> list Z) (junk : nat -> list Z) (Hjunk : forall n, length (junk n) = n).
Context (select_table : list Z -> Z -> nat) (arg2 : Z).

Notation maps := (feed_maps select_table arg2).

Lemma insert_raw_fed pre tl it lim p t M t' :
  p = length pre -> item_ok SHA1 it -> mem_inv SHA1 t M ->
  table_insert_rawitem_mt junk t (pre ++ enc it ++ tl) (raw_of it p lim) (hash it) = Done t' -> mem_inv SHA1 t' (put M it).
Proof using Hjunk.
  intros Hp Hit HI E. destruct (it_key _ _ Hit) as [_ Hk]. pose proof (it_value _ _ Hit) as Hv. unfold table_insert_rawitem_mt, rawitem_to_item in E.
  destruct (Mempool.mempool_alloc _ _) as [pool [off|]]; [|done]. rewrite raw_kv in E by done. cbn [mbind exec_bind] in E.
  unfold to_kv in E. cbn [kv_key kv_value] in E. rewrite (item_volume_spec junk Hjunk _ _ 0 0 (hash it)) in E by done. cbn [mbind exec_bind] in E.
  destruct (insert_item_spec SHA1 (with_pool t pool) M (mkItem 0 (u16 (size (mkItem 0 0 (key it) (value it) (hash it)))) (key it) (value it) (hash it)))
    as (t1 & E1 & HI' & _); [by destruct HI|by destruct Hit|]. rewrite E in E1. by injection E1 as <-.
Qed.

Lemma feed_loop_fed lim tl l : forall it fuel pre p tables Ms tables',
  Forall (item_ok SHA1) (it :: l) -> p = length pre -> ends tl (p + length (encs (it :: l))) lim -> Forall2 (mem_inv SHA1) tables Ms ->
  feed_loop SHA1 junk select_table fuel (pre ++ encs (it :: l) ++ tl) (raw_of it p lim) tables arg2 = Done tables' ->
  Forall2 (mem_inv SHA1) tables' (maps Ms (it :: l)).
Proof using Hjunk.
  induction l as [|it' l IH]; intros it fuel pre p tables Ms tables' Hok Hp He HI E; inversion_clear Hok as [|?? Hit Hok'];
    rewrite (encs_cons it), <- app_assoc in E; pose proof (raw_advance SHA1 pre it _ tl p lim Hp Hok' He) as En; rewrite feed_maps_cons;
    destruct fuel; cbn [feed_loop] in E; rewrite (raw_key pre _ it p Hp : bytes_at _ (Lsm.pk (raw_of it p lim)) (Lsm.klen (raw_of it p lim)) = _) in E;
    cbn [mbind exec_bind] in E; rewrite <- (it_hash _ _ Hit) in E; apply bind_Done_inv in E as (t & Ht & E); apply load_Done_inv in Ht;
    apply bind_Done_inv in E as (t' & E1 & E); rewrite En in E; cbn [mbind exec_bind head fmap option_fmap option_map] in E;
    destruct (Forall2_lookup_l _ _ _ _ _ HI Ht) as (M & HM & Hinv); pose proof (insert_raw_fed _ _ _ _ _ _ _ _ Hp Hit Hinv E1) as Hnew;
    rewrite (list_alter_at _ _ _ _ HM); try done.
  1-2: injection E as <-; by apply Forall2_insert.
  rewrite (app_assoc pre) in E. eapply IH; [done|..|exact E]; [len| |by apply Forall2_insert].
  rewrite encs_cons, length_app in He. by rewrite <- Nat.add_assoc.
Qed.

Lemma feed_from_fed cap l tl tables Ms tables' :
  0 < Z.of_nat cap -> Forall (item_ok SHA1) l -> ends tl (length (encs l)) cap -> Forall2 (mem_inv SHA1) tables Ms ->
  (r ← rawitem_at (encs l ++ tl) 0 cap;
   match r with
   | None => Done None
   | Some ri => tables ← feed_loop SHA1 junk select_table cap (encs l ++ tl) ri tables arg2; Done (Some tables)
   end) = Done (Some tables') -> Forall2 (mem_inv SHA1) tables' (maps Ms l).
Proof using Hjunk.
  intros HC Hok He HI E. destruct l as [|it l].
  - change (encs []) with (@nil Z) in *. cbn [app length] in *. destruct He as [Ec|(_ & tl' & ->)]; [lia|].
    rewrite (rawitem_end [] tl') in E by done. done.
  - inversion Hok as [|?? Hit _]. subst. rewrite encs_cons, <- app_assoc in E.
    rewrite (rawitem_at_spec SHA1 [] it (encs l ++ tl)) in E by done. cbn [mbind exec_bind] in E. rewrite app_assoc, <- encs_cons in E.
    apply bind_Done_inv in E as (ts & E & E'). injection E' as ->. by apply (feed_loop_fed cap tl l it cap [] 0 tables Ms).
Qed.

Lemma barrel_fed b tables Ms tables' :
  barrel_ok SHA1 b -> sizes (contents b) <= Z.of_nat BARREL_CAP -> Forall2 (mem_inv SHA1) tables Ms ->
  raw_barrel_feed_to_tables SHA1 junk select_table (barrel_page b) tables arg2 = Done (Some tables') -> Forall2 (mem_inv SHA1) tables' (maps Ms (contents b)).
Proof using Hjunk.
  intros Hb Hs HI E. pose proof cap_value as HC.
  exact (feed_from_fed BARREL_CAP (contents b) _ tables Ms tables' ltac:(lia) (ba_items _ _ Hb) (page_end b Hs) HI E).
Qed.

Lemma pages_fed bs : forall tables Ms tables',
  Forall (fun b => barrel_ok SHA1 b /\ sizes (contents b) <= Z.of_nat BARREL_CAP) bs -> Forall2 (mem_inv SHA1) tables Ms ->
  feed_pages SHA1 junk select_table (barrel_page <$> bs) tables arg2 = Done tables' -> Forall2 (mem_inv SHA1) tables' (maps Ms (concat (contents <$> bs))).
Proof using Hjunk.
  induction bs as [|b bs IH]; intros tables Ms tables' Hok HI E; [by injection E as <-|].
  inversion_clear Hok as [|?? [Hb Hs] Hok']. rewrite !fmap_cons in *. cbn [concat feed_pages] in *.
  apply bind_Done_inv in E as (r & E1 & E). destruct r as [t1|]; [|done]. rewrite feed_maps_app. eapply IH; [done| |exact E]. by eapply barrel_fed.
Qed.

Lemma range_fed bs M mt file start nr tables Ms tables' :
  on_disk SHA1 bs M mt file -> (0 < nr)%nat -> (start + nr <= TABLE_NR_BARRELS)%nat -> Forall2 (mem_inv SHA1) tables Ms ->
  metatable_feed_barrels_to_tables SHA1 junk select_table mt file start nr tables arg2 = Done tables' ->
  Forall2 (mem_inv SHA1) tables' (maps Ms (range_items bs start nr)).
Proof using Hjunk.
  intros HD Hnr Hr HI E. destruct (range_pages SHA1 junk select_table arg2 bs M mt file start nr HD Hnr Hr) as (_ & Hok & Ef). rewrite Ef in E. by eapply pages_fed.
Qed.

(** The pairs of table [j]. *)
Definition share (j : nat) (M : gmap (list Z) (list Z)) : gmap (list Z) (list Z) := base.filter (fun kv => select_table (SHA1 kv.1) arg2 = j) M.

Lemma shared bs M mt file Ms j Mj :
  on_disk SHA1 bs M mt file -> Ms !! j = Some Mj -> maps Ms (concat (contents <$> bs)) !! j = Some (share j M ∪ Mj).
Proof.
  intros HD HMj. destruct (od_inv _ _ _ _ _ HD) as [F HF]. rewrite (feed_maps_lookup _ _ _ _ _ _ HMj). f_equal. set (l := concat (contents <$> bs)).
  assert (range_items bs 0 TABLE_NR_BARRELS = l) as El by (unfold range_items, l; rewrite drop_0, firstn_all2 by (by rewrite (re_length _ _ _ _ HF)); done).
  assert (NoDup (key <$> meant select_table arg2 j l)) as Hn by (apply meant_nodup; rewrite <- El; by eapply range_nodup).
  rewrite foldl_put by done. f_equal. apply map_eq. intros k. apply option_eq. intros v. unfold share, map_of.
  rewrite map_lookup_filter_Some, <- elem_of_list_to_map by (by rewrite <- list_fmap_compose). cbn [fst]. rewrite list_elem_of_fmap. unfold meant.
  rewrite (re_map _ _ _ _ HF k v). split.
  - intros (it & E & Hin). apply list_elem_of_filter in Hin as [Hs Hin]. apply list_elem_of_In, in_concat in Hin as (c & Hc & Hin).
    apply list_elem_of_In, list_elem_of_fmap_1 in Hc as (b & -> & Hb). apply list_elem_of_lookup in Hb as (i & Hb). apply list_elem_of_In in Hin.
    assert (at_barrel bs i it) as Hat by (by exists b). split; [exists i, it; by split; [exists b|]|].
    injection E as -> _. by rewrite <- (it_hash _ _ (ret_item_ok _ _ _ _ _ _ HF Hat)).
  - intros [(i & it & Hat & Ep) Hs]. exists it. split; [done|]. apply list_elem_of_filter. split.
    + rewrite (it_hash _ _ (ret_item_ok _ _ _ _ _ _ HF Hat)). injection Ep as -> _. done.
    + destruct Hat as (b & Hb & Hin). apply list_elem_of_In, in_concat. exists (contents b). split; [|by apply list_elem_of_In].
      apply list_elem_of_In, list_elem_of_fmap_2. by eapply list_elem_of_lookup_2.
Qed.
End feed.

(** ** Filters that were put into a container *)

Lemma stores_keeps n tss bc file file' :
  stores n tss bc file -> (0 < n <= Bloom.TABLE_MAX_BARRELS)%nat -> keeps file file' (Bloom.off_raw bc) -> stores n tss bc file'.
Proof.
  intros (gs & runs & Hh & Hl & Hg & Hk) Hn Hkeep. exists gs, runs. split_and!; [|done..]. pose proof (holds_size _ _ _ _ Hh) as Hsz.
  rewrite length_fmap, Hl in Hsz. destruct Hh as [H1 H2 H3 H4 H5 H6]. split; [done..|]. set (data := concat (layout 0 runs)) in *.
  assert (Bloom.pread file (length data) (Bloom.off_raw bc) = Done data) as E.
  { unfold Bloom.pread. rewrite H6. destruct (Nat.leb_spec (Bloom.off_raw bc + length data) (length file)) as [|Hlt]; [done|].
    assert (length (take (length data) (drop (Bloom.off_raw bc) file)) = length data) as El by (by rewrite H6). rewrite length_take, length_drop in El.
    assert (length data = 0)%nat as E0 by lia. exfalso. unfold data in E0. rewrite (concat_length_pages _ (layout_pages 0 runs H2)), length_layout in E0.
    pose proof barrel_value. assert (length (BloomTable.items <$> gs) = 0)%nat as Ez; [|rewrite length_fmap in Ez; lia].
    rewrite H1. destruct runs; [done|cbn [length] in E0; lia]. }
  apply Hkeep in E; [|done|unfold unit_bytes; pose proof (Nat.mul_le_mono_l n Bloom.TABLE_MAX_BARRELS Bloom.BARREL_ALIGN); lia].
  unfold Bloom.pread in E. apply bind_Done_inv in E as (u & _ & E). by injection E.
Qed.
