(* ===== verification/DbConf.v ===== *)
(** * The configuration file of the database

    db_load_cm_conf reads the devices, their sizes in GiB, the device of the
    Bloom filters and the devices of the five levels. *)

From stdpp Require Import gmap.
From S2P Require Import Prelude Bloom Mempool Cmap LsmTable Stdio DbTable Db DbMeta.
Import Lsm Cmap Db DbMeta.

(** ** The text *)

Definition number_line (v : Z) : list Z := fmt_lu v ++ [10].
Definition device_text (d : list Z * Z) : list Z := d.1 ++ [10] ++ number_line d.2.
Definition conf_text (devs : list (list Z * Z)) (bcid : Z) (ids : list Z) : list Z :=
  concat (device_text <$> devs) ++ [36; 10] ++ number_line bcid ++ concat (number_line <$> ids).

(** A name on a line of its own that is not taken for the end of the list. *)
Definition name_ok (name : list Z) : Prop := Forall (fun c => c <> 10 /\ c <> 0) name /\ (length name < 998)%nat /\ head name <> Some 36.

Definition gib (h : Z) : Z := u64 (h * 1024 * 1024 * 1024).
Definition sized (d : list Z * Z) : list Z * Z := (d.1, gib d.2).

(** ** Reading it *)

Lemma c_string_line name tl : Forall (fun c => c <> 10 /\ c <> 0) name -> c_string (name ++ 10 :: 0 :: tl) = Done (name ++ [10]).
Proof.
  induction name as [|c name IH]; intros Hn; [done|]. apply Forall_cons in Hn as [[_ Hc] Hn]. cbn [app c_string]. rewrite (proj2 (Z.eqb_neq c 0) Hc), IH by done. done.
Qed.

Lemma before_line name : Forall (fun c => c <> 10 /\ c <> 0) name -> before 10 (name ++ [10]) = name.
Proof.
  induction name as [|c name IH]; intros Hn; [done|]. apply Forall_cons in Hn as [[Hc _] Hn]. cbn [app before]. by rewrite (proj2 (Z.eqb_neq c 10) Hc), IH.
Qed.

Lemma store_any (buf : list Z) i v : (i < length buf)%nat -> exists buf', store buf i v = Done buf' /\ length buf' = length buf.
Proof. intros Hi. exists (<[i:=v]> buf). split; [by apply store_lt|apply length_insert]. Qed.

(** A number on a line: the buffer is cleared, filled and read. *)
Lemma number_read {A} buf v rest (k : Z -> list Z -> list Z -> exec A) : length buf = 1024%nat -> 0 <= v < 2 ^ 64 ->
  exists buf' c, length buf' = 1024%nat /\ buf' !! 0%nat = Some c /\ c <> 36 /\
    (buf ← store buf 0 0; r ← fgets buf 1000 (number_line v ++ rest); let '(buf, fi) := r in h ← strtoull 10 buf; k h buf fi) = k v buf' rest.
Proof.
  intros Hb Hv. destruct (store_any buf 0 0 ltac:(lia)) as (b1 & -> & H1). run. destruct (fmt_lu_spec v Hv) as (Hp & Hl & Hval).
  unfold number_line. rewrite <- app_assoc. destruct (fgets_line b1 1000 (fmt_lu v) rest) as (tl & E & Hl2); [lia|lia|by apply (plain_no_newline 10)|]. cbn [app]. rewrite E. run. rewrite Hval.
  destruct (fmt_lu v) as [|c ds]; [cbn in Hl; lia|]. exists ((c :: ds) ++ 10 :: 0 :: tl), c. split; [lia|]. split; [done|]. split; [|by run].
  apply Forall_cons in Hp as [[_ Hc] _]. lia.
Qed.

Section conf.
Context (junk : nat -> list Z) (Hjunk : forall n, length (junk n) = n).

Lemma conf_devices_spec devs rest : forall n buf,
  (length devs <= n)%nat -> length buf = 1024%nat -> Forall name_ok devs.*1 -> Forall (fun h => 0 <= h < 2 ^ 64) devs.*2 ->
  (n = 0%nat -> exists c, buf !! 0%nat = Some c /\ c <> 36) ->
  exists buf' fi, conf_devices n buf (concat (device_text <$> devs) ++ [36; 10] ++ rest) = Done (sized <$> devs, buf', fi) /\ length buf' = 1024%nat /\
    if decide (length devs < n)%nat then buf' !! 0%nat = Some 36 /\ fi = rest else exists c, buf' !! 0%nat = Some c /\ c <> 36.
Proof.
  induction devs as [|[name h] devs IH]; intros n buf Hn Hb Hok Hh Hc.
  - destruct n as [|n]; cbn [conf_devices fmap list_fmap concat app length]; [exists buf, (36 :: 10 :: rest); by split_and!; [..|apply Hc]|].
    destruct (store_any buf 0 0 ltac:(lia)) as (b1 & -> & H1). run. destruct (fgets_line b1 1000 [36] rest) as (tl & E & Hl); [cbn; lia|rewrite H1, Hb; cbn; lia|by repeat constructor|].
    cbn [app] in E. rewrite E. run. eexists _, rest. split; [reflexivity|]. rewrite decide_True by lia. split; [by rewrite <- Hb, <- H1, <- Hl|done].
  - rewrite !fmap_cons in *. cbn [fst snd] in *. apply Forall_cons in Hok as [(Hnm & Hlen & Hhd) Hok]. apply Forall_cons in Hh as [Hh0 Hh]. destruct n as [|n]; cbn [length] in *; [lia|].
    cbn [conf_devices concat]. destruct (store_any buf 0 0 ltac:(lia)) as (b1 & -> & H1). run. unfold device_text at 1. cbn [fst snd]. rewrite <- !app_assoc. cbn [app].
    set (rest1 := concat (device_text <$> devs) ++ 36 :: 10 :: rest).
    destruct (fgets_line b1 1000 name (number_line h ++ rest1)) as (tl & -> & Hl); [lia|lia|eapply Forall_impl; [exact Hnm|by intros ? [? _]]|]. run.
    set (b2 := name ++ 10 :: 0 :: tl) in *. assert (exists c, load b2 0 = Done c /\ c <> 36) as (c & -> & Hc36).
    { unfold b2. destruct name as [|c name]; [by exists 10|]. exists c. split; [done|]. intros ->. by apply Hhd. }
    run. rewrite (proj2 (Z.eqb_neq c 36) Hc36). assert (c_string b2 = Done (name ++ [10])) as -> by (by apply c_string_line). run. rewrite before_line by done.
    destruct (store_any b2 (length name) 0 ltac:(unfold b2; rewrite length_app; cbn; lia)) as (b3 & -> & H3). run.
    destruct (number_read b3 h rest1 (fun h buf fi => r ← conf_devices n buf fi; let '(devs, buf, fi) := r in Done ((name, u64 (h * 1024 * 1024 * 1024)) :: devs, buf, fi))) as (b4 & c4 & H4 & Hc4 & Hn4 & ->);
      [congruence|done|].
    destruct (IH n b4 ltac:(lia) H4 Hok Hh) as (b5 & fi & E & H5 & Hend); [by intros _; exists c4|]. unfold rest1. cbn [app] in E. rewrite E. run. exists b5, fi. split; [done|]. split; [done|].
    destruct (decide (length devs < n)%nat); [by rewrite decide_True by lia|]. rewrite decide_False by lia. done.
Qed.

Lemma conf_levels_spec count ids rest : forall buf, length buf = 1024%nat -> Forall (fun i => 0 <= i < count) ids -> count < 2 ^ 64 ->
  conf_levels (length ids) count buf (concat (number_line <$> ids) ++ rest) = Done ids.
Proof.
  induction ids as [|i ids IH]; intros buf Hb Hi Hc; [done|]. apply Forall_cons in Hi as [H1 Hi]. cbn [length conf_levels]. rewrite fmap_cons. cbn [concat]. rewrite <- app_assoc.
  destruct (number_read buf i (concat (number_line <$> ids) ++ rest) (fun i buf fi => _ ← Bloom.assert (i <? count); l ← conf_levels (length ids) count buf fi; Done (i :: l))) as (b & _ & Hl & _ & _ & ->);
    [done|lia|]. rewrite (proj2 (Z.ltb_lt _ _)) by lia. cbn [Bloom.assert]. run. by rewrite IH.
Qed.

(** C37: db_load_cm_conf reads from the text of a configuration with at most five
    devices exactly those devices, with their sizes in bytes, and the devices
    of the filters and of the levels.  The comment allows six devices, but the
    text of six fails the assertion on the end of the list. *)
Theorem conf_correct devs bcid ids :
  Forall name_ok devs.*1 -> Forall (fun h => 0 <= h < 2 ^ 64) devs.*2 -> 0 <= bcid < Z.of_nat (length devs) ->
  length ids = DB_NR_LEVELS -> Forall (fun i => 0 <= i < Z.of_nat (length devs)) ids -> (length devs <= NR_MAPS)%nat ->
  db_load_cm_conf junk (conf_text devs bcid ids) = if (length devs <? NR_MAPS)%nat then Done (mkConf devs.*1 (gib <$> devs.*2) bcid ids) else Fault.
Proof using Hjunk.
  intros Hok Hh Hb Hi Hids Hn. unfold db_load_cm_conf, conf_text.
  destruct (conf_devices_spec devs (number_line bcid ++ concat (number_line <$> ids)) NR_MAPS (junk 1024) Hn (Hjunk 1024) Hok Hh ltac:(done)) as (buf & fi & -> & Hl & Hend). run.
  destruct (Nat.ltb_spec (length devs) NR_MAPS) as [Hlt|Hge].
  - rewrite decide_True in Hend by done. destruct Hend as [Hc ->]. rewrite (load_Done _ _ _ Hc). run. cbn [Bloom.assert Z.eqb Pos.eqb]. run. rewrite length_fmap.
    destruct (number_read buf bcid (concat (number_line <$> ids)) (fun b buf fi => _ ← Bloom.assert (b <? Z.of_nat (length devs)); ids ← conf_levels DB_NR_LEVELS (Z.of_nat (length devs)) buf fi;
      Done (mkConf (sized <$> devs).*1 (sized <$> devs).*2 b ids))) as (b & _ & Hlb & _ & _ & ->); [done|unfold NR_MAPS in Hn; lia|].
    rewrite (proj2 (Z.ltb_lt _ _)) by lia. cbn [Bloom.assert]. run. rewrite <- Hi. rewrite <- (app_nil_r (concat _)).
    rewrite conf_levels_spec by (done || (unfold NR_MAPS in Hn; lia)). run. rewrite <- !list_fmap_compose. done.
  - rewrite decide_False in Hend by lia. destruct Hend as (c & Hc & Hne). rewrite (load_Done _ _ _ Hc). run. by rewrite (proj2 (Z.eqb_neq c 36) Hne).
Qed.

(** What a configuration that was read is like. *)
Lemma conf_levels_shape count : forall n buf fi ids, conf_levels n count buf fi = Done ids -> length ids = n.
Proof.
  induction n as [|n IH]; intros buf fi ids E; cbn [conf_levels] in E; [by injection E as <-|]. apply bind_Done_inv in E as (b & _ & E). apply bind_Done_inv in E as ([b' fi'] & _ & E).
  apply bind_Done_inv in E as (i & _ & E). apply bind_Done_inv in E as (? & _ & E). apply bind_Done_inv in E as (l & El & E). injection E as <-. cbn. by rewrite (IH _ _ _ El).
Qed.

Lemma conf_shape text conf : db_load_cm_conf junk text = Done conf -> length (hints conf) = length (raw_fn conf) /\ length (conf_data_id conf) = DB_NR_LEVELS.
Proof.
  unfold db_load_cm_conf. intros E. apply bind_Done_inv in E as ([[devs buf] fi] & _ & E). apply bind_Done_inv in E as (c & _ & E). apply bind_Done_inv in E as (? & _ & E).
  apply bind_Done_inv in E as (b & _ & E). apply bind_Done_inv in E as ([b' fi'] & _ & E). apply bind_Done_inv in E as (bid & _ & E). apply bind_Done_inv in E as (? & _ & E).
  apply bind_Done_inv in E as (l & El & E). injection E as <-. cbn [hints raw_fn conf_data_id]. rewrite !length_fmap. split; [done|by eapply conf_levels_shape].
Qed.
End conf.
