(* ===== verification/DbInv.v ===== *)
(** * The units of the devices and the metadata files

    Every table and every container of filters that the database uses has a
    unit of a device and a metadata file to itself: writing a new one leaves
    the others as they are. *)

From stdpp Require Import gmap.
From S2P Require Import Prelude Bloom BloomPages BloomContainer Mempool Cmap LsmTable LsmMem LsmLookup DbTable Db.
Import Lsm Cmap Db.

(** ** Offsets of units *)

Definition unit_at (off : nat) : Z := Z.of_nat off / CONTAINER_UNIT_SIZE.
Definition aligned (off : nat) : Prop := Z.of_nat off = unit_at off * CONTAINER_UNIT_SIZE.

Lemma unit_bytes_value : Z.of_nat unit_bytes = CONTAINER_UNIT_SIZE.
Proof. unfold unit_bytes, CONTAINER_UNIT_SIZE. rewrite Nat2Z.inj_mul, barrel_value, barrels_value. done. Qed.

Lemma unit_aligned u : 0 <= u -> aligned (Z.to_nat (u * CONTAINER_UNIT_SIZE)) /\ unit_at (Z.to_nat (u * CONTAINER_UNIT_SIZE)) = u.
Proof.
  intros Hu. unfold aligned, unit_at. rewrite Z2Nat.id by (unfold CONTAINER_UNIT_SIZE; lia). rewrite Z.div_mul by done. done.
Qed.

Lemma aligned_apart o off : aligned o -> aligned off -> unit_at o <> unit_at off -> apart o off.
Proof.
  unfold aligned, apart. intros H1 H2 Hne. pose proof unit_bytes_value as HU. set (u := unit_at o) in *. set (v := unit_at off) in *. clearbody u v.
  unfold CONTAINER_UNIT_SIZE in *. lia.
Qed.

(** ** The maps of the devices *)

(** What the database has on disk: units of devices and metadata files. *)
Inductive cell := Unit (d : nat) (u : Z) | File (x : Z).

(** [L] is what is in use. *)
Record devices (db : DB) (L : list cell) : Prop := {
  de_nodup : NoDup L;
  de_maps : forall d cm, cms_dump db !! d = Some cm -> exists U, cm_inv cm U /\
    (nr_units cm = total_cap cm / CONTAINER_UNIT_SIZE /\ total_cap cm < 2 ^ 63) /\ forall u, Unit d u ∈ L -> u ∈ U;
  de_files : forall x, File x ∈ L -> 0 < x < next_mtid db;
  de_next : 0 < next_mtid db < 2 ^ 64 }.

Lemma devices_mono db L L' : NoDup L' -> L' ⊆ L -> devices db L -> devices db L'.
Proof.
  intros Hn Hs [_ H2 H3 H4]. split; [done| | |done].
  - intros d cm Hd. destruct (H2 d cm Hd) as (U & HI & Ht & HU). exists U. split_and!; [done|apply Ht|apply Ht|]. intros u Hu. by apply HU, Hs.
  - intros x Hx. by apply H3, Hs.
Qed.

#[export] Instance devices_perm db : Proper ((≡ₚ) ==> iff) (devices db).
Proof.
  intros L L' Hp. split; intros HD; (eapply devices_mono; [| |exact HD]); [rewrite <- Hp; apply HD|intros x; by rewrite Hp|rewrite Hp; apply HD|intros x; by rewrite Hp].
Qed.

Lemma devices_sub db L L' : L ⊆+ L' -> devices db L' -> devices db L.
Proof.
  intros Hs HD. eapply devices_mono; [|by intros x Hx; eapply elem_of_submseteq|exact HD].
  pose proof (de_nodup _ _ HD) as Hn. apply submseteq_Permutation in Hs as [R E]. rewrite E in Hn. by apply NoDup_app in Hn as [Hn _].
Qed.

Lemma devices_tail db x L : devices db (x :: L) -> devices db L.
Proof. apply devices_sub. by apply submseteq_cons. Qed.

Lemma devices_maps db db' L : cms_dump db' = cms_dump db -> next_mtid db' = next_mtid db -> devices db L -> devices db' L.
Proof. intros E E' [H1 H2 H3 H4]. split; rewrite ?E, ?E'; done. Qed.

(** A number for a file is taken. *)
Lemma devices_number db db' L :
  cms_dump db' = cms_dump db -> next_mtid db' = u64 (next_mtid db + 1) -> next_mtid db + 1 < 2 ^ 64 -> devices db L ->
  devices db' (File (next_mtid db) :: L) /\ next_mtid db' = next_mtid db + 1.
Proof.
  intros E E' Hn [H1 H2 H3 H4]. rewrite u64_small in E' by lia. split; [|done]. split.
  - apply NoDup_cons. split; [|done]. intros Hin. apply H3 in Hin. lia.
  - rewrite E. intros d cm Hd. destruct (H2 d cm Hd) as (U & HI & Ht & HU). exists U. split_and!; [done|apply Ht|apply Ht|]. intros u Hu.
    apply elem_of_cons in Hu as [Hu|Hu]; [done|by apply HU].
  - intros x Hx. apply elem_of_cons in Hx as [Hx|Hx]; [injection Hx as ->; lia|]. apply H3 in Hx. lia.
  - lia.
Qed.

(** What an operation that writes new units leaves alone: [L] are the units
    that others use. *)
Record frame (db db' : DB) (L : list cell) : Prop := {
  fr_vcs : vcs db' = vcs db;
  fr_active0 : active_table0 db' = active_table0 db;
  fr_active1 : active_table1 db' = active_table1 db;
  fr_data : data_id db' = data_id db;
  fr_bc : bc_id db' = bc_id db;
  fr_raws : forall d raw, raws db !! d = Some raw -> exists raw', raws db' !! d = Some raw' /\
    forall off, Unit d (unit_at off) ∈ L -> aligned off -> keeps raw raw' off;
  fr_files : forall x, File x ∈ L -> metafiles db' !! x = metafiles db !! x;
  fr_maps : length (cms_dump db') = length (cms_dump db) }.

Lemma frame_refl db L : frame db db L.
Proof. split; [done..| |done|done]. intros d raw Hr. exists raw. split; [done|]. intros off _ _. apply keeps_refl. Qed.

Lemma frame_trans db1 db2 db3 L L' : L ⊆ L' -> frame db1 db2 L -> frame db2 db3 L' -> frame db1 db3 L.
Proof.
  intros Hs [] []. split; try congruence.
  - intros d raw Hr. destruct (fr_raws0 d raw Hr) as (r2 & H2 & K2). destruct (fr_raws1 d r2 H2) as (r3 & H3 & K3).
    exists r3. split; [done|]. intros off Hin Ha. eapply keeps_trans; [by apply K2|]. apply K3; [by apply Hs|done].
  - intros x Hx. by rewrite fr_files1, fr_files0 by (try apply Hs; done).
Qed.

Lemma frame_mono db db' L L' : L ⊆ L' -> frame db db' L' -> frame db db' L.
Proof. intros Hs HF. apply (frame_trans db db db' L L'); [done|apply frame_refl|done]. Qed.

(** Nothing but the maps, the numbers and the metadata files of others changes. *)
Lemma frame_metas db db' L :
  vcs db' = vcs db -> active_table0 db' = active_table0 db -> active_table1 db' = active_table1 db ->
  data_id db' = data_id db -> bc_id db' = bc_id db -> raws db' = raws db -> length (cms_dump db') = length (cms_dump db) ->
  (forall x, File x ∈ L -> metafiles db' !! x = metafiles db !! x) -> frame db db' L.
Proof. intros H1 H2 H3 H4 H5 H6 H7 H8. split; [done..| |done|done]. rewrite H6. intros d raw Hr. exists raw. split; [done|]. intros off _ _. apply keeps_refl. Qed.

Lemma frame_files db db' L :
  vcs db' = vcs db -> active_table0 db' = active_table0 db -> active_table1 db' = active_table1 db ->
  data_id db' = data_id db -> bc_id db' = bc_id db -> raws db' = raws db -> length (cms_dump db') = length (cms_dump db) ->
  metafiles db' = metafiles db -> frame db db' L.
Proof. intros H1 H2 H3 H4 H5 H6 H7 H8. apply frame_metas; [done..|]. by rewrite H8. Qed.

Lemma with_cm_devices db d cm cm' U' L :
  cms_dump db !! d = Some cm -> devices db L -> cm_inv cm' U' -> nr_units cm' = nr_units cm -> total_cap cm' = total_cap cm ->
  forall L', NoDup L' -> (forall u, Unit d u ∈ L' -> u ∈ U') -> (forall c, c ∈ L' -> c ∈ L \/ exists u, c = Unit d u) -> devices (with_cm db d cm') L'.
Proof.
  intros Hd [_ Hm Hf Hx] HI E1 E2 L' Hn HU Ho. split; [done| | |done].
  - intros d' c Hc. cbn [with_cm cms_dump] in Hc. apply list_lookup_insert_Some in Hc as [(<- & <- & _)|(Hne & Hc)].
    + destruct (Hm d cm Hd) as (U & _ & Ht & _). exists U'. rewrite E1, E2. done.
    + destruct (Hm d' c Hc) as (U & HI' & Ht & HU'). exists U. split_and!; [done|apply Ht|apply Ht|]. intros u Hu.
      destruct (Ho _ Hu) as [Hin|(u' & E)]; [by apply HU'|congruence].
  - intros x Hin. destruct (Ho _ Hin) as [Hin'|(u' & E)]; [by apply Hf|done].
Qed.

Lemma length_with_cm db d cm : length (cms_dump (with_cm db d cm)) = length (cms_dump db).
Proof. apply length_insert. Qed.

Lemma alloc_unit rids : forall db d L db' off,
  devices db L -> db_cmap_safe_alloc rids db d = Done (db', off) ->
  exists u, off = u * CONTAINER_UNIT_SIZE /\ 0 <= u < 2 ^ 38 /\ devices db' (Unit d u :: L) /\ frame db db' L /\
    raws db' = raws db /\ metafiles db' = metafiles db /\ next_mtid db' = next_mtid db.
Proof.
  induction rids as [|rid rids IH]; intros db d L db' off HD E; [done|]. cbn [db_cmap_safe_alloc] in E.
  apply bind_Done_inv in E as (cm & Hcm & E). apply load_Done_inv in Hcm. apply bind_Done_inv in E as ([cm' o] & Ea & E).
  destruct (de_maps _ _ HD _ _ Hcm) as (U & HI & Ht & HU). pose proof (ci_units _ _ HI) as Hu.
  unfold containermap_alloc in Ea. apply bind_Done_inv in Ea as (r & El & Ea). destruct r as [[cm1 o1]|].
  - injection Ea as -> ->. destruct (alloc_loop_fresh cm U rid _ 0 cm' o HI El) as (id & Hid & Hn & -> & HI' & E1 & E2).
    assert (devices (with_cm db d cm') (Unit d id :: L)) as HD'.
    { eapply (with_cm_devices db d cm cm' _ L Hcm HD HI' E1 E2).
      - apply NoDup_cons. split; [|apply HD]. intros Hin. by apply Hn, HU.
      - intros u Hin. apply elem_of_cons in Hin as [Ei|Hin]; [injection Ei as ->; set_solver|]. apply HU in Hin. set_solver.
      - intros c Hin. apply elem_of_cons in Hin as [->|Hin]; [right; by eexists|by left]. }
    destruct (id * CONTAINER_UNIT_SIZE <? total_cap cm).
    + injection E as <- <-. exists id. split; [done|]. split; [lia|]. split; [exact HD'|]. split; [by apply frame_files; try apply length_with_cm|done].
    + destruct (IH _ _ _ _ _ HD' E) as (u & -> & Hu' & HD2 & HF & R1 & R2 & R3). exists u. split; [done|]. split; [done|]. split.
      * apply (devices_tail db' (Unit d id)). by rewrite Permutation_swap.
      * split; [|done]. apply (frame_trans db (with_cm db d cm') db' L (Unit d id :: L)); [by apply list_subseteq_cons|by apply frame_files; try apply length_with_cm|done].
  - injection Ea as <- <-. destruct Ht as [Eu Ht]. rewrite (proj2 (Z.ltb_ge _ _)) in E by (rewrite u64_small; unfold CONTAINER_UNIT_SIZE in *; lia_div).
    assert (with_cm db d cm = db) as Ew by (unfold with_cm; rewrite list_insert_id by done; by destruct db). rewrite Ew in E. by eapply IH.
Qed.

Lemma release_keeps db d u off L db' :
  devices db (Unit d u :: L) -> Z.of_nat off = u * CONTAINER_UNIT_SIZE -> release_unit db d off = Done db' ->
  devices db' L /\ frame db db' L /\ raws db' = raws db /\ metafiles db' = metafiles db /\ next_mtid db' = next_mtid db.
Proof.
  intros HD Ho E. unfold release_unit in E. apply bind_Done_inv in E as (cm & Hcm & E). apply load_Done_inv in Hcm. apply bind_Done_inv in E as (cm' & Er & E).
  injection E as <-. destruct (de_maps _ _ HD _ _ Hcm) as (U & HI & Ht & HU). pose proof (release_spec cm U (Z.of_nat off) HI ltac:(lia)) as Hs.
  case_decide; [|by rewrite Er in Hs]. destruct Hs as (c & Ec & HI' & E1 & E2 & _). rewrite Er in Ec. injection Ec as <-.
  rewrite Ho, Z.div_mul in HI' by done. split; [|split; [by apply frame_files; try apply length_with_cm|done]]. pose proof (de_nodup _ _ HD) as Hn. apply NoDup_cons in Hn as [Hnu Hn].
  eapply (with_cm_devices db d cm cm' _ _ Hcm HD HI' E1 E2); [done| |].
  - intros v Hv. apply elem_of_difference. split; [apply HU; by apply list_elem_of_further|]. intros Hin. apply elem_of_singleton in Hin. by subst v.
  - intros c Hv. left. by apply list_elem_of_further.
Qed.
