(* ===== verification/DbProof.v ===== *)
(** * Writing and reading the containers of the database

    What the containers hold, each as a list of maps with the oldest first,
    and how writing tables and filters changes it. *)

From stdpp Require Import gmap.
From S2P Require Import Prelude Bloom BloomProof BloomTable BloomPages BloomContainer Mempool Cmap LsmTable LsmMem LsmRetain LsmDisk LsmLookup LsmSystem LsmFeed DbTable Db DbInv.
Import Lsm Cmap Db.

Notation kvmap := (gmap (list Z) (list Z)).

Lemma start_bit_level p : (start_bit p / 3 = length p)%nat.
Proof. unfold start_bit. rewrite Nat.mul_comm. by apply Nat.div_mul. Qed.

Lemma nr_barrels_range : (0 < TABLE_NR_BARRELS <= Bloom.TABLE_MAX_BARRELS)%nat.
Proof. pose proof nr_barrels_value. pose proof barrels_value. lia. Qed.

Section db.
Context (SHA1 : list Z -> list Z) `{Qsort} (junk : nat -> list Z).
Hypothesis Hjunk : forall n, length (junk n) = n.
Hypothesis Hsha : forall k, length (SHA1 k) = 20%nat /\ Forall is_u8 (SHA1 k).

(** ** What is on disk *)

Record table_ok (raw : list Z) (mt : MetaTable) (N : kvmap) : Prop := {
  ta_disk : exists bs, on_disk SHA1 bs N mt raw;
  ta_aligned : aligned (mt_off mt);
  ta_small : small_map N;
  ta_bloom : match mt_bt mt with None => True | Some b => bloom_ok SHA1 N b end }.

Definition filters_ok (raw : list Z) (b : Bloom.BloomContainer) (Ns : list kvmap) : Prop :=
  exists tss, stores TABLE_NR_BARRELS tss b raw /\ tables_ok TABLE_NR_BARRELS tss /\ Forall2 (filters_for SHA1) tss Ns /\ aligned (Bloom.off_raw b).

(** The same table with the same filters, which need not be at the same places
    in memory. *)
Definition mt_like (mt mt' : MetaTable) : Prop :=
  exists b', mt' = set_bt mt b' /\
  match mt_bt mt, b' with
  | None, None => True
  | Some b, Some b' => exists fs, table_of fs b /\ table_of fs b' /\ Forall wf fs /\ length fs = TABLE_NR_BARRELS
  | _, _ => False
  end.

(** The metadata file of a table gives it back. *)
Definition saved (files : gmap Z (list Z)) (load_bf : bool) (m : Z * MetaTable) : Prop :=
  exists meta mt', files !! m.1 = Some meta /\ metatable_load junk meta load_bf = Done mt' /\ mt_like m.2 mt'.

Definition saved_bc (files : gmap Z (list Z)) (b : Z * Bloom.BloomContainer) : Prop :=
  exists fi, files !! b.1 = Some fi /\ Bloom.bloomcontainer_load_meta fi = Done (b.2, []).

Definition own_filters {A} (b : option A) : bool := match b with None => true | Some _ => false end.

(** Only the containers of the last level have their filters apart. *)
Record cont_ok (db : DB) (p : list nat) (cc : Container) (Ns : list kvmap) : Prop := {
  co_tables : exists d raw, data_id db !! length p = Some d /\ raws db !! d = Some raw /\ Forall2 (table_ok raw) (snd <$> metatables cc) Ns;
  co_bc : match bc cc with
          | None => length p = 4%nat -> Ns = []
          | Some b => length p = 4%nat /\ saved_bc (metafiles db) b /\ exists raw, raws db !! bc_id db = Some raw /\ filters_ok raw b.2 Ns
          end;
  co_files : Forall (saved (metafiles db) (own_filters (bc cc))) (metatables cc) }.

Definition level (db : DB) (p : list nat) : nat := default O (data_id db !! length p).

Definition bc_unit (db : DB) (b : option (Z * Bloom.BloomContainer)) : list cell :=
  match b with None => [] | Some b => [Unit (bc_id db) (unit_at (Bloom.off_raw b.2)); File b.1] end.

Definition table_cells (d : nat) (mts : list (Z * MetaTable)) : list cell :=
  mts ≫= (fun m => [Unit d (unit_at (mt_off m.2)); File m.1]).

Definition table_units (db : DB) (p : list nat) (mts : list (Z * MetaTable)) : list cell := table_cells (level db p) mts.

Definition units (db : DB) (p : list nat) (cc : Container) : list cell := table_units db p (metatables cc) ++ bc_unit db (bc cc).

Definition live (db : DB) (v : gmap (list nat) Container) : list cell := map_to_list v ≫= (fun pc => units db pc.1 pc.2).

Lemma live_frame db db' v : data_id db' = data_id db -> bc_id db' = bc_id db -> live db' v = live db v.
Proof. intros E1 E2. unfold live, units, table_units, bc_unit, level. by rewrite E1, E2. Qed.

Lemma live_units_eq db db' p cc : data_id db' = data_id db -> bc_id db' = bc_id db -> units db' p cc = units db p cc.
Proof. intros E1 E2. unfold units, table_units, bc_unit, level. by rewrite E1, E2. Qed.

Lemma live_insert db v p cc : v !! p = None -> live db (<[p:=cc]> v) ≡ₚ units db p cc ++ live db v.
Proof. intros Hp. unfold live. by rewrite map_to_list_insert. Qed.

(** Everything but one container. *)
Lemma live_split db v p cc : v !! p = Some cc ->
  exists R, live db v ≡ₚ units db p cc ++ R /\ forall cc', live db (<[p:=cc']> v) ≡ₚ units db p cc' ++ R.
Proof.
  intros Hp. exists (live db (delete p v)). split.
  - rewrite <- (insert_delete_id v p cc Hp) at 1. apply live_insert. apply lookup_delete_eq.
  - intros cc'. rewrite <- insert_delete_eq. apply live_insert. apply lookup_delete_eq.
Qed.

Lemma table_keeps raw raw' mt N : table_ok raw mt N -> keeps raw raw' (mt_off mt) -> table_ok raw' mt N.
Proof. intros [(bs & HD) H1 H2 H3] Hk. split; [|done..]. exists bs. by eapply on_disk_keeps. Qed.

Lemma elem_of_table_cells d mts m : m ∈ mts -> Unit d (unit_at (mt_off m.2)) ∈ table_cells d mts /\ File m.1 ∈ table_cells d mts.
Proof. intros Hm. split; apply list_elem_of_bind; exists m; (split; [|done]); [apply list_elem_of_here|apply list_elem_of_further, list_elem_of_here]. Qed.

Lemma cont_keeps db db' p cc Ns L : cont_ok db p cc Ns -> units db p cc ⊆ L -> frame db db' L -> cont_ok db' p cc Ns.
Proof.
  intros [(d & raw & Hd & Hr & Ht) Hb Hf] Hu [_ _ _ E1 E2 Hk Hm _].
  assert (forall m, m ∈ metatables cc -> Unit d (unit_at (mt_off m.2)) ∈ L /\ File m.1 ∈ L) as Hcell.
  { intros m Hin. apply (elem_of_table_cells d) in Hin as [H1 H2]. unfold units, table_units, level in Hu. rewrite Hd in Hu. cbn [default] in Hu.
    split; apply Hu, elem_of_app; by left. }
  split.
  - destruct (Hk d raw Hr) as (raw' & Hr' & Hkeep). exists d, raw'. rewrite E1. split_and!; [done|done|]. apply Forall2_same_length_lookup_2; [by apply Forall2_length in Ht|].
    intros i mt N Hi HN. pose proof (Forall2_lookup_lr _ _ _ _ _ _ Ht Hi HN) as Hok. eapply table_keeps; [done|]. apply Hkeep; [|apply Hok].
    rewrite list_lookup_fmap in Hi. destruct (metatables cc !! i) as [m|] eqn:Em; [|done]. injection Hi as <-. by apply Hcell, (list_elem_of_lookup_2 _ i).
  - unfold units, bc_unit in Hu. destruct (bc cc) as [[x b]|]; [|done]. destruct Hb as (H4 & (fi & Hfi & Hl) & rb & Hrb & tss & Hs & Hok & Hff & Ha). split; [done|]. split.
    + exists fi. split; [|done]. rewrite Hm; [done|]. apply Hu, elem_of_app. right. apply list_elem_of_further, list_elem_of_here.
    + destruct (Hk _ rb Hrb) as (rb' & Hrb' & Hkeep). exists rb'. rewrite E2. split; [done|]. exists tss. split_and!; [|done..].
      eapply stores_keeps; [done|apply nr_barrels_range|]. apply Hkeep; [|done]. apply Hu, elem_of_app. right. apply list_elem_of_here.
  - apply Forall_forall. intros m Hin. destruct (proj1 (Forall_forall _ _) Hf m Hin) as (meta & mt' & H1 & H2). exists meta, mt'. rewrite Hm; [done|]. by apply Hcell.
Qed.

(** ** Writing *)

Lemma frame_write db d raw raw' L :
  raws db !! d = Some raw -> (forall off, Unit d (unit_at off) ∈ L -> aligned off -> keeps raw raw' off) -> frame db (with_raw db d raw') L.
Proof.
  intros Hr Hk. split; [done..| |done|done]. intros d' r Hr'. cbn [with_raw raws]. destruct (decide (d' = d)) as [->|Hne].
  - rewrite Hr in Hr'. injection Hr' as <-. exists raw'. split; [by apply list_lookup_insert_eq; eapply lookup_lt_Some|done].
  - exists r. rewrite list_lookup_insert_ne by done. split; [done|]. intros off _ _. apply keeps_refl.
Qed.

(** The unit at [u] of device [d] is new. *)
Lemma new_unit_frame db d u raw raw' L :
  NoDup (Unit d u :: L) -> 0 <= u -> raws db !! d = Some raw ->
  (forall o, apart (Z.to_nat (u * CONTAINER_UNIT_SIZE)) o -> keeps raw raw' o) -> frame db (with_raw db d raw') L.
Proof.
  intros Hn Hu Hr Hk. apply frame_write with raw; [done|]. intros off Hin Ha. apply Hk. destruct (unit_aligned u Hu) as [A1 A2].
  apply aligned_apart; [done|done|]. rewrite A2. intros ->. by apply NoDup_cons in Hn as [Hn _].
Qed.

(** What is known of a table that was dumped. *)
Record dumped (db' : DB) (d : nat) (u : Z) (x : Z) (M : kvmap) (b : Bloom.BloomTable) (mt : MetaTable) : Prop := {
  du_table : exists raw, raws db' !! d = Some raw /\ table_ok raw mt M;
  du_unit : unit_at (mt_off mt) = u;
  du_none : mt_bt mt = None;
  du_filters : exists fs, table_of fs b /\ Forall wf fs /\ length fs = TABLE_NR_BARRELS /\ filters_for SHA1 fs M;
  du_bloom : bloom_ok SHA1 M b;
  du_without : saved (metafiles db') false (x, mt);
  du_with : saved (metafiles db') true (x, set_bt mt (Some b)) }.

(** A new file is written. *)
Lemma new_file_frame db x meta L : NoDup (File x :: L) -> frame db (with_metas db (<[x:=meta]> (metafiles db))) L.
Proof.
  intros Hn. apply frame_metas; [done..|]. intros y Hy. cbn [with_metas metafiles]. rewrite lookup_insert_ne; [done|]. intros ->. by apply NoDup_cons in Hn as [Hn _].
Qed.

Lemma table_dump_spec rids db t0 M t p db' t' mtid mt L :
  devices db L -> next_mtid db + 1 < 2 ^ 64 -> mem_inv SHA1 t0 M -> small_map M -> table_build_bloomtable junk t0 = Done t ->
  db_table_dump rids db t p = Done (db', t', mtid) -> db_load_metatable junk db' mtid false = Done mt ->
  exists d u b, data_id db !! length p = Some d /\ devices db' (Unit d u :: File mtid :: L) /\ frame db db' L /\ next_mtid db' = next_mtid db + 1 /\
    bt t = Some b /\ bt t' = Some b /\ dumped db' d u mtid M b mt.
Proof using Hjunk Hsha.
  intros HD Hnx HI Hsm Eb E El. unfold db_table_dump, db_aquire_mtid in E. apply bind_Done_inv in E as (? & _ & E). apply bind_Done_inv in E as ([t1 rr] & Er & E).
  apply bind_Done_inv in E as (? & Ea & E). apply assert_Done in Ea as ->. apply bind_Done_inv in E as (d & Hd & E). apply load_Done_inv in Hd. cbn [data_id] in Hd.
  rewrite start_bit_level in Hd. set (db0 := mkDB _ _ _ _ _ _ _ _ _) in E. apply bind_Done_inv in E as ([db1 off] & E1 & E).
  destruct (devices_number db db0 L eq_refl eq_refl Hnx HD) as [HD0 Enx].
  destruct (alloc_unit _ _ _ _ _ _ HD0 E1) as (u & -> & Hu & HD1 & HF & R1 & R2 & R3).
  apply bind_Done_inv in E as (raw & Hraw & E). apply load_Done_inv in Hraw. apply bind_Done_inv in E as ([[t2 raw'] n] & Ed & E).
  apply bind_Done_inv in E as (meta & Em & E). injection E as <- <- <-. set (nx := next_mtid db) in *.
  unfold db_load_metatable in El. cbn [with_metas metafiles] in El. rewrite lookup_insert_eq in El.
  destruct (unit_aligned u ltac:(lia)) as [A1 A2].
  destruct (table_written SHA1 junk Hjunk Hsha t0 M t t1 raw (Z.to_nat (u * CONTAINER_UNIT_SIZE)) t2 raw' n meta mt HI Hsm)
    as (Hon & Eoff & Ebt & Hk & fs & b & B1 & B2 & Htb & Hwf & Hlf & Hff & Hbo & b' & Hl' & Ht'); [rewrite Z2Nat.id; unfold CONTAINER_UNIT_SIZE; lia|done..|].
  pose proof (de_nodup _ _ HD1) as Hnd. assert (NoDup (Unit d u :: L)) as Hnd' by (rewrite Permutation_swap in Hnd; by apply NoDup_cons in Hnd as [_ Hnd]).
  exists d, u, b. split_and!; [done|by apply (devices_maps db1)| |by rewrite <- Enx, <- R3|done|done|].
  - apply (frame_trans db db0 _ L L); [done|by apply frame_files|]. apply (frame_trans db0 db1 _ L L); [done|eapply frame_mono; [|exact HF]; by apply list_subseteq_cons|].
    apply (frame_trans _ (with_raw db1 d raw') _ L L); [done| |apply (new_file_frame (with_raw db1 d raw')); by apply NoDup_cons in Hnd as [_ Hnd]].
    by apply (new_unit_frame db1 d u raw); [|lia|..].
  - split; [|by rewrite Eoff|done|by exists fs|done|..]. 
    + exists raw'. split; [cbn; apply list_lookup_insert_eq; by eapply lookup_lt_Some|]. split; [done|by rewrite Eoff|done|by rewrite Ebt].
    + exists meta, mt. cbn [with_metas metafiles fst snd]. rewrite lookup_insert_eq. split_and!; [done|done|]. exists None. rewrite Ebt. split; [|done]. destruct mt. cbn in *. by subst.
    + eexists meta, _. cbn [with_metas metafiles fst snd]. rewrite lookup_insert_eq. split_and!; [done|exact Hl'|]. exists (Some b'). split; [done|]. by exists fs.
Qed.

Lemma table_set_bt raw mt N b : table_ok raw mt N -> bloom_ok SHA1 N b -> table_ok raw (set_bt mt (Some b)) N.
Proof. intros [(bs & [H1 H2 H3 H4 H5]) A1 A2 _] Hb. split; [|done..]. exists bs. by split. Qed.

(** A container of filters was built or extended. *)
Lemma update_bc_spec rids db ob b fs M Ns db' nb L :
  devices db L -> next_mtid db + 1 < 2 ^ 64 -> table_of fs b -> Forall wf fs -> length fs = TABLE_NR_BARRELS -> filters_for SHA1 fs M -> (length Ns < 64)%nat ->
  match ob with None => Ns = [] | Some o => exists raw, raws db !! bc_id db = Some raw /\ filters_ok raw o.2 Ns end ->
  compaction_update_bc rids db ob b = Done (db', nb) ->
  devices db' (bc_unit db (Some nb) ++ L) /\ frame db db' L /\ next_mtid db' = next_mtid db + 1 /\ saved_bc (metafiles db') nb /\
  exists raw', raws db' !! bc_id db = Some raw' /\ filters_ok raw' nb.2 (Ns ++ [M]).
Proof.
  intros HD Hnx Ht Hw Hl Hf H64 Hold E. unfold compaction_update_bc, db_aquire_mtid in E. apply bind_Done_inv in E as ([db1 off] & E1 & E).
  destruct (alloc_unit _ _ _ _ _ _ HD E1) as (u & -> & Hu & HD1 & HF & R1 & R2 & R3). pose proof (fr_bc _ _ _ HF) as Ebc. cbn [raws bc_id] in E. rewrite Ebc in E.
  apply bind_Done_inv in E as (raw & Hraw & E). apply load_Done_inv in Hraw. apply bind_Done_inv in E as ([[nb1 raw'] n] & Eb & E).
  apply bind_Done_inv in E as (? & _ & E). apply bind_Done_inv in E as (data & Edata & E). injection E as <- <-. cbn [fst snd].
  destruct (unit_aligned u ltac:(lia)) as [A1 A2]. pose proof nr_barrels_range as Hn. set (db2 := mkDB _ _ _ _ _ _ _ _ _).
  destruct (devices_number db1 db2 _ eq_refl eq_refl ltac:(lia) HD1) as [HD2 Enx]. rewrite R3 in *. set (nx := next_mtid db) in *.
  assert (filters_ok raw' nb1 (Ns ++ [M]) /\ Bloom.off_raw nb1 = Z.to_nat (u * CONTAINER_UNIT_SIZE) /\
    exists data, raw' = Bloom.pwrite raw data (Z.to_nat (u * CONTAINER_UNIT_SIZE)) /\ (length data <= Bloom.BARREL_ALIGN * TABLE_NR_BARRELS)%nat) as (Hok & Eo & dat & Ew & Hlen).
  { destruct ob as [[y o]|].
    - destruct Hold as (raw0 & Hr0 & tss & Hs & Htk & Hff & Ha). rewrite R1, Hr0 in Hraw. injection Hraw as ->.
      destruct (update_kept TABLE_NR_BARRELS Hn tss fs o b raw raw _ 0 nb1 raw' n Hs Htk ltac:(rewrite (Forall2_length _ _ _ Hff); lia) Ht Hw Hl Eb) as (K1 & K2 & K3 & K4).
      split; [|done]. exists (tss ++ [fs]). split_and!; [done|done|by apply Forall2_app; [|constructor]|by rewrite K3].
    - subst Ns. destruct (build_kept TABLE_NR_BARRELS Hn fs b raw _ 0 nb1 raw' n Ht Hw Hl Eb) as (K1 & K2 & K3 & K4).
      split; [|done]. exists [fs]. split_and!; [done|done|by constructor|by rewrite K3]. }
  unfold bc_unit. cbn [fst snd app]. rewrite Eo, A2. split; [by rewrite Permutation_swap; apply (devices_maps db2)|]. pose proof (de_nodup _ _ HD2) as Hnd.
  assert (NoDup (File nx :: L)) as Hnd' by (rewrite Permutation_swap in Hnd; by apply NoDup_cons in Hnd as [_ Hnd]). split.
  { apply (frame_trans db db1 _ L L); [done|done|]. apply (frame_trans _ db2 _ L L); [done|by apply frame_files|].
    apply (frame_trans _ (with_raw db2 (bc_id db) raw') _ L L); [done| |by apply (new_file_frame (with_raw db2 (bc_id db) raw'))].
    apply (new_unit_frame db2 (bc_id db) u raw); [apply HD1|lia|done|]. intros o Ho. rewrite Ew. apply pwrite_keeps; [|done].
    unfold unit_bytes. pose proof (Nat.mul_le_mono_l TABLE_NR_BARRELS Bloom.TABLE_MAX_BARRELS Bloom.BARREL_ALIGN ltac:(lia)). lia. }
  split; [done|]. split.
  - exists data. cbn [with_metas metafiles fst snd]. rewrite lookup_insert_eq. split; [done|]. destruct Hok as (tss & Hs & Hk & _).
    destruct (meta_roundtrip TABLE_NR_BARRELS tss nb1 raw' [] [] Hs Hk) as (data' & D1 & D2); [rewrite Eo, Z2Nat.id; unfold CONTAINER_UNIT_SIZE; lia|].
    rewrite Edata in D1. injection D1 as ->. by rewrite app_nil_r in D2.
  - exists raw'. split; [|done]. cbn. apply list_lookup_insert_eq. by eapply lookup_lt_Some.
Qed.

(** A table is appended to a container. *)
Lemma cont_add db p cc Ns m b M d raw :
  cont_ok db p cc Ns -> data_id db !! length p = Some d -> raws db !! d = Some raw -> table_ok raw m.2 M -> saved (metafiles db) (own_filters b) m ->
  match b with
  | None => length p <> 4%nat
  | Some nb => length p = 4%nat /\ saved_bc (metafiles db) nb /\ exists raw, raws db !! bc_id db = Some raw /\ filters_ok raw nb.2 (Ns ++ [M])
  end -> cont_ok db p (mkCC b (metatables cc ++ [m])) (Ns ++ [M]).
Proof.
  intros [(d' & raw' & Hd & Hr & Ht) Hbc Hf] Hd' Hr' Hm Hsv Hb. rewrite Hd in Hd'. injection Hd' as ->. rewrite Hr in Hr'. injection Hr' as ->. split; cbn [metatables bc].
  - exists d, raw. split_and!; [done|done|]. rewrite fmap_app. apply Forall2_app; [done|by constructor].
  - destruct b as [nb|]; [done|]. by intros H4.
  - apply Forall_app. split; [|by apply Forall_singleton]. destruct b as [nb|], (bc cc) as [ob|]; cbn [own_filters] in *; [done| | |done].
    + destruct Hb as [H4 _]. rewrite (Hbc H4) in Ht. apply Forall2_nil_inv_r, fmap_nil_inv in Ht. rewrite Ht. constructor.
    + by destruct Hbc.
Qed.

(** A table that was built from [t0] holds [M]. *)
Definition built (t : Table) (M : kvmap) : Prop := exists t0, mem_inv SHA1 t0 M /\ small_map M /\ table_build_bloomtable junk t0 = Done t.

Lemma gen_bc_level path i : (length path < 4)%nat -> gen_bc path = bool_decide (length (path ++ [i]) = 4%nat).
Proof.
  intros Hp. unfold gen_bc, start_bit, BC_START_BIT. rewrite length_app. cbn [length]. case_bool_decide; [apply Nat.leb_le|apply Nat.leb_gt]; lia.
Qed.

Lemma units_add db p cc m b :
  units db p (mkCC b (metatables cc ++ [m])) ≡ₚ (Unit (level db p) (unit_at (mt_off m.2)) :: File m.1 :: bc_unit db b) ++ table_units db p (metatables cc).
Proof.
  unfold units, table_units, table_cells. cbn [metatables bc]. rewrite bind_app, <- app_assoc. rewrite Permutation_app_comm. done.
Qed.

(** One of the new tables goes to disk, and its filters to those of the child. *)
Lemma dump_child rids db path i t M cc Ns L r :
  devices db L -> next_mtid db + 2 < 2 ^ 64 -> built t M -> (length path < 4)%nat -> vcs db !! (path ++ [i]) = Some cc -> cont_ok db (path ++ [i]) cc Ns -> units db (path ++ [i]) cc ⊆ L -> (length Ns < 64)%nat ->
  (r ← compaction_dump junk rids.1 db path i t; let '(db, mt) := r in
   r ← (if gen_bc path then
          match bt t with
          | None => Fault
          | Some b => r ← compaction_update_bc rids.2 db (old_bc db (path ++ [i])) b; let '(db, b) := r in Done (db, Some b)
          end
        else Done (db, None)); let '(db, b) := r in Done (db, mt, b)) = Done r ->
  let '(db', m, b) := r in
  devices db' ((Unit (level db (path ++ [i])) (unit_at (mt_off m.2)) :: File m.1 :: bc_unit db b) ++ L) /\ frame db db' L /\ next_mtid db' <= next_mtid db + 2 /\
  cont_ok db' (path ++ [i]) (mkCC b (metatables cc ++ [m])) (Ns ++ [M]).
Proof using Hjunk Hsha.
  intros HD Hnx (t0 & HI & Hsm & Eb) Hp Hcc Hco Hun H64 E. set (q := path ++ [i]) in *. apply bind_Done_inv in E as ([db1 m] & E1 & E). unfold compaction_dump in E1.
  apply bind_Done_inv in E1 as ([[db2 t'] mtid] & E2 & E1). apply bind_Done_inv in E1 as (mt & El & E1). apply bind_Done_inv in E1 as (? & _ & E1). injection E1 as <- <-.
  destruct (table_dump_spec rids.1 db t0 M t q db2 t' mtid mt L HD ltac:(lia) HI Hsm Eb E2 El) as (d & u & b & Hd & HD2 & HF2 & Hn2 & B1 & B2 & [(raw & Hr & Hta) Hu _ (fs & F1 & F2 & F3 & F4) Hbl Hs0 Hs1]).
  assert (level db q = d) as Elev by (unfold level; by rewrite Hd). pose proof (cont_keeps _ _ _ _ _ _ Hco Hun HF2) as Hco2.
  pose proof (gen_bc_level path i Hp) as Eg. rewrite B1 in E. rewrite Eg in E.
  assert (data_id db2 !! length q = Some d) as Hd2 by (by rewrite (fr_data _ _ _ HF2)). case_bool_decide as H4.
  - apply bind_Done_inv in E as ([db3 ob] & E3 & E). injection E as <-. apply bind_Done_inv in E3 as ([db4 nb] & E3 & E4). injection E4 as <- <-.
    destruct (update_bc_spec rids.2 db2 (old_bc db2 q) b fs M Ns db4 nb (Unit d u :: File mtid :: L) HD2 ltac:(lia) F1 F2 F3 F4 H64) as (HD4 & HF4 & Hn4 & Hsb & raw4 & Hr4 & Hok4); [|done|].
    { unfold old_bc. rewrite (fr_vcs _ _ _ HF2), Hcc. cbn [mbind option_bind]. destruct Hco2 as [_ Hbc _]. destruct (bc cc) as [o|]; [by destruct Hbc as (_ & _ & ?)|by apply Hbc]. }
    unfold bc_unit in *. rewrite (fr_bc _ _ _ HF2) in HD4, Hr4. cbn [fst snd]. rewrite Elev, Hu. split; [|split; [|split; [lia|]]].
    + eapply devices_perm; [|exact HD4]. cbn [app]. rewrite !(Permutation_swap _ (Unit (bc_id db) _)). by rewrite !(Permutation_swap _ (File nb.1)).
    + apply (frame_trans db db2 db4 L L); [done|done|]. eapply frame_mono; [|exact HF4]. by do 2 apply list_subseteq_cons.
    + destruct (fr_raws _ _ _ HF4 d raw Hr) as (raw5 & Hr5 & Hk5). apply (cont_add db4 q cc Ns (mtid, mt) (Some nb) M d raw5); [| |done| | |].
      * eapply (cont_keeps db2 db4 q cc Ns _); [done| |exact HF4]. rewrite (live_units_eq db db2) by apply HF2. by do 2 apply list_subseteq_cons.
      * by rewrite (fr_data _ _ _ HF4).
      * eapply table_keeps; [exact Hta|]. apply Hk5; [cbn [snd]; rewrite Hu; apply list_elem_of_here|apply Hta].
      * destruct Hs0 as (meta & mt' & M1 & M2). exists meta, mt'. rewrite (fr_files _ _ _ HF4); [done|apply list_elem_of_further, list_elem_of_here].
      * split; [done|]. split; [done|]. exists raw4. by rewrite (fr_bc _ _ _ HF4), (fr_bc _ _ _ HF2).
  - cbn [mbind exec_bind] in E. injection E as <-. cbn [fst snd set_bt mt_off bc_unit app]. rewrite Elev, Hu. split; [done|]. split; [done|]. split; [lia|].
    apply (cont_add db2 q cc Ns _ None M d raw); [done|done|done|cbn; rewrite B2; by apply table_set_bt|by rewrite B2|done].
Qed.

(** What new tables and filters for the children of [path] take. *)
Definition new_units (db : DB) (path : list nat) (l : list ((Z * MetaTable) * option (Z * Bloom.BloomContainer))) : list cell :=
  l ≫= (fun e => Unit (level db (path ++ [O])) (unit_at (mt_off e.1.2)) :: File e.1.1 :: bc_unit db e.2).

Lemma level_child db path i : level db (path ++ [i]) = level db (path ++ [O]).
Proof. unfold level. by rewrite !length_app. Qed.

Lemma new_units_eq db db' path l : data_id db' = data_id db -> bc_id db' = bc_id db -> new_units db' path l = new_units db path l.
Proof. intros E1 E2. unfold new_units, level, bc_unit. by rewrite E1, E2. Qed.

(** The children from [i] on, before their tables arrive. *)
Definition waiting (db : DB) (V : list nat -> list kvmap) (L : list cell) (path : list nat) (i n : nat) : Prop :=
  forall j, (i <= j < i + n)%nat -> exists cc, vcs db !! (path ++ [j]) = Some cc /\ cont_ok db (path ++ [j]) cc (V (path ++ [j])) /\
    units db (path ++ [j]) cc ⊆ L /\ (length (V (path ++ [j])) < 64)%nat.

Lemma waiting_frame db db' V L path i n L' : L ⊆ L' -> frame db db' L -> waiting db V L path i (S n) -> waiting db' V L' path (S i) n.
Proof.
  intros Hs HF Hw j Hj. destruct (Hw j ltac:(lia)) as (cc & H1 & H2 & H3 & H4). exists cc. rewrite (fr_vcs _ _ _ HF). split_and!; [done| | |done].
  - by eapply cont_keeps.
  - rewrite (live_units_eq db db') by apply HF. by etrans.
Qed.

Lemma dump_all_spec rids path V ts : forall Ms i db L db' l,
  devices db L -> next_mtid db + 2 * Z.of_nat (length ts) < 2 ^ 64 -> Forall2 built ts Ms -> (length path < 4)%nat -> waiting db V L path i (length ts) ->
  compaction_dump_and_bc_all junk rids db path i ts = Done (db', l) ->
  devices db' (new_units db path l ++ L) /\ frame db db' L /\ next_mtid db' <= next_mtid db + 2 * Z.of_nat (length ts) /\ length l = length ts /\
  forall j m b M cc, l !! j = Some (m, b) -> Ms !! j = Some M -> vcs db !! (path ++ [(i + j)%nat]) = Some cc ->
    cont_ok db' (path ++ [(i + j)%nat]) (mkCC b (metatables cc ++ [m])) (V (path ++ [(i + j)%nat]) ++ [M]).
Proof using Hjunk Hsha.
  induction ts as [|t ts IH]; intros Ms i db L db' l HD Hnx Hb Hp Hw E; cbn [compaction_dump_and_bc_all] in E.
  { injection E as <- <-. split_and!; [done|apply frame_refl|cbn; lia|done|done]. }
  apply Forall2_cons_inv_l in Hb as (M & Ms' & Ht & Hts & ->). destruct (Hw i ltac:(cbn [length]; lia)) as (cc & Hcc & Hco & Hun & H64).
  apply bind_Done_inv in E as ([db1 m] & E1 & E). apply bind_Done_inv in E as ([db2 b] & E2 & E). apply bind_Done_inv in E as ([db3 l'] & E3 & E). injection E as <- <-.
  cbn [length] in Hnx. rewrite Nat2Z.inj_succ in Hnx.
  destruct (dump_child (rids i) db path i t M cc (V (path ++ [i])) L (db2, m, b) HD ltac:(lia) Ht Hp Hcc Hco Hun H64) as (HD2 & HF2 & Hn2 & Hc2); [by rewrite E1; run; rewrite E2|].
  rewrite level_child in HD2. set (C := Unit _ _ :: File _ :: bc_unit db b) in HD2. assert (L ⊆ C ++ L) as HL by (by apply list_subseteq_app_r).
  destruct (IH Ms' (S i) db2 (C ++ L) db3 l' HD2 ltac:(lia) Hts Hp) as (HD3 & HF3 & Hn3 & Hl & Hall); [by eapply waiting_frame|done|].
  rewrite (new_units_eq db db2) in HD3 by apply HF2. split_and!.
  - unfold new_units. cbn [mbind list_bind]. cbn [fst snd]. fold (new_units db path l'). fold C. eapply devices_perm; [|exact HD3].
    rewrite <- app_assoc. symmetry. apply Permutation_app_swap_app.
  - by apply (frame_trans db db2 db3 L (C ++ L)).
  - cbn [length]. lia.
  - cbn [length]. lia.
  - intros [|j] m' b' M' cc' Hl' HM' Hcc'.
    + rewrite Nat.add_0_r in *. injection Hl' as <- <-. injection HM' as <-. rewrite Hcc in Hcc'. injection Hcc' as <-.
      eapply cont_keeps; [exact Hc2| |exact HF3]. rewrite (live_units_eq db db2) by apply HF2. intros c. rewrite units_add, level_child. fold C.
      rewrite !elem_of_app. intros [Hc|Hc]; [by left|]. right. apply Hun. unfold units. apply elem_of_app. by left.
    + rewrite <- Nat.add_succ_comm in *. eapply Hall; [done|done|]. by rewrite (fr_vcs _ _ _ HF2).
Qed.
End db.
