(* ===== verification/DbText.v ===== *)
(** * What is saved is loaded

    recursive_parse reads the text of recursive_dump as the same tree of
    containers, with the tables and filters that the metadata files give. *)

From stdpp Require Import gmap.
From S2P Require Import Prelude Bloom BloomTable Mempool Cmap LsmTable Stdio DbTable Db DbMeta DbInv DbProof.
Import Lsm Cmap Db DbMeta.

Section text.
Context `{Qsort} (junk : nat -> list Z) (Hjunk : forall n, length (junk n) = n).
Context (db : DB) (v : gmap (list nat) Container).

(** A table and the one that is loaded in its place. *)
Definition reloaded (load_bf : bool) (m m' : Z * MetaTable) : Prop :=
  m'.1 = m.1 /\ mt_like m.2 m'.2 /\ exists meta, metafiles db !! m.1 = Some meta /\ metatable_load junk meta load_bf = Done m'.2.

Definition cc_like (cc cc' : Container) : Prop := bc cc' = bc cc /\ Forall2 (reloaded (own_filters (bc cc))) (metatables cc) (metatables cc').

Definition same_cc (o o' : option Container) : Prop :=
  match o, o' with None, None => True | Some cc, Some cc' => cc_like cc cc' | _, _ => False end.

(** [db] has the files that the containers [v] need. *)
Record readable : Prop := {
  rd_closed : forall p i, is_Some (v !! (p ++ [i])) -> is_Some (v !! p) /\ (length p < 4)%nat /\ (i < 8)%nat;
  rd_levels : forall n, (n < 5)%nat -> is_Some (data_id db !! n);
  rd_count : forall p cc, v !! p = Some cc -> (length (metatables cc) <= DB_CONTAINER_NR)%nat;
  rd_tables : forall p cc, v !! p = Some cc -> Forall (fun m => 0 <= m.1 < 2 ^ 64 /\ saved junk (metafiles db) (own_filters (bc cc)) m) (metatables cc);
  rd_filters : forall p cc b, v !! p = Some cc -> bc cc = Some b -> 0 <= b.1 < 2 ^ 64 /\ saved_bc (metafiles db) b }.
Hypothesis Hrd : readable.

(** The line that closes the list of tables. *)
Definition close_line (b : option (Z * Bloom.BloomContainer)) : list Z :=
  match b with None => [62] | Some b => [62; 33] ++ fmt_016lx b.1 end.

Lemma close_line_eq b rest : dump_bc_close b ++ rest = close_line b ++ 10 :: rest.
Proof. destruct b as [[x c]|]; [|done]. unfold dump_bc_close, close_line, newline. cbn [fst]. rewrite <- !app_assoc. done. Qed.

Lemma close_line_spec b : match b with None => True | Some b => 0 <= b.1 < 2 ^ 64 end ->
  (length (close_line b) <= 18)%nat /\ Forall (fun c => c <> 10) (close_line b).
Proof.
  destruct b as [[x c]|]; intros Hx; [|by split; [cbn; lia|repeat constructor]]. destruct (fmt_016lx_spec x Hx) as (Hp & Hl & _). unfold close_line. cbn [fst app length].
  split; [lia|]. do 2 (constructor; [done|]). by apply (plain_no_newline 16).
Qed.

(** The list of tables, and the state of the buffer behind it. *)
Lemma parse_tables_spec p b mts load_bf rest : forall n buf,
  (length mts <= n)%nat -> (length p < 5)%nat -> length buf = 128%nat -> (n = 0%nat -> exists c, buf !! 0%nat = Some c /\ c <> 62) ->
  Forall (fun m => 0 <= m.1 < 2 ^ 64 /\ saved junk (metafiles db) load_bf m) mts -> match b with None => True | Some b => 0 <= b.1 < 2 ^ 64 end ->
  exists mts' buf' input', parse_tables junk n db p load_bf buf (dump_ids mts ++ close_line b ++ 10 :: rest) = Done (mts', buf', input') /\
    Forall2 (reloaded load_bf) mts mts' /\ length buf' = 128%nat /\
    ((exists tl, buf' = close_line b ++ 10 :: 0 :: tl /\ input' = rest) \/ (exists c, buf' !! 0%nat = Some c /\ c <> 62 /\ input' = close_line b ++ 10 :: rest)).
Proof using Hrd.
  induction mts as [|m mts IH]; intros n buf Hn Hp Hb Hc Hf Hx; destruct (close_line_spec b Hx) as [Hcl Hcn].
  - destruct n as [|n]; cbn [parse_tables dump_ids fmap list_fmap concat app].
    + destruct (Hc eq_refl) as (c & H1 & H2). exists [], buf, (close_line b ++ 10 :: rest). split_and!; [done|constructor|done|]. right. by exists c.
    + destruct (fgets_line buf 28 (close_line b) rest) as (tl & -> & Hl); [lia|lia|done|]. run.
      assert (load (close_line b ++ 10 :: 0 :: tl) 0 = Done 62) as -> by (destruct b; reflexivity). run. cbn [Z.eqb Pos.eqb]. eexists [], _, rest.
      split_and!; [done|constructor|by rewrite Hl|]. left. by exists tl.
  - apply Forall_cons in Hf as [[Hm (meta & mt' & Hfi & Hld & Hlk)] Hf']. cbn [length] in Hn. destruct n as [|n]; [lia|]. cbn [parse_tables].
    destruct (fmt_016lx_spec m.1 Hm) as (Hpl & Hl & Hval). pose proof (plain_no_newline 16 _ ltac:(done) Hpl) as Hnn.
    assert (dump_ids (m :: mts) ++ close_line b ++ 10 :: rest = fmt_016lx m.1 ++ 10 :: dump_ids mts ++ close_line b ++ 10 :: rest) as ->
      by (unfold dump_ids, newline; rewrite fmap_cons; cbn [concat]; by rewrite <- !app_assoc).
    destruct (fgets_line buf 28 (fmt_016lx m.1) (dump_ids mts ++ close_line b ++ 10 :: rest)) as (tl & -> & Hlb); [lia|lia|done|]. run.
    destruct (fmt_016lx m.1) as [|c ds] eqn:Ed; [done|]. cbn [app]. assert (load (c :: ds ++ 10 :: 0 :: tl) 0 = Done c) as -> by reflexivity. run.
    inversion_clear Hpl as [|?? Hc0 _]. assert (c <> 62) as Hne by (unfold plain in Hc0; lia). rewrite (proj2 (Z.eqb_neq c 62) Hne). cbn [app] in Hval. rewrite Hval. run.
    destruct (rd_levels Hrd (length p) Hp) as [d Hd]. rewrite start_bit_level, (load_Done _ _ _ Hd). run. unfold db_load_metatable. rewrite Hfi, Hld. run.
    destruct (IH n (c :: ds ++ 10 :: 0 :: tl)) as (mts' & buf' & input' & -> & H1 & H2 & H3); [lia|done|by rewrite <- Hb, <- Hlb|by exists c|done|done|]. run.
    eexists _, buf', input'. split; [done|]. split; [constructor; [|done]|done]. split; [done|]. split; [done|]. by exists meta.
Qed.

(** The text of a container, its children apart. *)
Definition head_text (p : list nat) (cc : Container) : list Z :=
  [91; 32] ++ fmt_lu (Z.of_nat (start_bit p)) ++ newline ++ dump_bc_open (bc cc) ++ dump_ids (metatables cc) ++ dump_bc_close (bc cc).

Lemma parse_head p cc w tail_ pf : v !! p = Some cc -> (length p < 5)%nat ->
  exists cc' buf, cc_like cc cc' /\ length buf = 128%nat /\
    recursive_parse junk (S pf) db p w (head_text p cc ++ tail_) =
      (r ← parse_subs (recursive_parse junk pf db) p 0 8 (<[p:=cc']> w) tail_; let '(w, input) := r in
       r ← fgets buf 28 input; let '(buf, input) := r in
       c0 ← load buf 0; _ ← Bloom.assert (c0 =? 93); Done (w, input)).
Proof using Hrd Hjunk.
  intros Hcc Hp. pose proof (rd_count Hrd p cc Hcc) as Hn. pose proof (rd_tables Hrd p cc Hcc) as Ht. pose proof (fun b => rd_filters Hrd p cc b Hcc) as Hb.
  destruct (fmt_lu_spec (Z.of_nat (start_bit p))) as (Hpl & Hl & _); [unfold start_bit; lia|]. pose proof (plain_no_newline 10 _ ltac:(done) Hpl) as Hnn.
  assert (match bc cc with None => True | Some b => 0 <= b.1 < 2 ^ 64 end) as Hx by (destruct (bc cc) as [b|]; [by apply Hb|done]).
  assert (head_text p cc ++ tail_ = (([91; 32] ++ fmt_lu (Z.of_nat (start_bit p))) ++ 10 :: (match bc cc with Some _ => [60; 33] | None => [60] end) ++ 10 ::
    dump_ids (metatables cc) ++ close_line (bc cc) ++ 10 :: tail_)) as ->.
  { unfold head_text, newline. rewrite <- close_line_eq. destruct (bc cc); cbn [dump_bc_open]; unfold newline; rewrite <- !app_assoc; done. }
  cbn [recursive_parse].
  destruct (fgets_line (junk 128) 120 ([91; 32] ++ fmt_lu (Z.of_nat (start_bit p))) ((match bc cc with Some _ => [60; 33] | None => [60] end) ++ 10 ::
    dump_ids (metatables cc) ++ close_line (bc cc) ++ 10 :: tail_)) as (tl & -> & Hlb);
    [cbn [app length]; lia|rewrite Hjunk; cbn [app length]; lia|by cbn [app]; do 2 (constructor; [done|])|]. rewrite Hjunk in Hlb. run.
  set (buf1 := ([91; 32] ++ fmt_lu (Z.of_nat (start_bit p))) ++ 10 :: 0 :: tl) in *. assert (load buf1 0 = Done 91) as -> by reflexivity. run. cbn [Bloom.assert Z.eqb Pos.eqb]. run.
  assert (load buf1 1 = Done 32) as -> by reflexivity. run. cbn [Z.eqb].
  destruct (fgets_line buf1 28 (match bc cc with Some _ => [60; 33] | None => [60] end) (dump_ids (metatables cc) ++ close_line (bc cc) ++ 10 :: tail_)) as (tl2 & -> & Hlb2);
    [destruct (bc cc); cbn; lia|rewrite Hlb; destruct (bc cc); cbn; lia|destruct (bc cc); repeat constructor; done|]. rewrite Hlb in Hlb2. run.
  set (buf2 := _ ++ 10 :: 0 :: tl2) in *. assert (load buf2 0 = Done 60) as -> by (unfold buf2; destruct (bc cc); reflexivity). run. cbn [Bloom.assert Z.eqb Pos.eqb]. run.
  assert (exists c, load buf2 1 = Done c /\ negb (c =? 33) = own_filters (bc cc)) as (c & -> & Ec) by (unfold buf2; destruct (bc cc); by eexists). run. rewrite Ec.
  destruct (parse_tables_spec p (bc cc) (metatables cc) (own_filters (bc cc)) tail_ DB_CONTAINER_NR buf2 Hn Hp Hlb2 ltac:(done) Ht Hx) as (mts' & buf3 & input3 & -> & Hlk & Hlb3 & Hend). run.
  assert (exists c tl3, load buf3 0 = Done c /\ length (close_line (bc cc) ++ 10 :: 0 :: tl3) = 128%nat /\
    (if c =? 62 then Done (buf3, input3)
     else r ← fgets buf3 28 input3; let '(buf, input) := r in c0 ← load buf 0; _ ← Bloom.assert (c0 =? 62); Done (buf, input))
    = Done (close_line (bc cc) ++ 10 :: 0 :: tl3, tail_)) as (c3 & tl3 & -> & Hlb4 & E3).
  { destruct (close_line_spec (bc cc) Hx) as [Hcl Hcn]. destruct Hend as [(tl3 & -> & ->)|(c3 & Hc3 & Hne & ->)].
    - exists 62, tl3. split_and!; [by destruct (bc cc)|done|done].
    - destruct (fgets_line buf3 28 (close_line (bc cc)) tail_) as (tl3 & E & Hlb4); [lia|lia|done|]. exists c3, tl3. rewrite (load_Done _ _ _ Hc3). split_and!; [done|by rewrite Hlb4|].
      rewrite (proj2 (Z.eqb_neq c3 62) Hne), E. run. assert (load (close_line (bc cc) ++ 10 :: 0 :: tl3) 0 = Done 62) as -> by (by destruct (bc cc)). run. cbn [Bloom.assert Z.eqb Pos.eqb]. by run. }
  run. rewrite E3. run. exists (mkCC (bc cc) mts'), (close_line (bc cc) ++ 10 :: 0 :: tl3). split; [by split|]. split; [done|].
  destruct (bc cc) as [[x b]|] eqn:Ebc; cbn [own_filters close_line fst]; run; [|done]. destruct (Hb _ eq_refl) as [Hxr (fi & Hfi & Hld)]. cbn [fst snd] in *.
  destruct (fmt_016lx_spec x Hxr) as (Hpx & Hlx & Hvx). cbn [app]. assert (forall l, load (62 :: 33 :: l) 1 = Done 33) as -> by done. run. cbn [Bloom.assert Z.eqb Pos.eqb]. run.
  destruct (fmt_016lx x) as [|d ds] eqn:Ed; [done|]. assert (load (62 :: 33 :: (d :: ds) ++ 10 :: 0 :: tl3) 2 = Done d) as -> by reflexivity. run.
  apply Forall_cons in Hpx as [Hd _]. assert (d <> 0) as Hd0 by (unfold plain in Hd; lia). rewrite (proj2 (Z.eqb_neq d 0) Hd0). cbn [negb Bloom.assert]. run. assert (forall l : list Z, drop 2 (62 :: 33 :: l) = l) as -> by done. rewrite Hvx. run.
  unfold db_load_bloomcontainer_meta. rewrite Hfi, Hld. by run.
Qed.

Lemma closed_app q r : is_Some (v !! (q ++ r)) -> is_Some (v !! q).
Proof using Hrd.
  induction r as [|i r IH] using rev_ind; [by rewrite app_nil_r|]. rewrite app_assoc. intros Hs. by apply IH, (rd_closed Hrd _ i).
Qed.

Lemma child_range p j r : is_Some (v !! (p ++ j :: r)) -> (j < 8)%nat.
Proof using Hrd. rewrite cons_middle, app_assoc. intros Hs. apply closed_app, (rd_closed Hrd) in Hs as (_ & _ & Hs). done. Qed.

(** [w'] is [w] with the containers of [v] at the paths in [D]. *)
Definition adds (D : list nat -> Prop) (w w' : gmap (list nat) Container) : Prop :=
  forall q, (D q -> same_cc (v !! q) (w' !! q)) /\ (~ D q -> w' !! q = w !! q).

Definition below (p q : list nat) : Prop := p `prefix_of` q.
Definition among (p : list nat) (i n : nat) (q : list nat) : Prop := exists j, (i <= j < i + n)%nat /\ below (p ++ [j]) q.

Lemma app_cons_ne (p : list nat) j r : p <> p ++ j :: r.
Proof. intros E. apply (f_equal length) in E. rewrite length_app in E. cbn in E. lia. Qed.

(** How a subtree is written and read. *)
Definition reads (p : list nat) (fuel : nat) : Prop :=
  exists text, recursive_dump fuel v p = Done text /\ forall pf w rest, (fuel <= pf)%nat -> (forall q, below p q -> w !! q = None) ->
    exists w', recursive_parse junk pf db p w (text ++ rest) = Done (w', rest) /\ adds (below p) w w'.

Lemma below_child_ne p i j q : below (p ++ [i]) q -> below (p ++ [j]) q -> i = j.
Proof. intros [r ->] [r' E]. rewrite <- !app_assoc in E. cbn in E. apply app_inv_head in E. by injection E. Qed.

Lemma reads_subs p fuel n : forall i, (forall j, reads (p ++ [j]) fuel) ->
  exists ts, dump_subs (recursive_dump fuel v) p i n = Done ts /\ forall pf w rest, (fuel <= pf)%nat -> (forall q, among p i n q -> w !! q = None) ->
    exists w', parse_subs (recursive_parse junk pf db) p i n w (ts ++ rest) = Done (w', rest) /\ adds (among p i n) w w'.
Proof.
  induction n as [|n IH]; intros i Hr; cbn [dump_subs parse_subs].
  { exists []. split; [done|]. intros pf w rest _ _. exists w. split; [done|]. intros q. split; [intros (j & Hj & _); lia|done]. }
  destruct (Hr i) as (t & -> & Ht). destruct (IH (S i) Hr) as (ts & -> & Hts). run. exists (t ++ ts). split; [done|]. intros pf w rest Hf Hw.
  assert (forall q, below (p ++ [i]) q -> among p i (S n) q) as Hfst by (intros q Hq; exists i; split; [lia|done]).
  assert (forall q, among p (S i) n q -> among p i (S n) q) as Hsnd by (intros q (j & Hj & Hq); exists j; split; [lia|done]).
  destruct (Ht pf w (ts ++ rest) Hf) as (w1 & E1 & A1); [by intros q Hq; apply Hw, Hfst|]. rewrite <- app_assoc, E1. run.
  assert (forall q, among p (S i) n q -> ~ below (p ++ [i]) q) as Hdis by (intros q (j & Hj & Hq) Hq'; pose proof (below_child_ne p i j q Hq' Hq); lia).
  destruct (Hts pf w1 rest Hf) as (w2 & E2 & A2); [intros q Hq; rewrite (proj2 (A1 q) (Hdis q Hq)); by apply Hw, Hsnd|]. exists w2. split; [done|]. intros q. split.
  - intros (j & Hj & Hq). destruct (decide (j = i)) as [->|Hne]; [|apply A2; exists j; split; [lia|done]].
    rewrite (proj2 (A2 q)); [by apply A1|]. intros Hq'. by apply (Hdis q Hq').
  - intros Hn. rewrite (proj2 (A2 q)), (proj2 (A1 q)); [done|by intros Hq; apply Hn, Hfst|by intros Hq; apply Hn, Hsnd].
Qed.

(** There is no container. *)
Lemma reads_none p : v !! p = None ->
  exists text, Done ([91; 93] ++ newline) = Done text /\ forall pf w rest, (forall q, below p q -> w !! q = None) ->
    exists w', recursive_parse junk pf db p w (text ++ rest) = Done (w', rest) /\ adds (below p) w w'.
Proof using Hrd Hjunk.
  intros Hp. eexists. split; [done|]. intros pf w rest Hw. exists w. split.
  - destruct (fgets_line (junk 128) 120 [91; 93] rest) as (tl & E & _); [cbn; lia|rewrite Hjunk; cbn; lia|by repeat constructor|].
    destruct pf; cbn [recursive_parse]; change (([91; 93] ++ newline) ++ rest) with ([91; 93] ++ 10 :: rest); rewrite E; run; reflexivity.
  - intros q. split; [|done]. intros Hq. rewrite Hw by done. destruct Hq as [r ->]. destruct (v !! (p ++ r)) eqn:E; [|done].
    destruct (closed_app p r) as [c0 Hc]; [by rewrite E|]. by rewrite Hp in Hc.
Qed.

Lemma reads_all fuel : forall p, (length p + fuel = 5)%nat -> reads p fuel.
Proof using Hrd Hjunk.
  induction fuel as [|fuel IH]; intros p Hp; unfold reads; cbn [recursive_dump]; destruct (v !! p) as [cc|] eqn:Ecc.
  - exfalso. destruct p as [|i p] using rev_ind; [cbn in Hp; lia|]. destruct (rd_closed Hrd p i) as (_ & Hl & _); [by rewrite Ecc|]. rewrite length_app in Hp. cbn in Hp. lia.
  - destruct (reads_none p Ecc) as (text & E & Hr). exists text. split; [done|]. intros pf w rest _. apply Hr.
  - destruct (reads_subs p fuel 8 0) as (ts & -> & Hts); [intros j; apply IH; rewrite length_app; cbn; lia|]. run. eexists. split; [done|]. intros [|pf] w rest Hf Hw; [lia|].
    destruct (parse_head p cc w (ts ++ [93] ++ 10 :: rest) pf Ecc ltac:(lia)) as (cc' & buf & Hlk & Hlb & E).
    assert (forall q, among p 0 8 q <-> exists j r, (j < 8)%nat /\ q = p ++ j :: r) as Ham.
    { intros q. split; [intros (j & Hj & r & ->); exists j, r; rewrite <- app_assoc; split; [lia|done]|].
      intros (j & r & Hj & ->). exists j. split; [lia|]. exists r. by rewrite <- app_assoc. }
    destruct (Hts pf (<[p:=cc']> w) ([93] ++ 10 :: rest) ltac:(lia)) as (w' & E' & A).
    { intros q Hq. apply Ham in Hq as (j & r & _ & ->). rewrite lookup_insert_ne; [apply Hw; by exists (j :: r)|]. by apply app_cons_ne. }
    destruct (fgets_line buf 28 [93] rest) as (tl & Ef & _); [cbn; lia|rewrite Hlb; cbn; lia|by repeat constructor|]. exists w'. split.
    + unfold head_text, newline in *. rewrite <- !app_assoc in *. cbn [app] in *. rewrite E, E'. run. rewrite Ef. run. reflexivity.
    + intros q. destruct (A q) as [A1 A2]. split.
      * intros [r ->]. destruct r as [|j r].
        { rewrite app_nil_r in *. rewrite A2, lookup_insert_eq, Ecc; [done|]. intros Hq. apply Ham in Hq as (j & r & _ & Eq). by apply app_cons_ne in Eq. }
        destruct (decide (j < 8)%nat) as [Hj|Hj]; [apply A1, Ham; by exists j, r|]. rewrite A2.
        -- destruct (v !! (p ++ j :: r)) eqn:Ev; [exfalso; apply Hj, (child_range p j r); by rewrite Ev|]. rewrite lookup_insert_ne, Hw; [done|by exists (j :: r)|].
           by apply app_cons_ne.
        -- intros Hq. apply Ham in Hq as (j' & r' & Hj' & Eq). apply app_inv_head in Eq. injection Eq as -> _. lia.
      * intros Hn. rewrite A2, lookup_insert_ne; [done|by intros ->; apply Hn; exists []; rewrite app_nil_r|].
        intros Hq. apply Ham in Hq as (j & r & _ & ->). apply Hn. by exists (j :: r).
  - destruct (reads_none p Ecc) as (text & E & Hr). exists text. split; [done|]. intros pf w rest _. apply Hr.
Qed.

(** The whole tree. *)
Lemma tree_roundtrip : exists text, recursive_dump DB_NR_LEVELS v [] = Done text /\ (is_Some (v !! []) -> (5 <= length text)%nat) /\
  forall pf rest, (5 <= pf)%nat -> exists v', recursive_parse junk pf db [] ∅ (text ++ rest) = Done (v', rest) /\ forall q, same_cc (v !! q) (v' !! q).
Proof using Hrd Hjunk.
  destruct (reads_all 5 [] ltac:(done)) as (text & E & Hr). exists text. split; [done|]. split.
  - intros [cc Hcc]. cbn [recursive_dump] in E. rewrite Hcc in E. apply bind_Done_inv in E as (ts & _ & E). injection E as <-. unfold newline. destruct (bc cc) as [[]|]; cbn [dump_bc_open dump_bc_close app length];
      rewrite !length_app; cbn [length]; unfold newline; rewrite ?length_app; cbn; lia.
  - intros pf rest Hf. destruct (Hr pf ∅ rest Hf) as (v' & E' & A); [intros q _; apply lookup_empty|]. exists v'. split; [done|]. intros q. apply A. by exists q.
Qed.
End text.
