(* ===== verification/DbTree.v ===== *)
(** * Compaction of the containers of the database

    A compaction moves what the oldest tables of a container hold to its eight
    children; along the path of every key the pairs stay as they were. *)

From stdpp Require Import gmap list_tactics.
From S2P Require Import Prelude Bloom BloomProof BloomTable BloomPages BloomContainer Mempool Cmap LsmTable LsmMem LsmRetain LsmDisk LsmLookup LsmSystem LsmFeed DbTable Db DbInv DbProof.
Import Lsm Cmap Db.

(** ** Lists of maps, the oldest first *)

Definition newest (Ns : list kvmap) : kvmap := foldl (fun acc N => N ∪ acc) ∅ Ns.

Lemma newest_from (Ns : list kvmap) : forall acc : kvmap, foldl (fun acc N => N ∪ acc) acc Ns = newest Ns ∪ acc.
Proof.
  induction Ns as [|N Ns IH]; intros acc; [symmetry; apply (left_id_L ∅ (∪))|]. unfold newest. cbn [foldl]. rewrite IH, (IH (N ∪ ∅)), (right_id_L ∅ (∪)). by rewrite map_union_assoc.
Qed.

Lemma newest_app a b : newest (a ++ b) = newest b ∪ newest a.
Proof. unfold newest at 1. rewrite foldl_app. apply newest_from. Qed.

Lemma newest_one (N : kvmap) : newest [N] = N.
Proof. unfold newest. cbn [foldl]. apply (right_id_L ∅ (∪)). Qed.

Lemma union_lookup_eq (A B C : kvmap) k : A !! k = B !! k -> (A ∪ C) !! k = (B ∪ C) !! k.
Proof. intros E. by rewrite !lookup_union, E. Qed.

Lemma union_lookup_eq_r (A B C : kvmap) k : A !! k = B !! k -> (C ∪ A) !! k = (C ∪ B) !! k.
Proof. intros E. by rewrite !lookup_union, E. Qed.

Lemma feed_unit_value : Z.of_nat DB_FEED_UNIT = 1024.
Proof. vm_compute. reflexivity. Qed.
#[global] Opaque DB_FEED_UNIT.

Section tree.
Context (SHA1 : list Z -> list Z) `{Qsort} (junk : nat -> list Z).
Hypothesis Hjunk : forall n, length (junk n) = n.
Hypothesis Hsha : forall k, length (SHA1 k) = 20%nat /\ Forall is_u8 (SHA1 k).

(** ** Feeding *)

Lemma feed_table_fed bs N mt raw sub n : forall token tables Ms tables',
  on_disk SHA1 bs N mt raw -> (TABLE_NR_BARRELS <= token + n * DB_FEED_UNIT)%nat -> Forall2 (mem_inv SHA1) tables Ms ->
  feed_table SHA1 junk n mt raw sub token tables = Done tables' ->
  Forall2 (mem_inv SHA1) tables' (feed_maps selected sub Ms (concat (contents <$> drop token bs))).
Proof using Hjunk.
  induction n as [|n IH]; intros token tables Ms tables' HD Hn HI E; cbn [feed_table] in E; destruct (od_inv _ _ _ _ _ HD) as [F HF]; pose proof (re_length _ _ _ _ HF) as Hlen.
  { injection E as <-. rewrite drop_ge by lia. done. }
  apply bind_Done_inv in E as (t1 & E1 & E). unfold compaction_feed in E1. apply bind_Done_inv in E1 as (? & _ & E1).
  destruct (Nat.leb_spec TABLE_NR_BARRELS token) as [Hge|Hlt].
  { injection E1 as <-. apply (IH _ _ Ms) in E; [|done|cbn [Nat.mul] in Hn; lia|done]. rewrite drop_ge in E by lia. by rewrite drop_ge by lia. }
  set (nr := if (TABLE_NR_BARRELS - token <? DB_FEED_UNIT)%nat then _ else _) in E1.
  assert (0 < nr /\ token + nr <= TABLE_NR_BARRELS /\ (nr = DB_FEED_UNIT \/ token + nr = TABLE_NR_BARRELS) /\ nr <= DB_FEED_UNIT)%nat as (N1 & N2 & N3 & N4).
  { pose proof feed_unit_value. unfold nr. destruct (Nat.ltb_spec (TABLE_NR_BARRELS - token) DB_FEED_UNIT); lia. }
  clearbody nr. apply bind_Done_inv in E1 as (? & _ & E1). apply (range_fed SHA1 junk Hjunk selected sub bs N mt raw token nr tables Ms t1 HD N1 N2 HI) in E1.
  assert (TABLE_NR_BARRELS <= token + DB_FEED_UNIT + n * DB_FEED_UNIT)%nat as Hn' by (cbn [Nat.mul] in Hn; lia).
  apply (IH _ _ _ _ HD Hn' E1) in E. unfold range_items in E. rewrite <- feed_maps_app, <- concat_app, <- fmap_app in E.
  replace (drop token bs) with (take nr (drop token bs) ++ drop (token + DB_FEED_UNIT) bs); [done|].
  rewrite <- (take_drop nr (drop token bs)) at 2. f_equal. rewrite drop_drop. destruct N3 as [->|N3]; [done|]. by rewrite !drop_ge by lia.
Qed.

(** What child [j] gets from tables with [Ns]. *)
Definition gets (sub : Z) (j : nat) (Ns : list kvmap) : kvmap := newest (share SHA1 selected sub j <$> Ns).

Lemma gets_lookup sub j Ns k : gets sub j Ns !! k = if decide (selected (SHA1 k) sub = j) then newest Ns !! k else None.
Proof.
  induction Ns as [|N Ns IH] using rev_ind; [unfold gets, newest; cbn; rewrite !lookup_empty; by case_decide|].
  unfold gets in *. rewrite fmap_app, newest_app, newest_app. cbn [fmap list_fmap]. rewrite !newest_one, !lookup_union, IH. unfold share.
  case_decide as Hj.
  - f_equal. apply option_eq. intros v. rewrite map_lookup_filter_Some. cbn. tauto.
  - rewrite (proj2 (map_lookup_filter_None _ _ k)); [done|]. right. intros v _. cbn. done.
Qed.

Lemma feed_maps_length sub l : forall Ms, length (feed_maps selected sub Ms l) = length Ms.
Proof. induction l as [|it l IH]; intros Ms; [done|]. rewrite feed_maps_cons, IH. apply length_alter. Qed.

Lemma feed_all_fed raw sub mts : forall Ns tables Ms tables',
  Forall2 (table_ok SHA1 raw) (snd <$> mts) Ns -> Forall2 (mem_inv SHA1) tables Ms ->
  compaction_feed_all SHA1 junk mts raw sub tables = Done tables' ->
  exists Ms', Forall2 (mem_inv SHA1) tables' Ms' /\ forall j, Ms' !! j = (fun M => gets sub j Ns ∪ M) <$> Ms !! j.
Proof using Hjunk.
  induction mts as [|[x mt] mts IH]; intros Ns tables Ms tables' Ht HI E; cbn [compaction_feed_all] in E.
  { apply Forall2_nil_inv_l in Ht as ->. injection E as <-. exists Ms. split; [done|]. intros j. destruct (Ms !! j) as [M|]; [|done].
    cbn [fmap option_fmap option_map]. f_equal. symmetry. apply (left_id_L ∅ (∪)). }
  rewrite fmap_cons in Ht. apply Forall2_cons_inv_l in Ht as (N & Ns' & [(bs & HD) _ _ _] & Ht & ->). apply bind_Done_inv in E as (t1 & E1 & E).
  pose proof feed_unit_value. pose proof nr_barrels_value.
  apply (feed_table_fed bs N mt raw sub 8 0 tables Ms t1 HD ltac:(lia) HI) in E1. rewrite drop_0 in E1.
  destruct (IH Ns' t1 _ tables' Ht E1 E) as (Ms' & HI' & Hj). exists Ms'. split; [done|]. intros j. rewrite Hj. destruct (Ms !! j) as [M|] eqn:EM.
  - rewrite (shared SHA1 selected sub bs N mt raw Ms j M HD EM). cbn [fmap option_fmap option_map]. f_equal. unfold gets. rewrite fmap_cons.
    change (?a :: ?l) with ([a] ++ l). rewrite newest_app, newest_one. by rewrite map_union_assoc.
  - rewrite (proj2 (lookup_ge_None _ _)); [done|]. rewrite feed_maps_length. by apply lookup_ge_None.
Qed.

(** ** The tree *)

(** [V] tells what each container holds. *)
Record disk_inv (db : DB) (V : list nat -> list kvmap) : Prop := {
  di_conts : forall p cc, vcs db !! p = Some cc -> cont_ok SHA1 junk db p cc (V p) /\ (length (metatables cc) <= DB_CONTAINER_NR)%nat;
  di_none : forall p, vcs db !! p = None -> V p = [];
  di_root : is_Some (vcs db !! []);
  di_closed : forall p i, is_Some (vcs db !! (p ++ [i])) -> is_Some (vcs db !! p) /\ (length p < 4)%nat /\ (i < 8)%nat;
  di_levels : forall n, (n < 5)%nat -> exists d raw, data_id db !! n = Some d /\ raws db !! d = Some raw }.

Lemma di_depth db V p : disk_inv db V -> is_Some (vcs db !! p) -> (length p <= 4)%nat.
Proof.
  intros HI Hp. destruct p as [|i p] using rev_ind; [cbn; lia|]. apply (di_closed _ _ HI) in Hp as (_ & Hl & _). rewrite length_app. cbn. lia.
Qed.

Lemma level_of db V p : disk_inv db V -> (length p <= 4)%nat -> data_id db !! length p = Some (level db p).
Proof. intros HI Hp. destruct (di_levels _ _ HI (length p) ltac:(lia)) as (d & _ & Hd & _). unfold level. by rewrite Hd. Qed.

Lemma unit_lives db v p cc : v !! p = Some cc -> units db p cc ⊆ live db v.
Proof. intros Hp. destruct (live_split db v p cc Hp) as (R & E & _). intros x Hx. rewrite E. apply elem_of_app. by left. Qed.

Lemma cont_length db p cc Ns : cont_ok SHA1 junk db p cc Ns -> length Ns = length (metatables cc).
Proof. intros [(d & raw & _ & _ & Ht) _ _]. apply Forall2_length in Ht. by rewrite length_fmap in Ht. Qed.

(** Operations that leave the tree alone keep the invariant. *)
Lemma disk_frame db db' V L : disk_inv db V -> live db (vcs db) ⊆ L -> frame db db' L -> disk_inv db' V.
Proof.
  intros [H1 H2 H3 H4 H5] HL HF. pose proof (fr_vcs _ _ _ HF) as Ev. split; try (by rewrite Ev).
  - rewrite Ev. intros p cc Hp. destruct (H1 p cc Hp) as [Hc Hl]. split; [|done]. eapply cont_keeps; [done| |done]. etrans; [by apply unit_lives|done].
  - intros n Hn. destruct (H5 n Hn) as (d & raw & Hd & Hr). destruct (fr_raws _ _ _ HF d raw Hr) as (raw' & Hr' & _). exists d, raw'. by rewrite (fr_data _ _ _ HF).
Qed.

(** *** Children are created *)

Lemma app_one_inj {A} (p q : list A) i j : p ++ [i] = q ++ [j] -> p = q /\ i = j.
Proof. intros E. by apply app_inj_tail in E. Qed.

Definition children (n : nat) (path : list nat) : list (list nat) := (fun i => path ++ [i]) <$> seq 0 n.

Lemma elem_of_children n path q : q ∈ children n path <-> exists i, (i < n)%nat /\ q = path ++ [i].
Proof.
  unfold children. rewrite list_elem_of_fmap. split; intros (i & H1 & H2); exists i; [apply elem_of_seq in H2; split; [lia|done]|].
  split; [done|]. apply elem_of_seq. lia.
Qed.

Lemma children_S n path q : q ∈ children (S n) path <-> q = path ++ [n] \/ q ∈ children n path.
Proof.
  rewrite !elem_of_children. split.
  - intros (i & Hi & ->). destruct (decide (i = n)) as [->|]; [by left|]. right. exists i. split; [lia|done].
  - intros [->|(i & Hi & ->)]; [exists n; split; [lia|done]|exists i; split; [lia|done]].
Qed.

Lemma create_subs_lookup path v n q :
  create_subs n path v !! q = match v !! q with Some cc => Some cc | None => if decide (q ∈ children n path) then Some vc_create else None end.
Proof.
  induction n as [|n IH]; cbn [create_subs]; [destruct (v !! q); [done|]; by rewrite decide_False by apply not_elem_of_nil|].
  pose proof (children_S n path q) as HS. set (c := create_subs n path v) in *.
  assert (forall u, (if decide (q = path ++ [n]) then u = Some vc_create else u = c !! q) -> v !! q = None ->
    u = if decide (q ∈ children (S n) path) then Some vc_create else None) as Hu.
  { intros u Hu Ev. rewrite Ev in IH. repeat case_decide; subst; rewrite ?IH; try done; exfalso; tauto. }
  destruct (c !! (path ++ [n])) as [c0|] eqn:En.
  - destruct (v !! q) eqn:Ev; [by rewrite IH|]. apply Hu; [|done]. case_decide as Hq; [|done]. subst q. rewrite IH in En. rewrite IH. by case_decide.
  - destruct (decide (q = path ++ [n])) as [->|Hne].
    + rewrite lookup_insert_eq. destruct (v !! (path ++ [n])); [by rewrite En in IH|]. by apply Hu.
    + rewrite lookup_insert_ne by done. destruct (v !! q) eqn:Ev; [done|]. by apply Hu.
Qed.

Lemma create_subs_live db path v n : live db (create_subs n path v) ≡ₚ live db v.
Proof.
  induction n as [|n IH]; [done|]. cbn [create_subs]. destruct (create_subs n path v !! (path ++ [n])) eqn:E; [done|]. rewrite live_insert by done. cbn. done.
Qed.

Lemma create_subs_inv db V path :
  disk_inv db V -> is_Some (vcs db !! path) -> (length path < 4)%nat ->
  disk_inv (with_vcs db (create_subs 8 path (vcs db))) V /\ forall i, (i < 8)%nat -> is_Some (create_subs 8 path (vcs db) !! (path ++ [i])).
Proof.
  intros HI Hp Hl. pose proof (create_subs_lookup path (vcs db) 8) as Hq. set (v := create_subs 8 path (vcs db)) in *. split.
  - pose proof HI as [H1 H2 H3 H4 H5]. split; cbn [with_vcs vcs data_id raws]; [| | | |done].
    + intros p cc Hcc. rewrite Hq in Hcc. destruct (vcs db !! p) as [c|] eqn:Ec; [injection Hcc as <-; destruct (H1 p c Ec) as [[A B D] C]; by split; [split|]|].
      case_decide as Hd; [|done]. injection Hcc as <-. apply elem_of_children in Hd as (i & Hi & ->). rewrite H2 by done. split; [|cbn; lia].
      destruct (H5 (length (path ++ [i]))) as (d & raw & Hd & Hr); [rewrite length_app; cbn; lia|]. split; [exists d, raw; split_and!; [done|done|constructor]|done|constructor].
    + intros p Hn. apply H2. rewrite Hq in Hn. by destruct (vcs db !! p).
    + rewrite Hq. destruct H3 as [c ->]. done.
    + intros p i Hs. rewrite Hq in Hs. rewrite Hq. destruct (vcs db !! (p ++ [i])) eqn:Ec.
      * destruct (H4 p i) as [[c' Hc'] Hlp]; [by rewrite Ec|]. by rewrite Hc'.
      * case_decide as Hd; [|by destruct Hs]. apply elem_of_children in Hd as (j & Hj & E). apply app_one_inj in E as [-> ->]. destruct Hp as [c' ->]. done.
  - intros i Hi. rewrite Hq. destruct (vcs db !! (path ++ [i])); [done|]. rewrite decide_True; [done|]. apply elem_of_children. by exists i.
Qed.

(** *** The new tables are inserted *)

Definition bc_at (v : gmap (list nat) Container) (q : list nat) : option (Z * Bloom.BloomContainer) := cc ← v !! q; bc cc.

Lemma insert_subs_spec db path l : forall i v v',
  insert_subs path i l v = Done v' ->
  (forall j m b, l !! j = Some (m, b) -> exists cc, v !! (path ++ [(i + j)%nat]) = Some cc /\ (length (metatables cc) < DB_CONTAINER_NR)%nat /\
     v' !! (path ++ [(i + j)%nat]) = Some (mkCC b (metatables cc ++ [m]))) /\
  (forall q, (forall j, (j < length l)%nat -> q <> path ++ [(i + j)%nat]) -> v' !! q = v !! q) /\
  live db v' ++ (seq i (length l) ≫= (fun j => bc_unit db (bc_at v (path ++ [j])))) ≡ₚ live db v ++ new_units db path l.
Proof.
  induction l as [|[m b] l IH]; intros i v v' E; cbn [insert_subs] in E.
  { injection E as <-. split_and!; [done|done|]. cbn. by rewrite app_nil_r. }
  destruct (v !! (path ++ [i])) as [cc|] eqn:Ecc; [|done]. apply bind_Done_inv in E as (cc' & E1 & E). unfold vc_insert_internal in E1.
  destruct (Nat.ltb_spec (length (metatables cc)) DB_CONTAINER_NR) as [Hlt|]; [|done]. injection E1 as <-.
  apply IH in E as (I1 & I2 & I3).
  assert (forall j, path ++ [(S i + j)%nat] <> path ++ [i]) as Hne by (intros j Ej; apply app_one_inj in Ej as [_ Ej]; lia). split_and!.
  - intros [|j] m' b' Hj.
    + injection Hj as <- <-. rewrite Nat.add_0_r. exists cc. split_and!; [done|done|]. rewrite I2, lookup_insert_eq; [done|].
      intros j _ Ej. by apply (Hne j).
    + rewrite <- Nat.add_succ_comm. destruct (I1 j m' b' Hj) as (c & Hc & Hl & Hv). rewrite lookup_insert_ne in Hc by (intros Ej; by apply (Hne j)). by exists c.
  - intros q Hq. rewrite I2; [|intros j Hj; rewrite Nat.add_succ_comm; apply Hq; cbn; lia]. apply lookup_insert_ne. intros <-. apply (Hq O); [cbn; lia|]. by rewrite Nat.add_0_r.
  - destruct (live_split db v (path ++ [i]) cc Ecc) as (R & L1 & L2). cbn [length seq mbind list_bind new_units]. fold (new_units db path l).
    assert (seq (S i) (length l) ≫= (fun j => bc_unit db (bc_at (<[path ++ [i]:=mkCC b (metatables cc ++ [m])]> v) (path ++ [j]))) =
            seq (S i) (length l) ≫= (fun j => bc_unit db (bc_at v (path ++ [j])))) as Eb.
    { apply Forall_bind_ext, Forall_forall. intros j Hj. apply elem_of_seq in Hj. unfold bc_at. rewrite lookup_insert_ne; [done|]. intros Ej. apply app_one_inj in Ej as [_ Ej]. lia. }
    rewrite Eb in I3. rewrite L2, units_add, level_child in I3. rewrite L1. unfold bc_at at 1. rewrite Ecc. cbn [mbind option_bind fst snd]. unfold units.
    rewrite (Permutation_app_comm (bc_unit db (bc cc))), app_assoc, I3. solve_Permutation.
Qed.

(** *** The old ones are freed *)

Lemma free_tables_spec d mts : forall db L db',
  devices db (table_cells d mts ++ L) -> Forall (fun m => aligned (mt_off m.2)) mts ->
  free_tables db d mts = Done db' -> devices db' L /\ frame db db' L /\ next_mtid db' = next_mtid db.
Proof.
  induction mts as [|[x mt] mts IH]; intros db L db' HD Ha E; cbn [free_tables] in E; [injection E as <-; split; [done|split; [apply frame_refl|done]]|].
  inversion_clear Ha as [|?? Hm Ha']. apply bind_Done_inv in E as (db1 & E1 & E). cbn [table_cells mbind list_bind app fst snd] in HD. fold (table_cells d mts) in HD.
  destruct (release_keeps db d _ (mt_off mt) _ db1 HD Hm E1) as (HD1 & HF1 & _ & _ & Hn1). pose proof (de_nodup _ _ HD1) as Hnd. apply NoDup_cons in Hnd as [Hx _].
  apply (IH _ L) in E as (HD2 & HF2 & Hn2); [|by apply (devices_maps db1), (devices_tail _ (File x))|done]. assert (L ⊆ File x :: table_cells d mts ++ L) as HL by (apply list_subseteq_cons; by apply list_subseteq_app_r).
  split; [done|]. split; [|by rewrite Hn2]. apply (frame_trans db db1 db' L L); [done|by eapply frame_mono|].
  apply (frame_trans _ (with_metas db1 (delete x (metafiles db1))) _ L L); [done| |done]. apply frame_metas; [done..|]. intros y Hy. cbn [with_metas metafiles].
  apply lookup_delete_ne. intros ->. apply Hx, elem_of_app. by right.
Qed.

Lemma bc_unit_eq db db' o : bc_id db' = bc_id db -> bc_unit db' o = bc_unit db o.
Proof. intros E. unfold bc_unit. by rewrite E. Qed.

Definition bc_aligned (o : option (Z * Bloom.BloomContainer)) : Prop := match o with None => True | Some b => aligned (Bloom.off_raw b.2) end.

Lemma free_bcs_spec l : forall db L db',
  devices db ((l ≫= bc_unit db) ++ L) -> Forall bc_aligned l ->
  free_bcs db l = Done db' -> devices db' L /\ frame db db' L /\ next_mtid db' = next_mtid db.
Proof.
  induction l as [|[[x b]|] l IH]; intros db L db' HD Ha E; cbn [free_bcs] in E; [injection E as <-; split; [done|split; [apply frame_refl|done]]|..];
    inversion_clear Ha as [|?? Hm Ha']; [|by apply IH].
  apply bind_Done_inv in E as (db1 & E1 & E). cbn [mbind list_bind bc_unit app fst snd] in HD. fold (l ≫= bc_unit db) in HD.
  destruct (release_keeps db (bc_id db) _ (Bloom.off_raw b) _ db1 HD Hm E1) as (HD1 & HF1 & _ & _ & Hn1). apply (IH _ L) in E as (HD2 & HF2 & Hn2); [| |done].
  - split; [done|]. split; [|by rewrite Hn2]. apply (frame_trans db db1 db' L L); [done|eapply frame_mono; [|exact HF1]|done].
    apply list_subseteq_cons. by apply list_subseteq_app_r.
  - apply devices_tail in HD1. erewrite list_bind_ext; [exact HD1| |done]. intros o. apply bc_unit_eq, HF1.
Qed.

Lemma free_old_spec db path mts old L db' :
  devices db (table_units db path mts ++ (old ≫= bc_unit db) ++ L) -> Forall (fun m => aligned (mt_off m.2)) mts -> Forall bc_aligned old ->
  compaction_free_old db path mts old = Done db' -> devices db' L /\ frame db db' L /\ next_mtid db' = next_mtid db.
Proof.
  intros HD Ha Hb E. unfold compaction_free_old in E. apply bind_Done_inv in E as (d & Hd & E). apply load_Done_inv in Hd. rewrite start_bit_level in Hd.
  apply bind_Done_inv in E as (db1 & E1 & E). unfold table_units, level in HD. rewrite Hd in HD. cbn [default] in HD.
  destruct (free_tables_spec d mts db _ db1 HD Ha E1) as (HD1 & HF1 & Hn1).
  destruct (free_bcs_spec old db1 L db') as (HD2 & HF2 & Hn2); [|done|done|].
  { erewrite (list_bind_ext (bc_unit db1)); [exact HD1| |done]. intros o. apply bc_unit_eq, HF1. }
  split; [done|]. split; [|by rewrite Hn2]. apply (frame_trans db db1 db' L L); [done|eapply frame_mono; [|exact HF1]; by apply list_subseteq_app_r|done].
Qed.

(** *** A whole compaction *)

Definition sub_bit (path : list nat) : Z := Z.of_nat (start_bit path) + 3.

Definition compacted (V : list nat -> list kvmap) (path : list nat) (n : nat) (q : list nat) : list kvmap :=
  if decide (q = path) then drop n (V q)
  else if decide (q ∈ children 8 path) then V q ++ [gets (sub_bit path) (List.last q O) (take n (V path))] else V q.

Lemma not_child path n : path ∉ children n path.
Proof.
  intros Hin. apply elem_of_children in Hin as (i & _ & E). apply (f_equal length) in E. rewrite length_app in E. cbn in E. lia.
Qed.

Lemma compacted_child V path n i : (i < 8)%nat -> compacted V path n (path ++ [i]) = V (path ++ [i]) ++ [gets (sub_bit path) i (take n (V path))].
Proof.
  intros Hi. unfold compacted. assert (path ++ [i] ∈ children 8 path) as Hc by (apply elem_of_children; by exists i). rewrite decide_False, decide_True by (done || (intros E; rewrite E in Hc; by apply not_child in Hc)).
  by rewrite List.last_last.
Qed.

Lemma cont_drop db p cc Ns n : cont_ok SHA1 junk db p cc Ns -> (length p < 4)%nat -> cont_ok SHA1 junk db p (mkCC (bc cc) (drop n (metatables cc))) (drop n Ns).
Proof.
  intros [(d & raw & Hd & Hr & Ht) Hb Hf] Hp. split; cbn [metatables bc].
  - exists d, raw. split_and!; [done|done|]. rewrite fmap_drop. by apply Forall2_drop.
  - destruct (bc cc) as [b|]; [destruct Hb; lia|lia].
  - by apply Forall_drop.
Qed.

(** The change of the tree, when the new tables are on disk. *)
Lemma update_inv db V path n l db' cc :
  disk_inv db V -> (length path < 4)%nat -> length l = 8%nat -> vcs db !! path = Some cc ->
  (forall j m b c, l !! j = Some (m, b) -> vcs db !! (path ++ [j]) = Some c ->
     cont_ok SHA1 junk db (path ++ [j]) (mkCC b (metatables c ++ [m])) (V (path ++ [j]) ++ [gets (sub_bit path) j (take n (V path))])) ->
  compaction_update_vc db path n l = Done db' ->
  disk_inv db' (compacted V path n) /\ frame db (with_vcs db' (vcs db)) (live db (vcs db)) /\ cms_dump db' = cms_dump db /\ next_mtid db' = next_mtid db /\
  live db (vcs db') ++ table_units db path (take n (metatables cc)) ++ (seq 0 8 ≫= (fun j => bc_unit db (bc_at (vcs db) (path ++ [j])))) ≡ₚ
    live db (vcs db) ++ new_units db path l.
Proof.
  intros HI Hp Hl Hcc Hnew E. unfold compaction_update_vc in E. apply bind_Done_inv in E as (v & E1 & E).
  destruct (insert_subs_spec db path l 0 (vcs db) v E1) as (I1 & I2 & I3). rewrite Hl in I3.
  assert (forall q, q ∉ children 8 path -> v !! q = vcs db !! q) as Hsame.
  { intros q Hq. apply I2. intros j Hj ->. apply Hq, elem_of_children. exists j. split; [lia|done]. }
  rewrite (Hsame path), Hcc in E by apply not_child. injection E as <-. cbn [with_vcs vcs cms_dump]. split_and!; [|by apply frame_files|done|done|].
  - pose proof HI as [H1 H2 H3 H4 H5]. split; cbn [with_vcs vcs]; [| | | |done].
    + intros p c Hc. set (db' := with_vcs db _). assert (forall c x, cont_ok SHA1 junk db p c x -> cont_ok SHA1 junk db' p c x) as Hok by (intros c' x []; by split).
      destruct (decide (p = path)) as [->|Hne].
      * rewrite lookup_insert_eq in Hc. injection Hc as <-. destruct (H1 path cc Hcc) as [A B]. unfold compacted. rewrite decide_True by done.
        split; [by apply Hok, cont_drop|]. cbn [metatables]. rewrite length_drop. lia.
      * rewrite lookup_insert_ne in Hc by done. destruct (decide (p ∈ children 8 path)) as [Hch|Hch].
        -- apply elem_of_children in Hch as (i & Hi & ->). destruct (lookup_lt_is_Some_2 l i ltac:(lia)) as [[m b] Hlb]. destruct (I1 i m b Hlb) as (c0 & Hc0 & Hlt & Hv).
           cbn [Nat.add] in *. rewrite Hv in Hc. injection Hc as <-. rewrite compacted_child by done.
           split; [by apply Hok, Hnew|]. cbn [metatables]. rewrite length_app. cbn. lia.
        -- rewrite Hsame in Hc by done. unfold compacted. rewrite !decide_False by done. destruct (H1 p c Hc) as [A B]. split; [by apply Hok|done].
    + intros p Hn. destruct (decide (p = path)) as [->|Hne]; [by rewrite lookup_insert_eq in Hn|]. rewrite lookup_insert_ne in Hn by done.
      unfold compacted. rewrite decide_False by done. destruct (decide (p ∈ children 8 path)) as [Hch|Hch]; [|apply H2; by rewrite <- Hsame].
      apply elem_of_children in Hch as (i & Hi & ->). destruct (lookup_lt_is_Some_2 l i ltac:(lia)) as [[m b] Hlb]. destruct (I1 i m b Hlb) as (c0 & _ & _ & Hv).
      cbn [Nat.add] in *. by rewrite Hv in Hn.
    + destruct (decide (path = [])) as [->|Hne]; [by rewrite lookup_insert_eq|]. rewrite lookup_insert_ne by done. rewrite Hsame; [done|].
      intros Hch. apply elem_of_children in Hch as (i & _ & Ei). by destruct path.
    + intros p i Hs. assert (forall q, is_Some (<[path:=mkCC (bc cc) (drop n (metatables cc))]> v !! q) <-> is_Some (vcs db !! q)) as Hdom.
      { intros q. destruct (decide (q = path)) as [->|Hne]; [rewrite lookup_insert_eq, Hcc; done|]. rewrite lookup_insert_ne by done.
        destruct (decide (q ∈ children 8 path)) as [Hch|Hch]; [|by rewrite Hsame]. apply elem_of_children in Hch as (j & Hj & ->).
        destruct (lookup_lt_is_Some_2 l j ltac:(lia)) as [[m b] Hlb]. destruct (I1 j m b Hlb) as (c0 & Hc0 & _ & Hv). cbn [Nat.add] in *. by rewrite Hv, Hc0. }
      rewrite Hdom in Hs |- *. by apply (H4 p i).
  - destruct (live_split db v path cc) as (R & L1 & L2); [rewrite Hsame by apply not_child; done|]. rewrite L2. rewrite L1 in I3. rewrite <- I3. unfold units. cbn [metatables bc].
    assert (table_units db path (metatables cc) = table_units db path (take n (metatables cc)) ++ table_units db path (drop n (metatables cc))) as ->
      by (unfold table_units, table_cells; rewrite <- bind_app, take_drop; done).
    solve_Permutation.
Qed.

Lemma newest_from_one Ns k v : newest Ns !! k = Some v -> exists N, N ∈ Ns /\ N !! k = Some v.
Proof.
  induction Ns as [|N Ns IH] using rev_ind; [unfold newest; cbn; by rewrite lookup_empty|]. rewrite newest_app, newest_one, lookup_union_Some_raw.
  intros [E|[_ E]]; [exists N; split; [apply elem_of_app; right; apply list_elem_of_here|done]|]. destruct (IH E) as (N' & HN & E'). exists N'. split; [apply elem_of_app; by left|done].
Qed.

Lemma gets_small sub j Ns : Forall small_map Ns -> small_map (gets sub j Ns).
Proof.
  intros Hs k v E. rewrite gets_lookup in E. case_decide; [|done]. apply newest_from_one in E as (N & HN & E). exact (proj1 (Forall_forall _ _) Hs N HN k v E).
Qed.

Lemma build_all_spec ts : forall Ms ts',
  Forall2 (mem_inv SHA1) ts Ms -> Forall small_map Ms -> compaction_build_bt_all junk ts = Done ts' -> Forall2 (built SHA1 junk) ts' Ms.
Proof.
  induction ts as [|t ts IH]; intros Ms ts' HI Hs E; cbn [compaction_build_bt_all] in E.
  { apply Forall2_nil_inv_l in HI as ->. injection E as <-. constructor. }
  apply Forall2_cons_inv_l in HI as (M & Ms' & Ht & HI & ->). inversion_clear Hs as [|?? HM Hs'].
  apply bind_Done_inv in E as (t' & E1 & E). apply bind_Done_inv in E as (ts1 & E2 & E). injection E as <-. constructor; [by exists t|by apply IH].
Qed.

Context (mmap : bool -> Z -> bool) (malloc : Z -> bool).

Lemma alloc_tables_spec n : forall ts, alloc_tables mmap malloc n = Done ts -> Forall2 (mem_inv SHA1) ts (replicate n ∅).
Proof.
  induction n as [|n IH]; intros ts E; cbn [alloc_tables] in E; [injection E as <-; constructor|].
  apply bind_Done_inv in E as (t & E1 & E). apply bind_Done_inv in E as (ts' & E2 & E). injection E as <-. constructor; [unfold table_alloc_default in E1; exact (table_alloc_new_spec SHA1 _ _ _ _ _ E1)|by apply IH].
Qed.

Lemma compaction_initial_inv db path n db1 mts_old tables :
  compaction_initial mmap malloc db path n = Done (db1, mts_old, tables) ->
  exists cc, vcs db !! path = Some cc /\ (n <= length (metatables cc))%nat /\ alloc_tables mmap malloc 8 = Done tables /\
    db1 = with_vcs db (create_subs 8 path (vcs db)) /\ mts_old = take n (metatables cc).
Proof.
  unfold compaction_initial. set (v := create_subs 8 path (vcs db)). clearbody v. generalize (alloc_tables mmap malloc 8). intros a.
  generalize (Mempool.huge_alloc mmap (Z.of_nat Bloom.BARREL_ALIGN * Z.of_nat Bloom.TABLE_MAX_BARRELS)). intros h E.
  destruct (vcs db !! path) as [cc|]; [|done]. exists cc. split; [done|].
  apply bind_Done_inv in E as (? & Ea & E). apply assert_Done, Nat.leb_le in Ea. apply bind_Done_inv in E as (? & _ & E). apply bind_Done_inv in E as (? & _ & E).
  apply bind_Done_inv in E as (ts & -> & E). injection E as <- <- <-. done.
Qed.

(** The tables that are merged, and the tables they are merged into. *)
Lemma merged_tables db V path n db1 mts_old tables d raw tables1 tables2 :
  disk_inv db V -> compaction_initial mmap malloc db path n = Done (db1, mts_old, tables) ->
  data_id db !! length path = Some d -> raws db !! d = Some raw ->
  compaction_feed_all SHA1 junk mts_old raw (sub_bit path) tables = Done tables1 -> compaction_build_bt_all junk tables1 = Done tables2 ->
  exists cc Ms, vcs db !! path = Some cc /\ mts_old = take n (metatables cc) /\ (n <= length (metatables cc))%nat /\ db1 = with_vcs db (create_subs 8 path (vcs db)) /\
    Forall2 (built SHA1 junk) tables2 Ms /\ length Ms = 8%nat /\ (forall j, (j < 8)%nat -> Ms !! j = Some (gets (sub_bit path) j (take n (V path)))) /\
    Forall (fun m => aligned (mt_off m.2)) mts_old.
Proof using Hjunk Hsha.
  intros HI E Hd Hr Ef Eb. apply compaction_initial_inv in E as (cc & Ecc & Ea & Et & -> & ->). destruct (di_conts _ _ HI path cc Ecc) as [[(d' & raw' & Hd' & Hr' & Ht) _ _] _].
  rewrite Hd in Hd'. injection Hd' as <-. rewrite Hr in Hr'. injection Hr' as <-.
  assert (Forall2 (table_ok SHA1 raw) (snd <$> take n (metatables cc)) (take n (V path))) as Hold by (rewrite fmap_take; by apply Forall2_take).
  destruct (feed_all_fed raw (sub_bit path) _ _ tables _ tables1 Hold (alloc_tables_spec 8 tables Et) Ef) as (Ms & HI1 & HMs).
  assert (forall j, (j < 8)%nat -> Ms !! j = Some (gets (sub_bit path) j (take n (V path)))) as Hget.
  { intros j Hj. rewrite HMs, lookup_replicate_2 by done. cbn. f_equal. apply (right_id_L ∅ (∪)). }
  assert (length Ms = 8%nat) as Hlen.
  { apply Nat.le_antisymm; [apply lookup_ge_None; by rewrite HMs|]. apply Nat.le_succ_l. eapply lookup_lt_Some, (Hget 7%nat). lia. }
  exists cc, Ms. split_and!; [done..| |done|done|].
  - apply (build_all_spec tables1); [done| |done]. apply Forall_lookup_2. intros j M HM. pose proof (lookup_lt_Some _ _ _ HM) as Hj. rewrite Hget in HM by lia. injection HM as <-.
    apply gets_small. eapply Forall2_Forall_r; [exact Hold|]. apply Forall_forall. intros m _ N HN. apply HN.
  - clear - Hold. revert Hold. generalize (take n (V path)). induction (take n (metatables cc)) as [|m l IH]; intros Ns Hf; [constructor|].
    rewrite fmap_cons in Hf. apply Forall2_cons_inv_l in Hf as (N & Ns' & Hm & Hf & _). constructor; [apply Hm|by eapply IH].
Qed.

Lemma compaction_spec rids db path n db' V :
  disk_inv db V -> devices db (live db (vcs db)) -> next_mtid db + 16 < 2 ^ 64 -> (length path < 4)%nat -> compaction_main SHA1 mmap malloc junk rids db path n = Done db' ->
  disk_inv db' (compacted V path n) /\ devices db' (live db' (vcs db')) /\ active_table0 db' = active_table0 db /\ active_table1 db' = active_table1 db /\
  data_id db' = data_id db /\ bc_id db' = bc_id db /\ next_mtid db' <= next_mtid db + 16 /\ length (cms_dump db') = length (cms_dump db).
Proof using Hjunk Hsha.
  intros HI HD Hnx Hp E. unfold compaction_main in E. apply bind_Done_inv in E as ([[db1 mts_old] tables] & E1 & E).
  apply bind_Done_inv in E as (d & Hd & E). apply bind_Done_inv in E as (raw & Hr & E). apply bind_Done_inv in E as (tables1 & Ef & E).
  apply bind_Done_inv in E as (tables2 & Eb & E). apply bind_Done_inv in E as ([db2 l] & E2 & E). apply bind_Done_inv in E as (db3 & E3 & E).
  apply load_Done_inv in Hd, Hr. rewrite start_bit_level in Hd.
  assert (exists v, db1 = with_vcs db v) as [v Ev] by (destruct (compaction_initial_inv _ _ _ _ _ _ E1) as (_ & _ & _ & _ & Ev & _); by eexists).
  rewrite Ev in Hd, Hr. cbn [with_vcs data_id raws] in Hd, Hr.
  destruct (merged_tables db V path n db1 mts_old tables d raw tables1 tables2 HI E1 Hd Hr Ef Eb) as (cc & Ms & Hcc & -> & Hn & -> & Hb & HlM & HMs & Hal).
  destruct (create_subs_inv db V path HI ltac:(by rewrite Hcc) Hp) as [HI1 Hsub]. set (v1 := create_subs 8 path (vcs db)) in *. set (db1 := with_vcs db v1) in *. clear v Ev.
  assert (devices db1 (live db1 (vcs db1))) as HD1.
  { apply (devices_maps db); [done|done|]. rewrite (live_frame db db1) by done. cbn [db1 with_vcs vcs]. unfold v1. by rewrite create_subs_live. }
  pose proof (Forall2_length _ _ _ Hb) as Hlt. rewrite HlM in Hlt.
  destruct (dump_all_spec SHA1 junk Hjunk Hsha rids path V tables2 Ms 0 db1 (live db1 (vcs db1)) db2 l HD1) as (HD2 & HF2 & Hn2 & Hl & Hnew); [rewrite Hlt; cbn; lia|done|done| |done|].
  { intros j Hj. rewrite (Forall2_length _ _ _ Hb), HlM in Hj. destruct (Hsub j ltac:(lia)) as [c Hc]. exists c. destruct (di_conts _ _ HI1 _ _ Hc) as [Hco Hlen].
    split; [done|]. split; [done|]. split; [by apply unit_lives|]. rewrite (cont_length _ _ _ _ Hco). unfold DB_CONTAINER_NR in Hlen. lia. }
  pose proof (disk_frame db1 db2 V _ HI1 ltac:(done) HF2) as HI2. pose proof (fr_vcs _ _ _ HF2) as Ev2.
  assert (vcs db2 !! path = Some cc) as Hcc2 by (rewrite Ev2; cbn [db1 with_vcs vcs]; unfold v1; by rewrite create_subs_lookup, Hcc).
  destruct (update_inv db2 V path n l db3 cc HI2 Hp) as (HI3 & HF3 & Ecm & Hn3 & Hperm); [by rewrite Hl, (Forall2_length _ _ _ Hb), HlM|done| |done|].
  { intros j m b c Hlj Hc. pose proof (lookup_lt_Some _ _ _ Hlj) as Hj. rewrite Hl, (Forall2_length _ _ _ Hb), HlM in Hj. rewrite Ev2 in Hc. apply (Hnew j m b _ c Hlj (HMs j Hj) Hc). }
  assert (data_id db3 = data_id db2 /\ bc_id db3 = bc_id db2) as [Ed3 Eb3] by (split; apply HF3).
  set (old := (fun i => old_bc db1 (path ++ [i])) <$> seq 0 8) in *.
  assert (devices db3 (table_units db3 path (take n (metatables cc)) ++ (old ≫= bc_unit db3) ++ live db2 (vcs db3))) as HD3.
  { apply (devices_maps db2); [done|done|]. eapply devices_perm; [|exact HD2]. rewrite (new_units_eq db2 db1) by (symmetry; apply HF2).
    rewrite (Permutation_app_comm (new_units _ _ _)), (live_frame db2 db1), <- Ev2 by (symmetry; apply HF2). rewrite <- Hperm.
    assert (old ≫= bc_unit db3 = seq 0 8 ≫= (fun j => bc_unit db2 (bc_at (vcs db2) (path ++ [j])))) as ->.
    { unfold old. rewrite list_fmap_bind. apply list_bind_ext; [|done]. intros j. unfold compose. rewrite (bc_unit_eq db2 db3) by done. by rewrite Ev2. }
    unfold table_units, level. rewrite Ed3. solve_Permutation. }
  destruct (free_old_spec db3 path _ old _ db' HD3 Hal) as (HD5 & HF & Hn5); [|done|].
  { apply Forall_forall. intros o Ho. unfold old in Ho. apply list_elem_of_fmap_1 in Ho as (i & -> & Hi). apply elem_of_seq in Hi. destruct (Hsub i ltac:(lia)) as [c Hc].
    unfold old_bc. cbn [db1 with_vcs vcs]. rewrite Hc. cbn. destruct (di_conts _ _ HI1 _ _ Hc) as [[_ Hbc _] _]. destruct (bc c) as [b|]; [|done].
    by destruct Hbc as (_ & _ & ? & _ & ? & _ & _ & _ & ?). }
  split_and!.
  - apply (disk_frame db3 db' _ (live db2 (vcs db3))); [done| |done]. by rewrite (live_frame db2 db3).
  - rewrite (live_frame db2 db'), (fr_vcs _ _ _ HF) by (rewrite ?(fr_data _ _ _ HF), ?(fr_bc _ _ _ HF); done). done.
  - rewrite (fr_active0 _ _ _ HF). change (active_table0 db3) with (active_table0 (with_vcs db3 (vcs db2))). by rewrite (fr_active0 _ _ _ HF3), (fr_active0 _ _ _ HF2).
  - rewrite (fr_active1 _ _ _ HF). change (active_table1 db3) with (active_table1 (with_vcs db3 (vcs db2))). by rewrite (fr_active1 _ _ _ HF3), (fr_active1 _ _ _ HF2).
  - by rewrite (fr_data _ _ _ HF), Ed3, (fr_data _ _ _ HF2).
  - by rewrite (fr_bc _ _ _ HF), Eb3, (fr_bc _ _ _ HF2).
  - rewrite Hn5, Hn3. rewrite Hlt in Hn2. cbn [db1 with_vcs next_mtid] in Hn2. lia.
  - by rewrite (fr_maps _ _ _ HF), Ecm, (fr_maps _ _ _ HF2).
Qed.
End tree.
