(* ===== verification/DbReload.v ===== *)
(** * Closing and opening the database

    db_load makes from what db_dump_meta saves a database with the same
    containers. *)

From stdpp Require Import gmap.
From S2P Require Import Prelude Bloom BloomProof BloomTable BloomContainer Mempool Cmap LsmTable LsmMem LsmLookup Stdio DbTable Db DbMeta DbInv DbProof DbText DbTree.
Import Lsm Cmap Db DbMeta.

Section reload.
Context (SHA1 : list Z -> list Z) `{Qsort} (junk : nat -> list Z) (mmap : bool -> Z -> bool) (malloc : Z -> bool).
Hypothesis Hjunk : forall n, length (junk n) = n.

(** ** The same tables *)

Lemma bloom_like N b b' fs : table_of fs b -> table_of fs b' -> Forall wf fs -> length fs = TABLE_NR_BARRELS -> bloom_ok SHA1 N b -> bloom_ok SHA1 N b'.
Proof.
  intros Hb Hb' Hw Hl Hok k. destruct (Hok k) as (r & E & Hr). exists r. split; [|done]. pose proof (select_lt (SHA1 k)) as Hs.
  destruct (lookup_lt_is_Some_2 fs (table_select_barrel (SHA1 k))) as [f Hf]; [lia|]. rewrite (bloomtable_match_spec fs b' _ f _ Hw Hb' Hf). by rewrite <- (bloomtable_match_spec fs b _ f _ Hw Hb Hf).
Qed.

Lemma table_like raw mt mt' N : mt_like mt mt' -> table_ok SHA1 raw mt N -> table_ok SHA1 raw mt' N.
Proof.
  intros (b' & -> & Hb) [(bs & [H1 H2 H3 H4 H5]) A1 A2 A3]. split; [exists bs; by split|done|done|]. cbn [set_bt mt_bt].
  destruct (mt_bt mt) as [b|], b' as [b'|]; try done. destruct Hb as (fs & F1 & F2 & F3 & F4). by apply (bloom_like N b b' fs).
Qed.

Lemma like_itself mt mt' : mt_like mt mt' -> mt_like mt' mt'.
Proof.
  intros (b' & -> & Hb). exists b'. split; [done|]. cbn [set_bt mt_bt]. destruct (mt_bt mt) as [b|], b' as [b'|]; try done. destruct Hb as (fs & _ & F2 & F3 & F4). by exists fs.
Qed.

Lemma cont_like db db' p cc cc' Ns :
  raws db' = raws db -> data_id db' = data_id db -> bc_id db' = bc_id db -> metafiles db' = metafiles db ->
  cc_like junk db cc cc' -> cont_ok SHA1 junk db p cc Ns -> cont_ok SHA1 junk db' p cc' Ns.
Proof.
  intros E1 E2 E3 E4 [Eb Hm] [(d & raw & Hd & Hr & Ht) Hbc Hf]. split; rewrite ?Eb, ?E1, ?E2, ?E3, ?E4; [|done|].
  - exists d, raw. split_and!; [done|done|]. apply Forall2_same_length_lookup_2.
    + pose proof (Forall2_length _ _ _ Ht) as Hl. rewrite length_fmap in Hl. by rewrite length_fmap, <- (Forall2_length _ _ _ Hm), Hl.
    + intros i mt' N Hi HN. rewrite list_lookup_fmap in Hi. destruct (metatables cc' !! i) as [m'|] eqn:Hm'; [|done]. injection Hi as <-.
      destruct (Forall2_lookup_r _ _ _ _ _ Hm Hm') as (m & Hi & _ & Hlk & _). eapply table_like; [exact Hlk|].
      eapply (Forall2_lookup_lr _ _ _ i); [exact Ht|by rewrite list_lookup_fmap, Hi|done].
  - apply Forall_lookup_2. intros i m' Hm'. destruct (Forall2_lookup_r _ _ _ _ _ Hm Hm') as (m & _ & E & Hlk & meta & Hfi & Hld). exists meta, m'.2. rewrite E.
    split_and!; [done|done|by eapply like_itself].
Qed.

(** ** The same cells *)

Definition strip (cc : Container) : Container := mkCC (bc cc) ((fun m => (m.1, set_bt m.2 None)) <$> metatables cc).

Lemma strip_units db p cc : units db p (strip cc) = units db p cc.
Proof. unfold units, strip, table_units, table_cells. cbn [bc metatables]. f_equal. by rewrite list_fmap_bind. Qed.

Lemma strip_live db v : live db (strip <$> v) ≡ₚ live db v.
Proof.
  unfold live. rewrite map_to_list_fmap, list_fmap_bind. apply reflexive_eq, list_bind_ext; [|done]. intros [p cc]. apply strip_units.
Qed.

Lemma like_live db v v' : (forall q, same_cc junk db (v !! q) (v' !! q)) -> live db v' ≡ₚ live db v.
Proof.
  intros Hs. rewrite <- (strip_live db v), <- (strip_live db v'). assert (strip <$> v' = strip <$> v) as ->; [|done]. apply map_eq. intros q. rewrite !lookup_fmap. specialize (Hs q).
  destruct (v !! q) as [cc|], (v' !! q) as [cc'|]; try done. cbn. f_equal. destruct Hs as [Eb Hm]. unfold strip. rewrite Eb. f_equal. revert Hm.
  generalize (own_filters (bc cc)). intros o Hm. induction Hm as [|m m' l l' (E & (b' & E' & _) & _) _ IH]; [done|]. rewrite !fmap_cons, IH. f_equal. by rewrite E, E'.
Qed.

Lemma disk_like db db' V :
  raws db' = raws db -> data_id db' = data_id db -> bc_id db' = bc_id db -> metafiles db' = metafiles db ->
  (forall q, same_cc junk db (vcs db !! q) (vcs db' !! q)) -> disk_inv SHA1 junk db V -> disk_inv SHA1 junk db' V.
Proof.
  intros E1 E2 E3 E4 Hs [H1 H2 H3 H4 H5].
  assert (forall q, is_Some (vcs db' !! q) <-> is_Some (vcs db !! q)) as Hdom by (intros q; specialize (Hs q); destruct (vcs db !! q), (vcs db' !! q); done).
  split.
  - intros p cc' Hp. specialize (Hs p). rewrite Hp in Hs. destruct (vcs db !! p) as [cc|] eqn:Ecc; [|done]. destruct (H1 p cc Ecc) as [Hco Hl].
    split; [by eapply cont_like|]. destruct Hs as [_ Hm]. by rewrite <- (Forall2_length _ _ _ Hm).
  - intros p Hp. apply H2. specialize (Hdom p). rewrite Hp in Hdom. destruct (vcs db !! p); [|done]. by destruct (proj2 Hdom).
  - by apply Hdom.
  - intros p i Hp. rewrite Hdom in *. by apply H4.
  - by rewrite E1, E2.
Qed.

(** ** Saving and loading *)

Lemma disk_readable db dbx V :
  data_id dbx = data_id db -> metafiles dbx = metafiles db -> disk_inv SHA1 junk db V -> devices db (live db (vcs db)) -> readable junk dbx (vcs db).
Proof.
  intros Ed Ef [H1 H2 H3 H4 H5] HD. pose proof (de_next _ _ HD) as Hn. assert (forall p cc c, vcs db !! p = Some cc -> c ∈ units db p cc -> c ∈ live db (vcs db)) as Hl.
  { intros p cc c Hp. by apply unit_lives. }
  split; rewrite ?Ed, ?Ef; [done| | | |].
  - intros n Hn5. destruct (H5 n Hn5) as (d & _ & Hd & _). by rewrite Hd.
  - intros p cc Hp. apply (H1 p cc Hp).
  - intros p cc Hp. destruct (H1 p cc Hp) as [[_ _ Hf] _]. apply Forall_forall. intros m Hm. split; [|exact (proj1 (Forall_forall _ _) Hf m Hm)].
    assert (0 < m.1 < next_mtid db); [|lia]. apply (de_files _ _ HD), (Hl p cc); [done|]. apply elem_of_app. left. by apply elem_of_table_cells.
  - intros p cc b Hp Hb. destruct (H1 p cc Hp) as [[_ Hbc _] _]. rewrite Hb in Hbc. destruct Hbc as (_ & Hs & _). split; [|done].
    assert (0 < b.1 < next_mtid db); [|lia]. apply (de_files _ _ HD), (Hl p cc); [done|]. apply elem_of_app. right. rewrite Hb. apply list_elem_of_further, list_elem_of_here.
Qed.

(** The device of a map, as stat describes it. *)
Definition raw_of (cm : ContainerMap) : Raw := mkRaw (discard cm) (total_cap cm).

Lemma maps_roundtrip grows cms :
  Forall (fun cm => exists U, cm_inv cm U /\ nr_units cm = total_cap cm / CONTAINER_UNIT_SIZE /\ total_cap cm < 2 ^ 63) cms ->
  exists files, dump_maps cms = Done files /\ length files = length cms /\ load_maps grows (raw_of <$> cms) files = Done cms.
Proof.
  induction cms as [|cm cms IH]; intros Hf; [by exists []|]. apply Forall_cons in Hf as [(U & HI & Hu & Ht) Hf]. destruct (IH Hf) as (files & E1 & E2 & E3).
  destruct (dump_load cm U grows HI Hu Ht) as (f & F1 & F2). exists (f :: files). rewrite fmap_cons. cbn [dump_maps load_maps length]. rewrite F1. run. rewrite E1. run.
  split; [done|]. split; [by rewrite E2|]. fold (raw_of cm) in F2. rewrite F2. run. rewrite E3. by run.
Qed.

Lemma mapM_lookup {A} (l : list A) : mapM (fun i => l !! i) (seq 0 (length l)) = Some l.
Proof. apply mapM_Some, Forall2_same_length_lookup_2; [by rewrite length_seq|]. intros i j x Hj Hx. apply lookup_seq in Hj as [-> _]. done. Qed.

(** The identifiers of the devices are in range. *)
Definition ids_ok (db : DB) : Prop := forallb (fun d => d <? length (cms_dump db))%nat (bc_id db :: data_id db) = true.

(** What db_dump_meta writes, and the database that db_load makes of it with
    the active table [t]. *)
Definition reopened (db : DB) (v : gmap (list nat) Container) (t : Table) : DB :=
  mkDB (Some t) Null v (cms_dump db) (raws db) (data_id db) (bc_id db) (metafiles db) (next_mtid db).

Definition load_again (grows : bool) (db : DB) (text : list Z) (maps : list (list Z)) : exec (option DB) :=
  db_load mmap malloc junk grows (raw_of <$> cms_dump db) (raws db) (data_id db) (bc_id db) (metafiles db) (Some text) (fun i => maps !! i).

Lemma load_alloc grows db text maps db' : load_again grows db text maps = Done (Some db') -> exists t, table_alloc_default mmap malloc ACTIVE_FACTOR = Done t.
Proof.
  unfold load_again, db_load. destruct (mapM _ _) as [files|]; [|done]. intros E. apply bind_Done_inv in E as (cms & _ & E). apply bind_Done_inv in E as (dbx & E & _).
  unfold db_initial in E. apply bind_Done_inv in E as (? & _ & E). apply bind_Done_inv in E as (t & Et & _). by exists t.
Qed.

Lemma reload db V grows : disk_inv SHA1 junk db V -> devices db (live db (vcs db)) -> ids_ok db ->
  exists text maps, db_dump_meta db = (_ ← end_of_maps db; Done (text, maps)) /\
    forall t, table_alloc_default mmap malloc ACTIVE_FACTOR = Done t ->
    exists v, load_again grows db text maps = Done (Some (reopened db v t)) /\ forall q, same_cc junk db (vcs db !! q) (v !! q).
Proof using Hjunk.
  intros HI HD Hids. pose proof (de_next _ _ HD) as Hn. destruct (fmt_lu_spec (next_mtid db) ltac:(lia)) as (Hpl & Hl & Hval).
  pose proof (plain_no_newline 10 _ ltac:(done) Hpl) as Hnn.
  destruct (tree_roundtrip junk Hjunk db (vcs db) (disk_readable db db V eq_refl eq_refl HI HD)) as (text & Et & Hlen & _). specialize (Hlen (di_root _ _ _ _ HI)).
  destruct (maps_roundtrip grows (cms_dump db)) as (maps & Em & Elm & Elo).
  { apply Forall_lookup_2. intros d cm Hd. destruct (de_maps _ _ HD d cm Hd) as (U & H1 & H2 & _). by exists U. }
  exists (text ++ fmt_lu (next_mtid db) ++ newline), maps. split; [unfold db_dump_meta; rewrite Et; run; rewrite Em; by run|]. intros t Ealloc.
  unfold load_again, db_load. rewrite length_fmap, <- Elm, mapM_lookup, Elo. run. unfold db_initial. unfold ids_ok in Hids. rewrite Hids. cbn [Bloom.assert]. run. rewrite Ealloc. clear Ealloc. run.
  set (dbx := mkDB _ _ _ _ _ _ _ _ _).
  destruct (tree_roundtrip junk Hjunk dbx (vcs db) (disk_readable db dbx V eq_refl eq_refl HI HD)) as (text' & Et' & _ & Hparse). rewrite Et in Et'. injection Et' as <-.
  destruct (Hparse (length (text ++ fmt_lu (next_mtid db) ++ newline)) (fmt_lu (next_mtid db) ++ newline)) as (v & Ep & Hs); [rewrite length_app; lia|]. rewrite Ep. run.
  assert (is_Some (v !! [])) as Hroot by (destruct (di_root _ _ _ _ HI) as [cc Hcc]; specialize (Hs []); rewrite Hcc in Hs; by destruct (v !! [])).
  rewrite bool_decide_true by done. cbn [Bloom.assert]. run. destruct (fgets_line (junk 32) 30 (fmt_lu (next_mtid db)) []) as (tl & Ef & _); [lia|rewrite Hjunk; lia|done|].
  unfold newline. rewrite Ef. run. rewrite Hval. run. rewrite (proj2 (Z.ltb_lt _ _)) by lia. cbn [Bloom.assert]. run. exists v. split; [done|exact Hs].
Qed.

(** The new database holds what the old one holds on disk. *)
Lemma reopened_inv db V v t :
  disk_inv SHA1 junk db V -> devices db (live db (vcs db)) -> (forall q, same_cc junk db (vcs db !! q) (v !! q)) ->
  disk_inv SHA1 junk (reopened db v t) V /\ devices (reopened db v t) (live (reopened db v t) v).
Proof.
  intros HI HD Hs. split; [by apply (disk_like db)|]. apply (devices_maps db); [done|done|]. rewrite (live_frame db) by done. by rewrite (like_live db (vcs db) v Hs).
Qed.
End reload.
