(* ===== verification/DbSystem.v ===== *)
(** * The database answers lookups with what was inserted

    The steps of the database against a store of three maps: the pairs in the
    active table, those in the table that is being written, and those on disk.
    A lookup returns the value inserted last, unless the table it was in was
    dropped, or not yet written when the database was loaded again: then it
    returns an older value from the disk, or nothing.  A compaction that
    returns changes nothing that a lookup can see; one that meets an empty
    barrel fails. *)

From Stdlib Require Import SpecFloat.
From stdpp Require Import gmap.
From S2P Require Import Prelude Bloom BloomProof BloomPages BloomContainer Mempool Cmap LsmTable LsmMem LsmLookup LsmSystem DbTable DbConf Db DbMeta DbInv DbProof DbText DbTree DbReload.
Import Lsm Cmap Db DbMeta.

(** ** Lookups in a container *)

Lemma bit_set bitmap j : 0 <= bitmap -> (Z.land bitmap (Z.shiftl 1 (Z.of_nat j)) =? 0) = negb (Z.testbit bitmap (Z.of_nat j)).
Proof.
  intros Hb. rewrite Z.shiftl_1_l. destruct (Z.testbit bitmap (Z.of_nat j)) eqn:E; cbn [negb].
  - apply Z.eqb_neq. intros E0. assert (Z.testbit (Z.land bitmap (2 ^ Z.of_nat j)) (Z.of_nat j) = false) as Hf by (rewrite E0; apply Z.bits_0).
    rewrite Z.land_spec, E, Z.pow2_bits_true in Hf by lia. done.
  - apply Z.eqb_eq, Z.bits_inj'. intros i Hi. rewrite Z.land_spec, Z.bits_0. destruct (decide (i = Z.of_nat j)) as [->|Hne]; [by rewrite E|].
    rewrite Z.pow2_bits_false by lia. apply andb_false_r.
Qed.

Section system.
Context (SHA1 : list Z -> list Z) `{Qsort} (junk : nat -> list Z) (mmap : bool -> Z -> bool) (malloc : Z -> bool).
Hypothesis Hjunk : forall n, length (junk n) = n.
Hypothesis Hsha : forall k, length (SHA1 k) = 20%nat /\ Forall is_u8 (SHA1 k).

Lemma lookup_tables_spec raw bitmap k mts : forall Ns,
  Forall2 (table_ok SHA1 raw) (snd <$> mts) Ns -> 0 <= bitmap ->
  (forall j N, Ns !! j = Some N -> is_Some (N !! k) -> Z.testbit bitmap (Z.of_nat j) = true) ->
  lookup_tables junk (rev mts) raw bitmap k (SHA1 k) = Done (mkKV k <$> newest Ns !! k).
Proof using Hsha.
  induction mts as [|[x mt] mts IH] using rev_ind; intros Ns Ht Hb Hbits.
  { apply Forall2_nil_inv_l in Ht as ->. unfold newest. cbn. by rewrite lookup_empty. }
  rewrite fmap_app in Ht. apply Forall2_app_inv_l in Ht as (Ns' & l & Ht & Hl & ->). apply Forall2_cons_inv_l in Hl as (N & l' & [(bs & HD) _ _ Hbl] & Hl & ->).
  apply Forall2_nil_inv_l in Hl as ->. rewrite rev_unit. cbn [lookup_tables]. rewrite bit_set by done. rewrite newest_app, newest_one, lookup_union.
  assert (length (rev mts) = length Ns') as -> by (rewrite length_rev; apply Forall2_length in Ht; by rewrite length_fmap in Ht).
  specialize (IH Ns' Ht Hb). assert (lookup_tables junk (rev mts) raw bitmap k (SHA1 k) = Done (mkKV k <$> newest Ns' !! k)) as IH'.
  { apply IH. intros j N' Hj. apply Hbits. by apply lookup_app_l_Some. }
  specialize (Hbits (length Ns') N). rewrite list_lookup_middle in Hbits by done. specialize (Hbits eq_refl).
  destruct (Z.testbit bitmap (Z.of_nat (length Ns'))); cbn [negb].
  - destruct (metatable_lookup_spec SHA1 Hsha junk bs N mt raw k None HD Hbl) as (s' & ->). run. destruct (N !! k) as [v|]; cbn; [by destruct (newest Ns' !! k)|].
    rewrite IH'. by destruct (newest Ns' !! k).
  - rewrite IH'. destruct (N !! k) as [v|]; [discriminate (Hbits ltac:(done))|]. by destruct (newest Ns' !! k).
Qed.

Lemma container_bits db p cc Ns k :
  cont_ok SHA1 junk db p cc Ns -> (length (metatables cc) <= DB_CONTAINER_NR)%nat ->
  exists bitmap, match bc cc with
                 | None => Done (2 ^ 64 - 1)
                 | Some (_, b) => raw ← load (raws db) (bc_id db);
                     Bloom.bloomcontainer_match b raw (Z.of_nat (table_select_barrel (SHA1 k))) (__hash_bf (SHA1 k))
                 end = Done bitmap /\ 0 <= bitmap /\
    forall j N, Ns !! j = Some N -> is_Some (N !! k) -> Z.testbit bitmap (Z.of_nat j) = true.
Proof.
  intros Hco Hlen. pose proof (cont_length SHA1 junk db p cc Ns Hco) as Hl. destruct Hco as [_ Hbc _]. destruct (bc cc) as [[x b]|].
  - destruct Hbc as (_ & _ & raw & Hr & tss & Hs & Hok & Hf & _). rewrite (load_Done _ _ _ Hr). run.
    destruct (match_stores TABLE_NR_BARRELS tss b raw (table_select_barrel (SHA1 k)) (__hash_bf (SHA1 k)) Hs Hok (select_lt _)) as (bits & -> & Hb & Hl').
    exists bits. split; [done|]. split; [done|]. intros j N Hj HN. rewrite Hl', (column_lookup TABLE_NR_BARRELS) by (apply Hok || apply select_lt).
    destruct (Forall2_lookup_r _ _ _ _ _ Hf Hj) as (fs & Hfs & Hfor). rewrite Hfs. cbn [mbind option_bind]. destruct (Hfor k HN) as (f & -> & Hh). cbn [fmap option_fmap option_map]. by rewrite Hh.
  - exists (2 ^ 64 - 1). split; [done|]. split; [done|]. intros j N Hj _. apply lookup_lt_Some in Hj. unfold DB_CONTAINER_NR in Hlen.
    change (2 ^ 64 - 1) with (Z.ones 64). apply Z.ones_spec_low. lia.
Qed.

(** ** The path of a key *)

Definition turn (k : list Z) (i : nat) : nat := selected (SHA1 k) (Z.of_nat (3 * i) + 3).
Definition route (k : list Z) (n : nat) : list nat := turn k <$> seq 0 n.

Lemma route_S k n : route k (S n) = route k n ++ [turn k n].
Proof. unfold route. by rewrite seq_S, fmap_app. Qed.
Lemma length_route k n : length (route k n) = n.
Proof. unfold route. by rewrite length_fmap, length_seq. Qed.
Lemma route_bit k n : sub_bit (route k n) = Z.of_nat (3 * n) + 3.
Proof. unfold sub_bit, start_bit. by rewrite length_route. Qed.
Lemma turn_lt k n : (turn k n < 8)%nat.
Proof.
  assert (forall x, (Z.to_nat (Z.land x 7) < 8)%nat) as Hx; [|apply Hx].
  intros x. change 7 with (Z.ones 3). rewrite Z.land_ones by lia. pose proof (Z.mod_pos_bound x (2 ^ 3) eq_refl) as Hm. change (2 ^ 3) with 8 in *. lia.
Qed.

(** What the [n] containers from depth [m] on hold for [k]. *)
Fixpoint deep (V : list nat -> list kvmap) (k : list Z) (m n : nat) : kvmap :=
  match n with O => ∅ | S n' => newest (V (route k m)) ∪ deep V k (S m) n' end.

Lemma deep_ext V V' k n : forall m, (forall i, (m <= i < m + n)%nat -> V (route k i) = V' (route k i)) -> deep V k m n = deep V' k m n.
Proof. induction n as [|n IH]; intros m E; [done|]. cbn [deep]. rewrite (E m) by lia. f_equal. apply IH. intros i Hi. apply E. lia. Qed.

Lemma deep_add V k a b : forall m, deep V k m (a + b) = deep V k m a ∪ deep V k (m + a) b.
Proof.
  induction a as [|a IH]; intros m; cbn [deep Nat.add]; [by rewrite (left_id_L ∅ (∪)), Nat.add_0_r|]. rewrite IH, map_union_assoc. by rewrite Nat.add_succ_comm.
Qed.

Lemma deep_none db V k n : forall m, disk_inv SHA1 junk db V -> vcs db !! route k m = None -> deep V k m n = ∅.
Proof.
  induction n as [|n IH]; intros m HI Hm; [done|]. cbn [deep]. rewrite (di_none _ _ _ _ HI) by done. rewrite (IH (S m) HI); [apply (left_id_L ∅ (∪))|].
  destruct (vcs db !! route k (S m)) as [c|] eqn:E; [|done]. rewrite route_S in E. destruct (di_closed _ _ _ _ HI (route k m) (turn k m)) as [[c' Hc'] _]; [by rewrite E|congruence].
Qed.

Lemma recursive_lookup_deep db V k n : forall m fuel,
  disk_inv SHA1 junk db V -> is_Some (vcs db !! route k m) -> (m + n = 5)%nat -> (n <= S fuel)%nat ->
  recursive_lookup junk fuel db (route k m) k (SHA1 k) = Done (mkKV k <$> deep V k m n !! k).
Proof using Hsha.
  induction n as [|n IH]; intros m fuel HI Hm Hn Hf; [pose proof (di_depth _ _ _ _ _ HI Hm) as Hd; rewrite length_route in Hd; lia|].
  destruct Hm as [cc Hcc]. destruct (di_conts _ _ _ _ HI _ _ Hcc) as [Hco Hlen]. destruct (container_bits db (route k m) cc _ k Hco Hlen) as (bitmap & Eb & Hb & Hbits).
  pose proof Hco as [(d & raw & Hd & Hr & Ht) _].
  assert (recursive_lookup junk fuel db (route k m) k (SHA1 k) =
    match newest (V (route k m)) !! k with
    | Some v => Done (Some (mkKV k v))
    | None => match vcs db !! route k (S m), fuel with None, _ => Done None | Some _, O => NoFuel | Some _, S fuel' => recursive_lookup junk fuel' db (route k (S m)) k (SHA1 k) end
    end) as ->.
  { destruct fuel; cbn [recursive_lookup]; rewrite Hcc, Eb; run; rewrite start_bit_level, (load_Done _ _ _ Hd); run; rewrite (load_Done _ _ _ Hr); run;
      rewrite (lookup_tables_spec raw bitmap k (metatables cc) (V (route k m)) Ht Hb Hbits); run; destruct (newest (V (route k m)) !! k); cbn [fmap option_fmap option_map]; try done;
      unfold compaction_select_table; fold (sub_bit (route k m)); rewrite route_bit, (proj2 (Z.leb_le _ _)) by lia; cbn [Bloom.assert]; run; fold (turn k m); by rewrite <- route_S. }
  cbn [deep]. rewrite lookup_union. destruct (newest (V (route k m)) !! k) as [v|]; [by destruct (deep V k (S m) n !! k)|].
  destruct (vcs db !! route k (S m)) as [c|] eqn:Ec.
  - pose proof (di_depth _ _ _ _ _ HI (ltac:(by rewrite Ec) : is_Some (vcs db !! route k (S m)))) as Hdep. rewrite length_route in Hdep.
    destruct fuel as [|fuel]; [lia|]. rewrite (IH (S m) fuel HI) by (lia || by rewrite Ec). by destruct (deep V k (S m) n !! k).
  - by rewrite (deep_none db V k n (S m) HI Ec), lookup_empty.
Qed.

(** Compaction changes nothing along the path of a key. *)
Lemma compacted_deep V path n k : (length path < 4)%nat -> deep (compacted SHA1 V path n) k 0 5 !! k = deep V k 0 5 !! k.
Proof.
  intros Hp. set (a := length path) in *. set (V' := compacted SHA1 V path n).
  assert (forall i, i <> a -> i <> S a -> V' (route k i) = V (route k i)) as Hout.
  { intros i H1 H2. unfold V', compacted. rewrite decide_False by (intros E; apply H1; unfold a; rewrite <- E; by rewrite length_route).
    rewrite decide_False; [done|]. intros Hc. apply elem_of_children in Hc as (j & _ & E). apply H2. apply (f_equal length) in E. rewrite length_route, length_app in E. cbn in E. lia. }
  destruct (decide (route k a = path)) as [Er|Hne].
  - assert (V' (route k a) = drop n (V path)) as Ha by (unfold V', compacted; by rewrite Er, decide_True).
    assert (V' (route k (S a)) = V (route k (S a)) ++ [gets SHA1 (sub_bit path) (turn k a) (take n (V path))]) as Hc.
    { unfold V'. rewrite route_S, Er. apply compacted_child, turn_lt. }
    replace 5%nat with (a + S (S (3 - a)))%nat by lia. rewrite !deep_add. cbn [Nat.add deep]. rewrite Ha, Hc, Er.
    rewrite (deep_ext V' V k a 0), (deep_ext V' V k (3 - a) (S (S a))) by (intros i Hi; apply Hout; lia). apply union_lookup_eq_r.
    rewrite newest_app, newest_one. rewrite <- (take_drop n (V path)) at 3. rewrite newest_app, <- !map_union_assoc. apply union_lookup_eq_r, union_lookup_eq.
    rewrite gets_lookup, <- Er, route_bit, decide_True; done.
  - f_equal. apply deep_ext. intros i Hi. destruct (decide (i = a)) as [->|H1]; [|destruct (decide (i = S a)) as [->|H2]; [|by apply Hout]]; unfold V', compacted; rewrite decide_False.
    + rewrite decide_False; [done|]. intros Hc. apply elem_of_children in Hc as (j & _ & E). apply (f_equal length) in E. rewrite length_route, length_app in E. cbn in E. unfold a in E. lia.
    + done.
    + rewrite decide_False; [done|]. intros Hc. apply elem_of_children in Hc as (j & _ & E). rewrite route_S in E. apply app_one_inj in E as [E _]. done.
    + intros E. apply (f_equal length) in E. rewrite length_route in E. unfold a in E. lia.
Qed.

(** ** The store *)

(** The pairs in the active table, in the table that is being written, on disk. *)
Record store := mkStore { fresh : kvmap; frozen : kvmap; disk : kvmap }.

Definition content (s : store) : kvmap := fresh s ∪ (frozen s ∪ disk s).

Definition put_kv (M : kvmap) (kv : KeyValue) : kvmap := <[kv_key kv:=kv_value kv]> M.

(** [Insert] with whether the table took the pair; [Multi] with the pairs that
    were left; [Shift], also the one of db_close; [Dump] with whether the table
    was written or dropped; [Quit], the end of the dumper; [Reopen], saving and
    loading again. *)
Inductive op := Insert (kv : KeyValue) (ri : bool) | Multi (kvs rest : list KeyValue) | Shift | Dump (written : bool) | Compact | Quit | Reopen.

(** The pairs an operation has stored. *)
Definition stores_kvs (o : op) : list KeyValue :=
  match o with
  | Insert kv true => [kv]
  | Multi kvs rest => take (length kvs - length rest) kvs
  | _ => []
  end.

Definition store_step (s : store) (o : op) : store :=
  match o with
  | Shift => mkStore ∅ (fresh s) (disk s)
  | Dump true => mkStore (fresh s) ∅ (frozen s ∪ disk s)
  | Dump false => mkStore (fresh s) ∅ (disk s)
  | Quit => mkStore ∅ (frozen s) (disk s)
  | Reopen => mkStore ∅ ∅ (disk s)
  | _ => mkStore (foldl put_kv (fresh s) (stores_kvs o)) (frozen s) (disk s)
  end.

Definition store_run (ops : list op) : store := foldl store_step (mkStore ∅ ∅ ∅) ops.

(** A pair that fits on a page. *)
Definition fits (kv : KeyValue) : Prop := kv_ok kv /\ kv_size kv <= Z.of_nat BARREL_CAP.

(** The steps of the database: inserting, the two parts of a turn of the
    dumper, one compaction of a container that is not on the last level.  The
    dumper turns when the active table is full, or has something in it and the
    database is closing; it ends when the table is empty.  The database is
    loaded from the files it saved and from devices that did not change. *)
Inductive db_step (db : DB) : op -> DB -> Prop :=
  | step_insert kv ri db' : fits kv -> db_insert_try SHA1 junk db kv = Done (db', ri) -> db_step db (Insert kv ri) db'
  | step_multi kvs rest db' : Forall fits kvs -> db_multi_insert_try SHA1 junk db kvs = Done (db', rest) -> db_step db (Multi kvs rest) db'
  | step_shift (closing : bool) t db' : active_table0 db = Some t -> (if closing then 0 <? tvolume t else table_full t) = true -> active_table1 db = Null ->
      active_shift mmap malloc closing db = Done db' -> db_step db Shift db'
  | step_dump rids full db' : near_full db = Done full -> active_dump junk rids db = Done db' -> db_step db (Dump (negb full)) db'
  | step_compact rids path cc db' : vcs db !! path = Some cc -> (start_bit path < BC_START_BIT)%nat -> vc_count_feed cc <> O ->
      compaction_main SHA1 mmap malloc junk rids db path (vc_count_feed cc) = Done db' -> db_step db Compact db'
  | step_quit t : active_table0 db = Some t -> tvolume t = 0 -> db_step db Quit (active_quit db)
  | step_reopen grows text maps db' : db_dump_meta db = Done (text, maps) -> load_again junk mmap malloc grows db text maps = Done (Some db') -> db_step db Reopen db'.

Inductive db_reach (db0 : DB) : list op -> DB -> Prop :=
  | reach_start : db_reach db0 [] db0
  | reach_step ops db o db' : db_reach db0 ops db -> db_step db o db' -> db_reach db0 (ops ++ [o]) db'.

(** ** The invariant *)

Definition ACTIVE_CAP : Z := 25113606.

Definition active_ok (t : Table) (M : kvmap) : Prop := mem_inv SHA1 t M /\ small_map M /\ capacity t = ACTIVE_CAP.

(** The containers hold [D]. *)
Definition tree_ok (db : DB) (D : kvmap) : Prop :=
  exists V, disk_inv SHA1 junk db V /\ devices db (live db (vcs db)) /\ forall k, D !! k = deep V k 0 5 !! k.

Record db_inv (db : DB) (s : store) : Prop := {
  db_fresh : match active_table0 db with None => fresh s = ∅ | Some t => active_ok t (fresh s) end;
  db_frozen : match active_table1 db with Null => frozen s = ∅ | Live t => active_ok t (frozen s) /\ 0 < tvolume t | Freed => False end;
  db_tree : tree_ok db (disk s);
  db_ids : ids_ok db }.

(** What no step changes: the devices. *)
Definition same_layout (db db' : DB) : Prop := data_id db' = data_id db /\ bc_id db' = bc_id db /\ length (cms_dump db') = length (cms_dump db).

Lemma ids_same db db' : same_layout db db' -> ids_ok db -> ids_ok db'.
Proof. intros (E1 & E2 & E3). unfold ids_ok. by rewrite E1, E2, E3. Qed.

(** A step keeps the invariant, and takes few numbers for files. *)
Definition step_ok (db db' : DB) (s' : store) : Prop := db_inv db' s' /\ same_layout db db' /\ next_mtid db' <= next_mtid db + 16.

Lemma alloc_default_ok factor t : table_alloc_default mmap malloc factor = Done t -> active_ok t ∅ /\ tvolume t = 0.
Proof.
  unfold table_alloc_default. intros E. pose proof (table_alloc_new_spec SHA1 _ _ _ _ _ E) as HI. unfold table_alloc_new in E.
  apply bind_Done_inv in E as (msize & _ & E). apply bind_Done_inv in E as (pool & _ & E). apply bind_Done_inv in E as (cap & Ec & E).
  assert (cap = ACTIVE_CAP) as -> by (assert (to_uint64 (fmul (double_of (Z.of_nat TABLE_NR_BARRELS * Z.of_nat BARREL_CAP)) TABLE_VOLUME_PERCENT) = Done 25113606) as Ev by (vm_compute; reflexivity);
    rewrite Ev in Ec; by injection Ec).
  destruct pool as [pool|]; [|discriminate E]. apply bind_Done_inv in E as (r & Er & E). destruct r as [t'|]; [|discriminate E]. apply Done_inj in E as <-. unfold table_initial in Er.
  generalize dependent (empty_barrel <$> seq 0 TABLE_NR_BARRELS). intros bs Er.
  destruct (Mempool.mempool_alloc _ _) as [p [o|]]; [|discriminate Er]. apply bind_Done_inv in Er as (u & _ & Er). injection Er as <-. split; [|done]. split; [done|]. split; [|done].
  intros k v Hk. by rewrite lookup_empty in Hk.
Qed.

Lemma insert_capacity t kv t' r : table_insert_kv_safe SHA1 junk t kv = Done (t', r) -> capacity t' = capacity t.
Proof.
  unfold table_insert_kv_safe. intros E. destruct (table_full t); [by injection E as <- _|]. apply bind_Done_inv in E as ([pool it] & _ & E).
  destruct it as [it|]; [|by injection E as <- _]. apply bind_Done_inv in E as (t1 & E1 & E). injection E as <- _. unfold table_insert_item in E1.
  apply bind_Done_inv in E1 as (b & _ & E1). apply bind_Done_inv in E1 as (b' & _ & E1). by injection E1 as <-.
Qed.

Lemma insert_ok t M kv t' ri :
  active_ok t M -> fits kv -> table_insert_kv_safe SHA1 junk t kv = Done (t', ri) -> active_ok t' (if ri then put_kv M kv else M).
Proof using Hjunk.
  intros (HI & Hs & Hc) [Hk Hz] E. pose proof (insert_capacity _ _ _ _ E) as Ec. destruct (insert_kv_spec SHA1 junk Hjunk t M kv HI Hk) as (t1 & E1 & HI1).
  rewrite E in E1. injection E1 as <- ->. split; [by destruct (refuses t kv)|]. split; [|congruence]. destruct (refuses t kv); cbn [negb]; [done|].
  intros k v Hkv. unfold put_kv in Hkv. apply lookup_insert_Some in Hkv as [[<- <-]|[_ Hkv]]; [by destruct kv|by apply Hs].
Qed.

(** Changes of the active tables. *)
Lemma tree_same db db' D : vcs db' = vcs db -> raws db' = raws db -> data_id db' = data_id db -> bc_id db' = bc_id db -> cms_dump db' = cms_dump db ->
  metafiles db' = metafiles db -> next_mtid db' = next_mtid db -> tree_ok db D -> tree_ok db' D.
Proof.
  intros E1 E2 E3 E4 E5 E6 E7 (V & [H1 H2 H3 H4 H5] & HD & Hk). exists V. split; [|split; [|done]].
  - split; rewrite ?E1, ?E2, ?E3; try done. intros p cc Hp. destruct (H1 p cc Hp) as [[A B C] D']. split; [|done]. split; rewrite ?E2, ?E3, ?E4, ?E6; done.
  - apply (devices_maps db); [done|done|]. rewrite (live_frame db db'), E1 by done. done.
Qed.

Lemma insert_try_inv db s kv db' ri : db_inv db s -> fits kv -> db_insert_try SHA1 junk db kv = Done (db', ri) -> step_ok db db' (store_step s (Insert kv ri)).
Proof using Hjunk.
  intros [Ht Hf Hd Hi] Hkv E. unfold db_insert_try in E. destruct (active_table0 db) as [t|]; [|done]. apply bind_Done_inv in E as ([t' r] & E1 & E). injection E as <- ->.
  pose proof (insert_ok _ _ _ _ _ Ht Hkv E1) as Ht'. assert (fresh (store_step s (Insert kv ri)) = if ri then put_kv (fresh s) kv else fresh s) as Ef by (by destruct ri).
  split; [|split; [done|cbn; lia]]. split; [cbn [active_table0]; by rewrite Ef|by destruct ri| |exact Hi]. eapply tree_same; [..|destruct ri; exact Hd]; done.
Qed.

Lemma multi_inv kvs : forall db s db' rest,
  db_inv db s -> Forall fits kvs -> db_multi_insert_try SHA1 junk db kvs = Done (db', rest) ->
  exists before, kvs = before ++ rest /\ db_inv db' (mkStore (foldl put_kv (fresh s) before) (frozen s) (disk s)) /\ same_layout db db' /\ next_mtid db' = next_mtid db.
Proof using Hjunk.
  induction kvs as [|kv kvs IH]; intros db s db' rest HI Hf E; cbn [db_multi_insert_try] in E; [injection E as <- <-; exists []; by destruct s|].
  apply Forall_cons in Hf as [Hkv Hf']. apply bind_Done_inv in E as ([db1 ri] & E1 & E). destruct (insert_try_inv _ _ _ _ _ HI Hkv E1) as (HI1 & HL & _).
  assert (next_mtid db1 = next_mtid db) as Hn1.
  { unfold db_insert_try in E1. destruct (active_table0 db); [|done]. apply bind_Done_inv in E1 as ([? ?] & _ & E1). by injection E1 as <- _. }
  destruct ri.
  - destruct (IH _ _ _ _ HI1 Hf' E) as (before & -> & HI2 & (L1 & L2 & L3) & Hn). exists (kv :: before). split; [done|]. split; [done|]. destruct HL as (M1 & M2 & M3).
    split; [split_and!; congruence|congruence].
  - injection E as <- <-. exists []. by destruct s.
Qed.

(** The root takes a table. *)
Lemma root_insert db V N root m :
  disk_inv SHA1 junk db V -> vcs db !! [] = Some root -> cont_ok SHA1 junk db [] (mkCC None (metatables root ++ [m])) (V [] ++ [N]) -> (length (metatables root) < DB_CONTAINER_NR)%nat ->
  exists V', disk_inv SHA1 junk (with_vcs db (<[[]:=mkCC None (metatables root ++ [m])]> (vcs db))) V' /\ forall k, deep V' k 0 5 = N ∪ deep V k 0 5.
Proof.
  intros [H1 H2 H3 H4 H5] Hr Hco Hlt. exists (fun q => if decide (q = []) then V [] ++ [N] else V q). split.
  - split; cbn [with_vcs vcs data_id raws]; [| | | |done].
    + intros p cc Hp. destruct (decide (p = [])) as [->|Hne].
      * rewrite lookup_insert_eq in Hp. injection Hp as <-. split; [by destruct Hco; split|]. cbn [metatables]. rewrite length_app. cbn. lia.
      * rewrite lookup_insert_ne in Hp by done. destruct (H1 p cc Hp) as [[] ?]. by split.
    + intros p Hp. destruct (decide (p = [])) as [->|Hne]; [by rewrite lookup_insert_eq in Hp|]. rewrite lookup_insert_ne in Hp by done. by apply H2.
    + by rewrite lookup_insert_eq.
    + intros p i Hp. rewrite lookup_insert_ne in Hp by (by destruct p). destruct (H4 p i Hp) as (Hs & Hl & Hi). split; [|done].
      destruct (decide (p = [])) as [->|Hne]; [by rewrite lookup_insert_eq|by rewrite lookup_insert_ne].
  - intros k. cbn [deep]. change (route k 0) with (@nil nat). rewrite decide_True by done. rewrite newest_app, newest_one, <- map_union_assoc.
    rewrite !decide_False by (intros E; apply (f_equal length) in E; by rewrite length_route in E). done.
Qed.

Lemma dump_inv rids db s db' full :
  db_inv db s -> next_mtid db + 16 < 2 ^ 64 -> near_full db = Done full -> active_dump junk rids db = Done db' -> step_ok db db' (store_step s (Dump (negb full))).
Proof using Hjunk Hsha.
  intros [Hfr Hfz (V & HI & HD & Hk) Hids] Hnx En E. unfold active_dump in E. destruct (active_table1 db) as [|t|] eqn:Et; [done| |done]. destruct Hfz as [(Hm & Hs & _) Hv].
  rewrite En in E. cbn [mbind exec_bind] in E. destruct full; cbn [negb store_step].
  { injection E as <-. split; [|split; [done|cbn; lia]]. split; [done|done| |done]. apply (tree_same db); [done..|]. by exists V. }
  rewrite (proj2 (Z.ltb_lt _ _)) in E by done. apply bind_Done_inv in E as (t1 & Eb & E). apply bind_Done_inv in E as ([[db1 t2] mtid] & Ed & E).
  apply bind_Done_inv in E as (mt & El & E). destruct (vcs db1 !! []) as [root|] eqn:Er; [|done]. apply bind_Done_inv in E as (root' & Ei & E). injection E as <-.
  destruct (table_dump_spec SHA1 junk Hjunk Hsha rids db t (frozen s) t1 [] db1 t2 mtid mt _ HD ltac:(lia) Hm Hs Eb Ed El)
    as (d & u & b & Hd & HD1 & HF & Hn1 & B1 & B2 & [(raw & Hr & Hta) Hu _ _ Hbl _ Hsv]).
  unfold vc_insert_internal in Ei. destruct (Nat.ltb_spec (length (metatables root)) DB_CONTAINER_NR) as [Hlt|]; [|done]. injection Ei as <-. rewrite B2.
  pose proof (disk_frame SHA1 junk db db1 V _ HI ltac:(done) HF) as HI1. destruct (di_conts _ _ _ _ HI1 _ _ Er) as [Hco _].
  destruct (root_insert db1 V (frozen s) root (mtid, set_bt mt (Some b)) HI1 Er) as (V' & HI' & Hdeep);
    [apply (cont_add SHA1 junk db1 [] root (V []) _ None (frozen s) d raw); [done|by rewrite (fr_data _ _ _ HF)|done|by apply table_set_bt|done|done]|done|].
  assert (same_layout db db1) as HL by (split_and!; apply HF). split; [|split; [exact HL|cbn; lia]]. split; cbn [fresh frozen disk]; [cbn; by rewrite (fr_active0 _ _ _ HF)|done| |by apply (ids_same db)].
  apply (tree_same (with_vcs db1 (<[[]:=mkCC None (metatables root ++ [(mtid, set_bt mt (Some b))])]> (vcs db1)))); [done..|]. exists V'. split; [done|]. split.
  - apply (devices_maps db1); [done|done|]. destruct (live_split db1 (vcs db1) [] root Er) as (R & L1 & L2). cbn [with_vcs vcs].
    rewrite (live_frame db1) by done. rewrite L2, units_add. cbn [bc_unit app fst snd set_bt mt_off]. eapply devices_sub; [|exact HD1].
    rewrite <- (live_frame db db1), <- (fr_vcs _ _ _ HF), L1 by apply HF. unfold level. rewrite (fr_data _ _ _ HF). change (length (@nil nat)) with O in *. rewrite Hd, Hu. cbn [default].
    unfold units. do 2 apply submseteq_skip. rewrite <- app_assoc. apply submseteq_app; [done|]. by apply submseteq_inserts_l.
  - intros k. by rewrite Hdeep, !lookup_union, Hk.
Qed.

Lemma shift_inv (closing : bool) t db s db' :
  db_inv db s -> active_table0 db = Some t -> (if closing then 0 <? tvolume t else table_full t) = true -> active_table1 db = Null ->
  active_shift mmap malloc closing db = Done db' -> step_ok db db' (store_step s Shift).
Proof.
  intros [Hf Hz Hd Hi] Et Hfull Hn E. unfold active_shift in E. rewrite Et in *. apply bind_Done_inv in E as (fr & E1 & E). apply Done_inj in E as <-.
  split; [|split; [done|cbn; lia]]. split; cbn [active_table0 active_table1 store_step fresh frozen disk].
  - destruct closing; [by injection E1 as <-|]. apply bind_Done_inv in E1 as (t' & E1 & E). injection E as <-. by apply alloc_default_ok in E1 as [? _].
  - split; [done|]. destruct Hf as (_ & _ & Hc). unfold table_full in Hfull. rewrite Hc in Hfull. unfold ACTIVE_CAP in Hfull. destruct closing; [by apply Z.ltb_lt|apply Z.leb_le in Hfull; lia].
  - by apply (tree_same db).
  - exact Hi.
Qed.

Lemma compact_inv rids path n db s db' :
  db_inv db s -> next_mtid db + 16 < 2 ^ 64 -> (start_bit path < BC_START_BIT)%nat -> compaction_main SHA1 mmap malloc junk rids db path n = Done db' ->
  step_ok db db' (store_step s Compact).
Proof using Hjunk Hsha.
  intros [Hf Hz (V & HI & HD & Hk) Hi] Hnx Hp E. assert (length path < 4)%nat as Hl by (unfold start_bit, BC_START_BIT in Hp; lia).
  destruct (compaction_spec SHA1 junk Hjunk Hsha mmap malloc rids db path n db' V HI HD Hnx Hl E) as (HI' & HD' & E0 & E1 & E2 & E3 & E4 & E5).
  assert (same_layout db db') as HL by done. split; [|done]. split; [by rewrite E0|by rewrite E1| |by apply (ids_same db)].
  exists (compacted SHA1 V path n). split; [done|]. split; [done|]. intros k. by rewrite compacted_deep.
Qed.

Lemma quit_inv db s : db_inv db s -> step_ok db (active_quit db) (store_step s Quit).
Proof. intros [Hf Hz Hd Hi]. split; [|split; [done|cbn; lia]]. split; [done|done| |done]. by apply (tree_same db). Qed.

(** The database is saved and loaded. *)
Lemma reopened_ok db s v t :
  db_inv db s -> table_alloc_default mmap malloc ACTIVE_FACTOR = Done t -> (forall q, same_cc junk db (vcs db !! q) (v !! q)) ->
  step_ok db (reopened db v t) (store_step s Reopen).
Proof.
  intros [_ _ (V & HI & HD & Hk) Hi] Et Hs. apply alloc_default_ok in Et as [Ht _]. destruct (reopened_inv SHA1 junk db V v t HI HD Hs) as [HI' HD'].
  split; [|split; [done|cbn; lia]]. split; [exact Ht|done|by exists V|exact Hi].
Qed.

Lemma reopen_inv grows text maps db s db' :
  db_inv db s -> db_dump_meta db = Done (text, maps) -> load_again junk mmap malloc grows db text maps = Done (Some db') -> step_ok db db' (store_step s Reopen).
Proof using Hjunk.
  intros HI E1 E2. destruct (load_alloc junk mmap malloc grows db text maps db' E2) as [t Et]. pose proof HI as [_ _ (V & HV & HD & _) Hi].
  destruct (reload SHA1 junk mmap malloc Hjunk db V grows HV HD Hi) as (text' & maps' & D1 & D2). destruct (D2 t Et) as (v & Ev & Hs).
  rewrite D1 in E1. apply bind_Done_inv in E1 as (? & _ & E1). injection E1 as -> ->. rewrite Ev in E2. injection E2 as <-. by apply reopened_ok.
Qed.

Lemma db_step_inv db s o db' : db_inv db s -> next_mtid db + 16 < 2 ^ 64 -> db_step db o db' -> step_ok db db' (store_step s o).
Proof using Hjunk Hsha.
  intros HI Hnx [kv ri db1 Hkv E|kvs rest db1 Hkvs E|closing t db1 Et Hf Hn E|rids full db1 En E|rids path cc db1 Hcc Hp _ E|t Et Hv|grows text maps db1 E1 E2].
  - by eapply insert_try_inv.
  - destruct (multi_inv kvs _ _ _ _ HI Hkvs E) as (before & -> & HI' & HL & Hn). cbn [store_step stores_kvs].
    rewrite length_app, Nat.add_sub, take_app_length. split; [done|]. split; [done|lia].
  - by eapply shift_inv.
  - by eapply dump_inv.
  - by eapply compact_inv.
  - by apply quit_inv.
  - by eapply reopen_inv.
Qed.

Lemma lookup_inv db s k : db_inv db s -> db_lookup SHA1 junk db k = Done (mkKV k <$> content s !! k).
Proof using Hsha.
  intros [Hf Hz (V & HI & _ & Hk) _]. unfold db_lookup, content. rewrite !lookup_union, Hk.
  assert (lookup_active (match active_table0 db with None => Null | Some t => Live t end) k (SHA1 k) = Done (mkKV k <$> fresh s !! k)) as ->.
  { destruct (active_table0 db) as [t|]; cbn [lookup_active]; [apply table_lookup_spec, Hf|by rewrite Hf, lookup_empty]. }
  run. destruct (fresh s !! k) as [v|]; cbn [fmap option_fmap option_map]; [match goal with |- context [Some v ∪ ?x] => by destruct x end|].
  assert (lookup_active (active_table1 db) k (SHA1 k) = Done (mkKV k <$> frozen s !! k)) as ->.
  { destruct (active_table1 db) as [|t|]; cbn [lookup_active]; [by rewrite Hz, lookup_empty|apply table_lookup_spec, Hz|done]. }
  run. destruct (frozen s !! k) as [v|]; cbn [fmap option_fmap option_map]; [by destruct (deep V k 0 5 !! k)|].
  change (@nil nat) with (route k 0). rewrite (recursive_lookup_deep db V k 5 0 DB_NR_LEVELS HI) by (apply HI || unfold DB_NR_LEVELS; lia). by destruct (deep V k 0 5 !! k).
Qed.

(** ** Creation *)

Lemma create_maps_spec grows conf : forall cms, create_maps grows conf = Done cms ->
  length cms = length conf /\ forall d cm, cms !! d = Some cm -> exists raw hint, conf !! d = Some (raw, hint) /\ containermap_create grows raw hint = Some cm.
Proof.
  induction conf as [|[raw hint] conf IH]; intros cms E; cbn [create_maps] in E; [by injection E as <-|].
  destruct (containermap_create grows raw hint) as [cm|] eqn:Ec; [|done]. apply bind_Done_inv in E as (cms' & E1 & E). injection E as <-. destruct (IH _ E1) as [Hl Hd].
  split; [cbn; by rewrite Hl|]. intros [|d] c Hc; [injection Hc as <-; by exists raw, hint|by apply Hd].
Qed.

(** The configuration: the raw files have sizes, five levels have a device. *)
Definition conf_ok (conf : list (Raw * Z)) (files : list (list Z)) (ids : list nat) : Prop :=
  Forall (fun rh => 0 <= st_size rh.1 < 2 ^ 63) conf /\ length files = length conf /\ length ids = DB_NR_LEVELS.

Lemma create_inv grows conf files ids bcid metas db :
  conf_ok conf files ids -> db_create mmap malloc grows conf files ids bcid metas = Done db ->
  db_inv db (mkStore ∅ ∅ ∅) /\ next_mtid db = 1 /\ data_id db = ids /\ bc_id db = bcid /\ length (cms_dump db) = length conf.
Proof.
  intros (Hs & Hfl & Hids) E. unfold db_create in E. apply bind_Done_inv in E as (cms & Ec & E). apply bind_Done_inv in E as (dbx & E1 & E). apply Done_inj in E as <-.
  unfold db_initial in E1. apply bind_Done_inv in E1 as (? & Ea & E1). apply assert_Done in Ea.
  apply bind_Done_inv in E1 as (t & Et & E1). apply Done_inj in E1 as <-. apply alloc_default_ok in Et as [Ht _]. destruct (create_maps_spec _ _ _ Ec) as [Hl Hd].
  split; [|done]. split; cbn [active_table0 active_table1 fresh frozen with_tree]; [exact Ht|reflexivity| |exact Ea]. exists (fun _ => []).
  assert (forall n, (n < 5)%nat -> exists d raw, ids !! n = Some d /\ files !! d = Some raw) as Hlev.
  { intros n Hn. destruct (lookup_lt_is_Some_2 ids n) as [d Hdn]; [rewrite Hids; done|]. exists d. rewrite forallb_forall in Ea.
    specialize (Ea d). rewrite <- list_elem_of_In, Nat.ltb_lt in Ea. specialize (Ea ltac:(right; by eapply list_elem_of_lookup_2)).
    destruct (lookup_lt_is_Some_2 files d) as [raw Hr]; [congruence|]. by exists raw. }
  split; [split; cbn [vcs data_id raws with_tree]|split].
  - intros p cc Hp. apply lookup_singleton_Some in Hp as [<- <-]. split; [|cbn; lia]. destruct (Hlev O ltac:(lia)) as (d & raw & H1 & H2).
    split; [exists d, raw; split_and!; [done|done|constructor]|done|constructor].
  - done.
  - by rewrite lookup_singleton_eq.
  - intros p i Hp. rewrite lookup_singleton_ne in Hp by (by destruct p). by destruct Hp.
  - done.
  - cbn [vcs with_tree]. unfold live. rewrite map_to_list_singleton. cbn. split; [apply NoDup_nil_2| |intros y Hy; by apply not_elem_of_nil in Hy|done]. intros d cm Hcm. cbn [cms_dump with_tree] in Hcm.
    destruct (Hd d cm Hcm) as (raw & hint & Hconf & Hcr). destruct (create_spec _ _ _ _ (Forall_lookup_1 _ _ _ _ Hs Hconf) Hcr) as (HI & Hu & Hc).
    exists ∅. split_and!; [done|done|done|intros u Hu'; by apply not_elem_of_nil in Hu'].
  - intros k. cbn [deep disk]. unfold newest. cbn [foldl]. by rewrite !(left_id_L ∅ (∪)).
Qed.

(** More steps than a database can do would use up the 64-bit numbers of the
    files. *)
Definition MAX_STEPS : Z := 2 ^ 59.

Lemma reach_inv db0 ops db : db_inv db0 (mkStore ∅ ∅ ∅) -> next_mtid db0 = 1 -> db_reach db0 ops db -> Z.of_nat (length ops) < MAX_STEPS ->
  db_inv db (store_run ops) /\ next_mtid db <= 1 + 16 * Z.of_nat (length ops) /\ same_layout db0 db.
Proof using Hjunk Hsha.
  intros H0 Hn0 Hr. induction Hr as [|ops db o db' _ IH Hs]; intros Hl; [cbn; split; [done|split; [lia|done]]|]. rewrite length_app in *. cbn [length] in *. unfold MAX_STEPS in *.
  destruct IH as (HI & Hn & L1 & L2 & L3); [lia|]. destruct (db_step_inv _ _ _ _ HI ltac:(lia) Hs) as (HI' & (M1 & M2 & M3) & Hn').
  unfold store_run. rewrite foldl_app. cbn [foldl]. split; [done|]. split; [lia|]. split_and!; congruence.
Qed.

(** ** What a lookup returns *)

(** The operation takes no pair out of sight: a table is dropped, or memory is
    given up, only when there is nothing in it. *)
Definition keeps_all (s : store) (o : op) : Prop :=
  match o with
  | Shift | Dump false => frozen s = ∅
  | Quit => fresh s = ∅
  | Reopen => fresh s = ∅ /\ frozen s = ∅
  | _ => True
  end.

Fixpoint lossless (s : store) (ops : list op) : Prop :=
  match ops with [] => True | o :: ops' => keeps_all s o /\ lossless (store_step s o) ops' end.

(** The value inserted last for each key. *)
Definition last_values (ops : list op) : kvmap := foldl put_kv ∅ (concat (stores_kvs <$> ops)).

Lemma put_union kvs : forall (A B : kvmap), foldl put_kv A kvs ∪ B = foldl put_kv (A ∪ B) kvs.
Proof. induction kvs as [|kv kvs IH]; intros A B; [done|]. cbn [foldl]. rewrite IH. f_equal. unfold put_kv. symmetry. apply insert_union_l. Qed.

Lemma content_step s o : keeps_all s o -> content (store_step s o) = foldl put_kv (content s) (stores_kvs o).
Proof.
  unfold content. destruct s as [f z d], o as [kv ri|kvs rest| |w| | |]; cbn [keeps_all store_step fresh frozen disk]; intros Hk; try apply put_union.
  - cbn [stores_kvs foldl]. rewrite Hk, !(left_id_L ∅ (∪)). done.
  - destruct w; cbn [stores_kvs foldl fresh frozen disk]; [by rewrite (left_id_L ∅ (∪))|]. by rewrite Hk.
  - by rewrite Hk.
  - destruct Hk as [-> ->]. done.
Qed.

Lemma lossless_content ops : forall s, lossless s ops -> content (foldl store_step s ops) = foldl put_kv (content s) (concat (stores_kvs <$> ops)).
Proof.
  induction ops as [|o ops IH]; intros s; [done|]. intros [Ho Hos]. cbn [foldl]. rewrite (IH _ Hos), (content_step _ _ Ho). rewrite fmap_cons. cbn [concat].
  by rewrite foldl_app.
Qed.

(** C9: From its creation on, through every sequence of insertions, turns of
    the dumper, compactions, and saving and loading, a lookup in the database
    succeeds and returns what the store of the inserted pairs holds: the active
    table hides the one being written, which hides what is on disk; compaction
    changes nothing, and loading brings back what is on disk.  As long as
    nothing is lost ([lossless]) this is the value inserted last for the key.
    What is lost are the pairs of a table that is dropped because the device is
    nearly full, and those not yet on disk when the database is loaded again;
    a lookup then returns the older value on disk, if there is one. *)
Theorem db_lookup_correct grows conf files ids bcid metas db0 ops db k :
  conf_ok conf files ids -> db_create mmap malloc grows conf files ids bcid metas = Done db0 -> db_reach db0 ops db -> Z.of_nat (length ops) < MAX_STEPS ->
  db_lookup SHA1 junk db k = Done (mkKV k <$> content (store_run ops) !! k) /\
  (lossless (mkStore ∅ ∅ ∅) ops -> db_lookup SHA1 junk db k = Done (mkKV k <$> last_values ops !! k)).
Proof using Hjunk Hsha.
  intros Hc E Hr Hl. destruct (create_inv _ _ _ _ _ _ _ Hc E) as (HI & Hn & _). pose proof (lookup_inv db (store_run ops) k) as Hlk.
  rewrite Hlk by (by eapply reach_inv). split; [done|]. intros Hk. unfold store_run. rewrite (lossless_content _ _ Hk). unfold content, last_values. cbn [fresh frozen disk].
  by rewrite !(left_id_L ∅ (∪)).
Qed.

(** ** A turn of a compaction thread *)

(** Whatever a compaction keeps, the functions that call it keep; [P] counts
    the compactions. *)
Section below.
Context (P : nat -> DB -> Prop) (rids : nat -> nat -> list Z * list Z).
Hypothesis HP : forall c db path cc db', P c db -> vcs db !! path = Some cc -> (start_bit path < BC_START_BIT)%nat -> vc_count_feed cc <> O ->
  compaction_main SHA1 mmap malloc junk (rids c) db path (vc_count_feed cc) = Done db' -> P (S c) db'.

Lemma compact_below_keeps rec path start inc n c db db' c' :
  (forall c db p db' c', P c db -> rec c db p = Done (db', c') -> P c' db') -> P c db -> compact_below rec path start inc n c db = Done (db', c') -> P c' db'.
Proof.
  intros Hrec Hdb E. assert (forall n c db db' c', P c db -> compact_full rec path start inc n c db = Done (db', c') -> P c' db') as Hfull.
  { clear - Hrec. induction n as [|n IH]; intros c db db' c' Hdb E; cbn [compact_full] in E; (destruct (vc_pick_full db path start inc); [|by injection E as <- <-]); [done|].
    apply bind_Done_inv in E as ([db1 c1] & E1 & E). eapply IH; [|exact E]. by eapply Hrec. }
  unfold compact_below in E. destruct (vc_pick_compaction db path start inc); [|by injection E as <- <-]. apply bind_Done_inv in E as ([db1 c1] & E1 & E).
  eapply Hfull; [|exact E]. by eapply Hrec.
Qed.

Lemma recursive_keeps fuel : forall c db path db' c', P c db -> recursive_compaction SHA1 mmap malloc junk fuel rids c db path = Done (db', c') -> P c' db'.
Proof using HP.
  induction fuel as [|fuel IH]; intros c db path db' c' Hdb E; cbn [recursive_compaction] in E; (destruct (vcs db !! path) as [cc|] eqn:Ecc; [|done]);
    (destruct (Nat.leb_spec BC_START_BIT (start_bit path)); [by injection E as <- <-|]); (destruct (Nat.eqb_spec (vc_count_feed cc) 0); [by injection E as <- <-|]);
    apply bind_Done_inv in E as (db1 & E1 & E); [done|]. eapply compact_below_keeps; [|by eapply HP|exact E]. exact IH.
Qed.

Lemma root_keeps fuel c db token db' c' : P c db -> db_root_compaction SHA1 mmap malloc junk fuel rids c db token = Done (db', c') -> P c' db'.
Proof using HP.
  intros Hdb E. unfold db_root_compaction in E. destruct (vcs db !! []) as [cc|] eqn:Ecc; [|done]. destruct (Nat.eqb_spec (vc_count_feed cc) 0); [by injection E as <- <-|].
  apply bind_Done_inv in E as (db1 & E1 & E). assert (start_bit [] < BC_START_BIT)%nat as H0 by (unfold start_bit, BC_START_BIT; cbn; lia).
  eapply compact_below_keeps; [|by eapply HP|exact E]. apply recursive_keeps.
Qed.
End below.

(** A turn of a compaction thread, which compacts the root and then children
    as deep as they are too large, is a sequence of compactions of the
    database, and every lookup returns afterwards what it returned before. *)
Lemma compaction_turn_reach grows conf files ids bcid metas db0 ops db fuel rids token db' n :
  conf_ok conf files ids -> db_create mmap malloc grows conf files ids bcid metas = Done db0 -> db_reach db0 ops db ->
  db_root_compaction SHA1 mmap malloc junk fuel rids 0 db token = Done (db', n) -> Z.of_nat (length ops + n) < MAX_STEPS ->
  db_reach db0 (ops ++ replicate n Compact) db' /\ forall k, db_lookup SHA1 junk db' k = db_lookup SHA1 junk db k.
Proof using Hjunk Hsha.
  intros Hc E0 Hr E Hl. assert (db_reach db0 (ops ++ replicate n Compact) db') as Hn.
  { refine (root_keeps (fun c x => db_reach db0 (ops ++ replicate c Compact) x) rids _ fuel 0 db token db' n _ E); [|by rewrite app_nil_r].
    intros c1 db1 path cc db2 Hn Hcc Hp Hf Em. rewrite replicate_S_end, app_assoc. eapply reach_step; [exact Hn|by eapply step_compact]. }
  split; [done|]. intros k. destruct (create_inv _ _ _ _ _ _ _ Hc E0) as (HI & H1 & _).
  destruct (reach_inv _ _ _ HI H1 Hn) as [I1 _]; [by rewrite length_app, length_replicate|]. destruct (reach_inv _ _ _ HI H1 Hr) as [I2 _]; [lia|].
  rewrite (lookup_inv _ _ k I1), (lookup_inv _ _ k I2). do 2 f_equal. unfold store_run. rewrite foldl_app. generalize (foldl store_step (mkStore ∅ ∅ ∅) ops). clear.
  induction n as [|n IH]; intros s; [done|]. cbn [replicate foldl]. rewrite IH. by destruct s.
Qed.

(** ** Opening again *)

(** C18: A database that was opened for the first time and used is saved, and
    opened again with the same configuration on devices that did not change:
    saving and loading succeed, and every lookup returns what was on disk.
    (With six maps saving would read behind the array of maps.) *)
Theorem touch_again grows fs fs' conf_text conf metas db0 ops db t :
  db_load_cm_conf junk conf_text = Done conf -> (length (raw_fn conf) < NR_MAPS)%nat -> Forall (fun fn => 0 <= st_size (fs fn).1 < 2 ^ 63) (raw_fn conf) ->
  db_touch mmap malloc junk grows fs conf_text false metas None (fun _ => None) = Done db0 -> db_reach db0 ops db -> Z.of_nat (length ops) < MAX_STEPS ->
  (fs' <$> raw_fn conf).*1 = raw_of <$> cms_dump db -> (fs' <$> raw_fn conf).*2 = raws db -> table_alloc_default mmap malloc ACTIVE_FACTOR = Done t ->
  exists text maps db', db_dump_meta db = Done (text, maps) /\
    db_touch mmap malloc junk grows fs' conf_text true (metafiles db) (Some text) (fun i => maps !! i) = Done db' /\
    forall k, db_lookup SHA1 junk db' k = Done (mkKV k <$> disk (store_run ops) !! k).
Proof using Hjunk Hsha.
  intros Ec Hn Hfs E0 Hr Hl Hf1 Hf2 Et. unfold db_touch in E0. rewrite Ec in E0. cbn [mbind exec_bind] in E0. destruct (conf_shape junk conf_text conf Ec) as [Hh Hi].
  assert (conf_ok (zip (fs <$> raw_fn conf).*1 (hints conf)) (fs <$> raw_fn conf).*2 (Z.to_nat <$> conf_data_id conf)) as Hok.
  { split; [|split; [rewrite length_zip, !length_fmap, Hh; lia|by rewrite length_fmap]]. apply Forall_lookup_2. intros i [raw h] Hz. apply lookup_zip_with_Some in Hz as (x & y & E & Hx & _).
    injection E as -> ->. rewrite !list_lookup_fmap in Hx. destruct (raw_fn conf !! i) as [fn|] eqn:Efn; [|done]. injection Hx as <-. exact (Forall_lookup_1 _ _ _ _ Hfs Efn). }
  destruct (create_inv _ _ _ _ _ _ _ Hok E0) as (HI0 & Hn0 & D1 & D2 & D3). destruct (reach_inv _ _ _ HI0 Hn0 Hr Hl) as (HI & _ & L1 & L2 & L3).
  pose proof HI as [_ _ (V & HV & HD & _) Hids]. destruct (reload SHA1 junk mmap malloc Hjunk db V grows HV HD Hids) as (text & maps & Ed & Ho). destruct (Ho t Et) as (v & Ev & Hs).
  exists text, maps, (reopened db v t). split_and!.
  - rewrite Ed. unfold end_of_maps. rewrite length_zip, !length_fmap, Hh, Nat.min_id in D3. rewrite (load_Done _ _ None); [done|].
    rewrite lookup_app_r by (by rewrite length_fmap). rewrite length_fmap, Nat.sub_diag. apply lookup_replicate_2. lia.
  - unfold db_touch. rewrite Ec. cbn [mbind exec_bind]. rewrite Hf1, Hf2, <- D1, <- D2, <- L1, <- L2. unfold load_again in Ev. rewrite Ev. done.
  - intros k. destruct (reopened_ok db _ v t HI Et Hs) as [HI' _]. rewrite (lookup_inv _ _ k HI'). unfold content. cbn [store_step fresh frozen disk]. by rewrite !map_empty_union.
Qed.

(** ** What goes wrong *)

(** A range of barrels is merged only if each has items. *)
Lemma pages_nonempty pages : forall tables arg2 tables',
  feed_pages SHA1 junk selected pages tables arg2 = Done tables' -> Forall (fun page => rawitem_init page 0 <> Done None) pages.
Proof.
  induction pages as [|page pages IH]; intros tables arg2 tables' E; [constructor|]. cbn [feed_pages] in E. apply bind_Done_inv in E as (r & E1 & E).
  destruct r as [t1|]; [|done]. constructor; [|by eapply IH]. intros E0. unfold raw_barrel_feed_to_tables in E1. by rewrite E0 in E1.
Qed.

(** Page [bid] of a table. *)
Definition page_at (raw : list Z) (mt : MetaTable) (bid : nat) : list Z := take Bloom.BARREL_ALIGN (drop (mt_off mt + bid * Bloom.BARREL_ALIGN) raw).

Lemma range_nonempty mt raw start nr tables arg2 tables' bid :
  metatable_feed_barrels_to_tables SHA1 junk selected mt raw start nr tables arg2 = Done tables' -> (start <= bid < start + nr)%nat -> rawitem_init (page_at raw mt bid) 0 <> Done None.
Proof.
  intros E Hb. unfold metatable_feed_barrels_to_tables in E. apply bind_Done_inv in E as (u & _ & E). apply bind_Done_inv in E as (arena & Ea & E).
  apply pages_nonempty in E. unfold Bloom.pread in Ea. apply bind_Done_inv in Ea as (u' & Ea & E2). injection E2 as <-.
  apply (Forall_lookup_1 _ _ (bid - start)) with (x := page_at raw mt bid) in E; [done|]. rewrite list_lookup_fmap, lookup_seq_lt by lia. cbn [fmap option_fmap option_map Nat.add]. f_equal.
  unfold page_at. rewrite skipn_firstn_comm, firstn_firstn, drop_drop. f_equal; [nia|]. f_equal. nia.
Qed.

Lemma table_nonempty mt raw sub_bit bid n : forall token tables tables',
  feed_table SHA1 junk n mt raw sub_bit token tables = Done tables' -> (token <= bid < token + n * DB_FEED_UNIT)%nat -> (bid < TABLE_NR_BARRELS)%nat ->
  rawitem_init (page_at raw mt bid) 0 <> Done None.
Proof.
  induction n as [|n IH]; intros token tables tables' E Hb Hn; [lia|]. cbn [feed_table] in E. apply bind_Done_inv in E as (t1 & E1 & E).
  destruct (decide (bid < token + DB_FEED_UNIT)%nat) as [Hlt|Hge]; [|eapply IH; [exact E|lia|done]].
  unfold compaction_feed in E1. apply bind_Done_inv in E1 as (u & _ & E1). destruct (Nat.leb_spec TABLE_NR_BARRELS token); [lia|]. apply bind_Done_inv in E1 as (u' & _ & E1).
  eapply range_nonempty; [exact E1|]. destruct (Nat.ltb_spec (TABLE_NR_BARRELS - token) DB_FEED_UNIT); lia.
Qed.

Lemma tables_nonempty mts raw sub_bit : forall tables tables' id mt bid,
  compaction_feed_all SHA1 junk mts raw sub_bit tables = Done tables' -> (id, mt) ∈ mts -> (bid < TABLE_NR_BARRELS)%nat -> rawitem_init (page_at raw mt bid) 0 <> Done None.
Proof.
  induction mts as [|[id0 mt0] mts IH]; intros tables tables' id mt bid E Hin Hb; [by apply not_elem_of_nil in Hin|]. cbn [compaction_feed_all] in E.
  apply bind_Done_inv in E as (t1 & E1 & E). apply elem_of_cons in Hin as [[= -> ->]|Hin]; [|by eapply IH].
  eapply table_nonempty; [exact E1| |done]. assert (TABLE_NR_BARRELS <= 8 * DB_FEED_UNIT)%nat by (apply Nat.leb_le; vm_compute; reflexivity). lia.
Qed.

(** C24: A compaction fails when a table that it merges has an empty barrel:
    raw_barrel_feed_to_tables returns false for its page, and an assertion of
    metatable_feed_barrels_to_tables demands true.  So a compaction that
    returns has found items in every barrel of all its tables. *)
Theorem compaction_empty_barrel_fails db path cc id mt d raw bid rids :
  vcs db !! path = Some cc -> (id, mt) ∈ take (vc_count_feed cc) (metatables cc) -> data_id db !! (start_bit path / 3)%nat = Some d -> raws db !! d = Some raw ->
  (bid < TABLE_NR_BARRELS)%nat -> rawitem_init (page_at raw mt bid) 0 = Done None ->
  forall db', compaction_main SHA1 mmap malloc junk rids db path (vc_count_feed cc) <> Done db'.
Proof.
  intros Hcc Hin Hd Hr Hb Hp db' E. unfold compaction_main in E. apply bind_Done_inv in E as ([[db1 mts] tables] & E1 & E). unfold compaction_initial in E1. rewrite Hcc in E1.
  do 3 apply bind_Done_inv in E1 as (? & _ & E1). apply bind_Done_inv in E1 as (ts & _ & E1). injection E1 as <- <- <-. cbn [data_id raws with_vcs] in E.
  rewrite (load_Done _ _ _ Hd) in E. cbn [mbind exec_bind] in E. rewrite (load_Done _ _ _ Hr) in E. cbn [mbind exec_bind] in E. apply bind_Done_inv in E as (ts' & E & _).
  by eapply tables_nonempty in E.
Qed.

(** C38: A full child that cannot be compacted, because it is on the last level
    or its tables are small, makes the loop of recursive_compaction on full
    children run forever: vc_pick_full picks it again and again. *)
Theorem full_child_hangs db path start inc i cc fuel rids n c :
  vc_pick_full db path start inc = Some i -> vcs db !! (path ++ [i]) = Some cc -> (BC_START_BIT <= start_bit (path ++ [i]))%nat \/ vc_count_feed cc = O ->
  compact_full (recursive_compaction SHA1 mmap malloc junk fuel rids) path start inc n c db = NoFuel.
Proof.
  intros Hp Hcc Hno. assert (forall c, recursive_compaction SHA1 mmap malloc junk fuel rids c db (path ++ [i]) = Done (db, c)) as Er.
  { intros c0. destruct fuel; cbn [recursive_compaction]; rewrite Hcc; (destruct (Nat.leb_spec BC_START_BIT (start_bit (path ++ [i]))); [done|]);
      (destruct Hno as [Hno| ->]; [lia|done]). }
  revert c. induction n as [|n IH]; intros c; cbn [compact_full]; rewrite Hp; [done|]. rewrite Er. run. apply IH.
Qed.

(** C39: Closing a database whose active table is empty while the dumper waits:
    the dumper frees the table but leaves the pointer to it in active_table[1],
    and db_free frees it a second time. *)
Theorem close_empty_double_free db t rids :
  active_table0 db = Some t -> tvolume t = 0 -> near_full db = Done false ->
  exists db', (db ← active_shift mmap malloc true db; active_dump junk rids db) = Done db' /\ db_free db' = Fault.
Proof.
  intros E0 Hv Hn. unfold active_shift. rewrite E0. run. unfold active_dump. cbn [active_table1]. unfold near_full in *. cbn [data_id cms_dump]. rewrite Hn. run.
  rewrite Hv. cbn. by eexists.
Qed.
End system.
