(* ===== verification/DbDemo.v ===== *)
(** * Instances of the theorems on the database

    A database on one file of 256 MiB: a pair is inserted, the database begins
    to close and the table goes to disk; a lookup finds the pair there, also
    after the database was opened again. *)

From Stdlib Require Import SpecFloat.
From stdpp Require Import gmap.
From S2P Require Import Prelude Bloom BloomProof BloomPages Mempool Cmap LsmTable LsmMem LsmRetain LsmLookup LsmSystem LsmFeed LsmDemo Stdio DbTable DbConf Db DbMeta DbInv DbProof DbTree DbReload DbSystem.
Import Lsm Cmap Db DbMeta.

Definition yes2 (b : bool) (z : Z) : bool := true.
Definition yes (z : Z) : bool := true.
Definition db_conf : list (Raw * Z) := [(mkRaw false 268435456, 0)].
Definition db_map (used b : Z) : ContainerMap := mkCM 8 used 268435456 false [b].
Definition db_ids : list nat := [0; 0; 0; 0; 0]%nat.

Lemma db_pool : lsm_pool ACTIVE_FACTOR 503316480.
Proof. split; [vm_compute; reflexivity|lia]. Qed.

Lemma db_conf_ok : conf_ok db_conf [[]] db_ids.
Proof. split; [repeat constructor; cbn; lia|done]. Qed.

Lemma db_created t0 :
  table_alloc_new yes2 yes TABLE_VOLUME_PERCENT ACTIVE_FACTOR = Done t0 ->
  db_create yes2 yes true db_conf [[]] db_ids 0 ∅ = Done (mkDB (Some t0) Null {[ [] := vc_create ]} [db_map 0 0] [[]] db_ids 0 ∅ 1).
Proof. intros E. unfold db_create, db_initial, table_alloc_default. rewrite E. reflexivity. Qed.

Ltac dbp := cbn [active_table0 active_table1 vcs cms_dump raws data_id bc_id metafiles next_mtid].

(** The database with the table [t1] goes through the turn of the dumper. *)
Lemma db_dumped kvs t0 t1 rs t2 t3 :
  Forall kv_ok kvs -> Forall (fun kv => kv_size kv <= Z.of_nat BARREL_CAP) kvs ->
  table_alloc_new yes2 yes TABLE_VOLUME_PERCENT ACTIVE_FACTOR = Done t0 -> insert_all lsm_sha lsm_junk t0 kvs = Done (t1, rs) ->
  table_build_bloomtable lsm_junk t1 = Done t2 -> table_retain t2 = Done (t3, true) ->
  (forall i b, barrels t3 !! i = Some b -> sizes (contents b) < 65536) -> 0 < tvolume t1 ->
  exists db, active_dump lsm_junk [0] (mkDB None (Live t1) {[ [] := vc_create ]} [db_map 0 0] [[]] db_ids 0 ∅ 1) = Done db /\
    cms_dump db = [db_map 1 1] /\ exists raw, raws db = [raw].
Proof.
  intros Hok Hsm E0 E1 E2 E3 H64 Hv.
  destruct (written_on_disk lsm_sha lsm_junk (fun n => length_replicate n 171) lsm_sha_ok yes2 yes TABLE_VOLUME_PERCENT ACTIVE_FACTOR kvs t0 t1 rs t2 t3 [] 0 Hok Hsm ltac:(lia) E0 E1 E2 E3 H64)
    as (HI & t4 & file & n & meta & mt & Ed & Em & El & _). clear E0 E1 H64 Hok Hsm.
  destruct (build_bloomtable_spec lsm_sha lsm_junk (fun n => length_replicate n 171) t1 _ t2 HI E2) as (_ & _ & _ & _ & b & Eb & _). clear HI.
  destruct (dump_loop_same 0 4 0 t3 [] 0 t4 file n Ed) as (_ & S2 & S3 & S4 & S5).
  assert (table_dump_meta t4 0 = Done meta) as Em' by (rewrite <- Em; unfold table_dump_meta; by rewrite S2, S3, S4, S5).
  unfold active_dump. cbn [active_table1]. assert (near_full (mkDB None (Live t1) {[ [] := vc_create ]} [db_map 0 0] [[]] db_ids 0 ∅ 1) = Done false) as -> by reflexivity. run.
  rewrite (proj2 (Z.ltb_lt _ _) Hv), E2. run. unfold db_table_dump, db_aquire_mtid. rewrite Eb. cbn [Bloom.assert]. run. rewrite E3. run. cbn [Bloom.assert]. run.
  dbp. assert (load db_ids (start_bit [] / 3) = Done O) as -> by reflexivity. run.
  cbn [db_cmap_safe_alloc]. dbp. assert (load [db_map 0 0] 0 = Done (db_map 0 0)) as -> by reflexivity. run.
  assert (containermap_alloc (db_map 0 0) 0 = Done (db_map 1 1, 0)) as -> by (vm_compute; reflexivity). run. assert (0 <? total_cap (db_map 0 0) = true) as -> by reflexivity. run.
  unfold with_cm. dbp. assert (load [@nil Z] 0 = Done []) as -> by reflexivity. run. change (Z.to_nat 0) with O. rewrite Ed. run. rewrite Em'. run.
  unfold db_load_metatable, with_metas, with_raw. dbp. rewrite lookup_insert_eq, (load_without lsm_junk meta mt El). run. dbp.
  rewrite lookup_singleton_eq. eexists. split; [reflexivity|]. split; [reflexivity|by eexists].
Qed.

(** The way of the database, from the fresh table [t0] on. *)
Definition db_start (t0 : Table) : DB := mkDB (Some t0) Null {[ [] := vc_create ]} [db_map 0 0] [[]] db_ids 0 ∅ 1.

Lemma db_way : exists t0 db raw, table_alloc_new yes2 yes TABLE_VOLUME_PERCENT ACTIVE_FACTOR = Done t0 /\
  db_reach lsm_sha lsm_junk yes2 yes (db_start t0) [Insert lsm_kv true; Shift; Dump true] db /\ cms_dump db = [db_map 1 1] /\ raws db = [raw].
Proof.
  destruct (lsm_steps _ _ db_pool) as (t0 & t1 & t2 & t3 & i & b & it & E0 & _ & E1 & E2 & E3 & _ & _ & _ & H64 & Hv). destruct lsm_kv_ok as [Hok Hsm].
  destruct (db_dumped [lsm_kv] t0 t1 [true] t2 t3 Hok Hsm E0 E1 E2 E3 H64 ltac:(lia)) as (db & Edump & Hc & raw & Hr). exists t0, db, raw. split; [exact E0|].
  assert (table_insert_kv_safe lsm_sha lsm_junk t0 lsm_kv = Done (t1, true)) as Ei.
  { cbn [insert_all] in E1. apply bind_Done_inv in E1 as ([t ri] & Et & E1). cbn [mbind exec_bind] in E1. injection E1 as -> ->. exact Et. }
  clear E0 E1 E2 E3 H64. split; [|done]. apply (reach_step _ _ _ _ _ [Insert lsm_kv true; Shift] (mkDB None (Live t1) {[ [] := vc_create ]} [db_map 0 0] [[]] db_ids 0 ∅ 1)).
  - apply (reach_step _ _ _ _ _ [Insert lsm_kv true] (mkDB (Some t1) Null {[ [] := vc_create ]} [db_map 0 0] [[]] db_ids 0 ∅ 1)).
    + apply (reach_step _ _ _ _ _ [] _ (Insert lsm_kv true) _ (reach_start _ _ _ _ _)). apply step_insert.
      * split; [exact (Forall_inv Hok)|exact (Forall_inv Hsm)].
      * unfold db_insert_try, db_start. cbn [active_table0]. rewrite Ei. reflexivity.
    + apply (step_shift _ _ _ _ _ true t1); [reflexivity|apply Z.ltb_lt; lia|reflexivity|reflexivity].
  - apply (step_dump _ _ _ _ _ [0] false); [reflexivity|exact Edump].
Qed.

Lemma db_lookup_correct_witness :
  exists db0 db, db_create yes2 yes true db_conf [[]] db_ids 0 ∅ = Done db0 /\
    db_reach lsm_sha lsm_junk yes2 yes db0 [Insert lsm_kv true; Shift; Dump true] db /\
    db_lookup lsm_sha lsm_junk db [1; 2; 3] = Done (Some (mkKV [1; 2; 3] [4; 5])) /\
    db_lookup lsm_sha lsm_junk db [1; 2; 3] = Done (mkKV [1; 2; 3] <$> last_values [Insert lsm_kv true; Shift; Dump true] !! [1; 2; 3]).
Proof.
  destruct db_way as (t0 & db & raw & E0 & Hr & _). pose proof (db_created t0 E0) as Ec. exists (db_start t0), db. split; [exact Ec|]. split; [exact Hr|].
  destruct (db_lookup_correct lsm_sha lsm_junk yes2 yes (fun n => length_replicate n 171) lsm_sha_ok true db_conf [[]] db_ids 0 ∅ _ _ db [1; 2; 3] db_conf_ok Ec Hr eq_refl) as [H1 H2].
  split; [rewrite H1; reflexivity|]. apply H2. repeat split.
Defined.

(** The store when the second table for a key is dropped: the older value shows
    again. *)
Example dropped_table_shows_older :
  content (store_run [Insert (mkKV [1] [7]) true; Shift; Dump true; Insert (mkKV [1] [8]) true; Shift; Dump false]) !! [1] = Some [7].
Proof. reflexivity. Qed.

(** Ten tables of 24 MiB on a device of zeros: no barrel has an item. *)
Definition zero_db : DB :=
  mkDB None Null {[ [] := mkCC None (replicate 10 (1, mkMT 0 25165824 0 [] None)) ]} [] [replicate (TABLE_NR_BARRELS * Bloom.BARREL_ALIGN) 0] [0; 0; 0; 0; 0]%nat 0 ∅ 1.

Lemma compaction_empty_barrel_fails_witness :
  (vc_count_feed <$> vcs zero_db !! []) = Some 10%nat /\
  forall db', compaction_main lsm_sha yes2 yes lsm_junk (fun _ => ([], [])) zero_db [] 10 <> Done db'.
Proof.
  split; [reflexivity|].
  apply (compaction_empty_barrel_fails lsm_sha lsm_junk yes2 yes zero_db [] (mkCC None (replicate 10 (1, mkMT 0 25165824 0 [] None))) 1 (mkMT 0 25165824 0 [] None) 0
    (replicate (TABLE_NR_BARRELS * Bloom.BARREL_ALIGN) 0) 0 (fun _ => ([], []))); [reflexivity|left|reflexivity|reflexivity|apply Nat.ltb_lt; vm_compute; reflexivity|].
  unfold page_at. rewrite drop_replicate, take_replicate, Nat.min_l by (apply Nat.leb_le; vm_compute; reflexivity). vm_compute. reflexivity.
Defined.

(** One device, named d, for everything. *)
Definition one_device : list Z := conf_text [([100], 0)] 0 [0; 0; 0; 0; 0].
Definition one_conf : ContainerMapConf := mkConf [[100]] [0] 0 [0; 0; 0; 0; 0].

Lemma conf_correct_witness : db_load_cm_conf lsm_junk one_device = Done one_conf.
Proof.
  unfold one_device. rewrite (conf_correct lsm_junk (fun n => length_replicate n 171)); [reflexivity|repeat constructor; cbn; (lia || done)..|].
  unfold NR_MAPS. cbn. lia.
Defined.

Lemma touch_again_witness :
  exists db0 db fs' text maps db',
    db_touch yes2 yes lsm_junk true (fun _ => (mkRaw false 268435456, [])) one_device false ∅ None (fun _ => None) = Done db0 /\
    db_reach lsm_sha lsm_junk yes2 yes db0 [Insert lsm_kv true; Shift; Dump true] db /\ db_dump_meta db = Done (text, maps) /\
    db_touch yes2 yes lsm_junk true fs' one_device true (metafiles db) (Some text) (fun i => maps !! i) = Done db' /\
    db_lookup lsm_sha lsm_junk db' [1; 2; 3] = Done (Some (mkKV [1; 2; 3] [4; 5])).
Proof.
  destruct db_way as (t0 & db & raw & E0 & Hr & Hc & Hraw). assert (db_load_cm_conf lsm_junk one_device = Done one_conf) as Ec by (vm_compute; reflexivity).
  assert (db_touch yes2 yes lsm_junk true (fun _ => (mkRaw false 268435456, [])) one_device false ∅ None (fun _ => None) = Done (db_start t0)) as Et.
  { unfold db_touch. rewrite Ec. exact (db_created t0 E0). }
  destruct (touch_again lsm_sha lsm_junk yes2 yes (fun n => length_replicate n 171) lsm_sha_ok true (fun _ => (mkRaw false 268435456, [])) (fun _ => (mkRaw false 268435456, raw))
    one_device one_conf ∅ (db_start t0) [Insert lsm_kv true; Shift; Dump true] db t0 Ec) as (text & maps & db' & H1 & H2 & H3);
    [unfold NR_MAPS; cbn; lia|repeat constructor; cbn; lia|exact Et|exact Hr|reflexivity|by rewrite Hc|by rewrite Hraw|exact E0|].
  exists (db_start t0), db, (fun _ => (mkRaw false 268435456, raw)), text, maps, db'. split; [exact Et|]. split; [exact Hr|]. split; [exact H1|]. split; [exact H2|]. rewrite H3. reflexivity.
Defined.

(** Child 2 of a container on the last but one level has twenty tables. *)
Definition full_db : DB :=
  mkDB None Null {[ [0; 0; 0; 2]%nat := mkCC None (replicate 20 (1, mkMT 0 0 0 [] None)) ]} [] [] [] 0 ∅ 1.

Lemma full_child_hangs_witness :
  vc_pick_full full_db [0; 0; 0]%nat 0 1 = Some 2%nat /\
  compact_full (recursive_compaction lsm_sha yes2 yes lsm_junk 7 (fun _ _ => ([], []))) [0; 0; 0]%nat 0 1 1000 0 full_db = NoFuel.
Proof.
  assert (vc_pick_full full_db [0; 0; 0]%nat 0 1 = Some 2%nat) as Hp by (vm_compute; reflexivity). split; [exact Hp|].
  apply (full_child_hangs lsm_sha lsm_junk yes2 yes full_db [0; 0; 0]%nat 0 1 2 (mkCC None (replicate 20 (1, mkMT 0 0 0 [] None)))); [exact Hp|vm_compute; reflexivity|].
  left. vm_compute. lia.
Defined.

Lemma close_empty_double_free_witness :
  exists db0 db', db_create yes2 yes true db_conf [[]] db_ids 0 ∅ = Done db0 /\
    (db ← active_shift yes2 yes true db0; active_dump lsm_junk [0] db) = Done db' /\ db_free db' = Fault.
Proof.
  destruct (lsm_fresh _ _ db_pool) as (t0 & E0 & _ & Hv & _). pose proof (db_created t0 E0) as Ec.
  destruct (close_empty_double_free lsm_junk yes2 yes (mkDB (Some t0) Null {[ [] := vc_create ]} [db_map 0 0] [[]] db_ids 0 ∅ 1) t0 [0] eq_refl Hv eq_refl) as (db' & H1 & H2).
  exists (db_start t0), db'. split; [exact Ec|]. split; [exact H1|exact H2].
Defined.
