(* ===== verification/BTree.v ===== *)
(** * The B-tree (src/DataStruct_learn/Tree/btree/btree.c)

    A B-tree of order four in memory: search, insertion that splits full
    nodes on the way down, deletion that borrows and merges on the way down,
    creation from an array and destruction.  The nodes live in a memory of
    cells; every access goes through a pointer, an access to a cell that is
    not allocated is a fault, and [calloc] fails once the memory has no room
    for another node.

    Bounds of counting loops are read before the loop, since no body writes
    the field that bounds it.  Messages are not modelled; [disk_read] and
    [disk_write] read the keys they print, and [BTree_print] returns the lines
    it prints. *)

From S2P Require Import Prelude.

Module BTree.

Definition BTree_D : Z := 2.
Definition ORDER : Z := BTree_D * 2.

(** ** Memory *)

(** A pointer to a node; [None] is the null pointer. *)
Notation ptr := (option nat).

Record BTNode := mkNode
  { keynum : Z; key : list Z; child : list ptr; isLeaf : bool }.

#[export] Instance BTNode_eq_dec : EqDecision BTNode.
Proof. solve_decision. Defined.

(** [room] is the number of nodes that can still be allocated. *)
Record Mem := mkMem { cells : gmap nat BTNode; room : nat }.

#[export] Instance Mem_eq_dec : EqDecision Mem.
Proof. solve_decision. Defined.

(** A piece of code run on a memory. *)
Definition cmd (A : Type) : Type := Mem -> exec (A * Mem).
#[export] Instance cmd_ret : MRet cmd := fun A a m => Done (a, m).
#[export] Instance cmd_bind : MBind cmd := fun A B f c m =>
  match c m with Done (a, m') => f a m' | Fault => Fault | NoFuel => NoFuel end.

Definition lift {A} (e : exec A) : cmd A := fun m => a ← e; Done (a, m).
Definition out_of_fuel {A} : cmd A := fun _ => NoFuel.

(** [assert(b)]. *)
Definition check (b : bool) : cmd unit := fun m => if b then Done (tt, m) else Fault.

(** The memory with the node at [p] replaced. *)
Definition put (p : nat) (n : BTNode) (m : Mem) : Mem := mkMem (<[p := n]> (cells m)) (room m).

Definition deref (p : ptr) : cmd BTNode := fun m =>
  match p with
  | None => Fault
  | Some p => match cells m !! p with Some n => Done (n, m) | None => Fault end
  end.

Definition modify (p : ptr) (f : BTNode -> exec BTNode) : cmd unit := fun m =>
  match p with
  | None => Fault
  | Some p =>
      match cells m !! p with
      | Some n => n' ← f n; Done (tt, put p n' m)
      | None => Fault
      end
  end.

Definition calloc : cmd ptr := fun m =>
  match room m with
  | O => Done (None, m)
  | S r =>
      let p := fresh (dom (cells m)) in
      let n := mkNode 0 (replicate (Z.to_nat (ORDER - 1)) 0)
                 (replicate (Z.to_nat ORDER) None) false in
      Done (Some p, mkMem (<[p := n]> (cells m)) r)
  end.

Definition free (p : ptr) : cmd unit := fun m =>
  match p with
  | None => Done (tt, m)
  | Some p =>
      match cells m !! p with
      | Some _ => Done (tt, mkMem (delete p (cells m)) (S (room m)))
      | None => Fault
      end
  end.

(** Reading and writing the fields of a node. *)
Definition get_keynum (p : ptr) : cmd Z := n ← deref p; mret (keynum n).
Definition get_isLeaf (p : ptr) : cmd bool := n ← deref p; mret (isLeaf n).
Definition get_key (p : ptr) (i : Z) : cmd Z := n ← deref p; lift (loadz (key n) i).
Definition get_child (p : ptr) (i : Z) : cmd ptr := n ← deref p; lift (loadz (child n) i).

Definition set_keynum (p : ptr) (v : Z) : cmd unit :=
  modify p (fun n => Done (mkNode v (key n) (child n) (isLeaf n))).
Definition set_isLeaf (p : ptr) (b : bool) : cmd unit :=
  modify p (fun n => Done (mkNode (keynum n) (key n) (child n) b)).
Definition set_key (p : ptr) (i v : Z) : cmd unit :=
  modify p (fun n => ks ← storez (key n) i v; Done (mkNode (keynum n) ks (child n) (isLeaf n))).
Definition set_child (p : ptr) (i : Z) (c : ptr) : cmd unit :=
  modify p (fun n => cs ← storez (child n) i c; Done (mkNode (keynum n) (key n) cs (isLeaf n))).

(** [p->keynum += d]. *)
Definition add_keynum (p : ptr) (d : Z) : cmd unit :=
  n ← get_keynum p; set_keynum p (n + d).

(** [for (i = lo; i < lo + n; ++i)] and [for (i = hi; i > hi - n; --i)]. *)
Fixpoint up (n : nat) (i : Z) (body : Z -> cmd unit) : cmd unit :=
  match n with
  | O => mret tt
  | S n => body i;; up n (i + 1) body
  end.
Fixpoint down (n : nat) (i : Z) (body : Z -> cmd unit) : cmd unit :=
  match n with
  | O => mret tt
  | S n => body i;; down n (i - 1) body
  end.
Definition for_up (lo hi : Z) := up (Z.to_nat (hi - lo)) lo.
Definition for_down (hi lo : Z) := down (Z.to_nat (hi - lo)) hi.

Definition nonnull (p : ptr) : bool := match p with Some _ => true | None => false end.

(** ** Output *)

Definition disk_write (node : ptr) : cmd unit :=
  for_up 0 (ORDER - 1) (fun i => get_key node i;; mret tt).
Definition disk_read (node : ptr) : cmd unit :=
  for_up 0 (ORDER - 1) (fun i => get_key node i;; mret tt).

(** The results of [f i], [f (i + 1)], ... one behind the other. *)
Fixpoint gather {A} (n : nat) (i : Z) (f : Z -> cmd (list A)) : cmd (list A) :=
  match n with
  | O => mret []
  | S n => l ← f i; l' ← gather n (i + 1) f; mret (l ++ l')
  end.

(** A line of output: layer, number of keys and the whole array of keys. *)
Inductive line := Row (layer keynum : Z) (keys : list Z) | NoTree.

Fixpoint BTree_print (fuel : nat) (tree : ptr) (layer : Z) : cmd (list line) :=
  match fuel with
  | O => out_of_fuel
  | S fuel =>
      if nonnull tree then
        n ← get_keynum tree;
        ks ← gather (Z.to_nat (ORDER - 1)) 0 (fun i => k ← get_key tree i; mret [k]);
        below ← gather (Z.to_nat (n + 1)) 0 (fun i =>
          c ← get_child tree i;
          if nonnull c then BTree_print fuel c (layer + 1) else mret []);
        mret (Row layer n ks :: below)
      else mret [NoTree]
  end.

(** ** Searching inside a node *)

(** The loop of [binarySearch]: the three tests are made one after the other
    with the same [mid]. *)
Fixpoint bisect (fuel : nat) (node : ptr) (low high Fkey : Z) : cmd Z :=
  if low <=? high then
    match fuel with
    | O => out_of_fuel
    | S fuel =>
        let mid := low + Z.quot (high - low) 2 in
        k ← get_key node mid;
        if Fkey =? k then mret mid
        else bisect fuel node (if k <? Fkey then mid + 1 else low)
               (if Fkey <? k then mid - 1 else high) Fkey
    end
  else mret 0.

Definition binarySearch (node : ptr) (low high Fkey : Z) : cmd Z :=
  bisect (Z.to_nat (high - low + 1)) node low high Fkey.

(** [while (index < keynum && key > node->key[index]) ++index;] with [n] keys
    left. *)
Fixpoint scan_up (n : nat) (node : ptr) (index key : Z) : cmd Z :=
  match n with
  | O => mret index
  | S n =>
      k ← get_key node index;
      if k <? key then scan_up n node (index + 1) key else mret index
  end.

(** [while (i >= 0 && key < node->key[i]) --i;] from [i = j - 1]. *)
Fixpoint scan_down (j : nat) (node : ptr) (key : Z) : cmd Z :=
  match j with
  | O => mret (-1)
  | S i =>
      k ← get_key node (Z.of_nat i);
      if key <? k then scan_down i node key else mret (Z.of_nat i)
  end.

(** The same loop moving the keys it passes up by one. *)
Fixpoint shift_up (j : nat) (node : ptr) (key : Z) : cmd Z :=
  match j with
  | O => mret (-1)
  | S i =>
      k ← get_key node (Z.of_nat i);
      if key <? k then set_key node (Z.of_nat i + 1) k;; shift_up i node key
      else mret (Z.of_nat i)
  end.

(** ** Insertion *)

Definition BTree_split_child (parent : ptr) (index : Z) (node : ptr) : cmd unit :=
  check (nonnull parent && nonnull node);;
  newNode ← calloc;
  if negb (nonnull newNode) then mret tt else
  leaf ← get_isLeaf node;
  set_isLeaf newNode leaf;;
  set_keynum newNode (BTree_D - 1);;
  n ← get_keynum newNode;
  for_up 0 n (fun i =>
    k ← get_key node (BTree_D + i);
    set_key newNode i k;;
    set_key node (BTree_D + i) 0);;
  leaf ← get_isLeaf node;
  (if negb leaf then
     for_up 0 BTree_D (fun i =>
       c ← get_child node (BTree_D + i);
       set_child newNode i c;;
       set_child node (BTree_D + i) None)
   else mret tt);;
  set_keynum node (BTree_D - 1);;
  n ← get_keynum parent;
  for_down n index (fun i =>
    c ← get_child parent i;
    set_child parent (i + 1) c);;
  set_child parent (index + 1) newNode;;
  n ← get_keynum parent;
  for_down (n - 1) (index - 1) (fun i =>
    k ← get_key parent i;
    set_key parent (i + 1) k);;
  k ← get_key node (BTree_D - 1);
  set_key parent index k;;
  add_keynum parent 1;;
  set_key node (BTree_D - 1) 0;;
  disk_write parent;;
  disk_write newNode;;
  disk_write node.

Fixpoint BTree_insert_nonfull (fuel : nat) (node : ptr) (key : Z) : cmd unit :=
  match fuel with
  | O => out_of_fuel
  | S fuel =>
      check (nonnull node);;
      leaf ← get_isLeaf node;
      n ← get_keynum node;
      if (leaf : bool) then
        i ← shift_up (Z.to_nat n) node key;
        set_key node (i + 1) key;;
        add_keynum node 1;;
        disk_write node
      else
        i ← scan_down (Z.to_nat n) node key;
        let i := i + 1 in
        c ← get_child node i;
        disk_read c;;
        n ← get_keynum c;
        i ← (if n =? ORDER - 1 then
               BTree_split_child node i c;;
               k ← get_key node i;
               mret (if k <? key then i + 1 else i)
             else mret i);
        c ← get_child node i;
        BTree_insert_nonfull fuel c key
  end.

(** The result of the functions that take a [BTree *] is what they leave in
    the variable it points to. *)
Definition BTree_insert (fuel : nat) (tree : ptr) (key : Z) : cmd ptr :=
  let root := tree in
  if negb (nonnull root) then
    root ← calloc;
    if negb (nonnull root) then mret tree else
    set_isLeaf root true;;
    set_keynum root 1;;
    set_key root 0 key;;
    disk_write root;;
    mret root
  else
    n ← get_keynum root;
    if n =? ORDER - 1 then
      node ← calloc;
      if negb (nonnull node) then mret tree else
      set_isLeaf node false;;
      set_keynum node 0;;
      set_child node 0 root;;
      BTree_split_child node 0 root;;
      BTree_insert_nonfull fuel node key;;
      mret node
    else
      BTree_insert_nonfull fuel root key;;
      mret tree.

(** ** Deletion *)

Definition BTree_merge_child (tree node : ptr) (index : Z) : cmd ptr :=
  n ← get_keynum node;
  check ((0 <=? index) && (index <? n));;
  key ← get_key node index;
  leftChild ← get_child node index;
  rightChild ← get_child node (index + 1);
  ln ← get_keynum leftChild;
  rn ← get_keynum rightChild;
  check ((ln =? BTree_D - 1) && (rn =? BTree_D - 1));;
  n ← get_keynum leftChild;
  set_key leftChild n key;;
  c ← get_child rightChild 0;
  n ← get_keynum leftChild;
  set_child leftChild (n + 1) c;;
  add_keynum leftChild 1;;
  rn ← get_keynum rightChild;
  for_up 0 rn (fun i =>
    n ← get_keynum leftChild;
    k ← get_key rightChild i;
    set_key leftChild n k;;
    c ← get_child rightChild (i + 1);
    set_child leftChild (n + 1) c;;
    add_keynum leftChild 1);;
  n ← get_keynum node;
  for_up index (n - 1) (fun i =>
    k ← get_key node (i + 1);
    set_key node i k;;
    c ← get_child node (i + 2);
    set_child node (i + 1) c);;
  n ← get_keynum node;
  set_key node (n - 1) 0;;
  set_child node n None;;
  add_keynum node (-1);;
  n ← get_keynum node;
  tree ← (if n =? 0 then
            free node;;
            mret (if decide (tree = node) then leftChild else tree)
          else mret tree);
  free rightChild;;
  mret tree.

Definition cmp (a b : Z) : Z := if 0 <=? a - b then 1 else 0.

(** Case 3.1 of [BTree_recursive_remove] with a rich right sibling. *)
Definition borrow_right (node child rightSibling : ptr) (index : Z) : cmd unit :=
  n ← get_keynum child;
  k ← get_key node index;
  set_key child n k;;
  c ← get_child rightSibling 0;
  set_child child (n + 1) c;;
  add_keynum child 1;;
  k ← get_key rightSibling 0;
  set_key node index k;;
  rn ← get_keynum rightSibling;
  for_up 0 (rn - 1) (fun j =>
    k ← get_key rightSibling (j + 1);
    set_key rightSibling j k;;
    c ← get_child rightSibling (j + 1);
    set_child rightSibling j c);;
  set_key rightSibling (rn - 1) 0;;
  c ← get_child rightSibling rn;
  set_child rightSibling (rn - 1) c;;
  set_child rightSibling rn None;;
  add_keynum rightSibling (-1).

(** Case 3.1 with a rich left sibling. *)
Definition borrow_left (node child leftSibling : ptr) (index : Z) : cmd unit :=
  n ← get_keynum child;
  for_down n 0 (fun j =>
    k ← get_key child (j - 1);
    set_key child j k;;
    c ← get_child child j;
    set_child child (j + 1) c);;
  c ← get_child child 0;
  set_child child 1 c;;
  ln ← get_keynum leftSibling;
  c ← get_child leftSibling ln;
  set_child child 0 c;;
  k ← get_key node (index - 1);
  set_key child 0 k;;
  add_keynum child 1;;
  k ← get_key leftSibling (ln - 1);
  set_key node (index - 1) k;;
  set_key leftSibling (ln - 1) 0;;
  set_child leftSibling ln None;;
  add_keynum leftSibling (-1).

(** [p && p->keynum >= BTree_D] and [p && p->keynum == BTree_D - 1]. *)
Definition rich (p : ptr) : cmd bool :=
  if nonnull p then n ← get_keynum p; mret (BTree_D <=? n) else mret false.
Definition poor (p : ptr) : cmd bool :=
  if nonnull p then n ← get_keynum p; mret (n =? BTree_D - 1) else mret false.

(** The preparation of case 3: the child the key belongs to gets a further
    key before the descent.  Returns [*tree] and the child to descend to. *)
Definition enrich_child (tree node child : ptr) (index : Z) : cmd (ptr * ptr) :=
  n ← get_keynum child;
  if n =? BTree_D - 1 then
    n ← get_keynum node;
    leftSibling ← (if 0 <=? index - 1 then get_child node (index - 1) else mret None);
    rightSibling ← (if index + 1 <=? n then get_child node (index + 1) else mret None);
    richL ← rich leftSibling;
    rightRich ← rich rightSibling;
    if (richL || rightRich)%bool then
      richR ← (if nonnull leftSibling && nonnull rightSibling then
                 rn ← get_keynum rightSibling;
                 ln ← get_keynum leftSibling;
                 mret (cmp rn ln)
               else mret (if nonnull rightSibling then 1 else 0));
      (if rightRich && negb (richR =? 0)
       then borrow_right node child rightSibling index
       else borrow_left node child leftSibling index);;
      mret (tree, child)
    else
      poorL ← poor leftSibling;
      poorR ← poor rightSibling;
      if (negb (nonnull leftSibling) || poorL) && (negb (nonnull rightSibling) || poorR) then
        if poorL : bool then
          tree ← BTree_merge_child tree node (index - 1);
          mret (tree, leftSibling)
        else if poorR : bool then
          tree ← BTree_merge_child tree node index;
          mret (tree, child)
        else mret (tree, child)
      else mret (tree, child)
  else mret (tree, child).

(** Case 1: the key at [index] is deleted from a leaf. *)
Definition remove_from_leaf (tree node : ptr) (index : Z) : cmd ptr :=
  n ← get_keynum node;
  for_up index (n - 1) (fun i =>
    k ← get_key node (i + 1);
    set_key node i k);;
  set_key node (n - 1) 0;;
  add_keynum node (-1);;
  n ← get_keynum node;
  if n =? 0 then
    check (bool_decide (node = tree));;
    free node;;
    mret None
  else mret tree.

Fixpoint BTree_recursive_remove (fuel : nat) (tree : ptr) (key : Z) : cmd ptr :=
  match fuel with
  | O => out_of_fuel
  | S fuel =>
      let node := tree in
      if negb (nonnull tree) then mret tree else
      n ← get_keynum node;
      index ← scan_up (Z.to_nat n) node 0 key;
      found ← (if index <? n then k ← get_key node index; mret (k =? key) else mret false);
      if (found : bool) then
        leaf ← get_isLeaf node;
        if (leaf : bool) then remove_from_leaf tree node index
        else
          leftChild ← get_child node index;
          ln ← get_keynum leftChild;
          if BTree_D <=? ln then
            leftKey ← get_key leftChild (ln - 1);
            set_key node index leftKey;;
            BTree_recursive_remove fuel leftChild leftKey;;
            mret tree
          else
            rightChild ← get_child node (index + 1);
            rn ← get_keynum rightChild;
            if BTree_D <=? rn then
              rightKey ← get_key rightChild 0;
              set_key node index rightKey;;
              BTree_recursive_remove fuel rightChild rightKey;;
              mret tree
            else if (ln =? BTree_D - 1) && (rn =? BTree_D - 1) then
              tree ← BTree_merge_child tree node index;
              BTree_recursive_remove fuel leftChild key;;
              mret tree
            else mret tree
      else
        child ← get_child node index;
        if negb (nonnull child) then mret tree
        else
          '(tree, child) ← enrich_child tree node child index;
          BTree_recursive_remove fuel child key;;
          mret tree
  end.

Definition BTree_remove (fuel : nat) (tree : ptr) (key : Z) : cmd ptr :=
  if negb (nonnull tree) then mret tree else BTree_recursive_remove fuel tree key.

(** ** Search *)

(** Returns the node and [*pos]. *)
Fixpoint BTree_recursive_search (fuel : nat) (tree : ptr) (key pos : Z) : cmd (ptr * Z) :=
  match fuel with
  | O => out_of_fuel
  | S fuel =>
      n ← get_keynum tree;
      i ← scan_up (Z.to_nat n) tree 0 key;
      found ← (if i <? n then k ← get_key tree i; mret (k =? key) else mret false);
      if (found : bool) then mret (tree, i) else
      leaf ← get_isLeaf tree;
      if (leaf : bool) then mret (None, pos) else
      c ← get_child tree i;
      disk_read c;;
      BTree_recursive_search fuel c key pos
  end.

Definition BTree_search (fuel : nat) (tree : ptr) (key pos : Z) : cmd (ptr * Z) :=
  if negb (nonnull tree) then mret (None, pos)
  else BTree_recursive_search fuel tree key (-1).

(** ** Creation and destruction *)

(** The loop of [BTree_create] over the elements of [data]. *)
Fixpoint BTree_create (fuel : nat) (tree : ptr) (data : list Z) : cmd ptr :=
  match data with
  | [] => mret tree
  | x :: data =>
      '(_, pos) ← BTree_search fuel tree x (-1);
      tree ← (if negb (pos =? -1) then mret tree else BTree_insert fuel tree x);
      BTree_create fuel tree data
  end.

Fixpoint BTree_destroy (fuel : nat) (tree : ptr) : cmd ptr :=
  match fuel with
  | O => out_of_fuel
  | S fuel =>
      let node := tree in
      (if nonnull node then
         n ← get_keynum node;
         for_up 0 (n + 1) (fun i =>
           c ← get_child node i;
           c ← BTree_destroy fuel c;
           set_child node i c);;
         free node
       else mret tt);;
      mret None
  end.

End BTree.
