(* ===== verification/BTreeNode.v ===== *)
(** * Nodes of the B-tree

    What a node in memory holds, and the effect of the operations that work
    on a node and its neighbours: splitting, merging, borrowing from a
    sibling, inserting into and deleting from a leaf. *)

From S2P Require Import Prelude BTree.
Import BTree.

(** ** Running commands *)

(** [runs c m Q]: started in [m], [c] returns and [Q] holds of its result and
    the memory it leaves. *)
Definition runs {A} (c : cmd A) (m : Mem) (Q : A -> Mem -> Prop) : Prop :=
  exists a m', c m = Done (a, m') /\ Q a m'.

Section runs.
Context {A B : Type}.
Implicit Types (c : cmd A) (f : A -> cmd B).

Lemma runs_ret (a : A) m (Q : A -> Mem -> Prop) : Q a m -> runs (mret a) m Q.
Proof. intros HQ. by exists a, m. Qed.

Lemma runs_bind c f m (Q : B -> Mem -> Prop) :
  runs c m (fun a m' => runs (f a) m' Q) -> runs (c ≫= f) m Q.
Proof.
  intros (a & m1 & Hc & b & m2 & Hf & HQ). exists b, m2. split; [|done].
  unfold mbind, cmd_bind. by rewrite Hc.
Qed.

Lemma runs_mono c m (P Q : A -> Mem -> Prop) :
  runs c m P -> (forall a m', P a m' -> Q a m') -> runs c m Q.
Proof. intros (a & m' & Hc & HP) H. exists a, m'. auto. Qed.

End runs.

Section fields.
Context (m : Mem) (p : nat) (n : BTNode) (Hp : cells m !! p = Some n).

Lemma runs_get {A} (f : BTNode -> exec A) a Q :
  f n = Done a -> Q a m -> runs (n ← deref (Some p); lift (f n)) m Q.
Proof using Hp.
  intros Hf HQ. exists a, m. split; [|done].
  unfold mbind, cmd_bind, deref, lift. by rewrite Hp, Hf.
Qed.

Lemma runs_get_keynum Q : Q (keynum n) m -> runs (get_keynum (Some p)) m Q.
Proof using Hp. by apply (runs_get (fun n => Done (keynum n))). Qed.
Lemma runs_get_isLeaf Q : Q (isLeaf n) m -> runs (get_isLeaf (Some p)) m Q.
Proof using Hp. by apply (runs_get (fun n => Done (isLeaf n))). Qed.
Lemma runs_get_key i v Q : loadz (key n) i = Done v -> Q v m -> runs (get_key (Some p) i) m Q.
Proof using Hp. apply (runs_get (fun n => loadz (key n) i)). Qed.
Lemma runs_get_child i c Q : loadz (child n) i = Done c -> Q c m -> runs (get_child (Some p) i) m Q.
Proof using Hp. apply (runs_get (fun n => loadz (child n) i)). Qed.

Lemma runs_modify f n' Q : f n = Done n' -> Q tt (put p n' m) -> runs (modify (Some p) f) m Q.
Proof using Hp.
  intros Hf HQ. exists tt, (put p n' m). split; [|done]. simpl. by rewrite Hp, Hf.
Qed.

Lemma runs_set_keynum v Q :
  Q tt (put p (mkNode v (key n) (child n) (isLeaf n)) m) -> runs (set_keynum (Some p) v) m Q.
Proof using Hp. by apply runs_modify. Qed.
Lemma runs_set_isLeaf b Q :
  Q tt (put p (mkNode (keynum n) (key n) (child n) b) m) -> runs (set_isLeaf (Some p) b) m Q.
Proof using Hp. by apply runs_modify. Qed.
Lemma runs_set_key i v ks Q :
  storez (key n) i v = Done ks ->
  Q tt (put p (mkNode (keynum n) ks (child n) (isLeaf n)) m) -> runs (set_key (Some p) i v) m Q.
Proof using Hp. intros E. apply runs_modify. by rewrite E. Qed.
Lemma runs_set_child i c cs Q :
  storez (child n) i c = Done cs ->
  Q tt (put p (mkNode (keynum n) (key n) cs (isLeaf n)) m) -> runs (set_child (Some p) i c) m Q.
Proof using Hp. intros E. apply runs_modify. by rewrite E. Qed.
Lemma runs_add_keynum d Q :
  Q tt (put p (mkNode (keynum n + d) (key n) (child n) (isLeaf n)) m) ->
  runs (add_keynum (Some p) d) m Q.
Proof using Hp. intros HQ. by apply runs_bind, runs_get_keynum, runs_set_keynum. Qed.

Lemma runs_disk Q : length (key n) = 3%nat -> Q tt m -> runs (disk_write (Some p)) m Q.
Proof using Hp.
  intros Hn HQ. destruct (key n) as [|x [|y [|z [|]]]] eqn:Ek; try discriminate Hn.
  do 3 (apply runs_bind, runs_bind; eapply runs_get_key; [rewrite Ek; reflexivity|]; apply runs_ret).
  by apply runs_ret.
Qed.

Lemma runs_free Q : Q tt (mkMem (delete p (cells m)) (S (room m))) -> runs (free (Some p)) m Q.
Proof using Hp. intros HQ. eexists tt, _. split; [|done]. simpl. by rewrite Hp. Qed.

End fields.

Lemma runs_lift {A} (e : exec A) a m Q : e = Done a -> Q a m -> runs (lift e) m Q.
Proof. intros -> HQ. by exists a, m. Qed.

Lemma runs_check b m Q : b = true -> Q tt m -> runs (check b) m Q.
Proof. intros -> HQ. by exists tt, m. Qed.

Lemma runs_calloc m r Q :
  room m = S r ->
  Q (Some (fresh (dom (cells m))))
    (mkMem (<[fresh (dom (cells m)) := mkNode 0 [0; 0; 0] [None; None; None; None] false]>
              (cells m)) r) ->
  runs calloc m Q.
Proof. intros Hr HQ. eexists _, _. split; [|exact HQ]. unfold calloc. by rewrite Hr. Qed.

Lemma put_put p n n' m : put p n (put p n' m) = put p n m.
Proof. unfold put. cbn. f_equal. apply insert_insert_eq. Qed.

(** Looks a node up in a memory built by updates at different places. *)
Ltac lookup :=
  cbn [cells put];
  repeat first [ rewrite lookup_insert_eq | rewrite lookup_insert_ne by congruence
               | rewrite lookup_delete_eq | rewrite lookup_delete_ne by congruence ];
  first [ reflexivity | eassumption ].

(** One step of a command whose control depends on known values only. *)
Ltac cstep :=
  lazymatch goal with
  | |- runs (_ ≫= _) _ _ => apply runs_bind
  | |- runs (mret _) _ _ => apply runs_ret
  | |- runs (get_keynum _) _ _ => eapply runs_get_keynum; [lookup|]
  | |- runs (get_isLeaf _) _ _ => eapply runs_get_isLeaf; [lookup|]
  | |- runs (get_key _ _) _ _ => eapply runs_get_key; [lookup|reflexivity|]
  | |- runs (get_child _ _) _ _ => eapply runs_get_child; [lookup|reflexivity|]
  | |- runs (set_keynum _ _) _ _ => eapply runs_set_keynum; [lookup|]
  | |- runs (set_isLeaf _ _) _ _ => eapply runs_set_isLeaf; [lookup|]
  | |- runs (set_key _ _ _) _ _ => eapply runs_set_key; [lookup|reflexivity|]
  | |- runs (set_child _ _ _) _ _ => eapply runs_set_child; [lookup|reflexivity|]
  | |- runs (add_keynum _ _) _ _ => eapply runs_add_keynum; [lookup|]
  | |- runs (disk_write _) _ _ => eapply runs_disk; [lookup|reflexivity|]
  | |- runs (disk_read _) _ _ => eapply runs_disk; [lookup|reflexivity|]
  | |- runs (free _) _ _ => eapply runs_free; [lookup|]
  | |- runs (check _) _ _ => eapply runs_check; [reflexivity|]
  | |- runs (for_up ?lo ?hi _) _ _ =>
      let n := eval vm_compute in (Z.to_nat (hi - lo)) in
      change (for_up lo hi) with (up n lo); cbn [up]
  | |- runs (for_down ?hi ?lo _) _ _ =>
      let n := eval vm_compute in (Z.to_nat (hi - lo)) in
      change (for_down hi lo) with (down n hi); cbn [down]
  | |- runs (if ?b then _ else _) _ _ =>
      let v := eval vm_compute in b in
      lazymatch v with true => idtac | false => idtac end; change b with v; cbv iota
  end;
  cbn [keynum key child isLeaf negb nonnull]; rewrite ?put_put.

(** ** What a node holds *)

(** The node holds the keys [ks] and points to the nodes [cs]; a leaf has
    null pointers only. *)
Definition holds (n : BTNode) (ks : list Z) (cs : list nat) : Prop :=
  exists xs ys,
    n = mkNode (Z.of_nat (length ks)) (ks ++ xs) ((Some <$> cs) ++ ys)
          (match cs with [] => true | _ => false end) /\
    (length ks + length xs = 3)%nat /\ (length cs + length ys = 4)%nat /\
    (cs = [] -> ys = [None; None; None; None]).

Definition node_at (m : Mem) (p : nat) (ks : list Z) (cs : list nat) : Prop :=
  exists n, cells m !! p = Some n /\ holds n ks cs.

Lemma node_at_frame m m' p ks cs :
  cells m' !! p = cells m !! p -> node_at m p ks cs -> node_at m' p ks cs.
Proof. intros E (n & Hn & H). exists n. by rewrite E. Qed.

Lemma node_at_fresh m p ks cs : node_at m p ks cs -> p <> fresh (dom (cells m)).
Proof.
  intros (n & Hn & _) ->. apply (is_fresh (dom (cells m))), elem_of_dom. by exists n.
Qed.

(** [same_but ps m m']: the memories differ at [ps] only. *)
Definition same_but (ps : list nat) (m m' : Mem) : Prop :=
  forall q, q ∉ ps -> cells m' !! q = cells m !! q.

(** Names the unused fields of a node of which the keys and children are
    given. *)
Ltac fields H :=
  let n := fresh "n" in let Hn := fresh "Hn" in
  let xs := fresh "xs" in let ys := fresh "ys" in
  let Hx := fresh "Hx" in let Hy := fresh "Hy" in let Hl := fresh "Hl" in
  destruct H as (n & Hn & xs & ys & -> & Hx & Hy & Hl);
  cbn [length Nat.add app] in Hx, Hy, Hl;
  repeat (apply Nat.succ_inj in Hx); repeat (apply Nat.succ_inj in Hy);
  explode xs; 
  first [ rewrite (Hl eq_refl) in Hn; clear Hl | clear Hl; explode ys];
  cbn [app fmap list_fmap length Z.of_nat Pos.of_succ_nat Pos.succ] in Hn |- *.

(** A node written out holds what it shows. *)
Ltac show_node :=
  eexists; split; [lookup|];
  eexists _, _; split; [reflexivity|]; cbn; repeat split; first [discriminate | auto].

(** Memories that differ by updates at named places. *)
Ltac same_cells :=
  let q := fresh "q" in let Hq := fresh "Hq" in
  intros q Hq; rewrite ?not_elem_of_cons in Hq; destruct_and?; lookup.

Ltac show_result :=
  lazymatch goal with
  | |- _ /\ _ => split; [show_result | show_result]
  | |- node_at _ _ _ _ => show_node
  | |- same_but _ _ _ => same_cells
  | |- _ => first [reflexivity | lookup | cbn [room cells put]; lia | auto]
  end.

Section split.
Context (m : Mem) (p q : nat) (a b c : Z).
Context (Hpq : p <> q) (Hroom : (1 <= room m)%nat).
Context (f := fresh (dom (cells m))).

Lemma split_child_spec ks1 ks2 cs1 cs2 cc :
  node_at m p (ks1 ++ ks2) (cs1 ++ q :: cs2) -> node_at m q [a; b; c] cc ->
  length cs1 = length ks1 -> length cs2 = length ks2 -> (length ks1 + length ks2 <= 2)%nat ->
  cc = [] \/ length cc = 4%nat ->
  runs (BTree_split_child (Some p) (Z.of_nat (length ks1)) (Some q)) m (fun _ m' =>
    node_at m' p (ks1 ++ b :: ks2) (cs1 ++ q :: f :: cs2) /\
    node_at m' q [a] (take 2 cc) /\ node_at m' f [c] (drop 2 cc) /\
    S (room m') = room m /\ same_but [p; q; f] m m').
Proof using Hpq Hroom.
  intros Hp Hq Hc1 Hc2 Hlen Hcc.
  assert (p <> f /\ q <> f) as [Hpf Hqf].
  { split; [exact (node_at_fresh _ _ _ _ Hp) | exact (node_at_fresh _ _ _ _ Hq)]. }
  destruct (room m) as [|r] eqn:Er; [lia|].
  destruct ks1 as [|k1 [|k2 [|]]], ks2 as [|k3 [|k4 [|]]]; cbn [length] in *; try lia;
    explode cs1; explode cs2; cbn [app length] in *.
  all: fields Hp; (destruct Hcc as [->|Hcc]; [|explode cc]); fields Hq;
    unfold BTree_split_child; do 3 cstep; (eapply runs_calloc; [exact Er|]);
    fold f; cbn [nonnull negb].
  all: repeat cstep.
  all: show_result. 
Qed.

End split.

(** ** Reading a node *)

Section reading.
Context (m : Mem) (p : nat) (ks : list Z) (cs : list nat) (Hp : node_at m p ks cs).

Lemma at_keynum Q : Q (Z.of_nat (length ks)) m -> runs (get_keynum (Some p)) m Q.
Proof using Hp. destruct Hp as (n & Hn & xs & ys & -> & _). by apply (runs_get_keynum _ _ _ Hn). Qed.

Lemma at_isLeaf Q :
  Q (match cs with [] => true | _ => false end) m -> runs (get_isLeaf (Some p)) m Q.
Proof using Hp. destruct Hp as (n & Hn & xs & ys & -> & _). by apply (runs_get_isLeaf _ _ _ Hn). Qed.

Lemma at_key i k Q : ks !! i = Some k -> Q k m -> runs (get_key (Some p) (Z.of_nat i)) m Q.
Proof using Hp.
  intros Hk HQ. destruct Hp as (n & Hn & xs & ys & -> & _).
  eapply (runs_get_key _ _ _ Hn); [|exact HQ]. cbn. rewrite loadz_nat.
  apply load_Done. by apply lookup_app_l_Some.
Qed.

Lemma at_child i c Q : cs !! i = Some c -> Q (Some c) m -> runs (get_child (Some p) (Z.of_nat i)) m Q.
Proof using Hp.
  intros Hc HQ. destruct Hp as (n & Hn & xs & ys & -> & _).
  eapply (runs_get_child _ _ _ Hn); [|exact HQ]. cbn. rewrite loadz_nat.
  apply load_Done, lookup_app_l_Some. by rewrite list_lookup_fmap, Hc.
Qed.

Lemma at_no_child i Q : cs = [] -> (i <= 3)%nat -> Q None m -> runs (get_child (Some p) (Z.of_nat i)) m Q.
Proof using Hp.
  intros -> Hi HQ. destruct Hp as (n & Hn & xs & ys & -> & _ & _ & Hl).
  rewrite (Hl eq_refl) in Hn.
  eapply (runs_get_child _ _ _ Hn); [|exact HQ]. cbn. rewrite loadz_nat.
  apply load_Done. by destruct i as [|[|[|[|]]]]; [..|lia].
Qed.

Lemma at_disk Q : Q tt m -> runs (disk_read (Some p)) m Q.
Proof using Hp.
  intros HQ. destruct Hp as (n & Hn & xs & ys & -> & Hx & _).
  apply (runs_disk _ _ _ Hn); [|done]. cbn. by rewrite length_app.
Qed.

Lemma at_length : (length ks <= 3)%nat.
Proof using Hp. destruct Hp as (n & Hn & xs & ys & -> & Hx & _). lia. Qed.

End reading.

Lemma at_set_key m p ks1 k ks2 cs k' Q :
  node_at m p (ks1 ++ k :: ks2) cs ->
  (forall m', node_at m' p (ks1 ++ k' :: ks2) cs -> room m' = room m -> same_but [p] m m' -> Q tt m') ->
  runs (set_key (Some p) (Z.of_nat (length ks1)) k') m Q.
Proof.
  intros (n & Hn & xs & ys & -> & Hx & Hy & Hl) HQ.
  eapply (runs_set_key _ _ _ Hn).
  { cbn. rewrite storez_nat, <- app_assoc. cbn. apply store_middle. }
  apply HQ; [|done|same_cells].
  eexists. split; [lookup|]. exists xs, ys. split; [|by rewrite length_app in *].
  cbn. rewrite !length_app, <- app_assoc. done.
Qed.

(** ** Positions in a node *)

(** The key goes between [ks1] and [ks2]: behind equal keys, or before them. *)
Definition behind (key : Z) (ks1 ks2 : list Z) : Prop :=
  (forall x, last ks1 = Some x -> x <= key) /\ Forall (fun x => key < x) ks2.
Definition before (key : Z) (ks1 ks2 : list Z) : Prop :=
  Forall (fun x => x < key) ks1 /\ (forall x, head ks2 = Some x -> key <= x).

Lemma scan_up_spec m p ks1 ks2 cs key Q :
  node_at m p (ks1 ++ ks2) cs -> Forall (fun x => x < key) ks1 ->
  (forall l1 l2, ks1 ++ ks2 = l1 ++ l2 -> before key l1 l2 -> Q (Z.of_nat (length l1)) m) ->
  runs (scan_up (length ks2) (Some p) (Z.of_nat (length ks1)) key) m Q.
Proof.
  revert ks1. induction ks2 as [|k ks2 IH]; intros ks1 Hp H1 HQ; cbn [length scan_up].
  - apply runs_ret, (HQ ks1 []); [done|]. by split.
  - apply runs_bind. eapply at_key; [exact Hp|by apply list_lookup_middle|].
    destruct (Z.ltb_spec k key).
    + specialize (IH (ks1 ++ [k])).
      rewrite <- app_assoc, length_app, Nat2Z.inj_add in IH.
      apply IH; [done| |done]. apply Forall_app. auto.
    + apply runs_ret, (HQ ks1 (k :: ks2)); [done|]. split; [done|]. by intros x [= <-].
Qed.

Lemma scan_down_spec m p ks1 ks2 cs key Q :
  node_at m p (ks1 ++ ks2) cs -> Forall (fun x => key < x) ks2 ->
  (forall l1 l2, ks1 ++ ks2 = l1 ++ l2 -> behind key l1 l2 -> Q (Z.of_nat (length l1) - 1) m) ->
  runs (scan_down (length ks1) (Some p) key) m Q.
Proof.
  revert ks2. induction ks1 as [|k ks1 IH] using rev_ind; intros ks2 Hp H2 HQ.
  - apply runs_ret, (HQ [] ks2); [done|]. by split.
  - rewrite <- app_assoc in Hp, HQ. rewrite length_app, Nat.add_1_r. cbn [scan_down].
    apply runs_bind. eapply at_key; [exact Hp|by apply list_lookup_middle|].
    destruct (Z.ltb_spec key k).
    + apply (IH ([k] ++ ks2)); [done| |done]. by constructor.
    + apply runs_ret. specialize (HQ (ks1 ++ [k]) ks2).
      rewrite length_app, Nat2Z.inj_add, Z.add_simpl_r in HQ. apply HQ; [by rewrite <- app_assoc|].
      split; [|done]. intros x. rewrite last_snoc. by intros [= <-].
Qed.

(** ** Merging and borrowing *)

(** Names the unused keys of a node, leaving its children as they are. *)
Ltac key_fields H :=
  let n := fresh "n" in let Hn := fresh "Hn" in
  let xs := fresh "xs" in let ys := fresh "ys" in
  let Hx := fresh "Hx" in let Hy := fresh "Hy" in let Hl := fresh "Hl" in
  destruct H as (n & Hn & xs & ys & -> & Hx & Hy & Hl);
  cbn [length Nat.add app] in Hx, Hn; repeat (apply Nat.succ_inj in Hx); explode xs;
  cbn [app length Z.of_nat Pos.of_succ_nat Pos.succ] in Hn |- *.

Section neighbours.
Context (m : Mem) (p l r : nat) (Hpl : p <> l) (Hpr : p <> r) (Hlr : l <> r).

(** Merging the only two children of a node. *)
Lemma merge_last_spec tree k a b cl cr :
  node_at m p [k] [l; r] -> node_at m l [a] cl -> node_at m r [b] cr ->
  cl = [] /\ cr = [] \/ length cl = 2%nat /\ length cr = 2%nat ->
  runs (BTree_merge_child tree (Some p) 0) m (fun t m' =>
    t = (if decide (tree = Some p) then Some l else tree) /\
    node_at m' l [a; k; b] (cl ++ cr) /\ cells m' !! p = None /\ cells m' !! r = None /\
    room m' = S (S (room m)) /\ same_but [p; l; r] m m').
Proof using Hpl Hpr Hlr.
  intros Hp Hl Hr Hc. fields Hp.
  destruct Hc as [[-> ->]|[Hc1 Hc2]]; [|explode cl; explode cr]; fields Hl; fields Hr;
    unfold BTree_merge_child; repeat cstep; show_result.
Qed.

Lemma merge_child_spec tree ks1 k ks2 cs1 cs2 a b cl cr :
  node_at m p (ks1 ++ k :: ks2) (cs1 ++ l :: r :: cs2) -> node_at m l [a] cl -> node_at m r [b] cr ->
  length cs1 = length ks1 -> length cs2 = length ks2 -> (1 <= length ks1 + length ks2 <= 2)%nat ->
  cl = [] /\ cr = [] \/ length cl = 2%nat /\ length cr = 2%nat ->
  runs (BTree_merge_child tree (Some p) (Z.of_nat (length ks1))) m (fun t m' =>
    t = tree /\ node_at m' p (ks1 ++ ks2) (cs1 ++ l :: cs2) /\
    node_at m' l [a; k; b] (cl ++ cr) /\ cells m' !! r = None /\
    room m' = S (room m) /\ same_but [p; l; r] m m').
Proof using Hpl Hpr Hlr.
  intros Hp Hl Hr Hc1 Hc2 Hlen Hc.
  destruct ks1 as [|k1 [|k2 [|]]], ks2 as [|k3 [|k4 [|]]]; cbn [length] in *; try lia;
    explode cs1; explode cs2; cbn [app length] in *; fields Hp.
  all: (destruct Hc as [[-> ->]|[Hl2 Hr2]]; [|explode cl; explode cr]); fields Hl; fields Hr;
    unfold BTree_merge_child; repeat cstep; show_result.
Qed.

(** A key moves from the right sibling [r] over the parent to [l]. *)
Lemma borrow_right_spec ks1 k ks2 cs a b rks cl cr :
  node_at m p (ks1 ++ k :: ks2) cs -> node_at m l [a] cl -> node_at m r (b :: rks) cr ->
  (1 <= length rks <= 2)%nat ->
  cl = [] /\ cr = [] \/ length cl = 2%nat /\ length cr = S (S (length rks)) ->
  runs (borrow_right (Some p) (Some l) (Some r) (Z.of_nat (length ks1))) m (fun _ m' =>
    node_at m' p (ks1 ++ b :: ks2) cs /\ node_at m' l [a; k] (cl ++ take 1 cr) /\
    node_at m' r rks (drop 1 cr) /\ room m' = room m /\ same_but [p; l; r] m m').
Proof using Hpl Hpr Hlr.
  intros Hp Hl Hr Hlen Hc. pose proof (at_length _ _ _ _ Hp) as H3. rewrite length_app in H3.
  destruct rks as [|r1 [|r2 [|]]]; cbn [length] in *; try lia;
  (destruct Hc as [[-> ->]|[Hl2 Hr2]]; [|explode cl; explode cr]); fields Hl; fields Hr;
  destruct ks1 as [|k1 [|k2 [|]]], ks2 as [|k3 [|k4 [|]]]; cbn [length] in *; try lia;
  key_fields Hp.
  all: unfold borrow_right; repeat cstep; show_result.
Qed.

(** A key moves from the left sibling [l] over the parent to [r]. *)
Lemma borrow_left_spec ks1 k ks2 cs lks b a cl cr :
  node_at m p (ks1 ++ k :: ks2) cs -> node_at m l (lks ++ [b]) cl -> node_at m r [a] cr ->
  (1 <= length lks <= 2)%nat ->
  cl = [] /\ cr = [] \/ length cl = S (S (length lks)) /\ length cr = 2%nat ->
  runs (borrow_left (Some p) (Some r) (Some l) (Z.of_nat (length ks1) + 1)) m (fun _ m' =>
    node_at m' p (ks1 ++ b :: ks2) cs /\ node_at m' r [k; a] (drop (S (length lks)) cl ++ cr) /\
    node_at m' l lks (take (S (length lks)) cl) /\ room m' = room m /\ same_but [p; l; r] m m').
Proof using Hpl Hpr Hlr.
  intros Hp Hl Hr Hlen Hc. pose proof (at_length _ _ _ _ Hp) as H3. rewrite length_app in H3.
  destruct lks as [|r1 [|r2 [|]]]; cbn [length app] in *; try lia;
  (destruct Hc as [[-> ->]|[Hl2 Hr2]]; [|explode cl; explode cr]); fields Hl; fields Hr;
  destruct ks1 as [|k1 [|k2 [|]]], ks2 as [|k3 [|k4 [|]]]; cbn [length] in *; try lia;
  key_fields Hp.
  all: unfold borrow_left; repeat cstep; show_result.
Qed.

End neighbours.

(** ** Leaves *)

Lemma insert_leaf_spec m p ks key :
  node_at m p ks [] -> (length ks <= 2)%nat ->
  runs (i ← shift_up (length ks) (Some p) key;
        set_key (Some p) (i + 1) key;; add_keynum (Some p) 1;; disk_write (Some p)) m (fun _ m' =>
    exists ks1 ks2, ks = ks1 ++ ks2 /\ behind key ks1 ks2 /\
      node_at m' p (ks1 ++ key :: ks2) [] /\ room m' = room m /\ same_but [p] m m').
Proof.
  intros Hp Hlen. destruct ks as [|a [|b [|]]]; cbn [length] in *; try lia; fields Hp;
    cbn [shift_up].
  - repeat cstep. exists [], []. show_result. by split.
  - do 3 cstep. destruct (Z.ltb_spec key a); repeat cstep;
      [exists [], [a] | exists [a], []]; show_result; split; auto; by intros x1 [= <-].
  - do 3 cstep. destruct (Z.ltb_spec key b); [do 4 cstep; destruct (Z.ltb_spec key a)|];
      repeat cstep; [exists [], [a; b] | exists [a], [b] | exists [a; b], []];
      show_result; split; auto; try (by intros x1 [= <-]).
Qed.

Lemma remove_last_spec m p k :
  node_at m p [k] [] ->
  runs (remove_from_leaf (Some p) (Some p) 0) m (fun t m' =>
    t = None /\ cells m' !! p = None /\ room m' = S (room m) /\ same_but [p] m m').
Proof.
  intros Hp. fields Hp. unfold remove_from_leaf. do 12 cstep.
  apply runs_bind, runs_check; [by apply bool_decide_eq_true|]. repeat cstep. show_result.
Qed.

Lemma remove_from_leaf_spec m tree p ks1 k ks2 :
  node_at m p (ks1 ++ k :: ks2) [] -> (1 <= length ks1 + length ks2)%nat ->
  runs (remove_from_leaf tree (Some p) (Z.of_nat (length ks1))) m (fun t m' =>
    t = tree /\ node_at m' p (ks1 ++ ks2) [] /\ room m' = room m /\ same_but [p] m m').
Proof.
  intros Hp Hlen. pose proof (at_length _ _ _ _ Hp) as H3. rewrite length_app in H3.
  destruct ks1 as [|k1 [|k2 [|]]], ks2 as [|k3 [|k4 [|]]]; cbn [length] in *; try lia; fields Hp;
    unfold remove_from_leaf; repeat cstep; show_result.
Qed.
