(* ===== verification/BTreeShape.v ===== *)
(** * Trees in memory

    The tree a pointer stands for, the cells it occupies and its keys in
    order; how a change inside a subtree carries over to the whole tree. *)

From Stdlib Require Import Sorting.Sorted.
From S2P Require Import Prelude BTree BTreeNode.
Import BTree.

(** ** Trees and their keys *)

(** A node at [p] with its keys and the trees below it; leaves have none. *)
Inductive tree := Tree (p : nat) (ks : list Z) (ts : list tree).

Definition root (t : tree) : nat := let '(Tree p _ _) := t in p.
Definition node_keys (t : tree) : list Z := let '(Tree _ ks _) := t in ks.

(** The keys of a node between those of its children. *)
Fixpoint weave (ks : list Z) (es : list (list Z)) {struct es} : list Z :=
  match es, ks with
  | e :: es, k :: ks => e ++ k :: weave ks es
  | e :: _, [] => e
  | [], _ => ks
  end.

Fixpoint keys (t : tree) : list Z :=
  match t with Tree _ ks ts => weave ks (map keys ts) end.
Fixpoint locs (t : tree) : list nat :=
  match t with Tree p _ ts => p :: concat (map locs ts) end.
Definition all_locs (ts : list tree) : list nat := concat (map locs ts).

(** The keys left and right of one child. *)
Definition lefts (ks : list Z) (ts : list tree) : list Z :=
  concat (zip_with (fun t k => keys t ++ [k]) ts ks).
Definition rights (ks : list Z) (ts : list tree) : list Z :=
  concat (zip_with (fun k t => k :: keys t) ks ts).

Lemma weave_rights k ks ts :
  length ts = length ks -> weave ks (map keys (k :: ts)) = keys k ++ rights ks ts.
Proof.
  revert k ts. induction ks as [|x ks IH]; intros t ts Hl.
  - destruct ts; [|discriminate]. cbn. by rewrite app_nil_r.
  - destruct ts as [|t' ts]; [discriminate|]. injection Hl as Hl.
    cbn [map weave]. unfold rights. cbn. do 2 f_equal. by apply IH.
Qed.

Lemma keys_at p ks1 ks2 ts1 t ts2 :
  length ts1 = length ks1 -> length ts2 = length ks2 ->
  keys (Tree p (ks1 ++ ks2) (ts1 ++ t :: ts2)) = lefts ks1 ts1 ++ keys t ++ rights ks2 ts2.
Proof.
  intros H1 H2. cbn [keys]. revert ts1 H1. induction ks1 as [|k ks1 IH]; intros ts1 H1.
  - destruct ts1; [|discriminate]. by apply weave_rights.
  - destruct ts1 as [|t1 ts1]; [discriminate|]. injection H1 as H1.
    cbn [app map weave]. rewrite IH by done. unfold lefts. cbn.
    by rewrite <- !app_assoc.
Qed.

Lemma rights_cons k ks t ts : rights (k :: ks) (t :: ts) = k :: keys t ++ rights ks ts.
Proof. done. Qed.

Lemma lefts_snoc ks k ts t :
  length ts = length ks -> lefts (ks ++ [k]) (ts ++ [t]) = lefts ks ts ++ keys t ++ [k].
Proof.
  intros Hl. unfold lefts. rewrite zip_with_app by done. rewrite concat_app. cbn.
  by rewrite app_nil_r.
Qed.

Lemma keys_between p ks1 k ks2 ts1 l r ts2 :
  length ts1 = length ks1 -> length ts2 = length ks2 ->
  keys (Tree p (ks1 ++ k :: ks2) (ts1 ++ l :: r :: ts2)) =
  lefts ks1 ts1 ++ keys l ++ k :: keys r ++ rights ks2 ts2.
Proof. intros H1 H2. rewrite keys_at by (cbn; lia). by rewrite rights_cons. Qed.

(** ** Trees in memory *)

(** [bt h m t]: in memory [m] is a tree [t] of height [h]. *)
Fixpoint bt (h : nat) (m : Mem) (t : tree) : Prop :=
  match t with
  | Tree p ks ts =>
      node_at m p ks (root <$> ts) /\ (1 <= length ks)%nat /\
      match h with
      | O => ts = []
      | S h => length ts = S (length ks) /\ Forall (bt h m) ts
      end
  end.

Lemma bt_unfold h m p ks ts :
  bt h m (Tree p ks ts) <->
  node_at m p ks (root <$> ts) /\ (1 <= length ks)%nat /\
  match h with O => ts = [] | S h => length ts = S (length ks) /\ Forall (bt h m) ts end.
Proof. by destruct h. Qed.

Lemma locs_root t : root t ∈ locs t.
Proof. destruct t. left. Qed.

Lemma all_locs_app ts1 ts2 : all_locs (ts1 ++ ts2) = all_locs ts1 ++ all_locs ts2.
Proof. unfold all_locs. by rewrite map_app, concat_app. Qed.

Lemma all_locs_cons t ts : all_locs (t :: ts) = locs t ++ all_locs ts.
Proof. done. Qed.

Lemma elem_of_all_locs q ts : q ∈ all_locs ts <-> exists t, t ∈ ts /\ q ∈ locs t.
Proof.
  unfold all_locs. rewrite list_elem_of_In, in_concat. split.
  - intros (l & Hl & Hq). apply in_map_iff in Hl as (t & <- & Ht).
    exists t. by rewrite !list_elem_of_In.
  - intros (t & Ht & Hq). exists (locs t). rewrite !list_elem_of_In in *.
    split; [by apply in_map|done].
Qed.

Lemma bt_frame h : forall m m' t,
  (forall q, q ∈ locs t -> cells m' !! q = cells m !! q) -> bt h m t -> bt h m' t.
Proof.
  induction h as [|h IH]; intros m m' [p ks ts] Heq (Hp & Hk & Hts); cbn [bt];
    (split; [eapply node_at_frame; [|exact Hp]; apply Heq; left|]); split; try done.
  destruct Hts as [Hl Hts]. split; [done|]. rewrite Forall_forall in *. intros t Ht.
  apply IH with m; [|by apply Hts]. intros q Hq. apply Heq. right.
  apply elem_of_all_locs. eauto.
Qed.

Lemma bt_alloc h : forall m t q, bt h m t -> q ∈ locs t -> is_Some (cells m !! q).
Proof.
  induction h as [|h IH]; intros m [p ks ts] q (Hp & _ & Hts) Hq; cbn [locs] in Hq;
    apply elem_of_cons in Hq as [->|Hq].
  - destruct Hp as (n & Hn & _). eauto.
  - subst ts. by apply elem_of_nil in Hq.
  - destruct Hp as (n & Hn & _). eauto.
  - apply elem_of_all_locs in Hq as (t & Ht & Hq). destruct Hts as [_ Hts].
    rewrite Forall_forall in Hts. eauto.
Qed.

(** The cells of a node and of the trees below it are allocated. *)
Lemma tree_alloc h m p ks cs ts q :
  node_at m p ks cs -> Forall (bt h m) ts -> q ∈ p :: all_locs ts -> is_Some (cells m !! q).
Proof.
  intros (n & Hn & _) Hts [->|Hq]%elem_of_cons; [by exists n|].
  apply elem_of_all_locs in Hq as (t & Ht & Hq). rewrite Forall_forall in Hts.
  by apply (bt_alloc h m t); auto.
Qed.

Lemma bt_all_frame h m m' ts :
  (forall q, q ∈ all_locs ts -> cells m' !! q = cells m !! q) -> Forall (bt h m) ts -> Forall (bt h m') ts.
Proof.
  intros Heq. rewrite !Forall_forall. intros H t Ht. apply bt_frame with m; [|auto].
  intros q Hq. apply Heq, elem_of_all_locs. eauto.
Qed.

(** Every node has a key of its own. *)
Definition dense (t : tree) : Prop := (length (locs t) <= length (keys t))%nat.

Lemma rights_dense ks ts :
  length ts = length ks -> Forall dense ts ->
  (length ks + length (all_locs ts) <= length (rights ks ts))%nat.
Proof.
  revert ts. induction ks as [|k ks IH]; intros [|t ts] Hl Hts; try discriminate; [cbn; lia|].
  injection Hl as Hl. apply Forall_cons in Hts as [Ht Hts]. unfold dense in Ht.
  rewrite rights_cons, all_locs_cons. cbn [length]. rewrite !length_app.
  specialize (IH ts Hl Hts). lia.
Qed.

Lemma lefts_dense ks ts :
  length ts = length ks -> Forall dense ts ->
  (length ks + length (all_locs ts) <= length (lefts ks ts))%nat.
Proof.
  revert ts. induction ks as [|k ks IH]; intros [|t ts] Hl Hts; try discriminate; [cbn; lia|].
  injection Hl as Hl. apply Forall_cons in Hts as [Ht Hts]. unfold dense in Ht.
  specialize (IH ts Hl Hts). unfold lefts in *. cbn [zip_with concat].
  rewrite all_locs_cons, !length_app. cbn [length]. lia.
Qed.

Lemma bt_surplus h : forall m t,
  bt h m t -> (length (locs t) + length (node_keys t) <= length (keys t) + 1)%nat.
Proof.
  induction h as [|h IH]; intros m [p ks ts] (Hp & Hk & Hts).
  - subst ts. cbn. lia.
  - destruct Hts as [Hl Hts]. destruct ts as [|t ts]; [discriminate|]. injection Hl as Hl.
    assert (Forall dense (t :: ts)) as Hd.
    { eapply Forall_impl; [exact Hts|]. intros [q qs us] Ht. unfold dense.
      pose proof (IH m _ Ht) as Hs. apply bt_unfold in Ht as (_ & ? & _). cbn [node_keys] in Hs. lia. }
    apply Forall_cons in Hd as [Ht Hd]. pose proof (rights_dense ks ts Hl Hd). unfold dense in Ht.
    cbn [locs keys node_keys]. rewrite weave_rights by done. fold (all_locs (t :: ts)).
    rewrite all_locs_cons. cbn [length]. rewrite !length_app. lia.
Qed.

Lemma bt_dense h m t : bt h m t -> dense t.
Proof.
  intros Ht. pose proof (bt_surplus _ _ _ Ht) as Hs. destruct t. apply bt_unfold in Ht as (_ & ? & _).
  unfold dense. cbn [node_keys] in Hs. lia.
Qed.

Lemma bt_all_dense h m ts : Forall (bt h m) ts -> Forall dense ts.
Proof. intros H. eapply Forall_impl; [exact H|]. intros t. apply bt_dense. Qed.

(** ** Changes of memory *)

(** From [m] to [m'] the cells of [L] have become those of [L']: the others
    are as they were, those no longer in use are free, those new in use
    were. *)
Record moves (m : Mem) (L : list nat) (m' : Mem) (L' : list nat) : Prop :=
  { mv_frame : forall q, q ∉ L -> q ∉ L' -> cells m' !! q = cells m !! q;
    mv_freed : forall q, q ∈ L -> q ∉ L' -> cells m' !! q = None;
    mv_fresh : forall q, q ∈ L' -> q ∉ L -> cells m !! q = None;
    mv_room : (room m' + length L' = room m + length L)%nat }.

Lemma moves_refl m L : moves m L m L.
Proof. by split. Qed.

Lemma moves_trans m L m1 L1 m2 L2 : moves m L m1 L1 -> moves m1 L1 m2 L2 -> moves m L m2 L2.
Proof.
  intros [F1 D1 N1 R1] [F2 D2 N2 R2]. split; [| | |lia]; intros q Hq Hq';
    destruct (decide (q ∈ L1)) as [H1|H1].
  - rewrite D2, N1; done.
  - rewrite F2, F1; done.
  - auto.
  - rewrite F2; auto.
  - auto.
  - rewrite <- F1; auto.
Qed.

(** A change at the cells [P] that frees [D] and allocates [N], next to the
    cells [R]. *)
Lemma moves_local m m' L L' P R D N :
  L ≡ₚ P ++ R -> L' ++ D ≡ₚ N ++ P ++ R -> same_but (P ++ N) m m' -> NoDup L ->
  (forall q, q ∈ D -> cells m' !! q = None) ->
  NoDup N -> (forall q, q ∈ N -> cells m !! q = None) -> (forall q, q ∈ L -> is_Some (cells m !! q)) ->
  (room m' + length N = room m + length D)%nat ->
  moves m L m' L' /\ NoDup L' /\ (forall q, q ∈ R -> cells m' !! q = cells m !! q).
Proof.
  intros HL HP Hs HnL HD HN HNm HLm Hr. rewrite <- HL in HP.
  assert (forall q, q ∈ N -> q ∉ L) as Hdis.
  { intros q Hq Hq'. apply HNm in Hq. apply HLm in Hq' as [n Hn]. congruence. }
  assert (NoDup (N ++ L)) as HNL by (apply NoDup_app; split_and!; done).
  assert (forall q, q ∈ L' \/ q ∈ D <-> q ∈ N \/ q ∈ L) as HE.
  { intros q. by rewrite <- !elem_of_app, HP. }
  assert (forall q, q ∈ L <-> q ∈ P \/ q ∈ R) as EL by (intros q; by rewrite HL, elem_of_app).
  pose proof (Permutation_length HP) as Hlen. rewrite !length_app in Hlen.
  rewrite <- HP in HNL. apply NoDup_app in HNL as (HL' & HLD & _). split_and!; [split|done|].
  - intros q Hq Hq'. destruct (decide (q ∈ P ++ N)) as [Hqp|]; [|by apply Hs].
    apply elem_of_app in Hqp as [Hqp|Hqp]; [naive_solver|].
    rewrite HD, HNm by naive_solver. done.
  - naive_solver.
  - naive_solver.
  - lia.
  - intros q Hq. apply Hs. rewrite HL in HnL. apply NoDup_app in HnL as (_ & HPR & _).
    intros [?|?]%elem_of_app; naive_solver.
Qed.

(** A change of the cells [C] among others. *)
Lemma moves_context m m' C C' R L L' :
  L ≡ₚ C ++ R -> L' ≡ₚ C' ++ R -> NoDup L -> NoDup C' ->
  (forall q, q ∈ L -> is_Some (cells m !! q)) -> moves m C m' C' ->
  moves m L m' L' /\ NoDup L' /\ (forall q, q ∈ R -> cells m' !! q = cells m !! q).
Proof.
  intros HL HL' HN HC' Halloc [F D N Rm]. rewrite HL in HN.
  apply NoDup_app in HN as (HC & HCR & HR).
  assert (forall q, q ∈ L <-> q ∈ C \/ q ∈ R) as EL by (intros q; by rewrite HL, elem_of_app).
  assert (forall q, q ∈ L' <-> q ∈ C' \/ q ∈ R) as EL' by (intros q; by rewrite HL', elem_of_app).
  assert (forall q, q ∈ R -> q ∉ C /\ q ∉ C') as HRC.
  { intros q Hq. assert (q ∉ C) as HqC by (intros ?; by apply (HCR q)). split; [done|].
    intros Hq'. destruct (Halloc q) as [n Hn]; [naive_solver|]. rewrite N in Hn by done. done. }
  split_and!.
  - split; [naive_solver..|]. rewrite HL, HL', !length_app. lia.
  - rewrite HL'. apply NoDup_app. naive_solver.
  - intros q Hq. apply F; naive_solver.
Qed.

Lemma locs_Tree p ks ts : locs (Tree p ks ts) = [p] ++ all_locs ts.
Proof. done. Qed.

(** Lists with the same elements, by counting. *)
Ltac counts dec :=
  apply (Permutation_count_occ dec); intro;
  repeat match goal with
    | |- context [count_occ _ (?x :: ?l) _] =>
        lazymatch l with [] => fail | _ => change (x :: l) with ([x] ++ l) end
    | |- _ => progress rewrite ?count_occ_app
    end;
  lia.
Ltac perm :=
  rewrite ?locs_Tree, ?all_locs_app, ?all_locs_cons, ?locs_Tree, ?all_locs_app, ?app_nil_r;
  counts Nat.eq_dec.

Section context.
Context (h : nat) (m m' : Mem) (p : nat) (ks : list Z) (ts1 ts2 : list tree) (c c' : tree).
Context (Ht : bt (S h) m (Tree p ks (ts1 ++ c :: ts2))).
Context (Hnd : NoDup (locs (Tree p ks (ts1 ++ c :: ts2)))).

Lemma child_bt : bt h m c.
Proof using Ht. destruct Ht as (_ & _ & _ & H). apply Forall_app in H as [_ H]. by apply Forall_cons in H as [H _]. Qed.

Lemma child_NoDup : NoDup (locs c).
Proof using Hnd.
  cbn in Hnd. fold (all_locs (ts1 ++ c :: ts2)) in Hnd.
  rewrite all_locs_app, all_locs_cons in Hnd.
  apply NoDup_cons in Hnd as [_ Hnd]. apply NoDup_app in Hnd as (_ & _ & Hnd).
  by apply NoDup_app in Hnd as [? _].
Qed.

Lemma child_moves :
  moves m (locs c) m' (locs c') -> NoDup (locs c') -> bt h m' c' -> root c' = root c ->
  let T' := Tree p ks (ts1 ++ c' :: ts2) in
  bt (S h) m' T' /\ NoDup (locs T') /\ moves m (locs (Tree p ks (ts1 ++ c :: ts2))) m' (locs T').
Proof using Ht Hnd.
  intros Hm HN Hc' Hroot T'.
  edestruct (moves_context m m' (locs c) (locs c') (p :: all_locs ts1 ++ all_locs ts2)
    (locs (Tree p ks (ts1 ++ c :: ts2))) (locs T')) as (HM & HND & HR); try done.
  { perm. }
  { subst T'. perm. }
  { intros q. apply (bt_alloc (S h)). done. }
  split_and!; [|done..]. destruct Ht as (Hp & Hk & Hl & Hts). split_and!.
  - eapply node_at_frame; [apply HR; left|]. rewrite fmap_app in *. cbn in *. by rewrite Hroot.
  - done.
  - rewrite length_app in *. done.
  - apply Forall_app in Hts as [H1 H2]. apply Forall_cons in H2 as [_ H2].
    apply Forall_app; split; [|constructor; [done|]]; (eapply bt_all_frame; [|done]);
      intros q Hq; apply HR; set_solver.
Qed.

End context.
