(* ===== verification/BTreeInsert.v ===== *)
(** * Insertion into the B-tree

    Insertion keeps the tree in memory well-formed and puts the key at its
    place in the order, given room for as many nodes as there are keys. *)

From Stdlib Require Import Sorting.Sorted.
From S2P Require Import Prelude BTree BTreeNode BTreeShape.
Import BTree.

(** ** Order *)

Notation sorted := (StronglySorted Z.le).

Lemma sorted_app (R : Z -> Z -> Prop) l1 l2 :
  StronglySorted R (l1 ++ l2) <->
  StronglySorted R l1 /\ StronglySorted R l2 /\ forall x y, x ∈ l1 -> y ∈ l2 -> R x y.
Proof.
  induction l1 as [|a l1 IH]; cbn.
  - split; [|by intros (_ & ? & _)]. intros H. split_and!; [constructor|done|].
    by intros x y ?%elem_of_nil.
  - split.
    + intros H. inversion_clear H as [|? ? Hs Ha]. apply IH in Hs as (H1 & H2 & H12).
      rewrite Forall_app, !Forall_forall in Ha. destruct Ha as [Ha1 Ha2].
      split_and!; [|done|]; [constructor; [done|by apply Forall_forall]|].
      intros x y [->|Hx]%elem_of_cons Hy; auto.
    + intros (H1 & H2 & H12). inversion_clear H1 as [|? ? Hs Ha]. constructor.
      * apply IH. split_and!; [done..|]. intros x y Hx. apply H12. by right.
      * apply Forall_app. split; [done|]. apply Forall_forall. intros y. apply H12. left.
Qed.

(** The key belongs between the keys [ks1] and [ks2] of a sorted node. *)
Definition fits (key : Z) (ks1 ks2 : list Z) : Prop :=
  (forall x, last ks1 = Some x -> x <= key) /\ (forall x, head ks2 = Some x -> key <= x).

Lemma behind_fits key ks1 ks2 : behind key ks1 ks2 -> fits key ks1 ks2.
Proof.
  intros [H1 H2]. split; [done|]. destruct ks2 as [|k ks2]; [done|].
  intros x [= <-]. apply Forall_cons in H2 as [H2 _]. lia.
Qed.

Lemma lefts_le ks ts rest key :
  length ts = length ks -> sorted (lefts ks ts ++ rest) ->
  (forall x, last ks = Some x -> x <= key) -> forall x, x ∈ lefts ks ts -> x <= key.
Proof.
  intros Hl [Hs _]%sorted_app Hk x Hx. destruct ks as [|k ks _] using rev_ind.
  { destruct ts; [|discriminate]. by apply elem_of_nil in Hx. }
  destruct ts as [|t ts _] using rev_ind; rewrite !length_app in Hl; cbn in Hl; [lia|].
  rewrite lefts_snoc in Hs, Hx by lia. rewrite app_assoc in Hs, Hx.
  apply sorted_app in Hs as (_ & _ & Hs). specialize (Hk k (last_snoc _ _)).
  apply elem_of_app in Hx as [Hx|Hx%list_elem_of_singleton]; [|lia].
  specialize (Hs x k Hx (list_elem_of_here _ _)). lia.
Qed.

Lemma rights_ge ks ts front key :
  length ts = length ks -> sorted (front ++ rights ks ts) ->
  (forall x, head ks = Some x -> key <= x) -> forall x, x ∈ rights ks ts -> key <= x.
Proof.
  intros Hl (_ & Hs & _)%sorted_app Hk x Hx. destruct ks as [|k ks], ts as [|t ts]; try discriminate.
  { by apply elem_of_nil in Hx. }
  specialize (Hk k eq_refl). rewrite rights_cons in Hs, Hx.
  inversion_clear Hs as [|? ? _ Ha]. rewrite Forall_forall in Ha.
  apply elem_of_cons in Hx as [->|Hx]; [done|]. specialize (Ha x Hx). lia.
Qed.

(** [ins key l l']: [l'] is [l] with the key added, at its place if [l] is
    sorted. *)
Definition ins (key : Z) (l l' : list Z) : Prop :=
  exists a b, l = a ++ b /\ l' = a ++ key :: b /\
    (sorted l -> (forall x, x ∈ a -> x <= key) /\ (forall x, x ∈ b -> key <= x)).

Lemma ins_perm key l l' : ins key l l' -> l' ≡ₚ key :: l.
Proof. intros (a & b & -> & -> & _). by rewrite Permutation_middle. Qed.

Lemma ins_sorted key l l' : ins key l l' -> sorted l -> sorted l'.
Proof.
  intros (a & b & -> & -> & Hab) Hs. destruct (Hab Hs) as [Ha Hb].
  apply sorted_app in Hs as (Hsa & Hsb & Hsab). apply sorted_app. split_and!; [done| |].
  - constructor; [done|]. by apply Forall_forall.
  - intros x y Hx [->|Hy]%elem_of_cons; auto.
Qed.

Lemma ins_around ks1 ks2 ts1 ts2 key e e' :
  length ts1 = length ks1 -> length ts2 = length ks2 -> fits key ks1 ks2 -> ins key e e' ->
  ins key (lefts ks1 ts1 ++ e ++ rights ks2 ts2) (lefts ks1 ts1 ++ e' ++ rights ks2 ts2).
Proof.
  intros H1 H2 [F1 F2] (a & b & -> & -> & Hab).
  exists (lefts ks1 ts1 ++ a), (b ++ rights ks2 ts2).
  split; [by rewrite <- !app_assoc|]. split; [by rewrite <- !app_assoc|].
  intros Hs. pose proof (lefts_le ks1 ts1 _ key H1 Hs F1) as HL.
  assert (forall x, x ∈ rights ks2 ts2 -> key <= x) as HR.
  { rewrite app_assoc in Hs. by apply (rights_ge _ _ _ _ H2 Hs). }
  apply sorted_app in Hs as (_ & Hs & _). apply sorted_app in Hs as (Hs & _ & _).
  destruct (Hab Hs) as [Ha Hb]. split; intros x [Hx|Hx]%elem_of_app; auto.
Qed.

(** A leaf: its keys are the keys of the tree. *)
Lemma ins_leaf key ks1 ks2 : behind key ks1 ks2 -> ins key (ks1 ++ ks2) (ks1 ++ key :: ks2).
Proof.
  intros [H1 H2]. exists ks1, ks2. split_and!; [done..|]. intros [Hs _]%sorted_app. split.
  - intros x Hx. destruct ks1 as [|k ks _] using rev_ind; [by apply elem_of_nil in Hx|].
    specialize (H1 k (last_snoc _ _)). apply sorted_app in Hs as (_ & _ & Hs).
    apply elem_of_app in Hx as [Hx|Hx%list_elem_of_singleton]; [|lia].
    specialize (Hs x k Hx (list_elem_of_here _ _)). lia.
  - intros x Hx. rewrite Forall_forall in H2. specialize (H2 x Hx). lia.
Qed.

(** ** Splitting *)

(** The children of a node of height [h] are all there or all null. *)
Lemma bt_children h m p ks ts : bt h m (Tree p ks ts) -> ts = [] \/ length ts = S (length ks).
Proof. intros (_ & _ & H)%bt_unfold. destruct h; [by left|right; apply H]. Qed.

Lemma bt_part h m m' p q ks ks' ts ts1 :
  bt h m (Tree p ks ts) -> (forall t, t ∈ ts1 -> t ∈ ts) ->
  node_at m' q ks' (root <$> ts1) -> (1 <= length ks')%nat -> ts = [] \/ length ts1 = S (length ks') ->
  (forall x, x ∈ all_locs ts -> cells m' !! x = cells m !! x) -> bt h m' (Tree q ks' ts1).
Proof.
  intros (_ & _ & H)%bt_unfold Hsub Hn Hk Hl Heq. apply bt_unfold. split_and!; [done..|]. destruct h as [|h].
  - subst ts. destruct ts1 as [|t]; [done|]. exfalso. by apply (elem_of_nil t), Hsub; left.
  - destruct H as [Hl' H]. destruct Hl as [->|Hl]; [discriminate|]. split; [done|].
    apply (bt_all_frame _ _ _ _ Heq) in H. rewrite Forall_forall in *. auto.
Qed.

Lemma split_keys a b d q f cts :
  cts = [] \/ length cts = 4%nat ->
  keys (Tree q [a; b; d] cts) = keys (Tree q [a] (take 2 cts)) ++ b :: keys (Tree f [d] (drop 2 cts)).
Proof. intros [->|H]; [done|]. explode cts. cbn. by rewrite <- app_assoc. Qed.

Lemma root_ne p ks ts1 c ts2 : NoDup (locs (Tree p ks (ts1 ++ c :: ts2))) -> p <> root c.
Proof.
  intros [Hnd _]%NoDup_cons ->. apply Hnd, elem_of_all_locs. exists c.
  split; [|apply locs_root]. apply elem_of_app. right. left.
Qed.

Section split.
Context (h : nat) (m : Mem) (p q : nat) (a b d : Z) (ks1 ks2 : list Z) (ts1 ts2 cts : list tree).
Context (H1 : length ts1 = length ks1) (H2 : length ts2 = length ks2).
Context (Hlen : (length ks1 + length ks2 <= 2)%nat) (Hroom : (1 <= room m)%nat).

Lemma split_tree :
  let c := Tree q [a; b; d] cts in
  let T := Tree p (ks1 ++ ks2) (ts1 ++ c :: ts2) in
  node_at m p (ks1 ++ ks2) (root <$> ts1 ++ c :: ts2) -> Forall (bt h m) (ts1 ++ c :: ts2) ->
  NoDup (locs T) ->
  runs (BTree_split_child (Some p) (Z.of_nat (length ks1)) (Some q)) m (fun _ m' => exists f,
    let T' := Tree p (ks1 ++ b :: ks2)
                (ts1 ++ Tree q [a] (take 2 cts) :: Tree f [d] (drop 2 cts) :: ts2) in
    bt (S h) m' T' /\ NoDup (locs T') /\ moves m (locs T) m' (locs T')).
Proof using H1 H2 Hlen Hroom.
  intros c T Hp Hts Hnd.
  pose proof Hts as (Ht1 & Ht2)%Forall_app. apply Forall_cons in Ht2 as [Hc Ht2].
  pose proof (bt_children _ _ _ _ _ Hc) as Hcts.
  pose proof (fun x => tree_alloc h m p _ _ _ x Hp Hts) as Halloc.
  assert (p <> q) as Hpq by (apply (root_ne p _ _ c _ Hnd)).
  rewrite fmap_app in Hp. cbn in Hp. eapply runs_mono.
  { apply (split_child_spec m p q a b d Hpq Hroom ks1 ks2 (root <$> ts1) (root <$> ts2)
             (root <$> cts)); rewrite ?length_fmap; try done.
    - by apply bt_unfold in Hc as [? _].
    - destruct Hcts as [->|E]; [by left|right]. done. }
  intros _ m' (Hp' & Hq' & Hf' & Hr & Hsame). set (f := fresh (dom (cells m))) in *. exists f.
  intros T'. destruct (moves_local m m' (locs T) (locs T') [p; q]
    (all_locs ts1 ++ all_locs ts2 ++ all_locs cts) [] [f]) as (Hmv & Hnd' & Hkeep); try done.
  { subst T c. perm. }
  { trans ([f] ++ [p; q] ++ all_locs ts1 ++ all_locs ts2 ++
      all_locs (take 2 cts) ++ all_locs (drop 2 cts)); [subst T'; perm|].
    by rewrite <- all_locs_app, take_drop. }
  { intros x ?%elem_of_nil. done. }
  { apply NoDup_singleton. }
  { intros x ->%list_elem_of_singleton. apply not_elem_of_dom, is_fresh. }
  { cbn. lia. }
  split_and!; [|done..]. apply bt_unfold. rewrite fmap_app, !length_app. cbn.
  rewrite <- fmap_take, <- fmap_drop in *.
  split_and!; [done|lia|lia|].
  assert (forall x, x ∈ all_locs cts -> cells m' !! x = cells m !! x) as Hkc.
  { intros x Hx. apply Hkeep. rewrite !elem_of_app. auto. }
  apply Forall_app. split; [|repeat apply Forall_cons_2].
  - eapply bt_all_frame; [|done]. intros x Hx. apply Hkeep. rewrite elem_of_app. auto.
  - eapply bt_part; [exact Hc| |done|done| |done].
    + intros t Ht. rewrite <- (take_drop 2 cts), elem_of_app. by left.
    + rewrite length_take. destruct Hcts as [->| ->]; auto.
  - eapply bt_part; [exact Hc| |done|done| |done].
    + intros t Ht. rewrite <- (take_drop 2 cts), elem_of_app. by right.
    + rewrite length_drop. destruct Hcts as [->| ->]; auto.
  - eapply bt_all_frame; [|done]. intros x Hx. apply Hkeep. rewrite !elem_of_app. auto.
Qed.

End split.

(** ** Insertion below a node with room *)

(** The memory [m'] holds the tree [t] of [m] with the key added. *)
Definition inserted (h : nat) (m : Mem) (t : tree) (key : Z) (m' : Mem) : Prop :=
  exists t', root t' = root t /\ bt h m' t' /\ NoDup (locs t') /\
    moves m (locs t) m' (locs t') /\ ins key (keys t) (keys t').

Lemma inserted_below h m m' p ks1 ks2 ts1 c ts2 key :
  let T := Tree p (ks1 ++ ks2) (ts1 ++ c :: ts2) in
  bt (S h) m T -> NoDup (locs T) -> length ts1 = length ks1 -> length ts2 = length ks2 ->
  fits key ks1 ks2 -> inserted h m c key m' -> inserted (S h) m T key m'.
Proof.
  intros T HT Hnd H1 H2 Hf (c' & Hroot & Hc' & Hnd' & Hmv & Hins).
  destruct (child_moves h m m' p (ks1 ++ ks2) ts1 ts2 c c') as (HT' & HndT & HmvT); try done.
  exists (Tree p (ks1 ++ ks2) (ts1 ++ c' :: ts2)). split_and!; try done.
  subst T. rewrite !keys_at by done. by apply ins_around.
Qed.

(** The child at a position of the node. *)
Lemma child_of (ks1 ks2 : list Z) (ts : list tree) :
  length ts = S (length (ks1 ++ ks2)) ->
  exists ts1 c ts2, ts = ts1 ++ c :: ts2 /\ length ts1 = length ks1 /\ length ts2 = length ks2.
Proof.
  rewrite length_app. intros Hl.
  destruct (drop (length ks1) ts) as [|c ts2] eqn:E.
  { apply (f_equal length) in E. rewrite length_drop in E. cbn in E. lia. }
  exists (take (length ks1) ts), c, ts2. rewrite <- E, take_drop, length_take.
  apply (f_equal length) in E. rewrite length_drop in E. cbn in E. split_and!; [done|lia..].
Qed.

(** Room for a node per key is passed on to the child. *)
Lemma child_room p ks1 ks2 ts1 c ts2 (r : nat) :
  length ts1 = length ks1 -> length ts2 = length ks2 -> Forall dense ts1 -> Forall dense ts2 ->
  let T := Tree p (ks1 ++ ks2) (ts1 ++ c :: ts2) in
  (length (keys T) <= r + length (locs T) ->
   length (keys c) + length (ks1 ++ ks2) <= r + length (locs c) + 1)%nat.
Proof.
  intros H1 H2 D1 D2 T. subst T. rewrite keys_at by done. rewrite locs_Tree, all_locs_app, all_locs_cons.
  rewrite !length_app. cbn [length].
  pose proof (lefts_dense _ _ H1 D1). pose proof (rights_dense _ _ H2 D2). lia.
Qed.

Lemma lookup_child (ts1 : list tree) c ts2 :
  (root <$> ts1 ++ c :: ts2) !! length ts1 = Some (root c).
Proof. rewrite list_lookup_fmap, list_lookup_middle; done. Qed.

Lemma inserted_after h m t m1 t1 key m' :
  root t1 = root t -> keys t1 = keys t -> moves m (locs t) m1 (locs t1) ->
  inserted h m1 t1 key m' -> inserted h m t key m'.
Proof.
  intros Hr Hk Hmv (t' & Hroot & Hbt & Hnd & Hmv' & Hins). exists t'. rewrite <- Hr, <- Hk.
  split_and!; try done. by eapply moves_trans.
Qed.

(** Insertion works for trees of height [h]. *)
Definition insert_works (h fuel : nat) : Prop := forall m t key,
  bt h m t -> NoDup (locs t) -> (length (node_keys t) <= 2)%nat ->
  (length (keys t) <= room m + length (locs t))%nat ->
  runs (BTree_insert_nonfull fuel (Some (root t)) key) m (fun _ m' => inserted h m t key m').

Section descend.
Context (h fuel : nat) (IH : insert_works h fuel).
Context (p : nat) (ks1 ks2 : list Z) (ts1 ts2 : list tree) (key : Z).
Context (H1 : length ts1 = length ks1) (H2 : length ts2 = length ks2).

Lemma insert_descend m c :
  let T := Tree p (ks1 ++ ks2) (ts1 ++ c :: ts2) in
  bt (S h) m T -> NoDup (locs T) -> fits key ks1 ks2 -> (length (node_keys c) <= 2)%nat ->
  (length (keys T) <= room m + length (locs T))%nat ->
  runs (c ← get_child (Some p) (Z.of_nat (length ks1)); BTree_insert_nonfull fuel c key) m
    (fun _ m' => inserted (S h) m T key m').
Proof using IH H1 H2.
  intros T HT Hnd Hfit Hc Hroom. pose proof HT as (Hp & Hk & Hl & Hts)%bt_unfold.
  apply runs_bind. eapply at_child; [exact Hp|rewrite <- H1; apply lookup_child|].
  apply Forall_app in Hts as [D1 [_ D2]%Forall_cons].
  apply child_room in Hroom; try (by eapply bt_all_dense); try done.
  eapply runs_mono; [apply IH; [by apply child_bt in HT|by apply child_NoDup in Hnd|done|lia]|].
  intros ? m' Hins. by apply inserted_below.
Qed.

End descend.

Lemma insert_split h fuel m p q a b d ks1 ks2 ts1 ts2 cts key :
  insert_works h fuel -> length ts1 = length ks1 -> length ts2 = length ks2 ->
  let T := Tree p (ks1 ++ ks2) (ts1 ++ Tree q [a; b; d] cts :: ts2) in
  node_at m p (ks1 ++ ks2) (root <$> ts1 ++ Tree q [a; b; d] cts :: ts2) ->
  Forall (bt h m) (ts1 ++ Tree q [a; b; d] cts :: ts2) -> NoDup (locs T) ->
  fits key ks1 ks2 -> (length (ks1 ++ ks2) <= 2)%nat -> (1 <= room m)%nat ->
  (length (keys T) <= room m + length (locs T))%nat ->
  let i := Z.of_nat (length ks1) in
  runs (i ← (BTree_split_child (Some p) i (Some q);;
             k ← get_key (Some p) i;
             mret (if k <? key then i + 1 else i));
        c ← get_child (Some p) i; BTree_insert_nonfull fuel c key) m
    (fun _ m' => inserted (S h) m T key m').
Proof.
  intros IH H1 H2 T Hp Hts Hnd Hfit Hlen Hroom Hfree i. rewrite length_app in Hlen.
  apply runs_bind, runs_bind.
  eapply runs_mono; [by apply (split_tree h m p q a b d ks1 ks2 ts1 ts2 cts H1 H2)|].
  intros _ m1 (f & HT1 & Hnd1 & Hmv).
  assert (cts = [] \/ length cts = 4%nat) as Hcts.
  { apply Forall_app in Hts as [_ [Hc _]%Forall_cons]. by apply bt_children in Hc. }
  set (cl := Tree q [a] (take 2 cts)) in *. set (cr := Tree f [d] (drop 2 cts)) in *.
  set (T1 := Tree p (ks1 ++ b :: ks2) (ts1 ++ cl :: cr :: ts2)) in *.
  assert (keys T1 = keys T) as HkT.
  { unfold T, T1. rewrite keys_between, keys_at, (split_keys a b d q f) by done. by rewrite <- app_assoc. }
  assert (length (keys T1) <= room m1 + length (locs T1))%nat as Hroom1.
  { rewrite HkT, (mv_room _ _ _ _ Hmv). done. }
  apply runs_bind. eapply at_key; [apply HT1|by apply list_lookup_middle|]. apply runs_ret.
  destruct Hfit as [F1 F2].
  apply (runs_mono _ _ (fun _ m' => inserted (S h) m1 T1 key m'));
    [|intros _ m'; by apply (inserted_after _ _ _ m1)].
  destruct (Z.ltb_spec b key) as [Hb|Hb].
  - pose proof (insert_descend h fuel IH p (ks1 ++ [b]) ks2 (ts1 ++ [cl]) ts2 key) as HD.
    rewrite !length_app, Nat2Z.inj_add in HD. specialize (HD ltac:(cbn; lia) H2 m1 cr).
    rewrite <- !app_assoc in HD. apply HD; try done; [|cbn; lia].
    split; [|done]. intros x. rewrite last_snoc. intros [= <-]. lia.
  - apply (insert_descend h fuel IH p ks1 (b :: ks2) ts1 (cr :: ts2) key); try done; cbn; try lia.
    split; [done|]. intros x [= <-]. lia.
Qed.

Lemma insert_nonfull_ok h : forall fuel, (h < fuel)%nat -> insert_works h fuel.
Proof.
  induction h as [|h IH]; intros [|fuel] Hf m [p ks ts] key HT Hnd Hlen Hroom; try lia;
    cbn [BTree_insert_nonfull root node_keys] in *; cstep; cstep;
    pose proof HT as (Hp & Hk & Hts)%bt_unfold;
    (apply runs_bind; eapply at_isLeaf; [exact Hp|]);
    (apply runs_bind; eapply at_keynum; [exact Hp|]); rewrite Nat2Z.id.
  - subst ts. cbn [fmap list_fmap]. eapply runs_mono; [apply insert_leaf_spec; done|].
    intros _ m' (ks1 & ks2 & -> & Hb & Hp' & Hr & Hsame).
    exists (Tree p (ks1 ++ key :: ks2) []). split_and!; [done| |done| |by apply ins_leaf].
    + apply bt_unfold. rewrite length_app. cbn. split_and!; [done|lia|done].
    + split; try done; cbn; [|lia]. intros q Hq _. by apply Hsame.
  - destruct Hts as [Hl Hts]. destruct (root <$> ts) eqn:E; [destruct ts; discriminate|].
    rewrite <- E in Hp. clear E.
    apply runs_bind. apply (scan_down_spec m p ks [] (root <$> ts)); rewrite ?app_nil_r; [done..|].
    intros ks1 ks2 -> Hb%behind_fits. rewrite Z.sub_add.
    destruct (child_of ks1 ks2 ts Hl) as (ts1 & c & ts2 & -> & H1 & H2).
    destruct c as [q cks cts].
    pose proof (child_bt _ _ _ _ _ _ _ HT) as (Hq & Hk' & _)%bt_unfold.
    apply runs_bind. eapply at_child; [exact Hp|rewrite <- H1; apply lookup_child|].
    apply runs_bind. eapply at_disk; [exact Hq|].
    apply runs_bind. eapply at_keynum; [exact Hq|].
    specialize (IH fuel ltac:(lia)). pose proof (at_length _ _ _ _ Hq) as H3.
    destruct (Z.eqb_spec (Z.of_nat (length cks)) (ORDER - 1)) as [Hfull|Hfree].
    + assert (length cks = 3%nat) as E by (unfold ORDER, BTree_D in Hfull; lia). explode cks.
      apply insert_split; try done. apply Forall_app in Hts as [D1 [Dc D2]%Forall_cons].
      apply child_room in Hroom; try (by eapply bt_all_dense); try done.
      apply bt_surplus in Dc. cbn [node_keys length] in Dc. lia.
    + apply runs_bind, runs_ret. apply insert_descend; try done.
      unfold ORDER, BTree_D in Hfree. cbn in *. lia.
Qed.

(** ** Insertion into a tree *)

(** [tree] points to a B-tree that occupies the cells [L] and holds the keys
    [l], in this order from left to right. *)
Inductive tree_in (m : Mem) : ptr -> list nat -> list Z -> Prop :=
  | tree_in_null : tree_in m None [] []
  | tree_in_root h t : bt h m t -> NoDup (locs t) -> tree_in m (Some (root t)) (locs t) (keys t).

(** A tree of height [h] has at least [2 ^ (h + 1) - 1] keys. *)
Lemma bt_height h : forall m t, bt h m t -> (2 ^ S h <= length (keys t) + 1)%nat.
Proof.
  induction h as [|h IH]; intros m [p ks ts] (_ & Hk & Hts).
  - subst ts. cbn. lia.
  - destruct Hts as [Hl Hts]. destruct ts as [|t [|t' ts]]; [discriminate| |].
    { injection Hl as Hl. lia. }
    destruct ks as [|k ks]; [cbn in Hk; lia|]. injection Hl as Hl.
    pose proof (keys_between p [] k ks [] t t' ts eq_refl Hl) as E. cbn [app lefts] in E.
    rewrite E. cbn. rewrite !length_app. cbn. rewrite length_app.
    apply Forall_cons in Hts as [Ht Hts]. apply Forall_cons in Hts as [Ht' _].
    apply IH in Ht, Ht'. cbn in Ht, Ht'. lia.
Qed.

Lemma height_fuel h m t fuel : bt h m t -> (length (keys t) + 1 < 2 ^ fuel)%nat -> (S h < fuel)%nat.
Proof. intros Ht%bt_height Hf. apply (Nat.pow_lt_mono_r_iff 2); lia. Qed.

Lemma moves_alloc m m' f L :
  f = fresh (dom (cells m)) -> same_but [f] m m' -> S (room m') = room m -> moves m L m' (f :: L).
Proof.
  intros Hf Hsame Hroom. split.
  - intros q _ Hq. apply Hsame. rewrite list_elem_of_singleton. intros ->. apply Hq. left.
  - intros q Hq []. by right.
  - intros q [->|Hq]%elem_of_cons; [|done]. intros _. rewrite Hf. apply not_elem_of_dom, is_fresh.
  - cbn. lia.
Qed.

(** A node is allocated above the tree [c]. *)
Lemma above_tree h m m' f c :
  f = fresh (dom (cells m)) -> bt h m c -> NoDup (locs c) -> same_but [f] m m' -> bt h m' c /\ NoDup (f :: locs c).
Proof.
  intros Hf Hc Hnd Hsame.
  assert (f ∉ locs c) as Hfc.
  { rewrite Hf. intros [n Hn]%(bt_alloc _ _ _ _ Hc). by apply (is_fresh (dom (cells m))), (elem_of_dom_2 _ _ _ Hn). }
  split; [|by constructor]. eapply bt_frame; [|exact Hc]. intros q Hq. apply Hsame.
  intros ->%list_elem_of_singleton. done.
Qed.

Lemma inserted_in h m t key m' :
  inserted h m t key m' -> exists L' l',
    tree_in m' (Some (root t)) L' l' /\ moves m (locs t) m' L' /\ ins key (keys t) l'.
Proof.
  intros (t' & Hr & Ht' & Hnd & Hmv & Hins). exists (locs t'), (keys t').
  split_and!; [|done..]. rewrite <- Hr. by apply (tree_in_root _ h).
Qed.

(** Insertion under a new root [f] above a full node. *)
Lemma insert_new_root h fuel m m0 f q a b d cts key (c := Tree q [a; b; d] cts) :
  f = fresh (dom (cells m)) -> bt h m c -> NoDup (locs c) ->
  node_at m0 f [] [q] -> same_but [f] m m0 -> S (room m0) = room m ->
  (length (keys c) + 1 <= room m + length (locs c))%nat -> (length (keys c) + 1 < 2 ^ fuel)%nat ->
  runs (BTree_split_child (Some f) 0 (Some q);; BTree_insert_nonfull fuel (Some f) key;;
        mret (Some f)) m0 (fun tree' m' => exists L' l',
    tree_in m' tree' L' l' /\ moves m (locs c) m' L' /\ ins key (keys c) l').
Proof.
  intros Hf Hc Hnd Hroot Hsame Hr Hroom Hfuel.
  destruct (above_tree h m m0 f c Hf Hc Hnd Hsame) as [Hc0 Hnd0].
  pose proof (bt_surplus _ _ _ Hc) as Hsur. cbn [node_keys c length] in Hsur.
  assert (1 <= room m0)%nat as Hr0 by lia.
  assert (cts = [] \/ length cts = 4%nat) as Hcts by (by apply bt_children in Hc).
  apply runs_bind. eapply runs_mono.
  { apply (split_tree h m0 f q a b d [] [] [] [] cts eq_refl eq_refl ltac:(cbn; lia) Hr0 Hroot).
    - by constructor.
    - rewrite locs_Tree. cbn [app]. rewrite all_locs_cons, app_nil_r. done. }
  intros _ m1 (f' & HT & HndT & Hmv). cbn [app] in *.
  set (T := Tree f [b] _) in *. assert (keys T = keys c) as Hk.
  { unfold T, c. by rewrite (split_keys a b d q f'). }
  assert (moves m (locs c) m1 (locs T)) as HmvT.
  { eapply moves_trans; [by apply (moves_alloc m m0 f)|].
    rewrite locs_Tree in Hmv. cbn [app] in Hmv. by rewrite all_locs_cons, app_nil_r in Hmv. }
  apply runs_bind. eapply runs_mono.
  { rewrite <- Hk in Hfuel. pose proof (height_fuel _ _ _ _ HT Hfuel).
    apply (insert_nonfull_ok (S h) fuel ltac:(lia) m1 T); try done; [cbn; lia|].
    rewrite (mv_room _ _ _ _ HmvT), Hk. lia. }
  intros _ m' (L' & l' & HL & HM & HI)%inserted_in. apply runs_ret. exists L', l'.
  split_and!; [done|by eapply moves_trans|by rewrite <- Hk].
Qed.

(** Insertion into a B-tree returns, keeps it a B-tree and adds the key; memory
    for as many nodes as the tree then has keys is enough. *)
Lemma tree_insert_ok m tree L l key fuel :
  tree_in m tree L l -> (length l + 1 <= room m + length L)%nat -> (length l + 1 < 2 ^ fuel)%nat ->
  runs (BTree_insert fuel tree key) m (fun tree' m' => exists L' l',
    tree_in m' tree' L' l' /\ moves m L m' L' /\ ins key l l').
Proof.
  intros [|h c Hc Hnd] Hroom Hfuel; unfold BTree_insert; cbn [nonnull negb].
  - cbn in Hroom. destruct (room m) as [|r] eqn:Er; [lia|].
    apply runs_bind. eapply runs_calloc; [exact Er|]. set (f := fresh (dom (cells m))).
    repeat cstep. exists (locs (Tree f [key] [])), (keys (Tree f [key] [])). split_and!.
    + apply (tree_in_root _ 0 (Tree f [key] [])); [|apply NoDup_singleton].
      apply bt_unfold. split_and!; [show_node|cbn; lia|done].
    + apply moves_alloc; [done|same_cells|done].
    + by apply (ins_leaf key [] []).
  - destruct c as [q cks cts]. pose proof Hc as (Hq & Hk & _)%bt_unfold.
    cbn [root]. apply runs_bind. eapply at_keynum; [exact Hq|].
    pose proof (at_length _ _ _ _ Hq) as H3.
    destruct (Z.eqb_spec (Z.of_nat (length cks)) (ORDER - 1)) as [Hfull|Hfree];
      unfold ORDER, BTree_D in *.
    + assert (length cks = 3%nat) as E by lia. explode cks.
      pose proof (bt_surplus _ _ _ Hc) as Hsur. cbn [node_keys length] in Hsur.
      destruct (room m) as [|r] eqn:Er; [lia|].
      apply runs_bind. eapply runs_calloc; [exact Er|]. set (f := fresh (dom (cells m))).
      do 7 cstep.
      apply (insert_new_root h fuel m _ f); try done; [show_node|same_cells|lia].
    + apply runs_bind. eapply runs_mono.
      { pose proof (height_fuel _ _ _ _ Hc Hfuel).
        apply (insert_nonfull_ok h fuel ltac:(lia) m (Tree q cks cts)); try done; [cbn; lia|lia]. }
      intros _ m' Hin%inserted_in. by apply runs_ret.
Qed.
