(* ===== verification/BTreeSearch.v ===== *)
(** * Searching, creating and destroying B-trees

    A search finds a key exactly where the tree holds it, a tree created from
    an array holds its keys in order, and destruction frees every node. *)

From Stdlib Require Import Sorting.Sorted.
From S2P Require Import Prelude BTree BTreeNode BTreeShape BTreeInsert.
Import BTree.

(** ** Search *)

(** The test whether the key stands at the position found by [scan_up]. *)
Lemma found_spec m p l1 l2 cs key Q :
  node_at m p (l1 ++ l2) cs ->
  (forall l2', l2 = key :: l2' -> Q true m) -> (head l2 <> Some key -> Q false m) ->
  let i := Z.of_nat (length l1) in
  runs (if i <? Z.of_nat (length (l1 ++ l2)) then k ← get_key (Some p) i; mret (k =? key)
        else mret false) m Q.
Proof.
  intros Hp Hyes Hno i. subst i. rewrite length_app. destruct l2 as [|k l2].
  - destruct (Z.ltb_spec (Z.of_nat (length l1)) (Z.of_nat (length l1 + length (A:=Z) []))) as [H|H].
    { cbn in H. lia. }
    apply runs_ret, Hno. done.
  - destruct (Z.ltb_spec (Z.of_nat (length l1)) (Z.of_nat (length l1 + length (k :: l2)))) as [H|H];
      [|cbn in H; lia].
    apply runs_bind. eapply at_key; [exact Hp|by apply list_lookup_middle|]. apply runs_ret.
    destruct (Z.eqb_spec k key) as [->|Hk]; [by apply (Hyes l2)|]. apply Hno. by intros [= ->].
Qed.

(** In a sorted node a key that is not at its position is not there. *)
Lemma before_absent key l1 l2 :
  before key l1 l2 -> head l2 <> Some key ->
  (forall x, last l1 = Some x -> x <= key - 1) /\ (forall x, head l2 = Some x -> key + 1 <= x).
Proof.
  intros [H1 H2] Hne. split.
  - intros x Hx. rewrite Forall_forall in H1.
    assert (x ∈ l1) as Hin by (apply last_Some in Hx as [l ->]; set_solver). specialize (H1 x Hin). lia.
  - intros x Hx. specialize (H2 x Hx). assert (x <> key) by congruence. lia.
Qed.

Lemma leaf_absent key l1 l2 :
  before key l1 l2 -> head l2 <> Some key -> sorted (l1 ++ l2) -> key ∉ l1 ++ l2.
Proof.
  intros [H1 H2] Hne (_ & Hs & _)%sorted_app [Hk|Hk]%elem_of_app.
  - rewrite Forall_forall in H1. specialize (H1 key Hk). lia.
  - destruct l2 as [|x l2]; [by apply elem_of_nil in Hk|]. specialize (H2 x eq_refl).
    apply elem_of_cons in Hk as [->|Hk]; [done|].
    inversion_clear Hs as [|? ? _ Ha]. rewrite Forall_forall in Ha. specialize (Ha key Hk).
    apply Hne. cbn. f_equal. lia.
Qed.

Lemma around_absent ks1 ks2 ts1 ts2 key e :
  length ts1 = length ks1 -> length ts2 = length ks2 -> before key ks1 ks2 -> head ks2 <> Some key ->
  sorted (lefts ks1 ts1 ++ e ++ rights ks2 ts2) ->
  key ∈ lefts ks1 ts1 ++ e ++ rights ks2 ts2 -> key ∈ e.
Proof.
  intros H1 H2 Hb Hne Hs. destruct (before_absent _ _ _ Hb Hne) as [F1 F2].
  rewrite !elem_of_app. intros [Hk|[Hk|Hk]]; [|done|].
  - pose proof (lefts_le ks1 ts1 _ (key - 1) H1 Hs F1 key Hk). lia.
  - rewrite app_assoc in Hs. pose proof (rights_ge ks2 ts2 _ (key + 1) H2 Hs F2 key Hk). lia.
Qed.

Lemma key_of_node h m p ks1 k ks2 ts : bt h m (Tree p (ks1 ++ k :: ks2) ts) -> k ∈ keys (Tree p (ks1 ++ k :: ks2) ts).
Proof.
  intros (_ & _ & Hts)%bt_unfold. destruct h as [|h].
  - subst ts. cbn. set_solver.
  - destruct Hts as [Hl _]. destruct (child_of ks1 (k :: ks2) ts Hl) as (ts1 & c & ts2 & -> & H1 & H2).
    rewrite keys_at by done. destruct ts2 as [|c' ts2]; [discriminate|]. rewrite rights_cons. set_solver.
Qed.

(** [located m L key node pos]: the node, one of [L], has the key at [pos]. *)
Definition located (m : Mem) (L : list nat) (key : Z) (node : ptr) (pos : Z) : Prop :=
  exists p i ks cs, node = Some p /\ pos = Z.of_nat i /\ p ∈ L /\ node_at m p ks cs /\ ks !! i = Some key.

Lemma located_at h m p l1 key l2 ts :
  bt h m (Tree p (l1 ++ key :: l2) ts) ->
  located m (locs (Tree p (l1 ++ key :: l2) ts)) key (Some p) (Z.of_nat (length l1)).
Proof.
  intros (Hp & _)%bt_unfold. exists p, (length l1), (l1 ++ key :: l2), (root <$> ts).
  split_and!; [done..|left|done|by apply list_lookup_middle].
Qed.

(** What a search in the tree [t] of memory [m] returns. *)
Definition search_result (m : Mem) (L : list nat) (l : list Z) (key pos : Z) (r : ptr * Z) : Prop :=
  located m L key r.1 r.2 /\ key ∈ l \/ r = (None, pos) /\ (sorted l -> key ∉ l).

Lemma inner_node ts1 c ts2 :
  match root <$> ts1 ++ c :: ts2 with [] => true | _ => false end = false.
Proof. by destruct ts1. Qed.

Lemma recursive_search_ok h : forall fuel m t key pos,
  (h < fuel)%nat -> bt h m t ->
  runs (BTree_recursive_search fuel (Some (root t)) key pos) m (fun r m' =>
    m' = m /\ search_result m (locs t) (keys t) key pos r).
Proof.
  induction h as [|h IH]; intros [|fuel] m [p ks ts] key pos Hf HT; try lia;
    cbn [BTree_recursive_search root]; pose proof HT as (Hp & Hk & Hts)%bt_unfold;
    (apply runs_bind; eapply at_keynum; [exact Hp|]); rewrite Nat2Z.id;
    apply runs_bind; apply (scan_up_spec m p [] ks (root <$> ts)); try done;
    cbn [app]; intros l1 l2 -> Hb; apply runs_bind.
  1-2: eapply found_spec; [exact Hp|intros l2' ->; apply runs_ret|intros Hne].
  1,3: split; [done|left]; split; [by eapply located_at|by eapply key_of_node].
  - subst ts. apply runs_bind. eapply at_isLeaf; [exact Hp|]. apply runs_ret.
    split; [done|right]. split; [done|]. by apply leaf_absent.
  - destruct Hts as [Hl Hts]. destruct (child_of l1 l2 ts Hl) as (ts1 & c & ts2 & -> & H1 & H2).
    apply runs_bind. eapply at_isLeaf; [exact Hp|]. rewrite inner_node.
    apply runs_bind. eapply at_child; [exact Hp|rewrite <- H1; apply lookup_child|].
    pose proof (child_bt _ _ _ _ _ _ _ HT) as Hc. destruct c as [q cks cts].
    pose proof Hc as (Hq & _)%bt_unfold. apply runs_bind. eapply at_disk; [exact Hq|].
    eapply runs_mono; [apply (IH fuel m _ key pos ltac:(lia) Hc)|].
    intros r m' (-> & [[Hloc Hin]|[-> Hno]]); (split; [done|]); unfold search_result;
      rewrite keys_at by done.
    + left. split; [|set_solver]. destruct Hloc as (x & i & xs & cs & Hx). exists x, i, xs, cs.
      destruct Hx as (? & ? & Hx & ? & ?). split_and!; try done. rewrite locs_Tree.
      rewrite all_locs_app, all_locs_cons, !elem_of_app. tauto.
    + right. split; [done|]. intros Hs Hin. apply around_absent in Hin; try done.
      apply Hno; [|done]. by apply sorted_app in Hs as (_ & (Hs & _ & _)%sorted_app & _).
Qed.

Lemma search_ok m tree L l key pos fuel :
  tree_in m tree L l -> (length l + 1 < 2 ^ fuel)%nat ->
  runs (BTree_search fuel tree key pos) m (fun r m' =>
    m' = m /\ search_result m L l key (if nonnull tree then -1 else pos) r).
Proof.
  intros [|h t Ht Hnd] Hf; unfold BTree_search; cbn [nonnull negb].
  - apply runs_ret. split; [done|]. right. split; [done|]. intros _. apply not_elem_of_nil.
  - apply (recursive_search_ok h); [|done]. pose proof (height_fuel _ _ _ _ Ht Hf). lia.
Qed.

(** ** Creation *)

Lemma create_ok fuel data : forall m tree L l,
  tree_in m tree L l -> sorted l -> NoDup l ->
  (length l + length data <= room m + length L)%nat -> (length l + length data < 2 ^ fuel)%nat ->
  runs (BTree_create fuel tree data) m (fun tree' m' => exists L' l',
    tree_in m' tree' L' l' /\ moves m L m' L' /\ sorted l' /\ NoDup l' /\
    forall x, x ∈ l' <-> x ∈ l \/ x ∈ data).
Proof.
  induction data as [|x data IH]; intros m tree L l HT Hs Hnd Hroom Hf; cbn [BTree_create length] in *.
  - apply runs_ret. exists L, l. split_and!; try done. intros x. rewrite elem_of_nil. tauto.
  - apply runs_bind. eapply runs_mono; [apply (search_ok m tree L l); [done|lia]|].
    intros r m' [-> Hr].
    assert ((if nonnull tree then -1 else -1) = -1) as E by (by destruct (nonnull tree)).
    rewrite E in Hr. clear E. destruct r as [node pos].
    destruct Hr as [[(p & i & ks & cs & _ & Hpos & _) Hin]|[[= -> ->] Hno]]; apply runs_bind.
    + cbn in Hpos. subst pos. destruct (Z.eqb_spec (Z.of_nat i) (-1)); [lia|].
      apply runs_ret. eapply runs_mono; [apply (IH m tree L l); [done..|lia|lia]|].
      intros tree' m' (L' & l' & HT' & Hmv & Hs' & Hnd' & Hx). exists L', l'.
      split_and!; try done. intros y. rewrite Hx, elem_of_cons. split; [tauto|].
      intros [?|[->|?]]; tauto.
    + eapply runs_mono; [apply (tree_insert_ok m tree L l x fuel HT); lia|].
      intros tree1 m1 (L1 & l1 & HT1 & Hmv1 & Hins). pose proof (ins_perm _ _ _ Hins) as HP.
      pose proof (mv_room _ _ _ _ Hmv1) as Hr1. pose proof (Permutation_length HP) as Hl1.
      cbn in Hl1. eapply runs_mono; [apply (IH m1 tree1 L1 l1 HT1)|].
      * by apply (ins_sorted _ _ _ Hins).
      * rewrite HP. constructor; auto.
      * lia.
      * lia.
      * intros tree' m' (L' & l' & HT' & Hmv & Hs' & Hnd' & Hx). exists L', l'.
        split_and!; try done; [by eapply moves_trans|]. intros y. rewrite Hx, HP, !elem_of_cons. tauto.
Qed.

(** ** Destruction *)

Lemma moves_put m p n L : p ∈ L -> moves m L (put p n m) L.
Proof.
  intros Hp. split; try done. intros q Hq _. cbn. apply lookup_insert_ne. by intros ->.
Qed.

Lemma moves_free m p n :
  cells m !! p = Some n -> moves m [p] (mkMem (delete p (cells m)) (S (room m))) [].
Proof.
  intros Hp. split; cbn; [| | |lia].
  - intros q Hq _. apply lookup_delete_ne. intros ->. by apply Hq; left.
  - intros q ->%list_elem_of_singleton _. apply lookup_delete_eq.
  - intros q ?%elem_of_nil. done.
Qed.

(** Destruction of one tree, and the loop over the children of a node: the
    children in front are gone, those of [ts] are left. *)
Definition destroys (h fuel : nat) : Prop := forall m t,
  bt h m t -> NoDup (locs t) ->
  runs (BTree_destroy fuel (Some (root t))) m (fun r m' => r = None /\ moves m (locs t) m' []).

Lemma destroy_children h fuel p : destroys h fuel -> forall ts m i kn ks pre ys b,
  cells m !! p = Some (mkNode kn ks (pre ++ (Some <$> (root <$> ts)) ++ ys) b) -> length pre = i ->
  Forall (bt h m) ts -> NoDup (p :: all_locs ts) ->
  runs (up (length ts) (Z.of_nat i) (fun i =>
          c ← get_child (Some p) i; c ← BTree_destroy fuel c; set_child (Some p) i c)) m
    (fun _ m' => moves m (p :: all_locs ts) m' [p] /\ is_Some (cells m' !! p)).
Proof.
  intros IH ts. induction ts as [|t ts IHts]; intros m i kn ks pre ys b Hp Hi Hts Hnd; cbn [length up].
  - apply runs_ret. split; [apply moves_refl|eauto].
  - apply Forall_cons in Hts as [Ht Hts]. pose proof Hnd as [Hpt Hnt]%NoDup_cons.
    rewrite all_locs_cons in Hnt, Hpt. pose proof Hnt as (Hndt & Hdis & Hndts)%NoDup_app.
    apply runs_bind, runs_bind. eapply runs_get_child; [exact Hp| |].
    { cbn. rewrite loadz_nat, <- Hi. apply load_middle. }
    apply runs_bind. eapply runs_mono; [by apply IH|]. intros c m1 [-> Hmv].
    destruct (moves_context m m1 (locs t) [] (p :: all_locs ts) (p :: all_locs (t :: ts)) (p :: all_locs ts))
      as (Hmv1 & Hnd1 & Hkeep); try done.
    { rewrite all_locs_cons. perm. }
    { by constructor. }
    { intros q Hq. apply elem_of_cons in Hq as [->|Hq]; [eauto|].
      apply elem_of_all_locs in Hq as (u & Hu & Hq). apply elem_of_cons in Hu as [->|Hu].
      - by apply (bt_alloc h m t).
      - rewrite Forall_forall in Hts. by apply (bt_alloc h m u); auto. }
    pose proof (Hkeep p (list_elem_of_here _ _)) as Hp1. rewrite Hp in Hp1.
    eapply runs_set_child; [exact Hp1| |].
    { cbn. rewrite storez_nat, <- Hi. apply store_middle. }
    replace (Z.of_nat i + 1) with (Z.of_nat (S i)) by lia. set (n := mkNode _ _ _ _).
    eapply runs_mono.
    { apply (IHts (put p n m1) (S i) kn ks (pre ++ [None]) ys b); [|rewrite length_app; cbn; lia| |done].
      - cbn [put cells]. rewrite lookup_insert_eq. unfold n. by rewrite <- app_assoc.
      - eapply bt_all_frame; [|exact Hts]. intros q Hq. cbn [put cells].
        rewrite lookup_insert_ne by (intros ->; set_solver). apply Hkeep. by right. }
    intros _ m' [Hmv2 Hp2]. split; [|done].
    eapply moves_trans; [exact Hmv1|]. eapply moves_trans; [|exact Hmv2]. apply moves_put. left.
Qed.

(** A leaf has null pointers only, which the loop leaves as they are. *)
Lemma destroy_nulls p fuel n : forall k i m,
  cells m !! p = Some n -> child n = [None; None; None; None] -> (i + k <= 4)%nat ->
  runs (up k (Z.of_nat i) (fun i =>
          c ← get_child (Some p) i; c ← BTree_destroy (S fuel) c; set_child (Some p) i c)) m
    (fun _ m' => moves m [p] m' [p] /\ is_Some (cells m' !! p)).
Proof.
  induction k as [|k IH]; intros i m Hp Hn Hi; cbn [up].
  - apply runs_ret. split; [apply moves_refl|eauto].
  - assert (forall v, storez (child n) (Z.of_nat i) v = Done (<[i := v]> (child n))) as Hst.
    { intros v. rewrite storez_nat. apply store_lt. rewrite Hn. cbn. lia. }
    assert (child n !! i = Some None) as Hget by (rewrite Hn; by destruct i as [|[|[|[|]]]]; [..|lia]).
    apply runs_bind, runs_bind. eapply runs_get_child; [exact Hp|rewrite loadz_nat; by apply load_Done|].
    apply runs_bind. exists None, m. split; [done|].
    eapply runs_set_child; [exact Hp|apply Hst|]. rewrite (list_insert_id _ _ _ Hget).
    replace (Z.of_nat i + 1) with (Z.of_nat (S i)) by lia.
    assert (put p (mkNode (keynum n) (key n) (child n) (isLeaf n)) m = m) as ->.
    { unfold put. destruct n, m. cbn in *. by rewrite insert_id. }
    apply IH; [done..|lia].
Qed.

Lemma recursive_destroy_ok h : forall fuel, (S h < fuel)%nat -> destroys h fuel.
Proof.
  induction h as [|h IH]; intros [|fuel] Hf m [p ks ts] HT Hnd; try lia;
    cbn [BTree_destroy root nonnull]; pose proof HT as (Hp & Hk & Hts)%bt_unfold;
    apply runs_bind, runs_bind; (eapply at_keynum; [exact Hp|]);
    apply runs_bind; unfold for_up;
    replace (Z.to_nat (Z.of_nat (length ks) + 1 - 0)) with (S (length ks)) by lia;
    pose proof (at_length _ _ _ _ Hp) as H3; destruct Hp as (n & Hn & xs & ys & -> & Hx & Hy & Hl);
    eapply runs_mono.
  - subst ts. destruct fuel as [|fuel]; [lia|].
    apply (destroy_nulls p fuel _ (S (length ks)) 0 m Hn); [cbn; auto|cbn; lia].
  - intros _ m' [Hmv [n' Hn']]. eapply runs_free; [exact Hn'|]. apply runs_ret. split; [done|].
    subst ts. eapply moves_trans; [exact Hmv|]. by eapply moves_free.
  - destruct Hts as [Hlen Hts]. rewrite <- Hlen.
    apply (destroy_children h fuel p (IH fuel ltac:(lia)) ts m 0 _ _ [] ys _ Hn eq_refl Hts Hnd).
  - intros _ m' [Hmv [n' Hn']]. eapply runs_free; [exact Hn'|]. apply runs_ret. split; [done|].
    eapply moves_trans; [exact Hmv|]. by eapply moves_free.
Qed.

Lemma destroy_ok m tree L l fuel :
  tree_in m tree L l -> (length l + 1 < 2 ^ fuel)%nat ->
  runs (BTree_destroy fuel tree) m (fun r m' => r = None /\ moves m L m' []).
Proof.
  intros [|h t Ht Hnd] Hf.
  - destruct fuel as [|fuel]; [cbn in Hf; lia|]. exists None, m.
    split; [done|]. split; [done|apply moves_refl].
  - apply (recursive_destroy_ok h); try done. by apply (height_fuel h m t).
Qed.

(** ** Binary search inside a node *)

Lemma strong_sorted_lookup (R : Z -> Z -> Prop) l : StronglySorted R l -> forall i j x y,
  l !! i = Some x -> l !! j = Some y -> (i < j)%nat -> R x y.
Proof.
  induction 1 as [|a l _ IH Ha]; intros [|i] [|j] x y Hx Hy Hij; try lia; try discriminate; cbn in *.
  - injection Hx as <-. rewrite Forall_forall in Ha. by apply Ha, (list_elem_of_lookup_2 _ j).
  - apply (IH i j); [done..|lia].
Qed.

Section bisect.
Context (m : Mem) (p : nat) (ks : list Z) (cs : list nat) (Fkey : Z).
Context (Hp : node_at m p ks cs) (Hs : StronglySorted Z.lt ks).

(** The place of a key that is there and, as for a key at the first place, zero
    for one that is not. *)
Definition bisected (i : Z) (m' : Mem) : Prop :=
  m' = m /\ (Fkey ∈ ks -> ks !! Z.to_nat i = Some Fkey) /\ (Fkey ∉ ks -> i = 0).

Lemma bisect_spec fuel : forall low high,
  0 <= low -> high < Z.of_nat (length ks) -> high - low < Z.of_nat fuel ->
  (forall i x, ks !! i = Some x -> Z.of_nat i < low -> x < Fkey) ->
  (forall i x, ks !! i = Some x -> high < Z.of_nat i -> Fkey < x) ->
  runs (bisect fuel (Some p) low high Fkey) m bisected.
Proof using Hp Hs.
  induction fuel as [|fuel IH]; intros low high Hlow Hhigh Hfuel HL HH; cbn [bisect];
    destruct (Z.leb_spec low high) as [Hle|Hgt]; try lia.
  1, 3: apply runs_ret; split_and!; try done; intros (i & Hi)%list_elem_of_lookup_1;
    destruct (Z.lt_ge_cases (Z.of_nat i) low); [specialize (HL i _ Hi)|specialize (HH i _ Hi)]; lia.
  set (mid := low + Z.quot (high - low) 2).
  assert (low <= mid <= high) as Hmid by (subst mid; lia_div).
  destruct (lookup_lt_is_Some_2 ks (Z.to_nat mid)) as [k Hk]; [lia|].
  apply runs_bind. rewrite <- (Z2Nat.id mid) at 1 by lia. eapply at_key; [exact Hp|exact Hk|].
  destruct (Z.eqb_spec Fkey k) as [E|Hne].
  { subst k. apply runs_ret. split_and!; [done|done|]. intros []. by apply (list_elem_of_lookup_2 _ (Z.to_nat mid)). }
  assert (forall i x, ks !! i = Some x -> (Z.of_nat i < mid -> x < k) /\ (mid < Z.of_nat i -> k < x)) as Hord.
  { intros i x Hx. split; intros Hi; [apply (strong_sorted_lookup _ _ Hs i (Z.to_nat mid))|
      apply (strong_sorted_lookup _ _ Hs (Z.to_nat mid) i)]; try done; lia. }
  destruct (Z.ltb_spec k Fkey), (Z.ltb_spec Fkey k); try lia; apply IH; try lia; try done.
  - intros i x Hx Hi. destruct (Z.eq_dec (Z.of_nat i) mid) as [E|E].
    + rewrite <- E, Nat2Z.id, Hx in Hk. injection Hk as ->. done.
    + destruct (Hord i x Hx) as [Ho _]. lia.
  - intros i x Hx Hi. destruct (Z.eq_dec (Z.of_nat i) mid) as [E|E].
    + rewrite <- E, Nat2Z.id, Hx in Hk. injection Hk as ->. done.
    + destruct (Hord i x Hx) as [_ Ho]. lia.
Qed.

Lemma binarySearch_spec :
  runs (binarySearch (Some p) 0 (Z.of_nat (length ks) - 1) Fkey) m bisected.
Proof using Hp Hs.
  apply bisect_spec; try lia. intros i x Hx. apply lookup_lt_Some in Hx. lia.
Qed.

End bisect.

(** ** Printing *)

(** What a line shows of a node: its layer and the keys in use. *)
Definition shown (r : line) : option (Z * list Z) :=
  match r with Row layer n ks => Some (layer, take (Z.to_nat n) ks) | NoTree => None end.

(** The nodes of a tree from the root down, each before its children. *)
Fixpoint rows (layer : Z) (t : tree) : list (option (Z * list Z)) :=
  match t with Tree _ ks ts => Some (layer, ks) :: concat (map (rows (layer + 1)) ts) end.

Lemma gather_keys m p n Q :
  cells m !! p = Some n -> length (key n) = 3%nat -> Q (key n) m ->
  runs (gather (Z.to_nat (ORDER - 1)) 0 (fun i => k ← get_key (Some p) i; mret [k])) m Q.
Proof.
  intros Hp Hn HQ. destruct (key n) as [|x [|y [|z [|]]]] eqn:Ek; try discriminate Hn.
  change (Z.to_nat (ORDER - 1)) with 3%nat. cbn [gather].
  do 3 (apply runs_bind, runs_bind; eapply runs_get_key; [exact Hp|rewrite Ek; reflexivity|];
    apply runs_ret, runs_bind). by repeat apply runs_ret.
Qed.

Lemma gather_children m p ks ts (f : tree -> list (option (Z * list Z))) (body : ptr -> cmd (list line)) :
  node_at m p ks (root <$> ts) ->
  (forall t, t ∈ ts -> runs (body (Some (root t))) m (fun out m' => m' = m /\ map shown out = f t)) ->
  forall us vs, ts = us ++ vs ->
  runs (gather (length vs) (Z.of_nat (length us)) (fun i => c ← get_child (Some p) i;
          if nonnull c then body c else mret [])) m (fun out m' =>
    m' = m /\ map shown out = concat (map f vs)).
Proof.
  intros Hp Hbody us vs. revert us. induction vs as [|t vs IH]; intros us E; cbn [gather length].
  - by apply runs_ret.
  - subst ts. apply runs_bind, runs_bind. eapply at_child; [exact Hp|apply lookup_child|]. cbn [nonnull].
    eapply runs_mono; [apply Hbody; apply elem_of_app; right; left|]. intros out m' [-> Hout].
    apply runs_bind. specialize (IH (us ++ [t])). rewrite length_app, Nat2Z.inj_add in IH.
    eapply runs_mono; [apply IH; by rewrite <- app_assoc|]. intros out' m' [-> Hout']. apply runs_ret.
    split; [done|]. by rewrite map_app, Hout, Hout'.
Qed.

(** A leaf has no children to print. *)
Lemma gather_nulls m p ks (body : ptr -> cmd (list line)) :
  node_at m p ks [] -> forall n i, (i + n <= 4)%nat ->
  runs (gather n (Z.of_nat i) (fun i => c ← get_child (Some p) i;
          if nonnull c then body c else mret [])) m (fun out m' => m' = m /\ out = []).
Proof.
  intros Hp n. induction n as [|n IH]; intros i Hi; cbn [gather]; [by apply runs_ret|].
  apply runs_bind, runs_bind. eapply at_no_child; [exact Hp|done|lia|]. apply runs_ret, runs_bind.
  replace (Z.of_nat i + 1) with (Z.of_nat (S i)) by lia.
  eapply runs_mono; [apply IH; lia|]. intros out m' [-> ->]. by apply runs_ret.
Qed.

Lemma print_ok h : forall fuel m t layer,
  (h < fuel)%nat -> bt h m t ->
  runs (BTree_print fuel (Some (root t)) layer) m (fun out m' => m' = m /\ map shown out = rows layer t).
Proof.
  induction h as [|h IH]; intros [|fuel] m [p ks ts] layer Hf HT; try lia;
    cbn [BTree_print root nonnull]; pose proof HT as (Hp & Hk & Hts)%bt_unfold;
    apply runs_bind; (eapply at_keynum; [exact Hp|]); apply runs_bind;
    pose proof Hp as (n & Hn & xs & ys & -> & Hx & Hy & Hl);
    pose proof (at_length _ _ _ _ Hp) as H3;
    (eapply gather_keys; [exact Hn|cbn; rewrite length_app; lia|]); cbn [key];
    apply runs_bind; replace (Z.to_nat (Z.of_nat (length ks) + 1)) with (S (length ks)) by lia;
    eapply runs_mono.
  - subst ts. apply (gather_nulls m p ks _ Hp (S (length ks)) 0). lia.
  - intros out m' [-> ->]. apply runs_ret. split; [done|]. subst ts. cbn.
    by rewrite Nat2Z.id, take_app_length.
  - destruct Hts as [Hlen Hts]. rewrite <- Hlen. rewrite Forall_forall in Hts.
    apply (gather_children m p ks ts (rows (layer + 1)) _ Hp) with (us := []); [|done].
    intros t Ht. apply IH; [lia|auto].
  - intros out m' [-> Hout]. apply runs_ret. split; [done|]. cbn.
    by rewrite Nat2Z.id, take_app_length, Hout.
Qed.
