(* ===== verification/BTreeRemove.v ===== *)
(** * Deletion from the B-tree

    Deletion keeps the tree in memory well-formed and, when the keys were in
    order, takes out one copy of the key.  The order survives when the key is
    in a leaf or directly above the leaves; further up the code moves up a
    key that is not the neighbour of the deleted one. *)

From Stdlib Require Import Sorting.Sorted.
From S2P Require Import Prelude BTree BTreeNode BTreeShape BTreeInsert BTreeSearch.
Import BTree.

(** ** Children of a node of height [h] *)

Definition subs (h : nat) (m : Mem) (ts : list tree) (n : nat) : Prop :=
  match h with O => ts = [] | S h => length ts = n /\ Forall (bt h m) ts end.

Lemma bt_subs h m p ks ts :
  bt h m (Tree p ks ts) <->
  node_at m p ks (root <$> ts) /\ (1 <= length ks)%nat /\ subs h m ts (S (length ks)).
Proof. apply bt_unfold. Qed.

Lemma subs_app h m ts1 n1 ts2 n2 : subs h m ts1 n1 -> subs h m ts2 n2 -> subs h m (ts1 ++ ts2) (n1 + n2).
Proof.
  destruct h; cbn; [by intros -> ->|]. intros [<- H1] [<- H2].
  rewrite length_app. split; [done|]. by apply Forall_app.
Qed.

Lemma subs_take h m ts n k : subs h m ts n -> (k <= n)%nat -> subs h m (take k ts) k.
Proof.
  destruct h; cbn; [intros -> _; by destruct k|]. intros [<- H] Hk.
  rewrite length_take. split; [lia|]. by apply Forall_take.
Qed.

Lemma subs_drop h m ts n k : subs h m ts n -> subs h m (drop k ts) (n - k).
Proof.
  destruct h; cbn; [intros ->; by destruct k|]. intros [<- H].
  rewrite length_drop. split; [lia|]. by apply Forall_drop.
Qed.

Lemma subs_frame h m m' ts n :
  (forall q, q ∈ all_locs ts -> cells m' !! q = cells m !! q) -> subs h m ts n -> subs h m' ts n.
Proof. destruct h; cbn; [done|]. intros Heq [Hl H]. split; [done|]. by apply (bt_all_frame _ m). Qed.

(** Both nodes of a level are leaves, or neither is. *)
Lemma subs_both h m ts1 n1 ts2 n2 :
  subs h m ts1 n1 -> subs h m ts2 n2 ->
  ts1 = [] /\ ts2 = [] \/ length ts1 = n1 /\ length ts2 = n2.
Proof. destruct h; cbn; [by left|]. intros [? _] [? _]. by right. Qed.

(** ** Two neighbours below a node *)

(** A node above the trees [ts1], a node [lp] and the trees [us]. *)
Lemma neighbours_tree h m' p lp ks' ts1 lks' lts' us :
  node_at m' p ks' ((root <$> ts1) ++ lp :: (root <$> us)) ->
  node_at m' lp lks' (root <$> lts') -> (1 <= length lks')%nat -> subs h m' lts' (S (length lks')) ->
  (1 <= length ks')%nat -> (length ts1 + length us = length ks')%nat ->
  Forall (bt h m') ts1 -> Forall (bt h m') us ->
  bt (S h) m' (Tree p ks' (ts1 ++ Tree lp lks' lts' :: us)).
Proof.
  intros Hp Hl Hlk Hls Hk Hlen Ht1 Hus. apply bt_unfold. rewrite fmap_app. split_and!; try done.
  - rewrite length_app. cbn. lia.
  - apply Forall_app. split; [done|]. constructor; [|done]. by apply bt_subs.
Qed.

Section neighbours.
Context (h : nat) (m : Mem) (p lp rp : nat) (ks1 ks2 lks rks : list Z) (k : Z).
Context (ts1 ts2 lts rts : list tree).
Let T := Tree p (ks1 ++ k :: ks2) (ts1 ++ Tree lp lks lts :: Tree rp rks rts :: ts2).
Context (HT : bt (S h) m T) (Hnd : NoDup (locs T)).
Context (H1 : length ts1 = length ks1) (H2 : length ts2 = length ks2).

Lemma neighbours_locs :
  locs T ≡ₚ [p; lp; rp] ++ all_locs ts1 ++ all_locs ts2 ++ all_locs lts ++ all_locs rts.
Proof using. clear H1 H2. unfold T. perm. Qed.

Lemma neighbours_distinct : p <> lp /\ p <> rp /\ lp <> rp.
Proof using Hnd.
  rewrite neighbours_locs in Hnd. cbn [app] in Hnd.
  apply NoDup_cons in Hnd as [Hp Hnd1]. apply NoDup_cons in Hnd1 as [Hl _].
  rewrite !not_elem_of_cons in *. tauto.
Qed.

Lemma neighbours_nodes :
  node_at m p (ks1 ++ k :: ks2) ((root <$> ts1) ++ lp :: rp :: (root <$> ts2)) /\
  node_at m lp lks (root <$> lts) /\ node_at m rp rks (root <$> rts) /\
  subs h m lts (S (length lks)) /\ subs h m rts (S (length rks)) /\
  Forall (bt h m) ts1 /\ Forall (bt h m) ts2.
Proof using HT.
  apply bt_unfold in HT as (Hp & _ & _ & Hts). rewrite fmap_app in Hp.
  apply Forall_app in Hts as [Ht1 Hts]. apply Forall_cons in Hts as [Hl Hts].
  apply Forall_cons in Hts as [Hr Ht2]. apply bt_subs in Hl as (? & _ & ?), Hr as (? & _ & ?). done.
Qed.

(** A step that changes [p], [lp] and [rp] only, with the new tree given by its
    cells and the cells it frees. *)
Lemma neighbours_step m' L' D :
  same_but [p; lp; rp] m m' -> L' ++ D ≡ₚ locs T ->
  (forall q, q ∈ D -> cells m' !! q = None) -> (room m' = room m + length D)%nat ->
  moves m (locs T) m' L' /\ NoDup L' /\
  subs h m' lts (S (length lks)) /\ subs h m' rts (S (length rks)) /\
  Forall (bt h m') ts1 /\ Forall (bt h m') ts2.
Proof using HT Hnd.
  clear H1 H2. intros Hsame HP HD Hroom.
  destruct (moves_local m m' (locs T) L' [p; lp; rp]
    (all_locs ts1 ++ all_locs ts2 ++ all_locs lts ++ all_locs rts) D []) as (Hmv & Hnd' & Hkeep).
  - apply neighbours_locs.
  - by rewrite HP, neighbours_locs.
  - done.
  - done.
  - done.
  - by constructor.
  - by intros q ?%elem_of_nil.
  - intros q. by apply (bt_alloc (S h)).
  - cbn. lia.
  - destruct neighbours_nodes as (_ & _ & _ & Hl & Hr & Ht1 & Ht2). setoid_rewrite elem_of_app in Hkeep.
    setoid_rewrite elem_of_app in Hkeep. setoid_rewrite elem_of_app in Hkeep.
    split_and!; try done; first [apply (subs_frame h m) | apply (bt_all_frame h m)]; try done;
      intros q Hq; apply Hkeep; tauto.
Qed.

End neighbours.

Lemma merge_keys lp rp a k b lts rts :
  lts = [] /\ rts = [] \/ length lts = 2%nat /\ length rts = 2%nat ->
  keys (Tree lp [a; k; b] (lts ++ rts)) = keys (Tree lp [a] lts) ++ k :: keys (Tree rp [b] rts).
Proof.
  intros [[-> ->]|[El Er]]; [done|]. explode lts. explode rts. cbn. by rewrite <- !app_assoc.
Qed.

Section merge.
Context (h : nat) (m : Mem) (p lp rp : nat) (ks1 ks2 : list Z) (a k b : Z).
Context (ts1 ts2 lts rts : list tree).
Let l := Tree lp [a] lts.
Let r := Tree rp [b] rts.
Let c := Tree lp [a; k; b] (lts ++ rts).
Let T := Tree p (ks1 ++ k :: ks2) (ts1 ++ l :: r :: ts2).
Context (HT : bt (S h) m T) (Hnd : NoDup (locs T)).
Context (H1 : length ts1 = length ks1) (H2 : length ts2 = length ks2).

Lemma merge_tree tree :
  (1 <= length ks1 + length ks2)%nat ->
  let T' := Tree p (ks1 ++ ks2) (ts1 ++ c :: ts2) in
  runs (BTree_merge_child tree (Some p) (Z.of_nat (length ks1))) m (fun t m' =>
    t = tree /\ bt (S h) m' T' /\ NoDup (locs T') /\ moves m (locs T) m' (locs T')).
Proof using HT Hnd H1 H2.
  intros Hlen T'. pose proof (neighbours_distinct p lp rp ks1 ks2 [a] [b] k ts1 ts2 lts rts Hnd)
    as (Hpl & Hpr & Hlr).
  destruct (neighbours_nodes h m p lp rp ks1 ks2 [a] [b] k ts1 ts2 lts rts HT)
    as (Hp & Hl & Hr & Hls & Hrs & _ & _).
  pose proof (at_length _ _ _ _ Hp) as H3. rewrite length_app in H3. cbn in H3.
  eapply runs_mono.
  { apply (merge_child_spec m p lp rp Hpl Hpr Hlr tree ks1 k ks2 (root <$> ts1) (root <$> ts2)
             a b (root <$> lts) (root <$> rts)); rewrite ?length_fmap; try done; [lia|].
    destruct (subs_both _ _ _ _ _ _ Hls Hrs) as [[-> ->]|[-> ->]]; auto. }
  intros t m' (-> & Hp' & Hl' & Hr' & Hroom & Hsame). split; [done|].
  destruct (neighbours_step h m p lp rp ks1 ks2 [a] [b] k ts1 ts2 lts rts HT Hnd m' (locs T') [rp])
    as (Hmv & Hnd' & Hls' & Hrs' & Ht1 & Ht2); try done.
  { clear. unfold T', c. perm. }
  { by intros q ->%list_elem_of_singleton. }
  { cbn. lia. }
  split_and!; [|done..]. rewrite <- fmap_app in Hl'.
  apply neighbours_tree; try done; rewrite ?length_app; cbn; try lia.
  apply (subs_app h m' lts 2 rts 2 Hls' Hrs').
Qed.

End merge.

(** The root loses its only key: the merged node takes its place. *)
Lemma merge_root_tree h m p lp rp a k b lts rts
    (T := Tree p [k] [Tree lp [a] lts; Tree rp [b] rts]) (c := Tree lp [a; k; b] (lts ++ rts)) :
  bt (S h) m T -> NoDup (locs T) ->
  runs (BTree_merge_child (Some p) (Some p) 0) m (fun t m' =>
    t = Some lp /\ bt h m' c /\ NoDup (locs c) /\ moves m (locs T) m' (locs c)).
Proof.
  intros HT Hnd. pose proof (neighbours_distinct p lp rp [] [] [a] [b] k [] [] lts rts Hnd)
    as (Hpl & Hpr & Hlr).
  destruct (neighbours_nodes h m p lp rp [] [] [a] [b] k [] [] lts rts HT)
    as (Hp & Hl & Hr & Hls & Hrs & _ & _).
  eapply runs_mono.
  { apply (merge_last_spec m p lp rp Hpl Hpr Hlr (Some p) k a b (root <$> lts) (root <$> rts)); try done.
    rewrite !length_fmap. destruct (subs_both _ _ _ _ _ _ Hls Hrs) as [[-> ->]|[-> ->]]; auto. }
  intros t m' (-> & Hl' & Hp' & Hr' & Hroom & Hsame). rewrite decide_True by done. split; [done|].
  destruct (neighbours_step h m p lp rp [] [] [a] [b] k [] [] lts rts HT Hnd m' (locs c) [p; rp])
    as (Hmv & Hnd' & Hls' & Hrs' & _ & _); try done.
  { clear. unfold c. cbn [app]. perm. }
  { intros q [->| ->%list_elem_of_singleton]%elem_of_cons; done. }
  { cbn. lia. }
  split_and!; [|done..]. rewrite <- fmap_app in Hl'. apply bt_subs. split_and!; [done|cbn; lia|].
  apply (subs_app h m' lts 2 rts 2 Hls' Hrs').
Qed.

(** The cells of some trees, given in two parts. *)
Lemma regroup_locs L L1 ts n :
  L ≡ₚ L1 ++ all_locs (take n ts) ++ all_locs (drop n ts) -> L ≡ₚ L1 ++ all_locs ts.
Proof. by rewrite <- all_locs_app, take_drop. Qed.

Section borrow_right.
Context (h : nat) (m : Mem) (p lp rp : nat) (ks1 ks2 rks : list Z) (a k b : Z).
Context (ts1 ts2 lts rts : list tree).
Let T := Tree p (ks1 ++ k :: ks2) (ts1 ++ Tree lp [a] lts :: Tree rp (b :: rks) rts :: ts2).
Let T' := Tree p (ks1 ++ b :: ks2)
            (ts1 ++ Tree lp [a; k] (lts ++ take 1 rts) :: Tree rp rks (drop 1 rts) :: ts2).
Context (HT : bt (S h) m T) (Hnd : NoDup (locs T)) (Hrk : (1 <= length rks)%nat).
Context (H1 : length ts1 = length ks1) (H2 : length ts2 = length ks2).

Lemma borrow_right_tree :
  runs (borrow_right (Some p) (Some lp) (Some rp) (Z.of_nat (length ks1))) m (fun _ m' =>
    bt (S h) m' T' /\ NoDup (locs T') /\ moves m (locs T) m' (locs T')).
Proof using HT Hnd Hrk H1 H2.
  pose proof (neighbours_distinct p lp rp ks1 ks2 [a] (b :: rks) k ts1 ts2 lts rts Hnd)
    as (Hpl & Hpr & Hlr).
  destruct (neighbours_nodes h m p lp rp ks1 ks2 [a] (b :: rks) k ts1 ts2 lts rts HT)
    as (Hp & Hl & Hr & Hls & Hrs & _ & _).
  pose proof (at_length _ _ _ _ Hr) as H3. cbn in H3.
  eapply runs_mono.
  { apply (borrow_right_spec m p lp rp Hpl Hpr Hlr ks1 k ks2
             ((root <$> ts1) ++ lp :: rp :: (root <$> ts2)) a b rks (root <$> lts) (root <$> rts));
      rewrite ?length_fmap; try done; [lia|].
    destruct (subs_both _ _ _ _ _ _ Hls Hrs) as [[-> ->]|[-> ->]]; auto. }
  intros _ m' (Hp' & Hl' & Hr' & Hroom & Hsame).
  destruct (neighbours_step h m p lp rp ks1 ks2 [a] (b :: rks) k ts1 ts2 lts rts HT Hnd m' (locs T') [])
    as (Hmv & Hnd' & Hls' & Hrs' & Ht1 & Ht2); try done.
  { rewrite app_nil_r, neighbours_locs. rewrite !app_assoc. apply (regroup_locs _ _ rts 1). clear. unfold T'. perm. }
  { by intros q ?%elem_of_nil. }
  { cbn. lia. }
  split_and!; [|done..]. rewrite <- fmap_take, <- fmap_app in Hl'. rewrite <- fmap_drop in Hr'.
  apply neighbours_tree; try done; rewrite ?length_app; cbn; try lia.
  - apply (subs_app h m' lts 2 (take 1 rts) 1 Hls'). apply (subs_take _ _ _ _ _ Hrs'). cbn. lia.
  - constructor; [|done]. apply bt_subs. split_and!; [done..|].
    exact (subs_drop _ _ _ _ 1 Hrs').
Qed.

End borrow_right.

Section borrow_left.
Context (h : nat) (m : Mem) (p lp rp : nat) (ks1 ks2 lks : list Z) (a k b : Z).
Context (ts1 ts2 lts rts : list tree).
Let T := Tree p (ks1 ++ k :: ks2) (ts1 ++ Tree lp (lks ++ [b]) lts :: Tree rp [a] rts :: ts2).
Let T' := Tree p (ks1 ++ b :: ks2)
            (ts1 ++ Tree lp lks (take (S (length lks)) lts) ::
             Tree rp [k; a] (drop (S (length lks)) lts ++ rts) :: ts2).
Context (HT : bt (S h) m T) (Hnd : NoDup (locs T)) (Hlk : (1 <= length lks)%nat).
Context (H1 : length ts1 = length ks1) (H2 : length ts2 = length ks2).

Lemma borrow_left_tree :
  runs (borrow_left (Some p) (Some rp) (Some lp) (Z.of_nat (length ks1) + 1)) m (fun _ m' =>
    bt (S h) m' T' /\ NoDup (locs T') /\ moves m (locs T) m' (locs T')).
Proof using HT Hnd Hlk H1 H2.
  pose proof (neighbours_distinct p lp rp ks1 ks2 (lks ++ [b]) [a] k ts1 ts2 lts rts Hnd)
    as (Hpl & Hpr & Hlr).
  destruct (neighbours_nodes h m p lp rp ks1 ks2 (lks ++ [b]) [a] k ts1 ts2 lts rts HT)
    as (Hp & Hl & Hr & Hls & Hrs & _ & _).
  pose proof (at_length _ _ _ _ Hl) as H3. rewrite length_app in H3, Hls. cbn in H3, Hls.
  rewrite Nat.add_1_r in Hls.
  eapply runs_mono.
  { apply (borrow_left_spec m p lp rp Hpl Hpr Hlr ks1 k ks2
             ((root <$> ts1) ++ lp :: rp :: (root <$> ts2)) lks b a (root <$> lts) (root <$> rts));
      rewrite ?length_fmap; try done; [lia|].
    destruct (subs_both _ _ _ _ _ _ Hls Hrs) as [[-> ->]|[-> ->]]; auto. }
  intros _ m' (Hp' & Hr' & Hl' & Hroom & Hsame).
  destruct (neighbours_step h m p lp rp ks1 ks2 (lks ++ [b]) [a] k ts1 ts2 lts rts HT Hnd m' (locs T') [])
    as (Hmv & Hnd' & Hls' & Hrs' & Ht1 & Ht2); try done.
  { rewrite app_nil_r, neighbours_locs. trans (([p; lp; rp] ++ all_locs ts1 ++ all_locs ts2 ++
      all_locs rts) ++ all_locs lts); [|clear; perm].
    apply (regroup_locs _ _ lts (S (length lks))). clear. unfold T'. perm. }
  { by intros q ?%elem_of_nil. }
  { cbn. lia. }
  rewrite length_app, Nat.add_1_r in Hls'.
  split_and!; [|done..]. rewrite <- fmap_drop, <- fmap_app in Hr'. rewrite <- fmap_take in Hl'.
  apply neighbours_tree; try done; rewrite ?length_app; cbn; try lia.
  - apply (subs_take _ _ _ _ _ Hls'). lia.
  - constructor; [|done]. apply bt_subs. split_and!; [done|cbn; lia|].
    apply (subs_app h m' _ 1 rts 2); [|done].
    pose proof (subs_drop _ _ _ _ (S (length lks)) Hls') as Hd.
    by replace (S (S (length lks)) - S (length lks))%nat with 1%nat in Hd by lia.
Qed.

End borrow_left.

(** ** Keys moved between siblings *)

(** Equations between concatenations. *)
Ltac flat := do 3 (cbn; rewrite ?app_nil_r, <- ?app_assoc); reflexivity.

Lemma borrow_right_keys lp rp a k b rks lts rts :
  lts = [] /\ rts = [] \/ length lts = 2%nat /\ length rts = S (S (length rks)) ->
  exists e, keys (Tree lp [a; k] (lts ++ take 1 rts)) = keys (Tree lp [a] lts) ++ k :: e /\
    keys (Tree rp (b :: rks) rts) = e ++ b :: keys (Tree rp rks (drop 1 rts)).
Proof.
  intros [[-> ->]|[El Er]]; [by exists []|]. explode lts. destruct rts as [|z rts]; [discriminate|].
  exists (keys z). rewrite !firstn_cons, !skipn_cons, firstn_O, skipn_O. split; flat.
Qed.

Lemma borrow_left_keys lp rp a k b lks lts rts :
  lts = [] /\ rts = [] \/ length lts = S (S (length lks)) /\ length rts = 2%nat ->
  exists e, keys (Tree rp [k; a] (drop (S (length lks)) lts ++ rts)) = e ++ k :: keys (Tree rp [a] rts) /\
    keys (Tree lp (lks ++ [b]) lts) = keys (Tree lp lks (take (S (length lks)) lts)) ++ b :: e.
Proof.
  intros [[-> ->]|[El Er]].
  { exists []. rewrite take_nil, drop_nil. split; flat. }
  destruct (child_of (lks ++ [b]) [] lts) as (us & z & vs & -> & Hu & Hv).
  { rewrite app_nil_r, length_app. cbn. lia. }
  destruct vs; [|discriminate]. rewrite length_app in Hu. cbn in Hu. explode rts.
  exists (keys z). rewrite take_app_length', drop_app_length' by lia. split; [flat|].
  destruct us as [|y us _] using rev_ind; [cbn in Hu; lia|]. rewrite length_app in Hu. cbn in Hu.
  pose proof (keys_at lp (lks ++ [b]) [] (us ++ [y]) z []) as E1. rewrite app_nil_r in E1.
  rewrite E1 by (rewrite ?length_app; cbn; lia). rewrite lefts_snoc by lia.
  pose proof (keys_at lp lks [] us y []) as E2. rewrite app_nil_r in E2. rewrite E2 by (cbn; lia).
  flat.
Qed.

(** ** What deletion does to the keys *)

(** The keys in nodes that are more than one level above the leaves. *)
Fixpoint upper (h : nat) (t : tree) : list Z :=
  match h with
  | S (S _ as h') => let '(Tree _ ks ts) := t in ks ++ concat (map (upper h') ts)
  | _ => []
  end.

Lemma elem_of_upper h p ks ts x :
  x ∈ upper (S h) (Tree p ks ts) <->
  h <> O /\ (x ∈ ks \/ exists t, t ∈ ts /\ x ∈ upper h t).
Proof.
  destruct h as [|h].
  - split; [intros ?%elem_of_nil; done|by intros []].
  - change (upper (S (S h)) (Tree p ks ts)) with (ks ++ concat (map (upper (S h)) ts)).
    rewrite elem_of_app, !list_elem_of_In, in_concat. setoid_rewrite list_elem_of_In. split.
    + intros [Hx|(l & Hl & Hx)]; [auto|]. apply in_map_iff in Hl as (t & <- & Ht). eauto.
    + intros (_ & [Hx|(t & Ht & Hx)]); [by left|right]. exists (upper (S h) t).
      split; [by apply in_map|done].
Qed.

Definition subtrees (t : tree) : list tree := let '(Tree _ _ ts) := t in ts.

(** A child made of keys and subtrees of the node and its children. *)
Lemma upper_sub h p ks ts q cks cts x :
  (forall y, y ∈ cks -> y ∈ ks \/ exists t, t ∈ ts /\ y ∈ node_keys t) ->
  (forall u, u ∈ cts -> exists t, t ∈ ts /\ u ∈ subtrees t) ->
  x ∈ upper h (Tree q cks cts) -> x ∈ upper (S h) (Tree p ks ts).
Proof.
  intros Hk Ht. destruct h as [|h]; [by intros ?%elem_of_nil|].
  rewrite !elem_of_upper. intros (Hh & Hx). split; [done|]. destruct Hx as [Hx|(u & Hu & Hx)].
  - destruct (Hk x Hx) as [?|([q' ks' ts'] & Hin & Hx')]; [by left|right].
    exists (Tree q' ks' ts'). split; [done|]. apply elem_of_upper. auto.
  - right. destruct (Ht u Hu) as ([q' ks' ts'] & Hin & Hu'). exists (Tree q' ks' ts').
    split; [done|]. apply elem_of_upper. eauto.
Qed.

(** [rem key l l' U]: of sorted keys one copy of the key is gone, or it was not
    there; they stay sorted when the key is not in [U].  There are never more
    keys than before. *)
Definition rem (key : Z) (l l' U : list Z) : Prop :=
  (length l' <= length l)%nat /\
  (sorted l -> (key ∈ l /\ l ≡ₚ key :: l' \/ key ∉ l /\ l' = l) /\ (key ∉ U -> sorted l')).

(** [removed h m t key tree m']: [tree] points in [m'] to what is left of [t]. *)
Definition removed (h : nat) (m : Mem) (t : tree) (key : Z) (r : ptr) (m' : Mem) : Prop :=
  exists L' l', tree_in m' r L' l' /\ moves m (locs t) m' L' /\ rem key (keys t) l' (upper h t) /\
    ((2 <= length (node_keys t))%nat ->
     exists t', r = Some (root t) /\ root t' = root t /\ bt h m' t' /\ NoDup (locs t') /\
       locs t' = L' /\ keys t' = l').

Definition remove_works (h fuel : nat) : Prop := forall m t key,
  bt h m t -> NoDup (locs t) ->
  runs (BTree_recursive_remove fuel (Some (root t)) key) m (removed h m t key).

(** One copy of the key goes from the middle part. *)
Lemma rem_around key A e e' C U U' :
  (sorted (A ++ e ++ C) -> key ∈ A ++ e ++ C -> key ∈ e) -> (key ∉ U' -> key ∉ U) ->
  rem key e e' U -> rem key (A ++ e ++ C) (A ++ e' ++ C) U'.
Proof.
  intros Hin HU [Hlen He]. split; [rewrite !length_app; lia|]. intros Hs. specialize (Hin Hs). pose proof Hs as (HsA & HsC & HAC)%sorted_app.
  apply sorted_app in HsC as (Hse & HsC & HeC). destruct (He Hse) as [Hrem Hsort].
  assert (forall x, x ∈ e' -> x ∈ e) as Hsub.
  { destruct Hrem as [[_ HP]|[_ ->]]; [|done]. intros x Hx. rewrite HP. by right. }
  split.
  - destruct Hrem as [[Hk HP]|[Hk ->]]; [left|right].
    + split; [set_solver|]. rewrite HP. clear. counts Z.eq_dec.
    + split; [|done]. intros Hk'. auto.
  - intros HkU. apply sorted_app. split_and!; [done| |].
    + apply sorted_app. split_and!; auto.
    + intros x y Hx [Hy|Hy]%elem_of_app; apply HAC; set_solver.
Qed.

(** ** Descending *)

(** The tree [T] of [m] has been rearranged: [tree] points to the root, which is
    still that of [T], above [c]; or [c] itself is the root. *)
Definition placed (h : nat) (m : Mem) (T : tree) (r : ptr) (m1 : Mem) (c : tree) : Prop :=
  (exists ks1 ks2 ts1 ts2, let T1 := Tree (root T) (ks1 ++ ks2) (ts1 ++ c :: ts2) in
     r = Some (root T) /\ length ts1 = length ks1 /\ length ts2 = length ks2 /\
     bt (S h) m1 T1 /\ NoDup (locs T1) /\ moves m (locs T) m1 (locs T1) /\ keys T1 = keys T) \/
  (r = Some (root c) /\ length (node_keys T) = 1%nat /\ bt h m1 c /\ NoDup (locs c) /\
   moves m (locs T) m1 (locs c) /\ keys c = keys T).

Lemma placed_bt h m T r m1 c : placed h m T r m1 c -> bt h m1 c /\ NoDup (locs c).
Proof.
  intros [(ks1 & ks2 & ts1 & ts2 & _ & _ & _ & HT & Hnd & _)|(_ & _ & Hc & Hnd & _)]; [|done].
  split; [by eapply child_bt|by eapply child_NoDup].
Qed.

(** Deleting from the child deletes from the tree. *)
Lemma removed_placed h m T r m1 c key m' r' :
  placed h m T r m1 c -> (2 <= length (node_keys c))%nat ->
  (sorted (keys T) -> key ∈ keys T -> key ∈ keys c) ->
  (key ∉ upper (S h) T -> key ∉ upper h c) ->
  removed h m1 c key r' m' -> removed (S h) m T key r m'.
Proof.
  intros Hpl Hc2 Hin HU (L' & l' & _ & Hmv & Hrem & Hbig).
  destruct (Hbig Hc2) as (c' & _ & Hroot & Hc' & Hnd' & <- & <-).
  destruct Hpl as [(ks1 & ks2 & ts1 & ts2 & -> & H1 & H2 & HT & Hnd & Hmv1 & Hk)|
                   (-> & Hone & Hc & Hnd & Hmv1 & Hk)].
  - destruct (child_moves h m1 m' (root T) (ks1 ++ ks2) ts1 ts2 c c') as (HT' & HndT & HmvT); try done.
    set (T' := Tree (root T) (ks1 ++ ks2) (ts1 ++ c' :: ts2)) in *.
    exists (locs T'), (keys T'). split_and!.
    + by apply (tree_in_root _ (S h) T').
    + by eapply moves_trans.
    + rewrite <- Hk in *. unfold T'. rewrite !keys_at in * by done.
      eapply rem_around; [exact Hin|exact HU|exact Hrem].
    + intros _. by exists T'.
  - exists (locs c'), (keys c'). split_and!.
    + rewrite <- Hroot. by apply (tree_in_root _ h).
    + by eapply moves_trans.
    + rewrite <- Hk. destruct Hrem as [Hlen Hrem]. split; [done|].
      intros Hs. destruct (Hrem Hs) as [Ha Hb]. auto.
    + lia.
Qed.

Lemma descend_ok h fuel m T r m1 c key :
  remove_works h fuel -> placed h m T r m1 c -> (2 <= length (node_keys c))%nat ->
  (sorted (keys T) -> key ∈ keys T -> key ∈ keys c) ->
  (key ∉ upper (S h) T -> key ∉ upper h c) ->
  runs (BTree_recursive_remove fuel (Some (root c)) key;; mret r) m1 (removed (S h) m T key).
Proof.
  intros IH Hpl Hc2 Hin HU. destruct (placed_bt _ _ _ _ _ _ Hpl) as [Hc Hnd].
  apply runs_bind. eapply runs_mono; [by apply IH|]. intros r' m' Hr. apply runs_ret.
  by eapply removed_placed.
Qed.

(** Merging two children, below the root or into it. *)
Lemma merge_placed h m p ks1 k ks2 ts1 lp a lts rp b rts ts2
    (T := Tree p (ks1 ++ k :: ks2) (ts1 ++ Tree lp [a] lts :: Tree rp [b] rts :: ts2))
    (c := Tree lp [a; k; b] (lts ++ rts)) :
  bt (S h) m T -> NoDup (locs T) -> length ts1 = length ks1 -> length ts2 = length ks2 ->
  runs (BTree_merge_child (Some p) (Some p) (Z.of_nat (length ks1))) m (fun r m1 =>
    placed h m T r m1 c) /\
  keys c = keys (Tree lp [a] lts) ++ k :: keys (Tree rp [b] rts) /\
  (forall x, x ∈ upper h c -> x ∈ upper (S h) T).
Proof.
  intros HT Hnd H1 H2.
  destruct (neighbours_nodes h m p lp rp ks1 ks2 [a] [b] k ts1 ts2 lts rts HT)
    as (_ & _ & _ & Hls & Hrs & _ & _).
  assert (keys c = keys (Tree lp [a] lts) ++ k :: keys (Tree rp [b] rts)) as Hk.
  { apply merge_keys. by apply subs_both with h m. }
  split_and!; [|done|].
  - destruct (decide (ks1 = [] /\ ks2 = [])) as [[-> ->]|Hne].
    + destruct ts1, ts2; try discriminate. eapply runs_mono; [by apply (merge_root_tree h)|].
      intros t m' (-> & Hc & Hndc & Hmv). right. split_and!; try done.
    + eapply runs_mono.
      { apply (merge_tree h m p lp rp ks1 ks2 a k b ts1 ts2 lts rts HT Hnd H1 H2 (Some p)).
        destruct ks1, ks2; cbn; try lia. by destruct Hne. }
      intros t m' (-> & HT' & Hnd' & Hmv). left. exists ks1, ks2, ts1, ts2. split_and!; try done.
      unfold T. rewrite keys_at, keys_between, Hk by done. flat.
  - intros x. apply upper_sub.
    + intros y Hy. rewrite !elem_of_cons in Hy. destruct Hy as [->|[->|[->|[]%elem_of_nil]]].
      * right. exists (Tree lp [a] lts). set_solver.
      * left. set_solver.
      * right. exists (Tree rp [b] rts). set_solver.
    + intros u [Hu|Hu]%elem_of_app;
        [exists (Tree lp [a] lts) | exists (Tree rp [b] rts)]; (split; [|done]); set_solver.
Qed.

(** [enriched h m T c r m1]: the child [c] of [T] now has two keys at least. *)
Definition enriched (h : nat) (m : Mem) (T c : tree) (r : ptr * ptr) (m1 : Mem) : Prop :=
  exists c1, r.2 = Some (root c1) /\ placed h m T r.1 m1 c1 /\ (2 <= length (node_keys c1))%nat /\
    (forall x, x ∈ keys c -> x ∈ keys c1) /\ (forall x, x ∈ upper h c1 -> x ∈ upper (S h) T).

Lemma borrow_right_enriched h m p ks1 k ks2 ts1 lp a lts rp b rks rts ts2
    (c := Tree lp [a] lts) (T := Tree p (ks1 ++ k :: ks2) (ts1 ++ c :: Tree rp (b :: rks) rts :: ts2)) :
  bt (S h) m T -> NoDup (locs T) -> length ts1 = length ks1 -> length ts2 = length ks2 ->
  (1 <= length rks)%nat ->
  runs (borrow_right (Some p) (Some lp) (Some rp) (Z.of_nat (length ks1))) m
    (fun _ m1 => enriched h m T c (Some p, Some lp) m1).
Proof.
  intros HT Hnd H1 H2 Hrk.
  destruct (neighbours_nodes h m p lp rp ks1 ks2 [a] (b :: rks) k ts1 ts2 lts rts HT)
    as (_ & _ & _ & Hls & Hrs & _ & _).
  destruct (borrow_right_keys lp rp a k b rks lts rts (subs_both _ _ _ _ _ _ Hls Hrs)) as (e & Ec & Er).
  eapply runs_mono; [by apply (borrow_right_tree h)|]. intros _ m1 (HT' & Hnd' & Hmv).
  exists (Tree lp [a; k] (lts ++ take 1 rts)). split_and!; [done| |cbn; lia| |].
  - left. exists ks1, (b :: ks2), ts1, (Tree rp rks (drop 1 rts) :: ts2).
    split_and!; try done; [cbn; lia|]. unfold T, c. rewrite !keys_between by done.
    rewrite Ec, Er. flat.
  - intros x Hx. rewrite Ec, elem_of_app. by left.
  - intros x. apply upper_sub.
    + intros y Hy. rewrite !elem_of_cons in Hy. destruct Hy as [->|[->|[]%elem_of_nil]].
      * right. exists c. set_solver.
      * left. set_solver.
    + intros u [Hu|Hu]%elem_of_app; [exists c; set_solver|].
      exists (Tree rp (b :: rks) rts). split; [set_solver|].
      cbn. rewrite <- (take_drop 1 rts). apply elem_of_app. by left.
Qed.

Lemma borrow_left_enriched h m p ks1 k ks2 ts1 lp lks b lts rp a rts ts2
    (c := Tree rp [a] rts) (T := Tree p (ks1 ++ k :: ks2) (ts1 ++ Tree lp (lks ++ [b]) lts :: c :: ts2)) :
  bt (S h) m T -> NoDup (locs T) -> length ts1 = length ks1 -> length ts2 = length ks2 ->
  (1 <= length lks)%nat ->
  runs (borrow_left (Some p) (Some rp) (Some lp) (Z.of_nat (length ks1) + 1)) m
    (fun _ m1 => enriched h m T c (Some p, Some rp) m1).
Proof.
  intros HT Hnd H1 H2 Hlk.
  destruct (neighbours_nodes h m p lp rp ks1 ks2 (lks ++ [b]) [a] k ts1 ts2 lts rts HT)
    as (_ & _ & _ & Hls & Hrs & _ & _).
  rewrite length_app, Nat.add_1_r in Hls.
  destruct (borrow_left_keys lp rp a k b lks lts rts (subs_both _ _ _ _ _ _ Hls Hrs)) as (e & Ec & El).
  eapply runs_mono; [by apply (borrow_left_tree h)|]. intros _ m1 (HT' & Hnd' & Hmv).
  set (l' := Tree lp lks (take (S (length lks)) lts)) in *.
  exists (Tree rp [k; a] (drop (S (length lks)) lts ++ rts)). split_and!; [done| |cbn; lia| |].
  - left. exists (ks1 ++ [b]), ks2, (ts1 ++ [l']), ts2.
    rewrite <- !app_assoc. split_and!; try done; [rewrite !length_app; cbn; lia|].
    unfold T, c. cbn [app]. rewrite !keys_between by done. rewrite Ec, El. flat.
  - intros x Hx. rewrite Ec, elem_of_app, elem_of_cons. auto.
  - intros x. apply upper_sub.
    + intros y Hy. rewrite !elem_of_cons in Hy. destruct Hy as [->|[->|[]%elem_of_nil]].
      * left. set_solver.
      * right. exists c. set_solver.
    + intros u [Hu|Hu]%elem_of_app; [|exists c; set_solver].
      exists (Tree lp (lks ++ [b]) lts). split; [set_solver|].
      cbn. rewrite <- (take_drop (S (length lks)) lts). apply elem_of_app. by right.
Qed.

(** The merged node serves as the left or as the right of the two children. *)
Lemma merge_enriched h m p ks1 k ks2 ts1 lp a lts rp b rts ts2 c
    (T := Tree p (ks1 ++ k :: ks2) (ts1 ++ Tree lp [a] lts :: Tree rp [b] rts :: ts2)) :
  bt (S h) m T -> NoDup (locs T) -> length ts1 = length ks1 -> length ts2 = length ks2 ->
  c = Tree lp [a] lts \/ c = Tree rp [b] rts ->
  runs (BTree_merge_child (Some p) (Some p) (Z.of_nat (length ks1))) m
    (fun r m1 => enriched h m T c (r, Some lp) m1).
Proof.
  intros HT Hnd H1 H2 Hc.
  destruct (merge_placed h m p ks1 k ks2 ts1 lp a lts rp b rts ts2 HT Hnd H1 H2) as (Hrun & Hk & HU).
  eapply runs_mono; [exact Hrun|]. intros r m1 Hpl. eexists. split_and!; [|exact Hpl| | |exact HU].
  - done.
  - cbn. lia.
  - intros x Hx. rewrite Hk, elem_of_app, elem_of_cons. destruct Hc as [-> | ->]; auto.
Qed.

(** ** Siblings *)

Section siblings.
Context (h : nat) (m : Mem) (p : nat) (ks1 ks2 : list Z) (ts1 ts2 : list tree) (c : tree).
Context (Hp : node_at m p (ks1 ++ ks2) (root <$> ts1 ++ c :: ts2)).
Context (H1 : length ts1 = length ks1) (H2 : length ts2 = length ks2).

Lemma left_sibling Q :
  Q (root <$> last ts1) m ->
  runs (if 0 <=? Z.of_nat (length ks1) - 1 then get_child (Some p) (Z.of_nat (length ks1) - 1)
        else mret None) m Q.
Proof using Hp H1.
  clear H2. intros HQ. rewrite <- H1. destruct ts1 as [|l us _] using rev_ind; [by apply runs_ret|].
  rewrite last_snoc in HQ. rewrite length_app, Nat2Z.inj_add, Z.add_simpl_r.
  destruct (Z.leb_spec 0 (Z.of_nat (length us))); [|lia].
  eapply at_child; [exact Hp| |exact HQ]. rewrite <- app_assoc. apply lookup_child.
Qed.

Lemma right_sibling Q :
  Q (root <$> head ts2) m ->
  runs (if Z.of_nat (length ks1) + 1 <=? Z.of_nat (length (ks1 ++ ks2))
        then get_child (Some p) (Z.of_nat (length ks1) + 1) else mret None) m Q.
Proof using Hp H1 H2.
  intros HQ. rewrite length_app, <- H2. destruct ts2 as [|r us]; cbn [length] in *.
  - destruct (Z.leb_spec (Z.of_nat (length ks1) + 1) (Z.of_nat (length ks1 + 0))); [lia|].
    by apply runs_ret.
  - destruct (Z.leb_spec (Z.of_nat (length ks1) + 1) (Z.of_nat (length ks1 + S (length us)))); [|lia].
    replace (Z.of_nat (length ks1) + 1) with (Z.of_nat (length (ts1 ++ [c])))
      by (rewrite length_app; cbn; lia).
    eapply at_child; [exact Hp| |exact HQ].
    change (ts1 ++ c :: r :: us) with (ts1 ++ [c] ++ r :: us). rewrite app_assoc. apply lookup_child.
Qed.

End siblings.

Definition size (ot : option tree) : nat := match ot with Some t => length (node_keys t) | None => 0 end.
Definition in_mem (h : nat) (m : Mem) (ot : option tree) : Prop := forall t, ot = Some t -> bt h m t.

Lemma rich_spec h m ot Q :
  in_mem h m ot -> Q (2 <=? size ot)%nat m -> runs (rich (root <$> ot)) m Q.
Proof.
  intros Ht HQ. destruct ot as [[q ks ts]|]; cbn in *; [|by apply runs_ret].
  specialize (Ht _ eq_refl). apply bt_unfold in Ht as (Hq & _). unfold rich. cbn [nonnull].
  apply runs_bind. eapply at_keynum; [exact Hq|]. apply runs_ret.
  replace (BTree_D <=? Z.of_nat (length ks)) with (2 <=? length ks)%nat; [done|].
  unfold BTree_D. destruct (Nat.leb_spec 2 (length ks)), (Z.leb_spec 2 (Z.of_nat (length ks))); lia.
Qed.

Lemma poor_spec h m ot Q :
  in_mem h m ot -> Q (size ot =? 1)%nat m -> runs (poor (root <$> ot)) m Q.
Proof.
  intros Ht HQ. destruct ot as [[q ks ts]|]; cbn in *; [|by apply runs_ret].
  specialize (Ht _ eq_refl). apply bt_unfold in Ht as (Hq & _). unfold poor. cbn [nonnull].
  apply runs_bind. eapply at_keynum; [exact Hq|]. apply runs_ret.
  replace (Z.of_nat (length ks) =? BTree_D - 1) with (length ks =? 1)%nat; [done|].
  unfold BTree_D. destruct (Nat.eqb_spec (length ks) 1), (Z.eqb_spec (Z.of_nat (length ks)) (2 - 1)); lia.
Qed.

(** ** A second key for the child *)

Section enrich.
Context (h : nat) (m : Mem) (p cp : nat) (a : Z) (ks1 ks2 : list Z) (ts1 ts2 cts : list tree).
Let c := Tree cp [a] cts.
Let T := Tree p (ks1 ++ ks2) (ts1 ++ c :: ts2).
Context (HT : bt (S h) m T) (Hnd : NoDup (locs T)).
Context (H1 : length ts1 = length ks1) (H2 : length ts2 = length ks2).

Lemma sibling_trees : in_mem h m (last ts1) /\ in_mem h m (head ts2).
Proof using HT.
  clear Hnd H1 H2. apply bt_unfold in HT as (_ & _ & _ & Hts). apply Forall_app in Hts as [Ht1 Hts].
  apply Forall_cons in Hts as [_ Ht2]. rewrite Forall_forall in Ht1, Ht2. split; intros t Ht.
  - apply last_Some in Ht as [us ->]. apply Ht1, elem_of_app. right. left.
  - destruct ts2; [discriminate|]. injection Ht as ->. apply Ht2. left.
Qed.

Lemma go_right :
  (2 <= size (head ts2))%nat ->
  runs (borrow_right (Some p) (Some cp) (root <$> head ts2) (Z.of_nat (length ks1))) m
    (fun _ m1 => enriched h m T c (Some p, Some cp) m1).
Proof using HT Hnd H1 H2.
  intros Hr. unfold T in *. destruct ts2 as [|[rp rks rts] us]; cbn in Hr; [lia|].
  destruct ks2 as [|k qs]; [discriminate|]. destruct rks as [|b rks]; cbn in Hr; [lia|].
  injection H2 as H2'. apply borrow_right_enriched; try done. lia.
Qed.

Lemma go_left :
  (2 <= size (last ts1))%nat ->
  runs (borrow_left (Some p) (Some cp) (root <$> last ts1) (Z.of_nat (length ks1))) m
    (fun _ m1 => enriched h m T c (Some p, Some cp) m1).
Proof using HT Hnd H1 H2.
  intros Hl. unfold T in *. destruct ts1 as [|[lp lks lts] us _] using rev_ind; [cbn in Hl; lia|].
  rewrite last_snoc in *. cbn [size node_keys] in Hl.
  destruct ks1 as [|k qs _] using rev_ind; rewrite !length_app in H1; cbn in H1; [lia|].
  destruct lks as [|b lks _] using rev_ind; rewrite ?length_app in Hl; cbn in Hl; [lia|].
  rewrite length_app, Nat2Z.inj_add. rewrite <- !app_assoc in *.
  apply borrow_left_enriched; try done; lia.
Qed.

Lemma go_merge :
  (forall t, last ts1 = Some t -> length (node_keys t) = 1%nat) ->
  (forall t, head ts2 = Some t -> length (node_keys t) = 1%nat) ->
  runs (if (size (last ts1) =? 1)%nat then
          tree ← BTree_merge_child (Some p) (Some p) (Z.of_nat (length ks1) - 1);
          mret (tree, root <$> last ts1)
        else if (size (head ts2) =? 1)%nat then
          tree ← BTree_merge_child (Some p) (Some p) (Z.of_nat (length ks1));
          mret (tree, Some cp)
        else mret (Some p, Some cp)) m (enriched h m T c).
Proof using HT Hnd H1 H2.
  intros Hl Hr. unfold T in *. destruct ts1 as [|[lp lks lts] us _] using rev_ind.
  - destruct ks1; [|discriminate]. cbn [last size Nat.eqb]. destruct ts2 as [|[rp rks rts] us].
    { destruct ks2; [|discriminate]. apply bt_unfold in HT as (_ & Hk & _). cbn in Hk. lia. }
    specialize (Hr _ eq_refl). cbn in Hr. explode rks. destruct ks2 as [|k qs]; [discriminate|].
    injection H2 as H2'. cbn [head size node_keys length Nat.eqb]. apply runs_bind.
    eapply runs_mono; [apply (merge_enriched h m p [] k qs [] cp a cts rp x rts us c); try done; by left|].
    intros r m1 Hen. by apply runs_ret.
  - rewrite last_snoc in *. specialize (Hl _ eq_refl). cbn in Hl. explode lks.
    cbn [size node_keys length Nat.eqb].
    destruct ks1 as [|k qs _] using rev_ind; rewrite !length_app in H1; cbn in H1; [lia|].
    rewrite length_app, Nat2Z.inj_add, Z.add_simpl_r. rewrite <- !app_assoc in *.
    apply runs_bind. eapply runs_mono; [apply (merge_enriched h m p qs k ks2 us lp x lts cp a cts ts2 c); try done;
      first [lia | by right]|].
    intros r m1 Hen. by apply runs_ret.
Qed.

End enrich.

(** Which sibling lends a key: the richer one, the right one if they are even. *)
Lemma borrow_ok h m p cp a ks1 ks2 ts1 ts2 cts (c := Tree cp [a] cts)
    (T := Tree p (ks1 ++ ks2) (ts1 ++ c :: ts2)) :
  bt (S h) m T -> NoDup (locs T) -> length ts1 = length ks1 -> length ts2 = length ks2 ->
  (2 <= size (last ts1) \/ 2 <= size (head ts2))%nat ->
  runs (richR ← (if nonnull (root <$> last ts1) && nonnull (root <$> head ts2) then
                   rn ← get_keynum (root <$> head ts2);
                   ln ← get_keynum (root <$> last ts1);
                   mret (cmp rn ln)
                 else mret (if nonnull (root <$> head ts2) then 1 else 0));
        (if (2 <=? size (head ts2))%nat && negb (richR =? 0)
         then borrow_right (Some p) (Some cp) (root <$> head ts2) (Z.of_nat (length ks1))
         else borrow_left (Some p) (Some cp) (root <$> last ts1) (Z.of_nat (length ks1)));;
        mret (Some p, Some cp)) m (enriched h m T c).
Proof.
  intros HT Hnd H1 H2 Hrich.
  destruct (sibling_trees h m p cp a ks1 ks2 ts1 ts2 cts HT) as [Hl Hr].
  assert (forall v, (v = 0 -> (2 <= size (last ts1))%nat) ->
    ((size (head ts2) < 2)%nat -> (2 <= size (last ts1))%nat) ->
    runs ((if (2 <=? size (head ts2))%nat && negb (v =? 0)
           then borrow_right (Some p) (Some cp) (root <$> head ts2) (Z.of_nat (length ks1))
           else borrow_left (Some p) (Some cp) (root <$> last ts1) (Z.of_nat (length ks1)));;
          mret (Some p, Some cp)) m (enriched h m T c)) as Hgo.
  { intros v Hv Hs. apply runs_bind.
    apply (runs_mono _ _ (fun _ m1 => enriched h m T c (Some p, Some cp) m1));
      [|intros _ m1; apply runs_ret].
    destruct (Nat.leb_spec 2 (size (head ts2))); [destruct (Z.eqb_spec v 0)|]; cbn [andb negb];
      first [by apply go_right | apply go_left; auto]. }
  apply runs_bind.
  destruct (last ts1) as [[lp lks lts]|] eqn:El, (head ts2) as [[rp rks rts]|] eqn:Er;
    cbn [fmap option_fmap option_map nonnull andb size node_keys] in *; try (apply runs_ret, Hgo; lia).
  specialize (Hl _ eq_refl). specialize (Hr _ eq_refl).
  apply bt_unfold in Hl as (Hl & _), Hr as (Hr & _).
  apply runs_bind. eapply at_keynum; [exact Hr|]. apply runs_bind. eapply at_keynum; [exact Hl|].
  apply runs_ret, Hgo; [|lia]. unfold cmp.
  destruct (Z.leb_spec 0 (Z.of_nat (length rks) - Z.of_nat (length lks))); lia.
Qed.

Lemma enrich_ok h m p ks1 ks2 ts1 c ts2 (T := Tree p (ks1 ++ ks2) (ts1 ++ c :: ts2)) :
  bt (S h) m T -> NoDup (locs T) -> length ts1 = length ks1 -> length ts2 = length ks2 ->
  runs (enrich_child (Some p) (Some p) (Some (root c)) (Z.of_nat (length ks1))) m (enriched h m T c).
Proof.
  intros HT Hnd H1 H2. pose proof HT as (Hp & _)%bt_unfold.
  pose proof (child_bt _ _ _ _ _ _ _ HT) as Hc. destruct c as [cp cks cts].
  pose proof Hc as (Hcp & Hck & _)%bt_unfold. unfold enrich_child. cbn [root].
  apply runs_bind. eapply at_keynum; [exact Hcp|].
  destruct (Z.eqb_spec (Z.of_nat (length cks)) (BTree_D - 1)) as [Hone|Hmore]; unfold BTree_D in *.
  - assert (length cks = 1%nat) as E by lia. explode cks.
    destruct (sibling_trees h m p cp x ks1 ks2 ts1 ts2 cts HT) as [Hl Hr].
    apply runs_bind. eapply at_keynum; [exact Hp|].
    apply runs_bind. eapply left_sibling; [exact Hp|done|].
    apply runs_bind. eapply right_sibling; [exact Hp|done|done|].
    apply runs_bind. eapply rich_spec; [exact Hl|].
    apply runs_bind. eapply rich_spec; [exact Hr|].
    destruct ((2 <=? size (last ts1)) || (2 <=? size (head ts2)))%nat eqn:Erich.
    + apply orb_true_iff in Erich. rewrite !Nat.leb_le in Erich. by apply borrow_ok.
    + apply orb_false_iff in Erich as [El Er]. apply Nat.leb_gt in El, Er.
      assert (forall ot, in_mem h m ot -> (size ot < 2)%nat ->
        forall t, ot = Some t -> length (node_keys t) = 1%nat) as Hsize.
      { intros ot Hot Hs [q ks ts] ->. specialize (Hot _ eq_refl).
        apply bt_unfold in Hot as (_ & ? & _). cbn in *. lia. }
      pose proof (Hsize _ Hl El) as Hl1. pose proof (Hsize _ Hr Er) as Hr1.
      apply runs_bind. eapply poor_spec; [exact Hl|]. apply runs_bind. eapply poor_spec; [exact Hr|].
      replace (_ && _) with true; [by apply go_merge|].
      destruct (last ts1) as [t|] eqn:E1, (head ts2) as [t'|] eqn:E2;
        cbn [fmap option_fmap option_map nonnull negb orb andb size];
        rewrite ?(Hl1 _ eq_refl), ?(Hr1 _ eq_refl); done.
  - apply runs_ret. exists (Tree cp cks cts). split_and!; try done; [|cbn; lia|].
    + left. by exists ks1, ks2, ts1, ts2.
    + intros y. apply upper_sub; intros u Hu;
        [right|]; exists (Tree cp cks cts); set_solver.
Qed.

(** ** A key moved up in place of the deleted one *)

Lemma rem_left key k' A e e' B U U' :
  k' ∈ e -> rem k' e e' U -> (sorted e -> key ∉ U' -> k' ∉ U /\ forall x, x ∈ e -> x <= k') ->
  rem key (A ++ e ++ key :: B) (A ++ e' ++ k' :: B) U'.
Proof.
  intros Hk' [Hlen He] HU. split; [repeat (rewrite length_app; cbn [length]); lia|]. intros Hs.
  pose proof Hs as (HsA & Hs2 & HA)%sorted_app.
  apply sorted_app in Hs2 as (Hse & HsB & HeB). destruct (He Hse) as [[[_ HP]|[? _]] Hsort]; [|done].
  assert (forall x, x ∈ e' -> x ∈ e) as Hsub by (intros x Hx; rewrite HP; by right).
  split.
  - left. split; [set_solver|]. rewrite HP. clear. counts Z.eq_dec.
  - intros HkU. destruct (HU Hse HkU) as [HkU' Hmax]. apply StronglySorted_inv in HsB as [HsB HkB].
    rewrite Forall_forall in HkB. assert (k' <= key) by (apply HeB; [done|left]).
    apply sorted_app. split_and!; [done| |].
    + apply sorted_app. split_and!; [auto| |].
      * constructor; [done|]. apply Forall_forall. intros x Hx. specialize (HkB x Hx). lia.
      * intros x y Hx [->|Hy]%elem_of_cons; [auto|]. apply HeB; [auto|by right].
    + intros x y Hx [Hy|[->|Hy]%elem_of_cons]%elem_of_app; apply HA; set_solver.
Qed.

Lemma rem_right key k' A e e' B U U' :
  k' ∈ e -> rem k' e e' U -> (sorted e -> key ∉ U' -> k' ∉ U /\ forall x, x ∈ e -> k' <= x) ->
  rem key (A ++ key :: e ++ B) (A ++ k' :: e' ++ B) U'.
Proof.
  intros Hk' [Hlen He] HU. split; [repeat (rewrite length_app; cbn [length]); lia|]. intros Hs.
  pose proof Hs as (HsA & Hs2 & HA)%sorted_app.
  apply StronglySorted_inv in Hs2 as [Hs2 Hkey]. rewrite Forall_forall in Hkey.
  apply sorted_app in Hs2 as (Hse & HsB & HeB). destruct (He Hse) as [[[_ HP]|[? _]] Hsort]; [|done].
  assert (forall x, x ∈ e' -> x ∈ e) as Hsub by (intros x Hx; rewrite HP; by right).
  split.
  - left. split; [set_solver|]. rewrite HP. clear. counts Z.eq_dec.
  - intros HkU. destruct (HU Hse HkU) as [HkU' Hmin].
    apply sorted_app. split_and!; [done| |].
    + constructor; [apply sorted_app; split_and!; auto|]. apply Forall_forall.
      intros x [Hx|Hx]%elem_of_app; auto.
    + intros x y Hx [->|[Hy|Hy]%elem_of_app]%elem_of_cons; apply HA; set_solver.
Qed.

(** The node keys of a tree are among its keys. *)
Lemma node_key_in h m t k : bt h m t -> k ∈ node_keys t -> k ∈ keys t.
Proof.
  destruct t as [p ks ts]. intros HT Hk. cbn in Hk.
  apply list_elem_of_split in Hk as (l1 & l2 & ->). by eapply key_of_node.
Qed.

Lemma leaf_keys m t : bt 0 m t -> keys t = node_keys t.
Proof. destruct t as [p ks ts]. intros (_ & _ & ->)%bt_unfold. done. Qed.

(** The state after [node->key[index] = k']. *)
Section replace.
Context (h fuel : nat) (IH : remove_works h fuel) (m : Mem) (p : nat) (ks1 ks2 : list Z) (key : Z).
Context (ts1 ts2 : list tree) (l r : tree).
Let T := Tree p (ks1 ++ key :: ks2) (ts1 ++ l :: r :: ts2).
Context (HT : bt (S h) m T) (Hnd : NoDup (locs T)).
Context (H1 : length ts1 = length ks1) (H2 : length ts2 = length ks2).

Lemma replaced k' m1 (T1 := Tree p (ks1 ++ k' :: ks2) (ts1 ++ l :: r :: ts2)) :
  node_at m1 p (ks1 ++ k' :: ks2) (root <$> ts1 ++ l :: r :: ts2) ->
  room m1 = room m -> same_but [p] m m1 ->
  bt (S h) m1 T1 /\ NoDup (locs T1) /\ moves m (locs T) m1 (locs T1).
Proof using HT Hnd.
  clear IH H1 H2. intros Hp' Hroom Hsame. pose proof HT as (_ & Hk & Hl & Hts)%bt_unfold.
  split_and!; [|done|].
  - apply bt_unfold. rewrite !length_app in *. cbn in *. split_and!; [done|lia|lia|].
    eapply bt_all_frame; [|exact Hts]. intros q Hq. apply Hsame.
    apply NoDup_cons in Hnd as [Hnp _]. intros ->%list_elem_of_singleton. done.
  - split; try done; [|unfold T, T1; cbn; lia]. intros q Hq _. apply Hsame.
    intros ->%list_elem_of_singleton. apply Hq. left.
Qed.

(** Keys above the leaves only: the children of [T] are leaves. *)
Lemma upper_found : key ∉ upper (S h) T -> h = O.
Proof using.
  clear. intros HU. destruct h; [done|]. exfalso. apply HU, elem_of_upper. split; [done|].
  left. apply elem_of_app. right. left.
Qed.

(** Case 2.1. *)
Lemma left_taken leftKey lks :
  node_keys l = lks ++ [leftKey] -> (1 <= length lks)%nat ->
  runs (set_key (Some p) (Z.of_nat (length ks1)) leftKey;;
        BTree_recursive_remove fuel (Some (root l)) leftKey;; mret (Some p)) m (fun t m' =>
    t = Some p /\ exists l', let T' := Tree p (ks1 ++ leftKey :: ks2) (ts1 ++ l' :: r :: ts2) in
      bt (S h) m' T' /\ NoDup (locs T') /\ moves m (locs T) m' (locs T') /\
      rem leftKey (keys l) (keys l') (upper h l)).
Proof using IH HT Hnd.
  clear H1 H2. intros El Hlk. pose proof HT as (Hp & _)%bt_unfold.
  apply runs_bind. eapply at_set_key; [exact Hp|].
  intros m1 Hp' Hroom Hsame. destruct (replaced leftKey m1 Hp' Hroom Hsame) as (HT1 & Hnd1 & Hmv1).
  apply runs_bind. eapply runs_mono; [apply IH; [by eapply child_bt|by eapply child_NoDup]|].
  intros r' m' (L' & l' & _ & Hmv & Hrem & Hbig). apply runs_ret. split; [done|].
  destruct Hbig as (t' & _ & Hroot & Ht' & Hnd' & <- & <-); [rewrite El, length_app; cbn; lia|].
  destruct (child_moves h m1 m' p _ ts1 (r :: ts2) l t' HT1 Hnd1) as (HT' & HndT & HmvT); try done.
  exists t'. split_and!; try done. by eapply moves_trans.
Qed.

Lemma take_left leftKey lks :
  node_keys l = lks ++ [leftKey] -> (1 <= length lks)%nat ->
  runs (set_key (Some p) (Z.of_nat (length ks1)) leftKey;;
        BTree_recursive_remove fuel (Some (root l)) leftKey;; mret (Some p)) m (removed (S h) m T key).
Proof using IH HT Hnd H1 H2.
  intros El Hlk. pose proof (child_bt _ _ _ _ _ _ _ HT) as Hl.
  eapply runs_mono; [by apply (left_taken leftKey lks)|].
  intros t m' (-> & l' & HT' & HndT & HmvT & Hrem).
  set (T' := Tree p (ks1 ++ leftKey :: ks2) (ts1 ++ l' :: r :: ts2)) in *.
  exists (locs T'), (keys T'). split_and!; [|done| |].
  - by apply (tree_in_root _ (S h) T').
  - unfold T, T'. rewrite !keys_between by done. apply rem_left with (upper h l); [|done|].
    + apply (node_key_in _ _ _ _ Hl). rewrite El. apply elem_of_app. right. left.
    + intros Hs ->%upper_found. split; [apply not_elem_of_nil|].
      rewrite (leaf_keys _ _ Hl), El in *. apply sorted_app in Hs as (_ & _ & Hs).
      intros x [Hx|Hx%list_elem_of_singleton]%elem_of_app; [apply Hs; [done|left]|lia].
  - intros _. by exists T'.
Qed.

(** Case 2.2. *)
Lemma take_right rightKey rks :
  node_keys r = rightKey :: rks -> (1 <= length rks)%nat ->
  runs (set_key (Some p) (Z.of_nat (length ks1)) rightKey;;
        BTree_recursive_remove fuel (Some (root r)) rightKey;; mret (Some p)) m (removed (S h) m T key).
Proof using IH HT Hnd H1 H2.
  intros Er Hrk. pose proof HT as (Hp & _)%bt_unfold. apply runs_bind. eapply at_set_key; [exact Hp|].
  intros m1 Hp' Hroom Hsame. destruct (replaced rightKey m1 Hp' Hroom Hsame) as (HT1 & Hnd1 & Hmv1).
  change (ts1 ++ l :: r :: ts2) with (ts1 ++ [l] ++ r :: ts2) in HT1, Hnd1, Hmv1.
  rewrite app_assoc in HT1, Hnd1, Hmv1.
  pose proof (child_bt _ _ _ _ _ _ _ HT1) as Hr. apply runs_bind.
  eapply runs_mono; [apply IH; [exact Hr|by eapply child_NoDup]|].
  intros r' m' (L' & l' & _ & Hmv & Hrem & Hbig). apply runs_ret.
  destruct Hbig as (t' & _ & Hroot & Ht' & Hnd' & <- & <-); [rewrite Er; cbn; lia|].
  destruct (child_moves h m1 m' p _ (ts1 ++ [l]) ts2 r t' HT1 Hnd1) as (HT' & HndT & HmvT); try done.
  set (T' := Tree p _ _) in HT'. exists (locs T'), (keys T'). split_and!.
  - by apply (tree_in_root _ (S h) T').
  - by eapply moves_trans.
  - unfold T, T'. rewrite <- app_assoc. cbn [app]. rewrite !keys_between by done.
    rewrite !(app_assoc (lefts _ _)). apply rem_right with (upper h r); [|done|].
    + apply (node_key_in _ _ _ _ Hr). rewrite Er. left.
    + intros Hs ->%upper_found. split; [apply not_elem_of_nil|].
      rewrite (leaf_keys _ _ Hr), Er in *. apply StronglySorted_inv in Hs as [_ Hs].
      rewrite Forall_forall in Hs. intros x [->|Hx]%elem_of_cons; [lia|auto].
  - intros _. by exists T'.
Qed.

End replace.

(** ** The whole deletion *)

Lemma rem_here key l1 l2 U : rem key (l1 ++ key :: l2) (l1 ++ l2) U.
Proof.
  split; [rewrite !length_app; cbn; lia|].
  intros (H1 & H2 & H12)%sorted_app. apply StronglySorted_inv in H2 as [H2 _]. split.
  - left. split; [apply elem_of_app; right; left|]. by rewrite Permutation_middle.
  - intros _. apply sorted_app. split_and!; [done..|]. intros x y Hx Hy. apply H12; [done|by right].
Qed.

(** Nothing was found and nothing changed. *)
Lemma removed_none h m t key :
  bt h m t -> NoDup (locs t) -> (sorted (keys t) -> key ∉ keys t) -> removed h m t key (Some (root t)) m.
Proof.
  intros Ht Hnd Hno. exists (locs t), (keys t). split_and!.
  - by apply (tree_in_root _ h).
  - apply moves_refl.
  - split; [done|]. intros Hs. split; [right; auto|done].
  - intros _. by exists t.
Qed.

Lemma remove_leaf_ok m p l1 key l2 (T := Tree p (l1 ++ key :: l2) []) :
  bt 0 m T ->
  runs (remove_from_leaf (Some p) (Some p) (Z.of_nat (length l1))) m (removed 0 m T key).
Proof.
  intros (Hp & _)%bt_unfold. cbn [fmap list_fmap] in Hp. destruct (decide (l1 = [] /\ l2 = [])) as [[-> ->]|Hne].
  - eapply runs_mono; [by apply (remove_last_spec m p key)|]. intros t m' (-> & Hgone & Hroom & Hsame).
    exists [], []. split_and!; [constructor| |apply (rem_here key [] [])|cbn; lia]. split; cbn.
    + intros q Hq _. by apply Hsame.
    + by intros q ->%list_elem_of_singleton.
    + by intros q ?%elem_of_nil.
    + lia.
  - assert (1 <= length l1 + length l2)%nat as Hlen by (destruct l1, l2; cbn; [by destruct Hne|lia..]).
    eapply runs_mono; [by apply (remove_from_leaf_spec m (Some p) p l1 key l2)|]. intros t m' (-> & Hp' & Hroom & Hsame).
    assert (bt 0 m' (Tree p (l1 ++ l2) [])) as HT'.
    { apply bt_unfold. rewrite length_app. split_and!; [done|lia|done]. }
    set (T' := Tree p (l1 ++ l2) []) in *. exists (locs T'), (keys T'). split_and!.
    + apply (tree_in_root _ 0 T' HT'). apply NoDup_singleton.
    + split; try done; [|cbn; lia]. intros q Hq _. by apply Hsame.
    + apply rem_here.
    + intros _. exists T'. split_and!; try done. apply NoDup_singleton.
Qed.

(** Case 2.3. *)
Lemma take_merged h fuel m p ks1 key ks2 ts1 lp a lts rp b rts ts2
    (T := Tree p (ks1 ++ key :: ks2) (ts1 ++ Tree lp [a] lts :: Tree rp [b] rts :: ts2)) :
  remove_works h fuel -> bt (S h) m T -> NoDup (locs T) ->
  length ts1 = length ks1 -> length ts2 = length ks2 ->
  runs (tree ← BTree_merge_child (Some p) (Some p) (Z.of_nat (length ks1));
        BTree_recursive_remove fuel (Some lp) key;; mret tree) m (removed (S h) m T key).
Proof.
  intros IH HT Hnd H1 H2.
  destruct (merge_placed h m p ks1 key ks2 ts1 lp a lts rp b rts ts2 HT Hnd H1 H2) as (Hrun & Hk & HU).
  apply runs_bind. eapply runs_mono; [exact Hrun|]. intros r m1 Hpl.
  apply (descend_ok h fuel m T r m1 _ key IH Hpl); [cbn; lia| |].
  - intros _ _. rewrite Hk. apply elem_of_app. right. left.
  - intros Hno Hin. apply Hno. by apply HU.
Qed.

(** The key is in an inner node. *)
Lemma remove_inner_ok h fuel m p ks1 key ks2 ts (T := Tree p (ks1 ++ key :: ks2) ts) :
  remove_works h fuel -> bt (S h) m T -> NoDup (locs T) ->
  let index := Z.of_nat (length ks1) in
  runs (leftChild ← get_child (Some p) index;
        ln ← get_keynum leftChild;
        if BTree_D <=? ln then
          leftKey ← get_key leftChild (ln - 1);
          set_key (Some p) index leftKey;;
          BTree_recursive_remove fuel leftChild leftKey;;
          mret (Some p)
        else
          rightChild ← get_child (Some p) (index + 1);
          rn ← get_keynum rightChild;
          if BTree_D <=? rn then
            rightKey ← get_key rightChild 0;
            set_key (Some p) index rightKey;;
            BTree_recursive_remove fuel rightChild rightKey;;
            mret (Some p)
          else if (ln =? BTree_D - 1) && (rn =? BTree_D - 1) then
            tree ← BTree_merge_child (Some p) (Some p) index;
            BTree_recursive_remove fuel leftChild key;;
            mret tree
          else mret (Some p)) m (removed (S h) m T key).
Proof.
  intros IH HT Hnd index. pose proof HT as (Hp & _ & Hl & Hts)%bt_unfold.
  destruct (child_of ks1 (key :: ks2) ts Hl) as (ts1 & l & us & -> & H1 & H2).
  destruct us as [|r ts2]; [discriminate|]. injection H2 as H2.
  apply Forall_app in Hts as [_ Hts]. apply Forall_cons in Hts as [Hbl Hts].
  apply Forall_cons in Hts as [Hbr _].
  destruct l as [lp lks lts], r as [rp rks rts].
  pose proof Hbl as (Hlp & Hlk & _)%bt_unfold. pose proof Hbr as (Hrp & Hrk & _)%bt_unfold.
  pose proof (at_length _ _ _ _ Hlp). pose proof (at_length _ _ _ _ Hrp).
  unfold index, BTree_D. rewrite <- H1 at 1. apply runs_bind.
  eapply at_child; [exact Hp|apply lookup_child|]. cbn [root].
  apply runs_bind. eapply at_keynum; [exact Hlp|].
  destruct (Z.leb_spec 2 (Z.of_nat (length lks))) as [Hrich|Hpoor].
  - destruct lks as [|leftKey lks _] using rev_ind; [cbn in Hrich; lia|].
    rewrite length_app in *. cbn [length] in *. rewrite Nat2Z.inj_add, Z.add_simpl_r.
    apply runs_bind. eapply at_key; [exact Hlp|by apply list_lookup_middle|].
    apply (take_left h fuel IH m p ks1 ks2 key ts1 ts2 (Tree lp (lks ++ [leftKey]) lts) _ HT Hnd H1 H2
             leftKey lks); [done|lia].
  - apply runs_bind.
    replace (Z.of_nat (length ks1) + 1) with (Z.of_nat (length (ts1 ++ [Tree lp lks lts])))
      by (rewrite length_app; cbn; lia).
    eapply at_child; [exact Hp| |].
    { change (ts1 ++ ?x :: ?y :: ts2) with (ts1 ++ [x] ++ y :: ts2). rewrite app_assoc. apply lookup_child. }
    cbn [root]. apply runs_bind. eapply at_keynum; [exact Hrp|].
    destruct (Z.leb_spec 2 (Z.of_nat (length rks))) as [Hrich|Hpoor'].
    + destruct rks as [|rightKey rks]; [cbn in Hrich; lia|]. cbn [length] in *.
      apply runs_bind. eapply (at_key _ _ _ _ Hrp 0); [done|].
      apply (take_right h fuel IH m p ks1 ks2 key ts1 ts2 _ (Tree rp (rightKey :: rks) rts) HT Hnd H1 H2
               rightKey rks); [done|lia].
    + assert (length lks = 1 /\ length rks = 1)%nat as [El Er] by lia. explode lks. explode rks.
      cstep. by apply take_merged.
Qed.

Lemma recursive_remove_ok h : forall fuel, (h < fuel)%nat -> remove_works h fuel.
Proof.
  induction h as [|h IH]; intros [|fuel] Hf m [p ks ts] key HT Hnd; try lia;
    cbn [BTree_recursive_remove root]; cbn [nonnull negb]; pose proof HT as (Hp & Hk & Hts)%bt_unfold;
    (apply runs_bind; eapply at_keynum; [exact Hp|]); rewrite Nat2Z.id;
    apply runs_bind; apply (scan_up_spec m p [] ks (root <$> ts)); try done;
    cbn [app]; intros l1 l2 -> Hb; apply runs_bind;
    (eapply found_spec; [exact Hp|intros l2' ->|intros Hne]).
  - subst ts. apply runs_bind. eapply at_isLeaf; [exact Hp|]. by apply remove_leaf_ok.
  - subst ts. apply runs_bind. pose proof (at_length _ _ _ _ Hp) as H3. rewrite length_app in H3.
    eapply at_no_child; [exact Hp|done|lia|]. cbn [nonnull negb]. apply runs_ret.
    apply (removed_none 0 m (Tree p (l1 ++ l2) [])); [done..|]. by apply leaf_absent.
  - destruct Hts as [Hl Hts]. destruct (child_of l1 (key :: l2') ts Hl) as (ts1 & c & ts2 & -> & H1 & H2).
    apply runs_bind. eapply at_isLeaf; [exact Hp|]. rewrite inner_node.
    apply remove_inner_ok; [apply IH; lia|done..].
  - destruct Hts as [Hl Hts]. destruct (child_of l1 l2 ts Hl) as (ts1 & c & ts2 & -> & H1 & H2).
    apply runs_bind. eapply at_child; [exact Hp|rewrite <- H1; apply lookup_child|].
    cbn [nonnull negb]. apply runs_bind. eapply runs_mono; [by apply (enrich_ok h)|].
    intros [r child] m1 (c1 & Hr & Hpl & Hc1 & Hsub & HU). cbn [fst snd] in *. subst child.
    eapply descend_ok; [apply IH; lia|exact Hpl|done| |].
    + rewrite keys_at by done. intros Hs Hin. apply Hsub. by apply around_absent in Hin.
    + intros Hno Hin. apply Hno. by apply HU.
Qed.
