(* ===== verification/BTreeSystem.v ===== *)
(** * B-trees in use

    What the operations of the B-tree do from the outside: trees created from
    an array, any sequence of insertions, deletions and searches, deletion
    from a tree in order, and the deletion that loses another key. *)

From Stdlib Require Import Sorting.Sorted.
From S2P Require Import Prelude BTree BTreeNode BTreeShape BTreeInsert BTreeSearch BTreeRemove.
Import BTree.

(** ** Creation, search and destruction *)

(** Nothing has changed in a memory where nothing is in use. *)
Lemma moves_none m m' : moves m [] m' [] -> m' = m.
Proof.
  intros [F _ _ R]. destruct m as [c r], m' as [c' r']. cbn in *. f_equal; [|lia].
  apply map_eq. intros q. apply F; apply not_elem_of_nil.
Qed.

Lemma tree_in_search m tree L l key fuel :
  tree_in m tree L l -> sorted l -> (length l + 1 < 2 ^ fuel)%nat ->
  runs (BTree_search fuel tree key (-1)) m (fun r m' => m' = m /\
    (if decide (key ∈ l) then located m L key r.1 r.2 else r = (None, -1))).
Proof.
  intros HT Hs Hf. eapply runs_mono; [by apply (search_ok m tree L l)|].
  intros r m' [-> Hr]. split; [done|].
  replace (if nonnull tree then -1 else -1) with (-1) in Hr by (by destruct (nonnull tree)).
  destruct Hr as [[Hloc Hin]|[-> Hno]].
  - by rewrite decide_True.
  - rewrite decide_False; auto.
Qed.

(** C30: [BTree_create] from any array, given memory for a node per element,
    returns a B-tree that holds exactly the elements, in order and without
    repetition; afterwards a search returns the place of each of them and null
    for every other key, and destruction leaves the memory as it was. *)
Theorem btree_create_correct m data fuel :
  (length data <= room m)%nat -> (length data + 1 < 2 ^ fuel)%nat ->
  runs (BTree_create fuel None data) m (fun tree m1 => exists L l,
    tree_in m1 tree L l /\ sorted l /\ NoDup l /\ (forall x, x ∈ l <-> x ∈ data) /\
    moves m [] m1 L /\
    (forall key, runs (BTree_search fuel tree key (-1)) m1 (fun r m2 => m2 = m1 /\
       (if decide (key ∈ data) then located m1 L key r.1 r.2 else r = (None, -1)))) /\
    runs (BTree_destroy fuel tree) m1 (fun t m2 => t = None /\ m2 = m)).
Proof.
  intros Hroom Hf. eapply runs_mono.
  { apply (create_ok fuel data m None [] []); [constructor|constructor|by constructor| |]; cbn; lia. }
  intros tree m1 (L & l & HT & Hmv & Hs & Hnd & Hx). exists L, l.
  assert (forall x, x ∈ l <-> x ∈ data) as Hx'.
  { intros x. rewrite Hx, elem_of_nil. tauto. }
  assert (length l <= length data)%nat as Hlen.
  { apply submseteq_length, NoDup_submseteq; [done|]. intros x. apply Hx'. }
  split_and!; try done.
  - intros key. eapply runs_mono; [by apply (tree_in_search m1 tree L l); [| |lia]|].
    intros r m2 [-> Hr]. split; [done|]. destruct (decide (key ∈ l)) as [Hin|Hin].
    + rewrite decide_True; [done|]. by apply Hx'.
    + rewrite decide_False; [done|]. by rewrite <- Hx'.
  - eapply runs_mono; [by apply (destroy_ok m1 tree L l); [|lia]|].
    intros t m2 [-> Hd]. split; [done|]. by apply moves_none, (moves_trans _ _ m1 L).
Qed.

(** ** Sessions *)

Inductive op := Insert (key : Z) | Remove (key : Z) | Search (key : Z).

Definition run_op (fuel : nat) (tree : ptr) (o : op) : cmd ptr :=
  match o with
  | Insert key => BTree_insert fuel tree key
  | Remove key => BTree_remove fuel tree key
  | Search key => BTree_search fuel tree key (-1);; mret tree
  end.

Fixpoint session (fuel : nat) (tree : ptr) (ops : list op) : cmd ptr :=
  match ops with
  | [] => mret tree
  | o :: ops => tree ← run_op fuel tree o; session fuel tree ops
  end.

Fixpoint inserts (ops : list op) : nat :=
  match ops with
  | [] => 0
  | Insert _ :: ops => S (inserts ops)
  | _ :: ops => inserts ops
  end.

Lemma remove_ok m tree L l key fuel :
  tree_in m tree L l -> (length l + 1 < 2 ^ fuel)%nat ->
  runs (BTree_remove fuel tree key) m (fun tree' m' => exists L' l',
    tree_in m' tree' L' l' /\ moves m L m' L' /\ (length l' <= length l)%nat).
Proof.
  intros [|h t Ht Hnd] Hf; unfold BTree_remove; cbn [nonnull negb].
  - apply runs_ret. exists [], []. split_and!; [constructor|apply moves_refl|done].
  - pose proof (height_fuel _ _ _ _ Ht Hf) as Hh.
    eapply runs_mono; [by apply (recursive_remove_ok h fuel ltac:(lia))|].
    intros r m' (L' & l' & HT & Hmv & [Hlen _] & _). by exists L', l'.
Qed.

(** A step keeps a B-tree a B-tree. *)
Lemma run_op_ok fuel o m tree L l :
  tree_in m tree L l -> (length l + inserts [o] <= room m + length L)%nat ->
  (length l + 1 < 2 ^ fuel)%nat ->
  runs (run_op fuel tree o) m (fun tree' m' => exists L' l',
    tree_in m' tree' L' l' /\ moves m L m' L' /\ (length l' <= length l + inserts [o])%nat).
Proof.
  intros HT Hroom Hf. destruct o as [key|key|key]; cbn in *.
  - eapply runs_mono; [by apply (tree_insert_ok m tree L l)|].
    intros tree' m' (L' & l' & HT' & Hmv & Hins%ins_perm%Permutation_length). exists L', l'.
    cbn in Hins. split_and!; [done..|lia].
  - eapply runs_mono; [by apply (remove_ok m tree L l)|].
    intros tree' m' (L' & l' & HT' & Hmv & Hlen). exists L', l'. split_and!; [done..|lia].
  - apply runs_bind. eapply runs_mono; [by apply (search_ok m tree L l)|].
    intros r m' [-> _]. apply runs_ret. exists L, l. split_and!; [done|apply moves_refl|lia].
Qed.

Lemma inserts_cons o ops : inserts (o :: ops) = (inserts [o] + inserts ops)%nat.
Proof. by destruct o. Qed.

Lemma session_ok fuel ops : forall m tree L l,
  tree_in m tree L l -> (length l + inserts ops <= room m + length L)%nat ->
  (length l + inserts ops + 1 < 2 ^ fuel)%nat ->
  runs (session fuel tree ops) m (fun tree' m' => exists L' l',
    tree_in m' tree' L' l' /\ moves m L m' L' /\ (length l' <= length l + inserts ops)%nat).
Proof.
  induction ops as [|o ops IH]; intros m tree L l HT Hroom Hf; cbn [session].
  - apply runs_ret. exists L, l. split_and!; [done|apply moves_refl|lia].
  - rewrite inserts_cons in *. apply runs_bind.
    eapply runs_mono; [apply (run_op_ok fuel o m tree L l HT); lia|].
    intros tree1 m1 (L1 & l1 & HT1 & Hmv1 & Hlen1). pose proof (mv_room _ _ _ _ Hmv1).
    eapply runs_mono; [apply (IH m1 tree1 L1 l1 HT1); lia|].
    intros tree' m' (L' & l' & HT' & Hmv & Hlen). exists L', l'.
    split_and!; [done|by eapply moves_trans|lia].
Qed.

(** C28: Any sequence of insertions, deletions and searches on the empty tree, in
    any order and with any keys, given memory for a node per insertion, touches
    no memory it does not own and returns; what it leaves is a B-tree, all
    leaves at the same depth with one to three keys per node, and destruction
    then gives all memory back. *)
Theorem btree_session_safe m ops fuel :
  (inserts ops <= room m)%nat -> (inserts ops + 1 < 2 ^ fuel)%nat ->
  runs (session fuel None ops) m (fun tree m1 =>
    (exists L l, tree_in m1 tree L l /\ moves m [] m1 L /\ (length l <= inserts ops)%nat) /\
    runs (BTree_destroy fuel tree) m1 (fun t m2 => t = None /\ m2 = m)).
Proof.
  intros Hroom Hf. eapply runs_mono.
  { apply (session_ok fuel ops m None [] []); [constructor|cbn; lia..]. }
  cbn [length Nat.add]. intros tree m1 (L & l & HT & Hmv & Hlen). split; [by exists L, l|].
  eapply runs_mono; [by apply (destroy_ok m1 tree L l); [|lia]|].
  intros t m2 [-> Hd]. split; [done|]. by apply moves_none, (moves_trans _ _ m1 L).
Qed.

(** ** Deletion *)

(** C29: Deletion from a B-tree whose keys are in order takes out exactly one copy
    of the key, or changes no key when it is not there, and leaves a B-tree in
    memory; nothing else in memory changes and the nodes no longer used are
    free.  The keys stay in order when the key is in no node more than one level
    above the leaves. *)
Theorem btree_remove_correct h m t key fuel :
  bt h m t -> NoDup (locs t) -> sorted (keys t) -> (length (keys t) + 1 < 2 ^ fuel)%nat ->
  runs (BTree_remove fuel (Some (root t)) key) m (fun tree' m' => exists L' l',
    tree_in m' tree' L' l' /\ moves m (locs t) m' L' /\
    (key ∈ keys t /\ keys t ≡ₚ key :: l' \/ key ∉ keys t /\ l' = keys t) /\
    (key ∉ upper h t -> sorted l')).
Proof.
  intros Ht Hnd Hs Hf. pose proof (height_fuel _ _ _ _ Ht Hf) as Hh.
  eapply runs_mono; [by apply (recursive_remove_ok h fuel ltac:(lia))|].
  intros r m' (L' & l' & HT & Hmv & [_ Hrem] & _). destruct (Hrem Hs). by exists L', l'.
Qed.

(** ** A deletion that loses another key *)

(** The position of a key in a node is unique. *)
Lemma before_unique x a b a' b' : before x a b -> before x a' b' -> a ++ b = a' ++ b' -> a = a' /\ b = b'.
Proof.
  revert a'. induction a as [|y a IH]; intros [|y' a'] [Ha Hb] [Ha' Hb'] E; cbn in *; try done.
  - subst b. apply Forall_cons in Ha' as [Hy' _]. specialize (Hb y' eq_refl). lia.
  - subst b'. apply Forall_cons in Ha as [Hy _]. specialize (Hb' y eq_refl). lia.
  - injection E as -> E. apply Forall_cons in Ha as [_ Ha], Ha' as [_ Ha'].
    destruct (IH a') as [-> ->]; done.
Qed.

Lemma strict_sorted l : StronglySorted Z.lt l -> sorted l.
Proof.
  induction 1 as [|x xs _ IH Hx]; constructor; [done|].
  eapply Forall_impl; [exact Hx|]. cbn. lia.
Qed.

Lemma lefts_in ks ts x : length ts = length ks -> x ∈ ks -> x ∈ lefts ks ts.
Proof.
  revert ts. induction ks as [|k ks IH]; intros [|t ts] Hl Hx; try discriminate; [done|].
  injection Hl as Hl. unfold lefts in *. cbn. rewrite !elem_of_app.
  apply elem_of_cons in Hx as [->|Hx]; [left; right; left|right; auto].
Qed.

Lemma rights_head ks ts x : length ts = length ks -> head ks = Some x -> x ∈ rights ks ts.
Proof. destruct ks as [|k ks], ts as [|t ts]; try done. intros _ [= ->]. rewrite rights_cons. left. Qed.

Lemma bt_node h m t : bt h m t -> node_at m (root t) (node_keys t) (root <$> subtrees t).
Proof. destruct t. by intros (? & _)%bt_unfold. Qed.

Section lost.
Context (h : nat) (m : Mem) (p : nat) (ks1 ks2 lks : list Z) (key leftKey : Z).
Context (ts1 ts2 lts : list tree) (lp : nat) (r : tree).
Let l := Tree lp (lks ++ [leftKey]) lts.
Let T := Tree p (ks1 ++ key :: ks2) (ts1 ++ l :: r :: ts2).
Context (HT : bt (S (S h)) m T) (Hnd : NoDup (locs T)).
Context (Hs : StronglySorted Z.lt (keys T)) (Hlk : (1 <= length lks)%nat).
Context (H1 : length ts1 = length ks1) (H2 : length ts2 = length ks2).

(** The keys around the left child, all in strict order. *)
Lemma lost_order :
  (forall x y, x ∈ lefts ks1 ts1 -> y ∈ keys l -> x < y) /\
  (forall x, x ∈ keys l -> x < key) /\
  (forall x y, x ∈ keys l -> y ∈ keys r ++ rights ks2 ts2 -> key < y) /\
  StronglySorted Z.lt (keys l).
Proof using Hs H1 H2.
  pose proof Hs as Hs'. unfold T in Hs'. rewrite keys_between in Hs' by done.
  apply sorted_app in Hs' as (_ & Hs2 & HA). apply sorted_app in Hs2 as (Hsl & Hsr & HL).
  apply StronglySorted_inv in Hsr as [_ Hkey]. rewrite Forall_forall in Hkey. split_and!; [| | |done].
  - intros x y Hx Hy. apply HA; [done|]. apply elem_of_app. by left.
  - intros x Hx. apply HL; [done|left].
  - intros x y _. apply Hkey.
Qed.

(** Some key of the left child is behind the one that moves up. *)
Lemma lost_key : exists x, x ∈ keys l /\ leftKey < x.
Proof using HT Hnd Hs Hlk H1 H2.
  destruct lost_order as (_ & _ & _ & Hsl). pose proof (child_bt _ _ _ _ _ _ _ HT) as Hl.
  apply bt_unfold in Hl as (_ & _ & Hlen & Hts).
  destruct (child_of (lks ++ [leftKey]) [] lts) as (us & z & vs & -> & Hu & Hv).
  { by rewrite app_nil_r. }
  destruct vs; [|discriminate]. unfold l in *.
  pose proof (keys_at lp (lks ++ [leftKey]) [] us z [] Hu eq_refl) as E. rewrite app_nil_r in E.
  rewrite E in *. apply Forall_app in Hts as [_ Hz]. apply Forall_cons in Hz as [Hz _].
  apply bt_height in Hz. destruct (keys z) as [|x xs] eqn:Ez.
  { cbn in Hz. pose proof (Nat.pow_nonzero 2 h). lia. }
  exists x. split; [rewrite !elem_of_app; right; left; left|].
  apply sorted_app in Hsl as (_ & _ & HL). apply HL; [|apply elem_of_app; left; left].
  rewrite length_app in Hu. cbn in Hu.
  destruct us as [|y us _] using rev_ind; [cbn in Hu; lia|]. rewrite length_app in Hu. cbn in Hu.
  rewrite lefts_snoc by lia. rewrite !elem_of_app. right. right. left.
Qed.

(** What is left of the node: [leftKey] in the place of [key], above what
    remains of the left child. *)
Definition lost_tree (l' : tree) : tree := Tree p (ks1 ++ leftKey :: ks2) (ts1 ++ l' :: r :: ts2).

Lemma lost_remove fuel :
  (S (S h) < fuel)%nat ->
  runs (BTree_recursive_remove fuel (Some p) key) m (fun t m' => t = Some p /\ exists l',
    bt (S (S h)) m' (lost_tree l') /\ NoDup (locs (lost_tree l')) /\
    keys l ≡ₚ leftKey :: keys l').
Proof using HT Hnd Hs Hlk H1 H2.
  intros Hf. destruct fuel as [|fuel]; [lia|]. cbn [BTree_recursive_remove nonnull negb].
  pose proof HT as (Hp & _)%bt_unfold. destruct lost_order as (HA & HL & HR & Hsl).
  pose proof (child_bt _ _ _ _ _ _ _ HT) as Hl. pose proof Hl as (Hlp & _)%bt_unfold.
  assert (leftKey ∈ keys l) as Hin.
  { apply (node_key_in _ _ _ _ Hl), elem_of_app. right. left. }
  assert (before key ks1 (key :: ks2)) as Hbef.
  { split; [|by intros x [= <-]]. apply Forall_forall. intros x Hx.
    specialize (HA x leftKey (lefts_in _ _ _ H1 Hx) Hin). specialize (HL leftKey Hin). lia. }
  apply runs_bind. eapply at_keynum; [exact Hp|]. rewrite Nat2Z.id. apply runs_bind.
  apply (scan_up_spec m p [] (ks1 ++ key :: ks2) _ _ _ Hp); [done|].
  cbn [app]. intros l1 l2 E Hb. destruct (before_unique _ _ _ _ _ Hbef Hb E) as [<- <-].
  apply runs_bind. eapply found_spec; [exact Hp| |done]. intros _ _.
  apply runs_bind. eapply at_isLeaf; [exact Hp|]. rewrite inner_node.
  apply runs_bind. eapply at_child; [exact Hp|rewrite <- H1; apply lookup_child|].
  apply runs_bind. eapply at_keynum; [exact Hlp|]. rewrite length_app. cbn [length].
  destruct (Z.leb_spec BTree_D (Z.of_nat (length lks + 1))) as [_|?]; [|unfold BTree_D in *; lia].
  rewrite Nat2Z.inj_add, Z.add_simpl_r.
  apply runs_bind. eapply at_key; [exact Hlp|by apply list_lookup_middle|].
  eapply runs_mono.
  { apply (left_taken (S h) fuel (recursive_remove_ok (S h) fuel ltac:(lia)) m p ks1 ks2 key ts1 ts2 l r
             HT Hnd leftKey lks eq_refl Hlk). }
  intros t m' (-> & l' & HT' & Hnd' & _ & _ & Hrem). split; [done|]. exists l'. split_and!; [done..|].
  by destruct (Hrem (strict_sorted _ Hsl)) as [[[_ HP]|[? _]] _].
Qed.

Lemma lost_search fuel m' l' x :
  (S (S h) < fuel)%nat -> bt (S (S h)) m' (lost_tree l') -> x ∈ keys l -> leftKey < x ->
  runs (BTree_search fuel (Some p) x (-1)) m' (fun res _ => res = (None, -1)).
Proof using HT Hnd Hs Hlk H1 H2.
  intros Hf HT' Hx Hlx. destruct fuel as [|fuel]; [lia|].
  unfold BTree_search. cbn [BTree_recursive_search nonnull negb].
  pose proof HT' as (Hp & _)%bt_unfold. destruct lost_order as (HA & HL & HR & Hsl).
  assert (forall y, y ∈ keys r ++ rights ks2 ts2 -> x < y) as HRx.
  { intros y Hy. specialize (HR x y Hx Hy). specialize (HL x Hx). lia. }
  assert (forall y, head ks2 = Some y -> x < y) as Hhead.
  { intros y Hy. apply HRx, elem_of_app. right. by apply (rights_head _ _ _ H2). }
  assert (before x (ks1 ++ [leftKey]) ks2) as Hbef.
  { split; [|intros y Hy; specialize (Hhead y Hy); lia]. apply Forall_app. split; [|by constructor].
    apply Forall_forall. intros y Hy. apply HA; [by apply (lefts_in _ _ _ H1)|done]. }
  apply runs_bind. eapply at_keynum; [exact Hp|]. rewrite Nat2Z.id. apply runs_bind.
  apply (scan_up_spec m' p [] (ks1 ++ leftKey :: ks2) _ _ _ Hp); [done|].
  cbn [app]. intros l1 l2 E Hb.
  destruct (before_unique x (ks1 ++ [leftKey]) ks2 l1 l2 Hbef Hb) as [<- <-]; [by rewrite <- app_assoc|].
  change (ks1 ++ leftKey :: ks2) with (ks1 ++ [leftKey] ++ ks2) in *. rewrite app_assoc in *.
  apply runs_bind. eapply found_spec; [exact Hp| |intros _].
  { intros ks' E'. rewrite E' in Hhead. specialize (Hhead x eq_refl). lia. }
  apply runs_bind. eapply at_isLeaf; [exact Hp|]. rewrite inner_node.
  replace (length (ks1 ++ [leftKey])) with (length (ts1 ++ [l'])) by (rewrite !length_app; cbn; lia).
  apply runs_bind. eapply at_child; [exact Hp| |].
  { change (ts1 ++ l' :: r :: ts2) with (ts1 ++ [l'] ++ r :: ts2). rewrite app_assoc. apply lookup_child. }
  assert (bt (S h) m' r) as Hr.
  { apply bt_unfold in HT' as (_ & _ & _ & Hts). apply Forall_app in Hts as [_ Hts].
    apply Forall_cons in Hts as [_ Hts]. by apply Forall_cons in Hts as [Hr _]. }
  apply runs_bind. eapply at_disk; [by apply (bt_node (S h))|].
  eapply runs_mono; [apply (recursive_search_ok (S h) fuel m' r x (-1) ltac:(lia) Hr)|].
  intros res m2 (_ & [[_ Hxr]|[-> _]]); [|done].
  specialize (HRx x). rewrite elem_of_app in HRx. specialize (HRx (or_introl Hxr)). lia.
Qed.

End lost.

(** C40: Deleting a key from the root of a tree of three or more levels loses
    another key when the child left of the deleted key has two keys or more:
    the code moves up the last key of that child, which is not the predecessor
    of the deleted one, and after the deletion some key that is still stored is
    found by no search.  (With one key in the child the code looks at the right
    child, and merges the two if that has one key as well.) *)
Theorem btree_remove_loses_key h m p ks1 key ks2 ts1 lp lks leftKey lts ts2 fuel :
  let T := Tree p (ks1 ++ key :: ks2) (ts1 ++ Tree lp (lks ++ [leftKey]) lts :: ts2) in
  bt (S (S h)) m T -> NoDup (locs T) -> StronglySorted Z.lt (keys T) ->
  length ts1 = length ks1 -> (1 <= length lks)%nat -> (length (keys T) + 1 < 2 ^ fuel)%nat ->
  runs (BTree_remove fuel (Some p) key) m (fun tree' m' => exists L' l' x,
    tree_in m' tree' L' l' /\ x ∈ l' /\ x ∈ keys T /\
    runs (BTree_search fuel tree' x (-1)) m' (fun res _ => res = (None, -1))).
Proof.
  intros T HT Hnd Hs H1 Hlk Hf. pose proof (height_fuel _ _ _ _ HT Hf) as Hh.
  assert (length ts2 = S (length ks2)) as H2.
  { apply bt_unfold in HT as (_ & _ & Hl & _). rewrite !length_app in Hl. cbn in Hl. lia. }
  destruct ts2 as [|r ts2]; [discriminate|]. injection H2 as H2.
  destruct (lost_key h m p ks1 ks2 lks key leftKey ts1 ts2 lts lp r HT Hnd Hs Hlk H1 H2) as (x & Hx & Hlx).
  eapply runs_mono.
  { apply (lost_remove h m p ks1 ks2 lks key leftKey ts1 ts2 lts lp r HT Hnd Hs Hlk H1 H2). lia. }
  intros t m' (-> & l' & HT' & Hnd' & HP). set (T' := lost_tree _ _ _ _ _ _ _ _) in *.
  exists (locs T'), (keys T'), x. split_and!.
  - by apply (tree_in_root _ (S (S h)) T').
  - unfold T', lost_tree. rewrite keys_between by done. rewrite !elem_of_app. right. left.
    rewrite HP in Hx. apply elem_of_cons in Hx as [->|Hx]; [lia|done].
  - unfold T. rewrite keys_between by done. rewrite !elem_of_app. auto.
  - eapply (lost_search h m p ks1 ks2 lks key leftKey ts1 ts2 lts lp r HT Hnd Hs Hlk H1 H2 fuel m' l');
      [lia|done..].
Qed.
