(* ===== verification/BTreeDemo.v ===== *)
(** * The B-tree at work

    The theorems on the B-tree at concrete trees and arrays, and a run that
    is out of memory. *)

From Stdlib Require Import Sorting.Sorted.
From S2P Require Import Prelude BTree BTreeNode BTreeShape BTreeInsert BTreeSearch BTreeRemove BTreeSystem.
Import BTree.

Definition empty_mem : Mem := mkMem ∅ 20.
Definition demo_data : list Z := [50; 20; 80; 10; 30; 60; 20; 90; 40; 70].

Lemma btree_create_correct_witness :
  runs (BTree_create 5 None demo_data) empty_mem (fun tree m1 => exists L l,
    tree_in m1 tree L l /\ sorted l /\ NoDup l /\ (forall x, x ∈ l <-> x ∈ demo_data) /\
    moves empty_mem [] m1 L /\
    (forall key, runs (BTree_search 5 tree key (-1)) m1 (fun r m2 => m2 = m1 /\
       (if decide (key ∈ demo_data) then located m1 L key r.1 r.2 else r = (None, -1)))) /\
    runs (BTree_destroy 5 tree) m1 (fun t m2 => t = None /\ m2 = empty_mem)).
Proof. apply btree_create_correct; cbn; lia. Defined.

Definition demo_ops : list op :=
  Search 1 :: Remove 1 :: map Insert demo_data ++ [Remove 20; Search 20; Insert 25; Remove 20; Remove 99].

Lemma btree_session_safe_witness :
  runs (session 5 None demo_ops) empty_mem (fun tree m1 =>
    (exists L l, tree_in m1 tree L l /\ moves empty_mem [] m1 L /\ (length l <= inserts demo_ops)%nat) /\
    runs (BTree_destroy 5 tree) m1 (fun t m2 => t = None /\ m2 = empty_mem)).
Proof. apply btree_session_safe; cbn; lia. Defined.

(** A tree of three levels. *)
Definition leaf (k : Z) : BTNode := mkNode 1 [k; 0; 0] [None; None; None; None] true.
Definition demo_mem : Mem := mkMem
  (list_to_map
     [(0%nat, mkNode 1 [60; 0; 0] [Some 1; Some 2; None; None]%nat false);
      (1%nat, mkNode 2 [20; 40; 0] [Some 3; Some 4; Some 5; None]%nat false);
      (2%nat, mkNode 1 [80; 0; 0] [Some 6; Some 7; None; None]%nat false);
      (3%nat, leaf 10); (4%nat, leaf 30); (5%nat, leaf 50); (6%nat, leaf 70); (7%nat, leaf 90)]) 5.
Definition demo_left : list tree := [Tree 3 [10] []; Tree 4 [30] []; Tree 5 [50] []].
Definition demo_right : tree := Tree 2 [80] [Tree 6 [70] []; Tree 7 [90] []].
Definition demo_tree : tree := Tree 0 [60] [Tree 1 [20; 40] demo_left; demo_right].

Ltac show_bt :=
  lazymatch goal with
  | |- bt _ _ _ => apply bt_unfold; split_and!; cbn [fmap list_fmap root length]; show_bt
  | |- node_at _ _ _ _ =>
      eexists; split; [reflexivity|]; eexists _, _; split; [reflexivity|]; split_and!; done
  | |- Forall _ (_ :: _) => constructor; show_bt
  | |- Forall _ [] => constructor
  | |- _ => first [reflexivity | lia]
  end.

Lemma demo_bt : bt 2 demo_mem demo_tree.
Proof. unfold demo_tree, demo_left, demo_right. show_bt. Qed.

Lemma demo_locs : NoDup (locs demo_tree).
Proof. apply (bool_decide_unpack _). by vm_compute. Qed.

Lemma btree_remove_correct_witness :
  runs (BTree_remove 5 (Some (root demo_tree)) 20) demo_mem (fun tree' m' => exists L' l',
    tree_in m' tree' L' l' /\ moves demo_mem (locs demo_tree) m' L' /\
    (20 ∈ keys demo_tree /\ keys demo_tree ≡ₚ 20 :: l' \/ 20 ∉ keys demo_tree /\ l' = keys demo_tree) /\
    (20 ∉ upper 2 demo_tree -> sorted l')) /\ 20 ∉ upper 2 demo_tree.
Proof.
  split.
  - apply btree_remove_correct; [exact demo_bt|exact demo_locs| |cbn; lia].
    repeat constructor; lia.
  - cbn. rewrite list_elem_of_singleton. lia.
Defined.

Lemma btree_remove_loses_key_witness :
  runs (BTree_remove 5 (Some 0%nat) 60) demo_mem (fun tree' m' => exists L' l' x,
    tree_in m' tree' L' l' /\ x ∈ l' /\ x ∈ keys demo_tree /\
    runs (BTree_search 5 tree' x (-1)) m' (fun res _ => res = (None, -1))).
Proof.
  apply (btree_remove_loses_key 0 demo_mem 0 [] 60 [] [] 1 [20] 40 demo_left [demo_right]);
    [exact demo_bt|exact demo_locs| |reflexivity|cbn; lia|cbn; lia].
  repeat constructor; lia.
Defined.

(** The key that is lost is 50: some node still has it. *)
Example lost_50 :
  match (tree ← BTree_remove 5 (Some 0%nat) 60; BTree_search 5 tree 50 (-1)) demo_mem with
  | Done (r, m) => r = (None, -1) /\
      existsb (fun n => bool_decide (50 ∈ take (Z.to_nat (keynum n)) (key n)))
        (map snd (map_to_list (cells m))) = true
  | _ => False
  end.
Proof. vm_compute. split; reflexivity. Qed.

(** With room for two nodes only the fourth insertion splits nothing and goes on
    to follow a null pointer. *)
Example out_of_memory :
  session 5 None [Insert 1; Insert 2; Insert 3; Insert 4] (mkMem ∅ 2) = Fault.
Proof. reflexivity. Qed.
